(* ===== verification/_CoqProject ===== *)
-Q . S2P
Prelude.v
NodeBuffer.v
LongNum.v
Datetime.v
UuidText.v
FixSized.v
JsNumber.v
Frames.v
Murmur.v
HeapData.v
PartitionService.v
ObjectData.v
Serialization.v
ClientMessage.v
MessageReader.v
Writer.v
CodecCore.v
BuiltinCodecs.v
CustomCodecs.v
Transport.v
SqlPageCodec.v
RequestCore.v
RequestTypes.v
MapRequests.v
CollectionRequests.v
ServiceRequests.v
Requests.v
ProxyCore.v
MapProxy.v
CollectionCore.v
ListProxy.v
QueueProxy.v
SetProxy.v
KeyedCore.v
MapQueries.v
MultiMapProxy.v
ReplicatedMapProxy.v
Ringbuffer.v
Errors.v
ReliableTopic.v
ConnectionRegistry.v
ClusterService.v
ConnectionManager.v
ClusterConnect.v
AddressUtil.v
ListenerService.v
Counters.v
CpSession.v
Sql.v
InvocationService.v
DataStoreHashMap.v
InvalidationMetadata.v
NearCache.v
NearCachedMap.v
MetricsCompressor.v
ConfigLookup.v
ProxyManager.v
Portable.v
PortableLayout.v
PortableWriting.v
PortableReading.v
