(* ===== verification/Prelude.v ===== *)
(** * Hazelcast Node.js client: verification development

    A model of the core of the Hazelcast client for Node.js (the TypeScript sources under [src/src/]; the
    paths below are relative to [src/], so that [src/network/Connection.ts] is the file
    [src/src/network/Connection.ts] of the repository), with the theorems that make it correct.

    ** The program and its parts

    A client connects to a cluster: [ConnectionManager] tries the configured addresses, and with failover
    the configured clusters, authenticates, and then keeps one TCP connection per member. A proxy (a distributed map, say)
    encodes a request into a [ClientMessage], a list of frames, and hands it to the
    [InvocationService]. The service gives it a correlation id, asks the [PartitionService], the
    [ConnectionRegistry] and the load balancer for a connection, registers the invocation as pending,
    and gives the message to the writer of the connection. The members' bytes come back through
    [ClientMessageReader] and [FragmentedClientMessageHandler]; a response settles its invocation, an
    exception message is turned into an error by [ClientErrorFactory] and is retried or
    reported, and an event goes to its handler. Member views and partition views keep
    [ClusterService] and [PartitionService] current. The near cache keeps values of a map in the client
    and is kept consistent by the invalidation events of the members and by a repairing task. Listeners are
    registered on every connection; counters, id generators, CP sessions and SQL results keep state of
    their own between requests. Keys and values become bytes in [SerializationServiceV1].

    The development follows this division.

    - Foundations. [Prelude]: fallible computations, the 32-bit operators of JavaScript, [js_map],
      tactics, hint databases, shared lemmas. [NodeBuffer]: the [Buffer] operations of Node.js.
      [LongNum]: 64-bit integers and [UUID]. [JsNumber]: doubles, floats and the coercions of numbers.
      [Datetime]: [src/util/DatetimeUtil.ts]. [UuidText]:
      [UUID.toString].
    - Wire protocol. [FixSized]: [src/util/BitsUtil.ts] and [src/codec/builtin/FixSizedTypesCodec.ts].
      [Frames] and [ClientMessage]: [src/protocol/ClientMessage.ts], by value and as linked objects of a
      heap. [MessageReader] and [Writer]: [src/network/Connection.ts]. [CodecCore] and
      [BuiltinCodecs]: [src/codec/builtin/]. [CustomCodecs]: [src/codec/custom/] and the types they
      encode. [Transport]: codecs, wire format and reader together. [SqlPageCodec]: the pages of SQL results, with
      [src/codec/builtin/ListCN*.ts] and [src/codec/builtin/BigDecimalCodec.ts].
    - Requests. [RequestCore] and [RequestTypes]: the format of a request, of a response and of an event, and what it
      means that a codec conforms to it. [MapRequests], [CollectionRequests] and [ServiceRequests]: the 239 codecs of
      [src/codec/], each with its format. [Requests]: the theorems about all of them.
    - Routing and invocations. [Murmur]: [src/invocation/Murmur.ts]. [HeapData]:
      [src/serialization/HeapData.ts]. [PartitionService]: [src/PartitionService.ts]. [Errors]:
      [src/core/HazelcastError.ts], [src/protocol/ClientProtocolErrorCodes.ts],
      [src/protocol/ErrorFactory.ts]. [ConnectionRegistry]: [ConnectionRegistryImpl] of
      [src/network/ConnectionManager.ts] and the load balancers. [ClusterService]:
      [src/invocation/ClusterService.ts]. [InvocationService]: [src/invocation/InvocationService.ts].
    - Connections. [AddressUtil]: [src/util/AddressUtil.ts], the default address provider and the choice of
      public addresses. [ClusterConnect]: the loop of [src/network/ConnectionManager.ts] that tries
      addresses and clusters, [src/network/WaitStrategy.ts], [src/ClusterFailoverService.ts] and
      [src/network/HeartbeatManager.ts]. [ConnectionManager]: the rest of
      [src/network/ConnectionManager.ts], with the life cycle. [ListenerService]:
      [src/listener/ListenerService.ts] and, in its Module [ClusterView],
      [src/listener/ClusterViewListenerService.ts].
    - Serialization. [ObjectData]: [src/serialization/ObjectData.ts]. [Serialization]:
      [src/serialization/SerializationService.ts], the default serializers, predicates and aggregators. [Portable]: the files of
      [src/serialization/portable/]; [PortableLayout]: the layout of portables; [PortableWriting] and [PortableReading]: that
      the writer writes it and the readers read it.
    - Near cache. [DataStoreHashMap], [InvalidationMetadata] and [NearCache]: [src/nearcache/]. [NearCachedMap]:
      [src/nearcache/NearCacheManager.ts] and [src/proxy/NearCachedMapProxy.ts].
    - Maps. [ProxyCore]: [src/proxy/BaseProxy.ts], the programs that send requests, members that serve them, and a
      program logic for the two. [MapProxy]: [src/proxy/MapProxy.ts]. [MapQueries]: its methods with predicates, its
      listeners, and paging predicates.
    - Collections. [CollectionCore]: [src/proxy/PartitionSpecificProxy.ts] and what the proxies of lists, queues and sets
      share. [ListProxy], [QueueProxy] and [SetProxy]: the files of these names under [src/proxy/]. [KeyedCore]: what
      objects with keys share, with the events and listeners of entries. [MultiMapProxy]: [src/proxy/MultiMapProxy.ts] and
      [src/proxy/LockReferenceIdGenerator.ts]. [ReplicatedMapProxy]: [src/proxy/ReplicatedMapProxy.ts]. [Ringbuffer]:
      [src/proxy/ringbuffer/]. [ReliableTopic]: [src/proxy/topic/].
    - Objects and settings. [ProxyManager]: [src/proxy/ProxyManager.ts]. [ConfigLookup]: the lookups of
      [src/config/Config.ts] with [src/config/ConfigPatternMatcher.ts]. [MetricsCompressor]:
      [src/statistics/MetricsCompressor.ts].
    - Stateful proxies. [Counters]: vector clocks, the PN counter and the batches of the Flake id generator
      of [src/proxy/]. [CpSession]: [src/proxy/cpsubsystem/CPSessionManager.ts] with the fenced lock and the
      semaphore that hold sessions. [Sql]: [src/sql/SqlResult.ts] and what it works with.

    ** How code is represented

    - A function that may throw returns a [res]: its value, or the class of the error
      ([js_error]). A method that changes its object takes the state of the object and returns the state
      after the call. Records have the fields of the classes, definitions the names of the methods
      (with a prefix where two classes use the same name).
    - Numbers are [Z]; the bitwise operators convert to 32 bits as JavaScript does ([js_and], [js_shl],
      [js_ushr] and the like), and a buffer access outside the buffer or outside the width throws a
      [RangeError]. Floating-point values are their bits.
    - A [Map] whose order is observable is a [js_map], an association list in insertion order; others
      are a [gmap]. Strings are sequences of bytes (their UTF-8 form).
    - Objects that are shared are on a heap: the frames and buffers of a message (a copy of a
      message shares them), the coalescing buffer of the writer (what the peer sees is what the buffer
      holds when the write completes), the invocations (referred to by the pending map, the event
      handlers and the callbacks), the records of the near cache (referred to by the store and by the
      pool of eviction candidates).
    - The event loop is explicit: a callback that has not run is a pending tick, an entry of the list of
      buffers in flight, or a task, and the theorems on reachable states let these
      run in every order. [Date.now()] and random choices are arguments, and so range over
      all values.
    - An asynchronous method that waits several times is an inductive type of stages and a step per
      callback (attempts to connect, operations on CP sessions and on counters, reads and writes of a near-cached map, calls of
      [next] of a result), or, where it
      keeps no state between its waits but that of its loop, a function over a type of worlds, in which each
      awaited call returns its answer and the world it arrives in ([World] of [ClusterConnect]). An exception thrown by such a
      method after it has changed its state is a value beside that state ([thrown] of [InvocationService], [Thrown] of [Sql],
      the inner [res] of the operations of [NearCache]). A method of a proxy is a term of [Proxy]: it returns, or sends a request and goes on with
      the answer, or sends several at once and goes on when all are answered.
    - A request is decoded by the member with the format of its codec ([RequestFormat]), which is not the
      encoder turned around but a list of fields and parameters. What the member does
      with it is a [Service]: a relation between the state, the arguments, the answer and the new state, from the
      documentation of the operation.
    - Code outside the repository is a parameter. The [long] package is the class [LongLib] with its
      documented behaviour in [LongLaws]; [Int64] is an instance. [Uninit] is the content of a buffer that
      [Buffer.allocUnsafe] returns. A user's load balancer is an instance of [LoadBalancer] and
      [LoadBalancerLaws]; the two built-in ones are shown to be instances.
    - Interfaces between components are classes too. [FixedCodec], [MsgCodec] and [StructCodec] say what a
      codec promises to those built on it, [WireMessage] and [WireMessageLaws] what a message promises to a
      writer, [DataCodec] what a pair of a writer and a reader promises to a serializer,
      [SerializationService] what the near cache calls, with its [SerializationLaws]. The classes of users and [JSON] are [UserTypes].

    ** What the theorems show

    - Messages. The operations on linked messages implement the list view, write exactly the wire format,
      and a copy never changes its original ([addFrame_refines], [toBuffer_wire], [merge_fragment],
      [copy_leaves_original]). The reader returns exactly the messages that were written, however
      the bytes are cut into chunks, and fragments of several messages that arrive interleaved are put
      together ([reader_roundtrip], [fragments_reassembled]).
    - Codecs. Every value is decoded to itself, with any bytes and frames around it; a
      decoder skips the fields of a newer peer and accepts the messages of an older one
      ([item_lists_roundtrip], [custom_codecs_forward_compatible], [older_peers_decoded],
      [number_as_long_roundtrip]); codecs, wire format and reader compose ([value_over_the_wire]).
    - Requests. With valid arguments every encoder returns a message that the member receives with
      the same arguments, in however many pieces ([requests_correct]); every response and event is decoded to the values
      the member sent, whatever a newer member adds ([replies_decoded]); so is a page of SQL rows with every
      type of column and every layout, up to the sign of a TINYINT and the seconds of an offset ([page_decoded]).
    - Maps. The 27 methods of the map proxy on entries, over members that hold the entries by partition, are the operations of one
      finite map, also those that send several requests at once ([map_proxy_refines_map], [set_then_get_value]). Those with a
      predicate return the entries it selects, page by page for a paging predicate ([map_queries_refined]), whose anchors
      go back to the members as they came ([anchors_sent_back]).
    - Collections. The methods of the proxies of lists, queues, sets and ringbuffers are the operations of a list, a
      bounded queue, a set and a ring held by the owner of one partition ([list_proxy_refines_list],
      [queue_proxy_refines_queue], [set_proxy_refines_set], [ring_proxy_refines_ring]). Those of a multi-map are the operations
      of one multi-map with a lock per key, in which every acquisition counts because no reference id is used twice
      ([multi_map_proxy_refines_multi_map]); those of a replicated map read the owner of a key or the copy of one member
      ([replicated_map_proxy_refines_map]). Events reach the function of the listener for their type
      ([multi_map_event_handled], [replicated_event_handled], [map_event_handled]).
    - Reliable topics. In every interleaving of answers and calls a listener gets the messages in the order of the
      ringbuffer, each at most once ([topic_messages_in_order]); a message that is published and not lost reaches it by the answers and callbacks
      of its own runner ([published_reaches_listener]); each overload policy has its outcome ([publish_outcome]).
    - Objects and settings. Callers that ask for the same name get the same promise, which settles
      ([one_promise_per_name]); the configuration that is found is that of the name, of the best pattern
      or the default one ([config_found]); the blob of the metrics contains every metric that was added
      ([metrics_read_back]).
    - Writer. In every interleaving of writes, ticks, drain events and completions the peer receives the
      messages in the order of the calls, one buffer is in flight at a time (the coalescing
      buffer is not overwritten while it is being sent), no wake-up is lost, and a failure
      settles every promise ([pipelined_fifo], [pipelined_one_in_flight], [pipelined_progress],
      [pipelined_failure_settles]).
    - Hashing and partitions. [murmur], written with 16-bit halves, is MurmurHash3, and none of its products
      leaves the exact integers ([murmur_is_murmur3], [mul_halves_safe]); the partition of a key is in
      range and the table is replaced only by newer views ([getPartitionId_bounds],
      [partition_table_newest], [partition_owner_after_event]).
    - Routing. The registry is a map by UUID, whose text identifies it ([registry_is_map],
      [UUID_toString_identifies]); a connection is found whenever there is one ([random_connection_found]),
      round robin is fair ([round_robin_fair]); errors of members become errors of the class of
      their code, with their causes ([error_factory_faithful]).
    - Members. A view replaces the list and the events are exactly the difference
      ([members_view_applied], [membership_events_exact]); replaying its calls, a listener knows the
      current members ([listeners_track_members]).
    - Invocations. In every reachable state each operation returns, or throws because a connection was closed, a settled promise keeps
      its result, and an unsettled one is still awaited ([no_invocation_lost]); a response waits for the backups
      it announces in any order of arrival ([backups_awaited]); shutdown settles everything
      ([shutdown_settles_all]).
    - Connections. In every reachable state all connections of the registry are to members of one cluster
      ([single_cluster]), an open connection is in the registry or belongs to an attempt
      ([no_connection_leaked]), an attempt that is under way is found by the next caller
      ([attempts_tracked]), and each answer to an authentication has one outcome, given by the conditions on the member, its cluster
      and its partitions ([authentication_outcome]). With a finite timeout the loop over addresses and
      clusters ends, whatever is answered ([doConnectToCluster_terminates]); failover tries the clusters in turn
      ([failover_in_turn]); an address is parsed to the host and port it was printed from
      ([address_parsed]); the back-off is bounded ([backoff_bounded]).
    - Listeners. On every connection a listener is registered or being registered, or a failure was logged
      ([listener_on_every_connection]); one that was deregistered leaves no handler
      ([deregistered_cleanly]), and the listener of cluster views is on some connection whenever there is
      one ([view_listener_kept]).
    - Serialization. Whatever is written is read back, from any position and with any bytes around it
      ([data_roundtrip]); a value of any of the built-in types is deserialized to itself
      ([toObject_toData]), and the partition hash of a key is that of its partition key
      ([partition_aware]). A portable is written in its layout, although the tables are filled in afterwards, with
      the definitions its schema gives ([portable_layout_written]); it is read back by name, with or without knowledge of its
      class, and by classes of other versions as they ask for it ([portable_read_back]).
    - Counters and ids. An operation of a counter tries each replica at most once and ends, while other operations share the
      target replica and members join and leave ([replicas_tried_once]); calls
      for an id are settled in order and no id is given out twice ([ids_in_order_and_unique]).
    - CP sessions. The acquire count of a session is what its operations hold ([session_accounted]); one
      request per group is under way ([one_session_request]).
    - SQL. Rows are returned once and in order ([rows_once_in_order]), and a call of [next] that has not settled
      can go on or waits for a request in flight, unless a fetch threw on a closed connection ([next_never_stuck]).
    - Near cache. The bucketed store refines a finite map ([hash_map_refines_map]); a reservation
      that was invalidated is never published ([invalidated_reservation_not_published]); [get] returns
      no expired and no stale value ([get_returns_fresh]); what was put is read back
      ([put_then_get]); a [put] keeps the size bound and evicts what the policy says, expired records first ([put_within_bound]); missed invalidations are counted and
      repaired ([missed_invalidations_counted], [anti_entropy_pass]). A near-cached map never hides
      the client's own writes, in any interleaving of calls, answers, events and repairs, if no two keys differ in their type
      only ([read_your_writes]); each callback of a [get] returns and brings it nearer to its end, and it is rejected only if the cache is not ready, the
      request fails or a conversion throws ([get_completes]).
    - Dates. Exactly the dates of the calendar are printed ([getLocalDateString_valid]).

    Some lemmas record behaviour that a caller should know: a writer that is closed forgets its
    queue ([close_forgets_queued]) and the cleaning task never settles such an invocation
    ([unwritten_never_cleaned]); an invocation that waits for its retry may be sent twice
    ([request_sent_twice]); the sequences of one map are recorded for another
    ([foreign_sequences_applied]); a reconciliation interval of 0 is refused
    ([disabled_reconciliation_fails]); an invalidated eviction candidate lets the cache grow above its
    bound ([stale_candidate_exceeds_bound]); equality of data ignores the type ([equals_ignores_type]), so that the near cache may
    hide a write ([confused_keys_hide_write]). An invocation bound to a closed connection throws and stays pending
    ([closed_connection_throws]), and so does a fetch of SQL rows ([fetch_on_closed_connection]). Fragments of messages with ids above 2^53 may be
    mixed up ([fragment_ids_collide]); a negative TINYINT is read as a positive number ([negative_tinyint]). Vector clocks find
    their replicas by the identity of the UUID objects and so miss earlier writes ([write_not_observed],
    [concurrent_is_after]); a failed acquisition of a session is masked ([acquire_error_masked]), a refused release is
    still counted ([refused_release_uncounted]) and a session in use may be replaced
    ([session_replaced_in_use]); concurrent calls of [next] may run over the last row
    ([concurrent_next_overruns]). A [get] that fails leaves its reservation in the near cache
    ([failed_get_keeps_reservation]), and so does one whose answer cannot be deserialized ([unreadable_answer_keeps_reservation]), a write whose answer is lost leaves the old value
    ([lost_answer_keeps_value]), and [getAll] caches nothing behind a key that is absent
    ([getAll_of_absent_key_caches_nothing]). A topic with the policy [BLOCK] sends again at once
    ([block_sends_at_once]); a listener whose first request fails, or whose batch is too large, never reads
    ([tail_failed_for_good], [large_batch_reads_nothing]). A metric that is refused leaves its first bytes
    ([refused_metric_leaves_bytes]). The two parts of a pattern may overlap in a name ([parts_overlap]), and a map cannot
    have the name of an inherited property ([inherited_name_fails]). A creation that fails late removes the entry
    of its successor ([stale_failure_removes_entry]), a destroyed topic stays registered
    ([destroyed_topic_stays]), and an object of an unknown service makes the list of objects fail
    ([unknown_service_rejected]). A field of a portable whose name is not in ASCII is read from the wrong place
    ([wide_name_misread]), a versioned class that was written cannot be read inside another
    ([versioned_definition_conflict]), and a missing portable throws where other missing fields do not
    ([missing_portable_throws]). A listener for a key that JavaScript takes for false listens to all keys
    ([falsy_key_listens_to_all], [falsy_key_of_replicated_map], [falsy_key_of_map]), and a page that was skipped has the
    anchor of another ([anchor_of_skipped_page]).

    ** Fuel

    Loops that are not structural take fuel; running out of it is the error [OutOfFuel], and the
    theorems say that the functions return, so the bounds below are enough.

    - [loop_fuel]: a walk over the frames of a message visits each frame of the heap at most once.
    - [reader_fuel]: every turn of the reader that continues consumes a byte of the chunks.
    - [decode_until_end] is run with one more than the number of frames left; every item takes one.
    - [decode_mixed] runs once per item: a bit mask is followed by the items it announces, at least one.
    - [invoke_fuel] is 6: an invocation is retried at once only while its count is
      below [MAX_FAST_INVOCATION_COUNT], which is 5; later retries go through a timer, a task.
    - [doConnectToCluster] runs [T + 2] rounds per cluster, where [T] is the timeout in milliseconds: each round that
      fails waits, and the waits add up to the timeout.
    - [readObject] and [readClassDefinitionFromInput] go down one level of nested portables per unit of fuel; the depth of the object
      is enough.
    - [toString16] uses 8 digits, enough for a 32-bit number; [instanceof] goes up 3 classes, the
      depth of the hierarchy.

    ** What is not modelled

    - The proxies of atomic references, latches and semaphores without sessions: their requests are modelled, the methods that
      send them, one request each, are not. Of the map proxy, indexes. Leases of locks and times to live: the members of the model keep what is stored.
    - The connection of [Portable] with the serialization service, which takes the serializers of portables as those of the
      user's classes ([UserTypes]).
    - The validation of SQL statements and of the configuration: checks of the types of user input.
    - The gauges and the text of [src/statistics/Statistics.ts]: they read the operating system.
    - Sockets and TLS, the cloud discovery and logging: network and console I/O. *)

From Stdlib Require Export ZArith Lia Bool.
From stdpp Require Export base tactics option list list_numbers numbers gmap strings.

#[global] Open Scope Z_scope.

(** ** JavaScript errors and fallible computations

    A throwing function returns a [res]: [Ok] with its value or [Err] with the
    class of the error it throws. *)

Inductive js_error :=
  | RangeError
  | TypeError
  | Error
  | AssertionError
  | IOError
  | IllegalStateError
  | ClientNotActiveError
  | ClientOfflineError
  | HazelcastError
  | OutOfFuel.

#[global] Instance js_error_eq_dec : EqDecision js_error.
Proof. solve_decision. Defined.

Inductive res (A : Type) : Type :=
  | Ok (a : A)
  | Err (e : js_error).
Arguments Ok {A} a.
Arguments Err {A} e.

#[global] Instance res_ret : MRet res := fun A a => Ok a.
#[global] Instance res_bind : MBind res := fun A B f m =>
  match m with Ok a => f a | Err e => Err e end.
#[global] Instance res_fmap : FMap res := fun A B f m =>
  match m with Ok a => Ok (f a) | Err e => Err e end.

#[global] Instance res_eq_dec {A} `{EqDecision A} : EqDecision (res A).
Proof. solve_decision. Defined.

Lemma res_bind_ok {A B} (f : A -> res B) (a : A) : (x ← Ok a; f x) = f a.
Proof. done. Qed.

Lemma res_bind_inv {A B} (m : res A) (f : A -> res B) (b : B) :
  (x ← m; f x) = Ok b -> exists a, m = Ok a /\ f a = Ok b.
Proof. destruct m; [eauto | done]. Qed.

(** ** Machine integers and the 32-bit operators of JavaScript *)

Definition uwrap (w z : Z) : Z := z mod 2 ^ w.
Definition swrap (w z : Z) : Z := (z + 2 ^ (w - 1)) mod 2 ^ w - 2 ^ (w - 1).

Definition in_sint (w z : Z) : Prop := - 2 ^ (w - 1) <= z < 2 ^ (w - 1).
Definition in_uint (w z : Z) : Prop := 0 <= z < 2 ^ w.

(** [x | 0] and [x >>> 0] on an integer. *)
Definition to_int32 (z : Z) : Z := swrap 32 z.
Definition to_uint32 (z : Z) : Z := uwrap 32 z.

Definition js_and (a b : Z) : Z := to_int32 (Z.land a b).
Definition js_or (a b : Z) : Z := to_int32 (Z.lor a b).
Definition js_xor (a b : Z) : Z := to_int32 (Z.lxor a b).
Definition js_shl (a n : Z) : Z := to_int32 (Z.shiftl a (n mod 32)).
Definition js_ushr (a n : Z) : Z := Z.shiftr (to_uint32 a) (n mod 32).

(** Integers a double represents exactly. *)
Definition safe_int (z : Z) : Prop := - (2 ^ 53 - 1) <= z <= 2 ^ 53 - 1.

Lemma uwrap_range w z : 0 <= w -> in_uint w (uwrap w z).
Proof. intros. unfold in_uint, uwrap. apply Z.mod_pos_bound. lia. Qed.

Lemma uwrap_id w z : in_uint w z -> uwrap w z = z.
Proof. apply Z.mod_small. Qed.

Lemma swrap_range w z : 0 < w -> in_sint w (swrap w z).
Proof.
  intros Hw. unfold in_sint, swrap.
  assert (2 ^ w = 2 * 2 ^ (w - 1)) as E.
  { rewrite <- Z.pow_succ_r by lia. f_equal. lia. }
  pose proof (Z.mod_pos_bound (z + 2 ^ (w - 1)) (2 ^ w)).
  assert (0 < 2 ^ (w - 1)) by (apply Z.pow_pos_nonneg; lia). lia.
Qed.

Lemma swrap_id w z : 0 < w -> in_sint w z -> swrap w z = z.
Proof.
  intros Hw Hz. unfold in_sint, swrap in *.
  assert (2 ^ w = 2 * 2 ^ (w - 1)) as E.
  { rewrite <- Z.pow_succ_r by lia. f_equal. lia. }
  rewrite Z.mod_small; lia.
Qed.

Lemma swrap_uwrap w z : 0 < w -> swrap w (uwrap w z) = swrap w z.
Proof. intros. unfold swrap, uwrap. rewrite Zplus_mod_idemp_l. done. Qed.

Lemma uwrap_swrap w z : 0 < w -> uwrap w (swrap w z) = uwrap w z.
Proof.
  intros. unfold swrap, uwrap.
  rewrite Zminus_mod_idemp_l. f_equal. lia.
Qed.

Lemma uwrap_uwrap w z : uwrap w (uwrap w z) = uwrap w z.
Proof. unfold uwrap. apply Zmod_mod. Qed.

Lemma swrap_swrap w z : 0 < w -> swrap w (swrap w z) = swrap w z.
Proof. intros. rewrite <- swrap_uwrap, uwrap_swrap, swrap_uwrap; done. Qed.

(** Two integers congruent modulo [2^w] have the same wrap-around. *)
Lemma swrap_congr w a b : uwrap w a = uwrap w b -> 0 < w -> swrap w a = swrap w b.
Proof. intros E Hw. rewrite <- swrap_uwrap, E, swrap_uwrap; done. Qed.

(** Bitwise or stays within the width of its operands. *)
Lemma lor_range w a b : 0 <= w -> in_uint w a -> in_uint w b -> in_uint w (Z.lor a b).
Proof.
  unfold in_uint. intros Hw Ha Hb. split; [apply Z.lor_nonneg; lia|].
  rewrite <- (Z.mod_small a (2 ^ w)), <- (Z.mod_small b (2 ^ w)), <- !Z.land_ones by lia.
  rewrite <- Z.land_lor_distr_l, Z.land_ones by lia. apply Z.mod_pos_bound. lia.
Qed.

Lemma in_uint_weaken w w' z : 0 <= w <= w' -> in_uint w z -> in_uint w' z.
Proof.
  unfold in_uint. intros Hw Hz. pose proof (Z.pow_le_mono_r 2 w w' ltac:(lia) ltac:(lia)). lia.
Qed.

Lemma in_uint_sint w z : 0 < w -> in_uint (w - 1) z -> in_sint w z.
Proof. unfold in_uint, in_sint. lia. Qed.

Create HintDb hz discriminated.
#[export] Hint Resolve uwrap_range swrap_range : hz.

(** ** Tactics *)

(** Splits a boolean conjunction or a decided comparison of the context. *)
Ltac bool_hyps :=
  repeat match goal with
  | H : _ && _ = true |- _ => apply andb_prop in H; destruct H
  | H : _ || _ = false |- _ => apply orb_false_elim in H; destruct H
  | H : negb _ = true |- _ => apply negb_true_iff in H
  | H : negb _ = false |- _ => apply negb_false_iff in H
  | H : (_ <=? _) = true |- _ => apply Z.leb_le in H
  | H : (_ <=? _) = false |- _ => apply Z.leb_gt in H
  | H : (_ <? _) = true |- _ => apply Z.ltb_lt in H
  | H : (_ <? _) = false |- _ => apply Z.ltb_ge in H
  | H : (_ =? _) = true |- _ => apply Z.eqb_eq in H
  | H : (_ =? _) = false |- _ => apply Z.eqb_neq in H
  end.

(** Case analysis on the scrutinee of an [if] or [match] of the goal. *)
Ltac case_if :=
  match goal with
  | |- context [if ?b then _ else _] => let E := fresh "E" in destruct b eqn:E
  end.

(** Runs the binds of a [res] computation in the context. *)
Ltac res_inv :=
  repeat match goal with
  | H : Ok _ = Ok _ |- _ => injection H as H; try subst
  | H : Err _ = Ok _ |- _ => discriminate H
  | H : Ok _ = Err _ |- _ => discriminate H
  | H : mbind _ _ = Ok _ |- _ =>
      apply res_bind_inv in H; destruct H as (? & ? & H)
  end.

(** ** Lists *)

Lemma length_Z_nonneg {A} (l : list A) : 0 <= Z.of_nat (length l).
Proof. lia. Qed.

(** A list of known length splits at every position below it. *)
Lemma take_drop_app {A} (n m : nat) (l : list A) :
  take n l ++ take m (drop n l) = take (n + m) l.
Proof. by rewrite take_take_drop. Qed.

Lemma filter_all {A} (P : A -> Prop) `{!forall x, Decision (P x)} (l : list A) :
  (forall x, x ∈ l -> P x) -> filter P l = l.
Proof.
  induction l as [|x l IH]; intros Hl; [done|]. rewrite filter_cons_True, IH; [done | | apply Hl; by left].
  intros y Hy. apply Hl. by right.
Qed.

Lemma filter_ext_in {A} (P Q : A -> Prop) `{!forall x, Decision (P x)} `{!forall x, Decision (Q x)} (l : list A) :
  (forall x, x ∈ l -> P x <-> Q x) -> filter P l = filter Q l.
Proof.
  induction l as [|x l IH]; intros Hl; [done|]. rewrite !filter_cons, IH by (intros y Hy; apply Hl; by right).
  pose proof (Hl x ltac:(by left)). destruct (decide (P x)), (decide (Q x)); tauto.
Qed.

(** ** JavaScript maps

    A [Map] is its entries in insertion order; [same] is its key
    comparison: equality on primitive keys, while a freshly created object is the same as
    no other key. *)

Definition js_map (K V : Type) : Type := list (K * V).

Fixpoint js_map_get {K V} (same : K -> K -> bool) (m : js_map K V) (k : K) : option V :=
  match m with
  | [] => None
  | (k', v) :: m => if same k' k then Some v else js_map_get same m k
  end.

Fixpoint js_map_set {K V} (same : K -> K -> bool) (m : js_map K V) (k : K) (v : V) : js_map K V :=
  match m with
  | [] => [(k, v)]
  | (k', v') :: m => if same k' k then (k', v) :: m else (k', v') :: js_map_set same m k v
  end.

(** [delete], with its answer: was the key there. *)
Fixpoint js_map_delete {K V} (same : K -> K -> bool) (m : js_map K V) (k : K) : bool * js_map K V :=
  match m with
  | [] => (false, [])
  | (k', v) :: m =>
      if same k' k then (true, m) else let '(b, m) := js_map_delete same m k in (b, (k', v) :: m)
  end.

Fixpoint js_map_wf {K V} (same : K -> K -> bool) (m : js_map K V) : Prop :=
  match m with
  | [] => True
  | (k, _) :: m => Forall (fun e => same k e.1 = false) m /\ js_map_wf same m
  end.

Section JsMaps.
Context {K V : Type}.

(** Setting the entries of a map one by one, in its order, gives the map. *)
Lemma js_map_set_new (same : K -> K -> bool) (m : js_map K V) k v :
  Forall (fun e => same e.1 k = false) m -> js_map_set same m k v = m ++ [(k, v)].
Proof.
  induction 1 as [|[k' v'] m Hk _ IH]; [done|]. cbn in *. by rewrite Hk, IH.
Qed.

Lemma js_map_rebuild (same : K -> K -> bool) (l : js_map K V) : forall m : js_map K V,
  js_map_wf same l -> Forall (fun e => Forall (fun e' => same e.1 e'.1 = false) l) m ->
  foldl (fun m e => js_map_set same m e.1 e.2) m l = m ++ l.
Proof.
  induction l as [|[k v] l IH]; intros m Hwf Hm; cbn; [by rewrite app_nil_r|].
  destruct Hwf as [Hk Hwf]. rewrite js_map_set_new.
  - rewrite IH; [by rewrite <- app_assoc | done |]. apply Forall_app. split; [|by apply Forall_singleton].
    eapply Forall_impl; [exact Hm|]. intros e He. by apply Forall_cons in He as [_ He].
  - eapply Forall_impl; [exact Hm|]. intros e He. by apply Forall_cons in He as [He _].
Qed.

(** The laws of a map whose key comparison is equality. *)
Section Equality.
Context (same : K -> K -> bool) (same_spec : forall a b, same a b = true <-> a = b).

Lemma same_refl k : same k k = true.
Proof. by apply same_spec. Qed.

Lemma js_map_get_set (m : js_map K V) k v k' :
  js_map_get same (js_map_set same m k v) k' = if same k k' then Some v else js_map_get same m k'.
Proof.
  induction m as [|[k0 v0] m IH]; cbn; [done|]. destruct (same k0 k) eqn:E; cbn.
  - apply same_spec in E as ->. by destruct (same k k').
  - rewrite IH. destruct (same k0 k') eqn:E', (same k k') eqn:E''; try done.
    apply same_spec in E' as ->. apply same_spec in E'' as ->. by rewrite same_refl in E.
Qed.

Lemma js_map_get_Some (m : js_map K V) k v : js_map_get same m k = Some v -> (k, v) ∈ m.
Proof.
  induction m as [|[k0 v0] m IH]; cbn; [done|]. destruct (same k0 k) eqn:E.
  - intros [= ->]. apply same_spec in E as ->. by left.
  - intros Hm. right. by apply IH.
Qed.

Lemma js_map_get_absent (m : js_map K V) k : Forall (fun e => same k e.1 = false) m -> js_map_get same m k = None.
Proof.
  induction 1 as [|[k0 v0] m Hk _ IH]; cbn in *; [done|]. destruct (same k0 k) eqn:E; [|done].
  apply same_spec in E as ->. by rewrite same_refl in Hk.
Qed.

Lemma js_map_get_elem (m : js_map K V) k v : js_map_wf same m -> (k, v) ∈ m -> js_map_get same m k = Some v.
Proof.
  induction m as [|[k0 v0] m IH]; cbn; intros Hwf Hm; [by apply not_elem_of_nil in Hm|].
  destruct Hwf as [Hk Hwf]. apply elem_of_cons in Hm as [[= -> ->]|Hm]; [by rewrite same_refl|].
  rewrite Forall_forall in Hk. specialize (Hk _ Hm). cbn in Hk. rewrite Hk. by apply IH.
Qed.

Lemma js_map_empty (m : js_map K V) : (forall k, js_map_get same m k = None) -> m = [].
Proof.
  destruct m as [|[k v] m]; [done|]. intros Hm. specialize (Hm k). cbn in Hm. by rewrite same_refl in Hm.
Qed.

Lemma js_map_set_keys (m : js_map K V) k v a :
  same a k = false -> Forall (fun e => same a e.1 = false) m -> Forall (fun e => same a e.1 = false) (js_map_set same m k v).
Proof.
  intros Ha. induction 1 as [|[k0 v0] m Hk Hm IH]; cbn in *; [by apply Forall_singleton|].
  destruct (same k0 k); by apply Forall_cons.
Qed.

Lemma js_map_set_wf (m : js_map K V) k v : js_map_wf same m -> js_map_wf same (js_map_set same m k v).
Proof.
  induction m as [|[k0 v0] m IH]; cbn; [done|]. intros [Hk Hwf].
  destruct (same k0 k) eqn:E; cbn; split; auto. by apply js_map_set_keys.
Qed.

Lemma js_map_delete_keys (m : js_map K V) k a :
  Forall (fun e => same a e.1 = false) m -> Forall (fun e => same a e.1 = false) (js_map_delete same m k).2.
Proof.
  induction 1 as [|[k0 v0] m Hk Hm IH]; cbn in *; [done|]. destruct (same k0 k); [done|].
  destruct (js_map_delete same m k). by apply Forall_cons.
Qed.

Lemma js_map_delete_wf (m : js_map K V) k : js_map_wf same m -> js_map_wf same (js_map_delete same m k).2.
Proof.
  induction m as [|[k0 v0] m IH]; cbn; [done|]. intros [Hk Hwf]. destruct (same k0 k) eqn:E; [done|].
  pose proof (js_map_delete_keys m k k0 Hk) as Hd. specialize (IH Hwf).
  destruct (js_map_delete same m k). by split.
Qed.

Lemma js_map_delete_found (m : js_map K V) k :
  (js_map_delete same m k).1 = match js_map_get same m k with Some _ => true | None => false end.
Proof.
  induction m as [|[k0 v0] m IH]; cbn; [done|]. destruct (same k0 k); [done|].
  by destruct (js_map_delete same m k).
Qed.

Lemma js_map_get_delete (m : js_map K V) k k' : js_map_wf same m ->
  js_map_get same (js_map_delete same m k).2 k' = if same k k' then None else js_map_get same m k'.
Proof.
  induction m as [|[k0 v0] m IH]; cbn; [by destruct (same k k')|]. intros [Hk Hwf].
  destruct (same k0 k) eqn:E.
  - apply same_spec in E as ->. cbn. destruct (same k k') eqn:E'; [|done].
    apply same_spec in E' as <-. by apply js_map_get_absent.
  - specialize (IH Hwf). destruct (js_map_delete same m k) as [b m']. cbn in *. rewrite IH.
    destruct (same k0 k') eqn:E', (same k k') eqn:E''; try done.
    apply same_spec in E' as ->. apply same_spec in E'' as ->. by rewrite same_refl in E.
Qed.
End Equality.
End JsMaps.
