(* ===== verification/NodeBuffer.v ===== *)
(** * Node.js buffers

    The [Buffer] operations of the Node.js standard library that the client
    uses, on lists of bytes: bounds-checked little- and big-endian integer
    reads and writes, [slice], [concat], [copy] and [allocUnsafe]. A read or
    write outside the buffer, or of a value outside the width, throws a
    [RangeError], as Node's checks do. Strings are represented by their UTF-8
    bytes, so that [Buffer.from(s, 'utf8')] and [toString('utf8')] are the two
    directions of the byte view of a [string]. *)

From coqutil Require Export Byte Word.LittleEndianList.
From S2P Require Export Prelude.
#[local] Open Scope Z_scope.

Abbreviation buffer := (list Init.Byte.byte).
Abbreviation blen b := (Z.of_nat (length b)).

#[global] Instance byte_eq_dec : EqDecision Init.Byte.byte := Byte.byte_eq_dec.
#[global] Instance byte_countable : Countable Init.Byte.byte.
Proof.
  refine (inj_countable Byte.to_nat Byte.of_nat _). intros b. apply Byte.of_to_nat.
Defined.

(** What [Buffer.allocUnsafe] leaves in a fresh buffer is arbitrary. *)
Class Uninit := uninit : nat -> Init.Byte.byte.

Definition allocUnsafe `{Uninit} (size : Z) : buffer := uninit <$> seq 0 (Z.to_nat size).

Definition in_bounds (b : buffer) (off n : Z) : bool :=
  (0 <=? off) && (off + n <=? blen b).

(** The [n] bytes at [off]. *)
Definition sub (b : buffer) (off : Z) (n : nat) : buffer := take n (drop (Z.to_nat off) b).

(** [b] with [bs] written over it at [off]. *)
Definition write_at (b : buffer) (off : Z) (bs : buffer) : buffer :=
  take (Z.to_nat off) b ++ bs ++ drop (Z.to_nat off + length bs) b.

(** [buf.slice(start)] and [buf.slice(start, end)], non-negative arguments:
    indices past the end are clamped. *)
Definition slice_from (b : buffer) (start : Z) : buffer := drop (Z.to_nat start) b.
Definition slice (b : buffer) (start stop : Z) : buffer :=
  drop (Z.to_nat start) (take (Z.to_nat stop) b).

(** ** Fixed-width reads and writes *)

Definition readUIntLE (n : nat) (b : buffer) (off : Z) : res Z :=
  if in_bounds b off (Z.of_nat n) then Ok (le_combine (sub b off n)) else Err RangeError.
Definition readUIntBE (n : nat) (b : buffer) (off : Z) : res Z :=
  if in_bounds b off (Z.of_nat n) then Ok (le_combine (rev (sub b off n))) else Err RangeError.
Definition readSIntLE (n : nat) (b : buffer) (off : Z) : res Z :=
  swrap (8 * Z.of_nat n) <$> readUIntLE n b off.
Definition readSIntBE (n : nat) (b : buffer) (off : Z) : res Z :=
  swrap (8 * Z.of_nat n) <$> readUIntBE n b off.

Definition write_bytes (b : buffer) (off : Z) (bs : buffer) : res buffer :=
  if in_bounds b off (Z.of_nat (length bs)) then Ok (write_at b off bs) else Err RangeError.

Definition fits_uint (w v : Z) : bool := (0 <=? v) && (v <? 2 ^ w).
Definition fits_sint (w v : Z) : bool := (- 2 ^ (w - 1) <=? v) && (v <? 2 ^ (w - 1)).

Definition writeUIntLE (n : nat) (b : buffer) (v off : Z) : res buffer :=
  if fits_uint (8 * Z.of_nat n) v then write_bytes b off (le_split n v) else Err RangeError.
Definition writeUIntBE (n : nat) (b : buffer) (v off : Z) : res buffer :=
  if fits_uint (8 * Z.of_nat n) v then write_bytes b off (rev (le_split n v)) else Err RangeError.
Definition writeSIntLE (n : nat) (b : buffer) (v off : Z) : res buffer :=
  if fits_sint (8 * Z.of_nat n) v then write_bytes b off (le_split n v) else Err RangeError.
Definition writeSIntBE (n : nat) (b : buffer) (v off : Z) : res buffer :=
  if fits_sint (8 * Z.of_nat n) v then write_bytes b off (rev (le_split n v)) else Err RangeError.

Definition readUInt8 := readUIntLE 1.
Definition readInt8 := readSIntLE 1.
Definition readUInt16LE := readUIntLE 2.
Definition readUInt16BE := readUIntBE 2.
Definition readInt16LE := readSIntLE 2.
Definition readInt16BE := readSIntBE 2.
Definition readUInt32LE := readUIntLE 4.
Definition readUInt32BE := readUIntBE 4.
Definition readInt32LE := readSIntLE 4.
Definition readInt32BE := readSIntBE 4.

Definition writeUInt8 := writeUIntLE 1.
Definition writeInt8 := writeSIntLE 1.
Definition writeUInt16LE := writeUIntLE 2.
Definition writeUInt16BE := writeUIntBE 2.
Definition writeInt16LE := writeSIntLE 2.
Definition writeInt16BE := writeSIntBE 2.
Definition writeUInt32LE := writeUIntLE 4.
Definition writeUInt32BE := writeUIntBE 4.
Definition writeInt32LE := writeSIntLE 4.
Definition writeInt32BE := writeSIntBE 4.

(** [source.copy(target, pos)]: copies what fits. *)
Definition copy_into (source target : buffer) (pos : Z) : buffer :=
  write_at target pos (take (length target - Z.to_nat pos) source).

(** ** Strings as UTF-8 bytes *)

Definition from_utf8 (s : string) : buffer := String.list_byte_of_string s.
Definition to_utf8_string (b : buffer) : string := String.string_of_list_byte b.

(** ** Lemmas *)

Lemma length_allocUnsafe `{Uninit} size : length (allocUnsafe size) = Z.to_nat size.
Proof. unfold allocUnsafe. by rewrite length_fmap, length_seq. Qed.

Lemma in_bounds_true b off n : in_bounds b off n = true <-> 0 <= off /\ off + n <= blen b.
Proof. unfold in_bounds. rewrite andb_true_iff, Z.leb_le, Z.leb_le. done. Qed.

Lemma length_write_at b off bs :
  in_bounds b off (blen bs) = true -> length (write_at b off bs) = length b.
Proof.
  rewrite in_bounds_true. intros [? ?]. unfold write_at.
  rewrite !length_app, length_take, length_drop. lia.
Qed.

Lemma length_sub b off n :
  in_bounds b off (Z.of_nat n) = true -> length (sub b off n) = n.
Proof.
  rewrite in_bounds_true. intros [? ?]. unfold sub.
  rewrite length_take, length_drop. lia.
Qed.

Lemma sub_write_same b off bs :
  in_bounds b off (blen bs) = true -> sub (write_at b off bs) off (length bs) = bs.
Proof.
  rewrite in_bounds_true. intros [? ?]. unfold sub, write_at.
  rewrite drop_app_length' by (rewrite length_take; lia).
  by rewrite take_app_length.
Qed.

Lemma sub_write_other b off bs off' n :
  in_bounds b off (blen bs) = true -> in_bounds b off' (Z.of_nat n) = true ->
  off' + Z.of_nat n <= off \/ off + blen bs <= off' ->
  sub (write_at b off bs) off' n = sub b off' n.
Proof.
  rewrite !in_bounds_true. intros [? ?] [? ?] Hd. apply list_eq. intros i.
  unfold sub, write_at.
  destruct (decide (i < n)%nat) as [Hi|Hi].
  2:{ rewrite !lookup_take_ge by lia. done. }
  rewrite !lookup_take_lt, !lookup_drop by lia.
  destruct Hd as [Hd|Hd].
  - rewrite lookup_app_l by (rewrite length_take; lia).
    rewrite lookup_take_lt by lia. done.
  - rewrite lookup_app_r by (rewrite length_take; lia).
    rewrite lookup_app_r by (rewrite length_take; lia).
    rewrite lookup_drop, length_take. f_equal. lia.
Qed.

Lemma write_bytes_ok b off bs :
  in_bounds b off (blen bs) = true -> write_bytes b off bs = Ok (write_at b off bs).
Proof. unfold write_bytes. by intros ->. Qed.

Lemma in_bounds_write b off bs off' n :
  in_bounds b off (blen bs) = true ->
  in_bounds (write_at b off bs) off' n = in_bounds b off' n.
Proof. intros. unfold in_bounds. by rewrite length_write_at. Qed.

(** Two writes one after the other are one write of the joined bytes. *)
Lemma write_at_app b off bs cs :
  in_bounds b off (blen bs + blen cs) = true ->
  write_at (write_at b off bs) (off + blen bs) cs = write_at b off (bs ++ cs).
Proof.
  rewrite in_bounds_true. intros [? ?]. unfold write_at.
  replace (Z.to_nat (off + blen bs)) with (Z.to_nat off + length bs)%nat by lia.
  rewrite <- (app_assoc bs cs). rewrite (app_assoc (take _ b) bs (drop _ b)) at 1.
  rewrite take_app_length' by (rewrite length_app, length_take; lia).
  rewrite <- app_assoc. do 2 f_equal. f_equal.
  rewrite app_assoc, drop_app_ge by (rewrite length_app, length_take; lia).
  rewrite length_app, length_take, drop_drop, length_app. f_equal. lia.
Qed.

Lemma fits_sint_true w v : fits_sint w v = true <-> in_sint w v.
Proof. unfold fits_sint, in_sint. rewrite andb_true_iff, Z.leb_le, Z.ltb_lt. done. Qed.

Lemma fits_uint_true w v : fits_uint w v = true <-> in_uint w v.
Proof. unfold fits_uint, in_uint. rewrite andb_true_iff, Z.leb_le, Z.ltb_lt. done. Qed.

Lemma le_combine_split_wrap n v : le_combine (le_split n v) = uwrap (8 * Z.of_nat n) v.
Proof. rewrite le_combine_split. unfold uwrap. f_equal. f_equal. lia. Qed.

Lemma swrap_split n v :
  (0 < n)%nat -> in_sint (8 * Z.of_nat n) v ->
  swrap (8 * Z.of_nat n) (le_combine (le_split n v)) = v.
Proof.
  intros Hn Hv. rewrite le_combine_split_wrap, swrap_uwrap by lia.
  apply swrap_id; [lia | done].
Qed.

Lemma uwrap_split n v :
  in_uint (8 * Z.of_nat n) v -> le_combine (le_split n v) = v.
Proof. intros Hv. rewrite le_combine_split_wrap. by apply uwrap_id. Qed.

Lemma readUIntLE_sub n b off :
  in_bounds b off (Z.of_nat n) = true -> readUIntLE n b off = Ok (le_combine (sub b off n)).
Proof. unfold readUIntLE. by intros ->. Qed.

Lemma readUIntBE_sub n b off :
  in_bounds b off (Z.of_nat n) = true -> readUIntBE n b off = Ok (le_combine (rev (sub b off n))).
Proof. unfold readUIntBE. by intros ->. Qed.

Lemma string_bytes_roundtrip s : to_utf8_string (from_utf8 s) = s.
Proof. apply String.string_of_list_byte_of_string. Qed.

Lemma bytes_string_roundtrip b : from_utf8 (to_utf8_string b) = b.
Proof. apply String.list_byte_of_string_of_list_byte. Qed.
