(* ===== verification/LongNum.v ===== *)
(** * 64-bit integers and UUIDs

    The [long] package is not part of the repository: the class [LongLib] names
    the operations of its signed [Long] values that the client calls, and
    [LongLaws] their documented behaviour (two's-complement 64-bit arithmetic).
    Everything that handles a [Long] is parameterised by it. [Int64] is an
    instance, so that the definitions compute on concrete values.

    [UUID] is the class of [src/core/UUID.ts]. *)

From S2P Require Export Prelude.
#[local] Open Scope Z_scope.

Class LongLib (L : Type) := {
  long_val : L -> Z;               (** the integer a [Long] denotes *)
  long_of_bits : Z -> Z -> L;      (** [new Long(low, high)] *)
  long_low : L -> Z;               (** [low] *)
  long_high : L -> Z;              (** [high] *)
  long_of_Z : Z -> L;              (** [Long.fromNumber], [Long.fromValue] on a number *)
  long_add : L -> L -> L;          (** [add] *)
  long_sub : L -> L -> L;          (** [subtract] *)
  long_neg : L -> L;               (** [negate] *)
  long_eqb : L -> L -> bool;       (** [equals] *)
  long_leb : L -> L -> bool;       (** [lessThanOrEqual], [greaterThanOrEqual] swapped *)
  long_ltb : L -> L -> bool;       (** [lessThan], [greaterThan] swapped *)
}.

Class LongLaws (L : Type) `{LongLib L} := {
  long_val_range x : in_sint 64 (long_val x);
  long_val_inj x y : long_val x = long_val y -> x = y;
  long_val_of_bits lo hi :
    long_val (long_of_bits lo hi) = swrap 64 (hi * 2 ^ 32 + uwrap 32 lo);
  long_low_spec x : long_low x = swrap 32 (long_val x);
  long_high_spec x : long_high x = long_val x / 2 ^ 32;
  long_val_of_Z z : in_sint 64 z -> long_val (long_of_Z z) = z;
  long_val_add x y : long_val (long_add x y) = swrap 64 (long_val x + long_val y);
  long_val_sub x y : long_val (long_sub x y) = swrap 64 (long_val x - long_val y);
  long_val_neg x : long_val (long_neg x) = swrap 64 (- long_val x);
  long_eqb_spec x y : long_eqb x y = (long_val x =? long_val y);
  long_leb_spec x y : long_leb x y = (long_val x <=? long_val y);
  long_ltb_spec x y : long_ltb x y = (long_val x <? long_val y);
}.

(** [a.greaterThanOrEqual(b)], [a.greaterThan(b)], [a.notEquals(b)]. *)
Definition long_geb {L} `{LongLib L} (a b : L) : bool := long_leb b a.

Definition long_gtb {L} `{LongLib L} (a b : L) : bool := long_ltb b a.

Definition long_neqb {L} `{LongLib L} (a b : L) : bool := negb (long_eqb a b).

(** The JavaScript number nearest to an integer: 53 significant bits, ties to the even one. *)
Definition number_of_int (z : Z) : Z :=
  let a := Z.abs z in
  if a <? 2 ^ 53 then z
  else
    let u := 2 ^ (Z.log2 a - 52) in
    let q := a / u in
    let r := a mod u in
    Z.sgn z * ((if (2 * r <? u) || ((2 * r =? u) && Z.even q) then q else q + 1) * u).

(** [toNumber]. *)
Definition long_to_number {L} `{LongLib L} (x : L) : Z := number_of_int (long_val x).

Lemma number_of_int_exact z : Z.abs z < 2 ^ 53 -> number_of_int z = z.
Proof. intros Hz. unfold number_of_int. by rewrite (proj2 (Z.ltb_lt _ _) Hz). Qed.

Lemma number_of_int_large z : 2 ^ 53 <= Z.abs z -> 2 ^ 53 <= Z.abs (number_of_int z).
Proof.
  intros Hz. unfold number_of_int. rewrite (proj2 (Z.ltb_ge _ _) Hz). cbv zeta. set (a := Z.abs z) in *.
  assert (53 <= Z.log2 a) as Hl by (change 53 with (Z.log2 (2 ^ 53)); by apply Z.log2_le_mono).
  set (u := 2 ^ (Z.log2 a - 52)). assert (2 <= u) as Hu by (unfold u; change 2 with (2 ^ 1) at 1; apply Z.pow_le_mono_r; lia).
  assert (2 ^ 52 <= a / u) as Hq.
  { apply Z.div_le_lower_bound; [lia|]. unfold u. rewrite Z.mul_comm, <- Z.pow_add_r by lia.
    replace (52 + (Z.log2 a - 52)) with (Z.log2 a) by lia. apply Z.log2_spec. lia. }
  assert (Z.abs (Z.sgn z) = 1) as Hz1 by (unfold a in Hz; destruct z; cbn in *; lia). rewrite Z.abs_mul, Hz1, Z.mul_1_l.
  change (2 ^ 53) with (2 ^ 52 * 2). destruct (_ || _); rewrite Z.abs_eq; nia.
Qed.

(** An integer that is held exactly is not the number of another one. *)
Lemma number_of_int_inj x y : Z.abs x < 2 ^ 53 -> number_of_int y = x -> y = x.
Proof.
  intros Hx E. destruct (Z.lt_ge_cases (Z.abs y) (2 ^ 53)) as [Hy|Hy]; [by rewrite number_of_int_exact in E|].
  apply number_of_int_large in Hy. rewrite E in Hy. lia.
Qed.

Create Rewrite HintDb long.

#[export] Hint Rewrite @long_eqb_spec @long_leb_spec @long_ltb_spec
  @long_val_add @long_val_sub @long_val_neg using (first [typeclasses eauto | lia]) : long.

Section LongFacts.
Context {L : Type} `{LongLaws L}.

Lemma long_eqb_true (x y : L) : long_eqb x y = true <-> x = y.
Proof.
  rewrite long_eqb_spec, Z.eqb_eq. split; [apply long_val_inj | by intros ->].
Qed.

Lemma long_eqb_refl (x : L) : long_eqb x x = true.
Proof. by apply long_eqb_true. Qed.

Lemma long_eqb_false (x y : L) : long_eqb x y = false <-> x <> y.
Proof. rewrite <- not_true_iff_false, long_eqb_true. done. Qed.

Lemma long_low_range (x : L) : in_sint 32 (long_low x).
Proof. rewrite long_low_spec. by apply swrap_range. Qed.

Lemma long_high_range (x : L) : in_sint 32 (long_high x).
Proof.
  rewrite long_high_spec. pose proof (long_val_range x) as Hx.
  unfold in_sint in *. change (2 ^ (64 - 1)) with (2 ^ 31 * 2 ^ 32) in Hx.
  change (2 ^ (32 - 1)) with (2 ^ 31).
  split; [apply Z.div_le_lower_bound | apply Z.div_lt_upper_bound]; lia.
Qed.

(** The two halves of a [Long] determine it. *)
Lemma long_halves (x : L) : long_of_bits (long_low x) (long_high x) = x.
Proof.
  apply long_val_inj. rewrite long_val_of_bits, long_low_spec, long_high_spec.
  rewrite uwrap_swrap by lia. unfold uwrap.
  replace (_ * 2 ^ 32 + _) with (long_val x)
    by (pose proof (Z.div_mod (long_val x) (2 ^ 32)); lia).
  apply swrap_id; [lia | apply long_val_range].
Qed.

End LongFacts.

(** ** A concrete instance *)

Module Int64.
Record t := mk { val : Z; ok : (- 2 ^ 63 <=? val) && (val <? 2 ^ 63) = true }.

Lemma wrap_ok z : (- 2 ^ 63 <=? swrap 64 z) && (swrap 64 z <? 2 ^ 63) = true.
Proof.
  pose proof (swrap_range 64 z ltac:(lia)) as [? ?].
  apply andb_true_iff. rewrite Z.leb_le, Z.ltb_lt. done.
Qed.

Definition of_Z (z : Z) : t := mk (swrap 64 z) (wrap_ok z).

#[global] Instance lib : LongLib t := {
  long_val := val;
  long_of_bits lo hi := of_Z (hi * 2 ^ 32 + uwrap 32 lo);
  long_low x := swrap 32 (val x);
  long_high x := val x / 2 ^ 32;
  long_of_Z := of_Z;
  long_add x y := of_Z (val x + val y);
  long_sub x y := of_Z (val x - val y);
  long_neg x := of_Z (- val x);
  long_eqb x y := val x =? val y;
  long_leb x y := val x <=? val y;
  long_ltb x y := val x <? val y;
}.

Lemma val_inj x y : val x = val y -> x = y.
Proof.
  destruct x as [a p], y as [b q]. cbn. intros <-. f_equal.
  apply (proof_irrel p q).
Qed.

#[global] Instance laws : LongLaws t.
Proof.
  split; try done.
  - intros [z p]. cbn. bool_hyps. unfold in_sint. cbn. lia.
  - apply val_inj.
  - intros z Hz. cbn. by apply swrap_id.
Qed.

End Int64.

(** ** UUIDs *)

Section UUID.
Context {L : Type} `{LongLib L}.

Record UUID := mkUUID { mostSignificant : L; leastSignificant : L }.

(** [equals]: the argument may be null. *)
Definition UUID_equals (this : UUID) (other : option UUID) : bool :=
  match other with
  | None => false
  | Some o => long_eqb (mostSignificant o) (mostSignificant this)
              && long_eqb (leastSignificant o) (leastSignificant this)
  end.

End UUID.
Arguments UUID L : clear implicits.

Lemma UUID_equals_true {L} `{LongLaws L} (u : UUID L) (v : option (UUID L)) :
  UUID_equals u v = true <-> v = Some u.
Proof.
  destruct u as [m l], v as [[m' l']|]; cbn; [|split; done].
  rewrite andb_true_iff, !long_eqb_true. split; [by intros [-> ->] | by intros [= -> ->]].
Qed.
