(* ===== verification/Datetime.v ===== *)
(** * Date and time strings

    The functions of [src/util/DatetimeUtil.ts] that build ISO strings for SQL
    values: each validates its integer arguments and throws a [RangeError], or
    returns the zero-padded text. *)

From stdpp Require Import pretty.
From S2P Require Export Prelude.
#[local] Open Scope Z_scope.

(** [s.padStart(n, '0')]. *)
Definition padStart0 (s : string) (n : nat) : string :=
  String.append (String.concat "" (replicate (n - String.length s) "0"%string)) s.

Definition leftZeroPadInteger (value : Z) (length : nat) : string :=
  padStart0 (pretty value) length.

Definition getTimezoneOffsetFromSeconds (offsetSeconds : Z) : res string :=
  if (offsetSeconds >? 64800) || (offsetSeconds <? -64800) then Err RangeError
  else
    let offsetMinutes := Z.abs offsetSeconds / 60 in
    if offsetSeconds =? 0 then Ok "Z"%string
    else
      let sign := if offsetSeconds <? 0 then "-"%string else "+"%string in
      let hours := offsetMinutes / 60 in
      let minutes := Z.rem offsetMinutes 60 in
      Ok (sign +:+ leftZeroPadInteger hours 2 +:+ ":" +:+ leftZeroPadInteger minutes 2).

(** The last day the date check of [getLocalDateString] allows in a month. *)
Definition maxDate (year month : Z) : Z :=
  match month with
  | 2 => if (js_and year 3 =? 0) && (negb (Z.rem year 100 =? 0) || (Z.rem year 400 =? 0))
         then 29 else 28
  | 4 | 6 | 9 | 11 => 30
  | _ => 31
  end.

Definition getLocalDateString (year month date : Z) : res string :=
  if negb ((1 <=? month) && (month <=? 12)) then Err RangeError
  else if negb ((-999999999 <=? year) && (year <=? 999999999)) then Err RangeError
  else if date <? 1 then Err RangeError
  else if (date >? 28) && (date >? maxDate year month) then Err RangeError
  else
    let sign := if year <? 0 then "-"%string else ""%string in
    Ok (sign +:+ padStart0 (pretty (Z.abs year)) 4 +:+ "-" +:+
        padStart0 (pretty month) 2 +:+ "-" +:+ padStart0 (pretty date) 2).

Definition getLocalTimeString (hour minute second nano : Z) : res string :=
  if negb ((0 <=? hour) && (hour <=? 23)) then Err RangeError
  else if negb ((0 <=? minute) && (minute <=? 59)) then Err RangeError
  else if negb ((0 <=? second) && (second <=? 59)) then Err RangeError
  else if negb ((0 <=? nano) && (nano <=? 999999999)) then Err RangeError
  else
    let hms := padStart0 (pretty hour) 2 +:+ ":" +:+ padStart0 (pretty minute) 2
               +:+ ":" +:+ padStart0 (pretty second) 2 in
    Ok (if negb (nano =? 0) then hms +:+ "." +:+ padStart0 (pretty nano) 9 else hms).

Example date_ex : getLocalDateString (-44) 3 15 = Ok "-0044-03-15"%string.
Proof. reflexivity. Qed.

Example time_ex : getLocalTimeString 7 5 0 1200 = Ok "07:05:00.000001200"%string.
Proof. reflexivity. Qed.

Example tz_ex : getTimezoneOffsetFromSeconds (-5430) = Ok "-01:30"%string.
Proof. reflexivity. Qed.

(** ** The proleptic Gregorian calendar *)

Definition leap_year (y : Z) : bool :=
  (y mod 4 =? 0) && (negb (y mod 100 =? 0) || (y mod 400 =? 0)).

Definition days_in_month (y m : Z) : Z :=
  if m =? 2 then (if leap_year y then 29 else 28)
  else if (m =? 4) || (m =? 6) || (m =? 9) || (m =? 11) then 30 else 31.

Lemma js_and_3 y : js_and y 3 = y mod 4.
Proof.
  unfold js_and. change 3 with (Z.ones 2). rewrite Z.land_ones by lia.
  change (2 ^ 2) with 4. apply swrap_id; [lia|].
  pose proof (Z.mod_pos_bound y 4). unfold in_sint. cbn. lia.
Qed.

Lemma rem_zero_mod y n : 0 < n -> (Z.rem y n =? 0) = (y mod n =? 0).
Proof.
  intros Hn. apply eq_true_iff_eq. rewrite !Z.eqb_eq.
  rewrite Z.rem_divide, Z.mod_divide by lia. done.
Qed.

Lemma maxDate_days y m : 1 <= m <= 12 -> maxDate y m = days_in_month y m.
Proof.
  intros Hm. unfold maxDate, days_in_month, leap_year.
  rewrite js_and_3, !rem_zero_mod by lia.
  assert (m = 1 \/ m = 2 \/ m = 3 \/ m = 4 \/ m = 5 \/ m = 6 \/ m = 7 \/ m = 8 \/
          m = 9 \/ m = 10 \/ m = 11 \/ m = 12) as C by lia.
  repeat (destruct C as [->|C]; [reflexivity|]). by subst m.
Qed.

Lemma days_in_month_range y m : 28 <= days_in_month y m <= 31.
Proof. unfold days_in_month. repeat case_match; lia. Qed.

(** [getLocalDateString] accepts exactly the dates of the proleptic
    Gregorian calendar in its year range, and throws [RangeError] on every
    other. *)
Theorem getLocalDateString_valid (y m d : Z) :
  (exists s, getLocalDateString y m d = Ok s) <->
  (1 <= m <= 12 /\ -999999999 <= y <= 999999999 /\ 1 <= d <= days_in_month y m).
Proof.
  unfold getLocalDateString. pose proof (days_in_month_range y m) as Hd.
  destruct (Z_le_dec 1 m) as [H1|H1], (Z_le_dec m 12) as [H2|H2].
  2-4: split; [intros [s Hs]; repeat case_match; bool_hyps; done || lia | lia].
  rewrite maxDate_days by lia. split.
  - intros [s Hs]. repeat case_match; try discriminate Hs; bool_hyps; try lia.
  - intros (_ & Hy & Hdate). repeat case_match; bool_hyps; try lia; eauto.
Qed.
