(* ===== verification/UuidText.v ===== *)
(** * The text of a UUID

    [toString] of [src/core/UUID.ts]: five groups of zero-padded hexadecimal digits. The client keys
    several of its maps (the active connections, the members) by this text; the theorem is
    that it identifies the UUID. *)

From S2P Require Export LongNum Datetime.
#[local] Open Scope Z_scope.

(** ** Hexadecimal text of a number *)

Definition hex_char (d : Z) : Ascii.ascii :=
  Ascii.ascii_of_nat (Z.to_nat (if d <? 10 then 48 + d else 87 + d)).

(** [n.toString(16)] of a non-negative integer below [16 ^ fuel]. *)
Fixpoint hex_fuel (fuel : nat) (n : Z) (acc : string) : string :=
  match fuel with
  | O => acc
  | S fuel =>
      if n <? 16 then String (hex_char n) acc
      else hex_fuel fuel (n / 16) (String (hex_char (n mod 16)) acc)
  end.

(** Enough for the 32-bit numbers it is called on. *)
Definition toString16 (n : Z) : string := hex_fuel 8 n "".

Definition UUID_toString {L} `{LongLib L} (u : UUID L) : string :=
  let mostHigh := to_uint32 (long_high (mostSignificant u)) in
  let mostLow := to_uint32 (long_low (mostSignificant u)) in
  let leastHigh := to_uint32 (long_high (leastSignificant u)) in
  let leastLow := to_uint32 (long_low (leastSignificant u)) in
  let div1 := toString16 mostHigh in
  let div2 := toString16 (js_ushr mostLow 16) in
  let div3 := toString16 (js_and mostLow (js_shl 1 16 - 1)) in
  let div4 := toString16 (js_ushr leastHigh 16) in
  let div5 := toString16 (js_and leastHigh (js_shl 1 16 - 1)) +:+ padStart0 (toString16 leastLow) 8 in
  padStart0 div1 8 +:+ "-" +:+ padStart0 div2 4 +:+ "-" +:+ padStart0 div3 4 +:+ "-"
    +:+ padStart0 div4 4 +:+ "-" +:+ padStart0 div5 12.

(** ** Reading the digits back *)

Definition hex_val (a : Ascii.ascii) : Z :=
  let c := Z.of_nat (Ascii.nat_of_ascii a) in if c <? 58 then c - 48 else c - 87.

Fixpoint read_hex (acc : Z) (s : string) : Z :=
  match s with
  | EmptyString => acc
  | String a s => read_hex (16 * acc + hex_val a) s
  end.

Lemma hex_val_char d : 0 <= d < 16 -> hex_val (hex_char d) = d.
Proof.
  intros Hd. unfold hex_val, hex_char. rewrite Ascii.nat_ascii_embedding by (case_if; lia).
  destruct (Z.ltb_spec d 10); case_if; bool_hyps; lia.
Qed.

Lemma read_hex_app s t acc : read_hex acc (s +:+ t) = read_hex (read_hex acc s) t.
Proof. revert acc. induction s as [|a s IH]; intros acc; cbn; [done|]. apply IH. Qed.

Lemma read_hex_fuel fuel n acc :
  0 <= n < 16 ^ Z.of_nat fuel -> (0 < fuel)%nat -> read_hex 0 (hex_fuel fuel n acc) = read_hex n acc.
Proof.
  revert n acc. induction fuel as [|fuel IH]; intros n acc Hn Hf; [lia|]. cbn [hex_fuel].
  destruct (Z.ltb_spec n 16); [cbn; by rewrite hex_val_char by lia|].
  assert (0 <= n / 16 < 16 ^ Z.of_nat fuel) as Hd.
  { rewrite Nat2Z.inj_succ, Z.pow_succ_r in Hn by lia.
    split; [apply Z.div_pos; lia | apply Z.div_lt_upper_bound; lia]. }
  destruct fuel as [|fuel]; [cbn in Hd; assert (1 <= n / 16) by (apply Z.div_le_lower_bound; lia); lia|].
  rewrite IH by lia. cbn. rewrite hex_val_char by (apply Z.mod_pos_bound; lia).
  f_equal. pose proof (Z.div_mod n 16). lia.
Qed.

Lemma read_toString16 n : in_uint 32 n -> read_hex 0 (toString16 n) = n.
Proof. intros Hn. unfold toString16. rewrite read_hex_fuel; [done | exact Hn | lia]. Qed.

(** [k] digits are enough below [16 ^ k]. *)
Lemma hex_fuel_length k fuel n acc :
  0 <= n < 16 ^ Z.of_nat k -> (0 < k)%nat -> (String.length (hex_fuel fuel n acc) <= k + String.length acc)%nat.
Proof.
  revert k n acc. induction fuel as [|fuel IH]; intros k n acc Hn Hk; cbn [hex_fuel]; [lia|].
  destruct (Z.ltb_spec n 16); [cbn; lia|].
  destruct k as [|k]; [lia|]. rewrite Nat2Z.inj_succ, Z.pow_succ_r in Hn by lia.
  destruct k as [|k]; [cbn in Hn; lia|].
  etrans; [apply (IH (S k)); [|lia] | cbn; lia].
  split; [apply Z.div_pos; lia | apply Z.div_lt_upper_bound; lia].
Qed.

Lemma string_app_length s t : String.length (s +:+ t) = (String.length s + String.length t)%nat.
Proof. induction s as [|a s IH]; [done|]. exact (f_equal S IH). Qed.

Lemma zeros_succ n : String.concat "" (replicate (S n) "0"%string) = "0" +:+ (String.concat "" (replicate n "0"%string)).
Proof. by destruct n. Qed.

Lemma zeros_length n : String.length (String.concat "" (replicate n "0"%string)) = n.
Proof. induction n as [|n IH]; [done|]. rewrite zeros_succ, string_app_length. by rewrite IH. Qed.

Lemma read_hex_zeros n : read_hex 0 (String.concat "" (replicate n "0"%string)) = 0.
Proof. induction n as [|n IH]; [done|]. by rewrite zeros_succ. Qed.

Lemma padStart0_length s n : (String.length s <= n)%nat -> String.length (padStart0 s n) = n.
Proof. intros Hs. unfold padStart0. rewrite string_app_length, zeros_length. lia. Qed.

Lemma read_padStart0 s n : read_hex 0 (padStart0 s n) = read_hex 0 s.
Proof. unfold padStart0. by rewrite read_hex_app, read_hex_zeros. Qed.

(** A padded group has its width and determines its number. *)
Lemma group_length k n : in_uint 32 n -> n < 16 ^ Z.of_nat k -> (0 < k)%nat ->
  String.length (padStart0 (toString16 n) k) = k.
Proof.
  intros Hn Hk Hp. apply padStart0_length. etrans; [apply (hex_fuel_length k); [split; [apply Hn | done] | done]|].
  cbn. lia.
Qed.

Lemma group_read k n : in_uint 32 n -> read_hex 0 (padStart0 (toString16 n) k) = n.
Proof. intros Hn. by rewrite read_padStart0, read_toString16. Qed.

Lemma string_app_inj s s' t t' :
  String.length s = String.length s' -> s +:+ t = s' +:+ t' -> s = s' /\ t = t'.
Proof.
  revert s'. induction s as [|a s IH]; intros [|a' s'] Hl E; cbn in *; try lia; [done|].
  injection E as -> E. injection Hl as Hl. by destruct (IH s' Hl E) as [-> ->].
Qed.

Lemma read_hex_shift s acc : read_hex acc s = acc * 16 ^ Z.of_nat (String.length s) + read_hex 0 s.
Proof.
  revert acc. induction s as [|a s IH]; intros acc; cbn [read_hex String.length]; [lia|].
  rewrite IH, (IH (16 * 0 + hex_val a)), Nat2Z.inj_succ, Z.pow_succ_r by lia. ring.
Qed.

(** The two halves of a 32-bit number, as [toString] takes them. *)
Lemma upper_half n : in_uint 32 n -> js_ushr n 16 = n / 2 ^ 16.
Proof. intros Hn. unfold js_ushr, to_uint32. rewrite uwrap_id by done. change (16 mod 32) with 16. by rewrite Z.shiftr_div_pow2 by lia. Qed.

Lemma lower_half n : in_uint 32 n -> js_and n (js_shl 1 16 - 1) = n mod 2 ^ 16.
Proof.
  intros Hn. unfold js_and. change (js_shl 1 16 - 1) with (Z.ones 16). rewrite Z.land_ones by lia.
  apply swrap_id; [lia|]. unfold in_sint. change (2 ^ (32 - 1)) with (2 ^ 31).
  pose proof (Z.mod_pos_bound n (2 ^ 16) ltac:(lia)). lia.
Qed.

Lemma halves_range n : in_uint 32 n ->
  in_uint 32 (n / 2 ^ 16) /\ n / 2 ^ 16 < 16 ^ 4 /\ in_uint 32 (n mod 2 ^ 16) /\ n mod 2 ^ 16 < 16 ^ 4.
Proof.
  unfold in_uint. intros Hn. pose proof (Z.mod_pos_bound n (2 ^ 16) ltac:(lia)).
  assert (n / 2 ^ 16 < 2 ^ 16) by (apply Z.div_lt_upper_bound; lia).
  assert (0 <= n / 2 ^ 16) by (apply Z.div_pos; lia). lia.
Qed.

Lemma halves_inj n m : n / 2 ^ 16 = m / 2 ^ 16 -> n mod 2 ^ 16 = m mod 2 ^ 16 -> n = m.
Proof. intros. rewrite (Z.div_mod n (2 ^ 16)), (Z.div_mod m (2 ^ 16)) by lia. congruence. Qed.

(** The last group: 4 digits and 8 digits padded to 12. *)
Lemma last_group_read a b : in_uint 32 a -> in_uint 32 b ->
  read_hex 0 (padStart0 (toString16 a +:+ padStart0 (toString16 b) 8) 12) = a * 2 ^ 32 + b.
Proof.
  intros Ha Hb. rewrite read_padStart0, read_hex_app, read_hex_shift, read_toString16 by done.
  rewrite group_length, group_read by (done || lia || (cbn; unfold in_uint in *; lia)). done.
Qed.

(** The words of a [Long] as [toString] reads them. *)
Lemma words_inj {L} `{LongLaws L} (x y : L) :
  to_uint32 (long_high x) = to_uint32 (long_high y) -> to_uint32 (long_low x) = to_uint32 (long_low y) -> x = y.
Proof.
  intros Hh Hl. pose proof (long_high_range x). pose proof (long_high_range y).
  pose proof (long_low_range x). pose proof (long_low_range y).
  rewrite <- (long_halves x), <- (long_halves y). unfold to_uint32 in *.
  f_equal; [rewrite <- (swrap_id 32 (long_low x)), <- (swrap_id 32 (long_low y))
           | rewrite <- (swrap_id 32 (long_high x)), <- (swrap_id 32 (long_high y))]; try done; try lia;
    by apply swrap_congr.
Qed.

Lemma word_range z : in_uint 32 (to_uint32 z).
Proof. by apply uwrap_range. Qed.
#[local] Hint Resolve word_range : hz.

(** Equal texts of two groups of the same width, followed by a dash. *)
Lemma group_split k n m s t :
  in_uint 32 n -> in_uint 32 m -> n < 16 ^ Z.of_nat k -> m < 16 ^ Z.of_nat k -> (0 < k)%nat ->
  padStart0 (toString16 n) k +:+ "-" +:+ s = padStart0 (toString16 m) k +:+ "-" +:+ t -> n = m /\ s = t.
Proof.
  intros Hn Hm Ln Lm Hk E. apply string_app_inj in E as [E1 E2]; [|by rewrite !group_length].
  apply (f_equal (read_hex 0)) in E1. rewrite !group_read in E1 by done. by apply (string_app_inj "-" "-") in E2 as [_ ->].
Qed.

Lemma UUID_toString_inj {L} `{LongLaws L} (u v : UUID L) : UUID_toString u = UUID_toString v -> u = v.
Proof.
  destruct u as [um ul], v as [vm vl]. unfold UUID_toString.
  cbn [mostSignificant leastSignificant].
  rewrite !upper_half, !lower_half by auto with hz.
  destruct (halves_range (to_uint32 (long_low um)) ltac:(auto with hz)) as (? & ? & ? & ?).
  destruct (halves_range (to_uint32 (long_low vm)) ltac:(auto with hz)) as (? & ? & ? & ?).
  destruct (halves_range (to_uint32 (long_high ul)) ltac:(auto with hz)) as (? & ? & ? & ?).
  destruct (halves_range (to_uint32 (long_high vl)) ltac:(auto with hz)) as (? & ? & ? & ?).
  intros E. apply group_split in E as [E1 E]; [|auto with hz..|apply word_range|apply word_range|lia].
  apply group_split in E as [E2 E]; [|done..|lia]. apply group_split in E as [E3 E]; [|done..|lia].
  apply group_split in E as [E4 E]; [|done..|lia]. apply (f_equal (read_hex 0)) in E.
  rewrite !last_group_read in E by auto with hz.
  pose proof (word_range (long_low ul)). pose proof (word_range (long_low vl)). unfold in_uint in *.
  f_equal; apply words_inj; try done; [by apply halves_inj | apply halves_inj; [done | lia] | lia].
Qed.

Lemma last_group_length a b : in_uint 32 a -> a < 16 ^ 4 -> in_uint 32 b ->
  String.length (padStart0 (toString16 a +:+ padStart0 (toString16 b) 8) 12) = 12%nat.
Proof.
  intros Ha La Hb. apply padStart0_length. rewrite string_app_length, group_length; [|done | apply Hb | lia].
  pose proof (hex_fuel_length 4 8 a "" (conj (proj1 Ha) La) ltac:(lia)) as Hl. cbn [String.length] in Hl.
  unfold toString16. lia.
Qed.

(** The text of a UUID has 36 characters and identifies the UUID, so the maps the client keys by
    [toString] (connections, members) are keyed by the UUID. *)
Theorem UUID_toString_identifies {L} `{LongLaws L} (u v : UUID L) :
  String.length (UUID_toString u) = 36%nat /\ (UUID_toString u = UUID_toString v <-> u = v).
Proof.
  split; [|split; [apply UUID_toString_inj | by intros ->]]. unfold UUID_toString.
  rewrite !upper_half, !lower_half by auto with hz.
  destruct (halves_range (to_uint32 (long_low (mostSignificant u))) ltac:(auto with hz)) as (? & ? & ? & ?).
  destruct (halves_range (to_uint32 (long_high (leastSignificant u))) ltac:(auto with hz)) as (? & ? & ? & ?).
  rewrite !string_app_length, last_group_length, !group_length; auto with hz; try done; lia || apply word_range.
Qed.

Lemma UUID_toString_identifies_witness :
  UUID_toString (mkUUID (long_of_Z 1) (long_of_Z (-2)) : UUID Int64.t) = "00000000-0000-0001-ffff-fffffffffffe"%string /\
  UUID_toString (mkUUID (long_of_Z 1) (long_of_Z (-2)) : UUID Int64.t) <>
    UUID_toString (mkUUID (long_of_Z 1) (long_of_Z 2)).
Proof.
  split; [vm_compute; reflexivity|]. intros E.
  apply (UUID_toString_identifies (mkUUID (long_of_Z 1) (long_of_Z (-2)) : UUID Int64.t)) in E.
  apply (f_equal (fun u => long_val (leastSignificant u))) in E. vm_compute in E. discriminate E.
Defined.
