(* ===== verification/FixSized.v ===== *)
(** * Fixed-size values in a buffer

    [src/util/BitsUtil.ts] (sizes and the endian-switched accessors) and
    [src/codec/builtin/FixSizedTypesCodec.ts]. An encoder that writes into a
    buffer returns the buffer after the write, or the error it throws.

    The class [FixedCodec] states what a pair of a fixed-size encoder and
    decoder promises to the codecs built on it: the encoder overwrites exactly
    its own bytes, and the decoder reads the value back from those bytes alone. *)

From S2P Require Export NodeBuffer LongNum Datetime.
#[local] Open Scope Z_scope.

(** ** BitsUtil *)

Definition BYTE_SIZE_IN_BYTES : Z := 1.
Definition BOOLEAN_SIZE_IN_BYTES : Z := 1.
Definition SHORT_SIZE_IN_BYTES : Z := 2.
Definition CHAR_SIZE_IN_BYTES : Z := 2.
Definition INT_SIZE_IN_BYTES : Z := 4.
Definition FLOAT_SIZE_IN_BYTES : Z := 4.
Definition LONG_SIZE_IN_BYTES : Z := 8.
Definition DOUBLE_SIZE_IN_BYTES : Z := 8.
Definition LOCAL_DATE_SIZE_IN_BYTES : Z := SHORT_SIZE_IN_BYTES + BYTE_SIZE_IN_BYTES * 2.
Definition LOCAL_TIME_SIZE_IN_BYTES : Z := INT_SIZE_IN_BYTES + BYTE_SIZE_IN_BYTES * 3.
Definition LOCAL_DATETIME_SIZE_IN_BYTES : Z := LOCAL_DATE_SIZE_IN_BYTES + LOCAL_TIME_SIZE_IN_BYTES.
Definition OFFSET_DATE_TIME_SIZE_IN_BYTES : Z := LOCAL_DATETIME_SIZE_IN_BYTES + INT_SIZE_IN_BYTES.
Definition UUID_SIZE_IN_BYTES : Z := BOOLEAN_SIZE_IN_BYTES + 2 * LONG_SIZE_IN_BYTES.
Definition NULL_ARRAY_LENGTH : Z := -1.

Definition writeUInt32 (buf : buffer) (pos val : Z) (isBigEndian : bool) : res buffer :=
  if isBigEndian then writeUInt32BE buf val pos else writeUInt32LE buf val pos.
Definition writeUInt16 (buf : buffer) (pos val : Z) (isBigEndian : bool) : res buffer :=
  if isBigEndian then writeUInt16BE buf val pos else writeUInt16LE buf val pos.
Definition writeInt32 (buf : buffer) (pos val : Z) (isBigEndian : bool) : res buffer :=
  if isBigEndian then writeInt32BE buf val pos else writeInt32LE buf val pos.
Definition writeInt16 (buf : buffer) (pos val : Z) (isBigEndian : bool) : res buffer :=
  if isBigEndian then writeInt16BE buf val pos else writeInt16LE buf val pos.
Definition readInt16 (buf : buffer) (pos : Z) (isBigEndian : bool) : res Z :=
  if isBigEndian then readInt16BE buf pos else readInt16LE buf pos.
Definition readInt32 (buf : buffer) (pos : Z) (isBigEndian : bool) : res Z :=
  if isBigEndian then readInt32BE buf pos else readInt32LE buf pos.
Definition readUInt16 (buf : buffer) (pos : Z) (isBigEndian : bool) : res Z :=
  if isBigEndian then readUInt16BE buf pos else readUInt16LE buf pos.
Definition readUInt32 (buf : buffer) (pos : Z) (isBigEndian : bool) : res Z :=
  if isBigEndian then readUInt32BE buf pos else readUInt32LE buf pos.

(** ** FixSizedTypesCodec *)

Definition encodeInt (buf : buffer) (offset value : Z) : res buffer :=
  writeInt32LE buf value offset.
Definition decodeInt (buf : buffer) (offset : Z) : res Z := readInt32LE buf offset.
Definition decodeShort (buf : buffer) (offset : Z) : res Z := readInt16LE buf offset.

Definition encodeBoolean (buf : buffer) (offset : Z) (value : bool) : res buffer :=
  writeUInt8 buf (if value then 1 else 0) offset.
Definition decodeBoolean (buf : buffer) (offset : Z) : res bool :=
  b ← readUInt8 buf offset; mret (b =? 1).

Definition encodeByte (buf : buffer) (offset value : Z) : res buffer :=
  writeUInt8 buf value offset.
Definition decodeByte (buf : buffer) (offset : Z) : res Z := readUInt8 buf offset.

Definition decodeLocalDate (buf : buffer) (offset : Z) : res string :=
  year ← decodeShort buf offset;
  month ← decodeByte buf (offset + SHORT_SIZE_IN_BYTES);
  date ← decodeByte buf (offset + SHORT_SIZE_IN_BYTES + BYTE_SIZE_IN_BYTES);
  getLocalDateString year month date.

Definition decodeLocalTime (buf : buffer) (offset : Z) : res string :=
  hour ← decodeByte buf offset;
  minute ← decodeByte buf (offset + BYTE_SIZE_IN_BYTES);
  second ← decodeByte buf (offset + BYTE_SIZE_IN_BYTES * 2);
  nano ← decodeInt buf (offset + BYTE_SIZE_IN_BYTES * 3);
  getLocalTimeString hour minute second nano.

Definition decodeLocalDatetime (buf : buffer) (offset : Z) : res string :=
  localDate ← decodeLocalDate buf offset;
  localTime ← decodeLocalTime buf (offset + LOCAL_DATE_SIZE_IN_BYTES);
  mret (localDate +:+ "T" +:+ localTime).

Definition decodeOffsetDateTime (buf : buffer) (offset : Z) : res string :=
  localDateTime ← decodeLocalDatetime buf offset;
  offsetSeconds ← decodeInt buf (offset + LOCAL_DATETIME_SIZE_IN_BYTES);
  offsetString ← getTimezoneOffsetFromSeconds offsetSeconds;
  mret (localDateTime +:+ offsetString).

(** A number read with [readFloatLE] or [readDoubleLE], by its IEEE 754 bits. *)
Inductive js_float := Float32Bits (bits : Z) | Float64Bits (bits : Z).

Definition decodeFloat (buf : buffer) (offset : Z) : res js_float :=
  Float32Bits <$> readUIntLE 4 buf offset.
Definition decodeDouble (buf : buffer) (offset : Z) : res js_float :=
  Float64Bits <$> readUIntLE 8 buf offset.

Definition TWO_PWR_16_DBL : Z := js_shl 1 16.
Definition TWO_PWR_32_DBL : Z := TWO_PWR_16_DBL * TWO_PWR_16_DBL.
Definition TWO_PWR_64_DBL : Z := TWO_PWR_32_DBL * TWO_PWR_32_DBL.
Definition TWO_PWR_63_DBL : Z := TWO_PWR_64_DBL / 2.

(** The value is an integer, and the division by a power of two is exact in
    double arithmetic, so that [|0] truncates the exact quotient. *)
Definition encodeNonNegativeNumberAsLong (buf : buffer) (offset value : Z) : res buffer :=
  if value <? 0 then Err Error
  else if value + 1 >=? TWO_PWR_63_DBL then
    buf ← writeInt32LE buf (js_or 0xFFFFFFFF 0) offset;
    writeInt32LE buf (js_or 0x7FFFFFFF 0) (offset + INT_SIZE_IN_BYTES)
  else
    buf ← writeInt32LE buf (js_or (Z.rem value TWO_PWR_32_DBL) 0) offset;
    writeInt32LE buf (js_or (value / TWO_PWR_32_DBL) 0) (offset + INT_SIZE_IN_BYTES).

Definition decodeNumberFromLong (buf : buffer) (offset : Z) : res Z :=
  low ← readInt32LE buf offset;
  high ← readInt32LE buf (offset + INT_SIZE_IN_BYTES);
  mret (number_of_int (high * TWO_PWR_32_DBL + js_ushr low 0)).

Section LongCodec.
Context {L : Type} `{LongLib L}.

(** The argument of [encodeLong] is a [Long] or a number. *)
Inductive long_arg := IsLong (l : L) | IsNumber (z : Z).

Definition encodeLong (buf : buffer) (offset : Z) (value : long_arg) : res buffer :=
  let value := match value with IsLong l => l | IsNumber z => long_of_Z z end in
  buf ← writeInt32LE buf (long_low value) offset;
  writeInt32LE buf (long_high value) (offset + INT_SIZE_IN_BYTES).

Definition decodeLong (buf : buffer) (offset : Z) : res L :=
  low ← readInt32LE buf offset;
  high ← readInt32LE buf (offset + INT_SIZE_IN_BYTES);
  mret (long_of_bits low high).

Definition encodeUUID (buf : buffer) (offset : Z) (value : option (UUID L)) : res buffer :=
  match value with
  | None => encodeBoolean buf offset true
  | Some u =>
      buf ← encodeBoolean buf offset false;
      buf ← encodeLong buf (offset + BOOLEAN_SIZE_IN_BYTES) (IsLong (mostSignificant u));
      encodeLong buf (offset + BOOLEAN_SIZE_IN_BYTES + LONG_SIZE_IN_BYTES)
        (IsLong (leastSignificant u))
  end.

Definition decodeUUID (buf : buffer) (offset : Z) : res (option (UUID L)) :=
  isNull ← decodeBoolean buf offset;
  if isNull : bool then mret None
  else
    mostSignificantBits ← decodeLong buf (offset + BOOLEAN_SIZE_IN_BYTES);
    leastSignificantBits ← decodeLong buf (offset + BOOLEAN_SIZE_IN_BYTES + LONG_SIZE_IN_BYTES);
    mret (Some (mkUUID mostSignificantBits leastSignificantBits)).
End LongCodec.
Arguments long_arg L : clear implicits.

(** ** What a fixed-size codec promises *)

Class FixedCodec {A : Type} (size : nat) (valid : A -> Prop)
    (wr : buffer -> Z -> A -> res buffer) (rd : buffer -> Z -> res A) : Prop :=
  fixed_spec : forall b off a,
    valid a -> in_bounds b off (Z.of_nat size) = true ->
    exists w, length w = size /\ wr b off a = Ok (write_at b off w) /\
      forall b' off', in_bounds b' off' (Z.of_nat size) = true ->
        sub b' off' size = w -> rd b' off' = Ok a.

(** One value after the other. *)
Definition write_pair {A B} (n : nat) (wr1 : buffer -> Z -> A -> res buffer)
    (wr2 : buffer -> Z -> B -> res buffer) (b : buffer) (off : Z) (p : A * B) : res buffer :=
  b ← wr1 b off p.1; wr2 b (off + Z.of_nat n) p.2.
Definition read_pair {A B} (n : nat) (rd1 : buffer -> Z -> res A) (rd2 : buffer -> Z -> res B)
    (b : buffer) (off : Z) : res (A * B) :=
  x ← rd1 b off; y ← rd2 b (off + Z.of_nat n); mret (x, y).

Lemma sub_app b off n m : 0 <= off -> sub b off (n + m) = sub b off n ++ sub b (off + Z.of_nat n) m.
Proof.
  intros. unfold sub.
  rewrite <- (take_drop_app n m), drop_drop. do 3 f_equal. lia.
Qed.

Lemma sub_app_inv b off w1 w2 :
  0 <= off -> in_bounds b off (blen w1 + blen w2) = true ->
  sub b off (length w1 + length w2) = w1 ++ w2 ->
  sub b off (length w1) = w1 /\ sub b (off + blen w1) (length w2) = w2.
Proof.
  intros Ho Hb. rewrite in_bounds_true in Hb. rewrite sub_app by done. intros E.
  apply app_inj_1 in E; [done|]. rewrite length_sub; [done|]. apply in_bounds_true. lia.
Qed.

Lemma write_at_sub b off bs k :
  in_bounds b off (blen bs + Z.of_nat k) = true ->
  write_at b off (bs ++ sub b (off + blen bs) k) = write_at b off bs.
Proof.
  rewrite in_bounds_true. intros [? ?]. unfold write_at, sub.
  rewrite <- app_assoc. do 2 f_equal. rewrite length_app, length_take, length_drop.
  replace (Z.to_nat (off + blen bs)) with (Z.to_nat off + length bs)%nat by lia.
  set (i := (Z.to_nat off + length bs)%nat).
  replace (_ + (_ + _))%nat with (i + k)%nat by lia.
  rewrite <- drop_drop. apply take_drop.
Qed.

Section FixedFacts.
Context {A B : Type}.

Lemma fixed_pair n m (v1 : A -> Prop) (v2 : B -> Prop) wr1 rd1 wr2 rd2 :
  FixedCodec n v1 wr1 rd1 -> FixedCodec m v2 wr2 rd2 ->
  FixedCodec (n + m) (fun p => v1 p.1 /\ v2 p.2) (write_pair n wr1 wr2) (read_pair n rd1 rd2).
Proof.
  intros F1 F2 b off [a c] [Ha Hc] Hb. cbn in Ha, Hc.
  apply in_bounds_true in Hb as Hb'.
  destruct (F1 b off a Ha) as (w1 & Hw1 & E1 & R1); [apply in_bounds_true; lia|].
  assert (in_bounds b off (blen w1) = true) as Hin1 by (apply in_bounds_true; lia).
  destruct (F2 (write_at b off w1) (off + Z.of_nat n) c Hc) as (w2 & Hw2 & E2 & R2).
  { rewrite in_bounds_write by done. apply in_bounds_true. lia. }
  exists (w1 ++ w2). split; [rewrite length_app; lia|]. split.
  - unfold write_pair. cbn [fst snd]. rewrite E1, res_bind_ok, E2.
    f_equal. rewrite <- Hw1. apply write_at_app. apply in_bounds_true. lia.
  - intros b' off' Hb2 Hs. apply in_bounds_true in Hb2 as Hb2'. subst n m.
    apply sub_app_inv in Hs as [S1 S2];
      [|lia | by replace (blen w1 + blen w2) with (Z.of_nat (length w1 + length w2)) by lia].
    unfold read_pair. rewrite R1 by (done || (apply in_bounds_true; lia)).
    rewrite res_bind_ok, R2 by (done || (apply in_bounds_true; lia)). done.
Qed.

(** A codec that differs by a bijection of the values. *)
Lemma fixed_iso n (v : A -> Prop) (v' : B -> Prop) wr rd wr' rd' (f : B -> A) (g : A -> B) :
  FixedCodec n v wr rd ->
  (forall x, v' x -> v (f x) /\ g (f x) = x) ->
  (forall b off x, v' x -> wr' b off x = wr b off (f x)) ->
  (forall b off x, rd b off = Ok x -> rd' b off = Ok (g x)) ->
  FixedCodec n v' wr' rd'.
Proof.
  intros F Hv Hw Hr b off x Hx Hb. destruct (Hv x Hx) as [Hfx Hg].
  destruct (F b off (f x) Hfx Hb) as (w & Hl & E & R).
  exists w. split; [done|]. split; [by rewrite Hw|].
  intros b' off' Hb' Hs. rewrite <- Hg. apply Hr. by apply R.
Qed.
End FixedFacts.

Lemma fixed_sint n :
  (0 < n)%nat -> FixedCodec n (in_sint (8 * Z.of_nat n))
    (fun b off v => writeSIntLE n b v off) (readSIntLE n).
Proof.
  intros Hn b off v Hv Hb. exists (le_split n v).
  assert (length (le_split n v) = n) as Hl by apply length_le_split.
  split; [done|]. split.
  - unfold writeSIntLE. rewrite (proj2 (fits_sint_true _ _)) by done.
    apply write_bytes_ok. by rewrite Hl.
  - intros b' off' Hb' Hs. unfold readSIntLE. rewrite readUIntLE_sub by done.
    cbn. by rewrite Hs, swrap_split.
Qed.

Lemma fixed_uint n :
  FixedCodec n (in_uint (8 * Z.of_nat n)) (fun b off v => writeUIntLE n b v off) (readUIntLE n).
Proof.
  intros b off v Hv Hb. exists (le_split n v).
  assert (length (le_split n v) = n) as Hl by apply length_le_split.
  split; [done|]. split.
  - unfold writeUIntLE. rewrite (proj2 (fits_uint_true _ _)) by done.
    apply write_bytes_ok. by rewrite Hl.
  - intros b' off' Hb' Hs. rewrite readUIntLE_sub by done.
    by rewrite Hs, uwrap_split.
Qed.

#[export] Instance fixed_int : FixedCodec 4 (in_sint 32) encodeInt decodeInt.
Proof. apply (fixed_sint 4). lia. Qed.

#[export] Instance fixed_byte : FixedCodec 1 (in_uint 8) encodeByte decodeByte.
Proof. apply (fixed_uint 1). Qed.

#[export] Instance fixed_boolean : FixedCodec 1 (fun _ => True) encodeBoolean decodeBoolean.
Proof.
  apply (fixed_iso 1 (in_uint 8) _ encodeByte decodeByte _ _
    (fun v : bool => if v then 1 else 0) (fun z => z =? 1)); [apply _ | | done |].
  - intros [] _; done.
  - intros b off x E. unfold decodeBoolean, decodeByte in *. by rewrite E.
Qed.

Section FixedLong.
Context {L : Type} `{LongLaws L}.

Definition encodeLongL (b : buffer) (off : Z) (l : L) : res buffer := encodeLong b off (IsLong l).

#[export] Instance fixed_long : FixedCodec 8 (fun _ : L => True) encodeLongL decodeLong.
Proof.
  apply (fixed_iso 8 (fun p => in_sint 32 p.1 /\ in_sint 32 p.2) _ (write_pair 4 encodeInt encodeInt) (read_pair 4 decodeInt decodeInt)
    _ _ (fun l => (long_low l, long_high l)) (fun p => long_of_bits p.1 p.2)).
  - apply (fixed_pair 4 4); apply _.
  - intros x _. cbn. split; [split; [apply long_low_range | apply long_high_range]|].
    apply long_halves.
  - done.
  - intros b off [lo hi] E. unfold read_pair in E.
    apply res_bind_inv in E as (lo' & E1 & E). apply res_bind_inv in E as (hi' & E2 & E).
    injection E as -> ->. unfold decodeLong. unfold decodeInt in E1, E2. rewrite E1, res_bind_ok.
    change INT_SIZE_IN_BYTES with (Z.of_nat 4). by rewrite E2.
Qed.

#[export] Instance fixed_uuid :
  FixedCodec 17 (fun _ : option (UUID L) => True) encodeUUID decodeUUID.
Proof.
  intros b off [u|] _ Hb.
  - destruct (fixed_pair 1 16 _ _ _ _ _ _ fixed_boolean (fixed_pair 8 8 _ _ _ _ _ _ fixed_long fixed_long)
      b off (false, (mostSignificant u, leastSignificant u))) as (w & Hl & E & R); [done | done |].
    exists w. split; [done|]. split.
    + rewrite <- E. by destruct u.
    + intros b' off' Hb' Hs. specialize (R b' off' Hb' Hs).
      unfold read_pair in R. unfold decodeUUID.
      apply res_bind_inv in R as (n & En & R). rewrite En, res_bind_ok.
      apply res_bind_inv in R as ([m l] & Em & R). simplify_eq.
      apply res_bind_inv in Em as (m' & E1 & E2). apply res_bind_inv in E2 as (l' & E2 & E3).
      injection E3 as -> ->. injection R as -> -> ->.
      change BOOLEAN_SIZE_IN_BYTES with (Z.of_nat 1). change LONG_SIZE_IN_BYTES with (Z.of_nat 8).
      rewrite E1, res_bind_ok, E2. by destruct u.
  - apply in_bounds_true in Hb as Hb'. 
    destruct (fixed_boolean b off true I) as (w & Hl & E & R); [apply in_bounds_true; lia|].
    exists (w ++ sub b (off + blen w) 16). split; [|split].
    + rewrite length_app, length_sub by (apply in_bounds_true; lia). lia.
    + rewrite write_at_sub by (apply in_bounds_true; lia). done.
    + intros b' off' Hb2 Hs. apply in_bounds_true in Hb2 as Hb2'.
      unfold decodeUUID. rewrite R; [done | apply in_bounds_true; lia |].
      apply (f_equal (take 1)) in Hs. rewrite take_app_length' in Hs by done.
      rewrite <- Hs. unfold sub. rewrite take_take. done.
Qed.
End FixedLong.

(** ** Numbers written as longs *)

Lemma js_or_0 z : js_or z 0 = swrap 32 z.
Proof. unfold js_or. by rewrite Z.lor_0_r. Qed.

Lemma js_ushr_0 z : js_ushr z 0 = uwrap 32 z.
Proof. unfold js_ushr. apply Z.shiftr_0_r. Qed.

Lemma number_halves v :
  0 <= v <= 2 ^ 53 - 1 ->
  in_sint 32 (swrap 32 v) /\ in_sint 32 (v / 2 ^ 32) /\
  (v / 2 ^ 32) * 2 ^ 32 + uwrap 32 (swrap 32 v) = v.
Proof.
  intros Hv. split; [by apply swrap_range|]. split.
  - assert (0 <= v / 2 ^ 32 < 2 ^ 21) as ? by
      (split; [apply Z.div_pos | apply Z.div_lt_upper_bound]; lia).
    unfold in_sint. cbn. lia.
  - rewrite uwrap_swrap by lia. unfold uwrap. pose proof (Z.div_mod v (2 ^ 32)). lia.
Qed.

Lemma swrap_mod_32 v : swrap 32 (v mod 2 ^ 32) = swrap 32 v.
Proof. by apply (swrap_uwrap 32). Qed.

Section NumberAsLong.
Context {L : Type} `{LongLaws L}.

Lemma encode_number_ok (b : buffer) (off v : Z) :
  in_bounds b off 8 = true ->
  0 <= v <= 2 ^ 53 - 1 ->
  exists b', encodeNonNegativeNumberAsLong b off v = Ok b' /\
    decodeNumberFromLong b' off = Ok v /\
    encodeLong (L := L) b off (IsNumber v) = Ok b' /\
    length b' = length b.
Proof.
  intros Hb Hv. pose proof (number_halves v Hv) as (Hlo & Hhi & Hsum).
  destruct (fixed_pair 4 4 _ _ _ _ _ _ fixed_int fixed_int b off (swrap 32 v, v / 2 ^ 32))
    as (w & Hl & E & R); [done | done |].
  exists (write_at b off w).
  assert (in_bounds (write_at b off w) off 8 = true) as Hb'.
  { rewrite in_bounds_write; [done|]. by rewrite Hl. }
  specialize (R _ off Hb'). rewrite <- Hl in R at 1. rewrite sub_write_same in R by (by rewrite Hl).
  specialize (R eq_refl). unfold read_pair in R.
  apply res_bind_inv in R as (lo & E1 & R). apply res_bind_inv in R as (hi & E2 & R).
  injection R as -> ->. unfold decodeInt in E1, E2. split; [|split; [|split]].
  - unfold encodeNonNegativeNumberAsLong. rewrite (proj2 (Z.ltb_ge v 0)) by lia.
    replace (v + 1 >=? TWO_PWR_63_DBL) with false
      by (symmetry; rewrite Z.geb_leb; apply Z.leb_gt; change TWO_PWR_63_DBL with (2 ^ 63); lia).
    rewrite !js_or_0, Z.rem_mod_nonneg by (change TWO_PWR_32_DBL with (2 ^ 32); lia).
    change TWO_PWR_32_DBL with (2 ^ 32). rewrite swrap_mod_32, (swrap_id 32 (v / _)) by done.
    exact E.
  - unfold decodeNumberFromLong. rewrite E1, res_bind_ok.
    change INT_SIZE_IN_BYTES with (Z.of_nat 4). rewrite E2, res_bind_ok, js_ushr_0.
    change TWO_PWR_32_DBL with (2 ^ 32). cbv [mret res_ret]. by rewrite Hsum, number_of_int_exact by lia.
  - unfold encodeLong. rewrite long_low_spec, long_high_spec, long_val_of_Z.
    + exact E.
    + unfold in_sint. cbn. lia.
  - apply length_write_at. by rewrite Hl.
Qed.

(** A non-negative safe integer written by [encodeNonNegativeNumberAsLong]
    is the number [decodeNumberFromLong] reads back, and the bytes are those
    [encodeLong] writes for the same number through a [Long]: the routine that
    avoids the intermediate object is equivalent to the one that creates it.
    A negative number is refused. *)
Theorem number_as_long_roundtrip (b : buffer) (off v : Z) :
  in_bounds b off 8 = true ->
  0 <= v <= 2 ^ 53 - 1 ->
  (exists b', encodeNonNegativeNumberAsLong b off v = Ok b' /\
    decodeNumberFromLong b' off = Ok v /\
    encodeLong (L := L) b off (IsNumber v) = Ok b' /\
    length b' = length b) /\
  encodeNonNegativeNumberAsLong b off (- v - 1) = Err Error.
Proof.
  intros Hb Hv. split; [by apply encode_number_ok|].
  unfold encodeNonNegativeNumberAsLong. by rewrite (proj2 (Z.ltb_lt _ _)) by lia.
Qed.
End NumberAsLong.

Lemma number_as_long_roundtrip_witness :
  in_bounds (replicate 12 Byte.x00) 4 8 = true /\
  (exists b', encodeNonNegativeNumberAsLong (replicate 12 Byte.x00) 4 4294967301 = Ok b' /\
    decodeNumberFromLong b' 4 = Ok 4294967301).
Proof.
  split; [reflexivity|].
  destruct (number_as_long_roundtrip (L := Int64.t) (replicate 12 Byte.x00) 4 4294967301)
    as [(b' & E1 & E2 & _) _]; [reflexivity | lia |].
  eauto.
Defined.
