(* ===== verification/JsNumber.v ===== *)
(** * JavaScript numbers

    A number is an IEEE 754 double, [spec_float] of the Standard Library with a precision of 53 bits.
    Here are what the client does with numbers besides exact integer arithmetic: the
    bytes of a double and of a float ([writeDouble], [writeFloat] and their readers, of
    [src/util/BitsUtil.ts]), the rounding to a float, and the conversion to an integer that the integer
    writers of a [Buffer] make, with the range they check. *)

From Stdlib Require Export SpecFloat.
From S2P Require Export NodeBuffer FixSized.
#[local] Open Scope Z_scope.

Abbreviation js_number := spec_float.

Definition num_valid (x : js_number) : Prop := valid_binary 53 1024 x = true.

#[global] Instance spec_float_eq_dec : EqDecision spec_float.
Proof. solve_decision. Defined.

(** ** Bits

    [mw] mantissa and [ew] exponent bits. A finite number whose mantissa has no leading bit is
    subnormal. The result is below [2 ^ (mw + ew + 1)] for a valid number. *)

Definition bits_join (mw ew : Z) (s : bool) (e m : Z) : Z := (if s then 2 ^ (mw + ew) else 0) + e * 2 ^ mw + m.

Definition bits_of (mw ew : Z) (x : js_number) : Z :=
  match x with
  | S754_zero s => bits_join mw ew s 0 0
  | S754_infinity s => bits_join mw ew s (2 ^ ew - 1) 0
  | S754_nan => bits_join mw ew false (2 ^ ew - 1) (2 ^ (mw - 1))
  | S754_finite s m e =>
      if Zpos m <? 2 ^ mw then bits_join mw ew s 0 (Zpos m)
      else bits_join mw ew s (e - emin (mw + 1) (2 ^ (ew - 1)) + 1) (Zpos m - 2 ^ mw)
  end.

Definition of_bits (mw ew : Z) (b : Z) : js_number :=
  let s := 2 ^ (mw + ew) <=? b in
  let e := (b / 2 ^ mw) mod 2 ^ ew in
  let m := b mod 2 ^ mw in
  if e =? 0 then
    match m with Zpos p => S754_finite s p (emin (mw + 1) (2 ^ (ew - 1))) | _ => S754_zero s end
  else if e =? 2 ^ ew - 1 then (if m =? 0 then S754_infinity s else S754_nan)
  else S754_finite s (Z.to_pos (m + 2 ^ mw)) (e + emin (mw + 1) (2 ^ (ew - 1)) - 1).

Definition double_bits (x : js_number) : Z := bits_of 52 11 x.
Definition double_of_bits (b : Z) : js_number := of_bits 52 11 b.

(** The nearest float, as it is stored in 4 bytes, and the number a float is. *)
Definition round32 (x : js_number) : spec_float :=
  match x with
  | S754_finite s m e => binary_normalize 24 128 (if s then Zneg m else Zpos m) e s
  | _ => x
  end.
Definition widen (x : spec_float) : js_number :=
  match x with
  | S754_finite s m e => binary_normalize 53 1024 (if s then Zneg m else Zpos m) e s
  | _ => x
  end.
Definition float_bits (x : js_number) : Z := uwrap 32 (bits_of 23 8 (round32 x)).
Definition float_of_bits (b : Z) : js_number := widen (of_bits 23 8 b).

(** [Math.fround]. *)
Definition fround (x : js_number) : js_number := float_of_bits (float_bits x).

Definition writeDouble (buf : buffer) (pos : Z) (val : js_number) (isBigEndian : bool) : res buffer :=
  if isBigEndian then writeUIntBE 8 buf (double_bits val) pos else writeUIntLE 8 buf (double_bits val) pos.
Definition readDouble (buf : buffer) (pos : Z) (isBigEndian : bool) : res js_number :=
  double_of_bits <$> (if isBigEndian then readUIntBE 8 buf pos else readUIntLE 8 buf pos).
Definition writeFloat (buf : buffer) (pos : Z) (val : js_number) (isBigEndian : bool) : res buffer :=
  if isBigEndian then writeUIntBE 4 buf (float_bits val) pos else writeUIntLE 4 buf (float_bits val) pos.
Definition readFloat (buf : buffer) (pos : Z) (isBigEndian : bool) : res js_number :=
  float_of_bits <$> (if isBigEndian then readUIntBE 4 buf pos else readUIntLE 4 buf pos).

(** ** Integers *)

(** The number of an integer that a double holds exactly. *)
Definition num_of_Z (z : Z) : js_number :=
  match z with
  | Z0 => S754_zero false
  | _ => let d := Z.log2 (Z.abs z) + 1 in
         S754_finite (z <? 0) (Z.to_pos (Z.abs z * 2 ^ (53 - d))) (d - 53)
  end.

(** The integer part of a finite number. *)
Definition num_trunc (x : js_number) : Z :=
  match x with
  | S754_finite s m e =>
      let a := if 0 <=? e then Zpos m * 2 ^ e else Zpos m / 2 ^ (- e) in if s then - a else a
  | _ => 0
  end.

(** Comparison of a number and an integer; [NaN] is neither above nor below. *)
Definition num_gtb (x : js_number) (k : Z) : bool :=
  match x with
  | S754_nan => false
  | S754_zero _ => k <? 0
  | S754_infinity s => negb s
  | S754_finite s m e =>
      let v := if s then Zneg m else Zpos m in
      if 0 <=? e then k <? v * 2 ^ e else k * 2 ^ (- e) <? v
  end.
Definition num_ltb (x : js_number) (k : Z) : bool :=
  match x with
  | S754_nan => false
  | S754_zero _ => 0 <? k
  | S754_infinity s => s
  | S754_finite s m e =>
      let v := if s then Zneg m else Zpos m in
      if 0 <=? e then v * 2 ^ e <? k else v <? k * 2 ^ (- e)
  end.

(** The integer that [buf.writeInt32BE(x)] and the like write: they refuse a number out of the range of the
    width, and store the integer part of any other ([NaN] as 0). *)
Definition check_int (lo hi : Z) (x : js_number) : res Z :=
  if num_gtb x hi || num_ltb x lo then Err RangeError else Ok (num_trunc x).

(** ** Lemmas *)

Lemma digits2_log2 p : Zpos (digits2_pos p) = Z.log2 (Zpos p) + 1.
Proof.
  induction p as [p IH|p IH|]; [| |done]; cbn [digits2_pos].
  - rewrite Pos2Z.inj_xI, Z.log2_succ_double, Pos2Z.inj_succ, IH by done. lia.
  - rewrite Pos2Z.inj_xO, Z.log2_double, Pos2Z.inj_succ, IH by done. lia.
Qed.

Lemma valid_finite s m e : num_valid (S754_finite s m e) ->
  (Zpos m < 2 ^ 52 /\ e = -1074) \/ (2 ^ 52 <= Zpos m < 2 ^ 53 /\ -1074 <= e <= 971).
Proof.
  unfold num_valid, valid_binary, bounded, canonical_mantissa, fexp, emin. intros E.
  bool_hyps. rewrite digits2_log2 in *.
  destruct (Z.log2_spec (Zpos m)) as [H1 H2]; [done|].
  destruct (Z.lt_ge_cases (Z.log2 (Zpos m)) 52) as [Hl|Hl].
  - left. split; [|lia]. eapply Z.lt_le_trans; [exact H2|]. apply Z.pow_le_mono_r; lia.
  - assert (Z.log2 (Zpos m) = 52) as Hl' by lia. rewrite Hl' in *. right. lia.
Qed.

Lemma double_bits_range x : num_valid x -> in_uint 64 (double_bits x).
Proof.
  unfold in_uint, double_bits, bits_of, bits_join, emin.
  destruct x as [[]|[]| |s m e]; try (intros; lia). intros Hv. apply valid_finite in Hv.
  destruct (Zpos m <? 2 ^ 52) eqn:E; bool_hyps; destruct s; lia.
Qed.

(** The fields of a double can be taken apart again. *)
Lemma bits_split s e m : 0 <= e < 2 ^ 11 -> 0 <= m < 2 ^ 52 ->
  let b := bits_join 52 11 s e m in
  (2 ^ (52 + 11) <=? b) = s /\ (b / 2 ^ 52) mod 2 ^ 11 = e /\ b mod 2 ^ 52 = m.
Proof.
  intros He Hm b. unfold b, bits_join. split_and!.
  - destruct s; [apply Z.leb_le | apply Z.leb_gt]; lia.
  - replace (_ + e * 2 ^ 52 + m) with (m + ((if s then 2 ^ 11 else 0) + e) * 2 ^ 52) by (destruct s; lia).
    rewrite Z.div_add by lia. rewrite (Z.div_small m) by lia.
    destruct s; [|by rewrite !Z.add_0_l, Z.mod_small].
    rewrite Z.add_0_l, Z.add_comm, <- (Z.mul_1_l (2 ^ 11)) at 1. rewrite Z.mod_add by lia. by apply Z.mod_small.
  - replace (_ + e * 2 ^ 52 + m) with (m + ((if s then 2 ^ 11 else 0) + e) * 2 ^ 52) by (destruct s; lia).
    rewrite Z.mod_add by lia. by apply Z.mod_small.
Qed.

Lemma double_roundtrip x : num_valid x -> double_of_bits (double_bits x) = x.
Proof.
  unfold double_of_bits, of_bits, double_bits, bits_of.
  destruct x as [[]|[]| |s m e]; [reflexivity..|]. intros Hv. apply valid_finite in Hv.
  change (emin (52 + 1) (2 ^ (11 - 1))) with (-1074).
  destruct (Zpos m <? 2 ^ 52) eqn:E; bool_hyps.
  - destruct (bits_split s 0 (Zpos m)) as (-> & -> & ->); [lia..|]. cbn. f_equal. lia.
  - destruct (bits_split s (e - -1074 + 1) (Zpos m - 2 ^ 52)) as (-> & -> & ->); [lia..|].
    rewrite (proj2 (Z.eqb_neq _ _)) by lia. rewrite (proj2 (Z.eqb_neq _ _)) by lia.
    f_equal; [|lia]. replace (_ - _ + _) with (Zpos m) by lia. done.
Qed.

Lemma num_of_Z_finite z : z <> 0 -> Z.abs z < 2 ^ 53 -> exists m e,
  num_of_Z z = S754_finite (z <? 0) m e /\ -52 <= e <= 0 /\ Zpos m = Z.abs z * 2 ^ (- e) /\ 2 ^ 52 <= Zpos m < 2 ^ 53.
Proof.
  intros Hz Hb. set (d := Z.log2 (Z.abs z) + 1).
  assert (0 < Z.abs z) as Ha by lia. destruct (Z.log2_spec _ Ha) as [H1 H2].
  assert (0 <= Z.log2 (Z.abs z) < 53) as Hl
    by (split; [apply Z.log2_nonneg | apply Z.log2_lt_pow2; lia]).
  assert (0 < 2 ^ (53 - d)) as Hp by (apply Z.pow_pos_nonneg; lia).
  exists (Z.to_pos (Z.abs z * 2 ^ (53 - d))), (d - 53).
  assert (Zpos (Z.to_pos (Z.abs z * 2 ^ (53 - d))) = Z.abs z * 2 ^ (53 - d)) as Em by (apply Z2Pos.id; nia).
  split_and!; [by destruct z | lia | lia | rewrite Em; do 2 f_equal; lia | |]; rewrite Em.
  - replace (2 ^ 52) with (2 ^ (d - 1) * 2 ^ (53 - d)) by (rewrite <- Z.pow_add_r by lia; f_equal; lia).
    apply Z.mul_le_mono_nonneg_r; [lia|]. by replace (d - 1) with (Z.log2 (Z.abs z)) by lia.
  - replace (2 ^ 53) with (2 ^ d * 2 ^ (53 - d)) by (rewrite <- Z.pow_add_r by lia; f_equal; lia).
    apply Z.mul_lt_mono_pos_r; [lia|]. by replace d with (Z.succ (Z.log2 (Z.abs z))) by lia.
Qed.

Lemma num_of_Z_valid z : Z.abs z < 2 ^ 53 -> num_valid (num_of_Z z).
Proof.
  intros Hb. destruct (decide (z = 0)) as [->|Hz]; [done|].
  destruct (num_of_Z_finite z Hz Hb) as (m & e & -> & He & _ & Hm).
  unfold num_valid, valid_binary, bounded, canonical_mantissa, fexp, emin.
  rewrite digits2_log2. assert (Z.log2 (Zpos m) = 52) as -> by (apply Z.log2_unique; lia).
  apply andb_true_iff. rewrite Z.eqb_eq, Z.leb_le. lia.
Qed.

(** Sign, magnitude and exponent of an integer-valued number agree with the integer. *)
Lemma num_of_Z_scale z m e : Zpos m = Z.abs z * 2 ^ (- e) -> (if z <? 0 then Zneg m else Zpos m) = z * 2 ^ (- e).
Proof. destruct (z <? 0) eqn:E; bool_hyps; intros Hm; [change (Zneg m) with (- Zpos m)|]; rewrite Hm; lia. Qed.

Lemma num_of_Z_trunc z : Z.abs z < 2 ^ 53 -> num_trunc (num_of_Z z) = z.
Proof.
  intros Hb. destruct (decide (z = 0)) as [->|Hz]; [done|].
  destruct (num_of_Z_finite z Hz Hb) as (m & e & -> & He & Em & _). unfold num_trunc.
  destruct (0 <=? e) eqn:E; bool_hyps.
  - assert (e = 0) as -> by lia. rewrite Em. destruct (z <? 0) eqn:?; bool_hyps; cbn; lia.
  - rewrite Em, Z.div_mul by lia. destruct (z <? 0) eqn:?; bool_hyps; lia.
Qed.

Lemma num_of_Z_cmp z k : Z.abs z < 2 ^ 53 -> num_gtb (num_of_Z z) k = (k <? z) /\ num_ltb (num_of_Z z) k = (z <? k).
Proof.
  intros Hb. destruct (decide (z = 0)) as [->|Hz]; [done|].
  destruct (num_of_Z_finite z Hz Hb) as (m & e & -> & He & Em & _). unfold num_gtb, num_ltb.
  rewrite (num_of_Z_scale z m e Em). destruct (0 <=? e) eqn:E; bool_hyps.
  - assert (e = 0) as -> by lia. change (2 ^ (- 0)) with 1. change (2 ^ 0) with 1. by rewrite !Z.mul_1_r.
  - assert (0 < 2 ^ (- e)) by (apply Z.pow_pos_nonneg; lia).
    split; apply eq_true_iff_eq; rewrite !Z.ltb_lt; symmetry; by apply Z.mul_lt_mono_pos_r.
Qed.

Lemma check_int_of_Z lo hi z : lo <= z <= hi -> Z.abs z < 2 ^ 53 -> check_int lo hi (num_of_Z z) = Ok z.
Proof.
  intros Hr Hb. unfold check_int. destruct (num_of_Z_cmp z hi Hb) as [-> _]. destruct (num_of_Z_cmp z lo Hb) as [_ ->].
  rewrite (proj2 (Z.ltb_ge _ _)), (proj2 (Z.ltb_ge _ _)) by lia. cbn. by rewrite num_of_Z_trunc.
Qed.
