(* ===== verification/Frames.v ===== *)
(** * Frames

    The constants and the [Frame] class of [src/protocol/ClientMessage.ts], seen
    by value: a frame is its content and its flags, a message is the list of its
    frames. [ClientMessage.v] has the linked, mutable representation and proves
    that its operations implement this view. The codecs and the message reader
    are written against the operations of this file:

    - a message under construction is the list of frames added so far;
    - a message being decoded is the list of frames the cursor has not passed,
      and a decoder is a computation [Dec A] that consumes them. *)

From S2P Require Export FixSized.
#[local] Open Scope Z_scope.

Definition MESSAGE_TYPE_OFFSET : Z := 0.
Definition CORRELATION_ID_OFFSET : Z := MESSAGE_TYPE_OFFSET + INT_SIZE_IN_BYTES.
Definition RESPONSE_BACKUP_ACKS_OFFSET : Z := CORRELATION_ID_OFFSET + LONG_SIZE_IN_BYTES.
Definition PARTITION_ID_OFFSET : Z := CORRELATION_ID_OFFSET + LONG_SIZE_IN_BYTES.
Definition FRAGMENTATION_ID_OFFSET : Z := 0.

Definition DEFAULT_FLAGS : Z := 0.
Definition BEGIN_FRAGMENT_FLAG : Z := js_shl 1 15.
Definition END_FRAGMENT_FLAG : Z := js_shl 1 14.
Definition UNFRAGMENTED_MESSAGE : Z := js_or BEGIN_FRAGMENT_FLAG END_FRAGMENT_FLAG.
Definition IS_FINAL_FLAG : Z := js_shl 1 13.
Definition BEGIN_DATA_STRUCTURE_FLAG : Z := js_shl 1 12.
Definition END_DATA_STRUCTURE_FLAG : Z := js_shl 1 11.
Definition IS_NULL_FLAG : Z := js_shl 1 10.
Definition IS_EVENT_FLAG : Z := js_shl 1 9.
Definition IS_BACKUP_AWARE_FLAG : Z := js_shl 1 8.
Definition IS_BACKUP_EVENT_FLAG : Z := js_shl 1 7.
Definition SIZE_OF_FRAME_LENGTH_AND_FLAGS : Z := INT_SIZE_IN_BYTES + SHORT_SIZE_IN_BYTES.

Record Frame := mkFrame { content : buffer; flags : Z }.

#[global] Instance Frame_eq_dec : EqDecision Frame.
Proof. solve_decision. Defined.

(** [new Frame(content)], and [Frame.createInitialFrame] with its flags. *)
Definition newFrame (content : buffer) : Frame := mkFrame content DEFAULT_FLAGS.
Definition createInitialFrame `{Uninit} (size flags : Z) : Frame :=
  mkFrame (allocUnsafe size) flags.

Definition isFlagSet (flags flagMask : Z) : bool := js_and flags flagMask =? flagMask.
Definition isBeginFrame (f : Frame) : bool := isFlagSet (flags f) BEGIN_DATA_STRUCTURE_FLAG.
Definition isEndFrame (f : Frame) : bool := isFlagSet (flags f) END_DATA_STRUCTURE_FLAG.
Definition isNullFrame (f : Frame) : bool := isFlagSet (flags f) IS_NULL_FLAG.
Definition hasEventFlag (f : Frame) : bool := isFlagSet (flags f) IS_EVENT_FLAG.
Definition hasBackupEventFlag (f : Frame) : bool := isFlagSet (flags f) IS_BACKUP_EVENT_FLAG.
Definition isFinalFrame (f : Frame) : bool := isFlagSet (flags f) IS_FINAL_FLAG.
Definition hasUnfragmentedMessageFlag (f : Frame) : bool := isFlagSet (flags f) UNFRAGMENTED_MESSAGE.
Definition hasBeginFragmentFlag (f : Frame) : bool := isFlagSet (flags f) BEGIN_FRAGMENT_FLAG.
Definition hasEndFragmentFlag (f : Frame) : bool := isFlagSet (flags f) END_FRAGMENT_FLAG.
Definition addFlag (f : Frame) (flag : Z) : Frame := mkFrame (content f) (js_or (flags f) flag).
Definition getLength (f : Frame) : Z := SIZE_OF_FRAME_LENGTH_AND_FLAGS + blen (content f).

Definition NULL_FRAME : Frame := mkFrame [] IS_NULL_FLAG.
Definition BEGIN_FRAME : Frame := mkFrame [] BEGIN_DATA_STRUCTURE_FLAG.
Definition END_FRAME : Frame := mkFrame [] END_DATA_STRUCTURE_FLAG.

(** ** Messages under construction *)

Abbreviation frames := (list Frame).

Definition addFrame (clientMessage : frames) (f : Frame) : frames := clientMessage ++ [f].

(** ** Messages being decoded *)

Definition Dec (A : Type) : Type := frames -> res (A * frames).

#[global] Instance Dec_ret : MRet Dec := fun A a s => Ok (a, s).
#[global] Instance Dec_bind : MBind Dec := fun A B f m s =>
  match m s with Ok (a, s') => f a s' | Err e => Err e end.

(** A computation on values inside a decoder. *)
Definition lift {A} (r : res A) : Dec A := fun s => a ← r; Ok (a, s).

(** [clientMessage.nextFrame()]; every caller dereferences the result, which
    throws a [TypeError] past the last frame. *)
Definition nextFrame : Dec Frame := fun s =>
  match s with f :: s' => Ok (f, s') | [] => Err TypeError end.

(** [clientMessage.nextFrame()] with the result dropped. *)
Definition skipFrame : Dec unit := fun s => Ok (tt, tail s).

Definition peekNextFrame : Dec Frame := fun s =>
  match s with f :: _ => Ok (f, s) | [] => Err TypeError end.

(** ** The wire format

    A message is the concatenation of its frames, each a 4-byte length that
    counts the header, 2 bytes of flags and the content; the last frame carries
    [IS_FINAL_FLAG]. *)

Definition frame_bytes (f : Frame) (fl : Z) : buffer :=
  le_split 4 (getLength f) ++ le_split 2 fl ++ content f.

Fixpoint wire (fs : frames) : buffer :=
  match fs with
  | [] => []
  | [f] => frame_bytes f (js_or (flags f) IS_FINAL_FLAG)
  | f :: rest => frame_bytes f (flags f) ++ wire rest
  end.

Definition total_length (fs : frames) : Z := foldr (fun f acc => getLength f + acc) 0 fs.

(** A frame whose header fits its fields. *)
Definition frame_ok (f : Frame) : Prop := in_uint 16 (flags f) /\ getLength f < 2 ^ 31.

(** ** Lemmas *)

Lemma getLength_pos f : 6 <= getLength f.
Proof. unfold getLength. change SIZE_OF_FRAME_LENGTH_AND_FLAGS with 6. lia. Qed.

Lemma length_frame_bytes f fl : blen (frame_bytes f fl) = getLength f.
Proof.
  unfold frame_bytes, getLength. rewrite !length_app, !length_le_split.
  change SIZE_OF_FRAME_LENGTH_AND_FLAGS with 6. lia.
Qed.

Lemma wire_cons f g fs : wire (f :: g :: fs) = frame_bytes f (flags f) ++ wire (g :: fs).
Proof. done. Qed.

Lemma length_wire fs : blen (wire fs) = total_length fs.
Proof.
  induction fs as [|f [|g fs] IH]; [done | |].
  - cbn [wire total_length foldr]. rewrite length_frame_bytes. lia.
  - rewrite wire_cons, length_app, Nat2Z.inj_add, length_frame_bytes, IH. done.
Qed.

Lemma total_length_app fs gs : total_length (fs ++ gs) = total_length fs + total_length gs.
Proof. unfold total_length. induction fs as [|f fs IH]; cbn; [done|]. rewrite IH. lia. Qed.

(** A flag mask of one bit, on a 16-bit flag word, tests that bit. *)
Lemma isFlagSet_bit fl n :
  0 <= n < 31 -> isFlagSet fl (2 ^ n) = Z.testbit fl n.
Proof.
  intros Hn. unfold isFlagSet, js_and, to_int32.
  assert (Z.land fl (2 ^ n) = if Z.testbit fl n then 2 ^ n else 0) as ->.
  { apply Z.bits_inj'. intros i Hi. rewrite Z.land_spec, Z.pow2_bits_eqb by lia.
    destruct (Z.eqb_spec n i) as [->|Hne].
    - destruct (Z.testbit fl i); cbn.
      + rewrite Z.pow2_bits_true by lia. done.
      + by rewrite Z.bits_0.
    - rewrite andb_false_r. destruct (Z.testbit fl n).
      + by rewrite Z.pow2_bits_false by lia.
      + by rewrite Z.bits_0. }
  assert (0 < 2 ^ n < 2 ^ 31) by (split; [apply Z.pow_pos_nonneg | apply Z.pow_lt_mono_r]; lia).
  destruct (Z.testbit fl n).
  - rewrite swrap_id by (unfold in_sint; cbn in *; lia). apply Z.eqb_refl.
  - rewrite swrap_id by (unfold in_sint; cbn; lia). apply Z.eqb_neq. lia.
Qed.

Lemma js_or_final fl : in_uint 16 fl -> js_or fl IS_FINAL_FLAG = Z.lor fl (2 ^ 13).
Proof.
  intros Hfl. unfold js_or, to_int32. change IS_FINAL_FLAG with (2 ^ 13).
  apply swrap_id; [lia|]. apply in_uint_sint; [lia|].
  apply (in_uint_weaken 16); [lia|]. apply lor_range; [lia | done |]. unfold in_uint. lia.
Qed.

Lemma js_or_final_range fl : in_uint 16 fl -> in_uint 16 (js_or fl IS_FINAL_FLAG).
Proof.
  intros Hfl. rewrite js_or_final by done. apply lor_range; [lia | done |]. unfold in_uint. lia.
Qed.
