(* ===== verification/Murmur.v ===== *)
(** * Partition hash

    [murmur] of [src/invocation/Murmur.ts]: MurmurHash3_x86_32 written with the
    32-bit operators of JavaScript and 16-bit halves for the multiplications, so
    that no product leaves the range of exact doubles. [murmur3_x86_32] is the
    published algorithm on unsigned 32-bit words; the theorems relate the two. *)

From S2P Require Export NodeBuffer.
#[local] Open Scope Z_scope.

(** [((k & 0xffff) * c) + ((((k >>> 16) * c) & 0xffff) << 16)], before the mask. *)
Definition mul_halves (k c : Z) : Z :=
  js_and k 0xffff * c + js_shl (js_and (js_ushr k 16 * c) 0xffff) 16.

(** The same, [& 0xffffffff]. *)
Definition mul32 (k c : Z) : Z := js_and (mul_halves k c) 0xffffffff.

Definition rotl (k r : Z) : Z := js_or (js_shl k r) (js_ushr k (32 - r)).

Definition c1 : Z := 0xcc9e2d51.
Definition c2 : Z := 0x1b873593.

(** The unsigned byte at index [i]; the loops only read inside the buffer. *)
Definition byte_at (key : buffer) (i : nat) : Z :=
  match key !! i with Some b => byte.unsigned b | None => 0 end.

Definition load_block (key : buffer) (i : nat) : Z :=
  js_or (js_or (js_or (js_and (byte_at key i) 0xff)
                      (js_shl (js_and (byte_at key (i + 1)) 0xff) 8))
               (js_shl (js_and (byte_at key (i + 2)) 0xff) 16))
        (js_shl (js_and (byte_at key (i + 3)) 0xff) 24).

Definition mix_k1 (k1 : Z) : Z := mul32 (rotl (mul32 k1 c1) 15) c2.

(** One iteration of the block loop on [h1]. *)
Definition murmur_step (h1 k1 : Z) : Z :=
  let k1 := mix_k1 k1 in
  let h1 := js_xor h1 k1 in
  let h1 := rotl h1 13 in
  let h1b := mul32 h1 5 in
  (js_and h1b 0xffff + 0x6b64) + js_shl (js_and (js_ushr h1b 16 + 0xe654) 0xffff) 16.

(** The loop over the [n] whole blocks from index [i]; the body takes the hash
    and the index of the block. *)
Fixpoint block_loop (body : Z -> nat -> Z) (n i : nat) (h1 : Z) : Z :=
  match n with
  | O => h1
  | S n => block_loop body n (i + 4) (body h1 i)
  end.

Definition murmur_blocks (key : buffer) (n i : nat) (h1 : Z) : Z :=
  block_loop (fun h1 i => murmur_step h1 (load_block key i)) n i h1.

(** The [switch] on the remainder, with its fallthroughs. *)
Definition murmur_tail (key : buffer) (remainder i : nat) (h1 : Z) : Z :=
  let k1 := 0 in
  match remainder with
  | O => h1
  | S r =>
      let k1 := if decide (remainder = 3)%nat
                then js_xor k1 (js_shl (js_and (byte_at key (i + 2)) 0xff) 16) else k1 in
      let k1 := if decide (2 <= remainder)%nat
                then js_xor k1 (js_shl (js_and (byte_at key (i + 1)) 0xff) 8) else k1 in
      let k1 := js_xor k1 (js_and (byte_at key i) 0xff) in
      js_xor h1 (mix_k1 k1)
  end.

Definition murmur_final (len h1 : Z) : Z :=
  let h1 := js_xor h1 len in
  let h1 := js_xor h1 (js_ushr h1 16) in
  let h1 := mul32 h1 0x85ebca6b in
  let h1 := js_xor h1 (js_ushr h1 13) in
  let h1 := mul32 h1 0xc2b2ae35 in
  let h1 := js_xor h1 (js_ushr h1 16) in
  let result := js_ushr h1 0 in
  js_or result 0.

Definition murmur (key : buffer) : Z :=
  let remainder := Z.to_nat (js_and (blen key) 3) in
  let bytes := (length key - remainder)%nat in
  let h1 := murmur_blocks key (bytes / 4) 0 0x01000193 in
  let h1 := murmur_tail key remainder bytes h1 in
  murmur_final (blen key) h1.

(** ** The published algorithm *)

Module Ref.

Definition u32 (z : Z) : Z := z mod 2 ^ 32.
Definition rotl32 (x r : Z) : Z := Z.lor (u32 (Z.shiftl x r)) (Z.shiftr x (32 - r)).
Definition mix (k : Z) : Z := u32 (rotl32 (u32 (k * 0xcc9e2d51)) 15 * 0x1b873593).

Definition fmix (h : Z) : Z :=
  let h := Z.lxor h (Z.shiftr h 16) in
  let h := u32 (h * 0x85ebca6b) in
  let h := Z.lxor h (Z.shiftr h 13) in
  let h := u32 (h * 0xc2b2ae35) in
  Z.lxor h (Z.shiftr h 16).

(** The data is consumed four bytes at a time, little-endian; the tail of one to
    three bytes is mixed without rotating the state. *)
Fixpoint body (data : buffer) (h : Z) : Z :=
  match data with
  | b0 :: b1 :: b2 :: b3 :: rest =>
      let k := le_combine [b0; b1; b2; b3] in
      body rest (u32 (rotl32 (Z.lxor h (mix k)) 13 * 5 + 0xe6546b64))
  | [] => h
  | tail => Z.lxor h (mix (le_combine tail))
  end.

Definition murmur3_x86_32 (data : buffer) (seed : Z) : Z :=
  fmix (Z.lxor (body data seed) (u32 (blen data))).
End Ref.

(** ** The 32-bit operators modulo [2^32] *)

Lemma uwrap_land w z : 0 <= w -> uwrap w z = Z.land z (Z.ones w).
Proof. intros. unfold uwrap. by rewrite Z.land_ones. Qed.

Lemma uwrap_lxor w a b : 0 <= w -> uwrap w (Z.lxor a b) = Z.lxor (uwrap w a) (uwrap w b).
Proof.
  intros. rewrite !uwrap_land by done. apply Z.bits_inj'. intros n Hn.
  rewrite !Z.land_spec, !Z.lxor_spec, !Z.land_spec.
  destruct (Z.testbit (Z.ones w) n); rewrite ?andb_true_r, ?andb_false_r; done.
Qed.

Lemma uwrap_lor w a b : 0 <= w -> uwrap w (Z.lor a b) = Z.lor (uwrap w a) (uwrap w b).
Proof. intros. rewrite !uwrap_land by done. apply Z.land_lor_distr_l. Qed.

Lemma u_js_xor a b : uwrap 32 (js_xor a b) = Z.lxor (uwrap 32 a) (uwrap 32 b).
Proof. unfold js_xor, to_int32. by rewrite uwrap_swrap, uwrap_lxor. Qed.

Lemma u_js_or a b : uwrap 32 (js_or a b) = Z.lor (uwrap 32 a) (uwrap 32 b).
Proof. unfold js_or, to_int32. by rewrite uwrap_swrap, uwrap_lor. Qed.

Lemma u_js_shl a n : 0 <= n < 32 -> uwrap 32 (js_shl a n) = uwrap 32 (uwrap 32 a * 2 ^ n).
Proof.
  intros. unfold js_shl, to_int32. rewrite uwrap_swrap, (Z.mod_small n), Z.shiftl_mul_pow2 by lia.
  unfold uwrap. by rewrite Zmult_mod_idemp_l.
Qed.

Lemma js_ushr_spec a n : 0 <= n < 32 -> js_ushr a n = uwrap 32 a / 2 ^ n.
Proof.
  intros. unfold js_ushr, to_uint32. rewrite (Z.mod_small n), Z.shiftr_div_pow2 by lia. done.
Qed.

Lemma js_and_mask a w : 0 <= w < 32 -> js_and a (2 ^ w - 1) = a mod 2 ^ w.
Proof.
  intros. unfold js_and, to_int32. replace (2 ^ w - 1) with (Z.ones w) by (rewrite Z.ones_equiv; lia).
  rewrite Z.land_ones by lia. apply swrap_id; [lia|].
  apply in_uint_sint; [lia|]. apply (in_uint_weaken w); [lia|].
  apply (uwrap_range w). lia.
Qed.

Lemma js_and_ffff a : js_and a 0xffff = a mod 2 ^ 16.
Proof. apply (js_and_mask a 16). lia. Qed.

Lemma js_and_ff a : js_and a 0xff = a mod 2 ^ 8.
Proof. apply (js_and_mask a 8). lia. Qed.

Lemma uwrap_split_halves a : uwrap 32 a = a mod 2 ^ 16 + (uwrap 32 a / 2 ^ 16) * 2 ^ 16.
Proof.
  replace (a mod 2 ^ 16) with (uwrap 32 a mod 2 ^ 16).
  - pose proof (Z.div_mod (uwrap 32 a) (2 ^ 16)). lia.
  - unfold uwrap. rewrite Z.mod_mod_divide; [done|].
    exists (2 ^ 16). lia.
Qed.

(** Sixteen bits shifted up, whatever the sign of the result. *)
Lemma u_js_shl_16 a : uwrap 32 (js_shl (js_and a 0xffff) 16) = (a mod 2 ^ 16) * 2 ^ 16.
Proof.
  rewrite u_js_shl, js_and_ffff by lia.
  pose proof (Z.mod_pos_bound a (2 ^ 16)).
  rewrite (uwrap_id 32 (a mod _)) by (unfold in_uint; lia).
  apply uwrap_id. unfold in_uint. lia.
Qed.

Lemma uwrap_add a b : uwrap 32 (a + b) = uwrap 32 (a + uwrap 32 b).
Proof. unfold uwrap. by rewrite Zplus_mod_idemp_r. Qed.

Lemma uwrap_mul_l a b : uwrap 32 (uwrap 32 a * b) = uwrap 32 (a * b).
Proof. unfold uwrap. by rewrite Zmult_mod_idemp_l. Qed.

Lemma uwrap_high x : uwrap 32 ((x mod 2 ^ 16) * 2 ^ 16) = uwrap 32 (x * 2 ^ 16).
Proof.
  unfold uwrap. change (2 ^ 32) with (2 ^ 16 * 2 ^ 16). rewrite !Z.mul_mod_distr_r by lia.
  by rewrite Zmod_mod.
Qed.

Lemma u_mul_halves k c : uwrap 32 (mul_halves k c) = uwrap 32 (uwrap 32 k * c).
Proof.
  unfold mul_halves. rewrite uwrap_add, u_js_shl_16, uwrap_add, uwrap_high, <- uwrap_add.
  rewrite js_and_ffff, js_ushr_spec by lia.
  rewrite (uwrap_split_halves k) at 2. f_equal. lia.
Qed.

Lemma u_mul32 k c : uwrap 32 (mul32 k c) = uwrap 32 (uwrap 32 k * c).
Proof.
  unfold mul32, js_and, to_int32. change 0xffffffff with (Z.ones 32).
  rewrite uwrap_swrap, <- uwrap_land, uwrap_uwrap by lia. apply u_mul_halves.
Qed.

Lemma u_rotl k r : 0 < r < 32 -> uwrap 32 (rotl k r) = Ref.rotl32 (uwrap 32 k) r.
Proof.
  intros. unfold rotl, Ref.rotl32. rewrite u_js_or, u_js_shl, js_ushr_spec by lia.
  rewrite Z.shiftl_mul_pow2, Z.shiftr_div_pow2 by lia. f_equal. apply uwrap_id.
  pose proof (uwrap_range 32 k ltac:(lia)) as [? ?]. split.
  - apply Z.div_pos; lia.
  - apply Z.div_lt_upper_bound; [lia|].
    assert (1 <= 2 ^ (32 - r)) by (apply (Z.pow_le_mono_r 2 0); lia). nia.
Qed.

Lemma u_mix k : uwrap 32 (mix_k1 k) = Ref.mix (uwrap 32 k).
Proof. unfold mix_k1, Ref.mix. rewrite u_mul32, u_rotl, u_mul32 by lia. done. Qed.

Lemma u_step h k :
  uwrap 32 (murmur_step h k) =
  Ref.u32 (Ref.rotl32 (Z.lxor (uwrap 32 h) (Ref.mix (uwrap 32 k))) 13 * 5 + 0xe6546b64).
Proof.
  unfold murmur_step. set (h1b := mul32 _ 5).
  assert (uwrap 32 h1b = uwrap 32 (Ref.rotl32 (Z.lxor (uwrap 32 h) (Ref.mix (uwrap 32 k))) 13 * 5)) as E.
  { unfold h1b. rewrite u_mul32, u_rotl, u_js_xor, u_mix by lia. done. }
  rewrite uwrap_add, u_js_shl_16, uwrap_add, uwrap_high, <- uwrap_add, js_and_ffff, js_ushr_spec by lia.
  replace (_ + _) with (uwrap 32 h1b + 0xe6546b64)
    by (pose proof (uwrap_split_halves h1b); change 0xe6546b64 with (0x6b64 + 0xe654 * 2 ^ 16); lia).
  rewrite E. unfold Ref.u32, uwrap. by rewrite Zplus_mod_idemp_l.
Qed.

Lemma byte_at_range key i : 0 <= byte_at key i < 256.
Proof.
  unfold byte_at. destruct (key !! i) as [b|]; [|lia].
  pose proof (byte.unsigned_range b). lia.
Qed.

Lemma byte_at_masked key i : js_and (byte_at key i) 0xff = byte_at key i.
Proof. rewrite js_and_ff. apply Z.mod_small. apply byte_at_range. Qed.

Lemma byte_at_lookup key i b : key !! i = Some b -> byte_at key i = byte.unsigned b.
Proof. unfold byte_at. by intros ->. Qed.

(** ** Loads *)

Lemma u_shl_byte a n : 0 <= a < 256 -> 0 <= n <= 24 -> uwrap 32 (js_shl a n) = Z.shiftl a n.
Proof.
  intros. rewrite u_js_shl by lia. rewrite (uwrap_id 32 a) by (unfold in_uint; lia).
  rewrite Z.shiftl_mul_pow2 by lia. apply uwrap_id. unfold in_uint.
  assert (2 ^ n <= 2 ^ 24) by (apply Z.pow_le_mono_r; lia).
  assert (0 < 2 ^ n) by (apply Z.pow_pos_nonneg; lia). nia.
Qed.

Lemma u_byte a : 0 <= a < 256 -> uwrap 32 a = a.
Proof. intros. apply uwrap_id. unfold in_uint. lia. Qed.

Lemma le_combine_cons b l : le_combine (b :: l) = Z.lor (byte.unsigned b) (Z.shiftl (le_combine l) 8).
Proof. done. Qed.

Lemma u_load_block key i b0 b1 b2 b3 :
  key !! i = Some b0 -> key !! (i + 1)%nat = Some b1 ->
  key !! (i + 2)%nat = Some b2 -> key !! (i + 3)%nat = Some b3 ->
  uwrap 32 (load_block key i) = le_combine [b0; b1; b2; b3].
Proof.
  intros H0 H1 H2 H3. unfold load_block. rewrite !byte_at_masked, !u_js_or.
  rewrite !u_shl_byte, u_byte by (apply byte_at_range || lia).
  erewrite !byte_at_lookup by eassumption.
  rewrite !le_combine_cons. change (le_combine []) with 0.
  rewrite Z.shiftl_0_l, Z.lor_0_r, !Z.shiftl_lor, !Z.shiftl_shiftl by lia.
  rewrite !Z.lor_assoc. done.
Qed.

Lemma lxor_disjoint a b n : 0 <= n -> 0 <= a < 2 ^ n -> Z.lxor (Z.shiftl b n) a = Z.lor a (Z.shiftl b n).
Proof.
  intros Hn Ha. rewrite Z.lxor_comm. apply Z.lxor_lor. apply Z.bits_inj'. intros i Hi.
  rewrite Z.land_spec, Z.bits_0. destruct (Z.ltb_spec i n).
  - rewrite Z.shiftl_spec_low by lia. apply andb_false_r.
  - rewrite <- (Z.mod_small a (2 ^ n)) by lia. rewrite Z.mod_pow2_bits_high by lia. done.
Qed.

Lemma byte_lt b n : 8 <= n -> 0 <= byte.unsigned b < 2 ^ n.
Proof.
  intros. pose proof (byte.unsigned_range b).
  assert (2 ^ 8 <= 2 ^ n) by (apply Z.pow_le_mono_r; lia). lia.
Qed.

(** The tail of one to three bytes. *)
Lemma u_murmur_tail key i h :
  (i <= length key)%nat -> (length key - i < 4)%nat ->
  uwrap 32 (murmur_tail key (length key - i) i h) = Ref.body (drop i key) (uwrap 32 h).
Proof.
  intros Hi Hr. rewrite <- (length_drop key i).
  assert (forall j, byte_at key (i + j) = byte_at (drop i key) j) as Hb.
  { intros j. unfold byte_at. by rewrite lookup_drop. }
  assert (byte_at key i = byte_at (drop i key) 0) as Hb0.
  { by rewrite <- Hb, Nat.add_0_r. }
  unfold murmur_tail. rewrite Hb0, !Hb.
  rewrite <- (length_drop key i) in Hr. set (t := drop i key) in *. clearbody t.
  destruct t as [|b0 [|b1 [|b2 [|? ?]]]]; [done | | | | cbn in Hr; lia];
    cbn [length]; repeat case_decide; try lia; cbn [Ref.body];
    rewrite !u_js_xor, u_mix, !u_js_xor, !byte_at_masked, ?u_shl_byte
      by (apply byte_at_range || lia); do 2 f_equal; cbn [byte_at lookup list_lookup nth_error];
    rewrite !le_combine_cons; change (le_combine []) with 0;
    rewrite Z.shiftl_0_l, Z.lor_0_r; unfold byte_at; cbn [list_lookup lookup]; 
    change (uwrap 32 0) with 0; rewrite ?Z.lxor_0_l;
    rewrite (u_byte (byte.unsigned b0)) by (apply (byte_lt _ 8); lia).
  - done.
  - apply lxor_disjoint; [lia|]. apply byte_lt. lia.
  - rewrite Z.shiftl_lor, Z.shiftl_shiftl by lia.
    rewrite Z.lxor_assoc, (lxor_disjoint _ (byte.unsigned b1)) by (lia || (apply byte_lt; lia)).
    rewrite lxor_disjoint; [by rewrite Z.lor_assoc | lia |].
    apply (lor_range 16); [lia | apply byte_lt; lia |].
    pose proof (byte_lt b1 8). rewrite Z.shiftl_mul_pow2 by lia. unfold in_uint. lia.
Qed.

Lemma body_block b0 b1 b2 b3 rest h :
  Ref.body (b0 :: b1 :: b2 :: b3 :: rest) h =
  Ref.body rest (Ref.u32 (Ref.rotl32 (Z.lxor h (Ref.mix (le_combine [b0; b1; b2; b3]))) 13 * 5
                          + 0xe6546b64)).
Proof. reflexivity. Qed.

Lemma block_loop_S body n i h : block_loop body (S n) i h = block_loop body n (i + 4) (body h i).
Proof. reflexivity. Qed.

Lemma murmur_blocks_S key n i h :
  murmur_blocks key (S n) i h = murmur_blocks key n (i + 4) (murmur_step h (load_block key i)).
Proof. unfold murmur_blocks. by rewrite block_loop_S. Qed.

Lemma u_murmur_blocks key n : forall i h,
  (i + 4 * n <= length key)%nat -> (length key - (i + 4 * n) < 4)%nat ->
  uwrap 32 (murmur_tail key (length key - (i + 4 * n)) (i + 4 * n) (murmur_blocks key n i h))
  = Ref.body (drop i key) (uwrap 32 h).
Proof.
  induction n as [|n IH]; intros i h Hi Hr.
  - replace (i + 4 * 0)%nat with i in * by lia. by apply u_murmur_tail.
  - rewrite murmur_blocks_S. replace (i + 4 * S n)%nat with (i + 4 + 4 * n)%nat in * by lia.
    rewrite IH by lia.
    destruct (drop i key) as [|b0 [|b1 [|b2 [|b3 rest]]]] eqn:E;
      try (apply (f_equal length) in E; rewrite length_drop in E; cbn in E; lia).
    assert (forall j, key !! (i + j)%nat = (b0 :: b1 :: b2 :: b3 :: rest) !! j) as Hl.
    { intros j. by rewrite <- E, lookup_drop. }
    assert (drop (i + 4) key = rest) as ->.
    { rewrite <- drop_drop, E. done. }
    rewrite body_block, u_step, (u_load_block key i b0 b1 b2 b3); [done | ..];
      [rewrite <- (Nat.add_0_r i)|..]; by rewrite Hl.
Qed.

Lemma u_xorshift x r :
  0 < r < 32 ->
  uwrap 32 (js_xor x (js_ushr x r)) = Z.lxor (uwrap 32 x) (Z.shiftr (uwrap 32 x) r).
Proof.
  intros Hr. rewrite u_js_xor. f_equal. unfold js_ushr. rewrite Z.mod_small by lia.
  apply uwrap_id. unfold to_uint32. rewrite Z.shiftr_div_pow2 by lia.
  pose proof (uwrap_range 32 x ltac:(lia)) as [? ?]. split; [apply Z.div_pos; lia|].
  apply Z.div_lt_upper_bound; [lia|].
  assert (1 <= 2 ^ r) by (apply (Z.pow_le_mono_r 2 0); lia). nia.
Qed.

Lemma xorshift_range z r :
  0 < r < 32 -> in_uint 32 (Z.lxor (uwrap 32 z) (Z.shiftr (uwrap 32 z) r)).
Proof. intros. rewrite <- u_xorshift by done. by apply uwrap_range. Qed.

Lemma u_final len h :
  murmur_final len h = to_int32 (Ref.fmix (Z.lxor (uwrap 32 h) (uwrap 32 len))).
Proof.
  unfold murmur_final, Ref.fmix. rewrite js_ushr_spec, Z.pow_0_r, Z.div_1_r by lia.
  unfold js_or. rewrite Z.lor_0_r. unfold to_int32. rewrite swrap_uwrap by lia.
  apply swrap_congr; [|lia].
  rewrite u_xorshift, u_mul32, u_xorshift, u_mul32, u_xorshift, u_js_xor by lia.
  symmetry. apply uwrap_id. by apply (xorshift_range _ 16).
Qed.

(** C31: the hash the client computes with JavaScript numbers is the published
    MurmurHash3_x86_32 with seed 0x01000193, as a signed 32-bit integer, for
    every key: client and members agree on the partition of a key. *)
Theorem murmur_is_murmur3 (key : buffer) :
  murmur key = to_int32 (Ref.murmur3_x86_32 key 0x01000193).
Proof.
  unfold murmur, Ref.murmur3_x86_32. rewrite (js_and_mask _ 2) by lia.
  change (2 ^ 2) with (Z.of_nat 4). rewrite <- Nat2Z.inj_mod, Nat2Z.id.
  set (n := (length key / 4)%nat).
  pose proof (Nat.div_mod_eq (length key) 4) as Hdm.
  pose proof (Nat.mod_upper_bound (length key) 4 ltac:(lia)).
  replace (length key - length key mod 4)%nat with (n * 4)%nat by lia.
  rewrite Nat.div_mul by lia.
  replace (length key mod 4)%nat with (length key - (0 + 4 * n))%nat by lia.
  replace (n * 4)%nat with (0 + 4 * n)%nat by lia.
  rewrite u_final, u_murmur_blocks by lia. done.
Qed.

(** Every product and sum [murmur] forms from 32-bit operands and a 32-bit
    constant is a safe integer, so no step loses precision in doubles. *)
Theorem mul_halves_safe (k c : Z) :
  in_uint 32 c ->
  safe_int (js_and k 0xffff * c) /\ safe_int (js_ushr k 16 * c) /\ safe_int (mul_halves k c).
Proof.
  intros [? ?]. unfold mul_halves, safe_int. rewrite js_and_ffff, js_ushr_spec by lia.
  pose proof (Z.mod_pos_bound k (2 ^ 16)). pose proof (uwrap_range 32 k ltac:(lia)) as [? ?].
  assert (0 <= uwrap 32 k / 2 ^ 16 < 2 ^ 16).
  { split; [apply Z.div_pos | apply Z.div_lt_upper_bound]; lia. }
  pose proof (swrap_range 32 (Z.shiftl (js_and (uwrap 32 k / 2 ^ 16 * c) 65535) (16 mod 32)) ltac:(lia)) as [? ?].
  unfold js_shl, to_int32 in *. nia.
Qed.

Lemma mul_halves_safe_witness : safe_int (mul_halves 0x12345678 c1).
Proof. apply (mul_halves_safe 0x12345678 c1). unfold in_uint, c1. lia. Defined.
