(* ===== verification/HeapData.v ===== *)
(** * Serialized values

    The class [HeapData] of [src/serialization/HeapData.ts]: a payload with a
    4-byte partition hash, a 4-byte type id and the data. The payload may be
    null; a method that dereferences a null payload throws a [TypeError]. *)

From S2P Require Export Murmur.
#[local] Open Scope Z_scope.

Definition PARTITION_HASH_OFFSET : Z := 0.
Definition TYPE_OFFSET : Z := 4.
Definition DATA_OFFSET : Z := 8.
Definition HEAP_DATA_OVERHEAD : Z := DATA_OFFSET.

(** [NULL_TYPE_ID] of [src/serialization/DefaultSerializers.ts]. *)
Definition NULL_TYPE_ID : Z := 0.

Record HeapData := mkHeapData { payload : option buffer }.

#[global] Instance HeapData_eq_dec : EqDecision HeapData.
Proof. solve_decision. Defined.

Definition newHeapData (b : option buffer) : res HeapData :=
  match b with
  | Some p => if (blen p >? 0) && (blen p <? HEAP_DATA_OVERHEAD) then Err RangeError
              else Ok (mkHeapData b)
  | None => Ok (mkHeapData b)
  end.

Definition toBuffer (d : HeapData) : option buffer := payload d.

Definition totalSize (d : HeapData) : Z :=
  match payload d with None => 0 | Some p => blen p end.

Definition dataSize (d : HeapData) : Z := Z.max (totalSize d - HEAP_DATA_OVERHEAD) 0.

Definition getType (d : HeapData) : res Z :=
  if totalSize d =? 0 then Ok NULL_TYPE_ID
  else match payload d with None => Err TypeError | Some p => readInt32BE p TYPE_OFFSET end.

Definition hashCode (d : HeapData) : res Z :=
  match payload d with None => Err TypeError | Some p => Ok (murmur (slice_from p DATA_OFFSET)) end.

Definition hasPartitionHash (d : HeapData) : res bool :=
  match payload d with
  | None => Ok false
  | Some p =>
      if negb (HEAP_DATA_OVERHEAD <=? blen p) then Ok false
      else h ← readInt32BE p PARTITION_HASH_OFFSET; mret (negb (h =? 0))
  end.

Definition getPartitionHash (d : HeapData) : res Z :=
  has ← hasPartitionHash d;
  if has : bool then
    match payload d with
    | None => Err TypeError
    | Some p => readInt32BE p PARTITION_HASH_OFFSET
    end
  else hashCode d.

(** [payload.compare(other, 8, other.length, 8) === 0]: the bytes from 8 on are
    the same; ranges that start past the end are empty. *)
Definition equals (this other : HeapData) : res bool :=
  match payload this, payload other with
  | Some p, Some q => Ok (bool_decide (slice_from p DATA_OFFSET = slice_from q DATA_OFFSET))
  | _, _ => Err TypeError
  end.

(** ** Lemmas *)

(** The part of a payload that [equals] and [hashCode] look at. *)
Definition data_key (d : HeapData) : option buffer :=
  p ← payload d; mret (slice_from p DATA_OFFSET).

Lemma equals_spec d e :
  equals d e = match data_key d, data_key e with
               | Some k, Some k' => Ok (bool_decide (k = k'))
               | _, _ => Err TypeError
               end.
Proof. destruct d as [[p|]], e as [[q|]]; done. Qed.

Lemma hashCode_spec d :
  hashCode d = match data_key d with Some k => Ok (murmur k) | None => Err TypeError end.
Proof. by destruct d as [[p|]]. Qed.

(** [equals] and [hashCode] look at the data only: two values of different types with the same bytes
    (a double 0 and a long 0, here) are equal to them. *)
Lemma equals_ignores_type :
  exists d e, getType d = Ok (-10) /\ getType e = Ok (-8) /\ equals d e = Ok true /\ hashCode d = hashCode e.
Proof.
  exists (mkHeapData (Some (replicate 4 Byte.x00 ++ [Byte.xff; Byte.xff; Byte.xff; Byte.xf6] ++ replicate 8 Byte.x00))),
    (mkHeapData (Some (replicate 4 Byte.x00 ++ [Byte.xff; Byte.xff; Byte.xff; Byte.xf8] ++ replicate 8 Byte.x00))).
  vm_compute. auto.
Qed.
