(* ===== verification/PartitionService.v ===== *)
(** * Partition service

    [PartitionServiceImpl] of [src/PartitionService.ts]. A connection is
    identified by its [connectionId] ([Connection.equals] compares it), a member
    by its UUID, and the partition table is the JavaScript [Map] from partition
    ids to owners. *)

From S2P Require Export HeapData LongNum.
#[local] Open Scope Z_scope.

Section PartitionService.
Context {L : Type} `{LongLib L}.

Record PartitionTable := mkPartitionTable {
  pt_connection : option Z;
  partitionStateVersion : Z;
  partitions : gmap Z (UUID L)
}.

Record PartitionServiceImpl := mkPartitionService {
  partitionTable : PartitionTable;
  partitionCount : Z
}.

Definition newPartitionTable : PartitionTable := mkPartitionTable None (-1) ∅.
Definition newPartitionService : PartitionServiceImpl := mkPartitionService newPartitionTable 0.

Definition reset (s : PartitionServiceImpl) : PartitionServiceImpl :=
  mkPartitionService newPartitionTable (partitionCount s).

Definition convertToMap (ps : list (UUID L * list Z)) : gmap Z (UUID L) :=
  foldl (fun newPartitions entry =>
    foldl (fun m ownedPartition => <[ownedPartition := entry.1]> m) newPartitions entry.2)
    ∅ ps.

Definition shouldBeApplied (connection : Z) (ps : list (UUID L * list Z)) (version : Z)
    (current : PartitionTable) : bool :=
  if bool_decide (length ps = 0%nat) then false
  else if negb (bool_decide (pt_connection current = Some connection)) then true
  else negb (version <=? partitionStateVersion current).

Definition handlePartitionViewEvent (connection : Z) (ps : list (UUID L * list Z)) (version : Z)
    (s : PartitionServiceImpl) : PartitionServiceImpl :=
  if negb (shouldBeApplied connection ps version (partitionTable s)) then s
  else mkPartitionService (mkPartitionTable (Some connection) version (convertToMap ps))
         (partitionCount s).

Definition getPartitionOwner (s : PartitionServiceImpl) (partitionId : Z) : option (UUID L) :=
  partitions (partitionTable s) !! partitionId.

(** A key is a [Data] with its own partition hash, or a value that the
    serialization service turns into one first. *)
Definition getPartitionId (toData : string -> HeapData) (s : PartitionServiceImpl)
    (key : HeapData + string) : res Z :=
  if partitionCount s =? 0 then Err ClientOfflineError
  else
    partitionHash ← match key with
                    | inl d => getPartitionHash d
                    | inr v => getPartitionHash (toData v)
                    end;
    mret (Z.rem (Z.abs partitionHash) (partitionCount s)).

Definition checkAndSetPartitionCount (newPartitionCount : Z) (s : PartitionServiceImpl)
    : bool * PartitionServiceImpl :=
  if partitionCount s =? 0 then (true, mkPartitionService (partitionTable s) newPartitionCount)
  else (partitionCount s =? newPartitionCount, s).
End PartitionService.
Arguments PartitionTable L : clear implicits.
Arguments PartitionServiceImpl L : clear implicits.

(** ** Partition ids *)

Lemma readInt32BE_total (p : buffer) off :
  in_bounds p off 4 = true -> exists z, readInt32BE p off = Ok z.
Proof.
  intros Hb. unfold readInt32BE, readSIntBE. rewrite readUIntBE_sub by done. eauto.
Qed.

Lemma getPartitionHash_total d p :
  payload d = Some p -> exists h, getPartitionHash d = Ok h.
Proof.
  intros Hp. unfold getPartitionHash, hasPartitionHash, hashCode. rewrite Hp.
  case_if; [eauto|]. bool_hyps.
  destruct (readInt32BE_total p PARTITION_HASH_OFFSET) as [z Hz].
  { apply in_bounds_true. unfold PARTITION_HASH_OFFSET, HEAP_DATA_OVERHEAD, DATA_OFFSET in *. lia. }
  rewrite Hz. cbn. case_if; eauto.
Qed.

Section PartitionFacts.
Context {L : Type} `{LongLib L}.
Implicit Types (s : PartitionServiceImpl L).

(** With a partition count set, every serialized key is assigned a partition
    id in [0, partitionCount); without one, the lookup throws
    [ClientOfflineError]. *)
Theorem getPartitionId_bounds toData s (d : HeapData) (p : buffer) :
  payload d = Some p ->
  0 <= partitionCount s ->
  (partitionCount s = 0 -> getPartitionId toData s (inl d) = Err ClientOfflineError) /\
  (0 < partitionCount s ->
   exists id, getPartitionId toData s (inl d) = Ok id /\ 0 <= id < partitionCount s).
Proof.
  intros Hp Hc. unfold getPartitionId. split.
  - by intros ->.
  - intros Hpos. rewrite (proj2 (Z.eqb_neq _ 0)) by lia.
    destruct (getPartitionHash_total d p Hp) as [h ->]. cbn.
    eexists. split; [done|]. apply Z.rem_bound_pos; lia.
Qed.

(** ** Partition tables *)

Lemma insert_all_lookup (m : gmap Z (UUID L)) u own p :
  foldl (fun m q => <[q := u]> m) m own !! p = if decide (p ∈ own) then Some u else m !! p.
Proof.
  revert m. induction own as [|q own IH]; intros m; cbn [foldl].
  - case_decide; [set_solver | done].
  - rewrite IH. destruct (decide (p ∈ own)).
    + rewrite decide_True; [done|]. by right.
    + destruct (decide (p = q)) as [->|].
      * rewrite decide_True; [apply lookup_insert_eq|]. by left.
      * rewrite decide_False by (by rewrite elem_of_cons; naive_solver). by apply lookup_insert_ne.
Qed.

Lemma convert_fold_lookup (m : gmap Z (UUID L)) ps p :
  NoDup (concat (map snd ps)) ->
  foldl (fun m entry => foldl (fun m q => <[q := entry.1]> m) m entry.2) m ps !! p =
  match list_find (fun e => p ∈ e.2) ps with Some (_, e) => Some e.1 | None => m !! p end.
Proof.
  revert m. induction ps as [|[u own] ps IH]; intros m Hnd; [done|].
  cbn in Hnd. apply NoDup_app in Hnd as (Hnd1 & Hdisj & Hnd2).
  cbn [foldl list_find]. rewrite IH, insert_all_lookup by done.
  destruct (decide (p ∈ (u, own).2)) as [Hin|Hin]; cbn in Hin.
  - destruct (list_find _ ps) as [[i e]|] eqn:E; [|done].
    apply list_find_Some in E as (Hi & He & _). exfalso.
    apply (Hdisj p Hin). apply list_elem_of_In, in_concat.
    exists e.2. split; [|by apply list_elem_of_In].
    apply in_map, list_elem_of_In. eapply list_elem_of_lookup_2; eauto.
  - by destruct (list_find _ ps) as [[i e]|].
Qed.

Lemma owner_unique (ps : list (UUID L * list Z)) p u own u' own' :
  NoDup (concat (map snd ps)) ->
  (u, own) ∈ ps -> p ∈ own -> (u', own') ∈ ps -> p ∈ own' -> u = u'.
Proof.
  induction ps as [|[w o] ps IH]; [set_solver|]. cbn. intros Hnd Hu Hp Hu' Hp'.
  apply NoDup_app in Hnd as (_ & Hdisj & Hnd).
  assert (forall x y, (x, y) ∈ ps -> p ∈ y -> p ∈ concat (map snd ps)) as Hc.
  { intros x y Hx Hy. apply list_elem_of_In, in_concat. exists y.
    split; [|by apply list_elem_of_In]. apply in_map_iff. exists (x, y).
    split; [done|]. by apply list_elem_of_In. }
  apply elem_of_cons in Hu as [Hu|Hu]; apply elem_of_cons in Hu' as [Hu'|Hu'];
    naive_solver.
Qed.

(** Once a partition view is applied, [getPartitionOwner] answers, for every
    partition id, exactly the member that the view lists as its owner, and the
    old table is gone; the view assigns no partition twice. *)
Theorem partition_owner_after_event s c ps v p u :
  shouldBeApplied c ps v (partitionTable s) = true ->
  NoDup (concat (map snd ps)) ->
  getPartitionOwner (handlePartitionViewEvent c ps v s) p = Some u <->
  exists own, (u, own) ∈ ps /\ p ∈ own.
Proof.
  intros Happ Hnd. unfold getPartitionOwner, handlePartitionViewEvent. rewrite Happ. cbn.
  unfold convertToMap. rewrite convert_fold_lookup, lookup_empty by done. split.
  - destruct (list_find _ ps) as [[i [u' own]]|] eqn:E; [|done]. intros [= <-].
    apply list_find_Some in E as (Hi & He & _). exists own. split; [|done].
    by eapply list_elem_of_lookup_2.
  - intros (own & Hin & Hp). destruct (list_find _ ps) as [[i [u' own']]|] eqn:E.
    + apply list_find_Some in E as (Hi & He & _). cbn in *. f_equal.
      by eapply (owner_unique ps p u' own' u own); eauto using list_elem_of_lookup_2.
    + apply list_find_None in E. rewrite Forall_forall in E. by apply E in Hin.
Qed.

(** The views received over a connection, in order of arrival. *)
Definition view : Type := list (UUID L * list Z) * Z.
Definition handleViews (c : Z) (s : PartitionServiceImpl L) (vs : list view) : PartitionServiceImpl L :=
  foldl (fun s vw => handlePartitionViewEvent c vw.1 vw.2 s) s vs.

(** The versions of the views that carry partitions. *)
Definition versions (vs : list view) : list Z := omap (fun vw =>
  if decide (vw.1 = []) then None else Some vw.2) vs.

Lemma foldr_max_init a b l : foldr Z.max (Z.max a b) l = Z.max b (foldr Z.max a l).
Proof. induction l as [|c l IH]; cbn; lia. Qed.

Lemma handle_one c ps v s :
  pt_connection (partitionTable s) = Some c ->
  let s1 := handlePartitionViewEvent c ps v s in
  pt_connection (partitionTable s1) = Some c /\
  partitionStateVersion (partitionTable s1) =
    (if decide (ps = []) then partitionStateVersion (partitionTable s)
     else Z.max (partitionStateVersion (partitionTable s)) v) /\
  (s1 = s \/ (partitionStateVersion (partitionTable s1) = v /\
              partitions (partitionTable s1) = convertToMap ps)).
Proof.
  intros Hc. unfold handlePartitionViewEvent, shouldBeApplied. rewrite Hc.
  rewrite (bool_decide_eq_true_2 (Some c = Some c)) by done. cbn [negb].
  destruct ps as [|e ps]; cbn; [eauto|].
  destruct (Z.leb_spec v (partitionStateVersion (partitionTable s))); cbn; naive_solver lia.
Qed.

(** Whatever the order in which the views of a connection arrive, the table
    ends at the greatest version among the current one and the non-empty views,
    and holds the partitions of a view with that version (or is untouched):
    a late, older view never replaces a newer table. *)
Theorem partition_table_newest c vs : forall s,
  pt_connection (partitionTable s) = Some c ->
  let s' := handleViews c s vs in
  partitionStateVersion (partitionTable s') =
    foldr Z.max (partitionStateVersion (partitionTable s)) (versions vs) /\
  (s' = s \/ exists ps, (ps, partitionStateVersion (partitionTable s')) ∈ vs /\
     partitions (partitionTable s') = convertToMap ps).
Proof.
  induction vs as [|[ps v] vs IH]; intros s Hc; [cbn; eauto|].
  destruct (handle_one c ps v s Hc) as (Hc1 & Hv1 & Ht1).
  cbn [handleViews foldl fst snd] in *. set (s1 := handlePartitionViewEvent c ps v s) in *.
  destruct (IH s1 Hc1) as [Hv Ht]. unfold handleViews in Hv, Ht. split.
  - rewrite Hv, Hv1. unfold versions. cbn [omap list_omap fst snd].
    case_decide; [done|]. by rewrite foldr_max_init.
  - destruct Ht as [Ht|(ps' & Hin & Hps')].
    + rewrite Ht. destruct Ht1 as [->|[Hver Hpart]]; [by left|]. right. exists ps.
      rewrite Hver. split; [left | done].
    + right. exists ps'. split; [by right | done].
Qed.
End PartitionFacts.

(** ** Witnesses *)

Definition uuid_of (a b : Z) : UUID Int64.t := mkUUID (long_of_Z a) (long_of_Z b).

Lemma getPartitionId_bounds_witness :
  exists id, getPartitionId (fun _ => mkHeapData None)
      (mkPartitionService (newPartitionTable (L := Int64.t)) 271)
      (inl (mkHeapData (Some (replicate 12 Byte.x07)))) = Ok id /\ 0 <= id < 271.
Proof.
  apply (getPartitionId_bounds (fun _ => mkHeapData None)
    (mkPartitionService (newPartitionTable (L := Int64.t)) 271) _ (replicate 12 Byte.x07));
    [reflexivity | cbn; lia | cbn; lia].
Defined.

Lemma partition_owner_after_event_witness :
  getPartitionOwner (handlePartitionViewEvent 1 [(uuid_of 1 2, [0; 2]); (uuid_of 3 4, [1])] 5
    newPartitionService) 2 = Some (uuid_of 1 2).
Proof.
  apply (partition_owner_after_event newPartitionService 1
    [(uuid_of 1 2, [0; 2]); (uuid_of 3 4, [1])] 5); [reflexivity | |].
  - apply (bool_decide_unpack _). reflexivity.
  - exists [0; 2]. set_solver.
Defined.

Lemma partition_table_newest_witness :
  let s := handlePartitionViewEvent 1 [(uuid_of 1 2, [0])] 3 newPartitionService in
  partitionStateVersion (partitionTable
    (handleViews 1 s [([(uuid_of 3 4, [0])], 7); ([(uuid_of 5 6, [0])], 5); ([], 9)])) = 7.
Proof.
  intros s.
  destruct (partition_table_newest 1
    [([(uuid_of 3 4, [0])], 7); ([(uuid_of 5 6, [0])], 5); ([], 9)] s) as [Hv _]; [reflexivity|].
  exact Hv.
Defined.
