(* ===== verification/ObjectData.v ===== *)
(** * Data output and input

    [ObjectDataOutput], [PositionalObjectDataOutput] and [ObjectDataInput] of
    [src/serialization/ObjectData.ts]: a buffer that grows as values are written, and a cursor that reads
    values from one. A writer takes the state of the output and returns the state after the call; a
    reader also returns the value. The argument [pos] of a reader is optional, as in the code: with it,
    the value is read there and the cursor stays.

    A character is its UTF-16 code unit, a string its UTF-8 bytes. [DataCodec] is what a
    writer and its reader promise to the serializers built on them: the writer appends some bytes,
    whatever the capacity of the buffer was, and the reader takes the value back from these bytes,
    whatever surrounds them. *)

From S2P Require Export JsNumber HeapData.
#[local] Open Scope Z_scope.

Definition OUTPUT_BUFFER_INITIAL_SIZE : Z := HEAP_DATA_OVERHEAD + LONG_SIZE_IN_BYTES.
Definition MASK_1BYTE : Z := js_shl 1 8 - 1.

(** ** ObjectDataOutput *)

Record ObjectDataOutput := mkOutput { o_buffer : buffer; o_bigEndian : bool; o_pos : Z }.

Abbreviation Out := (ObjectDataOutput -> res ObjectDataOutput).

Module Output.
Section Output.
Context `{Uninit}.

Definition new (isBigEndian : bool) : ObjectDataOutput :=
  mkOutput (allocUnsafe OUTPUT_BUFFER_INITIAL_SIZE) isBigEndian 0.

Definition clear (o : ObjectDataOutput) : ObjectDataOutput :=
  mkOutput (allocUnsafe (blen (o_buffer o))) (o_bigEndian o) 0.

Definition position (newPosition : option Z) (o : ObjectDataOutput) : Z * ObjectDataOutput :=
  (o_pos o, match newPosition with Some p => mkOutput (o_buffer o) (o_bigEndian o) p | None => o end).

Definition toBuffer (o : ObjectDataOutput) : buffer := slice (o_buffer o) 0 (o_pos o).

Definition available (o : ObjectDataOutput) : Z := blen (o_buffer o) - o_pos o.

Definition ensureAvailable (size : Z) (o : ObjectDataOutput) : ObjectDataOutput :=
  if available o <? size then
    mkOutput (copy_into (slice (o_buffer o) 0 (o_pos o)) (allocUnsafe (o_pos o + size)) 0) (o_bigEndian o) (o_pos o)
  else o.

(** The shape of the fixed-size writers: make room, write at the position, advance. *)
Definition put (size : Z) (wr : buffer -> Z -> bool -> res buffer) : Out := fun o =>
  let o := ensureAvailable size o in
  b ← wr (o_buffer o) (o_pos o) (o_bigEndian o);
  Ok (mkOutput b (o_bigEndian o) (o_pos o + size)).

Definition write (byte : Z) : Out :=
  put BYTE_SIZE_IN_BYTES (fun b pos _ => writeUInt8 b (js_and byte MASK_1BYTE) pos).

(** [write] of a [Buffer], and the copy [writeByteArray] makes. *)
Definition writeBuffer (bytes : buffer) : Out := put (blen bytes) (fun b pos _ => Ok (copy_into bytes b pos)).

Definition writeBoolean (val : bool) : Out := write (if val then 1 else 0).
Definition writeByte (byte : Z) : Out := write byte.

Definition writeInt (int : Z) : Out := put INT_SIZE_IN_BYTES (fun b pos be => writeInt32 b pos int be).
Definition writeIntBE (int : Z) : Out := put INT_SIZE_IN_BYTES (fun b pos _ => writeInt32 b pos int true).
Definition writeShort (short : Z) : Out := put SHORT_SIZE_IN_BYTES (fun b pos be => writeInt16 b pos short be).
Definition writeChar (char : Z) : Out := put CHAR_SIZE_IN_BYTES (fun b pos be => writeUInt16 b pos char be).
Definition writeDouble (double : js_number) : Out :=
  put DOUBLE_SIZE_IN_BYTES (fun b pos be => JsNumber.writeDouble b pos double be).
Definition writeFloat (float : js_number) : Out :=
  put FLOAT_SIZE_IN_BYTES (fun b pos be => JsNumber.writeFloat b pos float be).

Definition writeLong {L} `{LongLib L} (long : L) : Out := put LONG_SIZE_IN_BYTES (fun b pos be =>
  if be : bool then b ← writeInt32 b pos (long_high long) true;
                    writeInt32 b (pos + INT_SIZE_IN_BYTES) (long_low long) true
  else b ← writeInt32 b pos (long_low long) false;
       writeInt32 b (pos + INT_SIZE_IN_BYTES) (long_high long) false).

Fixpoint each {A} (func : A -> Out) (arr : list A) : Out := fun o =>
  match arr with
  | [] => Ok o
  | x :: arr => o ← func x o; each func arr o
  end.

Definition array_length {A} (arr : option (list A)) : Z :=
  match arr with Some arr => Z.of_nat (length arr) | None => NULL_ARRAY_LENGTH end.

Definition writeArray {A} (func : A -> Out) (arr : option (list A)) : Out := fun o =>
  o ← writeInt (array_length arr) o;
  match arr with Some arr => if Z.of_nat (length arr) >? 0 then each func arr o else Ok o | None => Ok o end.

Definition writeBooleanArray := writeArray writeBoolean.
Definition writeCharArray := writeArray writeChar.
Definition writeDoubleArray := writeArray writeDouble.
Definition writeFloatArray := writeArray writeFloat.
Definition writeIntArray := writeArray writeInt.
Definition writeShortArray := writeArray writeShort.
Definition writeLongArray {L} `{LongLib L} := writeArray (writeLong (L := L)).

Definition writeByteArray (bytes : option buffer) : Out := fun o =>
  o ← writeInt (array_length bytes) o;
  match bytes with Some bytes => if blen bytes >? 0 then writeBuffer bytes o else Ok o | None => Ok o end.

Definition writeChars (chars : option (list Z)) : Out := fun o =>
  o ← writeInt (array_length chars) o;
  match chars with Some chars => each writeChar chars o | None => Ok o end.

Definition writeData (data : option HeapData) : Out := fun o =>
  let buf := d ← data; HeapData.toBuffer d in
  o ← writeInt (array_length buf) o;
  match buf with Some buf => each (fun x => write (Z.of_N (Byte.to_N x))) buf o | None => Ok o end.

(** [this.buffer.write(val, this.pos, this.pos + len, 'utf8')] writes as many bytes as the third argument and the room
    allow. *)
Definition buffer_write (b : buffer) (s : string) (pos len : Z) : buffer :=
  write_at b pos (take (Z.to_nat (Z.min len (blen b - pos))) (from_utf8 s)).

Definition writeString (val : option string) : Out := fun o =>
  match val with
  | None => writeInt NULL_ARRAY_LENGTH o
  | Some val =>
      let len := blen (from_utf8 val) in
      o ← writeInt len o;
      put len (fun b pos _ => Ok (buffer_write b val pos (pos + len))) o
  end.
Definition writeStringArray := writeArray writeString.

Definition writeZeroBytes (count : Z) : Out := each (fun _ : nat => write 0) (seq 0 (Z.to_nat count)).
End Output.
End Output.

(** ** PositionalObjectDataOutput *)

Module Positional.
(** The writers at a position leave the cursor alone. *)
Definition at_position (wr : buffer -> bool -> res buffer) : Out := fun o =>
  b ← wr (o_buffer o) (o_bigEndian o); Ok (mkOutput b (o_bigEndian o) (o_pos o)).

(** A store out of bounds is ignored, and keeps the low byte. *)
Definition pwrite (position byte : Z) : Out := at_position (fun b _ =>
  Ok (if in_bounds b position 1 then write_at b position (le_split 1 byte) else b)).
Definition pwriteBuffer (position : Z) (bytes : buffer) : Out :=
  at_position (fun b _ => Ok (copy_into bytes b position)).
Definition pwriteBoolean (position : Z) (val : bool) : Out := pwrite position (if val then 1 else 0).
Definition pwriteByte (position byte : Z) : Out := pwrite position byte.
Definition pwriteChar (position char : Z) : Out := at_position (fun b be => writeUInt16 b position char be).
Definition pwriteDouble (position : Z) (double : js_number) : Out :=
  at_position (fun b be => JsNumber.writeDouble b position double be).
Definition pwriteFloat (position : Z) (float : js_number) : Out :=
  at_position (fun b be => JsNumber.writeFloat b position float be).
Definition pwriteInt (position int : Z) : Out := at_position (fun b be => writeInt32 b position int be).
Definition pwriteIntBE (position int : Z) : Out := at_position (fun b _ => writeInt32 b position int true).
Definition pwriteShort (position short : Z) : Out := at_position (fun b be => writeInt16 b position short be).
Definition pwriteLong {L} `{LongLib L} (position : Z) (long : L) : Out := at_position (fun b be =>
  if be : bool then b ← writeInt32 b position (long_high long) true;
                    writeInt32 b (position + INT_SIZE_IN_BYTES) (long_low long) true
  else b ← writeInt32 b position (long_low long) false;
       writeInt32 b (position + INT_SIZE_IN_BYTES) (long_high long) false).
End Positional.

(** ** ObjectDataInput *)

Record ObjectDataInput := mkInput { i_buffer : buffer; i_offset : Z; i_bigEndian : bool; i_pos : Z }.

Abbreviation Reader A := (ObjectDataInput -> res (A * ObjectDataInput)).

Module Input.
Definition new (b : buffer) (offset : Z) (isBigEndian : bool) : ObjectDataInput :=
  mkInput b offset isBigEndian offset.

Definition set_pos (p : Z) (i : ObjectDataInput) : ObjectDataInput :=
  mkInput (i_buffer i) (i_offset i) (i_bigEndian i) p.

Definition position (newPosition : option Z) : Reader Z := fun i =>
  Ok (i_pos i, match newPosition with Some p => set_pos p i | None => i end).

Definition available (i : ObjectDataInput) : Z := blen (i_buffer i) - i_pos i.
Definition reset (i : ObjectDataInput) : ObjectDataInput := set_pos 0 i.
Definition skipBytes (count : Z) (i : ObjectDataInput) : ObjectDataInput := set_pos (i_pos i + count) i.

Definition assertAvailable (numOfBytes : Z) (pos : option Z) (i : ObjectDataInput) : res unit :=
  let pos := default (i_pos i) pos in
  if (0 <=? pos) && (pos + numOfBytes <=? blen (i_buffer i)) then Ok () else Err AssertionError.

(** The shape of the fixed-size readers. *)
Definition get {A} (size : Z) (rd : buffer -> Z -> bool -> res A) (pos : option Z) : Reader A := fun i =>
  _ ← assertAvailable size pos i;
  match pos with
  | None => x ← rd (i_buffer i) (i_pos i) (i_bigEndian i); Ok (x, set_pos (i_pos i + size) i)
  | Some p => x ← rd (i_buffer i) p (i_bigEndian i); Ok (x, i)
  end.

Definition read : option Z -> Reader Z := get BYTE_SIZE_IN_BYTES (fun b p _ => readUInt8 b p).
Definition readBoolean (pos : option Z) : Reader bool := fun i =>
  '(x, i) ← read pos i; Ok (x =? 1, i).
Definition readByte := read.
Definition readUnsignedByte := read.

Definition readInt : option Z -> Reader Z := get INT_SIZE_IN_BYTES readInt32.
Definition readShort : option Z -> Reader Z := get SHORT_SIZE_IN_BYTES readInt16.
Definition readDouble : option Z -> Reader js_number := get DOUBLE_SIZE_IN_BYTES JsNumber.readDouble.
Definition readFloat : option Z -> Reader js_number := get FLOAT_SIZE_IN_BYTES JsNumber.readFloat.

(** [assertAvailable] is not given [pos] here. *)
Definition readChar (pos : option Z) : Reader Z := fun i =>
  _ ← assertAvailable CHAR_SIZE_IN_BYTES None i;
  match pos with
  | None => x ← readUInt16 (i_buffer i) (i_pos i) (i_bigEndian i); Ok (x, set_pos (i_pos i + CHAR_SIZE_IN_BYTES) i)
  | Some p => x ← readUInt16 (i_buffer i) p (i_bigEndian i); Ok (x, i)
  end.
Definition readUnsignedShort := readChar.

Definition readLong {L} `{LongLib L} : option Z -> Reader L := get LONG_SIZE_IN_BYTES (fun b p be =>
  first ← readInt32 b p be;
  second ← readInt32 b (p + INT_SIZE_IN_BYTES) be;
  Ok (if be : bool then long_of_bits second first else long_of_bits first second)).

(** [n] calls of [func]. *)
Fixpoint read_loop {A} (n : nat) (func : Reader A) (i : ObjectDataInput) : res (list A * ObjectDataInput) :=
  match n with
  | O => Ok ([], i)
  | S n => '(x, i) ← func i; '(xs, i) ← read_loop n func i; Ok (x :: xs, i)
  end.

Definition readArray {A} (func : Reader A) (pos : option Z) : Reader (option (list A)) := fun i =>
  let backupPos := i_pos i in
  let i := match pos with Some p => set_pos p i | None => i end in
  let restore i := match pos with Some _ => set_pos backupPos i | None => i end in
  '(len, i) ← readInt None i;
  if len =? NULL_ARRAY_LENGTH then Ok (None, restore i)
  else '(arr, i) ← read_loop (Z.to_nat len) func i; Ok (Some arr, restore i).

Definition readBooleanArray := readArray (readBoolean None).
Definition readCharArray := readArray (readChar None).
Definition readDoubleArray := readArray (readDouble None).
Definition readFloatArray := readArray (readFloat None).
Definition readIntArray := readArray (readInt None).
Definition readShortArray := readArray (readShort None).
Definition readLongArray {L} `{LongLib L} := readArray (readLong (L := L) None).

(** [slice] clamps; a negative end counts from the end of the buffer. *)
Definition slice_any (b : buffer) (start stop : Z) : buffer :=
  slice b start (if stop <? 0 then Z.max 0 (blen b + stop) else stop).

Definition readByteArray (pos : option Z) : Reader (option buffer) := fun i =>
  let backupPos := i_pos i in
  let i := match pos with Some p => set_pos p i | None => i end in
  '(len, i) ← readInt None i;
  if len =? NULL_ARRAY_LENGTH then Ok (None, match pos with Some _ => set_pos backupPos i | None => i end)
  else
    let buf := slice_any (i_buffer i) (i_pos i) (i_pos i + len) in
    Ok (Some buf, match pos with Some _ => set_pos backupPos i | None => set_pos (i_pos i + len) i end).

Definition readData : Reader (option HeapData) := fun i =>
  '(bytes, i) ← readByteArray None i;
  match bytes with
  | None => Ok (None, i)
  | Some bytes => d ← newHeapData (Some bytes); Ok (Some d, i)
  end.

(** [toString('utf8', start, end)]: an empty range gives the empty string. [addOrUndefined(pos, 4) || this.pos]
    takes [this.pos] for 0 too. *)
Definition readString (pos : option Z) : Reader (option string) := fun i =>
  '(len, i) ← readInt pos i;
  let readPos := match pos with Some p => if p + 4 =? 0 then i_pos i else p + 4 | None => i_pos i end in
  if len =? NULL_ARRAY_LENGTH then Ok (None, i)
  else
    let result := to_utf8_string (slice (i_buffer i) readPos (readPos + len)) in
    Ok (Some result, match pos with None => set_pos (i_pos i + len) i | Some _ => i end).
Definition readStringArray := readArray (readString None).
End Input.

(** ** What writers and readers promise *)

Definition out_wf (o : ObjectDataOutput) : Prop := 0 <= o_pos o <= blen (o_buffer o).

Definition out_bytes (o : ObjectDataOutput) : buffer := take (Z.to_nat (o_pos o)) (o_buffer o).

(** [f] appends the bytes [w] to an output of byte order [be]. *)
Definition appends (be : bool) (f : Out) (w : buffer) : Prop := forall o,
  out_wf o -> o_bigEndian o = be ->
  exists o', f o = Ok o' /\ out_wf o' /\ o_bigEndian o' = be /\ out_bytes o' = out_bytes o ++ w.

(** The bytes [w] are at position [p] of the input. *)
Definition holds_at (i : ObjectDataInput) (p : Z) (w : buffer) : Prop :=
  in_bounds (i_buffer i) p (blen w) = true /\ sub (i_buffer i) p (length w) = w.

(** [rd] takes [a] from the bytes [w] and moves past them. *)
Definition reads {A} (be : bool) (rd : Reader A) (w : buffer) (a : A) : Prop := forall i,
  i_bigEndian i = be -> holds_at i (i_pos i) w -> rd i = Ok (a, Input.set_pos (i_pos i + blen w) i).

(** [rd] takes [a] from the bytes [w] at a given position. *)
Definition reads_at {A} (be : bool) (rd : option Z -> Reader A) (w : buffer) (a : A) : Prop := forall i p,
  i_bigEndian i = be -> holds_at i p w -> rd (Some p) i = Ok (a, i).

Class DataCodec {A} (valid : A -> Prop) (wr : A -> Out) (rd : Reader A) : Prop :=
  data_spec : forall be a, valid a -> exists w, appends be (wr a) w /\ reads be rd w a.

(** The same for a reader that can also be given a position. *)
Class DataCodecAt {A} (valid : A -> Prop) (wr : A -> Out) (rd : option Z -> Reader A) : Prop :=
  data_at_spec : forall be a, valid a -> exists w,
    appends be (wr a) w /\ reads be (rd None) w a /\ reads_at be rd w a.

#[export] Instance codec_of_at {A} valid (wr : A -> Out) rd : DataCodecAt valid wr rd -> DataCodec valid wr (rd None).
Proof. intros C be a Ha. destruct (C be a Ha) as (w & Hw & Hr & _). eauto. Qed.

(** ** Outputs *)

Lemma out_bytes_toBuffer o : out_wf o -> Output.toBuffer o = out_bytes o.
Proof. done. Qed.

Section OutputFacts.
Context `{Uninit}.

Lemma new_output_wf be : out_wf (Output.new be) /\ out_bytes (Output.new be) = [] /\ o_bigEndian (Output.new be) = be.
Proof. split_and!; [|done..]. unfold out_wf. cbn. lia. Qed.

(** Making room keeps what was written. *)
Lemma ensureAvailable_ok size o : out_wf o -> 0 <= size ->
  let o' := Output.ensureAvailable size o in
  out_wf o' /\ o_pos o' + size <= blen (o_buffer o') /\ o_pos o' = o_pos o /\
  o_bigEndian o' = o_bigEndian o /\ out_bytes o' = out_bytes o.
Proof.
  unfold Output.ensureAvailable, Output.available, out_wf, out_bytes. intros Hwf Hs.
  destruct (blen (o_buffer o) - o_pos o <? size) eqn:E; bool_hyps; cbn [o_buffer o_pos o_bigEndian]; [|split_and!; (done || lia)].
  unfold copy_into, write_at, slice. cbn [Z.to_nat]. rewrite drop_0, take_0, app_nil_l, Nat.sub_0_r.
  rewrite length_allocUnsafe. set (k := Z.to_nat (o_pos o)).
  rewrite (take_ge (take k _)) by (rewrite length_take; lia).
  assert (length (take k (o_buffer o)) = k) as Hk by (rewrite length_take; lia).
  rewrite length_app, length_drop, length_allocUnsafe, Hk.
  split_and!; try lia; try done. rewrite take_app_length' by done. done.
Qed.

(** The fixed-size writers append the bytes they write. *)
Lemma put_appends be size wr w : blen w = size ->
  (forall b pos, in_bounds b pos size = true -> wr b pos be = Ok (write_at b pos w)) ->
  appends be (Output.put size wr) w.
Proof.
  intros Hw Hwr o Hwf Hbe. unfold Output.put.
  destruct (ensureAvailable_ok size o Hwf ltac:(lia)) as (Hwf' & Hroom & Hp & Hb & Hby).
  set (o' := Output.ensureAvailable size o) in *. destruct Hwf' as [H0 H1].
  assert (in_bounds (o_buffer o') (o_pos o') (blen w) = true) as Hin by (apply in_bounds_true; lia).
  rewrite Hb, Hbe, Hwr by (by rewrite <- Hw). cbn. eexists. split; [done|]. unfold out_wf, out_bytes in *.
  cbn [o_buffer o_pos o_bigEndian]. rewrite length_write_at by done.
  split_and!; [lia | lia | done|]. rewrite <- Hby. unfold write_at.
  rewrite app_assoc, take_app_length'; [done|]. rewrite length_app, length_take. lia.
Qed.

Lemma appends_bind be (f g : Out) w1 w2 : appends be f w1 -> appends be g w2 ->
  appends be (fun o => o ← f o; g o) (w1 ++ w2).
Proof.
  intros Hf Hg o Hwf Hbe. destruct (Hf o Hwf Hbe) as (o1 & -> & Hwf1 & Hbe1 & Hb1).
  destruct (Hg o1 Hwf1 Hbe1) as (o2 & E2 & Hwf2 & Hbe2 & Hb2). exists o2.
  rewrite res_bind_ok. split_and!; [done..|]. by rewrite Hb2, Hb1, app_assoc.
Qed.

Lemma appends_nil be : appends be (fun o => Ok o) [].
Proof. intros o Hwf Hbe. exists o. by rewrite app_nil_r. Qed.
End OutputFacts.

(** ** Inputs *)

Lemma holds_app i p w1 w2 : holds_at i p (w1 ++ w2) <-> holds_at i p w1 /\ holds_at i (p + blen w1) w2.
Proof.
  unfold holds_at. rewrite length_app, !in_bounds_true. split.
  - intros [[H0 H1] Hs]. apply sub_app_inv in Hs as [S1 S2]; [|lia | apply in_bounds_true; lia].
    split_and!; (done || lia).
  - intros [[[H0 H1] S1] [[H2 H3] S2]]. split; [lia|]. rewrite sub_app, S1, S2 by lia. done.
Qed.

Lemma holds_move i p q w : holds_at (Input.set_pos q i) p w <-> holds_at i p w.
Proof. done. Qed.

Lemma reads_bind {A B} be (f : Reader A) (g : A -> Reader B) w1 w2 a b :
  reads be f w1 a -> reads be (g a) w2 b -> reads be (fun i => '(x, i) ← f i; g x i) (w1 ++ w2) b.
Proof.
  intros Hf Hg i Hbe Hw. apply holds_app in Hw as [H1 H2]. rewrite Hf by done. cbn.
  rewrite Hg by done. cbn. f_equal. f_equal. unfold Input.set_pos. cbn. f_equal. rewrite length_app. lia.
Qed.

Lemma reads_ret {A} be (a : A) : reads be (fun i => Ok (a, i)) [] a.
Proof. intros [b o e p] Hbe Hw. unfold Input.set_pos. cbn. do 3 f_equal. lia. Qed.

Lemma reads_map {A B} be (f : A -> B) (rd : Reader A) w a :
  reads be rd w a -> reads be (fun i => '(x, i) ← rd i; Ok (f x, i)) w (f a).
Proof. intros Hr i Hbe Hw. by rewrite Hr. Qed.

Lemma assert_holds i pos w : holds_at i (default (i_pos i) pos) w -> Input.assertAvailable (blen w) pos i = Ok ().
Proof.
  intros [Hb _]. apply in_bounds_true in Hb. unfold Input.assertAvailable.
  by rewrite (proj2 (Z.leb_le _ _)), (proj2 (Z.leb_le _ _)) by lia.
Qed.

Lemma get_reads {A} be size (rd : buffer -> Z -> bool -> res A) w a : blen w = size ->
  (forall b p, in_bounds b p size = true -> sub b p (length w) = w -> rd b p be = Ok a) ->
  reads be (Input.get size rd None) w a /\ reads_at be (Input.get size rd) w a.
Proof.
  intros <- Hrd. split.
  - intros i Hbe Hw. unfold Input.get. rewrite assert_holds by done. cbn. rewrite Hbe. destruct Hw. by rewrite Hrd.
  - intros i p Hbe Hw. unfold Input.get. rewrite assert_holds by done. cbn. rewrite Hbe. destruct Hw. by rewrite Hrd.
Qed.

(** ** The codecs of the primitive values *)

Definition in_order (be : bool) (w : buffer) : buffer := if be then rev w else w.

Lemma length_in_order be w : length (in_order be w) = length w.
Proof. destruct be; [apply length_rev | done]. Qed.

Lemma write_sint_order n (be : bool) b off v : in_sint (8 * Z.of_nat n) v -> in_bounds b off (Z.of_nat n) = true ->
  (if be then writeSIntBE n b v off else writeSIntLE n b v off) = Ok (write_at b off (in_order be (le_split n v))).
Proof.
  intros Hv Hb. unfold writeSIntBE, writeSIntLE. rewrite (proj2 (fits_sint_true _ _)) by done.
  destruct be; apply write_bytes_ok; unfold in_order; by rewrite ?length_rev, length_le_split.
Qed.

Lemma write_uint_order n (be : bool) b off v : in_uint (8 * Z.of_nat n) v -> in_bounds b off (Z.of_nat n) = true ->
  (if be then writeUIntBE n b v off else writeUIntLE n b v off) = Ok (write_at b off (in_order be (le_split n v))).
Proof.
  intros Hv Hb. unfold writeUIntBE, writeUIntLE. rewrite (proj2 (fits_uint_true _ _)) by done.
  destruct be; apply write_bytes_ok; unfold in_order; by rewrite ?length_rev, length_le_split.
Qed.

Lemma read_uint_order n (be : bool) b off v : in_uint (8 * Z.of_nat n) v -> in_bounds b off (Z.of_nat n) = true ->
  sub b off n = in_order be (le_split n v) ->
  (if be then readUIntBE n b off else readUIntLE n b off) = Ok v.
Proof.
  intros Hv Hb Hs. destruct be; [rewrite readUIntBE_sub | rewrite readUIntLE_sub]; try done;
    rewrite Hs; cbn; rewrite ?rev_involutive, uwrap_split; done.
Qed.

Lemma read_sint_order n (be : bool) b off v : (0 < n)%nat -> in_sint (8 * Z.of_nat n) v -> in_bounds b off (Z.of_nat n) = true ->
  sub b off n = in_order be (le_split n v) ->
  (if be then readSIntBE n b off else readSIntLE n b off) = Ok v.
Proof.
  intros Hn Hv Hb Hs. unfold readSIntBE, readSIntLE.
  destruct be; [rewrite readUIntBE_sub | rewrite readUIntLE_sub]; try done;
    cbn; rewrite Hs; cbn; rewrite ?rev_involutive, swrap_split; done.
Qed.

Section Primitives.
Context `{Uninit}.

(** A fixed-size writer and reader that agree on the bytes. *)
Lemma codec_fixed {A} (valid : A -> Prop) size wr rd (enc : bool -> A -> buffer) :
  (forall be a, valid a -> blen (enc be a) = size) ->
  (forall be a b pos, valid a -> in_bounds b pos size = true -> wr a b pos be = Ok (write_at b pos (enc be a))) ->
  (forall be a b p, valid a -> in_bounds b p size = true -> sub b p (length (enc be a)) = enc be a -> rd b p be = Ok a) ->
  DataCodecAt valid (fun a => Output.put size (wr a)) (Input.get size rd).
Proof.
  intros Hl Hw Hr be a Ha. exists (enc be a). split; [|apply get_reads].
  - apply put_appends; [by apply Hl|]. intros b pos Hb. by apply Hw.
  - by apply Hl.
  - intros b p Hb Hs. by apply Hr.
Qed.

(** A signed or unsigned integer of [n] bytes. *)
Ltac codec_int n := apply (codec_fixed _ (Z.of_nat n) _ _ (fun be v => in_order be (le_split n v)));
  [intros be v _; cbv beta; rewrite length_in_order, length_le_split; done | |].

#[export] Instance codec_int : DataCodecAt (in_sint 32) Output.writeInt Input.readInt.
Proof.
  codec_int 4%nat.
  - intros be v b pos Hv Hb. by apply (write_sint_order 4).
  - intros be v b p Hv Hb. rewrite length_in_order, length_le_split. by apply (read_sint_order 4); [lia|..].
Qed.

#[export] Instance codec_short : DataCodecAt (in_sint 16) Output.writeShort Input.readShort.
Proof.
  codec_int 2%nat.
  - intros be v b pos Hv Hb. by apply (write_sint_order 2).
  - intros be v b p Hv Hb. rewrite length_in_order, length_le_split. by apply (read_sint_order 2); [lia|..].
Qed.

#[export] Instance codec_double : DataCodecAt num_valid Output.writeDouble Input.readDouble.
Proof.
  apply (codec_fixed _ (Z.of_nat 8) _ _ (fun be v => in_order be (le_split 8 (double_bits v)))).
  - intros be v _. by rewrite length_in_order, length_le_split.
  - intros be v b pos Hv Hb. apply (write_uint_order 8); [by apply double_bits_range | done].
  - intros be v b p Hv Hb Hs. rewrite length_in_order, length_le_split in Hs. unfold JsNumber.readDouble.
    rewrite (read_uint_order 8 be _ _ (double_bits v)) by (done || by apply double_bits_range).
    cbn. by rewrite double_roundtrip.
Qed.

(** A float reads back as the number rounded to it. *)
#[export] Instance codec_float : DataCodecAt (fun x => fround x = x) Output.writeFloat Input.readFloat.
Proof.
  assert (forall x, in_uint 32 (float_bits x)) as Hr by (intros; by apply uwrap_range).
  apply (codec_fixed _ (Z.of_nat 4) _ _ (fun be v => in_order be (le_split 4 (float_bits v)))).
  - intros be v _. by rewrite length_in_order, length_le_split.
  - intros be v b pos Hv Hb. by apply (write_uint_order 4).
  - intros be v b p Hv Hb Hs. rewrite length_in_order, length_le_split in Hs. unfold JsNumber.readFloat.
    rewrite (read_uint_order 4 be _ _ (float_bits v)) by done. cbn. by f_equal.
Qed.

Lemma js_and_byte z : js_and z MASK_1BYTE = uwrap 8 z.
Proof.
  unfold js_and. change MASK_1BYTE with (Z.ones 8). rewrite Z.land_ones by lia.
  apply swrap_id; [lia|]. pose proof (uwrap_range 8 z). unfold in_uint, in_sint, uwrap in *. lia.
Qed.

#[export] Instance codec_byte : DataCodecAt (in_uint 8) Output.writeByte Input.readByte.
Proof.
  apply (codec_fixed _ (Z.of_nat 1) _ _ (fun be v => le_split 1 v)).
  - done.
  - intros be v b pos Hv Hb. rewrite js_and_byte, uwrap_id by done. by apply (write_uint_order 1 false).
  - intros be v b p Hv Hb Hs. by apply (read_uint_order 1 false).
Qed.

(** A byte that is out of range is written modulo 256, and read as unsigned: [-1] is read as 255. *)
Lemma byte_reads_unsigned be v : exists w,
  appends be (Output.writeByte v) w /\ reads be (Input.readByte None) w (uwrap 8 v).
Proof.
  exists (le_split 1 (uwrap 8 v)). pose proof (uwrap_range 8 v ltac:(lia)) as Hv. split.
  - apply put_appends; [done|]. intros b pos Hb. rewrite js_and_byte. by apply (write_uint_order 1 false).
  - apply get_reads; [done|]. intros b p Hb Hs. by apply (read_uint_order 1 false).
Qed.

#[export] Instance codec_boolean : DataCodecAt (fun _ => True) Output.writeBoolean Input.readBoolean.
Proof.
  intros be a _. destruct (codec_byte be (if a then 1 else 0)) as (w & Hw & Hr & Hp); [by destruct a|].
  exists w. split_and!; [done | |].
  - intros i Hbe Hi. unfold Input.readBoolean. change Input.read with Input.readByte. rewrite Hr by done. cbn. by destruct a.
  - intros i p Hbe Hi. unfold Input.readBoolean. change Input.read with Input.readByte. rewrite Hp by done. cbn. by destruct a.
Qed.

#[export] Instance codec_long {L} `{LongLaws L} : DataCodecAt (fun _ : L => True) Output.writeLong Input.readLong.
Proof.
  set (fst_ (be : bool) (l : L) := if be then long_high l else long_low l).
  set (snd_ (be : bool) (l : L) := if be then long_low l else long_high l).
  set (word be z := in_order be (le_split 4 z)).
  assert (forall be z, length (word be z) = 4%nat) as Hword
    by (intros; unfold word; by rewrite length_in_order, length_le_split).
  assert (forall be l, in_sint 32 (fst_ be l) /\ in_sint 32 (snd_ be l)) as Hr.
  { intros [] l; cbn; split; apply long_low_range || apply long_high_range. }
  apply (codec_fixed _ (Z.of_nat 8) _ _ (fun be l => word be (fst_ be l) ++ word be (snd_ be l))).
  - intros be l _. by rewrite length_app, !Hword.
  - intros be l b pos _ Hb. apply in_bounds_true in Hb. destruct (Hr be l) as [Hx Hy].
    assert (writeInt32 b pos (fst_ be l) be = Ok (write_at b pos (word be (fst_ be l)))) as W1
      by (apply (write_sint_order 4); [done | apply in_bounds_true; lia]).
    set (b1 := write_at b pos (word be (fst_ be l))) in *.
    assert (writeInt32 b1 (pos + 4) (snd_ be l) be = Ok (write_at b1 (pos + 4) (word be (snd_ be l)))) as W2.
    { apply (write_sint_order 4); [done|]. unfold b1.
      rewrite in_bounds_write by (apply in_bounds_true; rewrite Hword; lia). apply in_bounds_true. lia. }
    transitivity (Ok (write_at b1 (pos + 4) (word be (snd_ be l)))).
    + destruct be; cbv [fst_ snd_] in W1, W2; rewrite W1; exact W2.
    + f_equal. unfold b1. rewrite <- write_at_app by (apply in_bounds_true; rewrite !Hword; lia). by rewrite Hword.
  - intros be l b p _ Hb Hs. apply in_bounds_true in Hb. destruct (Hr be l) as [Hx Hy].
    rewrite length_app in Hs. apply sub_app_inv in Hs as [S1 S2]; [|lia | apply in_bounds_true; rewrite !Hword; lia].
    rewrite !Hword in *.
    assert (readInt32 b p be = Ok (fst_ be l)) as -> by (apply (read_sint_order 4); (done || lia || (apply in_bounds_true; lia))).
    change INT_SIZE_IN_BYTES with 4.
    assert (readInt32 b (p + 4) be = Ok (snd_ be l)) as Es
      by (apply (read_sint_order 4); (done || lia || (apply in_bounds_true; lia))).
    rewrite res_bind_ok, Es, res_bind_ok. destruct be; unfold fst_, snd_; by rewrite long_halves.
Qed.

#[export] Instance codec_char : DataCodec (in_uint 16) Output.writeChar (Input.readChar None).
Proof.
  intros be v Hv. exists (in_order be (le_split 2 v)). split.
  - apply put_appends; [by rewrite length_in_order, length_le_split|]. intros b pos Hb. by apply (write_uint_order 2).
  - intros i Hbe Hi. unfold Input.readChar.
    pose proof (assert_holds i None _ Hi) as Ea. rewrite length_in_order, length_le_split in Ea.
    change (Z.of_nat 2) with CHAR_SIZE_IN_BYTES in Ea. rewrite Ea. cbn. rewrite Hbe.
    destruct Hi as [Hb Hs]. rewrite length_in_order, length_le_split in Hb, Hs. unfold readUInt16.
    rewrite (read_uint_order 2 be _ _ v) by done. cbn. by rewrite length_in_order, length_le_split.
Qed.
End Primitives.

(** ** Arrays, byte arrays and strings *)

Definition size_ok {A} (l : list A) : Prop := Z.of_nat (length l) < 2 ^ 31.

Definition array_valid {A} (valid : A -> Prop) (arr : option (list A)) : Prop :=
  match arr with Some arr => size_ok arr /\ Forall valid arr | None => True end.

Lemma array_length_range {A} (arr : option (list A)) : array_valid (fun _ => True) arr -> in_sint 32 (Output.array_length arr).
Proof. destruct arr as [l|]; cbn; unfold size_ok, in_sint, NULL_ARRAY_LENGTH; lia. Qed.

Lemma array_valid_weaken {A} (valid : A -> Prop) arr : array_valid valid arr -> array_valid (fun _ => True) arr.
Proof. destruct arr; [|done]. intros [? _]. split; [done | by apply Forall_true]. Qed.

(** Moving the cursor to [p], reading there and restoring the cursor. *)
Lemma reads_restore {A} be (rd : Reader A) w a i p : reads be rd w a -> i_bigEndian i = be -> holds_at i p w ->
  exists i', rd (Input.set_pos p i) = Ok (a, i') /\ Input.set_pos (i_pos i) i' = i.
Proof. intros Hr Hbe Hw. rewrite Hr by done. eexists. split; [done|]. by destruct i. Qed.

Section Compound.
Context `{Uninit}.

Lemma each_codec {A} valid (wr : A -> Out) rd : DataCodec valid wr rd -> forall be l, Forall valid l ->
  exists w, appends be (Output.each wr l) w /\ reads be (Input.read_loop (length l) rd) w l.
Proof.
  intros C be l Hl. induction Hl as [|x l Hx _ (w2 & Hw2 & Hr2)].
  - exists []. split; [apply appends_nil | apply reads_ret].
  - destruct (C be x Hx) as (w1 & Hw1 & Hr1). exists (w1 ++ w2). split.
    + by apply (appends_bind be (wr x) (Output.each wr l)).
    + rewrite <- (app_nil_r w2). cbn [length Input.read_loop]. apply (reads_bind be rd _ w1 (w2 ++ []) x); [done|].
      apply (reads_bind be _ (fun xs i => Ok (x :: xs, i)) w2 [] l); [done | apply reads_ret].
Qed.

Lemma reads_int_length be w z : reads be (Input.readInt None) w z -> blen w = 4.
Proof.
  intros Hr. specialize (Hr (mkInput w 0 be 0) eq_refl). unfold Input.readInt, Input.get in Hr.
  assert (holds_at (mkInput w 0 be 0) 0 w) as Hw.
  { split; [apply in_bounds_true; cbn; lia|]. unfold sub. cbn. apply take_ge. lia. }
  specialize (Hr Hw). cbn in Hr. res_inv. unfold INT_SIZE_IN_BYTES in *. lia.
Qed.

(** Length, then contents: [body] writes the contents, [cont] reads them once the length is known. *)
Lemma codec_sized {A B} (arr : option (list B)) be (wr : Out) (rd : option Z -> Reader A) (body : Out) w a :
  array_valid (fun _ => True) arr ->
  (forall o, wr o = (o ← Output.writeInt (Output.array_length arr) o; body o)) -> appends be body w ->
  (forall wl, reads be (Input.readInt None) wl (Output.array_length arr) -> reads_at be Input.readInt wl (Output.array_length arr) ->
     reads be (rd None) (wl ++ w) a /\ reads_at be rd (wl ++ w) a) ->
  exists w, appends be wr w /\ reads be (rd None) w a /\ reads_at be rd w a.
Proof.
  intros Hv Ew Hb Hr. destruct (codec_int be (Output.array_length arr)) as (wl & Hwl & Hrl & Hpl);
    [by apply array_length_range|].
  exists (wl ++ w). split; [|by apply Hr].
  intros o Ho Hbe. rewrite Ew. by apply (appends_bind be _ body).
Qed.

#[export] Instance codec_array {A} valid (wr : A -> Out) rd : DataCodec valid wr rd ->
  DataCodecAt (array_valid valid) (Output.writeArray wr) (Input.readArray rd).
Proof.
  intros C be arr Hv.
  assert (exists w, appends be (fun o => match arr with
      | Some arr => if Z.of_nat (length arr) >? 0 then Output.each wr arr o else Ok o | None => Ok o end) w /\
    match arr with Some l => reads be (Input.read_loop (length l) rd) w l | None => w = [] end) as (w & Hw & Hr).
  { destruct arr as [l|]; [|exists []; split; [apply appends_nil | done]]. destruct Hv as [_ Hl].
    destruct (each_codec valid wr rd C be l Hl) as (w & Hw & Hr). exists w. split; [|done].
    destruct l; [done|]. done. }
  eapply (codec_sized arr be); [by eapply array_valid_weaken | done | exact Hw |]. intros wl Hl Hp.
  assert (reads be (Input.readArray rd None) (wl ++ w) arr) as Hall.
  { unfold Input.readArray. apply (reads_bind be _ (fun len i => if len =? NULL_ARRAY_LENGTH then Ok (None, i) else
      '(arr, i) ← Input.read_loop (Z.to_nat len) rd i; Ok (Some arr, i)) wl w (Output.array_length arr)); [done|].
    destruct arr as [l|]; cbn.
    - unfold NULL_ARRAY_LENGTH. rewrite (proj2 (Z.eqb_neq _ _)) by lia. rewrite Nat2Z.id. by apply (reads_map be Some).
    - subst w. apply reads_ret. }
  split; [done|]. intros i p Hbe Hw'.
  destruct (reads_restore be _ _ _ i p Hall Hbe Hw') as (i' & E & Hi'). unfold Input.readArray in E |- *.
  destruct (Input.readInt None (Input.set_pos p i)) as [[len i1]|]; [|done]. cbn in E |- *.
  destruct (len =? NULL_ARRAY_LENGTH); [injection E as <- <-; by rewrite Hi'|].
  destruct (Input.read_loop _ _ i1) as [[l i2]|]; [|done]. cbn in E |- *. injection E as <- <-. by rewrite Hi'.
Qed.

(** [n] bytes read back by a slice. *)
Lemma slice_holds i p w : holds_at i p w -> slice (i_buffer i) p (p + blen w) = w.
Proof.
  intros [Hb Hs]. apply in_bounds_true in Hb. unfold slice, sub in *.
  rewrite take_drop_commute in Hs. rewrite <- Hs at 2. f_equal. f_equal. lia.
Qed.

Lemma slice_any_holds i p w : holds_at i p w -> Input.slice_any (i_buffer i) p (p + blen w) = w.
Proof.
  intros Hw. unfold Input.slice_any. destruct (p + blen w <? 0) eqn:E; bool_hyps; [|by apply slice_holds].
  destruct Hw as [Hb _]. apply in_bounds_true in Hb. lia.
Qed.

Lemma writeBuffer_appends be w : appends be (Output.writeBuffer w) w.
Proof.
  apply put_appends; [done|]. intros b pos Hb. apply in_bounds_true in Hb. unfold copy_into.
  by rewrite take_ge by lia.
Qed.

#[export] Instance codec_byte_array : DataCodecAt (array_valid (fun _ => True)) Output.writeByteArray Input.readByteArray.
Proof.
  intros be arr Hv.
  eapply (codec_sized arr be _ _ _ (default [] arr)); [done | done | |].
  - destruct arr as [l|]; [|apply appends_nil]. cbn. destruct l; [apply appends_nil | apply writeBuffer_appends].
  - intros wl Hl Hp.
    assert (reads be (Input.readByteArray None) (wl ++ default [] arr) arr) as Hall.
    { unfold Input.readByteArray. apply (reads_bind be _ (fun len i => if len =? NULL_ARRAY_LENGTH then Ok (None, i) else
        Ok (Some (Input.slice_any (i_buffer i) (i_pos i) (i_pos i + len)), Input.set_pos (i_pos i + len) i))
        wl (default [] arr) (Output.array_length arr)); [done|].
      intros i Hbe Hw. destruct arr as [l|]; cbn in *.
      - unfold NULL_ARRAY_LENGTH. rewrite (proj2 (Z.eqb_neq _ _)) by lia. by rewrite slice_any_holds.
      - by apply (reads_ret be None i Hbe). }
    split; [done|]. intros i p Hbe Hw'.
    destruct (reads_restore be _ _ _ i p Hall Hbe Hw') as (i' & E & Hi'). unfold Input.readByteArray in E |- *.
    destruct (Input.readInt None (Input.set_pos p i)) as [[len i1]|] eqn:El; [|done]. cbn in E |- *.
    destruct (len =? NULL_ARRAY_LENGTH); injection E as <- <-; [by rewrite Hi'|].
    f_equal. f_equal. destruct i1. by rewrite <- Hi' at 2.
Qed.

Definition string_valid (s : option string) : Prop := array_valid (fun _ => True) (from_utf8 <$> s).

#[export] Instance codec_string : DataCodecAt string_valid Output.writeString Input.readString.
Proof.
  intros be s Hv.
  apply (codec_sized (from_utf8 <$> s) be _ _ (fun o => match s with
    | Some s => Output.put (blen (from_utf8 s)) (fun b pos _ => Ok (Output.buffer_write b s pos (pos + blen (from_utf8 s)))) o
    | None => Ok o end) (default [] (from_utf8 <$> s))); [done | | |].
  - intros o. destruct s as [s|]; [done|]. cbn [Output.writeString Output.array_length fmap option_fmap option_map]. by destruct (Output.writeInt NULL_ARRAY_LENGTH o).
  - destruct s as [s|]; [|apply appends_nil].
    apply (put_appends be _ (fun b pos _ => Ok (Output.buffer_write b s pos (pos + blen (from_utf8 s)))) (from_utf8 s));
      [done|]. intros b pos Hb. apply in_bounds_true in Hb.
    unfold Output.buffer_write. by rewrite take_ge by lia.
  - intros wl Hl Hp. split.
    + unfold Input.readString. apply (reads_bind be _ (fun len i => if len =? NULL_ARRAY_LENGTH then Ok (None, i) else
        Ok (Some (to_utf8_string (slice (i_buffer i) (i_pos i) (i_pos i + len))), Input.set_pos (i_pos i + len) i))
        wl (default [] (from_utf8 <$> s)) (Output.array_length (from_utf8 <$> s))); [done|].
      intros i Hbe Hw. destruct s as [s|]; cbn in *.
      * unfold NULL_ARRAY_LENGTH. rewrite (proj2 (Z.eqb_neq _ _)) by lia. by rewrite slice_holds, string_bytes_roundtrip.
      * by apply (reads_ret be None i Hbe).
    + intros i p Hbe Hw. apply holds_app in Hw as [H1 H2]. unfold Input.readString. rewrite Hp by done. cbn.
      destruct s as [s|]; cbn in *; [|done]. apply reads_int_length in Hl as Hwl. rewrite Hwl in H2.
      destruct H1 as [H1 _]. apply in_bounds_true in H1.
      unfold NULL_ARRAY_LENGTH. rewrite (proj2 (Z.eqb_neq _ _)), (proj2 (Z.eqb_neq _ _)) by lia.
      by rewrite slice_holds, string_bytes_roundtrip.
Qed.
Lemma byte_split (x : Init.Byte.byte) : le_split 1 (Z.of_N (Byte.to_N x)) = [x].
Proof. change (le_split 1 _) with [byte.of_Z (byte.unsigned x)]. by rewrite byte.of_Z_unsigned. Qed.

Lemma write_raw_byte be (x : Init.Byte.byte) : appends be (Output.write (Z.of_N (Byte.to_N x))) [x].
Proof.
  pose proof (byte.unsigned_range x) as Hx. change (byte.unsigned x) with (Z.of_N (Byte.to_N x)) in Hx.
  rewrite <- byte_split. apply put_appends; [done|]. intros b pos Hb. rewrite js_and_byte, uwrap_id by done.
  by apply (write_uint_order 1 false).
Qed.

Lemma write_raw_bytes be w : appends be (Output.each (fun x => Output.write (Z.of_N (Byte.to_N x))) w) w.
Proof.
  induction w as [|x w IH]; [apply appends_nil|]. exact (appends_bind be _ _ [x] w (write_raw_byte be x) IH).
Qed.

Definition data_ok (d : option HeapData) : Prop :=
  match d with
  | None => True
  | Some d => match payload d with Some p => size_ok p /\ newHeapData (Some p) = Ok d | None => False end
  end.

#[export] Instance codec_data : DataCodec data_ok Output.writeData Input.readData.
Proof.
  intros be d Hd. set (buf := d ← d; HeapData.toBuffer d).
  assert (array_valid (fun _ => True) buf) as Hv.
  { destruct d as [[[p|]]|]; cbn in *; [|done..]. destruct Hd. split; [done | by apply Forall_true]. }
  destruct (codec_byte_array be buf Hv) as (w & Hw & Hr & _). exists w. split.
  - intros o Ho Hbe. destruct (codec_int be (Output.array_length buf)) as (wl & Hwl & Hrl & _);
      [by apply array_length_range|].
    assert (appends be (Output.writeData d) (wl ++ default [] buf)) as Happ.
    { apply (appends_bind be (Output.writeInt (Output.array_length buf)) (fun o =>
        match buf with Some buf => Output.each (fun x => Output.write (Z.of_N (Byte.to_N x))) buf o | None => Ok o end)); [done|].
      destruct buf; [apply write_raw_bytes | apply appends_nil]. }
    destruct (Happ o Ho Hbe) as (o1 & E1 & Hwf & Hb1 & By1).
    assert (appends be (Output.writeByteArray buf) (wl ++ default [] buf)) as Happ2.
    { apply (appends_bind be (Output.writeInt (Output.array_length buf)) (fun o => match buf with
        | Some bytes => if blen bytes >? 0 then Output.writeBuffer bytes o else Ok o | None => Ok o end)); [done|].
      destruct buf as [[|x l]|]; [apply appends_nil | apply writeBuffer_appends | apply appends_nil]. }
    destruct (Hw o Ho Hbe) as (o2 & E2 & _ & _ & By2). destruct (Happ2 o Ho Hbe) as (o3 & E3 & _ & _ & By3).
    rewrite E2 in E3. injection E3 as <-. exists o1. split_and!; [done..|]. by rewrite By1, <- By2, By3.
  - intros i Hbe Hi. unfold Input.readData. rewrite Hr by done. cbn.
    destruct d as [[[p|]]|]; cbn in *; [|done..]. destruct Hd as [_ ->]. done.
Qed.
End Compound.

(** [readChar] with a position checks the bytes left at the cursor, not at the position: at the
    end of the input it fails for every position. *)
Lemma readChar_checks_cursor i p : Input.available i < CHAR_SIZE_IN_BYTES -> Input.readChar (Some p) i = Err AssertionError.
Proof.
  unfold Input.available, Input.readChar, Input.assertAvailable, CHAR_SIZE_IN_BYTES. cbn. intros Ha.
  rewrite (proj2 (Z.leb_gt (i_pos i + 2) _)), andb_false_r by lia. done.
Qed.

(** ** Sequences of values *)

Section Sequences.
Context `{Uninit} {L : Type} `{LongLaws L}.

(** What an output can be given and an input be asked for. *)
Inductive kind :=
  | KBoolean | KByte | KChar | KShort | KInt | KLong | KFloat | KDouble | KString | KByteArray | KData
  | KBooleanArray | KCharArray | KShortArray | KIntArray | KLongArray | KFloatArray | KDoubleArray | KStringArray.

Definition denote (k : kind) : Type :=
  match k with
  | KBoolean => bool
  | KByte | KChar | KShort | KInt => Z
  | KLong => L
  | KFloat | KDouble => js_number
  | KString => option string
  | KByteArray => option buffer
  | KData => option HeapData
  | KBooleanArray => option (list bool)
  | KCharArray | KShortArray | KIntArray => option (list Z)
  | KLongArray => option (list L)
  | KFloatArray | KDoubleArray => option (list js_number)
  | KStringArray => option (list (option string))
  end.

Definition write_kind (k : kind) : denote k -> Out :=
  match k with
  | KBoolean => Output.writeBoolean | KByte => Output.writeByte | KChar => Output.writeChar
  | KShort => Output.writeShort | KInt => Output.writeInt | KLong => Output.writeLong
  | KFloat => Output.writeFloat | KDouble => Output.writeDouble | KString => Output.writeString
  | KByteArray => Output.writeByteArray | KData => Output.writeData
  | KBooleanArray => Output.writeBooleanArray | KCharArray => Output.writeCharArray
  | KShortArray => Output.writeShortArray | KIntArray => Output.writeIntArray
  | KLongArray => Output.writeLongArray | KFloatArray => Output.writeFloatArray
  | KDoubleArray => Output.writeDoubleArray | KStringArray => Output.writeStringArray
  end.

Definition read_kind (k : kind) : Reader (denote k) :=
  match k with
  | KBoolean => Input.readBoolean None | KByte => Input.readByte None | KChar => Input.readChar None
  | KShort => Input.readShort None | KInt => Input.readInt None | KLong => Input.readLong None
  | KFloat => Input.readFloat None | KDouble => Input.readDouble None | KString => Input.readString None
  | KByteArray => Input.readByteArray None | KData => Input.readData
  | KBooleanArray => Input.readBooleanArray None | KCharArray => Input.readCharArray None
  | KShortArray => Input.readShortArray None | KIntArray => Input.readIntArray None
  | KLongArray => Input.readLongArray None | KFloatArray => Input.readFloatArray None
  | KDoubleArray => Input.readDoubleArray None | KStringArray => Input.readStringArray None
  end.

Definition kind_valid (k : kind) : denote k -> Prop :=
  match k with
  | KBoolean | KLong => fun _ => True
  | KByte => in_uint 8 | KChar => in_uint 16 | KShort => in_sint 16 | KInt => in_sint 32
  | KFloat => fun x => fround x = x | KDouble => num_valid
  | KString => string_valid | KByteArray => array_valid (fun _ => True) | KData => data_ok
  | KBooleanArray => array_valid (fun _ => True) | KCharArray => array_valid (in_uint 16)
  | KShortArray => array_valid (in_sint 16) | KIntArray => array_valid (in_sint 32)
  | KLongArray => array_valid (fun _ => True) | KFloatArray => array_valid (fun x => fround x = x)
  | KDoubleArray => array_valid num_valid | KStringArray => array_valid string_valid
  end.

Lemma kind_codec k : DataCodec (kind_valid k) (write_kind k) (read_kind k).
Proof. destruct k; cbn; apply _. Qed.

Definition item : Type := sigT denote.

Fixpoint write_items (l : list item) : Out := fun o =>
  match l with [] => Ok o | existT k x :: l => o ← write_kind k x o; write_items l o end.

Fixpoint read_items (ks : list kind) : Reader (list item) := fun i =>
  match ks with
  | [] => Ok ([], i)
  | k :: ks => '(x, i) ← read_kind k i; '(l, i) ← read_items ks i; Ok (existT k x :: l, i)
  end.

Lemma items_codec be l : Forall (fun x => kind_valid (projT1 x) (projT2 x)) l ->
  exists w, appends be (write_items l) w /\ reads be (read_items (map (@projT1 _ _) l)) w l.
Proof.
  induction 1 as [|[k x] l Hx _ (w2 & Hw2 & Hr2)].
  - exists []. split; [apply appends_nil | apply reads_ret].
  - destruct (kind_codec k be x Hx) as (w1 & Hw1 & Hr1). exists (w1 ++ w2). split.
    + by apply (appends_bind be (write_kind k x) (write_items l)).
    + rewrite <- (app_nil_r w2). cbn [map projT1 read_items]. apply (reads_bind be (read_kind k) _ w1 (w2 ++ []) x); [done|].
      apply (reads_bind be _ (fun l i => Ok (existT k x :: l, i)) w2 [] l); [done | apply reads_ret].
Qed.

(** C39: what is written is read back: any sequence of valid values written to a fresh output, in either byte
    order and however often its buffer had to grow, is read from the resulting bytes with the readers of the same kinds,
    to the last byte. *)
Theorem data_roundtrip (be : bool) (l : list item) :
  Forall (fun x => kind_valid (projT1 x) (projT2 x)) l ->
  exists o, write_items l (Output.new be) = Ok o /\
    read_items (map (@projT1 _ _) l) (Input.new (Output.toBuffer o) 0 be) =
      Ok (l, Input.set_pos (blen (Output.toBuffer o)) (Input.new (Output.toBuffer o) 0 be)).
Proof.
  intros Hl. destruct (items_codec be l Hl) as (w & Hw & Hr).
  destruct (new_output_wf be) as (Hwf & Hnil & Hbe). destruct (Hw _ Hwf Hbe) as (o & E & Ho & _ & Hb).
  exists o. split; [done|]. rewrite (out_bytes_toBuffer o Ho), Hb, Hnil, app_nil_l.
  apply Hr; [done|]. split; [apply in_bounds_true; cbn; lia|]. unfold sub. cbn. apply take_ge. lia.
Qed.
End Sequences.

#[local] Instance demo_uninit : Uninit := fun _ => Byte.x2a.

Lemma data_roundtrip_witness :
  exists o, write_items (L := Int64.t)
      [existT KInt (-5); existT KString (Some "near"%string); existT KLongArray (Some [Int64.of_Z (2 ^ 40)]);
       existT KDouble (num_of_Z 7); existT KBoolean true; existT KStringArray (Some [None])]
      (Output.new true) = Ok o /\ blen (Output.toBuffer o) = 41.
Proof.
  set (l := [existT KInt (-5); existT KString (Some "near"%string); existT KLongArray (Some [Int64.of_Z (2 ^ 40)]);
       existT KDouble (num_of_Z 7); existT KBoolean true; existT KStringArray (Some [None])] : list (item (L := Int64.t))).
  destruct (data_roundtrip true l) as (o & E & _).
  - repeat constructor; cbn; unfold in_sint, size_ok; cbn; lia.
  - exists o. split; [exact E|]. vm_compute in E. injection E as <-. vm_compute. reflexivity.
Defined.
