(* ===== verification/Serialization.v ===== *)
(** * Serialization of objects

    [SerializationServiceV1] of [src/serialization/SerializationService.ts] with the serializers of
    [src/serialization/DefaultSerializers.ts], the predicates of [src/serialization/DefaultPredicates.ts],
    the aggregators of [src/aggregation/], and the other classes the client registers a factory for.

    [js_value] has the JavaScript values a serializer tells apart; [null] and [undefined] fields of
    type string are both [None]. What users add is a parameter ([UserTypes]): their classes, with the
    methods the service calls, and the conversions of the language that are not specific to the
    client ([JSON], the coercion of a value to a number). The portable serializer has its state and its own
    format; here it is one of the serializers of a user's class. *)

From Stdlib Require Import Ascii.
From stdpp Require Import pretty.
From S2P Require Export ObjectData PartitionService.
Set Warnings "-register-all".
#[local] Open Scope Z_scope.

(** ** Values *)

Inductive iteration_type := KEY | VALUE | ENTRY.

Inductive aggregator_class :=
  | CountAggregator | DoubleAverageAggregator | DoubleSumAggregator | NumberAverageAggregator
  | FixedPointSumAggregator | FloatingPointSumAggregator | MaxAggregator | MinAggregator
  | IntegerAverageAggregator | IntegerSumAggregator | LongAverageAggregator | LongSumAggregator.

(** [U] are the objects of the users' classes. A character is read as a string of one UTF-16 unit. *)
Inductive js_value (L U : Type) :=
  | VUndefined
  | VNull
  | VBoolean (b : bool)
  | VNumber (n : js_number)
  | VString (s : string)
  | VChar (unit : Z)
  | VLong (l : L)
  | VDate (time : option Z)
  | VBuffer (b : buffer)
  | VUUID (u : UUID L)
  | VArray (l : list (js_value L U))
  | VJsonValue (s : string)
  | VObject (fields : list (string * js_value L U))
  | VData (d : HeapData)
  | VPredicate (p : predicate L U)
  | VAggregator (c : aggregator_class) (attributePath : option string)
  | VRestValue (value contentType : option string)
  | VAddress (host : option string) (port type : Z)
  | VTopicMessage (publishTime : L) (publisherAddress : js_value L U) (payload : option HeapData)
  | VUser (u : U)
with predicate (L U : Type) :=
  | SqlPredicate (sql : option string)
  | AndPredicate (predicates : list (js_value L U))
  | BetweenPredicate (field : option string) (from to : js_value L U)
  | EqualPredicate (field : option string) (value : js_value L U)
  | GreaterLessPredicate (field : option string) (value : js_value L U) (equal less : bool)
  | LikePredicate (field expr : option string)
  | ILikePredicate (field expr : option string)
  | InPredicate (field : option string) (values : list (js_value L U))
  | InstanceOfPredicate (className : option string)
  | NotEqualPredicate (field : option string) (value : js_value L U)
  | NotPredicate (predicate : js_value L U)
  | OrPredicate (predicates : list (js_value L U))
  | RegexPredicate (field regex : option string)
  | FalsePredicate
  | TruePredicate
  | PagingPredicate (internalPredicate comparatorObject : js_value L U) (page pageSize : Z)
      (iterationType : option iteration_type) (anchorList : list (Z * (js_value L U * js_value L U))).

Arguments VUndefined {L U}. Arguments VNull {L U}. Arguments VBoolean {L U}. Arguments VNumber {L U}.
Arguments VString {L U}. Arguments VChar {L U}. Arguments VLong {L U}. Arguments VDate {L U}.
Arguments VBuffer {L U}. Arguments VUUID {L U}. Arguments VArray {L U}. Arguments VJsonValue {L U}.
Arguments VObject {L U}. Arguments VData {L U}. Arguments VPredicate {L U}. Arguments VAggregator {L U}.
Arguments VRestValue {L U}. Arguments VAddress {L U}. Arguments VTopicMessage {L U}. Arguments VUser {L U}.
Arguments SqlPredicate {L U}. Arguments AndPredicate {L U}. Arguments BetweenPredicate {L U}.
Arguments EqualPredicate {L U}. Arguments GreaterLessPredicate {L U}. Arguments LikePredicate {L U}.
Arguments ILikePredicate {L U}. Arguments InPredicate {L U}. Arguments InstanceOfPredicate {L U}.
Arguments NotEqualPredicate {L U}. Arguments NotPredicate {L U}. Arguments OrPredicate {L U}.
Arguments RegexPredicate {L U}. Arguments FalsePredicate {L U}. Arguments TruePredicate {L U}.
Arguments PagingPredicate {L U}.

(** What the service asks of users' objects and of the language. [u_prop] is the access to a property, and
    [u_factories] are the factories of the configuration: a factory makes an object of a class, and the
    reader of its [readData] is returned with it. *)
Class UserTypes (L U : Type) := {
  u_identified : U -> option (Z * Z);
  u_writeData : U -> Out;
  u_factories : Z -> option (Z -> res (Reader U));
  u_isPortable : U -> bool;
  u_writePortable : U -> Out;
  u_readPortable : Reader U;
  u_prop : U -> string -> js_value L U;
  JSON_stringify : js_value L U -> res (option string);
  JSON_parse : option string -> res (js_value L U);
  other_to_number : js_value L U -> js_number
}.

Section Serialization.
Context `{Uninit} {L : Type} `{LongLib L} {U : Type} `{UserTypes L U}.
#[local] Abbreviation value := (js_value L U).
#[local] Abbreviation pred := (predicate L U).

(** ** Conversions of the language *)

(** [v.name], for a [v] that is neither null nor undefined. *)
Definition prop (v : value) (name : string) : value :=
  match v with
  | VObject fields => default VUndefined (js_map_get String.eqb fields name)
  | VUser u => u_prop u name
  | _ => VUndefined
  end.

Definition to_number (v : value) : js_number :=
  match v with
  | VNumber n => n
  | VUndefined => S754_nan
  | VNull => S754_zero false
  | VBoolean b => num_of_Z (if b then 1 else 0)
  | _ => other_to_number v
  end.

Definition truthy (v : value) : bool :=
  match v with
  | VUndefined | VNull => false
  | VBoolean b => b
  | VNumber n => match n with S754_zero _ | S754_nan => false | _ => true end
  | VString s => negb (String.eqb s "")
  | _ => true
  end.

(** [n & 0xff] and the like convert to an integer modulo [2 ^ 32]; infinities and [NaN] give 0. *)
Definition to_int (n : js_number) : Z := num_trunc n.

(** The first UTF-16 unit of a string of UTF-8 bytes; [NaN], written as 0, for the empty string. *)
Definition charCodeAt0 (s : string) : Z :=
  match map (fun b => Z.of_N (Byte.to_N b)) (from_utf8 s) with
  | [] => 0
  | b0 :: r =>
      if b0 <? 128 then b0
      else match r with
           | b1 :: r =>
               if b0 <? 224 then (b0 - 192) * 64 + (b1 - 128)
               else match r with
                    | b2 :: r =>
                        if b0 <? 240 then (b0 - 224) * 4096 + (b1 - 128) * 64 + (b2 - 128)
                        else match r with
                             | b3 :: _ =>
                                 let c := (b0 - 240) * 262144 + (b1 - 128) * 4096 + (b2 - 128) * 64 + (b3 - 128) in
                                 55296 + (c - 65536) / 1024
                             | [] => 65533
                             end
                    | [] => 65533
                    end
           | [] => 65533
           end
  end.

(** [Util.getType]. *)
Definition getType (obj : value) : res string :=
  match obj with
  | VNull => Err AssertionError
  | VUndefined => Ok "undefined"%string
  | VBoolean _ => Ok "boolean"%string
  | VNumber _ => Ok "number"%string
  | VString _ | VChar _ => Ok "string"%string
  | VLong _ => Ok "long"%string
  | VDate _ => Ok "date"%string
  | VBuffer _ => Ok "buffer"%string
  | VUUID _ => Ok "uuid"%string
  | VArray _ => Ok "array"%string
  | _ => Ok "object"%string
  end.

(** ** Serializers *)

Record CustomSerializer := mkCustomSerializer {
  cs_id : Z; cs_write : value -> Out; cs_read : Reader value }.

Inductive serializer :=
  | StringSerializer | DoubleSerializer | ByteSerializer | BooleanSerializer | NullSerializer | ShortSerializer
  | IntegerSerializer | LongSerializer | FloatSerializer | CharSerializer | DateSerializer | ByteArraySerializer
  | CharArraySerializer | BooleanArraySerializer | ShortArraySerializer | IntegerArraySerializer
  | LongArraySerializer | DoubleArraySerializer | StringArraySerializer | JavaClassSerializer | FloatArraySerializer
  | ArrayListSerializer | LinkedListSerializer | UuidSerializer | IdentifiedDataSerializableSerializer
  | PortableSerializer | JsonSerializer | HazelcastJsonValueSerializer
  | Custom (c : CustomSerializer).

Definition serializer_id (s : serializer) : Z :=
  match s with
  | NullSerializer => NULL_TYPE_ID
  | PortableSerializer => -1
  | IdentifiedDataSerializableSerializer => -2
  | ByteSerializer => -3 | BooleanSerializer => -4 | CharSerializer => -5 | ShortSerializer => -6
  | IntegerSerializer => -7 | LongSerializer => -8 | FloatSerializer => -9 | DoubleSerializer => -10
  | StringSerializer => -11 | ByteArraySerializer => -12 | BooleanArraySerializer => -13 | CharArraySerializer => -14
  | ShortArraySerializer => -15 | IntegerArraySerializer => -16 | LongArraySerializer => -17
  | FloatArraySerializer => -18 | DoubleArraySerializer => -19 | StringArraySerializer => -20
  | UuidSerializer => -21 | JavaClassSerializer => -24 | DateSerializer => -25
  | ArrayListSerializer => -29 | LinkedListSerializer => -30
  | JsonSerializer | HazelcastJsonValueSerializer => -130
  | Custom c => cs_id c
  end.

Inductive JsonStringDeserializationPolicy := EAGER | NO_DESERIALIZATION.

Record SerializationConfig := mkSerializationConfig {
  defaultNumberType : string;
  isBigEndian : bool;
  customSerializers : list CustomSerializer;
  globalSerializer : option CustomSerializer;
  jsonStringDeserializationPolicy : JsonStringDeserializationPolicy }.

(** ** The registry *)

Record SerializationServiceV1 := mkService {
  registry : js_map Z serializer;
  serializerNameToId : js_map string Z;
  serializationConfig : SerializationConfig }.

(** A name registered with the id 0 is not seen as registered. *)
Definition registerSerializer (name : string) (s : serializer) (svc : SerializationServiceV1)
    : res SerializationServiceV1 :=
  if match js_map_get String.eqb (serializerNameToId svc) name with Some id => negb (id =? 0) | None => false end
  then Err RangeError
  else if match js_map_get Z.eqb (registry svc) (serializer_id s) with Some _ => true | None => false end
  then Err RangeError
  else Ok (mkService (js_map_set Z.eqb (registry svc) (serializer_id s) s)
             (js_map_set String.eqb (serializerNameToId svc) name (serializer_id s)) (serializationConfig svc)).

Definition defaultSerializers (policy : JsonStringDeserializationPolicy) : list (string * serializer) :=
  [("string", StringSerializer); ("double", DoubleSerializer); ("byte", ByteSerializer);
   ("boolean", BooleanSerializer); ("null", NullSerializer); ("short", ShortSerializer);
   ("integer", IntegerSerializer); ("long", LongSerializer); ("float", FloatSerializer); ("char", CharSerializer);
   ("date", DateSerializer); ("byteArray", ByteArraySerializer); ("charArray", CharArraySerializer);
   ("booleanArray", BooleanArraySerializer); ("shortArray", ShortArraySerializer);
   ("integerArray", IntegerArraySerializer); ("longArray", LongArraySerializer);
   ("doubleArray", DoubleArraySerializer); ("stringArray", StringArraySerializer);
   ("javaClass", JavaClassSerializer); ("floatArray", FloatArraySerializer); ("arrayList", ArrayListSerializer);
   ("linkedList", LinkedListSerializer); ("uuid", UuidSerializer);
   ("identified", IdentifiedDataSerializableSerializer); ("!portable", PortableSerializer);
   ("!json", match policy with EAGER => JsonSerializer | NO_DESERIALIZATION => HazelcastJsonValueSerializer end)]%string.

Fixpoint register_all (l : list (string * serializer)) (svc : SerializationServiceV1) : res SerializationServiceV1 :=
  match l with [] => Ok svc | (n, s) :: l => svc ← registerSerializer n s svc; register_all l svc end.

Definition registerDefaultSerializers (svc : SerializationServiceV1) : res SerializationServiceV1 :=
  register_all (defaultSerializers (jsonStringDeserializationPolicy (serializationConfig svc))) svc.

(** The id is an integer; the methods are there by the type. *)
Definition assertValidCustomSerializer (c : CustomSerializer) : res unit :=
  if cs_id c <? 1 then Err TypeError else Ok ().

Fixpoint registerCustomSerializers (l : list CustomSerializer) (svc : SerializationServiceV1)
    : res SerializationServiceV1 :=
  match l with
  | [] => Ok svc
  | c :: l =>
      _ ← assertValidCustomSerializer c;
      svc ← registerSerializer ("!custom" +:+ pretty (cs_id c)) (Custom c) svc;
      registerCustomSerializers l svc
  end.

Definition registerGlobalSerializer (svc : SerializationServiceV1) : res SerializationServiceV1 :=
  match globalSerializer (serializationConfig svc) with
  | None => Ok svc
  | Some c => _ ← assertValidCustomSerializer c; registerSerializer "!global" (Custom c) svc
  end.

Definition newSerializationService (cfg : SerializationConfig) : res SerializationServiceV1 :=
  svc ← registerDefaultSerializers (mkService [] [] cfg);
  svc ← registerCustomSerializers (customSerializers cfg) svc;
  registerGlobalSerializer svc.

Definition findSerializerById (svc : SerializationServiceV1) (id : Z) : option serializer :=
  js_map_get Z.eqb (registry svc) id.

(** The answer of a search: [null], [undefined] or a serializer. *)
Inductive found := NotFound | FoundUndefined | Found (s : serializer).

Definition of_registry (o : option serializer) : found :=
  match o with Some s => Found s | None => FoundUndefined end.

Definition findSerializerByName (svc : SerializationServiceV1) (name : string) (isArray : bool) : found :=
  let convertedName :=
    if String.eqb name "number" then defaultNumberType (serializationConfig svc)
    else if String.eqb name "buffer" then "byteArray"%string else name in
  let serializerName := convertedName +:+ (if isArray then "Array" else "") in
  match js_map_get String.eqb (serializerNameToId svc) serializerName with
  | None => NotFound
  | Some id => of_registry (findSerializerById svc id)
  end.

Definition isIdentifiedDataSerializable (obj : value) : bool :=
  match obj with
  | VPredicate _ | VAggregator _ _ | VRestValue _ _ | VAddress _ _ _ | VTopicMessage _ _ _ => true
  | VUser u => bool_decide (is_Some (u_identified u))
  | _ => false
  end.

Definition isPortableSerializable (obj : value) : bool :=
  match obj with VUser u => u_isPortable u | _ => false end.

Definition lookupDefaultSerializer (svc : SerializationServiceV1) (obj : value) : res found :=
  if isIdentifiedDataSerializable obj then Ok (findSerializerByName svc "identified" false)
  else if isPortableSerializable obj then Ok (findSerializerByName svc "!portable" false)
  else
    objectType ← getType obj;
    match obj with
    | VArray [] => Ok (findSerializerByName svc "number" true)
    | VArray (x :: _) => t ← getType x; Ok (findSerializerByName svc t true)
    | _ => Ok (findSerializerByName svc objectType false)
    end.

(** The id of a serializer is an integer, so that no other number is one. *)
Definition lookupCustomSerializer (svc : SerializationServiceV1) (obj : value) : found :=
  match prop obj "hzCustomId" with
  | VNumber n =>
      if num_ltb n 1 || match n with S754_nan => true | _ => false end then NotFound
      else if bool_decide (num_of_Z (num_trunc n) = n) then of_registry (findSerializerById svc (num_trunc n))
      else FoundUndefined
  | _ => NotFound
  end.

Definition or_else (f : found) (g : res found) : res found := match f with NotFound => g | _ => Ok f end.

(** Null excluded, an undefined result of a search ends it, and its use throws. *)
Definition findSerializerFor (svc : SerializationServiceV1) (obj : value) : res serializer :=
  match obj with
  | VUndefined => Err RangeError
  | _ =>
      f ← match obj with VNull => Ok (findSerializerByName svc "null" false) | _ => Ok NotFound end;
      f ← or_else f (lookupDefaultSerializer svc obj);
      f ← or_else f (Ok (lookupCustomSerializer svc obj));
      f ← or_else f (Ok (findSerializerByName svc "!global" false));
      f ← or_else f (Ok (findSerializerByName svc "!json" false));
      match f with NotFound => Err RangeError | FoundUndefined => Err TypeError | Found s => Ok s end
  end.

(** ** Writing *)

(** [output.writeX(v)] for a number type: the [Buffer] coerces the argument. *)
Definition write_short (v : value) : Out := fun o =>
  z ← check_int (- 2 ^ 15) (2 ^ 15 - 1) (to_number v); Output.writeShort z o.
Definition write_int (v : value) : Out := fun o =>
  z ← check_int (- 2 ^ 31) (2 ^ 31 - 1) (to_number v); Output.writeInt z o.
Definition write_char (v : value) : Out := fun o =>
  match v with
  | VChar u => Output.writeChar u o
  | VString s => Output.writeChar (charCodeAt0 s) o
  | _ => Err TypeError
  end.
Definition write_byte (v : value) : Out :=
  match v with VBuffer b => Output.writeBuffer b | _ => Output.write (to_int (to_number v)) end.
Definition write_string (v : value) : Out := fun o =>
  match v with
  | VNull | VUndefined => Output.writeString None o
  | VString s => Output.writeString (Some s) o
  | _ => Err TypeError
  end.

(** A value that is not a [Long] has no [high] and [low], which are written as 0 then. *)
Definition write_long (v : value) : Out := fun o =>
  match v with
  | VLong l => Output.writeLong l o
  | VNull | VUndefined => Err TypeError
  | _ => high ← check_int (- 2 ^ 31) (2 ^ 31 - 1) (to_number (prop v "high"));
         low ← check_int (- 2 ^ 31) (2 ^ 31 - 1) (to_number (prop v "low"));
         Output.writeLong (long_of_bits low high) o
  end.

Definition write_array (func : value -> Out) (v : value) : Out := fun o =>
  match v with
  | VArray l => Output.writeArray func (Some l) o
  | VNull | VUndefined => Output.writeArray func None o
  | _ => Err TypeError
  end.

(** The serializers that write no other object. *)
Definition write_plain (s : serializer) (v : value) : Out := fun o =>
  match s with
  | StringSerializer | JavaClassSerializer => write_string v o
  | DoubleSerializer => Output.writeDouble (to_number v) o
  | ByteSerializer => write_byte v o
  | BooleanSerializer => Output.writeBoolean (truthy v) o
  | NullSerializer | ArrayListSerializer | LinkedListSerializer => Ok o
  | ShortSerializer => write_short v o
  | IntegerSerializer => write_int v o
  | LongSerializer => write_long v o
  | FloatSerializer => Output.writeFloat (to_number v) o
  | CharSerializer => write_char v o
  | DateSerializer =>
      match v with VDate t => Output.writeLong (long_of_Z (default 0 t)) o | _ => Err TypeError end
  | ByteArraySerializer =>
      match v with
      | VBuffer b => Output.writeByteArray (Some b) o
      | VArray [] => Output.writeByteArray (Some []) o
      | VNull | VUndefined => Output.writeByteArray None o
      | _ => Err TypeError
      end
  | CharArraySerializer => write_array write_char v o
  | BooleanArraySerializer => write_array (fun x => Output.writeBoolean (truthy x)) v o
  | ShortArraySerializer => write_array write_short v o
  | IntegerArraySerializer => write_array write_int v o
  | LongArraySerializer => write_array write_long v o
  | DoubleArraySerializer => write_array (fun x => Output.writeDouble (to_number x)) v o
  | StringArraySerializer => write_array write_string v o
  | FloatArraySerializer => write_array (fun x => Output.writeFloat (to_number x)) v o
  | UuidSerializer =>
      match v with
      | VUUID u => o ← Output.writeLong (mostSignificant u) o; Output.writeLong (leastSignificant u) o
      | _ => Err TypeError
      end
  | PortableSerializer => match v with VUser u => u_writePortable u o | _ => Err TypeError end
  | JsonSerializer | HazelcastJsonValueSerializer =>
      match v with
      | VJsonValue s => Output.writeString (Some s) o
      | _ => s ← JSON_stringify v; Output.writeString s o
      end
  | Custom c => cs_write c v o
  | IdentifiedDataSerializableSerializer => Err TypeError
  end.

Definition PREDICATE_FACTORY_ID : Z := -20.
Definition AGGREGATOR_FACTORY_ID : Z := -29.
Definition RELIABLE_TOPIC_MESSAGE_FACTORY_ID : Z := -9.
Definition RELIABLE_TOPIC_CLASS_ID : Z := 2.
Definition CLUSTER_DATA_FACTORY_ID : Z := 0.
Definition CLUSTER_DATA_ADDRESS_CLASS_ID : Z := 1.
Definition REST_VALUE_FACTORY_ID : Z := -25.
Definition REST_VALUE_CLASS_ID : Z := 1.

Definition predicate_classId (p : pred) : Z :=
  match p with
  | SqlPredicate _ => 0 | AndPredicate _ => 1 | BetweenPredicate _ _ _ => 2 | EqualPredicate _ _ => 3
  | GreaterLessPredicate _ _ _ _ => 4 | LikePredicate _ _ => 5 | ILikePredicate _ _ => 6 | InPredicate _ _ => 7
  | InstanceOfPredicate _ => 8 | NotEqualPredicate _ _ => 9 | NotPredicate _ => 10 | OrPredicate _ => 11
  | RegexPredicate _ _ => 12 | FalsePredicate => 13 | TruePredicate => 14 | PagingPredicate _ _ _ _ _ _ => 15
  end.

Definition aggregator_classId (c : aggregator_class) : Z :=
  match c with
  | CountAggregator => 4 | DoubleAverageAggregator => 6 | DoubleSumAggregator => 7 | FixedPointSumAggregator => 8
  | FloatingPointSumAggregator => 9 | IntegerAverageAggregator => 10 | IntegerSumAggregator => 11
  | LongAverageAggregator => 12 | LongSumAggregator => 13 | MaxAggregator => 14 | MinAggregator => 15
  | NumberAverageAggregator => 16
  end.

(** [factoryId] and [classId] of an object; the user's are integers. *)
Definition identified_ids (v : value) : option (Z * Z) :=
  match v with
  | VPredicate p => Some (PREDICATE_FACTORY_ID, predicate_classId p)
  | VAggregator c _ => Some (AGGREGATOR_FACTORY_ID, aggregator_classId c)
  | VRestValue _ _ => Some (REST_VALUE_FACTORY_ID, REST_VALUE_CLASS_ID)
  | VAddress _ _ _ => Some (CLUSTER_DATA_FACTORY_ID, CLUSTER_DATA_ADDRESS_CLASS_ID)
  | VTopicMessage _ _ _ => Some (RELIABLE_TOPIC_MESSAGE_FACTORY_ID, RELIABLE_TOPIC_CLASS_ID)
  | VUser u => u_identified u
  | _ => None
  end.

(** The fields of the members' side that an aggregator writes after its path. *)
Inductive member_field := DoubleField | LongField | ObjectField.

Definition aggregator_fields (c : aggregator_class) : list member_field :=
  match c with
  | CountAggregator | FixedPointSumAggregator | IntegerSumAggregator | LongSumAggregator => [LongField]
  | DoubleAverageAggregator | NumberAverageAggregator => [DoubleField; LongField]
  | DoubleSumAggregator | FloatingPointSumAggregator => [DoubleField]
  | MaxAggregator | MinAggregator => [ObjectField]
  | IntegerAverageAggregator | LongAverageAggregator => [LongField; LongField]
  end.

Definition iteration_name (t : iteration_type) : string :=
  match t with KEY => "KEY" | VALUE => "VALUE" | ENTRY => "ENTRY" end.

(** [output.writeObject(null)]. *)
Definition write_null (svc : SerializationServiceV1) : Out := fun o =>
  s ← findSerializerFor svc VNull; o ← Output.writeInt (serializer_id s) o; write_plain s VNull o.

Definition write_field (svc : SerializationServiceV1) (f : member_field) : Out :=
  match f with
  | DoubleField => Output.writeDouble (num_of_Z 0)
  | LongField => Output.writeLong (long_of_Z 0)
  | ObjectField => write_null svc
  end.

Section Writers.
Context (svc : SerializationServiceV1).

(** [writeObject], given the writers of the serializers. *)
Definition write_object (write : serializer -> value -> Out) (object : value) : Out := fun o =>
  s ← findSerializerFor svc object; o ← Output.writeInt (serializer_id s) o; write s object o.

(** The [write] of each serializer, and the [writeData] of each class. *)
Fixpoint serializer_write (s : serializer) (v : value) {struct v} : Out := fun o =>
  match s with
  | IdentifiedDataSerializableSerializer =>
      match identified_ids v with
      | None => Err TypeError
      | Some (factoryId, classId) =>
          o ← Output.writeBoolean true o;
          o ← Output.writeInt factoryId o;
          o ← Output.writeInt classId o;
          match v with
          | VPredicate p => writePredicate p o
          | VAggregator c path => o ← Output.writeString path o; Output.each (write_field svc) (aggregator_fields c) o
          | VRestValue val contentType => o ← Output.writeString val o; Output.writeString contentType o
          | VAddress host port type =>
              o ← Output.writeInt port o; o ← Output.writeByte type o; Output.writeString host o
          | VTopicMessage publishTime publisherAddress payload =>
              o ← Output.writeLong publishTime o; o ← write_object serializer_write publisherAddress o; Output.writeData payload o
          | VUser u => u_writeData u o
          | _ => Err TypeError
          end
      end
  | _ => write_plain s v o
  end
with writePredicate (p : pred) {struct p} : Out := fun o =>
  match p with
  | SqlPredicate sql => Output.writeString sql o
  | AndPredicate ps | OrPredicate ps =>
      o ← Output.writeInt (Z.of_nat (length ps)) o; Output.each (write_object serializer_write) ps o
  | BetweenPredicate field from to =>
      o ← Output.writeString field o; o ← write_object serializer_write to o; write_object serializer_write from o
  | EqualPredicate field value | NotEqualPredicate field value => o ← Output.writeString field o; write_object serializer_write value o
  | GreaterLessPredicate field value equal less =>
      o ← Output.writeString field o; o ← write_object serializer_write value o; o ← Output.writeBoolean equal o; Output.writeBoolean less o
  | LikePredicate field expr | ILikePredicate field expr => o ← Output.writeString field o; Output.writeString expr o
  | InPredicate field values =>
      o ← Output.writeString field o; o ← Output.writeInt (Z.of_nat (length values)) o; Output.each (write_object serializer_write) values o
  | InstanceOfPredicate className => Output.writeString className o
  | NotPredicate predicate => write_object serializer_write predicate o
  | RegexPredicate field regex => o ← Output.writeString field o; Output.writeString regex o
  | FalsePredicate | TruePredicate => Ok o
  | PagingPredicate internalPredicate comparatorObject page pageSize iterationType anchorList =>
      o ← write_object serializer_write internalPredicate o;
      o ← write_object serializer_write comparatorObject o;
      o ← Output.writeInt page o;
      o ← Output.writeInt pageSize o;
      o ← Output.writeString (iteration_name <$> iterationType) o;
      o ← Output.writeInt (Z.of_nat (length anchorList)) o;
      Output.each (fun anchorEntry o =>
        o ← Output.writeInt anchorEntry.1 o; o ← write_object serializer_write anchorEntry.2.1 o; write_object serializer_write anchorEntry.2.2 o) anchorList o
  end.

Definition writeObject : value -> Out := write_object serializer_write.
End Writers.

(** ** Reading *)

Definition rmap {A B} (f : A -> B) (rd : Reader A) : Reader B := fun i => '(x, i) ← rd i; Ok (f x, i).

Definition of_option {A} (f : A -> value) (o : option A) : value := match o with Some x => f x | None => VNull end.
Definition of_array {A} (f : A -> value) (o : option (list A)) : value := of_option (fun l => VArray (map f l)) o.
Definition of_string (o : option string) : value := of_option VString o.

(** [new Date(t)] is an invalid date when [t] is out of range. *)
Definition MAX_DATE : Z := 8640000000000000.
Definition of_time (t : Z) : value := VDate (if Z.abs t <=? MAX_DATE then Some t else None).

Definition read_plain (s : serializer) : Reader value :=
  match s with
  | StringSerializer | JavaClassSerializer => rmap of_string (Input.readString None)
  | DoubleSerializer => rmap VNumber (Input.readDouble None)
  | ByteSerializer => rmap (fun z => VNumber (num_of_Z z)) (Input.readByte None)
  | BooleanSerializer => rmap VBoolean (Input.readBoolean None)
  | NullSerializer => fun i => Ok (VNull, i)
  | ShortSerializer => rmap (fun z => VNumber (num_of_Z z)) (Input.readShort None)
  | IntegerSerializer => rmap (fun z => VNumber (num_of_Z z)) (Input.readInt None)
  | LongSerializer => rmap VLong (Input.readLong None)
  | FloatSerializer => rmap VNumber (Input.readFloat None)
  | CharSerializer => rmap VChar (Input.readChar None)
  | DateSerializer => rmap (fun l : L => of_time (long_val l)) (Input.readLong None)
  | ByteArraySerializer => rmap (of_option VBuffer) (Input.readByteArray None)
  | CharArraySerializer => rmap (of_array VChar) (Input.readCharArray None)
  | BooleanArraySerializer => rmap (of_array VBoolean) (Input.readBooleanArray None)
  | ShortArraySerializer => rmap (of_array (fun z => VNumber (num_of_Z z))) (Input.readShortArray None)
  | IntegerArraySerializer => rmap (of_array (fun z => VNumber (num_of_Z z))) (Input.readIntArray None)
  | LongArraySerializer => rmap (of_array VLong) (Input.readLongArray None)
  | DoubleArraySerializer => rmap (of_array VNumber) (Input.readDoubleArray None)
  | StringArraySerializer => rmap (of_array of_string) (Input.readStringArray None)
  | FloatArraySerializer => rmap (of_array VNumber) (Input.readFloatArray None)
  | UuidSerializer => fun i =>
      '(m, i) ← Input.readLong None i; '(l, i) ← Input.readLong None i; Ok (VUUID (mkUUID m l), i)
  | PortableSerializer => rmap VUser u_readPortable
  | JsonSerializer => fun i => '(s, i) ← Input.readString None i; v ← JSON_parse s; Ok (v, i)
  | HazelcastJsonValueSerializer => fun i =>
      '(s, i) ← Input.readString None i;
      match s with Some s => Ok (VJsonValue s, i) | None => Err AssertionError end
  | Custom c => cs_read c
  | ArrayListSerializer | LinkedListSerializer | IdentifiedDataSerializableSerializer => fun _ => Err TypeError
  end.

(** [enumFromString(IterationType, s)]. *)
Definition iteration_of_name (s : option string) : option iteration_type :=
  match s with
  | Some "KEY" => Some KEY | Some "VALUE" => Some VALUE | Some "ENTRY" => Some ENTRY
  | _ => None
  end%string.

Section Readers.
Context (svc : SerializationServiceV1) (readObject : Reader value).

(** [size] objects, for a size just read. *)
Definition read_objects : Reader (list value) := fun i =>
  '(size, i) ← Input.readInt None i; Input.read_loop (Z.to_nat size) readObject i.

Definition read_anchor : Reader (Z * (value * value)) := fun i =>
  '(p, i) ← Input.readInt None i; '(k, i) ← readObject i; '(v, i) ← readObject i; Ok ((p, (k, v)), i).

(** [predicateFactory(classId)], and the [readData] of the predicate it makes. *)
Definition read_predicate (classId : Z) : Reader pred := fun i =>
  let str := Input.readString None in
  match classId with
  | 0 => '(sql, i) ← str i; Ok (SqlPredicate sql, i)
  | 1 => '(ps, i) ← read_objects i; Ok (AndPredicate ps, i)
  | 2 => '(field, i) ← str i; '(to, i) ← readObject i; '(from, i) ← readObject i; Ok (BetweenPredicate field from to, i)
  | 3 => '(field, i) ← str i; '(v, i) ← readObject i; Ok (EqualPredicate field v, i)
  | 4 => '(field, i) ← str i; '(v, i) ← readObject i; '(equal, i) ← Input.readBoolean None i;
         '(less, i) ← Input.readBoolean None i; Ok (GreaterLessPredicate field v equal less, i)
  | 5 => '(field, i) ← str i; '(expr, i) ← str i; Ok (LikePredicate field expr, i)
  | 6 => '(field, i) ← str i; '(expr, i) ← str i; Ok (ILikePredicate field expr, i)
  | 7 => '(field, i) ← str i; '(vs, i) ← read_objects i; Ok (InPredicate field vs, i)
  | 8 => '(className, i) ← str i; Ok (InstanceOfPredicate className, i)
  | 9 => '(field, i) ← str i; '(v, i) ← readObject i; Ok (NotEqualPredicate field v, i)
  | 10 => '(p, i) ← readObject i; Ok (NotPredicate p, i)
  | 11 => '(ps, i) ← read_objects i; Ok (OrPredicate ps, i)
  | 12 => '(field, i) ← str i; '(regex, i) ← str i; Ok (RegexPredicate field regex, i)
  | 13 => Ok (FalsePredicate, i)
  | 14 => Ok (TruePredicate, i)
  | 15 => '(internalPredicate, i) ← readObject i;
          '(comparatorObject, i) ← readObject i;
          '(page, i) ← Input.readInt None i;
          '(pageSize, i) ← Input.readInt None i;
          '(name, i) ← str i;
          '(size, i) ← Input.readInt None i;
          '(anchorList, i) ← Input.read_loop (Z.to_nat size) read_anchor i;
          Ok (PagingPredicate internalPredicate comparatorObject page pageSize (iteration_of_name name) anchorList, i)
  | _ => Err RangeError
  end.

(** [aggregatorFactory(classId)]. *)
Definition aggregator_of_classId (classId : Z) : res aggregator_class :=
  match classId with
  | 4 => Ok CountAggregator | 6 => Ok DoubleAverageAggregator | 7 => Ok DoubleSumAggregator
  | 8 => Ok FixedPointSumAggregator | 9 => Ok FloatingPointSumAggregator | 10 => Ok IntegerAverageAggregator
  | 11 => Ok IntegerSumAggregator | 12 => Ok LongAverageAggregator | 13 => Ok LongSumAggregator
  | 14 => Ok MaxAggregator | 15 => Ok MinAggregator | 16 => Ok NumberAverageAggregator
  | _ => Err HazelcastError
  end.

Definition read_field (f : member_field) : Reader unit :=
  match f with
  | DoubleField => rmap (fun _ => ()) (Input.readDouble None)
  | LongField => rmap (fun _ : L => ()) (Input.readLong None)
  | ObjectField => rmap (fun _ => ()) readObject
  end.

Fixpoint read_fields (fs : list member_field) : Reader unit := fun i =>
  match fs with [] => Ok ((), i) | f :: fs => '(_, i) ← read_field f i; read_fields fs i end.

(** The object a factory makes, filled by its [readData]; the factories of the client replace the
    user's of the same id, and a factory that knows no such class returns null. *)
Definition read_identified (factoryId classId : Z) : Reader value := fun i =>
  if factoryId =? PREDICATE_FACTORY_ID then '(p, i) ← read_predicate classId i; Ok (VPredicate p, i)
  else if factoryId =? RELIABLE_TOPIC_MESSAGE_FACTORY_ID then
    if classId =? RELIABLE_TOPIC_CLASS_ID then
      '(t, i) ← Input.readLong None i; '(a, i) ← readObject i; '(d, i) ← Input.readData i; Ok (VTopicMessage t a d, i)
    else Err TypeError
  else if factoryId =? CLUSTER_DATA_FACTORY_ID then
    if classId =? CLUSTER_DATA_ADDRESS_CLASS_ID then
      '(port, i) ← Input.readInt None i; '(type, i) ← Input.readByte None i; '(host, i) ← Input.readString None i;
      Ok (VAddress host port type, i)
    else Err TypeError
  else if factoryId =? AGGREGATOR_FACTORY_ID then
    c ← aggregator_of_classId classId;
    '(path, i) ← Input.readString None i; '(_, i) ← read_fields (aggregator_fields c) i; Ok (VAggregator c path, i)
  else if factoryId =? REST_VALUE_FACTORY_ID then
    if classId =? REST_VALUE_CLASS_ID then
      '(v, i) ← Input.readString None i; '(t, i) ← Input.readString None i; Ok (VRestValue v t, i)
    else Err TypeError
  else match u_factories factoryId with
       | None => Err RangeError
       | Some factory => rd ← factory classId; rmap VUser rd i
       end.

(** The [read] of each serializer. *)
Definition serializer_read (s : serializer) : Reader value := fun i =>
  match s with
  | ArrayListSerializer | LinkedListSerializer =>
      '(size, i) ← Input.readInt None i;
      if size >? NULL_ARRAY_LENGTH then '(l, i) ← Input.read_loop (Z.to_nat size) readObject i; Ok (VArray l, i)
      else Ok (VNull, i)
  | IdentifiedDataSerializableSerializer =>
      '(isIdentified, i) ← Input.readBoolean None i;
      if isIdentified : bool then
        '(factoryId, i) ← Input.readInt None i; '(classId, i) ← Input.readInt None i; read_identified factoryId classId i
      else Err RangeError
  | _ => read_plain s i
  end.
End Readers.

(** [readObject]: the fuel bounds the depth of nested objects. *)
Fixpoint readObject (svc : SerializationServiceV1) (fuel : nat) : Reader value := fun i =>
  match fuel with
  | O => Err OutOfFuel
  | S fuel =>
      '(serializerId, i) ← Input.readInt None i;
      match findSerializerById svc serializerId with
      | None => Err TypeError
      | Some s => serializer_read (readObject svc fuel) s i
      end
  end.

(** ** toData and toObject *)

(** The default strategy: of the values, serialized data has a partition hash of its own. *)
Definition defaultPartitionStrategy (obj : value) : res Z :=
  match obj with VData d => HeapData.getPartitionHash d | _ => Ok 0 end.

(** [object.partitionKey], when it is neither null nor undefined. *)
Definition partitionKey (object : value) : option value :=
  match object with
  | VNull | VUndefined => None
  | _ => match prop object "partitionKey" with VNull | VUndefined => None | k => Some k end
  end.

(** The partition key of an object may have a partition key in turn: the fuel bounds the chain. *)
Fixpoint toData (svc : SerializationServiceV1) (fuel : nat) (object : value) (partitioningStrategy : value -> res Z)
    : res HeapData :=
  match object, fuel with
  | VData d, _ => Ok d
  | _, O => Err OutOfFuel
  | _, S fuel =>
      let dataOutput := Output.new (isBigEndian (serializationConfig svc)) in
      s ← findSerializerFor svc object;
      hash ← match partitionKey object with
             | Some key =>
                 serializedPartitionKey ← toData svc fuel key defaultPartitionStrategy;
                 partitioningStrategy (VData serializedPartitionKey)
             | None => partitioningStrategy object
             end;
      dataOutput ← Output.writeIntBE hash dataOutput;
      dataOutput ← Output.writeIntBE (serializer_id s) dataOutput;
      dataOutput ← serializer_write svc s object dataOutput;
      newHeapData (Some (Output.toBuffer dataOutput))
  end.

(** Null data gives null; an object is nested at most as deep as there are bytes. *)
Definition toObject (svc : SerializationServiceV1) (data : option HeapData) : res value :=
  match data with
  | None => Ok VNull
  | Some d =>
      type ← HeapData.getType d;
      match findSerializerById svc type with
      | None => Err RangeError
      | Some s =>
          match HeapData.toBuffer d with
          | None => '(v, _) ← serializer_read (readObject svc 0) s (Input.new [] DATA_OFFSET (isBigEndian (serializationConfig svc))); Ok v
          | Some b =>
              '(v, _) ← serializer_read (readObject svc (length b)) s
                          (Input.new b DATA_OFFSET (isBigEndian (serializationConfig svc)));
              Ok v
          end
      end
  end.
End Serialization.
Arguments CustomSerializer : clear implicits.
Arguments serializer : clear implicits.
Arguments SerializationConfig : clear implicits.
Arguments SerializationServiceV1 : clear implicits.

(** ** The registry of a service *)

(** Splits a membership in an explicit list. *)
Ltac in_list H := repeat (apply elem_of_cons in H as [H|H]; [injection H; clear H; intros; subst|]); try by apply not_elem_of_nil in H.

(** A default serializer is in the list of them. *)
Ltac in_defaults := unfold defaultSerializers; repeat first [by apply list_elem_of_here | apply list_elem_of_further].

Section Registry.
Context `{Uninit} {L : Type} `{LongLaws L} {U : Type} `{UserTypes L U}.
#[local] Abbreviation service := (SerializationServiceV1 L U).

Definition policy_of (svc : service) : JsonStringDeserializationPolicy :=
  jsonStringDeserializationPolicy (serializationConfig svc).

(** What every service has: its default serializers under their names and ids, and no other name but those of
    the custom and global serializers. *)
Record registered (svc : service) : Prop := {
  reg_name n (s : serializer L U) : (n, s) ∈ defaultSerializers (policy_of svc) ->
    js_map_get String.eqb (serializerNameToId svc) n = Some (serializer_id s);
  reg_id n s : (n, s) ∈ defaultSerializers (policy_of svc) -> findSerializerById svc (serializer_id s) = Some s;
  reg_other n id : js_map_get String.eqb (serializerNameToId svc) n = Some id ->
    n ∈ (defaultSerializers (L := L) (U := U) (policy_of svc)).*1 \/ exists r, n = String "!"%char r
}.

Lemma default_id_0 p n (s : serializer L U) : (n, s) ∈ defaultSerializers p -> serializer_id s = 0 -> n = "null"%string.
Proof. intros Hn Hs. unfold defaultSerializers in Hn. in_list Hn; try done. by destruct p. Qed.

Lemma registerSerializer_inv n s (svc svc' : service) : registerSerializer n s svc = Ok svc' ->
  svc' = mkService (js_map_set Z.eqb (registry svc) (serializer_id s) s)
           (js_map_set String.eqb (serializerNameToId svc) n (serializer_id s)) (serializationConfig svc) /\
  js_map_get Z.eqb (registry svc) (serializer_id s) = None /\
  (forall id, js_map_get String.eqb (serializerNameToId svc) n = Some id -> id = 0).
Proof.
  unfold registerSerializer. destruct (js_map_get Z.eqb _ _) eqn:E2; [by destruct (match _ with Some _ => _ | None => _ end)|].
  destruct (js_map_get String.eqb _ n) as [id|] eqn:E1.
  - destruct (id =? 0) eqn:E0; cbn; [|done]. apply Z.eqb_eq in E0 as ->. intros [= <-]. by split_and!; [| |intros ? [= <-]].
  - intros [= <-]. by split_and!.
Qed.

Lemma register_keeps n r s (svc svc' : service) : n = String "!"%char r -> registerSerializer n s svc = Ok svc' ->
  registered svc -> registered svc' /\ serializationConfig svc' = serializationConfig svc.
Proof.
  intros Hn E [Rn Ri Ro]. apply registerSerializer_inv in E as (-> & Hid & Hname). split; [|done].
  split; unfold policy_of, findSerializerById in *; cbn [serializationConfig serializerNameToId registry].
  - intros m t Hm. rewrite (js_map_get_set _ String.eqb_eq). destruct (String.eqb n m) eqn:E; [|by apply Rn].
    apply String.eqb_eq in E as <-. pose proof (Hname _ (Rn _ _ Hm)) as H0'.
    assert (n = "null"%string) as Hnull by (by eapply default_id_0). by subst.
  - intros m t Hm. rewrite (js_map_get_set _ Z.eqb_eq). destruct (serializer_id s =? serializer_id t) eqn:E; [|by eapply Ri].
    apply Z.eqb_eq in E. rewrite E in Hid. by rewrite (Ri m t Hm) in Hid.
  - intros m id. rewrite (js_map_get_set _ String.eqb_eq). destruct (String.eqb n m) eqn:E; [|by apply Ro].
    apply String.eqb_eq in E as <-. eauto.
Qed.
Lemma register_customs_keep l : forall svc svc' : service, registerCustomSerializers l svc = Ok svc' ->
  registered svc -> registered svc' /\ serializationConfig svc' = serializationConfig svc.
Proof.
  induction l as [|c l IH]; intros svc svc' E R; cbn in E; [by injection E as <-|]. res_inv.
  match goal with Hr : registerSerializer _ _ _ = Ok _ |- _ => eapply register_keeps in Hr as [R' Ec]; [|done..] end.
  rewrite <- Ec. by apply IH.
Qed.

Lemma register_defaults cfg : exists svc : service,
  registerDefaultSerializers (mkService [] [] cfg) = Ok svc /\ registered svc /\ serializationConfig svc = cfg.
Proof.
  destruct cfg as [ty be cs g p]. unfold registerDefaultSerializers. cbn [serializationConfig jsonStringDeserializationPolicy].
  destruct p; (eexists; split; [vm_compute; reflexivity|]; split; [|done];
    split; unfold policy_of, findSerializerById; cbn [serializationConfig jsonStringDeserializationPolicy serializerNameToId registry];
    [intros n s Hn; unfold defaultSerializers in Hn; in_list Hn; reflexivity
    |intros n s Hn; unfold defaultSerializers in Hn; in_list Hn; reflexivity
    |intros n id Hn; left; apply (js_map_get_Some _ String.eqb_eq) in Hn; in_list Hn; by repeat first [left | right]]).
Qed.

(** A service that could be made has its default serializers, whatever custom ones were added. *)
Lemma service_registered cfg (svc : service) : newSerializationService cfg = Ok svc ->
  registered svc /\ serializationConfig svc = cfg.
Proof.
  unfold newSerializationService. destruct (register_defaults cfg) as (svc0 & -> & R0 & E0). cbn. intros E. res_inv.
  match goal with Hc : registerCustomSerializers _ _ = Ok _ |- _ => eapply register_customs_keep in Hc as [R1 E1]; [|done] end.
  rewrite E0 in E1. revert E. unfold registerGlobalSerializer. rewrite E1.
  destruct (globalSerializer cfg) as [c|]; intros E; [|by injection E as <-]. res_inv.
  eapply register_keeps in E as [R2 E2]; [|done..]. by rewrite E2.
Qed.
End Registry.

(** ** Values that are stored faithfully *)

Section Storable.
Context `{Uninit} {L : Type} `{LongLaws L} {U : Type} `{UserTypes L U} (svc : SerializationServiceV1 L U).
#[local] Abbreviation value := (js_value L U).

Definition no_global : Prop := js_map_get String.eqb (serializerNameToId svc) "!global" = None.

(** A value that no serializer but the last one takes. *)
Definition json_object (v : value) : Prop :=
  match v with
  | VObject _ => lookupCustomSerializer svc v = NotFound
  | VArray (x :: _) => exists t, getType x = Ok t /\ t ∈ ["object"; "array"; "date"; "buffer"; "uuid"]%string
  | _ => False
  end.

(** The values other than identified objects that are read back as they were written, with their serializers. *)
Inductive plain : value -> serializer L U -> Prop :=
  | plain_null : plain VNull NullSerializer
  | plain_boolean b : plain (VBoolean b) BooleanSerializer
  | plain_string s : size_ok (from_utf8 s) -> plain (VString s) StringSerializer
  | plain_long l : plain (VLong l) LongSerializer
  | plain_date t : Z.abs t <= MAX_DATE -> plain (VDate (Some t)) DateSerializer
  | plain_buffer b : size_ok b -> plain (VBuffer b) ByteArraySerializer
  | plain_uuid u : plain (VUUID u) UuidSerializer
  | plain_double x : defaultNumberType (serializationConfig svc) = "double"%string -> num_valid x ->
      plain (VNumber x) DoubleSerializer
  | plain_float x : defaultNumberType (serializationConfig svc) = "float"%string -> fround x = x ->
      plain (VNumber x) FloatSerializer
  | plain_integer z : defaultNumberType (serializationConfig svc) = "integer"%string -> in_sint 32 z ->
      plain (VNumber (num_of_Z z)) IntegerSerializer
  | plain_short z : defaultNumberType (serializationConfig svc) = "short"%string -> in_sint 16 z ->
      plain (VNumber (num_of_Z z)) ShortSerializer
  | plain_byte z : defaultNumberType (serializationConfig svc) = "byte"%string -> in_uint 8 z ->
      plain (VNumber (num_of_Z z)) ByteSerializer
  | plain_booleans l : l <> [] -> size_ok l -> plain (VArray (map VBoolean l)) BooleanArraySerializer
  | plain_strings s l : array_valid string_valid (Some (Some s :: l)) ->
      plain (VArray (map of_string (Some s :: l))) StringArraySerializer
  | plain_longs l : l <> [] -> size_ok l -> plain (VArray (map VLong l)) LongArraySerializer
  | plain_doubles l : defaultNumberType (serializationConfig svc) = "double"%string ->
      array_valid num_valid (Some l) -> plain (VArray (map VNumber l)) DoubleArraySerializer
  | plain_floats l : defaultNumberType (serializationConfig svc) = "float"%string ->
      array_valid (fun x => fround x = x) (Some l) -> plain (VArray (map VNumber l)) FloatArraySerializer
  | plain_integers l : defaultNumberType (serializationConfig svc) = "integer"%string ->
      array_valid (in_sint 32) (Some l) -> plain (VArray (map (fun z => VNumber (num_of_Z z)) l)) IntegerArraySerializer
  | plain_shorts l : defaultNumberType (serializationConfig svc) = "short"%string ->
      array_valid (in_sint 16) (Some l) -> plain (VArray (map (fun z => VNumber (num_of_Z z)) l)) ShortArraySerializer
  | plain_json v s : policy_of svc = EAGER -> no_global -> json_object v ->
      JSON_stringify v = Ok (Some s) -> JSON_parse (Some s) = Ok v -> size_ok (from_utf8 s) -> plain v JsonSerializer
  | plain_json_value s : policy_of svc = NO_DESERIALIZATION -> no_global -> size_ok (from_utf8 s) ->
      plain (VJsonValue s) HazelcastJsonValueSerializer.

(** [readData] of a user's class is the inverse of its [writeData], and its ids are registered. *)
Definition user_ok (u : U) : Prop := exists f c factory rd,
  u_identified u = Some (f, c) /\ in_sint 32 f /\ in_sint 32 c /\
  (f ∉ [PREDICATE_FACTORY_ID; RELIABLE_TOPIC_MESSAGE_FACTORY_ID; CLUSTER_DATA_FACTORY_ID; AGGREGATOR_FACTORY_ID;
    REST_VALUE_FACTORY_ID]) /\
  u_factories f = Some factory /\ factory c = Ok rd /\
  forall be, exists w, appends be (u_writeData u) w /\ reads be rd w u.

Definition predicate_ok (P : value -> Prop) (p : predicate L U) : Prop :=
  match p with
  | SqlPredicate s | InstanceOfPredicate s => string_valid s
  | AndPredicate ps | OrPredicate ps => size_ok ps /\ Forall P ps
  | BetweenPredicate field from to => string_valid field /\ P from /\ P to
  | EqualPredicate field v | NotEqualPredicate field v | GreaterLessPredicate field v _ _ => string_valid field /\ P v
  | LikePredicate s t | ILikePredicate s t | RegexPredicate s t => string_valid s /\ string_valid t
  | InPredicate field vs => string_valid field /\ size_ok vs /\ Forall P vs
  | NotPredicate q => P q
  | FalsePredicate | TruePredicate => True
  | PagingPredicate internal comparator page pageSize _ anchors =>
      P internal /\ P comparator /\ in_sint 32 page /\ in_sint 32 pageSize /\ size_ok anchors /\
      Forall (fun a => in_sint 32 a.1 /\ P a.2.1 /\ P a.2.2) anchors
  end.

(** The values that are read back as they were written, nested at most [n] deep. *)
Fixpoint storable_at (n : nat) (v : value) : Prop :=
  match n with
  | O => False
  | S n =>
      match v with
      | VPredicate p => predicate_ok (storable_at n) p
      | VAggregator _ path => string_valid path
      | VRestValue val contentType => string_valid val /\ string_valid contentType
      | VAddress host port type => string_valid host /\ in_sint 32 port /\ in_uint 8 type
      | VTopicMessage _ address payload => storable_at n address /\ data_ok payload
      | VUser u => user_ok u
      | _ => exists s, plain v s
      end
  end.

Definition storable (v : value) : Prop := exists n, storable_at n v.
End Storable.

Section PlainValues.
Context `{Uninit} {L : Type} `{LongLaws L} {U : Type} `{UserTypes L U} (svc : SerializationServiceV1 L U).
Context (R : registered svc).
#[local] Abbreviation value := (js_value L U).

#[local] Arguments findSerializerByName : simpl never.
#[local] Arguments lookupCustomSerializer : simpl never.

(** A search by a name that is registered. *)
Lemma by_name n s (arr : bool) name : (name, s) ∈ defaultSerializers (policy_of svc) ->
  (if String.eqb n "number" then defaultNumberType (serializationConfig svc)
   else if String.eqb n "buffer" then "byteArray"%string else n) +:+ (if arr then "Array" else "") = name ->
  findSerializerByName svc n arr = Found s.
Proof.
  intros Hin Hn. unfold findSerializerByName. rewrite Hn, (reg_name _ R _ _ Hin). by rewrite (reg_id _ R _ _ Hin).
Qed.

(** A search by a name that is not. *)
Lemma by_no_name n (arr : bool) : (forall r, n +:+ (if arr then "Array" else "") <> String "!"%char r) ->
  String.eqb n "number" = false -> String.eqb n "buffer" = false ->
  n +:+ (if arr then "Array" else "") ∉ (defaultSerializers (L := L) (U := U) (policy_of svc)).*1 ->
  findSerializerByName svc n arr = NotFound.
Proof.
  intros Hb E1 E2 Hn. unfold findSerializerByName. rewrite E1, E2.
  destruct (js_map_get _ _ _) as [id|] eqn:E; [|done].
  apply (reg_other _ R) in E as [E|[r E]]; [done|]. by destruct (Hb r).
Qed.

Lemma find_json (v : value) s : no_global svc -> json_object svc v ->
  ("!json"%string, s) ∈ defaultSerializers (policy_of svc) -> findSerializerFor svc v = Ok s.
Proof.
  intros Hg Hj Hs. assert (findSerializerByName svc "!global" false = NotFound) as Eg
    by (unfold findSerializerByName; cbn; by rewrite Hg).
  assert (findSerializerByName svc "!json" false = Found s) as Ej by (by eapply by_name).
  destruct v as [| | | | | | | | | |[|x l]| |fields| | | | | | |]; try done.
  - destruct Hj as (t & Et & Ht).
    assert (lookupDefaultSerializer svc (VArray (x :: l)) = Ok NotFound) as El.
    { unfold lookupDefaultSerializer. cbn. rewrite Et. cbn. f_equal.
      assert (findSerializerByName svc "buffer" true = NotFound) as Eb.
      { unfold findSerializerByName. cbn.
        destruct (js_map_get _ _ _) as [id|] eqn:E; [|done]. apply (reg_other _ R) in E as [E|[r E]]; [|done].
        exfalso. clear -E. cbn in E. repeat (apply elem_of_cons in E as [E|E]; [done|]). by apply not_elem_of_nil in E. }
      repeat (apply elem_of_cons in Ht as [->|Ht]; [first [exact Eb | apply by_no_name; [done..|]; cbn;
        intros E; repeat (apply elem_of_cons in E as [E|E]; [done|]); by apply not_elem_of_nil in E]|]).
      by apply not_elem_of_nil in Ht. }
    unfold findSerializerFor. rewrite El. cbn. rewrite Eg, Ej. done.
  - assert (lookupDefaultSerializer svc (VObject fields) = Ok NotFound) as El.
    { unfold lookupDefaultSerializer. cbn. f_equal. apply by_no_name; [done..|]. cbn.
      intros E. repeat (apply elem_of_cons in E as [E|E]; [done|]). by apply not_elem_of_nil in E. }
    unfold findSerializerFor. rewrite El. cbn [mbind res_bind or_else]. cbn in Hj. rewrite Hj. cbn. rewrite Eg, Ej. done.
Qed.

(** Runs [findSerializerFor] on a value whose type is named [n], registered with [s] under [name]. *)
Ltac found n s name := unfold findSerializerFor, lookupDefaultSerializer; cbn;
  rewrite (by_name n s _ name); [done | in_defaults | cbn; try match goal with E : defaultNumberType _ = _ |- _ => rewrite E end; reflexivity].

Lemma plain_find v s : plain svc v s -> findSerializerFor svc v = Ok s.
Proof.
  intros Hp. destruct Hp as [|b|s Hs|l|t Ht|b Hb|u|x E Hx|x E Hx|z E Hz|z E Hz|z E Hz|l Hl Hs|s l Hl|l Hl Hs|l E Hl|l E Hl
    |l E Hl|l E Hl|v s Ep Hg Hj _ _ _|s Ep Hg Hs].
  - found "null"%string (@NullSerializer L U) "null"%string.
  - found "boolean"%string (@BooleanSerializer L U) "boolean"%string.
  - found "string"%string (@StringSerializer L U) "string"%string.
  - found "long"%string (@LongSerializer L U) "long"%string.
  - found "date"%string (@DateSerializer L U) "date"%string.
  - found "buffer"%string (@ByteArraySerializer L U) "byteArray"%string.
  - found "uuid"%string (@UuidSerializer L U) "uuid"%string.
  - found "number"%string (@DoubleSerializer L U) "double"%string.
  - found "number"%string (@FloatSerializer L U) "float"%string.
  - found "number"%string (@IntegerSerializer L U) "integer"%string.
  - found "number"%string (@ShortSerializer L U) "short"%string.
  - found "number"%string (@ByteSerializer L U) "byte"%string.
  - destruct l; [done|]. found "boolean"%string (@BooleanArraySerializer L U) "booleanArray"%string.
  - found "string"%string (@StringArraySerializer L U) "stringArray"%string.
  - destruct l; [done|]. found "long"%string (@LongArraySerializer L U) "longArray"%string.
  - destruct l; found "number"%string (@DoubleArraySerializer L U) "doubleArray"%string.
  - destruct l; found "number"%string (@FloatArraySerializer L U) "floatArray"%string.
  - destruct l; found "number"%string (@IntegerArraySerializer L U) "integerArray"%string.
  - destruct l; found "number"%string (@ShortArraySerializer L U) "shortArray"%string.
  - apply find_json; [done..|]. rewrite Ep. in_defaults.
  - unfold findSerializerFor, lookupDefaultSerializer. cbn.
    rewrite (by_no_name "object" false); [|by intros r|done..|cbn; intros E; repeat (apply elem_of_cons in E as [E|E]; [done|]); by apply not_elem_of_nil in E].
    cbn. replace (findSerializerByName svc "!global" false) with (NotFound (L := L) (U := U))
      by (unfold findSerializerByName; cbn; by rewrite Hg). cbn.
    rewrite (by_name "!json" HazelcastJsonValueSerializer _ "!json"); [done | | done]. rewrite Ep. in_defaults.
Qed.

(** A writer that agrees with another on the valid values. *)
Lemma codec_ext {A} (valid : A -> Prop) wr wr' rd : DataCodec valid wr rd ->
  (forall a o, valid a -> wr' a o = wr a o) -> DataCodec valid wr' rd.
Proof.
  intros C E be a Ha. destruct (C be a Ha) as (w & Hw & Hr). exists w. split; [|done].
  intros o Ho Hb. rewrite E by done. by apply Hw.
Qed.

Lemma each_map {A B} (f : A -> B) (func : B -> Out) l : forall o,
  Output.each func (map f l) o = Output.each (fun x => func (f x)) l o.
Proof. induction l as [|x l IH]; intros o; cbn; [done|]. destruct (func (f x) o); cbn; [apply IH | done]. Qed.

Lemma writeArray_map {A B} (f : A -> B) (func : B -> Out) l o :
  Output.writeArray func (Some (map f l)) o = Output.writeArray (fun x => func (f x)) (Some l) o.
Proof.
  unfold Output.writeArray. cbn [Output.array_length]. rewrite length_map.
  destruct (Output.writeInt _ o); cbn; [|done]. destruct (_ >? 0); [apply each_map | done].
Qed.

(** An array of values that are images of [A]. *)
Lemma plain_array {A} (f : A -> value) valid (wr : value -> Out) (rd : Reader A) s l be :
  DataCodec valid (fun x => wr (f x)) rd -> array_valid valid (Some l) ->
  (forall o, write_plain s (VArray (map f l)) o = write_array wr (VArray (map f l)) o) ->
  read_plain s = rmap (of_array f) (Input.readArray rd None) ->
  exists w, appends be (write_plain s (VArray (map f l))) w /\ reads be (read_plain s) w (VArray (map f l)).
Proof.
  intros C Hl Ew Er. destruct (codec_array _ _ _ C be (Some l) Hl) as (w & Hw & Hr & _). exists w. split.
  - intros o Ho Hb. rewrite Ew. unfold write_array. rewrite writeArray_map. by apply Hw.
  - rewrite Er. exact (reads_map be (of_array f) _ w (Some l) Hr).
Qed.

Lemma check_sint n z : (0 < n <= 32) -> in_sint n z -> check_int (- 2 ^ (n - 1)) (2 ^ (n - 1) - 1) (num_of_Z z) = Ok z.
Proof.
  unfold in_sint. intros Hn Hz. pose proof (Z.pow_le_mono_r 2 (n - 1) 31 ltac:(lia) ltac:(lia)).
  apply check_int_of_Z; lia.
Qed.

#[local] Instance codec_int_value : DataCodec (in_sint 32) (fun z => write_int (VNumber (num_of_Z z) : value)) (Input.readInt None).
Proof.
  eapply codec_ext; [apply _|]. intros z o Hz. unfold write_int. cbn [to_number].
  pose proof (check_sint 32 z ltac:(lia) Hz) as E. change (32 - 1) with 31 in E. by rewrite E.
Qed.

#[local] Instance codec_short_value : DataCodec (in_sint 16) (fun z => write_short (VNumber (num_of_Z z) : value)) (Input.readShort None).
Proof.
  eapply codec_ext; [apply _|]. intros z o Hz. unfold write_short. cbn [to_number].
  pose proof (check_sint 16 z ltac:(lia) Hz) as E. change (16 - 1) with 15 in E. by rewrite E.
Qed.

#[local] Instance codec_string_value : DataCodec string_valid (fun x => write_string (of_string x : value)) (Input.readString None).
Proof. eapply codec_ext; [apply _|]. by intros [s|] o Hs. Qed.

Lemma plain_codec v s be : plain svc v s ->
  exists w, appends be (write_plain s v) w /\ reads be (read_plain s) w v.
Proof.
  intros Hp. destruct Hp as [|b|s Hs|l|t Ht|b Hb|u|x E Hx|x E Hx|z E Hz|z E Hz|z E Hz|l Hl Hs|s l Hl|l Hl Hs|l E Hl|l E Hl
    |l E Hl|l E Hl|v s Ep Hg Hj Es Epa Hs|s Ep Hg Hs].
  - exists []. split; [apply appends_nil | apply reads_ret].
  - destruct (data_spec be b I) as (w & Hw & Hr). exists w. split; [exact Hw | exact (reads_map be VBoolean _ w _ Hr)].
  - destruct (codec_string be (Some s)) as (w & Hw & Hr & _); [split; [done | by apply Forall_true]|].
    exists w. split; [exact Hw | exact (reads_map be of_string _ w _ Hr)].
  - destruct (codec_long be l I) as (w & Hw & Hr & _). exists w. split; [exact Hw | exact (reads_map be VLong _ w _ Hr)].
  - destruct (codec_long be (long_of_Z t : L) I) as (w & Hw & Hr & _). exists w. split; [exact Hw|].
    replace (VDate (Some t)) with (of_time (L := L) (U := U) (long_val (long_of_Z t : L)));
      [exact (reads_map be (fun l : L => of_time (long_val l)) _ w _ Hr)|].
    unfold of_time, MAX_DATE in *. rewrite long_val_of_Z by (unfold in_sint; lia). by rewrite (proj2 (Z.leb_le _ _)).
  - destruct (codec_byte_array be (Some b)) as (w & Hw & Hr & _); [split; [done | by apply Forall_true]|].
    exists w. split; [exact Hw | exact (reads_map be (of_option VBuffer) _ w _ Hr)].
  - destruct (codec_long be (mostSignificant u) I) as (w1 & Hw1 & Hr1 & _).
    destruct (codec_long be (leastSignificant u) I) as (w2 & Hw2 & Hr2 & _). exists (w1 ++ w2). split.
    + apply (appends_bind be _ _ _ _ Hw1 Hw2).
    + destruct u as [m l]. eapply reads_bind; [exact Hr1|]. exact (reads_map be (fun l => VUUID (mkUUID m l)) _ w2 _ Hr2).
  - destruct (codec_double be x Hx) as (w & Hw & Hr & _). exists w. split; [exact Hw | exact (reads_map be VNumber _ w _ Hr)].
  - destruct (codec_float be x Hx) as (w & Hw & Hr & _). exists w. split; [exact Hw | exact (reads_map be VNumber _ w _ Hr)].
  - destruct (codec_int_value be z Hz) as (w & Hw & Hr). exists w.
    split; [exact Hw | exact (reads_map be (fun z => VNumber (num_of_Z z)) _ w _ Hr)].
  - destruct (codec_short_value be z Hz) as (w & Hw & Hr). exists w.
    split; [exact Hw | exact (reads_map be (fun z => VNumber (num_of_Z z)) _ w _ Hr)].
  - destruct (codec_byte be z Hz) as (w & Hw & Hr & _). exists w. split; [|exact (reads_map be (fun z => VNumber (num_of_Z z)) _ w _ Hr)].
    intros o Ho Hbe. cbn [write_plain write_byte to_number]. unfold to_int. rewrite num_of_Z_trunc; [by apply Hw|].
    unfold in_uint in Hz. lia.
  - apply (plain_array VBoolean (fun _ => True) (fun x => Output.writeBoolean (truthy x)) (Input.readBoolean None));
      [apply (codec_of_at _ _ _ codec_boolean) | split; [done | by apply Forall_true] | done..].
  - by apply (plain_array of_string string_valid write_string (Input.readString None)); [apply _|..].
  - apply (plain_array VLong (fun _ => True) write_long (Input.readLong None));
      [apply (codec_of_at _ _ _ codec_long) | split; [done | by apply Forall_true] | done..].
  - by apply (plain_array VNumber num_valid (fun x => Output.writeDouble (to_number x)) (Input.readDouble None));
      [apply (codec_of_at _ _ _ codec_double)|..].
  - by apply (plain_array VNumber (fun x => fround x = x) (fun x => Output.writeFloat (to_number x)) (Input.readFloat None));
      [apply (codec_of_at _ _ _ codec_float)|..].
  - by apply (plain_array (fun z => VNumber (num_of_Z z)) (in_sint 32) write_int (Input.readInt None)); [apply _|..].
  - by apply (plain_array (fun z => VNumber (num_of_Z z)) (in_sint 16) write_short (Input.readShort None)); [apply _|..].
  - destruct (codec_string be (Some s)) as (w & Hw & Hr & _); [split; [done | by apply Forall_true]|].
    exists w. split.
    + intros o Ho Hb. destruct v; try done; cbn [write_plain]; rewrite Es; by apply Hw.
    + intros i Hb Hi. cbn [read_plain]. rewrite Hr by done. cbn. by rewrite Epa.
  - destruct (codec_string be (Some s)) as (w & Hw & Hr & _); [split; [done | by apply Forall_true]|].
    exists w. split; [exact Hw|]. intros i Hb Hi. cbn [read_plain]. by rewrite Hr.
Qed.
End PlainValues.

Section Roundtrip.
Context `{Uninit} {L : Type} `{LongLaws L} {U : Type} `{UserTypes L U} (svc : SerializationServiceV1 L U).
Context (R : registered svc).
#[local] Abbreviation value := (js_value L U).

(** The bytes of an object, which are read back with fuel for as many nested objects as there are bytes. *)
Definition object_bytes (be : bool) (v : value) (w : buffer) : Prop :=
  appends be (writeObject svc v) w /\ (4 <= length w)%nat /\
  forall fuel, (length w <= fuel)%nat -> reads be (readObject svc fuel) w v.

Definition stored (v : value) : Prop := forall be, exists w, object_bytes be v w.

(** What [toData] and [writeObject] need of a value: its serializer, and the bytes after the type id. *)
Definition serialized (v : value) : Prop := exists s,
  findSerializerFor svc v = Ok s /\ findSerializerById svc (serializer_id s) = Some s /\ in_sint 32 (serializer_id s) /\
  forall be, exists w, appends be (serializer_write svc s v) w /\
    forall fuel, (length w <= fuel)%nat -> reads be (serializer_read (readObject svc fuel) s) w v.

Lemma serialized_stored v : serialized v -> stored v.
Proof.
  intros (s & Ef & Ei & Hi & Hs) be. destruct (Hs be) as (w & Hw & Hr).
  destruct (codec_int be (serializer_id s) Hi) as (wi & Hwi & Hri & _). apply reads_int_length in Hri as Hlen.
  exists (wi ++ w). split_and!.
  - intros o Ho Hb. unfold writeObject, write_object. rewrite Ef, res_bind_ok. by apply (appends_bind be _ _ wi w Hwi Hw).
  - rewrite length_app. lia.
  - intros fuel Hf. rewrite length_app in Hf. destruct fuel as [|fuel]; [lia|]. cbn [readObject].
    eapply reads_bind; [exact Hri|]. rewrite Ei. apply Hr. lia.
Qed.

Lemma objects_bytes be l : Forall stored l -> exists w,
  appends be (Output.each (writeObject svc) l) w /\
  forall fuel, (length w <= fuel)%nat -> reads be (Input.read_loop (length l) (readObject svc fuel)) w l.
Proof.
  induction 1 as [|v l Hv _ (w2 & Hw2 & Hr2)].
  - exists []. split; [apply appends_nil | intros; apply reads_ret].
  - destruct (Hv be) as (w1 & Hw1 & _ & Hr1). exists (w1 ++ w2). split.
    + by apply (appends_bind be (writeObject svc v) _).
    + intros fuel Hf. rewrite length_app in Hf. cbn [length Input.read_loop].
      eapply reads_bind; [apply Hr1; lia|]. apply (reads_map be (cons v)). apply Hr2. lia.
Qed.

(** The loops that read as many objects as an integer before them says. *)
Lemma sized_objects be l : size_ok l -> Forall stored l -> exists w,
  appends be (fun o => o ← Output.writeInt (Z.of_nat (length l)) o; Output.each (writeObject svc) l o) w /\
  forall fuel, (length w <= fuel)%nat -> reads be (read_objects (readObject svc fuel)) w l.
Proof.
  intros Hs Hl. destruct (objects_bytes be l Hl) as (w & Hw & Hr).
  destruct (codec_int be (Z.of_nat (length l))) as (wi & Hwi & Hri & _); [unfold in_sint, size_ok in *; lia|].
  exists (wi ++ w). split; [by apply (appends_bind be _ _ wi w)|].
  intros fuel Hf. rewrite length_app in Hf. eapply reads_bind; [exact Hri|]. rewrite Nat2Z.id. apply Hr. lia.
Qed.

Lemma anchors_bytes be (l : list (Z * (value * value))) :
  Forall (fun a => in_sint 32 a.1 /\ stored a.2.1 /\ stored a.2.2) l -> exists w,
  appends be (Output.each (fun a o => o ← Output.writeInt a.1 o; o ← writeObject svc a.2.1 o; writeObject svc a.2.2 o) l) w /\
  forall fuel, (length w <= fuel)%nat -> reads be (Input.read_loop (length l) (read_anchor (readObject svc fuel))) w l.
Proof.
  induction 1 as [|[p [k v]] l (Hp & Hk & Hv) _ (w2 & Hw2 & Hr2)].
  - exists []. split; [apply appends_nil | intros; apply reads_ret].
  - destruct (codec_int be p Hp) as (wp & Hwp & Hrp & _). destruct (Hk be) as (wk & Hwk & _ & Hrk).
    destruct (Hv be) as (wv & Hwv & _ & Hrv). exists ((wp ++ wk ++ wv) ++ w2). split.
    + apply (appends_bind be _ _ _ _ (appends_bind be _ _ _ _ Hwp (appends_bind be _ _ _ _ Hwk Hwv)) Hw2).
    + intros fuel Hf. rewrite !length_app in Hf. cbn [length Input.read_loop]. eapply reads_bind.
      * eapply reads_bind; [exact Hrp|]. eapply reads_bind; [apply Hrk; lia|].
        apply (reads_map be (fun v => (p, (k, v)))). apply Hrv. lia.
      * apply (reads_map be (cons (p, (k, v)))). apply Hr2. lia.
Qed.

(** One string, and two strings one after the other. *)
Lemma string_bytes be s : string_valid s -> exists w,
  appends be (Output.writeString s) w /\ reads be (Input.readString None) w s.
Proof. intros Hs. destruct (codec_string be s Hs) as (w & Hw & Hr & _). eauto. Qed.

Lemma iteration_name_inv t : iteration_of_name (iteration_name <$> t) = t.
Proof. by destruct t as [[]|]. Qed.

Lemma iteration_name_valid t : string_valid (iteration_name <$> t).
Proof. destruct t as [[]|]; cbn; unfold size_ok; cbn; split_and?; (lia || done || by apply Forall_true). Qed.

(** Runs the binds of a writer, and of a reader whose parts are known to read. *)
Ltac object_writes := repeat (eapply appends_bind; [eassumption|]); eassumption.
Ltac object_reads :=
  let fuel := fresh "fuel" in let Hf := fresh "Hf" in intros fuel Hf; rewrite ?length_app in Hf;
  repeat (eapply reads_bind; [first [eassumption | match goal with Hr : forall f, _ -> reads _ _ ?w _ |- reads _ _ ?w _ => apply Hr; lia end
    | match goal with Hr : forall f, _ -> reads _ _ _ _ |- _ => apply Hr; lia end]|]).

Lemma two_strings be s t (p : predicate L U) (mk : option string -> option string -> predicate L U) :
  string_valid s /\ string_valid t -> p = mk s t ->
  (forall o, writePredicate svc p o = (o ← Output.writeString s o; Output.writeString t o)) ->
  (forall rd i, read_predicate rd (predicate_classId p) i =
     ('(s, i) ← Input.readString None i; '(t, i) ← Input.readString None i; Ok (mk s t, i))) ->
  exists w, appends be (writePredicate svc p) w /\
  forall fuel, (length w <= fuel)%nat -> reads be (read_predicate (readObject svc fuel) (predicate_classId p)) w p.
Proof.
  intros [Hs Ht] -> Ew Er. destruct (string_bytes be s Hs) as (w1 & Hw1 & Hr1), (string_bytes be t Ht) as (w2 & Hw2 & Hr2).
  exists (w1 ++ w2). split.
  - intros o Ho Hb. rewrite Ew. exact (appends_bind be _ _ _ _ Hw1 Hw2 o Ho Hb).
  - intros fuel _ i Hb Hi. rewrite Er. revert i Hb Hi. change (reads be (fun i =>
      '(s, i) ← Input.readString None i; '(t, i) ← Input.readString None i; Ok (mk s t, i)) (w1 ++ w2) (mk s t)).
    eapply reads_bind; [exact Hr1|]. exact (reads_map be (mk s) _ w2 _ Hr2).
Qed.

Lemma predicate_bytes be (p : predicate L U) : predicate_ok stored p -> exists w,
  appends be (writePredicate svc p) w /\
  forall fuel, (length w <= fuel)%nat -> reads be (read_predicate (readObject svc fuel) (predicate_classId p)) w p.
Proof.
  destruct p as [sql|ps|f v1 v2|f v|f v b1 b2|f e|f e|f vs|c|f v|q|ps|f e| | |q c pg sz it an]; intros Hp; cbn [predicate_ok] in Hp;
    cbn [predicate_classId].
  - destruct (string_bytes be sql Hp) as (w & Hw & Hr). exists w. split; [exact Hw|]. intros fuel _.
    exact (reads_map be SqlPredicate _ w _ Hr).
  - destruct Hp as [Hs Hl]. destruct (sized_objects be ps Hs Hl) as (w & Hw & Hr). exists w. split; [exact Hw|].
    intros fuel Hf. exact (reads_map be AndPredicate _ w _ (Hr fuel Hf)).
  - destruct Hp as (Hs & H1' & H2'). destruct (string_bytes be f Hs) as (w & Hw & Hr).
    destruct (H1' be) as (w1 & Hw1 & _ & Hr1), (H2' be) as (w2 & Hw2 & _ & Hr2). exists (w ++ w2 ++ w1). split; [object_writes|].
    object_reads. apply (reads_map be (fun v => BetweenPredicate f v v2)). apply Hr1. lia.
  - destruct Hp as [Hs Hv]. destruct (string_bytes be f Hs) as (w & Hw & Hr). destruct (Hv be) as (w1 & Hw1 & _ & Hr1).
    exists (w ++ w1). split; [object_writes|]. object_reads. apply (reads_map be (EqualPredicate f)). apply Hr1. lia.
  - destruct Hp as [Hs Hv]. destruct (string_bytes be f Hs) as (w & Hw & Hr). destruct (Hv be) as (w1 & Hw1 & _ & Hr1).
    destruct (codec_boolean be b1 I) as (w2 & Hw2 & Hr2 & _), (codec_boolean be b2 I) as (w3 & Hw3 & Hr3 & _).
    exists (w ++ w1 ++ w2 ++ w3). split; [object_writes|]. object_reads.
    exact (reads_map be (GreaterLessPredicate f v b1) _ w3 _ Hr3).
  - by apply (two_strings be f e (LikePredicate f e) LikePredicate).
  - by apply (two_strings be f e (ILikePredicate f e) ILikePredicate).
  - destruct Hp as (Hs & Hz & Hl). destruct (string_bytes be f Hs) as (w & Hw & Hr).
    destruct (sized_objects be vs Hz Hl) as (w1 & Hw1 & Hr1). exists (w ++ w1). split; [exact (appends_bind be _ _ _ _ Hw Hw1)|].
    object_reads. apply (reads_map be (InPredicate f)). apply Hr1. lia.
  - destruct (string_bytes be c Hp) as (w & Hw & Hr). exists w. split; [exact Hw|]. intros fuel _.
    exact (reads_map be InstanceOfPredicate _ w _ Hr).
  - destruct Hp as [Hs Hv]. destruct (string_bytes be f Hs) as (w & Hw & Hr). destruct (Hv be) as (w1 & Hw1 & _ & Hr1).
    exists (w ++ w1). split; [object_writes|]. object_reads. apply (reads_map be (NotEqualPredicate f)). apply Hr1. lia.
  - destruct (Hp be) as (w & Hw & _ & Hr). exists w. split; [exact Hw|]. intros fuel Hf.
    exact (reads_map be NotPredicate _ w _ (Hr fuel Hf)).
  - destruct Hp as [Hs Hl]. destruct (sized_objects be ps Hs Hl) as (w & Hw & Hr). exists w. split; [exact Hw|].
    intros fuel Hf. exact (reads_map be OrPredicate _ w _ (Hr fuel Hf)).
  - by apply (two_strings be f e (RegexPredicate f e) RegexPredicate).
  - exists []. split; [apply appends_nil | intros; apply reads_ret].
  - exists []. split; [apply appends_nil | intros; apply reads_ret].
  - destruct Hp as (Hq & Hc & Hpg & Hsz & Hn & Han). destruct (Hq be) as (w1 & Hw1 & _ & Hr1), (Hc be) as (w2 & Hw2 & _ & Hr2).
    destruct (codec_int be pg Hpg) as (w3 & Hw3 & Hr3 & _), (codec_int be sz Hsz) as (w4 & Hw4 & Hr4 & _).
    destruct (string_bytes be _ (iteration_name_valid it)) as (w5 & Hw5 & Hr5).
    destruct (codec_int be (Z.of_nat (length an))) as (w6 & Hw6 & Hr6 & _); [unfold in_sint, size_ok in *; lia|].
    destruct (anchors_bytes be an Han) as (w7 & Hw7 & Hr7).
    exists (w1 ++ w2 ++ w3 ++ w4 ++ w5 ++ w6 ++ w7). split; [object_writes|]. object_reads.
    rewrite iteration_name_inv. apply (reads_map be (PagingPredicate q c pg sz it)). rewrite Nat2Z.id. apply Hr7. lia.
Qed.

Lemma default_serializer n s : (n, s) ∈ defaultSerializers (policy_of svc) ->
  findSerializerById svc (serializer_id s) = Some s /\ in_sint 32 (serializer_id s).
Proof.
  intros Hn. split; [by eapply reg_id|]. unfold defaultSerializers in Hn. in_list Hn; 
    try (destruct (policy_of svc)); unfold in_sint; cbn; unfold NULL_TYPE_ID; lia.
Qed.

Lemma plain_default v s : plain svc v s -> exists n, (n, s) ∈ defaultSerializers (policy_of svc).
Proof.
  intros Hp. destruct Hp; try (eexists; by in_defaults).
  - exists "!json"%string. match goal with E : policy_of svc = EAGER |- _ => rewrite E end. in_defaults.
  - exists "!json"%string. match goal with E : policy_of svc = _ |- _ => rewrite E end. in_defaults.
Qed.

Lemma plain_serialized v s : plain svc v s -> serialized v.
Proof.
  intros Hp. destruct (plain_default v s Hp) as (n & Hn). destruct (default_serializer n s Hn) as [Hi Hr].
  exists s. split_and!; [by apply plain_find | done | done |]. intros be.
  destruct (plain_codec svc v s be Hp) as (w & Hw & Hrd). exists w.
  assert (forall o, serializer_write svc s v o = write_plain s v o) as Ew by (intros o; destruct Hp; try done; by destruct v).
  assert (forall rd i, serializer_read rd s i = read_plain s i) as Er by (by destruct Hp).
  split; [intros o Ho Hb; rewrite Ew; by apply Hw|]. intros fuel _ i Hb Hw'. rewrite Er. by apply Hrd.
Qed.

(** An identified object: the flag, the ids, and what its [writeData] writes. *)
Lemma identified_serialized v f c (body : Out) :
  isIdentifiedDataSerializable v = true -> identified_ids v = Some (f, c) -> in_sint 32 f -> in_sint 32 c ->
  (forall o, serializer_write svc IdentifiedDataSerializableSerializer v o =
     (o ← Output.writeBoolean true o; o ← Output.writeInt f o; o ← Output.writeInt c o; body o)) ->
  (forall be, exists w, appends be body w /\
     forall fuel, (length w <= fuel)%nat -> reads be (read_identified (readObject svc fuel) f c) w v) ->
  serialized v.
Proof.
  intros Hid Eid Hf Hc Ew Hb. exists IdentifiedDataSerializableSerializer.
  assert (("identified"%string, @IdentifiedDataSerializableSerializer L U) ∈ defaultSerializers (policy_of svc)) as Hin by in_defaults.
  destruct (default_serializer _ _ Hin) as [Hi Hr]. split_and!; [|done|done|].
  - assert (lookupDefaultSerializer svc v = Ok (Found IdentifiedDataSerializableSerializer)) as El.
    { unfold lookupDefaultSerializer. rewrite Hid. f_equal. by apply (by_name svc R _ _ _ "identified"%string). }
    unfold findSerializerFor. rewrite El. by destruct v.
  - intros be. destruct (Hb be) as (w & Hw & Hrd).
    destruct (codec_boolean be true I) as (w1 & Hw1 & Hr1 & _), (codec_int be f Hf) as (w2 & Hw2 & Hr2 & _),
      (codec_int be c Hc) as (w3 & Hw3 & Hr3 & _).
    exists (w1 ++ w2 ++ w3 ++ w). split.
    + intros o Ho Hbe. rewrite Ew. revert o Ho Hbe.
      change (appends be (fun o => o ← Output.writeBoolean true o; o ← Output.writeInt f o; o ← Output.writeInt c o; body o)
        (w1 ++ w2 ++ w3 ++ w)). object_writes.
    + intros fuel Hfu. rewrite !length_app in Hfu. cbn [serializer_read]. eapply reads_bind; [exact Hr1|]. cbn iota.
      eapply reads_bind; [exact Hr2|]. eapply reads_bind; [exact Hr3|]. apply Hrd. lia.
Qed.

Lemma null_bytes : stored VNull.
Proof. eapply serialized_stored, plain_serialized, plain_null. Qed.

Lemma fields_bytes be (fs : list member_field) : exists w,
  appends be (Output.each (write_field svc) fs) w /\
  forall fuel, (length w <= fuel)%nat -> reads be (read_fields (readObject svc fuel) fs) w ().
Proof.
  induction fs as [|f fs (w2 & Hw2 & Hr2)]; [exists []; split; [apply appends_nil | intros; apply reads_ret]|].
  assert (exists w, appends be (write_field svc f) w /\
    forall fuel, (length w <= fuel)%nat -> reads be (read_field (readObject svc fuel) f) w ()) as (w1 & Hw1 & Hr1).
  { destruct f.
    - destruct (codec_double be (num_of_Z 0) eq_refl) as (w & Hw & Hr & _). exists w. split; [exact Hw|].
      intros fuel _. exact (reads_map be (fun _ => ()) _ w _ Hr).
    - destruct (codec_long be (long_of_Z 0 : L) I) as (w & Hw & Hr & _). exists w. split; [exact Hw|].
      intros fuel _. exact (reads_map be (fun _ => ()) _ w _ Hr).
    - destruct (null_bytes be) as (w & Hw & _ & Hr). exists w. split; [|intros fuel Hf; exact (reads_map be (fun _ => ()) _ w _ (Hr fuel Hf))].
      intros o Ho Hb. destruct (Hw o Ho Hb) as (o' & E & Hrest). exists o'. split; [|done]. rewrite <- E.
      unfold write_field, write_null, writeObject, write_object. by rewrite (plain_find svc R _ _ (plain_null svc)). }
  exists (w1 ++ w2). split; [exact (appends_bind be _ _ _ _ Hw1 Hw2)|].
  intros fuel Hf. rewrite length_app in Hf. cbn [read_fields]. eapply reads_bind; [apply Hr1; lia|]. apply Hr2. lia.
Qed.

Lemma aggregator_class_inv c : aggregator_of_classId (aggregator_classId c) = Ok c.
Proof. by destruct c. Qed.

Lemma predicate_ok_impl (P Q : value -> Prop) p : (forall v, P v -> Q v) -> predicate_ok P p -> predicate_ok Q p.
Proof.
  intros HPQ. destruct p; cbn; intros; repeat match goal with Hp : _ /\ _ |- _ => destruct Hp end; split_and?; eauto;
    (eapply Forall_impl; [eassumption|]; first [done | intros ? (? & ? & ?); auto]).
Qed.

Lemma storable_serialized n : forall v, storable_at svc n v -> serialized v.
Proof.
  induction n as [|n IH]; [done|]. intros v Hv.
  assert (forall v, storable_at svc n v -> stored v) as IH' by (intros; by apply serialized_stored, IH).
  destruct v as [| |b|x|s|ch|l|t|b|u|l|s|fs|d|p|c path|a b|h port ty|t a d|u]; cbn [storable_at] in Hv;
    try (destruct Hv as [s' Hp]; by eapply plain_serialized).
  - eapply (identified_serialized _ _ _ (writePredicate svc p)); [done | done | done | | done |].
    + unfold in_sint. destruct p; cbn; lia.
    + intros be. destruct (predicate_bytes be p) as (w & Hw & Hr); [by eapply predicate_ok_impl|].
      exists w. split; [done|]. intros fuel Hf. apply (reads_map be VPredicate). by apply Hr.
  - eapply (identified_serialized _ _ _ (fun o => o ← Output.writeString path o; Output.each (write_field svc) (aggregator_fields c) o));
      [done | done | done | | done |].
    + unfold in_sint. destruct c; cbn; lia.
    + intros be. destruct (string_bytes be path Hv) as (w1 & Hw1 & Hr1). destruct (fields_bytes be (aggregator_fields c)) as (w2 & Hw2 & Hr2).
      exists (w1 ++ w2). split; [object_writes|]. intros fuel Hf. rewrite length_app in Hf.
      intros i Hbe Hi. unfold read_identified. cbn. rewrite aggregator_class_inv. cbn. revert i Hbe Hi. eapply reads_bind; [exact Hr1|].
      apply (reads_map be (fun _ => VAggregator c path) _ _ ()). apply Hr2. lia.
  - destruct Hv as [Ha Hb]. eapply (identified_serialized _ _ _ (fun o => o ← Output.writeString a o; Output.writeString b o));
      [done | done | done | done | done |].
    intros be. destruct (string_bytes be a Ha) as (w1 & Hw1 & Hr1), (string_bytes be b Hb) as (w2 & Hw2 & Hr2).
    exists (w1 ++ w2). split; [object_writes|]. intros fuel Hf. eapply reads_bind; [exact Hr1|]. exact (reads_map be (VRestValue a) _ w2 _ Hr2).
  - destruct Hv as (Hh & Hp & Ht).
    eapply (identified_serialized _ _ _ (fun o => o ← Output.writeInt port o; o ← Output.writeByte ty o; Output.writeString h o));
      [done | done | done | done | done |].
    intros be. destruct (codec_int be port Hp) as (w1 & Hw1 & Hr1 & _), (codec_byte be ty Ht) as (w2 & Hw2 & Hr2 & _),
      (string_bytes be h Hh) as (w3 & Hw3 & Hr3).
    exists (w1 ++ w2 ++ w3). split; [object_writes|]. intros fuel Hf. eapply reads_bind; [exact Hr1|]. eapply reads_bind; [exact Hr2|].
    exact (reads_map be (fun h => VAddress h port ty) _ w3 _ Hr3).
  - destruct Hv as [Ha Hd].
    eapply (identified_serialized _ _ _ (fun o => o ← Output.writeLong t o; o ← writeObject svc a o; Output.writeData d o));
      [done | done | done | done | done |].
    intros be. destruct (codec_long be t I) as (w1 & Hw1 & Hr1 & _), (IH' a Ha be) as (w2 & Hw2 & _ & Hr2),
      (codec_data be d Hd) as (w3 & Hw3 & Hr3).
    exists (w1 ++ w2 ++ w3). split; [object_writes|]. intros fuel Hf. rewrite !length_app in Hf.
    eapply reads_bind; [exact Hr1|]. eapply reads_bind; [apply Hr2; lia|]. exact (reads_map be (VTopicMessage t a) _ w3 _ Hr3).
  - destruct Hv as (f & c & factory & rd & Eid & Hf & Hc & Hn & Ef & Ec & Hb).
    eapply (identified_serialized _ f c (u_writeData u)); [cbn; by rewrite Eid | done | done | done | intros o; cbn; by rewrite Eid |].
    intros be. destruct (Hb be) as (w & Hw & Hr). exists w. split; [done|]. intros fuel _ i Hbe Hi.
    unfold read_identified. rewrite !not_elem_of_cons in Hn. destruct Hn as (N1 & N2 & N3 & N4 & N5 & _).
    rewrite !(proj2 (Z.eqb_neq _ _)) by done. rewrite Ef, Ec. cbn. by apply (reads_map be VUser).
Qed.
End Roundtrip.

(** ** toData *)

Lemma getPartitionHash_range d h : HeapData.getPartitionHash d = Ok h -> in_sint 32 h.
Proof.
  unfold HeapData.getPartitionHash, HeapData.hashCode. intros E. res_inv.
  match goal with E : (if ?b then _ else _) = Ok _ |- _ => destruct b end; destruct (payload d) as [p|]; try done.
  - unfold readInt32BE, readSIntBE in E. destruct (readUIntBE _ _ _); [|done]. injection E as <-. by apply (swrap_range 32).
  - injection E as <-. unfold murmur, murmur_final, js_xor. by apply swrap_range.
Qed.

Section ToData.
Context `{Uninit} {L : Type} `{LongLaws L} {U : Type} `{UserTypes L U} (svc : SerializationServiceV1 L U).
#[local] Abbreviation value := (js_value L U).

(** An integer in big-endian order. *)
Definition be32 (z : Z) : buffer := in_order true (le_split 4 z).

Lemma length_be32 z : length (be32 z) = 4%nat.
Proof. unfold be32. by rewrite length_in_order, length_le_split. Qed.

Lemma writeIntBE_appends be z : in_sint 32 z -> appends be (Output.writeIntBE z) (be32 z).
Proof.
  intros Hz. apply put_appends; [by rewrite length_be32|]. intros b pos Hb. by apply (write_sint_order 4 true).
Qed.

Lemma read_be32 z pre post : in_sint 32 z -> readInt32BE (pre ++ be32 z ++ post) (blen pre) = Ok z.
Proof.
  intros Hz. apply (read_sint_order 4 true); [lia | done | |].
  - apply in_bounds_true. rewrite !length_app, length_be32. lia.
  - unfold sub. rewrite Nat2Z.id, drop_app_length. by rewrite take_app_length' by (by rewrite length_be32).
Qed.

(** The bytes of the partition hash, of the type and of the object, which [toObject] reads back. *)
Record heap_of (v : value) (h : Z) (d : HeapData) : Prop := {
  heap_type : exists s, findSerializerFor svc v = Ok s /\ HeapData.getType d = Ok (serializer_id s);
  heap_object : toObject svc (Some d) = Ok v;
  heap_hash : h <> 0 -> HeapData.getPartitionHash d = Ok h;
  heap_hash_total : exists k, HeapData.getPartitionHash d = Ok k }.

Lemma toData_heap fuel v strat h : serialized svc v -> (forall d, v <> VData d) -> in_sint 32 h ->
  match partitionKey v with
  | Some key => k ← toData svc fuel key defaultPartitionStrategy; strat (VData k)
  | None => strat v
  end = Ok h ->
  exists d, toData svc (S fuel) v strat = Ok d /\ heap_of v h d.
Proof.
  intros (s & Ef & Ei & Hi & Hs) Hd Hh Eh. set (be := isBigEndian (serializationConfig svc)).
  destruct (Hs be) as (w & Hw & Hr). destruct (new_output_wf be) as (Hwf & Hnil & Hbe).
  pose proof (appends_bind be _ _ _ _ (writeIntBE_appends be h Hh)
    (appends_bind be _ _ _ _ (writeIntBE_appends be (serializer_id s) Hi) Hw)) as Ha.
  destruct (Ha _ Hwf Hbe) as (o & Eo & Ho & _ & Hb). rewrite Hnil, app_nil_l in Hb. cbv beta in Eo.
  set (p := be32 h ++ be32 (serializer_id s) ++ w) in *.
  assert (length p = 8 + length w)%nat as Hlen by (unfold p; rewrite !length_app, !length_be32; lia).
  exists (mkHeapData (Some p)). split.
  - transitivity (newHeapData (Some p)).
    + rewrite <- Hb, <- (out_bytes_toBuffer o Ho). destruct v; try (by destruct (Hd d)); cbn [toData];
        rewrite Ef, res_bind_ok; fold be; rewrite Eh, res_bind_ok; res_inv;
        repeat match goal with E : ?f = Ok _ |- context [?f ≫= _] => rewrite E, res_bind_ok end; reflexivity.
    + unfold newHeapData, HEAP_DATA_OVERHEAD, DATA_OFFSET. rewrite (proj2 (Z.ltb_ge _ _)) by lia. by rewrite andb_false_r.
  - assert (readInt32BE p TYPE_OFFSET = Ok (serializer_id s)) as Et.
    { unfold p. change TYPE_OFFSET with (Z.of_nat 4). rewrite <- (length_be32 h). by apply read_be32. }
    assert (HeapData.getType (mkHeapData (Some p)) = Ok (serializer_id s)) as Ety.
    { unfold HeapData.getType, totalSize. cbn [payload]. by rewrite (proj2 (Z.eqb_neq _ _)) by lia. }
    split.
    + eauto.
    + unfold toObject. rewrite Ety, res_bind_ok, Ei. cbn [HeapData.toBuffer payload].
      rewrite Hr; [done | lia | done|]. split.
      * apply in_bounds_true. cbn [Input.new i_buffer i_pos]. rewrite Hlen. unfold DATA_OFFSET. lia.
      * unfold sub. cbn [Input.new i_buffer i_pos]. unfold p. rewrite app_assoc, drop_app_length' by (rewrite length_app, !length_be32; done).
        by apply take_ge.
    + intros Hn. assert (readInt32BE p PARTITION_HASH_OFFSET = Ok h) as Ep by exact (read_be32 h [] _ Hh).
      unfold HeapData.getPartitionHash, hasPartitionHash. cbn [payload].
      rewrite (proj2 (Z.leb_le _ _)) by (unfold HEAP_DATA_OVERHEAD, DATA_OFFSET; lia). cbn [negb].
      rewrite Ep, res_bind_ok. cbn. by rewrite (proj2 (Z.eqb_neq _ _)) by done.
    + by eapply getPartitionHash_total.
Qed.

Lemma storable_not_data v d : storable svc v -> v <> VData d.
Proof. intros [[|n] Hv] ->; [done|]. cbn in Hv. destruct Hv as [s Hp]. inversion Hp. naive_solver. Qed.

Lemma toData_fuel v strat f f' : partitionKey v = None -> toData svc (S f) v strat = toData svc (S f') v strat.
Proof. intros E. destruct v; cbn [toData]; rewrite ?E; done. Qed.

(** An array that starts with null is not serialized: the type of its first element is asked for, and null has none. The
    search ends there, before the global serializer and the JSON serializer are tried. *)
Lemma null_first_array_rejected fuel l strat :
  toData svc (S fuel) (VArray (VNull :: l)) strat = Err AssertionError.
Proof. reflexivity. Qed.

(** The partition key of a value, if it has one, can be stored, and so can the key of the key; [n] keys follow each other. *)
Fixpoint key_storable (n : nat) (v : value) : Prop :=
  match partitionKey v, n with
  | None, _ => True
  | Some _, O => False
  | Some k, S n => storable svc k /\ key_storable n k
  end.

Lemma storable_heap n : forall v fuel, registered svc -> storable svc v -> key_storable n v -> (n < fuel)%nat ->
  exists d h, toData svc fuel v defaultPartitionStrategy = Ok d /\ heap_of v h d.
Proof.
  induction n as [|n IH]; intros v [|fuel] R Hv Hk Hf; try lia; cbn in Hk.
  all: assert (serialized svc v) as Hs by (destruct Hv as [m Hv]; by eapply storable_serialized).
  all: assert (forall d, v <> VData d) as Hd by (intros d; by apply storable_not_data).
  all: destruct (partitionKey v) as [k|] eqn:Ek; [|destruct (toData_heap fuel v defaultPartitionStrategy 0 Hs Hd) as (d & Ed & Hh);
    [unfold in_sint; lia | rewrite Ek; destruct v; try done; by destruct (Hd d) | by exists d, 0]].
  - done.
  - destruct Hk as [Hks Hkk]. destruct (IH k fuel R Hks Hkk ltac:(lia)) as (dk & hk & Edk & Hdk).
    destruct (heap_hash_total _ _ _ Hdk) as (h & Eh).
    destruct (toData_heap fuel v defaultPartitionStrategy h Hs Hd) as (d & Ed & Hh); [by eapply getPartitionHash_range | | by exists d, h].
    rewrite Ek, Edk. exact Eh.
Qed.

(** C38: any storable value whose partition key, if it has one, is storable too survives a trip through the serialized form: with any
    configuration that the constructor of the service accepts, [toData] succeeds, the data is marked with the type of the serializer
    that was chosen for the value, and [toObject] gives the same value, nested objects and predicates included. *)
Theorem toObject_toData cfg (v : value) (n fuel : nat) :
  newSerializationService cfg = Ok svc -> storable svc v -> key_storable n v -> (n < fuel)%nat ->
  exists d s, toData svc fuel v defaultPartitionStrategy = Ok d /\ findSerializerFor svc v = Ok s /\
    HeapData.getType d = Ok (serializer_id s) /\ toObject svc (Some d) = Ok v.
Proof.
  intros Hc Hv Hk Hf. apply service_registered in Hc as [R _].
  destruct (storable_heap n v fuel R Hv Hk Hf) as (d & h & Ed & Hh).
  destruct (heap_type _ _ _ Hh) as (s & Es & Et). exists d, s. by rewrite (heap_object _ _ _ Hh).
Qed.

(** Partition awareness: an object with a [partitionKey] is stored in the partition of that key, whatever the
    object holds and however many partitions there are, and it is still read back as it was. The exception is a key whose
    hash is 0, which the format cannot tell from a missing hash. *)
Theorem partition_aware cfg (v k : value) (fuel : nat) toDataString (s : PartitionServiceImpl L) :
  newSerializationService cfg = Ok svc -> storable svc v -> storable svc k ->
  partitionKey v = Some k -> partitionKey k = None -> (2 <= fuel)%nat ->
  exists dv dk h, toData svc fuel v defaultPartitionStrategy = Ok dv /\
    toData svc fuel k defaultPartitionStrategy = Ok dk /\
    HeapData.getPartitionHash dk = Ok h /\ toObject svc (Some dv) = Ok v /\
    (h <> 0 -> getPartitionId toDataString s (inl dv) = getPartitionId toDataString s (inl dk)).
Proof.
  intros Hc [n Hv] [m Hk] Ev Ek Hf. destruct fuel as [|[|fuel]]; [lia | lia|]. apply service_registered in Hc as [R _].
  assert (forall f, exists dk, toData svc (S f) k defaultPartitionStrategy = Ok dk /\ heap_of k 0 dk) as Hkey.
  { intros f. assert (forall d, k <> VData d) as Hd by (intros d; apply storable_not_data; by exists m).
    apply toData_heap; [by eapply storable_serialized | done | unfold in_sint; lia|].
    rewrite Ek. destruct k; try done. by destruct (Hd d). }
  destruct (Hkey fuel) as (dk & Edk & Hdk), (Hkey (S fuel)) as (dk' & Edk' & Hdk').
  destruct (heap_hash_total _ _ _ Hdk) as (h & Eh).
  destruct (toData_heap (S fuel) v defaultPartitionStrategy h) as (dv & Edv & Hdv).
  - by eapply storable_serialized.
  - intros d. apply storable_not_data. by exists n.
  - by eapply getPartitionHash_range.
  - rewrite Ev, Edk. exact Eh.
  - assert (dk' = dk) as -> by (rewrite (toData_fuel k _ (S fuel) fuel Ek) in Edk'; congruence).
    exists dv, dk, h. split_and!; [done..|exact (heap_object _ _ _ Hdv)|]. intros Hn.
    unfold getPartitionId. by rewrite (heap_hash _ _ _ Hdv Hn), Eh.
Qed.
End ToData.

(** ** Examples *)

Module Demo.
#[export] Instance demo_uninit : Uninit := fun _ => Byte.x2a.

(** A class with the ids 1 and 1, and [city] as the partition key. *)
Record Employee := mkEmployee { number : Z; city : string }.

Definition write_employee (e : Employee) : Out := fun o =>
  o ← Output.writeInt (number e) o; Output.writeString (Some (city e)) o.
Definition read_employee : Reader Employee := fun i =>
  '(n, i) ← Input.readInt None i; '(s, i) ← Input.readString None i; Ok (mkEmployee n (default ""%string s), i).

#[export] Instance employees : UserTypes Int64.t Employee := {|
  u_identified _ := Some (1, 1);
  u_writeData := write_employee;
  u_factories f := if f =? 1 then Some (fun c => if c =? 1 then Ok read_employee else Err TypeError) else None;
  u_isPortable _ := false;
  u_writePortable _ _ := Err TypeError;
  u_readPortable _ := Err TypeError;
  u_prop e name := if String.eqb name "partitionKey" then VString (city e) else VUndefined;
  JSON_stringify _ := Err TypeError;
  JSON_parse _ := Err TypeError;
  other_to_number _ := S754_nan |}.

Definition demo_config : SerializationConfig Int64.t Employee :=
  mkSerializationConfig "double" true [mkCustomSerializer 10 (fun _ o => Ok o) (fun i => Ok (VNull, i))] None EAGER.

Definition demo_service : SerializationServiceV1 Int64.t Employee :=
  match newSerializationService demo_config with Ok svc => svc | Err _ => mkService [] [] demo_config end.

Lemma demo_service_ok : newSerializationService demo_config = Ok demo_service.
Proof. vm_compute. reflexivity. Qed.

Lemma employee_ok e : in_sint 32 (number e) -> size_ok (from_utf8 (city e)) -> user_ok e.
Proof.
  intros Hn Hc. exists 1, 1. do 2 eexists. split_and!; try done; [by apply (bool_decide_unpack _); vm_compute |].
  intros be. destruct (codec_int be (number e) Hn) as (w1 & Hw1 & Hr1 & _).
  destruct (codec_string be (Some (city e))) as (w2 & Hw2 & Hr2 & _); [split; [done | by apply Forall_true]|].
  exists (w1 ++ w2). split; [exact (appends_bind be _ _ _ _ Hw1 Hw2)|].
  eapply reads_bind; [exact Hr1|]. destruct e as [n c]. exact (reads_map be (fun s => mkEmployee n (default ""%string s)) _ w2 _ Hr2).
Qed.
End Demo.
Import Demo.

Lemma toObject_toData_witness :
  let v : js_value Int64.t Demo.Employee := VUser (Demo.mkEmployee 5 "Ankara") in
  exists d, toData Demo.demo_service 2 v defaultPartitionStrategy = Ok d /\ toObject Demo.demo_service (Some d) = Ok v.
Proof.
  intros v. destruct (toObject_toData Demo.demo_service Demo.demo_config v 1 2) as (d & s & Ed & _ & _ & Eo).
  - exact Demo.demo_service_ok.
  - exists 1%nat. apply Demo.employee_ok; unfold in_sint, size_ok; cbn; lia.
  - cbn. split; [|done]. exists 1%nat. exists StringSerializer. constructor. unfold size_ok. cbn. lia.
  - lia.
  - exists d. by split.
Defined.

(** A predicate with a number and a predicate in it. *)
Lemma predicate_roundtrip :
  let v : js_value Int64.t Demo.Employee :=
    VPredicate (AndPredicate [VPredicate (EqualPredicate (Some "age") (VNumber (num_of_Z 7))); VPredicate TruePredicate]) in
  exists d, toData Demo.demo_service 1 v defaultPartitionStrategy = Ok d /\ toObject Demo.demo_service (Some d) = Ok v.
Proof.
  intros v. destruct (service_registered _ _ Demo.demo_service_ok) as [R _].
  destruct (storable_heap Demo.demo_service 0 v 1 R) as (d & h & Ed & Hd); [|done | lia | exists d; split; [done | by eapply heap_object]].
  exists 3%nat. cbn. unfold size_ok. cbn. split_and!; [lia|]. repeat constructor; cbn; unfold size_ok; cbn; try lia.
  exists DoubleSerializer. apply plain_double; [reflexivity | vm_compute; reflexivity].
Qed.

Lemma partition_aware_witness :
  let v : js_value Int64.t Demo.Employee := VUser (Demo.mkEmployee 5 "Ankara") in
  let k := VString "Ankara" in
  exists dv dk, toData Demo.demo_service 2 v defaultPartitionStrategy = Ok dv /\
    toData Demo.demo_service 2 k defaultPartitionStrategy = Ok dk /\
    getPartitionId (fun _ => dk) (mkPartitionService (newPartitionTable (L := Int64.t)) 271) (inl dv) =
    getPartitionId (fun _ => dk) (mkPartitionService (newPartitionTable (L := Int64.t)) 271) (inl dk).
Proof.
  intros v k.
  destruct (partition_aware Demo.demo_service Demo.demo_config v k 2 (fun _ => mkHeapData None)
    (mkPartitionService newPartitionTable 271)) as (dv & dk & h & Ev & Ek & Eh & _ & Hp).
  - exact Demo.demo_service_ok.
  - exists 1%nat. apply Demo.employee_ok; unfold in_sint, size_ok; cbn; lia.
  - exists 1%nat. exists StringSerializer. constructor. unfold size_ok. cbn. lia.
  - reflexivity.
  - reflexivity.
  - lia.
  - exists dv, dk. split_and!; [done..|]. apply Hp. vm_compute in Ek. injection Ek as <-. vm_compute in Eh. injection Eh as <-. done.
Defined.
