(* ===== verification/ClientMessage.v ===== *)
(** * Client messages: the linked representation

    [ClientMessage] and [Frame] of [src/protocol/ClientMessage.ts] as the code
    has them: frames and buffers are objects of a shared heap, a message holds
    references to its first and last frame and to the cursor, [copy] shares the
    content buffer of a frame and [copyWithNewCorrelationId] shares all frames
    but the first. Dereferencing a null frame throws a [TypeError].

    [repr] relates a message of the heap to the list of its frames ([Frames.v]);
    the theorems show that the operations implement the list view, that the
    loops over a message return, and that the aliasing between a message and its
    copies is harmless. *)

From S2P Require Export Frames.
#[local] Open Scope Z_scope.

Abbreviation loc := nat.

(** A frame object: its content is a reference to a buffer object. *)
Record hframe := mkHframe { hcontent : loc; hnext : option loc; hflags : Z }.

Record heap := mkHeap { bufs : gmap loc buffer; frms : gmap loc hframe }.

(** Computations on the heap. *)
Definition HM (A : Type) : Type := heap -> res (A * heap).
#[global] Instance HM_ret : MRet HM := fun A a h => Ok (a, h).
#[global] Instance HM_bind : MBind HM := fun A B f m h =>
  match m h with Ok (a, h') => f a h' | Err e => Err e end.

Definition hlift {A} (r : res A) : HM A := fun h => a ← r; Ok (a, h).
Definition deref {A} (o : option A) : HM A :=
  match o with Some a => mret a | None => fun _ => Err TypeError end.
Definition get_frame (l : loc) : HM hframe := fun h => deref (frms h !! l) h.
Definition put_frame (l : loc) (f : hframe) : HM unit := fun h =>
  Ok (tt, mkHeap (bufs h) (<[l := f]> (frms h))).
Definition get_buf (b : loc) : HM buffer := fun h => deref (bufs h !! b) h.
Definition put_buf (b : loc) (c : buffer) : HM unit := fun h =>
  Ok (tt, mkHeap (<[b := c]> (bufs h)) (frms h)).
Definition new_buf (c : buffer) : HM loc := fun h =>
  let b := fresh (dom (bufs h)) in Ok (b, mkHeap (<[b := c]> (bufs h)) (frms h)).
Definition new_obj (f : hframe) : HM loc := fun h =>
  let l := fresh (dom (frms h)) in Ok (l, mkHeap (bufs h) (<[l := f]> (frms h))).

(** ** Frame *)

Module HFrame.

(** [constructor(content, flags?)]: [flags || DEFAULT_FLAGS]. *)
Definition new (content : loc) (flags : option Z) : HM loc :=
  new_obj (mkHframe content None (default DEFAULT_FLAGS flags)).

Definition createInitialFrame `{Uninit} (size flags : Z) : HM loc :=
  b ← new_buf (allocUnsafe size); new b (Some flags).

Definition getLength (l : loc) : HM Z :=
  f ← get_frame l; c ← get_buf (hcontent f); mret (SIZE_OF_FRAME_LENGTH_AND_FLAGS + blen c).

Definition copy (l : loc) : HM loc :=
  f ← get_frame l;
  new_obj (mkHframe (hcontent f) (hnext f) (hflags f)).

Definition deepCopy (l : loc) : HM loc :=
  f ← get_frame l;
  c ← get_buf (hcontent f);
  content ← new_buf c;
  new_obj (mkHframe content (hnext f) (hflags f)).

Definition addFlag (l : loc) (flag : Z) : HM unit :=
  f ← get_frame l; put_frame l (mkHframe (hcontent f) (hnext f) (js_or (hflags f) flag)).

Definition set_next (l : loc) (n : option loc) : HM unit :=
  f ← get_frame l; put_frame l (mkHframe (hcontent f) n (hflags f)).
End HFrame.

(** ** ClientMessage *)

Record ClientMessage := mkClientMessage {
  startFrame : option loc;
  endFrame : option loc;
  retryable : option bool;
  connection : option Z;
  cm_nextFrame : option loc;
  cachedTotalLength : option Z
}.

Module Message.

Definition create (startFrame endFrame : option loc) : ClientMessage :=
  mkClientMessage startFrame (match endFrame with Some e => Some e | None => startFrame end)
    None None startFrame None.

Definition createForEncode : ClientMessage := create None None.
Definition createForDecode (startFrame : loc) (endFrame : option loc) : ClientMessage :=
  create (Some startFrame) endFrame.

Definition with_cursor (m : ClientMessage) (c : option loc) : ClientMessage :=
  mkClientMessage (startFrame m) (endFrame m) (retryable m) (connection m) c (cachedTotalLength m).
Definition with_length (m : ClientMessage) (n : option Z) : ClientMessage :=
  mkClientMessage (startFrame m) (endFrame m) (retryable m) (connection m) (cm_nextFrame m) n.

Definition nextFrame (m : ClientMessage) : HM (option loc * ClientMessage) :=
  match cm_nextFrame m with
  | Some l => f ← get_frame l; mret (Some l, with_cursor m (hnext f))
  | None => mret (None, m)
  end.

Definition hasNextFrame (m : ClientMessage) : bool :=
  match cm_nextFrame m with Some _ => true | None => false end.

Definition peekNextFrame (m : ClientMessage) : option loc := cm_nextFrame m.

Definition addFrame (m : ClientMessage) (frame : loc) : HM ClientMessage :=
  let m := with_length m None in
  _ ← HFrame.set_next frame None;
  match startFrame m with
  | None =>
      mret (mkClientMessage (Some frame) (Some frame) (retryable m) (connection m)
              (Some frame) (cachedTotalLength m))
  | Some _ =>
      last ← deref (endFrame m);
      _ ← HFrame.set_next last (Some frame);
      mret (mkClientMessage (startFrame m) (Some frame) (retryable m) (connection m)
              (cm_nextFrame m) (cachedTotalLength m))
  end.

(** A read or write of the content of the first frame. *)
Definition start_content (m : ClientMessage) : HM loc :=
  l ← deref (startFrame m); f ← get_frame l; mret (hcontent f).
Definition read_start {A} (m : ClientMessage) (rd : buffer -> res A) : HM A :=
  b ← start_content m; c ← get_buf b; hlift (rd c).
Definition write_start (m : ClientMessage) (wr : buffer -> res buffer) : HM unit :=
  b ← start_content m; c ← get_buf b; c' ← hlift (wr c); put_buf b c'.

Definition getMessageType (m : ClientMessage) : HM Z :=
  read_start m (fun c => readInt32LE c MESSAGE_TYPE_OFFSET).
Definition setMessageType (m : ClientMessage) (messageType : Z) : HM unit :=
  write_start m (fun c => writeInt32LE c messageType MESSAGE_TYPE_OFFSET).
Definition getCorrelationId (m : ClientMessage) : HM Z :=
  read_start m (fun c => decodeNumberFromLong c CORRELATION_ID_OFFSET).
Definition resetCorrelationId (m : ClientMessage) : HM unit :=
  _ ← write_start m (fun c => writeInt32LE c (js_or 0xFFFFFFFF 0) CORRELATION_ID_OFFSET);
  write_start m (fun c =>
    writeInt32LE c (js_or 0xFFFFFFFF 0) (CORRELATION_ID_OFFSET + INT_SIZE_IN_BYTES)).
Definition setCorrelationId (m : ClientMessage) (correlationId : Z) : HM unit :=
  write_start m (fun c => encodeNonNegativeNumberAsLong c CORRELATION_ID_OFFSET correlationId).
Definition getPartitionId (m : ClientMessage) : HM Z :=
  read_start m (fun c => readInt32LE c PARTITION_ID_OFFSET).
Definition setPartitionId (m : ClientMessage) (partitionId : Z) : HM unit :=
  write_start m (fun c => writeInt32LE c partitionId PARTITION_ID_OFFSET).
Definition getNumberOfBackupAcks (m : ClientMessage) : HM Z :=
  read_start m (fun c => readUInt8 c RESPONSE_BACKUP_ACKS_OFFSET).
Definition getFragmentationId {L} `{LongLib L} (m : ClientMessage) : HM Z :=
  l ← read_start m (fun c => decodeLong (L := L) c FRAGMENTATION_ID_OFFSET);
  mret (long_to_number l).

Definition isRetryable (m : ClientMessage) : option bool := retryable m.
Definition setRetryable (m : ClientMessage) (r : bool) : ClientMessage :=
  mkClientMessage (startFrame m) (endFrame m) (Some r) (connection m) (cm_nextFrame m)
    (cachedTotalLength m).
Definition setConnection (m : ClientMessage) (c : Z) : ClientMessage :=
  mkClientMessage (startFrame m) (endFrame m) (retryable m) (Some c) (cm_nextFrame m)
    (cachedTotalLength m).

(** The [while] loops run at most once per frame object of the heap, plus the
    final test: [loop_fuel]. *)
Definition loop_fuel (h : heap) : nat := S (size (frms h)).

Fixpoint sum_lengths (fuel : nat) (currentFrame : option loc) (totalLength : Z) : HM Z :=
  match fuel with
  | O => fun _ => Err OutOfFuel
  | S fuel =>
      match currentFrame with
      | None => mret totalLength
      | Some l =>
          n ← HFrame.getLength l;
          f ← get_frame l;
          sum_lengths fuel (hnext f) (totalLength + n)
      end
  end.

Definition getTotalLength (m : ClientMessage) : HM (Z * ClientMessage) := fun h =>
  match cachedTotalLength m with
  | Some n => Ok ((n, m), h)
  | None =>
      (totalLength ← sum_lengths (loop_fuel h) (startFrame m) 0;
       mret (totalLength, with_length m (Some totalLength))) h
  end.

Definition merge (m fragment : ClientMessage) : HM ClientMessage :=
  last ← deref (endFrame m);
  _ ← HFrame.set_next last (startFrame fragment);
  mret (mkClientMessage (startFrame m) (endFrame fragment) (retryable m) (connection m)
          (cm_nextFrame m) None).

Definition dropFragmentationFrame (m : ClientMessage) : HM ClientMessage :=
  l ← deref (startFrame m); f ← get_frame l;
  c ← deref (cm_nextFrame m); g ← get_frame c;
  mret (mkClientMessage (hnext f) (endFrame m) (retryable m) (connection m) (hnext g) None).

Definition copyWithNewCorrelationId (m : ClientMessage) : HM ClientMessage :=
  l ← deref (startFrame m);
  startFrameCopy ← HFrame.deepCopy l;
  let newMessage := create (Some startFrameCopy) (endFrame m) in
  _ ← resetCorrelationId newMessage;
  mret (mkClientMessage (startFrame newMessage) (endFrame newMessage) (retryable m)
          (connection newMessage) (cm_nextFrame newMessage) (cachedTotalLength newMessage)).

(** The loop of [writeTo], on the target buffer and the position in it. *)
Fixpoint write_frames (fuel : nat) (currentFrame : option loc) (buf : buffer) (pos : Z)
    : HM (Z * buffer) :=
  match fuel with
  | O => fun _ => Err OutOfFuel
  | S fuel =>
      match currentFrame with
      | None => mret (pos, buf)
      | Some l =>
          f ← get_frame l;
          c ← get_buf (hcontent f);
          let isLastFrame := match hnext f with None => true | Some _ => false end in
          buf ← hlift (writeInt32LE buf (blen c + SIZE_OF_FRAME_LENGTH_AND_FLAGS) pos);
          buf ← hlift (writeUInt16LE buf
                         (if isLastFrame : bool then js_or (hflags f) IS_FINAL_FLAG else hflags f)
                         (pos + INT_SIZE_IN_BYTES));
          let pos := pos + SIZE_OF_FRAME_LENGTH_AND_FLAGS in
          let buf := copy_into c buf pos in
          write_frames fuel (hnext f) buf (pos + blen c)
      end
  end.

Definition writeTo (m : ClientMessage) (buf : buffer) (offset : Z) : HM (Z * buffer) := fun h =>
  write_frames (loop_fuel h) (startFrame m) buf offset h.

Definition toBuffer `{Uninit} (m : ClientMessage) : HM (buffer * ClientMessage) :=
  '(totalLength, m) ← getTotalLength m;
  let buf := allocUnsafe totalLength in
  '(_, buf) ← writeTo m buf 0;
  mret (buf, m).
End Message.

(** ** Segments of linked frames *)

(** From [s], following [next], the frame objects [ls] hold the frames [fs] and
    the last one points to [p]. *)
Inductive lseg (h : heap) : option loc -> list loc -> frames -> option loc -> Prop :=
  | lseg_nil p : lseg h p [] [] p
  | lseg_cons l f c ls fs p :
      frms h !! l = Some f -> bufs h !! hcontent f = Some c ->
      lseg h (hnext f) ls fs p ->
      lseg h (Some l) (l :: ls) (mkFrame c (hflags f) :: fs) p.

(** A message of the heap holds the frames [fs]. *)
Record repr (h : heap) (m : ClientMessage) (ls : list loc) (fs : frames) : Prop := {
  repr_seg : lseg h (startFrame m) ls fs None;
  repr_nodup : NoDup ls;
  repr_end : endFrame m = last ls;
  repr_cache : forall n, cachedTotalLength m = Some n -> n = total_length fs
}.

Definition upd_frm (h : heap) (l : loc) (f : hframe) : heap := mkHeap (bufs h) (<[l := f]> (frms h)).
Definition upd_buf (h : heap) (b : loc) (c : buffer) : heap := mkHeap (<[b := c]> (bufs h)) (frms h).

(** The buffers the frames of a segment refer to. *)
Definition contents (h : heap) (ls : list loc) : list loc :=
  omap (fun l => hcontent <$> frms h !! l) ls.

Lemma lseg_frm_other h s ls fs p l f :
  l ∉ ls -> lseg h s ls fs p -> lseg (upd_frm h l f) s ls fs p.
Proof.
  intros Hl Hs. induction Hs as [|k g c ls fs p Hk Hc _ IH]; [constructor|].
  apply not_elem_of_cons in Hl as [Hne Hl]. constructor; [|done|by apply IH].
  cbn. by rewrite lookup_insert_ne by done.
Qed.

Lemma lseg_buf_other h s ls fs p b c :
  b ∉ contents h ls -> lseg h s ls fs p -> lseg (upd_buf h b c) s ls fs p.
Proof.
  intros Hb Hs. induction Hs as [|k g c' ls fs p Hk Hc _ IH]; [constructor|].
  unfold contents in Hb. cbn in Hb. rewrite Hk in Hb. cbn in Hb.
  apply not_elem_of_cons in Hb as [Hne Hb]. constructor; [done| |by apply IH].
  cbn. by rewrite lookup_insert_ne by done.
Qed.

Lemma lseg_app h s ls fs p ls' fs' q :
  lseg h s ls fs p -> lseg h p ls' fs' q -> lseg h s (ls ++ ls') (fs ++ fs') q.
Proof. induction 1; intros; [done|]. cbn. econstructor; eauto. Qed.

Lemma lseg_app_inv h s ls fs q ls1 ls2 :
  lseg h s ls fs q -> ls = ls1 ++ ls2 ->
  exists fs1 fs2 p, fs = fs1 ++ fs2 /\ lseg h s ls1 fs1 p /\ lseg h p ls2 fs2 q.
Proof.
  intros Hs. revert ls1. induction Hs as [p|l f c ls fs p Hl Hc Hs IH]; intros ls1 E.
  - symmetry in E. apply app_nil in E as [-> ->]. exists [], [], p. split_and!; constructor || done.
  - destruct ls1 as [|k ls1]; cbn in E.
    + subst ls2. exists [], (mkFrame c (hflags f) :: fs), (Some l). split_and!; [done|constructor|].
      by constructor.
    + injection E as <- E. destruct (IH ls1 E) as (fs1 & fs2 & p' & -> & H1 & H2).
      exists (mkFrame c (hflags f) :: fs1), fs2, p'. split_and!; [done|by constructor|done].
Qed.

Lemma lseg_dom h s ls fs p l : lseg h s ls fs p -> l ∈ ls -> l ∈ dom (frms h).
Proof.
  induction 1 as [|k f c ls fs p Hk Hc Hs IH]; [set_solver|].
  rewrite elem_of_cons. intros [->|Hl]; [|auto]. apply elem_of_dom. eauto.
Qed.

Lemma lseg_content_dom h s ls fs p b : lseg h s ls fs p -> b ∈ contents h ls -> b ∈ dom (bufs h).
Proof.
  induction 1 as [|k f c ls fs p Hk Hc Hs IH]; [set_solver|].
  unfold contents. cbn. rewrite Hk. cbn. rewrite elem_of_cons.
  intros [->|Hb]; [|auto]. apply elem_of_dom. eauto.
Qed.

(** A segment without repetitions is no longer than the heap has frames. *)
Lemma lseg_length h s ls fs p :
  lseg h s ls fs p -> NoDup ls -> (length ls <= size (frms h))%nat.
Proof.
  intros Hs Hnd. rewrite <- size_dom, <- (size_list_to_set (C := gset loc) ls) by done.
  apply subseteq_size. intros l Hl. apply elem_of_list_to_set in Hl. by eapply lseg_dom.
Qed.

Lemma lseg_same_length h s ls fs p : lseg h s ls fs p -> length ls = length fs.
Proof. induction 1; cbn; congruence. Qed.

(** Redirecting the last frame of a segment moves its end. *)
Lemma lseg_redirect h s ls l fs p f q :
  lseg h s (ls ++ [l]) fs p -> NoDup (ls ++ [l]) -> frms h !! l = Some f ->
  lseg (upd_frm h l (mkHframe (hcontent f) q (hflags f))) s (ls ++ [l]) fs q.
Proof.
  intros Hs Hnd Hf. apply NoDup_app in Hnd as (_ & Hdisj & _).
  destruct (lseg_app_inv _ _ _ _ _ ls [l] Hs eq_refl) as (fs1 & fs2 & p' & -> & H1 & H2).
  assert (l ∉ ls) as Hl by (intros Hin; apply (Hdisj l Hin); set_solver).
  eapply lseg_app; [by apply lseg_frm_other|].
  inversion H2 as [|k g c ls' fs' p'' Hk Hc Hs']; simplify_eq.
  inversion Hs'; simplify_eq.
  set (f' := mkHframe (hcontent f) q (hflags f)).
  change (mkFrame c (hflags f)) with (mkFrame c (hflags f')).
  apply lseg_cons; [cbn; by rewrite lookup_insert_eq | done | constructor].
Qed.

(** ** Running heap computations *)

Lemma HM_bind_ok {A B} (m : HM A) (k : A -> HM B) h a h' :
  m h = Ok (a, h') -> (x ← m; k x) h = k a h'.
Proof. unfold mbind, HM_bind. by intros ->. Qed.

Lemma hlift_ok {A} (r : res A) a h : r = Ok a -> hlift r h = Ok (a, h).
Proof. by intros ->. Qed.

Lemma get_frame_ok h l f : frms h !! l = Some f -> get_frame l h = Ok (f, h).
Proof. unfold get_frame. by intros ->. Qed.

Lemma get_buf_ok h b c : bufs h !! b = Some c -> get_buf b h = Ok (c, h).
Proof. unfold get_buf. by intros ->. Qed.

Lemma set_next_ok h l f n :
  frms h !! l = Some f ->
  HFrame.set_next l n h = Ok (tt, upd_frm h l (mkHframe (hcontent f) n (hflags f))).
Proof.
  intros Hl. unfold HFrame.set_next. by rewrite (HM_bind_ok _ _ _ _ _ (get_frame_ok _ _ _ Hl)).
Qed.

Lemma last_split {A} (l : list A) x : last l = Some x -> exists l', l = l' ++ [x].
Proof. rewrite last_Some. done. Qed.

(** ** The operations implement the list view *)

(** [addFrame] appends: a message that holds [fs] holds [fs ++ [f]] after
    adding a frame object that is not already linked in it, whether the message
    was empty or not, and the cached length is dropped. *)
Theorem addFrame_refines h m ls fs l f c :
  repr h m ls fs ->
  frms h !! l = Some f -> bufs h !! hcontent f = Some c -> l ∉ ls ->
  exists m' h', Message.addFrame m l h = Ok (m', h') /\
    repr h' m' (ls ++ [l]) (addFrame fs (mkFrame c (hflags f))).
Proof.
  intros [Hseg Hnd Hend _] Hl Hc Hnin. unfold Message.addFrame. cbn [startFrame Message.with_length].
  set (f0 := mkHframe (hcontent f) None (hflags f)).
  set (h1 := upd_frm h l f0).
  assert (lseg h1 (Some l) [l] [mkFrame c (hflags f)] None) as Hone.
  { change (hflags f) with (hflags f0). econstructor; [|done|constructor].
    cbn. by rewrite lookup_insert_eq. }
  assert (lseg h1 (startFrame m) ls fs None) as Hseg1 by by apply lseg_frm_other.
  rewrite (HM_bind_ok _ _ _ _ _ (set_next_ok h l f None Hl)). fold f0 h1.
  destruct (startFrame m) as [s|] eqn:Es.
  - destruct ls as [|k ls]; [inversion Hseg|].
    destruct (last (k :: ls)) as [e|] eqn:El; [|by apply last_None in El].
    apply last_split in El as [ls' El]. cbn [endFrame Message.with_length]. rewrite Hend.
    rewrite (HM_bind_ok _ _ h1 e h1) by done.
    assert (e ≠ l) as Hne by (intros ->; apply Hnin; rewrite El; set_solver).
    assert (exists g, frms h1 !! e = Some g) as [g Hg].
    { apply elem_of_dom. eapply (lseg_dom _ _ _ _ _ _ Hseg1). rewrite El. set_solver. }
    rewrite (HM_bind_ok _ _ _ _ _ (set_next_ok h1 e g (Some l) Hg)).
    eexists _, _. split; [reflexivity|]. split; cbn [startFrame endFrame cachedTotalLength].
    + eapply lseg_app.
      * rewrite El in Hseg1, Hnd |- *. eapply lseg_redirect; [exact Hseg1 | done | done].
      * apply lseg_frm_other; [|done]. by rewrite list_elem_of_singleton.
    + apply NoDup_app. split_and!; [done | | apply NoDup_singleton].
      intros x Hx ->%list_elem_of_singleton. done.
    + by rewrite last_snoc.
    + done.
  - inversion Hseg; subst. eexists _, _. split; [reflexivity|].
    split; cbn; [done | apply NoDup_singleton | done | done].
Qed.

Lemma getLength_ok h l f c :
  frms h !! l = Some f -> bufs h !! hcontent f = Some c ->
  HFrame.getLength l h = Ok (getLength (mkFrame c (hflags f)), h).
Proof.
  intros Hl Hc. unfold HFrame.getLength.
  rewrite (HM_bind_ok _ _ _ _ _ (get_frame_ok _ _ _ Hl)).
  by rewrite (HM_bind_ok _ _ _ _ _ (get_buf_ok _ _ _ Hc)).
Qed.

Lemma sum_lengths_ok h s ls fs : forall fuel acc,
  lseg h s ls fs None -> (length ls < fuel)%nat ->
  Message.sum_lengths fuel s acc h = Ok (acc + total_length fs, h).
Proof.
  revert s fs. induction ls as [|l ls IH]; intros s fs [|fuel] acc Hs Hf; try (cbn in Hf; lia).
  - inversion Hs; subst. cbn. by rewrite Z.add_0_r.
  - inversion Hs as [|l' f c ls' fs' p Hl Hc Hs']; subst. cbn [Message.sum_lengths].
    rewrite (HM_bind_ok _ _ _ _ _ (getLength_ok _ _ _ _ Hl Hc)).
    rewrite (HM_bind_ok _ _ _ _ _ (get_frame_ok _ _ _ Hl)).
    rewrite (IH _ fs') by (done || (cbn in Hf; lia)).
    unfold total_length. cbn [foldr]. do 2 f_equal. lia.
Qed.

Lemma repr_fuel h m ls fs : repr h m ls fs -> (length ls < Message.loop_fuel h)%nat.
Proof.
  intros [Hseg Hnd _ _]. unfold Message.loop_fuel.
  pose proof (lseg_length _ _ _ _ _ Hseg Hnd). lia.
Qed.

Lemma getTotalLength_ok h m ls fs :
  repr h m ls fs ->
  exists m', Message.getTotalLength m h = Ok ((total_length fs, m'), h) /\ repr h m' ls fs.
Proof.
  intros Hr. pose proof (repr_fuel _ _ _ _ Hr) as Hf. pose proof Hr as [Hseg Hnd Hend Hc].
  unfold Message.getTotalLength. destruct (cachedTotalLength m) as [n|] eqn:En.
  - rewrite (Hc n eq_refl). eauto.
  - rewrite (HM_bind_ok _ _ _ _ _ (sum_lengths_ok _ _ _ _ _ 0 Hseg Hf)).
    eexists. split; [reflexivity|]. split; cbn; [done | done | done |]. by intros n [= <-].
Qed.

(** One frame written at [pos]: its header and its content. *)
Lemma write_header_ok (b c : buffer) pos fl :
  in_bounds b pos (SIZE_OF_FRAME_LENGTH_AND_FLAGS + blen c) = true ->
  in_uint 16 fl -> SIZE_OF_FRAME_LENGTH_AND_FLAGS + blen c < 2 ^ 31 ->
  exists b1 b2,
    writeInt32LE b (blen c + SIZE_OF_FRAME_LENGTH_AND_FLAGS) pos = Ok b1 /\
    writeUInt16LE b1 fl (pos + INT_SIZE_IN_BYTES) = Ok b2 /\
    copy_into c b2 (pos + SIZE_OF_FRAME_LENGTH_AND_FLAGS) =
      write_at b pos (frame_bytes (mkFrame c 0) fl).
Proof.
  unfold SIZE_OF_FRAME_LENGTH_AND_FLAGS, INT_SIZE_IN_BYTES, SHORT_SIZE_IN_BYTES.
  intros Hb Hfl Hlen. apply in_bounds_true in Hb as Hb'.
  set (w1 := le_split 4 (blen c + (4 + 2))). set (w2 := le_split 2 fl).
  assert (length w1 = 4%nat) as L1 by apply length_le_split.
  assert (length w2 = 2%nat) as L2 by apply length_le_split.
  exists (write_at b pos w1), (write_at b pos (w1 ++ w2)). split_and!.
  - unfold writeInt32LE, writeSIntLE.
    rewrite (proj2 (fits_sint_true _ _)) by (unfold in_sint; cbn in *; lia).
    apply write_bytes_ok. apply in_bounds_true. fold w1. lia.
  - unfold writeUInt16LE, writeUIntLE. rewrite (proj2 (fits_uint_true _ _)) by done. fold w2.
    rewrite write_bytes_ok.
    + rewrite <- write_at_app by (apply in_bounds_true; lia). by rewrite L1.
    + rewrite in_bounds_write; apply in_bounds_true; lia.
  - unfold copy_into. rewrite length_write_at by (apply in_bounds_true; rewrite length_app; lia).
    rewrite take_ge by lia. unfold frame_bytes. rewrite app_assoc.
    replace (getLength (mkFrame c 0)) with (blen c + (4 + 2))
      by (unfold getLength, SIZE_OF_FRAME_LENGTH_AND_FLAGS, INT_SIZE_IN_BYTES, SHORT_SIZE_IN_BYTES;
          cbn; lia).
    fold w1 w2. rewrite <- (write_at_app b pos (w1 ++ w2) (content _))
      by (apply in_bounds_true; rewrite length_app; cbn; lia).
    rewrite length_app, L1, L2. done.
Qed.

Lemma write_frames_ok h s ls fs : forall fuel b pos,
  lseg h s ls fs None -> (length ls < fuel)%nat -> Forall frame_ok fs ->
  in_bounds b pos (total_length fs) = true ->
  Message.write_frames fuel s b pos h = Ok ((pos + total_length fs, write_at b pos (wire fs)), h).
Proof.
  revert s fs. induction ls as [|l ls IH]; intros s fs [|fuel] b pos Hs Hf Hok Hb; try (cbn in Hf; lia).
  - inversion Hs; subst. cbn. rewrite Z.add_0_r. unfold write_at. cbn.
    rewrite Nat.add_0_r, take_drop. done.
  - inversion Hs as [|l' f c ls' fs' p Hl Hc Hs']; subst.
    apply Forall_cons in Hok as [[Hfl Hlen] Hok].
    change (total_length (?x :: fs')) with (getLength x + total_length fs') in *.
    assert (0 <= total_length fs') by (rewrite <- length_wire; lia).
    apply in_bounds_true in Hb as Hb'.
    set (fl := if match hnext f with None => true | Some _ => false end
               then js_or (hflags f) IS_FINAL_FLAG else hflags f).
    assert (in_uint 16 fl) as Hfl'.
    { unfold fl. destruct (hnext f); [done|]. by apply js_or_final_range. }
    destruct (write_header_ok b c pos fl) as (b1 & b2 & E1 & E2 & E3); [|done|done|].
    { apply in_bounds_true. unfold getLength in *. cbn in *. lia. }
    cbn [Message.write_frames].
    rewrite (HM_bind_ok _ _ _ _ _ (get_frame_ok _ _ _ Hl)).
    rewrite (HM_bind_ok _ _ _ _ _ (get_buf_ok _ _ _ Hc)).
    rewrite (HM_bind_ok _ _ _ _ _ (hlift_ok _ _ h E1)). fold fl.
    rewrite (HM_bind_ok _ _ _ _ _ (hlift_ok _ _ h E2)). rewrite E3.
    set (fb := frame_bytes (mkFrame c 0) fl).
    assert (blen fb = getLength (mkFrame c (hflags f))) as Lfb.
    { unfold fb. by rewrite length_frame_bytes. }
    rewrite (IH _ fs') by (done || (cbn in Hf; lia) ||
      (rewrite in_bounds_write; apply in_bounds_true; unfold getLength in *; cbn in *; lia)).
    assert (wire (mkFrame c (hflags f) :: fs') = fb ++ wire fs') as ->.
    { unfold fb, fl. destruct fs' as [|g fs'].
      - assert (hnext f = None) as -> by (by inversion Hs'). cbn [wire]. by rewrite app_nil_r.
      - assert (exists k, hnext f = Some k) as [k ->] by (inversion Hs'; eauto).
        by rewrite wire_cons. }
    rewrite <- write_at_app by (apply in_bounds_true; rewrite length_wire; lia).
    rewrite Lfb. unfold getLength. cbn [content]. rewrite !Z.add_assoc. done.
Qed.

Lemma toBuffer_ok `{Uninit} h m ls fs :
  repr h m ls fs -> Forall frame_ok fs ->
  exists m', Message.toBuffer m h = Ok ((wire fs, m'), h) /\ repr h m' ls fs.
Proof.
  intros Hr Hok. destruct (getTotalLength_ok _ _ _ _ Hr) as (m' & E & Hr').
  exists m'. split; [|done]. unfold Message.toBuffer.
  rewrite (HM_bind_ok _ _ _ _ _ E). cbn [fst snd].
  pose proof (repr_fuel _ _ _ _ Hr') as Hf. unfold Message.writeTo. destruct Hr' as [Hseg _ _ _].
  assert (0 <= total_length fs) by (rewrite <- length_wire; lia).
  pose proof (length_allocUnsafe (total_length fs)) as Hal.
  erewrite HM_bind_ok by (eapply write_frames_ok; [exact Hseg | exact Hf | done |];
    apply in_bounds_true; lia).
  unfold write_at. pose proof (length_wire fs). rewrite drop_ge by lia.
  change (Z.to_nat 0) with 0%nat. rewrite take_0, app_nil_r. done.
Qed.

(** [toBuffer] returns for every well-formed message, and returns the wire
    form of its frames: lengths, flags and contents in order, the final flag on
    the last frame and nothing left of the uninitialised buffer; the message and
    the heap are as before (up to the cached length). *)
Theorem toBuffer_wire `{Uninit} h m ls fs :
  repr h m ls fs -> Forall frame_ok fs ->
  exists m', Message.toBuffer m h = Ok ((wire fs, m'), h) /\ repr h m' ls fs.
Proof. apply toBuffer_ok. Qed.

(** ** Copies of a message *)

Lemma write_start_ok h m l f c wr c' :
  startFrame m = Some l -> frms h !! l = Some f -> bufs h !! hcontent f = Some c ->
  wr c = Ok c' -> Message.write_start m wr h = Ok (tt, upd_buf h (hcontent f) c').
Proof.
  intros Hm Hl Hc Hw. unfold Message.write_start, Message.start_content. rewrite Hm.
  unfold mbind, HM_bind, deref, mret, HM_ret. rewrite (get_frame_ok _ _ _ Hl), (get_buf_ok _ _ _ Hc).
  by rewrite (hlift_ok _ _ _ Hw).
Qed.

Lemma read_start_ok {A} h m l f c (rd : buffer -> res A) a :
  startFrame m = Some l -> frms h !! l = Some f -> bufs h !! hcontent f = Some c ->
  rd c = Ok a -> Message.read_start m rd h = Ok (a, h).
Proof.
  intros Hm Hl Hc Hw. unfold Message.read_start, Message.start_content. rewrite Hm.
  unfold mbind, HM_bind, deref, mret, HM_ret. rewrite (get_frame_ok _ _ _ Hl), (get_buf_ok _ _ _ Hc).
  by rewrite (hlift_ok _ _ _ Hw).
Qed.

(** What [resetCorrelationId] does to the content of the first frame. *)
Lemma reset_content c :
  in_bounds c CORRELATION_ID_OFFSET 8 = true ->
  exists c1 c2,
    writeInt32LE c (js_or 0xFFFFFFFF 0) CORRELATION_ID_OFFSET = Ok c1 /\
    writeInt32LE c1 (js_or 0xFFFFFFFF 0) (CORRELATION_ID_OFFSET + INT_SIZE_IN_BYTES) = Ok c2 /\
    decodeNumberFromLong c2 CORRELATION_ID_OFFSET = Ok (-1) /\
    c2 = write_at c CORRELATION_ID_OFFSET (replicate 8 Byte.xff).
Proof.
  intros Hb. change (js_or 0xFFFFFFFF 0) with (-1).
  destruct (fixed_pair 4 4 _ _ _ _ _ _ fixed_int fixed_int c CORRELATION_ID_OFFSET (-1, -1))
    as (w & Hl & E & R); [split; done | done |].
  unfold write_pair in E. apply res_bind_inv in E as (c1 & E1 & E2). cbn [fst snd] in *.
  exists c1, (write_at c CORRELATION_ID_OFFSET w). split_and!; [done | done | |].
  - assert (in_bounds (write_at c CORRELATION_ID_OFFSET w) CORRELATION_ID_OFFSET 8 = true) as Hb'.
    { rewrite in_bounds_write; [done|]. by rewrite Hl. }
    specialize (R _ _ Hb'). rewrite <- Hl in R at 1. rewrite sub_write_same in R by (by rewrite Hl).
    specialize (R eq_refl). unfold read_pair in R.
    apply res_bind_inv in R as (lo & F1 & R). apply res_bind_inv in R as (hi & F2 & R).
    injection R as -> ->. unfold decodeNumberFromLong. unfold decodeInt in *.
    rewrite F1, res_bind_ok. change INT_SIZE_IN_BYTES with (Z.of_nat 4). by rewrite F2.
  - change (replicate 8 Byte.xff) with (le_split 4 (-1) ++ le_split 4 (-1)).
    unfold encodeInt, writeInt32LE, writeSIntLE in E1, E2. cbn [fits_sint] in *.
    rewrite (proj2 (fits_sint_true _ _)) in E1, E2 by done.
    apply in_bounds_true in Hb as Hb'.
    rewrite write_bytes_ok in E1 by (apply in_bounds_true; rewrite length_le_split; lia).
    injection E1 as <-.
    rewrite write_bytes_ok in E2.
    2:{ rewrite in_bounds_write; apply in_bounds_true; rewrite length_le_split; lia. }
    injection E2 as <-. rewrite <- write_at_app by (apply in_bounds_true; rewrite !length_le_split; lia).
    by rewrite length_le_split.
Qed.

Lemma contents_upd_frm h l f ls : l ∉ ls -> contents (upd_frm h l f) ls = contents h ls.
Proof.
  intros Hl. unfold contents. induction ls as [|k ls IH]; [done|].
  apply not_elem_of_cons in Hl as [Hne Hl]. specialize (IH Hl). cbn in IH |- *.
  rewrite lookup_insert_ne by done. by rewrite IH.
Qed.

Lemma contents_cons h l f ls : frms h !! l = Some f -> contents h (l :: ls) = hcontent f :: contents h ls.
Proof. unfold contents. cbn. by intros ->. Qed.

Lemma deepCopy_ok h l f c :
  frms h !! l = Some f -> bufs h !! hcontent f = Some c ->
  let b := fresh (dom (bufs h)) in
  let l' := fresh (dom (frms h)) in
  HFrame.deepCopy l h =
    Ok (l', upd_frm (upd_buf h b c) l' (mkHframe b (hnext f) (hflags f))).
Proof.
  intros Hl Hc. unfold HFrame.deepCopy. cbn zeta.
  rewrite (HM_bind_ok _ _ _ _ _ (get_frame_ok _ _ _ Hl)).
  by rewrite (HM_bind_ok _ _ _ _ _ (get_buf_ok _ _ _ Hc)).
Qed.

(** The heap after a deep copy [l'] of the frame [l], with [x] in the buffer of
    the copy: the segment from [l] is as it was, and the segment from [l'] shares
    all its frames but the first. *)
Lemma deep_copied h l f c ls fs x :
  frms h !! l = Some f -> bufs h !! hcontent f = Some c ->
  lseg h (hnext f) ls fs None ->
  let b := fresh (dom (bufs h)) in
  let l' := fresh (dom (frms h)) in
  let f' := mkHframe b (hnext f) (hflags f) in
  let h' := upd_buf (upd_frm (upd_buf h b c) l' f') b x in
  lseg h' (Some l) (l :: ls) (mkFrame c (hflags f) :: fs) None /\
  lseg h' (Some l') (l' :: ls) (mkFrame x (hflags f) :: fs) None.
Proof.
  intros Hl Hc Hs b l' f' h'.
  assert (lseg h (Some l) (l :: ls) (mkFrame c (hflags f) :: fs) None) as Hseg by by constructor.
  assert (b ∉ contents h (l :: ls)) as Hbn.
  { intros Hin. eapply lseg_content_dom in Hin; [|exact Hseg]. by apply is_fresh in Hin. }
  assert (l' ∉ l :: ls) as Hln.
  { intros Hin. eapply lseg_dom in Hin; [|exact Hseg]. by apply is_fresh in Hin. }
  assert (b ∉ contents h ls) as Hbn' by (rewrite (contents_cons _ _ _ _ Hl) in Hbn; set_solver).
  assert (l' ∉ ls) as Hln' by set_solver.
  split.
  - apply lseg_buf_other; [by rewrite contents_upd_frm|].
    apply lseg_frm_other; [done|]. by apply lseg_buf_other.
  - change (hflags f) with (hflags f').
    econstructor; [cbn; by rewrite lookup_insert_eq | cbn; by rewrite lookup_insert_eq |].
    apply lseg_buf_other; [by rewrite contents_upd_frm|].
    apply lseg_frm_other; [done|]. by apply lseg_buf_other.
Qed.

Lemma upd_buf_twice h b c d : upd_buf (upd_buf h b c) b d = upd_buf h b d.
Proof. unfold upd_buf. cbn. by rewrite insert_insert_eq. Qed.

Lemma copy_run h m l f c c1 c2 :
  startFrame m = Some l -> frms h !! l = Some f -> bufs h !! hcontent f = Some c ->
  writeInt32LE c (js_or 0xFFFFFFFF 0) CORRELATION_ID_OFFSET = Ok c1 ->
  writeInt32LE c1 (js_or 0xFFFFFFFF 0) (CORRELATION_ID_OFFSET + INT_SIZE_IN_BYTES) = Ok c2 ->
  let b := fresh (dom (bufs h)) in
  let l' := fresh (dom (frms h)) in
  let f' := mkHframe b (hnext f) (hflags f) in
  let h2 := upd_frm (upd_buf h b c) l' f' in
  Message.copyWithNewCorrelationId m h =
    Ok (mkClientMessage (Some l') (endFrame (Message.create (Some l') (endFrame m)))
          (retryable m) None (Some l') None, upd_buf h2 b c2) /\
  frms h2 !! l' = Some f' /\
  (forall x, bufs (upd_buf h2 b x) !! b = Some x).
Proof.
  intros Hst Hl Hc W1 W2 b l' f' h2.
  assert (frms h2 !! l' = Some f') as Hf' by (cbn; by rewrite lookup_insert_eq).
  assert (forall x, bufs (upd_buf h2 b x) !! b = Some x) as Hbx by (intros; cbn; by rewrite lookup_insert_eq).
  assert (bufs h2 !! b = Some c) as Hb0 by (cbn; by rewrite lookup_insert_eq).
  split; [|done]. unfold Message.copyWithNewCorrelationId. rewrite Hst.
  rewrite (HM_bind_ok (deref (Some l)) _ h l h) by done.
  rewrite (HM_bind_ok _ _ _ _ _ (deepCopy_ok _ _ _ _ Hl Hc)). fold b l' f' h2. cbn zeta.
  set (m0 := Message.create (Some l') (endFrame m)).
  assert (Message.resetCorrelationId m0 h2 = Ok (tt, upd_buf h2 b c2)) as E.
  { unfold Message.resetCorrelationId.
    rewrite (HM_bind_ok _ _ _ _ _ (write_start_ok h2 m0 l' f' c _ c1 eq_refl Hf' Hb0 W1)).
    rewrite (write_start_ok (upd_buf h2 b c1) m0 l' f' c1 _ c2 eq_refl Hf' (Hbx c1) W2). by rewrite upd_buf_twice. }
  by rewrite (HM_bind_ok _ _ _ _ _ E).
Qed.

Lemma number_as_long_roundtrip' c off id :
  in_bounds c off 8 = true -> 0 <= id <= 2 ^ 53 - 1 ->
  exists c', encodeNonNegativeNumberAsLong c off id = Ok c' /\ decodeNumberFromLong c' off = Ok id.
Proof.
  intros Hb Hid. destruct (encode_number_ok (L := Int64.t) c off id Hb Hid) as (c' & E & R & _). eauto.
Qed.

(** [copyWithNewCorrelationId] returns a message with the same frames, its
    correlation id reset to -1 and the same retryability. Although the two
    messages share every frame but the first, the original still holds exactly
    its frames, and so it does after a correlation id is set on the copy, which
    the copy then reports. *)
Theorem copy_leaves_original h m l ls f0 fs id :
  repr h m (l :: ls) (f0 :: fs) ->
  in_bounds (content f0) CORRELATION_ID_OFFSET 8 = true ->
  0 <= id <= 2 ^ 53 - 1 ->
  exists m' h' h'' l',
    Message.copyWithNewCorrelationId m h = Ok (m', h') /\
    lseg h' (startFrame m') (l' :: ls)
      (mkFrame (write_at (content f0) CORRELATION_ID_OFFSET (replicate 8 Byte.xff)) (flags f0) :: fs)
      None /\
    Message.getCorrelationId m' h' = Ok (-1, h') /\
    retryable m' = retryable m /\
    repr h' m (l :: ls) (f0 :: fs) /\
    Message.setCorrelationId m' id h' = Ok (tt, h'') /\
    repr h'' m (l :: ls) (f0 :: fs) /\
    Message.getCorrelationId m' h'' = Ok (id, h'').
Proof.
  intros Hr Hb Hid. pose proof Hr as [Hseg Hnd Hend Hcache].
  assert (startFrame m = Some l) as Hst by (by inversion Hseg).
  inversion Hseg as [|k f c ls' fs' p Hl Hc Hs]; subst. cbn [content flags] in *.
  destruct (reset_content c Hb) as (c1 & c2 & W1 & W2 & R & Ec2).
  assert (in_bounds c2 CORRELATION_ID_OFFSET 8 = true) as Hb2 by (rewrite Ec2; by rewrite in_bounds_write).
  rewrite <- Ec2. clear Ec2.
  destruct (number_as_long_roundtrip' c2 CORRELATION_ID_OFFSET id Hb2 Hid) as (c3 & W3 & R3).
  destruct (copy_run h m l f c c1 c2 Hst Hl Hc W1 W2) as (E & Hf' & Hbx).
  pose proof (fun x => deep_copied h l f c ls fs x Hl Hc Hs) as Hx. cbn zeta in Hx, E, Hf', Hbx.
  set (b := fresh (dom (bufs h))) in *. set (l' := fresh (dom (frms h))) in *.
  set (f' := mkHframe b (hnext f) (hflags f)) in *.
  set (h2 := upd_frm (upd_buf h b c) l' f') in *.
  eexists _, (upd_buf h2 b c2), (upd_buf h2 b c3), l'.
  split; [exact E|]. split_and!.
  - apply (Hx c2).
  - by apply (read_start_ok (upd_buf h2 b c2) _ l' f' c2).
  - done.
  - split; [rewrite Hst; apply (Hx c2) | done | done | done].
  - unfold Message.setCorrelationId.
    erewrite (write_start_ok (upd_buf h2 b c2) _ l' f' c2 _ c3);
      [by rewrite upd_buf_twice | done | done | apply Hbx | done].
  - split; [rewrite Hst; apply (Hx c3) | done | done | done].
  - by apply (read_start_ok (upd_buf h2 b c3) _ l' f' c3).
Qed.

(** ** Fragments *)

Lemma dropFragmentationFrame_ok h m l ls f fs :
  repr h m (l :: ls) (f :: fs) -> cm_nextFrame m = startFrame m ->
  exists m', Message.dropFragmentationFrame m h = Ok (m', h) /\
    lseg h (startFrame m') ls fs None /\ endFrame m' = last (l :: ls).
Proof.
  intros [Hseg _ Hend _] Hcur. assert (startFrame m = Some l) as Hst by (by inversion Hseg).
  inversion Hseg as [|k g c ls' fs' p Hl Hc Hs]; subst.
  unfold Message.dropFragmentationFrame. rewrite Hcur, Hst.
  rewrite (HM_bind_ok (deref (Some l)) _ h l h) by done.
  rewrite (HM_bind_ok _ _ _ _ _ (get_frame_ok _ _ _ Hl)).
  rewrite (HM_bind_ok (deref (Some l)) _ h l h) by done.
  rewrite (HM_bind_ok _ _ _ _ _ (get_frame_ok _ _ _ Hl)).
  eexists. split; [reflexivity|]. done.
Qed.

(** Dropping the fragmentation frame of a fragment and merging the rest into
    the message under assembly yields a well-formed message with the frames of
    both in order; no frame is lost or repeated. *)
Theorem merge_fragment h m ls fs fragment l ls' f fs' :
  repr h m ls fs -> ls <> [] ->
  repr h fragment (l :: ls') (f :: fs') -> ls' <> [] ->
  cm_nextFrame fragment = startFrame fragment ->
  NoDup (ls ++ ls') ->
  exists fragment' m' h',
    Message.dropFragmentationFrame fragment h = Ok (fragment', h) /\
    Message.merge m fragment' h = Ok (m', h') /\
    repr h' m' (ls ++ ls') (fs ++ fs').
Proof.
  intros [Hseg Hnd Hend _] Hne Hfr Hne' Hcur Hdis.
  destruct (dropFragmentationFrame_ok _ _ _ _ _ _ Hfr Hcur) as (fragment' & E & Hs & He).
  apply exists_last in Hne as (ls0 & e & ->).
  rewrite last_snoc in Hend.
  assert (exists g, frms h !! e = Some g) as [g Hg].
  { apply elem_of_dom. eapply (lseg_dom _ _ _ _ _ _ Hseg). set_solver. }
  assert (e ∉ ls') as Hnin.
  { apply NoDup_app in Hdis as (_ & Hd & _). apply Hd. set_solver. }
  eexists fragment', _, _. split; [done|]. unfold Message.merge. rewrite Hend.
  rewrite (HM_bind_ok (deref (Some e)) _ h e h) by done.
  rewrite (HM_bind_ok _ _ _ _ _ (set_next_ok h e g (startFrame fragment') Hg)).
  split; [reflexivity|]. split; cbn [startFrame endFrame cachedTotalLength].
  - eapply lseg_app; [by eapply lseg_redirect|]. by apply lseg_frm_other.
  - done.
  - rewrite He, last_app. destruct ls' as [|k ls']; [done|]. rewrite last_cons_cons.
    destruct (last (k :: ls')) eqn:El; [done|]. by apply last_None in El.
  - done.
Qed.

(** ** Witnesses *)

Definition frag_heap : heap := mkHeap
  {[ 0%nat := replicate 16 Byte.x00; 1%nat := [Byte.x41]; 2%nat := replicate 8 Byte.x07;
     3%nat := [Byte.x42] ]}
  {[ 0%nat := mkHframe 0 (Some 1%nat) UNFRAGMENTED_MESSAGE; 1%nat := mkHframe 1 None 0;
     2%nat := mkHframe 2 (Some 3%nat) END_FRAGMENT_FLAG; 3%nat := mkHframe 3 None 0;
     4%nat := mkHframe 1 None 0 ]}.

Definition msg0 : ClientMessage := Message.createForDecode 0%nat (Some 1%nat).
Definition msg1 : ClientMessage := Message.createForDecode 2%nat (Some 3%nat).

Lemma two_frames l k (f g : hframe) c d :
  frms frag_heap !! l = Some f -> bufs frag_heap !! hcontent f = Some c -> hnext f = Some k ->
  frms frag_heap !! k = Some g -> bufs frag_heap !! hcontent g = Some d -> hnext g = None ->
  l <> k ->
  repr frag_heap (Message.createForDecode l (Some k)) [l; k]
    [mkFrame c (hflags f); mkFrame d (hflags g)].
Proof.
  intros Hl Hc Hn Hk Hd Hn' Hne. split; [|by apply NoDup_cons; rewrite list_elem_of_singleton; auto using NoDup_singleton | done | done].
  apply lseg_cons; [done | done |]. rewrite Hn. apply lseg_cons; [done | done |].
  rewrite Hn'. constructor.
Qed.

Lemma msg0_repr : repr frag_heap msg0 [0%nat; 1%nat]
  [mkFrame (replicate 16 Byte.x00) UNFRAGMENTED_MESSAGE; mkFrame [Byte.x41] 0].
Proof. by apply (two_frames 0 1 (mkHframe 0 (Some 1%nat) UNFRAGMENTED_MESSAGE) (mkHframe 1 None 0)). Qed.

Lemma msg1_repr : repr frag_heap msg1 [2%nat; 3%nat]
  [mkFrame (replicate 8 Byte.x07) END_FRAGMENT_FLAG; mkFrame [Byte.x42] 0].
Proof. by apply (two_frames 2 3 (mkHframe 2 (Some 3%nat) END_FRAGMENT_FLAG) (mkHframe 3 None 0)). Qed.

Lemma addFrame_refines_witness :
  exists m' h', Message.addFrame msg0 4%nat frag_heap = Ok (m', h') /\
    repr h' m' [0%nat; 1%nat; 4%nat]
      [mkFrame (replicate 16 Byte.x00) UNFRAGMENTED_MESSAGE; mkFrame [Byte.x41] 0;
       mkFrame [Byte.x41] 0].
Proof.
  apply (addFrame_refines frag_heap msg0 [0%nat; 1%nat] _ 4%nat (mkHframe 1 None 0) [Byte.x41]
    msg0_repr); [reflexivity | reflexivity |].
  apply (bool_decide_unpack _). vm_compute. done.
Defined.

Lemma toBuffer_wire_witness :
  exists m', Message.toBuffer (H := fun _ => Byte.xee) msg0 frag_heap =
    Ok ((wire [mkFrame (replicate 16 Byte.x00) UNFRAGMENTED_MESSAGE; mkFrame [Byte.x41] 0], m'),
        frag_heap).
Proof.
  destruct (toBuffer_wire (H := fun _ => Byte.xee) _ _ _ _ msg0_repr) as (m' & E & _); [|eauto].
  repeat constructor; vm_compute; done.
Defined.

Lemma copy_leaves_original_witness :
  exists m' h', Message.copyWithNewCorrelationId msg0 frag_heap = Ok (m', h') /\
    Message.getCorrelationId m' h' = Ok (-1, h').
Proof.
  destruct (copy_leaves_original _ _ _ _ _ _ 77 msg0_repr)
    as (m' & h' & h'' & l' & E & _ & R & _); [reflexivity | lia |].
  eauto.
Defined.

Lemma merge_fragment_witness :
  exists fragment' m' h',
    Message.dropFragmentationFrame msg1 frag_heap = Ok (fragment', frag_heap) /\
    Message.merge msg0 fragment' frag_heap = Ok (m', h') /\
    repr h' m' [0%nat; 1%nat; 3%nat]
      [mkFrame (replicate 16 Byte.x00) UNFRAGMENTED_MESSAGE; mkFrame [Byte.x41] 0;
       mkFrame [Byte.x42] 0].
Proof.
  apply (merge_fragment frag_heap msg0 [0%nat; 1%nat] _ msg1 2%nat [3%nat]
    (mkFrame (replicate 8 Byte.x07) END_FRAGMENT_FLAG) _ msg0_repr);
    [done | exact msg1_repr | done | reflexivity |].
  apply (bool_decide_unpack _). vm_compute. done.
Defined.
