(* ===== verification/MessageReader.v ===== *)
(** * Reading messages from a socket

    [ClientMessageReader], [FragmentedClientMessageHandler] and the data callback
    of [Connection.registerResponseCallback], from [src/network/Connection.ts].
    The reader gathers the chunks a socket delivers, cuts them into frames and
    the frames into messages; fragments of a message are put together by their
    fragmentation id. Messages are seen by value ([Frames.v]). *)

From S2P Require Export Frames.
#[local] Open Scope Z_scope.

(** ** ClientMessageReader *)

Record ClientMessageReader := mkReader {
  chunks : list buffer;
  chunksTotalSize : Z;
  frameSize : Z;
  rd_flags : Z;
  clientMessage : option frames
}.

Definition newReader : ClientMessageReader := mkReader [] 0 0 0 None.

Definition append (r : ClientMessageReader) (b : buffer) : ClientMessageReader :=
  mkReader (chunks r ++ [b]) (chunksTotalSize r + blen b) (frameSize r) (rd_flags r)
    (clientMessage r).

(** The loop of [readFrameSizeAndFlags] over the chunks: [seen] are the chunks
    before [rest]. *)
Fixpoint merge_header (seen rest : list buffer) (readChunksSize : Z) : res (Z * Z) :=
  match rest with
  | [] => Err Error
  | c :: rest =>
      let readChunksSize := readChunksSize + blen c in
      if SIZE_OF_FRAME_LENGTH_AND_FLAGS <=? readChunksSize then
        let merged := concat (seen ++ [c]) in
        size ← readInt32LE merged 0;
        fl ← readUInt16LE merged INT_SIZE_IN_BYTES;
        mret (size, fl)
      else merge_header (seen ++ [c]) rest readChunksSize
  end.

Definition readFrameSizeAndFlags (r : ClientMessageReader) : res ClientMessageReader :=
  c0 ← match chunks r with c :: _ => Ok c | [] => Err TypeError end;
  '(size, fl) ←
    (if SIZE_OF_FRAME_LENGTH_AND_FLAGS <=? blen c0 then
       size ← readInt32LE c0 0;
       fl ← readUInt16LE c0 INT_SIZE_IN_BYTES;
       mret (size, fl)
     else merge_header [] (chunks r) 0);
  mret (mkReader (chunks r) (chunksTotalSize r) size fl (clientMessage r)).

(** The single chunk, or [Buffer.concat] of all of them. *)
Definition join_chunks (cs : list buffer) : buffer :=
  match cs with [c] => c | _ => concat cs end.

Definition readFrame (r : ClientMessageReader) : res (bool * ClientMessageReader) :=
  if chunksTotalSize r <? SIZE_OF_FRAME_LENGTH_AND_FLAGS then Ok (false, r)
  else
    r ← (if frameSize r =? 0 then readFrameSizeAndFlags r else Ok r);
    if chunksTotalSize r <? frameSize r then Ok (false, r)
    else
      let buf := join_chunks (chunks r) in
      let '(chunks', content) :=
        if chunksTotalSize r >? frameSize r then
          ([slice_from buf (frameSize r)],
           slice buf SIZE_OF_FRAME_LENGTH_AND_FLAGS (frameSize r))
        else ([], slice_from buf SIZE_OF_FRAME_LENGTH_AND_FLAGS) in
      let frame := mkFrame content (rd_flags r) in
      let message := match clientMessage r with
                     | None => [frame]
                     | Some m => addFrame m frame
                     end in
      Ok (true, mkReader chunks' (chunksTotalSize r - frameSize r) 0 (rd_flags r) (Some message)).

Definition reader_reset (r : ClientMessageReader) : ClientMessageReader :=
  mkReader (chunks r) (chunksTotalSize r) (frameSize r) (rd_flags r) None.

(** The endless loop of [read]. *)
Fixpoint read (fuel : nat) (r : ClientMessageReader) : res (option frames * ClientMessageReader) :=
  match fuel with
  | O => Err OutOfFuel
  | S fuel =>
      '(got, r) ← readFrame r;
      if got : bool then
        message ← match clientMessage r with Some m => Ok m | None => Err TypeError end;
        endFrame ← match last message with Some f => Ok f | None => Err TypeError end;
        if isFinalFrame endFrame then Ok (Some message, reader_reset r)
        else read fuel r
      else Ok (None, r)
  end.

(** The [while] loop of the data callback: the messages read, in order. *)
Fixpoint read_all (fuel : nat) (r : ClientMessageReader) : res (list frames * ClientMessageReader) :=
  match fuel with
  | O => Err OutOfFuel
  | S fuel' =>
      '(m, r) ← read fuel r;
      match m with
      | None => Ok ([], r)
      | Some m => '(ms, r) ← read_all fuel' r; Ok (m :: ms, r)
      end
  end.

(** Every frame takes at least six bytes, so the number of buffered bytes bounds
    the iterations of both loops. *)
Definition reader_fuel (r : ClientMessageReader) : nat := S (S (Z.to_nat (chunksTotalSize r))).

(** One ['data'] event. *)
Definition on_data (r : ClientMessageReader) (b : buffer) : res (list frames * ClientMessageReader) :=
  let r := append r b in read_all (reader_fuel r) r.

(** A sequence of ['data'] events. *)
Fixpoint on_data_all (r : ClientMessageReader) (bs : list buffer)
    : res (list frames * ClientMessageReader) :=
  match bs with
  | [] => Ok ([], r)
  | b :: bs =>
      '(ms, r) ← on_data r b;
      '(ms', r) ← on_data_all r bs;
      Ok (ms ++ ms', r)
  end.

(** ** The stream of frames *)

(** The frames of a message as they are read back: the last one is final. *)
Fixpoint finalize (fs : frames) : frames :=
  match fs with
  | [] => []
  | [f] => [mkFrame (content f) (js_or (flags f) IS_FINAL_FLAG)]
  | f :: rest => f :: finalize rest
  end.

Definition flat_bytes (fs : frames) : buffer := concat (map (fun f => frame_bytes f (flags f)) fs).

Lemma wire_flat fs : wire fs = flat_bytes (finalize fs).
Proof.
  induction fs as [|f [|g fs] IH]; [done | cbn; by rewrite app_nil_r |].
  rewrite wire_cons, IH. done.
Qed.

Lemma flat_bytes_app fs gs : flat_bytes (fs ++ gs) = flat_bytes fs ++ flat_bytes gs.
Proof. unfold flat_bytes. by rewrite map_app, concat_app. Qed.

Lemma flat_bytes_cons f fs : flat_bytes (f :: fs) = frame_bytes f (flags f) ++ flat_bytes fs.
Proof. done. Qed.

Lemma wires_flat ms : concat (map wire ms) = flat_bytes (concat (map finalize ms)).
Proof.
  induction ms as [|m ms IH]; [done|]. cbn [map concat]. by rewrite flat_bytes_app, <- wire_flat, IH.
Qed.

(** The header of a frame at the head of a stream. *)
Definition hdr_size (b : buffer) : Z := swrap 32 (le_combine (take 4 b)).
Definition hdr_flags (b : buffer) : Z := le_combine (take 2 (drop 4 b)).

Lemma hdr_size_app b c : (6 <= length b)%nat -> hdr_size (b ++ c) = hdr_size b.
Proof. intros. unfold hdr_size. by rewrite take_app_le by lia. Qed.

Lemma hdr_flags_app b c : (6 <= length b)%nat -> hdr_flags (b ++ c) = hdr_flags b.
Proof. intros. unfold hdr_flags. rewrite drop_app_le by lia. rewrite take_app_le; [done|]. rewrite length_drop. lia. Qed.

Lemma hdr_frame f rest :
  frame_ok f ->
  hdr_size (frame_bytes f (flags f) ++ rest) = getLength f /\
  hdr_flags (frame_bytes f (flags f) ++ rest) = flags f.
Proof.
  intros [Hfl Hlen]. unfold hdr_size, hdr_flags, frame_bytes. rewrite <- !app_assoc.
  rewrite take_app_length', drop_app_length' by (by rewrite length_le_split).
  rewrite take_app_length' by (by rewrite length_le_split).
  pose proof (getLength_pos f). split.
  - apply (swrap_split 4); [lia|]. unfold in_sint. cbn in *. lia.
  - by apply (uwrap_split 2).
Qed.

Lemma read_header b :
  (6 <= length b)%nat ->
  readInt32LE b 0 = Ok (hdr_size b) /\ readUInt16LE b INT_SIZE_IN_BYTES = Ok (hdr_flags b).
Proof.
  intros Hb. unfold readInt32LE, readSIntLE, readUInt16LE.
  rewrite !readUIntLE_sub by (apply in_bounds_true; unfold INT_SIZE_IN_BYTES; lia). done.
Qed.

(** ** What the reader holds *)

(** [r] has the complete frames [P] of the message being read and the bytes [B]
    after them, and a header it has parsed is the one at the head of [B]. *)
Record holds (r : ClientMessageReader) (P : frames) (B : buffer) : Prop := {
  holds_message : clientMessage r = match P with [] => None | _ => Some P end;
  holds_bytes : concat (chunks r) = B;
  holds_total : chunksTotalSize r = blen B;
  holds_header : frameSize r = 0 \/
    ((6 <= length B)%nat /\ frameSize r = hdr_size B /\ rd_flags r = hdr_flags B)
}.

Lemma merge_header_ok rest : forall seen n,
  n = blen (concat seen) -> n < 6 -> (6 <= length (concat (seen ++ rest)))%nat ->
  merge_header seen rest n = Ok (hdr_size (concat (seen ++ rest)), hdr_flags (concat (seen ++ rest))).
Proof.
  induction rest as [|c rest IH]; intros seen n Hn Hlt H6.
  - rewrite app_nil_r in H6. lia.
  - cbn [merge_header]. change SIZE_OF_FRAME_LENGTH_AND_FLAGS with 6.
    assert (n + blen c = blen (concat (seen ++ [c]))) as E.
    { rewrite concat_app, length_app. cbn. rewrite app_nil_r. lia. }
    replace (seen ++ c :: rest) with ((seen ++ [c]) ++ rest) in * by (by rewrite <- app_assoc).
    destruct (Z.leb_spec 6 (n + blen c)) as [Hle|Hlt'].
    + destruct (read_header (concat (seen ++ [c]))) as [-> ->]; [lia|]. cbn.
      rewrite (concat_app (seen ++ [c]) rest), hdr_size_app, hdr_flags_app by lia. done.
    + apply IH; [done | lia | done].
Qed.

Lemma readFrameSizeAndFlags_ok r P B :
  holds r P B -> (6 <= length B)%nat ->
  exists r', readFrameSizeAndFlags r = Ok r' /\ holds r' P B /\
    frameSize r' = hdr_size B /\ rd_flags r' = hdr_flags B.
Proof.
  intros [Hm Hb Ht Hh] H6. unfold readFrameSizeAndFlags.
  destruct (chunks r) as [|c cs] eqn:Ec; [subst B; cbn in H6; lia|]. cbn [mbind res_bind].
  assert ((if SIZE_OF_FRAME_LENGTH_AND_FLAGS <=? blen c
     then readInt32LE c 0 ≫= λ size : Z, readUInt16LE c INT_SIZE_IN_BYTES ≫= λ fl : Z, mret (size, fl)
     else merge_header [] (c :: cs) 0) = Ok (hdr_size B, hdr_flags B)) as ->.
  { change SIZE_OF_FRAME_LENGTH_AND_FLAGS with 6. destruct (Z.leb_spec 6 (blen c)).
    - destruct (read_header c) as [-> ->]; [lia|]. cbn. subst B. cbn.
      by rewrite hdr_size_app, hdr_flags_app by lia.
    - subst B. apply (merge_header_ok (c :: cs) []); [done | lia | done]. }
  eexists. split; [reflexivity|]. split_and!; [|done|done].
  split; cbn; [done | done | done | by right].
Qed.

Lemma join_chunks_concat cs : join_chunks cs = concat cs.
Proof. destruct cs as [|c [|d cs]]; cbn; rewrite ?app_nil_r; done. Qed.

Definition head_frame (B : buffer) : Frame :=
  mkFrame (drop 6 (take (Z.to_nat (hdr_size B)) B)) (hdr_flags B).

Lemma message_snoc (P : frames) f :
  match (match P with [] => None | _ => Some P end) with
  | None => [f] | Some m => addFrame m f end = P ++ [f].
Proof. by destruct P. Qed.

(** What [readFrame] does: it waits for a whole frame, then cuts it off. *)
Lemma readFrame_ok r P B :
  holds r P B -> ((6 <= length B)%nat -> 6 <= hdr_size B) ->
  exists got r', readFrame r = Ok (got, r') /\
    if decide (6 <= length B)%nat then
      if decide (hdr_size B <= blen B) then
        got = true /\ holds r' (P ++ [head_frame B]) (drop (Z.to_nat (hdr_size B)) B)
      else got = false /\ holds r' P B
    else got = false /\ holds r' P B.
Proof.
  intros Hh Hsz. pose proof Hh as [Hm Hb Ht Hhd]. unfold readFrame.
  rewrite Ht. change SIZE_OF_FRAME_LENGTH_AND_FLAGS with 6.
  destruct (Z.ltb_spec (blen B) 6); [exists false, r; case_decide; [lia|done]|].
  assert (6 <= length B)%nat as H6 by lia. specialize (Hsz H6).
  assert (exists r1, (if frameSize r =? 0 then readFrameSizeAndFlags r else Ok r) = Ok r1 /\
    holds r1 P B /\ frameSize r1 = hdr_size B /\ rd_flags r1 = hdr_flags B) as (r1 & -> & Hh1 & Hf1 & Hl1).
  { destruct Hhd as [->|(_ & Hf & Hl)]; [by apply readFrameSizeAndFlags_ok|].
    rewrite (proj2 (Z.eqb_neq _ 0)) by lia. eauto. }
  clear Hm Hb Ht Hhd. pose proof Hh1 as [Hm Hb Ht _]. rewrite res_bind_ok, Ht, Hf1.
  destruct (decide (6 <= length B)%nat); [|lia].
  destruct (Z.ltb_spec (blen B) (hdr_size B)); [exists false, r1; by rewrite decide_False by lia|].
  destruct (decide (hdr_size B <= blen B)); [|lia]. rewrite join_chunks_concat, Hb.
  assert ((if blen B >? hdr_size B
     then ([slice_from B (hdr_size B)], slice B 6 (hdr_size B))
     else ([], slice_from B 6)) =
    (if blen B >? hdr_size B then [drop (Z.to_nat (hdr_size B)) B] else [],
     content (head_frame B))) as ->.
  { rewrite Z.gtb_ltb. destruct (Z.ltb_spec (hdr_size B) (blen B)); [done|]. cbn.
    rewrite take_ge by lia. done. }
  rewrite Hm, message_snoc, Hl1. eexists true, _. split; [reflexivity|]. split; [done|].
  split; cbn [clientMessage chunks chunksTotalSize frameSize].
  - destruct P; done.
  - rewrite Z.gtb_ltb. destruct (Z.ltb_spec (hdr_size B) (blen B)); cbn.
    + by rewrite app_nil_r.
    + by rewrite drop_ge by lia.
  - rewrite length_drop. lia.
  - by left.
Qed.

(** ** From frames to messages *)

(** The messages in a sequence of frames after the frames [P], and the frames of
    the unfinished one. *)
Fixpoint group (P G : frames) : list frames * frames :=
  match G with
  | [] => ([], P)
  | g :: G =>
      if isFinalFrame g then let '(ms, P') := group [] G in ((P ++ [g]) :: ms, P')
      else group (P ++ [g]) G
  end.

Lemma group_app G1 : forall P G2,
  group P (G1 ++ G2) =
  let '(ms1, P1) := group P G1 in let '(ms2, P2) := group P1 G2 in (ms1 ++ ms2, P2).
Proof.
  induction G1 as [|g G1 IH]; intros P G2; cbn.
  - by destruct (group P G2).
  - destruct (isFinalFrame g).
    + rewrite IH. destruct (group [] G1) as [ms1 P1]. by destruct (group P1 G2).
    + apply IH.
Qed.

Lemma head_frame_ok f rest :
  frame_ok f -> head_frame (frame_bytes f (flags f) ++ rest) = f.
Proof.
  intros Hf. unfold head_frame. destruct (hdr_frame f rest Hf) as [-> ->].
  pose proof (length_frame_bytes f (flags f)) as Hl.
  rewrite take_app_length' by lia. unfold frame_bytes.
  rewrite app_assoc, drop_app_length' by (by rewrite length_app, !length_le_split).
  by destruct f.
Qed.

Lemma flat_bytes_nil G : flat_bytes G = [] -> G = [].
Proof.
  destruct G as [|g G]; [done|]. rewrite flat_bytes_cons. intros E.
  apply (f_equal length) in E. rewrite length_app in E.
  pose proof (length_frame_bytes g (flags g)). pose proof (getLength_pos g). cbn in E. lia.
Qed.

Lemma app_prefix {A} (b f w rest : list A) :
  b ++ f = w ++ rest -> (length w <= length b)%nat ->
  exists b', b = w ++ b' /\ b' ++ f = rest.
Proof.
  intros E Hl. exists (drop (length w) b).
  assert (take (length w) b = w) as Ht.
  { apply (f_equal (take (length w))) in E. rewrite take_app_le, take_app_length in E by done. done. }
  split.
  - rewrite <- Ht at 1. by rewrite take_drop.
  - apply (f_equal (drop (length w))) in E. rewrite drop_app_le, drop_app_length in E by done. done.
Qed.

(** The next step of a reader on a stream of well-formed frames. *)
Lemma readFrame_stream r P B F g G :
  holds r P B -> B ++ F = flat_bytes (g :: G) -> frame_ok g ->
  exists got r', readFrame r = Ok (got, r') /\
    if got : bool then
      exists B', holds r' (P ++ [g]) B' /\ B' ++ F = flat_bytes G /\ blen B' + 6 <= blen B
    else holds r' P B /\ F <> [].
Proof.
  intros Hh E Hg. rewrite flat_bytes_cons in E.
  pose proof (length_frame_bytes g (flags g)) as Hlen. pose proof (getLength_pos g).
  destruct (hdr_frame g (flat_bytes G) Hg) as [Hs Hf].
  assert ((6 <= length B)%nat -> hdr_size B = getLength g) as Hsz.
  { intros H6. by rewrite <- (hdr_size_app B F H6), E. }
  assert (blen B < getLength g -> F <> []) as Hinc.
  { intros Hlt ->. rewrite app_nil_r in E. subst B. rewrite length_app in Hlt. lia. }
  destruct (readFrame_ok r P B Hh) as (got & r' & Er & Hr); [intros H6; rewrite Hsz; lia|].
  exists got, r'. split; [done|].
  destruct (decide (6 <= length B)%nat) as [H6|H6].
  - rewrite Hsz in Hr by done. case_decide as Hle; destruct Hr as [-> Hr].
    + destruct (app_prefix _ _ _ _ E) as (B' & -> & E'); [lia|].
      rewrite head_frame_ok in Hr by done.
      rewrite drop_app_length' in Hr by lia.
      exists B'. split_and!; [done | done |]. rewrite length_app. lia.
    + split; [done|]. apply Hinc. lia.
  - destruct Hr as [-> Hr]. split; [done|]. apply Hinc. lia.
Qed.

Lemma holds_snoc_message r P g B :
  holds r (P ++ [g]) B -> clientMessage r = Some (P ++ [g]).
Proof. intros [-> _ _ _]. by destruct P. Qed.

Lemma holds_reset r P B : holds r P B -> holds (reader_reset r) [] B.
Proof. intros [_ ? ? ?]. by split. Qed.

Lemma readFrame_empty r P : holds r P [] -> readFrame r = Ok (false, r).
Proof. intros [_ _ Ht _]. unfold readFrame. by rewrite Ht. Qed.

Lemma read_stream G : forall fuel r P B F,
  holds r P B -> B ++ F = flat_bytes G -> Forall frame_ok G -> blen B < 6 * Z.of_nat fuel ->
  exists om r', read fuel r = Ok (om, r') /\
    match om with
    | Some m => exists G1 G2 B', G = G1 ++ G2 /\ group P G1 = ([m], []) /\
        holds r' [] B' /\ B' ++ F = flat_bytes G2 /\ blen B' + 6 <= blen B
    | None => exists G1 G2 P' B', G = G1 ++ G2 /\ group P G1 = ([], P') /\
        holds r' P' B' /\ B' ++ F = flat_bytes G2 /\ (F = [] -> G2 = [])
    end.
Proof.
  induction G as [|g G IH]; intros [|fuel] r P B F Hh E Hok Hfuel; try lia; cbn [read].
  - apply app_nil in E as [-> ->]. rewrite (readFrame_empty r P Hh). cbn.
    exists None, r. split; [done|]. exists [], [], P, []. done.
  - apply Forall_cons in Hok as [Hg Hok].
    destruct (readFrame_stream r P B F g G Hh E Hg) as ([] & r' & Er & Hr); rewrite Er; cbn.
    + destruct Hr as (B' & Hh' & E' & Hlt).
      rewrite (holds_snoc_message _ _ _ _ Hh'). cbn. rewrite last_snoc. cbn.
      destruct (isFinalFrame g) eqn:Ef.
      * exists (Some (P ++ [g])), (reader_reset r'). split; [done|].
        exists [g], G, B'. split_and!; [done | cbn; by rewrite Ef | by eapply holds_reset | done | done].
      * destruct (IH fuel r' (P ++ [g]) B' F Hh' E' Hok) as (om & r'' & Erd & Hom); [lia|].
        exists om, r''. split; [done|]. destruct om as [m|].
        -- destruct Hom as (G1 & G2 & B'' & -> & Hgr & ? & ? & ?).
           exists (g :: G1), G2, B''. cbn. rewrite Ef. split_and!; (done || lia).
        -- destruct Hom as (G1 & G2 & P' & B'' & -> & Hgr & ? & ? & ?).
           exists (g :: G1), G2, P', B''. cbn. rewrite Ef. done.
    + destruct Hr as [Hh' HF]. exists None, r'. split; [done|].
      exists [], (g :: G), P, B. done.
Qed.

Lemma read_all_stream fuel : forall G r P B F,
  holds r P B -> B ++ F = flat_bytes G -> Forall frame_ok G -> blen B < 6 * Z.of_nat fuel ->
  exists ms r', read_all fuel r = Ok (ms, r') /\
    exists G1 G2 P' B', G = G1 ++ G2 /\ group P G1 = (ms, P') /\
      holds r' P' B' /\ B' ++ F = flat_bytes G2 /\ (F = [] -> G2 = []).
Proof.
  induction fuel as [|fuel IH]; intros G r P B F Hh E Hok Hfuel; [lia|].
  cbn [read_all]. destruct (read_stream G (S fuel) r P B F Hh E Hok Hfuel) as (om & r' & Er & Hom).
  rewrite Er. cbn. destruct om as [m|].
  - destruct Hom as (G1 & G2 & B' & -> & Hgr & Hh' & E' & Hlt).
    apply Forall_app in Hok as [_ Hok].
    destruct (IH G2 r' [] B' F Hh' E' Hok) as (ms & r'' & Ers & H1 & H2 & P' & B'' & -> & Hgr' & Hrest); [lia|].
    rewrite Ers. cbn. exists (m :: ms), r''. split; [done|].
    exists (G1 ++ H1), H2, P', B''. rewrite <- app_assoc, group_app, Hgr, Hgr'. done.
  - destruct Hom as (G1 & G2 & P' & B' & -> & Hgr & Hrest). exists [], r'. split; [done|].
    exists G1, G2, P', B'. done.
Qed.

Lemma holds_append r P B b : holds r P B -> holds (append r b) P (B ++ b).
Proof.
  intros [Hm Hb Ht Hh]. split; cbn.
  - done.
  - rewrite concat_app, Hb. cbn. by rewrite app_nil_r.
  - rewrite Ht, length_app. lia.
  - destruct Hh as [?|(H6 & ? & ?)]; [by left|]. right.
    rewrite length_app, hdr_size_app, hdr_flags_app by done. split_and!; (done || lia).
Qed.

Lemma on_data_stream bs : forall G r P B,
  holds r P B -> B ++ concat bs = flat_bytes G -> Forall frame_ok G -> (concat bs = [] -> G = []) ->
  exists ms r' P', on_data_all r bs = Ok (ms, r') /\ group P G = (ms, P') /\ holds r' P' [].
Proof.
  induction bs as [|b bs IH]; intros G r P B Hh E Hok Hinc.
  - rewrite Hinc in * by done. apply app_nil in E as [-> _]. by exists [], r, P.
  - cbn [on_data_all]. apply holds_append with (b := b) in Hh. cbn [concat] in E.
    rewrite app_assoc in E. unfold on_data.
    destruct (read_all_stream (reader_fuel (append r b)) G _ P _ _ Hh E Hok)
      as (ms & r' & Er & G1 & G2 & P' & B' & -> & Hgr & Hh' & E' & Hinc').
    { unfold reader_fuel. rewrite (holds_total _ _ _ Hh). lia. }
    apply Forall_app in Hok as [_ Hok].
    destruct (IH G2 r' P' B' Hh' E' Hok Hinc') as (ms' & r'' & P'' & Er' & Hgr' & Hh'').
    cbn zeta. rewrite Er. cbn [mbind res_bind]. rewrite Er'. cbn.
    exists (ms ++ ms'), r'', P''. split_and!; [done | | done]. by rewrite group_app, Hgr, Hgr'.
Qed.

(** A message the writer can send: at least one frame, headers that fit, and no
    final flag of its own. *)
Definition message_ok (m : frames) : Prop :=
  m <> [] /\ Forall (fun f => frame_ok f /\ isFinalFrame f = false) m.

Lemma finalize_final f : in_uint 16 (flags f) ->
  isFinalFrame (mkFrame (content f) (js_or (flags f) IS_FINAL_FLAG)) = true.
Proof.
  intros Hf. unfold isFinalFrame. cbn [flags]. rewrite js_or_final by done.
  change IS_FINAL_FLAG with (2 ^ 13). rewrite isFlagSet_bit, Z.lor_spec by lia.
  rewrite Z.pow2_bits_true by lia. apply orb_true_r.
Qed.

Lemma finalize_frames_ok m : message_ok m -> Forall frame_ok (finalize m).
Proof.
  intros [Hne Hm]. induction m as [|f [|g m] IH]; [done | |].
  - apply Forall_singleton in Hm as [[Hf Hl] _]. apply Forall_singleton. split; cbn.
    + by apply js_or_final_range.
    + done.
  - apply Forall_cons in Hm as [[Hf _] Hm]. apply Forall_cons. split; [done|]. by apply IH.
Qed.

Lemma group_message m : message_ok m -> forall P G,
  group P (finalize m ++ G) = let '(ms, P') := group [] G in ((P ++ finalize m) :: ms, P').
Proof.
  intros [Hne Hm]. induction m as [|f [|g m] IH]; intros P G; [done | |].
  - apply Forall_singleton in Hm as [[Hf _] _]. cbn [finalize app group].
    by rewrite finalize_final by done.
  - apply Forall_cons in Hm as [[_ Hf] Hm].
    change (finalize (f :: g :: m)) with (f :: finalize (g :: m)). cbn [app group].
    rewrite Hf, IH by done. destruct (group [] G). by rewrite <- app_assoc.
Qed.

Lemma group_messages ms :
  Forall message_ok ms -> group [] (concat (map finalize ms)) = (map finalize ms, []).
Proof.
  induction 1 as [|m ms Hm _ IH]; [done|]. cbn [map concat].
  by rewrite (group_message m Hm), IH.
Qed.

Lemma reader_ok (ms : list frames) (bs : list buffer) :
  Forall message_ok ms ->
  concat bs = concat (map wire ms) ->
  exists r', on_data_all newReader bs = Ok (map finalize ms, r') /\ holds r' [] [].
Proof.
  intros Hms E. rewrite wires_flat in E.
  destruct (on_data_stream bs (concat (map finalize ms)) newReader [] [])
    as (ms' & r' & P' & Er & Hgr & Hh).
  - split; [done | done | done | by left].
  - done.
  - clear E. induction Hms as [|m ms Hm _ IH]; [constructor|]. cbn.
    apply Forall_app. split; [by apply finalize_frames_ok | done].
  - rewrite E. apply flat_bytes_nil.
  - rewrite group_messages in Hgr by done. injection Hgr as <- <-. eauto.
Qed.

(** C10: whatever way the bytes of a sequence of messages are cut into chunks (in
    the middle of a header, several messages in one chunk), the data events
    deliver exactly those messages, in order, frame by frame, the last frame of
    each carrying the final flag; the loops return, and afterwards the reader
    holds nothing. *)
Theorem reader_roundtrip (ms : list frames) (bs : list buffer) :
  Forall message_ok ms ->
  concat bs = concat (map wire ms) ->
  exists r', on_data_all newReader bs = Ok (map finalize ms, r') /\ holds r' [] [].
Proof. apply reader_ok. Qed.

Definition demo_message (b : Init.Byte.byte) : frames :=
  [mkFrame (replicate 16 b) UNFRAGMENTED_MESSAGE; mkFrame [b; b] 0].

Lemma reader_roundtrip_witness :
  exists bs r', concat bs = concat (map wire [demo_message Byte.x07; demo_message Byte.x09]) /\
    on_data_all newReader bs = Ok (map finalize [demo_message Byte.x07; demo_message Byte.x09], r').
Proof.
  set (w := concat (map wire [demo_message Byte.x07; demo_message Byte.x09])).
  exists [take 3 w; take 30 (drop 3 w); drop 33 w].
  destruct (reader_roundtrip [demo_message Byte.x07; demo_message Byte.x09]
    [take 3 w; take 30 (drop 3 w); drop 33 w]) as (r' & E & _).
  - repeat constructor; vm_compute; done.
  - vm_compute. done.
  - exists r'. split; [vm_compute; done | exact E].
Defined.

(** ** FragmentedClientMessageHandler *)

(** A message under assembly. When a fragment brings no frame besides the one that is
    dropped, [endFrame] refers to the dropped frame, and what is merged later hangs
    from there and not from the message: [detached]. *)
Record partial_message := mkPartial { assembled : frames; detached : bool }.

Definition begin_message (rest : frames) : partial_message :=
  mkPartial rest (match rest with [] => true | _ => false end).

(** [existingMessage.merge(clientMessage)]. *)
Definition merge_message (p : partial_message) (rest : frames) : partial_message :=
  mkPartial (if detached p then assembled p else assembled p ++ rest)
    (detached p || match rest with [] => true | _ => false end).

(** Per fragmentation id, as a number, the message assembled so far. *)
Abbreviation fragment_store := (gmap Z partial_message).

Section Fragments.
Context {L : Type} `{LongLib L}.

(** [handleFragmentedMessage]: the message passed to the callback, if any, and
    the store afterwards. *)
Definition handleFragmentedMessage (s : fragment_store) (m : frames)
    : res (option frames * fragment_store) :=
  match m with
  | [] => Err TypeError
  | fragmentationFrame :: rest =>
      l ← decodeLong (L := L) (content fragmentationFrame) FRAGMENTATION_ID_OFFSET;
      let fragmentationId := long_to_number l in
      if hasBeginFragmentFlag fragmentationFrame then
        Ok (None, <[fragmentationId := begin_message rest]> s)
      else
        match s !! fragmentationId with
        | None => Ok (None, s)
        | Some existingMessage =>
            let existingMessage := merge_message existingMessage rest in
            if hasEndFragmentFlag fragmentationFrame then
              Ok (Some (assembled existingMessage), delete fragmentationId s)
            else Ok (None, <[fragmentationId := existingMessage]> s)
        end
  end.

(** The body of the loop in [registerResponseCallback]. *)
Definition dispatch (s : fragment_store) (m : frames) : res (option frames * fragment_store) :=
  match m with
  | [] => Err TypeError
  | startFrame :: _ =>
      if hasUnfragmentedMessageFlag startFrame then Ok (Some m, s)
      else handleFragmentedMessage s m
  end.

Fixpoint dispatch_all (s : fragment_store) (ms : list frames) : res (list frames * fragment_store) :=
  match ms with
  | [] => Ok ([], s)
  | m :: ms =>
      '(o, s) ← dispatch s m;
      '(out, s) ← dispatch_all s ms;
      Ok (match o with Some x => [x] | None => [] end ++ out, s)
  end.
End Fragments.

(** ** Reassembly under interleaving *)

(** [ms] is some interleaving of [l] and [k]. *)
Inductive shuffle {A} : list A -> list A -> list A -> Prop :=
  | shuffle_nil : shuffle [] [] []
  | shuffle_l x l k ms : shuffle l k ms -> shuffle (x :: l) k (x :: ms)
  | shuffle_r x l k ms : shuffle l k ms -> shuffle l (x :: k) (x :: ms).

Lemma shuffle_app_l {A} (x : list A) l k ms : shuffle l k ms -> shuffle (x ++ l) k (x ++ ms).
Proof. intros. induction x; cbn; [done | by constructor]. Qed.

Lemma shuffle_app_r {A} (x : list A) l k ms : shuffle l k ms -> shuffle l (x ++ k) (x ++ ms).
Proof. intros. induction x; cbn; [done | by constructor]. Qed.

Inductive fragment_kind := FragBegin | FragMiddle | FragEnd.

Section FragmentFacts.
Context {L : Type} `{LongLib L}.
#[local] Abbreviation dispatch := (dispatch (L := L)).
#[local] Abbreviation dispatch_all := (dispatch_all (L := L)).

Definition has_id (id : Z) (f : Frame) : Prop :=
  exists l, decodeLong (L := L) (content f) FRAGMENTATION_ID_OFFSET = Ok l /\ long_val l = id.

(** A fragment of message [id] that carries the frames [rest]. *)
Definition fragment_of (id : Z) (k : fragment_kind) (rest : frames) (m : frames) : Prop :=
  exists f, m = f :: rest /\ has_id id f /\ hasUnfragmentedMessageFlag f = false /\
    match k with
    | FragBegin => hasBeginFragmentFlag f = true
    | FragMiddle => hasBeginFragmentFlag f = false /\ hasEndFragmentFlag f = false
    | FragEnd => hasBeginFragmentFlag f = false /\ hasEndFragmentFlag f = true
    end.

(** A whole message, or a fragment of another one. *)
Definition foreign (id : Z) (m : frames) : Prop :=
  exists f rest, m = f :: rest /\
    (hasUnfragmentedMessageFlag f = true \/ exists id', id' <> id /\ has_id id' f).

(** An id that a number holds exactly is the key of its own message only. *)
Definition exact_id (id : Z) : Prop := Z.abs id < 2 ^ 53.

Lemma other_key id id' : exact_id id -> id' <> id -> number_of_int id' <> id.
Proof. intros Hid Hne E. by apply Hne, number_of_int_inj. Qed.

Lemma foreign_step id s t m :
  exact_id id -> foreign id m -> delete id s = delete id t ->
  exists o s' t', dispatch s m = Ok (o, s') /\ dispatch t m = Ok (o, t') /\
    s' !! id = s !! id /\ delete id s' = delete id t'.
Proof.
  intros Hex (f & rest & -> & Hf) Hst. unfold MessageReader.dispatch.
  destruct (hasUnfragmentedMessageFlag f); [by eexists _, _, _|].
  destruct Hf as [?|(id0 & Hne & l & Hl & Hid)]; [done|].
  unfold handleFragmentedMessage. rewrite Hl. cbn. unfold long_to_number. rewrite Hid.
  apply (other_key id id0 Hex) in Hne. set (id' := number_of_int id0) in *.
  assert (s !! id' = t !! id') as Hlk.
  { pose proof (f_equal (lookup id') Hst) as HL. by rewrite !lookup_delete_ne in HL by done. }
  destruct (hasBeginFragmentFlag f).
  { eexists _, _, _. split_and!; [done | done | by rewrite lookup_insert_ne |].
    by rewrite !delete_insert_ne, Hst by done. }
  rewrite <- Hlk. destruct (s !! id') as [m|]; [|by eexists _, _, _].
  destruct (hasEndFragmentFlag f); eexists _, _, _; split_and!; try done.
  - by rewrite lookup_delete_ne.
  - rewrite (delete_delete s id id'), (delete_delete t id id'), Hst. done.
  - by rewrite lookup_insert_ne.
  - by rewrite !delete_insert_ne, Hst by done.
Qed.

(** What the fragments of one message do to its entry in the store. *)
Fixpoint assemble (cell : option partial_message) (own : list (fragment_kind * frames))
    : list frames * option partial_message :=
  match own with
  | [] => ([], cell)
  | (FragBegin, r) :: own => assemble (Some (begin_message r)) own
  | (FragMiddle, r) :: own => assemble ((fun p => merge_message p r) <$> cell) own
  | (FragEnd, r) :: own =>
      match cell with
      | Some p => let '(out, c) := assemble None own in (assembled (merge_message p r) :: out, c)
      | None => assemble None own
      end
  end.

Lemma own_step id s k r m :
  exact_id id -> fragment_of id k r m ->
  exists o s', dispatch s m = Ok (o, s') /\ delete id s' = delete id s /\
    forall own, assemble (s !! id) ((k, r) :: own) =
      let '(out, c) := assemble (s' !! id) own in
      (match o with Some x => [x] | None => [] end ++ out, c).
Proof.
  intros Hex (f & -> & (l & Hl & Hid) & Hu & Hk). unfold MessageReader.dispatch, handleFragmentedMessage.
  rewrite Hu, Hl. cbn. unfold long_to_number. rewrite Hid, (number_of_int_exact id Hex). destruct k.
  - rewrite Hk. eexists _, _. split; [done|]. split; [apply delete_insert_eq|].
    intros own. rewrite lookup_insert_eq. by destruct (assemble (Some (begin_message r)) own).
  - destruct Hk as [-> ->]. destruct (s !! id) as [m|] eqn:Es.
    + eexists _, _. split; [done|]. split; [apply delete_insert_eq|].
      intros own. rewrite lookup_insert_eq. cbn. by destruct (assemble _ own).
    + eexists _, _. split; [done|]. split; [done|]. intros own. rewrite Es. cbn.
      by destruct (assemble None own).
  - destruct Hk as [-> ->]. destruct (s !! id) as [m|] eqn:Es.
    + eexists _, _. split; [done|]. split; [apply delete_delete_eq|].
      intros own. by rewrite lookup_delete_eq.
    + eexists _, _. split; [done|]. split; [done|]. intros own. rewrite Es. cbn.
      by destruct (assemble None own).
Qed.

Lemma dispatch_all_shuffle id own others ms :
  exact_id id -> shuffle own others ms ->
  forall kinds s t,
  Forall2 (fun p m => fragment_of id p.1 p.2 m) kinds own ->
  Forall (foreign id) others ->
  delete id s = delete id t ->
  exists out outs s' t',
    dispatch_all s ms = Ok (out, s') /\ dispatch_all t others = Ok (outs, t') /\
    shuffle (assemble (s !! id) kinds).1 outs out /\
    s' !! id = (assemble (s !! id) kinds).2 /\ delete id s' = delete id t'.
Proof.
  intros Hex. induction 1 as [|m own others ms _ IH|m own others ms _ IH]; intros kinds s t Hk Ho Hst.
  - apply Forall2_nil_inv_r in Hk as ->. eexists _, _, _, _. repeat split; [constructor | done].
  - apply Forall2_cons_inv_r in Hk as ([k r] & kinds' & Hm & Hk & ->).
    destruct (own_step id s k r m Hex Hm) as (o & s1 & E1 & Hd & Ha).
    destruct (IH kinds' s1 t Hk Ho) as (out & outs & s' & t' & E & Eo & Hs & Hc & Hd'); [congruence|].
    rewrite Ha. cbn [MessageReader.dispatch_all]. rewrite E1. cbn. rewrite E. cbn.
    destruct (assemble (s1 !! id) kinds') as [outk c]. cbn in *.
    eexists _, _, _, _. split_and!; [done | exact Eo | | done | done]. by apply shuffle_app_l.
  - apply Forall_cons in Ho as [Hm Ho].
    destruct (foreign_step id s t m Hex Hm Hst) as (o & s1 & t1 & E1 & E2 & Hl & Hd).
    destruct (IH kinds s1 t1 Hk Ho Hd) as (out & outs & s' & t' & E & Eo & Hs & Hc & Hd').
    cbn [MessageReader.dispatch_all]. rewrite E1, E2. cbn. rewrite E, Eo. cbn. rewrite Hl in Hs, Hc.
    eexists _, _, _, _. split_and!; [done | done | | done | done]. by apply shuffle_app_r.
Qed.

(** A begin fragment, any number of middle ones and an end fragment. *)
Definition whole_message (first : frames) (middles : list frames) (last : frames) :
    list (fragment_kind * frames) :=
  (FragBegin, first) :: map (pair FragMiddle) middles ++ [(FragEnd, last)].

Lemma assemble_whole first middles last c :
  first <> [] -> Forall (fun r => r <> []) middles ->
  assemble c (whole_message first middles last) = ([first ++ concat middles ++ last], None).
Proof.
  unfold whole_message. cbn [assemble]. intros Hf.
  assert (begin_message first = mkPartial first false) as -> by (by destruct first). clear Hf.
  intros Hm. revert first; induction Hm as [|r rs Hr _ IH]; intros first; [done|].
  cbn [map app assemble fmap option_fmap option_map concat].
  assert (merge_message (mkPartial first false) r = mkPartial (first ++ r) false) as ->
    by (destruct r; [done | reflexivity]).
  by rewrite IH, <- !app_assoc.
Qed.
End FragmentFacts.

(** C30: the fragments of one message are reassembled whatever other messages and
    fragments of other messages are interleaved with them: as long as each brings a
    frame, the callback gets the concatenation of the fragments' frames once, everything else is delivered as if the
    fragments had not been there, and nothing is left in the store under the id. The id of the message is below 2^53 in absolute
    value, so that it is a number of its own; those of the others are any 64-bit integers. *)
Theorem fragments_reassembled {L} `{LongLib L} (id : Z) (first : frames) (middles : list frames)
    (last : frames) (own others ms : list frames) (s : fragment_store) :
  exact_id id -> Forall2 (fun p m => fragment_of (L := L) id p.1 p.2 m) (whole_message first middles last) own ->
  first <> [] -> Forall (fun r => r <> []) middles ->
  Forall (foreign (L := L) id) others ->
  shuffle own others ms ->
  exists out outs s' t',
    dispatch_all (L := L) s ms = Ok (out, s') /\
    dispatch_all (L := L) (delete id s) others = Ok (outs, t') /\
    shuffle [first ++ concat middles ++ last] outs out /\
    s' !! id = None /\ delete id s' = delete id t'.
Proof.
  intros Hex Hk Hf Hm Ho Hs.
  destruct (dispatch_all_shuffle (L := L) id own others ms Hex Hs _ s (delete id s) Hk Ho)
    as (out & outs & s' & t' & H1); [by rewrite delete_delete_eq|].
  rewrite assemble_whole in H1 by done. eauto 10.
Qed.

(** Three fragments of message 7 with a whole message and a fragment of message 9 between. *)
Definition demo_fragment (id : Z) (flags : Z) (rest : frames) : frames :=
  mkFrame (le_split 8 id) flags :: rest.

Lemma fragments_reassembled_witness :
  exists out s',
    dispatch_all (L := Int64.t) ∅
      [demo_fragment 7 BEGIN_FRAGMENT_FLAG [mkFrame [Byte.x01] 0]; demo_message Byte.x05;
       demo_fragment 7 0 [mkFrame [Byte.x02] 0];
       demo_fragment 9 BEGIN_FRAGMENT_FLAG [mkFrame [Byte.x03] 0];
       demo_fragment 7 END_FRAGMENT_FLAG [mkFrame [Byte.x04] 0]] = Ok (out, s') /\
    s' !! 7 = None.
Proof.
  destruct (fragments_reassembled (L := Int64.t) 7 [mkFrame [Byte.x01] 0] [[mkFrame [Byte.x02] 0]]
    [mkFrame [Byte.x04] 0]
    [demo_fragment 7 BEGIN_FRAGMENT_FLAG [mkFrame [Byte.x01] 0];
     demo_fragment 7 0 [mkFrame [Byte.x02] 0];
     demo_fragment 7 END_FRAGMENT_FLAG [mkFrame [Byte.x04] 0]]
    [demo_message Byte.x05; demo_fragment 9 BEGIN_FRAGMENT_FLAG [mkFrame [Byte.x03] 0]]
    [demo_fragment 7 BEGIN_FRAGMENT_FLAG [mkFrame [Byte.x01] 0]; demo_message Byte.x05;
     demo_fragment 7 0 [mkFrame [Byte.x02] 0];
     demo_fragment 9 BEGIN_FRAGMENT_FLAG [mkFrame [Byte.x03] 0];
     demo_fragment 7 END_FRAGMENT_FLAG [mkFrame [Byte.x04] 0]] ∅)
    as (out & outs & s' & t' & E & _ & _ & Hn & _).
  - reflexivity.
  - repeat constructor; (eexists; split; [reflexivity|]; split;
      [eexists; split; [vm_compute; reflexivity | reflexivity] | vm_compute; auto]).
  - discriminate.
  - repeat constructor; discriminate.
  - constructor; [|constructor; [|constructor]].
    + eexists _, _. split; [reflexivity|]. left. vm_compute. reflexivity.
    + eexists _, _. split; [reflexivity|]. right. exists 9. split; [lia|].
      eexists. split; [vm_compute; reflexivity | reflexivity].
  - repeat constructor.
  - exists out, s'. split; [exact E | exact Hn].
Defined.

(** The ids 2^53 and 2^53 + 1 are one number: the end of the second message completes the first. *)
Lemma fragment_ids_collide :
  dispatch_all (L := Int64.t) ∅
    [demo_fragment (2 ^ 53) BEGIN_FRAGMENT_FLAG [mkFrame [Byte.x01] 0]; demo_fragment (2 ^ 53 + 1) END_FRAGMENT_FLAG [mkFrame [Byte.x02] 0]] =
  Ok ([[mkFrame [Byte.x01] 0; mkFrame [Byte.x02] 0]], ∅).
Proof. vm_compute. reflexivity. Qed.
