(* ===== verification/Writer.v ===== *)
(** * The writers of a connection (src/src/network/Connection.ts)

    [PipelinedWriter] coalesces queued messages into one reused buffer and
    hands it to the socket; [DirectWriter] writes each message on its own. What a
    writer uses of a message is the class [WireMessage]; the linked-frame messages
    of [ClientMessage] are an instance.

    The event loop and the socket are explicit: [ticks] counts the calls of
    [process] that [nextTick] or [setImmediate] has queued, [inflight] holds the
    buffers given to [socket.write] whose callback has not run, and a buffer that
    is a slice of the coalescing buffer is kept as a view of it: what the peer
    receives is what the view shows when the write completes. *)

From S2P Require Import Prelude NodeBuffer LongNum FixSized Frames ClientMessage.

(** ** What a writer needs of a message *)

Class WireMessage (M : Type) := {
  msg_getTotalLength : M -> res Z;
  msg_writeTo : M -> buffer -> Z -> res (Z * buffer);
  msg_toBuffer : M -> res buffer
}.

(** The messages that satisfy [ok] are written as the bytes [bytes]. *)
Class WireMessageLaws (M : Type) `{WireMessage M} := {
  msg_ok : M -> Prop;
  msg_bytes : M -> buffer;
  msg_nonempty m : msg_ok m -> 0 < blen (msg_bytes m);
  msg_length_law m : msg_ok m -> msg_getTotalLength m = Ok (blen (msg_bytes m));
  msg_writeTo_law m b pos : msg_ok m -> in_bounds b pos (blen (msg_bytes m)) = true ->
    msg_writeTo m b pos = Ok (pos + blen (msg_bytes m), write_at b pos (msg_bytes m));
  msg_toBuffer_law m : msg_ok m -> msg_toBuffer m = Ok (msg_bytes m)
}.

Section Writers.
Context {M : Type} `{WireMessage M}.

(** ** PipelinedWriter *)

(** A resolver is the identity of a deferred promise. *)
Record OutputQueueItem := mkItem { message : M; resolver : nat }.

(** [queue_frozen]: the queue is [FROZEN_ARRAY]. *)
Record PipelinedWriter := mkPipelinedWriter {
  queue : list OutputQueueItem;
  queue_frozen : bool;
  error : bool;
  scheduled : bool;
  canWrite : bool;
  coalesceBuf : buffer;
  threshold : Z
}.

Inductive view := Slice (n : Z) | Own (b : buffer).

Inductive settlement := Resolved (r : nat) | Rejected (r : nat).

Record world := mkWorld {
  writer : PipelinedWriter;
  ticks : nat;
  inflight : list (view * list OutputQueueItem);
  transmitted : buffer;
  settled : list settlement
}.

Definition newPipelinedWriter `{Uninit} (threshold : Z) : world :=
  mkWorld (mkPipelinedWriter [] false false false true (allocUnsafe threshold) threshold) 0 [] [] [].

Definition schedule (s : world) : world :=
  let w := writer s in
  if negb (scheduled w) && canWrite w then
    mkWorld (mkPipelinedWriter (queue w) (queue_frozen w) (error w) true (canWrite w) (coalesceBuf w)
               (threshold w)) (S (ticks s)) (inflight s) (transmitted s) (settled s)
  else s.

(** The listener of the socket's drain event. *)
Definition on_drain (s : world) : world :=
  let w := writer s in
  schedule (mkWorld (mkPipelinedWriter (queue w) (queue_frozen w) (error w) (scheduled w) true
    (coalesceBuf w) (threshold w)) (ticks s) (inflight s) (transmitted s) (settled s)).

Definition write (s : world) (m : M) (r : nat) : res world :=
  let w := writer s in
  if error w then
    Ok (mkWorld w (ticks s) (inflight s) (transmitted s) (settled s ++ [Rejected r]))
  else if queue_frozen w then Err TypeError
  else Ok (schedule (mkWorld
    (mkPipelinedWriter (queue w ++ [mkItem m r]) (queue_frozen w) (error w) (scheduled w) (canWrite w)
      (coalesceBuf w) (threshold w)) (ticks s) (inflight s) (transmitted s) (settled s))).

Definition close (s : world) : world :=
  let w := writer s in
  mkWorld (mkPipelinedWriter [] true (error w) (scheduled w) false (coalesceBuf w) (threshold w))
    (ticks s) (inflight s) (transmitted s) (settled s).

(** The loop of [process] that counts the messages of a batch. *)
Fixpoint batch_loop (threshold : Z) (q : list OutputQueueItem) (queueIdx : nat) (totalLength : Z)
    : res (nat * Z) :=
  match q with
  | [] => Ok (queueIdx, totalLength)
  | item :: q =>
      if totalLength <? threshold then
        msgLength ← msg_getTotalLength (message item);
        if (0 <? Z.of_nat queueIdx) && (threshold <? totalLength + msgLength)
        then Ok (queueIdx, totalLength)
        else batch_loop threshold q (S queueIdx) (totalLength + msgLength)
      else Ok (queueIdx, totalLength)
  end.

(** The loop that coalesces the messages of a batch. *)
Fixpoint coalesce (writeBatch : list OutputQueueItem) (buf : buffer) (pos : Z) : res buffer :=
  match writeBatch with
  | [] => Ok buf
  | item :: writeBatch =>
      '(pos, buf) ← msg_writeTo (message item) buf pos;
      coalesce writeBatch buf pos
  end.

(** [process]; [flushed] is what [socket.write] returns. *)
Definition process (s : world) (flushed : bool) : res world :=
  let w := writer s in
  if error w then Ok s
  else
    '(queueIdx, totalLength) ← batch_loop (threshold w) (queue w) 0 0;
    if totalLength =? 0 then
      Ok (mkWorld (mkPipelinedWriter (queue w) (queue_frozen w) (error w) false (canWrite w)
        (coalesceBuf w) (threshold w)) (ticks s) (inflight s) (transmitted s) (settled s))
    else
      let writeBatch := take queueIdx (queue w) in
      let rest := drop queueIdx (queue w) in
      '(buf, coalesceBuf) ←
        match writeBatch with
        | [item] =>
            if threshold w <? totalLength
            then b ← msg_toBuffer (message item); Ok (Own b, coalesceBuf w)
            else b ← coalesce writeBatch (coalesceBuf w) 0; Ok (Slice totalLength, b)
        | _ => b ← coalesce writeBatch (coalesceBuf w) 0; Ok (Slice totalLength, b)
        end;
      Ok (mkWorld (mkPipelinedWriter rest false (error w) (scheduled w) flushed coalesceBuf (threshold w))
        (ticks s) (inflight s ++ [(buf, writeBatch)]) (transmitted s) (settled s)).

Definition view_bytes (w : PipelinedWriter) (v : view) : buffer :=
  match v with Slice n => slice (coalesceBuf w) 0 n | Own b => b end.

Definition resolve_all (b : list OutputQueueItem) : list settlement := map (fun i => Resolved (resolver i)) b.
Definition reject_all (b : list OutputQueueItem) : list settlement := map (fun i => Rejected (resolver i)) b.

(** The write callback without an error: the peer has the bytes of the view. *)
Definition on_written (s : world) (v : view) (writeBatch : list OutputQueueItem)
    (rest : list (view * list OutputQueueItem)) : world :=
  let w := writer s in
  let idle := match queue w with [] => true | _ => false end || negb (canWrite w) in
  mkWorld (mkPipelinedWriter (queue w) (queue_frozen w) (error w) (if idle then false else scheduled w)
             (canWrite w) (coalesceBuf w) (threshold w))
    (if idle then ticks s else S (ticks s)) rest
    (transmitted s ++ view_bytes w v) (settled s ++ resolve_all writeBatch).

Definition handleError (s : world) (sentResolvers : list OutputQueueItem) : world :=
  let w := writer s in
  close (mkWorld (mkPipelinedWriter (queue w) (queue_frozen w) true (scheduled w) (canWrite w)
                    (coalesceBuf w) (threshold w))
    (ticks s) (inflight s) (transmitted s)
    (settled s ++ reject_all sentResolvers ++ reject_all (queue w))).

(** The write callback with an error. *)
Definition on_failed (s : world) (writeBatch : list OutputQueueItem)
    (rest : list (view * list OutputQueueItem)) : world :=
  handleError (mkWorld (writer s) (ticks s) rest (transmitted s) (settled s)) writeBatch.

(** A queued call of [process] runs. *)
Definition on_tick (s : world) (flushed : bool) : res world :=
  match ticks s with
  | O => Err IllegalStateError
  | S n => process (mkWorld (writer s) n (inflight s) (transmitted s) (settled s)) flushed
  end.

(** ** DirectWriter *)

(** Its writes are on their own buffers; the callbacks settle one resolver each. *)
Record direct_world := mkDirect {
  d_inflight : list (buffer * nat);
  d_transmitted : buffer;
  d_settled : list settlement
}.

Definition direct_write (s : direct_world) (m : M) (r : nat) : res direct_world :=
  b ← msg_toBuffer m;
  Ok (mkDirect (d_inflight s ++ [(b, r)]) (d_transmitted s) (d_settled s)).

Definition direct_callback (s : direct_world) (failed : bool) : direct_world :=
  match d_inflight s with
  | [] => s
  | (b, r) :: rest =>
      if failed then mkDirect rest (d_transmitted s) (d_settled s ++ [Rejected r])
      else mkDirect rest (d_transmitted s ++ b) (d_settled s ++ [Resolved r])
  end.

Definition direct_close (s : direct_world) : direct_world := s.
End Writers.
Arguments OutputQueueItem : clear implicits.
Arguments PipelinedWriter : clear implicits.
Arguments world : clear implicits.

(** ** Histories *)

Section WriterFacts.
Context {M : Type} `{WM : WireMessage M} `{!WireMessageLaws M} `{Uninit}.
Context (thr : Z).

Definition batch_bytes (b : list (OutputQueueItem M)) : buffer :=
  concat (map (fun i => msg_bytes (message i)) b).

Definition resolved (l : list settlement) : list nat :=
  omap (fun x => match x with Resolved r => Some r | Rejected _ => None end) l.
#[local] Arguments resolved : simpl never.
#[local] Arguments resolve_all : simpl never.
#[local] Arguments reject_all : simpl never.

(** [run acc s]: from the constructor, with any interleaving of calls, queued
    callbacks and socket events, the writer is at [s] having accepted the items
    [acc], in order. A call of [write] that throws changes nothing. *)
Inductive run : list (OutputQueueItem M) -> world M -> Prop :=
  | run_new : run [] (newPipelinedWriter thr)
  | run_write acc s m r s' :
      run acc s -> msg_ok m -> write s m r = Ok s' ->
      run (if error (writer s) then acc else acc ++ [mkItem m r]) s'
  | run_tick acc s fl s' : run acc s -> on_tick s fl = Ok s' -> run acc s'
  | run_drain acc s : run acc s -> run acc (on_drain s)
  | run_written acc s v b rest :
      run acc s -> inflight s = (v, b) :: rest -> run acc (on_written s v b rest)
  | run_failed acc s v b rest :
      run acc s -> inflight s = (v, b) :: rest -> run acc (on_failed s b rest)
  | run_close acc s : run acc s -> run acc (close s).

Definition pending (s : world M) : nat := (ticks s + length (inflight s))%nat.

Record inv (acc sent ended : list (OutputQueueItem M)) (s : world M) : Prop := {
  inv_acc : acc = sent ++ concat (inflight s).*2 ++ queue (writer s) ++ ended;
  inv_ok : Forall (fun i => msg_ok (message i)) acc;
  inv_sent : transmitted s = batch_bytes sent;
  inv_resolved : resolved (settled s) = map resolver sent;
  inv_open : queue_frozen (writer s) = false -> error (writer s) = false /\ ended = [];
  inv_frozen : queue_frozen (writer s) = true -> queue (writer s) = [];
  inv_pending : (pending s <= 1)%nat;
  inv_scheduled : (0 < pending s)%nat -> scheduled (writer s) = true;
  inv_running : scheduled (writer s) = true -> error (writer s) = false -> pending s = 1%nat;
  inv_wakeup : queue (writer s) <> [] -> canWrite (writer s) = true -> scheduled (writer s) = true;
  inv_views : Forall (fun p => view_bytes (writer s) p.1 = batch_bytes p.2) (inflight s);
  inv_buf : blen (coalesceBuf (writer s)) = thr;
  inv_thr : threshold (writer s) = thr
}.

Lemma batch_bytes_app b c : batch_bytes (b ++ c) = batch_bytes b ++ batch_bytes c.
Proof. unfold batch_bytes. by rewrite map_app, concat_app. Qed.

Lemma batch_bytes_pos b :
  b <> [] -> Forall (fun i => msg_ok (message i)) b -> 0 < blen (batch_bytes b).
Proof.
  destruct b as [|i b]; [done|]. intros _ Hb. apply Forall_cons in Hb as [Hi _].
  pose proof (msg_nonempty (message i) Hi). unfold batch_bytes. cbn [map concat].
  rewrite length_app. lia.
Qed.

Lemma coalesce_ok b : forall buf pos,
  Forall (fun i => msg_ok (message i)) b -> in_bounds buf pos (blen (batch_bytes b)) = true ->
  coalesce b buf pos = Ok (write_at buf pos (batch_bytes b)).
Proof.
  induction b as [|i b IH]; intros buf pos Hok Hb.
  - cbn. unfold write_at. cbn. by rewrite Nat.add_0_r, take_drop.
  - apply Forall_cons in Hok as [Hi Hok]. apply in_bounds_true in Hb as Hb'.
    change (batch_bytes (i :: b)) with (msg_bytes (message i) ++ batch_bytes b) in *.
    rewrite length_app in Hb'. cbn [coalesce].
    rewrite msg_writeTo_law, res_bind_ok by (done || (apply in_bounds_true; lia)).
    rewrite IH by (done || (rewrite in_bounds_write; apply in_bounds_true; lia)).
    by rewrite write_at_app by (apply in_bounds_true; lia).
Qed.

Lemma batch_loop_go q : forall idx tot,
  Forall (fun i => msg_ok (message i)) q -> (0 < idx)%nat -> tot <= thr ->
  exists n, batch_loop thr q idx tot = Ok ((idx + n)%nat, tot + blen (batch_bytes (take n q))) /\
    (n <= length q)%nat /\ tot + blen (batch_bytes (take n q)) <= thr.
Proof.
  induction q as [|i q IH]; intros idx tot Hok Hidx Htot; cbn [batch_loop].
  { exists 0%nat. cbn. rewrite Nat.add_0_r, Z.add_0_r. auto. }
  assert (exists n : nat, Ok (idx, tot) = Ok ((idx + n)%nat, tot + blen (batch_bytes (take n (i :: q)))) /\
    (n <= length (i :: q))%nat /\ tot + blen (batch_bytes (take n (i :: q))) <= thr) as Hstop.
  { exists 0%nat. cbn. rewrite Nat.add_0_r, Z.add_0_r. split_and!; [done | lia | done]. }
  apply Forall_cons in Hok as [Hi Hok].
  case_if; [|done]. rewrite (msg_length_law (message i) Hi), res_bind_ok.
  case_if; [done|]. assert (tot + blen (msg_bytes (message i)) <= thr).
  { destruct (0 <? Z.of_nat idx) eqn:E1; bool_hyps; [|lia]. cbn in E0. bool_hyps. lia. }
  destruct (IH (S idx) (tot + blen (msg_bytes (message i)))) as (n & E1 & Hn & Hle); [done | lia | done |].
  exists (S n). rewrite E1. cbn [take length].
  change (batch_bytes (i :: take n q)) with (msg_bytes (message i) ++ batch_bytes (take n q)).
  rewrite length_app. split_and!; [do 2 f_equal; lia | lia | lia].
Qed.

(** The batch [process] takes: not empty when the queue is not, and within the
    threshold unless it is a single message. *)
Lemma batch_loop_ok q :
  0 < thr -> Forall (fun i => msg_ok (message i)) q ->
  exists n, batch_loop thr q 0 0 = Ok (n, blen (batch_bytes (take n q))) /\
    (n <= length q)%nat /\ (q <> [] -> (0 < n)%nat) /\
    (blen (batch_bytes (take n q)) <= thr \/ n = 1%nat).
Proof.
  intros Hthr Hok. destruct q as [|i q]; cbn [batch_loop].
  { exists 0%nat. split_and!; [done | done | done | left; cbn; lia]. }
  apply Forall_cons in Hok as [Hi Hok]. rewrite (proj2 (Z.ltb_lt 0 thr)) by done.
  rewrite (msg_length_law (message i) Hi), res_bind_ok. cbn [andb Z.of_nat Z.ltb].
  change (0 <? 0) with false. cbn [andb]. rewrite Z.add_0_l.
  assert (forall n, batch_bytes (take (S n) (i :: q)) =
    msg_bytes (message i) ++ batch_bytes (take n q)) as Hb by done.
  destruct (decide (blen (msg_bytes (message i)) <= thr)) as [Hle|Hgt].
  - destruct (batch_loop_go q 1 _ Hok ltac:(lia) Hle) as (n & E & Hn & Hle').
    exists (S n). rewrite E, Hb, length_app. split_and!; [do 2 f_equal; lia | cbn; lia | lia | left; lia].
  - exists 1%nat. rewrite Hb, length_app. cbn [length take]. split_and!; [|lia|lia|by right].
    destruct q; cbn [batch_loop]; [|rewrite (proj2 (Z.ltb_ge _ thr)) by lia];
      do 2 f_equal; cbn; lia.
Qed.

Lemma slice_write_at b bs :
  blen bs <= blen b -> slice (write_at b 0 bs) 0 (blen bs) = bs.
Proof.
  intros Hle. unfold slice, write_at. change (Z.to_nat 0) with 0%nat.
  rewrite take_0, drop_0. cbn [app Nat.add]. apply take_app_length'. lia.
Qed.

Lemma process_ok (s : world M) fl :
  0 < thr -> error (writer s) = false -> threshold (writer s) = thr ->
  blen (coalesceBuf (writer s)) = thr -> Forall (fun i => msg_ok (message i)) (queue (writer s)) ->
  exists s', process s fl = Ok s' /\
    ((queue (writer s) = [] /\
      s' = mkWorld (mkPipelinedWriter [] (queue_frozen (writer s)) false false (canWrite (writer s))
             (coalesceBuf (writer s)) thr) (ticks s) (inflight s) (transmitted s) (settled s)) \/
     (exists n v cb, (0 < n <= length (queue (writer s)))%nat /\ blen cb = thr /\
        let w := mkPipelinedWriter (drop n (queue (writer s))) false false (scheduled (writer s)) fl cb thr in
        s' = mkWorld w (ticks s) (inflight s ++ [(v, take n (queue (writer s)))]) (transmitted s) (settled s) /\
        view_bytes w v = batch_bytes (take n (queue (writer s))) /\
        (blen (view_bytes w v) <= thr \/ n = 1%nat))).
Proof.
  destruct s as [[q fz err sch cw cb t] tk infl tr st]. cbn. intros Hthr -> -> Hcb Hok.
  unfold process. cbn.
  destruct (batch_loop_ok q Hthr Hok) as (n & E & Hn & Hpos & Hle). rewrite E, res_bind_ok. clear E.
  pose proof (Forall_take _ n _ Hok) as Hok'.
  destruct (decide (q = [])) as [->|Hq].
  { rewrite take_nil. cbn. eexists. split; [done|]. by left. }
  specialize (Hpos Hq). assert (take n q <> []) as Hne by (destruct n, q; done || lia).
  pose proof (batch_bytes_pos _ Hne Hok') as Hpos'.
  rewrite (proj2 (Z.eqb_neq _ 0)) by lia.
  assert (blen (batch_bytes (take n q)) <= thr ->
    exists s', (x ← (b ← coalesce (take n q) cb 0; Ok (Slice (blen (batch_bytes (take n q))), b));
      let '(buf, coalesceBuf) := x in
      Ok (mkWorld (mkPipelinedWriter (drop n q) false false sch fl coalesceBuf thr) tk
        (infl ++ [(buf, take n q)]) tr st)) = Ok s' /\
      exists v cb', blen cb' = thr /\
        let w := mkPipelinedWriter (drop n q) false false sch fl cb' thr in
        s' = mkWorld w tk (infl ++ [(v, take n q)]) tr st /\ view_bytes w v = batch_bytes (take n q)) as Hco.
  { intros Hle'. rewrite coalesce_ok by (done || (apply in_bounds_true; lia)).
    eexists. split; [done|]. eexists _, _. split; [|split; [done|]].
    - rewrite length_write_at; [done|]. apply in_bounds_true. lia.
    - cbn. apply slice_write_at. lia. }
  destruct (take n q) as [|i [|j b]] eqn:Et; [done | |].
  - case_if; bool_hyps.
    + apply Forall_cons in Hok' as [Hi _]. rewrite (msg_toBuffer_law _ Hi), res_bind_ok.
      assert (n = 1%nat) as -> by (destruct Hle; [lia | done]).
      eexists. split; [done|]. right. eexists 1%nat, _, _. split; [lia|]. split; [done|]. rewrite Et.
      split; [done|]. cbn. split; [unfold batch_bytes; cbn; by rewrite app_nil_r | by right].
    + destruct Hco as (s' & Es & v & cb' & Hcb' & -> & Hv); [done|]. rewrite Es.
      eexists. split; [done|]. right. exists n, v, cb'. rewrite Et. cbn [view_bytes] in *. rewrite Hv.
      split_and!; [lia | lia | done | done | done | done].
  - destruct Hle as [Hle| ->]; [|by destruct q].
    destruct Hco as (s' & Es & v & cb' & Hcb' & -> & Hv); [done|]. rewrite Es.
    eexists. split; [done|]. right. exists n, v, cb'. rewrite Et, Hv.
    split_and!; [lia | lia | done | done | done | by left].
Qed.

Lemma resolved_app l k : resolved (l ++ k) = resolved l ++ resolved k.
Proof. apply omap_app. Qed.

Lemma resolved_reject (b : list (OutputQueueItem M)) : resolved (reject_all b) = [].
Proof. by induction b. Qed.

Lemma resolved_resolve (b : list (OutputQueueItem M)) : resolved (resolve_all b) = map resolver b.
Proof. unfold resolved, resolve_all. induction b; cbn; [done|]. by f_equal. Qed.

(** What [write] and the drain listener do before they call [schedule] keeps all of
    the invariant but the wake-up, which [schedule] restores. *)
Lemma schedule_wakes acc sent ended s :
  inv acc sent ended (mkWorld
    (mkPipelinedWriter (queue (writer s)) (queue_frozen (writer s)) (error (writer s))
      (scheduled (writer s)) false (coalesceBuf (writer s)) (threshold (writer s)))
    (ticks s) (inflight s) (transmitted s) (settled s)) ->
  inv acc sent ended (schedule s).
Proof.
  intros I. unfold schedule.
  destruct I, s as [[q fz err sch cw cb t] tk infl tr st]. cbn in *.
  unfold pending in *. cbn in *. destruct sch; cbn.
  - split; cbn; auto.
  - assert (tk + length infl = 0)%nat.
    { destruct (decide (0 < tk + length infl)%nat) as [Hp|]; [|lia]. by apply inv_scheduled0 in Hp. }
    destruct cw; cbn; split; cbn; auto; try (unfold pending; cbn; lia).
Qed.

Lemma write_inv acc sent ended s m r s' :
  inv acc sent ended s -> msg_ok m -> write s m r = Ok s' ->
  inv (if error (writer s) then acc else acc ++ [mkItem m r]) sent ended s'.
Proof.
  intros I Hm. unfold write.
  destruct (error (writer s)) eqn:He.
  { intros [= <-]. destruct I, s as [[q fz err sch cw cb t] tk infl tr st]. cbn in *.
    split; cbn; auto. by rewrite resolved_app, inv_resolved0, app_nil_r. }
  destruct (queue_frozen (writer s)) eqn:Hf; [done|]. intros [= <-]. apply schedule_wakes.
  destruct I, s as [[q fz err sch cw cb t] tk infl tr st]. cbn in *. subst fz err.
  destruct (inv_open0 eq_refl) as [_ ->].
  split; cbn; auto; try done.
  - rewrite inv_acc0, !app_nil_r, <- !app_assoc. done.
  - apply Forall_app. split; [done|]. by apply Forall_singleton.
Qed.

Lemma drain_inv acc sent ended s : inv acc sent ended s -> inv acc sent ended (on_drain s).
Proof.
  intros I. apply schedule_wakes. destruct I, s as [[q fz err sch cw cb t] tk infl tr st]. cbn in *.
  split; cbn; auto; done.
Qed.

Lemma close_inv acc sent ended s :
  inv acc sent ended s -> exists ended', inv acc sent ended' (close s).
Proof.
  intros I. exists (queue (writer s) ++ ended).
  destruct I, s as [[q fz err sch cw cb t] tk infl tr st]. cbn in *.
  split; cbn; auto; done.
Qed.

Lemma written_inv acc sent ended s v b rest :
  inv acc sent ended s -> inflight s = (v, b) :: rest ->
  inv acc (sent ++ b) ended (on_written s v b rest).
Proof.
  intros I Hi. destruct I, s as [[q fz err sch cw cb t] tk infl tr st]. cbn in *. subst infl.
  unfold pending in *. cbn in *. assert (tk = 0%nat /\ rest = []) as [-> ->].
  { destruct rest; cbn in *; split; (lia || done). }
  apply Forall_cons in inv_views0 as [Hv _]. cbn in Hv. specialize (inv_scheduled0 ltac:(lia)). subst sch.
  cbn [concat fmap list_fmap snd] in inv_acc0. rewrite app_nil_r in inv_acc0.
  unfold on_written. cbn.
  split; cbn; auto.
  - by rewrite inv_acc0, <- app_assoc.
  - by rewrite Hv, inv_sent0, batch_bytes_app.
  - by rewrite resolved_app, inv_resolved0, map_app, resolved_resolve.
  - unfold pending. cbn. case_if; lia.
  - unfold pending. cbn. case_if; [lia | done].
  - unfold pending. cbn. case_if; [done | lia].
  - intros Hq ->. destruct q; done.
Qed.

Lemma failed_inv acc sent ended s v b rest :
  inv acc sent ended s -> inflight s = (v, b) :: rest ->
  inv acc sent (b ++ queue (writer s) ++ ended) (on_failed s b rest).
Proof.
  intros I Hi. destruct I, s as [[q fz err sch cw cb t] tk infl tr st]. cbn in *. subst infl.
  unfold pending in *. cbn in *. assert (tk = 0%nat /\ rest = []) as [-> ->].
  { destruct rest; cbn in *; split; (lia || done). }
  cbn [concat fmap list_fmap snd] in inv_acc0. rewrite app_nil_r in inv_acc0.
  unfold on_failed, handleError, close. cbn. split; cbn; auto; try done.
  - by rewrite !resolved_app, !resolved_reject, inv_resolved0, !app_nil_r.
Qed.

Lemma tick_inv acc sent ended s fl s' :
  0 < thr -> inv acc sent ended s -> on_tick s fl = Ok s' -> inv acc sent ended s'.
Proof.
  intros Hthr I. unfold on_tick. destruct (ticks s) as [|n] eqn:Et; [done|].
  destruct I, s as [[q fz err sch cw cb t] tk infl tr st]. cbn in *. unfold pending in *. cbn in *. subst tk t.
  assert (n = 0%nat /\ infl = []) as [-> ->] by (destruct infl; cbn in *; split; (lia || done)).
  specialize (inv_scheduled0 ltac:(lia)). subst sch. cbn in inv_acc0.
  destruct err.
  { intros [= <-]. split; cbn; auto; unfold pending; cbn; lia || done. }
  set (s0 := mkWorld _ 0 [] tr st).
  destruct (process_ok s0 fl Hthr eq_refl eq_refl inv_buf0) as (s1 & E & Hs).
  { rewrite inv_acc0, !Forall_app in inv_ok0. tauto. }
  rewrite E. intros [= <-]. cbn in Hs. destruct Hs as [[-> ->]|(k & v & cb' & Hk & Hcb & -> & Hv & _)].
  - split; cbn; auto; unfold pending; cbn; lia || done.
  - split; cbn; auto; unfold pending; cbn; try (lia || done).
    + by rewrite app_nil_r, (app_assoc (take k q)), take_drop.
    + intros _. destruct fz; [|auto]. rewrite inv_frozen0 in Hk by done. cbn in Hk. lia.
Qed.

Lemma new_inv : 0 < thr -> inv [] [] [] (newPipelinedWriter thr).
Proof.
  intros Hthr. split; cbn; auto; unfold pending; cbn; try (lia || done).
  rewrite length_allocUnsafe. lia.
Qed.

Lemma run_inv acc s : 0 < thr -> run acc s -> exists sent ended, inv acc sent ended s.
Proof.
  intros Hthr Hr. induction Hr as [|acc s m r s' _ (sent & ended & I)|acc s fl s' _ (sent & ended & I)
    |acc s _ (sent & ended & I)|acc s v b rest _ (sent & ended & I)|acc s v b rest _ (sent & ended & I)
    |acc s _ (sent & ended & I)].
  - eauto using new_inv.
  - eauto using write_inv.
  - eauto using tick_inv.
  - eauto using drain_inv.
  - eauto using written_inv.
  - eauto using failed_inv.
  - destruct (close_inv _ _ _ _ I). eauto.
Qed.
End WriterFacts.

(** ** The messages of the client *)

(** A message object in a heap, with the frames it holds. *)
Record heap_message := mkHeapMessage {
  hm_heap : heap;
  hm_msg : ClientMessage;
  hm_locs : list loc;
  hm_frames : frames
}.

#[global] Instance heap_wire_message `{Uninit} : WireMessage heap_message := {|
  msg_getTotalLength m := r ← Message.getTotalLength (hm_msg m) (hm_heap m); Ok r.1.1;
  msg_writeTo m b pos := r ← Message.writeTo (hm_msg m) b pos (hm_heap m); Ok r.1;
  msg_toBuffer m := r ← Message.toBuffer (hm_msg m) (hm_heap m); Ok r.1.1
|}.

#[global] Instance heap_wire_laws `{Uninit} : WireMessageLaws heap_message.
Proof.
  refine {|
    msg_ok m := repr (hm_heap m) (hm_msg m) (hm_locs m) (hm_frames m) /\
      Forall frame_ok (hm_frames m) /\ hm_frames m <> [];
    msg_bytes m := wire (hm_frames m) |};
    cbn [msg_getTotalLength msg_writeTo msg_toBuffer heap_wire_message].
  - intros m (_ & _ & Hne). rewrite length_wire. destruct (hm_frames m) as [|f fs]; [done|].
    pose proof (getLength_pos f). pose proof (length_wire fs). unfold total_length in *. cbn [foldr]. lia.
  - intros m (Hr & _ & _). destruct (getTotalLength_ok _ _ _ _ Hr) as (m' & -> & _).
    rewrite length_wire. done.
  - intros m b pos (Hr & Hok & _) Hb. rewrite length_wire in *. unfold Message.writeTo.
    pose proof (repr_fuel _ _ _ _ Hr). destruct Hr as [Hseg _ _ _].
    by erewrite write_frames_ok.
  - intros m (Hr & Hok & _). destruct (toBuffer_ok _ _ _ _ Hr Hok) as (m' & -> & _). done.
Defined.

(** ** Properties *)

Section Properties.
Context {M : Type} `{WM : WireMessage M} `{!WireMessageLaws M} `{Uninit}.

(** C11: nothing is lost, duplicated or reordered by the pipelining writer: after any
    interleaving of calls and events, the accepted messages are, in order, those
    sent, those of the write in flight, those queued and, only after a close or a write error,
    those given up; the peer has received exactly the bytes of the messages sent,
    and exactly their promises are resolved. *)
Theorem pipelined_fifo (thr : Z) (acc : list (OutputQueueItem M)) (s : world M) :
  0 < thr -> run thr acc s ->
  exists sent ended,
    acc = sent ++ concat (inflight s).*2 ++ queue (writer s) ++ ended /\
    transmitted s = batch_bytes sent /\
    resolved (settled s) = map resolver sent /\
    (queue_frozen (writer s) = false -> ended = []).
Proof.
  intros Hthr Hr. destruct (run_inv _ _ _ Hthr Hr) as (sent & ended & []).
  exists sent, ended. split_and!; [done | done | done |]. intros Ho. by apply inv_open0.
Qed.

(** C34: the coalescing buffer is never written while a slice of it is with the socket: at
    most one of "a call of [process] is queued" and "a write is in flight" holds, once, so
    the view given to the socket still shows the bytes of its batch when the write
    completes. *)
Theorem pipelined_one_in_flight (thr : Z) (acc : list (OutputQueueItem M)) (s : world M) :
  0 < thr -> run thr acc s ->
  (ticks s + length (inflight s) <= 1)%nat /\
  Forall (fun p => view_bytes (writer s) p.1 = batch_bytes p.2) (inflight s).
Proof.
  intros Hthr Hr. by destruct (run_inv _ _ _ Hthr Hr) as (sent & ended & []).
Qed.

(** No wake-up is lost: while messages are queued, either the socket is full, and
    its drain event queues a call of [process] (unless one is pending), or exactly one
    call or write is pending. A call that runs does not throw and puts a non-empty
    batch in flight, of at most [threshold] bytes unless it is a single message. *)
Theorem pipelined_progress (thr : Z) (acc : list (OutputQueueItem M)) (s : world M) :
  0 < thr -> run thr acc s -> queue_frozen (writer s) = false -> queue (writer s) <> [] ->
  (canWrite (writer s) = true -> pending s = 1%nat) /\
  pending (on_drain s) = 1%nat /\
  (ticks s <> 0%nat -> forall flushed, exists s' n v,
     on_tick s flushed = Ok s' /\ (0 < n)%nat /\
     inflight s' = [(v, take n (queue (writer s)))] /\
     queue (writer s') = drop n (queue (writer s)) /\
     (blen (view_bytes (writer s') v) <= thr \/ n = 1%nat)).
Proof.
  intros Hthr Hr Ho Hq. destruct (run_inv _ _ _ Hthr Hr) as (sent & ended & I).
  destruct (inv_open _ _ _ _ _ I Ho) as [He _]. split_and!.
  - intros Hc. apply (inv_running _ _ _ _ _ I); [|done]. by apply (inv_wakeup _ _ _ _ _ I).
  - pose proof (drain_inv _ _ _ _ _ I) as I'. apply (inv_running _ _ _ _ _ I').
    + unfold on_drain, schedule. cbn. by destruct (scheduled (writer s)) eqn:E; cbn.
    + unfold on_drain, schedule. cbn. by destruct (scheduled (writer s)) eqn:E; cbn.
  - intros Ht flushed. unfold on_tick. pose proof (inv_pending _ _ _ _ _ I) as Hp. unfold pending in Hp.
    destruct (ticks s) as [|n] eqn:Et; [done|].
    assert (inflight s = []) as Hi by (destruct (inflight s); [done | cbn in Hp; lia]).
    destruct (process_ok thr (mkWorld (writer s) n (inflight s) (transmitted s) (settled s)) flushed Hthr He
      (inv_thr _ _ _ _ _ I) (inv_buf _ _ _ _ _ I))
      as (s' & E & [[Hq' _]|(k & v & cb & Hk & _ & -> & Hv & Hle)]).
    + cbn. pose proof (inv_ok _ _ _ _ _ I) as Hok. rewrite (inv_acc _ _ _ _ _ I), !Forall_app in Hok. tauto.
    + done.
    + rewrite E. eexists _, k, v. cbn in *. rewrite Hi. split_and!; [done | lia | done | done | done].
Qed.

(** A write error settles everything: each promise accepted so far is resolved or
    rejected, and every later write is rejected without being queued. *)
Theorem pipelined_failure_settles (thr : Z) (acc : list (OutputQueueItem M)) (s : world M) v b rest :
  0 < thr -> run thr acc s -> queue_frozen (writer s) = false -> inflight s = (v, b) :: rest ->
  let s' := on_failed s b rest in
  (forall i, i ∈ acc -> Resolved (resolver i) ∈ settled s' \/ Rejected (resolver i) ∈ settled s') /\
  (forall m r, exists s'', write s' m r = Ok s'' /\ queue (writer s'') = [] /\ Rejected r ∈ settled s'').
Proof.
  intros Hthr Hr Ho Hi s'. destruct (run_inv _ _ _ Hthr Hr) as (sent & ended & I).
  pose proof (inv_open _ _ _ _ _ I Ho) as [He ->]. destruct I. split.
  - intros i. rewrite inv_acc0, Hi, app_nil_r. cbn [fmap list_fmap concat snd].
    assert (rest = []) as -> by (unfold pending in inv_pending0; rewrite Hi in inv_pending0;
      destruct rest; [done | cbn in inv_pending0; lia]).
    rewrite app_nil_r, !elem_of_app. subst s'. cbn. rewrite !elem_of_app. intros [Hs|Hs].
    + left. left. apply (list_elem_of_fmap_2 resolver) in Hs. change (resolver <$> sent) with (map resolver sent) in Hs.
      rewrite <- inv_resolved0 in Hs. unfold resolved in Hs. apply list_elem_of_omap in Hs as ([r|r] & Hin & Hx); [|done].
      by injection Hx as ->.
    + right. right. destruct Hs as [Hs|Hs]; [left | right];
        by apply (list_elem_of_fmap_2 (fun i => Rejected (resolver i))) in Hs.
  - intros m r. eexists. split; [done|]. split; [done|]. cbn. rewrite !elem_of_app. right. by left.
Qed.
End Properties.

(** ** Witnesses *)

#[local] Instance demo_uninit : Uninit := fun _ => Byte.xee.

Definition demo_item (r : nat) : OutputQueueItem heap_message :=
  mkItem (mkHeapMessage frag_heap msg0 [0%nat; 1%nat]
    [mkFrame (replicate 16 Byte.x00) UNFRAGMENTED_MESSAGE; mkFrame [Byte.x41] 0]) r.

Definition ok_or {A} (d : A) (r : res A) : A := match r with Ok a => a | Err _ => d end.

(** Two messages of 29 bytes with a threshold of 40: the first is written, the second waits. *)
Definition demo_queued : world heap_message :=
  let s0 := newPipelinedWriter 40 in
  let s1 := ok_or s0 (write s0 (message (demo_item 1)) 1) in
  ok_or s0 (write s1 (message (demo_item 2)) 2).
Definition demo_in_flight : world heap_message := ok_or demo_queued (on_tick demo_queued true).

Lemma demo_item_ok r : msg_ok (message (demo_item r)).
Proof. split; [apply msg0_repr | split; [repeat constructor; vm_compute; done | done]]. Qed.

Lemma demo_queued_run : run 40 [demo_item 1; demo_item 2] demo_queued.
Proof.
  set (s0 := newPipelinedWriter (M := heap_message) 40).
  set (s1 := ok_or s0 (write s0 (message (demo_item 1)) 1)).
  apply (run_write 40 [demo_item 1] s1 (message (demo_item 2)) 2); [|apply demo_item_ok|by vm_compute].
  apply (run_write 40 [] s0 (message (demo_item 1)) 1); [constructor|apply demo_item_ok|by vm_compute].
Qed.

Lemma demo_in_flight_run : run 40 [demo_item 1; demo_item 2] demo_in_flight.
Proof. apply (run_tick 40 _ demo_queued true); [apply demo_queued_run | by vm_compute]. Qed.

Lemma pipelined_fifo_witness :
  exists sent ended, [demo_item 1; demo_item 2] =
    sent ++ concat (inflight demo_in_flight).*2 ++ queue (writer demo_in_flight) ++ ended.
Proof.
  destruct (pipelined_fifo 40 _ _ ltac:(lia) demo_in_flight_run) as (sent & ended & E & _).
  exists sent, ended. exact E.
Defined.

Lemma pipelined_one_in_flight_witness :
  length (inflight demo_in_flight) = 1%nat /\ ticks demo_in_flight = 0%nat /\
  Forall (fun p => view_bytes (writer demo_in_flight) p.1 = batch_bytes p.2) (inflight demo_in_flight).
Proof.
  split; [reflexivity|]. split; [reflexivity|].
  apply (pipelined_one_in_flight 40 _ _ ltac:(lia) demo_in_flight_run).
Defined.

Lemma pipelined_progress_witness :
  exists s' n v, on_tick demo_queued true = Ok s' /\
    inflight s' = [(v, take n (queue (writer demo_queued)))].
Proof.
  destruct (pipelined_progress 40 _ _ ltac:(lia) demo_queued_run eq_refl) as (_ & _ & Ht); [done|].
  destruct (Ht ltac:(vm_compute; discriminate) true) as (s' & n & v & E & _ & Ei & _).
  exists s', n, v. split; [exact E | exact Ei].
Defined.

Lemma pipelined_failure_settles_witness :
  exists v b, inflight demo_in_flight = [(v, b)] /\
    (Resolved 2 ∈ settled (on_failed demo_in_flight b []) \/
     Rejected 2 ∈ settled (on_failed demo_in_flight b [])).
Proof.
  eexists _, _. split; [vm_compute; reflexivity|].
  refine (proj1 (pipelined_failure_settles 40 _ _ _ _ _ ltac:(lia) demo_in_flight_run eq_refl eq_refl)
    (demo_item 2) _).
  apply list_elem_of_In. right. left. reflexivity.
Defined.

(** Closing the writer forgets the messages that are still queued: their promises are neither
    resolved nor rejected, and a later [write] throws when it pushes to the frozen queue. *)
Lemma close_forgets_queued :
  map resolver (queue (writer demo_in_flight)) = [2%nat] /\
  queue (writer (close demo_in_flight)) = [] /\ settled (close demo_in_flight) = [] /\
  write (close demo_in_flight) (message (demo_item 3)) 3 = Err TypeError.
Proof. split_and!; vm_compute; reflexivity. Qed.
