(* ===== verification/CodecCore.v ===== *)
(** * Codecs of structured messages: helpers, collections and what a codec promises

    [src/src/codec/builtin/CodecUtil.ts], [StringCodec.ts], [DataCodec.ts],
    [ByteArrayCodec.ts], [ListMultiFrameCodec.ts], [EntryListCodec.ts],
    [MapCodec.ts] and [ListDataCodec.ts]. An encoder appends frames to a message
    and may throw; a decoder is a [Dec].

    The class [MsgCodec] is the interface between codecs: on valid values
    the encoder appends a well-bracketed block of frames that does not depend on the
    message, and the decoder reads the value back from any block of
    similar frames, whatever follows it. [StructCodec] adds that a decoder skips the
    fields a newer peer appends before the end frame. *)

From S2P Require Export Prelude FixSized Frames HeapData.

Abbreviation Enc A := (frames -> A -> res frames).

(** ** CodecUtil *)

Module CodecUtil.
(** The loop of [fastForwardToEndFrame]: it reads one frame per turn. *)
Fixpoint fast_forward (numberOfExpectedEndFrames : nat) (s : frames) {struct s} : res (unit * frames) :=
  match numberOfExpectedEndFrames with
  | O => Ok (tt, s)
  | S n =>
      match s with
      | [] => Err TypeError
      | frame :: s =>
          if isEndFrame frame then fast_forward n s
          else if isBeginFrame frame then fast_forward (S (S n)) s
          else fast_forward (S n) s
      end
  end.

Definition fastForwardToEndFrame : Dec unit := fast_forward 1.

Definition encodeNullable {A} (encoder : Enc A) : Enc (option A) := fun clientMessage value =>
  match value with
  | None => Ok (addFrame clientMessage NULL_FRAME)
  | Some v => encoder clientMessage v
  end.

Definition nextFrameIsDataStructureEndFrame : Dec bool :=
  f ← peekNextFrame; mret (isEndFrame f).

Definition nextFrameIsNullFrame : Dec bool :=
  f ← peekNextFrame;
  let isNull := isNullFrame f in
  if isNull then nextFrame ≫= fun _ => mret isNull else mret isNull.

Definition decodeNullable {A} (decoder : Dec A) : Dec (option A) :=
  isNull ← nextFrameIsNullFrame;
  if isNull : bool then mret None else v ← decoder; mret (Some v).
End CodecUtil.

(** ** StringCodec, ByteArrayCodec and DataCodec *)

Module StringCodec.
Definition encode : Enc string := fun clientMessage value =>
  Ok (addFrame clientMessage (newFrame (from_utf8 value))).
Definition decode : Dec string := frame ← nextFrame; mret (to_utf8_string (content frame)).
End StringCodec.

Module ByteArrayCodec.
Definition encode : Enc buffer := fun clientMessage bytes => Ok (addFrame clientMessage (newFrame bytes)).
Definition decode : Dec buffer := frame ← nextFrame; mret (content frame).
End ByteArrayCodec.

Module DataCodec.
(** A [Frame] over a null payload is only found out when its length is taken. *)
Definition encode : Enc HeapData := fun clientMessage data =>
  match toBuffer data with
  | None => Err TypeError
  | Some b => Ok (addFrame clientMessage (newFrame b))
  end.
Definition encodeNullable : Enc (option HeapData) := fun clientMessage data =>
  match data with
  | None => Ok (addFrame clientMessage NULL_FRAME)
  | Some d => encode clientMessage d
  end.
Definition decode : Dec HeapData := frame ← nextFrame; lift (newHeapData (Some (content frame))).
Definition decodeNullable : Dec (option HeapData) :=
  isNull ← CodecUtil.nextFrameIsNullFrame;
  if isNull : bool then mret None else v ← decode; mret (Some v).
End DataCodec.

(** ** ListMultiFrameCodec and EntryListCodec

    The decoding loops run until the next frame is an end frame; a turn that
    does not throw consumes a frame, so the number of frames left bounds them. *)

Fixpoint decode_until_end {A} (fuel : nat) (decoder : Dec A) : Dec (list A) :=
  match fuel with
  | O => fun _ => Err OutOfFuel
  | S fuel =>
      atEnd ← CodecUtil.nextFrameIsDataStructureEndFrame;
      if atEnd : bool then mret []
      else x ← decoder; xs ← decode_until_end fuel decoder; mret (x :: xs)
  end.

(** The elements between a begin and an end frame. *)
Definition decode_bracketed {A} (decoder : Dec A) : Dec (list A) := fun s =>
  (_ ← skipFrame;
   result ← decode_until_end (S (length s)) decoder;
   _ ← skipFrame;
   mret result) s.

Fixpoint encode_each {A} (encoder : Enc A) (clientMessage : frames) (list : list A) : res frames :=
  match list with
  | [] => Ok clientMessage
  | x :: list => clientMessage ← encoder clientMessage x; encode_each encoder clientMessage list
  end.

Module ListMultiFrameCodec.
Definition encode {A} (encoder : Enc A) : Enc (list A) := fun clientMessage list =>
  let clientMessage := addFrame clientMessage BEGIN_FRAME in
  clientMessage ← encode_each encoder clientMessage list;
  Ok (addFrame clientMessage END_FRAME).
Definition encodeContainsNullable {A} (encoder : Enc A) : Enc (list (option A)) :=
  encode (CodecUtil.encodeNullable encoder).
Definition encodeNullable {A} (encoder : Enc A) : Enc (option (list A)) := fun clientMessage list =>
  match list with
  | None => Ok (addFrame clientMessage NULL_FRAME)
  | Some l => encode encoder clientMessage l
  end.
Definition decode {A} (decoder : Dec A) : Dec (list A) := decode_bracketed decoder.
Definition decodeNullable {A} (decoder : Dec A) : Dec (option (list A)) :=
  isNull ← CodecUtil.nextFrameIsNullFrame;
  if isNull : bool then mret None else v ← decode decoder; mret (Some v).
Definition decodeContainsNullable {A} (decoder : Dec A) : Dec (list (option A)) :=
  decode_bracketed (isNull ← CodecUtil.nextFrameIsNullFrame;
    if isNull : bool then mret None else v ← decoder; mret (Some v)).
End ListMultiFrameCodec.

Definition encode_entry {K V} (keyEncoder : Enc K) (valueEncoder : Enc V) : Enc (K * V) :=
  fun clientMessage entry =>
    clientMessage ← keyEncoder clientMessage entry.1;
    valueEncoder clientMessage entry.2.
Definition decode_entry {K V} (keyDecoder : Dec K) (valueDecoder : Dec V) : Dec (K * V) :=
  key ← keyDecoder; value ← valueDecoder; mret (key, value).

Module EntryListCodec.
Definition encode {K V} (keyEncoder : Enc K) (valueEncoder : Enc V) : Enc (list (K * V)) :=
  fun clientMessage entries =>
    let clientMessage := addFrame clientMessage BEGIN_FRAME in
    clientMessage ← encode_each (encode_entry keyEncoder valueEncoder) clientMessage entries;
    Ok (addFrame clientMessage END_FRAME).
Definition encodeNullable {K V} (keyEncoder : Enc K) (valueEncoder : Enc V)
    : Enc (option (list (K * V))) := fun clientMessage entries =>
  match entries with
  | None => Ok (addFrame clientMessage NULL_FRAME)
  | Some l => encode keyEncoder valueEncoder clientMessage l
  end.
Definition decode {K V} (keyDecoder : Dec K) (valueDecoder : Dec V) : Dec (list (K * V)) :=
  decode_bracketed (decode_entry keyDecoder valueDecoder).
Definition decodeNullable {K V} (keyDecoder : Dec K) (valueDecoder : Dec V)
    : Dec (option (list (K * V))) :=
  isNull ← CodecUtil.nextFrameIsNullFrame;
  if isNull : bool then mret None else v ← decode keyDecoder valueDecoder; mret (Some v).
End EntryListCodec.

(** ** MapCodec *)

Module MapCodec.
Definition encode {K V} (keyEncoder : Enc K) (valueEncoder : Enc V) : Enc (js_map K V) :=
  fun clientMessage map =>
    let clientMessage := addFrame clientMessage BEGIN_FRAME in
    clientMessage ← encode_each (encode_entry keyEncoder valueEncoder) clientMessage map;
    Ok (addFrame clientMessage END_FRAME).
Definition encodeNullable {K V} (keyEncoder : Enc K) (valueEncoder : Enc V)
    : Enc (option (js_map K V)) := fun clientMessage map =>
  match map with
  | None => Ok (addFrame clientMessage NULL_FRAME)
  | Some l => encode keyEncoder valueEncoder clientMessage l
  end.
Definition decode {K V} (same : K -> K -> bool) (keyDecoder : Dec K) (valueDecoder : Dec V)
    : Dec (js_map K V) :=
  entries ← decode_bracketed (decode_entry keyDecoder valueDecoder);
  mret (foldl (fun m e => js_map_set same m e.1 e.2) [] entries).
Definition decodeNullable {K V} (same : K -> K -> bool) (keyDecoder : Dec K) (valueDecoder : Dec V)
    : Dec (option (js_map K V)) :=
  isNull ← CodecUtil.nextFrameIsNullFrame;
  if isNull : bool then mret None else v ← decode same keyDecoder valueDecoder; mret (Some v).
End MapCodec.

Module ListDataCodec.
Definition encode : Enc (list HeapData) := ListMultiFrameCodec.encode DataCodec.encode.
Definition decode : Dec (list HeapData) := ListMultiFrameCodec.decode DataCodec.decode.
End ListDataCodec.

(** ** What a codec promises *)

(** Frames a decoder cannot tell apart: the final flag the transport sets on the last frame
    of a message, for one, is not looked at. *)
Record similar (f g : Frame) : Prop := {
  similar_content : content f = content g;
  similar_begin : isBeginFrame f = isBeginFrame g;
  similar_end : isEndFrame f = isEndFrame g;
  similar_null : isNullFrame f = isNullFrame g
}.

#[global] Instance similar_equiv : Equivalence similar.
Proof.
  split; [done | by intros f g []|]. intros f g h [] []. split; congruence.
Qed.

(** Begin and end frames match. *)
Inductive balanced : frames -> Prop :=
  | balanced_nil : balanced []
  | balanced_data f fs :
      isBeginFrame f = false -> isEndFrame f = false -> balanced fs -> balanced (f :: fs)
  | balanced_block b fs e gs :
      isBeginFrame b = true -> isEndFrame b = false -> isEndFrame e = true ->
      balanced fs -> balanced gs -> balanced (b :: fs ++ e :: gs).

Definition decodes {A} (dec : Dec A) (fs : frames) (a : A) : Prop :=
  forall fs' rest, Forall2 similar fs fs' -> dec (fs' ++ rest) = Ok (a, rest).

(** [nn]: the block does not start with a null frame. *)
Record block {A} (nn : bool) (enc : Enc A) (dec : Dec A) (a : A) (fs : frames) : Prop := {
  block_enc : forall m, enc m a = Ok (m ++ fs);
  block_dec : decodes dec fs a;
  block_balanced : balanced fs;
  block_head : exists f gs, fs = f :: gs /\ isEndFrame f = false /\ (nn = true -> isNullFrame f = false)
}.

Class MsgCodec {A} (nn : bool) (valid : A -> Prop) (enc : Enc A) (dec : Dec A) : Prop :=
  codec_spec : forall a, valid a -> exists fs, block nn enc dec a fs.

(** A bracketed structure whose decoder skips what follows the fields it knows. *)
Class StructCodec {A} (valid : A -> Prop) (enc : Enc A) (dec : Dec A) : Prop :=
  struct_spec : forall a, valid a -> exists body,
    balanced body /\
    (forall m, enc m a = Ok (m ++ BEGIN_FRAME :: body ++ [END_FRAME])) /\
    forall extra, balanced extra ->
      decodes dec (BEGIN_FRAME :: body ++ extra ++ [END_FRAME]) a.

(** ** Running decoders *)

Lemma similar_refl_list fs : Forall2 similar fs fs.
Proof. induction fs; by constructor. Qed.

Lemma decodes_run {A} (dec : Dec A) fs a rest : decodes dec fs a -> dec (fs ++ rest) = Ok (a, rest).
Proof. intros D. apply D, similar_refl_list. Qed.

Section Decodes.
Context {A B : Type}.
Implicit Types (a : A) (b : B) (f g : Frame) (fs gs : frames).

Lemma decodes_ret a : decodes (mret a) [] a.
Proof. intros fs' rest Hs. by apply Forall2_nil_inv_l in Hs as ->. Qed.

Lemma decodes_bind (dec : Dec A) (k : A -> Dec B) fs gs a b :
  decodes dec fs a -> decodes (k a) gs b -> decodes (dec ≫= k) (fs ++ gs) b.
Proof.
  intros D1 D2 fs' rest Hs. apply Forall2_app_inv_l in Hs as (fs1 & fs2 & H1 & H2 & ->).
  unfold mbind, Dec_bind. rewrite <- app_assoc, (D1 _ _ H1). by apply D2.
Qed.

Lemma decodes_next (k : Frame -> Dec B) f gs b :
  (forall g, similar f g -> decodes (k g) gs b) -> decodes (nextFrame ≫= k) (f :: gs) b.
Proof.
  intros D fs' rest Hs. apply Forall2_cons_inv_l in Hs as (g & gs' & Hg & Hgs & ->).
  cbn. by apply D.
Qed.

Lemma decodes_skip (k : unit -> Dec B) f gs b :
  decodes (k tt) gs b -> decodes (skipFrame ≫= k) (f :: gs) b.
Proof.
  intros D fs' rest Hs. apply Forall2_cons_inv_l in Hs as (g & gs' & Hg & Hgs & ->).
  cbn. by apply D.
Qed.

Lemma decodes_lift (r : res A) (k : A -> Dec B) a gs b :
  r = Ok a -> decodes (k a) gs b -> decodes (lift r ≫= k) gs b.
Proof. intros -> D fs' rest Hs. cbn. by apply D. Qed.

(** A look at the next frame, when the frames that follow start with [f]. *)
Lemma decodes_peek (k : Frame -> Dec B) f gs b :
  (forall g, similar f g -> decodes (k g) (f :: gs) b) -> decodes (peekNextFrame ≫= k) (f :: gs) b.
Proof.
  intros D fs' rest Hs. pose proof Hs as Hs'.
  apply Forall2_cons_inv_l in Hs as (g & gs' & Hg & _ & ->).
  change ((peekNextFrame ≫= k) ((g :: gs') ++ rest)) with (k g ((g :: gs') ++ rest)). by apply D.
Qed.

Lemma decodes_ext (dec dec' : Dec A) fs a :
  (forall s, dec s = dec' s) -> decodes dec fs a -> decodes dec' fs a.
Proof. intros E D fs' rest Hs. rewrite <- E. by apply D. Qed.
End Decodes.

(** The next frame is a null frame, or it is not. *)
Lemma null_frame_next {B} (k : bool -> Dec B) f gs b :
  decodes (k (isNullFrame f)) (if isNullFrame f then gs else f :: gs) b ->
  decodes (CodecUtil.nextFrameIsNullFrame ≫= k) (f :: gs) b.
Proof.
  intros D fs' rest Hs. pose proof Hs as Hs'.
  apply Forall2_cons_inv_l in Hs as (g & gs' & [_ _ _ Hn] & Hgs & ->).
  assert ((CodecUtil.nextFrameIsNullFrame ≫= k) ((g :: gs') ++ rest) =
    if isNullFrame g then k true (gs' ++ rest) else k false (g :: gs' ++ rest)) as ->.
  { cbv [CodecUtil.nextFrameIsNullFrame mbind Dec_bind peekNextFrame app].
    by destruct (isNullFrame g). }
  rewrite Hn in D. destruct (isNullFrame g); [by apply D|]. by apply (D (g :: gs')).
Qed.

Lemma decodes_nullable_none {A} (dec : Dec A) : decodes (CodecUtil.decodeNullable dec) [NULL_FRAME] None.
Proof. apply null_frame_next. apply decodes_ret. Qed.

Lemma decodes_nullable_some {A} (dec : Dec A) f gs a :
  isNullFrame f = false -> decodes dec (f :: gs) a ->
  decodes (CodecUtil.decodeNullable dec) (f :: gs) (Some a).
Proof.
  intros Hf D. apply null_frame_next. rewrite Hf. rewrite <- (app_nil_r (f :: gs)).
  by eapply decodes_bind; [|apply decodes_ret].
Qed.

(** ** Bracketed blocks *)

Lemma balanced_app fs gs : balanced fs -> balanced gs -> balanced (fs ++ gs).
Proof.
  induction 1 as [|f fs Hb He _ IH|b fs e gs' Hb Hb' He H1 IH1 H2 IH2]; intros Hg; cbn; [done | |].
  - apply balanced_data; auto.
  - rewrite <- app_assoc. cbn. apply balanced_block; auto.
Qed.

Lemma balanced_bracket fs : balanced fs -> balanced (BEGIN_FRAME :: fs ++ [END_FRAME]).
Proof. intros. apply balanced_block; [done | done | done | done | constructor]. Qed.

Lemma balanced_concat fss : Forall balanced fss -> balanced (concat fss).
Proof. induction 1; cbn; [constructor | by apply balanced_app]. Qed.

Lemma balanced_similar fs fs' : Forall2 similar fs fs' -> balanced fs -> balanced fs'.
Proof.
  intros Hs Hb. revert fs' Hs. induction Hb as [|f fs Hb He _ IH|b fs e gs' Hb Hb' He H1 IH1 H2 IH2]; intros fs' Hs.
  - apply Forall2_nil_inv_l in Hs as ->. constructor.
  - apply Forall2_cons_inv_l in Hs as (g & gs & [] & Hg & ->).
    apply balanced_data; [congruence | congruence | auto].
  - apply Forall2_cons_inv_l in Hs as (g & gs & [] & Hg & ->).
    apply Forall2_app_inv_l in Hg as (l1 & l2 & Hl1 & Hl2 & ->).
    apply Forall2_cons_inv_l in Hl2 as (g' & gs2 & [] & Hg' & ->).
    apply balanced_block; (congruence || auto).
Qed.

Lemma fast_forward_cons n f s :
  CodecUtil.fast_forward (S n) (f :: s) =
    if isEndFrame f then CodecUtil.fast_forward n s
    else if isBeginFrame f then CodecUtil.fast_forward (S (S n)) s
    else CodecUtil.fast_forward (S n) s.
Proof. done. Qed.

Lemma fast_forward_0 s : CodecUtil.fast_forward 0 s = Ok (tt, s).
Proof. by destruct s. Qed.

Lemma fast_forward_balanced fs : balanced fs -> forall n rest,
  CodecUtil.fast_forward (S n) (fs ++ rest) = CodecUtil.fast_forward (S n) rest.
Proof.
  induction 1 as [|f fs Hb He _ IH|b fs e gs Hb Hb' He H1 IH1 H2 IH2]; intros n rest; cbn [app]; [done | |].
  - by rewrite fast_forward_cons, He, Hb, IH.
  - by rewrite fast_forward_cons, Hb', Hb, <- app_assoc, IH1; cbn [app]; rewrite fast_forward_cons, He, IH2.
Qed.

(** [fastForwardToEndFrame] skips any well-bracketed frames and the end frame. *)
Lemma decodes_fast_forward {B} (k : unit -> Dec B) extra e gs b :
  balanced extra -> isEndFrame e = true -> decodes (k tt) gs b ->
  decodes (CodecUtil.fastForwardToEndFrame ≫= k) (extra ++ e :: gs) b.
Proof.
  intros Hb He D fs' rest Hs. apply Forall2_app_inv_l in Hs as (l1 & l2 & H1 & H2 & ->).
  apply Forall2_cons_inv_l in H2 as (g & gs' & [_ _ Hg _] & Hgs & ->).
  unfold mbind, Dec_bind, CodecUtil.fastForwardToEndFrame.
  rewrite <- app_assoc, (fast_forward_balanced l1) by (by eapply balanced_similar).
  cbn [app]. rewrite fast_forward_cons, <- Hg, He, fast_forward_0.
  by apply D.
Qed.

(** ** Simple codecs *)

Lemma newFrame_data b : isBeginFrame (newFrame b) = false /\ isEndFrame (newFrame b) = false /\
  isNullFrame (newFrame b) = false.
Proof. done. Qed.

Lemma data_block {A} (enc : Enc A) (dec : Dec A) a b :
  (forall m, enc m a = Ok (addFrame m (newFrame b))) ->
  (forall g rest, content g = b -> dec (g :: rest) = Ok (a, rest)) ->
  block true enc dec a [newFrame b].
Proof.
  intros He Hd. split; [done | | by repeat constructor | by eexists _, _].
  intros fs' rest Hs. apply Forall2_cons_inv_l in Hs as (g & gs & [Hc _ _ _] & Hg & ->).
  apply Forall2_nil_inv_l in Hg as ->. by apply Hd.
Qed.

#[export] Instance string_codec : MsgCodec true (fun _ => True) StringCodec.encode StringCodec.decode.
Proof.
  intros s _. exists [newFrame (from_utf8 s)]. apply data_block; [done|].
  intros g rest Hg. cbv [StringCodec.decode mbind Dec_bind nextFrame mret Dec_ret].
  by rewrite Hg, string_bytes_roundtrip.
Qed.

#[export] Instance bytes_codec : MsgCodec true (fun _ => True) ByteArrayCodec.encode ByteArrayCodec.decode.
Proof.
  intros b _. exists [newFrame b]. apply data_block; [done|]. intros g rest Hg.
  cbv [ByteArrayCodec.decode mbind Dec_bind nextFrame mret Dec_ret]. by rewrite Hg.
Qed.

(** A payload [new HeapData] accepts: empty, or at least its header. *)
Definition data_valid (d : HeapData) : Prop :=
  exists p, payload d = Some p /\ (blen p = 0 \/ HEAP_DATA_OVERHEAD <= blen p).

#[export] Instance data_codec : MsgCodec true data_valid DataCodec.encode DataCodec.decode.
Proof.
  intros [p] (b & Hp & Hlen). cbn in Hp. subst p. exists [newFrame b]. apply data_block; [done|].
  intros g rest Hg. cbv [DataCodec.decode mbind Dec_bind nextFrame lift].
  rewrite Hg. unfold newHeapData. destruct (blen b >? 0) eqn:E1; cbn; [|done].
  rewrite (proj2 (Z.ltb_ge _ _)); [done|]. rewrite Z.gtb_ltb in E1. bool_hyps. lia.
Qed.

Section Combinators.
Context {A : Type} {nn : bool} {valid : A -> Prop} {enc : Enc A} {dec : Dec A}.

Definition option_valid (valid : A -> Prop) (o : option A) : Prop :=
  match o with Some a => valid a | None => True end.

#[export] Instance nullable_codec :
  MsgCodec true valid enc dec ->
  MsgCodec false (option_valid valid) (CodecUtil.encodeNullable enc) (CodecUtil.decodeNullable dec).
Proof.
  intros C [a|] Ha.
  - destruct (C a Ha) as [fs [He Hd Hb (f & gs & -> & Hf & Hn)]]. exists (f :: gs).
    split; [done | | done | by eexists _, _]. apply decodes_nullable_some; auto.
  - exists [NULL_FRAME]. split; [done | apply decodes_nullable_none | by repeat constructor | by eexists _, _].
Qed.

Lemma blocks_exist (l : list A) :
  MsgCodec nn valid enc dec -> Forall valid l -> exists fss, Forall2 (block nn enc dec) l fss.
Proof.
  intros C. induction 1 as [|a l Ha _ (fss & IH)]; [by exists []|].
  destruct (C a Ha) as [fs B]. exists (fs :: fss). by constructor.
Qed.

Lemma encode_each_ok (l : list A) fss :
  Forall2 (block nn enc dec) l fss -> forall m, encode_each enc m l = Ok (m ++ concat fss).
Proof.
  induction 1 as [|a fs l fss B _ IH]; intros m; cbn [encode_each concat]; [by rewrite app_nil_r|].
  by rewrite (block_enc _ _ _ _ _ B), res_bind_ok, IH, <- app_assoc.
Qed.

Lemma decode_until_end_S fuel f s :
  decode_until_end (S fuel) dec (f :: s) =
    if isEndFrame f then Ok ([], f :: s)
    else '(x, s) ← dec (f :: s); '(xs, s) ← decode_until_end fuel dec s; Ok (x :: xs, s).
Proof.
  cbn [decode_until_end]. unfold CodecUtil.nextFrameIsDataStructureEndFrame.
  cbv [mbind Dec_bind res_bind mret Dec_ret peekNextFrame].
  destruct (isEndFrame f); [done|]. destruct (dec (f :: s)) as [[x s']|]; [|done].
  by destruct (decode_until_end fuel dec s') as [[xs s'']|].
Qed.

(** What a loop over the elements needs of the frames of one. *)
Record element (a : A) (fs : frames) : Prop := {
  element_dec : decodes dec fs a;
  element_head : exists f gs, fs = f :: gs /\ isEndFrame f = false
}.

Lemma block_elements (l : list A) fss : Forall2 (block nn enc dec) l fss -> Forall2 element l fss.
Proof. intros B. eapply Forall2_impl; [exact B|]. intros a fs [_ D _ (f & gs & E & Hf & _)]. split; [done | by exists f, gs]. Qed.

Lemma decode_until_end_ok (l : list A) fss :
  Forall2 element l fss -> forall fuel fs' e rest,
  (length l < fuel)%nat -> Forall2 similar (concat fss) fs' -> isEndFrame e = true ->
  decode_until_end fuel dec (fs' ++ e :: rest) = Ok (l, e :: rest).
Proof.
  induction 1 as [|a fs l fss B _ IH]; intros [|fuel] fs' e rest Hfuel Hs He; try (cbn in Hfuel; lia).
  - apply Forall2_nil_inv_l in Hs as ->. cbn [app]. by rewrite decode_until_end_S, He.
  - cbn [concat] in Hs. apply Forall2_app_inv_l in Hs as (l1 & l2 & H1 & H2 & ->).
    destruct B as [Hd (f & gs & -> & Hf)].
    pose proof H1 as H1'. apply Forall2_cons_inv_l in H1' as (g & gs' & [_ _ Hg _] & _ & ->).
    specialize (IH fuel l2 e rest ltac:(cbn in Hfuel; lia) H2 He).
    specialize (Hd _ (l2 ++ e :: rest) H1). rewrite <- app_assoc. cbn [app] in *.
    by rewrite decode_until_end_S, <- Hg, Hf, Hd, res_bind_ok, IH.
Qed.

Lemma decode_bracketed_ok (l : list A) fss :
  Forall2 element l fss ->
  decodes (decode_bracketed dec) (BEGIN_FRAME :: concat fss ++ [END_FRAME]) l.
Proof.
  intros B fs' rest Hs. apply Forall2_cons_inv_l in Hs as (g & gs & _ & Hgs & ->).
  apply Forall2_app_inv_l in Hgs as (l1 & l2 & H1 & H2 & ->).
  apply Forall2_cons_inv_l in H2 as (e & l3 & [_ _ He _] & H3 & ->).
  apply Forall2_nil_inv_l in H3 as ->.
  assert (length l <= length l1)%nat as Hlen.
  { apply Forall2_length in H1. rewrite <- H1. clear -B.
    induction B as [|a fs l fss [_ (f & gs & -> & _)] _ IH]; cbn; [lia|]. rewrite length_app. lia. }
  unfold decode_bracketed. cbv [mbind Dec_bind skipFrame mret Dec_ret]. cbn [app tail length].
  rewrite <- app_assoc. cbn [app].
  rewrite (decode_until_end_ok l fss B) by (done || (rewrite length_app; cbn; lia)). done.
Qed.

Lemma bracketed_block (l : list A) fss enc' :
  Forall2 (block nn enc dec) l fss ->
  (forall m, enc' m l = (m ← encode_each enc (addFrame m BEGIN_FRAME) l; Ok (addFrame m END_FRAME))) ->
  block true enc' (decode_bracketed dec) l (BEGIN_FRAME :: concat fss ++ [END_FRAME]).
Proof.
  intros B He. split.
  - intros m. rewrite He, (encode_each_ok _ _ B), res_bind_ok. unfold addFrame. by rewrite <- !app_assoc.
  - by apply decode_bracketed_ok, block_elements.
  - apply balanced_bracket, balanced_concat. clear He.
    induction B as [|a fs l fss [_ _ Hb _] _ IH]; constructor; done.
  - by eexists _, _.
Qed.

#[export] Instance list_codec :
  MsgCodec nn valid enc dec ->
  MsgCodec true (Forall valid) (ListMultiFrameCodec.encode enc) (ListMultiFrameCodec.decode dec).
Proof.
  intros C l Hl. destruct (blocks_exist l C Hl) as (fss & B). eexists. by apply (bracketed_block l fss).
Qed.

#[export] Instance struct_msg_codec : StructCodec valid enc dec -> MsgCodec true valid enc dec.
Proof.
  intros C a Ha. destruct (C a Ha) as (body & Hb & He & Hd).
  exists (BEGIN_FRAME :: body ++ [END_FRAME]).
  split; [done | apply (Hd []); constructor | by apply balanced_bracket | by eexists _, _].
Qed.
End Combinators.

#[export] Instance contains_nullable_codec {A} {valid : A -> Prop} {enc : Enc A} {dec : Dec A} :
  MsgCodec true valid enc dec ->
  MsgCodec true (Forall (option_valid valid)) (ListMultiFrameCodec.encodeContainsNullable enc)
    (ListMultiFrameCodec.decodeContainsNullable dec).
Proof. intros C. apply (list_codec (nn := false)), nullable_codec, C. Qed.

Section Entries.
Context {K V : Type} {nnk nnv : bool} {validK : K -> Prop} {validV : V -> Prop}.
Context {encK : Enc K} {decK : Dec K} {encV : Enc V} {decV : Dec V}.
Context {CK : MsgCodec nnk validK encK decK} {CV : MsgCodec nnv validV encV decV}.

Definition entry_valid (e : K * V) : Prop := validK e.1 /\ validV e.2.

Lemma entry_codec : MsgCodec nnk entry_valid (encode_entry encK encV) (decode_entry decK decV).
Proof.
  intros [k v] [Hk Hv]. destruct (CK k Hk) as [fs [Ek Dk Bk (f & gs & -> & Hf)]].
  destruct (CV v Hv) as [fs' [Ev Dv Bv _]]. exists ((f :: gs) ++ fs'). split.
  - intros m. unfold encode_entry. cbn [fst snd]. by rewrite Ek, res_bind_ok, Ev, <- app_assoc.
  - eapply decodes_bind; [exact Dk|]. rewrite <- (app_nil_r fs').
    eapply decodes_bind; [exact Dv|]. apply decodes_ret.
  - by apply balanced_app.
  - by eexists _, _.
Qed.

#[export] Instance entry_list_codec :
  MsgCodec true (Forall entry_valid) (EntryListCodec.encode encK encV) (EntryListCodec.decode decK decV).
Proof.
  intros l Hl. destruct (blocks_exist l entry_codec Hl) as (fss & B). eexists. by apply (bracketed_block l fss _ B).
Qed.

Definition map_valid (same : K -> K -> bool) (m : js_map K V) : Prop :=
  Forall entry_valid m /\ js_map_wf same m.

#[export] Instance map_codec same :
  MsgCodec true (map_valid same) (MapCodec.encode encK encV) (MapCodec.decode same decK decV).
Proof.
  intros l [Hl Hwf]. destruct (blocks_exist l entry_codec Hl) as (fss & B).
  destruct (bracketed_block l fss (MapCodec.encode encK encV) B) as [E D Bal Hd]; [done|].
  eexists. split; [exact E | | exact Bal | exact Hd]. unfold MapCodec.decode.
  rewrite <- (app_nil_r (_ :: _)). eapply decodes_bind; [exact D|].
  rewrite js_map_rebuild by done. apply decodes_ret.
Qed.
End Entries.
