(* ===== verification/BuiltinCodecs.v ===== *)
(** * Codecs of lists of fixed-size items, and the fields of an initial frame

    [src/src/codec/builtin/]: [ListIntegerCodec.ts], [ListLongCodec.ts],
    [LongArrayCodec.ts], [ListUUIDCodec.ts], [EntryListIntegerIntegerCodec.ts],
    [EntryListIntegerLongCodec.ts], [EntryListIntegerUUIDCodec.ts], [EntryListUUIDLongCodec.ts],
    [EntryListUUIDUUIDCodec.ts], [EntryListLongByteArrayCodec.ts],
    [EntryListUUIDListIntegerCodec.ts]. Each writes its items one after the other
    into one frame; the loops are shared here and the codecs instantiate them. *)

From S2P Require Export CodecCore.

(** ** Items of one size in one frame *)

(** The encoding loop, from item [i] on. *)
Fixpoint write_items {A} (size : Z) (wr : buffer -> Z -> A -> res buffer) (b : buffer) (i : Z)
    (list : list A) : res buffer :=
  match list with
  | [] => Ok b
  | x :: list => b ← wr b (i * size) x; write_items size wr b (i + 1) list
  end.

Fixpoint read_items {A} (size : Z) (rd : buffer -> Z -> res A) (b : buffer) (i : Z)
    (itemCount : nat) : res (list A) :=
  match itemCount with
  | O => Ok []
  | S n => x ← rd b (i * size); xs ← read_items size rd b (i + 1) n; Ok (x :: xs)
  end.

Definition encode_items `{Uninit} {A} (size : Z) (wr : buffer -> Z -> A -> res buffer) : Enc (list A) :=
  fun clientMessage list =>
    let itemCount := Z.of_nat (length list) in
    b ← write_items size wr (allocUnsafe (itemCount * size)) 0 list;
    Ok (addFrame clientMessage (newFrame b)).

(** [new Array(n)] throws a [RangeError] unless [n] is an integer. *)
Definition decode_items {A} (size : Z) (rd : buffer -> Z -> res A) : Dec (list A) :=
  frame ← nextFrame;
  let len := blen (content frame) in
  lift (if len mod size =? 0 then read_items size rd (content frame) 0 (Z.to_nat (len / size))
        else Err RangeError).

Section Builtin.
Context `{Uninit} {L : Type} `{LongLib L}.
Definition ListIntegerCodec_encode : Enc (list Z) := encode_items INT_SIZE_IN_BYTES encodeInt.
Definition ListIntegerCodec_decode : Dec (list Z) := decode_items INT_SIZE_IN_BYTES decodeInt.

Definition ListLongCodec_encode : Enc (list L) := encode_items LONG_SIZE_IN_BYTES encodeLongL.
Definition ListLongCodec_decode : Dec (list L) := decode_items LONG_SIZE_IN_BYTES decodeLong.
Definition LongArrayCodec_encode : Enc (list L) := ListLongCodec_encode.
Definition LongArrayCodec_decode : Dec (list L) := ListLongCodec_decode.

Definition ListUUIDCodec_encode : Enc (list (option (UUID L))) := encode_items UUID_SIZE_IN_BYTES encodeUUID.
Definition ListUUIDCodec_decode : Dec (list (option (UUID L))) := decode_items UUID_SIZE_IN_BYTES decodeUUID.

Definition EntryListIntegerIntegerCodec_encode : Enc (list (Z * Z)) :=
  encode_items (INT_SIZE_IN_BYTES + INT_SIZE_IN_BYTES) (write_pair 4 encodeInt encodeInt).
Definition EntryListIntegerIntegerCodec_decode : Dec (list (Z * Z)) :=
  decode_items (INT_SIZE_IN_BYTES + INT_SIZE_IN_BYTES) (read_pair 4 decodeInt decodeInt).

Definition EntryListIntegerLongCodec_encode : Enc (list (Z * L)) :=
  encode_items (INT_SIZE_IN_BYTES + LONG_SIZE_IN_BYTES) (write_pair 4 encodeInt encodeLongL).
Definition EntryListIntegerLongCodec_decode : Dec (list (Z * L)) :=
  decode_items (INT_SIZE_IN_BYTES + LONG_SIZE_IN_BYTES) (read_pair 4 decodeInt decodeLong).

Definition EntryListIntegerUUIDCodec_encode : Enc (list (Z * option (UUID L))) :=
  encode_items (INT_SIZE_IN_BYTES + UUID_SIZE_IN_BYTES) (write_pair 4 encodeInt encodeUUID).
Definition EntryListIntegerUUIDCodec_decode : Dec (list (Z * option (UUID L))) :=
  decode_items (INT_SIZE_IN_BYTES + UUID_SIZE_IN_BYTES) (read_pair 4 decodeInt decodeUUID).

Definition EntryListUUIDLongCodec_encode : Enc (list (option (UUID L) * L)) :=
  encode_items (UUID_SIZE_IN_BYTES + LONG_SIZE_IN_BYTES) (write_pair 17 encodeUUID encodeLongL).
Definition EntryListUUIDLongCodec_decode : Dec (list (option (UUID L) * L)) :=
  decode_items (UUID_SIZE_IN_BYTES + LONG_SIZE_IN_BYTES) (read_pair 17 decodeUUID decodeLong).

Definition EntryListUUIDUUIDCodec_encode : Enc (list (option (UUID L) * option (UUID L))) :=
  encode_items (UUID_SIZE_IN_BYTES + UUID_SIZE_IN_BYTES) (write_pair 17 encodeUUID encodeUUID).
Definition EntryListUUIDUUIDCodec_decode : Dec (list (option (UUID L) * option (UUID L))) :=
  decode_items (UUID_SIZE_IN_BYTES + UUID_SIZE_IN_BYTES) (read_pair 17 decodeUUID decodeUUID).

(** [result[i] = [keys[i], values[i]]]: a missing value is [undefined]. *)
Fixpoint pair_up {K V} (keys : list K) (values : list V) : list (K * option V) :=
  match keys with
  | [] => []
  | k :: keys => (k, head values) :: pair_up keys (tail values)
  end.

Definition EntryListLongByteArrayCodec_encode : Enc (list (L * buffer)) := fun clientMessage entries =>
  clientMessage ← encode_each ByteArrayCodec.encode (addFrame clientMessage BEGIN_FRAME) entries.*2;
  ListLongCodec_encode (addFrame clientMessage END_FRAME) entries.*1.
Definition EntryListLongByteArrayCodec_decode : Dec (list (L * option buffer)) :=
  values ← ListMultiFrameCodec.decode ByteArrayCodec.decode;
  keys ← ListLongCodec_decode;
  mret (pair_up keys values).

Definition EntryListUUIDListIntegerCodec_encode : Enc (list (option (UUID L) * list Z)) :=
  fun clientMessage entries =>
    clientMessage ← encode_each ListIntegerCodec_encode (addFrame clientMessage BEGIN_FRAME) entries.*2;
    ListUUIDCodec_encode (addFrame clientMessage END_FRAME) entries.*1.
Definition EntryListUUIDListIntegerCodec_decode : Dec (list (option (UUID L) * option (list Z))) :=
  values ← ListMultiFrameCodec.decode ListIntegerCodec_decode;
  keys ← ListUUIDCodec_decode;
  mret (pair_up keys values).
End Builtin.

(** ** Fields of a buffer *)

(** The [size] bytes at [off] are read as [a]. *)
Definition field {A} (rd : buffer -> Z -> res A) (size : nat) (b : buffer) (off : Z) (a : A) : Prop :=
  in_bounds b off (Z.of_nat size) = true /\
  forall b' off', in_bounds b' off' (Z.of_nat size) = true ->
    sub b' off' size = sub b off size -> rd b' off' = Ok a.

Lemma field_read {A} (rd : buffer -> Z -> res A) size b off a : field rd size b off a -> rd b off = Ok a.
Proof. intros [Hb R]. by apply R. Qed.

(** A write sets its own field and leaves the fields it does not overlap. *)
Lemma write_field {A} size (valid : A -> Prop) wr rd b off a :
  FixedCodec size valid wr rd -> valid a -> in_bounds b off (Z.of_nat size) = true ->
  exists b', wr b off a = Ok b' /\ length b' = length b /\ field rd size b' off a /\
    forall C (rd' : buffer -> Z -> res C) size' off' c,
      off' + Z.of_nat size' <= off \/ off + Z.of_nat size <= off' ->
      field rd' size' b off' c -> field rd' size' b' off' c.
Proof.
  intros F Ha Hb. destruct (F b off a Ha Hb) as (w & <- & E & R).
  exists (write_at b off w). split_and!; [done | by apply length_write_at | |].
  - split; [by rewrite in_bounds_write|]. intros b' off' Hb'. rewrite sub_write_same by done. by apply R.
  - intros C rd' size' off' c Hd [Hb2 R2]. split; [by rewrite in_bounds_write|].
    intros b' off2 Hb'. rewrite sub_write_other by done. by apply R2.
Qed.

(** ** Round trips of lists of items *)

Section Items.
Context {A : Type} {n : nat} {valid : A -> Prop}.
Context {wr : buffer -> Z -> A -> res buffer} {rd : buffer -> Z -> res A}.
Context {F : FixedCodec n valid wr rd}.
Abbreviation size := (Z.of_nat n).

Fixpoint items (b : buffer) (i : Z) (l : list A) : Prop :=
  match l with
  | [] => True
  | x :: l => field rd n b (i * size) x /\ items b (i + 1) l
  end.

Lemma write_items_ok l : forall b i,
  Forall valid l -> 0 <= i -> (i + Z.of_nat (length l)) * size <= blen b ->
  exists b', write_items size wr b i l = Ok b' /\ length b' = length b /\ items b' i l /\
    forall C (rd' : buffer -> Z -> res C) size' off' c,
      off' + Z.of_nat size' <= i * size -> field rd' size' b off' c -> field rd' size' b' off' c.
Proof.
  induction l as [|x l IH]; intros b i Hl Hi Hb; cbn [write_items items]; [by exists b|].
  apply Forall_cons in Hl as [Hx Hl]. cbn [length] in Hb.
  destruct (write_field n valid wr rd b (i * size) x F Hx) as (b1 & E1 & L1 & F1 & P1).
  { apply in_bounds_true. nia. }
  destruct (IH b1 (i + 1) Hl ltac:(lia)) as (b2 & E2 & L2 & F2 & P2); [rewrite L1; nia|].
  exists b2. rewrite E1, res_bind_ok. split_and!; [done | congruence | | done |].
  - apply P2; [nia | done].
  - intros C rd' size' off' c Ho Hf. apply P2; [nia|]. apply P1; [by left | done].
Qed.

Lemma read_items_ok l : forall b i, items b i l -> read_items size rd b i (length l) = Ok l.
Proof.
  induction l as [|x l IH]; intros b i; cbn [items read_items length]; [done|]. intros [Hx Hl].
  by rewrite (field_read _ _ _ _ _ Hx), res_bind_ok, (IH _ _ Hl).
Qed.

#[export] Instance items_codec `{Uninit} :
  TCEq (Nat.ltb 0 n) true -> MsgCodec true (Forall valid) (encode_items size wr) (decode_items size rd).
Proof.
  intros Hn l Hl. apply TCEq_eq, Nat.ltb_lt in Hn.
  set (b0 := allocUnsafe (Z.of_nat (length l) * size)).
  assert (blen b0 = Z.of_nat (length l) * size) as Hb0 by (unfold b0; rewrite length_allocUnsafe; lia).
  destruct (write_items_ok l b0 0 Hl ltac:(lia)) as (b & E & Lb & Hit & _); [lia|].
  exists [newFrame b]. apply data_block.
  - intros m. unfold encode_items. fold b0. by rewrite E.
  - intros g rest Hg. cbv [decode_items mbind Dec_bind nextFrame lift]. rewrite Hg, Lb, Hb0.
    rewrite Z.mod_mul, Z.div_mul by lia. cbn [Z.eqb].
    by rewrite Nat2Z.id, (read_items_ok l b 0 Hit).
Qed.
End Items.

Section BuiltinFacts.
Context `{Uninit} {L : Type} `{LongLaws L}.

#[export] Instance list_integer_codec :
  MsgCodec true (Forall (in_sint 32)) ListIntegerCodec_encode ListIntegerCodec_decode.
Proof. exact (items_codec (n := 4) (TCEq_refl _)). Qed.

#[export] Instance list_long_codec :
  MsgCodec true (Forall (fun _ : L => True)) ListLongCodec_encode ListLongCodec_decode.
Proof. exact (items_codec (n := 8) (TCEq_refl _)). Qed.

#[export] Instance list_uuid_codec :
  MsgCodec true (Forall (fun _ : option (UUID L) => True)) ListUUIDCodec_encode ListUUIDCodec_decode.
Proof. exact (items_codec (n := 17) (TCEq_refl _)). Qed.

(** An entry list of two fixed-size types. *)
Lemma entry_items_codec {A B} n m (v1 : A -> Prop) (v2 : B -> Prop) wr1 rd1 wr2 rd2 :
  FixedCodec (S n) v1 wr1 rd1 -> FixedCodec m v2 wr2 rd2 ->
  MsgCodec true (Forall (fun p => v1 p.1 /\ v2 p.2))
    (encode_items (Z.of_nat (S n) + Z.of_nat m) (write_pair (S n) wr1 wr2))
    (decode_items (Z.of_nat (S n) + Z.of_nat m) (read_pair (S n) rd1 rd2)).
Proof.
  intros F1 F2. rewrite <- Nat2Z.inj_add.
  apply (items_codec (n := S n + m) (F := fixed_pair _ _ _ _ _ _ _ _ F1 F2)), TCEq_refl.
Qed.

#[export] Instance entry_integer_integer_codec :
  MsgCodec true (Forall (fun p => in_sint 32 p.1 /\ in_sint 32 p.2))
    EntryListIntegerIntegerCodec_encode EntryListIntegerIntegerCodec_decode.
Proof. exact (entry_items_codec 3 4 _ _ _ _ _ _ fixed_int fixed_int). Qed.

#[export] Instance entry_integer_long_codec :
  MsgCodec true (Forall (fun p : Z * L => in_sint 32 p.1 /\ True))
    EntryListIntegerLongCodec_encode EntryListIntegerLongCodec_decode.
Proof. exact (entry_items_codec 3 8 _ _ _ _ _ _ fixed_int fixed_long). Qed.

#[export] Instance entry_integer_uuid_codec :
  MsgCodec true (Forall (fun p : Z * option (UUID L) => in_sint 32 p.1 /\ True))
    EntryListIntegerUUIDCodec_encode EntryListIntegerUUIDCodec_decode.
Proof. exact (entry_items_codec 3 17 _ _ _ _ _ _ fixed_int fixed_uuid). Qed.

#[export] Instance entry_uuid_long_codec :
  MsgCodec true (Forall (fun p : option (UUID L) * L => True /\ True))
    EntryListUUIDLongCodec_encode EntryListUUIDLongCodec_decode.
Proof. exact (entry_items_codec 16 8 _ _ _ _ _ _ fixed_uuid fixed_long). Qed.

#[export] Instance entry_uuid_uuid_codec :
  MsgCodec true (Forall (fun p : option (UUID L) * option (UUID L) => True /\ True))
    EntryListUUIDUUIDCodec_encode EntryListUUIDUUIDCodec_decode.
Proof. exact (entry_items_codec 16 17 _ _ _ _ _ _ fixed_uuid fixed_uuid). Qed.

Lemma pair_up_zip {K V} (l : list (K * V)) : pair_up l.*1 l.*2 = map (fun e => (e.1, Some e.2)) l.
Proof. induction l as [|[k v] l IH]; cbn; [done|]. by rewrite IH. Qed.

(** Values as a bracketed list, then the keys in one frame. *)
Lemma split_entries_ok {K V} (validK : K -> Prop) (validV : V -> Prop) encK decK encV decV
    (l : list (K * V)) :
  MsgCodec true (Forall validK) encK decK -> MsgCodec true validV encV decV ->
  Forall validK l.*1 -> Forall validV l.*2 ->
  exists fs,
    (forall m, (m ← encode_each encV (addFrame m BEGIN_FRAME) l.*2;
                encK (addFrame m END_FRAME) l.*1) = Ok (m ++ fs)) /\
    decodes (values ← ListMultiFrameCodec.decode decV; keys ← decK; mret (pair_up keys values)) fs
      (map (fun e => (e.1, Some e.2)) l).
Proof.
  intros CK CV Hk Hv. destruct (blocks_exist _ CV Hv) as (fss & B).
  destruct (CK _ Hk) as [fk [Ek Dk _ _]].
  exists ((BEGIN_FRAME :: concat fss ++ [END_FRAME]) ++ fk). split.
  - intros m. rewrite (encode_each_ok _ _ B), res_bind_ok. unfold addFrame. rewrite Ek.
    f_equal. cbn [app]. by rewrite <- !app_assoc.
  - eapply decodes_bind; [exact (decode_bracketed_ok _ fss (block_elements _ _ B))|].
    rewrite <- (app_nil_r fk). eapply decodes_bind; [exact Dk|]. rewrite pair_up_zip. apply decodes_ret.
Qed.
End BuiltinFacts.

(** The list codecs over one frame are inverse to each other: whatever the length of the list,
    the encoder appends a block of frames that the decoder turns back into the
    list, entry by entry, consuming exactly that block. Shown for the integer, long
    and UUID lists, the five fixed-size entry lists and the two that keep keys and values apart. *)
Theorem item_lists_roundtrip `{Uninit} {L} `{LongLaws L} :
  MsgCodec true (Forall (in_sint 32)) ListIntegerCodec_encode ListIntegerCodec_decode /\
  MsgCodec true (Forall (fun _ : L => True)) LongArrayCodec_encode LongArrayCodec_decode /\
  MsgCodec true (Forall (fun _ : option (UUID L) => True)) ListUUIDCodec_encode ListUUIDCodec_decode /\
  MsgCodec true (Forall (fun p => in_sint 32 p.1 /\ in_sint 32 p.2))
    EntryListIntegerIntegerCodec_encode EntryListIntegerIntegerCodec_decode /\
  MsgCodec true (Forall (fun p : Z * L => in_sint 32 p.1 /\ True))
    EntryListIntegerLongCodec_encode EntryListIntegerLongCodec_decode /\
  MsgCodec true (Forall (fun p : Z * option (UUID L) => in_sint 32 p.1 /\ True))
    EntryListIntegerUUIDCodec_encode EntryListIntegerUUIDCodec_decode /\
  MsgCodec true (Forall (fun p : option (UUID L) * L => True /\ True))
    EntryListUUIDLongCodec_encode EntryListUUIDLongCodec_decode /\
  MsgCodec true (Forall (fun p : option (UUID L) * option (UUID L) => True /\ True))
    EntryListUUIDUUIDCodec_encode EntryListUUIDUUIDCodec_decode /\
  (forall l : list (L * buffer), exists fs,
    (forall m, EntryListLongByteArrayCodec_encode m l = Ok (m ++ fs)) /\
    decodes EntryListLongByteArrayCodec_decode fs (map (fun e => (e.1, Some e.2)) l)) /\
  (forall l : list (option (UUID L) * list Z), Forall (Forall (in_sint 32)) l.*2 -> exists fs,
    (forall m, EntryListUUIDListIntegerCodec_encode m l = Ok (m ++ fs)) /\
    decodes EntryListUUIDListIntegerCodec_decode fs (map (fun e => (e.1, Some e.2)) l)).
Proof.
  split_and!; try apply _.
  - intros l. apply (split_entries_ok (fun _ => True) (fun _ => True)); [apply _ | apply _ | |];
      by apply Forall_true.
  - intros l Hl. apply (split_entries_ok (fun _ => True) (Forall (in_sint 32)));
      [apply _ | apply _ | by apply Forall_true | done].
Qed.

Lemma item_lists_roundtrip_witness :
  exists fs, decodes (EntryListUUIDListIntegerCodec_decode (L := Int64.t)) fs
    [(None, Some [1; -2]); (None, Some [])].
Proof.
  destruct (item_lists_roundtrip (L := Int64.t) (H := fun _ => Byte.xee)) as (_ & _ & _ & _ & _ & _ & _ & _ & _ & P).
  destruct (P [(None, [1; -2]); (None, [])]) as (fs & _ & D).
  - repeat constructor; vm_compute; done.
  - exists fs. exact D.
Defined.
