(* ===== verification/CustomCodecs.v ===== *)
(** * Codecs of the custom types (src/src/codec/custom/)

    One encoder and one decoder per custom type, over the records of the
    types ([src/src/core/], [src/src/protocol/], [src/src/sql/],
    [src/src/config/]). A structure is a begin frame, an initial frame with the
    fixed-size fields at their offsets, the other fields and an end frame; the
    decoders skip what follows the fields they know. *)

From S2P Require Export BuiltinCodecs.

(** [Frame.createInitialFrame(size, DEFAULT_FLAGS)] filled by [fill] and added. *)
Definition add_initial `{Uninit} (clientMessage : frames) (size : Z) (fill : buffer -> res buffer)
    : res frames :=
  let initialFrame := createInitialFrame size DEFAULT_FLAGS in
  c ← fill (content initialFrame);
  Ok (addFrame clientMessage (mkFrame c (flags initialFrame))).

(** ** Records *)

Record AddressImpl := mkAddress { host : string; port : Z }.
Record BitmapIndexOptions := mkBitmapIndexOptions { uniqueKey : string; uniqueKeyTransformation : Z }.
Record DistributedObjectInfo := mkDistributedObjectInfo { serviceName : string; doi_name : string }.
Record EndpointQualifier := mkEndpointQualifier { eq_type : Z; identifier : option string }.
Record MemberVersion := mkMemberVersion { major : Z; minor : Z; patch : Z }.
Record StackTraceElement := mkStackTraceElement {
  ste_className : string; methodName : string; fileName : option string; lineNumber : Z }.
Record ErrorHolder := mkErrorHolder {
  errorCode : Z; className : string; message : option string; stackTraceElements : list StackTraceElement }.
Record IndexConfig := mkIndexConfig {
  ic_name : option string; ic_type : Z; attributes : list string;
  bitmapIndexOptions : option BitmapIndexOptions }.
Record AnchorDataListHolder := mkAnchorDataListHolder {
  anchorPageList : list Z; anchorDataList : list (HeapData * HeapData) }.
Record PagingPredicateHolder := mkPagingPredicateHolder {
  anchorDataListHolder : AnchorDataListHolder; predicateData : option HeapData;
  comparatorData : option HeapData; pageSize : Z; page : Z; iterationTypeId : Z;
  partitionKeyData : option HeapData }.
Record SqlColumnMetadata := mkSqlColumnMetadata { scm_name : string; scm_type : Z; nullable : bool }.

Section LongRecords.
Context (L : Type).
Record RaftGroupId := mkRaftGroupId { rg_name : string; seed : L; rg_id : L }.
Record SqlError := mkSqlError {
  code : Z; se_message : option string; originatingMemberId : option (UUID L) }.
Record SqlQueryId := mkSqlQueryId { memberIdHigh : L; memberIdLow : L; localIdHigh : L; localIdLow : L }.
Record SimpleEntryView := mkSimpleEntryView {
  key : HeapData; value : HeapData; cost : L; creationTime : L; expirationTime : L; hits : L;
  lastAccessTime : L; lastStoredTime : L; lastUpdateTime : L; version : L; ttl : L; maxIdle : L }.
Record MemberInfo := mkMemberInfo {
  mi_address : AddressImpl; mi_uuid : option (UUID L); mi_attributes : js_map string string;
  liteMember : bool; mi_version : MemberVersion; addressMap : js_map EndpointQualifier AddressImpl }.
End LongRecords.
Arguments mkRaftGroupId {L}. Arguments rg_name {L}. Arguments seed {L}. Arguments rg_id {L}.
Arguments mkSqlError {L}. Arguments code {L}. Arguments se_message {L}. Arguments originatingMemberId {L}.
Arguments mkSqlQueryId {L}. Arguments memberIdHigh {L}. Arguments memberIdLow {L}.
Arguments localIdHigh {L}. Arguments localIdLow {L}.
Arguments mkSimpleEntryView {L}. Arguments key {L}. Arguments value {L}. Arguments cost {L}.
Arguments creationTime {L}. Arguments expirationTime {L}. Arguments hits {L}. Arguments lastAccessTime {L}.
Arguments lastStoredTime {L}. Arguments lastUpdateTime {L}. Arguments version {L}. Arguments ttl {L}.
Arguments maxIdle {L}.
Arguments mkMemberInfo {L}. Arguments mi_address {L}. Arguments mi_uuid {L}. Arguments mi_attributes {L}.
Arguments liteMember {L}. Arguments mi_version {L}. Arguments addressMap {L}.

(** [new InternalIndexConfig(name, type, attributes, options)] keeps its defaults for
    falsy arguments: an empty name, and the type 0, which is the default type. *)
Definition newIndexConfig (name : option string) (type : Z) (attributes : list string)
    (options : option BitmapIndexOptions) : IndexConfig :=
  mkIndexConfig (match name with Some EmptyString => None | _ => name end) type attributes options.

(** [new SqlColumnMetadataImpl(...)]: a column of a member that does not send
    nullability is nullable. *)
Definition newSqlColumnMetadata (name : string) (type : Z) (isNullableExists nullable : bool)
    : SqlColumnMetadata :=
  mkSqlColumnMetadata name type (if isNullableExists then nullable else true).

(** [new MemberInfo(...)]. *)
Definition newMemberInfo {L} (address : AddressImpl) (uuid : option (UUID L))
    (attributes : js_map string string) (liteMember : bool) (version : MemberVersion)
    (isAddressMapExists : bool) (addressMap : js_map EndpointQualifier AddressImpl) : MemberInfo L :=
  mkMemberInfo address uuid attributes liteMember version (if isAddressMapExists then addressMap else []).

(** Key comparison of the maps: strings by value; a decoded qualifier is a new object. *)
Definition same_string (a b : string) : bool := bool_decide (a = b).
Definition same_object {A} (a b : A) : bool := false.

(** ** Encoders and decoders *)

Section Codecs.
Context `{Uninit} {L : Type} `{LongLib L}.

Definition AddressCodec_encode : Enc AddressImpl := fun clientMessage address =>
  let clientMessage := addFrame clientMessage BEGIN_FRAME in
  clientMessage ← add_initial clientMessage (0 + INT_SIZE_IN_BYTES) (fun c => encodeInt c 0 (port address));
  clientMessage ← StringCodec.encode clientMessage (host address);
  Ok (addFrame clientMessage END_FRAME).
Definition AddressCodec_decode : Dec AddressImpl :=
  _ ← skipFrame;
  initialFrame ← nextFrame;
  port ← lift (decodeInt (content initialFrame) 0);
  host ← StringCodec.decode;
  _ ← CodecUtil.fastForwardToEndFrame;
  mret (mkAddress host port).

Definition AnchorDataListHolderCodec_encode : Enc AnchorDataListHolder := fun clientMessage h =>
  let clientMessage := addFrame clientMessage BEGIN_FRAME in
  clientMessage ← ListIntegerCodec_encode clientMessage (anchorPageList h);
  clientMessage ← EntryListCodec.encode DataCodec.encode DataCodec.encode clientMessage (anchorDataList h);
  Ok (addFrame clientMessage END_FRAME).
Definition AnchorDataListHolderCodec_decode : Dec AnchorDataListHolder :=
  _ ← skipFrame;
  anchorPageList ← ListIntegerCodec_decode;
  anchorDataList ← EntryListCodec.decode DataCodec.decode DataCodec.decode;
  _ ← CodecUtil.fastForwardToEndFrame;
  mret (mkAnchorDataListHolder anchorPageList anchorDataList).

Definition BitmapIndexOptionsCodec_encode : Enc BitmapIndexOptions := fun clientMessage o =>
  let clientMessage := addFrame clientMessage BEGIN_FRAME in
  clientMessage ← add_initial clientMessage (0 + INT_SIZE_IN_BYTES)
    (fun c => encodeInt c 0 (uniqueKeyTransformation o));
  clientMessage ← StringCodec.encode clientMessage (uniqueKey o);
  Ok (addFrame clientMessage END_FRAME).
Definition BitmapIndexOptionsCodec_decode : Dec BitmapIndexOptions :=
  _ ← skipFrame;
  initialFrame ← nextFrame;
  uniqueKeyTransformation ← lift (decodeInt (content initialFrame) 0);
  uniqueKey ← StringCodec.decode;
  _ ← CodecUtil.fastForwardToEndFrame;
  mret (mkBitmapIndexOptions uniqueKey uniqueKeyTransformation).

Definition DistributedObjectInfoCodec_encode : Enc DistributedObjectInfo := fun clientMessage o =>
  let clientMessage := addFrame clientMessage BEGIN_FRAME in
  clientMessage ← StringCodec.encode clientMessage (serviceName o);
  clientMessage ← StringCodec.encode clientMessage (doi_name o);
  Ok (addFrame clientMessage END_FRAME).
Definition DistributedObjectInfoCodec_decode : Dec DistributedObjectInfo :=
  _ ← skipFrame;
  serviceName ← StringCodec.decode;
  name ← StringCodec.decode;
  _ ← CodecUtil.fastForwardToEndFrame;
  mret (mkDistributedObjectInfo serviceName name).

Definition EndpointQualifierCodec_encode : Enc EndpointQualifier := fun clientMessage q =>
  let clientMessage := addFrame clientMessage BEGIN_FRAME in
  clientMessage ← add_initial clientMessage (0 + INT_SIZE_IN_BYTES) (fun c => encodeInt c 0 (eq_type q));
  clientMessage ← CodecUtil.encodeNullable StringCodec.encode clientMessage (identifier q);
  Ok (addFrame clientMessage END_FRAME).
Definition EndpointQualifierCodec_decode : Dec EndpointQualifier :=
  _ ← skipFrame;
  initialFrame ← nextFrame;
  type ← lift (decodeInt (content initialFrame) 0);
  identifier ← CodecUtil.decodeNullable StringCodec.decode;
  _ ← CodecUtil.fastForwardToEndFrame;
  mret (mkEndpointQualifier type identifier).

Definition StackTraceElementCodec_encode : Enc StackTraceElement := fun clientMessage e =>
  let clientMessage := addFrame clientMessage BEGIN_FRAME in
  clientMessage ← add_initial clientMessage (0 + INT_SIZE_IN_BYTES) (fun c => encodeInt c 0 (lineNumber e));
  clientMessage ← StringCodec.encode clientMessage (ste_className e);
  clientMessage ← StringCodec.encode clientMessage (methodName e);
  clientMessage ← CodecUtil.encodeNullable StringCodec.encode clientMessage (fileName e);
  Ok (addFrame clientMessage END_FRAME).
Definition StackTraceElementCodec_decode : Dec StackTraceElement :=
  _ ← skipFrame;
  initialFrame ← nextFrame;
  lineNumber ← lift (decodeInt (content initialFrame) 0);
  className ← StringCodec.decode;
  methodName ← StringCodec.decode;
  fileName ← CodecUtil.decodeNullable StringCodec.decode;
  _ ← CodecUtil.fastForwardToEndFrame;
  mret (mkStackTraceElement className methodName fileName lineNumber).

Definition ErrorHolderCodec_encode : Enc ErrorHolder := fun clientMessage e =>
  let clientMessage := addFrame clientMessage BEGIN_FRAME in
  clientMessage ← add_initial clientMessage (0 + INT_SIZE_IN_BYTES) (fun c => encodeInt c 0 (errorCode e));
  clientMessage ← StringCodec.encode clientMessage (className e);
  clientMessage ← CodecUtil.encodeNullable StringCodec.encode clientMessage (message e);
  clientMessage ← ListMultiFrameCodec.encode StackTraceElementCodec_encode clientMessage (stackTraceElements e);
  Ok (addFrame clientMessage END_FRAME).
Definition ErrorHolderCodec_decode : Dec ErrorHolder :=
  _ ← skipFrame;
  initialFrame ← nextFrame;
  errorCode ← lift (decodeInt (content initialFrame) 0);
  className ← StringCodec.decode;
  message ← CodecUtil.decodeNullable StringCodec.decode;
  stackTraceElements ← ListMultiFrameCodec.decode StackTraceElementCodec_decode;
  _ ← CodecUtil.fastForwardToEndFrame;
  mret (mkErrorHolder errorCode className message stackTraceElements).

(** [ErrorsCodec.decode]: the initial frame, then the errors. *)
Definition ErrorsCodec_decode : Dec (list ErrorHolder) :=
  _ ← skipFrame;
  ListMultiFrameCodec.decode ErrorHolderCodec_decode.

Definition IndexConfigCodec_encode : Enc IndexConfig := fun clientMessage c =>
  let clientMessage := addFrame clientMessage BEGIN_FRAME in
  clientMessage ← add_initial clientMessage (0 + INT_SIZE_IN_BYTES) (fun b => encodeInt b 0 (ic_type c));
  clientMessage ← CodecUtil.encodeNullable StringCodec.encode clientMessage (ic_name c);
  clientMessage ← ListMultiFrameCodec.encode StringCodec.encode clientMessage (attributes c);
  clientMessage ← CodecUtil.encodeNullable BitmapIndexOptionsCodec_encode clientMessage (bitmapIndexOptions c);
  Ok (addFrame clientMessage END_FRAME).
Definition IndexConfigCodec_decode : Dec IndexConfig :=
  _ ← skipFrame;
  initialFrame ← nextFrame;
  type ← lift (decodeInt (content initialFrame) 0);
  name ← CodecUtil.decodeNullable StringCodec.decode;
  attributes ← ListMultiFrameCodec.decode StringCodec.decode;
  bitmapIndexOptions ← CodecUtil.decodeNullable BitmapIndexOptionsCodec_decode;
  _ ← CodecUtil.fastForwardToEndFrame;
  mret (newIndexConfig name type attributes bitmapIndexOptions).

Definition MINOR_OFFSET : Z := 0 + BYTE_SIZE_IN_BYTES.
Definition PATCH_OFFSET : Z := MINOR_OFFSET + BYTE_SIZE_IN_BYTES.

Definition MemberVersionCodec_encode : Enc MemberVersion := fun clientMessage v =>
  let clientMessage := addFrame clientMessage BEGIN_FRAME in
  clientMessage ← add_initial clientMessage (PATCH_OFFSET + BYTE_SIZE_IN_BYTES) (fun c =>
    c ← encodeByte c 0 (major v);
    c ← encodeByte c MINOR_OFFSET (minor v);
    encodeByte c PATCH_OFFSET (patch v));
  Ok (addFrame clientMessage END_FRAME).
Definition MemberVersionCodec_decode : Dec MemberVersion :=
  _ ← skipFrame;
  initialFrame ← nextFrame;
  major ← lift (decodeByte (content initialFrame) 0);
  minor ← lift (decodeByte (content initialFrame) MINOR_OFFSET);
  patch ← lift (decodeByte (content initialFrame) PATCH_OFFSET);
  _ ← CodecUtil.fastForwardToEndFrame;
  mret (mkMemberVersion major minor patch).

Definition LITE_MEMBER_OFFSET : Z := 0 + UUID_SIZE_IN_BYTES.

Definition MemberInfoCodec_encode : Enc (MemberInfo L) := fun clientMessage i =>
  let clientMessage := addFrame clientMessage BEGIN_FRAME in
  clientMessage ← add_initial clientMessage (LITE_MEMBER_OFFSET + BOOLEAN_SIZE_IN_BYTES) (fun c =>
    c ← encodeUUID c 0 (mi_uuid i);
    encodeBoolean c LITE_MEMBER_OFFSET (liteMember i));
  clientMessage ← AddressCodec_encode clientMessage (mi_address i);
  clientMessage ← MapCodec.encode StringCodec.encode StringCodec.encode clientMessage (mi_attributes i);
  clientMessage ← MemberVersionCodec_encode clientMessage (mi_version i);
  clientMessage ← MapCodec.encode EndpointQualifierCodec_encode AddressCodec_encode clientMessage (addressMap i);
  Ok (addFrame clientMessage END_FRAME).
Definition MemberInfoCodec_decode : Dec (MemberInfo L) :=
  _ ← skipFrame;
  initialFrame ← nextFrame;
  uuid ← lift (decodeUUID (content initialFrame) 0);
  liteMember ← lift (decodeBoolean (content initialFrame) LITE_MEMBER_OFFSET);
  address ← AddressCodec_decode;
  attributes ← MapCodec.decode same_string StringCodec.decode StringCodec.decode;
  version ← MemberVersionCodec_decode;
  f ← peekNextFrame;
  r ← (if negb (isEndFrame f) then
         m ← MapCodec.decode same_object EndpointQualifierCodec_decode AddressCodec_decode; mret (true, m)
       else mret (false, []));
  _ ← CodecUtil.fastForwardToEndFrame;
  mret (newMemberInfo address uuid attributes liteMember version r.1 r.2).

Definition PAGE_OFFSET : Z := 0 + INT_SIZE_IN_BYTES.
Definition ITERATION_TYPE_ID_OFFSET : Z := PAGE_OFFSET + INT_SIZE_IN_BYTES.

Definition PagingPredicateHolderCodec_encode : Enc PagingPredicateHolder := fun clientMessage p =>
  let clientMessage := addFrame clientMessage BEGIN_FRAME in
  clientMessage ← add_initial clientMessage (ITERATION_TYPE_ID_OFFSET + BYTE_SIZE_IN_BYTES) (fun c =>
    c ← encodeInt c 0 (pageSize p);
    c ← encodeInt c PAGE_OFFSET (page p);
    encodeByte c ITERATION_TYPE_ID_OFFSET (iterationTypeId p));
  clientMessage ← AnchorDataListHolderCodec_encode clientMessage (anchorDataListHolder p);
  clientMessage ← CodecUtil.encodeNullable DataCodec.encode clientMessage (predicateData p);
  clientMessage ← CodecUtil.encodeNullable DataCodec.encode clientMessage (comparatorData p);
  clientMessage ← CodecUtil.encodeNullable DataCodec.encode clientMessage (partitionKeyData p);
  Ok (addFrame clientMessage END_FRAME).
Definition PagingPredicateHolderCodec_decode : Dec PagingPredicateHolder :=
  _ ← skipFrame;
  initialFrame ← nextFrame;
  pageSize ← lift (decodeInt (content initialFrame) 0);
  page ← lift (decodeInt (content initialFrame) PAGE_OFFSET);
  iterationTypeId ← lift (decodeByte (content initialFrame) ITERATION_TYPE_ID_OFFSET);
  anchorDataListHolder ← AnchorDataListHolderCodec_decode;
  predicateData ← CodecUtil.decodeNullable DataCodec.decode;
  comparatorData ← CodecUtil.decodeNullable DataCodec.decode;
  partitionKeyData ← CodecUtil.decodeNullable DataCodec.decode;
  _ ← CodecUtil.fastForwardToEndFrame;
  mret (mkPagingPredicateHolder anchorDataListHolder predicateData comparatorData pageSize page
          iterationTypeId partitionKeyData).

Definition ID_OFFSET : Z := 0 + LONG_SIZE_IN_BYTES.

Definition RaftGroupIdCodec_encode : Enc (RaftGroupId L) := fun clientMessage g =>
  let clientMessage := addFrame clientMessage BEGIN_FRAME in
  clientMessage ← add_initial clientMessage (ID_OFFSET + LONG_SIZE_IN_BYTES) (fun c =>
    c ← encodeLong c 0 (IsLong (seed g));
    encodeLong c ID_OFFSET (IsLong (rg_id g)));
  clientMessage ← StringCodec.encode clientMessage (rg_name g);
  Ok (addFrame clientMessage END_FRAME).
Definition RaftGroupIdCodec_decode : Dec (RaftGroupId L) :=
  _ ← skipFrame;
  initialFrame ← nextFrame;
  seed ← lift (decodeLong (content initialFrame) 0);
  id ← lift (decodeLong (content initialFrame) ID_OFFSET);
  name ← StringCodec.decode;
  _ ← CodecUtil.fastForwardToEndFrame;
  mret (mkRaftGroupId name seed id).

Definition CREATION_TIME_OFFSET : Z := 0 + LONG_SIZE_IN_BYTES.
Definition EXPIRATION_TIME_OFFSET : Z := CREATION_TIME_OFFSET + LONG_SIZE_IN_BYTES.
Definition HITS_OFFSET : Z := EXPIRATION_TIME_OFFSET + LONG_SIZE_IN_BYTES.
Definition LAST_ACCESS_TIME_OFFSET : Z := HITS_OFFSET + LONG_SIZE_IN_BYTES.
Definition LAST_STORED_TIME_OFFSET : Z := LAST_ACCESS_TIME_OFFSET + LONG_SIZE_IN_BYTES.
Definition LAST_UPDATE_TIME_OFFSET : Z := LAST_STORED_TIME_OFFSET + LONG_SIZE_IN_BYTES.
Definition VERSION_OFFSET : Z := LAST_UPDATE_TIME_OFFSET + LONG_SIZE_IN_BYTES.
Definition TTL_OFFSET : Z := VERSION_OFFSET + LONG_SIZE_IN_BYTES.
Definition MAX_IDLE_OFFSET : Z := TTL_OFFSET + LONG_SIZE_IN_BYTES.

Definition SimpleEntryViewCodec_encode : Enc (SimpleEntryView L) := fun clientMessage v =>
  let clientMessage := addFrame clientMessage BEGIN_FRAME in
  clientMessage ← add_initial clientMessage (MAX_IDLE_OFFSET + LONG_SIZE_IN_BYTES) (fun c =>
    c ← encodeLong c 0 (IsLong (cost v));
    c ← encodeLong c CREATION_TIME_OFFSET (IsLong (creationTime v));
    c ← encodeLong c EXPIRATION_TIME_OFFSET (IsLong (expirationTime v));
    c ← encodeLong c HITS_OFFSET (IsLong (hits v));
    c ← encodeLong c LAST_ACCESS_TIME_OFFSET (IsLong (lastAccessTime v));
    c ← encodeLong c LAST_STORED_TIME_OFFSET (IsLong (lastStoredTime v));
    c ← encodeLong c LAST_UPDATE_TIME_OFFSET (IsLong (lastUpdateTime v));
    c ← encodeLong c VERSION_OFFSET (IsLong (version v));
    c ← encodeLong c TTL_OFFSET (IsLong (ttl v));
    encodeLong c MAX_IDLE_OFFSET (IsLong (maxIdle v)));
  clientMessage ← DataCodec.encode clientMessage (key v);
  clientMessage ← DataCodec.encode clientMessage (value v);
  Ok (addFrame clientMessage END_FRAME).
Definition SimpleEntryViewCodec_decode : Dec (SimpleEntryView L) :=
  _ ← skipFrame;
  initialFrame ← nextFrame;
  cost ← lift (decodeLong (content initialFrame) 0);
  creationTime ← lift (decodeLong (content initialFrame) CREATION_TIME_OFFSET);
  expirationTime ← lift (decodeLong (content initialFrame) EXPIRATION_TIME_OFFSET);
  hits ← lift (decodeLong (content initialFrame) HITS_OFFSET);
  lastAccessTime ← lift (decodeLong (content initialFrame) LAST_ACCESS_TIME_OFFSET);
  lastStoredTime ← lift (decodeLong (content initialFrame) LAST_STORED_TIME_OFFSET);
  lastUpdateTime ← lift (decodeLong (content initialFrame) LAST_UPDATE_TIME_OFFSET);
  version ← lift (decodeLong (content initialFrame) VERSION_OFFSET);
  ttl ← lift (decodeLong (content initialFrame) TTL_OFFSET);
  maxIdle ← lift (decodeLong (content initialFrame) MAX_IDLE_OFFSET);
  key ← DataCodec.decode;
  value ← DataCodec.decode;
  _ ← CodecUtil.fastForwardToEndFrame;
  mret (mkSimpleEntryView key value cost creationTime expirationTime hits lastAccessTime lastStoredTime
          lastUpdateTime version ttl maxIdle).

Definition NULLABLE_OFFSET : Z := 0 + INT_SIZE_IN_BYTES.

Definition SqlColumnMetadataCodec_encode : Enc SqlColumnMetadata := fun clientMessage c =>
  let clientMessage := addFrame clientMessage BEGIN_FRAME in
  clientMessage ← add_initial clientMessage (NULLABLE_OFFSET + BOOLEAN_SIZE_IN_BYTES) (fun b =>
    b ← encodeInt b 0 (scm_type c);
    encodeBoolean b NULLABLE_OFFSET (nullable c));
  clientMessage ← StringCodec.encode clientMessage (scm_name c);
  Ok (addFrame clientMessage END_FRAME).
Definition SqlColumnMetadataCodec_decode : Dec SqlColumnMetadata :=
  _ ← skipFrame;
  initialFrame ← nextFrame;
  type ← lift (decodeInt (content initialFrame) 0);
  r ← lift (if NULLABLE_OFFSET + BOOLEAN_SIZE_IN_BYTES <=? blen (content initialFrame) then
              nullable ← decodeBoolean (content initialFrame) NULLABLE_OFFSET; Ok (true, nullable)
            else Ok (false, false));
  name ← StringCodec.decode;
  _ ← CodecUtil.fastForwardToEndFrame;
  mret (newSqlColumnMetadata name type r.1 r.2).

Definition ORIGINATING_MEMBER_ID_OFFSET : Z := 0 + INT_SIZE_IN_BYTES.

Definition SqlErrorCodec_encode : Enc (SqlError L) := fun clientMessage e =>
  let clientMessage := addFrame clientMessage BEGIN_FRAME in
  clientMessage ← add_initial clientMessage (ORIGINATING_MEMBER_ID_OFFSET + UUID_SIZE_IN_BYTES) (fun b =>
    b ← encodeInt b 0 (code e);
    encodeUUID b ORIGINATING_MEMBER_ID_OFFSET (originatingMemberId e));
  clientMessage ← CodecUtil.encodeNullable StringCodec.encode clientMessage (se_message e);
  Ok (addFrame clientMessage END_FRAME).
Definition SqlErrorCodec_decode : Dec (SqlError L) :=
  _ ← skipFrame;
  initialFrame ← nextFrame;
  code ← lift (decodeInt (content initialFrame) 0);
  originatingMemberId ← lift (decodeUUID (content initialFrame) ORIGINATING_MEMBER_ID_OFFSET);
  message ← CodecUtil.decodeNullable StringCodec.decode;
  _ ← CodecUtil.fastForwardToEndFrame;
  mret (mkSqlError code message originatingMemberId).

Definition MEMBER_ID_LOW_OFFSET : Z := 0 + LONG_SIZE_IN_BYTES.
Definition LOCAL_ID_HIGH_OFFSET : Z := MEMBER_ID_LOW_OFFSET + LONG_SIZE_IN_BYTES.
Definition LOCAL_ID_LOW_OFFSET : Z := LOCAL_ID_HIGH_OFFSET + LONG_SIZE_IN_BYTES.

Definition SqlQueryIdCodec_encode : Enc (SqlQueryId L) := fun clientMessage q =>
  let clientMessage := addFrame clientMessage BEGIN_FRAME in
  clientMessage ← add_initial clientMessage (LOCAL_ID_LOW_OFFSET + LONG_SIZE_IN_BYTES) (fun b =>
    b ← encodeLong b 0 (IsLong (memberIdHigh q));
    b ← encodeLong b MEMBER_ID_LOW_OFFSET (IsLong (memberIdLow q));
    b ← encodeLong b LOCAL_ID_HIGH_OFFSET (IsLong (localIdHigh q));
    encodeLong b LOCAL_ID_LOW_OFFSET (IsLong (localIdLow q)));
  Ok (addFrame clientMessage END_FRAME).
Definition SqlQueryIdCodec_decode : Dec (SqlQueryId L) :=
  _ ← skipFrame;
  initialFrame ← nextFrame;
  memberIdHigh ← lift (decodeLong (content initialFrame) 0);
  memberIdLow ← lift (decodeLong (content initialFrame) MEMBER_ID_LOW_OFFSET);
  localIdHigh ← lift (decodeLong (content initialFrame) LOCAL_ID_HIGH_OFFSET);
  localIdLow ← lift (decodeLong (content initialFrame) LOCAL_ID_LOW_OFFSET);
  _ ← CodecUtil.fastForwardToEndFrame;
  mret (mkSqlQueryId memberIdHigh memberIdLow localIdHigh localIdLow).
End Codecs.

(** ** Round trips *)

Lemma add_initial_ok `{Uninit} size fill c m :
  fill (allocUnsafe size) = Ok c ->
  add_initial m size fill = Ok (m ++ [mkFrame c DEFAULT_FLAGS]).
Proof. intros E. unfold add_initial. cbn [content createInitialFrame flags]. by rewrite E. Qed.

(** [write_field] with its side conditions as computations on offsets. *)
Lemma write_field_at {A} total size (valid : A -> Prop) wr rd b off a :
  FixedCodec size valid wr rd -> valid a -> blen b = total ->
  (0 <=? off) && (off + Z.of_nat size <=? total) = true ->
  exists b', wr b off a = Ok b' /\ blen b' = total /\ field rd size b' off a /\
    forall C (rd' : buffer -> Z -> res C) size' off' c,
      (off' + Z.of_nat size' <=? off) || (off + Z.of_nat size <=? off') = true ->
      field rd' size' b off' c -> field rd' size' b' off' c.
Proof.
  intros F Ha Hl Hb. bool_hyps.
  destruct (write_field size valid wr rd b off a F Ha) as (b' & E & L & Fl & P).
  { apply in_bounds_true. lia. }
  exists b'. split_and!; [done | congruence | done |]. intros C rd' size' off' c Hd.
  apply P. rewrite orb_true_iff, !Z.leb_le in Hd. done.
Qed.

Lemma decodes_ret_eq {A} (a b : A) : a = b -> decodes (mret a) [] b.
Proof. intros ->. apply decodes_ret. Qed.

Lemma blen_alloc `{Uninit} size : (0 <=? size) = true -> blen (allocUnsafe size) = size.
Proof. intros. bool_hyps. rewrite length_allocUnsafe. lia. Qed.

(** Writes the value [a] at [off] of the buffer [b] of [total] bytes, and carries the fields of
    [b] over to the buffer after the write. *)
Ltac wfield F total b off a b' :=
  let E := fresh "E" in let Lb := fresh "Lb" in let P := fresh "P" in
  destruct (write_field_at total _ _ _ _ b off a F) as (b' & E & Lb & ? & P);
  [try done; cbn in *; tauto | first [assumption | apply blen_alloc; reflexivity] | reflexivity |];
  repeat match goal with
  | Hf : field _ _ b _ _ |- _ => apply P in Hf; [|reflexivity]
  end;
  clear P.

Ltac run_writes :=
  unfold encodeLongL in *;
  repeat match goal with
  | E : ?w = Ok _ |- context [?w] => rewrite E, ?res_bind_ok
  end; reflexivity.

Ltac enc_step :=
  first [erewrite add_initial_ok by run_writes | erewrite block_enc by eassumption];
  rewrite res_bind_ok.

Ltac struct_enc :=
  let m := fresh "m" in
  intros m; unfold addFrame; cbv beta zeta; repeat enc_step; cbn [app]; rewrite <- ?app_assoc; reflexivity.

Ltac struct_balanced :=
  repeat first
    [ eapply block_balanced; eassumption
    | apply balanced_nil
    | apply balanced_app
    | apply balanced_data; [reflexivity | reflexivity |] ].

Ltac dec_next :=
  let g := fresh "g" in let Hc := fresh "Hc" in
  apply decodes_next; intros g [Hc _ _ _]; rewrite <- Hc; clear Hc; cbn [content].

Ltac dec_step :=
  first
    [ apply decodes_skip
    | dec_next
    | eapply decodes_lift; [eapply field_read; eassumption|]
    | eapply decodes_bind; [eapply block_dec; eassumption|]
    | apply decodes_fast_forward; [assumption | reflexivity|]
    | apply decodes_ret_eq ].

Ltac struct_dec :=
  let extra := fresh "extra" in let Hx := fresh "Hx" in
  intros extra Hx; cbn [app]; rewrite <- ?app_assoc; cbn [app]; repeat dec_step.

Section CodecFacts.
Context `{Uninit} {L : Type} `{LongLaws L}.

Definition address_valid (a : AddressImpl) : Prop := in_sint 32 (port a).

#[export] Instance address_codec : StructCodec address_valid AddressCodec_encode AddressCodec_decode.
Proof.
  intros a Ha. wfield fixed_int 4 (allocUnsafe (0 + INT_SIZE_IN_BYTES)) 0 (port a) b.
  destruct (string_codec (host a) I) as [fs B].
  exists (mkFrame b DEFAULT_FLAGS :: fs). unfold AddressCodec_encode, AddressCodec_decode.
  split_and!; [struct_balanced | struct_enc | struct_dec; by destruct a].
Qed.

Definition anchor_valid (h : AnchorDataListHolder) : Prop :=
  Forall (in_sint 32) (anchorPageList h) /\
  Forall (fun e => data_valid e.1 /\ data_valid e.2) (anchorDataList h).

#[export] Instance anchor_data_list_holder_codec :
  StructCodec anchor_valid AnchorDataListHolderCodec_encode AnchorDataListHolderCodec_decode.
Proof.
  intros a [Hp Hd].
  destruct (list_integer_codec _ Hp) as [fs1 B1].
  destruct (entry_list_codec (CK := data_codec) (CV := data_codec) _ Hd) as [fs2 B2].
  exists (fs1 ++ fs2). unfold AnchorDataListHolderCodec_encode, AnchorDataListHolderCodec_decode.
  split_and!; [struct_balanced | struct_enc | struct_dec; by destruct a].
Qed.

#[export] Instance bitmap_index_options_codec :
  StructCodec (fun o => in_sint 32 (uniqueKeyTransformation o))
    BitmapIndexOptionsCodec_encode BitmapIndexOptionsCodec_decode.
Proof.
  intros a Ha. wfield fixed_int 4 (allocUnsafe (0 + INT_SIZE_IN_BYTES)) 0 (uniqueKeyTransformation a) b.
  destruct (string_codec (uniqueKey a) I) as [fs B].
  exists (mkFrame b DEFAULT_FLAGS :: fs). unfold BitmapIndexOptionsCodec_encode, BitmapIndexOptionsCodec_decode.
  split_and!; [struct_balanced | struct_enc | struct_dec; by destruct a].
Qed.

#[export] Instance distributed_object_info_codec :
  StructCodec (fun _ => True) DistributedObjectInfoCodec_encode DistributedObjectInfoCodec_decode.
Proof.
  intros a _. destruct (string_codec (serviceName a) I) as [fs1 B1].
  destruct (string_codec (doi_name a) I) as [fs2 B2].
  exists (fs1 ++ fs2). unfold DistributedObjectInfoCodec_encode, DistributedObjectInfoCodec_decode.
  split_and!; [struct_balanced | struct_enc | struct_dec; by destruct a].
Qed.

Definition qualifier_valid (q : EndpointQualifier) : Prop := in_sint 32 (eq_type q).

Lemma optional_string (o : option string) : option_valid (fun _ : string => True) o.
Proof. by destruct o. Qed.

#[export] Instance endpoint_qualifier_codec :
  StructCodec qualifier_valid EndpointQualifierCodec_encode EndpointQualifierCodec_decode.
Proof.
  intros a Ha. wfield fixed_int 4 (allocUnsafe (0 + INT_SIZE_IN_BYTES)) 0 (eq_type a) b.
  destruct (nullable_codec string_codec (identifier a) (optional_string _)) as [fs B].
  exists (mkFrame b DEFAULT_FLAGS :: fs). unfold EndpointQualifierCodec_encode, EndpointQualifierCodec_decode.
  split_and!; [struct_balanced | struct_enc | struct_dec; by destruct a].
Qed.

Definition stack_trace_valid (e : StackTraceElement) : Prop := in_sint 32 (lineNumber e).

#[export] Instance stack_trace_element_codec :
  StructCodec stack_trace_valid StackTraceElementCodec_encode StackTraceElementCodec_decode.
Proof.
  intros a Ha. wfield fixed_int 4 (allocUnsafe (0 + INT_SIZE_IN_BYTES)) 0 (lineNumber a) b.
  destruct (string_codec (ste_className a) I) as [fs1 B1].
  destruct (string_codec (methodName a) I) as [fs2 B2].
  destruct (nullable_codec string_codec (fileName a) (optional_string _)) as [fs3 B3].
  exists (mkFrame b DEFAULT_FLAGS :: fs1 ++ fs2 ++ fs3).
  unfold StackTraceElementCodec_encode, StackTraceElementCodec_decode.
  split_and!; [struct_balanced | struct_enc | struct_dec; by destruct a].
Qed.

Definition error_valid (e : ErrorHolder) : Prop :=
  in_sint 32 (errorCode e) /\ Forall stack_trace_valid (stackTraceElements e).

#[export] Instance error_holder_codec :
  StructCodec error_valid ErrorHolderCodec_encode ErrorHolderCodec_decode.
Proof.
  intros a [Ha Hs]. wfield fixed_int 4 (allocUnsafe (0 + INT_SIZE_IN_BYTES)) 0 (errorCode a) b.
  destruct (string_codec (className a) I) as [fs1 B1].
  destruct (nullable_codec string_codec (message a) (optional_string _)) as [fs2 B2].
  destruct (list_codec (struct_msg_codec stack_trace_element_codec) _ Hs) as [fs3 B3].
  exists (mkFrame b DEFAULT_FLAGS :: fs1 ++ fs2 ++ fs3).
  unfold ErrorHolderCodec_encode, ErrorHolderCodec_decode.
  split_and!; [struct_balanced | struct_enc | struct_dec; by destruct a].
Qed.

(** The constructor drops an empty name. *)
Definition index_valid (c : IndexConfig) : Prop :=
  in_sint 32 (ic_type c) /\ ic_name c <> Some EmptyString /\
  option_valid (fun o => in_sint 32 (uniqueKeyTransformation o)) (bitmapIndexOptions c).

#[export] Instance index_config_codec : StructCodec index_valid IndexConfigCodec_encode IndexConfigCodec_decode.
Proof.
  intros a (Ha & Hn & Ho). wfield fixed_int 4 (allocUnsafe (0 + INT_SIZE_IN_BYTES)) 0 (ic_type a) b.
  destruct (nullable_codec string_codec (ic_name a) (optional_string _)) as [fs1 B1].
  destruct (list_codec string_codec (attributes a)) as [fs2 B2]; [by apply Forall_true|].
  destruct (nullable_codec (struct_msg_codec bitmap_index_options_codec) _ Ho) as [fs3 B3].
  exists (mkFrame b DEFAULT_FLAGS :: fs1 ++ fs2 ++ fs3).
  unfold IndexConfigCodec_encode, IndexConfigCodec_decode.
  split_and!; [struct_balanced | struct_enc | struct_dec].
  unfold newIndexConfig. destruct a as [[[]|] ? ? ?]; done.
Qed.

Definition version_valid (v : MemberVersion) : Prop :=
  in_uint 8 (major v) /\ in_uint 8 (minor v) /\ in_uint 8 (patch v).

#[export] Instance member_version_codec :
  StructCodec version_valid MemberVersionCodec_encode MemberVersionCodec_decode.
Proof.
  intros a (H1' & H2' & H3').
  wfield fixed_byte 3 (allocUnsafe (PATCH_OFFSET + BYTE_SIZE_IN_BYTES)) 0 (major a) b1.
  wfield fixed_byte 3 b1 MINOR_OFFSET (minor a) b2.
  wfield fixed_byte 3 b2 PATCH_OFFSET (patch a) b3.
  exists [mkFrame b3 DEFAULT_FLAGS]. unfold MemberVersionCodec_encode, MemberVersionCodec_decode.
  split_and!; [struct_balanced | struct_enc | struct_dec; by destruct a].
Qed.

Definition paging_valid (p : PagingPredicateHolder) : Prop :=
  in_sint 32 (pageSize p) /\ in_sint 32 (page p) /\ in_uint 8 (iterationTypeId p) /\
  anchor_valid (anchorDataListHolder p) /\ option_valid data_valid (predicateData p) /\
  option_valid data_valid (comparatorData p) /\ option_valid data_valid (partitionKeyData p).

#[export] Instance paging_predicate_holder_codec :
  StructCodec paging_valid PagingPredicateHolderCodec_encode PagingPredicateHolderCodec_decode.
Proof.
  intros a (H1' & H2' & H3' & Han & Hp & Hc & Hk).
  wfield fixed_int 9 (allocUnsafe (ITERATION_TYPE_ID_OFFSET + BYTE_SIZE_IN_BYTES)) 0 (pageSize a) b1.
  wfield fixed_int 9 b1 PAGE_OFFSET (page a) b2.
  wfield fixed_byte 9 b2 ITERATION_TYPE_ID_OFFSET (iterationTypeId a) b3.
  destruct (struct_msg_codec anchor_data_list_holder_codec _ Han) as [fs1 B1].
  destruct (nullable_codec data_codec _ Hp) as [fs2 B2].
  destruct (nullable_codec data_codec _ Hc) as [fs3 B3].
  destruct (nullable_codec data_codec _ Hk) as [fs4 B4].
  exists (mkFrame b3 DEFAULT_FLAGS :: fs1 ++ fs2 ++ fs3 ++ fs4).
  unfold PagingPredicateHolderCodec_encode, PagingPredicateHolderCodec_decode.
  split_and!; [struct_balanced | struct_enc | struct_dec; by destruct a].
Qed.

#[export] Instance raft_group_id_codec :
  StructCodec (fun _ : RaftGroupId L => True) RaftGroupIdCodec_encode RaftGroupIdCodec_decode.
Proof.
  intros a _. wfield (fixed_long (L := L)) 16 (allocUnsafe (ID_OFFSET + LONG_SIZE_IN_BYTES)) 0 (seed a) b1.
  wfield (fixed_long (L := L)) 16 b1 ID_OFFSET (rg_id a) b2.
  destruct (string_codec (rg_name a) I) as [fs B].
  exists (mkFrame b2 DEFAULT_FLAGS :: fs). unfold RaftGroupIdCodec_encode, RaftGroupIdCodec_decode.
  split_and!; [struct_balanced | struct_enc | struct_dec; by destruct a].
Qed.

Definition entry_view_valid (v : SimpleEntryView L) : Prop := data_valid (key v) /\ data_valid (value v).

#[export] Instance simple_entry_view_codec :
  StructCodec entry_view_valid SimpleEntryViewCodec_encode SimpleEntryViewCodec_decode.
Proof.
  intros a [Hk Hv].
  wfield (fixed_long (L := L)) 80 (allocUnsafe (MAX_IDLE_OFFSET + LONG_SIZE_IN_BYTES)) 0 (cost a) b0.
  wfield (fixed_long (L := L)) 80 b0 CREATION_TIME_OFFSET (creationTime a) b1.
  wfield (fixed_long (L := L)) 80 b1 EXPIRATION_TIME_OFFSET (expirationTime a) b2.
  wfield (fixed_long (L := L)) 80 b2 HITS_OFFSET (hits a) b3.
  wfield (fixed_long (L := L)) 80 b3 LAST_ACCESS_TIME_OFFSET (lastAccessTime a) b4.
  wfield (fixed_long (L := L)) 80 b4 LAST_STORED_TIME_OFFSET (lastStoredTime a) b5.
  wfield (fixed_long (L := L)) 80 b5 LAST_UPDATE_TIME_OFFSET (lastUpdateTime a) b6.
  wfield (fixed_long (L := L)) 80 b6 VERSION_OFFSET (version a) b7.
  wfield (fixed_long (L := L)) 80 b7 TTL_OFFSET (ttl a) b8.
  wfield (fixed_long (L := L)) 80 b8 MAX_IDLE_OFFSET (maxIdle a) b9.
  destruct (data_codec _ Hk) as [fs1 B1]. destruct (data_codec _ Hv) as [fs2 B2].
  exists (mkFrame b9 DEFAULT_FLAGS :: fs1 ++ fs2).
  unfold SimpleEntryViewCodec_encode, SimpleEntryViewCodec_decode.
  split_and!; [struct_balanced | struct_enc | struct_dec; by destruct a].
Qed.

Definition column_valid (c : SqlColumnMetadata) : Prop := in_sint 32 (scm_type c).

#[export] Instance sql_column_metadata_codec :
  StructCodec column_valid SqlColumnMetadataCodec_encode SqlColumnMetadataCodec_decode.
Proof.
  intros a Ha.
  wfield fixed_int 5 (allocUnsafe (NULLABLE_OFFSET + BOOLEAN_SIZE_IN_BYTES)) 0 (scm_type a) b1.
  wfield fixed_boolean 5 b1 NULLABLE_OFFSET (nullable a) b2.
  destruct (string_codec (scm_name a) I) as [fs B].
  exists (mkFrame b2 DEFAULT_FLAGS :: fs). unfold SqlColumnMetadataCodec_encode, SqlColumnMetadataCodec_decode.
  split_and!; [struct_balanced | struct_enc | struct_dec].
  eapply (decodes_lift _ _ (true, nullable a)).
  - rewrite (proj2 (Z.leb_le _ _)) by (rewrite Lb0; done). by erewrite field_read by eassumption.
  - repeat dec_step. by destruct a.
Qed.

Definition sql_error_valid (e : SqlError L) : Prop := in_sint 32 (code e).

#[export] Instance sql_error_codec : StructCodec sql_error_valid SqlErrorCodec_encode SqlErrorCodec_decode.
Proof.
  intros a Ha.
  wfield fixed_int 21 (allocUnsafe (ORIGINATING_MEMBER_ID_OFFSET + UUID_SIZE_IN_BYTES)) 0 (code a) b1.
  wfield (fixed_uuid (L := L)) 21 b1 ORIGINATING_MEMBER_ID_OFFSET (originatingMemberId a) b2.
  destruct (nullable_codec string_codec (se_message a) (optional_string _)) as [fs B].
  exists (mkFrame b2 DEFAULT_FLAGS :: fs). unfold SqlErrorCodec_encode, SqlErrorCodec_decode.
  split_and!; [struct_balanced | struct_enc | struct_dec; by destruct a].
Qed.

#[export] Instance sql_query_id_codec :
  StructCodec (fun _ : SqlQueryId L => True) SqlQueryIdCodec_encode SqlQueryIdCodec_decode.
Proof.
  intros a _.
  wfield (fixed_long (L := L)) 32 (allocUnsafe (LOCAL_ID_LOW_OFFSET + LONG_SIZE_IN_BYTES)) 0 (memberIdHigh a) b1.
  wfield (fixed_long (L := L)) 32 b1 MEMBER_ID_LOW_OFFSET (memberIdLow a) b2.
  wfield (fixed_long (L := L)) 32 b2 LOCAL_ID_HIGH_OFFSET (localIdHigh a) b3.
  wfield (fixed_long (L := L)) 32 b3 LOCAL_ID_LOW_OFFSET (localIdLow a) b4.
  exists [mkFrame b4 DEFAULT_FLAGS]. unfold SqlQueryIdCodec_encode, SqlQueryIdCodec_decode.
  split_and!; [struct_balanced | struct_enc | struct_dec; by destruct a].
Qed.

Definition member_valid (i : MemberInfo L) : Prop :=
  address_valid (mi_address i) /\ version_valid (mi_version i) /\ js_map_wf same_string (mi_attributes i) /\
  Forall (fun e => qualifier_valid e.1 /\ address_valid e.2) (addressMap i).

Lemma same_object_wf {K V} (m : js_map K V) : js_map_wf same_object m.
Proof. induction m as [|[k v] m IH]; cbn; [done|]. split; [by apply Forall_true | done]. Qed.

#[export] Instance member_info_codec : StructCodec member_valid MemberInfoCodec_encode MemberInfoCodec_decode.
Proof.
  intros a (Ha & Hv & Hat & Hm).
  wfield (fixed_uuid (L := L)) 18 (allocUnsafe (LITE_MEMBER_OFFSET + BOOLEAN_SIZE_IN_BYTES)) 0 (mi_uuid a) b1.
  wfield fixed_boolean 18 b1 LITE_MEMBER_OFFSET (liteMember a) b2.
  destruct (struct_msg_codec address_codec _ Ha) as [fs1 B1].
  destruct (map_codec (CK := string_codec) (CV := string_codec) same_string (mi_attributes a)) as [fs2 B2].
  { split; [|done]. by apply Forall_true. }
  destruct (struct_msg_codec member_version_codec _ Hv) as [fs3 B3].
  destruct (map_codec (CK := struct_msg_codec endpoint_qualifier_codec) (CV := struct_msg_codec address_codec)
    same_object (addressMap a)) as [fs4 B4]; [split; [exact Hm | apply same_object_wf]|].
  exists (mkFrame b2 DEFAULT_FLAGS :: fs1 ++ fs2 ++ fs3 ++ fs4).
  unfold MemberInfoCodec_encode, MemberInfoCodec_decode.
  split_and!; [struct_balanced | struct_enc | struct_dec].
  destruct (block_head _ _ _ _ _ B4) as (f & gs & -> & Hf & _).
  cbn [app]. apply decodes_peek. intros q [_ _ Hq _]. rewrite <- Hq, Hf. cbn [negb].
  rewrite app_comm_cons. eapply (decodes_bind _ _ _ _ (true, addressMap a)).
  - rewrite <- (app_nil_r (f :: gs)). repeat dec_step. done.
  - repeat dec_step. by destruct a.
Qed.
End CodecFacts.

(** ** Properties *)

(** C32: every custom codec is a round trip that tolerates newer peers: for each of the
    sixteen types the encoder brackets a well-formed body between a begin and an end
    frame, and the decoder returns exactly the encoded value from
    those frames, also when well-bracketed frames it does not know follow the body,
    and consumes the structure up to its own end frame, no more. *)
Theorem custom_codecs_forward_compatible `{Uninit} {L} `{LongLaws L} :
  StructCodec address_valid AddressCodec_encode AddressCodec_decode /\
  StructCodec anchor_valid AnchorDataListHolderCodec_encode AnchorDataListHolderCodec_decode /\
  StructCodec (fun o => in_sint 32 (uniqueKeyTransformation o))
    BitmapIndexOptionsCodec_encode BitmapIndexOptionsCodec_decode /\
  StructCodec (fun _ => True) DistributedObjectInfoCodec_encode DistributedObjectInfoCodec_decode /\
  StructCodec qualifier_valid EndpointQualifierCodec_encode EndpointQualifierCodec_decode /\
  StructCodec stack_trace_valid StackTraceElementCodec_encode StackTraceElementCodec_decode /\
  StructCodec error_valid ErrorHolderCodec_encode ErrorHolderCodec_decode /\
  StructCodec index_valid IndexConfigCodec_encode IndexConfigCodec_decode /\
  StructCodec version_valid MemberVersionCodec_encode MemberVersionCodec_decode /\
  StructCodec (member_valid (L := L)) MemberInfoCodec_encode MemberInfoCodec_decode /\
  StructCodec paging_valid PagingPredicateHolderCodec_encode PagingPredicateHolderCodec_decode /\
  StructCodec (fun _ : RaftGroupId L => True) RaftGroupIdCodec_encode RaftGroupIdCodec_decode /\
  StructCodec (entry_view_valid (L := L)) SimpleEntryViewCodec_encode SimpleEntryViewCodec_decode /\
  StructCodec column_valid SqlColumnMetadataCodec_encode SqlColumnMetadataCodec_decode /\
  StructCodec (sql_error_valid (L := L)) SqlErrorCodec_encode SqlErrorCodec_decode /\
  StructCodec (fun _ : SqlQueryId L => True) SqlQueryIdCodec_encode SqlQueryIdCodec_decode.
Proof. split_and!; apply _. Qed.

#[local] Instance demo_uninit : Uninit := fun _ => Byte.xee.

Definition demo_member : MemberInfo Int64.t :=
  mkMemberInfo (mkAddress "10.0.0.1" 5701) None [("zone"%string, "a"%string)] true (mkMemberVersion 5 0 1)
    [(mkEndpointQualifier 1 (Some "public"%string), mkAddress "example.org" 5702)].

Lemma demo_member_valid : member_valid demo_member.
Proof.
  split_and!; try done; repeat constructor; try (vm_compute; done).
Qed.

Lemma custom_codecs_forward_compatible_witness :
  exists fs, MemberInfoCodec_encode [] demo_member = Ok fs /\
    MemberInfoCodec_decode fs = Ok (demo_member, []).
Proof.
  destruct (custom_codecs_forward_compatible (L := Int64.t))
    as (_ & _ & _ & _ & _ & _ & _ & _ & _ & C & _).
  destruct (C demo_member demo_member_valid) as (body & _ & E & D).
  exists (BEGIN_FRAME :: body ++ [] ++ [END_FRAME]). split; [exact (E [])|].
  rewrite <- (app_nil_r (_ :: _)). apply decodes_run, D. constructor.
Defined.

(** Frames of older members are still decoded: a member entry that ends before
    the address map decodes to the member with an empty map, and a column whose
    initial frame has no nullability byte decodes to a nullable column. *)
Theorem older_peers_decoded `{Uninit} {L} `{LongLaws L} (i : MemberInfo L) (c : SqlColumnMetadata) :
  member_valid i -> addressMap i = [] -> column_valid c ->
  (exists body, (forall m, MemberInfoCodec_encode m i =
                   Ok (m ++ BEGIN_FRAME :: body ++ [BEGIN_FRAME; END_FRAME; END_FRAME])) /\
     decodes MemberInfoCodec_decode (BEGIN_FRAME :: body ++ [END_FRAME]) i) /\
  (exists b fs, (forall m, SqlColumnMetadataCodec_encode m c =
                   Ok (m ++ BEGIN_FRAME :: mkFrame b DEFAULT_FLAGS :: fs ++ [END_FRAME])) /\
     decodes SqlColumnMetadataCodec_decode
       (BEGIN_FRAME :: mkFrame (take 4 b) DEFAULT_FLAGS :: fs ++ [END_FRAME])
       (mkSqlColumnMetadata (scm_name c) (scm_type c) true)).
Proof.
  intros (Ha & Hv & Hat & _) Hm Hc. split.
  - wfield (fixed_uuid (L := L)) 18 (allocUnsafe (LITE_MEMBER_OFFSET + BOOLEAN_SIZE_IN_BYTES)) 0 (mi_uuid i) b1.
    wfield fixed_boolean 18 b1 LITE_MEMBER_OFFSET (liteMember i) b2.
    destruct (struct_msg_codec address_codec _ Ha) as [fs1 B1].
    destruct (map_codec (CK := string_codec) (CV := string_codec) same_string (mi_attributes i)) as [fs2 B2].
    { split; [|done]. by apply Forall_true. }
    destruct (struct_msg_codec member_version_codec _ Hv) as [fs3 B3].
    exists (mkFrame b2 DEFAULT_FLAGS :: fs1 ++ fs2 ++ fs3).
    unfold MemberInfoCodec_encode, MemberInfoCodec_decode. rewrite Hm. split.
    + intros m. unfold addFrame at 1. cbv beta zeta. do 4 enc_step.
      unfold MapCodec.encode, addFrame. cbn [encode_each]. rewrite !res_bind_ok.
      cbn [app]. rewrite <- ?app_assoc. reflexivity.
    + cbn [app]; rewrite <- ?app_assoc; cbn [app]. repeat dec_step.
      apply decodes_peek. intros q [_ _ Hq _]. rewrite <- Hq. cbn [negb isEndFrame].
      change (negb (isEndFrame END_FRAME)) with false. cbn iota.
      rewrite <- (app_nil_l [END_FRAME]) at 1. eapply (decodes_bind _ _ _ _ (false, [])); [apply decodes_ret|].
      apply (decodes_fast_forward _ []); [constructor | done |]. apply decodes_ret_eq.
      destruct i. cbn in Hm. by subst.
  - wfield fixed_int 5 (allocUnsafe (NULLABLE_OFFSET + BOOLEAN_SIZE_IN_BYTES)) 0 (scm_type c) b1.
    wfield fixed_boolean 5 b1 NULLABLE_OFFSET (nullable c) b2.
    destruct (string_codec (scm_name c) I) as [fs B].
    assert (length (take 4 b2) = 4%nat) as Hl by (rewrite length_take; lia).
    assert (decodeInt (take 4 b2) 0 = Ok (scm_type c)) as Hr.
    { match goal with Hf : field decodeInt 4 b2 0 _ |- _ => destruct Hf as [_ R] end. apply R.
      - apply in_bounds_true. rewrite Hl. done.
      - unfold sub. cbn [Z.to_nat]. rewrite !drop_0, take_take. done. }
    exists b2, fs. unfold SqlColumnMetadataCodec_encode, SqlColumnMetadataCodec_decode.
    split; [struct_enc|]. cbn [app]; rewrite <- ?app_assoc; cbn [app]. do 2 dec_step.
    eapply decodes_lift; [exact Hr|]. eapply (decodes_lift _ _ (false, false)).
    + rewrite Hl. done.
    + dec_step. apply (decodes_fast_forward _ []); [constructor | done |]. by apply decodes_ret_eq.
Qed.

Lemma older_peers_decoded_witness :
  exists body, decodes (MemberInfoCodec_decode (L := Int64.t)) (BEGIN_FRAME :: body ++ [END_FRAME])
    (mkMemberInfo (mkAddress "10.0.0.1" 5701) None [] false (mkMemberVersion 5 0 1) []).
Proof.
  destruct (older_peers_decoded (L := Int64.t)
    (mkMemberInfo (mkAddress "10.0.0.1" 5701) None [] false (mkMemberVersion 5 0 1) [])
    (mkSqlColumnMetadata "c" 3 false)) as [(body & _ & D) _].
  - split_and!; try done; repeat constructor; try (vm_compute; done).
  - reflexivity.
  - vm_compute. done.
  - exists body. exact D.
Defined.
