(* ===== verification/Transport.v ===== *)
(** * Values over the wire

    The codecs, the wire format and the reader put together: what one side encodes into
    a message is what the other side decodes from the bytes, however the
    network cuts them. *)

From S2P Require Import Prelude NodeBuffer Frames FixSized LongNum.
From S2P Require Import MessageReader CodecCore BuiltinCodecs CustomCodecs.

(** The final flag the transport sets does not change what decoders see. *)
Lemma similar_final f : in_uint 16 (flags f) -> similar f (mkFrame (content f) (js_or (flags f) IS_FINAL_FLAG)).
Proof.
  intros Hf. assert (forall n, n <> 13 -> 0 <= n < 31 ->
    isFlagSet (flags f) (2 ^ n) = isFlagSet (js_or (flags f) IS_FINAL_FLAG) (2 ^ n)) as Hbit.
  { intros n Hn Hr. rewrite !isFlagSet_bit by lia. rewrite js_or_final by done.
    rewrite Z.lor_spec, Z.pow2_bits_false by lia. by rewrite orb_false_r. }
  split; cbn [content flags]; [done | | |].
  - apply (Hbit 12); lia.
  - apply (Hbit 11); lia.
  - apply (Hbit 10); lia.
Qed.

Lemma similar_finalize fs : Forall frame_ok fs -> Forall2 similar fs (finalize fs).
Proof.
  induction 1 as [|f fs [Hf _] Hfs IH]; [constructor|]. destruct fs as [|g fs].
  - constructor; [by apply similar_final | constructor].
  - change (finalize (f :: g :: fs)) with (f :: finalize (g :: fs)). constructor; [done | exact IH].
Qed.

(** What the receiving side makes of the chunks of a connection: the reader delivers the messages, and the
    decoder of each starts after its initial frame. *)
Definition receive {A} (dec : Dec A) (bs : list buffer) : res (list (res (A * frames))) :=
  '(received, _) ← on_data_all newReader bs;
  Ok (map (fun m => (skipFrame ≫= fun _ => dec) m) received).

(** A value encoded after the initial frame of a message is decoded from what the
    reader delivers on the other side: for every codec that keeps the promises of [MsgCodec]
    (strings, data, lists, maps, nullable values and all custom types among them) and every way
    the bytes of the message are cut into chunks, exactly one message is delivered
    and the decoder returns the value and consumes all of it. *)
Theorem value_over_the_wire {A} (nn : bool) (valid : A -> Prop) (enc : Enc A) (dec : Dec A)
    (a : A) (start : Frame) (m : frames) (bs : list buffer) :
  MsgCodec nn valid enc dec -> valid a ->
  enc [start] a = Ok m -> message_ok m -> concat bs = wire m ->
  receive dec bs = Ok [Ok (a, [])].
Proof.
  intros C Ha Em Hok Hbs. destruct (C a Ha) as [fs [E D _ (f & gs & -> & _)]].
  rewrite E in Em. injection Em as <-.
  destruct (reader_ok [[start] ++ f :: gs] bs) as (r' & Er & _).
  { by constructor. }
  { cbn [map concat]. by rewrite app_nil_r. }
  unfold receive. rewrite Er, res_bind_ok. cbn [map]. do 2 f_equal.
  change (finalize ([start] ++ f :: gs)) with (start :: finalize (f :: gs)).
  destruct Hok as [_ Hok]. apply Forall_cons in Hok as [_ Hok].
  change ((skipFrame ≫= fun _ => dec) (start :: finalize (f :: gs))) with (dec (finalize (f :: gs))).
  rewrite <- (app_nil_r (finalize _)). apply D, similar_finalize.
  eapply Forall_impl; [exact Hok|]. by intros x [].
Qed.

Lemma value_over_the_wire_witness :
  exists bs, length bs = 2%nat /\ receive (MemberInfoCodec_decode (L := Int64.t)) bs = Ok [Ok (demo_member, [])].
Proof.
  destruct (MemberInfoCodec_encode (H := fun _ => Byte.xee) [mkFrame (replicate 16 Byte.x01) UNFRAGMENTED_MESSAGE] demo_member)
    as [m|e] eqn:Em; [|vm_compute in Em; discriminate Em].
  exists [take 7 (wire m); drop 7 (wire m)]. split; [reflexivity|].
  apply (value_over_the_wire true member_valid (MemberInfoCodec_encode (H := fun _ => Byte.xee)) MemberInfoCodec_decode
    demo_member (mkFrame (replicate 16 Byte.x01) UNFRAGMENTED_MESSAGE) m).
  - apply struct_msg_codec, member_info_codec.
  - apply demo_member_valid.
  - exact Em.
  - vm_compute in Em. injection Em as <-. split; [discriminate|]. repeat constructor; vm_compute; done.
  - cbn [concat]. rewrite app_nil_r. apply take_drop.
Defined.
