(* ===== verification/SqlPageCodec.v ===== *)
(** * Pages of SQL results

    [src/src/codec/builtin/SqlPageCodec.ts] with the codecs of columns it uses: [ListCNFixedSizeCodec.ts] and the codecs of
    the fixed-size column types ([ListCNBooleanCodec.ts] and the like), and [BigDecimalCodec.ts]. A page comes from the
    member column by column; a column of fixed-size values has one of three layouts (only nulls, no nulls, a bit mask for
    each eight items). What a member writes is given byte by byte, from its own values ([member_value], [put],
    [cn_bytes], [column_frames], [member_page]), and what a text of the client says by readers of such texts ([means]). *)

From S2P Require Export Prelude CustomCodecs.
From Stdlib Require Import Ascii.
From stdpp Require Import pretty.
#[local] Open Scope Z_scope.

(** [SqlColumnType]. *)
Definition VARCHAR : Z := 0.
Definition BOOLEAN : Z := 1.
Definition TINYINT : Z := 2.
Definition SMALLINT : Z := 3.
Definition INTEGER : Z := 4.
Definition BIGINT : Z := 5.
Definition DECIMAL : Z := 6.
Definition REAL : Z := 7.
Definition DOUBLE : Z := 8.
Definition DATE : Z := 9.
Definition TIME : Z := 10.
Definition TIMESTAMP : Z := 11.
Definition TIMESTAMP_WITH_TIME_ZONE : Z := 12.
Definition SQL_OBJECT : Z := 13.
Definition SQL_NULL : Z := 14.

(** ** ListCNFixedSizeCodec *)

Module ListCNFixedSizeCodec.
Definition TYPE_NULL_ONLY : Z := 1.
Definition TYPE_NOT_NULL_ONLY : Z := 2.
Definition HEADER_SIZE : Z := BYTE_SIZE_IN_BYTES + INT_SIZE_IN_BYTES.
Definition ITEMS_PER_BITMASK : nat := 8.

Section Decode.
Context {A : Type} (itemSizeInBytes : Z) (decoder : buffer -> Z -> res A) (c : buffer).

(** The items without nulls. *)
Fixpoint decode_items_from (count : nat) (i : Z) : res (list (option A)) :=
  match count with
  | O => Ok []
  | S count =>
      x ← decoder c (HEADER_SIZE + i * itemSizeInBytes);
      l ← decode_items_from count (i + 1);
      Ok (Some x :: l)
  end.

(** The inner loop, for the bits from [i] on ([k] of them are left): the items read, the position after them and the
    number of items still to be read. *)
Fixpoint decode_masked (k : nat) (i : Z) (bitmask position : Z) (remaining : nat) : res (list (option A) * Z * nat) :=
  match k, remaining with
  | S k, S remaining' =>
      let mask := js_shl 1 i in
      if js_and bitmask mask =? mask then
        x ← decoder c position;
        '(l, position, remaining) ← decode_masked k (i + 1) bitmask (position + itemSizeInBytes) remaining';
        Ok (Some x :: l, position, remaining)
      else
        '(l, position, remaining) ← decode_masked k (i + 1) bitmask position remaining';
        Ok (None :: l, position, remaining)
  | _, _ => Ok ([], position, remaining)
  end.

(** The outer loop: each turn reads an item or more. *)
Fixpoint decode_mixed (fuel : nat) (position : Z) (remaining : nat) : res (list (option A)) :=
  match remaining, fuel with
  | O, _ => Ok []
  | _, O => Err OutOfFuel
  | _, S fuel =>
      bitmask ← decodeByte c position;
      '(l, position, remaining) ← decode_masked ITEMS_PER_BITMASK 0 bitmask (position + 1) remaining;
      rest ← decode_mixed fuel position remaining;
      Ok (l ++ rest)
  end.

(** [new Array(count)] throws if the count is negative. *)
Definition decode : res (list (option A)) :=
  type ← decodeByte c 0;
  count ← decodeInt c 1;
  if count <? 0 then Err RangeError
  else if type =? TYPE_NULL_ONLY then Ok (replicate (Z.to_nat count) None)
  else if type =? TYPE_NOT_NULL_ONLY then decode_items_from (Z.to_nat count) 0
  else decode_mixed (Z.to_nat count) HEADER_SIZE (Z.to_nat count).
End Decode.
End ListCNFixedSizeCodec.

(** A column codec: [ListCNFixedSizeCodec.decode(clientMessage.nextFrame(), size, decoder)]. *)
Definition decode_cn {A} (size : Z) (decoder : buffer -> Z -> res A) : Dec (list (option A)) :=
  frame ← nextFrame; lift (ListCNFixedSizeCodec.decode size decoder (content frame)).

Definition ListCNBooleanCodec_decode : Dec (list (option bool)) := decode_cn BOOLEAN_SIZE_IN_BYTES decodeBoolean.
Definition ListCNByteCodec_decode : Dec (list (option Z)) := decode_cn BYTE_SIZE_IN_BYTES decodeByte.
Definition ListCNShortCodec_decode : Dec (list (option Z)) := decode_cn SHORT_SIZE_IN_BYTES decodeShort.
Definition ListCNIntegerCodec_decode : Dec (list (option Z)) := decode_cn INT_SIZE_IN_BYTES decodeInt.
Definition ListCNLongCodec_decode {L} `{LongLib L} : Dec (list (option L)) := decode_cn LONG_SIZE_IN_BYTES decodeLong.
Definition ListCNFloatCodec_decode : Dec (list (option js_float)) := decode_cn FLOAT_SIZE_IN_BYTES decodeFloat.
Definition ListCNDoubleCodec_decode : Dec (list (option js_float)) := decode_cn DOUBLE_SIZE_IN_BYTES decodeDouble.
Definition ListCNLocalDateCodec_decode : Dec (list (option string)) := decode_cn LOCAL_DATE_SIZE_IN_BYTES decodeLocalDate.
Definition ListCNLocalTimeCodec_decode : Dec (list (option string)) := decode_cn LOCAL_TIME_SIZE_IN_BYTES decodeLocalTime.
Definition ListCNLocalDateTimeCodec_decode : Dec (list (option string)) :=
  decode_cn LOCAL_DATETIME_SIZE_IN_BYTES decodeLocalDatetime.
Definition ListCNOffsetDateTimeCodec_decode : Dec (list (option string)) :=
  decode_cn OFFSET_DATE_TIME_SIZE_IN_BYTES decodeOffsetDateTime.

(** ** BigDecimalCodec *)

Module BigDecimalCodec.
Fixpoint repeat_zero (n : nat) : string := match n with O => "" | S n => String "0"%char (repeat_zero n) end.

(** [toScale]; a [BigInt] prints at least one digit. *)
Definition toScale (bigIntString : string) (scale : Z) (isNegative : bool) : string :=
  let len := Z.of_nat (String.length bigIntString) in
  let sign := if isNegative then "-" else "" in
  if scale =? 0 then sign +:+ bigIntString
  else if 0 <? scale then
    if scale <? len then
      sign +:+ String.substring 0 (Z.to_nat (len - scale)) bigIntString +:+ "." +:+
        String.substring (Z.to_nat (len - scale)) (Z.to_nat scale) bigIntString
    else
      (if isNegative then "-0." else "0.") +:+ repeat_zero (Z.to_nat (scale - len)) +:+ bigIntString
  else sign +:+ bigIntString +:+ repeat_zero (Z.to_nat (- scale)).

(** [BigInt('0x' + body.toString('hex'))]: the bytes, most significant first. Without a byte this is a
    [SyntaxError], here [Error]. *)
Definition from_hex (body : buffer) : res Z :=
  match body with
  | [] => Err Error
  | _ => Ok (le_combine (rev body))
  end.

(** [~body[i]] as a byte. *)
Definition invert (b : Byte.byte) : Byte.byte := byte.of_Z (255 - byte.unsigned b).

Definition decode_buffer (c : buffer) : res string :=
  contentSize ← decodeInt c 0;
  let stop := INT_SIZE_IN_BYTES + contentSize in
  let body := slice c INT_SIZE_IN_BYTES (if stop <? 0 then blen c + stop else stop) in
  let isNegative := match body with b :: _ => 0 <? js_and (byte.unsigned b) 0x80 | [] => false end in
  bigint ← from_hex (if isNegative then map invert body else body);
  let bigint := if isNegative then bigint + 1 else bigint in
  scale ← decodeInt c (INT_SIZE_IN_BYTES + contentSize);
  Ok (toScale (pretty bigint) scale isNegative).

Definition decode : Dec string := frame ← nextFrame; lift (decode_buffer (content frame)).
Definition decodeNullable : Dec (option string) :=
  isNull ← CodecUtil.nextFrameIsNullFrame;
  if isNull : bool then mret None else v ← decode; mret (Some v).
End BigDecimalCodec.

(** ** SqlPageCodec *)

Section SqlPageCodec.
Context {L : Type} `{LongLib L}.

(** The value of a column, as the decoders return it. *)
Inductive sql_value :=
  | SqlString (s : string)
  | SqlBoolean (b : bool)
  | SqlNumber (z : Z)
  | SqlLong (l : L)
  | SqlFloat (x : js_float)
  | SqlData (d : HeapData).

Record SqlPageData := mkSqlPageData {
  pd_columnTypes : list Z;
  pd_columns : list (list (option sql_value));
  pd_last : bool
}.

Definition column {A} (f : A -> sql_value) (dec : Dec (list (option A))) : Dec (list (option sql_value)) :=
  l ← dec; mret (map (fmap f) l).

(** The body of the loop over the columns. *)
Definition decode_column (columnType : Z) : Dec (list (option sql_value)) :=
  if columnType =? VARCHAR then column SqlString (ListMultiFrameCodec.decodeContainsNullable StringCodec.decode)
  else if columnType =? BOOLEAN then column SqlBoolean ListCNBooleanCodec_decode
  else if columnType =? TINYINT then column SqlNumber ListCNByteCodec_decode
  else if columnType =? SMALLINT then column SqlNumber ListCNShortCodec_decode
  else if columnType =? INTEGER then column SqlNumber ListCNIntegerCodec_decode
  else if columnType =? BIGINT then column SqlLong ListCNLongCodec_decode
  else if columnType =? REAL then column SqlFloat ListCNFloatCodec_decode
  else if columnType =? DOUBLE then column SqlFloat ListCNDoubleCodec_decode
  else if columnType =? DATE then column SqlString ListCNLocalDateCodec_decode
  else if columnType =? TIME then column SqlString ListCNLocalTimeCodec_decode
  else if columnType =? TIMESTAMP then column SqlString ListCNLocalDateTimeCodec_decode
  else if columnType =? TIMESTAMP_WITH_TIME_ZONE then column SqlString ListCNOffsetDateTimeCodec_decode
  else if columnType =? DECIMAL then column SqlString (ListMultiFrameCodec.decode BigDecimalCodec.decodeNullable)
  else if columnType =? SQL_NULL then
    frame ← nextFrame;
    size ← lift (decodeInt (content frame) 0);
    if size <? 0 then lift (Err RangeError) else mret (replicate (Z.to_nat size) None)
  else if columnType =? SQL_OBJECT then column SqlData (ListMultiFrameCodec.decode DataCodec.decodeNullable)
  else lift (Err IllegalStateError).

Fixpoint decode_columns (columnTypeIds : list Z) : Dec (list (list (option sql_value))) :=
  match columnTypeIds with
  | [] => mret []
  | t :: ts => c ← decode_column t; cs ← decode_columns ts; mret (c :: cs)
  end.

Definition SqlPageCodec_decode : Dec SqlPageData :=
  _ ← skipFrame;
  frame ← nextFrame;
  let isLast := match content frame with b :: _ => byte.unsigned b =? 1 | [] => false end in
  columnTypeIds ← ListIntegerCodec_decode;
  columns ← decode_columns columnTypeIds;
  _ ← CodecUtil.fastForwardToEndFrame;
  mret (mkSqlPageData columnTypeIds columns isLast).
End SqlPageCodec.
Arguments sql_value L : clear implicits.
Arguments SqlPageData L : clear implicits.

(** ** What the decoder finds in a column *)

Section Column.
Context {A : Type} (size : Z) (rd : buffer -> Z -> res A) (c : buffer).

(** Up to eight items behind a bit mask: a bit that is set says that the item is there. *)
Inductive masked (bitmask : Z) : Z -> Z -> list (option A) -> Z -> Prop :=
  | masked_nil i pos : masked bitmask i pos [] pos
  | masked_some i pos x l pos' : Z.testbit bitmask i = true -> rd c pos = Ok x ->
      masked bitmask (i + 1) (pos + size) l pos' -> masked bitmask i pos (Some x :: l) pos'
  | masked_none i pos l pos' : Z.testbit bitmask i = false ->
      masked bitmask (i + 1) pos l pos' -> masked bitmask i pos (None :: l) pos'.

(** Groups of eight items; the last one may be shorter. *)
Inductive mixed : Z -> list (option A) -> Prop :=
  | mixed_nil pos : mixed pos []
  | mixed_group pos bitmask l pos' rest :
      decodeByte c pos = Ok bitmask -> masked bitmask 0 (pos + 1) l pos' -> mixed pos' rest ->
      (0 < length l <= 8)%nat -> (rest = [] \/ length l = 8%nat) -> mixed pos (l ++ rest).

Inductive cn_column : list (option A) -> Prop :=
  | cn_null_only n : decodeByte c 0 = Ok 1 -> decodeInt c 1 = Ok (Z.of_nat n) -> cn_column (replicate n None)
  | cn_not_null l : decodeByte c 0 = Ok 2 -> decodeInt c 1 = Ok (Z.of_nat (length l)) ->
      (forall i x, l !! i = Some x -> rd c (5 + Z.of_nat i * size) = Ok x) -> cn_column (Some <$> l)
  | cn_mixed l : decodeByte c 0 = Ok 3 -> decodeInt c 1 = Ok (Z.of_nat (length l)) -> mixed 5 l -> cn_column l.
End Column.

Section ColumnFacts.
Context {A : Type} (size : Z) (rd : buffer -> Z -> res A) (c : buffer).
Import ListCNFixedSizeCodec.

Lemma mask_bit bitmask i : 0 <= i < 8 ->
  (js_and bitmask (js_shl 1 i) =? js_shl 1 i) = Z.testbit bitmask i.
Proof.
  intros Hi. assert (js_shl 1 i = 2 ^ i) as ->.
  { assert (i = 0 \/ i = 1 \/ i = 2 \/ i = 3 \/ i = 4 \/ i = 5 \/ i = 6 \/ i = 7) as Hc by lia.
    by repeat destruct Hc as [->|Hc]; subst; try reflexivity. }
  apply (isFlagSet_bit bitmask i). lia.
Qed.

Lemma decode_masked_ok bitmask i pos l pos' : masked size rd c bitmask i pos l pos' ->
  forall k rest, 0 <= i -> i + Z.of_nat k = 8 -> (length l = k \/ (length l <= k)%nat /\ rest = 0%nat) ->
  decode_masked size rd c k i bitmask pos (length l + rest) = Ok (l, pos', rest).
Proof.
  induction 1 as [i pos|i pos x l pos' Hb Hx _ IH|i pos l pos' Hb _ IH]; intros k rest Hi Hk Hl; cbn [length] in *.
  - destruct k; [done|]. destruct Hl as [Hl|[_ ->]]; [done|]. by cbn.
  - destruct k as [|k]; [lia|]. cbn [decode_masked Nat.add]. rewrite mask_bit, Hb by lia.
    rewrite Hx, res_bind_ok, IH by lia. done.
  - destruct k as [|k]; [lia|]. cbn [decode_masked Nat.add]. rewrite mask_bit, Hb by lia.
    rewrite IH by lia. done.
Qed.

Lemma decode_mixed_ok pos l : mixed size rd c pos l -> forall fuel, (length l <= fuel)%nat ->
  decode_mixed size rd c fuel pos (length l) = Ok l.
Proof.
  induction 1 as [pos|pos bitmask l pos' rest Hb Hm _ IH Hl Hr]; intros fuel Hf; [by destruct fuel|].
  rewrite length_app in *. destruct fuel as [|fuel]; [lia|].
  destruct (length l + length rest)%nat as [|n] eqn:En; [lia|].
  change (decode_mixed size rd c (S fuel) pos (S n)) with
    (bitmask ← decodeByte c pos;
     '(l, position, remaining) ← decode_masked size rd c 8 0 bitmask (pos + 1) (S n);
     rest ← decode_mixed size rd c fuel position remaining; Ok (l ++ rest)).
  rewrite Hb, res_bind_ok, <- En.
  rewrite (decode_masked_ok bitmask 0 (pos + 1) l pos' Hm 8 (length rest)); [|lia..|].
  - rewrite res_bind_ok, IH by lia. done.
  - destruct Hr as [->|Hr]; [right; split; [lia | done] | by left].
Qed.

Lemma decode_items_from_ok l : forall i,
  (forall j x, l !! j = Some x -> rd c (5 + (i + Z.of_nat j) * size) = Ok x) ->
  decode_items_from size rd c (length l) i = Ok (Some <$> l).
Proof.
  induction l as [|x l IH]; intros i Hx; [done|]. cbn [length decode_items_from].
  change HEADER_SIZE with 5. pose proof (Hx 0%nat x eq_refl) as H0. rewrite Z.add_0_r in H0. rewrite H0, res_bind_ok.
  rewrite IH; [done|]. intros j y Hj. specialize (Hx (S j) y Hj). rewrite <- Hx. do 2 f_equal. lia.
Qed.

Lemma decode_cn_ok l : cn_column size rd c l -> decode size rd c = Ok l.
Proof.
  intros [n Ht Hn|l' Ht Hn Hx|l' Ht Hn Hm]; unfold decode; rewrite Ht, res_bind_ok, Hn, res_bind_ok;
    rewrite (proj2 (Z.ltb_ge _ _)) by lia; rewrite Nat2Z.id.
  - done.
  - change (2 =? TYPE_NULL_ONLY) with false. change (2 =? TYPE_NOT_NULL_ONLY) with true. cbn match.
    by rewrite decode_items_from_ok.
  - by apply (decode_mixed_ok 5).
Qed.
End ColumnFacts.

(** ** Decimal numbers *)

(** Reading a decimal number: the sign, the number its digits make and how many of them follow the point. *)
Definition decimal_digit (c : ascii) : option Z :=
  let n := Z.of_N (N_of_ascii c) in if (48 <=? n) && (n <=? 57) then Some (n - 48) else None.

Fixpoint read_decimal (s : string) (acc : Z) (point : option nat) : option (Z * option nat) :=
  match s with
  | EmptyString => Some (acc, point)
  | String c s =>
      if Ascii.eqb c "." then match point with None => read_decimal s acc (Some 0%nat) | Some _ => None end
      else d ← decimal_digit c; read_decimal s (acc * 10 + d) (S <$> point)
  end.

Definition decimal_of_string (s : string) : option (bool * Z * nat) :=
  let '(negative, s) := match s with String "-" s => (true, s) | _ => (false, s) end in
  match s with
  | EmptyString => None
  | _ => '(n, point) ← read_decimal s 0 None; Some (negative, n, default 0%nat point)
  end.

#[local] Arguments Ascii.eqb : simpl never.

Lemma string_length_app s1 s2 : String.length (s1 +:+ s2) = (String.length s1 + String.length s2)%nat.
Proof. induction s1 as [|c s1 IH]; [done|]. change (S (String.length (s1 +:+ s2)) = S (String.length s1 + String.length s2)). by rewrite IH. Qed.

Lemma read_decimal_app s1 s2 acc point :
  read_decimal (s1 +:+ s2) acc point = ('(acc, point) ← read_decimal s1 acc point; read_decimal s2 acc point).
Proof.
  revert acc point. induction s1 as [|c s1 IH]; intros acc point; [done|].
  change (String c s1 +:+ s2) with (String c (s1 +:+ s2)). cbn [read_decimal].
  destruct (Ascii.eqb c "."%char); [destruct point; [done | apply IH]|].
  destruct (decimal_digit c) as [d|]; cbn; [apply IH | done].
Qed.

(** A string of digits that makes [v]. *)
Definition digits_of (s : string) (v : Z) : Prop :=
  forall acc point, read_decimal s acc point =
    Some (acc * 10 ^ Z.of_nat (String.length s) + v, (fun n => n + String.length s)%nat <$> point).

Lemma digits_nil : digits_of "" 0.
Proof. intros acc [n|]; cbn; do 2 f_equal; try lia. f_equal. lia. Qed.

Lemma digits_app s1 s2 v1 v2 : digits_of s1 v1 -> digits_of s2 v2 ->
  digits_of (s1 +:+ s2) (v1 * 10 ^ Z.of_nat (String.length s2) + v2).
Proof.
  intros H1 H2 acc point. rewrite read_decimal_app, H1. cbn. rewrite H2. do 2 f_equal.
  - rewrite string_length_app, Nat2Z.inj_add, Z.pow_add_r by lia. ring.
  - destruct point; cbn; [|done]. f_equal. rewrite string_length_app. lia.
Qed.

Lemma digits_char c d : decimal_digit c = Some d -> digits_of (String c "") d.
Proof.
  intros Hd acc point. cbn [read_decimal]. destruct (Ascii.eqb_spec c "."%char) as [->|_]; [done|]. rewrite Hd. cbn.
  destruct point as [n|]; cbn; repeat f_equal; lia.
Qed.

Lemma digits_zeros n : digits_of (BigDecimalCodec.repeat_zero n) 0.
Proof.
  induction n as [|n IH]; [apply digits_nil|].
  change (BigDecimalCodec.repeat_zero (S n)) with (String "0" "" +:+ BigDecimalCodec.repeat_zero n).
  replace 0 with (0 * 10 ^ Z.of_nat (String.length (BigDecimalCodec.repeat_zero n)) + 0) by lia.
  apply digits_app; [by apply digits_char | done].
Qed.

Lemma length_zeros n : String.length (BigDecimalCodec.repeat_zero n) = n.
Proof. induction n; cbn; [done | by f_equal]. Qed.

Lemma decimal_digit_char x : (x < 10)%N -> decimal_digit (pretty_N_char x) = Some (Z.of_N x).
Proof.
  intros Hx. assert (x = 0 \/ x = 1 \/ x = 2 \/ x = 3 \/ x = 4 \/ x = 5 \/ x = 6 \/ x = 7 \/ x = 8 \/ x = 9)%N as Hc by lia.
  by repeat destruct Hc as [->|Hc]; subst; try reflexivity.
Qed.

Lemma digits_go x : forall s v, digits_of s v ->
  digits_of (pretty_N_go x s) (Z.of_N x * 10 ^ Z.of_nat (String.length s) + v).
Proof.
  induction x as [x IH] using (well_founded_ind N.lt_wf_0). intros s v Hs.
  destruct (decide (0 < x)%N) as [Hx|Hx]; [|replace x with 0%N by lia; rewrite pretty_N_go_0; by rewrite Z.mul_0_l].
  rewrite pretty_N_go_step by done.
  assert (digits_of (String (pretty_N_char (x `mod` 10)%N) s) (Z.of_N (x `mod` 10) * 10 ^ Z.of_nat (String.length s) + v)) as Hc.
  { apply (digits_app (String (pretty_N_char (x `mod` 10)%N) "") s); [|done].
    apply digits_char, decimal_digit_char, N.mod_lt. lia. }
  specialize (IH (x `div` 10)%N ltac:(apply N.div_lt; lia) _ _ Hc).
  assert (Z.of_N x * 10 ^ Z.of_nat (String.length s) + v =
    Z.of_N (x `div` 10) * 10 ^ Z.of_nat (String.length (String (pretty_N_char (x `mod` 10)%N) s)) +
    (Z.of_N (x `mod` 10) * 10 ^ Z.of_nat (String.length s) + v)) as ->; [|done].
  cbn [String.length]. rewrite Nat2Z.inj_succ, Z.pow_succ_r by lia. rewrite (N.div_mod x 10) at 1 by lia. lia.
Qed.

Lemma pretty_digits n : 0 <= n -> digits_of (pretty n) n.
Proof.
  intros Hn. destruct n as [|p|p]; [by apply digits_char| |lia].
  change (pretty (Zpos p)) with (pretty (Npos p)). unfold pretty, pretty_N. rewrite decide_False by lia.
  pose proof (digits_go (Npos p) "" 0 digits_nil) as Hd. cbn [String.length Z.of_nat Z.pow Z.pow_pos] in Hd.
  by rewrite Z.mul_1_r, Z.add_0_r in Hd.
Qed.

Lemma digits_inv s : forall acc k r, read_decimal s acc (Some k) = Some r -> exists v, digits_of s v.
Proof.
  induction s as [|c s IH]; intros acc k r; cbn [read_decimal]; [by exists 0; apply digits_nil|].
  destruct (Ascii.eqb c "."%char); [done|]. destruct (decimal_digit c) as [d|] eqn:Ed; [|done]. cbn. intros E.
  destruct (IH _ _ _ E) as [v Hv]. eexists. apply (digits_app (String c "") s); [by apply digits_char | done].
Qed.

Lemma digits_unique s v w : digits_of s v -> digits_of s w -> v = w.
Proof. intros Hv Hw. specialize (Hv 0 None). specialize (Hw 0 None). rewrite Hv in Hw. injection Hw. lia. Qed.

Lemma digits_split s1 s2 v : digits_of (s1 +:+ s2) v ->
  exists v1 v2, digits_of s1 v1 /\ digits_of s2 v2 /\ v = v1 * 10 ^ Z.of_nat (String.length s2) + v2.
Proof.
  intros H. pose proof (H 0 (Some 0%nat)) as E. rewrite read_decimal_app in E.
  destruct (read_decimal s1 0 (Some 0%nat)) as [[a p]|] eqn:E1; [|done]. destruct (digits_inv _ _ _ _ E1) as [v1 H1].
  rewrite (H1 0 (Some 0%nat)) in E1. injection E1 as <- <-. cbn in E. destruct (digits_inv _ _ _ _ E) as [v2 H2].
  exists v1, v2. split_and!; [done..|]. eapply digits_unique; [done | by apply digits_app].
Qed.

Lemma substring_0 k : forall s, (k <= String.length s)%nat -> String.length (String.substring 0 k s) = k.
Proof. induction k as [|k IH]; intros [|c s]; cbn; intros Hk; [lia..|]. f_equal. apply IH. lia. Qed.

Lemma substring_all s : String.substring 0 (String.length s) s = s.
Proof. induction s; cbn; [done | by f_equal]. Qed.

Lemma substring_split s : forall k, (k <= String.length s)%nat ->
  String.substring 0 k s +:+ String.substring k (String.length s - k) s = s.
Proof.
  induction s as [|c s IH]; intros [|k] Hk; try done.
  - change (String.substring 0 (String.length (String c s)) (String c s) = String c s). apply substring_all.
  - cbn in Hk. change (String c (String.substring 0 k s +:+ String.substring k (String.length s - k) s) = String c s).
    by rewrite IH by lia.
Qed.

Lemma decimal_signed (negative : bool) s v point :
  s <> "" -> read_decimal s 0 None = Some (v, point) ->
  decimal_of_string ((if negative then "-" else "") +:+ s) = Some (negative, v, default 0%nat point).
Proof.
  intros Hs E. destruct s as [|c s]; [done|]. destruct negative.
  - change ("-" +:+ String c s) with (String "-" (String c s)). unfold decimal_of_string. by rewrite E.
  - change ("" +:+ String c s) with (String c s). unfold decimal_of_string.
    assert (c <> "-"%char) as Hc by (intros ->; done).
    destruct c as [[] [] [] [] [] [] [] []]; try (by rewrite E). done.
Qed.

Lemma pretty_nonempty n : 0 <= n -> pretty n <> "".
Proof.
  intros Hn E. pose proof (pretty_digits n Hn) as H. rewrite E in H. pose proof (digits_unique _ _ _ H digits_nil). subst. done.
Qed.

Lemma toScale_value n scale (negative : bool) : 0 <= n ->
  decimal_of_string (BigDecimalCodec.toScale (pretty n) scale negative) =
    Some (negative, n * 10 ^ Z.max 0 (- scale), Z.to_nat scale).
Proof.
  intros Hn. pose proof (pretty_digits n Hn) as Hd. pose proof (pretty_nonempty n Hn) as Hne.
  unfold BigDecimalCodec.toScale. destruct (Z.eqb_spec scale 0) as [->|H0].
  { rewrite (decimal_signed _ _ _ _ Hne (Hd 0 None)). cbn. by rewrite Z.mul_1_r. }
  destruct (Z.ltb_spec 0 scale) as [Hpos|Hneg].
  2:{ rewrite (decimal_signed negative (pretty n +:+ _) (n * 10 ^ (- scale)) None).
      - replace (Z.max 0 (- scale)) with (- scale) by lia. by replace (Z.to_nat scale) with 0%nat by lia.
      - destruct (pretty n); [done|]. intros E. discriminate E.
      - rewrite (digits_app _ _ _ _ Hd (digits_zeros (Z.to_nat (- scale))) 0 None). cbn.
        rewrite length_zeros, Z2Nat.id by lia. do 2 f_equal. lia. }
  replace (Z.max 0 (- scale)) with 0 by lia. rewrite Z.mul_1_r.
  set (s := pretty n) in *. clearbody s. destruct (Z.ltb_spec scale (Z.of_nat (String.length s))) as [Hlt|Hge].
  - assert (exists k, k = Z.to_nat (Z.of_nat (String.length s) - scale)) as [k Ek] by eauto. rewrite <- Ek.
    assert (k <= String.length s)%nat as Hk by lia.
    replace (Z.to_nat scale) with (String.length s - k)%nat by lia. clear Ek.
    rewrite <- (substring_split s k Hk) in Hd. apply digits_split in Hd as (v1 & v2 & H1 & H2 & ->).
    set (s1 := String.substring 0 k s) in *. set (s2 := String.substring k _ s) in *.
    assert (String.length s2 = String.length s - k)%nat as L2.
    { pose proof (substring_split s k Hk) as E. apply (f_equal String.length) in E. rewrite string_length_app in E.
      fold s1 s2 in E. unfold s1 in E. rewrite substring_0 in E by done. lia. }
    rewrite (decimal_signed negative (s1 +:+ "." +:+ s2) (v1 * 10 ^ Z.of_nat (String.length s2) + v2) (Some (String.length s2))).
    + by rewrite L2.
    + by destruct s1.
    + rewrite read_decimal_app, H1. change ("." +:+ s2) with (String "." s2). cbn. rewrite Z.add_0_l. by rewrite H2.
  - set (r := BigDecimalCodec.repeat_zero _ +:+ s).
    assert ((if negative then "-0." else "0.") +:+ r = (if negative then "-" else "") +:+ ("0." +:+ r)) as -> by (by destruct negative).
    rewrite (decimal_signed negative _ n (Some (Z.to_nat scale))); [done | done |].
    change ("0." +:+ r) with (String "0" (String "." r)).
    pose proof (digits_app _ _ _ _ (digits_zeros (Z.to_nat (scale - Z.of_nat (String.length s)))) Hd) as H.
    fold r in H. change (read_decimal r 0 (Some 0%nat) = Some (n, Some (Z.to_nat scale))). rewrite H. cbn. unfold r. rewrite string_length_app, length_zeros. do 3 f_equal. lia.
Qed.

(** The bytes of the decimal [n * 10 ^ (- scale)]: a size, the number in two's complement with the most significant byte
    first, and the scale. *)
Definition decimal_bytes (n scale : Z) (c : buffer) : Prop := exists size : nat,
  c = le_split 4 (Z.of_nat size) ++ rev (le_split size n) ++ le_split 4 scale /\
  (0 < size)%nat /\ Z.of_nat size < 2 ^ 31 /\ in_sint (8 * Z.of_nat size) n /\ in_sint 32 scale.

(** *** Reading what was written *)

(** [rd] makes [x] of the bytes [b], wherever they are. *)
Definition reads_at {A} (rd : buffer -> Z -> res A) (size : nat) (b : buffer) (x : A) : Prop :=
  length b = size /\ forall pre post, rd (pre ++ b ++ post) (blen pre) = Ok x.

Lemma read_uint n v pre post : readUIntLE n (pre ++ le_split n v ++ post) (blen pre) = Ok (uwrap (8 * Z.of_nat n) v).
Proof.
  unfold readUIntLE. assert (in_bounds (pre ++ le_split n v ++ post) (blen pre) (Z.of_nat n) = true) as ->.
  { apply in_bounds_true. rewrite !length_app, length_le_split. lia. }
  unfold sub. rewrite Nat2Z.id, drop_app_length, take_app_length' by (by rewrite length_le_split). by rewrite le_combine_split_wrap.
Qed.

Lemma reads_uint n v : reads_at (readUIntLE n) n (le_split n v) (uwrap (8 * Z.of_nat n) v).
Proof. split; [apply length_le_split|]. intros. apply read_uint. Qed.

Lemma reads_sint n v : (0 < n)%nat -> reads_at (readSIntLE n) n (le_split n v) (swrap (8 * Z.of_nat n) v).
Proof.
  intros Hn. split; [apply length_le_split|]. intros. unfold readSIntLE. rewrite read_uint. cbn. f_equal. apply swrap_uwrap. lia.
Qed.

Lemma reads_int v : in_sint 32 v -> reads_at decodeInt 4 (le_split 4 v) v.
Proof. intros Hv. pose proof (reads_sint 4 v ltac:(lia)) as Hr. by rewrite swrap_id in Hr. Qed.

Lemma reads_short v : in_sint 16 v -> reads_at decodeShort 2 (le_split 2 v) v.
Proof. intros Hv. pose proof (reads_sint 2 v ltac:(lia)) as Hr. by rewrite swrap_id in Hr. Qed.

Lemma reads_byte v : reads_at decodeByte 1 (le_split 1 v) (v mod 256).
Proof. exact (reads_uint 1 v). Qed.

(** The first and the second of two fields. *)
Lemma reads_first {A} (rd : buffer -> Z -> res A) n b x rest : reads_at rd n b x ->
  forall pre post, rd (pre ++ (b ++ rest) ++ post) (blen pre) = Ok x.
Proof. intros [_ Hr] pre post. rewrite <- app_assoc. apply Hr. Qed.

Lemma reads_second {A} (rd : buffer -> Z -> res A) n b x first k : reads_at rd n b x -> length first = k ->
  forall pre rest post, rd (pre ++ (first ++ b ++ rest) ++ post) (blen pre + Z.of_nat k) = Ok x.
Proof.
  intros [_ Hr] Hk pre rest post. specialize (Hr (pre ++ first) (rest ++ post)). rewrite length_app, Hk, Nat2Z.inj_add in Hr.
  rewrite <- Hr. f_equal. by rewrite <- !app_assoc.
Qed.

Lemma le_split_app n m z : le_split (n + m) z = le_split n z ++ le_split m (z / 2 ^ (8 * Z.of_nat n)).
Proof.
  revert z. induction n as [|n IH]; intros z; [cbn; by rewrite Z.div_1_r|].
  change (le_split (S n + m) z) with (byte.of_Z z :: le_split (n + m) (Z.shiftr z 8)). rewrite IH.
  change (le_split (S n) z) with (byte.of_Z z :: le_split n (Z.shiftr z 8)). cbn [app]. do 3 f_equal.
  rewrite Z.shiftr_div_pow2, Z.div_div, <- Z.pow_add_r by (try apply Z.pow_pos_nonneg; lia). f_equal. f_equal. lia.
Qed.

Lemma sign_bit b : (0 <? js_and (byte.unsigned b) 0x80) = (128 <=? byte.unsigned b).
Proof. by destruct b. Qed.

Lemma invert_unsigned b : byte.unsigned (BigDecimalCodec.invert b) = 255 - byte.unsigned b.
Proof. by destruct b. Qed.

Lemma le_combine_add b l : le_combine (b :: l) = byte.unsigned b + 256 * le_combine l.
Proof.
  rewrite le_combine_cons. assert (Z.land (byte.unsigned b) (Z.shiftl (le_combine l) 8) = 0) as E.
  { apply Z.bits_inj'. intros i Hi. rewrite Z.land_spec, Z.bits_0. destruct (Z.ltb_spec i 8) as [Hlt|Hge].
    - rewrite Z.shiftl_spec_low by done. apply andb_false_r.
    - pose proof (byte.unsigned_range b). rewrite (Z.bits_above_log2 (byte.unsigned b)); [done | lia |].
      destruct (Z.eq_dec (byte.unsigned b) 0) as [->|]; [cbn; lia|]. apply Z.log2_lt_pow2; [lia|].
      apply Z.lt_le_trans with (2 ^ 8); [cbn; lia | apply Z.pow_le_mono_r; lia]. }
  rewrite <- Z.lxor_lor by done. rewrite <- Z.add_nocarry_lxor by done. rewrite Z.shiftl_mul_pow2 by lia. cbn. lia.
Qed.

Lemma le_combine_invert l : le_combine (map BigDecimalCodec.invert l) = 2 ^ (8 * Z.of_nat (length l)) - 1 - le_combine l.
Proof.
  induction l as [|b l IH]; [done|]. cbn [map length]. rewrite !le_combine_add, IH, invert_unsigned.
  rewrite Nat2Z.inj_succ. replace (8 * Z.succ (Z.of_nat (length l))) with (8 + 8 * Z.of_nat (length l)) by lia.
  rewrite Z.pow_add_r by lia. change (2 ^ 8) with 256. lia.
Qed.

(** The most significant byte carries the sign. *)
Lemma high_byte k n : in_sint (8 * Z.of_nat (S k)) n ->
  exists b l, rev (le_split (S k) n) = b :: l /\ (128 <=? byte.unsigned b) = (n <? 0).
Proof.
  intros Hn. assert (exists l, le_split (S k) n = l ++ [byte.of_Z (n / 2 ^ (8 * Z.of_nat k))]) as [l ->].
  { clear Hn. revert n. induction k as [|k IH]; intros n.
    - exists []. cbn. by rewrite Z.div_1_r.
    - destruct (IH (Z.shiftr n 8)) as [l E]. exists (byte.of_Z n :: l).
      change (le_split (S (S k)) n) with (byte.of_Z n :: le_split (S k) (Z.shiftr n 8)). rewrite E. cbn. do 3 f_equal.
      rewrite Z.shiftr_div_pow2, Z.div_div, <- Z.pow_add_r by (try apply Z.pow_pos_nonneg; lia). do 3 f_equal. lia. }
  rewrite rev_app_distr. eexists _, _. split; [reflexivity|]. rewrite byte.unsigned_of_Z. unfold byte.wrap.
  change (2 ^ 8) with 256. unfold in_sint in Hn. set (p := 2 ^ (8 * Z.of_nat k)). assert (0 < p) by (apply Z.pow_pos_nonneg; lia).
  assert (2 ^ (8 * Z.of_nat (S k) - 1) = 128 * p) as E.
  { unfold p. change 128 with (2 ^ 7). rewrite <- Z.pow_add_r by lia. f_equal. lia. }
  rewrite E in Hn. destruct (Z.ltb_spec n 0) as [Hneg|Hpos].
  - apply Z.leb_le. assert (-128 <= n / p < 0) by (split; [apply Z.div_le_lower_bound | apply Z.div_lt_upper_bound]; lia).
    rewrite <- (Z.mod_add (n / p) 1 256), Z.mod_small by lia. lia.
  - apply Z.leb_gt. assert (0 <= n / p < 128) by (split; [apply Z.div_pos | apply Z.div_lt_upper_bound]; lia).
    rewrite Z.mod_small; lia.
Qed.

(** The text of a decimal. *)
Definition decimal_text (n scale : Z) : string := BigDecimalCodec.toScale (pretty (Z.abs n)) scale (n <? 0).

Lemma decimal_text_value n scale :
  decimal_of_string (decimal_text n scale) = Some (n <? 0, Z.abs n * 10 ^ Z.max 0 (- scale), Z.to_nat scale).
Proof. apply toScale_value. lia. Qed.

Lemma decode_decimal_ok n scale c : decimal_bytes n scale c -> BigDecimalCodec.decode_buffer c = Ok (decimal_text n scale).
Proof.
  intros (k & Ec & Hk & Hsize & Hn & Hscale).
  assert (decodeInt c 0 = Ok (Z.of_nat k)) as Hl.
  { pose proof (reads_int (Z.of_nat k) ltac:(unfold in_sint; lia)) as [_ Hr]. rewrite Ec. exact (Hr [] _). }
  assert (sub c 4 k = rev (le_split k n)) as Hb.
  { rewrite Ec. unfold sub. change (Z.to_nat 4) with (length (le_split 4 (Z.of_nat k))). rewrite drop_app_length.
    apply take_app_length'. by rewrite length_rev, length_le_split. }
  assert (decodeInt c (4 + Z.of_nat k) = Ok scale) as Hs.
  { pose proof (reads_int scale Hscale) as [_ Hr]. specialize (Hr (le_split 4 (Z.of_nat k) ++ rev (le_split k n)) []).
    rewrite app_nil_r, <- app_assoc, <- Ec, length_app, length_rev, !length_le_split, Nat2Z.inj_add in Hr. exact Hr. }
  unfold BigDecimalCodec.decode_buffer, decimal_text. rewrite Hl, res_bind_ok. change INT_SIZE_IN_BYTES with 4. cbv zeta.
  rewrite (proj2 (Z.ltb_ge (4 + Z.of_nat k) 0)) by lia.
  assert (slice c 4 (4 + Z.of_nat k) = rev (le_split k n)) as ->.
  { rewrite <- Hb. unfold slice, sub. change (Z.to_nat 4) with 4%nat. rewrite Z2Nat.inj_add, Nat2Z.id by lia.
    change (Z.to_nat 4) with 4%nat. by rewrite <- take_drop_commute. }
  destruct k as [|k]; [lia|]. destruct (high_byte k n Hn) as (b & l & El & Hsign).
  set (body := rev (le_split (S k) n)) in *.
  assert (match body with b :: _ => 0 <? js_and (byte.unsigned b) 0x80 | [] => false end = (n <? 0)) as ->
    by (rewrite El; by rewrite sign_bit).
  assert (forall l, l <> [] -> BigDecimalCodec.from_hex l = Ok (le_combine (rev l))) as Hhex by (by intros []).
  rewrite Hhex by (rewrite El; by destruct (n <? 0)). rewrite res_bind_ok, Hs, res_bind_ok. do 3 f_equal. unfold body.
  unfold in_sint in Hn. assert (2 ^ (8 * Z.of_nat (S k)) = 2 * 2 ^ (8 * Z.of_nat (S k) - 1)) as E2.
  { rewrite <- Z.pow_succ_r by lia. f_equal. lia. }
  destruct (Z.ltb_spec n 0) as [Hneg|Hpos].
  - rewrite <- map_rev, rev_involutive, le_combine_invert, length_le_split, le_combine_split_wrap. unfold uwrap.
    rewrite <- (Z.mod_add n 1), Z.mod_small by lia. lia.
  - rewrite rev_involutive, le_combine_split_wrap. unfold uwrap. rewrite Z.mod_small; lia.
Qed.

(** ** The values of a member *)

Section Pages.
Context `{Uninit} {L : Type} `{LongLaws L}.

(** A date and a time of the day, with nanoseconds. *)
Record sql_date := mkSqlDate { d_year : Z; d_month : Z; d_day : Z }.
Record sql_time := mkSqlTime { t_hour : Z; t_minute : Z; t_second : Z; t_nano : Z }.

Inductive member_value :=
  | Varchar (s : string)
  | Boolean (b : bool)
  | Tinyint (z : Z)
  | Smallint (z : Z)
  | Integer (z : Z)
  | Bigint (z : Z)
  | Decimal (n scale : Z)
  | Real (bits : Z)
  | Double (bits : Z)
  | Date (d : sql_date)
  | Time (t : sql_time)
  | Timestamp (d : sql_date) (t : sql_time)
  | TimestampTz (d : sql_date) (t : sql_time) (offsetSeconds : Z)
  | Object (d : HeapData).

Definition date_valid (d : sql_date) : Prop :=
  in_sint 16 (d_year d) /\ 1 <= d_month d <= 12 /\ 1 <= d_day d <= days_in_month (d_year d) (d_month d).
Definition time_valid (t : sql_time) : Prop :=
  0 <= t_hour t <= 23 /\ 0 <= t_minute t <= 59 /\ 0 <= t_second t <= 59 /\ 0 <= t_nano t <= 999999999.
Definition offset_valid (o : Z) : Prop := -64800 <= o <= 64800.

(** The bytes of the values of fixed size: little-endian, two's complement. *)
Definition put_boolean (b : bool) : buffer := le_split 1 (Z.b2z b).
Definition put_date (d : sql_date) : buffer := le_split 2 (d_year d) ++ le_split 1 (d_month d) ++ le_split 1 (d_day d).
Definition put_time (t : sql_time) : buffer :=
  le_split 1 (t_hour t) ++ le_split 1 (t_minute t) ++ le_split 1 (t_second t) ++ le_split 4 (t_nano t).
Definition put_timestamp (x : sql_date * sql_time) : buffer := put_date x.1 ++ put_time x.2.
Definition put_timestamp_tz (x : sql_date * sql_time * Z) : buffer := put_timestamp x.1 ++ le_split 4 x.2.

(** *** A column of values of fixed size *)

(** Eight items, or fewer at the end, behind a byte whose bits say which of them are there. *)
Inductive group_bytes {A} (put : A -> buffer) : list (option A) -> buffer -> Prop :=
  | groups_nil : group_bytes put [] []
  | groups_cons g bitmask rest bs : (0 < length g <= 8)%nat -> (rest = [] \/ length g = 8%nat) -> 0 <= bitmask < 256 ->
      (forall i x, g !! i = Some x -> Z.testbit bitmask (Z.of_nat i) = bool_decide (is_Some x)) -> group_bytes put rest bs ->
      group_bytes put (g ++ rest) (le_split 1 bitmask ++ concat (map put (omap id g)) ++ bs).

Inductive cn_bytes {A} (put : A -> buffer) : list (option A) -> buffer -> Prop :=
  | cnb_null_only n : Z.of_nat n < 2 ^ 31 -> cn_bytes put (replicate n None) (le_split 1 1 ++ le_split 4 (Z.of_nat n))
  | cnb_not_null l : Z.of_nat (length l) < 2 ^ 31 ->
      cn_bytes put (Some <$> l) (le_split 1 2 ++ le_split 4 (Z.of_nat (length l)) ++ concat (map put l))
  | cnb_mixed l bs : Z.of_nat (length l) < 2 ^ 31 -> group_bytes put l bs ->
      cn_bytes put l (le_split 1 3 ++ le_split 4 (Z.of_nat (length l)) ++ bs).

Lemma map_nulls {A B} (f : A -> B) n : map (fmap f) (replicate n None) = replicate n (None : option B).
Proof. induction n; cbn; congruence. Qed.

Section FixedColumn.
Context {A B : Type} (put : A -> buffer) (valid : A -> Prop) (size : nat) (rd : buffer -> Z -> res B) (val : A -> B).
Hypothesis read_back : forall a, valid a -> reads_at rd size (put a) (val a).

Lemma group_masked g : Forall (option_valid valid) g -> forall bitmask i pre post, 0 <= i ->
  (forall j x, g !! j = Some x -> Z.testbit bitmask (i + Z.of_nat j) = bool_decide (is_Some x)) ->
  masked (Z.of_nat size) rd (pre ++ concat (map put (omap id g)) ++ post) bitmask i (blen pre) (map (fmap val) g)
    (blen pre + blen (concat (map put (omap id g)))).
Proof.
  induction 1 as [|x g Hx _ IH]; intros bitmask i pre post Hi Hb; [cbn; rewrite Z.add_0_r; constructor|].
  pose proof (Hb 0%nat x eq_refl) as H0'. rewrite Z.add_0_r in H0'.
  assert (forall j y, g !! j = Some y -> Z.testbit bitmask (i + 1 + Z.of_nat j) = bool_decide (is_Some y)) as Hb'.
  { intros j y Hj. rewrite <- (Hb (S j) y Hj). f_equal. lia. }
  destruct x as [a|]; cbn [map fmap option_fmap option_map omap list_omap id concat].
  - destruct (read_back a Hx) as [Hl Hr]. apply masked_some; [by rewrite H0', bool_decide_eq_true_2 by eauto | |].
    + rewrite <- app_assoc. apply Hr.
    + specialize (IH bitmask (i + 1) (pre ++ put a) post ltac:(lia) Hb'). rewrite !length_app, !Nat2Z.inj_add, Hl in *.
      rewrite <- !app_assoc in *. rewrite <- Z.add_assoc in IH. exact IH.
  - apply masked_none; [by rewrite H0', bool_decide_eq_false_2 by (by intros [? [=]])|]. by apply (IH bitmask (i + 1)); [lia|].
Qed.

Lemma group_mixed l bs : group_bytes put l bs -> Forall (option_valid valid) l -> forall pre,
  mixed (Z.of_nat size) rd (pre ++ bs) (blen pre) (map (fmap val) l).
Proof.
  induction 1 as [|g bitmask rest bs Hlen Hrest Hb Hbits _ IH]; intros Hv pre; [constructor|].
  apply Forall_app in Hv as [Hvg Hvr]. rewrite map_app.
  specialize (IH Hvr (pre ++ le_split 1 bitmask ++ concat (map put (omap id g)))).
  pose proof (group_masked g Hvg bitmask 0 (pre ++ le_split 1 bitmask) bs ltac:(lia) Hbits) as Hm.
  rewrite !length_app, length_le_split, !Nat2Z.inj_add in *. rewrite <- !app_assoc in *. change (Z.of_nat 1) with 1 in *.
  rewrite Z.add_assoc in IH. eapply mixed_group; [|exact Hm | exact IH | by rewrite length_map |].
  - destruct (reads_byte bitmask) as [_ Hr]. rewrite Hr. f_equal. apply Z.mod_small. lia.
  - rewrite length_map. destruct Hrest as [->|?]; [by left | by right].
Qed.

Lemma cn_bytes_column l c : cn_bytes put l c -> Forall (option_valid valid) l -> cn_column (Z.of_nat size) rd c (map (fmap val) l).
Proof.
  assert (forall k n rest, 0 <= k < 256 -> Z.of_nat n < 2 ^ 31 -> let c := le_split 1 k ++ le_split 4 (Z.of_nat n) ++ rest in
    decodeByte c 0 = Ok k /\ decodeInt c 1 = Ok (Z.of_nat n)) as Hhead.
  { intros k n rest Hk Hn c'. split.
    - destruct (reads_byte k) as [_ Hr]. specialize (Hr [] (le_split 4 (Z.of_nat n) ++ rest)). rewrite Z.mod_small in Hr by done. exact Hr.
    - destruct (reads_int (Z.of_nat n) ltac:(unfold in_sint; lia)) as [_ Hr]. exact (Hr (le_split 1 k) rest). }
  intros [n Hn|l' Hn|l' bs Hn Hg] Hv.
  - destruct (Hhead 1 n [] ltac:(lia) Hn) as [H1' H2']. rewrite app_nil_r in *. rewrite map_nulls. by apply cn_null_only.
  - destruct (Hhead 2 (length l') (concat (map put l')) ltac:(lia) Hn) as [H1' H2'].
    assert (map (fmap val) (Some <$> l') = Some <$> map val l') as ->
      by (clear; induction l' as [|y l' IH]; cbn; [done | by f_equal]).
    apply cn_not_null; [done | by rewrite length_map |]. intros i x Hx. apply list_lookup_fmap_Some in Hx as (a & -> & Ha).
    assert (Forall valid l') as Hv' by (clear -Hv; induction l'; inversion Hv; constructor; auto).
    pose proof (Forall_lookup_1 _ _ _ _ Hv' Ha) as Hva. destruct (read_back a Hva) as [_ Hr].
    assert (blen (concat (map put (take i l'))) = Z.of_nat i * Z.of_nat size) as Hlen.
    { assert (forall l, Forall valid l -> blen (concat (map put l)) = Z.of_nat (length l) * Z.of_nat size) as Hc.
      { clear -read_back. induction 1 as [|y l Hy _ IH]; [done|]. cbn [map concat length]. destruct (read_back y Hy) as [Hl _].
        rewrite length_app, Nat2Z.inj_add, IH, Hl. lia. }
      rewrite Hc by (apply Forall_take; exact Hv'). apply lookup_lt_Some in Ha. rewrite length_take. lia. }
    specialize (Hr (le_split 1 2 ++ le_split 4 (Z.of_nat (length l')) ++ concat (map put (take i l'))) (concat (map put (drop (S i) l')))).
    rewrite !length_app, !length_le_split, !Nat2Z.inj_add, Hlen, <- !app_assoc in Hr.
    rewrite <- Hr. f_equal; [|lia]. do 2 f_equal. rewrite <- (take_drop_middle l' i a Ha) at 1. rewrite map_app, concat_app. done.
  - destruct (Hhead 3 (length l') bs ltac:(lia) Hn) as [H1' H2'].
    apply cn_mixed; [done | by rewrite length_map |].
    pose proof (group_mixed l' bs Hg Hv (le_split 1 3 ++ le_split 4 (Z.of_nat (length l')))) as Hm.
    rewrite <- app_assoc in Hm. exact Hm.
Qed.
End FixedColumn.

(** *** The frames of a page *)

(** A frame of its own for each value that is not null. *)
Definition item_frames {A} (put : A -> buffer -> Prop) (x : option A) (fs : frames) : Prop :=
  match x with None => fs = [NULL_FRAME] | Some a => exists c, fs = [newFrame c] /\ put a c end.

Definition fixed_frames {A} (mk : A -> member_value) (valid : A -> Prop) (put : A -> buffer)
    (col : list (option member_value)) (fs : frames) : Prop :=
  exists l c fl, col = map (fmap mk) l /\ fs = [mkFrame c fl] /\ Forall (option_valid valid) l /\ cn_bytes put l c.

Definition list_frames {A} (mk : A -> member_value) (put : A -> buffer -> Prop) (col : list (option member_value)) (fs : frames) : Prop :=
  exists l fss, col = map (fmap mk) l /\ fs = BEGIN_FRAME :: concat fss ++ [END_FRAME] /\ Forall2 (item_frames put) l fss.

(** The frames of a column of each type. *)
Inductive column_frames : Z -> list (option member_value) -> frames -> Prop :=
  | varchar_frames col fs : list_frames Varchar (fun s c => c = from_utf8 s) col fs -> column_frames VARCHAR col fs
  | boolean_frames col fs : fixed_frames Boolean (fun _ => True) put_boolean col fs -> column_frames BOOLEAN col fs
  | tinyint_frames col fs : fixed_frames Tinyint (in_sint 8) (le_split 1) col fs -> column_frames TINYINT col fs
  | smallint_frames col fs : fixed_frames Smallint (in_sint 16) (le_split 2) col fs -> column_frames SMALLINT col fs
  | integer_frames col fs : fixed_frames Integer (in_sint 32) (le_split 4) col fs -> column_frames INTEGER col fs
  | bigint_frames col fs : fixed_frames Bigint (in_sint 64) (le_split 8) col fs -> column_frames BIGINT col fs
  | real_frames col fs : fixed_frames Real (in_uint 32) (le_split 4) col fs -> column_frames REAL col fs
  | double_frames col fs : fixed_frames Double (in_uint 64) (le_split 8) col fs -> column_frames DOUBLE col fs
  | date_frames col fs : fixed_frames Date date_valid put_date col fs -> column_frames DATE col fs
  | time_frames col fs : fixed_frames Time time_valid put_time col fs -> column_frames TIME col fs
  | timestamp_frames col fs :
      fixed_frames (fun x => Timestamp x.1 x.2) (fun x => date_valid x.1 /\ time_valid x.2) put_timestamp col fs ->
      column_frames TIMESTAMP col fs
  | timestamp_tz_frames col fs :
      fixed_frames (fun x => TimestampTz x.1.1 x.1.2 x.2) (fun x => (date_valid x.1.1 /\ time_valid x.1.2) /\ offset_valid x.2)
        put_timestamp_tz col fs ->
      column_frames TIMESTAMP_WITH_TIME_ZONE col fs
  | decimal_column col fs : list_frames (fun d => Decimal d.1 d.2) (fun d c => decimal_bytes d.1 d.2 c) col fs -> column_frames DECIMAL col fs
  | null_frames n fl : Z.of_nat n < 2 ^ 31 -> column_frames SQL_NULL (replicate n None) [mkFrame (le_split 4 (Z.of_nat n)) fl]
  | object_frames col fs : list_frames Object (fun d c => data_valid d /\ payload d = Some c) col fs -> column_frames SQL_OBJECT col fs.

Inductive columns_frames : list Z -> list (list (option member_value)) -> frames -> Prop :=
  | no_columns : columns_frames [] [] []
  | more_columns t ts col cols fs gs :
      column_frames t col fs -> columns_frames ts cols gs -> columns_frames (t :: ts) (col :: cols) (fs ++ gs).

(** A page: whether it is the last one, the types, the columns, and what a newer member adds. *)
Record member_page_data := mkMemberPage { mp_types : list Z; mp_columns : list (list (option member_value)); mp_last : bool }.

Inductive member_page : member_page_data -> frames -> Prop :=
  | page_layout types columns last columns_fs fl fl' extra :
      Forall (in_sint 32) types -> columns_frames types columns columns_fs -> balanced extra ->
      member_page (mkMemberPage types columns last)
        (BEGIN_FRAME :: mkFrame (le_split 1 (Z.b2z last)) fl :: mkFrame (concat (map (le_split 4) types)) fl' ::
         columns_fs ++ extra ++ [END_FRAME]).

(** ** The values of the client *)

Definition text_of (r : res string) : string := match r with Ok s => s | Err _ => "" end.
Definition date_text (d : sql_date) : string := text_of (getLocalDateString (d_year d) (d_month d) (d_day d)).
Definition time_text (t : sql_time) : string := text_of (getLocalTimeString (t_hour t) (t_minute t) (t_second t) (t_nano t)).
Definition timestamp_text (x : sql_date * sql_time) : string := date_text x.1 +:+ "T" +:+ time_text x.2.
Definition timestamp_tz_text (x : sql_date * sql_time * Z) : string :=
  timestamp_text x.1 +:+ text_of (getTimezoneOffsetFromSeconds x.2).

Definition client_value (v : member_value) : sql_value L :=
  match v with
  | Varchar s => SqlString s
  | Boolean b => SqlBoolean b
  | Tinyint z => SqlNumber (z mod 256)
  | Smallint z | Integer z => SqlNumber z
  | Bigint z => SqlLong (long_of_Z z)
  | Decimal n scale => SqlString (decimal_text n scale)
  | Real bits => SqlFloat (Float32Bits bits)
  | Double bits => SqlFloat (Float64Bits bits)
  | Date d => SqlString (date_text d)
  | Time t => SqlString (time_text t)
  | Timestamp d t => SqlString (timestamp_text (d, t))
  | TimestampTz d t o => SqlString (timestamp_tz_text (d, t, o))
  | Object d => SqlData d
  end.

Definition client_page (p : member_page_data) : SqlPageData L :=
  mkSqlPageData (mp_types p) (map (map (fmap client_value)) (mp_columns p)) (mp_last p).

(** *** Decoding *)

Lemma reads_boolean b : reads_at decodeBoolean 1 (put_boolean b) b.
Proof.
  split; [apply length_le_split|]. intros pre post. unfold decodeBoolean, put_boolean.
  change (readUInt8 (pre ++ le_split 1 (Z.b2z b) ++ post) (blen pre)) with (readUIntLE 1 (pre ++ le_split 1 (Z.b2z b) ++ post) (blen pre)).
  rewrite read_uint. by destruct b.
Qed.

Lemma reads_float v : in_uint 32 v -> reads_at decodeFloat 4 (le_split 4 v) (Float32Bits v).
Proof.
  intros Hv. split; [apply length_le_split|]. intros. unfold decodeFloat. rewrite read_uint. cbn. do 2 f_equal.
  unfold uwrap, in_uint in *. by apply Z.mod_small.
Qed.

Lemma reads_double v : in_uint 64 v -> reads_at decodeDouble 8 (le_split 8 v) (Float64Bits v).
Proof.
  intros Hv. split; [apply length_le_split|]. intros. unfold decodeDouble. rewrite read_uint. cbn. do 2 f_equal.
  unfold uwrap, in_uint in *. by apply Z.mod_small.
Qed.

Lemma reads_long v : in_sint 64 v -> reads_at decodeLong 8 (le_split 8 v) (long_of_Z v).
Proof.
  intros Hv. split; [apply length_le_split|]. intros pre post. unfold decodeLong, readInt32LE.
  change (le_split 8 v) with (le_split (4 + 4) v). rewrite (le_split_app 4 4 v), (reads_first _ _ _ _ _ (reads_sint 4 v ltac:(lia)) pre post), res_bind_ok.
  pose proof (reads_second _ _ _ _ (le_split 4 v) 4 (reads_sint 4 (v / 2 ^ (8 * Z.of_nat 4)) ltac:(lia)) (length_le_split _ _) pre [] post) as Hs.
  rewrite app_nil_r in Hs. change INT_SIZE_IN_BYTES with (Z.of_nat 4). rewrite Hs, res_bind_ok. cbn [mret res_ret]. f_equal.
  apply long_val_inj. rewrite long_val_of_bits, long_val_of_Z by done. change (8 * Z.of_nat 4) with 32.
  rewrite uwrap_swrap by lia. rewrite (swrap_id 32 (v / 2 ^ 32)).
  - unfold uwrap. rewrite Z.mul_comm, <- Z.div_mod by lia. by apply swrap_id.
  - lia.
  - unfold in_sint in *. split; [apply Z.div_le_lower_bound | apply Z.div_lt_upper_bound]; lia.
Qed.

Lemma reads_small v : 0 <= v < 256 -> reads_at decodeByte 1 (le_split 1 v) v.
Proof. intros Hv. pose proof (reads_byte v) as Hr. by rewrite Z.mod_small in Hr. Qed.

Lemma date_ok d : date_valid d -> getLocalDateString (d_year d) (d_month d) (d_day d) = Ok (date_text d).
Proof.
  intros (Hy & Hm & Hd). unfold date_text. destruct (proj2 (getLocalDateString_valid (d_year d) (d_month d) (d_day d))) as [s ->]; [|done].
  unfold in_sint in Hy. lia.
Qed.

Lemma time_ok t : time_valid t -> getLocalTimeString (t_hour t) (t_minute t) (t_second t) (t_nano t) = Ok (time_text t).
Proof.
  intros (Hh & Hm & Hs & Hn). unfold time_text, getLocalTimeString.
  by rewrite !(proj2 (Z.leb_le _ _)) by lia.
Qed.

Lemma offset_ok o : offset_valid o -> getTimezoneOffsetFromSeconds o = Ok (text_of (getTimezoneOffsetFromSeconds o)).
Proof.
  intros Ho. unfold getTimezoneOffsetFromSeconds. unfold offset_valid in Ho. rewrite Z.gtb_ltb, !(proj2 (Z.ltb_ge _ _)) by lia.
  by destruct (o =? 0).
Qed.

Lemma put_date_length d : length (put_date d) = 4%nat.
Proof. unfold put_date. by rewrite !length_app, !length_le_split. Qed.
Lemma put_time_length t : length (put_time t) = 7%nat.
Proof. unfold put_time. by rewrite !length_app, !length_le_split. Qed.

Lemma reads_date d : date_valid d -> reads_at decodeLocalDate 4 (put_date d) (date_text d).
Proof.
  intros Hd. pose proof Hd as (Hy & Hm & Hdd). pose proof (days_in_month_range (d_year d) (d_month d)).
  split; [apply put_date_length|]. intros pre post. unfold decodeLocalDate, put_date.
  rewrite (reads_first _ _ _ _ _ (reads_short (d_year d) Hy)), res_bind_ok.
  change SHORT_SIZE_IN_BYTES with (Z.of_nat 2). change BYTE_SIZE_IN_BYTES with (Z.of_nat 1).
  rewrite (reads_second _ _ _ _ (le_split 2 (d_year d)) 2 (reads_small (d_month d) ltac:(lia)) (length_le_split _ _)), res_bind_ok.
  pose proof (reads_second _ _ _ _ (le_split 2 (d_year d) ++ le_split 1 (d_month d)) 3 (reads_small (d_day d) ltac:(lia))
    ltac:(by rewrite length_app, !length_le_split) pre [] post) as Hs.
  rewrite app_nil_r, <- !app_assoc in Hs. rewrite <- !app_assoc. rewrite <- Z.add_assoc. change (Z.of_nat 2 + Z.of_nat 1) with (Z.of_nat 3).
  rewrite Hs, res_bind_ok. by apply date_ok.
Qed.

Lemma reads_time t : time_valid t -> reads_at decodeLocalTime 7 (put_time t) (time_text t).
Proof.
  intros Ht. pose proof Ht as (Hh & Hm & Hs & Hn). split; [apply put_time_length|]. intros pre post. unfold decodeLocalTime.
  assert (forall first b rest k x, put_time t = first ++ b ++ rest -> length first = k -> reads_at decodeByte 1 b x ->
    decodeByte (pre ++ put_time t ++ post) (blen pre + Z.of_nat k) = Ok x) as Hb.
  { intros first b rest k x -> Hk Hr. by apply (reads_second _ _ _ _ first k Hr Hk). }
  pose proof (Hb [] _ _ 0%nat _ eq_refl eq_refl (reads_small (t_hour t) ltac:(lia))) as E1. rewrite Z.add_0_r in E1. rewrite E1, res_bind_ok.
  change BYTE_SIZE_IN_BYTES with (Z.of_nat 1).
  rewrite (Hb (le_split 1 (t_hour t)) _ _ 1%nat _ eq_refl (length_le_split _ _) (reads_small (t_minute t) ltac:(lia))), res_bind_ok.
  change (Z.of_nat 1 * 2) with (Z.of_nat 2). change (Z.of_nat 1 * 3) with (Z.of_nat 3).
  rewrite (Hb (le_split 1 (t_hour t) ++ le_split 1 (t_minute t)) (le_split 1 (t_second t)) (le_split 4 (t_nano t)) 2%nat (t_second t)),
    res_bind_ok; [| unfold put_time; by rewrite <- !app_assoc | by rewrite length_app, !length_le_split | apply reads_small; lia].
  pose proof (reads_second _ _ _ _ (le_split 1 (t_hour t) ++ le_split 1 (t_minute t) ++ le_split 1 (t_second t)) 3
    (reads_int (t_nano t) ltac:(unfold in_sint; lia)) ltac:(by rewrite !length_app, !length_le_split) pre [] post) as E4.
  rewrite app_nil_r, <- !app_assoc in E4. unfold put_time. rewrite <- !app_assoc. rewrite E4, res_bind_ok. by apply time_ok.
Qed.

Lemma reads_timestamp x : date_valid x.1 /\ time_valid x.2 -> reads_at decodeLocalDatetime 11 (put_timestamp x) (timestamp_text x).
Proof.
  intros [Hd Ht]. split; [unfold put_timestamp; by rewrite length_app, put_date_length, put_time_length|]. intros pre post.
  unfold decodeLocalDatetime, put_timestamp. rewrite (reads_first _ _ _ _ _ (reads_date _ Hd)), res_bind_ok.
  pose proof (reads_second _ _ _ _ _ 4 (reads_time _ Ht) (put_date_length x.1) pre [] post) as E. rewrite app_nil_r in E.
  change LOCAL_DATE_SIZE_IN_BYTES with (Z.of_nat 4). by rewrite E, res_bind_ok.
Qed.

Lemma reads_timestamp_tz x : (date_valid x.1.1 /\ time_valid x.1.2) /\ offset_valid x.2 ->
  reads_at decodeOffsetDateTime 15 (put_timestamp_tz x) (timestamp_tz_text x).
Proof.
  intros [Hx Ho]. pose proof (reads_timestamp _ Hx) as Hr. pose proof Hr as [Hl _].
  split; [unfold put_timestamp_tz; by rewrite length_app, length_le_split, Hl|]. intros pre post.
  unfold decodeOffsetDateTime, put_timestamp_tz. rewrite (reads_first _ _ _ _ _ Hr), res_bind_ok.
  pose proof (reads_second _ _ _ _ _ 11 (reads_int x.2 ltac:(unfold offset_valid, in_sint in *; lia)) Hl pre [] post) as E. rewrite app_nil_r in E.
  change LOCAL_DATETIME_SIZE_IN_BYTES with (Z.of_nat 11). by rewrite E, res_bind_ok, (offset_ok _ Ho), res_bind_ok.
Qed.

Lemma fixed_decodes {A B} (mk : A -> member_value) valid put (f : B -> sql_value L) (val : A -> B) size rd col fs :
  (forall a, valid a -> reads_at rd size (put a) (val a)) -> (forall a, client_value (mk a) = f (val a)) ->
  fixed_frames mk valid put col fs -> decodes (column f (decode_cn (Z.of_nat size) rd)) fs (map (fmap client_value) col).
Proof.
  intros Hr Hv (l & c & fl & -> & -> & Hl & Hc) fs' rest Hs. apply Forall2_cons_inv_l in Hs as (g & gs & [Hg _ _ _] & Hs & ->).
  apply Forall2_nil_inv_l in Hs as ->. cbv [column decode_cn mbind Dec_bind nextFrame lift mret Dec_ret app].
  rewrite <- Hg. cbn [content]. rewrite (decode_cn_ok _ _ _ _ (cn_bytes_column put valid size rd val Hr l c Hc Hl)).
  do 2 f_equal. rewrite !map_map. apply map_ext. intros [a|]; [|done]. cbn. by rewrite Hv.
Qed.

(** The frame of one value, read by [dec]. *)
Definition frame_reads {B} (dec : Dec B) (c : buffer) (x : B) : Prop := decodes dec [newFrame c] x.

Lemma list_decodes {A B} (mk : A -> member_value) put (f : B -> sql_value L) (val : A -> B) dec col fs :
  (forall a c, put a c -> frame_reads dec c (val a)) -> (forall a, client_value (mk a) = f (val a)) ->
  list_frames mk put col fs -> decodes (column f (decode_bracketed (CodecUtil.decodeNullable dec))) fs (map (fmap client_value) col).
Proof.
  intros Hr Hv (l & fss & -> & -> & Hl). rewrite <- (app_nil_r (_ :: _)). eapply decodes_bind; [|apply decodes_ret_eq].
  - apply (decode_bracketed_ok (map (fmap val) l)). clear -Hl Hr. induction Hl as [|x g l fss Hx _ IH]; constructor; [|done].
    destruct x as [a|]; cbn in *; [|subst g; split; [apply decodes_nullable_none | by eexists _, _]].
    destruct Hx as (c & -> & Hc). split; [|by eexists _, _]. apply decodes_nullable_some; [done | by apply Hr].
  - rewrite !map_map. apply map_ext. intros [a|]; [|done]. cbn. by rewrite Hv.
Qed.

Lemma column_decodes t col fs : column_frames t col fs -> decodes (decode_column t) fs (map (fmap client_value) col).
Proof.
  intros Hcol. destruct Hcol as [col fs Hc|col fs Hc|col fs Hc|col fs Hc|col fs Hc|col fs Hc|col fs Hc|col fs Hc|col fs Hc|col fs Hc
    |col fs Hc|col fs Hc|col fs Hc|n fl Hn|col fs Hc].
  - refine (list_decodes _ _ SqlString id StringCodec.decode col fs _ _ Hc); [|done]. intros s c ->. destruct (string_codec s I) as [fs' [E D _ _]].
    specialize (E []). cbn in E. injection E as <-. exact D.
  - refine (fixed_decodes _ _ _ SqlBoolean id 1 decodeBoolean col fs _ _ Hc); [|done]. intros b _. apply reads_boolean.
  - refine (fixed_decodes _ _ _ SqlNumber (fun z => z mod 256) 1 decodeByte col fs _ _ Hc); [|done]. intros z _. apply reads_byte.
  - refine (fixed_decodes _ _ _ SqlNumber id 2 decodeShort col fs _ _ Hc); [|done]. intros z. apply reads_short.
  - refine (fixed_decodes _ _ _ SqlNumber id 4 decodeInt col fs _ _ Hc); [|done]. intros z. apply reads_int.
  - refine (fixed_decodes _ _ _ SqlLong long_of_Z 8 decodeLong col fs _ _ Hc); [|done]. intros z. apply reads_long.
  - refine (fixed_decodes _ _ _ SqlFloat Float32Bits 4 decodeFloat col fs _ _ Hc); [|done]. intros z. apply reads_float.
  - refine (fixed_decodes _ _ _ SqlFloat Float64Bits 8 decodeDouble col fs _ _ Hc); [|done]. intros z. apply reads_double.
  - refine (fixed_decodes _ _ _ SqlString date_text 4 decodeLocalDate col fs _ _ Hc); [|done]. intros d. apply reads_date.
  - refine (fixed_decodes _ _ _ SqlString time_text 7 decodeLocalTime col fs _ _ Hc); [|done]. intros d. apply reads_time.
  - refine (fixed_decodes _ _ _ SqlString timestamp_text 11 decodeLocalDatetime col fs _ _ Hc); [|by intros []]. intros x. apply reads_timestamp.
  - refine (fixed_decodes _ _ _ SqlString timestamp_tz_text 15 decodeOffsetDateTime col fs _ _ Hc); [|by intros [[]]]. intros x. apply reads_timestamp_tz.
  - refine (list_decodes _ _ SqlString (fun d => decimal_text d.1 d.2) BigDecimalCodec.decode col fs _ _ Hc); [|done]. intros [n scale] c Hd. cbn in Hd.
    intros fs' rest Hs. apply Forall2_cons_inv_l in Hs as (g & gs & [Hg _ _ _] & Hs & ->). apply Forall2_nil_inv_l in Hs as ->.
    cbv [BigDecimalCodec.decode mbind Dec_bind nextFrame lift app]. rewrite <- Hg. cbn [content newFrame]. by rewrite (decode_decimal_ok _ _ _ Hd).
  - intros fs' rest Hs. apply Forall2_cons_inv_l in Hs as (g & gs & [Hg _ _ _] & Hs & ->). apply Forall2_nil_inv_l in Hs as ->.
    destruct (reads_int (Z.of_nat n) ltac:(unfold in_sint; lia)) as [_ Hr]. specialize (Hr [] []). rewrite app_nil_r in Hr.
    cbv [decode_column mbind Dec_bind nextFrame lift app]. cbn -[decodeInt le_split]. rewrite <- Hg. cbn [content].
    change (decodeInt (le_split 4 (Z.of_nat n)) 0 = Ok (Z.of_nat n)) in Hr. rewrite Hr.
    cbn. rewrite (proj2 (Z.ltb_ge _ _)) by lia. rewrite Nat2Z.id. by rewrite map_nulls.
  - refine (list_decodes _ _ SqlData id DataCodec.decode col fs _ _ Hc); [|done]. intros d c [Hd Hp]. destruct (data_codec d Hd) as [fs' [E D _ _]].
    specialize (E []). cbn in E. destruct d as [pl]. cbn in Hp. subst pl. cbn in E. injection E as <-. exact D.
Qed.

Lemma columns_decode ts cols fs : columns_frames ts cols fs -> decodes (decode_columns ts) fs (map (map (fmap client_value)) cols).
Proof.
  induction 1 as [|t ts col cols fs gs Hc _ IH]; [apply decodes_ret|]. cbn [decode_columns].
  eapply decodes_bind; [by apply column_decodes|]. rewrite <- (app_nil_r gs). eapply decodes_bind; [exact IH | apply decodes_ret].
Qed.

Lemma read_types l : Forall (in_sint 32) l -> forall pre i, blen pre = i * 4 ->
  read_items 4 decodeInt (pre ++ concat (map (le_split 4) l)) i (length l) = Ok l.
Proof.
  induction 1 as [|z l Hz _ IH]; intros pre i Hi; [done|]. cbn [length read_items map concat].
  destruct (reads_int z Hz) as [_ Hr]. rewrite <- Hi, Hr, res_bind_ok. rewrite app_assoc, IH; [done|].
  rewrite length_app, length_le_split. lia.
Qed.

Lemma types_decode types fl : Forall (in_sint 32) types ->
  decodes ListIntegerCodec_decode [mkFrame (concat (map (le_split 4) types)) fl] types.
Proof.
  intros Ht fs' rest Hs. apply Forall2_cons_inv_l in Hs as (g & gs & [Hg _ _ _] & Hs & ->). apply Forall2_nil_inv_l in Hs as ->.
  cbv [ListIntegerCodec_decode decode_items mbind Dec_bind nextFrame lift app]. rewrite <- Hg. cbn [content].
  assert (forall l, blen (concat (map (le_split 4) l)) = Z.of_nat (length l) * 4) as Hlen.
  { induction l as [|z l IH]; [done|]. cbn [map concat length]. rewrite length_app, length_le_split. lia. }
  rewrite Hlen. change INT_SIZE_IN_BYTES with 4. rewrite Z.mod_mul, Z.div_mul, Nat2Z.id by lia. cbn [Z.eqb].
  pose proof (read_types types Ht [] 0 eq_refl) as Hr. cbn [app] in Hr. by rewrite Hr.
Qed.

(** The page the client makes of the frames. *)
Definition page_frames (p : SqlPageData L) (fs : frames) : Prop := exists mp, member_page mp fs /\ p = client_page mp.

Lemma page_decodes p fs : page_frames p fs -> decodes SqlPageCodec_decode fs p.
Proof.
  intros (mp & [types columns last cfs fl fl' extra Ht Hc Hx] & ->).
  unfold SqlPageCodec_decode. apply decodes_skip. apply decodes_next. intros g [Hg _ _ _]. rewrite <- Hg. cbn [content].
  eapply (decodes_bind _ _ [_]); [by apply types_decode|]. eapply decodes_bind; [by apply columns_decode|].
  apply decodes_fast_forward; [done | done |]. apply decodes_ret_eq. unfold client_page. cbn [mp_types mp_columns mp_last]. f_equal. by destruct last.
Qed.
(** ** What the texts say *)

Section Texts.
Open Scope string_scope.

(** The text before and after the first [c]. *)
Fixpoint cut_at (c : ascii) (s : string) : option (string * string) :=
  match s with
  | EmptyString => None
  | String a s => if Ascii.eqb a c then Some ("", s) else '(x, y) ← cut_at c s; Some (String a x, y)
  end.

Definition strip_sign (s : string) : bool * string := match s with String "-" s => (true, s) | _ => (false, s) end.

Definition read_number (s : string) : option Z :=
  match s with
  | EmptyString => None
  | _ => '(v, point) ← read_decimal s 0 None; match point with None => Some v | Some _ => None end
  end.

(** [yyyy-mm-dd], with a sign for a year before 0. *)
Definition read_date (s : string) : option sql_date :=
  let '(negative, s) := strip_sign s in
  '(y, s) ← cut_at "-" s; '(m, d) ← cut_at "-" s;
  y ← read_number y; m ← read_number m; d ← read_number d;
  Some (mkSqlDate (if negative : bool then - y else y)%Z m d).

(** [hh:mm:ss] and a decimal fraction of the second. *)
Definition read_time (s : string) : option sql_time :=
  '(h, s) ← cut_at ":" s; '(m, s) ← cut_at ":" s;
  h ← read_number h; m ← read_number m;
  match cut_at "." s with
  | None => x ← read_number s; Some (mkSqlTime h m x 0)
  | Some (x, f) =>
      x ← read_number x; '(v, digits) ← read_decimal f 0 (Some 0%nat);
      Some (mkSqlTime h m x (v * 10 ^ (9 - Z.of_nat (default 0%nat digits)))%Z)
  end.

Definition read_timestamp (s : string) : option (sql_date * sql_time) :=
  '(d, t) ← cut_at "T" s; d ← read_date d; t ← read_time t; Some (d, t).

(** [hh:mm] as seconds. *)
Definition read_offset (s : string) : option Z :=
  '(h, m) ← cut_at ":" s; h ← read_number h; m ← read_number m; Some ((h * 60 + m) * 60)%Z.

(** A time, and [Z] or an offset with its sign. *)
Definition read_timestamp_tz (s : string) : option (sql_date * sql_time * Z) :=
  '(d, s) ← cut_at "T" s; d ← read_date d;
  match cut_at "Z" s with
  | Some (t, _) => t ← read_time t; Some (d, t, 0%Z)
  | None =>
      match cut_at "+" s with
      | Some (t, o) => t ← read_time t; o ← read_offset o; Some (d, t, o)
      | None => '(t, o) ← cut_at "-" s; t ← read_time t; o ← read_offset o; Some (d, t, (- o)%Z)
      end
  end.

(** *** Reading what the client writes *)

Lemma string_app_nil_r (s : string) : s +:+ "" = s.
Proof. induction s as [|a s IH]; [done|]. change (String a (s +:+ "") = String a s). by rewrite IH. Qed.

Lemma string_app_assoc (s t u : string) : s +:+ (t +:+ u) = (s +:+ t) +:+ u.
Proof. induction s as [|a s IH]; [done|]. change (String a (s +:+ (t +:+ u)) = String a ((s +:+ t) +:+ u)). by rewrite IH. Qed.

Definition avoids (c : ascii) (s : string) : Prop := cut_at c s = None.

Lemma cut_at_app c s r : avoids c s -> cut_at c (s +:+ r) = ('(x, y) ← cut_at c r; Some (s +:+ x, y)).
Proof.
  unfold avoids. induction s as [|a s IH]; [intros _; change ("" +:+ r) with r; by destruct (cut_at c r) as [[]|]|].
  change (String a s +:+ r) with (String a (s +:+ r)). cbn [cut_at]. destruct (Ascii.eqb a c); [done|].
  destruct (cut_at c s) as [[]|]; [done|]. intros _. rewrite IH by done. by destruct (cut_at c r) as [[]|].
Qed.

Lemma split_at_here c s r : avoids c s -> cut_at c (s +:+ String c r) = Some (s, r).
Proof. intros Hs. rewrite cut_at_app by done. cbn [cut_at]. rewrite Ascii.eqb_refl. cbn. by rewrite string_app_nil_r. Qed.

Lemma avoids_app c s r : avoids c s -> avoids c r -> avoids c (s +:+ r).
Proof. unfold avoids. intros Hs Hr. by rewrite cut_at_app, Hr by done. Qed.

Lemma avoids_char c a : a <> c -> avoids c (String a "").
Proof. intros Ha. unfold avoids. cbn [cut_at]. by destruct (Ascii.eqb_spec a c). Qed.

Lemma digits_avoid c s v : decimal_digit c = None -> digits_of s v -> avoids c s.
Proof.
  intros Hc. revert v. induction s as [|a s IH]; intros v Hs; [done|]. change (String a s) with (String a "" +:+ s) in *.
  apply digits_split in Hs as (v1 & v2 & Ha & Hb & _). apply avoids_app; [|by eapply IH]. apply avoids_char. intros ->.
  specialize (Ha 0 (Some 0%nat)). cbn [read_decimal] in Ha. destruct (Ascii.eqb c "."); [done|]. by rewrite Hc in Ha.
Qed.

(** A text of digits that says [v]. *)
Record numeral (s : string) (v : Z) : Prop := { nu_digits : digits_of s v; nu_nonempty : s <> "" }.

Lemma numeral_read s v : numeral s v -> read_number s = Some v.
Proof. intros [Hd Hn]. destruct s as [|a s]; [done|]. unfold read_number. by rewrite (Hd 0 None). Qed.

Lemma numeral_avoids c s v : numeral s v -> decimal_digit c = None -> avoids c s.
Proof. intros [Hd _] Hc. by eapply digits_avoid. Qed.

Lemma numeral_unsigned s v r : numeral s v -> strip_sign (s +:+ r) = (false, s +:+ r).
Proof.
  intros [Hd Hn]. destruct s as [|a s]; [done|]. change (String a s +:+ r) with (String a (s +:+ r)).
  assert (a <> "-"%char) as Ha.
  { intros ->. pose proof (digits_avoid "-" (String "-" s) v eq_refl Hd) as Hx. unfold avoids in Hx. cbn [cut_at] in Hx. by rewrite Ascii.eqb_refl in Hx. }
  unfold strip_sign. destruct a as [[] [] [] [] [] [] [] []]; done.
Qed.

Lemma zeros_text n : String.concat "" (replicate n "0") = BigDecimalCodec.repeat_zero n.
Proof.
  induction n as [|[|n] IH]; [done | done |]. change (replicate (S (S n)) "0") with ("0" :: replicate (S n) "0").
  change (String.concat "" ("0" :: replicate (S n) "0")) with ("0" +:+ "" +:+ String.concat "" (replicate (S n) "0")). by rewrite IH.
Qed.

Lemma pad_numeral n k : 0 <= n -> numeral (padStart0 (pretty n) k) n.
Proof.
  intros Hn. unfold padStart0. rewrite zeros_text. set (z := BigDecimalCodec.repeat_zero _). split.
  - pose proof (digits_app z (pretty n) 0 n (digits_zeros _) (pretty_digits n Hn)) as Hd. by rewrite Z.mul_0_l in Hd.
  - pose proof (pretty_nonempty n Hn) as Hne. by destruct z; [|done].
Qed.

Lemma pretty_go_length k : forall x s, (x < 10 ^ N.of_nat k)%N -> (String.length (pretty_N_go x s) <= k + String.length s)%nat.
Proof.
  induction k as [|k IH]; intros x s Hx.
  - replace x with 0%N by (cbn in Hx; lia). by rewrite pretty_N_go_0.
  - destruct (decide (0 < x)%N) as [Hp|Hp]; [|replace x with 0%N by lia; rewrite pretty_N_go_0; lia].
    rewrite pretty_N_go_step by done. etransitivity; [apply IH|cbn; lia].
    rewrite Nat2N.inj_succ, N.pow_succ_r' in Hx. apply N.Div0.div_lt_upper_bound. lia.
Qed.

Lemma pad_length n k : 0 <= n < 10 ^ Z.of_nat k -> (0 < k)%nat -> String.length (padStart0 (pretty n) k) = k.
Proof.
  intros Hn Hk. unfold padStart0. rewrite zeros_text, string_length_app, length_zeros.
  assert (String.length (pretty n) <= k)%nat; [|lia]. destruct n as [|p|p]; [cbn; lia | | lia].
  change (pretty (Zpos p)) with (pretty (Npos p)). unfold pretty, pretty_N. rewrite decide_False by lia.
  etransitivity; [apply (pretty_go_length k)|cbn; lia]. destruct Hn as [_ Hn]. apply N2Z.inj_lt. rewrite N2Z.inj_pow, nat_N_Z. exact Hn.
Qed.
End Texts.

(** The parts of the texts. *)
Lemma date_shape d : date_valid d ->
  date_text d = (if d_year d <? 0 then "-" else "") +:+ (padStart0 (pretty (Z.abs (d_year d))) 4 +:+
    String "-" (padStart0 (pretty (d_month d)) 2 +:+ String "-" (padStart0 (pretty (d_day d)) 2))).
Proof. intros Hd. pose proof (date_ok d Hd) as E. unfold getLocalDateString in E. repeat case_match; try done; by injection E as <-. Qed.

Lemma read_date_ok d : date_valid d -> read_date (date_text d) = Some d.
Proof.
  intros Hd. rewrite (date_shape d Hd). destruct Hd as (_ & Hm & Hdd).
  pose proof (pad_numeral (Z.abs (d_year d)) 4 ltac:(lia)) as Ny. pose proof (pad_numeral (d_month d) 2 ltac:(lia)) as Nm.
  pose proof (pad_numeral (d_day d) 2 ltac:(lia)) as Nd.
  set (y := padStart0 _ 4) in *. set (m := padStart0 (pretty (d_month d)) 2) in *. set (x := padStart0 (pretty (d_day d)) 2) in *.
  assert (strip_sign ((if d_year d <? 0 then "-" else "") +:+ (y +:+ String "-" (m +:+ String "-" x))) =
    (d_year d <? 0, y +:+ String "-" (m +:+ String "-" x))) as Es.
  { destruct (d_year d <? 0); [done|]. exact (numeral_unsigned _ _ _ Ny). }
  unfold read_date. rewrite Es, (split_at_here "-" y) by (by eapply numeral_avoids). cbn [mbind option_bind].
  rewrite (split_at_here "-" m) by (by eapply numeral_avoids). cbn [mbind option_bind].
  rewrite (numeral_read _ _ Ny), (numeral_read _ _ Nm), (numeral_read _ _ Nd). cbn. f_equal. destruct d as [yy mm dd]. cbn in *.
  f_equal. destruct (Z.ltb_spec yy 0); lia.
Qed.

(** What a text of a time has of characters. *)
Lemma time_shape t : time_valid t -> exists f,
  time_text t = padStart0 (pretty (t_hour t)) 2 +:+ String ":" (padStart0 (pretty (t_minute t)) 2 +:+
    String ":" (padStart0 (pretty (t_second t)) 2 +:+ f)) /\
  ((f = "" /\ t_nano t = 0) \/ f = String "." (padStart0 (pretty (t_nano t)) 9)).
Proof.
  intros Ht. pose proof (time_ok t Ht) as E. unfold getLocalTimeString in E. repeat case_match; try done; injection E as <-.
  - eexists. split; [by rewrite <- !string_app_assoc | by right].
  - exists "". rewrite string_app_nil_r. split; [done|]. left. split; [done|]. match goal with Hn : negb (_ =? 0) = false |- _ =>
      apply negb_false_iff, Z.eqb_eq in Hn; exact Hn end.
Qed.

Lemma read_time_ok t : time_valid t -> read_time (time_text t) = Some t.
Proof.
  intros Ht. destruct (time_shape t Ht) as (f & -> & Hf). destruct Ht as (Hh & Hm & Hs & Hn).
  pose proof (pad_numeral (t_hour t) 2 ltac:(lia)) as Nh. pose proof (pad_numeral (t_minute t) 2 ltac:(lia)) as Nm.
  pose proof (pad_numeral (t_second t) 2 ltac:(lia)) as Ns. pose proof (pad_numeral (t_nano t) 9 ltac:(lia)) as Nn.
  unfold read_time. rewrite (split_at_here ":") by (by eapply numeral_avoids). cbn [mbind option_bind].
  rewrite (split_at_here ":") by (by eapply numeral_avoids). cbn [mbind option_bind].
  rewrite (numeral_read _ _ Nh), (numeral_read _ _ Nm). cbn [mbind option_bind]. destruct Hf as [[-> En]| ->].
  - rewrite string_app_nil_r. assert (cut_at "." (padStart0 (pretty (t_second t)) 2) = None) as -> by (by eapply numeral_avoids).
    rewrite (numeral_read _ _ Ns). cbn. f_equal. destruct t. cbn in *. by f_equal.
  - rewrite (split_at_here ".") by (by eapply numeral_avoids). rewrite (numeral_read _ _ Ns). cbn [mbind option_bind].
    rewrite (nu_digits _ _ Nn 0 (Some 0%nat)). rewrite pad_length by (cbn; lia). cbn. f_equal. destruct t as [h mi se na]. cbn in *. f_equal. lia.
Qed.

Lemma date_avoids c d : date_valid d -> decimal_digit c = None -> c <> "-"%char -> avoids c (date_text d).
Proof.
  intros Hd Hc Hne. rewrite (date_shape d Hd). destruct Hd as (_ & Hm & Hdd). apply avoids_app; [destruct (_ <? _); [by apply avoids_char | done]|].
  apply avoids_app; [by eapply numeral_avoids; [apply pad_numeral; lia|]|].
  apply (avoids_app c "-"); [by apply avoids_char|]. apply avoids_app; [by eapply numeral_avoids; [apply pad_numeral; lia|]|].
  apply (avoids_app c "-"); [by apply avoids_char|]. by eapply numeral_avoids; [apply pad_numeral; lia|].
Qed.

Lemma time_avoids c t : time_valid t -> decimal_digit c = None -> c <> ":"%char -> c <> "."%char -> avoids c (time_text t).
Proof.
  intros Ht Hc H1' H2'. destruct (time_shape t Ht) as (f & -> & Hf). destruct Ht as (Hh & Hm & Hs & Hn).
  apply avoids_app; [by eapply numeral_avoids; [apply pad_numeral; lia|]|]. apply (avoids_app c ":"); [by apply avoids_char|].
  apply avoids_app; [by eapply numeral_avoids; [apply pad_numeral; lia|]|]. apply (avoids_app c ":"); [by apply avoids_char|].
  apply avoids_app; [by eapply numeral_avoids; [apply pad_numeral; lia|]|]. destruct Hf as [[-> _]| ->]; [done|].
  apply (avoids_app c "."); [by apply avoids_char|]. by eapply numeral_avoids; [apply pad_numeral; lia|].
Qed.

Lemma read_timestamp_ok x : date_valid x.1 /\ time_valid x.2 -> read_timestamp (timestamp_text x) = Some x.
Proof.
  intros [Hd Ht]. unfold read_timestamp, timestamp_text. change ("T" +:+ time_text x.2) with (String "T" (time_text x.2)).
  rewrite (split_at_here "T") by (by apply date_avoids). cbn [mbind option_bind]. rewrite read_date_ok, read_time_ok by done. by destruct x.
Qed.

Lemma offset_text o : offset_valid o -> text_of (getTimezoneOffsetFromSeconds o) =
  if o =? 0 then "Z" else String (if o <? 0 then "-" else "+") (padStart0 (pretty (Z.abs o / 60 / 60)) 2 +:+
    String ":" (padStart0 (pretty (Z.rem (Z.abs o / 60) 60)) 2)).
Proof.
  intros Ho. unfold getTimezoneOffsetFromSeconds, offset_valid in *. rewrite Z.gtb_ltb, !(proj2 (Z.ltb_ge _ _)) by lia. cbn [orb].
  destruct (o =? 0); [done|]. by destruct (o <? 0).
Qed.

(** The minutes of an offset are there, its seconds are not. *)
Lemma read_timestamp_tz_ok x : (date_valid x.1.1 /\ time_valid x.1.2) /\ offset_valid x.2 ->
  read_timestamp_tz (timestamp_tz_text x) = Some (x.1.1, x.1.2, Z.sgn x.2 * (Z.abs x.2 / 60 * 60)).
Proof.
  intros [[Hd Ht] Ho]. unfold read_timestamp_tz, timestamp_tz_text, timestamp_text. rewrite (offset_text _ Ho). rewrite <- !string_app_assoc.
  change ("T" +:+ time_text x.1.2 +:+ ?z) with (String "T" (time_text x.1.2 +:+ z)).
  rewrite (split_at_here "T") by (by apply date_avoids). cbn [mbind option_bind]. rewrite read_date_ok by done. cbn [mbind option_bind].
  destruct (Z.eqb_spec x.2 0) as [E|Hne].
  { rewrite E, (split_at_here "Z" _ "") by (by apply time_avoids). rewrite read_time_ok by done. done. }
  assert (0 <= Z.abs x.2 / 60) as Hq by (apply Z.div_pos; lia).
  pose proof (pad_numeral (Z.abs x.2 / 60 / 60) 2 ltac:(apply Z.div_pos; lia)) as Nh.
  pose proof (pad_numeral (Z.rem (Z.abs x.2 / 60) 60) 2 ltac:(apply Z.rem_nonneg; lia)) as Nm.
  set (h := padStart0 _ 2) in *. set (m := padStart0 (pretty (Z.rem _ _)) 2) in *.
  assert (read_offset (h +:+ String ":" m) = Some (Z.abs x.2 / 60 * 60)) as Er.
  { unfold read_offset. rewrite (split_at_here ":") by (by eapply numeral_avoids). cbn [mbind option_bind].
    rewrite (numeral_read _ _ Nh), (numeral_read _ _ Nm). cbn. f_equal. rewrite Z.rem_mod_nonneg by lia. pose proof (Z.div_mod (Z.abs x.2 / 60) 60). lia. }
  assert (forall c, decimal_digit c = None -> c <> ":"%char -> avoids c (h +:+ String ":" m)) as Hav.
  { intros c Hc H1'. apply avoids_app; [by eapply numeral_avoids|]. apply (avoids_app c ":"); [by apply avoids_char | by eapply numeral_avoids]. }
  assert (avoids "Z" (time_text x.1.2)) as Hz by (by apply time_avoids).
  assert (avoids "+" (time_text x.1.2)) as Hp by (by apply time_avoids).
  assert (avoids "-" (time_text x.1.2)) as Hm by (by apply time_avoids).
  destruct (Z.ltb_spec x.2 0) as [Hneg|Hpos].
  - assert (cut_at "Z" (time_text x.1.2 +:+ String "-" (h +:+ String ":" m)) = None) as ->
      by (apply avoids_app; [done|]; apply (avoids_app "Z" "-"); [by apply avoids_char | by apply Hav]).
    assert (cut_at "+" (time_text x.1.2 +:+ String "-" (h +:+ String ":" m)) = None) as ->
      by (apply avoids_app; [done|]; apply (avoids_app "+" "-"); [by apply avoids_char | by apply Hav]).
    rewrite (split_at_here "-") by done. cbn [mbind option_bind]. rewrite read_time_ok, Er by done. cbn. do 2 f_equal. rewrite Z.sgn_neg by lia. lia.
  - assert (cut_at "Z" (time_text x.1.2 +:+ String "+" (h +:+ String ":" m)) = None) as ->
      by (apply avoids_app; [done|]; apply (avoids_app "Z" "+"); [by apply avoids_char | by apply Hav]).
    rewrite (split_at_here "+") by done. rewrite read_time_ok, Er by done. cbn. do 2 f_equal. rewrite Z.sgn_pos by lia. lia.
Qed.

(** ** What the client's values say of the member's *)

Definition means (m : member_value) (v : sql_value L) : Prop :=
  match m, v with
  | Varchar s, SqlString s' => s' = s
  | Boolean b, SqlBoolean b' => b' = b
  | Tinyint z, SqlNumber z' => z' = z mod 256
  | Smallint z, SqlNumber z' | Integer z, SqlNumber z' => z' = z
  | Bigint z, SqlLong l => long_val l = z
  | Decimal n scale, SqlString s => decimal_of_string s = Some (n <? 0, Z.abs n * 10 ^ Z.max 0 (- scale), Z.to_nat scale)
  | Real bits, SqlFloat x => x = Float32Bits bits
  | Double bits, SqlFloat x => x = Float64Bits bits
  | Date d, SqlString s => read_date s = Some d
  | Time t, SqlString s => read_time s = Some t
  | Timestamp d t, SqlString s => read_timestamp s = Some (d, t)
  | TimestampTz d t o, SqlString s => read_timestamp_tz s = Some (d, t, Z.sgn o * (Z.abs o / 60 * 60))
  | Object d, SqlData d' => d' = d
  | _, _ => False
  end.

Lemma fixed_means {A} (mk : A -> member_value) valid put col fs : (forall a, valid a -> means (mk a) (client_value (mk a))) ->
  fixed_frames mk valid put col fs -> Forall2 (option_Forall2 means) col (map (fmap client_value) col).
Proof.
  intros Hm (l & c & fl & -> & _ & Hl & _). induction Hl as [|x l Hx _ IH]; cbn; constructor; [|exact IH].
  destruct x as [a|]; constructor. by apply Hm.
Qed.

Lemma list_means {A} (mk : A -> member_value) put col fs : (forall a, means (mk a) (client_value (mk a))) ->
  list_frames mk put col fs -> Forall2 (option_Forall2 means) col (map (fmap client_value) col).
Proof.
  intros Hm (l & fss & -> & _ & _). induction l as [|x l IH]; cbn; constructor; [|exact IH]. destruct x as [a|]; constructor. apply Hm.
Qed.

Lemma column_means t col fs : column_frames t col fs -> Forall2 (option_Forall2 means) col (map (fmap client_value) col).
Proof.
  intros [c f Hc|c f Hc|c f Hc|c f Hc|c f Hc|c f Hc|c f Hc|c f Hc|c f Hc|c f Hc|c f Hc|c f Hc|c f Hc|n fl _|c f Hc].
  - by eapply (list_means Varchar); [|exact Hc].
  - by eapply (fixed_means Boolean); [|exact Hc].
  - by eapply (fixed_means Tinyint); [|exact Hc].
  - by eapply (fixed_means Smallint); [|exact Hc].
  - by eapply (fixed_means Integer); [|exact Hc].
  - eapply (fixed_means Bigint); [|exact Hc]. intros z Hz. by apply long_val_of_Z.
  - by eapply (fixed_means Real); [|exact Hc].
  - by eapply (fixed_means Double); [|exact Hc].
  - eapply (fixed_means Date); [|exact Hc]. intros d. apply read_date_ok.
  - eapply (fixed_means Time); [|exact Hc]. intros d. apply read_time_ok.
  - eapply fixed_means; [|exact Hc]. intros [d tm]. apply read_timestamp_ok.
  - eapply fixed_means; [|exact Hc]. intros [[d tm] o]. apply read_timestamp_tz_ok.
  - eapply list_means; [|exact Hc]. intros [n scale]. apply decimal_text_value.
  - rewrite map_nulls. induction n; cbn; constructor; [constructor | done].
  - by eapply (list_means Object); [|exact Hc].
Qed.

(** C17: a page of a result is decoded to the values the member wrote into it, whatever the types of its columns, the
    layout of each column (nulls only, no nulls, bit masks) and the fields a newer member adds: nulls are nulls, numbers
    and texts are those that were written, the text of a decimal, a date or a time says the number, the date or the time. Two types
    lose something: a TINYINT is read as an unsigned byte (its value modulo 256, so the value itself only if it is not
    negative), and of the offset of a time zone the seconds are dropped. *)
Theorem page_decoded (mp : member_page_data) (fs : frames) : member_page mp fs ->
  exists p, decodes SqlPageCodec_decode fs p /\ pd_columnTypes p = mp_types mp /\ pd_last p = mp_last mp /\
    Forall2 (Forall2 (option_Forall2 means)) (mp_columns mp) (pd_columns p).
Proof.
  intros Hp. exists (client_page mp). split; [apply page_decodes; by exists mp|]. split_and!; [done | done|].
  destruct Hp as [types columns last cfs fl fl' extra _ Hc _]. cbn.
  clear -Hc H1. induction Hc as [|t ts col cols gs hs Hcol _ IH]; [constructor|].
  cbn. constructor; [by eapply column_means | exact IH].
Qed.
End Pages.
Arguments sql_date : clear implicits.
Arguments sql_time : clear implicits.

(** A negative TINYINT is read as a positive number. *)
Lemma negative_tinyint : decode_column (L := Int64.t) TINYINT [mkFrame (le_split 1 2 ++ le_split 4 1 ++ le_split 1 (-1)) 0] =
  Ok ([Some (SqlNumber 255)], []).
Proof. vm_compute. reflexivity. Qed.

Definition demo_integers : buffer := le_split 1 3 ++ le_split 4 2 ++ le_split 1 1 ++ le_split 4 5.
Definition demo_decimal : buffer := le_split 4 2 ++ rev (le_split 2 (-1234)) ++ le_split 4 2.
Definition demo_date : buffer := le_split 1 2 ++ le_split 4 1 ++ le_split 2 2024 ++ le_split 1 2 ++ le_split 1 29.
Definition demo_member_page : member_page_data :=
  mkMemberPage [INTEGER; DECIMAL; DATE]
    [[Some (Integer 5); None]; [Some (Decimal (-1234) 2); None]; [Some (Date (mkSqlDate 2024 2 29))]] true.

Lemma page_decoded_witness :
  let fs := BEGIN_FRAME :: mkFrame (le_split 1 1) 0 :: mkFrame (le_split 4 4 ++ le_split 4 6 ++ le_split 4 9) 0 ::
    ([mkFrame demo_integers 0] ++ (BEGIN_FRAME :: [newFrame demo_decimal; NULL_FRAME] ++ [END_FRAME]) ++ [mkFrame demo_date 0] ++ []) ++ [] ++ [END_FRAME] in
  exists p, SqlPageCodec_decode (L := Int64.t) (fs ++ []) = Ok (p, []) /\ pd_last p = true /\
    pd_columns p = [[Some (SqlNumber 5); None]; [Some (SqlString "-12.34"); None]; [Some (SqlString "2024-02-29")]] /\
    Forall2 (Forall2 (option_Forall2 means)) (mp_columns demo_member_page) (pd_columns p).
Proof.
  intros fs. destruct (page_decoded (L := Int64.t) demo_member_page fs) as (p & D & _ & Hl & Hm).
  - apply (page_layout [INTEGER; DECIMAL; DATE] _ true _ 0 0 []).
    + repeat constructor; vm_compute; congruence.
    + apply more_columns; [|apply more_columns; [|apply more_columns; [|apply no_columns]]].
      * apply integer_frames. exists [Some 5; None], demo_integers, 0. split; [reflexivity | split; [reflexivity|split]].
        -- repeat constructor; vm_compute; congruence.
        -- apply (cnb_mixed _ [Some 5; None]); [cbn; lia|].
           apply (groups_cons (le_split 4) [Some 5; None] 1 [] []); [cbn; lia | by left | lia | | constructor].
           intros [|[|i]] x Hx; cbn in Hx; [injection Hx as <-; reflexivity | injection Hx as <-; reflexivity | discriminate Hx].
      * apply decimal_column. exists [Some (-1234, 2); None], [[newFrame demo_decimal]; [NULL_FRAME]]. split; [reflexivity | split; [reflexivity|]].
        constructor; [|constructor; [reflexivity | constructor]].
        exists demo_decimal. split; [reflexivity|]. exists 2%nat. split; [reflexivity|]. split; [lia|]. split; [lia|]. split; split; vm_compute; congruence.
      * apply date_frames. exists [Some (mkSqlDate 2024 2 29)], demo_date, 0. split; [reflexivity | split; [reflexivity|split]].
        -- repeat constructor; vm_compute; congruence.
        -- apply (cnb_not_null put_date [mkSqlDate 2024 2 29]). cbn. lia.
    + constructor.
  - exists p. assert (SqlPageCodec_decode (L := Int64.t) (fs ++ []) = Ok (p, [])) as E by (by apply decodes_run).
    split; [exact E|]. split; [exact Hl|]. split; [|exact Hm]. vm_compute in E. injection E as <-. reflexivity.
Defined.
