(* ===== verification/RequestCore.v ===== *)
(** * Requests, responses and events

    What the request codecs of [src/src/codec/] have in common. A codec builds a request with the operations of
    [ClientMessage] ([Request] here: the retryable flag and the frames added so far), writes its fixed-size parameters into
    the initial frame at the offsets it computes, and appends the others; it decodes a response or an event from the
    initial frame and the frames that follow.

    The protocol says where the parameters are: the fixed-size ones one after the other behind the header of the initial
    frame, the others in order after it. [RequestFormat], [ResponseFormat] and [EventFormat] describe a message that way,
    and [encode_request], [decode_request] and [decode_reply] are the reference encoder and decoders of a format. A
    codec of the client is correct if it agrees with its format; the theorems about formats then hold for it. *)

From S2P Require Export Prelude CustomCodecs.

(** ** Building a request *)

Record Request := mkRequest { rq_retryable : option bool; rq_frames : frames }.

Module Request.
Definition createForEncode : Request := mkRequest None [].
Definition setRetryable (m : Request) (retryable : bool) : Request := mkRequest (Some retryable) (rq_frames m).
Definition addFrame (m : Request) (f : Frame) : Request := mkRequest (rq_retryable m) (addFrame (rq_frames m) f).

(** An access to the content of [startFrame]. *)
Definition write_start (m : Request) (wr : buffer -> res buffer) : res Request :=
  match rq_frames m with
  | [] => Err TypeError
  | f :: fs => c ← wr (content f); Ok (mkRequest (rq_retryable m) (mkFrame c (flags f) :: fs))
  end.
Definition setMessageType (m : Request) (messageType : Z) : res Request :=
  write_start m (fun c => writeInt32LE c messageType MESSAGE_TYPE_OFFSET).
Definition setPartitionId (m : Request) (partitionId : Z) : res Request :=
  write_start m (fun c => writeInt32LE c partitionId PARTITION_ID_OFFSET).

(** [SomeCodec.encode(clientMessage, value)]. *)
Definition append {A} (enc : Enc A) (m : Request) (value : A) : res Request :=
  fs ← enc (rq_frames m) value; Ok (mkRequest (rq_retryable m) fs).
End Request.

(** [Frame.createInitialFrame(size)]. *)
Definition initial_frame `{Uninit} (size : Z) : Frame := createInitialFrame size UNFRAGMENTED_MESSAGE.

(** [FixSizedTypesCodec.encodeSomething(initialFrame.content, offset, value)]. *)
Definition encode_at {A} (wr : buffer -> Z -> A -> res buffer) (f : Frame) (offset : Z) (value : A) : res Frame :=
  c ← wr (content f) offset value; Ok (mkFrame c (flags f)).

(** [FixSizedTypesCodec.decodeSomething(initialFrame.content, offset)]. *)
Definition decode_at {A} (rd : buffer -> Z -> res A) (f : Frame) (offset : Z) : Dec A := lift (rd (content f) offset).

(** [clientMessage.getMessageType()], before the first frame was taken. *)
Definition getMessageType : Dec Z := f ← peekNextFrame; lift (readInt32LE (content f) MESSAGE_TYPE_OFFSET).

(** [if (messageType === type && handler !== null) { ...; return; }] of an event handler. *)
Definition on_event {H T} (messageType type : Z) (handler : option H) (body : H -> Dec T) (next : Dec (option T))
    : Dec (option T) :=
  match handler with
  | Some h => if messageType =? type then r ← body h; mret (Some r) else next
  | None => next
  end.

(** ** Formats *)

(** A fixed-size parameter: what the encoder is given, what the bytes mean to the reader. *)
Record FixedType := mkFixedType {
  ft_arg : Type;
  ft_val : Type;
  ft_view : ft_arg -> ft_val;
  ft_valid : ft_arg -> Prop;
  ft_size : nat;
  ft_write : buffer -> Z -> ft_arg -> res buffer;
  ft_read : buffer -> Z -> res ft_val;
  ft_law b off a : ft_valid a -> in_bounds b off (Z.of_nat ft_size) = true ->
    exists b', ft_write b off a = Ok b' /\ length b' = length b /\ field ft_read ft_size b' off (ft_view a) /\
      forall C (rd' : buffer -> Z -> res C) size' off' c,
        off' + Z.of_nat size' <= off \/ off + Z.of_nat ft_size <= off' ->
        field rd' size' b off' c -> field rd' size' b' off' c
}.

(** A parameter of a request with frames of its own. *)
Record ParamType := mkParamType {
  pt_val : Type;
  pt_valid : pt_val -> Prop;
  pt_enc : Enc pt_val;
  pt_dec : Dec pt_val;
  pt_law a : pt_valid a -> exists fs, (forall m, pt_enc m a = Ok (m ++ fs)) /\ decodes pt_dec fs a
}.

(** A parameter of a reply: [rp_frames] says which frames mean a value. *)
Record ReplyType := mkReplyType {
  rp_val : Type;
  rp_frames : rp_val -> frames -> Prop;
  rp_dec : Dec rp_val;
  rp_law v fs : rp_frames v fs -> decodes rp_dec fs v
}.

Definition fixed {A} {size : nat} {valid : A -> Prop} {wr rd} (F : FixedCodec size valid wr rd) : FixedType :=
  mkFixedType A A id valid size wr rd (fun b off a Ha Hb => write_field size valid wr rd b off a F Ha Hb).

Lemma param_law {A} {nn valid} {enc : Enc A} {dec : Dec A} (C : MsgCodec nn valid enc dec) a :
  valid a -> exists fs, (forall m, enc m a = Ok (m ++ fs)) /\ decodes dec fs a.
Proof. intros Ha. destruct (C a Ha) as [fs [E D _ _]]. by exists fs. Qed.

Definition param {A} {nn : bool} {valid : A -> Prop} {enc : Enc A} {dec : Dec A} (C : MsgCodec nn valid enc dec) : ParamType :=
  mkParamType A valid enc dec (param_law C).

Lemma reply_law {A} {nn valid} {enc : Enc A} {dec : Dec A} (C : MsgCodec nn valid enc dec) a fs :
  valid a /\ enc [] a = Ok fs -> decodes dec fs a.
Proof. intros [Ha E]. destruct (C a Ha) as [fs' [E' D _ _]]. rewrite E' in E. by injection E as <-. Qed.

(** A reply whose parameter is encoded as the client encodes it. *)
Definition reply {A} {nn : bool} {valid : A -> Prop} {enc : Enc A} {dec : Dec A} (C : MsgCodec nn valid enc dec) : ReplyType :=
  mkReplyType A (fun a fs => valid a /\ enc [] a = Ok fs) dec (reply_law C).

Fixpoint fargs (l : list FixedType) : Type := match l with [] => unit | t :: l => ft_arg t * fargs l end.
Fixpoint fvals (l : list FixedType) : Type := match l with [] => unit | t :: l => ft_val t * fvals l end.
Fixpoint fview (l : list FixedType) : fargs l -> fvals l :=
  match l with [] => fun _ => tt | t :: l => fun v => (ft_view t v.1, fview l v.2) end.
Fixpoint fvalid (l : list FixedType) : fargs l -> Prop :=
  match l with [] => fun _ => True | t :: l => fun v => ft_valid t v.1 /\ fvalid l v.2 end.
Fixpoint fsize (l : list FixedType) : Z := match l with [] => 0 | t :: l => Z.of_nat (ft_size t) + fsize l end.

Fixpoint pargs (l : list ParamType) : Type := match l with [] => unit | t :: l => pt_val t * pargs l end.
Fixpoint pvalid (l : list ParamType) : pargs l -> Prop :=
  match l with [] => fun _ => True | t :: l => fun v => pt_valid t v.1 /\ pvalid l v.2 end.
Fixpoint rvals (l : list ReplyType) : Type := match l with [] => unit | t :: l => rp_val t * rvals l end.

(** *** The reference encoder and decoders *)

(** The fields one after the other from [off] on. *)
Fixpoint write_fields {B} (l : list FixedType) (off : Z) (f : Frame) : fargs l -> (Frame -> res B) -> res B :=
  match l with
  | [] => fun _ k => k f
  | t :: l => fun v k =>
      f ← encode_at (ft_write t) f off v.1; write_fields l (off + Z.of_nat (ft_size t)) f v.2 k
  end.
Fixpoint read_fields {B} (l : list FixedType) (off : Z) (f : Frame) : (fvals l -> Dec B) -> Dec B :=
  match l with
  | [] => fun k => k tt
  | t :: l => fun k =>
      x ← decode_at (ft_read t) f off; read_fields l (off + Z.of_nat (ft_size t)) f (fun v => k (x, v))
  end.
Fixpoint append_params (l : list ParamType) (m : Request) : pargs l -> res Request :=
  match l with
  | [] => fun _ => Ok m
  | t :: l => fun v => m ← Request.append (pt_enc t) m v.1; append_params l m v.2
  end.
Fixpoint read_params {B} (l : list ParamType) : (pargs l -> Dec B) -> Dec B :=
  match l with
  | [] => fun k => k tt
  | t :: l => fun k => x ← pt_dec t; read_params l (fun v => k (x, v))
  end.
Fixpoint read_replies {B} (l : list ReplyType) : (rvals l -> Dec B) -> Dec B :=
  match l with
  | [] => fun k => k tt
  | t :: l => fun k => x ← rp_dec t; read_replies l (fun v => k (x, v))
  end.

(** Where the fields start: behind the partition id of a request or an event, behind the number of backups of a
    response. *)
Definition FIELDS_OFFSET : Z := PARTITION_ID_OFFSET + INT_SIZE_IN_BYTES.
Definition RESPONSE_FIELDS_OFFSET : Z := RESPONSE_BACKUP_ACKS_OFFSET + BYTE_SIZE_IN_BYTES.

Definition encode_request `{Uninit} (type : Z) (retryable : bool) (fields : list FixedType) (params : list ParamType)
    (f : fargs fields) (p : pargs params) : res Request :=
  write_fields fields FIELDS_OFFSET (initial_frame (FIELDS_OFFSET + fsize fields)) f (fun initialFrame =>
    m ← Request.setMessageType
          (Request.addFrame (Request.setRetryable Request.createForEncode retryable) initialFrame) type;
    m ← Request.setPartitionId m (-1);
    append_params params m p).

Definition decode_request (fields : list FixedType) (params : list ParamType) : Dec (fvals fields * pargs params) :=
  initialFrame ← nextFrame;
  read_fields fields FIELDS_OFFSET initialFrame (fun f => read_params params (fun p => mret (f, p))).

Definition decode_reply {A} (off : Z) (fields : list FixedType) (params : list ReplyType)
    (build : fvals fields -> rvals params -> A) : Dec A :=
  initialFrame ← nextFrame;
  read_fields fields off initialFrame (fun f => read_replies params (fun p => mret (build f p))).

(** ** A format and the codec of the client that implements it *)

Record RequestFormat := mkRequestFormat {
  rf_type : Z;
  rf_retryable : bool;
  rf_fields : list FixedType;
  rf_params : list ParamType;
  rf_encode : fargs rf_fields -> pargs rf_params -> res Request
}.

Record ReplyFormat := mkReplyFormat {
  pf_fields : list FixedType;
  pf_params : list ReplyType;
  pf_value : Type;
  pf_build : fvals pf_fields -> rvals pf_params -> pf_value;
  pf_decode : Dec pf_value
}.

(** An event has a message type, and its handler returns nothing for the types it does not know. *)
Record EventFormat := mkEventFormat {
  ef_type : Z;
  ef_fields : list FixedType;
  ef_params : list ReplyType;
  ef_value : Type;
  ef_build : fvals ef_fields -> rvals ef_params -> ef_value;
  ef_handle : Dec (option ef_value)
}.

Definition request_conforms `{Uninit} (c : RequestFormat) : Prop :=
  in_sint 32 (rf_type c) /\
  forall f p, rf_encode c f p = encode_request (rf_type c) (rf_retryable c) (rf_fields c) (rf_params c) f p.

Definition response_conforms (c : ReplyFormat) : Prop := forall f s,
  pf_decode c (f :: s) = decode_reply RESPONSE_FIELDS_OFFSET (pf_fields c) (pf_params c) (pf_build c) (f :: s).

Definition event_conforms (c : EventFormat) : Prop := forall f s messageType,
  readInt32LE (content f) MESSAGE_TYPE_OFFSET = Ok messageType ->
  ef_handle c (f :: s) =
    (if messageType =? ef_type c then
       r ← decode_reply FIELDS_OFFSET (ef_fields c) (ef_params c) (ef_build c); mret (Some r)
     else mret None) (f :: s).

Lemma message_type_bind {A} (k : Z -> Dec A) f s t :
  readInt32LE (content f) MESSAGE_TYPE_OFFSET = Ok t -> (getMessageType ≫= k) (f :: s) = k t (f :: s).
Proof. intros E. cbv [mbind Dec_bind getMessageType peekNextFrame lift res_bind]. by rewrite E. Qed.

(** Agreement is by computation: the offsets of the codec are those of the format. *)
Ltac format_agrees table :=
  unfold table;
  repeat lazymatch goal with
  | |- Forall _ (_ :: _) => apply Forall_cons_2
  | |- Forall _ [] => apply Forall_nil_2
  end;
  first
    [ split; [split; vm_compute; congruence | intros; reflexivity]
    | intros ? ?; reflexivity
    | intros ? ? t E; etransitivity; [apply (message_type_bind _ _ _ _ E)|];
      cbv beta iota zeta delta [on_event ef_type];
      lazymatch goal with |- context [t =? ?n] => destruct (t =? n) end; reflexivity ].

(** ** Lemmas *)

(** The fields of a buffer from [off] on. *)
Fixpoint fields_at (l : list FixedType) (off : Z) (c : buffer) : fvals l -> Prop :=
  match l with
  | [] => fun _ => True
  | t :: l => fun v => field (ft_read t) (ft_size t) c off v.1 /\ fields_at l (off + Z.of_nat (ft_size t)) c v.2
  end.

Lemma fsize_nonneg l : 0 <= fsize l.
Proof. induction l; cbn; lia. Qed.

(** Bytes before [off] may change. *)
Lemma fields_at_keep l : forall off c c' v,
  (forall C (rd : buffer -> Z -> res C) size off' x, off <= off' -> field rd size c off' x -> field rd size c' off' x) ->
  fields_at l off c v -> fields_at l off c' v.
Proof.
  induction l as [|t l IH]; intros off c c' v Hk; cbn [fields_at]; [done|]. intros [Hv Hl]. split; [apply Hk; [lia | done]|].
  eapply IH; [|exact Hl]. intros C rd size off' x Ho. apply Hk. lia.
Qed.

Lemma write_fields_ok l : forall off f v, fvalid l v -> 0 <= off -> off + fsize l <= blen (content f) ->
  exists c, (forall B (k : Frame -> res B), write_fields l off f v k = k (mkFrame c (flags f))) /\
    length c = length (content f) /\ fields_at l off c (fview l v) /\
    forall C (rd : buffer -> Z -> res C) size off' x, off' + Z.of_nat size <= off ->
      field rd size (content f) off' x -> field rd size c off' x.
Proof.
  induction l as [|t l IH]; intros off f v; cbn [fvalid fsize write_fields fview fields_at].
  - intros _ _ _. exists (content f). split_and!; [|done..]. intros B k. by destruct f.
  - intros [Ht Hl] Hoff Hlen. pose proof (fsize_nonneg l).
    destruct (ft_law t (content f) off v.1 Ht) as (b & E & Lb & Fb & Kb); [apply in_bounds_true; lia|].
    destruct (IH (off + Z.of_nat (ft_size t)) (mkFrame b (flags f)) v.2 Hl) as (c & Ec & Lc & Fc & Kc);
      [lia | cbn; rewrite Lb; lia |].
    exists c. split_and!.
    + intros B k. unfold encode_at. rewrite E. rewrite !res_bind_ok. apply Ec.
    + by rewrite Lc.
    + apply Kc; [lia | done].
    + done.
    + intros C rd size off' x Ho Hx. apply Kc; [lia|]. apply Kb; [lia | done].
Qed.

Lemma read_fields_ok {B} l : forall off f v (k : fvals l -> Dec B) s,
  fields_at l off (content f) v -> read_fields l off f k s = k v s.
Proof.
  induction l as [|t l IH]; intros off f v k s; cbn [fields_at read_fields fvals] in *; [by destruct v|]. destruct v as [x v]. intros [Hv Hl].
  cbv [mbind Dec_bind decode_at lift]. rewrite (field_read _ _ _ _ _ Hv), res_bind_ok. cbn [fst snd] in *.
  by rewrite (IH _ _ v).
Qed.

Lemma append_params_ok l : forall m p, pvalid l p ->
  exists fs, append_params l m p = Ok (mkRequest (rq_retryable m) (rq_frames m ++ fs)) /\
    forall B (k : pargs l -> Dec B) fs' rest, Forall2 similar fs fs' ->
      read_params l k (fs' ++ rest) = k p rest.
Proof.
  induction l as [|t l IH]; intros m p; cbn [pvalid append_params read_params].
  - intros _. exists []. destruct p. rewrite app_nil_r. split; [by destruct m|].
    intros B k fs' rest Hs. by apply Forall2_nil_inv_l in Hs as ->.
  - intros [Ht Hl]. destruct (pt_law t p.1 Ht) as (fs & E & D).
    destruct (IH (mkRequest (rq_retryable m) (rq_frames m ++ fs)) p.2 Hl) as (gs & Eg & Dg).
    exists (fs ++ gs). split.
    + unfold Request.append. rewrite E. cbn [mbind res_bind]. rewrite Eg. cbn. by rewrite <- app_assoc.
    + intros B k fs' rest Hs. apply Forall2_app_inv_l in Hs as (l1 & l2 & H1 & H2 & ->).
      cbv [mbind Dec_bind]. rewrite <- app_assoc, (D _ _ H1), (Dg _ _ _ _ H2). by destruct p.
Qed.

Lemma write_start_int m c fl fs off z : in_sint 32 z -> 0 <= off -> off + 4 <= blen c -> rq_frames m = mkFrame c fl :: fs ->
  exists c', Request.write_start m (fun c => writeInt32LE c z off) = Ok (mkRequest (rq_retryable m) (mkFrame c' fl :: fs)) /\
    length c' = length c /\ field decodeInt 4 c' off z /\
    forall C (rd : buffer -> Z -> res C) size off' x, off' + Z.of_nat size <= off \/ off + 4 <= off' ->
      field rd size c off' x -> field rd size c' off' x.
Proof.
  intros Hz Ho Hl Em. destruct (write_field 4 (in_sint 32) encodeInt decodeInt c off z fixed_int Hz) as (c' & E & Lc & F & K);
    [apply in_bounds_true; lia|].
  exists c'. split_and!; [|done..]. unfold Request.write_start. rewrite Em. cbn [content flags].
  unfold encodeInt in E. by rewrite E.
Qed.

(** What a request is: its type and no partition in the header, its parameters where the format has them, whatever
    follows. *)
Definition request_ok (c : RequestFormat) (f : fargs (rf_fields c)) (p : pargs (rf_params c)) (m : Request) : Prop :=
  exists initialFrame fs, rq_frames m = initialFrame :: fs /\
    rq_retryable m = Some (rf_retryable c) /\ flags initialFrame = UNFRAGMENTED_MESSAGE /\
    blen (content initialFrame) = FIELDS_OFFSET + fsize (rf_fields c) /\
    readInt32LE (content initialFrame) MESSAGE_TYPE_OFFSET = Ok (rf_type c) /\
    readInt32LE (content initialFrame) PARTITION_ID_OFFSET = Ok (-1) /\
    forall g fs' rest, similar initialFrame g -> Forall2 similar fs fs' ->
      decode_request (rf_fields c) (rf_params c) (g :: fs' ++ rest) = Ok ((fview _ f, p), rest).

Lemma encode_request_ok `{Uninit} c f p : request_conforms c -> fvalid _ f -> pvalid _ p ->
  exists m, rf_encode c f p = Ok m /\ request_ok c f p m.
Proof.
  intros [Ht ->] Hf Hp. unfold encode_request. pose proof (fsize_nonneg (rf_fields c)) as Hs.
  set (l := rf_fields c) in *. set (f0 := initial_frame (FIELDS_OFFSET + fsize l)).
  assert (blen (content f0) = FIELDS_OFFSET + fsize l) as L0.
  { cbn. rewrite length_allocUnsafe. change FIELDS_OFFSET with 16. lia. }
  change FIELDS_OFFSET with 16 in *.
  destruct (write_fields_ok l 16 f0 f Hf ltac:(lia)) as (c1 & E1 & L1 & F1 & _); [lia|]. rewrite E1.
  edestruct (write_start_int (Request.addFrame (Request.setRetryable Request.createForEncode (rf_retryable c))
    (mkFrame c1 (flags f0))) c1 (flags f0) [] MESSAGE_TYPE_OFFSET (rf_type c)) as (c2 & E2 & L2 & F2 & K2);
    [done | done | change MESSAGE_TYPE_OFFSET with 0; lia | done |].
  unfold Request.setMessageType. rewrite E2, res_bind_ok.
  edestruct (write_start_int (mkRequest (Some (rf_retryable c)) [mkFrame c2 (flags f0)]) c2 (flags f0) []
    PARTITION_ID_OFFSET (-1)) as (c3 & E3 & L3 & F3 & K3);
    [unfold in_sint; lia | done | change PARTITION_ID_OFFSET with 12; lia | done |].
  unfold Request.setPartitionId. cbn [rq_retryable Request.addFrame Request.setRetryable] in *. rewrite E3, res_bind_ok.
  destruct (append_params_ok (rf_params c) (mkRequest (Some (rf_retryable c)) [mkFrame c3 (flags f0)]) p Hp) as (fs & E4 & D4).
  rewrite E4. eexists. split; [done|]. exists (mkFrame c3 (flags f0)), fs. cbn [rq_frames rq_retryable app content flags].
  split_and!; [done | done | done | change FIELDS_OFFSET with 16; fold l; lia | | |].
  - apply (field_read decodeInt 4 c3 0). apply K3; [left; done | done].
  - by apply (field_read decodeInt 4 c3 12).
  - intros g fs' rest [Hg _ _ _] Hsim. unfold decode_request. cbv [mbind Dec_bind nextFrame]. change FIELDS_OFFSET with 16.
    rewrite (read_fields_ok _ _ _ (fview l f)).
    + by rewrite (D4 _ _ _ _ Hsim).
    + rewrite <- Hg. cbn [content]. eapply fields_at_keep; [|exact F1]. intros C rd size off' x Ho Hx.
      apply K3; [right; change PARTITION_ID_OFFSET with 12; lia|]. apply K2; [right; change MESSAGE_TYPE_OFFSET with 0; lia | done].
Qed.

(** The frames of a reply, one parameter after the other. *)
Fixpoint replies_at (l : list ReplyType) : rvals l -> frames -> Prop :=
  match l with
  | [] => fun _ fs => fs = []
  | t :: l => fun v fs => exists gs hs, fs = gs ++ hs /\ rp_frames t v.1 gs /\ replies_at l v.2 hs
  end.

Lemma read_replies_ok {B} l : forall v (k : rvals l -> Dec B) fs fs' rest, replies_at l v fs -> Forall2 similar fs fs' ->
  read_replies l k (fs' ++ rest) = k v rest.
Proof.
  induction l as [|t l IH]; intros v k fs fs' rest; cbn [replies_at read_replies rvals] in *.
  - intros -> Hs. apply Forall2_nil_inv_l in Hs as ->. by destruct v.
  - destruct v as [x v]. cbn [fst snd]. intros (gs & hs & -> & Hg & Hh) Hs.
    apply Forall2_app_inv_l in Hs as (l1 & l2 & H1 & H2 & ->).
    cbv [mbind Dec_bind]. rewrite <- app_assoc, (rp_law t x gs Hg _ _ H1). by rewrite (IH v (fun v => k (x, v)) hs).
Qed.

(** A reply of any member: its fields are at their place in the initial frame, possibly followed by fields of a newer
    version, and its parameters follow in order, possibly followed by frames of a newer version. *)
Lemma decode_reply_ok {A} off fields params (build : fvals fields -> rvals params -> A) f p c fl fs fs' rest :
  fields_at fields off c f -> replies_at params p fs -> Forall2 similar fs fs' ->
  decode_reply off fields params build (mkFrame c fl :: fs' ++ rest) = Ok (build f p, rest).
Proof.
  intros Hf Hp Hs. unfold decode_reply. cbv [mbind Dec_bind nextFrame]. rewrite (read_fields_ok _ _ _ f) by done.
  by rewrite (read_replies_ok _ _ _ _ _ _ Hp Hs).
Qed.

(** An event with the type of its handler. *)
Lemma handle_event_ok c f p content fl fs fs' rest : event_conforms c ->
  readInt32LE content MESSAGE_TYPE_OFFSET = Ok (ef_type c) ->
  fields_at (ef_fields c) FIELDS_OFFSET content f -> replies_at (ef_params c) p fs -> Forall2 similar fs fs' ->
  ef_handle c (mkFrame content fl :: fs' ++ rest) = Ok (Some (ef_build c f p), rest).
Proof.
  intros Hc Ht Hf Hp Hs. rewrite (Hc (mkFrame content fl) _ _ Ht), Z.eqb_refl. cbv [mbind Dec_bind].
  by rewrite (decode_reply_ok _ _ _ _ f p content fl fs fs' rest).
Qed.

(** An event of another type is left alone. *)
Lemma handle_other_event c content fl t s : event_conforms c ->
  readInt32LE content MESSAGE_TYPE_OFFSET = Ok t -> t <> ef_type c ->
  ef_handle c (mkFrame content fl :: s) = Ok (None, mkFrame content fl :: s).
Proof.
  intros Hc Ht Hne. rewrite (Hc (mkFrame content fl) _ _ Ht).
  by rewrite (proj2 (Z.eqb_neq _ _) Hne).
Qed.
