(* ===== verification/RequestTypes.v ===== *)
(** * Types of the parameters of requests and replies

    The fixed-size types with the codecs of [FixSized], the replies whose codec has no encoder in the client (pages of SQL
    results, partition tables), and the list of data values. *)

From S2P Require Export RequestCore SqlPageCodec.

Definition F_int : FixedType := fixed fixed_int.
Definition F_byte : FixedType := fixed fixed_byte.
Definition F_boolean : FixedType := fixed fixed_boolean.

Section LongTypes.
Context `{Uninit} {L : Type} `{LongLaws L}.

Definition F_long : FixedType := fixed (fixed_long (L := L)).
Definition F_uuid : FixedType := fixed (fixed_uuid (L := L)).

(** A 64-bit argument is a [Long] or a number; the bytes mean a number. *)
Definition long_arg_val (a : long_arg L) : Z := match a with IsLong l => long_val l | IsNumber z => z end.
Definition long_arg_valid (a : long_arg L) : Prop := match a with IsLong _ => True | IsNumber z => in_sint 64 z end.
Definition read_long_val (b : buffer) (off : Z) : res Z := l ← decodeLong (L := L) b off; Ok (long_val l).

Lemma long_arg_law b off a : long_arg_valid a -> in_bounds b off (Z.of_nat 8) = true ->
  exists b', encodeLong b off a = Ok b' /\ length b' = length b /\ field read_long_val 8 b' off (long_arg_val a) /\
    forall C (rd' : buffer -> Z -> res C) size' off' c,
      off' + Z.of_nat size' <= off \/ off + Z.of_nat 8 <= off' -> field rd' size' b off' c -> field rd' size' b' off' c.
Proof.
  intros Ha Hb. set (l := match a with IsLong l => l | IsNumber z => long_of_Z z end).
  destruct (write_field 8 _ encodeLongL decodeLong b off l fixed_long I Hb) as (b' & E & Lb & F & K).
  exists b'. split_and!; [by destruct a | done | | done]. destruct F as [Hb' R]. split; [done|]. intros b2 off2 Hb2 Es.
  unfold read_long_val. rewrite (R b2 off2 Hb2 Es), res_bind_ok. f_equal. unfold l.
  destruct a; cbn in *; [done | by apply long_val_of_Z].
Qed.

Definition F_long_arg : FixedType :=
  mkFixedType (long_arg L) Z long_arg_val long_arg_valid 8 encodeLong read_long_val long_arg_law.

Definition list_data_codec : MsgCodec true (Forall data_valid) ListDataCodec.encode ListDataCodec.decode := list_codec data_codec.

(** A page, and one that may be missing. *)
Definition reply_page : ReplyType :=
  mkReplyType (SqlPageData L) page_frames SqlPageCodec_decode page_decodes.

Definition nullable_page_frames (p : option (SqlPageData L)) (fs : frames) : Prop :=
  match p with Some p => page_frames p fs | None => fs = [NULL_FRAME] end.

Lemma nullable_page_law p fs : nullable_page_frames p fs -> decodes (CodecUtil.decodeNullable SqlPageCodec_decode) fs p.
Proof.
  destruct p as [p|]; cbn; [|intros ->; apply decodes_nullable_none]. intros Hp.
  pose proof (page_decodes p fs Hp) as D. destruct Hp as (mp & Hmp & ->). inversion Hmp; subst. by apply decodes_nullable_some.
Qed.

Definition reply_nullable_page : ReplyType :=
  mkReplyType (option (SqlPageData L)) nullable_page_frames (CodecUtil.decodeNullable SqlPageCodec_decode) nullable_page_law.

(** The partitions of the members. *)
Definition uuid_integers_frames (v : list (option (UUID L) * option (list Z))) (fs : frames) : Prop :=
  exists l, v = map (fun e => (e.1, Some e.2)) l /\ Forall (Forall (in_sint 32)) l.*2 /\
    EntryListUUIDListIntegerCodec_encode [] l = Ok fs.

Lemma uuid_integers_law v fs : uuid_integers_frames v fs -> decodes EntryListUUIDListIntegerCodec_decode fs v.
Proof.
  intros (l & -> & Hl & E).
  destruct (split_entries_ok (fun _ => True) (Forall (in_sint 32)) _ _ _ _ l list_uuid_codec list_integer_codec) as (fs' & E' & D);
    [by apply Forall_true | done |].
  unfold EntryListUUIDListIntegerCodec_encode in E. rewrite E' in E. injection E as <-. exact D.
Qed.

Definition reply_uuid_integers : ReplyType :=
  mkReplyType (list (option (UUID L) * option (list Z))) uuid_integers_frames EntryListUUIDListIntegerCodec_decode uuid_integers_law.
End LongTypes.
