(* ===== verification/MapRequests.v ===== *)
(** * Request codecs: the distributed map

    The codecs of [src/src/codec/] whose names start with Map: [encodeRequest], [decodeResponse]
    and [handle] of each, with the offsets the file computes, and the formats they implement (see [RequestCore]). *)

From S2P Require Export RequestCore RequestTypes.

Record MapEntriesWithPagingPredicateResponseParams := mkMapEntriesWithPagingPredicateResponseParams {
  MapEntriesWithPagingPredicate_response : list (HeapData * HeapData);
  MapEntriesWithPagingPredicate_anchorDataList : AnchorDataListHolder
}.

Record MapEventJournalReadResponseParams {L : Type} := mkMapEventJournalReadResponseParams {
  MapEventJournalRead_readCount : Z;
  MapEventJournalRead_items : list HeapData;
  MapEventJournalRead_itemSeqs : option (list L);
  MapEventJournalRead_nextSeq : L
}.
Arguments MapEventJournalReadResponseParams L : clear implicits.
Arguments mkMapEventJournalReadResponseParams {L}.
Arguments MapEventJournalRead_readCount {L}.
Arguments MapEventJournalRead_items {L}.
Arguments MapEventJournalRead_itemSeqs {L}.
Arguments MapEventJournalRead_nextSeq {L}.

Record MapEventJournalSubscribeResponseParams {L : Type} := mkMapEventJournalSubscribeResponseParams {
  MapEventJournalSubscribe_oldestSequence : L;
  MapEventJournalSubscribe_newestSequence : L
}.
Arguments MapEventJournalSubscribeResponseParams L : clear implicits.
Arguments mkMapEventJournalSubscribeResponseParams {L}.
Arguments MapEventJournalSubscribe_oldestSequence {L}.
Arguments MapEventJournalSubscribe_newestSequence {L}.

Record MapFetchEntriesResponseParams := mkMapFetchEntriesResponseParams {
  MapFetchEntries_iterationPointers : list (Z * Z);
  MapFetchEntries_entries : list (HeapData * HeapData)
}.

Record MapFetchKeysResponseParams := mkMapFetchKeysResponseParams {
  MapFetchKeys_iterationPointers : list (Z * Z);
  MapFetchKeys_keys : list HeapData
}.

Record MapFetchNearCacheInvalidationMetadataResponseParams {L : Type} := mkMapFetchNearCacheInvalidationMetadataResponseParams {
  MapFetchNearCacheInvalidationMetadata_namePartitionSequenceList : list (string * (list (Z * L)));
  MapFetchNearCacheInvalidationMetadata_partitionUuidList : list (Z * option (UUID L))
}.
Arguments MapFetchNearCacheInvalidationMetadataResponseParams L : clear implicits.
Arguments mkMapFetchNearCacheInvalidationMetadataResponseParams {L}.
Arguments MapFetchNearCacheInvalidationMetadata_namePartitionSequenceList {L}.
Arguments MapFetchNearCacheInvalidationMetadata_partitionUuidList {L}.

Record MapFetchWithQueryResponseParams := mkMapFetchWithQueryResponseParams {
  MapFetchWithQuery_results : list (option HeapData);
  MapFetchWithQuery_iterationPointers : list (Z * Z)
}.

Record MapGetEntryViewResponseParams {L : Type} := mkMapGetEntryViewResponseParams {
  MapGetEntryView_response : option (SimpleEntryView L);
  MapGetEntryView_maxIdle : L
}.
Arguments MapGetEntryViewResponseParams L : clear implicits.
Arguments mkMapGetEntryViewResponseParams {L}.
Arguments MapGetEntryView_response {L}.
Arguments MapGetEntryView_maxIdle {L}.

Record MapKeySetWithPagingPredicateResponseParams := mkMapKeySetWithPagingPredicateResponseParams {
  MapKeySetWithPagingPredicate_response : list HeapData;
  MapKeySetWithPagingPredicate_anchorDataList : AnchorDataListHolder
}.

Record MapValuesWithPagingPredicateResponseParams := mkMapValuesWithPagingPredicateResponseParams {
  MapValuesWithPagingPredicate_response : list HeapData;
  MapValuesWithPagingPredicate_anchorDataList : AnchorDataListHolder
}.

Section Codecs.
Context `{Uninit} {L : Type} `{LongLib L}.

(** ** MapAddEntryListenerCodec *)

Definition MapAddEntryListenerCodec_encodeRequest (name : string) (includeValue : bool) (listenerFlags : Z) (localOnly : bool) : res Request :=
  let REQUEST_MESSAGE_TYPE := 71936 in
  let REQUEST_INCLUDE_VALUE_OFFSET := PARTITION_ID_OFFSET + INT_SIZE_IN_BYTES in
  let REQUEST_LISTENER_FLAGS_OFFSET := REQUEST_INCLUDE_VALUE_OFFSET + BOOLEAN_SIZE_IN_BYTES in
  let REQUEST_LOCAL_ONLY_OFFSET := REQUEST_LISTENER_FLAGS_OFFSET + INT_SIZE_IN_BYTES in
  let REQUEST_INITIAL_FRAME_SIZE := REQUEST_LOCAL_ONLY_OFFSET + BOOLEAN_SIZE_IN_BYTES in
  let clientMessage := Request.createForEncode in
  let clientMessage := Request.setRetryable clientMessage false in
  let initialFrame := initial_frame REQUEST_INITIAL_FRAME_SIZE in
  initialFrame ← encode_at encodeBoolean initialFrame REQUEST_INCLUDE_VALUE_OFFSET includeValue;
  initialFrame ← encode_at encodeInt initialFrame REQUEST_LISTENER_FLAGS_OFFSET listenerFlags;
  initialFrame ← encode_at encodeBoolean initialFrame REQUEST_LOCAL_ONLY_OFFSET localOnly;
  let clientMessage := Request.addFrame clientMessage initialFrame in
  clientMessage ← Request.setMessageType clientMessage REQUEST_MESSAGE_TYPE;
  clientMessage ← Request.setPartitionId clientMessage (-1);
  clientMessage ← Request.append StringCodec.encode clientMessage name;
  Ok clientMessage.

Definition MapAddEntryListenerCodec_decodeResponse : Dec (option (UUID L)) :=
  let RESPONSE_RESPONSE_OFFSET := RESPONSE_BACKUP_ACKS_OFFSET + BYTE_SIZE_IN_BYTES in
  initialFrame ← nextFrame;
  response ← decode_at decodeUUID initialFrame RESPONSE_RESPONSE_OFFSET;
  mret response.

Definition MapAddEntryListenerCodec_handle {T} (handleEntryEvent : option (option HeapData -> option HeapData -> option HeapData -> option HeapData -> Z -> option (UUID L) -> Z -> T)) : Dec (option T) :=
  let EVENT_ENTRY_MESSAGE_TYPE := 71938 in
  let EVENT_ENTRY_EVENT_TYPE_OFFSET := PARTITION_ID_OFFSET + INT_SIZE_IN_BYTES in
  let EVENT_ENTRY_UUID_OFFSET := EVENT_ENTRY_EVENT_TYPE_OFFSET + INT_SIZE_IN_BYTES in
  let EVENT_ENTRY_NUMBER_OF_AFFECTED_ENTRIES_OFFSET := EVENT_ENTRY_UUID_OFFSET + UUID_SIZE_IN_BYTES in
  messageType ← getMessageType;
  on_event messageType EVENT_ENTRY_MESSAGE_TYPE handleEntryEvent (fun handleEntryEvent =>
    initialFrame ← nextFrame;
    eventType ← decode_at decodeInt initialFrame EVENT_ENTRY_EVENT_TYPE_OFFSET;
    uuid ← decode_at decodeUUID initialFrame EVENT_ENTRY_UUID_OFFSET;
    numberOfAffectedEntries ← decode_at decodeInt initialFrame EVENT_ENTRY_NUMBER_OF_AFFECTED_ENTRIES_OFFSET;
    key ← CodecUtil.decodeNullable DataCodec.decode;
    value ← CodecUtil.decodeNullable DataCodec.decode;
    oldValue ← CodecUtil.decodeNullable DataCodec.decode;
    mergingValue ← CodecUtil.decodeNullable DataCodec.decode;
    mret (handleEntryEvent key value oldValue mergingValue eventType uuid numberOfAffectedEntries))
  (mret None).

(** ** MapAddEntryListenerToKeyCodec *)

Definition MapAddEntryListenerToKeyCodec_encodeRequest (name : string) (key : HeapData) (includeValue : bool) (listenerFlags : Z) (localOnly : bool) : res Request :=
  let REQUEST_MESSAGE_TYPE := 71680 in
  let REQUEST_INCLUDE_VALUE_OFFSET := PARTITION_ID_OFFSET + INT_SIZE_IN_BYTES in
  let REQUEST_LISTENER_FLAGS_OFFSET := REQUEST_INCLUDE_VALUE_OFFSET + BOOLEAN_SIZE_IN_BYTES in
  let REQUEST_LOCAL_ONLY_OFFSET := REQUEST_LISTENER_FLAGS_OFFSET + INT_SIZE_IN_BYTES in
  let REQUEST_INITIAL_FRAME_SIZE := REQUEST_LOCAL_ONLY_OFFSET + BOOLEAN_SIZE_IN_BYTES in
  let clientMessage := Request.createForEncode in
  let clientMessage := Request.setRetryable clientMessage false in
  let initialFrame := initial_frame REQUEST_INITIAL_FRAME_SIZE in
  initialFrame ← encode_at encodeBoolean initialFrame REQUEST_INCLUDE_VALUE_OFFSET includeValue;
  initialFrame ← encode_at encodeInt initialFrame REQUEST_LISTENER_FLAGS_OFFSET listenerFlags;
  initialFrame ← encode_at encodeBoolean initialFrame REQUEST_LOCAL_ONLY_OFFSET localOnly;
  let clientMessage := Request.addFrame clientMessage initialFrame in
  clientMessage ← Request.setMessageType clientMessage REQUEST_MESSAGE_TYPE;
  clientMessage ← Request.setPartitionId clientMessage (-1);
  clientMessage ← Request.append StringCodec.encode clientMessage name;
  clientMessage ← Request.append DataCodec.encode clientMessage key;
  Ok clientMessage.

Definition MapAddEntryListenerToKeyCodec_decodeResponse : Dec (option (UUID L)) :=
  let RESPONSE_RESPONSE_OFFSET := RESPONSE_BACKUP_ACKS_OFFSET + BYTE_SIZE_IN_BYTES in
  initialFrame ← nextFrame;
  response ← decode_at decodeUUID initialFrame RESPONSE_RESPONSE_OFFSET;
  mret response.

Definition MapAddEntryListenerToKeyCodec_handle {T} (handleEntryEvent : option (option HeapData -> option HeapData -> option HeapData -> option HeapData -> Z -> option (UUID L) -> Z -> T)) : Dec (option T) :=
  let EVENT_ENTRY_MESSAGE_TYPE := 71682 in
  let EVENT_ENTRY_EVENT_TYPE_OFFSET := PARTITION_ID_OFFSET + INT_SIZE_IN_BYTES in
  let EVENT_ENTRY_UUID_OFFSET := EVENT_ENTRY_EVENT_TYPE_OFFSET + INT_SIZE_IN_BYTES in
  let EVENT_ENTRY_NUMBER_OF_AFFECTED_ENTRIES_OFFSET := EVENT_ENTRY_UUID_OFFSET + UUID_SIZE_IN_BYTES in
  messageType ← getMessageType;
  on_event messageType EVENT_ENTRY_MESSAGE_TYPE handleEntryEvent (fun handleEntryEvent =>
    initialFrame ← nextFrame;
    eventType ← decode_at decodeInt initialFrame EVENT_ENTRY_EVENT_TYPE_OFFSET;
    uuid ← decode_at decodeUUID initialFrame EVENT_ENTRY_UUID_OFFSET;
    numberOfAffectedEntries ← decode_at decodeInt initialFrame EVENT_ENTRY_NUMBER_OF_AFFECTED_ENTRIES_OFFSET;
    key ← CodecUtil.decodeNullable DataCodec.decode;
    value ← CodecUtil.decodeNullable DataCodec.decode;
    oldValue ← CodecUtil.decodeNullable DataCodec.decode;
    mergingValue ← CodecUtil.decodeNullable DataCodec.decode;
    mret (handleEntryEvent key value oldValue mergingValue eventType uuid numberOfAffectedEntries))
  (mret None).

(** ** MapAddEntryListenerToKeyWithPredicateCodec *)

Definition MapAddEntryListenerToKeyWithPredicateCodec_encodeRequest (name : string) (key : HeapData) (predicate : HeapData) (includeValue : bool) (listenerFlags : Z) (localOnly : bool) : res Request :=
  let REQUEST_MESSAGE_TYPE := 71168 in
  let REQUEST_INCLUDE_VALUE_OFFSET := PARTITION_ID_OFFSET + INT_SIZE_IN_BYTES in
  let REQUEST_LISTENER_FLAGS_OFFSET := REQUEST_INCLUDE_VALUE_OFFSET + BOOLEAN_SIZE_IN_BYTES in
  let REQUEST_LOCAL_ONLY_OFFSET := REQUEST_LISTENER_FLAGS_OFFSET + INT_SIZE_IN_BYTES in
  let REQUEST_INITIAL_FRAME_SIZE := REQUEST_LOCAL_ONLY_OFFSET + BOOLEAN_SIZE_IN_BYTES in
  let clientMessage := Request.createForEncode in
  let clientMessage := Request.setRetryable clientMessage false in
  let initialFrame := initial_frame REQUEST_INITIAL_FRAME_SIZE in
  initialFrame ← encode_at encodeBoolean initialFrame REQUEST_INCLUDE_VALUE_OFFSET includeValue;
  initialFrame ← encode_at encodeInt initialFrame REQUEST_LISTENER_FLAGS_OFFSET listenerFlags;
  initialFrame ← encode_at encodeBoolean initialFrame REQUEST_LOCAL_ONLY_OFFSET localOnly;
  let clientMessage := Request.addFrame clientMessage initialFrame in
  clientMessage ← Request.setMessageType clientMessage REQUEST_MESSAGE_TYPE;
  clientMessage ← Request.setPartitionId clientMessage (-1);
  clientMessage ← Request.append StringCodec.encode clientMessage name;
  clientMessage ← Request.append DataCodec.encode clientMessage key;
  clientMessage ← Request.append DataCodec.encode clientMessage predicate;
  Ok clientMessage.

Definition MapAddEntryListenerToKeyWithPredicateCodec_decodeResponse : Dec (option (UUID L)) :=
  let RESPONSE_RESPONSE_OFFSET := RESPONSE_BACKUP_ACKS_OFFSET + BYTE_SIZE_IN_BYTES in
  initialFrame ← nextFrame;
  response ← decode_at decodeUUID initialFrame RESPONSE_RESPONSE_OFFSET;
  mret response.

Definition MapAddEntryListenerToKeyWithPredicateCodec_handle {T} (handleEntryEvent : option (option HeapData -> option HeapData -> option HeapData -> option HeapData -> Z -> option (UUID L) -> Z -> T)) : Dec (option T) :=
  let EVENT_ENTRY_MESSAGE_TYPE := 71170 in
  let EVENT_ENTRY_EVENT_TYPE_OFFSET := PARTITION_ID_OFFSET + INT_SIZE_IN_BYTES in
  let EVENT_ENTRY_UUID_OFFSET := EVENT_ENTRY_EVENT_TYPE_OFFSET + INT_SIZE_IN_BYTES in
  let EVENT_ENTRY_NUMBER_OF_AFFECTED_ENTRIES_OFFSET := EVENT_ENTRY_UUID_OFFSET + UUID_SIZE_IN_BYTES in
  messageType ← getMessageType;
  on_event messageType EVENT_ENTRY_MESSAGE_TYPE handleEntryEvent (fun handleEntryEvent =>
    initialFrame ← nextFrame;
    eventType ← decode_at decodeInt initialFrame EVENT_ENTRY_EVENT_TYPE_OFFSET;
    uuid ← decode_at decodeUUID initialFrame EVENT_ENTRY_UUID_OFFSET;
    numberOfAffectedEntries ← decode_at decodeInt initialFrame EVENT_ENTRY_NUMBER_OF_AFFECTED_ENTRIES_OFFSET;
    key ← CodecUtil.decodeNullable DataCodec.decode;
    value ← CodecUtil.decodeNullable DataCodec.decode;
    oldValue ← CodecUtil.decodeNullable DataCodec.decode;
    mergingValue ← CodecUtil.decodeNullable DataCodec.decode;
    mret (handleEntryEvent key value oldValue mergingValue eventType uuid numberOfAffectedEntries))
  (mret None).

(** ** MapAddEntryListenerWithPredicateCodec *)

Definition MapAddEntryListenerWithPredicateCodec_encodeRequest (name : string) (predicate : HeapData) (includeValue : bool) (listenerFlags : Z) (localOnly : bool) : res Request :=
  let REQUEST_MESSAGE_TYPE := 71424 in
  let REQUEST_INCLUDE_VALUE_OFFSET := PARTITION_ID_OFFSET + INT_SIZE_IN_BYTES in
  let REQUEST_LISTENER_FLAGS_OFFSET := REQUEST_INCLUDE_VALUE_OFFSET + BOOLEAN_SIZE_IN_BYTES in
  let REQUEST_LOCAL_ONLY_OFFSET := REQUEST_LISTENER_FLAGS_OFFSET + INT_SIZE_IN_BYTES in
  let REQUEST_INITIAL_FRAME_SIZE := REQUEST_LOCAL_ONLY_OFFSET + BOOLEAN_SIZE_IN_BYTES in
  let clientMessage := Request.createForEncode in
  let clientMessage := Request.setRetryable clientMessage false in
  let initialFrame := initial_frame REQUEST_INITIAL_FRAME_SIZE in
  initialFrame ← encode_at encodeBoolean initialFrame REQUEST_INCLUDE_VALUE_OFFSET includeValue;
  initialFrame ← encode_at encodeInt initialFrame REQUEST_LISTENER_FLAGS_OFFSET listenerFlags;
  initialFrame ← encode_at encodeBoolean initialFrame REQUEST_LOCAL_ONLY_OFFSET localOnly;
  let clientMessage := Request.addFrame clientMessage initialFrame in
  clientMessage ← Request.setMessageType clientMessage REQUEST_MESSAGE_TYPE;
  clientMessage ← Request.setPartitionId clientMessage (-1);
  clientMessage ← Request.append StringCodec.encode clientMessage name;
  clientMessage ← Request.append DataCodec.encode clientMessage predicate;
  Ok clientMessage.

Definition MapAddEntryListenerWithPredicateCodec_decodeResponse : Dec (option (UUID L)) :=
  let RESPONSE_RESPONSE_OFFSET := RESPONSE_BACKUP_ACKS_OFFSET + BYTE_SIZE_IN_BYTES in
  initialFrame ← nextFrame;
  response ← decode_at decodeUUID initialFrame RESPONSE_RESPONSE_OFFSET;
  mret response.

Definition MapAddEntryListenerWithPredicateCodec_handle {T} (handleEntryEvent : option (option HeapData -> option HeapData -> option HeapData -> option HeapData -> Z -> option (UUID L) -> Z -> T)) : Dec (option T) :=
  let EVENT_ENTRY_MESSAGE_TYPE := 71426 in
  let EVENT_ENTRY_EVENT_TYPE_OFFSET := PARTITION_ID_OFFSET + INT_SIZE_IN_BYTES in
  let EVENT_ENTRY_UUID_OFFSET := EVENT_ENTRY_EVENT_TYPE_OFFSET + INT_SIZE_IN_BYTES in
  let EVENT_ENTRY_NUMBER_OF_AFFECTED_ENTRIES_OFFSET := EVENT_ENTRY_UUID_OFFSET + UUID_SIZE_IN_BYTES in
  messageType ← getMessageType;
  on_event messageType EVENT_ENTRY_MESSAGE_TYPE handleEntryEvent (fun handleEntryEvent =>
    initialFrame ← nextFrame;
    eventType ← decode_at decodeInt initialFrame EVENT_ENTRY_EVENT_TYPE_OFFSET;
    uuid ← decode_at decodeUUID initialFrame EVENT_ENTRY_UUID_OFFSET;
    numberOfAffectedEntries ← decode_at decodeInt initialFrame EVENT_ENTRY_NUMBER_OF_AFFECTED_ENTRIES_OFFSET;
    key ← CodecUtil.decodeNullable DataCodec.decode;
    value ← CodecUtil.decodeNullable DataCodec.decode;
    oldValue ← CodecUtil.decodeNullable DataCodec.decode;
    mergingValue ← CodecUtil.decodeNullable DataCodec.decode;
    mret (handleEntryEvent key value oldValue mergingValue eventType uuid numberOfAffectedEntries))
  (mret None).

(** ** MapAddIndexCodec *)

Definition MapAddIndexCodec_encodeRequest (name : string) (indexConfig : IndexConfig) : res Request :=
  let REQUEST_MESSAGE_TYPE := 76032 in
  let REQUEST_INITIAL_FRAME_SIZE := PARTITION_ID_OFFSET + INT_SIZE_IN_BYTES in
  let clientMessage := Request.createForEncode in
  let clientMessage := Request.setRetryable clientMessage false in
  let initialFrame := initial_frame REQUEST_INITIAL_FRAME_SIZE in
  let clientMessage := Request.addFrame clientMessage initialFrame in
  clientMessage ← Request.setMessageType clientMessage REQUEST_MESSAGE_TYPE;
  clientMessage ← Request.setPartitionId clientMessage (-1);
  clientMessage ← Request.append StringCodec.encode clientMessage name;
  clientMessage ← Request.append IndexConfigCodec_encode clientMessage indexConfig;
  Ok clientMessage.

(** ** MapAddInterceptorCodec *)

Definition MapAddInterceptorCodec_encodeRequest (name : string) (interceptor : HeapData) : res Request :=
  let REQUEST_MESSAGE_TYPE := 70656 in
  let REQUEST_INITIAL_FRAME_SIZE := PARTITION_ID_OFFSET + INT_SIZE_IN_BYTES in
  let clientMessage := Request.createForEncode in
  let clientMessage := Request.setRetryable clientMessage false in
  let initialFrame := initial_frame REQUEST_INITIAL_FRAME_SIZE in
  let clientMessage := Request.addFrame clientMessage initialFrame in
  clientMessage ← Request.setMessageType clientMessage REQUEST_MESSAGE_TYPE;
  clientMessage ← Request.setPartitionId clientMessage (-1);
  clientMessage ← Request.append StringCodec.encode clientMessage name;
  clientMessage ← Request.append DataCodec.encode clientMessage interceptor;
  Ok clientMessage.

Definition MapAddInterceptorCodec_decodeResponse : Dec string :=
  _ ← skipFrame;
  response ← StringCodec.decode;
  mret response.

(** ** MapAddNearCacheInvalidationListenerCodec *)

Definition MapAddNearCacheInvalidationListenerCodec_encodeRequest (name : string) (listenerFlags : Z) (localOnly : bool) : res Request :=
  let REQUEST_MESSAGE_TYPE := 81664 in
  let REQUEST_LISTENER_FLAGS_OFFSET := PARTITION_ID_OFFSET + INT_SIZE_IN_BYTES in
  let REQUEST_LOCAL_ONLY_OFFSET := REQUEST_LISTENER_FLAGS_OFFSET + INT_SIZE_IN_BYTES in
  let REQUEST_INITIAL_FRAME_SIZE := REQUEST_LOCAL_ONLY_OFFSET + BOOLEAN_SIZE_IN_BYTES in
  let clientMessage := Request.createForEncode in
  let clientMessage := Request.setRetryable clientMessage false in
  let initialFrame := initial_frame REQUEST_INITIAL_FRAME_SIZE in
  initialFrame ← encode_at encodeInt initialFrame REQUEST_LISTENER_FLAGS_OFFSET listenerFlags;
  initialFrame ← encode_at encodeBoolean initialFrame REQUEST_LOCAL_ONLY_OFFSET localOnly;
  let clientMessage := Request.addFrame clientMessage initialFrame in
  clientMessage ← Request.setMessageType clientMessage REQUEST_MESSAGE_TYPE;
  clientMessage ← Request.setPartitionId clientMessage (-1);
  clientMessage ← Request.append StringCodec.encode clientMessage name;
  Ok clientMessage.

Definition MapAddNearCacheInvalidationListenerCodec_decodeResponse : Dec (option (UUID L)) :=
  let RESPONSE_RESPONSE_OFFSET := RESPONSE_BACKUP_ACKS_OFFSET + BYTE_SIZE_IN_BYTES in
  initialFrame ← nextFrame;
  response ← decode_at decodeUUID initialFrame RESPONSE_RESPONSE_OFFSET;
  mret response.

Definition MapAddNearCacheInvalidationListenerCodec_handle {T} (handleIMapInvalidationEvent : option (option HeapData -> option (UUID L) -> option (UUID L) -> L -> T)) (handleIMapBatchInvalidationEvent : option (list HeapData -> list (option (UUID L)) -> list (option (UUID L)) -> list L -> T)) : Dec (option T) :=
  let EVENT_I_MAP_INVALIDATION_MESSAGE_TYPE := 81666 in
  let EVENT_I_MAP_BATCH_INVALIDATION_MESSAGE_TYPE := 81667 in
  let EVENT_I_MAP_INVALIDATION_SOURCE_UUID_OFFSET := PARTITION_ID_OFFSET + INT_SIZE_IN_BYTES in
  let EVENT_I_MAP_INVALIDATION_PARTITION_UUID_OFFSET := EVENT_I_MAP_INVALIDATION_SOURCE_UUID_OFFSET + UUID_SIZE_IN_BYTES in
  let EVENT_I_MAP_INVALIDATION_SEQUENCE_OFFSET := EVENT_I_MAP_INVALIDATION_PARTITION_UUID_OFFSET + UUID_SIZE_IN_BYTES in
  messageType ← getMessageType;
  on_event messageType EVENT_I_MAP_INVALIDATION_MESSAGE_TYPE handleIMapInvalidationEvent (fun handleIMapInvalidationEvent =>
    initialFrame ← nextFrame;
    sourceUuid ← decode_at decodeUUID initialFrame EVENT_I_MAP_INVALIDATION_SOURCE_UUID_OFFSET;
    partitionUuid ← decode_at decodeUUID initialFrame EVENT_I_MAP_INVALIDATION_PARTITION_UUID_OFFSET;
    sequence ← decode_at decodeLong initialFrame EVENT_I_MAP_INVALIDATION_SEQUENCE_OFFSET;
    key ← CodecUtil.decodeNullable DataCodec.decode;
    mret (handleIMapInvalidationEvent key sourceUuid partitionUuid sequence))
  (on_event messageType EVENT_I_MAP_BATCH_INVALIDATION_MESSAGE_TYPE handleIMapBatchInvalidationEvent (fun handleIMapBatchInvalidationEvent =>
    _ ← skipFrame;
    keys ← ListMultiFrameCodec.decode DataCodec.decode;
    sourceUuids ← ListUUIDCodec_decode;
    partitionUuids ← ListUUIDCodec_decode;
    sequences ← ListLongCodec_decode;
    mret (handleIMapBatchInvalidationEvent keys sourceUuids partitionUuids sequences))
  (mret None)).

(** ** MapAddPartitionLostListenerCodec *)

Definition MapAddPartitionLostListenerCodec_encodeRequest (name : string) (localOnly : bool) : res Request :=
  let REQUEST_MESSAGE_TYPE := 72448 in
  let REQUEST_LOCAL_ONLY_OFFSET := PARTITION_ID_OFFSET + INT_SIZE_IN_BYTES in
  let REQUEST_INITIAL_FRAME_SIZE := REQUEST_LOCAL_ONLY_OFFSET + BOOLEAN_SIZE_IN_BYTES in
  let clientMessage := Request.createForEncode in
  let clientMessage := Request.setRetryable clientMessage false in
  let initialFrame := initial_frame REQUEST_INITIAL_FRAME_SIZE in
  initialFrame ← encode_at encodeBoolean initialFrame REQUEST_LOCAL_ONLY_OFFSET localOnly;
  let clientMessage := Request.addFrame clientMessage initialFrame in
  clientMessage ← Request.setMessageType clientMessage REQUEST_MESSAGE_TYPE;
  clientMessage ← Request.setPartitionId clientMessage (-1);
  clientMessage ← Request.append StringCodec.encode clientMessage name;
  Ok clientMessage.

Definition MapAddPartitionLostListenerCodec_decodeResponse : Dec (option (UUID L)) :=
  let RESPONSE_RESPONSE_OFFSET := RESPONSE_BACKUP_ACKS_OFFSET + BYTE_SIZE_IN_BYTES in
  initialFrame ← nextFrame;
  response ← decode_at decodeUUID initialFrame RESPONSE_RESPONSE_OFFSET;
  mret response.

Definition MapAddPartitionLostListenerCodec_handle {T} (handleMapPartitionLostEvent : option (Z -> option (UUID L) -> T)) : Dec (option T) :=
  let EVENT_MAP_PARTITION_LOST_MESSAGE_TYPE := 72450 in
  let EVENT_MAP_PARTITION_LOST_PARTITION_ID_OFFSET := PARTITION_ID_OFFSET + INT_SIZE_IN_BYTES in
  let EVENT_MAP_PARTITION_LOST_UUID_OFFSET := EVENT_MAP_PARTITION_LOST_PARTITION_ID_OFFSET + INT_SIZE_IN_BYTES in
  messageType ← getMessageType;
  on_event messageType EVENT_MAP_PARTITION_LOST_MESSAGE_TYPE handleMapPartitionLostEvent (fun handleMapPartitionLostEvent =>
    initialFrame ← nextFrame;
    partitionId ← decode_at decodeInt initialFrame EVENT_MAP_PARTITION_LOST_PARTITION_ID_OFFSET;
    uuid ← decode_at decodeUUID initialFrame EVENT_MAP_PARTITION_LOST_UUID_OFFSET;
    mret (handleMapPartitionLostEvent partitionId uuid))
  (mret None).

(** ** MapAggregateCodec *)

Definition MapAggregateCodec_encodeRequest (name : string) (aggregator : HeapData) : res Request :=
  let REQUEST_MESSAGE_TYPE := 80128 in
  let REQUEST_INITIAL_FRAME_SIZE := PARTITION_ID_OFFSET + INT_SIZE_IN_BYTES in
  let clientMessage := Request.createForEncode in
  let clientMessage := Request.setRetryable clientMessage true in
  let initialFrame := initial_frame REQUEST_INITIAL_FRAME_SIZE in
  let clientMessage := Request.addFrame clientMessage initialFrame in
  clientMessage ← Request.setMessageType clientMessage REQUEST_MESSAGE_TYPE;
  clientMessage ← Request.setPartitionId clientMessage (-1);
  clientMessage ← Request.append StringCodec.encode clientMessage name;
  clientMessage ← Request.append DataCodec.encode clientMessage aggregator;
  Ok clientMessage.

Definition MapAggregateCodec_decodeResponse : Dec (option HeapData) :=
  _ ← skipFrame;
  response ← CodecUtil.decodeNullable DataCodec.decode;
  mret response.

(** ** MapAggregateWithPredicateCodec *)

Definition MapAggregateWithPredicateCodec_encodeRequest (name : string) (aggregator : HeapData) (predicate : HeapData) : res Request :=
  let REQUEST_MESSAGE_TYPE := 80384 in
  let REQUEST_INITIAL_FRAME_SIZE := PARTITION_ID_OFFSET + INT_SIZE_IN_BYTES in
  let clientMessage := Request.createForEncode in
  let clientMessage := Request.setRetryable clientMessage true in
  let initialFrame := initial_frame REQUEST_INITIAL_FRAME_SIZE in
  let clientMessage := Request.addFrame clientMessage initialFrame in
  clientMessage ← Request.setMessageType clientMessage REQUEST_MESSAGE_TYPE;
  clientMessage ← Request.setPartitionId clientMessage (-1);
  clientMessage ← Request.append StringCodec.encode clientMessage name;
  clientMessage ← Request.append DataCodec.encode clientMessage aggregator;
  clientMessage ← Request.append DataCodec.encode clientMessage predicate;
  Ok clientMessage.

Definition MapAggregateWithPredicateCodec_decodeResponse : Dec (option HeapData) :=
  _ ← skipFrame;
  response ← CodecUtil.decodeNullable DataCodec.decode;
  mret response.

(** ** MapClearCodec *)

Definition MapClearCodec_encodeRequest (name : string) : res Request :=
  let REQUEST_MESSAGE_TYPE := 77056 in
  let REQUEST_INITIAL_FRAME_SIZE := PARTITION_ID_OFFSET + INT_SIZE_IN_BYTES in
  let clientMessage := Request.createForEncode in
  let clientMessage := Request.setRetryable clientMessage false in
  let initialFrame := initial_frame REQUEST_INITIAL_FRAME_SIZE in
  let clientMessage := Request.addFrame clientMessage initialFrame in
  clientMessage ← Request.setMessageType clientMessage REQUEST_MESSAGE_TYPE;
  clientMessage ← Request.setPartitionId clientMessage (-1);
  clientMessage ← Request.append StringCodec.encode clientMessage name;
  Ok clientMessage.

(** ** MapContainsKeyCodec *)

Definition MapContainsKeyCodec_encodeRequest (name : string) (key : HeapData) (threadId : long_arg L) : res Request :=
  let REQUEST_MESSAGE_TYPE := 67072 in
  let REQUEST_THREAD_ID_OFFSET := PARTITION_ID_OFFSET + INT_SIZE_IN_BYTES in
  let REQUEST_INITIAL_FRAME_SIZE := REQUEST_THREAD_ID_OFFSET + LONG_SIZE_IN_BYTES in
  let clientMessage := Request.createForEncode in
  let clientMessage := Request.setRetryable clientMessage true in
  let initialFrame := initial_frame REQUEST_INITIAL_FRAME_SIZE in
  initialFrame ← encode_at encodeLong initialFrame REQUEST_THREAD_ID_OFFSET threadId;
  let clientMessage := Request.addFrame clientMessage initialFrame in
  clientMessage ← Request.setMessageType clientMessage REQUEST_MESSAGE_TYPE;
  clientMessage ← Request.setPartitionId clientMessage (-1);
  clientMessage ← Request.append StringCodec.encode clientMessage name;
  clientMessage ← Request.append DataCodec.encode clientMessage key;
  Ok clientMessage.

Definition MapContainsKeyCodec_decodeResponse : Dec bool :=
  let RESPONSE_RESPONSE_OFFSET := RESPONSE_BACKUP_ACKS_OFFSET + BYTE_SIZE_IN_BYTES in
  initialFrame ← nextFrame;
  response ← decode_at decodeBoolean initialFrame RESPONSE_RESPONSE_OFFSET;
  mret response.

(** ** MapContainsValueCodec *)

Definition MapContainsValueCodec_encodeRequest (name : string) (value : HeapData) : res Request :=
  let REQUEST_MESSAGE_TYPE := 67328 in
  let REQUEST_INITIAL_FRAME_SIZE := PARTITION_ID_OFFSET + INT_SIZE_IN_BYTES in
  let clientMessage := Request.createForEncode in
  let clientMessage := Request.setRetryable clientMessage true in
  let initialFrame := initial_frame REQUEST_INITIAL_FRAME_SIZE in
  let clientMessage := Request.addFrame clientMessage initialFrame in
  clientMessage ← Request.setMessageType clientMessage REQUEST_MESSAGE_TYPE;
  clientMessage ← Request.setPartitionId clientMessage (-1);
  clientMessage ← Request.append StringCodec.encode clientMessage name;
  clientMessage ← Request.append DataCodec.encode clientMessage value;
  Ok clientMessage.

Definition MapContainsValueCodec_decodeResponse : Dec bool :=
  let RESPONSE_RESPONSE_OFFSET := RESPONSE_BACKUP_ACKS_OFFSET + BYTE_SIZE_IN_BYTES in
  initialFrame ← nextFrame;
  response ← decode_at decodeBoolean initialFrame RESPONSE_RESPONSE_OFFSET;
  mret response.

(** ** MapDeleteCodec *)

Definition MapDeleteCodec_encodeRequest (name : string) (key : HeapData) (threadId : long_arg L) : res Request :=
  let REQUEST_MESSAGE_TYPE := 67840 in
  let REQUEST_THREAD_ID_OFFSET := PARTITION_ID_OFFSET + INT_SIZE_IN_BYTES in
  let REQUEST_INITIAL_FRAME_SIZE := REQUEST_THREAD_ID_OFFSET + LONG_SIZE_IN_BYTES in
  let clientMessage := Request.createForEncode in
  let clientMessage := Request.setRetryable clientMessage false in
  let initialFrame := initial_frame REQUEST_INITIAL_FRAME_SIZE in
  initialFrame ← encode_at encodeLong initialFrame REQUEST_THREAD_ID_OFFSET threadId;
  let clientMessage := Request.addFrame clientMessage initialFrame in
  clientMessage ← Request.setMessageType clientMessage REQUEST_MESSAGE_TYPE;
  clientMessage ← Request.setPartitionId clientMessage (-1);
  clientMessage ← Request.append StringCodec.encode clientMessage name;
  clientMessage ← Request.append DataCodec.encode clientMessage key;
  Ok clientMessage.

(** ** MapEntriesWithPagingPredicateCodec *)

Definition MapEntriesWithPagingPredicateCodec_encodeRequest (name : string) (predicate : PagingPredicateHolder) : res Request :=
  let REQUEST_MESSAGE_TYPE := 79360 in
  let REQUEST_INITIAL_FRAME_SIZE := PARTITION_ID_OFFSET + INT_SIZE_IN_BYTES in
  let clientMessage := Request.createForEncode in
  let clientMessage := Request.setRetryable clientMessage true in
  let initialFrame := initial_frame REQUEST_INITIAL_FRAME_SIZE in
  let clientMessage := Request.addFrame clientMessage initialFrame in
  clientMessage ← Request.setMessageType clientMessage REQUEST_MESSAGE_TYPE;
  clientMessage ← Request.setPartitionId clientMessage (-1);
  clientMessage ← Request.append StringCodec.encode clientMessage name;
  clientMessage ← Request.append PagingPredicateHolderCodec_encode clientMessage predicate;
  Ok clientMessage.

Definition MapEntriesWithPagingPredicateCodec_decodeResponse : Dec MapEntriesWithPagingPredicateResponseParams :=
  _ ← skipFrame;
  response ← EntryListCodec.decode DataCodec.decode DataCodec.decode;
  anchorDataList ← AnchorDataListHolderCodec_decode;
  mret (mkMapEntriesWithPagingPredicateResponseParams response anchorDataList).

(** ** MapEntriesWithPredicateCodec *)

Definition MapEntriesWithPredicateCodec_encodeRequest (name : string) (predicate : HeapData) : res Request :=
  let REQUEST_MESSAGE_TYPE := 75776 in
  let REQUEST_INITIAL_FRAME_SIZE := PARTITION_ID_OFFSET + INT_SIZE_IN_BYTES in
  let clientMessage := Request.createForEncode in
  let clientMessage := Request.setRetryable clientMessage true in
  let initialFrame := initial_frame REQUEST_INITIAL_FRAME_SIZE in
  let clientMessage := Request.addFrame clientMessage initialFrame in
  clientMessage ← Request.setMessageType clientMessage REQUEST_MESSAGE_TYPE;
  clientMessage ← Request.setPartitionId clientMessage (-1);
  clientMessage ← Request.append StringCodec.encode clientMessage name;
  clientMessage ← Request.append DataCodec.encode clientMessage predicate;
  Ok clientMessage.

Definition MapEntriesWithPredicateCodec_decodeResponse : Dec (list (HeapData * HeapData)) :=
  _ ← skipFrame;
  response ← EntryListCodec.decode DataCodec.decode DataCodec.decode;
  mret response.

(** ** MapEntrySetCodec *)

Definition MapEntrySetCodec_encodeRequest (name : string) : res Request :=
  let REQUEST_MESSAGE_TYPE := 75008 in
  let REQUEST_INITIAL_FRAME_SIZE := PARTITION_ID_OFFSET + INT_SIZE_IN_BYTES in
  let clientMessage := Request.createForEncode in
  let clientMessage := Request.setRetryable clientMessage true in
  let initialFrame := initial_frame REQUEST_INITIAL_FRAME_SIZE in
  let clientMessage := Request.addFrame clientMessage initialFrame in
  clientMessage ← Request.setMessageType clientMessage REQUEST_MESSAGE_TYPE;
  clientMessage ← Request.setPartitionId clientMessage (-1);
  clientMessage ← Request.append StringCodec.encode clientMessage name;
  Ok clientMessage.

Definition MapEntrySetCodec_decodeResponse : Dec (list (HeapData * HeapData)) :=
  _ ← skipFrame;
  response ← EntryListCodec.decode DataCodec.decode DataCodec.decode;
  mret response.

(** ** MapEventJournalReadCodec *)

Definition MapEventJournalReadCodec_encodeRequest (name : string) (startSequence : long_arg L) (minSize : Z) (maxSize : Z) (predicate : option HeapData) (projection : option HeapData) : res Request :=
  let REQUEST_MESSAGE_TYPE := 82432 in
  let REQUEST_START_SEQUENCE_OFFSET := PARTITION_ID_OFFSET + INT_SIZE_IN_BYTES in
  let REQUEST_MIN_SIZE_OFFSET := REQUEST_START_SEQUENCE_OFFSET + LONG_SIZE_IN_BYTES in
  let REQUEST_MAX_SIZE_OFFSET := REQUEST_MIN_SIZE_OFFSET + INT_SIZE_IN_BYTES in
  let REQUEST_INITIAL_FRAME_SIZE := REQUEST_MAX_SIZE_OFFSET + INT_SIZE_IN_BYTES in
  let clientMessage := Request.createForEncode in
  let clientMessage := Request.setRetryable clientMessage true in
  let initialFrame := initial_frame REQUEST_INITIAL_FRAME_SIZE in
  initialFrame ← encode_at encodeLong initialFrame REQUEST_START_SEQUENCE_OFFSET startSequence;
  initialFrame ← encode_at encodeInt initialFrame REQUEST_MIN_SIZE_OFFSET minSize;
  initialFrame ← encode_at encodeInt initialFrame REQUEST_MAX_SIZE_OFFSET maxSize;
  let clientMessage := Request.addFrame clientMessage initialFrame in
  clientMessage ← Request.setMessageType clientMessage REQUEST_MESSAGE_TYPE;
  clientMessage ← Request.setPartitionId clientMessage (-1);
  clientMessage ← Request.append StringCodec.encode clientMessage name;
  clientMessage ← Request.append (CodecUtil.encodeNullable DataCodec.encode) clientMessage predicate;
  clientMessage ← Request.append (CodecUtil.encodeNullable DataCodec.encode) clientMessage projection;
  Ok clientMessage.

Definition MapEventJournalReadCodec_decodeResponse : Dec (MapEventJournalReadResponseParams L) :=
  let RESPONSE_READ_COUNT_OFFSET := RESPONSE_BACKUP_ACKS_OFFSET + BYTE_SIZE_IN_BYTES in
  let RESPONSE_NEXT_SEQ_OFFSET := RESPONSE_READ_COUNT_OFFSET + INT_SIZE_IN_BYTES in
  initialFrame ← nextFrame;
  readCount ← decode_at decodeInt initialFrame RESPONSE_READ_COUNT_OFFSET;
  nextSeq ← decode_at decodeLong initialFrame RESPONSE_NEXT_SEQ_OFFSET;
  items ← ListMultiFrameCodec.decode DataCodec.decode;
  itemSeqs ← CodecUtil.decodeNullable LongArrayCodec_decode;
  mret (mkMapEventJournalReadResponseParams readCount items itemSeqs nextSeq).

(** ** MapEventJournalSubscribeCodec *)

Definition MapEventJournalSubscribeCodec_encodeRequest (name : string) : res Request :=
  let REQUEST_MESSAGE_TYPE := 82176 in
  let REQUEST_INITIAL_FRAME_SIZE := PARTITION_ID_OFFSET + INT_SIZE_IN_BYTES in
  let clientMessage := Request.createForEncode in
  let clientMessage := Request.setRetryable clientMessage true in
  let initialFrame := initial_frame REQUEST_INITIAL_FRAME_SIZE in
  let clientMessage := Request.addFrame clientMessage initialFrame in
  clientMessage ← Request.setMessageType clientMessage REQUEST_MESSAGE_TYPE;
  clientMessage ← Request.setPartitionId clientMessage (-1);
  clientMessage ← Request.append StringCodec.encode clientMessage name;
  Ok clientMessage.

Definition MapEventJournalSubscribeCodec_decodeResponse : Dec (MapEventJournalSubscribeResponseParams L) :=
  let RESPONSE_OLDEST_SEQUENCE_OFFSET := RESPONSE_BACKUP_ACKS_OFFSET + BYTE_SIZE_IN_BYTES in
  let RESPONSE_NEWEST_SEQUENCE_OFFSET := RESPONSE_OLDEST_SEQUENCE_OFFSET + LONG_SIZE_IN_BYTES in
  initialFrame ← nextFrame;
  oldestSequence ← decode_at decodeLong initialFrame RESPONSE_OLDEST_SEQUENCE_OFFSET;
  newestSequence ← decode_at decodeLong initialFrame RESPONSE_NEWEST_SEQUENCE_OFFSET;
  mret (mkMapEventJournalSubscribeResponseParams oldestSequence newestSequence).

(** ** MapEvictAllCodec *)

Definition MapEvictAllCodec_encodeRequest (name : string) : res Request :=
  let REQUEST_MESSAGE_TYPE := 73472 in
  let REQUEST_INITIAL_FRAME_SIZE := PARTITION_ID_OFFSET + INT_SIZE_IN_BYTES in
  let clientMessage := Request.createForEncode in
  let clientMessage := Request.setRetryable clientMessage false in
  let initialFrame := initial_frame REQUEST_INITIAL_FRAME_SIZE in
  let clientMessage := Request.addFrame clientMessage initialFrame in
  clientMessage ← Request.setMessageType clientMessage REQUEST_MESSAGE_TYPE;
  clientMessage ← Request.setPartitionId clientMessage (-1);
  clientMessage ← Request.append StringCodec.encode clientMessage name;
  Ok clientMessage.

(** ** MapEvictCodec *)

Definition MapEvictCodec_encodeRequest (name : string) (key : HeapData) (threadId : long_arg L) : res Request :=
  let REQUEST_MESSAGE_TYPE := 73216 in
  let REQUEST_THREAD_ID_OFFSET := PARTITION_ID_OFFSET + INT_SIZE_IN_BYTES in
  let REQUEST_INITIAL_FRAME_SIZE := REQUEST_THREAD_ID_OFFSET + LONG_SIZE_IN_BYTES in
  let clientMessage := Request.createForEncode in
  let clientMessage := Request.setRetryable clientMessage false in
  let initialFrame := initial_frame REQUEST_INITIAL_FRAME_SIZE in
  initialFrame ← encode_at encodeLong initialFrame REQUEST_THREAD_ID_OFFSET threadId;
  let clientMessage := Request.addFrame clientMessage initialFrame in
  clientMessage ← Request.setMessageType clientMessage REQUEST_MESSAGE_TYPE;
  clientMessage ← Request.setPartitionId clientMessage (-1);
  clientMessage ← Request.append StringCodec.encode clientMessage name;
  clientMessage ← Request.append DataCodec.encode clientMessage key;
  Ok clientMessage.

Definition MapEvictCodec_decodeResponse : Dec bool :=
  let RESPONSE_RESPONSE_OFFSET := RESPONSE_BACKUP_ACKS_OFFSET + BYTE_SIZE_IN_BYTES in
  initialFrame ← nextFrame;
  response ← decode_at decodeBoolean initialFrame RESPONSE_RESPONSE_OFFSET;
  mret response.

(** ** MapExecuteOnAllKeysCodec *)

Definition MapExecuteOnAllKeysCodec_encodeRequest (name : string) (entryProcessor : HeapData) : res Request :=
  let REQUEST_MESSAGE_TYPE := 77824 in
  let REQUEST_INITIAL_FRAME_SIZE := PARTITION_ID_OFFSET + INT_SIZE_IN_BYTES in
  let clientMessage := Request.createForEncode in
  let clientMessage := Request.setRetryable clientMessage false in
  let initialFrame := initial_frame REQUEST_INITIAL_FRAME_SIZE in
  let clientMessage := Request.addFrame clientMessage initialFrame in
  clientMessage ← Request.setMessageType clientMessage REQUEST_MESSAGE_TYPE;
  clientMessage ← Request.setPartitionId clientMessage (-1);
  clientMessage ← Request.append StringCodec.encode clientMessage name;
  clientMessage ← Request.append DataCodec.encode clientMessage entryProcessor;
  Ok clientMessage.

Definition MapExecuteOnAllKeysCodec_decodeResponse : Dec (list (HeapData * HeapData)) :=
  _ ← skipFrame;
  response ← EntryListCodec.decode DataCodec.decode DataCodec.decode;
  mret response.

(** ** MapExecuteOnKeyCodec *)

Definition MapExecuteOnKeyCodec_encodeRequest (name : string) (entryProcessor : HeapData) (key : HeapData) (threadId : long_arg L) : res Request :=
  let REQUEST_MESSAGE_TYPE := 77312 in
  let REQUEST_THREAD_ID_OFFSET := PARTITION_ID_OFFSET + INT_SIZE_IN_BYTES in
  let REQUEST_INITIAL_FRAME_SIZE := REQUEST_THREAD_ID_OFFSET + LONG_SIZE_IN_BYTES in
  let clientMessage := Request.createForEncode in
  let clientMessage := Request.setRetryable clientMessage false in
  let initialFrame := initial_frame REQUEST_INITIAL_FRAME_SIZE in
  initialFrame ← encode_at encodeLong initialFrame REQUEST_THREAD_ID_OFFSET threadId;
  let clientMessage := Request.addFrame clientMessage initialFrame in
  clientMessage ← Request.setMessageType clientMessage REQUEST_MESSAGE_TYPE;
  clientMessage ← Request.setPartitionId clientMessage (-1);
  clientMessage ← Request.append StringCodec.encode clientMessage name;
  clientMessage ← Request.append DataCodec.encode clientMessage entryProcessor;
  clientMessage ← Request.append DataCodec.encode clientMessage key;
  Ok clientMessage.

Definition MapExecuteOnKeyCodec_decodeResponse : Dec (option HeapData) :=
  _ ← skipFrame;
  response ← CodecUtil.decodeNullable DataCodec.decode;
  mret response.

(** ** MapExecuteOnKeysCodec *)

Definition MapExecuteOnKeysCodec_encodeRequest (name : string) (entryProcessor : HeapData) (keys : list HeapData) : res Request :=
  let REQUEST_MESSAGE_TYPE := 78336 in
  let REQUEST_INITIAL_FRAME_SIZE := PARTITION_ID_OFFSET + INT_SIZE_IN_BYTES in
  let clientMessage := Request.createForEncode in
  let clientMessage := Request.setRetryable clientMessage false in
  let initialFrame := initial_frame REQUEST_INITIAL_FRAME_SIZE in
  let clientMessage := Request.addFrame clientMessage initialFrame in
  clientMessage ← Request.setMessageType clientMessage REQUEST_MESSAGE_TYPE;
  clientMessage ← Request.setPartitionId clientMessage (-1);
  clientMessage ← Request.append StringCodec.encode clientMessage name;
  clientMessage ← Request.append DataCodec.encode clientMessage entryProcessor;
  clientMessage ← Request.append (ListMultiFrameCodec.encode DataCodec.encode) clientMessage keys;
  Ok clientMessage.

Definition MapExecuteOnKeysCodec_decodeResponse : Dec (list (HeapData * HeapData)) :=
  _ ← skipFrame;
  response ← EntryListCodec.decode DataCodec.decode DataCodec.decode;
  mret response.

(** ** MapExecuteWithPredicateCodec *)

Definition MapExecuteWithPredicateCodec_encodeRequest (name : string) (entryProcessor : HeapData) (predicate : HeapData) : res Request :=
  let REQUEST_MESSAGE_TYPE := 78080 in
  let REQUEST_INITIAL_FRAME_SIZE := PARTITION_ID_OFFSET + INT_SIZE_IN_BYTES in
  let clientMessage := Request.createForEncode in
  let clientMessage := Request.setRetryable clientMessage false in
  let initialFrame := initial_frame REQUEST_INITIAL_FRAME_SIZE in
  let clientMessage := Request.addFrame clientMessage initialFrame in
  clientMessage ← Request.setMessageType clientMessage REQUEST_MESSAGE_TYPE;
  clientMessage ← Request.setPartitionId clientMessage (-1);
  clientMessage ← Request.append StringCodec.encode clientMessage name;
  clientMessage ← Request.append DataCodec.encode clientMessage entryProcessor;
  clientMessage ← Request.append DataCodec.encode clientMessage predicate;
  Ok clientMessage.

Definition MapExecuteWithPredicateCodec_decodeResponse : Dec (list (HeapData * HeapData)) :=
  _ ← skipFrame;
  response ← EntryListCodec.decode DataCodec.decode DataCodec.decode;
  mret response.

(** ** MapFetchEntriesCodec *)

Definition MapFetchEntriesCodec_encodeRequest (name : string) (iterationPointers : list (Z * Z)) (batch : Z) : res Request :=
  let REQUEST_MESSAGE_TYPE := 79872 in
  let REQUEST_BATCH_OFFSET := PARTITION_ID_OFFSET + INT_SIZE_IN_BYTES in
  let REQUEST_INITIAL_FRAME_SIZE := REQUEST_BATCH_OFFSET + INT_SIZE_IN_BYTES in
  let clientMessage := Request.createForEncode in
  let clientMessage := Request.setRetryable clientMessage true in
  let initialFrame := initial_frame REQUEST_INITIAL_FRAME_SIZE in
  initialFrame ← encode_at encodeInt initialFrame REQUEST_BATCH_OFFSET batch;
  let clientMessage := Request.addFrame clientMessage initialFrame in
  clientMessage ← Request.setMessageType clientMessage REQUEST_MESSAGE_TYPE;
  clientMessage ← Request.setPartitionId clientMessage (-1);
  clientMessage ← Request.append StringCodec.encode clientMessage name;
  clientMessage ← Request.append EntryListIntegerIntegerCodec_encode clientMessage iterationPointers;
  Ok clientMessage.

Definition MapFetchEntriesCodec_decodeResponse : Dec MapFetchEntriesResponseParams :=
  _ ← skipFrame;
  iterationPointers ← EntryListIntegerIntegerCodec_decode;
  entries ← EntryListCodec.decode DataCodec.decode DataCodec.decode;
  mret (mkMapFetchEntriesResponseParams iterationPointers entries).

(** ** MapFetchKeysCodec *)

Definition MapFetchKeysCodec_encodeRequest (name : string) (iterationPointers : list (Z * Z)) (batch : Z) : res Request :=
  let REQUEST_MESSAGE_TYPE := 79616 in
  let REQUEST_BATCH_OFFSET := PARTITION_ID_OFFSET + INT_SIZE_IN_BYTES in
  let REQUEST_INITIAL_FRAME_SIZE := REQUEST_BATCH_OFFSET + INT_SIZE_IN_BYTES in
  let clientMessage := Request.createForEncode in
  let clientMessage := Request.setRetryable clientMessage true in
  let initialFrame := initial_frame REQUEST_INITIAL_FRAME_SIZE in
  initialFrame ← encode_at encodeInt initialFrame REQUEST_BATCH_OFFSET batch;
  let clientMessage := Request.addFrame clientMessage initialFrame in
  clientMessage ← Request.setMessageType clientMessage REQUEST_MESSAGE_TYPE;
  clientMessage ← Request.setPartitionId clientMessage (-1);
  clientMessage ← Request.append StringCodec.encode clientMessage name;
  clientMessage ← Request.append EntryListIntegerIntegerCodec_encode clientMessage iterationPointers;
  Ok clientMessage.

Definition MapFetchKeysCodec_decodeResponse : Dec MapFetchKeysResponseParams :=
  _ ← skipFrame;
  iterationPointers ← EntryListIntegerIntegerCodec_decode;
  keys ← ListMultiFrameCodec.decode DataCodec.decode;
  mret (mkMapFetchKeysResponseParams iterationPointers keys).

(** ** MapFetchNearCacheInvalidationMetadataCodec *)

Definition MapFetchNearCacheInvalidationMetadataCodec_encodeRequest (names : list string) (uuid : option (UUID L)) : res Request :=
  let REQUEST_MESSAGE_TYPE := 81152 in
  let REQUEST_UUID_OFFSET := PARTITION_ID_OFFSET + INT_SIZE_IN_BYTES in
  let REQUEST_INITIAL_FRAME_SIZE := REQUEST_UUID_OFFSET + UUID_SIZE_IN_BYTES in
  let clientMessage := Request.createForEncode in
  let clientMessage := Request.setRetryable clientMessage false in
  let initialFrame := initial_frame REQUEST_INITIAL_FRAME_SIZE in
  initialFrame ← encode_at encodeUUID initialFrame REQUEST_UUID_OFFSET uuid;
  let clientMessage := Request.addFrame clientMessage initialFrame in
  clientMessage ← Request.setMessageType clientMessage REQUEST_MESSAGE_TYPE;
  clientMessage ← Request.setPartitionId clientMessage (-1);
  clientMessage ← Request.append (ListMultiFrameCodec.encode StringCodec.encode) clientMessage names;
  Ok clientMessage.

Definition MapFetchNearCacheInvalidationMetadataCodec_decodeResponse : Dec (MapFetchNearCacheInvalidationMetadataResponseParams L) :=
  _ ← skipFrame;
  namePartitionSequenceList ← EntryListCodec.decode StringCodec.decode EntryListIntegerLongCodec_decode;
  partitionUuidList ← EntryListIntegerUUIDCodec_decode;
  mret (mkMapFetchNearCacheInvalidationMetadataResponseParams namePartitionSequenceList partitionUuidList).

(** ** MapFetchWithQueryCodec *)

Definition MapFetchWithQueryCodec_encodeRequest (name : string) (iterationPointers : list (Z * Z)) (batch : Z) (projection : HeapData) (predicate : HeapData) : res Request :=
  let REQUEST_MESSAGE_TYPE := 81920 in
  let REQUEST_BATCH_OFFSET := PARTITION_ID_OFFSET + INT_SIZE_IN_BYTES in
  let REQUEST_INITIAL_FRAME_SIZE := REQUEST_BATCH_OFFSET + INT_SIZE_IN_BYTES in
  let clientMessage := Request.createForEncode in
  let clientMessage := Request.setRetryable clientMessage true in
  let initialFrame := initial_frame REQUEST_INITIAL_FRAME_SIZE in
  initialFrame ← encode_at encodeInt initialFrame REQUEST_BATCH_OFFSET batch;
  let clientMessage := Request.addFrame clientMessage initialFrame in
  clientMessage ← Request.setMessageType clientMessage REQUEST_MESSAGE_TYPE;
  clientMessage ← Request.setPartitionId clientMessage (-1);
  clientMessage ← Request.append StringCodec.encode clientMessage name;
  clientMessage ← Request.append EntryListIntegerIntegerCodec_encode clientMessage iterationPointers;
  clientMessage ← Request.append DataCodec.encode clientMessage projection;
  clientMessage ← Request.append DataCodec.encode clientMessage predicate;
  Ok clientMessage.

Definition MapFetchWithQueryCodec_decodeResponse : Dec MapFetchWithQueryResponseParams :=
  _ ← skipFrame;
  results ← ListMultiFrameCodec.decodeContainsNullable DataCodec.decode;
  iterationPointers ← EntryListIntegerIntegerCodec_decode;
  mret (mkMapFetchWithQueryResponseParams results iterationPointers).

(** ** MapFlushCodec *)

Definition MapFlushCodec_encodeRequest (name : string) : res Request :=
  let REQUEST_MESSAGE_TYPE := 68096 in
  let REQUEST_INITIAL_FRAME_SIZE := PARTITION_ID_OFFSET + INT_SIZE_IN_BYTES in
  let clientMessage := Request.createForEncode in
  let clientMessage := Request.setRetryable clientMessage false in
  let initialFrame := initial_frame REQUEST_INITIAL_FRAME_SIZE in
  let clientMessage := Request.addFrame clientMessage initialFrame in
  clientMessage ← Request.setMessageType clientMessage REQUEST_MESSAGE_TYPE;
  clientMessage ← Request.setPartitionId clientMessage (-1);
  clientMessage ← Request.append StringCodec.encode clientMessage name;
  Ok clientMessage.

(** ** MapForceUnlockCodec *)

Definition MapForceUnlockCodec_encodeRequest (name : string) (key : HeapData) (referenceId : long_arg L) : res Request :=
  let REQUEST_MESSAGE_TYPE := 78592 in
  let REQUEST_REFERENCE_ID_OFFSET := PARTITION_ID_OFFSET + INT_SIZE_IN_BYTES in
  let REQUEST_INITIAL_FRAME_SIZE := REQUEST_REFERENCE_ID_OFFSET + LONG_SIZE_IN_BYTES in
  let clientMessage := Request.createForEncode in
  let clientMessage := Request.setRetryable clientMessage true in
  let initialFrame := initial_frame REQUEST_INITIAL_FRAME_SIZE in
  initialFrame ← encode_at encodeLong initialFrame REQUEST_REFERENCE_ID_OFFSET referenceId;
  let clientMessage := Request.addFrame clientMessage initialFrame in
  clientMessage ← Request.setMessageType clientMessage REQUEST_MESSAGE_TYPE;
  clientMessage ← Request.setPartitionId clientMessage (-1);
  clientMessage ← Request.append StringCodec.encode clientMessage name;
  clientMessage ← Request.append DataCodec.encode clientMessage key;
  Ok clientMessage.

(** ** MapGetAllCodec *)

Definition MapGetAllCodec_encodeRequest (name : string) (keys : list HeapData) : res Request :=
  let REQUEST_MESSAGE_TYPE := 74496 in
  let REQUEST_INITIAL_FRAME_SIZE := PARTITION_ID_OFFSET + INT_SIZE_IN_BYTES in
  let clientMessage := Request.createForEncode in
  let clientMessage := Request.setRetryable clientMessage false in
  let initialFrame := initial_frame REQUEST_INITIAL_FRAME_SIZE in
  let clientMessage := Request.addFrame clientMessage initialFrame in
  clientMessage ← Request.setMessageType clientMessage REQUEST_MESSAGE_TYPE;
  clientMessage ← Request.setPartitionId clientMessage (-1);
  clientMessage ← Request.append StringCodec.encode clientMessage name;
  clientMessage ← Request.append (ListMultiFrameCodec.encode DataCodec.encode) clientMessage keys;
  Ok clientMessage.

Definition MapGetAllCodec_decodeResponse : Dec (list (HeapData * HeapData)) :=
  _ ← skipFrame;
  response ← EntryListCodec.decode DataCodec.decode DataCodec.decode;
  mret response.

(** ** MapGetCodec *)

Definition MapGetCodec_encodeRequest (name : string) (key : HeapData) (threadId : long_arg L) : res Request :=
  let REQUEST_MESSAGE_TYPE := 66048 in
  let REQUEST_THREAD_ID_OFFSET := PARTITION_ID_OFFSET + INT_SIZE_IN_BYTES in
  let REQUEST_INITIAL_FRAME_SIZE := REQUEST_THREAD_ID_OFFSET + LONG_SIZE_IN_BYTES in
  let clientMessage := Request.createForEncode in
  let clientMessage := Request.setRetryable clientMessage true in
  let initialFrame := initial_frame REQUEST_INITIAL_FRAME_SIZE in
  initialFrame ← encode_at encodeLong initialFrame REQUEST_THREAD_ID_OFFSET threadId;
  let clientMessage := Request.addFrame clientMessage initialFrame in
  clientMessage ← Request.setMessageType clientMessage REQUEST_MESSAGE_TYPE;
  clientMessage ← Request.setPartitionId clientMessage (-1);
  clientMessage ← Request.append StringCodec.encode clientMessage name;
  clientMessage ← Request.append DataCodec.encode clientMessage key;
  Ok clientMessage.

Definition MapGetCodec_decodeResponse : Dec (option HeapData) :=
  _ ← skipFrame;
  response ← CodecUtil.decodeNullable DataCodec.decode;
  mret response.

(** ** MapGetEntryViewCodec *)

Definition MapGetEntryViewCodec_encodeRequest (name : string) (key : HeapData) (threadId : long_arg L) : res Request :=
  let REQUEST_MESSAGE_TYPE := 72960 in
  let REQUEST_THREAD_ID_OFFSET := PARTITION_ID_OFFSET + INT_SIZE_IN_BYTES in
  let REQUEST_INITIAL_FRAME_SIZE := REQUEST_THREAD_ID_OFFSET + LONG_SIZE_IN_BYTES in
  let clientMessage := Request.createForEncode in
  let clientMessage := Request.setRetryable clientMessage true in
  let initialFrame := initial_frame REQUEST_INITIAL_FRAME_SIZE in
  initialFrame ← encode_at encodeLong initialFrame REQUEST_THREAD_ID_OFFSET threadId;
  let clientMessage := Request.addFrame clientMessage initialFrame in
  clientMessage ← Request.setMessageType clientMessage REQUEST_MESSAGE_TYPE;
  clientMessage ← Request.setPartitionId clientMessage (-1);
  clientMessage ← Request.append StringCodec.encode clientMessage name;
  clientMessage ← Request.append DataCodec.encode clientMessage key;
  Ok clientMessage.

Definition MapGetEntryViewCodec_decodeResponse : Dec (MapGetEntryViewResponseParams L) :=
  let RESPONSE_MAX_IDLE_OFFSET := RESPONSE_BACKUP_ACKS_OFFSET + BYTE_SIZE_IN_BYTES in
  initialFrame ← nextFrame;
  maxIdle ← decode_at decodeLong initialFrame RESPONSE_MAX_IDLE_OFFSET;
  response ← CodecUtil.decodeNullable SimpleEntryViewCodec_decode;
  mret (mkMapGetEntryViewResponseParams response maxIdle).

(** ** MapIsEmptyCodec *)

Definition MapIsEmptyCodec_encodeRequest (name : string) : res Request :=
  let REQUEST_MESSAGE_TYPE := 76544 in
  let REQUEST_INITIAL_FRAME_SIZE := PARTITION_ID_OFFSET + INT_SIZE_IN_BYTES in
  let clientMessage := Request.createForEncode in
  let clientMessage := Request.setRetryable clientMessage true in
  let initialFrame := initial_frame REQUEST_INITIAL_FRAME_SIZE in
  let clientMessage := Request.addFrame clientMessage initialFrame in
  clientMessage ← Request.setMessageType clientMessage REQUEST_MESSAGE_TYPE;
  clientMessage ← Request.setPartitionId clientMessage (-1);
  clientMessage ← Request.append StringCodec.encode clientMessage name;
  Ok clientMessage.

Definition MapIsEmptyCodec_decodeResponse : Dec bool :=
  let RESPONSE_RESPONSE_OFFSET := RESPONSE_BACKUP_ACKS_OFFSET + BYTE_SIZE_IN_BYTES in
  initialFrame ← nextFrame;
  response ← decode_at decodeBoolean initialFrame RESPONSE_RESPONSE_OFFSET;
  mret response.

(** ** MapIsLockedCodec *)

Definition MapIsLockedCodec_encodeRequest (name : string) (key : HeapData) : res Request :=
  let REQUEST_MESSAGE_TYPE := 70144 in
  let REQUEST_INITIAL_FRAME_SIZE := PARTITION_ID_OFFSET + INT_SIZE_IN_BYTES in
  let clientMessage := Request.createForEncode in
  let clientMessage := Request.setRetryable clientMessage true in
  let initialFrame := initial_frame REQUEST_INITIAL_FRAME_SIZE in
  let clientMessage := Request.addFrame clientMessage initialFrame in
  clientMessage ← Request.setMessageType clientMessage REQUEST_MESSAGE_TYPE;
  clientMessage ← Request.setPartitionId clientMessage (-1);
  clientMessage ← Request.append StringCodec.encode clientMessage name;
  clientMessage ← Request.append DataCodec.encode clientMessage key;
  Ok clientMessage.

Definition MapIsLockedCodec_decodeResponse : Dec bool :=
  let RESPONSE_RESPONSE_OFFSET := RESPONSE_BACKUP_ACKS_OFFSET + BYTE_SIZE_IN_BYTES in
  initialFrame ← nextFrame;
  response ← decode_at decodeBoolean initialFrame RESPONSE_RESPONSE_OFFSET;
  mret response.

(** ** MapKeySetCodec *)

Definition MapKeySetCodec_encodeRequest (name : string) : res Request :=
  let REQUEST_MESSAGE_TYPE := 74240 in
  let REQUEST_INITIAL_FRAME_SIZE := PARTITION_ID_OFFSET + INT_SIZE_IN_BYTES in
  let clientMessage := Request.createForEncode in
  let clientMessage := Request.setRetryable clientMessage true in
  let initialFrame := initial_frame REQUEST_INITIAL_FRAME_SIZE in
  let clientMessage := Request.addFrame clientMessage initialFrame in
  clientMessage ← Request.setMessageType clientMessage REQUEST_MESSAGE_TYPE;
  clientMessage ← Request.setPartitionId clientMessage (-1);
  clientMessage ← Request.append StringCodec.encode clientMessage name;
  Ok clientMessage.

Definition MapKeySetCodec_decodeResponse : Dec (list HeapData) :=
  _ ← skipFrame;
  response ← ListMultiFrameCodec.decode DataCodec.decode;
  mret response.

(** ** MapKeySetWithPagingPredicateCodec *)

Definition MapKeySetWithPagingPredicateCodec_encodeRequest (name : string) (predicate : PagingPredicateHolder) : res Request :=
  let REQUEST_MESSAGE_TYPE := 78848 in
  let REQUEST_INITIAL_FRAME_SIZE := PARTITION_ID_OFFSET + INT_SIZE_IN_BYTES in
  let clientMessage := Request.createForEncode in
  let clientMessage := Request.setRetryable clientMessage true in
  let initialFrame := initial_frame REQUEST_INITIAL_FRAME_SIZE in
  let clientMessage := Request.addFrame clientMessage initialFrame in
  clientMessage ← Request.setMessageType clientMessage REQUEST_MESSAGE_TYPE;
  clientMessage ← Request.setPartitionId clientMessage (-1);
  clientMessage ← Request.append StringCodec.encode clientMessage name;
  clientMessage ← Request.append PagingPredicateHolderCodec_encode clientMessage predicate;
  Ok clientMessage.

Definition MapKeySetWithPagingPredicateCodec_decodeResponse : Dec MapKeySetWithPagingPredicateResponseParams :=
  _ ← skipFrame;
  response ← ListMultiFrameCodec.decode DataCodec.decode;
  anchorDataList ← AnchorDataListHolderCodec_decode;
  mret (mkMapKeySetWithPagingPredicateResponseParams response anchorDataList).

(** ** MapKeySetWithPredicateCodec *)

Definition MapKeySetWithPredicateCodec_encodeRequest (name : string) (predicate : HeapData) : res Request :=
  let REQUEST_MESSAGE_TYPE := 75264 in
  let REQUEST_INITIAL_FRAME_SIZE := PARTITION_ID_OFFSET + INT_SIZE_IN_BYTES in
  let clientMessage := Request.createForEncode in
  let clientMessage := Request.setRetryable clientMessage true in
  let initialFrame := initial_frame REQUEST_INITIAL_FRAME_SIZE in
  let clientMessage := Request.addFrame clientMessage initialFrame in
  clientMessage ← Request.setMessageType clientMessage REQUEST_MESSAGE_TYPE;
  clientMessage ← Request.setPartitionId clientMessage (-1);
  clientMessage ← Request.append StringCodec.encode clientMessage name;
  clientMessage ← Request.append DataCodec.encode clientMessage predicate;
  Ok clientMessage.

Definition MapKeySetWithPredicateCodec_decodeResponse : Dec (list HeapData) :=
  _ ← skipFrame;
  response ← ListMultiFrameCodec.decode DataCodec.decode;
  mret response.

(** ** MapLoadAllCodec *)

Definition MapLoadAllCodec_encodeRequest (name : string) (replaceExistingValues : bool) : res Request :=
  let REQUEST_MESSAGE_TYPE := 73728 in
  let REQUEST_REPLACE_EXISTING_VALUES_OFFSET := PARTITION_ID_OFFSET + INT_SIZE_IN_BYTES in
  let REQUEST_INITIAL_FRAME_SIZE := REQUEST_REPLACE_EXISTING_VALUES_OFFSET + BOOLEAN_SIZE_IN_BYTES in
  let clientMessage := Request.createForEncode in
  let clientMessage := Request.setRetryable clientMessage false in
  let initialFrame := initial_frame REQUEST_INITIAL_FRAME_SIZE in
  initialFrame ← encode_at encodeBoolean initialFrame REQUEST_REPLACE_EXISTING_VALUES_OFFSET replaceExistingValues;
  let clientMessage := Request.addFrame clientMessage initialFrame in
  clientMessage ← Request.setMessageType clientMessage REQUEST_MESSAGE_TYPE;
  clientMessage ← Request.setPartitionId clientMessage (-1);
  clientMessage ← Request.append StringCodec.encode clientMessage name;
  Ok clientMessage.

(** ** MapLoadGivenKeysCodec *)

Definition MapLoadGivenKeysCodec_encodeRequest (name : string) (keys : list HeapData) (replaceExistingValues : bool) : res Request :=
  let REQUEST_MESSAGE_TYPE := 73984 in
  let REQUEST_REPLACE_EXISTING_VALUES_OFFSET := PARTITION_ID_OFFSET + INT_SIZE_IN_BYTES in
  let REQUEST_INITIAL_FRAME_SIZE := REQUEST_REPLACE_EXISTING_VALUES_OFFSET + BOOLEAN_SIZE_IN_BYTES in
  let clientMessage := Request.createForEncode in
  let clientMessage := Request.setRetryable clientMessage false in
  let initialFrame := initial_frame REQUEST_INITIAL_FRAME_SIZE in
  initialFrame ← encode_at encodeBoolean initialFrame REQUEST_REPLACE_EXISTING_VALUES_OFFSET replaceExistingValues;
  let clientMessage := Request.addFrame clientMessage initialFrame in
  clientMessage ← Request.setMessageType clientMessage REQUEST_MESSAGE_TYPE;
  clientMessage ← Request.setPartitionId clientMessage (-1);
  clientMessage ← Request.append StringCodec.encode clientMessage name;
  clientMessage ← Request.append (ListMultiFrameCodec.encode DataCodec.encode) clientMessage keys;
  Ok clientMessage.

(** ** MapLockCodec *)

Definition MapLockCodec_encodeRequest (name : string) (key : HeapData) (threadId : long_arg L) (ttl : long_arg L) (referenceId : long_arg L) : res Request :=
  let REQUEST_MESSAGE_TYPE := 69632 in
  let REQUEST_THREAD_ID_OFFSET := PARTITION_ID_OFFSET + INT_SIZE_IN_BYTES in
  let REQUEST_TTL_OFFSET := REQUEST_THREAD_ID_OFFSET + LONG_SIZE_IN_BYTES in
  let REQUEST_REFERENCE_ID_OFFSET := REQUEST_TTL_OFFSET + LONG_SIZE_IN_BYTES in
  let REQUEST_INITIAL_FRAME_SIZE := REQUEST_REFERENCE_ID_OFFSET + LONG_SIZE_IN_BYTES in
  let clientMessage := Request.createForEncode in
  let clientMessage := Request.setRetryable clientMessage true in
  let initialFrame := initial_frame REQUEST_INITIAL_FRAME_SIZE in
  initialFrame ← encode_at encodeLong initialFrame REQUEST_THREAD_ID_OFFSET threadId;
  initialFrame ← encode_at encodeLong initialFrame REQUEST_TTL_OFFSET ttl;
  initialFrame ← encode_at encodeLong initialFrame REQUEST_REFERENCE_ID_OFFSET referenceId;
  let clientMessage := Request.addFrame clientMessage initialFrame in
  clientMessage ← Request.setMessageType clientMessage REQUEST_MESSAGE_TYPE;
  clientMessage ← Request.setPartitionId clientMessage (-1);
  clientMessage ← Request.append StringCodec.encode clientMessage name;
  clientMessage ← Request.append DataCodec.encode clientMessage key;
  Ok clientMessage.

(** ** MapProjectCodec *)

Definition MapProjectCodec_encodeRequest (name : string) (projection : HeapData) : res Request :=
  let REQUEST_MESSAGE_TYPE := 80640 in
  let REQUEST_INITIAL_FRAME_SIZE := PARTITION_ID_OFFSET + INT_SIZE_IN_BYTES in
  let clientMessage := Request.createForEncode in
  let clientMessage := Request.setRetryable clientMessage true in
  let initialFrame := initial_frame REQUEST_INITIAL_FRAME_SIZE in
  let clientMessage := Request.addFrame clientMessage initialFrame in
  clientMessage ← Request.setMessageType clientMessage REQUEST_MESSAGE_TYPE;
  clientMessage ← Request.setPartitionId clientMessage (-1);
  clientMessage ← Request.append StringCodec.encode clientMessage name;
  clientMessage ← Request.append DataCodec.encode clientMessage projection;
  Ok clientMessage.

Definition MapProjectCodec_decodeResponse : Dec (list (option HeapData)) :=
  _ ← skipFrame;
  response ← ListMultiFrameCodec.decodeContainsNullable DataCodec.decode;
  mret response.

(** ** MapProjectWithPredicateCodec *)

Definition MapProjectWithPredicateCodec_encodeRequest (name : string) (projection : HeapData) (predicate : HeapData) : res Request :=
  let REQUEST_MESSAGE_TYPE := 80896 in
  let REQUEST_INITIAL_FRAME_SIZE := PARTITION_ID_OFFSET + INT_SIZE_IN_BYTES in
  let clientMessage := Request.createForEncode in
  let clientMessage := Request.setRetryable clientMessage true in
  let initialFrame := initial_frame REQUEST_INITIAL_FRAME_SIZE in
  let clientMessage := Request.addFrame clientMessage initialFrame in
  clientMessage ← Request.setMessageType clientMessage REQUEST_MESSAGE_TYPE;
  clientMessage ← Request.setPartitionId clientMessage (-1);
  clientMessage ← Request.append StringCodec.encode clientMessage name;
  clientMessage ← Request.append DataCodec.encode clientMessage projection;
  clientMessage ← Request.append DataCodec.encode clientMessage predicate;
  Ok clientMessage.

Definition MapProjectWithPredicateCodec_decodeResponse : Dec (list (option HeapData)) :=
  _ ← skipFrame;
  response ← ListMultiFrameCodec.decodeContainsNullable DataCodec.decode;
  mret response.

(** ** MapPutAllCodec *)

Definition MapPutAllCodec_encodeRequest (name : string) (entries : list (HeapData * HeapData)) (triggerMapLoader : bool) : res Request :=
  let REQUEST_MESSAGE_TYPE := 76800 in
  let REQUEST_TRIGGER_MAP_LOADER_OFFSET := PARTITION_ID_OFFSET + INT_SIZE_IN_BYTES in
  let REQUEST_INITIAL_FRAME_SIZE := REQUEST_TRIGGER_MAP_LOADER_OFFSET + BOOLEAN_SIZE_IN_BYTES in
  let clientMessage := Request.createForEncode in
  let clientMessage := Request.setRetryable clientMessage false in
  let initialFrame := initial_frame REQUEST_INITIAL_FRAME_SIZE in
  initialFrame ← encode_at encodeBoolean initialFrame REQUEST_TRIGGER_MAP_LOADER_OFFSET triggerMapLoader;
  let clientMessage := Request.addFrame clientMessage initialFrame in
  clientMessage ← Request.setMessageType clientMessage REQUEST_MESSAGE_TYPE;
  clientMessage ← Request.setPartitionId clientMessage (-1);
  clientMessage ← Request.append StringCodec.encode clientMessage name;
  clientMessage ← Request.append (EntryListCodec.encode DataCodec.encode DataCodec.encode) clientMessage entries;
  Ok clientMessage.

(** ** MapPutCodec *)

Definition MapPutCodec_encodeRequest (name : string) (key : HeapData) (value : HeapData) (threadId : long_arg L) (ttl : long_arg L) : res Request :=
  let REQUEST_MESSAGE_TYPE := 65792 in
  let REQUEST_THREAD_ID_OFFSET := PARTITION_ID_OFFSET + INT_SIZE_IN_BYTES in
  let REQUEST_TTL_OFFSET := REQUEST_THREAD_ID_OFFSET + LONG_SIZE_IN_BYTES in
  let REQUEST_INITIAL_FRAME_SIZE := REQUEST_TTL_OFFSET + LONG_SIZE_IN_BYTES in
  let clientMessage := Request.createForEncode in
  let clientMessage := Request.setRetryable clientMessage false in
  let initialFrame := initial_frame REQUEST_INITIAL_FRAME_SIZE in
  initialFrame ← encode_at encodeLong initialFrame REQUEST_THREAD_ID_OFFSET threadId;
  initialFrame ← encode_at encodeLong initialFrame REQUEST_TTL_OFFSET ttl;
  let clientMessage := Request.addFrame clientMessage initialFrame in
  clientMessage ← Request.setMessageType clientMessage REQUEST_MESSAGE_TYPE;
  clientMessage ← Request.setPartitionId clientMessage (-1);
  clientMessage ← Request.append StringCodec.encode clientMessage name;
  clientMessage ← Request.append DataCodec.encode clientMessage key;
  clientMessage ← Request.append DataCodec.encode clientMessage value;
  Ok clientMessage.

Definition MapPutCodec_decodeResponse : Dec (option HeapData) :=
  _ ← skipFrame;
  response ← CodecUtil.decodeNullable DataCodec.decode;
  mret response.

(** ** MapPutIfAbsentCodec *)

Definition MapPutIfAbsentCodec_encodeRequest (name : string) (key : HeapData) (value : HeapData) (threadId : long_arg L) (ttl : long_arg L) : res Request :=
  let REQUEST_MESSAGE_TYPE := 69120 in
  let REQUEST_THREAD_ID_OFFSET := PARTITION_ID_OFFSET + INT_SIZE_IN_BYTES in
  let REQUEST_TTL_OFFSET := REQUEST_THREAD_ID_OFFSET + LONG_SIZE_IN_BYTES in
  let REQUEST_INITIAL_FRAME_SIZE := REQUEST_TTL_OFFSET + LONG_SIZE_IN_BYTES in
  let clientMessage := Request.createForEncode in
  let clientMessage := Request.setRetryable clientMessage false in
  let initialFrame := initial_frame REQUEST_INITIAL_FRAME_SIZE in
  initialFrame ← encode_at encodeLong initialFrame REQUEST_THREAD_ID_OFFSET threadId;
  initialFrame ← encode_at encodeLong initialFrame REQUEST_TTL_OFFSET ttl;
  let clientMessage := Request.addFrame clientMessage initialFrame in
  clientMessage ← Request.setMessageType clientMessage REQUEST_MESSAGE_TYPE;
  clientMessage ← Request.setPartitionId clientMessage (-1);
  clientMessage ← Request.append StringCodec.encode clientMessage name;
  clientMessage ← Request.append DataCodec.encode clientMessage key;
  clientMessage ← Request.append DataCodec.encode clientMessage value;
  Ok clientMessage.

Definition MapPutIfAbsentCodec_decodeResponse : Dec (option HeapData) :=
  _ ← skipFrame;
  response ← CodecUtil.decodeNullable DataCodec.decode;
  mret response.

(** ** MapPutIfAbsentWithMaxIdleCodec *)

Definition MapPutIfAbsentWithMaxIdleCodec_encodeRequest (name : string) (key : HeapData) (value : HeapData) (threadId : long_arg L) (ttl : long_arg L) (maxIdle : long_arg L) : res Request :=
  let REQUEST_MESSAGE_TYPE := 83456 in
  let REQUEST_THREAD_ID_OFFSET := PARTITION_ID_OFFSET + INT_SIZE_IN_BYTES in
  let REQUEST_TTL_OFFSET := REQUEST_THREAD_ID_OFFSET + LONG_SIZE_IN_BYTES in
  let REQUEST_MAX_IDLE_OFFSET := REQUEST_TTL_OFFSET + LONG_SIZE_IN_BYTES in
  let REQUEST_INITIAL_FRAME_SIZE := REQUEST_MAX_IDLE_OFFSET + LONG_SIZE_IN_BYTES in
  let clientMessage := Request.createForEncode in
  let clientMessage := Request.setRetryable clientMessage false in
  let initialFrame := initial_frame REQUEST_INITIAL_FRAME_SIZE in
  initialFrame ← encode_at encodeLong initialFrame REQUEST_THREAD_ID_OFFSET threadId;
  initialFrame ← encode_at encodeLong initialFrame REQUEST_TTL_OFFSET ttl;
  initialFrame ← encode_at encodeLong initialFrame REQUEST_MAX_IDLE_OFFSET maxIdle;
  let clientMessage := Request.addFrame clientMessage initialFrame in
  clientMessage ← Request.setMessageType clientMessage REQUEST_MESSAGE_TYPE;
  clientMessage ← Request.setPartitionId clientMessage (-1);
  clientMessage ← Request.append StringCodec.encode clientMessage name;
  clientMessage ← Request.append DataCodec.encode clientMessage key;
  clientMessage ← Request.append DataCodec.encode clientMessage value;
  Ok clientMessage.

Definition MapPutIfAbsentWithMaxIdleCodec_decodeResponse : Dec (option HeapData) :=
  _ ← skipFrame;
  response ← CodecUtil.decodeNullable DataCodec.decode;
  mret response.

(** ** MapPutTransientCodec *)

Definition MapPutTransientCodec_encodeRequest (name : string) (key : HeapData) (value : HeapData) (threadId : long_arg L) (ttl : long_arg L) : res Request :=
  let REQUEST_MESSAGE_TYPE := 68864 in
  let REQUEST_THREAD_ID_OFFSET := PARTITION_ID_OFFSET + INT_SIZE_IN_BYTES in
  let REQUEST_TTL_OFFSET := REQUEST_THREAD_ID_OFFSET + LONG_SIZE_IN_BYTES in
  let REQUEST_INITIAL_FRAME_SIZE := REQUEST_TTL_OFFSET + LONG_SIZE_IN_BYTES in
  let clientMessage := Request.createForEncode in
  let clientMessage := Request.setRetryable clientMessage false in
  let initialFrame := initial_frame REQUEST_INITIAL_FRAME_SIZE in
  initialFrame ← encode_at encodeLong initialFrame REQUEST_THREAD_ID_OFFSET threadId;
  initialFrame ← encode_at encodeLong initialFrame REQUEST_TTL_OFFSET ttl;
  let clientMessage := Request.addFrame clientMessage initialFrame in
  clientMessage ← Request.setMessageType clientMessage REQUEST_MESSAGE_TYPE;
  clientMessage ← Request.setPartitionId clientMessage (-1);
  clientMessage ← Request.append StringCodec.encode clientMessage name;
  clientMessage ← Request.append DataCodec.encode clientMessage key;
  clientMessage ← Request.append DataCodec.encode clientMessage value;
  Ok clientMessage.

(** ** MapPutTransientWithMaxIdleCodec *)

Definition MapPutTransientWithMaxIdleCodec_encodeRequest (name : string) (key : HeapData) (value : HeapData) (threadId : long_arg L) (ttl : long_arg L) (maxIdle : long_arg L) : res Request :=
  let REQUEST_MESSAGE_TYPE := 83200 in
  let REQUEST_THREAD_ID_OFFSET := PARTITION_ID_OFFSET + INT_SIZE_IN_BYTES in
  let REQUEST_TTL_OFFSET := REQUEST_THREAD_ID_OFFSET + LONG_SIZE_IN_BYTES in
  let REQUEST_MAX_IDLE_OFFSET := REQUEST_TTL_OFFSET + LONG_SIZE_IN_BYTES in
  let REQUEST_INITIAL_FRAME_SIZE := REQUEST_MAX_IDLE_OFFSET + LONG_SIZE_IN_BYTES in
  let clientMessage := Request.createForEncode in
  let clientMessage := Request.setRetryable clientMessage false in
  let initialFrame := initial_frame REQUEST_INITIAL_FRAME_SIZE in
  initialFrame ← encode_at encodeLong initialFrame REQUEST_THREAD_ID_OFFSET threadId;
  initialFrame ← encode_at encodeLong initialFrame REQUEST_TTL_OFFSET ttl;
  initialFrame ← encode_at encodeLong initialFrame REQUEST_MAX_IDLE_OFFSET maxIdle;
  let clientMessage := Request.addFrame clientMessage initialFrame in
  clientMessage ← Request.setMessageType clientMessage REQUEST_MESSAGE_TYPE;
  clientMessage ← Request.setPartitionId clientMessage (-1);
  clientMessage ← Request.append StringCodec.encode clientMessage name;
  clientMessage ← Request.append DataCodec.encode clientMessage key;
  clientMessage ← Request.append DataCodec.encode clientMessage value;
  Ok clientMessage.

Definition MapPutTransientWithMaxIdleCodec_decodeResponse : Dec (option HeapData) :=
  _ ← skipFrame;
  response ← CodecUtil.decodeNullable DataCodec.decode;
  mret response.

(** ** MapPutWithMaxIdleCodec *)

Definition MapPutWithMaxIdleCodec_encodeRequest (name : string) (key : HeapData) (value : HeapData) (threadId : long_arg L) (ttl : long_arg L) (maxIdle : long_arg L) : res Request :=
  let REQUEST_MESSAGE_TYPE := 82944 in
  let REQUEST_THREAD_ID_OFFSET := PARTITION_ID_OFFSET + INT_SIZE_IN_BYTES in
  let REQUEST_TTL_OFFSET := REQUEST_THREAD_ID_OFFSET + LONG_SIZE_IN_BYTES in
  let REQUEST_MAX_IDLE_OFFSET := REQUEST_TTL_OFFSET + LONG_SIZE_IN_BYTES in
  let REQUEST_INITIAL_FRAME_SIZE := REQUEST_MAX_IDLE_OFFSET + LONG_SIZE_IN_BYTES in
  let clientMessage := Request.createForEncode in
  let clientMessage := Request.setRetryable clientMessage false in
  let initialFrame := initial_frame REQUEST_INITIAL_FRAME_SIZE in
  initialFrame ← encode_at encodeLong initialFrame REQUEST_THREAD_ID_OFFSET threadId;
  initialFrame ← encode_at encodeLong initialFrame REQUEST_TTL_OFFSET ttl;
  initialFrame ← encode_at encodeLong initialFrame REQUEST_MAX_IDLE_OFFSET maxIdle;
  let clientMessage := Request.addFrame clientMessage initialFrame in
  clientMessage ← Request.setMessageType clientMessage REQUEST_MESSAGE_TYPE;
  clientMessage ← Request.setPartitionId clientMessage (-1);
  clientMessage ← Request.append StringCodec.encode clientMessage name;
  clientMessage ← Request.append DataCodec.encode clientMessage key;
  clientMessage ← Request.append DataCodec.encode clientMessage value;
  Ok clientMessage.

Definition MapPutWithMaxIdleCodec_decodeResponse : Dec (option HeapData) :=
  _ ← skipFrame;
  response ← CodecUtil.decodeNullable DataCodec.decode;
  mret response.

(** ** MapRemoveAllCodec *)

Definition MapRemoveAllCodec_encodeRequest (name : string) (predicate : HeapData) : res Request :=
  let REQUEST_MESSAGE_TYPE := 81408 in
  let REQUEST_INITIAL_FRAME_SIZE := PARTITION_ID_OFFSET + INT_SIZE_IN_BYTES in
  let clientMessage := Request.createForEncode in
  let clientMessage := Request.setRetryable clientMessage false in
  let initialFrame := initial_frame REQUEST_INITIAL_FRAME_SIZE in
  let clientMessage := Request.addFrame clientMessage initialFrame in
  clientMessage ← Request.setMessageType clientMessage REQUEST_MESSAGE_TYPE;
  clientMessage ← Request.setPartitionId clientMessage (-1);
  clientMessage ← Request.append StringCodec.encode clientMessage name;
  clientMessage ← Request.append DataCodec.encode clientMessage predicate;
  Ok clientMessage.

(** ** MapRemoveCodec *)

Definition MapRemoveCodec_encodeRequest (name : string) (key : HeapData) (threadId : long_arg L) : res Request :=
  let REQUEST_MESSAGE_TYPE := 66304 in
  let REQUEST_THREAD_ID_OFFSET := PARTITION_ID_OFFSET + INT_SIZE_IN_BYTES in
  let REQUEST_INITIAL_FRAME_SIZE := REQUEST_THREAD_ID_OFFSET + LONG_SIZE_IN_BYTES in
  let clientMessage := Request.createForEncode in
  let clientMessage := Request.setRetryable clientMessage false in
  let initialFrame := initial_frame REQUEST_INITIAL_FRAME_SIZE in
  initialFrame ← encode_at encodeLong initialFrame REQUEST_THREAD_ID_OFFSET threadId;
  let clientMessage := Request.addFrame clientMessage initialFrame in
  clientMessage ← Request.setMessageType clientMessage REQUEST_MESSAGE_TYPE;
  clientMessage ← Request.setPartitionId clientMessage (-1);
  clientMessage ← Request.append StringCodec.encode clientMessage name;
  clientMessage ← Request.append DataCodec.encode clientMessage key;
  Ok clientMessage.

Definition MapRemoveCodec_decodeResponse : Dec (option HeapData) :=
  _ ← skipFrame;
  response ← CodecUtil.decodeNullable DataCodec.decode;
  mret response.

(** ** MapRemoveEntryListenerCodec *)

Definition MapRemoveEntryListenerCodec_encodeRequest (name : string) (registrationId : option (UUID L)) : res Request :=
  let REQUEST_MESSAGE_TYPE := 72192 in
  let REQUEST_REGISTRATION_ID_OFFSET := PARTITION_ID_OFFSET + INT_SIZE_IN_BYTES in
  let REQUEST_INITIAL_FRAME_SIZE := REQUEST_REGISTRATION_ID_OFFSET + UUID_SIZE_IN_BYTES in
  let clientMessage := Request.createForEncode in
  let clientMessage := Request.setRetryable clientMessage true in
  let initialFrame := initial_frame REQUEST_INITIAL_FRAME_SIZE in
  initialFrame ← encode_at encodeUUID initialFrame REQUEST_REGISTRATION_ID_OFFSET registrationId;
  let clientMessage := Request.addFrame clientMessage initialFrame in
  clientMessage ← Request.setMessageType clientMessage REQUEST_MESSAGE_TYPE;
  clientMessage ← Request.setPartitionId clientMessage (-1);
  clientMessage ← Request.append StringCodec.encode clientMessage name;
  Ok clientMessage.

Definition MapRemoveEntryListenerCodec_decodeResponse : Dec bool :=
  let RESPONSE_RESPONSE_OFFSET := RESPONSE_BACKUP_ACKS_OFFSET + BYTE_SIZE_IN_BYTES in
  initialFrame ← nextFrame;
  response ← decode_at decodeBoolean initialFrame RESPONSE_RESPONSE_OFFSET;
  mret response.

(** ** MapRemoveIfSameCodec *)

Definition MapRemoveIfSameCodec_encodeRequest (name : string) (key : HeapData) (value : HeapData) (threadId : long_arg L) : res Request :=
  let REQUEST_MESSAGE_TYPE := 67584 in
  let REQUEST_THREAD_ID_OFFSET := PARTITION_ID_OFFSET + INT_SIZE_IN_BYTES in
  let REQUEST_INITIAL_FRAME_SIZE := REQUEST_THREAD_ID_OFFSET + LONG_SIZE_IN_BYTES in
  let clientMessage := Request.createForEncode in
  let clientMessage := Request.setRetryable clientMessage false in
  let initialFrame := initial_frame REQUEST_INITIAL_FRAME_SIZE in
  initialFrame ← encode_at encodeLong initialFrame REQUEST_THREAD_ID_OFFSET threadId;
  let clientMessage := Request.addFrame clientMessage initialFrame in
  clientMessage ← Request.setMessageType clientMessage REQUEST_MESSAGE_TYPE;
  clientMessage ← Request.setPartitionId clientMessage (-1);
  clientMessage ← Request.append StringCodec.encode clientMessage name;
  clientMessage ← Request.append DataCodec.encode clientMessage key;
  clientMessage ← Request.append DataCodec.encode clientMessage value;
  Ok clientMessage.

Definition MapRemoveIfSameCodec_decodeResponse : Dec bool :=
  let RESPONSE_RESPONSE_OFFSET := RESPONSE_BACKUP_ACKS_OFFSET + BYTE_SIZE_IN_BYTES in
  initialFrame ← nextFrame;
  response ← decode_at decodeBoolean initialFrame RESPONSE_RESPONSE_OFFSET;
  mret response.

(** ** MapRemoveInterceptorCodec *)

Definition MapRemoveInterceptorCodec_encodeRequest (name : string) (id : string) : res Request :=
  let REQUEST_MESSAGE_TYPE := 70912 in
  let REQUEST_INITIAL_FRAME_SIZE := PARTITION_ID_OFFSET + INT_SIZE_IN_BYTES in
  let clientMessage := Request.createForEncode in
  let clientMessage := Request.setRetryable clientMessage false in
  let initialFrame := initial_frame REQUEST_INITIAL_FRAME_SIZE in
  let clientMessage := Request.addFrame clientMessage initialFrame in
  clientMessage ← Request.setMessageType clientMessage REQUEST_MESSAGE_TYPE;
  clientMessage ← Request.setPartitionId clientMessage (-1);
  clientMessage ← Request.append StringCodec.encode clientMessage name;
  clientMessage ← Request.append StringCodec.encode clientMessage id;
  Ok clientMessage.

Definition MapRemoveInterceptorCodec_decodeResponse : Dec bool :=
  let RESPONSE_RESPONSE_OFFSET := RESPONSE_BACKUP_ACKS_OFFSET + BYTE_SIZE_IN_BYTES in
  initialFrame ← nextFrame;
  response ← decode_at decodeBoolean initialFrame RESPONSE_RESPONSE_OFFSET;
  mret response.

(** ** MapRemovePartitionLostListenerCodec *)

Definition MapRemovePartitionLostListenerCodec_encodeRequest (name : string) (registrationId : option (UUID L)) : res Request :=
  let REQUEST_MESSAGE_TYPE := 72704 in
  let REQUEST_REGISTRATION_ID_OFFSET := PARTITION_ID_OFFSET + INT_SIZE_IN_BYTES in
  let REQUEST_INITIAL_FRAME_SIZE := REQUEST_REGISTRATION_ID_OFFSET + UUID_SIZE_IN_BYTES in
  let clientMessage := Request.createForEncode in
  let clientMessage := Request.setRetryable clientMessage true in
  let initialFrame := initial_frame REQUEST_INITIAL_FRAME_SIZE in
  initialFrame ← encode_at encodeUUID initialFrame REQUEST_REGISTRATION_ID_OFFSET registrationId;
  let clientMessage := Request.addFrame clientMessage initialFrame in
  clientMessage ← Request.setMessageType clientMessage REQUEST_MESSAGE_TYPE;
  clientMessage ← Request.setPartitionId clientMessage (-1);
  clientMessage ← Request.append StringCodec.encode clientMessage name;
  Ok clientMessage.

Definition MapRemovePartitionLostListenerCodec_decodeResponse : Dec bool :=
  let RESPONSE_RESPONSE_OFFSET := RESPONSE_BACKUP_ACKS_OFFSET + BYTE_SIZE_IN_BYTES in
  initialFrame ← nextFrame;
  response ← decode_at decodeBoolean initialFrame RESPONSE_RESPONSE_OFFSET;
  mret response.

(** ** MapReplaceCodec *)

Definition MapReplaceCodec_encodeRequest (name : string) (key : HeapData) (value : HeapData) (threadId : long_arg L) : res Request :=
  let REQUEST_MESSAGE_TYPE := 66560 in
  let REQUEST_THREAD_ID_OFFSET := PARTITION_ID_OFFSET + INT_SIZE_IN_BYTES in
  let REQUEST_INITIAL_FRAME_SIZE := REQUEST_THREAD_ID_OFFSET + LONG_SIZE_IN_BYTES in
  let clientMessage := Request.createForEncode in
  let clientMessage := Request.setRetryable clientMessage false in
  let initialFrame := initial_frame REQUEST_INITIAL_FRAME_SIZE in
  initialFrame ← encode_at encodeLong initialFrame REQUEST_THREAD_ID_OFFSET threadId;
  let clientMessage := Request.addFrame clientMessage initialFrame in
  clientMessage ← Request.setMessageType clientMessage REQUEST_MESSAGE_TYPE;
  clientMessage ← Request.setPartitionId clientMessage (-1);
  clientMessage ← Request.append StringCodec.encode clientMessage name;
  clientMessage ← Request.append DataCodec.encode clientMessage key;
  clientMessage ← Request.append DataCodec.encode clientMessage value;
  Ok clientMessage.

Definition MapReplaceCodec_decodeResponse : Dec (option HeapData) :=
  _ ← skipFrame;
  response ← CodecUtil.decodeNullable DataCodec.decode;
  mret response.

(** ** MapReplaceIfSameCodec *)

Definition MapReplaceIfSameCodec_encodeRequest (name : string) (key : HeapData) (testValue : HeapData) (value : HeapData) (threadId : long_arg L) : res Request :=
  let REQUEST_MESSAGE_TYPE := 66816 in
  let REQUEST_THREAD_ID_OFFSET := PARTITION_ID_OFFSET + INT_SIZE_IN_BYTES in
  let REQUEST_INITIAL_FRAME_SIZE := REQUEST_THREAD_ID_OFFSET + LONG_SIZE_IN_BYTES in
  let clientMessage := Request.createForEncode in
  let clientMessage := Request.setRetryable clientMessage false in
  let initialFrame := initial_frame REQUEST_INITIAL_FRAME_SIZE in
  initialFrame ← encode_at encodeLong initialFrame REQUEST_THREAD_ID_OFFSET threadId;
  let clientMessage := Request.addFrame clientMessage initialFrame in
  clientMessage ← Request.setMessageType clientMessage REQUEST_MESSAGE_TYPE;
  clientMessage ← Request.setPartitionId clientMessage (-1);
  clientMessage ← Request.append StringCodec.encode clientMessage name;
  clientMessage ← Request.append DataCodec.encode clientMessage key;
  clientMessage ← Request.append DataCodec.encode clientMessage testValue;
  clientMessage ← Request.append DataCodec.encode clientMessage value;
  Ok clientMessage.

Definition MapReplaceIfSameCodec_decodeResponse : Dec bool :=
  let RESPONSE_RESPONSE_OFFSET := RESPONSE_BACKUP_ACKS_OFFSET + BYTE_SIZE_IN_BYTES in
  initialFrame ← nextFrame;
  response ← decode_at decodeBoolean initialFrame RESPONSE_RESPONSE_OFFSET;
  mret response.

(** ** MapSetCodec *)

Definition MapSetCodec_encodeRequest (name : string) (key : HeapData) (value : HeapData) (threadId : long_arg L) (ttl : long_arg L) : res Request :=
  let REQUEST_MESSAGE_TYPE := 69376 in
  let REQUEST_THREAD_ID_OFFSET := PARTITION_ID_OFFSET + INT_SIZE_IN_BYTES in
  let REQUEST_TTL_OFFSET := REQUEST_THREAD_ID_OFFSET + LONG_SIZE_IN_BYTES in
  let REQUEST_INITIAL_FRAME_SIZE := REQUEST_TTL_OFFSET + LONG_SIZE_IN_BYTES in
  let clientMessage := Request.createForEncode in
  let clientMessage := Request.setRetryable clientMessage false in
  let initialFrame := initial_frame REQUEST_INITIAL_FRAME_SIZE in
  initialFrame ← encode_at encodeLong initialFrame REQUEST_THREAD_ID_OFFSET threadId;
  initialFrame ← encode_at encodeLong initialFrame REQUEST_TTL_OFFSET ttl;
  let clientMessage := Request.addFrame clientMessage initialFrame in
  clientMessage ← Request.setMessageType clientMessage REQUEST_MESSAGE_TYPE;
  clientMessage ← Request.setPartitionId clientMessage (-1);
  clientMessage ← Request.append StringCodec.encode clientMessage name;
  clientMessage ← Request.append DataCodec.encode clientMessage key;
  clientMessage ← Request.append DataCodec.encode clientMessage value;
  Ok clientMessage.

(** ** MapSetTtlCodec *)

Definition MapSetTtlCodec_encodeRequest (name : string) (key : HeapData) (ttl : long_arg L) : res Request :=
  let REQUEST_MESSAGE_TYPE := 82688 in
  let REQUEST_TTL_OFFSET := PARTITION_ID_OFFSET + INT_SIZE_IN_BYTES in
  let REQUEST_INITIAL_FRAME_SIZE := REQUEST_TTL_OFFSET + LONG_SIZE_IN_BYTES in
  let clientMessage := Request.createForEncode in
  let clientMessage := Request.setRetryable clientMessage false in
  let initialFrame := initial_frame REQUEST_INITIAL_FRAME_SIZE in
  initialFrame ← encode_at encodeLong initialFrame REQUEST_TTL_OFFSET ttl;
  let clientMessage := Request.addFrame clientMessage initialFrame in
  clientMessage ← Request.setMessageType clientMessage REQUEST_MESSAGE_TYPE;
  clientMessage ← Request.setPartitionId clientMessage (-1);
  clientMessage ← Request.append StringCodec.encode clientMessage name;
  clientMessage ← Request.append DataCodec.encode clientMessage key;
  Ok clientMessage.

Definition MapSetTtlCodec_decodeResponse : Dec bool :=
  let RESPONSE_RESPONSE_OFFSET := RESPONSE_BACKUP_ACKS_OFFSET + BYTE_SIZE_IN_BYTES in
  initialFrame ← nextFrame;
  response ← decode_at decodeBoolean initialFrame RESPONSE_RESPONSE_OFFSET;
  mret response.

(** ** MapSetWithMaxIdleCodec *)

Definition MapSetWithMaxIdleCodec_encodeRequest (name : string) (key : HeapData) (value : HeapData) (threadId : long_arg L) (ttl : long_arg L) (maxIdle : long_arg L) : res Request :=
  let REQUEST_MESSAGE_TYPE := 83712 in
  let REQUEST_THREAD_ID_OFFSET := PARTITION_ID_OFFSET + INT_SIZE_IN_BYTES in
  let REQUEST_TTL_OFFSET := REQUEST_THREAD_ID_OFFSET + LONG_SIZE_IN_BYTES in
  let REQUEST_MAX_IDLE_OFFSET := REQUEST_TTL_OFFSET + LONG_SIZE_IN_BYTES in
  let REQUEST_INITIAL_FRAME_SIZE := REQUEST_MAX_IDLE_OFFSET + LONG_SIZE_IN_BYTES in
  let clientMessage := Request.createForEncode in
  let clientMessage := Request.setRetryable clientMessage false in
  let initialFrame := initial_frame REQUEST_INITIAL_FRAME_SIZE in
  initialFrame ← encode_at encodeLong initialFrame REQUEST_THREAD_ID_OFFSET threadId;
  initialFrame ← encode_at encodeLong initialFrame REQUEST_TTL_OFFSET ttl;
  initialFrame ← encode_at encodeLong initialFrame REQUEST_MAX_IDLE_OFFSET maxIdle;
  let clientMessage := Request.addFrame clientMessage initialFrame in
  clientMessage ← Request.setMessageType clientMessage REQUEST_MESSAGE_TYPE;
  clientMessage ← Request.setPartitionId clientMessage (-1);
  clientMessage ← Request.append StringCodec.encode clientMessage name;
  clientMessage ← Request.append DataCodec.encode clientMessage key;
  clientMessage ← Request.append DataCodec.encode clientMessage value;
  Ok clientMessage.

Definition MapSetWithMaxIdleCodec_decodeResponse : Dec (option HeapData) :=
  _ ← skipFrame;
  response ← CodecUtil.decodeNullable DataCodec.decode;
  mret response.

(** ** MapSizeCodec *)

Definition MapSizeCodec_encodeRequest (name : string) : res Request :=
  let REQUEST_MESSAGE_TYPE := 76288 in
  let REQUEST_INITIAL_FRAME_SIZE := PARTITION_ID_OFFSET + INT_SIZE_IN_BYTES in
  let clientMessage := Request.createForEncode in
  let clientMessage := Request.setRetryable clientMessage true in
  let initialFrame := initial_frame REQUEST_INITIAL_FRAME_SIZE in
  let clientMessage := Request.addFrame clientMessage initialFrame in
  clientMessage ← Request.setMessageType clientMessage REQUEST_MESSAGE_TYPE;
  clientMessage ← Request.setPartitionId clientMessage (-1);
  clientMessage ← Request.append StringCodec.encode clientMessage name;
  Ok clientMessage.

Definition MapSizeCodec_decodeResponse : Dec Z :=
  let RESPONSE_RESPONSE_OFFSET := RESPONSE_BACKUP_ACKS_OFFSET + BYTE_SIZE_IN_BYTES in
  initialFrame ← nextFrame;
  response ← decode_at decodeInt initialFrame RESPONSE_RESPONSE_OFFSET;
  mret response.

(** ** MapSubmitToKeyCodec *)

Definition MapSubmitToKeyCodec_encodeRequest (name : string) (entryProcessor : HeapData) (key : HeapData) (threadId : long_arg L) : res Request :=
  let REQUEST_MESSAGE_TYPE := 77568 in
  let REQUEST_THREAD_ID_OFFSET := PARTITION_ID_OFFSET + INT_SIZE_IN_BYTES in
  let REQUEST_INITIAL_FRAME_SIZE := REQUEST_THREAD_ID_OFFSET + LONG_SIZE_IN_BYTES in
  let clientMessage := Request.createForEncode in
  let clientMessage := Request.setRetryable clientMessage false in
  let initialFrame := initial_frame REQUEST_INITIAL_FRAME_SIZE in
  initialFrame ← encode_at encodeLong initialFrame REQUEST_THREAD_ID_OFFSET threadId;
  let clientMessage := Request.addFrame clientMessage initialFrame in
  clientMessage ← Request.setMessageType clientMessage REQUEST_MESSAGE_TYPE;
  clientMessage ← Request.setPartitionId clientMessage (-1);
  clientMessage ← Request.append StringCodec.encode clientMessage name;
  clientMessage ← Request.append DataCodec.encode clientMessage entryProcessor;
  clientMessage ← Request.append DataCodec.encode clientMessage key;
  Ok clientMessage.

Definition MapSubmitToKeyCodec_decodeResponse : Dec (option HeapData) :=
  _ ← skipFrame;
  response ← CodecUtil.decodeNullable DataCodec.decode;
  mret response.

(** ** MapTryLockCodec *)

Definition MapTryLockCodec_encodeRequest (name : string) (key : HeapData) (threadId : long_arg L) (lease : long_arg L) (timeout : long_arg L) (referenceId : long_arg L) : res Request :=
  let REQUEST_MESSAGE_TYPE := 69888 in
  let REQUEST_THREAD_ID_OFFSET := PARTITION_ID_OFFSET + INT_SIZE_IN_BYTES in
  let REQUEST_LEASE_OFFSET := REQUEST_THREAD_ID_OFFSET + LONG_SIZE_IN_BYTES in
  let REQUEST_TIMEOUT_OFFSET := REQUEST_LEASE_OFFSET + LONG_SIZE_IN_BYTES in
  let REQUEST_REFERENCE_ID_OFFSET := REQUEST_TIMEOUT_OFFSET + LONG_SIZE_IN_BYTES in
  let REQUEST_INITIAL_FRAME_SIZE := REQUEST_REFERENCE_ID_OFFSET + LONG_SIZE_IN_BYTES in
  let clientMessage := Request.createForEncode in
  let clientMessage := Request.setRetryable clientMessage true in
  let initialFrame := initial_frame REQUEST_INITIAL_FRAME_SIZE in
  initialFrame ← encode_at encodeLong initialFrame REQUEST_THREAD_ID_OFFSET threadId;
  initialFrame ← encode_at encodeLong initialFrame REQUEST_LEASE_OFFSET lease;
  initialFrame ← encode_at encodeLong initialFrame REQUEST_TIMEOUT_OFFSET timeout;
  initialFrame ← encode_at encodeLong initialFrame REQUEST_REFERENCE_ID_OFFSET referenceId;
  let clientMessage := Request.addFrame clientMessage initialFrame in
  clientMessage ← Request.setMessageType clientMessage REQUEST_MESSAGE_TYPE;
  clientMessage ← Request.setPartitionId clientMessage (-1);
  clientMessage ← Request.append StringCodec.encode clientMessage name;
  clientMessage ← Request.append DataCodec.encode clientMessage key;
  Ok clientMessage.

Definition MapTryLockCodec_decodeResponse : Dec bool :=
  let RESPONSE_RESPONSE_OFFSET := RESPONSE_BACKUP_ACKS_OFFSET + BYTE_SIZE_IN_BYTES in
  initialFrame ← nextFrame;
  response ← decode_at decodeBoolean initialFrame RESPONSE_RESPONSE_OFFSET;
  mret response.

(** ** MapTryPutCodec *)

Definition MapTryPutCodec_encodeRequest (name : string) (key : HeapData) (value : HeapData) (threadId : long_arg L) (timeout : long_arg L) : res Request :=
  let REQUEST_MESSAGE_TYPE := 68608 in
  let REQUEST_THREAD_ID_OFFSET := PARTITION_ID_OFFSET + INT_SIZE_IN_BYTES in
  let REQUEST_TIMEOUT_OFFSET := REQUEST_THREAD_ID_OFFSET + LONG_SIZE_IN_BYTES in
  let REQUEST_INITIAL_FRAME_SIZE := REQUEST_TIMEOUT_OFFSET + LONG_SIZE_IN_BYTES in
  let clientMessage := Request.createForEncode in
  let clientMessage := Request.setRetryable clientMessage false in
  let initialFrame := initial_frame REQUEST_INITIAL_FRAME_SIZE in
  initialFrame ← encode_at encodeLong initialFrame REQUEST_THREAD_ID_OFFSET threadId;
  initialFrame ← encode_at encodeLong initialFrame REQUEST_TIMEOUT_OFFSET timeout;
  let clientMessage := Request.addFrame clientMessage initialFrame in
  clientMessage ← Request.setMessageType clientMessage REQUEST_MESSAGE_TYPE;
  clientMessage ← Request.setPartitionId clientMessage (-1);
  clientMessage ← Request.append StringCodec.encode clientMessage name;
  clientMessage ← Request.append DataCodec.encode clientMessage key;
  clientMessage ← Request.append DataCodec.encode clientMessage value;
  Ok clientMessage.

Definition MapTryPutCodec_decodeResponse : Dec bool :=
  let RESPONSE_RESPONSE_OFFSET := RESPONSE_BACKUP_ACKS_OFFSET + BYTE_SIZE_IN_BYTES in
  initialFrame ← nextFrame;
  response ← decode_at decodeBoolean initialFrame RESPONSE_RESPONSE_OFFSET;
  mret response.

(** ** MapTryRemoveCodec *)

Definition MapTryRemoveCodec_encodeRequest (name : string) (key : HeapData) (threadId : long_arg L) (timeout : long_arg L) : res Request :=
  let REQUEST_MESSAGE_TYPE := 68352 in
  let REQUEST_THREAD_ID_OFFSET := PARTITION_ID_OFFSET + INT_SIZE_IN_BYTES in
  let REQUEST_TIMEOUT_OFFSET := REQUEST_THREAD_ID_OFFSET + LONG_SIZE_IN_BYTES in
  let REQUEST_INITIAL_FRAME_SIZE := REQUEST_TIMEOUT_OFFSET + LONG_SIZE_IN_BYTES in
  let clientMessage := Request.createForEncode in
  let clientMessage := Request.setRetryable clientMessage false in
  let initialFrame := initial_frame REQUEST_INITIAL_FRAME_SIZE in
  initialFrame ← encode_at encodeLong initialFrame REQUEST_THREAD_ID_OFFSET threadId;
  initialFrame ← encode_at encodeLong initialFrame REQUEST_TIMEOUT_OFFSET timeout;
  let clientMessage := Request.addFrame clientMessage initialFrame in
  clientMessage ← Request.setMessageType clientMessage REQUEST_MESSAGE_TYPE;
  clientMessage ← Request.setPartitionId clientMessage (-1);
  clientMessage ← Request.append StringCodec.encode clientMessage name;
  clientMessage ← Request.append DataCodec.encode clientMessage key;
  Ok clientMessage.

Definition MapTryRemoveCodec_decodeResponse : Dec bool :=
  let RESPONSE_RESPONSE_OFFSET := RESPONSE_BACKUP_ACKS_OFFSET + BYTE_SIZE_IN_BYTES in
  initialFrame ← nextFrame;
  response ← decode_at decodeBoolean initialFrame RESPONSE_RESPONSE_OFFSET;
  mret response.

(** ** MapUnlockCodec *)

Definition MapUnlockCodec_encodeRequest (name : string) (key : HeapData) (threadId : long_arg L) (referenceId : long_arg L) : res Request :=
  let REQUEST_MESSAGE_TYPE := 70400 in
  let REQUEST_THREAD_ID_OFFSET := PARTITION_ID_OFFSET + INT_SIZE_IN_BYTES in
  let REQUEST_REFERENCE_ID_OFFSET := REQUEST_THREAD_ID_OFFSET + LONG_SIZE_IN_BYTES in
  let REQUEST_INITIAL_FRAME_SIZE := REQUEST_REFERENCE_ID_OFFSET + LONG_SIZE_IN_BYTES in
  let clientMessage := Request.createForEncode in
  let clientMessage := Request.setRetryable clientMessage true in
  let initialFrame := initial_frame REQUEST_INITIAL_FRAME_SIZE in
  initialFrame ← encode_at encodeLong initialFrame REQUEST_THREAD_ID_OFFSET threadId;
  initialFrame ← encode_at encodeLong initialFrame REQUEST_REFERENCE_ID_OFFSET referenceId;
  let clientMessage := Request.addFrame clientMessage initialFrame in
  clientMessage ← Request.setMessageType clientMessage REQUEST_MESSAGE_TYPE;
  clientMessage ← Request.setPartitionId clientMessage (-1);
  clientMessage ← Request.append StringCodec.encode clientMessage name;
  clientMessage ← Request.append DataCodec.encode clientMessage key;
  Ok clientMessage.

(** ** MapValuesCodec *)

Definition MapValuesCodec_encodeRequest (name : string) : res Request :=
  let REQUEST_MESSAGE_TYPE := 74752 in
  let REQUEST_INITIAL_FRAME_SIZE := PARTITION_ID_OFFSET + INT_SIZE_IN_BYTES in
  let clientMessage := Request.createForEncode in
  let clientMessage := Request.setRetryable clientMessage true in
  let initialFrame := initial_frame REQUEST_INITIAL_FRAME_SIZE in
  let clientMessage := Request.addFrame clientMessage initialFrame in
  clientMessage ← Request.setMessageType clientMessage REQUEST_MESSAGE_TYPE;
  clientMessage ← Request.setPartitionId clientMessage (-1);
  clientMessage ← Request.append StringCodec.encode clientMessage name;
  Ok clientMessage.

Definition MapValuesCodec_decodeResponse : Dec (list HeapData) :=
  _ ← skipFrame;
  response ← ListMultiFrameCodec.decode DataCodec.decode;
  mret response.

(** ** MapValuesWithPagingPredicateCodec *)

Definition MapValuesWithPagingPredicateCodec_encodeRequest (name : string) (predicate : PagingPredicateHolder) : res Request :=
  let REQUEST_MESSAGE_TYPE := 79104 in
  let REQUEST_INITIAL_FRAME_SIZE := PARTITION_ID_OFFSET + INT_SIZE_IN_BYTES in
  let clientMessage := Request.createForEncode in
  let clientMessage := Request.setRetryable clientMessage true in
  let initialFrame := initial_frame REQUEST_INITIAL_FRAME_SIZE in
  let clientMessage := Request.addFrame clientMessage initialFrame in
  clientMessage ← Request.setMessageType clientMessage REQUEST_MESSAGE_TYPE;
  clientMessage ← Request.setPartitionId clientMessage (-1);
  clientMessage ← Request.append StringCodec.encode clientMessage name;
  clientMessage ← Request.append PagingPredicateHolderCodec_encode clientMessage predicate;
  Ok clientMessage.

Definition MapValuesWithPagingPredicateCodec_decodeResponse : Dec MapValuesWithPagingPredicateResponseParams :=
  _ ← skipFrame;
  response ← ListMultiFrameCodec.decode DataCodec.decode;
  anchorDataList ← AnchorDataListHolderCodec_decode;
  mret (mkMapValuesWithPagingPredicateResponseParams response anchorDataList).

(** ** MapValuesWithPredicateCodec *)

Definition MapValuesWithPredicateCodec_encodeRequest (name : string) (predicate : HeapData) : res Request :=
  let REQUEST_MESSAGE_TYPE := 75520 in
  let REQUEST_INITIAL_FRAME_SIZE := PARTITION_ID_OFFSET + INT_SIZE_IN_BYTES in
  let clientMessage := Request.createForEncode in
  let clientMessage := Request.setRetryable clientMessage true in
  let initialFrame := initial_frame REQUEST_INITIAL_FRAME_SIZE in
  let clientMessage := Request.addFrame clientMessage initialFrame in
  clientMessage ← Request.setMessageType clientMessage REQUEST_MESSAGE_TYPE;
  clientMessage ← Request.setPartitionId clientMessage (-1);
  clientMessage ← Request.append StringCodec.encode clientMessage name;
  clientMessage ← Request.append DataCodec.encode clientMessage predicate;
  Ok clientMessage.

Definition MapValuesWithPredicateCodec_decodeResponse : Dec (list HeapData) :=
  _ ← skipFrame;
  response ← ListMultiFrameCodec.decode DataCodec.decode;
  mret response.
End Codecs.

(** ** Formats *)

Section Formats.
Context `{Uninit} {L : Type} `{LongLaws L}.

Definition map_requests : list RequestFormat := [
  mkRequestFormat 71936 false [F_boolean; F_int; F_boolean] [param string_codec]
    (fun f p => MapAddEntryListenerCodec_encodeRequest p.1 f.1 f.2.1 f.2.2.1);
  mkRequestFormat 71680 false [F_boolean; F_int; F_boolean] [param string_codec; param data_codec]
    (fun f p => MapAddEntryListenerToKeyCodec_encodeRequest p.1 p.2.1 f.1 f.2.1 f.2.2.1);
  mkRequestFormat 71168 false [F_boolean; F_int; F_boolean] [param string_codec; param data_codec; param data_codec]
    (fun f p => MapAddEntryListenerToKeyWithPredicateCodec_encodeRequest p.1 p.2.1 p.2.2.1 f.1 f.2.1 f.2.2.1);
  mkRequestFormat 71424 false [F_boolean; F_int; F_boolean] [param string_codec; param data_codec]
    (fun f p => MapAddEntryListenerWithPredicateCodec_encodeRequest p.1 p.2.1 f.1 f.2.1 f.2.2.1);
  mkRequestFormat 76032 false [] [param string_codec; param (struct_msg_codec index_config_codec)]
    (fun f p => MapAddIndexCodec_encodeRequest p.1 p.2.1);
  mkRequestFormat 70656 false [] [param string_codec; param data_codec]
    (fun f p => MapAddInterceptorCodec_encodeRequest p.1 p.2.1);
  mkRequestFormat 81664 false [F_int; F_boolean] [param string_codec]
    (fun f p => MapAddNearCacheInvalidationListenerCodec_encodeRequest p.1 f.1 f.2.1);
  mkRequestFormat 72448 false [F_boolean] [param string_codec]
    (fun f p => MapAddPartitionLostListenerCodec_encodeRequest p.1 f.1);
  mkRequestFormat 80128 true [] [param string_codec; param data_codec]
    (fun f p => MapAggregateCodec_encodeRequest p.1 p.2.1);
  mkRequestFormat 80384 true [] [param string_codec; param data_codec; param data_codec]
    (fun f p => MapAggregateWithPredicateCodec_encodeRequest p.1 p.2.1 p.2.2.1);
  mkRequestFormat 77056 false [] [param string_codec]
    (fun f p => MapClearCodec_encodeRequest p.1);
  mkRequestFormat 67072 true [F_long_arg] [param string_codec; param data_codec]
    (fun f p => MapContainsKeyCodec_encodeRequest p.1 p.2.1 f.1);
  mkRequestFormat 67328 true [] [param string_codec; param data_codec]
    (fun f p => MapContainsValueCodec_encodeRequest p.1 p.2.1);
  mkRequestFormat 67840 false [F_long_arg] [param string_codec; param data_codec]
    (fun f p => MapDeleteCodec_encodeRequest p.1 p.2.1 f.1);
  mkRequestFormat 79360 true [] [param string_codec; param (struct_msg_codec paging_predicate_holder_codec)]
    (fun f p => MapEntriesWithPagingPredicateCodec_encodeRequest p.1 p.2.1);
  mkRequestFormat 75776 true [] [param string_codec; param data_codec]
    (fun f p => MapEntriesWithPredicateCodec_encodeRequest p.1 p.2.1);
  mkRequestFormat 75008 true [] [param string_codec]
    (fun f p => MapEntrySetCodec_encodeRequest p.1);
  mkRequestFormat 82432 true [F_long_arg; F_int; F_int] [param string_codec; param (nullable_codec data_codec); param (nullable_codec data_codec)]
    (fun f p => MapEventJournalReadCodec_encodeRequest p.1 f.1 f.2.1 f.2.2.1 p.2.1 p.2.2.1);
  mkRequestFormat 82176 true [] [param string_codec]
    (fun f p => MapEventJournalSubscribeCodec_encodeRequest p.1);
  mkRequestFormat 73472 false [] [param string_codec]
    (fun f p => MapEvictAllCodec_encodeRequest p.1);
  mkRequestFormat 73216 false [F_long_arg] [param string_codec; param data_codec]
    (fun f p => MapEvictCodec_encodeRequest p.1 p.2.1 f.1);
  mkRequestFormat 77824 false [] [param string_codec; param data_codec]
    (fun f p => MapExecuteOnAllKeysCodec_encodeRequest p.1 p.2.1);
  mkRequestFormat 77312 false [F_long_arg] [param string_codec; param data_codec; param data_codec]
    (fun f p => MapExecuteOnKeyCodec_encodeRequest p.1 p.2.1 p.2.2.1 f.1);
  mkRequestFormat 78336 false [] [param string_codec; param data_codec; param (list_codec data_codec)]
    (fun f p => MapExecuteOnKeysCodec_encodeRequest p.1 p.2.1 p.2.2.1);
  mkRequestFormat 78080 false [] [param string_codec; param data_codec; param data_codec]
    (fun f p => MapExecuteWithPredicateCodec_encodeRequest p.1 p.2.1 p.2.2.1);
  mkRequestFormat 79872 true [F_int] [param string_codec; param entry_integer_integer_codec]
    (fun f p => MapFetchEntriesCodec_encodeRequest p.1 p.2.1 f.1);
  mkRequestFormat 79616 true [F_int] [param string_codec; param entry_integer_integer_codec]
    (fun f p => MapFetchKeysCodec_encodeRequest p.1 p.2.1 f.1);
  mkRequestFormat 81152 false [F_uuid] [param (list_codec string_codec)]
    (fun f p => MapFetchNearCacheInvalidationMetadataCodec_encodeRequest p.1 f.1);
  mkRequestFormat 81920 true [F_int] [param string_codec; param entry_integer_integer_codec; param data_codec; param data_codec]
    (fun f p => MapFetchWithQueryCodec_encodeRequest p.1 p.2.1 f.1 p.2.2.1 p.2.2.2.1);
  mkRequestFormat 68096 false [] [param string_codec]
    (fun f p => MapFlushCodec_encodeRequest p.1);
  mkRequestFormat 78592 true [F_long_arg] [param string_codec; param data_codec]
    (fun f p => MapForceUnlockCodec_encodeRequest p.1 p.2.1 f.1);
  mkRequestFormat 74496 false [] [param string_codec; param (list_codec data_codec)]
    (fun f p => MapGetAllCodec_encodeRequest p.1 p.2.1);
  mkRequestFormat 66048 true [F_long_arg] [param string_codec; param data_codec]
    (fun f p => MapGetCodec_encodeRequest p.1 p.2.1 f.1);
  mkRequestFormat 72960 true [F_long_arg] [param string_codec; param data_codec]
    (fun f p => MapGetEntryViewCodec_encodeRequest p.1 p.2.1 f.1);
  mkRequestFormat 76544 true [] [param string_codec]
    (fun f p => MapIsEmptyCodec_encodeRequest p.1);
  mkRequestFormat 70144 true [] [param string_codec; param data_codec]
    (fun f p => MapIsLockedCodec_encodeRequest p.1 p.2.1);
  mkRequestFormat 74240 true [] [param string_codec]
    (fun f p => MapKeySetCodec_encodeRequest p.1);
  mkRequestFormat 78848 true [] [param string_codec; param (struct_msg_codec paging_predicate_holder_codec)]
    (fun f p => MapKeySetWithPagingPredicateCodec_encodeRequest p.1 p.2.1);
  mkRequestFormat 75264 true [] [param string_codec; param data_codec]
    (fun f p => MapKeySetWithPredicateCodec_encodeRequest p.1 p.2.1);
  mkRequestFormat 73728 false [F_boolean] [param string_codec]
    (fun f p => MapLoadAllCodec_encodeRequest p.1 f.1);
  mkRequestFormat 73984 false [F_boolean] [param string_codec; param (list_codec data_codec)]
    (fun f p => MapLoadGivenKeysCodec_encodeRequest p.1 p.2.1 f.1);
  mkRequestFormat 69632 true [F_long_arg; F_long_arg; F_long_arg] [param string_codec; param data_codec]
    (fun f p => MapLockCodec_encodeRequest p.1 p.2.1 f.1 f.2.1 f.2.2.1);
  mkRequestFormat 80640 true [] [param string_codec; param data_codec]
    (fun f p => MapProjectCodec_encodeRequest p.1 p.2.1);
  mkRequestFormat 80896 true [] [param string_codec; param data_codec; param data_codec]
    (fun f p => MapProjectWithPredicateCodec_encodeRequest p.1 p.2.1 p.2.2.1);
  mkRequestFormat 76800 false [F_boolean] [param string_codec; param (entry_list_codec (CK := data_codec) (CV := data_codec))]
    (fun f p => MapPutAllCodec_encodeRequest p.1 p.2.1 f.1);
  mkRequestFormat 65792 false [F_long_arg; F_long_arg] [param string_codec; param data_codec; param data_codec]
    (fun f p => MapPutCodec_encodeRequest p.1 p.2.1 p.2.2.1 f.1 f.2.1);
  mkRequestFormat 69120 false [F_long_arg; F_long_arg] [param string_codec; param data_codec; param data_codec]
    (fun f p => MapPutIfAbsentCodec_encodeRequest p.1 p.2.1 p.2.2.1 f.1 f.2.1);
  mkRequestFormat 83456 false [F_long_arg; F_long_arg; F_long_arg] [param string_codec; param data_codec; param data_codec]
    (fun f p => MapPutIfAbsentWithMaxIdleCodec_encodeRequest p.1 p.2.1 p.2.2.1 f.1 f.2.1 f.2.2.1);
  mkRequestFormat 68864 false [F_long_arg; F_long_arg] [param string_codec; param data_codec; param data_codec]
    (fun f p => MapPutTransientCodec_encodeRequest p.1 p.2.1 p.2.2.1 f.1 f.2.1);
  mkRequestFormat 83200 false [F_long_arg; F_long_arg; F_long_arg] [param string_codec; param data_codec; param data_codec]
    (fun f p => MapPutTransientWithMaxIdleCodec_encodeRequest p.1 p.2.1 p.2.2.1 f.1 f.2.1 f.2.2.1);
  mkRequestFormat 82944 false [F_long_arg; F_long_arg; F_long_arg] [param string_codec; param data_codec; param data_codec]
    (fun f p => MapPutWithMaxIdleCodec_encodeRequest p.1 p.2.1 p.2.2.1 f.1 f.2.1 f.2.2.1);
  mkRequestFormat 81408 false [] [param string_codec; param data_codec]
    (fun f p => MapRemoveAllCodec_encodeRequest p.1 p.2.1);
  mkRequestFormat 66304 false [F_long_arg] [param string_codec; param data_codec]
    (fun f p => MapRemoveCodec_encodeRequest p.1 p.2.1 f.1);
  mkRequestFormat 72192 true [F_uuid] [param string_codec]
    (fun f p => MapRemoveEntryListenerCodec_encodeRequest p.1 f.1);
  mkRequestFormat 67584 false [F_long_arg] [param string_codec; param data_codec; param data_codec]
    (fun f p => MapRemoveIfSameCodec_encodeRequest p.1 p.2.1 p.2.2.1 f.1);
  mkRequestFormat 70912 false [] [param string_codec; param string_codec]
    (fun f p => MapRemoveInterceptorCodec_encodeRequest p.1 p.2.1);
  mkRequestFormat 72704 true [F_uuid] [param string_codec]
    (fun f p => MapRemovePartitionLostListenerCodec_encodeRequest p.1 f.1);
  mkRequestFormat 66560 false [F_long_arg] [param string_codec; param data_codec; param data_codec]
    (fun f p => MapReplaceCodec_encodeRequest p.1 p.2.1 p.2.2.1 f.1);
  mkRequestFormat 66816 false [F_long_arg] [param string_codec; param data_codec; param data_codec; param data_codec]
    (fun f p => MapReplaceIfSameCodec_encodeRequest p.1 p.2.1 p.2.2.1 p.2.2.2.1 f.1);
  mkRequestFormat 69376 false [F_long_arg; F_long_arg] [param string_codec; param data_codec; param data_codec]
    (fun f p => MapSetCodec_encodeRequest p.1 p.2.1 p.2.2.1 f.1 f.2.1);
  mkRequestFormat 82688 false [F_long_arg] [param string_codec; param data_codec]
    (fun f p => MapSetTtlCodec_encodeRequest p.1 p.2.1 f.1);
  mkRequestFormat 83712 false [F_long_arg; F_long_arg; F_long_arg] [param string_codec; param data_codec; param data_codec]
    (fun f p => MapSetWithMaxIdleCodec_encodeRequest p.1 p.2.1 p.2.2.1 f.1 f.2.1 f.2.2.1);
  mkRequestFormat 76288 true [] [param string_codec]
    (fun f p => MapSizeCodec_encodeRequest p.1);
  mkRequestFormat 77568 false [F_long_arg] [param string_codec; param data_codec; param data_codec]
    (fun f p => MapSubmitToKeyCodec_encodeRequest p.1 p.2.1 p.2.2.1 f.1);
  mkRequestFormat 69888 true [F_long_arg; F_long_arg; F_long_arg; F_long_arg] [param string_codec; param data_codec]
    (fun f p => MapTryLockCodec_encodeRequest p.1 p.2.1 f.1 f.2.1 f.2.2.1 f.2.2.2.1);
  mkRequestFormat 68608 false [F_long_arg; F_long_arg] [param string_codec; param data_codec; param data_codec]
    (fun f p => MapTryPutCodec_encodeRequest p.1 p.2.1 p.2.2.1 f.1 f.2.1);
  mkRequestFormat 68352 false [F_long_arg; F_long_arg] [param string_codec; param data_codec]
    (fun f p => MapTryRemoveCodec_encodeRequest p.1 p.2.1 f.1 f.2.1);
  mkRequestFormat 70400 true [F_long_arg; F_long_arg] [param string_codec; param data_codec]
    (fun f p => MapUnlockCodec_encodeRequest p.1 p.2.1 f.1 f.2.1);
  mkRequestFormat 74752 true [] [param string_codec]
    (fun f p => MapValuesCodec_encodeRequest p.1);
  mkRequestFormat 79104 true [] [param string_codec; param (struct_msg_codec paging_predicate_holder_codec)]
    (fun f p => MapValuesWithPagingPredicateCodec_encodeRequest p.1 p.2.1);
  mkRequestFormat 75520 true [] [param string_codec; param data_codec]
    (fun f p => MapValuesWithPredicateCodec_encodeRequest p.1 p.2.1)
].

Definition map_responses : list ReplyFormat := [
  mkReplyFormat [F_uuid] [] (option (UUID L))
    (fun f p => f.1) MapAddEntryListenerCodec_decodeResponse;
  mkReplyFormat [F_uuid] [] (option (UUID L))
    (fun f p => f.1) MapAddEntryListenerToKeyCodec_decodeResponse;
  mkReplyFormat [F_uuid] [] (option (UUID L))
    (fun f p => f.1) MapAddEntryListenerToKeyWithPredicateCodec_decodeResponse;
  mkReplyFormat [F_uuid] [] (option (UUID L))
    (fun f p => f.1) MapAddEntryListenerWithPredicateCodec_decodeResponse;
  mkReplyFormat [] [reply string_codec] string
    (fun f p => p.1) MapAddInterceptorCodec_decodeResponse;
  mkReplyFormat [F_uuid] [] (option (UUID L))
    (fun f p => f.1) MapAddNearCacheInvalidationListenerCodec_decodeResponse;
  mkReplyFormat [F_uuid] [] (option (UUID L))
    (fun f p => f.1) MapAddPartitionLostListenerCodec_decodeResponse;
  mkReplyFormat [] [reply (nullable_codec data_codec)] (option HeapData)
    (fun f p => p.1) MapAggregateCodec_decodeResponse;
  mkReplyFormat [] [reply (nullable_codec data_codec)] (option HeapData)
    (fun f p => p.1) MapAggregateWithPredicateCodec_decodeResponse;
  mkReplyFormat [F_boolean] [] bool
    (fun f p => f.1) MapContainsKeyCodec_decodeResponse;
  mkReplyFormat [F_boolean] [] bool
    (fun f p => f.1) MapContainsValueCodec_decodeResponse;
  mkReplyFormat [] [reply (entry_list_codec (CK := data_codec) (CV := data_codec)); reply (struct_msg_codec anchor_data_list_holder_codec)] MapEntriesWithPagingPredicateResponseParams
    (fun f p => mkMapEntriesWithPagingPredicateResponseParams p.1 p.2.1) MapEntriesWithPagingPredicateCodec_decodeResponse;
  mkReplyFormat [] [reply (entry_list_codec (CK := data_codec) (CV := data_codec))] (list (HeapData * HeapData))
    (fun f p => p.1) MapEntriesWithPredicateCodec_decodeResponse;
  mkReplyFormat [] [reply (entry_list_codec (CK := data_codec) (CV := data_codec))] (list (HeapData * HeapData))
    (fun f p => p.1) MapEntrySetCodec_decodeResponse;
  mkReplyFormat [F_int; F_long] [reply (list_codec data_codec); reply (nullable_codec list_long_codec)] (MapEventJournalReadResponseParams L)
    (fun f p => mkMapEventJournalReadResponseParams f.1 p.1 p.2.1 f.2.1) MapEventJournalReadCodec_decodeResponse;
  mkReplyFormat [F_long; F_long] [] (MapEventJournalSubscribeResponseParams L)
    (fun f p => mkMapEventJournalSubscribeResponseParams f.1 f.2.1) MapEventJournalSubscribeCodec_decodeResponse;
  mkReplyFormat [F_boolean] [] bool
    (fun f p => f.1) MapEvictCodec_decodeResponse;
  mkReplyFormat [] [reply (entry_list_codec (CK := data_codec) (CV := data_codec))] (list (HeapData * HeapData))
    (fun f p => p.1) MapExecuteOnAllKeysCodec_decodeResponse;
  mkReplyFormat [] [reply (nullable_codec data_codec)] (option HeapData)
    (fun f p => p.1) MapExecuteOnKeyCodec_decodeResponse;
  mkReplyFormat [] [reply (entry_list_codec (CK := data_codec) (CV := data_codec))] (list (HeapData * HeapData))
    (fun f p => p.1) MapExecuteOnKeysCodec_decodeResponse;
  mkReplyFormat [] [reply (entry_list_codec (CK := data_codec) (CV := data_codec))] (list (HeapData * HeapData))
    (fun f p => p.1) MapExecuteWithPredicateCodec_decodeResponse;
  mkReplyFormat [] [reply entry_integer_integer_codec; reply (entry_list_codec (CK := data_codec) (CV := data_codec))] MapFetchEntriesResponseParams
    (fun f p => mkMapFetchEntriesResponseParams p.1 p.2.1) MapFetchEntriesCodec_decodeResponse;
  mkReplyFormat [] [reply entry_integer_integer_codec; reply (list_codec data_codec)] MapFetchKeysResponseParams
    (fun f p => mkMapFetchKeysResponseParams p.1 p.2.1) MapFetchKeysCodec_decodeResponse;
  mkReplyFormat [] [reply (entry_list_codec (CK := string_codec) (CV := entry_integer_long_codec)); reply entry_integer_uuid_codec] (MapFetchNearCacheInvalidationMetadataResponseParams L)
    (fun f p => mkMapFetchNearCacheInvalidationMetadataResponseParams p.1 p.2.1) MapFetchNearCacheInvalidationMetadataCodec_decodeResponse;
  mkReplyFormat [] [reply (contains_nullable_codec data_codec); reply entry_integer_integer_codec] MapFetchWithQueryResponseParams
    (fun f p => mkMapFetchWithQueryResponseParams p.1 p.2.1) MapFetchWithQueryCodec_decodeResponse;
  mkReplyFormat [] [reply (entry_list_codec (CK := data_codec) (CV := data_codec))] (list (HeapData * HeapData))
    (fun f p => p.1) MapGetAllCodec_decodeResponse;
  mkReplyFormat [] [reply (nullable_codec data_codec)] (option HeapData)
    (fun f p => p.1) MapGetCodec_decodeResponse;
  mkReplyFormat [F_long] [reply (nullable_codec (struct_msg_codec simple_entry_view_codec))] (MapGetEntryViewResponseParams L)
    (fun f p => mkMapGetEntryViewResponseParams p.1 f.1) MapGetEntryViewCodec_decodeResponse;
  mkReplyFormat [F_boolean] [] bool
    (fun f p => f.1) MapIsEmptyCodec_decodeResponse;
  mkReplyFormat [F_boolean] [] bool
    (fun f p => f.1) MapIsLockedCodec_decodeResponse;
  mkReplyFormat [] [reply (list_codec data_codec)] (list HeapData)
    (fun f p => p.1) MapKeySetCodec_decodeResponse;
  mkReplyFormat [] [reply (list_codec data_codec); reply (struct_msg_codec anchor_data_list_holder_codec)] MapKeySetWithPagingPredicateResponseParams
    (fun f p => mkMapKeySetWithPagingPredicateResponseParams p.1 p.2.1) MapKeySetWithPagingPredicateCodec_decodeResponse;
  mkReplyFormat [] [reply (list_codec data_codec)] (list HeapData)
    (fun f p => p.1) MapKeySetWithPredicateCodec_decodeResponse;
  mkReplyFormat [] [reply (contains_nullable_codec data_codec)] (list (option HeapData))
    (fun f p => p.1) MapProjectCodec_decodeResponse;
  mkReplyFormat [] [reply (contains_nullable_codec data_codec)] (list (option HeapData))
    (fun f p => p.1) MapProjectWithPredicateCodec_decodeResponse;
  mkReplyFormat [] [reply (nullable_codec data_codec)] (option HeapData)
    (fun f p => p.1) MapPutCodec_decodeResponse;
  mkReplyFormat [] [reply (nullable_codec data_codec)] (option HeapData)
    (fun f p => p.1) MapPutIfAbsentCodec_decodeResponse;
  mkReplyFormat [] [reply (nullable_codec data_codec)] (option HeapData)
    (fun f p => p.1) MapPutIfAbsentWithMaxIdleCodec_decodeResponse;
  mkReplyFormat [] [reply (nullable_codec data_codec)] (option HeapData)
    (fun f p => p.1) MapPutTransientWithMaxIdleCodec_decodeResponse;
  mkReplyFormat [] [reply (nullable_codec data_codec)] (option HeapData)
    (fun f p => p.1) MapPutWithMaxIdleCodec_decodeResponse;
  mkReplyFormat [] [reply (nullable_codec data_codec)] (option HeapData)
    (fun f p => p.1) MapRemoveCodec_decodeResponse;
  mkReplyFormat [F_boolean] [] bool
    (fun f p => f.1) MapRemoveEntryListenerCodec_decodeResponse;
  mkReplyFormat [F_boolean] [] bool
    (fun f p => f.1) MapRemoveIfSameCodec_decodeResponse;
  mkReplyFormat [F_boolean] [] bool
    (fun f p => f.1) MapRemoveInterceptorCodec_decodeResponse;
  mkReplyFormat [F_boolean] [] bool
    (fun f p => f.1) MapRemovePartitionLostListenerCodec_decodeResponse;
  mkReplyFormat [] [reply (nullable_codec data_codec)] (option HeapData)
    (fun f p => p.1) MapReplaceCodec_decodeResponse;
  mkReplyFormat [F_boolean] [] bool
    (fun f p => f.1) MapReplaceIfSameCodec_decodeResponse;
  mkReplyFormat [F_boolean] [] bool
    (fun f p => f.1) MapSetTtlCodec_decodeResponse;
  mkReplyFormat [] [reply (nullable_codec data_codec)] (option HeapData)
    (fun f p => p.1) MapSetWithMaxIdleCodec_decodeResponse;
  mkReplyFormat [F_int] [] Z
    (fun f p => f.1) MapSizeCodec_decodeResponse;
  mkReplyFormat [] [reply (nullable_codec data_codec)] (option HeapData)
    (fun f p => p.1) MapSubmitToKeyCodec_decodeResponse;
  mkReplyFormat [F_boolean] [] bool
    (fun f p => f.1) MapTryLockCodec_decodeResponse;
  mkReplyFormat [F_boolean] [] bool
    (fun f p => f.1) MapTryPutCodec_decodeResponse;
  mkReplyFormat [F_boolean] [] bool
    (fun f p => f.1) MapTryRemoveCodec_decodeResponse;
  mkReplyFormat [] [reply (list_codec data_codec)] (list HeapData)
    (fun f p => p.1) MapValuesCodec_decodeResponse;
  mkReplyFormat [] [reply (list_codec data_codec); reply (struct_msg_codec anchor_data_list_holder_codec)] MapValuesWithPagingPredicateResponseParams
    (fun f p => mkMapValuesWithPagingPredicateResponseParams p.1 p.2.1) MapValuesWithPagingPredicateCodec_decodeResponse;
  mkReplyFormat [] [reply (list_codec data_codec)] (list HeapData)
    (fun f p => p.1) MapValuesWithPredicateCodec_decodeResponse
].

Definition map_events : list EventFormat := [
  mkEventFormat 71938 [F_int; F_uuid; F_int] [reply (nullable_codec data_codec); reply (nullable_codec data_codec); reply (nullable_codec data_codec); reply (nullable_codec data_codec)] ((option HeapData) * (option HeapData) * (option HeapData) * (option HeapData) * Z * (option (UUID L)) * Z)
    (fun f p => (p.1, p.2.1, p.2.2.1, p.2.2.2.1, f.1, f.2.1, f.2.2.1)) (MapAddEntryListenerCodec_handle (Some (fun key value oldValue mergingValue eventType uuid numberOfAffectedEntries => (key, value, oldValue, mergingValue, eventType, uuid, numberOfAffectedEntries))));
  mkEventFormat 71682 [F_int; F_uuid; F_int] [reply (nullable_codec data_codec); reply (nullable_codec data_codec); reply (nullable_codec data_codec); reply (nullable_codec data_codec)] ((option HeapData) * (option HeapData) * (option HeapData) * (option HeapData) * Z * (option (UUID L)) * Z)
    (fun f p => (p.1, p.2.1, p.2.2.1, p.2.2.2.1, f.1, f.2.1, f.2.2.1)) (MapAddEntryListenerToKeyCodec_handle (Some (fun key value oldValue mergingValue eventType uuid numberOfAffectedEntries => (key, value, oldValue, mergingValue, eventType, uuid, numberOfAffectedEntries))));
  mkEventFormat 71170 [F_int; F_uuid; F_int] [reply (nullable_codec data_codec); reply (nullable_codec data_codec); reply (nullable_codec data_codec); reply (nullable_codec data_codec)] ((option HeapData) * (option HeapData) * (option HeapData) * (option HeapData) * Z * (option (UUID L)) * Z)
    (fun f p => (p.1, p.2.1, p.2.2.1, p.2.2.2.1, f.1, f.2.1, f.2.2.1)) (MapAddEntryListenerToKeyWithPredicateCodec_handle (Some (fun key value oldValue mergingValue eventType uuid numberOfAffectedEntries => (key, value, oldValue, mergingValue, eventType, uuid, numberOfAffectedEntries))));
  mkEventFormat 71426 [F_int; F_uuid; F_int] [reply (nullable_codec data_codec); reply (nullable_codec data_codec); reply (nullable_codec data_codec); reply (nullable_codec data_codec)] ((option HeapData) * (option HeapData) * (option HeapData) * (option HeapData) * Z * (option (UUID L)) * Z)
    (fun f p => (p.1, p.2.1, p.2.2.1, p.2.2.2.1, f.1, f.2.1, f.2.2.1)) (MapAddEntryListenerWithPredicateCodec_handle (Some (fun key value oldValue mergingValue eventType uuid numberOfAffectedEntries => (key, value, oldValue, mergingValue, eventType, uuid, numberOfAffectedEntries))));
  mkEventFormat 81666 [F_uuid; F_uuid; F_long] [reply (nullable_codec data_codec)] ((option HeapData) * (option (UUID L)) * (option (UUID L)) * L)
    (fun f p => (p.1, f.1, f.2.1, f.2.2.1)) (MapAddNearCacheInvalidationListenerCodec_handle (Some (fun key sourceUuid partitionUuid sequence => (key, sourceUuid, partitionUuid, sequence))) None);
  mkEventFormat 81667 [] [reply (list_codec data_codec); reply list_uuid_codec; reply list_uuid_codec; reply list_long_codec] ((list HeapData) * (list (option (UUID L))) * (list (option (UUID L))) * (list L))
    (fun f p => (p.1, p.2.1, p.2.2.1, p.2.2.2.1)) (MapAddNearCacheInvalidationListenerCodec_handle None (Some (fun keys sourceUuids partitionUuids sequences => (keys, sourceUuids, partitionUuids, sequences))));
  mkEventFormat 72450 [F_int; F_uuid] [] (Z * (option (UUID L)))
    (fun f p => (f.1, f.2.1)) (MapAddPartitionLostListenerCodec_handle (Some (fun partitionId uuid => (partitionId, uuid))))
].

Lemma map_requests_conform : Forall request_conforms map_requests.
Proof. format_agrees map_requests. Qed.

Lemma map_responses_conform : Forall response_conforms map_responses.
Proof. format_agrees map_responses. Qed.

Lemma map_events_conform : Forall event_conforms map_events.
Proof. format_agrees map_events. Qed.
End Formats.
