(* ===== verification/CollectionRequests.v ===== *)
(** * Request codecs: lists, sets, queues, multi-maps, replicated maps, ringbuffers and topics

    The codecs of [src/src/codec/] whose names start with List, Set, Queue, MultiMap, ReplicatedMap, Ringbuffer and Topic: [encodeRequest], [decodeResponse]
    and [handle] of each, with the offsets the file computes, and the formats they implement (see [RequestCore]). *)

From S2P Require Export RequestCore RequestTypes.

Record RingbufferReadManyResponseParams {L : Type} := mkRingbufferReadManyResponseParams {
  RingbufferReadMany_readCount : Z;
  RingbufferReadMany_items : list HeapData;
  RingbufferReadMany_itemSeqs : option (list L);
  RingbufferReadMany_nextSeq : L
}.
Arguments RingbufferReadManyResponseParams L : clear implicits.
Arguments mkRingbufferReadManyResponseParams {L}.
Arguments RingbufferReadMany_readCount {L}.
Arguments RingbufferReadMany_items {L}.
Arguments RingbufferReadMany_itemSeqs {L}.
Arguments RingbufferReadMany_nextSeq {L}.

Section Codecs.
Context `{Uninit} {L : Type} `{LongLib L}.

(** ** ListAddAllCodec *)

Definition ListAddAllCodec_encodeRequest (name : string) (valueList : list HeapData) : res Request :=
  let REQUEST_MESSAGE_TYPE := 329216 in
  let REQUEST_INITIAL_FRAME_SIZE := PARTITION_ID_OFFSET + INT_SIZE_IN_BYTES in
  let clientMessage := Request.createForEncode in
  let clientMessage := Request.setRetryable clientMessage false in
  let initialFrame := initial_frame REQUEST_INITIAL_FRAME_SIZE in
  let clientMessage := Request.addFrame clientMessage initialFrame in
  clientMessage ← Request.setMessageType clientMessage REQUEST_MESSAGE_TYPE;
  clientMessage ← Request.setPartitionId clientMessage (-1);
  clientMessage ← Request.append StringCodec.encode clientMessage name;
  clientMessage ← Request.append (ListMultiFrameCodec.encode DataCodec.encode) clientMessage valueList;
  Ok clientMessage.

Definition ListAddAllCodec_decodeResponse : Dec bool :=
  let RESPONSE_RESPONSE_OFFSET := RESPONSE_BACKUP_ACKS_OFFSET + BYTE_SIZE_IN_BYTES in
  initialFrame ← nextFrame;
  response ← decode_at decodeBoolean initialFrame RESPONSE_RESPONSE_OFFSET;
  mret response.

(** ** ListAddAllWithIndexCodec *)

Definition ListAddAllWithIndexCodec_encodeRequest (name : string) (index : Z) (valueList : list HeapData) : res Request :=
  let REQUEST_MESSAGE_TYPE := 331264 in
  let REQUEST_INDEX_OFFSET := PARTITION_ID_OFFSET + INT_SIZE_IN_BYTES in
  let REQUEST_INITIAL_FRAME_SIZE := REQUEST_INDEX_OFFSET + INT_SIZE_IN_BYTES in
  let clientMessage := Request.createForEncode in
  let clientMessage := Request.setRetryable clientMessage false in
  let initialFrame := initial_frame REQUEST_INITIAL_FRAME_SIZE in
  initialFrame ← encode_at encodeInt initialFrame REQUEST_INDEX_OFFSET index;
  let clientMessage := Request.addFrame clientMessage initialFrame in
  clientMessage ← Request.setMessageType clientMessage REQUEST_MESSAGE_TYPE;
  clientMessage ← Request.setPartitionId clientMessage (-1);
  clientMessage ← Request.append StringCodec.encode clientMessage name;
  clientMessage ← Request.append (ListMultiFrameCodec.encode DataCodec.encode) clientMessage valueList;
  Ok clientMessage.

Definition ListAddAllWithIndexCodec_decodeResponse : Dec bool :=
  let RESPONSE_RESPONSE_OFFSET := RESPONSE_BACKUP_ACKS_OFFSET + BYTE_SIZE_IN_BYTES in
  initialFrame ← nextFrame;
  response ← decode_at decodeBoolean initialFrame RESPONSE_RESPONSE_OFFSET;
  mret response.

(** ** ListAddCodec *)

Definition ListAddCodec_encodeRequest (name : string) (value : HeapData) : res Request :=
  let REQUEST_MESSAGE_TYPE := 328704 in
  let REQUEST_INITIAL_FRAME_SIZE := PARTITION_ID_OFFSET + INT_SIZE_IN_BYTES in
  let clientMessage := Request.createForEncode in
  let clientMessage := Request.setRetryable clientMessage false in
  let initialFrame := initial_frame REQUEST_INITIAL_FRAME_SIZE in
  let clientMessage := Request.addFrame clientMessage initialFrame in
  clientMessage ← Request.setMessageType clientMessage REQUEST_MESSAGE_TYPE;
  clientMessage ← Request.setPartitionId clientMessage (-1);
  clientMessage ← Request.append StringCodec.encode clientMessage name;
  clientMessage ← Request.append DataCodec.encode clientMessage value;
  Ok clientMessage.

Definition ListAddCodec_decodeResponse : Dec bool :=
  let RESPONSE_RESPONSE_OFFSET := RESPONSE_BACKUP_ACKS_OFFSET + BYTE_SIZE_IN_BYTES in
  initialFrame ← nextFrame;
  response ← decode_at decodeBoolean initialFrame RESPONSE_RESPONSE_OFFSET;
  mret response.

(** ** ListAddListenerCodec *)

Definition ListAddListenerCodec_encodeRequest (name : string) (includeValue : bool) (localOnly : bool) : res Request :=
  let REQUEST_MESSAGE_TYPE := 330496 in
  let REQUEST_INCLUDE_VALUE_OFFSET := PARTITION_ID_OFFSET + INT_SIZE_IN_BYTES in
  let REQUEST_LOCAL_ONLY_OFFSET := REQUEST_INCLUDE_VALUE_OFFSET + BOOLEAN_SIZE_IN_BYTES in
  let REQUEST_INITIAL_FRAME_SIZE := REQUEST_LOCAL_ONLY_OFFSET + BOOLEAN_SIZE_IN_BYTES in
  let clientMessage := Request.createForEncode in
  let clientMessage := Request.setRetryable clientMessage false in
  let initialFrame := initial_frame REQUEST_INITIAL_FRAME_SIZE in
  initialFrame ← encode_at encodeBoolean initialFrame REQUEST_INCLUDE_VALUE_OFFSET includeValue;
  initialFrame ← encode_at encodeBoolean initialFrame REQUEST_LOCAL_ONLY_OFFSET localOnly;
  let clientMessage := Request.addFrame clientMessage initialFrame in
  clientMessage ← Request.setMessageType clientMessage REQUEST_MESSAGE_TYPE;
  clientMessage ← Request.setPartitionId clientMessage (-1);
  clientMessage ← Request.append StringCodec.encode clientMessage name;
  Ok clientMessage.

Definition ListAddListenerCodec_decodeResponse : Dec (option (UUID L)) :=
  let RESPONSE_RESPONSE_OFFSET := RESPONSE_BACKUP_ACKS_OFFSET + BYTE_SIZE_IN_BYTES in
  initialFrame ← nextFrame;
  response ← decode_at decodeUUID initialFrame RESPONSE_RESPONSE_OFFSET;
  mret response.

Definition ListAddListenerCodec_handle {T} (handleItemEvent : option (option HeapData -> option (UUID L) -> Z -> T)) : Dec (option T) :=
  let EVENT_ITEM_MESSAGE_TYPE := 330498 in
  let EVENT_ITEM_UUID_OFFSET := PARTITION_ID_OFFSET + INT_SIZE_IN_BYTES in
  let EVENT_ITEM_EVENT_TYPE_OFFSET := EVENT_ITEM_UUID_OFFSET + UUID_SIZE_IN_BYTES in
  messageType ← getMessageType;
  on_event messageType EVENT_ITEM_MESSAGE_TYPE handleItemEvent (fun handleItemEvent =>
    initialFrame ← nextFrame;
    uuid ← decode_at decodeUUID initialFrame EVENT_ITEM_UUID_OFFSET;
    eventType ← decode_at decodeInt initialFrame EVENT_ITEM_EVENT_TYPE_OFFSET;
    item ← CodecUtil.decodeNullable DataCodec.decode;
    mret (handleItemEvent item uuid eventType))
  (mret None).

(** ** ListAddWithIndexCodec *)

Definition ListAddWithIndexCodec_encodeRequest (name : string) (index : Z) (value : HeapData) : res Request :=
  let REQUEST_MESSAGE_TYPE := 332032 in
  let REQUEST_INDEX_OFFSET := PARTITION_ID_OFFSET + INT_SIZE_IN_BYTES in
  let REQUEST_INITIAL_FRAME_SIZE := REQUEST_INDEX_OFFSET + INT_SIZE_IN_BYTES in
  let clientMessage := Request.createForEncode in
  let clientMessage := Request.setRetryable clientMessage false in
  let initialFrame := initial_frame REQUEST_INITIAL_FRAME_SIZE in
  initialFrame ← encode_at encodeInt initialFrame REQUEST_INDEX_OFFSET index;
  let clientMessage := Request.addFrame clientMessage initialFrame in
  clientMessage ← Request.setMessageType clientMessage REQUEST_MESSAGE_TYPE;
  clientMessage ← Request.setPartitionId clientMessage (-1);
  clientMessage ← Request.append StringCodec.encode clientMessage name;
  clientMessage ← Request.append DataCodec.encode clientMessage value;
  Ok clientMessage.

(** ** ListClearCodec *)

Definition ListClearCodec_encodeRequest (name : string) : res Request :=
  let REQUEST_MESSAGE_TYPE := 329984 in
  let REQUEST_INITIAL_FRAME_SIZE := PARTITION_ID_OFFSET + INT_SIZE_IN_BYTES in
  let clientMessage := Request.createForEncode in
  let clientMessage := Request.setRetryable clientMessage false in
  let initialFrame := initial_frame REQUEST_INITIAL_FRAME_SIZE in
  let clientMessage := Request.addFrame clientMessage initialFrame in
  clientMessage ← Request.setMessageType clientMessage REQUEST_MESSAGE_TYPE;
  clientMessage ← Request.setPartitionId clientMessage (-1);
  clientMessage ← Request.append StringCodec.encode clientMessage name;
  Ok clientMessage.

(** ** ListCompareAndRemoveAllCodec *)

Definition ListCompareAndRemoveAllCodec_encodeRequest (name : string) (values : list HeapData) : res Request :=
  let REQUEST_MESSAGE_TYPE := 329472 in
  let REQUEST_INITIAL_FRAME_SIZE := PARTITION_ID_OFFSET + INT_SIZE_IN_BYTES in
  let clientMessage := Request.createForEncode in
  let clientMessage := Request.setRetryable clientMessage false in
  let initialFrame := initial_frame REQUEST_INITIAL_FRAME_SIZE in
  let clientMessage := Request.addFrame clientMessage initialFrame in
  clientMessage ← Request.setMessageType clientMessage REQUEST_MESSAGE_TYPE;
  clientMessage ← Request.setPartitionId clientMessage (-1);
  clientMessage ← Request.append StringCodec.encode clientMessage name;
  clientMessage ← Request.append (ListMultiFrameCodec.encode DataCodec.encode) clientMessage values;
  Ok clientMessage.

Definition ListCompareAndRemoveAllCodec_decodeResponse : Dec bool :=
  let RESPONSE_RESPONSE_OFFSET := RESPONSE_BACKUP_ACKS_OFFSET + BYTE_SIZE_IN_BYTES in
  initialFrame ← nextFrame;
  response ← decode_at decodeBoolean initialFrame RESPONSE_RESPONSE_OFFSET;
  mret response.

(** ** ListCompareAndRetainAllCodec *)

Definition ListCompareAndRetainAllCodec_encodeRequest (name : string) (values : list HeapData) : res Request :=
  let REQUEST_MESSAGE_TYPE := 329728 in
  let REQUEST_INITIAL_FRAME_SIZE := PARTITION_ID_OFFSET + INT_SIZE_IN_BYTES in
  let clientMessage := Request.createForEncode in
  let clientMessage := Request.setRetryable clientMessage false in
  let initialFrame := initial_frame REQUEST_INITIAL_FRAME_SIZE in
  let clientMessage := Request.addFrame clientMessage initialFrame in
  clientMessage ← Request.setMessageType clientMessage REQUEST_MESSAGE_TYPE;
  clientMessage ← Request.setPartitionId clientMessage (-1);
  clientMessage ← Request.append StringCodec.encode clientMessage name;
  clientMessage ← Request.append (ListMultiFrameCodec.encode DataCodec.encode) clientMessage values;
  Ok clientMessage.

Definition ListCompareAndRetainAllCodec_decodeResponse : Dec bool :=
  let RESPONSE_RESPONSE_OFFSET := RESPONSE_BACKUP_ACKS_OFFSET + BYTE_SIZE_IN_BYTES in
  initialFrame ← nextFrame;
  response ← decode_at decodeBoolean initialFrame RESPONSE_RESPONSE_OFFSET;
  mret response.

(** ** ListContainsAllCodec *)

Definition ListContainsAllCodec_encodeRequest (name : string) (values : list HeapData) : res Request :=
  let REQUEST_MESSAGE_TYPE := 328448 in
  let REQUEST_INITIAL_FRAME_SIZE := PARTITION_ID_OFFSET + INT_SIZE_IN_BYTES in
  let clientMessage := Request.createForEncode in
  let clientMessage := Request.setRetryable clientMessage true in
  let initialFrame := initial_frame REQUEST_INITIAL_FRAME_SIZE in
  let clientMessage := Request.addFrame clientMessage initialFrame in
  clientMessage ← Request.setMessageType clientMessage REQUEST_MESSAGE_TYPE;
  clientMessage ← Request.setPartitionId clientMessage (-1);
  clientMessage ← Request.append StringCodec.encode clientMessage name;
  clientMessage ← Request.append (ListMultiFrameCodec.encode DataCodec.encode) clientMessage values;
  Ok clientMessage.

Definition ListContainsAllCodec_decodeResponse : Dec bool :=
  let RESPONSE_RESPONSE_OFFSET := RESPONSE_BACKUP_ACKS_OFFSET + BYTE_SIZE_IN_BYTES in
  initialFrame ← nextFrame;
  response ← decode_at decodeBoolean initialFrame RESPONSE_RESPONSE_OFFSET;
  mret response.

(** ** ListContainsCodec *)

Definition ListContainsCodec_encodeRequest (name : string) (value : HeapData) : res Request :=
  let REQUEST_MESSAGE_TYPE := 328192 in
  let REQUEST_INITIAL_FRAME_SIZE := PARTITION_ID_OFFSET + INT_SIZE_IN_BYTES in
  let clientMessage := Request.createForEncode in
  let clientMessage := Request.setRetryable clientMessage true in
  let initialFrame := initial_frame REQUEST_INITIAL_FRAME_SIZE in
  let clientMessage := Request.addFrame clientMessage initialFrame in
  clientMessage ← Request.setMessageType clientMessage REQUEST_MESSAGE_TYPE;
  clientMessage ← Request.setPartitionId clientMessage (-1);
  clientMessage ← Request.append StringCodec.encode clientMessage name;
  clientMessage ← Request.append DataCodec.encode clientMessage value;
  Ok clientMessage.

Definition ListContainsCodec_decodeResponse : Dec bool :=
  let RESPONSE_RESPONSE_OFFSET := RESPONSE_BACKUP_ACKS_OFFSET + BYTE_SIZE_IN_BYTES in
  initialFrame ← nextFrame;
  response ← decode_at decodeBoolean initialFrame RESPONSE_RESPONSE_OFFSET;
  mret response.

(** ** ListGetAllCodec *)

Definition ListGetAllCodec_encodeRequest (name : string) : res Request :=
  let REQUEST_MESSAGE_TYPE := 330240 in
  let REQUEST_INITIAL_FRAME_SIZE := PARTITION_ID_OFFSET + INT_SIZE_IN_BYTES in
  let clientMessage := Request.createForEncode in
  let clientMessage := Request.setRetryable clientMessage true in
  let initialFrame := initial_frame REQUEST_INITIAL_FRAME_SIZE in
  let clientMessage := Request.addFrame clientMessage initialFrame in
  clientMessage ← Request.setMessageType clientMessage REQUEST_MESSAGE_TYPE;
  clientMessage ← Request.setPartitionId clientMessage (-1);
  clientMessage ← Request.append StringCodec.encode clientMessage name;
  Ok clientMessage.

Definition ListGetAllCodec_decodeResponse : Dec (list HeapData) :=
  _ ← skipFrame;
  response ← ListMultiFrameCodec.decode DataCodec.decode;
  mret response.

(** ** ListGetCodec *)

Definition ListGetCodec_encodeRequest (name : string) (index : Z) : res Request :=
  let REQUEST_MESSAGE_TYPE := 331520 in
  let REQUEST_INDEX_OFFSET := PARTITION_ID_OFFSET + INT_SIZE_IN_BYTES in
  let REQUEST_INITIAL_FRAME_SIZE := REQUEST_INDEX_OFFSET + INT_SIZE_IN_BYTES in
  let clientMessage := Request.createForEncode in
  let clientMessage := Request.setRetryable clientMessage true in
  let initialFrame := initial_frame REQUEST_INITIAL_FRAME_SIZE in
  initialFrame ← encode_at encodeInt initialFrame REQUEST_INDEX_OFFSET index;
  let clientMessage := Request.addFrame clientMessage initialFrame in
  clientMessage ← Request.setMessageType clientMessage REQUEST_MESSAGE_TYPE;
  clientMessage ← Request.setPartitionId clientMessage (-1);
  clientMessage ← Request.append StringCodec.encode clientMessage name;
  Ok clientMessage.

Definition ListGetCodec_decodeResponse : Dec (option HeapData) :=
  _ ← skipFrame;
  response ← CodecUtil.decodeNullable DataCodec.decode;
  mret response.

(** ** ListIndexOfCodec *)

Definition ListIndexOfCodec_encodeRequest (name : string) (value : HeapData) : res Request :=
  let REQUEST_MESSAGE_TYPE := 332800 in
  let REQUEST_INITIAL_FRAME_SIZE := PARTITION_ID_OFFSET + INT_SIZE_IN_BYTES in
  let clientMessage := Request.createForEncode in
  let clientMessage := Request.setRetryable clientMessage true in
  let initialFrame := initial_frame REQUEST_INITIAL_FRAME_SIZE in
  let clientMessage := Request.addFrame clientMessage initialFrame in
  clientMessage ← Request.setMessageType clientMessage REQUEST_MESSAGE_TYPE;
  clientMessage ← Request.setPartitionId clientMessage (-1);
  clientMessage ← Request.append StringCodec.encode clientMessage name;
  clientMessage ← Request.append DataCodec.encode clientMessage value;
  Ok clientMessage.

Definition ListIndexOfCodec_decodeResponse : Dec Z :=
  let RESPONSE_RESPONSE_OFFSET := RESPONSE_BACKUP_ACKS_OFFSET + BYTE_SIZE_IN_BYTES in
  initialFrame ← nextFrame;
  response ← decode_at decodeInt initialFrame RESPONSE_RESPONSE_OFFSET;
  mret response.

(** ** ListIsEmptyCodec *)

Definition ListIsEmptyCodec_encodeRequest (name : string) : res Request :=
  let REQUEST_MESSAGE_TYPE := 331008 in
  let REQUEST_INITIAL_FRAME_SIZE := PARTITION_ID_OFFSET + INT_SIZE_IN_BYTES in
  let clientMessage := Request.createForEncode in
  let clientMessage := Request.setRetryable clientMessage true in
  let initialFrame := initial_frame REQUEST_INITIAL_FRAME_SIZE in
  let clientMessage := Request.addFrame clientMessage initialFrame in
  clientMessage ← Request.setMessageType clientMessage REQUEST_MESSAGE_TYPE;
  clientMessage ← Request.setPartitionId clientMessage (-1);
  clientMessage ← Request.append StringCodec.encode clientMessage name;
  Ok clientMessage.

Definition ListIsEmptyCodec_decodeResponse : Dec bool :=
  let RESPONSE_RESPONSE_OFFSET := RESPONSE_BACKUP_ACKS_OFFSET + BYTE_SIZE_IN_BYTES in
  initialFrame ← nextFrame;
  response ← decode_at decodeBoolean initialFrame RESPONSE_RESPONSE_OFFSET;
  mret response.

(** ** ListIteratorCodec *)

Definition ListIteratorCodec_encodeRequest (name : string) : res Request :=
  let REQUEST_MESSAGE_TYPE := 333312 in
  let REQUEST_INITIAL_FRAME_SIZE := PARTITION_ID_OFFSET + INT_SIZE_IN_BYTES in
  let clientMessage := Request.createForEncode in
  let clientMessage := Request.setRetryable clientMessage true in
  let initialFrame := initial_frame REQUEST_INITIAL_FRAME_SIZE in
  let clientMessage := Request.addFrame clientMessage initialFrame in
  clientMessage ← Request.setMessageType clientMessage REQUEST_MESSAGE_TYPE;
  clientMessage ← Request.setPartitionId clientMessage (-1);
  clientMessage ← Request.append StringCodec.encode clientMessage name;
  Ok clientMessage.

Definition ListIteratorCodec_decodeResponse : Dec (list HeapData) :=
  _ ← skipFrame;
  response ← ListMultiFrameCodec.decode DataCodec.decode;
  mret response.

(** ** ListLastIndexOfCodec *)

Definition ListLastIndexOfCodec_encodeRequest (name : string) (value : HeapData) : res Request :=
  let REQUEST_MESSAGE_TYPE := 332544 in
  let REQUEST_INITIAL_FRAME_SIZE := PARTITION_ID_OFFSET + INT_SIZE_IN_BYTES in
  let clientMessage := Request.createForEncode in
  let clientMessage := Request.setRetryable clientMessage true in
  let initialFrame := initial_frame REQUEST_INITIAL_FRAME_SIZE in
  let clientMessage := Request.addFrame clientMessage initialFrame in
  clientMessage ← Request.setMessageType clientMessage REQUEST_MESSAGE_TYPE;
  clientMessage ← Request.setPartitionId clientMessage (-1);
  clientMessage ← Request.append StringCodec.encode clientMessage name;
  clientMessage ← Request.append DataCodec.encode clientMessage value;
  Ok clientMessage.

Definition ListLastIndexOfCodec_decodeResponse : Dec Z :=
  let RESPONSE_RESPONSE_OFFSET := RESPONSE_BACKUP_ACKS_OFFSET + BYTE_SIZE_IN_BYTES in
  initialFrame ← nextFrame;
  response ← decode_at decodeInt initialFrame RESPONSE_RESPONSE_OFFSET;
  mret response.

(** ** ListListIteratorCodec *)

Definition ListListIteratorCodec_encodeRequest (name : string) (index : Z) : res Request :=
  let REQUEST_MESSAGE_TYPE := 333568 in
  let REQUEST_INDEX_OFFSET := PARTITION_ID_OFFSET + INT_SIZE_IN_BYTES in
  let REQUEST_INITIAL_FRAME_SIZE := REQUEST_INDEX_OFFSET + INT_SIZE_IN_BYTES in
  let clientMessage := Request.createForEncode in
  let clientMessage := Request.setRetryable clientMessage true in
  let initialFrame := initial_frame REQUEST_INITIAL_FRAME_SIZE in
  initialFrame ← encode_at encodeInt initialFrame REQUEST_INDEX_OFFSET index;
  let clientMessage := Request.addFrame clientMessage initialFrame in
  clientMessage ← Request.setMessageType clientMessage REQUEST_MESSAGE_TYPE;
  clientMessage ← Request.setPartitionId clientMessage (-1);
  clientMessage ← Request.append StringCodec.encode clientMessage name;
  Ok clientMessage.

Definition ListListIteratorCodec_decodeResponse : Dec (list HeapData) :=
  _ ← skipFrame;
  response ← ListMultiFrameCodec.decode DataCodec.decode;
  mret response.

(** ** ListRemoveCodec *)

Definition ListRemoveCodec_encodeRequest (name : string) (value : HeapData) : res Request :=
  let REQUEST_MESSAGE_TYPE := 328960 in
  let REQUEST_INITIAL_FRAME_SIZE := PARTITION_ID_OFFSET + INT_SIZE_IN_BYTES in
  let clientMessage := Request.createForEncode in
  let clientMessage := Request.setRetryable clientMessage false in
  let initialFrame := initial_frame REQUEST_INITIAL_FRAME_SIZE in
  let clientMessage := Request.addFrame clientMessage initialFrame in
  clientMessage ← Request.setMessageType clientMessage REQUEST_MESSAGE_TYPE;
  clientMessage ← Request.setPartitionId clientMessage (-1);
  clientMessage ← Request.append StringCodec.encode clientMessage name;
  clientMessage ← Request.append DataCodec.encode clientMessage value;
  Ok clientMessage.

Definition ListRemoveCodec_decodeResponse : Dec bool :=
  let RESPONSE_RESPONSE_OFFSET := RESPONSE_BACKUP_ACKS_OFFSET + BYTE_SIZE_IN_BYTES in
  initialFrame ← nextFrame;
  response ← decode_at decodeBoolean initialFrame RESPONSE_RESPONSE_OFFSET;
  mret response.

(** ** ListRemoveListenerCodec *)

Definition ListRemoveListenerCodec_encodeRequest (name : string) (registrationId : option (UUID L)) : res Request :=
  let REQUEST_MESSAGE_TYPE := 330752 in
  let REQUEST_REGISTRATION_ID_OFFSET := PARTITION_ID_OFFSET + INT_SIZE_IN_BYTES in
  let REQUEST_INITIAL_FRAME_SIZE := REQUEST_REGISTRATION_ID_OFFSET + UUID_SIZE_IN_BYTES in
  let clientMessage := Request.createForEncode in
  let clientMessage := Request.setRetryable clientMessage true in
  let initialFrame := initial_frame REQUEST_INITIAL_FRAME_SIZE in
  initialFrame ← encode_at encodeUUID initialFrame REQUEST_REGISTRATION_ID_OFFSET registrationId;
  let clientMessage := Request.addFrame clientMessage initialFrame in
  clientMessage ← Request.setMessageType clientMessage REQUEST_MESSAGE_TYPE;
  clientMessage ← Request.setPartitionId clientMessage (-1);
  clientMessage ← Request.append StringCodec.encode clientMessage name;
  Ok clientMessage.

Definition ListRemoveListenerCodec_decodeResponse : Dec bool :=
  let RESPONSE_RESPONSE_OFFSET := RESPONSE_BACKUP_ACKS_OFFSET + BYTE_SIZE_IN_BYTES in
  initialFrame ← nextFrame;
  response ← decode_at decodeBoolean initialFrame RESPONSE_RESPONSE_OFFSET;
  mret response.

(** ** ListRemoveWithIndexCodec *)

Definition ListRemoveWithIndexCodec_encodeRequest (name : string) (index : Z) : res Request :=
  let REQUEST_MESSAGE_TYPE := 332288 in
  let REQUEST_INDEX_OFFSET := PARTITION_ID_OFFSET + INT_SIZE_IN_BYTES in
  let REQUEST_INITIAL_FRAME_SIZE := REQUEST_INDEX_OFFSET + INT_SIZE_IN_BYTES in
  let clientMessage := Request.createForEncode in
  let clientMessage := Request.setRetryable clientMessage false in
  let initialFrame := initial_frame REQUEST_INITIAL_FRAME_SIZE in
  initialFrame ← encode_at encodeInt initialFrame REQUEST_INDEX_OFFSET index;
  let clientMessage := Request.addFrame clientMessage initialFrame in
  clientMessage ← Request.setMessageType clientMessage REQUEST_MESSAGE_TYPE;
  clientMessage ← Request.setPartitionId clientMessage (-1);
  clientMessage ← Request.append StringCodec.encode clientMessage name;
  Ok clientMessage.

Definition ListRemoveWithIndexCodec_decodeResponse : Dec (option HeapData) :=
  _ ← skipFrame;
  response ← CodecUtil.decodeNullable DataCodec.decode;
  mret response.

(** ** ListSetCodec *)

Definition ListSetCodec_encodeRequest (name : string) (index : Z) (value : HeapData) : res Request :=
  let REQUEST_MESSAGE_TYPE := 331776 in
  let REQUEST_INDEX_OFFSET := PARTITION_ID_OFFSET + INT_SIZE_IN_BYTES in
  let REQUEST_INITIAL_FRAME_SIZE := REQUEST_INDEX_OFFSET + INT_SIZE_IN_BYTES in
  let clientMessage := Request.createForEncode in
  let clientMessage := Request.setRetryable clientMessage false in
  let initialFrame := initial_frame REQUEST_INITIAL_FRAME_SIZE in
  initialFrame ← encode_at encodeInt initialFrame REQUEST_INDEX_OFFSET index;
  let clientMessage := Request.addFrame clientMessage initialFrame in
  clientMessage ← Request.setMessageType clientMessage REQUEST_MESSAGE_TYPE;
  clientMessage ← Request.setPartitionId clientMessage (-1);
  clientMessage ← Request.append StringCodec.encode clientMessage name;
  clientMessage ← Request.append DataCodec.encode clientMessage value;
  Ok clientMessage.

Definition ListSetCodec_decodeResponse : Dec (option HeapData) :=
  _ ← skipFrame;
  response ← CodecUtil.decodeNullable DataCodec.decode;
  mret response.

(** ** ListSizeCodec *)

Definition ListSizeCodec_encodeRequest (name : string) : res Request :=
  let REQUEST_MESSAGE_TYPE := 327936 in
  let REQUEST_INITIAL_FRAME_SIZE := PARTITION_ID_OFFSET + INT_SIZE_IN_BYTES in
  let clientMessage := Request.createForEncode in
  let clientMessage := Request.setRetryable clientMessage true in
  let initialFrame := initial_frame REQUEST_INITIAL_FRAME_SIZE in
  let clientMessage := Request.addFrame clientMessage initialFrame in
  clientMessage ← Request.setMessageType clientMessage REQUEST_MESSAGE_TYPE;
  clientMessage ← Request.setPartitionId clientMessage (-1);
  clientMessage ← Request.append StringCodec.encode clientMessage name;
  Ok clientMessage.

Definition ListSizeCodec_decodeResponse : Dec Z :=
  let RESPONSE_RESPONSE_OFFSET := RESPONSE_BACKUP_ACKS_OFFSET + BYTE_SIZE_IN_BYTES in
  initialFrame ← nextFrame;
  response ← decode_at decodeInt initialFrame RESPONSE_RESPONSE_OFFSET;
  mret response.

(** ** ListSubCodec *)

Definition ListSubCodec_encodeRequest (name : string) (from : Z) (to : Z) : res Request :=
  let REQUEST_MESSAGE_TYPE := 333056 in
  let REQUEST_FROM_OFFSET := PARTITION_ID_OFFSET + INT_SIZE_IN_BYTES in
  let REQUEST_TO_OFFSET := REQUEST_FROM_OFFSET + INT_SIZE_IN_BYTES in
  let REQUEST_INITIAL_FRAME_SIZE := REQUEST_TO_OFFSET + INT_SIZE_IN_BYTES in
  let clientMessage := Request.createForEncode in
  let clientMessage := Request.setRetryable clientMessage true in
  let initialFrame := initial_frame REQUEST_INITIAL_FRAME_SIZE in
  initialFrame ← encode_at encodeInt initialFrame REQUEST_FROM_OFFSET from;
  initialFrame ← encode_at encodeInt initialFrame REQUEST_TO_OFFSET to;
  let clientMessage := Request.addFrame clientMessage initialFrame in
  clientMessage ← Request.setMessageType clientMessage REQUEST_MESSAGE_TYPE;
  clientMessage ← Request.setPartitionId clientMessage (-1);
  clientMessage ← Request.append StringCodec.encode clientMessage name;
  Ok clientMessage.

Definition ListSubCodec_decodeResponse : Dec (list HeapData) :=
  _ ← skipFrame;
  response ← ListMultiFrameCodec.decode DataCodec.decode;
  mret response.

(** ** MultiMapAddEntryListenerCodec *)

Definition MultiMapAddEntryListenerCodec_encodeRequest (name : string) (includeValue : bool) (localOnly : bool) : res Request :=
  let REQUEST_MESSAGE_TYPE := 134656 in
  let REQUEST_INCLUDE_VALUE_OFFSET := PARTITION_ID_OFFSET + INT_SIZE_IN_BYTES in
  let REQUEST_LOCAL_ONLY_OFFSET := REQUEST_INCLUDE_VALUE_OFFSET + BOOLEAN_SIZE_IN_BYTES in
  let REQUEST_INITIAL_FRAME_SIZE := REQUEST_LOCAL_ONLY_OFFSET + BOOLEAN_SIZE_IN_BYTES in
  let clientMessage := Request.createForEncode in
  let clientMessage := Request.setRetryable clientMessage false in
  let initialFrame := initial_frame REQUEST_INITIAL_FRAME_SIZE in
  initialFrame ← encode_at encodeBoolean initialFrame REQUEST_INCLUDE_VALUE_OFFSET includeValue;
  initialFrame ← encode_at encodeBoolean initialFrame REQUEST_LOCAL_ONLY_OFFSET localOnly;
  let clientMessage := Request.addFrame clientMessage initialFrame in
  clientMessage ← Request.setMessageType clientMessage REQUEST_MESSAGE_TYPE;
  clientMessage ← Request.setPartitionId clientMessage (-1);
  clientMessage ← Request.append StringCodec.encode clientMessage name;
  Ok clientMessage.

Definition MultiMapAddEntryListenerCodec_decodeResponse : Dec (option (UUID L)) :=
  let RESPONSE_RESPONSE_OFFSET := RESPONSE_BACKUP_ACKS_OFFSET + BYTE_SIZE_IN_BYTES in
  initialFrame ← nextFrame;
  response ← decode_at decodeUUID initialFrame RESPONSE_RESPONSE_OFFSET;
  mret response.

Definition MultiMapAddEntryListenerCodec_handle {T} (handleEntryEvent : option (option HeapData -> option HeapData -> option HeapData -> option HeapData -> Z -> option (UUID L) -> Z -> T)) : Dec (option T) :=
  let EVENT_ENTRY_MESSAGE_TYPE := 134658 in
  let EVENT_ENTRY_EVENT_TYPE_OFFSET := PARTITION_ID_OFFSET + INT_SIZE_IN_BYTES in
  let EVENT_ENTRY_UUID_OFFSET := EVENT_ENTRY_EVENT_TYPE_OFFSET + INT_SIZE_IN_BYTES in
  let EVENT_ENTRY_NUMBER_OF_AFFECTED_ENTRIES_OFFSET := EVENT_ENTRY_UUID_OFFSET + UUID_SIZE_IN_BYTES in
  messageType ← getMessageType;
  on_event messageType EVENT_ENTRY_MESSAGE_TYPE handleEntryEvent (fun handleEntryEvent =>
    initialFrame ← nextFrame;
    eventType ← decode_at decodeInt initialFrame EVENT_ENTRY_EVENT_TYPE_OFFSET;
    uuid ← decode_at decodeUUID initialFrame EVENT_ENTRY_UUID_OFFSET;
    numberOfAffectedEntries ← decode_at decodeInt initialFrame EVENT_ENTRY_NUMBER_OF_AFFECTED_ENTRIES_OFFSET;
    key ← CodecUtil.decodeNullable DataCodec.decode;
    value ← CodecUtil.decodeNullable DataCodec.decode;
    oldValue ← CodecUtil.decodeNullable DataCodec.decode;
    mergingValue ← CodecUtil.decodeNullable DataCodec.decode;
    mret (handleEntryEvent key value oldValue mergingValue eventType uuid numberOfAffectedEntries))
  (mret None).

(** ** MultiMapAddEntryListenerToKeyCodec *)

Definition MultiMapAddEntryListenerToKeyCodec_encodeRequest (name : string) (key : HeapData) (includeValue : bool) (localOnly : bool) : res Request :=
  let REQUEST_MESSAGE_TYPE := 134400 in
  let REQUEST_INCLUDE_VALUE_OFFSET := PARTITION_ID_OFFSET + INT_SIZE_IN_BYTES in
  let REQUEST_LOCAL_ONLY_OFFSET := REQUEST_INCLUDE_VALUE_OFFSET + BOOLEAN_SIZE_IN_BYTES in
  let REQUEST_INITIAL_FRAME_SIZE := REQUEST_LOCAL_ONLY_OFFSET + BOOLEAN_SIZE_IN_BYTES in
  let clientMessage := Request.createForEncode in
  let clientMessage := Request.setRetryable clientMessage false in
  let initialFrame := initial_frame REQUEST_INITIAL_FRAME_SIZE in
  initialFrame ← encode_at encodeBoolean initialFrame REQUEST_INCLUDE_VALUE_OFFSET includeValue;
  initialFrame ← encode_at encodeBoolean initialFrame REQUEST_LOCAL_ONLY_OFFSET localOnly;
  let clientMessage := Request.addFrame clientMessage initialFrame in
  clientMessage ← Request.setMessageType clientMessage REQUEST_MESSAGE_TYPE;
  clientMessage ← Request.setPartitionId clientMessage (-1);
  clientMessage ← Request.append StringCodec.encode clientMessage name;
  clientMessage ← Request.append DataCodec.encode clientMessage key;
  Ok clientMessage.

Definition MultiMapAddEntryListenerToKeyCodec_decodeResponse : Dec (option (UUID L)) :=
  let RESPONSE_RESPONSE_OFFSET := RESPONSE_BACKUP_ACKS_OFFSET + BYTE_SIZE_IN_BYTES in
  initialFrame ← nextFrame;
  response ← decode_at decodeUUID initialFrame RESPONSE_RESPONSE_OFFSET;
  mret response.

Definition MultiMapAddEntryListenerToKeyCodec_handle {T} (handleEntryEvent : option (option HeapData -> option HeapData -> option HeapData -> option HeapData -> Z -> option (UUID L) -> Z -> T)) : Dec (option T) :=
  let EVENT_ENTRY_MESSAGE_TYPE := 134402 in
  let EVENT_ENTRY_EVENT_TYPE_OFFSET := PARTITION_ID_OFFSET + INT_SIZE_IN_BYTES in
  let EVENT_ENTRY_UUID_OFFSET := EVENT_ENTRY_EVENT_TYPE_OFFSET + INT_SIZE_IN_BYTES in
  let EVENT_ENTRY_NUMBER_OF_AFFECTED_ENTRIES_OFFSET := EVENT_ENTRY_UUID_OFFSET + UUID_SIZE_IN_BYTES in
  messageType ← getMessageType;
  on_event messageType EVENT_ENTRY_MESSAGE_TYPE handleEntryEvent (fun handleEntryEvent =>
    initialFrame ← nextFrame;
    eventType ← decode_at decodeInt initialFrame EVENT_ENTRY_EVENT_TYPE_OFFSET;
    uuid ← decode_at decodeUUID initialFrame EVENT_ENTRY_UUID_OFFSET;
    numberOfAffectedEntries ← decode_at decodeInt initialFrame EVENT_ENTRY_NUMBER_OF_AFFECTED_ENTRIES_OFFSET;
    key ← CodecUtil.decodeNullable DataCodec.decode;
    value ← CodecUtil.decodeNullable DataCodec.decode;
    oldValue ← CodecUtil.decodeNullable DataCodec.decode;
    mergingValue ← CodecUtil.decodeNullable DataCodec.decode;
    mret (handleEntryEvent key value oldValue mergingValue eventType uuid numberOfAffectedEntries))
  (mret None).

(** ** MultiMapClearCodec *)

Definition MultiMapClearCodec_encodeRequest (name : string) : res Request :=
  let REQUEST_MESSAGE_TYPE := 133888 in
  let REQUEST_INITIAL_FRAME_SIZE := PARTITION_ID_OFFSET + INT_SIZE_IN_BYTES in
  let clientMessage := Request.createForEncode in
  let clientMessage := Request.setRetryable clientMessage false in
  let initialFrame := initial_frame REQUEST_INITIAL_FRAME_SIZE in
  let clientMessage := Request.addFrame clientMessage initialFrame in
  clientMessage ← Request.setMessageType clientMessage REQUEST_MESSAGE_TYPE;
  clientMessage ← Request.setPartitionId clientMessage (-1);
  clientMessage ← Request.append StringCodec.encode clientMessage name;
  Ok clientMessage.

(** ** MultiMapContainsEntryCodec *)

Definition MultiMapContainsEntryCodec_encodeRequest (name : string) (key : HeapData) (value : HeapData) (threadId : long_arg L) : res Request :=
  let REQUEST_MESSAGE_TYPE := 133376 in
  let REQUEST_THREAD_ID_OFFSET := PARTITION_ID_OFFSET + INT_SIZE_IN_BYTES in
  let REQUEST_INITIAL_FRAME_SIZE := REQUEST_THREAD_ID_OFFSET + LONG_SIZE_IN_BYTES in
  let clientMessage := Request.createForEncode in
  let clientMessage := Request.setRetryable clientMessage true in
  let initialFrame := initial_frame REQUEST_INITIAL_FRAME_SIZE in
  initialFrame ← encode_at encodeLong initialFrame REQUEST_THREAD_ID_OFFSET threadId;
  let clientMessage := Request.addFrame clientMessage initialFrame in
  clientMessage ← Request.setMessageType clientMessage REQUEST_MESSAGE_TYPE;
  clientMessage ← Request.setPartitionId clientMessage (-1);
  clientMessage ← Request.append StringCodec.encode clientMessage name;
  clientMessage ← Request.append DataCodec.encode clientMessage key;
  clientMessage ← Request.append DataCodec.encode clientMessage value;
  Ok clientMessage.

Definition MultiMapContainsEntryCodec_decodeResponse : Dec bool :=
  let RESPONSE_RESPONSE_OFFSET := RESPONSE_BACKUP_ACKS_OFFSET + BYTE_SIZE_IN_BYTES in
  initialFrame ← nextFrame;
  response ← decode_at decodeBoolean initialFrame RESPONSE_RESPONSE_OFFSET;
  mret response.

(** ** MultiMapContainsKeyCodec *)

Definition MultiMapContainsKeyCodec_encodeRequest (name : string) (key : HeapData) (threadId : long_arg L) : res Request :=
  let REQUEST_MESSAGE_TYPE := 132864 in
  let REQUEST_THREAD_ID_OFFSET := PARTITION_ID_OFFSET + INT_SIZE_IN_BYTES in
  let REQUEST_INITIAL_FRAME_SIZE := REQUEST_THREAD_ID_OFFSET + LONG_SIZE_IN_BYTES in
  let clientMessage := Request.createForEncode in
  let clientMessage := Request.setRetryable clientMessage true in
  let initialFrame := initial_frame REQUEST_INITIAL_FRAME_SIZE in
  initialFrame ← encode_at encodeLong initialFrame REQUEST_THREAD_ID_OFFSET threadId;
  let clientMessage := Request.addFrame clientMessage initialFrame in
  clientMessage ← Request.setMessageType clientMessage REQUEST_MESSAGE_TYPE;
  clientMessage ← Request.setPartitionId clientMessage (-1);
  clientMessage ← Request.append StringCodec.encode clientMessage name;
  clientMessage ← Request.append DataCodec.encode clientMessage key;
  Ok clientMessage.

Definition MultiMapContainsKeyCodec_decodeResponse : Dec bool :=
  let RESPONSE_RESPONSE_OFFSET := RESPONSE_BACKUP_ACKS_OFFSET + BYTE_SIZE_IN_BYTES in
  initialFrame ← nextFrame;
  response ← decode_at decodeBoolean initialFrame RESPONSE_RESPONSE_OFFSET;
  mret response.

(** ** MultiMapContainsValueCodec *)

Definition MultiMapContainsValueCodec_encodeRequest (name : string) (value : HeapData) : res Request :=
  let REQUEST_MESSAGE_TYPE := 133120 in
  let REQUEST_INITIAL_FRAME_SIZE := PARTITION_ID_OFFSET + INT_SIZE_IN_BYTES in
  let clientMessage := Request.createForEncode in
  let clientMessage := Request.setRetryable clientMessage true in
  let initialFrame := initial_frame REQUEST_INITIAL_FRAME_SIZE in
  let clientMessage := Request.addFrame clientMessage initialFrame in
  clientMessage ← Request.setMessageType clientMessage REQUEST_MESSAGE_TYPE;
  clientMessage ← Request.setPartitionId clientMessage (-1);
  clientMessage ← Request.append StringCodec.encode clientMessage name;
  clientMessage ← Request.append DataCodec.encode clientMessage value;
  Ok clientMessage.

Definition MultiMapContainsValueCodec_decodeResponse : Dec bool :=
  let RESPONSE_RESPONSE_OFFSET := RESPONSE_BACKUP_ACKS_OFFSET + BYTE_SIZE_IN_BYTES in
  initialFrame ← nextFrame;
  response ← decode_at decodeBoolean initialFrame RESPONSE_RESPONSE_OFFSET;
  mret response.

(** ** MultiMapDeleteCodec *)

Definition MultiMapDeleteCodec_encodeRequest (name : string) (key : HeapData) (threadId : long_arg L) : res Request :=
  let REQUEST_MESSAGE_TYPE := 136704 in
  let REQUEST_THREAD_ID_OFFSET := PARTITION_ID_OFFSET + INT_SIZE_IN_BYTES in
  let REQUEST_INITIAL_FRAME_SIZE := REQUEST_THREAD_ID_OFFSET + LONG_SIZE_IN_BYTES in
  let clientMessage := Request.createForEncode in
  let clientMessage := Request.setRetryable clientMessage false in
  let initialFrame := initial_frame REQUEST_INITIAL_FRAME_SIZE in
  initialFrame ← encode_at encodeLong initialFrame REQUEST_THREAD_ID_OFFSET threadId;
  let clientMessage := Request.addFrame clientMessage initialFrame in
  clientMessage ← Request.setMessageType clientMessage REQUEST_MESSAGE_TYPE;
  clientMessage ← Request.setPartitionId clientMessage (-1);
  clientMessage ← Request.append StringCodec.encode clientMessage name;
  clientMessage ← Request.append DataCodec.encode clientMessage key;
  Ok clientMessage.

(** ** MultiMapEntrySetCodec *)

Definition MultiMapEntrySetCodec_encodeRequest (name : string) : res Request :=
  let REQUEST_MESSAGE_TYPE := 132608 in
  let REQUEST_INITIAL_FRAME_SIZE := PARTITION_ID_OFFSET + INT_SIZE_IN_BYTES in
  let clientMessage := Request.createForEncode in
  let clientMessage := Request.setRetryable clientMessage true in
  let initialFrame := initial_frame REQUEST_INITIAL_FRAME_SIZE in
  let clientMessage := Request.addFrame clientMessage initialFrame in
  clientMessage ← Request.setMessageType clientMessage REQUEST_MESSAGE_TYPE;
  clientMessage ← Request.setPartitionId clientMessage (-1);
  clientMessage ← Request.append StringCodec.encode clientMessage name;
  Ok clientMessage.

Definition MultiMapEntrySetCodec_decodeResponse : Dec (list (HeapData * HeapData)) :=
  _ ← skipFrame;
  response ← EntryListCodec.decode DataCodec.decode DataCodec.decode;
  mret response.

(** ** MultiMapForceUnlockCodec *)

Definition MultiMapForceUnlockCodec_encodeRequest (name : string) (key : HeapData) (referenceId : long_arg L) : res Request :=
  let REQUEST_MESSAGE_TYPE := 136192 in
  let REQUEST_REFERENCE_ID_OFFSET := PARTITION_ID_OFFSET + INT_SIZE_IN_BYTES in
  let REQUEST_INITIAL_FRAME_SIZE := REQUEST_REFERENCE_ID_OFFSET + LONG_SIZE_IN_BYTES in
  let clientMessage := Request.createForEncode in
  let clientMessage := Request.setRetryable clientMessage true in
  let initialFrame := initial_frame REQUEST_INITIAL_FRAME_SIZE in
  initialFrame ← encode_at encodeLong initialFrame REQUEST_REFERENCE_ID_OFFSET referenceId;
  let clientMessage := Request.addFrame clientMessage initialFrame in
  clientMessage ← Request.setMessageType clientMessage REQUEST_MESSAGE_TYPE;
  clientMessage ← Request.setPartitionId clientMessage (-1);
  clientMessage ← Request.append StringCodec.encode clientMessage name;
  clientMessage ← Request.append DataCodec.encode clientMessage key;
  Ok clientMessage.

(** ** MultiMapGetCodec *)

Definition MultiMapGetCodec_encodeRequest (name : string) (key : HeapData) (threadId : long_arg L) : res Request :=
  let REQUEST_MESSAGE_TYPE := 131584 in
  let REQUEST_THREAD_ID_OFFSET := PARTITION_ID_OFFSET + INT_SIZE_IN_BYTES in
  let REQUEST_INITIAL_FRAME_SIZE := REQUEST_THREAD_ID_OFFSET + LONG_SIZE_IN_BYTES in
  let clientMessage := Request.createForEncode in
  let clientMessage := Request.setRetryable clientMessage true in
  let initialFrame := initial_frame REQUEST_INITIAL_FRAME_SIZE in
  initialFrame ← encode_at encodeLong initialFrame REQUEST_THREAD_ID_OFFSET threadId;
  let clientMessage := Request.addFrame clientMessage initialFrame in
  clientMessage ← Request.setMessageType clientMessage REQUEST_MESSAGE_TYPE;
  clientMessage ← Request.setPartitionId clientMessage (-1);
  clientMessage ← Request.append StringCodec.encode clientMessage name;
  clientMessage ← Request.append DataCodec.encode clientMessage key;
  Ok clientMessage.

Definition MultiMapGetCodec_decodeResponse : Dec (list HeapData) :=
  _ ← skipFrame;
  response ← ListMultiFrameCodec.decode DataCodec.decode;
  mret response.

(** ** MultiMapIsLockedCodec *)

Definition MultiMapIsLockedCodec_encodeRequest (name : string) (key : HeapData) : res Request :=
  let REQUEST_MESSAGE_TYPE := 135680 in
  let REQUEST_INITIAL_FRAME_SIZE := PARTITION_ID_OFFSET + INT_SIZE_IN_BYTES in
  let clientMessage := Request.createForEncode in
  let clientMessage := Request.setRetryable clientMessage true in
  let initialFrame := initial_frame REQUEST_INITIAL_FRAME_SIZE in
  let clientMessage := Request.addFrame clientMessage initialFrame in
  clientMessage ← Request.setMessageType clientMessage REQUEST_MESSAGE_TYPE;
  clientMessage ← Request.setPartitionId clientMessage (-1);
  clientMessage ← Request.append StringCodec.encode clientMessage name;
  clientMessage ← Request.append DataCodec.encode clientMessage key;
  Ok clientMessage.

Definition MultiMapIsLockedCodec_decodeResponse : Dec bool :=
  let RESPONSE_RESPONSE_OFFSET := RESPONSE_BACKUP_ACKS_OFFSET + BYTE_SIZE_IN_BYTES in
  initialFrame ← nextFrame;
  response ← decode_at decodeBoolean initialFrame RESPONSE_RESPONSE_OFFSET;
  mret response.

(** ** MultiMapKeySetCodec *)

Definition MultiMapKeySetCodec_encodeRequest (name : string) : res Request :=
  let REQUEST_MESSAGE_TYPE := 132096 in
  let REQUEST_INITIAL_FRAME_SIZE := PARTITION_ID_OFFSET + INT_SIZE_IN_BYTES in
  let clientMessage := Request.createForEncode in
  let clientMessage := Request.setRetryable clientMessage true in
  let initialFrame := initial_frame REQUEST_INITIAL_FRAME_SIZE in
  let clientMessage := Request.addFrame clientMessage initialFrame in
  clientMessage ← Request.setMessageType clientMessage REQUEST_MESSAGE_TYPE;
  clientMessage ← Request.setPartitionId clientMessage (-1);
  clientMessage ← Request.append StringCodec.encode clientMessage name;
  Ok clientMessage.

Definition MultiMapKeySetCodec_decodeResponse : Dec (list HeapData) :=
  _ ← skipFrame;
  response ← ListMultiFrameCodec.decode DataCodec.decode;
  mret response.

(** ** MultiMapLockCodec *)

Definition MultiMapLockCodec_encodeRequest (name : string) (key : HeapData) (threadId : long_arg L) (ttl : long_arg L) (referenceId : long_arg L) : res Request :=
  let REQUEST_MESSAGE_TYPE := 135168 in
  let REQUEST_THREAD_ID_OFFSET := PARTITION_ID_OFFSET + INT_SIZE_IN_BYTES in
  let REQUEST_TTL_OFFSET := REQUEST_THREAD_ID_OFFSET + LONG_SIZE_IN_BYTES in
  let REQUEST_REFERENCE_ID_OFFSET := REQUEST_TTL_OFFSET + LONG_SIZE_IN_BYTES in
  let REQUEST_INITIAL_FRAME_SIZE := REQUEST_REFERENCE_ID_OFFSET + LONG_SIZE_IN_BYTES in
  let clientMessage := Request.createForEncode in
  let clientMessage := Request.setRetryable clientMessage true in
  let initialFrame := initial_frame REQUEST_INITIAL_FRAME_SIZE in
  initialFrame ← encode_at encodeLong initialFrame REQUEST_THREAD_ID_OFFSET threadId;
  initialFrame ← encode_at encodeLong initialFrame REQUEST_TTL_OFFSET ttl;
  initialFrame ← encode_at encodeLong initialFrame REQUEST_REFERENCE_ID_OFFSET referenceId;
  let clientMessage := Request.addFrame clientMessage initialFrame in
  clientMessage ← Request.setMessageType clientMessage REQUEST_MESSAGE_TYPE;
  clientMessage ← Request.setPartitionId clientMessage (-1);
  clientMessage ← Request.append StringCodec.encode clientMessage name;
  clientMessage ← Request.append DataCodec.encode clientMessage key;
  Ok clientMessage.

(** ** MultiMapPutAllCodec *)

Definition MultiMapPutAllCodec_encodeRequest (name : string) (entries : list (HeapData * (list HeapData))) : res Request :=
  let REQUEST_MESSAGE_TYPE := 136960 in
  let REQUEST_INITIAL_FRAME_SIZE := PARTITION_ID_OFFSET + INT_SIZE_IN_BYTES in
  let clientMessage := Request.createForEncode in
  let clientMessage := Request.setRetryable clientMessage false in
  let initialFrame := initial_frame REQUEST_INITIAL_FRAME_SIZE in
  let clientMessage := Request.addFrame clientMessage initialFrame in
  clientMessage ← Request.setMessageType clientMessage REQUEST_MESSAGE_TYPE;
  clientMessage ← Request.setPartitionId clientMessage (-1);
  clientMessage ← Request.append StringCodec.encode clientMessage name;
  clientMessage ← Request.append (EntryListCodec.encode DataCodec.encode ListDataCodec.encode) clientMessage entries;
  Ok clientMessage.

(** ** MultiMapPutCodec *)

Definition MultiMapPutCodec_encodeRequest (name : string) (key : HeapData) (value : HeapData) (threadId : long_arg L) : res Request :=
  let REQUEST_MESSAGE_TYPE := 131328 in
  let REQUEST_THREAD_ID_OFFSET := PARTITION_ID_OFFSET + INT_SIZE_IN_BYTES in
  let REQUEST_INITIAL_FRAME_SIZE := REQUEST_THREAD_ID_OFFSET + LONG_SIZE_IN_BYTES in
  let clientMessage := Request.createForEncode in
  let clientMessage := Request.setRetryable clientMessage false in
  let initialFrame := initial_frame REQUEST_INITIAL_FRAME_SIZE in
  initialFrame ← encode_at encodeLong initialFrame REQUEST_THREAD_ID_OFFSET threadId;
  let clientMessage := Request.addFrame clientMessage initialFrame in
  clientMessage ← Request.setMessageType clientMessage REQUEST_MESSAGE_TYPE;
  clientMessage ← Request.setPartitionId clientMessage (-1);
  clientMessage ← Request.append StringCodec.encode clientMessage name;
  clientMessage ← Request.append DataCodec.encode clientMessage key;
  clientMessage ← Request.append DataCodec.encode clientMessage value;
  Ok clientMessage.

Definition MultiMapPutCodec_decodeResponse : Dec bool :=
  let RESPONSE_RESPONSE_OFFSET := RESPONSE_BACKUP_ACKS_OFFSET + BYTE_SIZE_IN_BYTES in
  initialFrame ← nextFrame;
  response ← decode_at decodeBoolean initialFrame RESPONSE_RESPONSE_OFFSET;
  mret response.

(** ** MultiMapRemoveCodec *)

Definition MultiMapRemoveCodec_encodeRequest (name : string) (key : HeapData) (threadId : long_arg L) : res Request :=
  let REQUEST_MESSAGE_TYPE := 131840 in
  let REQUEST_THREAD_ID_OFFSET := PARTITION_ID_OFFSET + INT_SIZE_IN_BYTES in
  let REQUEST_INITIAL_FRAME_SIZE := REQUEST_THREAD_ID_OFFSET + LONG_SIZE_IN_BYTES in
  let clientMessage := Request.createForEncode in
  let clientMessage := Request.setRetryable clientMessage false in
  let initialFrame := initial_frame REQUEST_INITIAL_FRAME_SIZE in
  initialFrame ← encode_at encodeLong initialFrame REQUEST_THREAD_ID_OFFSET threadId;
  let clientMessage := Request.addFrame clientMessage initialFrame in
  clientMessage ← Request.setMessageType clientMessage REQUEST_MESSAGE_TYPE;
  clientMessage ← Request.setPartitionId clientMessage (-1);
  clientMessage ← Request.append StringCodec.encode clientMessage name;
  clientMessage ← Request.append DataCodec.encode clientMessage key;
  Ok clientMessage.

Definition MultiMapRemoveCodec_decodeResponse : Dec (list HeapData) :=
  _ ← skipFrame;
  response ← ListMultiFrameCodec.decode DataCodec.decode;
  mret response.

(** ** MultiMapRemoveEntryCodec *)

Definition MultiMapRemoveEntryCodec_encodeRequest (name : string) (key : HeapData) (value : HeapData) (threadId : long_arg L) : res Request :=
  let REQUEST_MESSAGE_TYPE := 136448 in
  let REQUEST_THREAD_ID_OFFSET := PARTITION_ID_OFFSET + INT_SIZE_IN_BYTES in
  let REQUEST_INITIAL_FRAME_SIZE := REQUEST_THREAD_ID_OFFSET + LONG_SIZE_IN_BYTES in
  let clientMessage := Request.createForEncode in
  let clientMessage := Request.setRetryable clientMessage false in
  let initialFrame := initial_frame REQUEST_INITIAL_FRAME_SIZE in
  initialFrame ← encode_at encodeLong initialFrame REQUEST_THREAD_ID_OFFSET threadId;
  let clientMessage := Request.addFrame clientMessage initialFrame in
  clientMessage ← Request.setMessageType clientMessage REQUEST_MESSAGE_TYPE;
  clientMessage ← Request.setPartitionId clientMessage (-1);
  clientMessage ← Request.append StringCodec.encode clientMessage name;
  clientMessage ← Request.append DataCodec.encode clientMessage key;
  clientMessage ← Request.append DataCodec.encode clientMessage value;
  Ok clientMessage.

Definition MultiMapRemoveEntryCodec_decodeResponse : Dec bool :=
  let RESPONSE_RESPONSE_OFFSET := RESPONSE_BACKUP_ACKS_OFFSET + BYTE_SIZE_IN_BYTES in
  initialFrame ← nextFrame;
  response ← decode_at decodeBoolean initialFrame RESPONSE_RESPONSE_OFFSET;
  mret response.

(** ** MultiMapRemoveEntryListenerCodec *)

Definition MultiMapRemoveEntryListenerCodec_encodeRequest (name : string) (registrationId : option (UUID L)) : res Request :=
  let REQUEST_MESSAGE_TYPE := 134912 in
  let REQUEST_REGISTRATION_ID_OFFSET := PARTITION_ID_OFFSET + INT_SIZE_IN_BYTES in
  let REQUEST_INITIAL_FRAME_SIZE := REQUEST_REGISTRATION_ID_OFFSET + UUID_SIZE_IN_BYTES in
  let clientMessage := Request.createForEncode in
  let clientMessage := Request.setRetryable clientMessage true in
  let initialFrame := initial_frame REQUEST_INITIAL_FRAME_SIZE in
  initialFrame ← encode_at encodeUUID initialFrame REQUEST_REGISTRATION_ID_OFFSET registrationId;
  let clientMessage := Request.addFrame clientMessage initialFrame in
  clientMessage ← Request.setMessageType clientMessage REQUEST_MESSAGE_TYPE;
  clientMessage ← Request.setPartitionId clientMessage (-1);
  clientMessage ← Request.append StringCodec.encode clientMessage name;
  Ok clientMessage.

Definition MultiMapRemoveEntryListenerCodec_decodeResponse : Dec bool :=
  let RESPONSE_RESPONSE_OFFSET := RESPONSE_BACKUP_ACKS_OFFSET + BYTE_SIZE_IN_BYTES in
  initialFrame ← nextFrame;
  response ← decode_at decodeBoolean initialFrame RESPONSE_RESPONSE_OFFSET;
  mret response.

(** ** MultiMapSizeCodec *)

Definition MultiMapSizeCodec_encodeRequest (name : string) : res Request :=
  let REQUEST_MESSAGE_TYPE := 133632 in
  let REQUEST_INITIAL_FRAME_SIZE := PARTITION_ID_OFFSET + INT_SIZE_IN_BYTES in
  let clientMessage := Request.createForEncode in
  let clientMessage := Request.setRetryable clientMessage true in
  let initialFrame := initial_frame REQUEST_INITIAL_FRAME_SIZE in
  let clientMessage := Request.addFrame clientMessage initialFrame in
  clientMessage ← Request.setMessageType clientMessage REQUEST_MESSAGE_TYPE;
  clientMessage ← Request.setPartitionId clientMessage (-1);
  clientMessage ← Request.append StringCodec.encode clientMessage name;
  Ok clientMessage.

Definition MultiMapSizeCodec_decodeResponse : Dec Z :=
  let RESPONSE_RESPONSE_OFFSET := RESPONSE_BACKUP_ACKS_OFFSET + BYTE_SIZE_IN_BYTES in
  initialFrame ← nextFrame;
  response ← decode_at decodeInt initialFrame RESPONSE_RESPONSE_OFFSET;
  mret response.

(** ** MultiMapTryLockCodec *)

Definition MultiMapTryLockCodec_encodeRequest (name : string) (key : HeapData) (threadId : long_arg L) (lease : long_arg L) (timeout : long_arg L) (referenceId : long_arg L) : res Request :=
  let REQUEST_MESSAGE_TYPE := 135424 in
  let REQUEST_THREAD_ID_OFFSET := PARTITION_ID_OFFSET + INT_SIZE_IN_BYTES in
  let REQUEST_LEASE_OFFSET := REQUEST_THREAD_ID_OFFSET + LONG_SIZE_IN_BYTES in
  let REQUEST_TIMEOUT_OFFSET := REQUEST_LEASE_OFFSET + LONG_SIZE_IN_BYTES in
  let REQUEST_REFERENCE_ID_OFFSET := REQUEST_TIMEOUT_OFFSET + LONG_SIZE_IN_BYTES in
  let REQUEST_INITIAL_FRAME_SIZE := REQUEST_REFERENCE_ID_OFFSET + LONG_SIZE_IN_BYTES in
  let clientMessage := Request.createForEncode in
  let clientMessage := Request.setRetryable clientMessage true in
  let initialFrame := initial_frame REQUEST_INITIAL_FRAME_SIZE in
  initialFrame ← encode_at encodeLong initialFrame REQUEST_THREAD_ID_OFFSET threadId;
  initialFrame ← encode_at encodeLong initialFrame REQUEST_LEASE_OFFSET lease;
  initialFrame ← encode_at encodeLong initialFrame REQUEST_TIMEOUT_OFFSET timeout;
  initialFrame ← encode_at encodeLong initialFrame REQUEST_REFERENCE_ID_OFFSET referenceId;
  let clientMessage := Request.addFrame clientMessage initialFrame in
  clientMessage ← Request.setMessageType clientMessage REQUEST_MESSAGE_TYPE;
  clientMessage ← Request.setPartitionId clientMessage (-1);
  clientMessage ← Request.append StringCodec.encode clientMessage name;
  clientMessage ← Request.append DataCodec.encode clientMessage key;
  Ok clientMessage.

Definition MultiMapTryLockCodec_decodeResponse : Dec bool :=
  let RESPONSE_RESPONSE_OFFSET := RESPONSE_BACKUP_ACKS_OFFSET + BYTE_SIZE_IN_BYTES in
  initialFrame ← nextFrame;
  response ← decode_at decodeBoolean initialFrame RESPONSE_RESPONSE_OFFSET;
  mret response.

(** ** MultiMapUnlockCodec *)

Definition MultiMapUnlockCodec_encodeRequest (name : string) (key : HeapData) (threadId : long_arg L) (referenceId : long_arg L) : res Request :=
  let REQUEST_MESSAGE_TYPE := 135936 in
  let REQUEST_THREAD_ID_OFFSET := PARTITION_ID_OFFSET + INT_SIZE_IN_BYTES in
  let REQUEST_REFERENCE_ID_OFFSET := REQUEST_THREAD_ID_OFFSET + LONG_SIZE_IN_BYTES in
  let REQUEST_INITIAL_FRAME_SIZE := REQUEST_REFERENCE_ID_OFFSET + LONG_SIZE_IN_BYTES in
  let clientMessage := Request.createForEncode in
  let clientMessage := Request.setRetryable clientMessage true in
  let initialFrame := initial_frame REQUEST_INITIAL_FRAME_SIZE in
  initialFrame ← encode_at encodeLong initialFrame REQUEST_THREAD_ID_OFFSET threadId;
  initialFrame ← encode_at encodeLong initialFrame REQUEST_REFERENCE_ID_OFFSET referenceId;
  let clientMessage := Request.addFrame clientMessage initialFrame in
  clientMessage ← Request.setMessageType clientMessage REQUEST_MESSAGE_TYPE;
  clientMessage ← Request.setPartitionId clientMessage (-1);
  clientMessage ← Request.append StringCodec.encode clientMessage name;
  clientMessage ← Request.append DataCodec.encode clientMessage key;
  Ok clientMessage.

(** ** MultiMapValueCountCodec *)

Definition MultiMapValueCountCodec_encodeRequest (name : string) (key : HeapData) (threadId : long_arg L) : res Request :=
  let REQUEST_MESSAGE_TYPE := 134144 in
  let REQUEST_THREAD_ID_OFFSET := PARTITION_ID_OFFSET + INT_SIZE_IN_BYTES in
  let REQUEST_INITIAL_FRAME_SIZE := REQUEST_THREAD_ID_OFFSET + LONG_SIZE_IN_BYTES in
  let clientMessage := Request.createForEncode in
  let clientMessage := Request.setRetryable clientMessage true in
  let initialFrame := initial_frame REQUEST_INITIAL_FRAME_SIZE in
  initialFrame ← encode_at encodeLong initialFrame REQUEST_THREAD_ID_OFFSET threadId;
  let clientMessage := Request.addFrame clientMessage initialFrame in
  clientMessage ← Request.setMessageType clientMessage REQUEST_MESSAGE_TYPE;
  clientMessage ← Request.setPartitionId clientMessage (-1);
  clientMessage ← Request.append StringCodec.encode clientMessage name;
  clientMessage ← Request.append DataCodec.encode clientMessage key;
  Ok clientMessage.

Definition MultiMapValueCountCodec_decodeResponse : Dec Z :=
  let RESPONSE_RESPONSE_OFFSET := RESPONSE_BACKUP_ACKS_OFFSET + BYTE_SIZE_IN_BYTES in
  initialFrame ← nextFrame;
  response ← decode_at decodeInt initialFrame RESPONSE_RESPONSE_OFFSET;
  mret response.

(** ** MultiMapValuesCodec *)

Definition MultiMapValuesCodec_encodeRequest (name : string) : res Request :=
  let REQUEST_MESSAGE_TYPE := 132352 in
  let REQUEST_INITIAL_FRAME_SIZE := PARTITION_ID_OFFSET + INT_SIZE_IN_BYTES in
  let clientMessage := Request.createForEncode in
  let clientMessage := Request.setRetryable clientMessage true in
  let initialFrame := initial_frame REQUEST_INITIAL_FRAME_SIZE in
  let clientMessage := Request.addFrame clientMessage initialFrame in
  clientMessage ← Request.setMessageType clientMessage REQUEST_MESSAGE_TYPE;
  clientMessage ← Request.setPartitionId clientMessage (-1);
  clientMessage ← Request.append StringCodec.encode clientMessage name;
  Ok clientMessage.

Definition MultiMapValuesCodec_decodeResponse : Dec (list HeapData) :=
  _ ← skipFrame;
  response ← ListMultiFrameCodec.decode DataCodec.decode;
  mret response.

(** ** QueueAddAllCodec *)

Definition QueueAddAllCodec_encodeRequest (name : string) (dataList : list HeapData) : res Request :=
  let REQUEST_MESSAGE_TYPE := 200704 in
  let REQUEST_INITIAL_FRAME_SIZE := PARTITION_ID_OFFSET + INT_SIZE_IN_BYTES in
  let clientMessage := Request.createForEncode in
  let clientMessage := Request.setRetryable clientMessage false in
  let initialFrame := initial_frame REQUEST_INITIAL_FRAME_SIZE in
  let clientMessage := Request.addFrame clientMessage initialFrame in
  clientMessage ← Request.setMessageType clientMessage REQUEST_MESSAGE_TYPE;
  clientMessage ← Request.setPartitionId clientMessage (-1);
  clientMessage ← Request.append StringCodec.encode clientMessage name;
  clientMessage ← Request.append (ListMultiFrameCodec.encode DataCodec.encode) clientMessage dataList;
  Ok clientMessage.

Definition QueueAddAllCodec_decodeResponse : Dec bool :=
  let RESPONSE_RESPONSE_OFFSET := RESPONSE_BACKUP_ACKS_OFFSET + BYTE_SIZE_IN_BYTES in
  initialFrame ← nextFrame;
  response ← decode_at decodeBoolean initialFrame RESPONSE_RESPONSE_OFFSET;
  mret response.

(** ** QueueAddListenerCodec *)

Definition QueueAddListenerCodec_encodeRequest (name : string) (includeValue : bool) (localOnly : bool) : res Request :=
  let REQUEST_MESSAGE_TYPE := 200960 in
  let REQUEST_INCLUDE_VALUE_OFFSET := PARTITION_ID_OFFSET + INT_SIZE_IN_BYTES in
  let REQUEST_LOCAL_ONLY_OFFSET := REQUEST_INCLUDE_VALUE_OFFSET + BOOLEAN_SIZE_IN_BYTES in
  let REQUEST_INITIAL_FRAME_SIZE := REQUEST_LOCAL_ONLY_OFFSET + BOOLEAN_SIZE_IN_BYTES in
  let clientMessage := Request.createForEncode in
  let clientMessage := Request.setRetryable clientMessage false in
  let initialFrame := initial_frame REQUEST_INITIAL_FRAME_SIZE in
  initialFrame ← encode_at encodeBoolean initialFrame REQUEST_INCLUDE_VALUE_OFFSET includeValue;
  initialFrame ← encode_at encodeBoolean initialFrame REQUEST_LOCAL_ONLY_OFFSET localOnly;
  let clientMessage := Request.addFrame clientMessage initialFrame in
  clientMessage ← Request.setMessageType clientMessage REQUEST_MESSAGE_TYPE;
  clientMessage ← Request.setPartitionId clientMessage (-1);
  clientMessage ← Request.append StringCodec.encode clientMessage name;
  Ok clientMessage.

Definition QueueAddListenerCodec_decodeResponse : Dec (option (UUID L)) :=
  let RESPONSE_RESPONSE_OFFSET := RESPONSE_BACKUP_ACKS_OFFSET + BYTE_SIZE_IN_BYTES in
  initialFrame ← nextFrame;
  response ← decode_at decodeUUID initialFrame RESPONSE_RESPONSE_OFFSET;
  mret response.

Definition QueueAddListenerCodec_handle {T} (handleItemEvent : option (option HeapData -> option (UUID L) -> Z -> T)) : Dec (option T) :=
  let EVENT_ITEM_MESSAGE_TYPE := 200962 in
  let EVENT_ITEM_UUID_OFFSET := PARTITION_ID_OFFSET + INT_SIZE_IN_BYTES in
  let EVENT_ITEM_EVENT_TYPE_OFFSET := EVENT_ITEM_UUID_OFFSET + UUID_SIZE_IN_BYTES in
  messageType ← getMessageType;
  on_event messageType EVENT_ITEM_MESSAGE_TYPE handleItemEvent (fun handleItemEvent =>
    initialFrame ← nextFrame;
    uuid ← decode_at decodeUUID initialFrame EVENT_ITEM_UUID_OFFSET;
    eventType ← decode_at decodeInt initialFrame EVENT_ITEM_EVENT_TYPE_OFFSET;
    item ← CodecUtil.decodeNullable DataCodec.decode;
    mret (handleItemEvent item uuid eventType))
  (mret None).

(** ** QueueClearCodec *)

Definition QueueClearCodec_encodeRequest (name : string) : res Request :=
  let REQUEST_MESSAGE_TYPE := 200448 in
  let REQUEST_INITIAL_FRAME_SIZE := PARTITION_ID_OFFSET + INT_SIZE_IN_BYTES in
  let clientMessage := Request.createForEncode in
  let clientMessage := Request.setRetryable clientMessage false in
  let initialFrame := initial_frame REQUEST_INITIAL_FRAME_SIZE in
  let clientMessage := Request.addFrame clientMessage initialFrame in
  clientMessage ← Request.setMessageType clientMessage REQUEST_MESSAGE_TYPE;
  clientMessage ← Request.setPartitionId clientMessage (-1);
  clientMessage ← Request.append StringCodec.encode clientMessage name;
  Ok clientMessage.

(** ** QueueCompareAndRemoveAllCodec *)

Definition QueueCompareAndRemoveAllCodec_encodeRequest (name : string) (dataList : list HeapData) : res Request :=
  let REQUEST_MESSAGE_TYPE := 199936 in
  let REQUEST_INITIAL_FRAME_SIZE := PARTITION_ID_OFFSET + INT_SIZE_IN_BYTES in
  let clientMessage := Request.createForEncode in
  let clientMessage := Request.setRetryable clientMessage false in
  let initialFrame := initial_frame REQUEST_INITIAL_FRAME_SIZE in
  let clientMessage := Request.addFrame clientMessage initialFrame in
  clientMessage ← Request.setMessageType clientMessage REQUEST_MESSAGE_TYPE;
  clientMessage ← Request.setPartitionId clientMessage (-1);
  clientMessage ← Request.append StringCodec.encode clientMessage name;
  clientMessage ← Request.append (ListMultiFrameCodec.encode DataCodec.encode) clientMessage dataList;
  Ok clientMessage.

Definition QueueCompareAndRemoveAllCodec_decodeResponse : Dec bool :=
  let RESPONSE_RESPONSE_OFFSET := RESPONSE_BACKUP_ACKS_OFFSET + BYTE_SIZE_IN_BYTES in
  initialFrame ← nextFrame;
  response ← decode_at decodeBoolean initialFrame RESPONSE_RESPONSE_OFFSET;
  mret response.

(** ** QueueCompareAndRetainAllCodec *)

Definition QueueCompareAndRetainAllCodec_encodeRequest (name : string) (dataList : list HeapData) : res Request :=
  let REQUEST_MESSAGE_TYPE := 200192 in
  let REQUEST_INITIAL_FRAME_SIZE := PARTITION_ID_OFFSET + INT_SIZE_IN_BYTES in
  let clientMessage := Request.createForEncode in
  let clientMessage := Request.setRetryable clientMessage false in
  let initialFrame := initial_frame REQUEST_INITIAL_FRAME_SIZE in
  let clientMessage := Request.addFrame clientMessage initialFrame in
  clientMessage ← Request.setMessageType clientMessage REQUEST_MESSAGE_TYPE;
  clientMessage ← Request.setPartitionId clientMessage (-1);
  clientMessage ← Request.append StringCodec.encode clientMessage name;
  clientMessage ← Request.append (ListMultiFrameCodec.encode DataCodec.encode) clientMessage dataList;
  Ok clientMessage.

Definition QueueCompareAndRetainAllCodec_decodeResponse : Dec bool :=
  let RESPONSE_RESPONSE_OFFSET := RESPONSE_BACKUP_ACKS_OFFSET + BYTE_SIZE_IN_BYTES in
  initialFrame ← nextFrame;
  response ← decode_at decodeBoolean initialFrame RESPONSE_RESPONSE_OFFSET;
  mret response.

(** ** QueueContainsAllCodec *)

Definition QueueContainsAllCodec_encodeRequest (name : string) (dataList : list HeapData) : res Request :=
  let REQUEST_MESSAGE_TYPE := 199680 in
  let REQUEST_INITIAL_FRAME_SIZE := PARTITION_ID_OFFSET + INT_SIZE_IN_BYTES in
  let clientMessage := Request.createForEncode in
  let clientMessage := Request.setRetryable clientMessage false in
  let initialFrame := initial_frame REQUEST_INITIAL_FRAME_SIZE in
  let clientMessage := Request.addFrame clientMessage initialFrame in
  clientMessage ← Request.setMessageType clientMessage REQUEST_MESSAGE_TYPE;
  clientMessage ← Request.setPartitionId clientMessage (-1);
  clientMessage ← Request.append StringCodec.encode clientMessage name;
  clientMessage ← Request.append (ListMultiFrameCodec.encode DataCodec.encode) clientMessage dataList;
  Ok clientMessage.

Definition QueueContainsAllCodec_decodeResponse : Dec bool :=
  let RESPONSE_RESPONSE_OFFSET := RESPONSE_BACKUP_ACKS_OFFSET + BYTE_SIZE_IN_BYTES in
  initialFrame ← nextFrame;
  response ← decode_at decodeBoolean initialFrame RESPONSE_RESPONSE_OFFSET;
  mret response.

(** ** QueueContainsCodec *)

Definition QueueContainsCodec_encodeRequest (name : string) (value : HeapData) : res Request :=
  let REQUEST_MESSAGE_TYPE := 199424 in
  let REQUEST_INITIAL_FRAME_SIZE := PARTITION_ID_OFFSET + INT_SIZE_IN_BYTES in
  let clientMessage := Request.createForEncode in
  let clientMessage := Request.setRetryable clientMessage false in
  let initialFrame := initial_frame REQUEST_INITIAL_FRAME_SIZE in
  let clientMessage := Request.addFrame clientMessage initialFrame in
  clientMessage ← Request.setMessageType clientMessage REQUEST_MESSAGE_TYPE;
  clientMessage ← Request.setPartitionId clientMessage (-1);
  clientMessage ← Request.append StringCodec.encode clientMessage name;
  clientMessage ← Request.append DataCodec.encode clientMessage value;
  Ok clientMessage.

Definition QueueContainsCodec_decodeResponse : Dec bool :=
  let RESPONSE_RESPONSE_OFFSET := RESPONSE_BACKUP_ACKS_OFFSET + BYTE_SIZE_IN_BYTES in
  initialFrame ← nextFrame;
  response ← decode_at decodeBoolean initialFrame RESPONSE_RESPONSE_OFFSET;
  mret response.

(** ** QueueDrainToCodec *)

Definition QueueDrainToCodec_encodeRequest (name : string) : res Request :=
  let REQUEST_MESSAGE_TYPE := 198912 in
  let REQUEST_INITIAL_FRAME_SIZE := PARTITION_ID_OFFSET + INT_SIZE_IN_BYTES in
  let clientMessage := Request.createForEncode in
  let clientMessage := Request.setRetryable clientMessage false in
  let initialFrame := initial_frame REQUEST_INITIAL_FRAME_SIZE in
  let clientMessage := Request.addFrame clientMessage initialFrame in
  clientMessage ← Request.setMessageType clientMessage REQUEST_MESSAGE_TYPE;
  clientMessage ← Request.setPartitionId clientMessage (-1);
  clientMessage ← Request.append StringCodec.encode clientMessage name;
  Ok clientMessage.

Definition QueueDrainToCodec_decodeResponse : Dec (list HeapData) :=
  _ ← skipFrame;
  response ← ListMultiFrameCodec.decode DataCodec.decode;
  mret response.

(** ** QueueDrainToMaxSizeCodec *)

Definition QueueDrainToMaxSizeCodec_encodeRequest (name : string) (maxSize : Z) : res Request :=
  let REQUEST_MESSAGE_TYPE := 199168 in
  let REQUEST_MAX_SIZE_OFFSET := PARTITION_ID_OFFSET + INT_SIZE_IN_BYTES in
  let REQUEST_INITIAL_FRAME_SIZE := REQUEST_MAX_SIZE_OFFSET + INT_SIZE_IN_BYTES in
  let clientMessage := Request.createForEncode in
  let clientMessage := Request.setRetryable clientMessage false in
  let initialFrame := initial_frame REQUEST_INITIAL_FRAME_SIZE in
  initialFrame ← encode_at encodeInt initialFrame REQUEST_MAX_SIZE_OFFSET maxSize;
  let clientMessage := Request.addFrame clientMessage initialFrame in
  clientMessage ← Request.setMessageType clientMessage REQUEST_MESSAGE_TYPE;
  clientMessage ← Request.setPartitionId clientMessage (-1);
  clientMessage ← Request.append StringCodec.encode clientMessage name;
  Ok clientMessage.

Definition QueueDrainToMaxSizeCodec_decodeResponse : Dec (list HeapData) :=
  _ ← skipFrame;
  response ← ListMultiFrameCodec.decode DataCodec.decode;
  mret response.

(** ** QueueIsEmptyCodec *)

Definition QueueIsEmptyCodec_encodeRequest (name : string) : res Request :=
  let REQUEST_MESSAGE_TYPE := 201728 in
  let REQUEST_INITIAL_FRAME_SIZE := PARTITION_ID_OFFSET + INT_SIZE_IN_BYTES in
  let clientMessage := Request.createForEncode in
  let clientMessage := Request.setRetryable clientMessage false in
  let initialFrame := initial_frame REQUEST_INITIAL_FRAME_SIZE in
  let clientMessage := Request.addFrame clientMessage initialFrame in
  clientMessage ← Request.setMessageType clientMessage REQUEST_MESSAGE_TYPE;
  clientMessage ← Request.setPartitionId clientMessage (-1);
  clientMessage ← Request.append StringCodec.encode clientMessage name;
  Ok clientMessage.

Definition QueueIsEmptyCodec_decodeResponse : Dec bool :=
  let RESPONSE_RESPONSE_OFFSET := RESPONSE_BACKUP_ACKS_OFFSET + BYTE_SIZE_IN_BYTES in
  initialFrame ← nextFrame;
  response ← decode_at decodeBoolean initialFrame RESPONSE_RESPONSE_OFFSET;
  mret response.

(** ** QueueIteratorCodec *)

Definition QueueIteratorCodec_encodeRequest (name : string) : res Request :=
  let REQUEST_MESSAGE_TYPE := 198656 in
  let REQUEST_INITIAL_FRAME_SIZE := PARTITION_ID_OFFSET + INT_SIZE_IN_BYTES in
  let clientMessage := Request.createForEncode in
  let clientMessage := Request.setRetryable clientMessage false in
  let initialFrame := initial_frame REQUEST_INITIAL_FRAME_SIZE in
  let clientMessage := Request.addFrame clientMessage initialFrame in
  clientMessage ← Request.setMessageType clientMessage REQUEST_MESSAGE_TYPE;
  clientMessage ← Request.setPartitionId clientMessage (-1);
  clientMessage ← Request.append StringCodec.encode clientMessage name;
  Ok clientMessage.

Definition QueueIteratorCodec_decodeResponse : Dec (list HeapData) :=
  _ ← skipFrame;
  response ← ListMultiFrameCodec.decode DataCodec.decode;
  mret response.

(** ** QueueOfferCodec *)

Definition QueueOfferCodec_encodeRequest (name : string) (value : HeapData) (timeoutMillis : long_arg L) : res Request :=
  let REQUEST_MESSAGE_TYPE := 196864 in
  let REQUEST_TIMEOUT_MILLIS_OFFSET := PARTITION_ID_OFFSET + INT_SIZE_IN_BYTES in
  let REQUEST_INITIAL_FRAME_SIZE := REQUEST_TIMEOUT_MILLIS_OFFSET + LONG_SIZE_IN_BYTES in
  let clientMessage := Request.createForEncode in
  let clientMessage := Request.setRetryable clientMessage false in
  let initialFrame := initial_frame REQUEST_INITIAL_FRAME_SIZE in
  initialFrame ← encode_at encodeLong initialFrame REQUEST_TIMEOUT_MILLIS_OFFSET timeoutMillis;
  let clientMessage := Request.addFrame clientMessage initialFrame in
  clientMessage ← Request.setMessageType clientMessage REQUEST_MESSAGE_TYPE;
  clientMessage ← Request.setPartitionId clientMessage (-1);
  clientMessage ← Request.append StringCodec.encode clientMessage name;
  clientMessage ← Request.append DataCodec.encode clientMessage value;
  Ok clientMessage.

Definition QueueOfferCodec_decodeResponse : Dec bool :=
  let RESPONSE_RESPONSE_OFFSET := RESPONSE_BACKUP_ACKS_OFFSET + BYTE_SIZE_IN_BYTES in
  initialFrame ← nextFrame;
  response ← decode_at decodeBoolean initialFrame RESPONSE_RESPONSE_OFFSET;
  mret response.

(** ** QueuePeekCodec *)

Definition QueuePeekCodec_encodeRequest (name : string) : res Request :=
  let REQUEST_MESSAGE_TYPE := 198400 in
  let REQUEST_INITIAL_FRAME_SIZE := PARTITION_ID_OFFSET + INT_SIZE_IN_BYTES in
  let clientMessage := Request.createForEncode in
  let clientMessage := Request.setRetryable clientMessage false in
  let initialFrame := initial_frame REQUEST_INITIAL_FRAME_SIZE in
  let clientMessage := Request.addFrame clientMessage initialFrame in
  clientMessage ← Request.setMessageType clientMessage REQUEST_MESSAGE_TYPE;
  clientMessage ← Request.setPartitionId clientMessage (-1);
  clientMessage ← Request.append StringCodec.encode clientMessage name;
  Ok clientMessage.

Definition QueuePeekCodec_decodeResponse : Dec (option HeapData) :=
  _ ← skipFrame;
  response ← CodecUtil.decodeNullable DataCodec.decode;
  mret response.

(** ** QueuePollCodec *)

Definition QueuePollCodec_encodeRequest (name : string) (timeoutMillis : long_arg L) : res Request :=
  let REQUEST_MESSAGE_TYPE := 197888 in
  let REQUEST_TIMEOUT_MILLIS_OFFSET := PARTITION_ID_OFFSET + INT_SIZE_IN_BYTES in
  let REQUEST_INITIAL_FRAME_SIZE := REQUEST_TIMEOUT_MILLIS_OFFSET + LONG_SIZE_IN_BYTES in
  let clientMessage := Request.createForEncode in
  let clientMessage := Request.setRetryable clientMessage false in
  let initialFrame := initial_frame REQUEST_INITIAL_FRAME_SIZE in
  initialFrame ← encode_at encodeLong initialFrame REQUEST_TIMEOUT_MILLIS_OFFSET timeoutMillis;
  let clientMessage := Request.addFrame clientMessage initialFrame in
  clientMessage ← Request.setMessageType clientMessage REQUEST_MESSAGE_TYPE;
  clientMessage ← Request.setPartitionId clientMessage (-1);
  clientMessage ← Request.append StringCodec.encode clientMessage name;
  Ok clientMessage.

Definition QueuePollCodec_decodeResponse : Dec (option HeapData) :=
  _ ← skipFrame;
  response ← CodecUtil.decodeNullable DataCodec.decode;
  mret response.

(** ** QueuePutCodec *)

Definition QueuePutCodec_encodeRequest (name : string) (value : HeapData) : res Request :=
  let REQUEST_MESSAGE_TYPE := 197120 in
  let REQUEST_INITIAL_FRAME_SIZE := PARTITION_ID_OFFSET + INT_SIZE_IN_BYTES in
  let clientMessage := Request.createForEncode in
  let clientMessage := Request.setRetryable clientMessage false in
  let initialFrame := initial_frame REQUEST_INITIAL_FRAME_SIZE in
  let clientMessage := Request.addFrame clientMessage initialFrame in
  clientMessage ← Request.setMessageType clientMessage REQUEST_MESSAGE_TYPE;
  clientMessage ← Request.setPartitionId clientMessage (-1);
  clientMessage ← Request.append StringCodec.encode clientMessage name;
  clientMessage ← Request.append DataCodec.encode clientMessage value;
  Ok clientMessage.

(** ** QueueRemainingCapacityCodec *)

Definition QueueRemainingCapacityCodec_encodeRequest (name : string) : res Request :=
  let REQUEST_MESSAGE_TYPE := 201472 in
  let REQUEST_INITIAL_FRAME_SIZE := PARTITION_ID_OFFSET + INT_SIZE_IN_BYTES in
  let clientMessage := Request.createForEncode in
  let clientMessage := Request.setRetryable clientMessage false in
  let initialFrame := initial_frame REQUEST_INITIAL_FRAME_SIZE in
  let clientMessage := Request.addFrame clientMessage initialFrame in
  clientMessage ← Request.setMessageType clientMessage REQUEST_MESSAGE_TYPE;
  clientMessage ← Request.setPartitionId clientMessage (-1);
  clientMessage ← Request.append StringCodec.encode clientMessage name;
  Ok clientMessage.

Definition QueueRemainingCapacityCodec_decodeResponse : Dec Z :=
  let RESPONSE_RESPONSE_OFFSET := RESPONSE_BACKUP_ACKS_OFFSET + BYTE_SIZE_IN_BYTES in
  initialFrame ← nextFrame;
  response ← decode_at decodeInt initialFrame RESPONSE_RESPONSE_OFFSET;
  mret response.

(** ** QueueRemoveCodec *)

Definition QueueRemoveCodec_encodeRequest (name : string) (value : HeapData) : res Request :=
  let REQUEST_MESSAGE_TYPE := 197632 in
  let REQUEST_INITIAL_FRAME_SIZE := PARTITION_ID_OFFSET + INT_SIZE_IN_BYTES in
  let clientMessage := Request.createForEncode in
  let clientMessage := Request.setRetryable clientMessage false in
  let initialFrame := initial_frame REQUEST_INITIAL_FRAME_SIZE in
  let clientMessage := Request.addFrame clientMessage initialFrame in
  clientMessage ← Request.setMessageType clientMessage REQUEST_MESSAGE_TYPE;
  clientMessage ← Request.setPartitionId clientMessage (-1);
  clientMessage ← Request.append StringCodec.encode clientMessage name;
  clientMessage ← Request.append DataCodec.encode clientMessage value;
  Ok clientMessage.

Definition QueueRemoveCodec_decodeResponse : Dec bool :=
  let RESPONSE_RESPONSE_OFFSET := RESPONSE_BACKUP_ACKS_OFFSET + BYTE_SIZE_IN_BYTES in
  initialFrame ← nextFrame;
  response ← decode_at decodeBoolean initialFrame RESPONSE_RESPONSE_OFFSET;
  mret response.

(** ** QueueRemoveListenerCodec *)

Definition QueueRemoveListenerCodec_encodeRequest (name : string) (registrationId : option (UUID L)) : res Request :=
  let REQUEST_MESSAGE_TYPE := 201216 in
  let REQUEST_REGISTRATION_ID_OFFSET := PARTITION_ID_OFFSET + INT_SIZE_IN_BYTES in
  let REQUEST_INITIAL_FRAME_SIZE := REQUEST_REGISTRATION_ID_OFFSET + UUID_SIZE_IN_BYTES in
  let clientMessage := Request.createForEncode in
  let clientMessage := Request.setRetryable clientMessage true in
  let initialFrame := initial_frame REQUEST_INITIAL_FRAME_SIZE in
  initialFrame ← encode_at encodeUUID initialFrame REQUEST_REGISTRATION_ID_OFFSET registrationId;
  let clientMessage := Request.addFrame clientMessage initialFrame in
  clientMessage ← Request.setMessageType clientMessage REQUEST_MESSAGE_TYPE;
  clientMessage ← Request.setPartitionId clientMessage (-1);
  clientMessage ← Request.append StringCodec.encode clientMessage name;
  Ok clientMessage.

Definition QueueRemoveListenerCodec_decodeResponse : Dec bool :=
  let RESPONSE_RESPONSE_OFFSET := RESPONSE_BACKUP_ACKS_OFFSET + BYTE_SIZE_IN_BYTES in
  initialFrame ← nextFrame;
  response ← decode_at decodeBoolean initialFrame RESPONSE_RESPONSE_OFFSET;
  mret response.

(** ** QueueSizeCodec *)

Definition QueueSizeCodec_encodeRequest (name : string) : res Request :=
  let REQUEST_MESSAGE_TYPE := 197376 in
  let REQUEST_INITIAL_FRAME_SIZE := PARTITION_ID_OFFSET + INT_SIZE_IN_BYTES in
  let clientMessage := Request.createForEncode in
  let clientMessage := Request.setRetryable clientMessage false in
  let initialFrame := initial_frame REQUEST_INITIAL_FRAME_SIZE in
  let clientMessage := Request.addFrame clientMessage initialFrame in
  clientMessage ← Request.setMessageType clientMessage REQUEST_MESSAGE_TYPE;
  clientMessage ← Request.setPartitionId clientMessage (-1);
  clientMessage ← Request.append StringCodec.encode clientMessage name;
  Ok clientMessage.

Definition QueueSizeCodec_decodeResponse : Dec Z :=
  let RESPONSE_RESPONSE_OFFSET := RESPONSE_BACKUP_ACKS_OFFSET + BYTE_SIZE_IN_BYTES in
  initialFrame ← nextFrame;
  response ← decode_at decodeInt initialFrame RESPONSE_RESPONSE_OFFSET;
  mret response.

(** ** QueueTakeCodec *)

Definition QueueTakeCodec_encodeRequest (name : string) : res Request :=
  let REQUEST_MESSAGE_TYPE := 198144 in
  let REQUEST_INITIAL_FRAME_SIZE := PARTITION_ID_OFFSET + INT_SIZE_IN_BYTES in
  let clientMessage := Request.createForEncode in
  let clientMessage := Request.setRetryable clientMessage false in
  let initialFrame := initial_frame REQUEST_INITIAL_FRAME_SIZE in
  let clientMessage := Request.addFrame clientMessage initialFrame in
  clientMessage ← Request.setMessageType clientMessage REQUEST_MESSAGE_TYPE;
  clientMessage ← Request.setPartitionId clientMessage (-1);
  clientMessage ← Request.append StringCodec.encode clientMessage name;
  Ok clientMessage.

Definition QueueTakeCodec_decodeResponse : Dec (option HeapData) :=
  _ ← skipFrame;
  response ← CodecUtil.decodeNullable DataCodec.decode;
  mret response.

(** ** ReplicatedMapAddEntryListenerCodec *)

Definition ReplicatedMapAddEntryListenerCodec_encodeRequest (name : string) (localOnly : bool) : res Request :=
  let REQUEST_MESSAGE_TYPE := 855296 in
  let REQUEST_LOCAL_ONLY_OFFSET := PARTITION_ID_OFFSET + INT_SIZE_IN_BYTES in
  let REQUEST_INITIAL_FRAME_SIZE := REQUEST_LOCAL_ONLY_OFFSET + BOOLEAN_SIZE_IN_BYTES in
  let clientMessage := Request.createForEncode in
  let clientMessage := Request.setRetryable clientMessage false in
  let initialFrame := initial_frame REQUEST_INITIAL_FRAME_SIZE in
  initialFrame ← encode_at encodeBoolean initialFrame REQUEST_LOCAL_ONLY_OFFSET localOnly;
  let clientMessage := Request.addFrame clientMessage initialFrame in
  clientMessage ← Request.setMessageType clientMessage REQUEST_MESSAGE_TYPE;
  clientMessage ← Request.setPartitionId clientMessage (-1);
  clientMessage ← Request.append StringCodec.encode clientMessage name;
  Ok clientMessage.

Definition ReplicatedMapAddEntryListenerCodec_decodeResponse : Dec (option (UUID L)) :=
  let RESPONSE_RESPONSE_OFFSET := RESPONSE_BACKUP_ACKS_OFFSET + BYTE_SIZE_IN_BYTES in
  initialFrame ← nextFrame;
  response ← decode_at decodeUUID initialFrame RESPONSE_RESPONSE_OFFSET;
  mret response.

Definition ReplicatedMapAddEntryListenerCodec_handle {T} (handleEntryEvent : option (option HeapData -> option HeapData -> option HeapData -> option HeapData -> Z -> option (UUID L) -> Z -> T)) : Dec (option T) :=
  let EVENT_ENTRY_MESSAGE_TYPE := 855298 in
  let EVENT_ENTRY_EVENT_TYPE_OFFSET := PARTITION_ID_OFFSET + INT_SIZE_IN_BYTES in
  let EVENT_ENTRY_UUID_OFFSET := EVENT_ENTRY_EVENT_TYPE_OFFSET + INT_SIZE_IN_BYTES in
  let EVENT_ENTRY_NUMBER_OF_AFFECTED_ENTRIES_OFFSET := EVENT_ENTRY_UUID_OFFSET + UUID_SIZE_IN_BYTES in
  messageType ← getMessageType;
  on_event messageType EVENT_ENTRY_MESSAGE_TYPE handleEntryEvent (fun handleEntryEvent =>
    initialFrame ← nextFrame;
    eventType ← decode_at decodeInt initialFrame EVENT_ENTRY_EVENT_TYPE_OFFSET;
    uuid ← decode_at decodeUUID initialFrame EVENT_ENTRY_UUID_OFFSET;
    numberOfAffectedEntries ← decode_at decodeInt initialFrame EVENT_ENTRY_NUMBER_OF_AFFECTED_ENTRIES_OFFSET;
    key ← CodecUtil.decodeNullable DataCodec.decode;
    value ← CodecUtil.decodeNullable DataCodec.decode;
    oldValue ← CodecUtil.decodeNullable DataCodec.decode;
    mergingValue ← CodecUtil.decodeNullable DataCodec.decode;
    mret (handleEntryEvent key value oldValue mergingValue eventType uuid numberOfAffectedEntries))
  (mret None).

(** ** ReplicatedMapAddEntryListenerToKeyCodec *)

Definition ReplicatedMapAddEntryListenerToKeyCodec_encodeRequest (name : string) (key : HeapData) (localOnly : bool) : res Request :=
  let REQUEST_MESSAGE_TYPE := 855040 in
  let REQUEST_LOCAL_ONLY_OFFSET := PARTITION_ID_OFFSET + INT_SIZE_IN_BYTES in
  let REQUEST_INITIAL_FRAME_SIZE := REQUEST_LOCAL_ONLY_OFFSET + BOOLEAN_SIZE_IN_BYTES in
  let clientMessage := Request.createForEncode in
  let clientMessage := Request.setRetryable clientMessage false in
  let initialFrame := initial_frame REQUEST_INITIAL_FRAME_SIZE in
  initialFrame ← encode_at encodeBoolean initialFrame REQUEST_LOCAL_ONLY_OFFSET localOnly;
  let clientMessage := Request.addFrame clientMessage initialFrame in
  clientMessage ← Request.setMessageType clientMessage REQUEST_MESSAGE_TYPE;
  clientMessage ← Request.setPartitionId clientMessage (-1);
  clientMessage ← Request.append StringCodec.encode clientMessage name;
  clientMessage ← Request.append DataCodec.encode clientMessage key;
  Ok clientMessage.

Definition ReplicatedMapAddEntryListenerToKeyCodec_decodeResponse : Dec (option (UUID L)) :=
  let RESPONSE_RESPONSE_OFFSET := RESPONSE_BACKUP_ACKS_OFFSET + BYTE_SIZE_IN_BYTES in
  initialFrame ← nextFrame;
  response ← decode_at decodeUUID initialFrame RESPONSE_RESPONSE_OFFSET;
  mret response.

Definition ReplicatedMapAddEntryListenerToKeyCodec_handle {T} (handleEntryEvent : option (option HeapData -> option HeapData -> option HeapData -> option HeapData -> Z -> option (UUID L) -> Z -> T)) : Dec (option T) :=
  let EVENT_ENTRY_MESSAGE_TYPE := 855042 in
  let EVENT_ENTRY_EVENT_TYPE_OFFSET := PARTITION_ID_OFFSET + INT_SIZE_IN_BYTES in
  let EVENT_ENTRY_UUID_OFFSET := EVENT_ENTRY_EVENT_TYPE_OFFSET + INT_SIZE_IN_BYTES in
  let EVENT_ENTRY_NUMBER_OF_AFFECTED_ENTRIES_OFFSET := EVENT_ENTRY_UUID_OFFSET + UUID_SIZE_IN_BYTES in
  messageType ← getMessageType;
  on_event messageType EVENT_ENTRY_MESSAGE_TYPE handleEntryEvent (fun handleEntryEvent =>
    initialFrame ← nextFrame;
    eventType ← decode_at decodeInt initialFrame EVENT_ENTRY_EVENT_TYPE_OFFSET;
    uuid ← decode_at decodeUUID initialFrame EVENT_ENTRY_UUID_OFFSET;
    numberOfAffectedEntries ← decode_at decodeInt initialFrame EVENT_ENTRY_NUMBER_OF_AFFECTED_ENTRIES_OFFSET;
    key ← CodecUtil.decodeNullable DataCodec.decode;
    value ← CodecUtil.decodeNullable DataCodec.decode;
    oldValue ← CodecUtil.decodeNullable DataCodec.decode;
    mergingValue ← CodecUtil.decodeNullable DataCodec.decode;
    mret (handleEntryEvent key value oldValue mergingValue eventType uuid numberOfAffectedEntries))
  (mret None).

(** ** ReplicatedMapAddEntryListenerToKeyWithPredicateCodec *)

Definition ReplicatedMapAddEntryListenerToKeyWithPredicateCodec_encodeRequest (name : string) (key : HeapData) (predicate : HeapData) (localOnly : bool) : res Request :=
  let REQUEST_MESSAGE_TYPE := 854528 in
  let REQUEST_LOCAL_ONLY_OFFSET := PARTITION_ID_OFFSET + INT_SIZE_IN_BYTES in
  let REQUEST_INITIAL_FRAME_SIZE := REQUEST_LOCAL_ONLY_OFFSET + BOOLEAN_SIZE_IN_BYTES in
  let clientMessage := Request.createForEncode in
  let clientMessage := Request.setRetryable clientMessage false in
  let initialFrame := initial_frame REQUEST_INITIAL_FRAME_SIZE in
  initialFrame ← encode_at encodeBoolean initialFrame REQUEST_LOCAL_ONLY_OFFSET localOnly;
  let clientMessage := Request.addFrame clientMessage initialFrame in
  clientMessage ← Request.setMessageType clientMessage REQUEST_MESSAGE_TYPE;
  clientMessage ← Request.setPartitionId clientMessage (-1);
  clientMessage ← Request.append StringCodec.encode clientMessage name;
  clientMessage ← Request.append DataCodec.encode clientMessage key;
  clientMessage ← Request.append DataCodec.encode clientMessage predicate;
  Ok clientMessage.

Definition ReplicatedMapAddEntryListenerToKeyWithPredicateCodec_decodeResponse : Dec (option (UUID L)) :=
  let RESPONSE_RESPONSE_OFFSET := RESPONSE_BACKUP_ACKS_OFFSET + BYTE_SIZE_IN_BYTES in
  initialFrame ← nextFrame;
  response ← decode_at decodeUUID initialFrame RESPONSE_RESPONSE_OFFSET;
  mret response.

Definition ReplicatedMapAddEntryListenerToKeyWithPredicateCodec_handle {T} (handleEntryEvent : option (option HeapData -> option HeapData -> option HeapData -> option HeapData -> Z -> option (UUID L) -> Z -> T)) : Dec (option T) :=
  let EVENT_ENTRY_MESSAGE_TYPE := 854530 in
  let EVENT_ENTRY_EVENT_TYPE_OFFSET := PARTITION_ID_OFFSET + INT_SIZE_IN_BYTES in
  let EVENT_ENTRY_UUID_OFFSET := EVENT_ENTRY_EVENT_TYPE_OFFSET + INT_SIZE_IN_BYTES in
  let EVENT_ENTRY_NUMBER_OF_AFFECTED_ENTRIES_OFFSET := EVENT_ENTRY_UUID_OFFSET + UUID_SIZE_IN_BYTES in
  messageType ← getMessageType;
  on_event messageType EVENT_ENTRY_MESSAGE_TYPE handleEntryEvent (fun handleEntryEvent =>
    initialFrame ← nextFrame;
    eventType ← decode_at decodeInt initialFrame EVENT_ENTRY_EVENT_TYPE_OFFSET;
    uuid ← decode_at decodeUUID initialFrame EVENT_ENTRY_UUID_OFFSET;
    numberOfAffectedEntries ← decode_at decodeInt initialFrame EVENT_ENTRY_NUMBER_OF_AFFECTED_ENTRIES_OFFSET;
    key ← CodecUtil.decodeNullable DataCodec.decode;
    value ← CodecUtil.decodeNullable DataCodec.decode;
    oldValue ← CodecUtil.decodeNullable DataCodec.decode;
    mergingValue ← CodecUtil.decodeNullable DataCodec.decode;
    mret (handleEntryEvent key value oldValue mergingValue eventType uuid numberOfAffectedEntries))
  (mret None).

(** ** ReplicatedMapAddEntryListenerWithPredicateCodec *)

Definition ReplicatedMapAddEntryListenerWithPredicateCodec_encodeRequest (name : string) (predicate : HeapData) (localOnly : bool) : res Request :=
  let REQUEST_MESSAGE_TYPE := 854784 in
  let REQUEST_LOCAL_ONLY_OFFSET := PARTITION_ID_OFFSET + INT_SIZE_IN_BYTES in
  let REQUEST_INITIAL_FRAME_SIZE := REQUEST_LOCAL_ONLY_OFFSET + BOOLEAN_SIZE_IN_BYTES in
  let clientMessage := Request.createForEncode in
  let clientMessage := Request.setRetryable clientMessage false in
  let initialFrame := initial_frame REQUEST_INITIAL_FRAME_SIZE in
  initialFrame ← encode_at encodeBoolean initialFrame REQUEST_LOCAL_ONLY_OFFSET localOnly;
  let clientMessage := Request.addFrame clientMessage initialFrame in
  clientMessage ← Request.setMessageType clientMessage REQUEST_MESSAGE_TYPE;
  clientMessage ← Request.setPartitionId clientMessage (-1);
  clientMessage ← Request.append StringCodec.encode clientMessage name;
  clientMessage ← Request.append DataCodec.encode clientMessage predicate;
  Ok clientMessage.

Definition ReplicatedMapAddEntryListenerWithPredicateCodec_decodeResponse : Dec (option (UUID L)) :=
  let RESPONSE_RESPONSE_OFFSET := RESPONSE_BACKUP_ACKS_OFFSET + BYTE_SIZE_IN_BYTES in
  initialFrame ← nextFrame;
  response ← decode_at decodeUUID initialFrame RESPONSE_RESPONSE_OFFSET;
  mret response.

Definition ReplicatedMapAddEntryListenerWithPredicateCodec_handle {T} (handleEntryEvent : option (option HeapData -> option HeapData -> option HeapData -> option HeapData -> Z -> option (UUID L) -> Z -> T)) : Dec (option T) :=
  let EVENT_ENTRY_MESSAGE_TYPE := 854786 in
  let EVENT_ENTRY_EVENT_TYPE_OFFSET := PARTITION_ID_OFFSET + INT_SIZE_IN_BYTES in
  let EVENT_ENTRY_UUID_OFFSET := EVENT_ENTRY_EVENT_TYPE_OFFSET + INT_SIZE_IN_BYTES in
  let EVENT_ENTRY_NUMBER_OF_AFFECTED_ENTRIES_OFFSET := EVENT_ENTRY_UUID_OFFSET + UUID_SIZE_IN_BYTES in
  messageType ← getMessageType;
  on_event messageType EVENT_ENTRY_MESSAGE_TYPE handleEntryEvent (fun handleEntryEvent =>
    initialFrame ← nextFrame;
    eventType ← decode_at decodeInt initialFrame EVENT_ENTRY_EVENT_TYPE_OFFSET;
    uuid ← decode_at decodeUUID initialFrame EVENT_ENTRY_UUID_OFFSET;
    numberOfAffectedEntries ← decode_at decodeInt initialFrame EVENT_ENTRY_NUMBER_OF_AFFECTED_ENTRIES_OFFSET;
    key ← CodecUtil.decodeNullable DataCodec.decode;
    value ← CodecUtil.decodeNullable DataCodec.decode;
    oldValue ← CodecUtil.decodeNullable DataCodec.decode;
    mergingValue ← CodecUtil.decodeNullable DataCodec.decode;
    mret (handleEntryEvent key value oldValue mergingValue eventType uuid numberOfAffectedEntries))
  (mret None).

(** ** ReplicatedMapAddNearCacheEntryListenerCodec *)

Definition ReplicatedMapAddNearCacheEntryListenerCodec_encodeRequest (name : string) (includeValue : bool) (localOnly : bool) : res Request :=
  let REQUEST_MESSAGE_TYPE := 856576 in
  let REQUEST_INCLUDE_VALUE_OFFSET := PARTITION_ID_OFFSET + INT_SIZE_IN_BYTES in
  let REQUEST_LOCAL_ONLY_OFFSET := REQUEST_INCLUDE_VALUE_OFFSET + BOOLEAN_SIZE_IN_BYTES in
  let REQUEST_INITIAL_FRAME_SIZE := REQUEST_LOCAL_ONLY_OFFSET + BOOLEAN_SIZE_IN_BYTES in
  let clientMessage := Request.createForEncode in
  let clientMessage := Request.setRetryable clientMessage false in
  let initialFrame := initial_frame REQUEST_INITIAL_FRAME_SIZE in
  initialFrame ← encode_at encodeBoolean initialFrame REQUEST_INCLUDE_VALUE_OFFSET includeValue;
  initialFrame ← encode_at encodeBoolean initialFrame REQUEST_LOCAL_ONLY_OFFSET localOnly;
  let clientMessage := Request.addFrame clientMessage initialFrame in
  clientMessage ← Request.setMessageType clientMessage REQUEST_MESSAGE_TYPE;
  clientMessage ← Request.setPartitionId clientMessage (-1);
  clientMessage ← Request.append StringCodec.encode clientMessage name;
  Ok clientMessage.

Definition ReplicatedMapAddNearCacheEntryListenerCodec_decodeResponse : Dec (option (UUID L)) :=
  let RESPONSE_RESPONSE_OFFSET := RESPONSE_BACKUP_ACKS_OFFSET + BYTE_SIZE_IN_BYTES in
  initialFrame ← nextFrame;
  response ← decode_at decodeUUID initialFrame RESPONSE_RESPONSE_OFFSET;
  mret response.

Definition ReplicatedMapAddNearCacheEntryListenerCodec_handle {T} (handleEntryEvent : option (option HeapData -> option HeapData -> option HeapData -> option HeapData -> Z -> option (UUID L) -> Z -> T)) : Dec (option T) :=
  let EVENT_ENTRY_MESSAGE_TYPE := 856578 in
  let EVENT_ENTRY_EVENT_TYPE_OFFSET := PARTITION_ID_OFFSET + INT_SIZE_IN_BYTES in
  let EVENT_ENTRY_UUID_OFFSET := EVENT_ENTRY_EVENT_TYPE_OFFSET + INT_SIZE_IN_BYTES in
  let EVENT_ENTRY_NUMBER_OF_AFFECTED_ENTRIES_OFFSET := EVENT_ENTRY_UUID_OFFSET + UUID_SIZE_IN_BYTES in
  messageType ← getMessageType;
  on_event messageType EVENT_ENTRY_MESSAGE_TYPE handleEntryEvent (fun handleEntryEvent =>
    initialFrame ← nextFrame;
    eventType ← decode_at decodeInt initialFrame EVENT_ENTRY_EVENT_TYPE_OFFSET;
    uuid ← decode_at decodeUUID initialFrame EVENT_ENTRY_UUID_OFFSET;
    numberOfAffectedEntries ← decode_at decodeInt initialFrame EVENT_ENTRY_NUMBER_OF_AFFECTED_ENTRIES_OFFSET;
    key ← CodecUtil.decodeNullable DataCodec.decode;
    value ← CodecUtil.decodeNullable DataCodec.decode;
    oldValue ← CodecUtil.decodeNullable DataCodec.decode;
    mergingValue ← CodecUtil.decodeNullable DataCodec.decode;
    mret (handleEntryEvent key value oldValue mergingValue eventType uuid numberOfAffectedEntries))
  (mret None).

(** ** ReplicatedMapClearCodec *)

Definition ReplicatedMapClearCodec_encodeRequest (name : string) : res Request :=
  let REQUEST_MESSAGE_TYPE := 854272 in
  let REQUEST_INITIAL_FRAME_SIZE := PARTITION_ID_OFFSET + INT_SIZE_IN_BYTES in
  let clientMessage := Request.createForEncode in
  let clientMessage := Request.setRetryable clientMessage false in
  let initialFrame := initial_frame REQUEST_INITIAL_FRAME_SIZE in
  let clientMessage := Request.addFrame clientMessage initialFrame in
  clientMessage ← Request.setMessageType clientMessage REQUEST_MESSAGE_TYPE;
  clientMessage ← Request.setPartitionId clientMessage (-1);
  clientMessage ← Request.append StringCodec.encode clientMessage name;
  Ok clientMessage.

(** ** ReplicatedMapContainsKeyCodec *)

Definition ReplicatedMapContainsKeyCodec_encodeRequest (name : string) (key : HeapData) : res Request :=
  let REQUEST_MESSAGE_TYPE := 852992 in
  let REQUEST_INITIAL_FRAME_SIZE := PARTITION_ID_OFFSET + INT_SIZE_IN_BYTES in
  let clientMessage := Request.createForEncode in
  let clientMessage := Request.setRetryable clientMessage true in
  let initialFrame := initial_frame REQUEST_INITIAL_FRAME_SIZE in
  let clientMessage := Request.addFrame clientMessage initialFrame in
  clientMessage ← Request.setMessageType clientMessage REQUEST_MESSAGE_TYPE;
  clientMessage ← Request.setPartitionId clientMessage (-1);
  clientMessage ← Request.append StringCodec.encode clientMessage name;
  clientMessage ← Request.append DataCodec.encode clientMessage key;
  Ok clientMessage.

Definition ReplicatedMapContainsKeyCodec_decodeResponse : Dec bool :=
  let RESPONSE_RESPONSE_OFFSET := RESPONSE_BACKUP_ACKS_OFFSET + BYTE_SIZE_IN_BYTES in
  initialFrame ← nextFrame;
  response ← decode_at decodeBoolean initialFrame RESPONSE_RESPONSE_OFFSET;
  mret response.

(** ** ReplicatedMapContainsValueCodec *)

Definition ReplicatedMapContainsValueCodec_encodeRequest (name : string) (value : HeapData) : res Request :=
  let REQUEST_MESSAGE_TYPE := 853248 in
  let REQUEST_INITIAL_FRAME_SIZE := PARTITION_ID_OFFSET + INT_SIZE_IN_BYTES in
  let clientMessage := Request.createForEncode in
  let clientMessage := Request.setRetryable clientMessage true in
  let initialFrame := initial_frame REQUEST_INITIAL_FRAME_SIZE in
  let clientMessage := Request.addFrame clientMessage initialFrame in
  clientMessage ← Request.setMessageType clientMessage REQUEST_MESSAGE_TYPE;
  clientMessage ← Request.setPartitionId clientMessage (-1);
  clientMessage ← Request.append StringCodec.encode clientMessage name;
  clientMessage ← Request.append DataCodec.encode clientMessage value;
  Ok clientMessage.

Definition ReplicatedMapContainsValueCodec_decodeResponse : Dec bool :=
  let RESPONSE_RESPONSE_OFFSET := RESPONSE_BACKUP_ACKS_OFFSET + BYTE_SIZE_IN_BYTES in
  initialFrame ← nextFrame;
  response ← decode_at decodeBoolean initialFrame RESPONSE_RESPONSE_OFFSET;
  mret response.

(** ** ReplicatedMapEntrySetCodec *)

Definition ReplicatedMapEntrySetCodec_encodeRequest (name : string) : res Request :=
  let REQUEST_MESSAGE_TYPE := 856320 in
  let REQUEST_INITIAL_FRAME_SIZE := PARTITION_ID_OFFSET + INT_SIZE_IN_BYTES in
  let clientMessage := Request.createForEncode in
  let clientMessage := Request.setRetryable clientMessage true in
  let initialFrame := initial_frame REQUEST_INITIAL_FRAME_SIZE in
  let clientMessage := Request.addFrame clientMessage initialFrame in
  clientMessage ← Request.setMessageType clientMessage REQUEST_MESSAGE_TYPE;
  clientMessage ← Request.setPartitionId clientMessage (-1);
  clientMessage ← Request.append StringCodec.encode clientMessage name;
  Ok clientMessage.

Definition ReplicatedMapEntrySetCodec_decodeResponse : Dec (list (HeapData * HeapData)) :=
  _ ← skipFrame;
  response ← EntryListCodec.decode DataCodec.decode DataCodec.decode;
  mret response.

(** ** ReplicatedMapGetCodec *)

Definition ReplicatedMapGetCodec_encodeRequest (name : string) (key : HeapData) : res Request :=
  let REQUEST_MESSAGE_TYPE := 853504 in
  let REQUEST_INITIAL_FRAME_SIZE := PARTITION_ID_OFFSET + INT_SIZE_IN_BYTES in
  let clientMessage := Request.createForEncode in
  let clientMessage := Request.setRetryable clientMessage true in
  let initialFrame := initial_frame REQUEST_INITIAL_FRAME_SIZE in
  let clientMessage := Request.addFrame clientMessage initialFrame in
  clientMessage ← Request.setMessageType clientMessage REQUEST_MESSAGE_TYPE;
  clientMessage ← Request.setPartitionId clientMessage (-1);
  clientMessage ← Request.append StringCodec.encode clientMessage name;
  clientMessage ← Request.append DataCodec.encode clientMessage key;
  Ok clientMessage.

Definition ReplicatedMapGetCodec_decodeResponse : Dec (option HeapData) :=
  _ ← skipFrame;
  response ← CodecUtil.decodeNullable DataCodec.decode;
  mret response.

(** ** ReplicatedMapIsEmptyCodec *)

Definition ReplicatedMapIsEmptyCodec_encodeRequest (name : string) : res Request :=
  let REQUEST_MESSAGE_TYPE := 852736 in
  let REQUEST_INITIAL_FRAME_SIZE := PARTITION_ID_OFFSET + INT_SIZE_IN_BYTES in
  let clientMessage := Request.createForEncode in
  let clientMessage := Request.setRetryable clientMessage true in
  let initialFrame := initial_frame REQUEST_INITIAL_FRAME_SIZE in
  let clientMessage := Request.addFrame clientMessage initialFrame in
  clientMessage ← Request.setMessageType clientMessage REQUEST_MESSAGE_TYPE;
  clientMessage ← Request.setPartitionId clientMessage (-1);
  clientMessage ← Request.append StringCodec.encode clientMessage name;
  Ok clientMessage.

Definition ReplicatedMapIsEmptyCodec_decodeResponse : Dec bool :=
  let RESPONSE_RESPONSE_OFFSET := RESPONSE_BACKUP_ACKS_OFFSET + BYTE_SIZE_IN_BYTES in
  initialFrame ← nextFrame;
  response ← decode_at decodeBoolean initialFrame RESPONSE_RESPONSE_OFFSET;
  mret response.

(** ** ReplicatedMapKeySetCodec *)

Definition ReplicatedMapKeySetCodec_encodeRequest (name : string) : res Request :=
  let REQUEST_MESSAGE_TYPE := 855808 in
  let REQUEST_INITIAL_FRAME_SIZE := PARTITION_ID_OFFSET + INT_SIZE_IN_BYTES in
  let clientMessage := Request.createForEncode in
  let clientMessage := Request.setRetryable clientMessage true in
  let initialFrame := initial_frame REQUEST_INITIAL_FRAME_SIZE in
  let clientMessage := Request.addFrame clientMessage initialFrame in
  clientMessage ← Request.setMessageType clientMessage REQUEST_MESSAGE_TYPE;
  clientMessage ← Request.setPartitionId clientMessage (-1);
  clientMessage ← Request.append StringCodec.encode clientMessage name;
  Ok clientMessage.

Definition ReplicatedMapKeySetCodec_decodeResponse : Dec (list HeapData) :=
  _ ← skipFrame;
  response ← ListMultiFrameCodec.decode DataCodec.decode;
  mret response.

(** ** ReplicatedMapPutAllCodec *)

Definition ReplicatedMapPutAllCodec_encodeRequest (name : string) (entries : list (HeapData * HeapData)) : res Request :=
  let REQUEST_MESSAGE_TYPE := 854016 in
  let REQUEST_INITIAL_FRAME_SIZE := PARTITION_ID_OFFSET + INT_SIZE_IN_BYTES in
  let clientMessage := Request.createForEncode in
  let clientMessage := Request.setRetryable clientMessage false in
  let initialFrame := initial_frame REQUEST_INITIAL_FRAME_SIZE in
  let clientMessage := Request.addFrame clientMessage initialFrame in
  clientMessage ← Request.setMessageType clientMessage REQUEST_MESSAGE_TYPE;
  clientMessage ← Request.setPartitionId clientMessage (-1);
  clientMessage ← Request.append StringCodec.encode clientMessage name;
  clientMessage ← Request.append (EntryListCodec.encode DataCodec.encode DataCodec.encode) clientMessage entries;
  Ok clientMessage.

(** ** ReplicatedMapPutCodec *)

Definition ReplicatedMapPutCodec_encodeRequest (name : string) (key : HeapData) (value : HeapData) (ttl : long_arg L) : res Request :=
  let REQUEST_MESSAGE_TYPE := 852224 in
  let REQUEST_TTL_OFFSET := PARTITION_ID_OFFSET + INT_SIZE_IN_BYTES in
  let REQUEST_INITIAL_FRAME_SIZE := REQUEST_TTL_OFFSET + LONG_SIZE_IN_BYTES in
  let clientMessage := Request.createForEncode in
  let clientMessage := Request.setRetryable clientMessage false in
  let initialFrame := initial_frame REQUEST_INITIAL_FRAME_SIZE in
  initialFrame ← encode_at encodeLong initialFrame REQUEST_TTL_OFFSET ttl;
  let clientMessage := Request.addFrame clientMessage initialFrame in
  clientMessage ← Request.setMessageType clientMessage REQUEST_MESSAGE_TYPE;
  clientMessage ← Request.setPartitionId clientMessage (-1);
  clientMessage ← Request.append StringCodec.encode clientMessage name;
  clientMessage ← Request.append DataCodec.encode clientMessage key;
  clientMessage ← Request.append DataCodec.encode clientMessage value;
  Ok clientMessage.

Definition ReplicatedMapPutCodec_decodeResponse : Dec (option HeapData) :=
  _ ← skipFrame;
  response ← CodecUtil.decodeNullable DataCodec.decode;
  mret response.

(** ** ReplicatedMapRemoveCodec *)

Definition ReplicatedMapRemoveCodec_encodeRequest (name : string) (key : HeapData) : res Request :=
  let REQUEST_MESSAGE_TYPE := 853760 in
  let REQUEST_INITIAL_FRAME_SIZE := PARTITION_ID_OFFSET + INT_SIZE_IN_BYTES in
  let clientMessage := Request.createForEncode in
  let clientMessage := Request.setRetryable clientMessage false in
  let initialFrame := initial_frame REQUEST_INITIAL_FRAME_SIZE in
  let clientMessage := Request.addFrame clientMessage initialFrame in
  clientMessage ← Request.setMessageType clientMessage REQUEST_MESSAGE_TYPE;
  clientMessage ← Request.setPartitionId clientMessage (-1);
  clientMessage ← Request.append StringCodec.encode clientMessage name;
  clientMessage ← Request.append DataCodec.encode clientMessage key;
  Ok clientMessage.

Definition ReplicatedMapRemoveCodec_decodeResponse : Dec (option HeapData) :=
  _ ← skipFrame;
  response ← CodecUtil.decodeNullable DataCodec.decode;
  mret response.

(** ** ReplicatedMapRemoveEntryListenerCodec *)

Definition ReplicatedMapRemoveEntryListenerCodec_encodeRequest (name : string) (registrationId : option (UUID L)) : res Request :=
  let REQUEST_MESSAGE_TYPE := 855552 in
  let REQUEST_REGISTRATION_ID_OFFSET := PARTITION_ID_OFFSET + INT_SIZE_IN_BYTES in
  let REQUEST_INITIAL_FRAME_SIZE := REQUEST_REGISTRATION_ID_OFFSET + UUID_SIZE_IN_BYTES in
  let clientMessage := Request.createForEncode in
  let clientMessage := Request.setRetryable clientMessage true in
  let initialFrame := initial_frame REQUEST_INITIAL_FRAME_SIZE in
  initialFrame ← encode_at encodeUUID initialFrame REQUEST_REGISTRATION_ID_OFFSET registrationId;
  let clientMessage := Request.addFrame clientMessage initialFrame in
  clientMessage ← Request.setMessageType clientMessage REQUEST_MESSAGE_TYPE;
  clientMessage ← Request.setPartitionId clientMessage (-1);
  clientMessage ← Request.append StringCodec.encode clientMessage name;
  Ok clientMessage.

Definition ReplicatedMapRemoveEntryListenerCodec_decodeResponse : Dec bool :=
  let RESPONSE_RESPONSE_OFFSET := RESPONSE_BACKUP_ACKS_OFFSET + BYTE_SIZE_IN_BYTES in
  initialFrame ← nextFrame;
  response ← decode_at decodeBoolean initialFrame RESPONSE_RESPONSE_OFFSET;
  mret response.

(** ** ReplicatedMapSizeCodec *)

Definition ReplicatedMapSizeCodec_encodeRequest (name : string) : res Request :=
  let REQUEST_MESSAGE_TYPE := 852480 in
  let REQUEST_INITIAL_FRAME_SIZE := PARTITION_ID_OFFSET + INT_SIZE_IN_BYTES in
  let clientMessage := Request.createForEncode in
  let clientMessage := Request.setRetryable clientMessage true in
  let initialFrame := initial_frame REQUEST_INITIAL_FRAME_SIZE in
  let clientMessage := Request.addFrame clientMessage initialFrame in
  clientMessage ← Request.setMessageType clientMessage REQUEST_MESSAGE_TYPE;
  clientMessage ← Request.setPartitionId clientMessage (-1);
  clientMessage ← Request.append StringCodec.encode clientMessage name;
  Ok clientMessage.

Definition ReplicatedMapSizeCodec_decodeResponse : Dec Z :=
  let RESPONSE_RESPONSE_OFFSET := RESPONSE_BACKUP_ACKS_OFFSET + BYTE_SIZE_IN_BYTES in
  initialFrame ← nextFrame;
  response ← decode_at decodeInt initialFrame RESPONSE_RESPONSE_OFFSET;
  mret response.

(** ** ReplicatedMapValuesCodec *)

Definition ReplicatedMapValuesCodec_encodeRequest (name : string) : res Request :=
  let REQUEST_MESSAGE_TYPE := 856064 in
  let REQUEST_INITIAL_FRAME_SIZE := PARTITION_ID_OFFSET + INT_SIZE_IN_BYTES in
  let clientMessage := Request.createForEncode in
  let clientMessage := Request.setRetryable clientMessage true in
  let initialFrame := initial_frame REQUEST_INITIAL_FRAME_SIZE in
  let clientMessage := Request.addFrame clientMessage initialFrame in
  clientMessage ← Request.setMessageType clientMessage REQUEST_MESSAGE_TYPE;
  clientMessage ← Request.setPartitionId clientMessage (-1);
  clientMessage ← Request.append StringCodec.encode clientMessage name;
  Ok clientMessage.

Definition ReplicatedMapValuesCodec_decodeResponse : Dec (list HeapData) :=
  _ ← skipFrame;
  response ← ListMultiFrameCodec.decode DataCodec.decode;
  mret response.

(** ** RingbufferAddAllCodec *)

Definition RingbufferAddAllCodec_encodeRequest (name : string) (valueList : list HeapData) (overflowPolicy : Z) : res Request :=
  let REQUEST_MESSAGE_TYPE := 1509376 in
  let REQUEST_OVERFLOW_POLICY_OFFSET := PARTITION_ID_OFFSET + INT_SIZE_IN_BYTES in
  let REQUEST_INITIAL_FRAME_SIZE := REQUEST_OVERFLOW_POLICY_OFFSET + INT_SIZE_IN_BYTES in
  let clientMessage := Request.createForEncode in
  let clientMessage := Request.setRetryable clientMessage false in
  let initialFrame := initial_frame REQUEST_INITIAL_FRAME_SIZE in
  initialFrame ← encode_at encodeInt initialFrame REQUEST_OVERFLOW_POLICY_OFFSET overflowPolicy;
  let clientMessage := Request.addFrame clientMessage initialFrame in
  clientMessage ← Request.setMessageType clientMessage REQUEST_MESSAGE_TYPE;
  clientMessage ← Request.setPartitionId clientMessage (-1);
  clientMessage ← Request.append StringCodec.encode clientMessage name;
  clientMessage ← Request.append (ListMultiFrameCodec.encode DataCodec.encode) clientMessage valueList;
  Ok clientMessage.

Definition RingbufferAddAllCodec_decodeResponse : Dec L :=
  let RESPONSE_RESPONSE_OFFSET := RESPONSE_BACKUP_ACKS_OFFSET + BYTE_SIZE_IN_BYTES in
  initialFrame ← nextFrame;
  response ← decode_at decodeLong initialFrame RESPONSE_RESPONSE_OFFSET;
  mret response.

(** ** RingbufferAddCodec *)

Definition RingbufferAddCodec_encodeRequest (name : string) (overflowPolicy : Z) (value : HeapData) : res Request :=
  let REQUEST_MESSAGE_TYPE := 1508864 in
  let REQUEST_OVERFLOW_POLICY_OFFSET := PARTITION_ID_OFFSET + INT_SIZE_IN_BYTES in
  let REQUEST_INITIAL_FRAME_SIZE := REQUEST_OVERFLOW_POLICY_OFFSET + INT_SIZE_IN_BYTES in
  let clientMessage := Request.createForEncode in
  let clientMessage := Request.setRetryable clientMessage false in
  let initialFrame := initial_frame REQUEST_INITIAL_FRAME_SIZE in
  initialFrame ← encode_at encodeInt initialFrame REQUEST_OVERFLOW_POLICY_OFFSET overflowPolicy;
  let clientMessage := Request.addFrame clientMessage initialFrame in
  clientMessage ← Request.setMessageType clientMessage REQUEST_MESSAGE_TYPE;
  clientMessage ← Request.setPartitionId clientMessage (-1);
  clientMessage ← Request.append StringCodec.encode clientMessage name;
  clientMessage ← Request.append DataCodec.encode clientMessage value;
  Ok clientMessage.

Definition RingbufferAddCodec_decodeResponse : Dec L :=
  let RESPONSE_RESPONSE_OFFSET := RESPONSE_BACKUP_ACKS_OFFSET + BYTE_SIZE_IN_BYTES in
  initialFrame ← nextFrame;
  response ← decode_at decodeLong initialFrame RESPONSE_RESPONSE_OFFSET;
  mret response.

(** ** RingbufferCapacityCodec *)

Definition RingbufferCapacityCodec_encodeRequest (name : string) : res Request :=
  let REQUEST_MESSAGE_TYPE := 1508352 in
  let REQUEST_INITIAL_FRAME_SIZE := PARTITION_ID_OFFSET + INT_SIZE_IN_BYTES in
  let clientMessage := Request.createForEncode in
  let clientMessage := Request.setRetryable clientMessage true in
  let initialFrame := initial_frame REQUEST_INITIAL_FRAME_SIZE in
  let clientMessage := Request.addFrame clientMessage initialFrame in
  clientMessage ← Request.setMessageType clientMessage REQUEST_MESSAGE_TYPE;
  clientMessage ← Request.setPartitionId clientMessage (-1);
  clientMessage ← Request.append StringCodec.encode clientMessage name;
  Ok clientMessage.

Definition RingbufferCapacityCodec_decodeResponse : Dec L :=
  let RESPONSE_RESPONSE_OFFSET := RESPONSE_BACKUP_ACKS_OFFSET + BYTE_SIZE_IN_BYTES in
  initialFrame ← nextFrame;
  response ← decode_at decodeLong initialFrame RESPONSE_RESPONSE_OFFSET;
  mret response.

(** ** RingbufferHeadSequenceCodec *)

Definition RingbufferHeadSequenceCodec_encodeRequest (name : string) : res Request :=
  let REQUEST_MESSAGE_TYPE := 1508096 in
  let REQUEST_INITIAL_FRAME_SIZE := PARTITION_ID_OFFSET + INT_SIZE_IN_BYTES in
  let clientMessage := Request.createForEncode in
  let clientMessage := Request.setRetryable clientMessage true in
  let initialFrame := initial_frame REQUEST_INITIAL_FRAME_SIZE in
  let clientMessage := Request.addFrame clientMessage initialFrame in
  clientMessage ← Request.setMessageType clientMessage REQUEST_MESSAGE_TYPE;
  clientMessage ← Request.setPartitionId clientMessage (-1);
  clientMessage ← Request.append StringCodec.encode clientMessage name;
  Ok clientMessage.

Definition RingbufferHeadSequenceCodec_decodeResponse : Dec L :=
  let RESPONSE_RESPONSE_OFFSET := RESPONSE_BACKUP_ACKS_OFFSET + BYTE_SIZE_IN_BYTES in
  initialFrame ← nextFrame;
  response ← decode_at decodeLong initialFrame RESPONSE_RESPONSE_OFFSET;
  mret response.

(** ** RingbufferReadManyCodec *)

Definition RingbufferReadManyCodec_encodeRequest (name : string) (startSequence : long_arg L) (minCount : Z) (maxCount : Z) (filter : option HeapData) : res Request :=
  let REQUEST_MESSAGE_TYPE := 1509632 in
  let REQUEST_START_SEQUENCE_OFFSET := PARTITION_ID_OFFSET + INT_SIZE_IN_BYTES in
  let REQUEST_MIN_COUNT_OFFSET := REQUEST_START_SEQUENCE_OFFSET + LONG_SIZE_IN_BYTES in
  let REQUEST_MAX_COUNT_OFFSET := REQUEST_MIN_COUNT_OFFSET + INT_SIZE_IN_BYTES in
  let REQUEST_INITIAL_FRAME_SIZE := REQUEST_MAX_COUNT_OFFSET + INT_SIZE_IN_BYTES in
  let clientMessage := Request.createForEncode in
  let clientMessage := Request.setRetryable clientMessage true in
  let initialFrame := initial_frame REQUEST_INITIAL_FRAME_SIZE in
  initialFrame ← encode_at encodeLong initialFrame REQUEST_START_SEQUENCE_OFFSET startSequence;
  initialFrame ← encode_at encodeInt initialFrame REQUEST_MIN_COUNT_OFFSET minCount;
  initialFrame ← encode_at encodeInt initialFrame REQUEST_MAX_COUNT_OFFSET maxCount;
  let clientMessage := Request.addFrame clientMessage initialFrame in
  clientMessage ← Request.setMessageType clientMessage REQUEST_MESSAGE_TYPE;
  clientMessage ← Request.setPartitionId clientMessage (-1);
  clientMessage ← Request.append StringCodec.encode clientMessage name;
  clientMessage ← Request.append (CodecUtil.encodeNullable DataCodec.encode) clientMessage filter;
  Ok clientMessage.

Definition RingbufferReadManyCodec_decodeResponse : Dec (RingbufferReadManyResponseParams L) :=
  let RESPONSE_READ_COUNT_OFFSET := RESPONSE_BACKUP_ACKS_OFFSET + BYTE_SIZE_IN_BYTES in
  let RESPONSE_NEXT_SEQ_OFFSET := RESPONSE_READ_COUNT_OFFSET + INT_SIZE_IN_BYTES in
  initialFrame ← nextFrame;
  readCount ← decode_at decodeInt initialFrame RESPONSE_READ_COUNT_OFFSET;
  nextSeq ← decode_at decodeLong initialFrame RESPONSE_NEXT_SEQ_OFFSET;
  items ← ListMultiFrameCodec.decode DataCodec.decode;
  itemSeqs ← CodecUtil.decodeNullable LongArrayCodec_decode;
  mret (mkRingbufferReadManyResponseParams readCount items itemSeqs nextSeq).

(** ** RingbufferReadOneCodec *)

Definition RingbufferReadOneCodec_encodeRequest (name : string) (sequence : long_arg L) : res Request :=
  let REQUEST_MESSAGE_TYPE := 1509120 in
  let REQUEST_SEQUENCE_OFFSET := PARTITION_ID_OFFSET + INT_SIZE_IN_BYTES in
  let REQUEST_INITIAL_FRAME_SIZE := REQUEST_SEQUENCE_OFFSET + LONG_SIZE_IN_BYTES in
  let clientMessage := Request.createForEncode in
  let clientMessage := Request.setRetryable clientMessage true in
  let initialFrame := initial_frame REQUEST_INITIAL_FRAME_SIZE in
  initialFrame ← encode_at encodeLong initialFrame REQUEST_SEQUENCE_OFFSET sequence;
  let clientMessage := Request.addFrame clientMessage initialFrame in
  clientMessage ← Request.setMessageType clientMessage REQUEST_MESSAGE_TYPE;
  clientMessage ← Request.setPartitionId clientMessage (-1);
  clientMessage ← Request.append StringCodec.encode clientMessage name;
  Ok clientMessage.

Definition RingbufferReadOneCodec_decodeResponse : Dec (option HeapData) :=
  _ ← skipFrame;
  response ← CodecUtil.decodeNullable DataCodec.decode;
  mret response.

(** ** RingbufferRemainingCapacityCodec *)

Definition RingbufferRemainingCapacityCodec_encodeRequest (name : string) : res Request :=
  let REQUEST_MESSAGE_TYPE := 1508608 in
  let REQUEST_INITIAL_FRAME_SIZE := PARTITION_ID_OFFSET + INT_SIZE_IN_BYTES in
  let clientMessage := Request.createForEncode in
  let clientMessage := Request.setRetryable clientMessage true in
  let initialFrame := initial_frame REQUEST_INITIAL_FRAME_SIZE in
  let clientMessage := Request.addFrame clientMessage initialFrame in
  clientMessage ← Request.setMessageType clientMessage REQUEST_MESSAGE_TYPE;
  clientMessage ← Request.setPartitionId clientMessage (-1);
  clientMessage ← Request.append StringCodec.encode clientMessage name;
  Ok clientMessage.

Definition RingbufferRemainingCapacityCodec_decodeResponse : Dec L :=
  let RESPONSE_RESPONSE_OFFSET := RESPONSE_BACKUP_ACKS_OFFSET + BYTE_SIZE_IN_BYTES in
  initialFrame ← nextFrame;
  response ← decode_at decodeLong initialFrame RESPONSE_RESPONSE_OFFSET;
  mret response.

(** ** RingbufferSizeCodec *)

Definition RingbufferSizeCodec_encodeRequest (name : string) : res Request :=
  let REQUEST_MESSAGE_TYPE := 1507584 in
  let REQUEST_INITIAL_FRAME_SIZE := PARTITION_ID_OFFSET + INT_SIZE_IN_BYTES in
  let clientMessage := Request.createForEncode in
  let clientMessage := Request.setRetryable clientMessage true in
  let initialFrame := initial_frame REQUEST_INITIAL_FRAME_SIZE in
  let clientMessage := Request.addFrame clientMessage initialFrame in
  clientMessage ← Request.setMessageType clientMessage REQUEST_MESSAGE_TYPE;
  clientMessage ← Request.setPartitionId clientMessage (-1);
  clientMessage ← Request.append StringCodec.encode clientMessage name;
  Ok clientMessage.

Definition RingbufferSizeCodec_decodeResponse : Dec L :=
  let RESPONSE_RESPONSE_OFFSET := RESPONSE_BACKUP_ACKS_OFFSET + BYTE_SIZE_IN_BYTES in
  initialFrame ← nextFrame;
  response ← decode_at decodeLong initialFrame RESPONSE_RESPONSE_OFFSET;
  mret response.

(** ** RingbufferTailSequenceCodec *)

Definition RingbufferTailSequenceCodec_encodeRequest (name : string) : res Request :=
  let REQUEST_MESSAGE_TYPE := 1507840 in
  let REQUEST_INITIAL_FRAME_SIZE := PARTITION_ID_OFFSET + INT_SIZE_IN_BYTES in
  let clientMessage := Request.createForEncode in
  let clientMessage := Request.setRetryable clientMessage true in
  let initialFrame := initial_frame REQUEST_INITIAL_FRAME_SIZE in
  let clientMessage := Request.addFrame clientMessage initialFrame in
  clientMessage ← Request.setMessageType clientMessage REQUEST_MESSAGE_TYPE;
  clientMessage ← Request.setPartitionId clientMessage (-1);
  clientMessage ← Request.append StringCodec.encode clientMessage name;
  Ok clientMessage.

Definition RingbufferTailSequenceCodec_decodeResponse : Dec L :=
  let RESPONSE_RESPONSE_OFFSET := RESPONSE_BACKUP_ACKS_OFFSET + BYTE_SIZE_IN_BYTES in
  initialFrame ← nextFrame;
  response ← decode_at decodeLong initialFrame RESPONSE_RESPONSE_OFFSET;
  mret response.

(** ** SetAddAllCodec *)

Definition SetAddAllCodec_encodeRequest (name : string) (valueList : list HeapData) : res Request :=
  let REQUEST_MESSAGE_TYPE := 394752 in
  let REQUEST_INITIAL_FRAME_SIZE := PARTITION_ID_OFFSET + INT_SIZE_IN_BYTES in
  let clientMessage := Request.createForEncode in
  let clientMessage := Request.setRetryable clientMessage false in
  let initialFrame := initial_frame REQUEST_INITIAL_FRAME_SIZE in
  let clientMessage := Request.addFrame clientMessage initialFrame in
  clientMessage ← Request.setMessageType clientMessage REQUEST_MESSAGE_TYPE;
  clientMessage ← Request.setPartitionId clientMessage (-1);
  clientMessage ← Request.append StringCodec.encode clientMessage name;
  clientMessage ← Request.append (ListMultiFrameCodec.encode DataCodec.encode) clientMessage valueList;
  Ok clientMessage.

Definition SetAddAllCodec_decodeResponse : Dec bool :=
  let RESPONSE_RESPONSE_OFFSET := RESPONSE_BACKUP_ACKS_OFFSET + BYTE_SIZE_IN_BYTES in
  initialFrame ← nextFrame;
  response ← decode_at decodeBoolean initialFrame RESPONSE_RESPONSE_OFFSET;
  mret response.

(** ** SetAddCodec *)

Definition SetAddCodec_encodeRequest (name : string) (value : HeapData) : res Request :=
  let REQUEST_MESSAGE_TYPE := 394240 in
  let REQUEST_INITIAL_FRAME_SIZE := PARTITION_ID_OFFSET + INT_SIZE_IN_BYTES in
  let clientMessage := Request.createForEncode in
  let clientMessage := Request.setRetryable clientMessage false in
  let initialFrame := initial_frame REQUEST_INITIAL_FRAME_SIZE in
  let clientMessage := Request.addFrame clientMessage initialFrame in
  clientMessage ← Request.setMessageType clientMessage REQUEST_MESSAGE_TYPE;
  clientMessage ← Request.setPartitionId clientMessage (-1);
  clientMessage ← Request.append StringCodec.encode clientMessage name;
  clientMessage ← Request.append DataCodec.encode clientMessage value;
  Ok clientMessage.

Definition SetAddCodec_decodeResponse : Dec bool :=
  let RESPONSE_RESPONSE_OFFSET := RESPONSE_BACKUP_ACKS_OFFSET + BYTE_SIZE_IN_BYTES in
  initialFrame ← nextFrame;
  response ← decode_at decodeBoolean initialFrame RESPONSE_RESPONSE_OFFSET;
  mret response.

(** ** SetAddListenerCodec *)

Definition SetAddListenerCodec_encodeRequest (name : string) (includeValue : bool) (localOnly : bool) : res Request :=
  let REQUEST_MESSAGE_TYPE := 396032 in
  let REQUEST_INCLUDE_VALUE_OFFSET := PARTITION_ID_OFFSET + INT_SIZE_IN_BYTES in
  let REQUEST_LOCAL_ONLY_OFFSET := REQUEST_INCLUDE_VALUE_OFFSET + BOOLEAN_SIZE_IN_BYTES in
  let REQUEST_INITIAL_FRAME_SIZE := REQUEST_LOCAL_ONLY_OFFSET + BOOLEAN_SIZE_IN_BYTES in
  let clientMessage := Request.createForEncode in
  let clientMessage := Request.setRetryable clientMessage false in
  let initialFrame := initial_frame REQUEST_INITIAL_FRAME_SIZE in
  initialFrame ← encode_at encodeBoolean initialFrame REQUEST_INCLUDE_VALUE_OFFSET includeValue;
  initialFrame ← encode_at encodeBoolean initialFrame REQUEST_LOCAL_ONLY_OFFSET localOnly;
  let clientMessage := Request.addFrame clientMessage initialFrame in
  clientMessage ← Request.setMessageType clientMessage REQUEST_MESSAGE_TYPE;
  clientMessage ← Request.setPartitionId clientMessage (-1);
  clientMessage ← Request.append StringCodec.encode clientMessage name;
  Ok clientMessage.

Definition SetAddListenerCodec_decodeResponse : Dec (option (UUID L)) :=
  let RESPONSE_RESPONSE_OFFSET := RESPONSE_BACKUP_ACKS_OFFSET + BYTE_SIZE_IN_BYTES in
  initialFrame ← nextFrame;
  response ← decode_at decodeUUID initialFrame RESPONSE_RESPONSE_OFFSET;
  mret response.

Definition SetAddListenerCodec_handle {T} (handleItemEvent : option (option HeapData -> option (UUID L) -> Z -> T)) : Dec (option T) :=
  let EVENT_ITEM_MESSAGE_TYPE := 396034 in
  let EVENT_ITEM_UUID_OFFSET := PARTITION_ID_OFFSET + INT_SIZE_IN_BYTES in
  let EVENT_ITEM_EVENT_TYPE_OFFSET := EVENT_ITEM_UUID_OFFSET + UUID_SIZE_IN_BYTES in
  messageType ← getMessageType;
  on_event messageType EVENT_ITEM_MESSAGE_TYPE handleItemEvent (fun handleItemEvent =>
    initialFrame ← nextFrame;
    uuid ← decode_at decodeUUID initialFrame EVENT_ITEM_UUID_OFFSET;
    eventType ← decode_at decodeInt initialFrame EVENT_ITEM_EVENT_TYPE_OFFSET;
    item ← CodecUtil.decodeNullable DataCodec.decode;
    mret (handleItemEvent item uuid eventType))
  (mret None).

(** ** SetClearCodec *)

Definition SetClearCodec_encodeRequest (name : string) : res Request :=
  let REQUEST_MESSAGE_TYPE := 395520 in
  let REQUEST_INITIAL_FRAME_SIZE := PARTITION_ID_OFFSET + INT_SIZE_IN_BYTES in
  let clientMessage := Request.createForEncode in
  let clientMessage := Request.setRetryable clientMessage false in
  let initialFrame := initial_frame REQUEST_INITIAL_FRAME_SIZE in
  let clientMessage := Request.addFrame clientMessage initialFrame in
  clientMessage ← Request.setMessageType clientMessage REQUEST_MESSAGE_TYPE;
  clientMessage ← Request.setPartitionId clientMessage (-1);
  clientMessage ← Request.append StringCodec.encode clientMessage name;
  Ok clientMessage.

(** ** SetCompareAndRemoveAllCodec *)

Definition SetCompareAndRemoveAllCodec_encodeRequest (name : string) (values : list HeapData) : res Request :=
  let REQUEST_MESSAGE_TYPE := 395008 in
  let REQUEST_INITIAL_FRAME_SIZE := PARTITION_ID_OFFSET + INT_SIZE_IN_BYTES in
  let clientMessage := Request.createForEncode in
  let clientMessage := Request.setRetryable clientMessage false in
  let initialFrame := initial_frame REQUEST_INITIAL_FRAME_SIZE in
  let clientMessage := Request.addFrame clientMessage initialFrame in
  clientMessage ← Request.setMessageType clientMessage REQUEST_MESSAGE_TYPE;
  clientMessage ← Request.setPartitionId clientMessage (-1);
  clientMessage ← Request.append StringCodec.encode clientMessage name;
  clientMessage ← Request.append (ListMultiFrameCodec.encode DataCodec.encode) clientMessage values;
  Ok clientMessage.

Definition SetCompareAndRemoveAllCodec_decodeResponse : Dec bool :=
  let RESPONSE_RESPONSE_OFFSET := RESPONSE_BACKUP_ACKS_OFFSET + BYTE_SIZE_IN_BYTES in
  initialFrame ← nextFrame;
  response ← decode_at decodeBoolean initialFrame RESPONSE_RESPONSE_OFFSET;
  mret response.

(** ** SetCompareAndRetainAllCodec *)

Definition SetCompareAndRetainAllCodec_encodeRequest (name : string) (values : list HeapData) : res Request :=
  let REQUEST_MESSAGE_TYPE := 395264 in
  let REQUEST_INITIAL_FRAME_SIZE := PARTITION_ID_OFFSET + INT_SIZE_IN_BYTES in
  let clientMessage := Request.createForEncode in
  let clientMessage := Request.setRetryable clientMessage false in
  let initialFrame := initial_frame REQUEST_INITIAL_FRAME_SIZE in
  let clientMessage := Request.addFrame clientMessage initialFrame in
  clientMessage ← Request.setMessageType clientMessage REQUEST_MESSAGE_TYPE;
  clientMessage ← Request.setPartitionId clientMessage (-1);
  clientMessage ← Request.append StringCodec.encode clientMessage name;
  clientMessage ← Request.append (ListMultiFrameCodec.encode DataCodec.encode) clientMessage values;
  Ok clientMessage.

Definition SetCompareAndRetainAllCodec_decodeResponse : Dec bool :=
  let RESPONSE_RESPONSE_OFFSET := RESPONSE_BACKUP_ACKS_OFFSET + BYTE_SIZE_IN_BYTES in
  initialFrame ← nextFrame;
  response ← decode_at decodeBoolean initialFrame RESPONSE_RESPONSE_OFFSET;
  mret response.

(** ** SetContainsAllCodec *)

Definition SetContainsAllCodec_encodeRequest (name : string) (items : list HeapData) : res Request :=
  let REQUEST_MESSAGE_TYPE := 393984 in
  let REQUEST_INITIAL_FRAME_SIZE := PARTITION_ID_OFFSET + INT_SIZE_IN_BYTES in
  let clientMessage := Request.createForEncode in
  let clientMessage := Request.setRetryable clientMessage false in
  let initialFrame := initial_frame REQUEST_INITIAL_FRAME_SIZE in
  let clientMessage := Request.addFrame clientMessage initialFrame in
  clientMessage ← Request.setMessageType clientMessage REQUEST_MESSAGE_TYPE;
  clientMessage ← Request.setPartitionId clientMessage (-1);
  clientMessage ← Request.append StringCodec.encode clientMessage name;
  clientMessage ← Request.append (ListMultiFrameCodec.encode DataCodec.encode) clientMessage items;
  Ok clientMessage.

Definition SetContainsAllCodec_decodeResponse : Dec bool :=
  let RESPONSE_RESPONSE_OFFSET := RESPONSE_BACKUP_ACKS_OFFSET + BYTE_SIZE_IN_BYTES in
  initialFrame ← nextFrame;
  response ← decode_at decodeBoolean initialFrame RESPONSE_RESPONSE_OFFSET;
  mret response.

(** ** SetContainsCodec *)

Definition SetContainsCodec_encodeRequest (name : string) (value : HeapData) : res Request :=
  let REQUEST_MESSAGE_TYPE := 393728 in
  let REQUEST_INITIAL_FRAME_SIZE := PARTITION_ID_OFFSET + INT_SIZE_IN_BYTES in
  let clientMessage := Request.createForEncode in
  let clientMessage := Request.setRetryable clientMessage false in
  let initialFrame := initial_frame REQUEST_INITIAL_FRAME_SIZE in
  let clientMessage := Request.addFrame clientMessage initialFrame in
  clientMessage ← Request.setMessageType clientMessage REQUEST_MESSAGE_TYPE;
  clientMessage ← Request.setPartitionId clientMessage (-1);
  clientMessage ← Request.append StringCodec.encode clientMessage name;
  clientMessage ← Request.append DataCodec.encode clientMessage value;
  Ok clientMessage.

Definition SetContainsCodec_decodeResponse : Dec bool :=
  let RESPONSE_RESPONSE_OFFSET := RESPONSE_BACKUP_ACKS_OFFSET + BYTE_SIZE_IN_BYTES in
  initialFrame ← nextFrame;
  response ← decode_at decodeBoolean initialFrame RESPONSE_RESPONSE_OFFSET;
  mret response.

(** ** SetGetAllCodec *)

Definition SetGetAllCodec_encodeRequest (name : string) : res Request :=
  let REQUEST_MESSAGE_TYPE := 395776 in
  let REQUEST_INITIAL_FRAME_SIZE := PARTITION_ID_OFFSET + INT_SIZE_IN_BYTES in
  let clientMessage := Request.createForEncode in
  let clientMessage := Request.setRetryable clientMessage false in
  let initialFrame := initial_frame REQUEST_INITIAL_FRAME_SIZE in
  let clientMessage := Request.addFrame clientMessage initialFrame in
  clientMessage ← Request.setMessageType clientMessage REQUEST_MESSAGE_TYPE;
  clientMessage ← Request.setPartitionId clientMessage (-1);
  clientMessage ← Request.append StringCodec.encode clientMessage name;
  Ok clientMessage.

Definition SetGetAllCodec_decodeResponse : Dec (list HeapData) :=
  _ ← skipFrame;
  response ← ListMultiFrameCodec.decode DataCodec.decode;
  mret response.

(** ** SetIsEmptyCodec *)

Definition SetIsEmptyCodec_encodeRequest (name : string) : res Request :=
  let REQUEST_MESSAGE_TYPE := 396544 in
  let REQUEST_INITIAL_FRAME_SIZE := PARTITION_ID_OFFSET + INT_SIZE_IN_BYTES in
  let clientMessage := Request.createForEncode in
  let clientMessage := Request.setRetryable clientMessage false in
  let initialFrame := initial_frame REQUEST_INITIAL_FRAME_SIZE in
  let clientMessage := Request.addFrame clientMessage initialFrame in
  clientMessage ← Request.setMessageType clientMessage REQUEST_MESSAGE_TYPE;
  clientMessage ← Request.setPartitionId clientMessage (-1);
  clientMessage ← Request.append StringCodec.encode clientMessage name;
  Ok clientMessage.

Definition SetIsEmptyCodec_decodeResponse : Dec bool :=
  let RESPONSE_RESPONSE_OFFSET := RESPONSE_BACKUP_ACKS_OFFSET + BYTE_SIZE_IN_BYTES in
  initialFrame ← nextFrame;
  response ← decode_at decodeBoolean initialFrame RESPONSE_RESPONSE_OFFSET;
  mret response.

(** ** SetRemoveCodec *)

Definition SetRemoveCodec_encodeRequest (name : string) (value : HeapData) : res Request :=
  let REQUEST_MESSAGE_TYPE := 394496 in
  let REQUEST_INITIAL_FRAME_SIZE := PARTITION_ID_OFFSET + INT_SIZE_IN_BYTES in
  let clientMessage := Request.createForEncode in
  let clientMessage := Request.setRetryable clientMessage false in
  let initialFrame := initial_frame REQUEST_INITIAL_FRAME_SIZE in
  let clientMessage := Request.addFrame clientMessage initialFrame in
  clientMessage ← Request.setMessageType clientMessage REQUEST_MESSAGE_TYPE;
  clientMessage ← Request.setPartitionId clientMessage (-1);
  clientMessage ← Request.append StringCodec.encode clientMessage name;
  clientMessage ← Request.append DataCodec.encode clientMessage value;
  Ok clientMessage.

Definition SetRemoveCodec_decodeResponse : Dec bool :=
  let RESPONSE_RESPONSE_OFFSET := RESPONSE_BACKUP_ACKS_OFFSET + BYTE_SIZE_IN_BYTES in
  initialFrame ← nextFrame;
  response ← decode_at decodeBoolean initialFrame RESPONSE_RESPONSE_OFFSET;
  mret response.

(** ** SetRemoveListenerCodec *)

Definition SetRemoveListenerCodec_encodeRequest (name : string) (registrationId : option (UUID L)) : res Request :=
  let REQUEST_MESSAGE_TYPE := 396288 in
  let REQUEST_REGISTRATION_ID_OFFSET := PARTITION_ID_OFFSET + INT_SIZE_IN_BYTES in
  let REQUEST_INITIAL_FRAME_SIZE := REQUEST_REGISTRATION_ID_OFFSET + UUID_SIZE_IN_BYTES in
  let clientMessage := Request.createForEncode in
  let clientMessage := Request.setRetryable clientMessage true in
  let initialFrame := initial_frame REQUEST_INITIAL_FRAME_SIZE in
  initialFrame ← encode_at encodeUUID initialFrame REQUEST_REGISTRATION_ID_OFFSET registrationId;
  let clientMessage := Request.addFrame clientMessage initialFrame in
  clientMessage ← Request.setMessageType clientMessage REQUEST_MESSAGE_TYPE;
  clientMessage ← Request.setPartitionId clientMessage (-1);
  clientMessage ← Request.append StringCodec.encode clientMessage name;
  Ok clientMessage.

Definition SetRemoveListenerCodec_decodeResponse : Dec bool :=
  let RESPONSE_RESPONSE_OFFSET := RESPONSE_BACKUP_ACKS_OFFSET + BYTE_SIZE_IN_BYTES in
  initialFrame ← nextFrame;
  response ← decode_at decodeBoolean initialFrame RESPONSE_RESPONSE_OFFSET;
  mret response.

(** ** SetSizeCodec *)

Definition SetSizeCodec_encodeRequest (name : string) : res Request :=
  let REQUEST_MESSAGE_TYPE := 393472 in
  let REQUEST_INITIAL_FRAME_SIZE := PARTITION_ID_OFFSET + INT_SIZE_IN_BYTES in
  let clientMessage := Request.createForEncode in
  let clientMessage := Request.setRetryable clientMessage false in
  let initialFrame := initial_frame REQUEST_INITIAL_FRAME_SIZE in
  let clientMessage := Request.addFrame clientMessage initialFrame in
  clientMessage ← Request.setMessageType clientMessage REQUEST_MESSAGE_TYPE;
  clientMessage ← Request.setPartitionId clientMessage (-1);
  clientMessage ← Request.append StringCodec.encode clientMessage name;
  Ok clientMessage.

Definition SetSizeCodec_decodeResponse : Dec Z :=
  let RESPONSE_RESPONSE_OFFSET := RESPONSE_BACKUP_ACKS_OFFSET + BYTE_SIZE_IN_BYTES in
  initialFrame ← nextFrame;
  response ← decode_at decodeInt initialFrame RESPONSE_RESPONSE_OFFSET;
  mret response.

(** ** TopicAddMessageListenerCodec *)

Definition TopicAddMessageListenerCodec_encodeRequest (name : string) (localOnly : bool) : res Request :=
  let REQUEST_MESSAGE_TYPE := 262656 in
  let REQUEST_LOCAL_ONLY_OFFSET := PARTITION_ID_OFFSET + INT_SIZE_IN_BYTES in
  let REQUEST_INITIAL_FRAME_SIZE := REQUEST_LOCAL_ONLY_OFFSET + BOOLEAN_SIZE_IN_BYTES in
  let clientMessage := Request.createForEncode in
  let clientMessage := Request.setRetryable clientMessage false in
  let initialFrame := initial_frame REQUEST_INITIAL_FRAME_SIZE in
  initialFrame ← encode_at encodeBoolean initialFrame REQUEST_LOCAL_ONLY_OFFSET localOnly;
  let clientMessage := Request.addFrame clientMessage initialFrame in
  clientMessage ← Request.setMessageType clientMessage REQUEST_MESSAGE_TYPE;
  clientMessage ← Request.setPartitionId clientMessage (-1);
  clientMessage ← Request.append StringCodec.encode clientMessage name;
  Ok clientMessage.

Definition TopicAddMessageListenerCodec_decodeResponse : Dec (option (UUID L)) :=
  let RESPONSE_RESPONSE_OFFSET := RESPONSE_BACKUP_ACKS_OFFSET + BYTE_SIZE_IN_BYTES in
  initialFrame ← nextFrame;
  response ← decode_at decodeUUID initialFrame RESPONSE_RESPONSE_OFFSET;
  mret response.

Definition TopicAddMessageListenerCodec_handle {T} (handleTopicEvent : option (HeapData -> L -> option (UUID L) -> T)) : Dec (option T) :=
  let EVENT_TOPIC_MESSAGE_TYPE := 262658 in
  let EVENT_TOPIC_PUBLISH_TIME_OFFSET := PARTITION_ID_OFFSET + INT_SIZE_IN_BYTES in
  let EVENT_TOPIC_UUID_OFFSET := EVENT_TOPIC_PUBLISH_TIME_OFFSET + LONG_SIZE_IN_BYTES in
  messageType ← getMessageType;
  on_event messageType EVENT_TOPIC_MESSAGE_TYPE handleTopicEvent (fun handleTopicEvent =>
    initialFrame ← nextFrame;
    publishTime ← decode_at decodeLong initialFrame EVENT_TOPIC_PUBLISH_TIME_OFFSET;
    uuid ← decode_at decodeUUID initialFrame EVENT_TOPIC_UUID_OFFSET;
    item ← DataCodec.decode;
    mret (handleTopicEvent item publishTime uuid))
  (mret None).

(** ** TopicPublishAllCodec *)

Definition TopicPublishAllCodec_encodeRequest (name : string) (messages : list HeapData) : res Request :=
  let REQUEST_MESSAGE_TYPE := 263168 in
  let REQUEST_INITIAL_FRAME_SIZE := PARTITION_ID_OFFSET + INT_SIZE_IN_BYTES in
  let clientMessage := Request.createForEncode in
  let clientMessage := Request.setRetryable clientMessage false in
  let initialFrame := initial_frame REQUEST_INITIAL_FRAME_SIZE in
  let clientMessage := Request.addFrame clientMessage initialFrame in
  clientMessage ← Request.setMessageType clientMessage REQUEST_MESSAGE_TYPE;
  clientMessage ← Request.setPartitionId clientMessage (-1);
  clientMessage ← Request.append StringCodec.encode clientMessage name;
  clientMessage ← Request.append (ListMultiFrameCodec.encode DataCodec.encode) clientMessage messages;
  Ok clientMessage.

(** ** TopicPublishCodec *)

Definition TopicPublishCodec_encodeRequest (name : string) (message : HeapData) : res Request :=
  let REQUEST_MESSAGE_TYPE := 262400 in
  let REQUEST_INITIAL_FRAME_SIZE := PARTITION_ID_OFFSET + INT_SIZE_IN_BYTES in
  let clientMessage := Request.createForEncode in
  let clientMessage := Request.setRetryable clientMessage false in
  let initialFrame := initial_frame REQUEST_INITIAL_FRAME_SIZE in
  let clientMessage := Request.addFrame clientMessage initialFrame in
  clientMessage ← Request.setMessageType clientMessage REQUEST_MESSAGE_TYPE;
  clientMessage ← Request.setPartitionId clientMessage (-1);
  clientMessage ← Request.append StringCodec.encode clientMessage name;
  clientMessage ← Request.append DataCodec.encode clientMessage message;
  Ok clientMessage.

(** ** TopicRemoveMessageListenerCodec *)

Definition TopicRemoveMessageListenerCodec_encodeRequest (name : string) (registrationId : option (UUID L)) : res Request :=
  let REQUEST_MESSAGE_TYPE := 262912 in
  let REQUEST_REGISTRATION_ID_OFFSET := PARTITION_ID_OFFSET + INT_SIZE_IN_BYTES in
  let REQUEST_INITIAL_FRAME_SIZE := REQUEST_REGISTRATION_ID_OFFSET + UUID_SIZE_IN_BYTES in
  let clientMessage := Request.createForEncode in
  let clientMessage := Request.setRetryable clientMessage true in
  let initialFrame := initial_frame REQUEST_INITIAL_FRAME_SIZE in
  initialFrame ← encode_at encodeUUID initialFrame REQUEST_REGISTRATION_ID_OFFSET registrationId;
  let clientMessage := Request.addFrame clientMessage initialFrame in
  clientMessage ← Request.setMessageType clientMessage REQUEST_MESSAGE_TYPE;
  clientMessage ← Request.setPartitionId clientMessage (-1);
  clientMessage ← Request.append StringCodec.encode clientMessage name;
  Ok clientMessage.

Definition TopicRemoveMessageListenerCodec_decodeResponse : Dec bool :=
  let RESPONSE_RESPONSE_OFFSET := RESPONSE_BACKUP_ACKS_OFFSET + BYTE_SIZE_IN_BYTES in
  initialFrame ← nextFrame;
  response ← decode_at decodeBoolean initialFrame RESPONSE_RESPONSE_OFFSET;
  mret response.
End Codecs.

(** ** Formats *)

Section Formats.
Context `{Uninit} {L : Type} `{LongLaws L}.

Definition collection_requests : list RequestFormat := [
  mkRequestFormat 329216 false [] [param string_codec; param (list_codec data_codec)]
    (fun f p => ListAddAllCodec_encodeRequest p.1 p.2.1);
  mkRequestFormat 331264 false [F_int] [param string_codec; param (list_codec data_codec)]
    (fun f p => ListAddAllWithIndexCodec_encodeRequest p.1 f.1 p.2.1);
  mkRequestFormat 328704 false [] [param string_codec; param data_codec]
    (fun f p => ListAddCodec_encodeRequest p.1 p.2.1);
  mkRequestFormat 330496 false [F_boolean; F_boolean] [param string_codec]
    (fun f p => ListAddListenerCodec_encodeRequest p.1 f.1 f.2.1);
  mkRequestFormat 332032 false [F_int] [param string_codec; param data_codec]
    (fun f p => ListAddWithIndexCodec_encodeRequest p.1 f.1 p.2.1);
  mkRequestFormat 329984 false [] [param string_codec]
    (fun f p => ListClearCodec_encodeRequest p.1);
  mkRequestFormat 329472 false [] [param string_codec; param (list_codec data_codec)]
    (fun f p => ListCompareAndRemoveAllCodec_encodeRequest p.1 p.2.1);
  mkRequestFormat 329728 false [] [param string_codec; param (list_codec data_codec)]
    (fun f p => ListCompareAndRetainAllCodec_encodeRequest p.1 p.2.1);
  mkRequestFormat 328448 true [] [param string_codec; param (list_codec data_codec)]
    (fun f p => ListContainsAllCodec_encodeRequest p.1 p.2.1);
  mkRequestFormat 328192 true [] [param string_codec; param data_codec]
    (fun f p => ListContainsCodec_encodeRequest p.1 p.2.1);
  mkRequestFormat 330240 true [] [param string_codec]
    (fun f p => ListGetAllCodec_encodeRequest p.1);
  mkRequestFormat 331520 true [F_int] [param string_codec]
    (fun f p => ListGetCodec_encodeRequest p.1 f.1);
  mkRequestFormat 332800 true [] [param string_codec; param data_codec]
    (fun f p => ListIndexOfCodec_encodeRequest p.1 p.2.1);
  mkRequestFormat 331008 true [] [param string_codec]
    (fun f p => ListIsEmptyCodec_encodeRequest p.1);
  mkRequestFormat 333312 true [] [param string_codec]
    (fun f p => ListIteratorCodec_encodeRequest p.1);
  mkRequestFormat 332544 true [] [param string_codec; param data_codec]
    (fun f p => ListLastIndexOfCodec_encodeRequest p.1 p.2.1);
  mkRequestFormat 333568 true [F_int] [param string_codec]
    (fun f p => ListListIteratorCodec_encodeRequest p.1 f.1);
  mkRequestFormat 328960 false [] [param string_codec; param data_codec]
    (fun f p => ListRemoveCodec_encodeRequest p.1 p.2.1);
  mkRequestFormat 330752 true [F_uuid] [param string_codec]
    (fun f p => ListRemoveListenerCodec_encodeRequest p.1 f.1);
  mkRequestFormat 332288 false [F_int] [param string_codec]
    (fun f p => ListRemoveWithIndexCodec_encodeRequest p.1 f.1);
  mkRequestFormat 331776 false [F_int] [param string_codec; param data_codec]
    (fun f p => ListSetCodec_encodeRequest p.1 f.1 p.2.1);
  mkRequestFormat 327936 true [] [param string_codec]
    (fun f p => ListSizeCodec_encodeRequest p.1);
  mkRequestFormat 333056 true [F_int; F_int] [param string_codec]
    (fun f p => ListSubCodec_encodeRequest p.1 f.1 f.2.1);
  mkRequestFormat 134656 false [F_boolean; F_boolean] [param string_codec]
    (fun f p => MultiMapAddEntryListenerCodec_encodeRequest p.1 f.1 f.2.1);
  mkRequestFormat 134400 false [F_boolean; F_boolean] [param string_codec; param data_codec]
    (fun f p => MultiMapAddEntryListenerToKeyCodec_encodeRequest p.1 p.2.1 f.1 f.2.1);
  mkRequestFormat 133888 false [] [param string_codec]
    (fun f p => MultiMapClearCodec_encodeRequest p.1);
  mkRequestFormat 133376 true [F_long_arg] [param string_codec; param data_codec; param data_codec]
    (fun f p => MultiMapContainsEntryCodec_encodeRequest p.1 p.2.1 p.2.2.1 f.1);
  mkRequestFormat 132864 true [F_long_arg] [param string_codec; param data_codec]
    (fun f p => MultiMapContainsKeyCodec_encodeRequest p.1 p.2.1 f.1);
  mkRequestFormat 133120 true [] [param string_codec; param data_codec]
    (fun f p => MultiMapContainsValueCodec_encodeRequest p.1 p.2.1);
  mkRequestFormat 136704 false [F_long_arg] [param string_codec; param data_codec]
    (fun f p => MultiMapDeleteCodec_encodeRequest p.1 p.2.1 f.1);
  mkRequestFormat 132608 true [] [param string_codec]
    (fun f p => MultiMapEntrySetCodec_encodeRequest p.1);
  mkRequestFormat 136192 true [F_long_arg] [param string_codec; param data_codec]
    (fun f p => MultiMapForceUnlockCodec_encodeRequest p.1 p.2.1 f.1);
  mkRequestFormat 131584 true [F_long_arg] [param string_codec; param data_codec]
    (fun f p => MultiMapGetCodec_encodeRequest p.1 p.2.1 f.1);
  mkRequestFormat 135680 true [] [param string_codec; param data_codec]
    (fun f p => MultiMapIsLockedCodec_encodeRequest p.1 p.2.1);
  mkRequestFormat 132096 true [] [param string_codec]
    (fun f p => MultiMapKeySetCodec_encodeRequest p.1);
  mkRequestFormat 135168 true [F_long_arg; F_long_arg; F_long_arg] [param string_codec; param data_codec]
    (fun f p => MultiMapLockCodec_encodeRequest p.1 p.2.1 f.1 f.2.1 f.2.2.1);
  mkRequestFormat 136960 false [] [param string_codec; param (entry_list_codec (CK := data_codec) (CV := list_data_codec))]
    (fun f p => MultiMapPutAllCodec_encodeRequest p.1 p.2.1);
  mkRequestFormat 131328 false [F_long_arg] [param string_codec; param data_codec; param data_codec]
    (fun f p => MultiMapPutCodec_encodeRequest p.1 p.2.1 p.2.2.1 f.1);
  mkRequestFormat 131840 false [F_long_arg] [param string_codec; param data_codec]
    (fun f p => MultiMapRemoveCodec_encodeRequest p.1 p.2.1 f.1);
  mkRequestFormat 136448 false [F_long_arg] [param string_codec; param data_codec; param data_codec]
    (fun f p => MultiMapRemoveEntryCodec_encodeRequest p.1 p.2.1 p.2.2.1 f.1);
  mkRequestFormat 134912 true [F_uuid] [param string_codec]
    (fun f p => MultiMapRemoveEntryListenerCodec_encodeRequest p.1 f.1);
  mkRequestFormat 133632 true [] [param string_codec]
    (fun f p => MultiMapSizeCodec_encodeRequest p.1);
  mkRequestFormat 135424 true [F_long_arg; F_long_arg; F_long_arg; F_long_arg] [param string_codec; param data_codec]
    (fun f p => MultiMapTryLockCodec_encodeRequest p.1 p.2.1 f.1 f.2.1 f.2.2.1 f.2.2.2.1);
  mkRequestFormat 135936 true [F_long_arg; F_long_arg] [param string_codec; param data_codec]
    (fun f p => MultiMapUnlockCodec_encodeRequest p.1 p.2.1 f.1 f.2.1);
  mkRequestFormat 134144 true [F_long_arg] [param string_codec; param data_codec]
    (fun f p => MultiMapValueCountCodec_encodeRequest p.1 p.2.1 f.1);
  mkRequestFormat 132352 true [] [param string_codec]
    (fun f p => MultiMapValuesCodec_encodeRequest p.1);
  mkRequestFormat 200704 false [] [param string_codec; param (list_codec data_codec)]
    (fun f p => QueueAddAllCodec_encodeRequest p.1 p.2.1);
  mkRequestFormat 200960 false [F_boolean; F_boolean] [param string_codec]
    (fun f p => QueueAddListenerCodec_encodeRequest p.1 f.1 f.2.1);
  mkRequestFormat 200448 false [] [param string_codec]
    (fun f p => QueueClearCodec_encodeRequest p.1);
  mkRequestFormat 199936 false [] [param string_codec; param (list_codec data_codec)]
    (fun f p => QueueCompareAndRemoveAllCodec_encodeRequest p.1 p.2.1);
  mkRequestFormat 200192 false [] [param string_codec; param (list_codec data_codec)]
    (fun f p => QueueCompareAndRetainAllCodec_encodeRequest p.1 p.2.1);
  mkRequestFormat 199680 false [] [param string_codec; param (list_codec data_codec)]
    (fun f p => QueueContainsAllCodec_encodeRequest p.1 p.2.1);
  mkRequestFormat 199424 false [] [param string_codec; param data_codec]
    (fun f p => QueueContainsCodec_encodeRequest p.1 p.2.1);
  mkRequestFormat 198912 false [] [param string_codec]
    (fun f p => QueueDrainToCodec_encodeRequest p.1);
  mkRequestFormat 199168 false [F_int] [param string_codec]
    (fun f p => QueueDrainToMaxSizeCodec_encodeRequest p.1 f.1);
  mkRequestFormat 201728 false [] [param string_codec]
    (fun f p => QueueIsEmptyCodec_encodeRequest p.1);
  mkRequestFormat 198656 false [] [param string_codec]
    (fun f p => QueueIteratorCodec_encodeRequest p.1);
  mkRequestFormat 196864 false [F_long_arg] [param string_codec; param data_codec]
    (fun f p => QueueOfferCodec_encodeRequest p.1 p.2.1 f.1);
  mkRequestFormat 198400 false [] [param string_codec]
    (fun f p => QueuePeekCodec_encodeRequest p.1);
  mkRequestFormat 197888 false [F_long_arg] [param string_codec]
    (fun f p => QueuePollCodec_encodeRequest p.1 f.1);
  mkRequestFormat 197120 false [] [param string_codec; param data_codec]
    (fun f p => QueuePutCodec_encodeRequest p.1 p.2.1);
  mkRequestFormat 201472 false [] [param string_codec]
    (fun f p => QueueRemainingCapacityCodec_encodeRequest p.1);
  mkRequestFormat 197632 false [] [param string_codec; param data_codec]
    (fun f p => QueueRemoveCodec_encodeRequest p.1 p.2.1);
  mkRequestFormat 201216 true [F_uuid] [param string_codec]
    (fun f p => QueueRemoveListenerCodec_encodeRequest p.1 f.1);
  mkRequestFormat 197376 false [] [param string_codec]
    (fun f p => QueueSizeCodec_encodeRequest p.1);
  mkRequestFormat 198144 false [] [param string_codec]
    (fun f p => QueueTakeCodec_encodeRequest p.1);
  mkRequestFormat 855296 false [F_boolean] [param string_codec]
    (fun f p => ReplicatedMapAddEntryListenerCodec_encodeRequest p.1 f.1);
  mkRequestFormat 855040 false [F_boolean] [param string_codec; param data_codec]
    (fun f p => ReplicatedMapAddEntryListenerToKeyCodec_encodeRequest p.1 p.2.1 f.1);
  mkRequestFormat 854528 false [F_boolean] [param string_codec; param data_codec; param data_codec]
    (fun f p => ReplicatedMapAddEntryListenerToKeyWithPredicateCodec_encodeRequest p.1 p.2.1 p.2.2.1 f.1);
  mkRequestFormat 854784 false [F_boolean] [param string_codec; param data_codec]
    (fun f p => ReplicatedMapAddEntryListenerWithPredicateCodec_encodeRequest p.1 p.2.1 f.1);
  mkRequestFormat 856576 false [F_boolean; F_boolean] [param string_codec]
    (fun f p => ReplicatedMapAddNearCacheEntryListenerCodec_encodeRequest p.1 f.1 f.2.1);
  mkRequestFormat 854272 false [] [param string_codec]
    (fun f p => ReplicatedMapClearCodec_encodeRequest p.1);
  mkRequestFormat 852992 true [] [param string_codec; param data_codec]
    (fun f p => ReplicatedMapContainsKeyCodec_encodeRequest p.1 p.2.1);
  mkRequestFormat 853248 true [] [param string_codec; param data_codec]
    (fun f p => ReplicatedMapContainsValueCodec_encodeRequest p.1 p.2.1);
  mkRequestFormat 856320 true [] [param string_codec]
    (fun f p => ReplicatedMapEntrySetCodec_encodeRequest p.1);
  mkRequestFormat 853504 true [] [param string_codec; param data_codec]
    (fun f p => ReplicatedMapGetCodec_encodeRequest p.1 p.2.1);
  mkRequestFormat 852736 true [] [param string_codec]
    (fun f p => ReplicatedMapIsEmptyCodec_encodeRequest p.1);
  mkRequestFormat 855808 true [] [param string_codec]
    (fun f p => ReplicatedMapKeySetCodec_encodeRequest p.1);
  mkRequestFormat 854016 false [] [param string_codec; param (entry_list_codec (CK := data_codec) (CV := data_codec))]
    (fun f p => ReplicatedMapPutAllCodec_encodeRequest p.1 p.2.1);
  mkRequestFormat 852224 false [F_long_arg] [param string_codec; param data_codec; param data_codec]
    (fun f p => ReplicatedMapPutCodec_encodeRequest p.1 p.2.1 p.2.2.1 f.1);
  mkRequestFormat 853760 false [] [param string_codec; param data_codec]
    (fun f p => ReplicatedMapRemoveCodec_encodeRequest p.1 p.2.1);
  mkRequestFormat 855552 true [F_uuid] [param string_codec]
    (fun f p => ReplicatedMapRemoveEntryListenerCodec_encodeRequest p.1 f.1);
  mkRequestFormat 852480 true [] [param string_codec]
    (fun f p => ReplicatedMapSizeCodec_encodeRequest p.1);
  mkRequestFormat 856064 true [] [param string_codec]
    (fun f p => ReplicatedMapValuesCodec_encodeRequest p.1);
  mkRequestFormat 1509376 false [F_int] [param string_codec; param (list_codec data_codec)]
    (fun f p => RingbufferAddAllCodec_encodeRequest p.1 p.2.1 f.1);
  mkRequestFormat 1508864 false [F_int] [param string_codec; param data_codec]
    (fun f p => RingbufferAddCodec_encodeRequest p.1 f.1 p.2.1);
  mkRequestFormat 1508352 true [] [param string_codec]
    (fun f p => RingbufferCapacityCodec_encodeRequest p.1);
  mkRequestFormat 1508096 true [] [param string_codec]
    (fun f p => RingbufferHeadSequenceCodec_encodeRequest p.1);
  mkRequestFormat 1509632 true [F_long_arg; F_int; F_int] [param string_codec; param (nullable_codec data_codec)]
    (fun f p => RingbufferReadManyCodec_encodeRequest p.1 f.1 f.2.1 f.2.2.1 p.2.1);
  mkRequestFormat 1509120 true [F_long_arg] [param string_codec]
    (fun f p => RingbufferReadOneCodec_encodeRequest p.1 f.1);
  mkRequestFormat 1508608 true [] [param string_codec]
    (fun f p => RingbufferRemainingCapacityCodec_encodeRequest p.1);
  mkRequestFormat 1507584 true [] [param string_codec]
    (fun f p => RingbufferSizeCodec_encodeRequest p.1);
  mkRequestFormat 1507840 true [] [param string_codec]
    (fun f p => RingbufferTailSequenceCodec_encodeRequest p.1);
  mkRequestFormat 394752 false [] [param string_codec; param (list_codec data_codec)]
    (fun f p => SetAddAllCodec_encodeRequest p.1 p.2.1);
  mkRequestFormat 394240 false [] [param string_codec; param data_codec]
    (fun f p => SetAddCodec_encodeRequest p.1 p.2.1);
  mkRequestFormat 396032 false [F_boolean; F_boolean] [param string_codec]
    (fun f p => SetAddListenerCodec_encodeRequest p.1 f.1 f.2.1);
  mkRequestFormat 395520 false [] [param string_codec]
    (fun f p => SetClearCodec_encodeRequest p.1);
  mkRequestFormat 395008 false [] [param string_codec; param (list_codec data_codec)]
    (fun f p => SetCompareAndRemoveAllCodec_encodeRequest p.1 p.2.1);
  mkRequestFormat 395264 false [] [param string_codec; param (list_codec data_codec)]
    (fun f p => SetCompareAndRetainAllCodec_encodeRequest p.1 p.2.1);
  mkRequestFormat 393984 false [] [param string_codec; param (list_codec data_codec)]
    (fun f p => SetContainsAllCodec_encodeRequest p.1 p.2.1);
  mkRequestFormat 393728 false [] [param string_codec; param data_codec]
    (fun f p => SetContainsCodec_encodeRequest p.1 p.2.1);
  mkRequestFormat 395776 false [] [param string_codec]
    (fun f p => SetGetAllCodec_encodeRequest p.1);
  mkRequestFormat 396544 false [] [param string_codec]
    (fun f p => SetIsEmptyCodec_encodeRequest p.1);
  mkRequestFormat 394496 false [] [param string_codec; param data_codec]
    (fun f p => SetRemoveCodec_encodeRequest p.1 p.2.1);
  mkRequestFormat 396288 true [F_uuid] [param string_codec]
    (fun f p => SetRemoveListenerCodec_encodeRequest p.1 f.1);
  mkRequestFormat 393472 false [] [param string_codec]
    (fun f p => SetSizeCodec_encodeRequest p.1);
  mkRequestFormat 262656 false [F_boolean] [param string_codec]
    (fun f p => TopicAddMessageListenerCodec_encodeRequest p.1 f.1);
  mkRequestFormat 263168 false [] [param string_codec; param (list_codec data_codec)]
    (fun f p => TopicPublishAllCodec_encodeRequest p.1 p.2.1);
  mkRequestFormat 262400 false [] [param string_codec; param data_codec]
    (fun f p => TopicPublishCodec_encodeRequest p.1 p.2.1);
  mkRequestFormat 262912 true [F_uuid] [param string_codec]
    (fun f p => TopicRemoveMessageListenerCodec_encodeRequest p.1 f.1)
].

Definition collection_responses : list ReplyFormat := [
  mkReplyFormat [F_boolean] [] bool
    (fun f p => f.1) ListAddAllCodec_decodeResponse;
  mkReplyFormat [F_boolean] [] bool
    (fun f p => f.1) ListAddAllWithIndexCodec_decodeResponse;
  mkReplyFormat [F_boolean] [] bool
    (fun f p => f.1) ListAddCodec_decodeResponse;
  mkReplyFormat [F_uuid] [] (option (UUID L))
    (fun f p => f.1) ListAddListenerCodec_decodeResponse;
  mkReplyFormat [F_boolean] [] bool
    (fun f p => f.1) ListCompareAndRemoveAllCodec_decodeResponse;
  mkReplyFormat [F_boolean] [] bool
    (fun f p => f.1) ListCompareAndRetainAllCodec_decodeResponse;
  mkReplyFormat [F_boolean] [] bool
    (fun f p => f.1) ListContainsAllCodec_decodeResponse;
  mkReplyFormat [F_boolean] [] bool
    (fun f p => f.1) ListContainsCodec_decodeResponse;
  mkReplyFormat [] [reply (list_codec data_codec)] (list HeapData)
    (fun f p => p.1) ListGetAllCodec_decodeResponse;
  mkReplyFormat [] [reply (nullable_codec data_codec)] (option HeapData)
    (fun f p => p.1) ListGetCodec_decodeResponse;
  mkReplyFormat [F_int] [] Z
    (fun f p => f.1) ListIndexOfCodec_decodeResponse;
  mkReplyFormat [F_boolean] [] bool
    (fun f p => f.1) ListIsEmptyCodec_decodeResponse;
  mkReplyFormat [] [reply (list_codec data_codec)] (list HeapData)
    (fun f p => p.1) ListIteratorCodec_decodeResponse;
  mkReplyFormat [F_int] [] Z
    (fun f p => f.1) ListLastIndexOfCodec_decodeResponse;
  mkReplyFormat [] [reply (list_codec data_codec)] (list HeapData)
    (fun f p => p.1) ListListIteratorCodec_decodeResponse;
  mkReplyFormat [F_boolean] [] bool
    (fun f p => f.1) ListRemoveCodec_decodeResponse;
  mkReplyFormat [F_boolean] [] bool
    (fun f p => f.1) ListRemoveListenerCodec_decodeResponse;
  mkReplyFormat [] [reply (nullable_codec data_codec)] (option HeapData)
    (fun f p => p.1) ListRemoveWithIndexCodec_decodeResponse;
  mkReplyFormat [] [reply (nullable_codec data_codec)] (option HeapData)
    (fun f p => p.1) ListSetCodec_decodeResponse;
  mkReplyFormat [F_int] [] Z
    (fun f p => f.1) ListSizeCodec_decodeResponse;
  mkReplyFormat [] [reply (list_codec data_codec)] (list HeapData)
    (fun f p => p.1) ListSubCodec_decodeResponse;
  mkReplyFormat [F_uuid] [] (option (UUID L))
    (fun f p => f.1) MultiMapAddEntryListenerCodec_decodeResponse;
  mkReplyFormat [F_uuid] [] (option (UUID L))
    (fun f p => f.1) MultiMapAddEntryListenerToKeyCodec_decodeResponse;
  mkReplyFormat [F_boolean] [] bool
    (fun f p => f.1) MultiMapContainsEntryCodec_decodeResponse;
  mkReplyFormat [F_boolean] [] bool
    (fun f p => f.1) MultiMapContainsKeyCodec_decodeResponse;
  mkReplyFormat [F_boolean] [] bool
    (fun f p => f.1) MultiMapContainsValueCodec_decodeResponse;
  mkReplyFormat [] [reply (entry_list_codec (CK := data_codec) (CV := data_codec))] (list (HeapData * HeapData))
    (fun f p => p.1) MultiMapEntrySetCodec_decodeResponse;
  mkReplyFormat [] [reply (list_codec data_codec)] (list HeapData)
    (fun f p => p.1) MultiMapGetCodec_decodeResponse;
  mkReplyFormat [F_boolean] [] bool
    (fun f p => f.1) MultiMapIsLockedCodec_decodeResponse;
  mkReplyFormat [] [reply (list_codec data_codec)] (list HeapData)
    (fun f p => p.1) MultiMapKeySetCodec_decodeResponse;
  mkReplyFormat [F_boolean] [] bool
    (fun f p => f.1) MultiMapPutCodec_decodeResponse;
  mkReplyFormat [] [reply (list_codec data_codec)] (list HeapData)
    (fun f p => p.1) MultiMapRemoveCodec_decodeResponse;
  mkReplyFormat [F_boolean] [] bool
    (fun f p => f.1) MultiMapRemoveEntryCodec_decodeResponse;
  mkReplyFormat [F_boolean] [] bool
    (fun f p => f.1) MultiMapRemoveEntryListenerCodec_decodeResponse;
  mkReplyFormat [F_int] [] Z
    (fun f p => f.1) MultiMapSizeCodec_decodeResponse;
  mkReplyFormat [F_boolean] [] bool
    (fun f p => f.1) MultiMapTryLockCodec_decodeResponse;
  mkReplyFormat [F_int] [] Z
    (fun f p => f.1) MultiMapValueCountCodec_decodeResponse;
  mkReplyFormat [] [reply (list_codec data_codec)] (list HeapData)
    (fun f p => p.1) MultiMapValuesCodec_decodeResponse;
  mkReplyFormat [F_boolean] [] bool
    (fun f p => f.1) QueueAddAllCodec_decodeResponse;
  mkReplyFormat [F_uuid] [] (option (UUID L))
    (fun f p => f.1) QueueAddListenerCodec_decodeResponse;
  mkReplyFormat [F_boolean] [] bool
    (fun f p => f.1) QueueCompareAndRemoveAllCodec_decodeResponse;
  mkReplyFormat [F_boolean] [] bool
    (fun f p => f.1) QueueCompareAndRetainAllCodec_decodeResponse;
  mkReplyFormat [F_boolean] [] bool
    (fun f p => f.1) QueueContainsAllCodec_decodeResponse;
  mkReplyFormat [F_boolean] [] bool
    (fun f p => f.1) QueueContainsCodec_decodeResponse;
  mkReplyFormat [] [reply (list_codec data_codec)] (list HeapData)
    (fun f p => p.1) QueueDrainToCodec_decodeResponse;
  mkReplyFormat [] [reply (list_codec data_codec)] (list HeapData)
    (fun f p => p.1) QueueDrainToMaxSizeCodec_decodeResponse;
  mkReplyFormat [F_boolean] [] bool
    (fun f p => f.1) QueueIsEmptyCodec_decodeResponse;
  mkReplyFormat [] [reply (list_codec data_codec)] (list HeapData)
    (fun f p => p.1) QueueIteratorCodec_decodeResponse;
  mkReplyFormat [F_boolean] [] bool
    (fun f p => f.1) QueueOfferCodec_decodeResponse;
  mkReplyFormat [] [reply (nullable_codec data_codec)] (option HeapData)
    (fun f p => p.1) QueuePeekCodec_decodeResponse;
  mkReplyFormat [] [reply (nullable_codec data_codec)] (option HeapData)
    (fun f p => p.1) QueuePollCodec_decodeResponse;
  mkReplyFormat [F_int] [] Z
    (fun f p => f.1) QueueRemainingCapacityCodec_decodeResponse;
  mkReplyFormat [F_boolean] [] bool
    (fun f p => f.1) QueueRemoveCodec_decodeResponse;
  mkReplyFormat [F_boolean] [] bool
    (fun f p => f.1) QueueRemoveListenerCodec_decodeResponse;
  mkReplyFormat [F_int] [] Z
    (fun f p => f.1) QueueSizeCodec_decodeResponse;
  mkReplyFormat [] [reply (nullable_codec data_codec)] (option HeapData)
    (fun f p => p.1) QueueTakeCodec_decodeResponse;
  mkReplyFormat [F_uuid] [] (option (UUID L))
    (fun f p => f.1) ReplicatedMapAddEntryListenerCodec_decodeResponse;
  mkReplyFormat [F_uuid] [] (option (UUID L))
    (fun f p => f.1) ReplicatedMapAddEntryListenerToKeyCodec_decodeResponse;
  mkReplyFormat [F_uuid] [] (option (UUID L))
    (fun f p => f.1) ReplicatedMapAddEntryListenerToKeyWithPredicateCodec_decodeResponse;
  mkReplyFormat [F_uuid] [] (option (UUID L))
    (fun f p => f.1) ReplicatedMapAddEntryListenerWithPredicateCodec_decodeResponse;
  mkReplyFormat [F_uuid] [] (option (UUID L))
    (fun f p => f.1) ReplicatedMapAddNearCacheEntryListenerCodec_decodeResponse;
  mkReplyFormat [F_boolean] [] bool
    (fun f p => f.1) ReplicatedMapContainsKeyCodec_decodeResponse;
  mkReplyFormat [F_boolean] [] bool
    (fun f p => f.1) ReplicatedMapContainsValueCodec_decodeResponse;
  mkReplyFormat [] [reply (entry_list_codec (CK := data_codec) (CV := data_codec))] (list (HeapData * HeapData))
    (fun f p => p.1) ReplicatedMapEntrySetCodec_decodeResponse;
  mkReplyFormat [] [reply (nullable_codec data_codec)] (option HeapData)
    (fun f p => p.1) ReplicatedMapGetCodec_decodeResponse;
  mkReplyFormat [F_boolean] [] bool
    (fun f p => f.1) ReplicatedMapIsEmptyCodec_decodeResponse;
  mkReplyFormat [] [reply (list_codec data_codec)] (list HeapData)
    (fun f p => p.1) ReplicatedMapKeySetCodec_decodeResponse;
  mkReplyFormat [] [reply (nullable_codec data_codec)] (option HeapData)
    (fun f p => p.1) ReplicatedMapPutCodec_decodeResponse;
  mkReplyFormat [] [reply (nullable_codec data_codec)] (option HeapData)
    (fun f p => p.1) ReplicatedMapRemoveCodec_decodeResponse;
  mkReplyFormat [F_boolean] [] bool
    (fun f p => f.1) ReplicatedMapRemoveEntryListenerCodec_decodeResponse;
  mkReplyFormat [F_int] [] Z
    (fun f p => f.1) ReplicatedMapSizeCodec_decodeResponse;
  mkReplyFormat [] [reply (list_codec data_codec)] (list HeapData)
    (fun f p => p.1) ReplicatedMapValuesCodec_decodeResponse;
  mkReplyFormat [F_long] [] L
    (fun f p => f.1) RingbufferAddAllCodec_decodeResponse;
  mkReplyFormat [F_long] [] L
    (fun f p => f.1) RingbufferAddCodec_decodeResponse;
  mkReplyFormat [F_long] [] L
    (fun f p => f.1) RingbufferCapacityCodec_decodeResponse;
  mkReplyFormat [F_long] [] L
    (fun f p => f.1) RingbufferHeadSequenceCodec_decodeResponse;
  mkReplyFormat [F_int; F_long] [reply (list_codec data_codec); reply (nullable_codec list_long_codec)] (RingbufferReadManyResponseParams L)
    (fun f p => mkRingbufferReadManyResponseParams f.1 p.1 p.2.1 f.2.1) RingbufferReadManyCodec_decodeResponse;
  mkReplyFormat [] [reply (nullable_codec data_codec)] (option HeapData)
    (fun f p => p.1) RingbufferReadOneCodec_decodeResponse;
  mkReplyFormat [F_long] [] L
    (fun f p => f.1) RingbufferRemainingCapacityCodec_decodeResponse;
  mkReplyFormat [F_long] [] L
    (fun f p => f.1) RingbufferSizeCodec_decodeResponse;
  mkReplyFormat [F_long] [] L
    (fun f p => f.1) RingbufferTailSequenceCodec_decodeResponse;
  mkReplyFormat [F_boolean] [] bool
    (fun f p => f.1) SetAddAllCodec_decodeResponse;
  mkReplyFormat [F_boolean] [] bool
    (fun f p => f.1) SetAddCodec_decodeResponse;
  mkReplyFormat [F_uuid] [] (option (UUID L))
    (fun f p => f.1) SetAddListenerCodec_decodeResponse;
  mkReplyFormat [F_boolean] [] bool
    (fun f p => f.1) SetCompareAndRemoveAllCodec_decodeResponse;
  mkReplyFormat [F_boolean] [] bool
    (fun f p => f.1) SetCompareAndRetainAllCodec_decodeResponse;
  mkReplyFormat [F_boolean] [] bool
    (fun f p => f.1) SetContainsAllCodec_decodeResponse;
  mkReplyFormat [F_boolean] [] bool
    (fun f p => f.1) SetContainsCodec_decodeResponse;
  mkReplyFormat [] [reply (list_codec data_codec)] (list HeapData)
    (fun f p => p.1) SetGetAllCodec_decodeResponse;
  mkReplyFormat [F_boolean] [] bool
    (fun f p => f.1) SetIsEmptyCodec_decodeResponse;
  mkReplyFormat [F_boolean] [] bool
    (fun f p => f.1) SetRemoveCodec_decodeResponse;
  mkReplyFormat [F_boolean] [] bool
    (fun f p => f.1) SetRemoveListenerCodec_decodeResponse;
  mkReplyFormat [F_int] [] Z
    (fun f p => f.1) SetSizeCodec_decodeResponse;
  mkReplyFormat [F_uuid] [] (option (UUID L))
    (fun f p => f.1) TopicAddMessageListenerCodec_decodeResponse;
  mkReplyFormat [F_boolean] [] bool
    (fun f p => f.1) TopicRemoveMessageListenerCodec_decodeResponse
].

Definition collection_events : list EventFormat := [
  mkEventFormat 330498 [F_uuid; F_int] [reply (nullable_codec data_codec)] ((option HeapData) * (option (UUID L)) * Z)
    (fun f p => (p.1, f.1, f.2.1)) (ListAddListenerCodec_handle (Some (fun item uuid eventType => (item, uuid, eventType))));
  mkEventFormat 134658 [F_int; F_uuid; F_int] [reply (nullable_codec data_codec); reply (nullable_codec data_codec); reply (nullable_codec data_codec); reply (nullable_codec data_codec)] ((option HeapData) * (option HeapData) * (option HeapData) * (option HeapData) * Z * (option (UUID L)) * Z)
    (fun f p => (p.1, p.2.1, p.2.2.1, p.2.2.2.1, f.1, f.2.1, f.2.2.1)) (MultiMapAddEntryListenerCodec_handle (Some (fun key value oldValue mergingValue eventType uuid numberOfAffectedEntries => (key, value, oldValue, mergingValue, eventType, uuid, numberOfAffectedEntries))));
  mkEventFormat 134402 [F_int; F_uuid; F_int] [reply (nullable_codec data_codec); reply (nullable_codec data_codec); reply (nullable_codec data_codec); reply (nullable_codec data_codec)] ((option HeapData) * (option HeapData) * (option HeapData) * (option HeapData) * Z * (option (UUID L)) * Z)
    (fun f p => (p.1, p.2.1, p.2.2.1, p.2.2.2.1, f.1, f.2.1, f.2.2.1)) (MultiMapAddEntryListenerToKeyCodec_handle (Some (fun key value oldValue mergingValue eventType uuid numberOfAffectedEntries => (key, value, oldValue, mergingValue, eventType, uuid, numberOfAffectedEntries))));
  mkEventFormat 200962 [F_uuid; F_int] [reply (nullable_codec data_codec)] ((option HeapData) * (option (UUID L)) * Z)
    (fun f p => (p.1, f.1, f.2.1)) (QueueAddListenerCodec_handle (Some (fun item uuid eventType => (item, uuid, eventType))));
  mkEventFormat 855298 [F_int; F_uuid; F_int] [reply (nullable_codec data_codec); reply (nullable_codec data_codec); reply (nullable_codec data_codec); reply (nullable_codec data_codec)] ((option HeapData) * (option HeapData) * (option HeapData) * (option HeapData) * Z * (option (UUID L)) * Z)
    (fun f p => (p.1, p.2.1, p.2.2.1, p.2.2.2.1, f.1, f.2.1, f.2.2.1)) (ReplicatedMapAddEntryListenerCodec_handle (Some (fun key value oldValue mergingValue eventType uuid numberOfAffectedEntries => (key, value, oldValue, mergingValue, eventType, uuid, numberOfAffectedEntries))));
  mkEventFormat 855042 [F_int; F_uuid; F_int] [reply (nullable_codec data_codec); reply (nullable_codec data_codec); reply (nullable_codec data_codec); reply (nullable_codec data_codec)] ((option HeapData) * (option HeapData) * (option HeapData) * (option HeapData) * Z * (option (UUID L)) * Z)
    (fun f p => (p.1, p.2.1, p.2.2.1, p.2.2.2.1, f.1, f.2.1, f.2.2.1)) (ReplicatedMapAddEntryListenerToKeyCodec_handle (Some (fun key value oldValue mergingValue eventType uuid numberOfAffectedEntries => (key, value, oldValue, mergingValue, eventType, uuid, numberOfAffectedEntries))));
  mkEventFormat 854530 [F_int; F_uuid; F_int] [reply (nullable_codec data_codec); reply (nullable_codec data_codec); reply (nullable_codec data_codec); reply (nullable_codec data_codec)] ((option HeapData) * (option HeapData) * (option HeapData) * (option HeapData) * Z * (option (UUID L)) * Z)
    (fun f p => (p.1, p.2.1, p.2.2.1, p.2.2.2.1, f.1, f.2.1, f.2.2.1)) (ReplicatedMapAddEntryListenerToKeyWithPredicateCodec_handle (Some (fun key value oldValue mergingValue eventType uuid numberOfAffectedEntries => (key, value, oldValue, mergingValue, eventType, uuid, numberOfAffectedEntries))));
  mkEventFormat 854786 [F_int; F_uuid; F_int] [reply (nullable_codec data_codec); reply (nullable_codec data_codec); reply (nullable_codec data_codec); reply (nullable_codec data_codec)] ((option HeapData) * (option HeapData) * (option HeapData) * (option HeapData) * Z * (option (UUID L)) * Z)
    (fun f p => (p.1, p.2.1, p.2.2.1, p.2.2.2.1, f.1, f.2.1, f.2.2.1)) (ReplicatedMapAddEntryListenerWithPredicateCodec_handle (Some (fun key value oldValue mergingValue eventType uuid numberOfAffectedEntries => (key, value, oldValue, mergingValue, eventType, uuid, numberOfAffectedEntries))));
  mkEventFormat 856578 [F_int; F_uuid; F_int] [reply (nullable_codec data_codec); reply (nullable_codec data_codec); reply (nullable_codec data_codec); reply (nullable_codec data_codec)] ((option HeapData) * (option HeapData) * (option HeapData) * (option HeapData) * Z * (option (UUID L)) * Z)
    (fun f p => (p.1, p.2.1, p.2.2.1, p.2.2.2.1, f.1, f.2.1, f.2.2.1)) (ReplicatedMapAddNearCacheEntryListenerCodec_handle (Some (fun key value oldValue mergingValue eventType uuid numberOfAffectedEntries => (key, value, oldValue, mergingValue, eventType, uuid, numberOfAffectedEntries))));
  mkEventFormat 396034 [F_uuid; F_int] [reply (nullable_codec data_codec)] ((option HeapData) * (option (UUID L)) * Z)
    (fun f p => (p.1, f.1, f.2.1)) (SetAddListenerCodec_handle (Some (fun item uuid eventType => (item, uuid, eventType))));
  mkEventFormat 262658 [F_long; F_uuid] [reply data_codec] (HeapData * L * (option (UUID L)))
    (fun f p => (p.1, f.1, f.2.1)) (TopicAddMessageListenerCodec_handle (Some (fun item publishTime uuid => (item, publishTime, uuid))))
].

Lemma collection_requests_conform : Forall request_conforms collection_requests.
Proof. format_agrees collection_requests. Qed.

Lemma collection_responses_conform : Forall response_conforms collection_responses.
Proof. format_agrees collection_responses. Qed.

Lemma collection_events_conform : Forall event_conforms collection_events.
Proof. format_agrees collection_events. Qed.
End Formats.
