(* ===== verification/ServiceRequests.v ===== *)
(** * Request codecs: the client itself, the CP subsystem, counters, id generators and SQL

    The codecs of [src/src/codec/] whose names start with Client, CP, AtomicLong, AtomicRef, CountDownLatch, FencedLock, Semaphore, FlakeIdGenerator, PNCounter and Sql: [encodeRequest], [decodeResponse]
    and [handle] of each, with the offsets the file computes, and the formats they implement (see [RequestCore]). *)

From S2P Require Export RequestCore RequestTypes.

Record CPSessionCreateSessionResponseParams {L : Type} := mkCPSessionCreateSessionResponseParams {
  CPSessionCreateSession_sessionId : L;
  CPSessionCreateSession_ttlMillis : L;
  CPSessionCreateSession_heartbeatMillis : L
}.
Arguments CPSessionCreateSessionResponseParams L : clear implicits.
Arguments mkCPSessionCreateSessionResponseParams {L}.
Arguments CPSessionCreateSession_sessionId {L}.
Arguments CPSessionCreateSession_ttlMillis {L}.
Arguments CPSessionCreateSession_heartbeatMillis {L}.

Record ClientAuthenticationResponseParams {L : Type} := mkClientAuthenticationResponseParams {
  ClientAuthentication_status : Z;
  ClientAuthentication_address : option AddressImpl;
  ClientAuthentication_memberUuid : option (UUID L);
  ClientAuthentication_serializationVersion : Z;
  ClientAuthentication_serverHazelcastVersion : string;
  ClientAuthentication_partitionCount : Z;
  ClientAuthentication_clusterId : option (UUID L);
  ClientAuthentication_failoverSupported : bool
}.
Arguments ClientAuthenticationResponseParams L : clear implicits.
Arguments mkClientAuthenticationResponseParams {L}.
Arguments ClientAuthentication_status {L}.
Arguments ClientAuthentication_address {L}.
Arguments ClientAuthentication_memberUuid {L}.
Arguments ClientAuthentication_serializationVersion {L}.
Arguments ClientAuthentication_serverHazelcastVersion {L}.
Arguments ClientAuthentication_partitionCount {L}.
Arguments ClientAuthentication_clusterId {L}.
Arguments ClientAuthentication_failoverSupported {L}.

Record ClientAuthenticationCustomResponseParams {L : Type} := mkClientAuthenticationCustomResponseParams {
  ClientAuthenticationCustom_status : Z;
  ClientAuthenticationCustom_address : option AddressImpl;
  ClientAuthenticationCustom_memberUuid : option (UUID L);
  ClientAuthenticationCustom_serializationVersion : Z;
  ClientAuthenticationCustom_serverHazelcastVersion : string;
  ClientAuthenticationCustom_partitionCount : Z;
  ClientAuthenticationCustom_clusterId : option (UUID L);
  ClientAuthenticationCustom_failoverSupported : bool
}.
Arguments ClientAuthenticationCustomResponseParams L : clear implicits.
Arguments mkClientAuthenticationCustomResponseParams {L}.
Arguments ClientAuthenticationCustom_status {L}.
Arguments ClientAuthenticationCustom_address {L}.
Arguments ClientAuthenticationCustom_memberUuid {L}.
Arguments ClientAuthenticationCustom_serializationVersion {L}.
Arguments ClientAuthenticationCustom_serverHazelcastVersion {L}.
Arguments ClientAuthenticationCustom_partitionCount {L}.
Arguments ClientAuthenticationCustom_clusterId {L}.
Arguments ClientAuthenticationCustom_failoverSupported {L}.

Record FencedLockGetLockOwnershipResponseParams {L : Type} := mkFencedLockGetLockOwnershipResponseParams {
  FencedLockGetLockOwnership_fence : L;
  FencedLockGetLockOwnership_lockCount : Z;
  FencedLockGetLockOwnership_sessionId : L;
  FencedLockGetLockOwnership_threadId : L
}.
Arguments FencedLockGetLockOwnershipResponseParams L : clear implicits.
Arguments mkFencedLockGetLockOwnershipResponseParams {L}.
Arguments FencedLockGetLockOwnership_fence {L}.
Arguments FencedLockGetLockOwnership_lockCount {L}.
Arguments FencedLockGetLockOwnership_sessionId {L}.
Arguments FencedLockGetLockOwnership_threadId {L}.

Record FlakeIdGeneratorNewIdBatchResponseParams {L : Type} := mkFlakeIdGeneratorNewIdBatchResponseParams {
  FlakeIdGeneratorNewIdBatch_base : L;
  FlakeIdGeneratorNewIdBatch_increment : L;
  FlakeIdGeneratorNewIdBatch_batchSize : Z
}.
Arguments FlakeIdGeneratorNewIdBatchResponseParams L : clear implicits.
Arguments mkFlakeIdGeneratorNewIdBatchResponseParams {L}.
Arguments FlakeIdGeneratorNewIdBatch_base {L}.
Arguments FlakeIdGeneratorNewIdBatch_increment {L}.
Arguments FlakeIdGeneratorNewIdBatch_batchSize {L}.

Record PNCounterAddResponseParams {L : Type} := mkPNCounterAddResponseParams {
  PNCounterAdd_value : L;
  PNCounterAdd_replicaTimestamps : list (option (UUID L) * L);
  PNCounterAdd_replicaCount : Z
}.
Arguments PNCounterAddResponseParams L : clear implicits.
Arguments mkPNCounterAddResponseParams {L}.
Arguments PNCounterAdd_value {L}.
Arguments PNCounterAdd_replicaTimestamps {L}.
Arguments PNCounterAdd_replicaCount {L}.

Record PNCounterGetResponseParams {L : Type} := mkPNCounterGetResponseParams {
  PNCounterGet_value : L;
  PNCounterGet_replicaTimestamps : list (option (UUID L) * L);
  PNCounterGet_replicaCount : Z
}.
Arguments PNCounterGetResponseParams L : clear implicits.
Arguments mkPNCounterGetResponseParams {L}.
Arguments PNCounterGet_value {L}.
Arguments PNCounterGet_replicaTimestamps {L}.
Arguments PNCounterGet_replicaCount {L}.

Record SqlExecuteResponseParams {L : Type} := mkSqlExecuteResponseParams {
  SqlExecute_rowMetadata : option (list SqlColumnMetadata);
  SqlExecute_rowPage : option (SqlPageData L);
  SqlExecute_updateCount : L;
  SqlExecute_error : option (SqlError L)
}.
Arguments SqlExecuteResponseParams L : clear implicits.
Arguments mkSqlExecuteResponseParams {L}.
Arguments SqlExecute_rowMetadata {L}.
Arguments SqlExecute_rowPage {L}.
Arguments SqlExecute_updateCount {L}.
Arguments SqlExecute_error {L}.

Record SqlFetchResponseParams {L : Type} := mkSqlFetchResponseParams {
  SqlFetch_rowPage : option (SqlPageData L);
  SqlFetch_error : option (SqlError L)
}.
Arguments SqlFetchResponseParams L : clear implicits.
Arguments mkSqlFetchResponseParams {L}.
Arguments SqlFetch_rowPage {L}.
Arguments SqlFetch_error {L}.

Section Codecs.
Context `{Uninit} {L : Type} `{LongLib L}.

(** ** AtomicLongAddAndGetCodec *)

Definition AtomicLongAddAndGetCodec_encodeRequest (groupId : RaftGroupId L) (name : string) (delta : long_arg L) : res Request :=
  let REQUEST_MESSAGE_TYPE := 590592 in
  let REQUEST_DELTA_OFFSET := PARTITION_ID_OFFSET + INT_SIZE_IN_BYTES in
  let REQUEST_INITIAL_FRAME_SIZE := REQUEST_DELTA_OFFSET + LONG_SIZE_IN_BYTES in
  let clientMessage := Request.createForEncode in
  let clientMessage := Request.setRetryable clientMessage false in
  let initialFrame := initial_frame REQUEST_INITIAL_FRAME_SIZE in
  initialFrame ← encode_at encodeLong initialFrame REQUEST_DELTA_OFFSET delta;
  let clientMessage := Request.addFrame clientMessage initialFrame in
  clientMessage ← Request.setMessageType clientMessage REQUEST_MESSAGE_TYPE;
  clientMessage ← Request.setPartitionId clientMessage (-1);
  clientMessage ← Request.append RaftGroupIdCodec_encode clientMessage groupId;
  clientMessage ← Request.append StringCodec.encode clientMessage name;
  Ok clientMessage.

Definition AtomicLongAddAndGetCodec_decodeResponse : Dec L :=
  let RESPONSE_RESPONSE_OFFSET := RESPONSE_BACKUP_ACKS_OFFSET + BYTE_SIZE_IN_BYTES in
  initialFrame ← nextFrame;
  response ← decode_at decodeLong initialFrame RESPONSE_RESPONSE_OFFSET;
  mret response.

(** ** AtomicLongAlterCodec *)

Definition AtomicLongAlterCodec_encodeRequest (groupId : RaftGroupId L) (name : string) (_function : HeapData) (returnValueType : Z) : res Request :=
  let REQUEST_MESSAGE_TYPE := 590336 in
  let REQUEST_RETURN_VALUE_TYPE_OFFSET := PARTITION_ID_OFFSET + INT_SIZE_IN_BYTES in
  let REQUEST_INITIAL_FRAME_SIZE := REQUEST_RETURN_VALUE_TYPE_OFFSET + INT_SIZE_IN_BYTES in
  let clientMessage := Request.createForEncode in
  let clientMessage := Request.setRetryable clientMessage false in
  let initialFrame := initial_frame REQUEST_INITIAL_FRAME_SIZE in
  initialFrame ← encode_at encodeInt initialFrame REQUEST_RETURN_VALUE_TYPE_OFFSET returnValueType;
  let clientMessage := Request.addFrame clientMessage initialFrame in
  clientMessage ← Request.setMessageType clientMessage REQUEST_MESSAGE_TYPE;
  clientMessage ← Request.setPartitionId clientMessage (-1);
  clientMessage ← Request.append RaftGroupIdCodec_encode clientMessage groupId;
  clientMessage ← Request.append StringCodec.encode clientMessage name;
  clientMessage ← Request.append DataCodec.encode clientMessage _function;
  Ok clientMessage.

Definition AtomicLongAlterCodec_decodeResponse : Dec L :=
  let RESPONSE_RESPONSE_OFFSET := RESPONSE_BACKUP_ACKS_OFFSET + BYTE_SIZE_IN_BYTES in
  initialFrame ← nextFrame;
  response ← decode_at decodeLong initialFrame RESPONSE_RESPONSE_OFFSET;
  mret response.

(** ** AtomicLongApplyCodec *)

Definition AtomicLongApplyCodec_encodeRequest (groupId : RaftGroupId L) (name : string) (_function : HeapData) : res Request :=
  let REQUEST_MESSAGE_TYPE := 590080 in
  let REQUEST_INITIAL_FRAME_SIZE := PARTITION_ID_OFFSET + INT_SIZE_IN_BYTES in
  let clientMessage := Request.createForEncode in
  let clientMessage := Request.setRetryable clientMessage false in
  let initialFrame := initial_frame REQUEST_INITIAL_FRAME_SIZE in
  let clientMessage := Request.addFrame clientMessage initialFrame in
  clientMessage ← Request.setMessageType clientMessage REQUEST_MESSAGE_TYPE;
  clientMessage ← Request.setPartitionId clientMessage (-1);
  clientMessage ← Request.append RaftGroupIdCodec_encode clientMessage groupId;
  clientMessage ← Request.append StringCodec.encode clientMessage name;
  clientMessage ← Request.append DataCodec.encode clientMessage _function;
  Ok clientMessage.

Definition AtomicLongApplyCodec_decodeResponse : Dec (option HeapData) :=
  _ ← skipFrame;
  response ← CodecUtil.decodeNullable DataCodec.decode;
  mret response.

(** ** AtomicLongCompareAndSetCodec *)

Definition AtomicLongCompareAndSetCodec_encodeRequest (groupId : RaftGroupId L) (name : string) (expected : long_arg L) (updated : long_arg L) : res Request :=
  let REQUEST_MESSAGE_TYPE := 590848 in
  let REQUEST_EXPECTED_OFFSET := PARTITION_ID_OFFSET + INT_SIZE_IN_BYTES in
  let REQUEST_UPDATED_OFFSET := REQUEST_EXPECTED_OFFSET + LONG_SIZE_IN_BYTES in
  let REQUEST_INITIAL_FRAME_SIZE := REQUEST_UPDATED_OFFSET + LONG_SIZE_IN_BYTES in
  let clientMessage := Request.createForEncode in
  let clientMessage := Request.setRetryable clientMessage false in
  let initialFrame := initial_frame REQUEST_INITIAL_FRAME_SIZE in
  initialFrame ← encode_at encodeLong initialFrame REQUEST_EXPECTED_OFFSET expected;
  initialFrame ← encode_at encodeLong initialFrame REQUEST_UPDATED_OFFSET updated;
  let clientMessage := Request.addFrame clientMessage initialFrame in
  clientMessage ← Request.setMessageType clientMessage REQUEST_MESSAGE_TYPE;
  clientMessage ← Request.setPartitionId clientMessage (-1);
  clientMessage ← Request.append RaftGroupIdCodec_encode clientMessage groupId;
  clientMessage ← Request.append StringCodec.encode clientMessage name;
  Ok clientMessage.

Definition AtomicLongCompareAndSetCodec_decodeResponse : Dec bool :=
  let RESPONSE_RESPONSE_OFFSET := RESPONSE_BACKUP_ACKS_OFFSET + BYTE_SIZE_IN_BYTES in
  initialFrame ← nextFrame;
  response ← decode_at decodeBoolean initialFrame RESPONSE_RESPONSE_OFFSET;
  mret response.

(** ** AtomicLongGetAndAddCodec *)

Definition AtomicLongGetAndAddCodec_encodeRequest (groupId : RaftGroupId L) (name : string) (delta : long_arg L) : res Request :=
  let REQUEST_MESSAGE_TYPE := 591360 in
  let REQUEST_DELTA_OFFSET := PARTITION_ID_OFFSET + INT_SIZE_IN_BYTES in
  let REQUEST_INITIAL_FRAME_SIZE := REQUEST_DELTA_OFFSET + LONG_SIZE_IN_BYTES in
  let clientMessage := Request.createForEncode in
  let clientMessage := Request.setRetryable clientMessage false in
  let initialFrame := initial_frame REQUEST_INITIAL_FRAME_SIZE in
  initialFrame ← encode_at encodeLong initialFrame REQUEST_DELTA_OFFSET delta;
  let clientMessage := Request.addFrame clientMessage initialFrame in
  clientMessage ← Request.setMessageType clientMessage REQUEST_MESSAGE_TYPE;
  clientMessage ← Request.setPartitionId clientMessage (-1);
  clientMessage ← Request.append RaftGroupIdCodec_encode clientMessage groupId;
  clientMessage ← Request.append StringCodec.encode clientMessage name;
  Ok clientMessage.

Definition AtomicLongGetAndAddCodec_decodeResponse : Dec L :=
  let RESPONSE_RESPONSE_OFFSET := RESPONSE_BACKUP_ACKS_OFFSET + BYTE_SIZE_IN_BYTES in
  initialFrame ← nextFrame;
  response ← decode_at decodeLong initialFrame RESPONSE_RESPONSE_OFFSET;
  mret response.

(** ** AtomicLongGetAndSetCodec *)

Definition AtomicLongGetAndSetCodec_encodeRequest (groupId : RaftGroupId L) (name : string) (newValue : long_arg L) : res Request :=
  let REQUEST_MESSAGE_TYPE := 591616 in
  let REQUEST_NEW_VALUE_OFFSET := PARTITION_ID_OFFSET + INT_SIZE_IN_BYTES in
  let REQUEST_INITIAL_FRAME_SIZE := REQUEST_NEW_VALUE_OFFSET + LONG_SIZE_IN_BYTES in
  let clientMessage := Request.createForEncode in
  let clientMessage := Request.setRetryable clientMessage false in
  let initialFrame := initial_frame REQUEST_INITIAL_FRAME_SIZE in
  initialFrame ← encode_at encodeLong initialFrame REQUEST_NEW_VALUE_OFFSET newValue;
  let clientMessage := Request.addFrame clientMessage initialFrame in
  clientMessage ← Request.setMessageType clientMessage REQUEST_MESSAGE_TYPE;
  clientMessage ← Request.setPartitionId clientMessage (-1);
  clientMessage ← Request.append RaftGroupIdCodec_encode clientMessage groupId;
  clientMessage ← Request.append StringCodec.encode clientMessage name;
  Ok clientMessage.

Definition AtomicLongGetAndSetCodec_decodeResponse : Dec L :=
  let RESPONSE_RESPONSE_OFFSET := RESPONSE_BACKUP_ACKS_OFFSET + BYTE_SIZE_IN_BYTES in
  initialFrame ← nextFrame;
  response ← decode_at decodeLong initialFrame RESPONSE_RESPONSE_OFFSET;
  mret response.

(** ** AtomicLongGetCodec *)

Definition AtomicLongGetCodec_encodeRequest (groupId : RaftGroupId L) (name : string) : res Request :=
  let REQUEST_MESSAGE_TYPE := 591104 in
  let REQUEST_INITIAL_FRAME_SIZE := PARTITION_ID_OFFSET + INT_SIZE_IN_BYTES in
  let clientMessage := Request.createForEncode in
  let clientMessage := Request.setRetryable clientMessage true in
  let initialFrame := initial_frame REQUEST_INITIAL_FRAME_SIZE in
  let clientMessage := Request.addFrame clientMessage initialFrame in
  clientMessage ← Request.setMessageType clientMessage REQUEST_MESSAGE_TYPE;
  clientMessage ← Request.setPartitionId clientMessage (-1);
  clientMessage ← Request.append RaftGroupIdCodec_encode clientMessage groupId;
  clientMessage ← Request.append StringCodec.encode clientMessage name;
  Ok clientMessage.

Definition AtomicLongGetCodec_decodeResponse : Dec L :=
  let RESPONSE_RESPONSE_OFFSET := RESPONSE_BACKUP_ACKS_OFFSET + BYTE_SIZE_IN_BYTES in
  initialFrame ← nextFrame;
  response ← decode_at decodeLong initialFrame RESPONSE_RESPONSE_OFFSET;
  mret response.

(** ** AtomicRefApplyCodec *)

Definition AtomicRefApplyCodec_encodeRequest (groupId : RaftGroupId L) (name : string) (_function : HeapData) (returnValueType : Z) (alter : bool) : res Request :=
  let REQUEST_MESSAGE_TYPE := 655616 in
  let REQUEST_RETURN_VALUE_TYPE_OFFSET := PARTITION_ID_OFFSET + INT_SIZE_IN_BYTES in
  let REQUEST_ALTER_OFFSET := REQUEST_RETURN_VALUE_TYPE_OFFSET + INT_SIZE_IN_BYTES in
  let REQUEST_INITIAL_FRAME_SIZE := REQUEST_ALTER_OFFSET + BOOLEAN_SIZE_IN_BYTES in
  let clientMessage := Request.createForEncode in
  let clientMessage := Request.setRetryable clientMessage false in
  let initialFrame := initial_frame REQUEST_INITIAL_FRAME_SIZE in
  initialFrame ← encode_at encodeInt initialFrame REQUEST_RETURN_VALUE_TYPE_OFFSET returnValueType;
  initialFrame ← encode_at encodeBoolean initialFrame REQUEST_ALTER_OFFSET alter;
  let clientMessage := Request.addFrame clientMessage initialFrame in
  clientMessage ← Request.setMessageType clientMessage REQUEST_MESSAGE_TYPE;
  clientMessage ← Request.setPartitionId clientMessage (-1);
  clientMessage ← Request.append RaftGroupIdCodec_encode clientMessage groupId;
  clientMessage ← Request.append StringCodec.encode clientMessage name;
  clientMessage ← Request.append DataCodec.encode clientMessage _function;
  Ok clientMessage.

Definition AtomicRefApplyCodec_decodeResponse : Dec (option HeapData) :=
  _ ← skipFrame;
  response ← CodecUtil.decodeNullable DataCodec.decode;
  mret response.

(** ** AtomicRefCompareAndSetCodec *)

Definition AtomicRefCompareAndSetCodec_encodeRequest (groupId : RaftGroupId L) (name : string) (oldValue : option HeapData) (newValue : option HeapData) : res Request :=
  let REQUEST_MESSAGE_TYPE := 655872 in
  let REQUEST_INITIAL_FRAME_SIZE := PARTITION_ID_OFFSET + INT_SIZE_IN_BYTES in
  let clientMessage := Request.createForEncode in
  let clientMessage := Request.setRetryable clientMessage false in
  let initialFrame := initial_frame REQUEST_INITIAL_FRAME_SIZE in
  let clientMessage := Request.addFrame clientMessage initialFrame in
  clientMessage ← Request.setMessageType clientMessage REQUEST_MESSAGE_TYPE;
  clientMessage ← Request.setPartitionId clientMessage (-1);
  clientMessage ← Request.append RaftGroupIdCodec_encode clientMessage groupId;
  clientMessage ← Request.append StringCodec.encode clientMessage name;
  clientMessage ← Request.append (CodecUtil.encodeNullable DataCodec.encode) clientMessage oldValue;
  clientMessage ← Request.append (CodecUtil.encodeNullable DataCodec.encode) clientMessage newValue;
  Ok clientMessage.

Definition AtomicRefCompareAndSetCodec_decodeResponse : Dec bool :=
  let RESPONSE_RESPONSE_OFFSET := RESPONSE_BACKUP_ACKS_OFFSET + BYTE_SIZE_IN_BYTES in
  initialFrame ← nextFrame;
  response ← decode_at decodeBoolean initialFrame RESPONSE_RESPONSE_OFFSET;
  mret response.

(** ** AtomicRefContainsCodec *)

Definition AtomicRefContainsCodec_encodeRequest (groupId : RaftGroupId L) (name : string) (value : option HeapData) : res Request :=
  let REQUEST_MESSAGE_TYPE := 656128 in
  let REQUEST_INITIAL_FRAME_SIZE := PARTITION_ID_OFFSET + INT_SIZE_IN_BYTES in
  let clientMessage := Request.createForEncode in
  let clientMessage := Request.setRetryable clientMessage true in
  let initialFrame := initial_frame REQUEST_INITIAL_FRAME_SIZE in
  let clientMessage := Request.addFrame clientMessage initialFrame in
  clientMessage ← Request.setMessageType clientMessage REQUEST_MESSAGE_TYPE;
  clientMessage ← Request.setPartitionId clientMessage (-1);
  clientMessage ← Request.append RaftGroupIdCodec_encode clientMessage groupId;
  clientMessage ← Request.append StringCodec.encode clientMessage name;
  clientMessage ← Request.append (CodecUtil.encodeNullable DataCodec.encode) clientMessage value;
  Ok clientMessage.

Definition AtomicRefContainsCodec_decodeResponse : Dec bool :=
  let RESPONSE_RESPONSE_OFFSET := RESPONSE_BACKUP_ACKS_OFFSET + BYTE_SIZE_IN_BYTES in
  initialFrame ← nextFrame;
  response ← decode_at decodeBoolean initialFrame RESPONSE_RESPONSE_OFFSET;
  mret response.

(** ** AtomicRefGetCodec *)

Definition AtomicRefGetCodec_encodeRequest (groupId : RaftGroupId L) (name : string) : res Request :=
  let REQUEST_MESSAGE_TYPE := 656384 in
  let REQUEST_INITIAL_FRAME_SIZE := PARTITION_ID_OFFSET + INT_SIZE_IN_BYTES in
  let clientMessage := Request.createForEncode in
  let clientMessage := Request.setRetryable clientMessage true in
  let initialFrame := initial_frame REQUEST_INITIAL_FRAME_SIZE in
  let clientMessage := Request.addFrame clientMessage initialFrame in
  clientMessage ← Request.setMessageType clientMessage REQUEST_MESSAGE_TYPE;
  clientMessage ← Request.setPartitionId clientMessage (-1);
  clientMessage ← Request.append RaftGroupIdCodec_encode clientMessage groupId;
  clientMessage ← Request.append StringCodec.encode clientMessage name;
  Ok clientMessage.

Definition AtomicRefGetCodec_decodeResponse : Dec (option HeapData) :=
  _ ← skipFrame;
  response ← CodecUtil.decodeNullable DataCodec.decode;
  mret response.

(** ** AtomicRefSetCodec *)

Definition AtomicRefSetCodec_encodeRequest (groupId : RaftGroupId L) (name : string) (newValue : option HeapData) (returnOldValue : bool) : res Request :=
  let REQUEST_MESSAGE_TYPE := 656640 in
  let REQUEST_RETURN_OLD_VALUE_OFFSET := PARTITION_ID_OFFSET + INT_SIZE_IN_BYTES in
  let REQUEST_INITIAL_FRAME_SIZE := REQUEST_RETURN_OLD_VALUE_OFFSET + BOOLEAN_SIZE_IN_BYTES in
  let clientMessage := Request.createForEncode in
  let clientMessage := Request.setRetryable clientMessage false in
  let initialFrame := initial_frame REQUEST_INITIAL_FRAME_SIZE in
  initialFrame ← encode_at encodeBoolean initialFrame REQUEST_RETURN_OLD_VALUE_OFFSET returnOldValue;
  let clientMessage := Request.addFrame clientMessage initialFrame in
  clientMessage ← Request.setMessageType clientMessage REQUEST_MESSAGE_TYPE;
  clientMessage ← Request.setPartitionId clientMessage (-1);
  clientMessage ← Request.append RaftGroupIdCodec_encode clientMessage groupId;
  clientMessage ← Request.append StringCodec.encode clientMessage name;
  clientMessage ← Request.append (CodecUtil.encodeNullable DataCodec.encode) clientMessage newValue;
  Ok clientMessage.

Definition AtomicRefSetCodec_decodeResponse : Dec (option HeapData) :=
  _ ← skipFrame;
  response ← CodecUtil.decodeNullable DataCodec.decode;
  mret response.

(** ** CPGroupCreateCPGroupCodec *)

Definition CPGroupCreateCPGroupCodec_encodeRequest (proxyName : string) : res Request :=
  let REQUEST_MESSAGE_TYPE := 1966336 in
  let REQUEST_INITIAL_FRAME_SIZE := PARTITION_ID_OFFSET + INT_SIZE_IN_BYTES in
  let clientMessage := Request.createForEncode in
  let clientMessage := Request.setRetryable clientMessage true in
  let initialFrame := initial_frame REQUEST_INITIAL_FRAME_SIZE in
  let clientMessage := Request.addFrame clientMessage initialFrame in
  clientMessage ← Request.setMessageType clientMessage REQUEST_MESSAGE_TYPE;
  clientMessage ← Request.setPartitionId clientMessage (-1);
  clientMessage ← Request.append StringCodec.encode clientMessage proxyName;
  Ok clientMessage.

Definition CPGroupCreateCPGroupCodec_decodeResponse : Dec (RaftGroupId L) :=
  _ ← skipFrame;
  response ← RaftGroupIdCodec_decode;
  mret response.

(** ** CPGroupDestroyCPObjectCodec *)

Definition CPGroupDestroyCPObjectCodec_encodeRequest (groupId : RaftGroupId L) (serviceName : string) (objectName : string) : res Request :=
  let REQUEST_MESSAGE_TYPE := 1966592 in
  let REQUEST_INITIAL_FRAME_SIZE := PARTITION_ID_OFFSET + INT_SIZE_IN_BYTES in
  let clientMessage := Request.createForEncode in
  let clientMessage := Request.setRetryable clientMessage true in
  let initialFrame := initial_frame REQUEST_INITIAL_FRAME_SIZE in
  let clientMessage := Request.addFrame clientMessage initialFrame in
  clientMessage ← Request.setMessageType clientMessage REQUEST_MESSAGE_TYPE;
  clientMessage ← Request.setPartitionId clientMessage (-1);
  clientMessage ← Request.append RaftGroupIdCodec_encode clientMessage groupId;
  clientMessage ← Request.append StringCodec.encode clientMessage serviceName;
  clientMessage ← Request.append StringCodec.encode clientMessage objectName;
  Ok clientMessage.

(** ** CPSessionCloseSessionCodec *)

Definition CPSessionCloseSessionCodec_encodeRequest (groupId : RaftGroupId L) (sessionId : long_arg L) : res Request :=
  let REQUEST_MESSAGE_TYPE := 2032128 in
  let REQUEST_SESSION_ID_OFFSET := PARTITION_ID_OFFSET + INT_SIZE_IN_BYTES in
  let REQUEST_INITIAL_FRAME_SIZE := REQUEST_SESSION_ID_OFFSET + LONG_SIZE_IN_BYTES in
  let clientMessage := Request.createForEncode in
  let clientMessage := Request.setRetryable clientMessage true in
  let initialFrame := initial_frame REQUEST_INITIAL_FRAME_SIZE in
  initialFrame ← encode_at encodeLong initialFrame REQUEST_SESSION_ID_OFFSET sessionId;
  let clientMessage := Request.addFrame clientMessage initialFrame in
  clientMessage ← Request.setMessageType clientMessage REQUEST_MESSAGE_TYPE;
  clientMessage ← Request.setPartitionId clientMessage (-1);
  clientMessage ← Request.append RaftGroupIdCodec_encode clientMessage groupId;
  Ok clientMessage.

Definition CPSessionCloseSessionCodec_decodeResponse : Dec bool :=
  let RESPONSE_RESPONSE_OFFSET := RESPONSE_BACKUP_ACKS_OFFSET + BYTE_SIZE_IN_BYTES in
  initialFrame ← nextFrame;
  response ← decode_at decodeBoolean initialFrame RESPONSE_RESPONSE_OFFSET;
  mret response.

(** ** CPSessionCreateSessionCodec *)

Definition CPSessionCreateSessionCodec_encodeRequest (groupId : RaftGroupId L) (endpointName : string) : res Request :=
  let REQUEST_MESSAGE_TYPE := 2031872 in
  let REQUEST_INITIAL_FRAME_SIZE := PARTITION_ID_OFFSET + INT_SIZE_IN_BYTES in
  let clientMessage := Request.createForEncode in
  let clientMessage := Request.setRetryable clientMessage true in
  let initialFrame := initial_frame REQUEST_INITIAL_FRAME_SIZE in
  let clientMessage := Request.addFrame clientMessage initialFrame in
  clientMessage ← Request.setMessageType clientMessage REQUEST_MESSAGE_TYPE;
  clientMessage ← Request.setPartitionId clientMessage (-1);
  clientMessage ← Request.append RaftGroupIdCodec_encode clientMessage groupId;
  clientMessage ← Request.append StringCodec.encode clientMessage endpointName;
  Ok clientMessage.

Definition CPSessionCreateSessionCodec_decodeResponse : Dec (CPSessionCreateSessionResponseParams L) :=
  let RESPONSE_SESSION_ID_OFFSET := RESPONSE_BACKUP_ACKS_OFFSET + BYTE_SIZE_IN_BYTES in
  let RESPONSE_TTL_MILLIS_OFFSET := RESPONSE_SESSION_ID_OFFSET + LONG_SIZE_IN_BYTES in
  let RESPONSE_HEARTBEAT_MILLIS_OFFSET := RESPONSE_TTL_MILLIS_OFFSET + LONG_SIZE_IN_BYTES in
  initialFrame ← nextFrame;
  sessionId ← decode_at decodeLong initialFrame RESPONSE_SESSION_ID_OFFSET;
  ttlMillis ← decode_at decodeLong initialFrame RESPONSE_TTL_MILLIS_OFFSET;
  heartbeatMillis ← decode_at decodeLong initialFrame RESPONSE_HEARTBEAT_MILLIS_OFFSET;
  mret (mkCPSessionCreateSessionResponseParams sessionId ttlMillis heartbeatMillis).

(** ** CPSessionGenerateThreadIdCodec *)

Definition CPSessionGenerateThreadIdCodec_encodeRequest (groupId : RaftGroupId L) : res Request :=
  let REQUEST_MESSAGE_TYPE := 2032640 in
  let REQUEST_INITIAL_FRAME_SIZE := PARTITION_ID_OFFSET + INT_SIZE_IN_BYTES in
  let clientMessage := Request.createForEncode in
  let clientMessage := Request.setRetryable clientMessage true in
  let initialFrame := initial_frame REQUEST_INITIAL_FRAME_SIZE in
  let clientMessage := Request.addFrame clientMessage initialFrame in
  clientMessage ← Request.setMessageType clientMessage REQUEST_MESSAGE_TYPE;
  clientMessage ← Request.setPartitionId clientMessage (-1);
  clientMessage ← Request.append RaftGroupIdCodec_encode clientMessage groupId;
  Ok clientMessage.

Definition CPSessionGenerateThreadIdCodec_decodeResponse : Dec L :=
  let RESPONSE_RESPONSE_OFFSET := RESPONSE_BACKUP_ACKS_OFFSET + BYTE_SIZE_IN_BYTES in
  initialFrame ← nextFrame;
  response ← decode_at decodeLong initialFrame RESPONSE_RESPONSE_OFFSET;
  mret response.

(** ** CPSessionHeartbeatSessionCodec *)

Definition CPSessionHeartbeatSessionCodec_encodeRequest (groupId : RaftGroupId L) (sessionId : long_arg L) : res Request :=
  let REQUEST_MESSAGE_TYPE := 2032384 in
  let REQUEST_SESSION_ID_OFFSET := PARTITION_ID_OFFSET + INT_SIZE_IN_BYTES in
  let REQUEST_INITIAL_FRAME_SIZE := REQUEST_SESSION_ID_OFFSET + LONG_SIZE_IN_BYTES in
  let clientMessage := Request.createForEncode in
  let clientMessage := Request.setRetryable clientMessage true in
  let initialFrame := initial_frame REQUEST_INITIAL_FRAME_SIZE in
  initialFrame ← encode_at encodeLong initialFrame REQUEST_SESSION_ID_OFFSET sessionId;
  let clientMessage := Request.addFrame clientMessage initialFrame in
  clientMessage ← Request.setMessageType clientMessage REQUEST_MESSAGE_TYPE;
  clientMessage ← Request.setPartitionId clientMessage (-1);
  clientMessage ← Request.append RaftGroupIdCodec_encode clientMessage groupId;
  Ok clientMessage.

(** ** ClientAddClusterViewListenerCodec *)

Definition ClientAddClusterViewListenerCodec_encodeRequest : res Request :=
  let REQUEST_MESSAGE_TYPE := 768 in
  let REQUEST_INITIAL_FRAME_SIZE := PARTITION_ID_OFFSET + INT_SIZE_IN_BYTES in
  let clientMessage := Request.createForEncode in
  let clientMessage := Request.setRetryable clientMessage false in
  let initialFrame := initial_frame REQUEST_INITIAL_FRAME_SIZE in
  let clientMessage := Request.addFrame clientMessage initialFrame in
  clientMessage ← Request.setMessageType clientMessage REQUEST_MESSAGE_TYPE;
  clientMessage ← Request.setPartitionId clientMessage (-1);
  Ok clientMessage.

Definition ClientAddClusterViewListenerCodec_handle {T} (handleMembersViewEvent : option (Z -> list (MemberInfo L) -> T)) (handlePartitionsViewEvent : option (Z -> list (option (UUID L) * option (list Z)) -> T)) : Dec (option T) :=
  let EVENT_MEMBERS_VIEW_MESSAGE_TYPE := 770 in
  let EVENT_PARTITIONS_VIEW_MESSAGE_TYPE := 771 in
  let EVENT_MEMBERS_VIEW_VERSION_OFFSET := PARTITION_ID_OFFSET + INT_SIZE_IN_BYTES in
  let EVENT_PARTITIONS_VIEW_VERSION_OFFSET := PARTITION_ID_OFFSET + INT_SIZE_IN_BYTES in
  messageType ← getMessageType;
  on_event messageType EVENT_MEMBERS_VIEW_MESSAGE_TYPE handleMembersViewEvent (fun handleMembersViewEvent =>
    initialFrame ← nextFrame;
    version ← decode_at decodeInt initialFrame EVENT_MEMBERS_VIEW_VERSION_OFFSET;
    memberInfos ← ListMultiFrameCodec.decode MemberInfoCodec_decode;
    mret (handleMembersViewEvent version memberInfos))
  (on_event messageType EVENT_PARTITIONS_VIEW_MESSAGE_TYPE handlePartitionsViewEvent (fun handlePartitionsViewEvent =>
    initialFrame ← nextFrame;
    version ← decode_at decodeInt initialFrame EVENT_PARTITIONS_VIEW_VERSION_OFFSET;
    partitions ← EntryListUUIDListIntegerCodec_decode;
    mret (handlePartitionsViewEvent version partitions))
  (mret None)).

(** ** ClientAddDistributedObjectListenerCodec *)

Definition ClientAddDistributedObjectListenerCodec_encodeRequest (localOnly : bool) : res Request :=
  let REQUEST_MESSAGE_TYPE := 2304 in
  let REQUEST_LOCAL_ONLY_OFFSET := PARTITION_ID_OFFSET + INT_SIZE_IN_BYTES in
  let REQUEST_INITIAL_FRAME_SIZE := REQUEST_LOCAL_ONLY_OFFSET + BOOLEAN_SIZE_IN_BYTES in
  let clientMessage := Request.createForEncode in
  let clientMessage := Request.setRetryable clientMessage false in
  let initialFrame := initial_frame REQUEST_INITIAL_FRAME_SIZE in
  initialFrame ← encode_at encodeBoolean initialFrame REQUEST_LOCAL_ONLY_OFFSET localOnly;
  let clientMessage := Request.addFrame clientMessage initialFrame in
  clientMessage ← Request.setMessageType clientMessage REQUEST_MESSAGE_TYPE;
  clientMessage ← Request.setPartitionId clientMessage (-1);
  Ok clientMessage.

Definition ClientAddDistributedObjectListenerCodec_decodeResponse : Dec (option (UUID L)) :=
  let RESPONSE_RESPONSE_OFFSET := RESPONSE_BACKUP_ACKS_OFFSET + BYTE_SIZE_IN_BYTES in
  initialFrame ← nextFrame;
  response ← decode_at decodeUUID initialFrame RESPONSE_RESPONSE_OFFSET;
  mret response.

Definition ClientAddDistributedObjectListenerCodec_handle {T} (handleDistributedObjectEvent : option (string -> string -> string -> option (UUID L) -> T)) : Dec (option T) :=
  let EVENT_DISTRIBUTED_OBJECT_MESSAGE_TYPE := 2306 in
  let EVENT_DISTRIBUTED_OBJECT_SOURCE_OFFSET := PARTITION_ID_OFFSET + INT_SIZE_IN_BYTES in
  messageType ← getMessageType;
  on_event messageType EVENT_DISTRIBUTED_OBJECT_MESSAGE_TYPE handleDistributedObjectEvent (fun handleDistributedObjectEvent =>
    initialFrame ← nextFrame;
    source ← decode_at decodeUUID initialFrame EVENT_DISTRIBUTED_OBJECT_SOURCE_OFFSET;
    name ← StringCodec.decode;
    serviceName ← StringCodec.decode;
    eventType ← StringCodec.decode;
    mret (handleDistributedObjectEvent name serviceName eventType source))
  (mret None).

(** ** ClientAddPartitionLostListenerCodec *)

Definition ClientAddPartitionLostListenerCodec_encodeRequest (localOnly : bool) : res Request :=
  let REQUEST_MESSAGE_TYPE := 1536 in
  let REQUEST_LOCAL_ONLY_OFFSET := PARTITION_ID_OFFSET + INT_SIZE_IN_BYTES in
  let REQUEST_INITIAL_FRAME_SIZE := REQUEST_LOCAL_ONLY_OFFSET + BOOLEAN_SIZE_IN_BYTES in
  let clientMessage := Request.createForEncode in
  let clientMessage := Request.setRetryable clientMessage false in
  let initialFrame := initial_frame REQUEST_INITIAL_FRAME_SIZE in
  initialFrame ← encode_at encodeBoolean initialFrame REQUEST_LOCAL_ONLY_OFFSET localOnly;
  let clientMessage := Request.addFrame clientMessage initialFrame in
  clientMessage ← Request.setMessageType clientMessage REQUEST_MESSAGE_TYPE;
  clientMessage ← Request.setPartitionId clientMessage (-1);
  Ok clientMessage.

Definition ClientAddPartitionLostListenerCodec_decodeResponse : Dec (option (UUID L)) :=
  let RESPONSE_RESPONSE_OFFSET := RESPONSE_BACKUP_ACKS_OFFSET + BYTE_SIZE_IN_BYTES in
  initialFrame ← nextFrame;
  response ← decode_at decodeUUID initialFrame RESPONSE_RESPONSE_OFFSET;
  mret response.

Definition ClientAddPartitionLostListenerCodec_handle {T} (handlePartitionLostEvent : option (Z -> Z -> option (UUID L) -> T)) : Dec (option T) :=
  let EVENT_PARTITION_LOST_MESSAGE_TYPE := 1538 in
  let EVENT_PARTITION_LOST_PARTITION_ID_OFFSET := PARTITION_ID_OFFSET + INT_SIZE_IN_BYTES in
  let EVENT_PARTITION_LOST_LOST_BACKUP_COUNT_OFFSET := EVENT_PARTITION_LOST_PARTITION_ID_OFFSET + INT_SIZE_IN_BYTES in
  let EVENT_PARTITION_LOST_SOURCE_OFFSET := EVENT_PARTITION_LOST_LOST_BACKUP_COUNT_OFFSET + INT_SIZE_IN_BYTES in
  messageType ← getMessageType;
  on_event messageType EVENT_PARTITION_LOST_MESSAGE_TYPE handlePartitionLostEvent (fun handlePartitionLostEvent =>
    initialFrame ← nextFrame;
    partitionId ← decode_at decodeInt initialFrame EVENT_PARTITION_LOST_PARTITION_ID_OFFSET;
    lostBackupCount ← decode_at decodeInt initialFrame EVENT_PARTITION_LOST_LOST_BACKUP_COUNT_OFFSET;
    source ← decode_at decodeUUID initialFrame EVENT_PARTITION_LOST_SOURCE_OFFSET;
    mret (handlePartitionLostEvent partitionId lostBackupCount source))
  (mret None).

(** ** ClientAuthenticationCodec *)

Definition ClientAuthenticationCodec_encodeRequest (clusterName : string) (username : option string) (password : option string) (uuid : option (UUID L)) (clientType : string) (serializationVersion : Z) (clientHazelcastVersion : string) (clientName : string) (labels : list string) : res Request :=
  let REQUEST_MESSAGE_TYPE := 256 in
  let REQUEST_UUID_OFFSET := PARTITION_ID_OFFSET + INT_SIZE_IN_BYTES in
  let REQUEST_SERIALIZATION_VERSION_OFFSET := REQUEST_UUID_OFFSET + UUID_SIZE_IN_BYTES in
  let REQUEST_INITIAL_FRAME_SIZE := REQUEST_SERIALIZATION_VERSION_OFFSET + BYTE_SIZE_IN_BYTES in
  let clientMessage := Request.createForEncode in
  let clientMessage := Request.setRetryable clientMessage true in
  let initialFrame := initial_frame REQUEST_INITIAL_FRAME_SIZE in
  initialFrame ← encode_at encodeUUID initialFrame REQUEST_UUID_OFFSET uuid;
  initialFrame ← encode_at encodeByte initialFrame REQUEST_SERIALIZATION_VERSION_OFFSET serializationVersion;
  let clientMessage := Request.addFrame clientMessage initialFrame in
  clientMessage ← Request.setMessageType clientMessage REQUEST_MESSAGE_TYPE;
  clientMessage ← Request.setPartitionId clientMessage (-1);
  clientMessage ← Request.append StringCodec.encode clientMessage clusterName;
  clientMessage ← Request.append (CodecUtil.encodeNullable StringCodec.encode) clientMessage username;
  clientMessage ← Request.append (CodecUtil.encodeNullable StringCodec.encode) clientMessage password;
  clientMessage ← Request.append StringCodec.encode clientMessage clientType;
  clientMessage ← Request.append StringCodec.encode clientMessage clientHazelcastVersion;
  clientMessage ← Request.append StringCodec.encode clientMessage clientName;
  clientMessage ← Request.append (ListMultiFrameCodec.encode StringCodec.encode) clientMessage labels;
  Ok clientMessage.

Definition ClientAuthenticationCodec_decodeResponse : Dec (ClientAuthenticationResponseParams L) :=
  let RESPONSE_STATUS_OFFSET := RESPONSE_BACKUP_ACKS_OFFSET + BYTE_SIZE_IN_BYTES in
  let RESPONSE_MEMBER_UUID_OFFSET := RESPONSE_STATUS_OFFSET + BYTE_SIZE_IN_BYTES in
  let RESPONSE_SERIALIZATION_VERSION_OFFSET := RESPONSE_MEMBER_UUID_OFFSET + UUID_SIZE_IN_BYTES in
  let RESPONSE_PARTITION_COUNT_OFFSET := RESPONSE_SERIALIZATION_VERSION_OFFSET + BYTE_SIZE_IN_BYTES in
  let RESPONSE_CLUSTER_ID_OFFSET := RESPONSE_PARTITION_COUNT_OFFSET + INT_SIZE_IN_BYTES in
  let RESPONSE_FAILOVER_SUPPORTED_OFFSET := RESPONSE_CLUSTER_ID_OFFSET + UUID_SIZE_IN_BYTES in
  initialFrame ← nextFrame;
  status ← decode_at decodeByte initialFrame RESPONSE_STATUS_OFFSET;
  memberUuid ← decode_at decodeUUID initialFrame RESPONSE_MEMBER_UUID_OFFSET;
  serializationVersion ← decode_at decodeByte initialFrame RESPONSE_SERIALIZATION_VERSION_OFFSET;
  partitionCount ← decode_at decodeInt initialFrame RESPONSE_PARTITION_COUNT_OFFSET;
  clusterId ← decode_at decodeUUID initialFrame RESPONSE_CLUSTER_ID_OFFSET;
  failoverSupported ← decode_at decodeBoolean initialFrame RESPONSE_FAILOVER_SUPPORTED_OFFSET;
  address ← CodecUtil.decodeNullable AddressCodec_decode;
  serverHazelcastVersion ← StringCodec.decode;
  mret (mkClientAuthenticationResponseParams status address memberUuid serializationVersion serverHazelcastVersion partitionCount clusterId failoverSupported).

(** ** ClientAuthenticationCustomCodec *)

Definition ClientAuthenticationCustomCodec_encodeRequest (clusterName : string) (credentials : buffer) (uuid : option (UUID L)) (clientType : string) (serializationVersion : Z) (clientHazelcastVersion : string) (clientName : string) (labels : list string) : res Request :=
  let REQUEST_MESSAGE_TYPE := 512 in
  let REQUEST_UUID_OFFSET := PARTITION_ID_OFFSET + INT_SIZE_IN_BYTES in
  let REQUEST_SERIALIZATION_VERSION_OFFSET := REQUEST_UUID_OFFSET + UUID_SIZE_IN_BYTES in
  let REQUEST_INITIAL_FRAME_SIZE := REQUEST_SERIALIZATION_VERSION_OFFSET + BYTE_SIZE_IN_BYTES in
  let clientMessage := Request.createForEncode in
  let clientMessage := Request.setRetryable clientMessage true in
  let initialFrame := initial_frame REQUEST_INITIAL_FRAME_SIZE in
  initialFrame ← encode_at encodeUUID initialFrame REQUEST_UUID_OFFSET uuid;
  initialFrame ← encode_at encodeByte initialFrame REQUEST_SERIALIZATION_VERSION_OFFSET serializationVersion;
  let clientMessage := Request.addFrame clientMessage initialFrame in
  clientMessage ← Request.setMessageType clientMessage REQUEST_MESSAGE_TYPE;
  clientMessage ← Request.setPartitionId clientMessage (-1);
  clientMessage ← Request.append StringCodec.encode clientMessage clusterName;
  clientMessage ← Request.append ByteArrayCodec.encode clientMessage credentials;
  clientMessage ← Request.append StringCodec.encode clientMessage clientType;
  clientMessage ← Request.append StringCodec.encode clientMessage clientHazelcastVersion;
  clientMessage ← Request.append StringCodec.encode clientMessage clientName;
  clientMessage ← Request.append (ListMultiFrameCodec.encode StringCodec.encode) clientMessage labels;
  Ok clientMessage.

Definition ClientAuthenticationCustomCodec_decodeResponse : Dec (ClientAuthenticationCustomResponseParams L) :=
  let RESPONSE_STATUS_OFFSET := RESPONSE_BACKUP_ACKS_OFFSET + BYTE_SIZE_IN_BYTES in
  let RESPONSE_MEMBER_UUID_OFFSET := RESPONSE_STATUS_OFFSET + BYTE_SIZE_IN_BYTES in
  let RESPONSE_SERIALIZATION_VERSION_OFFSET := RESPONSE_MEMBER_UUID_OFFSET + UUID_SIZE_IN_BYTES in
  let RESPONSE_PARTITION_COUNT_OFFSET := RESPONSE_SERIALIZATION_VERSION_OFFSET + BYTE_SIZE_IN_BYTES in
  let RESPONSE_CLUSTER_ID_OFFSET := RESPONSE_PARTITION_COUNT_OFFSET + INT_SIZE_IN_BYTES in
  let RESPONSE_FAILOVER_SUPPORTED_OFFSET := RESPONSE_CLUSTER_ID_OFFSET + UUID_SIZE_IN_BYTES in
  initialFrame ← nextFrame;
  status ← decode_at decodeByte initialFrame RESPONSE_STATUS_OFFSET;
  memberUuid ← decode_at decodeUUID initialFrame RESPONSE_MEMBER_UUID_OFFSET;
  serializationVersion ← decode_at decodeByte initialFrame RESPONSE_SERIALIZATION_VERSION_OFFSET;
  partitionCount ← decode_at decodeInt initialFrame RESPONSE_PARTITION_COUNT_OFFSET;
  clusterId ← decode_at decodeUUID initialFrame RESPONSE_CLUSTER_ID_OFFSET;
  failoverSupported ← decode_at decodeBoolean initialFrame RESPONSE_FAILOVER_SUPPORTED_OFFSET;
  address ← CodecUtil.decodeNullable AddressCodec_decode;
  serverHazelcastVersion ← StringCodec.decode;
  mret (mkClientAuthenticationCustomResponseParams status address memberUuid serializationVersion serverHazelcastVersion partitionCount clusterId failoverSupported).

(** ** ClientCreateProxiesCodec *)

Definition ClientCreateProxiesCodec_encodeRequest (proxies : list (string * string)) : res Request :=
  let REQUEST_MESSAGE_TYPE := 3584 in
  let REQUEST_INITIAL_FRAME_SIZE := PARTITION_ID_OFFSET + INT_SIZE_IN_BYTES in
  let clientMessage := Request.createForEncode in
  let clientMessage := Request.setRetryable clientMessage false in
  let initialFrame := initial_frame REQUEST_INITIAL_FRAME_SIZE in
  let clientMessage := Request.addFrame clientMessage initialFrame in
  clientMessage ← Request.setMessageType clientMessage REQUEST_MESSAGE_TYPE;
  clientMessage ← Request.setPartitionId clientMessage (-1);
  clientMessage ← Request.append (EntryListCodec.encode StringCodec.encode StringCodec.encode) clientMessage proxies;
  Ok clientMessage.

(** ** ClientCreateProxyCodec *)

Definition ClientCreateProxyCodec_encodeRequest (name : string) (serviceName : string) : res Request :=
  let REQUEST_MESSAGE_TYPE := 1024 in
  let REQUEST_INITIAL_FRAME_SIZE := PARTITION_ID_OFFSET + INT_SIZE_IN_BYTES in
  let clientMessage := Request.createForEncode in
  let clientMessage := Request.setRetryable clientMessage false in
  let initialFrame := initial_frame REQUEST_INITIAL_FRAME_SIZE in
  let clientMessage := Request.addFrame clientMessage initialFrame in
  clientMessage ← Request.setMessageType clientMessage REQUEST_MESSAGE_TYPE;
  clientMessage ← Request.setPartitionId clientMessage (-1);
  clientMessage ← Request.append StringCodec.encode clientMessage name;
  clientMessage ← Request.append StringCodec.encode clientMessage serviceName;
  Ok clientMessage.

(** ** ClientDeployClassesCodec *)

Definition ClientDeployClassesCodec_encodeRequest (classDefinitions : list (string * buffer)) : res Request :=
  let REQUEST_MESSAGE_TYPE := 3328 in
  let REQUEST_INITIAL_FRAME_SIZE := PARTITION_ID_OFFSET + INT_SIZE_IN_BYTES in
  let clientMessage := Request.createForEncode in
  let clientMessage := Request.setRetryable clientMessage false in
  let initialFrame := initial_frame REQUEST_INITIAL_FRAME_SIZE in
  let clientMessage := Request.addFrame clientMessage initialFrame in
  clientMessage ← Request.setMessageType clientMessage REQUEST_MESSAGE_TYPE;
  clientMessage ← Request.setPartitionId clientMessage (-1);
  clientMessage ← Request.append (EntryListCodec.encode StringCodec.encode ByteArrayCodec.encode) clientMessage classDefinitions;
  Ok clientMessage.

(** ** ClientDestroyProxyCodec *)

Definition ClientDestroyProxyCodec_encodeRequest (name : string) (serviceName : string) : res Request :=
  let REQUEST_MESSAGE_TYPE := 1280 in
  let REQUEST_INITIAL_FRAME_SIZE := PARTITION_ID_OFFSET + INT_SIZE_IN_BYTES in
  let clientMessage := Request.createForEncode in
  let clientMessage := Request.setRetryable clientMessage false in
  let initialFrame := initial_frame REQUEST_INITIAL_FRAME_SIZE in
  let clientMessage := Request.addFrame clientMessage initialFrame in
  clientMessage ← Request.setMessageType clientMessage REQUEST_MESSAGE_TYPE;
  clientMessage ← Request.setPartitionId clientMessage (-1);
  clientMessage ← Request.append StringCodec.encode clientMessage name;
  clientMessage ← Request.append StringCodec.encode clientMessage serviceName;
  Ok clientMessage.

(** ** ClientGetDistributedObjectsCodec *)

Definition ClientGetDistributedObjectsCodec_encodeRequest : res Request :=
  let REQUEST_MESSAGE_TYPE := 2048 in
  let REQUEST_INITIAL_FRAME_SIZE := PARTITION_ID_OFFSET + INT_SIZE_IN_BYTES in
  let clientMessage := Request.createForEncode in
  let clientMessage := Request.setRetryable clientMessage false in
  let initialFrame := initial_frame REQUEST_INITIAL_FRAME_SIZE in
  let clientMessage := Request.addFrame clientMessage initialFrame in
  clientMessage ← Request.setMessageType clientMessage REQUEST_MESSAGE_TYPE;
  clientMessage ← Request.setPartitionId clientMessage (-1);
  Ok clientMessage.

Definition ClientGetDistributedObjectsCodec_decodeResponse : Dec (list DistributedObjectInfo) :=
  _ ← skipFrame;
  response ← ListMultiFrameCodec.decode DistributedObjectInfoCodec_decode;
  mret response.

(** ** ClientLocalBackupListenerCodec *)

Definition ClientLocalBackupListenerCodec_encodeRequest : res Request :=
  let REQUEST_MESSAGE_TYPE := 3840 in
  let REQUEST_INITIAL_FRAME_SIZE := PARTITION_ID_OFFSET + INT_SIZE_IN_BYTES in
  let clientMessage := Request.createForEncode in
  let clientMessage := Request.setRetryable clientMessage false in
  let initialFrame := initial_frame REQUEST_INITIAL_FRAME_SIZE in
  let clientMessage := Request.addFrame clientMessage initialFrame in
  clientMessage ← Request.setMessageType clientMessage REQUEST_MESSAGE_TYPE;
  clientMessage ← Request.setPartitionId clientMessage (-1);
  Ok clientMessage.

Definition ClientLocalBackupListenerCodec_decodeResponse : Dec (option (UUID L)) :=
  let RESPONSE_RESPONSE_OFFSET := RESPONSE_BACKUP_ACKS_OFFSET + BYTE_SIZE_IN_BYTES in
  initialFrame ← nextFrame;
  response ← decode_at decodeUUID initialFrame RESPONSE_RESPONSE_OFFSET;
  mret response.

Definition ClientLocalBackupListenerCodec_handle {T} (handleBackupEvent : option (L -> T)) : Dec (option T) :=
  let EVENT_BACKUP_MESSAGE_TYPE := 3842 in
  let EVENT_BACKUP_SOURCE_INVOCATION_CORRELATION_ID_OFFSET := PARTITION_ID_OFFSET + INT_SIZE_IN_BYTES in
  messageType ← getMessageType;
  on_event messageType EVENT_BACKUP_MESSAGE_TYPE handleBackupEvent (fun handleBackupEvent =>
    initialFrame ← nextFrame;
    sourceInvocationCorrelationId ← decode_at decodeLong initialFrame EVENT_BACKUP_SOURCE_INVOCATION_CORRELATION_ID_OFFSET;
    mret (handleBackupEvent sourceInvocationCorrelationId))
  (mret None).

(** ** ClientPingCodec *)

Definition ClientPingCodec_encodeRequest : res Request :=
  let REQUEST_MESSAGE_TYPE := 2816 in
  let REQUEST_INITIAL_FRAME_SIZE := PARTITION_ID_OFFSET + INT_SIZE_IN_BYTES in
  let clientMessage := Request.createForEncode in
  let clientMessage := Request.setRetryable clientMessage true in
  let initialFrame := initial_frame REQUEST_INITIAL_FRAME_SIZE in
  let clientMessage := Request.addFrame clientMessage initialFrame in
  clientMessage ← Request.setMessageType clientMessage REQUEST_MESSAGE_TYPE;
  clientMessage ← Request.setPartitionId clientMessage (-1);
  Ok clientMessage.

(** ** ClientRemoveDistributedObjectListenerCodec *)

Definition ClientRemoveDistributedObjectListenerCodec_encodeRequest (registrationId : option (UUID L)) : res Request :=
  let REQUEST_MESSAGE_TYPE := 2560 in
  let REQUEST_REGISTRATION_ID_OFFSET := PARTITION_ID_OFFSET + INT_SIZE_IN_BYTES in
  let REQUEST_INITIAL_FRAME_SIZE := REQUEST_REGISTRATION_ID_OFFSET + UUID_SIZE_IN_BYTES in
  let clientMessage := Request.createForEncode in
  let clientMessage := Request.setRetryable clientMessage true in
  let initialFrame := initial_frame REQUEST_INITIAL_FRAME_SIZE in
  initialFrame ← encode_at encodeUUID initialFrame REQUEST_REGISTRATION_ID_OFFSET registrationId;
  let clientMessage := Request.addFrame clientMessage initialFrame in
  clientMessage ← Request.setMessageType clientMessage REQUEST_MESSAGE_TYPE;
  clientMessage ← Request.setPartitionId clientMessage (-1);
  Ok clientMessage.

Definition ClientRemoveDistributedObjectListenerCodec_decodeResponse : Dec bool :=
  let RESPONSE_RESPONSE_OFFSET := RESPONSE_BACKUP_ACKS_OFFSET + BYTE_SIZE_IN_BYTES in
  initialFrame ← nextFrame;
  response ← decode_at decodeBoolean initialFrame RESPONSE_RESPONSE_OFFSET;
  mret response.

(** ** ClientRemoveMigrationListenerCodec *)

Definition ClientRemoveMigrationListenerCodec_encodeRequest (registrationId : option (UUID L)) : res Request :=
  let REQUEST_MESSAGE_TYPE := 4608 in
  let REQUEST_REGISTRATION_ID_OFFSET := PARTITION_ID_OFFSET + INT_SIZE_IN_BYTES in
  let REQUEST_INITIAL_FRAME_SIZE := REQUEST_REGISTRATION_ID_OFFSET + UUID_SIZE_IN_BYTES in
  let clientMessage := Request.createForEncode in
  let clientMessage := Request.setRetryable clientMessage true in
  let initialFrame := initial_frame REQUEST_INITIAL_FRAME_SIZE in
  initialFrame ← encode_at encodeUUID initialFrame REQUEST_REGISTRATION_ID_OFFSET registrationId;
  let clientMessage := Request.addFrame clientMessage initialFrame in
  clientMessage ← Request.setMessageType clientMessage REQUEST_MESSAGE_TYPE;
  clientMessage ← Request.setPartitionId clientMessage (-1);
  Ok clientMessage.

Definition ClientRemoveMigrationListenerCodec_decodeResponse : Dec bool :=
  let RESPONSE_RESPONSE_OFFSET := RESPONSE_BACKUP_ACKS_OFFSET + BYTE_SIZE_IN_BYTES in
  initialFrame ← nextFrame;
  response ← decode_at decodeBoolean initialFrame RESPONSE_RESPONSE_OFFSET;
  mret response.

(** ** ClientRemovePartitionLostListenerCodec *)

Definition ClientRemovePartitionLostListenerCodec_encodeRequest (registrationId : option (UUID L)) : res Request :=
  let REQUEST_MESSAGE_TYPE := 1792 in
  let REQUEST_REGISTRATION_ID_OFFSET := PARTITION_ID_OFFSET + INT_SIZE_IN_BYTES in
  let REQUEST_INITIAL_FRAME_SIZE := REQUEST_REGISTRATION_ID_OFFSET + UUID_SIZE_IN_BYTES in
  let clientMessage := Request.createForEncode in
  let clientMessage := Request.setRetryable clientMessage true in
  let initialFrame := initial_frame REQUEST_INITIAL_FRAME_SIZE in
  initialFrame ← encode_at encodeUUID initialFrame REQUEST_REGISTRATION_ID_OFFSET registrationId;
  let clientMessage := Request.addFrame clientMessage initialFrame in
  clientMessage ← Request.setMessageType clientMessage REQUEST_MESSAGE_TYPE;
  clientMessage ← Request.setPartitionId clientMessage (-1);
  Ok clientMessage.

Definition ClientRemovePartitionLostListenerCodec_decodeResponse : Dec bool :=
  let RESPONSE_RESPONSE_OFFSET := RESPONSE_BACKUP_ACKS_OFFSET + BYTE_SIZE_IN_BYTES in
  initialFrame ← nextFrame;
  response ← decode_at decodeBoolean initialFrame RESPONSE_RESPONSE_OFFSET;
  mret response.

(** ** ClientStatisticsCodec *)

Definition ClientStatisticsCodec_encodeRequest (timestamp : long_arg L) (clientAttributes : string) (metricsBlob : buffer) : res Request :=
  let REQUEST_MESSAGE_TYPE := 3072 in
  let REQUEST_TIMESTAMP_OFFSET := PARTITION_ID_OFFSET + INT_SIZE_IN_BYTES in
  let REQUEST_INITIAL_FRAME_SIZE := REQUEST_TIMESTAMP_OFFSET + LONG_SIZE_IN_BYTES in
  let clientMessage := Request.createForEncode in
  let clientMessage := Request.setRetryable clientMessage false in
  let initialFrame := initial_frame REQUEST_INITIAL_FRAME_SIZE in
  initialFrame ← encode_at encodeLong initialFrame REQUEST_TIMESTAMP_OFFSET timestamp;
  let clientMessage := Request.addFrame clientMessage initialFrame in
  clientMessage ← Request.setMessageType clientMessage REQUEST_MESSAGE_TYPE;
  clientMessage ← Request.setPartitionId clientMessage (-1);
  clientMessage ← Request.append StringCodec.encode clientMessage clientAttributes;
  clientMessage ← Request.append ByteArrayCodec.encode clientMessage metricsBlob;
  Ok clientMessage.

(** ** ClientTriggerPartitionAssignmentCodec *)

Definition ClientTriggerPartitionAssignmentCodec_encodeRequest : res Request :=
  let REQUEST_MESSAGE_TYPE := 4096 in
  let REQUEST_INITIAL_FRAME_SIZE := PARTITION_ID_OFFSET + INT_SIZE_IN_BYTES in
  let clientMessage := Request.createForEncode in
  let clientMessage := Request.setRetryable clientMessage true in
  let initialFrame := initial_frame REQUEST_INITIAL_FRAME_SIZE in
  let clientMessage := Request.addFrame clientMessage initialFrame in
  clientMessage ← Request.setMessageType clientMessage REQUEST_MESSAGE_TYPE;
  clientMessage ← Request.setPartitionId clientMessage (-1);
  Ok clientMessage.

(** ** CountDownLatchAwaitCodec *)

Definition CountDownLatchAwaitCodec_encodeRequest (groupId : RaftGroupId L) (name : string) (invocationUid : option (UUID L)) (timeoutMs : long_arg L) : res Request :=
  let REQUEST_MESSAGE_TYPE := 721408 in
  let REQUEST_INVOCATION_UID_OFFSET := PARTITION_ID_OFFSET + INT_SIZE_IN_BYTES in
  let REQUEST_TIMEOUT_MS_OFFSET := REQUEST_INVOCATION_UID_OFFSET + UUID_SIZE_IN_BYTES in
  let REQUEST_INITIAL_FRAME_SIZE := REQUEST_TIMEOUT_MS_OFFSET + LONG_SIZE_IN_BYTES in
  let clientMessage := Request.createForEncode in
  let clientMessage := Request.setRetryable clientMessage true in
  let initialFrame := initial_frame REQUEST_INITIAL_FRAME_SIZE in
  initialFrame ← encode_at encodeUUID initialFrame REQUEST_INVOCATION_UID_OFFSET invocationUid;
  initialFrame ← encode_at encodeLong initialFrame REQUEST_TIMEOUT_MS_OFFSET timeoutMs;
  let clientMessage := Request.addFrame clientMessage initialFrame in
  clientMessage ← Request.setMessageType clientMessage REQUEST_MESSAGE_TYPE;
  clientMessage ← Request.setPartitionId clientMessage (-1);
  clientMessage ← Request.append RaftGroupIdCodec_encode clientMessage groupId;
  clientMessage ← Request.append StringCodec.encode clientMessage name;
  Ok clientMessage.

Definition CountDownLatchAwaitCodec_decodeResponse : Dec bool :=
  let RESPONSE_RESPONSE_OFFSET := RESPONSE_BACKUP_ACKS_OFFSET + BYTE_SIZE_IN_BYTES in
  initialFrame ← nextFrame;
  response ← decode_at decodeBoolean initialFrame RESPONSE_RESPONSE_OFFSET;
  mret response.

(** ** CountDownLatchCountDownCodec *)

Definition CountDownLatchCountDownCodec_encodeRequest (groupId : RaftGroupId L) (name : string) (invocationUid : option (UUID L)) (expectedRound : Z) : res Request :=
  let REQUEST_MESSAGE_TYPE := 721664 in
  let REQUEST_INVOCATION_UID_OFFSET := PARTITION_ID_OFFSET + INT_SIZE_IN_BYTES in
  let REQUEST_EXPECTED_ROUND_OFFSET := REQUEST_INVOCATION_UID_OFFSET + UUID_SIZE_IN_BYTES in
  let REQUEST_INITIAL_FRAME_SIZE := REQUEST_EXPECTED_ROUND_OFFSET + INT_SIZE_IN_BYTES in
  let clientMessage := Request.createForEncode in
  let clientMessage := Request.setRetryable clientMessage true in
  let initialFrame := initial_frame REQUEST_INITIAL_FRAME_SIZE in
  initialFrame ← encode_at encodeUUID initialFrame REQUEST_INVOCATION_UID_OFFSET invocationUid;
  initialFrame ← encode_at encodeInt initialFrame REQUEST_EXPECTED_ROUND_OFFSET expectedRound;
  let clientMessage := Request.addFrame clientMessage initialFrame in
  clientMessage ← Request.setMessageType clientMessage REQUEST_MESSAGE_TYPE;
  clientMessage ← Request.setPartitionId clientMessage (-1);
  clientMessage ← Request.append RaftGroupIdCodec_encode clientMessage groupId;
  clientMessage ← Request.append StringCodec.encode clientMessage name;
  Ok clientMessage.

(** ** CountDownLatchGetCountCodec *)

Definition CountDownLatchGetCountCodec_encodeRequest (groupId : RaftGroupId L) (name : string) : res Request :=
  let REQUEST_MESSAGE_TYPE := 721920 in
  let REQUEST_INITIAL_FRAME_SIZE := PARTITION_ID_OFFSET + INT_SIZE_IN_BYTES in
  let clientMessage := Request.createForEncode in
  let clientMessage := Request.setRetryable clientMessage true in
  let initialFrame := initial_frame REQUEST_INITIAL_FRAME_SIZE in
  let clientMessage := Request.addFrame clientMessage initialFrame in
  clientMessage ← Request.setMessageType clientMessage REQUEST_MESSAGE_TYPE;
  clientMessage ← Request.setPartitionId clientMessage (-1);
  clientMessage ← Request.append RaftGroupIdCodec_encode clientMessage groupId;
  clientMessage ← Request.append StringCodec.encode clientMessage name;
  Ok clientMessage.

Definition CountDownLatchGetCountCodec_decodeResponse : Dec Z :=
  let RESPONSE_RESPONSE_OFFSET := RESPONSE_BACKUP_ACKS_OFFSET + BYTE_SIZE_IN_BYTES in
  initialFrame ← nextFrame;
  response ← decode_at decodeInt initialFrame RESPONSE_RESPONSE_OFFSET;
  mret response.

(** ** CountDownLatchGetRoundCodec *)

Definition CountDownLatchGetRoundCodec_encodeRequest (groupId : RaftGroupId L) (name : string) : res Request :=
  let REQUEST_MESSAGE_TYPE := 722176 in
  let REQUEST_INITIAL_FRAME_SIZE := PARTITION_ID_OFFSET + INT_SIZE_IN_BYTES in
  let clientMessage := Request.createForEncode in
  let clientMessage := Request.setRetryable clientMessage true in
  let initialFrame := initial_frame REQUEST_INITIAL_FRAME_SIZE in
  let clientMessage := Request.addFrame clientMessage initialFrame in
  clientMessage ← Request.setMessageType clientMessage REQUEST_MESSAGE_TYPE;
  clientMessage ← Request.setPartitionId clientMessage (-1);
  clientMessage ← Request.append RaftGroupIdCodec_encode clientMessage groupId;
  clientMessage ← Request.append StringCodec.encode clientMessage name;
  Ok clientMessage.

Definition CountDownLatchGetRoundCodec_decodeResponse : Dec Z :=
  let RESPONSE_RESPONSE_OFFSET := RESPONSE_BACKUP_ACKS_OFFSET + BYTE_SIZE_IN_BYTES in
  initialFrame ← nextFrame;
  response ← decode_at decodeInt initialFrame RESPONSE_RESPONSE_OFFSET;
  mret response.

(** ** CountDownLatchTrySetCountCodec *)

Definition CountDownLatchTrySetCountCodec_encodeRequest (groupId : RaftGroupId L) (name : string) (count : Z) : res Request :=
  let REQUEST_MESSAGE_TYPE := 721152 in
  let REQUEST_COUNT_OFFSET := PARTITION_ID_OFFSET + INT_SIZE_IN_BYTES in
  let REQUEST_INITIAL_FRAME_SIZE := REQUEST_COUNT_OFFSET + INT_SIZE_IN_BYTES in
  let clientMessage := Request.createForEncode in
  let clientMessage := Request.setRetryable clientMessage true in
  let initialFrame := initial_frame REQUEST_INITIAL_FRAME_SIZE in
  initialFrame ← encode_at encodeInt initialFrame REQUEST_COUNT_OFFSET count;
  let clientMessage := Request.addFrame clientMessage initialFrame in
  clientMessage ← Request.setMessageType clientMessage REQUEST_MESSAGE_TYPE;
  clientMessage ← Request.setPartitionId clientMessage (-1);
  clientMessage ← Request.append RaftGroupIdCodec_encode clientMessage groupId;
  clientMessage ← Request.append StringCodec.encode clientMessage name;
  Ok clientMessage.

Definition CountDownLatchTrySetCountCodec_decodeResponse : Dec bool :=
  let RESPONSE_RESPONSE_OFFSET := RESPONSE_BACKUP_ACKS_OFFSET + BYTE_SIZE_IN_BYTES in
  initialFrame ← nextFrame;
  response ← decode_at decodeBoolean initialFrame RESPONSE_RESPONSE_OFFSET;
  mret response.

(** ** FencedLockGetLockOwnershipCodec *)

Definition FencedLockGetLockOwnershipCodec_encodeRequest (groupId : RaftGroupId L) (name : string) : res Request :=
  let REQUEST_MESSAGE_TYPE := 459776 in
  let REQUEST_INITIAL_FRAME_SIZE := PARTITION_ID_OFFSET + INT_SIZE_IN_BYTES in
  let clientMessage := Request.createForEncode in
  let clientMessage := Request.setRetryable clientMessage true in
  let initialFrame := initial_frame REQUEST_INITIAL_FRAME_SIZE in
  let clientMessage := Request.addFrame clientMessage initialFrame in
  clientMessage ← Request.setMessageType clientMessage REQUEST_MESSAGE_TYPE;
  clientMessage ← Request.setPartitionId clientMessage (-1);
  clientMessage ← Request.append RaftGroupIdCodec_encode clientMessage groupId;
  clientMessage ← Request.append StringCodec.encode clientMessage name;
  Ok clientMessage.

Definition FencedLockGetLockOwnershipCodec_decodeResponse : Dec (FencedLockGetLockOwnershipResponseParams L) :=
  let RESPONSE_FENCE_OFFSET := RESPONSE_BACKUP_ACKS_OFFSET + BYTE_SIZE_IN_BYTES in
  let RESPONSE_LOCK_COUNT_OFFSET := RESPONSE_FENCE_OFFSET + LONG_SIZE_IN_BYTES in
  let RESPONSE_SESSION_ID_OFFSET := RESPONSE_LOCK_COUNT_OFFSET + INT_SIZE_IN_BYTES in
  let RESPONSE_THREAD_ID_OFFSET := RESPONSE_SESSION_ID_OFFSET + LONG_SIZE_IN_BYTES in
  initialFrame ← nextFrame;
  fence ← decode_at decodeLong initialFrame RESPONSE_FENCE_OFFSET;
  lockCount ← decode_at decodeInt initialFrame RESPONSE_LOCK_COUNT_OFFSET;
  sessionId ← decode_at decodeLong initialFrame RESPONSE_SESSION_ID_OFFSET;
  threadId ← decode_at decodeLong initialFrame RESPONSE_THREAD_ID_OFFSET;
  mret (mkFencedLockGetLockOwnershipResponseParams fence lockCount sessionId threadId).

(** ** FencedLockLockCodec *)

Definition FencedLockLockCodec_encodeRequest (groupId : RaftGroupId L) (name : string) (sessionId : long_arg L) (threadId : long_arg L) (invocationUid : option (UUID L)) : res Request :=
  let REQUEST_MESSAGE_TYPE := 459008 in
  let REQUEST_SESSION_ID_OFFSET := PARTITION_ID_OFFSET + INT_SIZE_IN_BYTES in
  let REQUEST_THREAD_ID_OFFSET := REQUEST_SESSION_ID_OFFSET + LONG_SIZE_IN_BYTES in
  let REQUEST_INVOCATION_UID_OFFSET := REQUEST_THREAD_ID_OFFSET + LONG_SIZE_IN_BYTES in
  let REQUEST_INITIAL_FRAME_SIZE := REQUEST_INVOCATION_UID_OFFSET + UUID_SIZE_IN_BYTES in
  let clientMessage := Request.createForEncode in
  let clientMessage := Request.setRetryable clientMessage true in
  let initialFrame := initial_frame REQUEST_INITIAL_FRAME_SIZE in
  initialFrame ← encode_at encodeLong initialFrame REQUEST_SESSION_ID_OFFSET sessionId;
  initialFrame ← encode_at encodeLong initialFrame REQUEST_THREAD_ID_OFFSET threadId;
  initialFrame ← encode_at encodeUUID initialFrame REQUEST_INVOCATION_UID_OFFSET invocationUid;
  let clientMessage := Request.addFrame clientMessage initialFrame in
  clientMessage ← Request.setMessageType clientMessage REQUEST_MESSAGE_TYPE;
  clientMessage ← Request.setPartitionId clientMessage (-1);
  clientMessage ← Request.append RaftGroupIdCodec_encode clientMessage groupId;
  clientMessage ← Request.append StringCodec.encode clientMessage name;
  Ok clientMessage.

Definition FencedLockLockCodec_decodeResponse : Dec L :=
  let RESPONSE_RESPONSE_OFFSET := RESPONSE_BACKUP_ACKS_OFFSET + BYTE_SIZE_IN_BYTES in
  initialFrame ← nextFrame;
  response ← decode_at decodeLong initialFrame RESPONSE_RESPONSE_OFFSET;
  mret response.

(** ** FencedLockTryLockCodec *)

Definition FencedLockTryLockCodec_encodeRequest (groupId : RaftGroupId L) (name : string) (sessionId : long_arg L) (threadId : long_arg L) (invocationUid : option (UUID L)) (timeoutMs : long_arg L) : res Request :=
  let REQUEST_MESSAGE_TYPE := 459264 in
  let REQUEST_SESSION_ID_OFFSET := PARTITION_ID_OFFSET + INT_SIZE_IN_BYTES in
  let REQUEST_THREAD_ID_OFFSET := REQUEST_SESSION_ID_OFFSET + LONG_SIZE_IN_BYTES in
  let REQUEST_INVOCATION_UID_OFFSET := REQUEST_THREAD_ID_OFFSET + LONG_SIZE_IN_BYTES in
  let REQUEST_TIMEOUT_MS_OFFSET := REQUEST_INVOCATION_UID_OFFSET + UUID_SIZE_IN_BYTES in
  let REQUEST_INITIAL_FRAME_SIZE := REQUEST_TIMEOUT_MS_OFFSET + LONG_SIZE_IN_BYTES in
  let clientMessage := Request.createForEncode in
  let clientMessage := Request.setRetryable clientMessage true in
  let initialFrame := initial_frame REQUEST_INITIAL_FRAME_SIZE in
  initialFrame ← encode_at encodeLong initialFrame REQUEST_SESSION_ID_OFFSET sessionId;
  initialFrame ← encode_at encodeLong initialFrame REQUEST_THREAD_ID_OFFSET threadId;
  initialFrame ← encode_at encodeUUID initialFrame REQUEST_INVOCATION_UID_OFFSET invocationUid;
  initialFrame ← encode_at encodeLong initialFrame REQUEST_TIMEOUT_MS_OFFSET timeoutMs;
  let clientMessage := Request.addFrame clientMessage initialFrame in
  clientMessage ← Request.setMessageType clientMessage REQUEST_MESSAGE_TYPE;
  clientMessage ← Request.setPartitionId clientMessage (-1);
  clientMessage ← Request.append RaftGroupIdCodec_encode clientMessage groupId;
  clientMessage ← Request.append StringCodec.encode clientMessage name;
  Ok clientMessage.

Definition FencedLockTryLockCodec_decodeResponse : Dec L :=
  let RESPONSE_RESPONSE_OFFSET := RESPONSE_BACKUP_ACKS_OFFSET + BYTE_SIZE_IN_BYTES in
  initialFrame ← nextFrame;
  response ← decode_at decodeLong initialFrame RESPONSE_RESPONSE_OFFSET;
  mret response.

(** ** FencedLockUnlockCodec *)

Definition FencedLockUnlockCodec_encodeRequest (groupId : RaftGroupId L) (name : string) (sessionId : long_arg L) (threadId : long_arg L) (invocationUid : option (UUID L)) : res Request :=
  let REQUEST_MESSAGE_TYPE := 459520 in
  let REQUEST_SESSION_ID_OFFSET := PARTITION_ID_OFFSET + INT_SIZE_IN_BYTES in
  let REQUEST_THREAD_ID_OFFSET := REQUEST_SESSION_ID_OFFSET + LONG_SIZE_IN_BYTES in
  let REQUEST_INVOCATION_UID_OFFSET := REQUEST_THREAD_ID_OFFSET + LONG_SIZE_IN_BYTES in
  let REQUEST_INITIAL_FRAME_SIZE := REQUEST_INVOCATION_UID_OFFSET + UUID_SIZE_IN_BYTES in
  let clientMessage := Request.createForEncode in
  let clientMessage := Request.setRetryable clientMessage true in
  let initialFrame := initial_frame REQUEST_INITIAL_FRAME_SIZE in
  initialFrame ← encode_at encodeLong initialFrame REQUEST_SESSION_ID_OFFSET sessionId;
  initialFrame ← encode_at encodeLong initialFrame REQUEST_THREAD_ID_OFFSET threadId;
  initialFrame ← encode_at encodeUUID initialFrame REQUEST_INVOCATION_UID_OFFSET invocationUid;
  let clientMessage := Request.addFrame clientMessage initialFrame in
  clientMessage ← Request.setMessageType clientMessage REQUEST_MESSAGE_TYPE;
  clientMessage ← Request.setPartitionId clientMessage (-1);
  clientMessage ← Request.append RaftGroupIdCodec_encode clientMessage groupId;
  clientMessage ← Request.append StringCodec.encode clientMessage name;
  Ok clientMessage.

Definition FencedLockUnlockCodec_decodeResponse : Dec bool :=
  let RESPONSE_RESPONSE_OFFSET := RESPONSE_BACKUP_ACKS_OFFSET + BYTE_SIZE_IN_BYTES in
  initialFrame ← nextFrame;
  response ← decode_at decodeBoolean initialFrame RESPONSE_RESPONSE_OFFSET;
  mret response.

(** ** FlakeIdGeneratorNewIdBatchCodec *)

Definition FlakeIdGeneratorNewIdBatchCodec_encodeRequest (name : string) (batchSize : Z) : res Request :=
  let REQUEST_MESSAGE_TYPE := 1835264 in
  let REQUEST_BATCH_SIZE_OFFSET := PARTITION_ID_OFFSET + INT_SIZE_IN_BYTES in
  let REQUEST_INITIAL_FRAME_SIZE := REQUEST_BATCH_SIZE_OFFSET + INT_SIZE_IN_BYTES in
  let clientMessage := Request.createForEncode in
  let clientMessage := Request.setRetryable clientMessage true in
  let initialFrame := initial_frame REQUEST_INITIAL_FRAME_SIZE in
  initialFrame ← encode_at encodeInt initialFrame REQUEST_BATCH_SIZE_OFFSET batchSize;
  let clientMessage := Request.addFrame clientMessage initialFrame in
  clientMessage ← Request.setMessageType clientMessage REQUEST_MESSAGE_TYPE;
  clientMessage ← Request.setPartitionId clientMessage (-1);
  clientMessage ← Request.append StringCodec.encode clientMessage name;
  Ok clientMessage.

Definition FlakeIdGeneratorNewIdBatchCodec_decodeResponse : Dec (FlakeIdGeneratorNewIdBatchResponseParams L) :=
  let RESPONSE_BASE_OFFSET := RESPONSE_BACKUP_ACKS_OFFSET + BYTE_SIZE_IN_BYTES in
  let RESPONSE_INCREMENT_OFFSET := RESPONSE_BASE_OFFSET + LONG_SIZE_IN_BYTES in
  let RESPONSE_BATCH_SIZE_OFFSET := RESPONSE_INCREMENT_OFFSET + LONG_SIZE_IN_BYTES in
  initialFrame ← nextFrame;
  base ← decode_at decodeLong initialFrame RESPONSE_BASE_OFFSET;
  increment ← decode_at decodeLong initialFrame RESPONSE_INCREMENT_OFFSET;
  batchSize ← decode_at decodeInt initialFrame RESPONSE_BATCH_SIZE_OFFSET;
  mret (mkFlakeIdGeneratorNewIdBatchResponseParams base increment batchSize).

(** ** PNCounterAddCodec *)

Definition PNCounterAddCodec_encodeRequest (name : string) (delta : long_arg L) (getBeforeUpdate : bool) (replicaTimestamps : list (option (UUID L) * L)) (targetReplicaUUID : option (UUID L)) : res Request :=
  let REQUEST_MESSAGE_TYPE := 1901056 in
  let REQUEST_DELTA_OFFSET := PARTITION_ID_OFFSET + INT_SIZE_IN_BYTES in
  let REQUEST_GET_BEFORE_UPDATE_OFFSET := REQUEST_DELTA_OFFSET + LONG_SIZE_IN_BYTES in
  let REQUEST_TARGET_REPLICA_UUID_OFFSET := REQUEST_GET_BEFORE_UPDATE_OFFSET + BOOLEAN_SIZE_IN_BYTES in
  let REQUEST_INITIAL_FRAME_SIZE := REQUEST_TARGET_REPLICA_UUID_OFFSET + UUID_SIZE_IN_BYTES in
  let clientMessage := Request.createForEncode in
  let clientMessage := Request.setRetryable clientMessage false in
  let initialFrame := initial_frame REQUEST_INITIAL_FRAME_SIZE in
  initialFrame ← encode_at encodeLong initialFrame REQUEST_DELTA_OFFSET delta;
  initialFrame ← encode_at encodeBoolean initialFrame REQUEST_GET_BEFORE_UPDATE_OFFSET getBeforeUpdate;
  initialFrame ← encode_at encodeUUID initialFrame REQUEST_TARGET_REPLICA_UUID_OFFSET targetReplicaUUID;
  let clientMessage := Request.addFrame clientMessage initialFrame in
  clientMessage ← Request.setMessageType clientMessage REQUEST_MESSAGE_TYPE;
  clientMessage ← Request.setPartitionId clientMessage (-1);
  clientMessage ← Request.append StringCodec.encode clientMessage name;
  clientMessage ← Request.append EntryListUUIDLongCodec_encode clientMessage replicaTimestamps;
  Ok clientMessage.

Definition PNCounterAddCodec_decodeResponse : Dec (PNCounterAddResponseParams L) :=
  let RESPONSE_VALUE_OFFSET := RESPONSE_BACKUP_ACKS_OFFSET + BYTE_SIZE_IN_BYTES in
  let RESPONSE_REPLICA_COUNT_OFFSET := RESPONSE_VALUE_OFFSET + LONG_SIZE_IN_BYTES in
  initialFrame ← nextFrame;
  value ← decode_at decodeLong initialFrame RESPONSE_VALUE_OFFSET;
  replicaCount ← decode_at decodeInt initialFrame RESPONSE_REPLICA_COUNT_OFFSET;
  replicaTimestamps ← EntryListUUIDLongCodec_decode;
  mret (mkPNCounterAddResponseParams value replicaTimestamps replicaCount).

(** ** PNCounterGetCodec *)

Definition PNCounterGetCodec_encodeRequest (name : string) (replicaTimestamps : list (option (UUID L) * L)) (targetReplicaUUID : option (UUID L)) : res Request :=
  let REQUEST_MESSAGE_TYPE := 1900800 in
  let REQUEST_TARGET_REPLICA_UUID_OFFSET := PARTITION_ID_OFFSET + INT_SIZE_IN_BYTES in
  let REQUEST_INITIAL_FRAME_SIZE := REQUEST_TARGET_REPLICA_UUID_OFFSET + UUID_SIZE_IN_BYTES in
  let clientMessage := Request.createForEncode in
  let clientMessage := Request.setRetryable clientMessage true in
  let initialFrame := initial_frame REQUEST_INITIAL_FRAME_SIZE in
  initialFrame ← encode_at encodeUUID initialFrame REQUEST_TARGET_REPLICA_UUID_OFFSET targetReplicaUUID;
  let clientMessage := Request.addFrame clientMessage initialFrame in
  clientMessage ← Request.setMessageType clientMessage REQUEST_MESSAGE_TYPE;
  clientMessage ← Request.setPartitionId clientMessage (-1);
  clientMessage ← Request.append StringCodec.encode clientMessage name;
  clientMessage ← Request.append EntryListUUIDLongCodec_encode clientMessage replicaTimestamps;
  Ok clientMessage.

Definition PNCounterGetCodec_decodeResponse : Dec (PNCounterGetResponseParams L) :=
  let RESPONSE_VALUE_OFFSET := RESPONSE_BACKUP_ACKS_OFFSET + BYTE_SIZE_IN_BYTES in
  let RESPONSE_REPLICA_COUNT_OFFSET := RESPONSE_VALUE_OFFSET + LONG_SIZE_IN_BYTES in
  initialFrame ← nextFrame;
  value ← decode_at decodeLong initialFrame RESPONSE_VALUE_OFFSET;
  replicaCount ← decode_at decodeInt initialFrame RESPONSE_REPLICA_COUNT_OFFSET;
  replicaTimestamps ← EntryListUUIDLongCodec_decode;
  mret (mkPNCounterGetResponseParams value replicaTimestamps replicaCount).

(** ** PNCounterGetConfiguredReplicaCountCodec *)

Definition PNCounterGetConfiguredReplicaCountCodec_encodeRequest (name : string) : res Request :=
  let REQUEST_MESSAGE_TYPE := 1901312 in
  let REQUEST_INITIAL_FRAME_SIZE := PARTITION_ID_OFFSET + INT_SIZE_IN_BYTES in
  let clientMessage := Request.createForEncode in
  let clientMessage := Request.setRetryable clientMessage true in
  let initialFrame := initial_frame REQUEST_INITIAL_FRAME_SIZE in
  let clientMessage := Request.addFrame clientMessage initialFrame in
  clientMessage ← Request.setMessageType clientMessage REQUEST_MESSAGE_TYPE;
  clientMessage ← Request.setPartitionId clientMessage (-1);
  clientMessage ← Request.append StringCodec.encode clientMessage name;
  Ok clientMessage.

Definition PNCounterGetConfiguredReplicaCountCodec_decodeResponse : Dec Z :=
  let RESPONSE_RESPONSE_OFFSET := RESPONSE_BACKUP_ACKS_OFFSET + BYTE_SIZE_IN_BYTES in
  initialFrame ← nextFrame;
  response ← decode_at decodeInt initialFrame RESPONSE_RESPONSE_OFFSET;
  mret response.

(** ** SemaphoreAcquireCodec *)

Definition SemaphoreAcquireCodec_encodeRequest (groupId : RaftGroupId L) (name : string) (sessionId : long_arg L) (threadId : long_arg L) (invocationUid : option (UUID L)) (permits : Z) (timeoutMs : long_arg L) : res Request :=
  let REQUEST_MESSAGE_TYPE := 786944 in
  let REQUEST_SESSION_ID_OFFSET := PARTITION_ID_OFFSET + INT_SIZE_IN_BYTES in
  let REQUEST_THREAD_ID_OFFSET := REQUEST_SESSION_ID_OFFSET + LONG_SIZE_IN_BYTES in
  let REQUEST_INVOCATION_UID_OFFSET := REQUEST_THREAD_ID_OFFSET + LONG_SIZE_IN_BYTES in
  let REQUEST_PERMITS_OFFSET := REQUEST_INVOCATION_UID_OFFSET + UUID_SIZE_IN_BYTES in
  let REQUEST_TIMEOUT_MS_OFFSET := REQUEST_PERMITS_OFFSET + INT_SIZE_IN_BYTES in
  let REQUEST_INITIAL_FRAME_SIZE := REQUEST_TIMEOUT_MS_OFFSET + LONG_SIZE_IN_BYTES in
  let clientMessage := Request.createForEncode in
  let clientMessage := Request.setRetryable clientMessage true in
  let initialFrame := initial_frame REQUEST_INITIAL_FRAME_SIZE in
  initialFrame ← encode_at encodeLong initialFrame REQUEST_SESSION_ID_OFFSET sessionId;
  initialFrame ← encode_at encodeLong initialFrame REQUEST_THREAD_ID_OFFSET threadId;
  initialFrame ← encode_at encodeUUID initialFrame REQUEST_INVOCATION_UID_OFFSET invocationUid;
  initialFrame ← encode_at encodeInt initialFrame REQUEST_PERMITS_OFFSET permits;
  initialFrame ← encode_at encodeLong initialFrame REQUEST_TIMEOUT_MS_OFFSET timeoutMs;
  let clientMessage := Request.addFrame clientMessage initialFrame in
  clientMessage ← Request.setMessageType clientMessage REQUEST_MESSAGE_TYPE;
  clientMessage ← Request.setPartitionId clientMessage (-1);
  clientMessage ← Request.append RaftGroupIdCodec_encode clientMessage groupId;
  clientMessage ← Request.append StringCodec.encode clientMessage name;
  Ok clientMessage.

Definition SemaphoreAcquireCodec_decodeResponse : Dec bool :=
  let RESPONSE_RESPONSE_OFFSET := RESPONSE_BACKUP_ACKS_OFFSET + BYTE_SIZE_IN_BYTES in
  initialFrame ← nextFrame;
  response ← decode_at decodeBoolean initialFrame RESPONSE_RESPONSE_OFFSET;
  mret response.

(** ** SemaphoreAvailablePermitsCodec *)

Definition SemaphoreAvailablePermitsCodec_encodeRequest (groupId : RaftGroupId L) (name : string) : res Request :=
  let REQUEST_MESSAGE_TYPE := 787968 in
  let REQUEST_INITIAL_FRAME_SIZE := PARTITION_ID_OFFSET + INT_SIZE_IN_BYTES in
  let clientMessage := Request.createForEncode in
  let clientMessage := Request.setRetryable clientMessage true in
  let initialFrame := initial_frame REQUEST_INITIAL_FRAME_SIZE in
  let clientMessage := Request.addFrame clientMessage initialFrame in
  clientMessage ← Request.setMessageType clientMessage REQUEST_MESSAGE_TYPE;
  clientMessage ← Request.setPartitionId clientMessage (-1);
  clientMessage ← Request.append RaftGroupIdCodec_encode clientMessage groupId;
  clientMessage ← Request.append StringCodec.encode clientMessage name;
  Ok clientMessage.

Definition SemaphoreAvailablePermitsCodec_decodeResponse : Dec Z :=
  let RESPONSE_RESPONSE_OFFSET := RESPONSE_BACKUP_ACKS_OFFSET + BYTE_SIZE_IN_BYTES in
  initialFrame ← nextFrame;
  response ← decode_at decodeInt initialFrame RESPONSE_RESPONSE_OFFSET;
  mret response.

(** ** SemaphoreChangeCodec *)

Definition SemaphoreChangeCodec_encodeRequest (groupId : RaftGroupId L) (name : string) (sessionId : long_arg L) (threadId : long_arg L) (invocationUid : option (UUID L)) (permits : Z) : res Request :=
  let REQUEST_MESSAGE_TYPE := 787712 in
  let REQUEST_SESSION_ID_OFFSET := PARTITION_ID_OFFSET + INT_SIZE_IN_BYTES in
  let REQUEST_THREAD_ID_OFFSET := REQUEST_SESSION_ID_OFFSET + LONG_SIZE_IN_BYTES in
  let REQUEST_INVOCATION_UID_OFFSET := REQUEST_THREAD_ID_OFFSET + LONG_SIZE_IN_BYTES in
  let REQUEST_PERMITS_OFFSET := REQUEST_INVOCATION_UID_OFFSET + UUID_SIZE_IN_BYTES in
  let REQUEST_INITIAL_FRAME_SIZE := REQUEST_PERMITS_OFFSET + INT_SIZE_IN_BYTES in
  let clientMessage := Request.createForEncode in
  let clientMessage := Request.setRetryable clientMessage true in
  let initialFrame := initial_frame REQUEST_INITIAL_FRAME_SIZE in
  initialFrame ← encode_at encodeLong initialFrame REQUEST_SESSION_ID_OFFSET sessionId;
  initialFrame ← encode_at encodeLong initialFrame REQUEST_THREAD_ID_OFFSET threadId;
  initialFrame ← encode_at encodeUUID initialFrame REQUEST_INVOCATION_UID_OFFSET invocationUid;
  initialFrame ← encode_at encodeInt initialFrame REQUEST_PERMITS_OFFSET permits;
  let clientMessage := Request.addFrame clientMessage initialFrame in
  clientMessage ← Request.setMessageType clientMessage REQUEST_MESSAGE_TYPE;
  clientMessage ← Request.setPartitionId clientMessage (-1);
  clientMessage ← Request.append RaftGroupIdCodec_encode clientMessage groupId;
  clientMessage ← Request.append StringCodec.encode clientMessage name;
  Ok clientMessage.

Definition SemaphoreChangeCodec_decodeResponse : Dec bool :=
  let RESPONSE_RESPONSE_OFFSET := RESPONSE_BACKUP_ACKS_OFFSET + BYTE_SIZE_IN_BYTES in
  initialFrame ← nextFrame;
  response ← decode_at decodeBoolean initialFrame RESPONSE_RESPONSE_OFFSET;
  mret response.

(** ** SemaphoreDrainCodec *)

Definition SemaphoreDrainCodec_encodeRequest (groupId : RaftGroupId L) (name : string) (sessionId : long_arg L) (threadId : long_arg L) (invocationUid : option (UUID L)) : res Request :=
  let REQUEST_MESSAGE_TYPE := 787456 in
  let REQUEST_SESSION_ID_OFFSET := PARTITION_ID_OFFSET + INT_SIZE_IN_BYTES in
  let REQUEST_THREAD_ID_OFFSET := REQUEST_SESSION_ID_OFFSET + LONG_SIZE_IN_BYTES in
  let REQUEST_INVOCATION_UID_OFFSET := REQUEST_THREAD_ID_OFFSET + LONG_SIZE_IN_BYTES in
  let REQUEST_INITIAL_FRAME_SIZE := REQUEST_INVOCATION_UID_OFFSET + UUID_SIZE_IN_BYTES in
  let clientMessage := Request.createForEncode in
  let clientMessage := Request.setRetryable clientMessage true in
  let initialFrame := initial_frame REQUEST_INITIAL_FRAME_SIZE in
  initialFrame ← encode_at encodeLong initialFrame REQUEST_SESSION_ID_OFFSET sessionId;
  initialFrame ← encode_at encodeLong initialFrame REQUEST_THREAD_ID_OFFSET threadId;
  initialFrame ← encode_at encodeUUID initialFrame REQUEST_INVOCATION_UID_OFFSET invocationUid;
  let clientMessage := Request.addFrame clientMessage initialFrame in
  clientMessage ← Request.setMessageType clientMessage REQUEST_MESSAGE_TYPE;
  clientMessage ← Request.setPartitionId clientMessage (-1);
  clientMessage ← Request.append RaftGroupIdCodec_encode clientMessage groupId;
  clientMessage ← Request.append StringCodec.encode clientMessage name;
  Ok clientMessage.

Definition SemaphoreDrainCodec_decodeResponse : Dec Z :=
  let RESPONSE_RESPONSE_OFFSET := RESPONSE_BACKUP_ACKS_OFFSET + BYTE_SIZE_IN_BYTES in
  initialFrame ← nextFrame;
  response ← decode_at decodeInt initialFrame RESPONSE_RESPONSE_OFFSET;
  mret response.

(** ** SemaphoreGetSemaphoreTypeCodec *)

Definition SemaphoreGetSemaphoreTypeCodec_encodeRequest (proxyName : string) : res Request :=
  let REQUEST_MESSAGE_TYPE := 788224 in
  let REQUEST_INITIAL_FRAME_SIZE := PARTITION_ID_OFFSET + INT_SIZE_IN_BYTES in
  let clientMessage := Request.createForEncode in
  let clientMessage := Request.setRetryable clientMessage true in
  let initialFrame := initial_frame REQUEST_INITIAL_FRAME_SIZE in
  let clientMessage := Request.addFrame clientMessage initialFrame in
  clientMessage ← Request.setMessageType clientMessage REQUEST_MESSAGE_TYPE;
  clientMessage ← Request.setPartitionId clientMessage (-1);
  clientMessage ← Request.append StringCodec.encode clientMessage proxyName;
  Ok clientMessage.

Definition SemaphoreGetSemaphoreTypeCodec_decodeResponse : Dec bool :=
  let RESPONSE_RESPONSE_OFFSET := RESPONSE_BACKUP_ACKS_OFFSET + BYTE_SIZE_IN_BYTES in
  initialFrame ← nextFrame;
  response ← decode_at decodeBoolean initialFrame RESPONSE_RESPONSE_OFFSET;
  mret response.

(** ** SemaphoreInitCodec *)

Definition SemaphoreInitCodec_encodeRequest (groupId : RaftGroupId L) (name : string) (permits : Z) : res Request :=
  let REQUEST_MESSAGE_TYPE := 786688 in
  let REQUEST_PERMITS_OFFSET := PARTITION_ID_OFFSET + INT_SIZE_IN_BYTES in
  let REQUEST_INITIAL_FRAME_SIZE := REQUEST_PERMITS_OFFSET + INT_SIZE_IN_BYTES in
  let clientMessage := Request.createForEncode in
  let clientMessage := Request.setRetryable clientMessage true in
  let initialFrame := initial_frame REQUEST_INITIAL_FRAME_SIZE in
  initialFrame ← encode_at encodeInt initialFrame REQUEST_PERMITS_OFFSET permits;
  let clientMessage := Request.addFrame clientMessage initialFrame in
  clientMessage ← Request.setMessageType clientMessage REQUEST_MESSAGE_TYPE;
  clientMessage ← Request.setPartitionId clientMessage (-1);
  clientMessage ← Request.append RaftGroupIdCodec_encode clientMessage groupId;
  clientMessage ← Request.append StringCodec.encode clientMessage name;
  Ok clientMessage.

Definition SemaphoreInitCodec_decodeResponse : Dec bool :=
  let RESPONSE_RESPONSE_OFFSET := RESPONSE_BACKUP_ACKS_OFFSET + BYTE_SIZE_IN_BYTES in
  initialFrame ← nextFrame;
  response ← decode_at decodeBoolean initialFrame RESPONSE_RESPONSE_OFFSET;
  mret response.

(** ** SemaphoreReleaseCodec *)

Definition SemaphoreReleaseCodec_encodeRequest (groupId : RaftGroupId L) (name : string) (sessionId : long_arg L) (threadId : long_arg L) (invocationUid : option (UUID L)) (permits : Z) : res Request :=
  let REQUEST_MESSAGE_TYPE := 787200 in
  let REQUEST_SESSION_ID_OFFSET := PARTITION_ID_OFFSET + INT_SIZE_IN_BYTES in
  let REQUEST_THREAD_ID_OFFSET := REQUEST_SESSION_ID_OFFSET + LONG_SIZE_IN_BYTES in
  let REQUEST_INVOCATION_UID_OFFSET := REQUEST_THREAD_ID_OFFSET + LONG_SIZE_IN_BYTES in
  let REQUEST_PERMITS_OFFSET := REQUEST_INVOCATION_UID_OFFSET + UUID_SIZE_IN_BYTES in
  let REQUEST_INITIAL_FRAME_SIZE := REQUEST_PERMITS_OFFSET + INT_SIZE_IN_BYTES in
  let clientMessage := Request.createForEncode in
  let clientMessage := Request.setRetryable clientMessage true in
  let initialFrame := initial_frame REQUEST_INITIAL_FRAME_SIZE in
  initialFrame ← encode_at encodeLong initialFrame REQUEST_SESSION_ID_OFFSET sessionId;
  initialFrame ← encode_at encodeLong initialFrame REQUEST_THREAD_ID_OFFSET threadId;
  initialFrame ← encode_at encodeUUID initialFrame REQUEST_INVOCATION_UID_OFFSET invocationUid;
  initialFrame ← encode_at encodeInt initialFrame REQUEST_PERMITS_OFFSET permits;
  let clientMessage := Request.addFrame clientMessage initialFrame in
  clientMessage ← Request.setMessageType clientMessage REQUEST_MESSAGE_TYPE;
  clientMessage ← Request.setPartitionId clientMessage (-1);
  clientMessage ← Request.append RaftGroupIdCodec_encode clientMessage groupId;
  clientMessage ← Request.append StringCodec.encode clientMessage name;
  Ok clientMessage.

Definition SemaphoreReleaseCodec_decodeResponse : Dec bool :=
  let RESPONSE_RESPONSE_OFFSET := RESPONSE_BACKUP_ACKS_OFFSET + BYTE_SIZE_IN_BYTES in
  initialFrame ← nextFrame;
  response ← decode_at decodeBoolean initialFrame RESPONSE_RESPONSE_OFFSET;
  mret response.

(** ** SqlCloseCodec *)

Definition SqlCloseCodec_encodeRequest (queryId : SqlQueryId L) : res Request :=
  let REQUEST_MESSAGE_TYPE := 2163456 in
  let REQUEST_INITIAL_FRAME_SIZE := PARTITION_ID_OFFSET + INT_SIZE_IN_BYTES in
  let clientMessage := Request.createForEncode in
  let clientMessage := Request.setRetryable clientMessage false in
  let initialFrame := initial_frame REQUEST_INITIAL_FRAME_SIZE in
  let clientMessage := Request.addFrame clientMessage initialFrame in
  clientMessage ← Request.setMessageType clientMessage REQUEST_MESSAGE_TYPE;
  clientMessage ← Request.setPartitionId clientMessage (-1);
  clientMessage ← Request.append SqlQueryIdCodec_encode clientMessage queryId;
  Ok clientMessage.

(** ** SqlExecuteCodec *)

Definition SqlExecuteCodec_encodeRequest (sql : string) (parameters : list (option HeapData)) (timeoutMillis : long_arg L) (cursorBufferSize : Z) (schema : option string) (expectedResultType : Z) (queryId : SqlQueryId L) : res Request :=
  let REQUEST_MESSAGE_TYPE := 2163712 in
  let REQUEST_TIMEOUT_MILLIS_OFFSET := PARTITION_ID_OFFSET + INT_SIZE_IN_BYTES in
  let REQUEST_CURSOR_BUFFER_SIZE_OFFSET := REQUEST_TIMEOUT_MILLIS_OFFSET + LONG_SIZE_IN_BYTES in
  let REQUEST_EXPECTED_RESULT_TYPE_OFFSET := REQUEST_CURSOR_BUFFER_SIZE_OFFSET + INT_SIZE_IN_BYTES in
  let REQUEST_INITIAL_FRAME_SIZE := REQUEST_EXPECTED_RESULT_TYPE_OFFSET + BYTE_SIZE_IN_BYTES in
  let clientMessage := Request.createForEncode in
  let clientMessage := Request.setRetryable clientMessage false in
  let initialFrame := initial_frame REQUEST_INITIAL_FRAME_SIZE in
  initialFrame ← encode_at encodeLong initialFrame REQUEST_TIMEOUT_MILLIS_OFFSET timeoutMillis;
  initialFrame ← encode_at encodeInt initialFrame REQUEST_CURSOR_BUFFER_SIZE_OFFSET cursorBufferSize;
  initialFrame ← encode_at encodeByte initialFrame REQUEST_EXPECTED_RESULT_TYPE_OFFSET expectedResultType;
  let clientMessage := Request.addFrame clientMessage initialFrame in
  clientMessage ← Request.setMessageType clientMessage REQUEST_MESSAGE_TYPE;
  clientMessage ← Request.setPartitionId clientMessage (-1);
  clientMessage ← Request.append StringCodec.encode clientMessage sql;
  clientMessage ← Request.append (ListMultiFrameCodec.encodeContainsNullable DataCodec.encode) clientMessage parameters;
  clientMessage ← Request.append (CodecUtil.encodeNullable StringCodec.encode) clientMessage schema;
  clientMessage ← Request.append SqlQueryIdCodec_encode clientMessage queryId;
  Ok clientMessage.

Definition SqlExecuteCodec_decodeResponse : Dec (SqlExecuteResponseParams L) :=
  let RESPONSE_UPDATE_COUNT_OFFSET := RESPONSE_BACKUP_ACKS_OFFSET + BYTE_SIZE_IN_BYTES in
  initialFrame ← nextFrame;
  updateCount ← decode_at decodeLong initialFrame RESPONSE_UPDATE_COUNT_OFFSET;
  rowMetadata ← ListMultiFrameCodec.decodeNullable SqlColumnMetadataCodec_decode;
  rowPage ← CodecUtil.decodeNullable SqlPageCodec_decode;
  error ← CodecUtil.decodeNullable SqlErrorCodec_decode;
  mret (mkSqlExecuteResponseParams rowMetadata rowPage updateCount error).

(** ** SqlFetchCodec *)

Definition SqlFetchCodec_encodeRequest (queryId : SqlQueryId L) (cursorBufferSize : Z) : res Request :=
  let REQUEST_MESSAGE_TYPE := 2163968 in
  let REQUEST_CURSOR_BUFFER_SIZE_OFFSET := PARTITION_ID_OFFSET + INT_SIZE_IN_BYTES in
  let REQUEST_INITIAL_FRAME_SIZE := REQUEST_CURSOR_BUFFER_SIZE_OFFSET + INT_SIZE_IN_BYTES in
  let clientMessage := Request.createForEncode in
  let clientMessage := Request.setRetryable clientMessage false in
  let initialFrame := initial_frame REQUEST_INITIAL_FRAME_SIZE in
  initialFrame ← encode_at encodeInt initialFrame REQUEST_CURSOR_BUFFER_SIZE_OFFSET cursorBufferSize;
  let clientMessage := Request.addFrame clientMessage initialFrame in
  clientMessage ← Request.setMessageType clientMessage REQUEST_MESSAGE_TYPE;
  clientMessage ← Request.setPartitionId clientMessage (-1);
  clientMessage ← Request.append SqlQueryIdCodec_encode clientMessage queryId;
  Ok clientMessage.

Definition SqlFetchCodec_decodeResponse : Dec (SqlFetchResponseParams L) :=
  _ ← skipFrame;
  rowPage ← CodecUtil.decodeNullable SqlPageCodec_decode;
  error ← CodecUtil.decodeNullable SqlErrorCodec_decode;
  mret (mkSqlFetchResponseParams rowPage error).
End Codecs.

(** ** Formats *)

Section Formats.
Context `{Uninit} {L : Type} `{LongLaws L}.

Definition service_requests : list RequestFormat := [
  mkRequestFormat 590592 false [F_long_arg] [param (struct_msg_codec raft_group_id_codec); param string_codec]
    (fun f p => AtomicLongAddAndGetCodec_encodeRequest p.1 p.2.1 f.1);
  mkRequestFormat 590336 false [F_int] [param (struct_msg_codec raft_group_id_codec); param string_codec; param data_codec]
    (fun f p => AtomicLongAlterCodec_encodeRequest p.1 p.2.1 p.2.2.1 f.1);
  mkRequestFormat 590080 false [] [param (struct_msg_codec raft_group_id_codec); param string_codec; param data_codec]
    (fun f p => AtomicLongApplyCodec_encodeRequest p.1 p.2.1 p.2.2.1);
  mkRequestFormat 590848 false [F_long_arg; F_long_arg] [param (struct_msg_codec raft_group_id_codec); param string_codec]
    (fun f p => AtomicLongCompareAndSetCodec_encodeRequest p.1 p.2.1 f.1 f.2.1);
  mkRequestFormat 591360 false [F_long_arg] [param (struct_msg_codec raft_group_id_codec); param string_codec]
    (fun f p => AtomicLongGetAndAddCodec_encodeRequest p.1 p.2.1 f.1);
  mkRequestFormat 591616 false [F_long_arg] [param (struct_msg_codec raft_group_id_codec); param string_codec]
    (fun f p => AtomicLongGetAndSetCodec_encodeRequest p.1 p.2.1 f.1);
  mkRequestFormat 591104 true [] [param (struct_msg_codec raft_group_id_codec); param string_codec]
    (fun f p => AtomicLongGetCodec_encodeRequest p.1 p.2.1);
  mkRequestFormat 655616 false [F_int; F_boolean] [param (struct_msg_codec raft_group_id_codec); param string_codec; param data_codec]
    (fun f p => AtomicRefApplyCodec_encodeRequest p.1 p.2.1 p.2.2.1 f.1 f.2.1);
  mkRequestFormat 655872 false [] [param (struct_msg_codec raft_group_id_codec); param string_codec; param (nullable_codec data_codec); param (nullable_codec data_codec)]
    (fun f p => AtomicRefCompareAndSetCodec_encodeRequest p.1 p.2.1 p.2.2.1 p.2.2.2.1);
  mkRequestFormat 656128 true [] [param (struct_msg_codec raft_group_id_codec); param string_codec; param (nullable_codec data_codec)]
    (fun f p => AtomicRefContainsCodec_encodeRequest p.1 p.2.1 p.2.2.1);
  mkRequestFormat 656384 true [] [param (struct_msg_codec raft_group_id_codec); param string_codec]
    (fun f p => AtomicRefGetCodec_encodeRequest p.1 p.2.1);
  mkRequestFormat 656640 false [F_boolean] [param (struct_msg_codec raft_group_id_codec); param string_codec; param (nullable_codec data_codec)]
    (fun f p => AtomicRefSetCodec_encodeRequest p.1 p.2.1 p.2.2.1 f.1);
  mkRequestFormat 1966336 true [] [param string_codec]
    (fun f p => CPGroupCreateCPGroupCodec_encodeRequest p.1);
  mkRequestFormat 1966592 true [] [param (struct_msg_codec raft_group_id_codec); param string_codec; param string_codec]
    (fun f p => CPGroupDestroyCPObjectCodec_encodeRequest p.1 p.2.1 p.2.2.1);
  mkRequestFormat 2032128 true [F_long_arg] [param (struct_msg_codec raft_group_id_codec)]
    (fun f p => CPSessionCloseSessionCodec_encodeRequest p.1 f.1);
  mkRequestFormat 2031872 true [] [param (struct_msg_codec raft_group_id_codec); param string_codec]
    (fun f p => CPSessionCreateSessionCodec_encodeRequest p.1 p.2.1);
  mkRequestFormat 2032640 true [] [param (struct_msg_codec raft_group_id_codec)]
    (fun f p => CPSessionGenerateThreadIdCodec_encodeRequest p.1);
  mkRequestFormat 2032384 true [F_long_arg] [param (struct_msg_codec raft_group_id_codec)]
    (fun f p => CPSessionHeartbeatSessionCodec_encodeRequest p.1 f.1);
  mkRequestFormat 768 false [] []
    (fun f p => ClientAddClusterViewListenerCodec_encodeRequest);
  mkRequestFormat 2304 false [F_boolean] []
    (fun f p => ClientAddDistributedObjectListenerCodec_encodeRequest f.1);
  mkRequestFormat 1536 false [F_boolean] []
    (fun f p => ClientAddPartitionLostListenerCodec_encodeRequest f.1);
  mkRequestFormat 256 true [F_uuid; F_byte] [param string_codec; param (nullable_codec string_codec); param (nullable_codec string_codec); param string_codec; param string_codec; param string_codec; param (list_codec string_codec)]
    (fun f p => ClientAuthenticationCodec_encodeRequest p.1 p.2.1 p.2.2.1 f.1 p.2.2.2.1 f.2.1 p.2.2.2.2.1 p.2.2.2.2.2.1 p.2.2.2.2.2.2.1);
  mkRequestFormat 512 true [F_uuid; F_byte] [param string_codec; param bytes_codec; param string_codec; param string_codec; param string_codec; param (list_codec string_codec)]
    (fun f p => ClientAuthenticationCustomCodec_encodeRequest p.1 p.2.1 f.1 p.2.2.1 f.2.1 p.2.2.2.1 p.2.2.2.2.1 p.2.2.2.2.2.1);
  mkRequestFormat 3584 false [] [param (entry_list_codec (CK := string_codec) (CV := string_codec))]
    (fun f p => ClientCreateProxiesCodec_encodeRequest p.1);
  mkRequestFormat 1024 false [] [param string_codec; param string_codec]
    (fun f p => ClientCreateProxyCodec_encodeRequest p.1 p.2.1);
  mkRequestFormat 3328 false [] [param (entry_list_codec (CK := string_codec) (CV := bytes_codec))]
    (fun f p => ClientDeployClassesCodec_encodeRequest p.1);
  mkRequestFormat 1280 false [] [param string_codec; param string_codec]
    (fun f p => ClientDestroyProxyCodec_encodeRequest p.1 p.2.1);
  mkRequestFormat 2048 false [] []
    (fun f p => ClientGetDistributedObjectsCodec_encodeRequest);
  mkRequestFormat 3840 false [] []
    (fun f p => ClientLocalBackupListenerCodec_encodeRequest);
  mkRequestFormat 2816 true [] []
    (fun f p => ClientPingCodec_encodeRequest);
  mkRequestFormat 2560 true [F_uuid] []
    (fun f p => ClientRemoveDistributedObjectListenerCodec_encodeRequest f.1);
  mkRequestFormat 4608 true [F_uuid] []
    (fun f p => ClientRemoveMigrationListenerCodec_encodeRequest f.1);
  mkRequestFormat 1792 true [F_uuid] []
    (fun f p => ClientRemovePartitionLostListenerCodec_encodeRequest f.1);
  mkRequestFormat 3072 false [F_long_arg] [param string_codec; param bytes_codec]
    (fun f p => ClientStatisticsCodec_encodeRequest f.1 p.1 p.2.1);
  mkRequestFormat 4096 true [] []
    (fun f p => ClientTriggerPartitionAssignmentCodec_encodeRequest);
  mkRequestFormat 721408 true [F_uuid; F_long_arg] [param (struct_msg_codec raft_group_id_codec); param string_codec]
    (fun f p => CountDownLatchAwaitCodec_encodeRequest p.1 p.2.1 f.1 f.2.1);
  mkRequestFormat 721664 true [F_uuid; F_int] [param (struct_msg_codec raft_group_id_codec); param string_codec]
    (fun f p => CountDownLatchCountDownCodec_encodeRequest p.1 p.2.1 f.1 f.2.1);
  mkRequestFormat 721920 true [] [param (struct_msg_codec raft_group_id_codec); param string_codec]
    (fun f p => CountDownLatchGetCountCodec_encodeRequest p.1 p.2.1);
  mkRequestFormat 722176 true [] [param (struct_msg_codec raft_group_id_codec); param string_codec]
    (fun f p => CountDownLatchGetRoundCodec_encodeRequest p.1 p.2.1);
  mkRequestFormat 721152 true [F_int] [param (struct_msg_codec raft_group_id_codec); param string_codec]
    (fun f p => CountDownLatchTrySetCountCodec_encodeRequest p.1 p.2.1 f.1);
  mkRequestFormat 459776 true [] [param (struct_msg_codec raft_group_id_codec); param string_codec]
    (fun f p => FencedLockGetLockOwnershipCodec_encodeRequest p.1 p.2.1);
  mkRequestFormat 459008 true [F_long_arg; F_long_arg; F_uuid] [param (struct_msg_codec raft_group_id_codec); param string_codec]
    (fun f p => FencedLockLockCodec_encodeRequest p.1 p.2.1 f.1 f.2.1 f.2.2.1);
  mkRequestFormat 459264 true [F_long_arg; F_long_arg; F_uuid; F_long_arg] [param (struct_msg_codec raft_group_id_codec); param string_codec]
    (fun f p => FencedLockTryLockCodec_encodeRequest p.1 p.2.1 f.1 f.2.1 f.2.2.1 f.2.2.2.1);
  mkRequestFormat 459520 true [F_long_arg; F_long_arg; F_uuid] [param (struct_msg_codec raft_group_id_codec); param string_codec]
    (fun f p => FencedLockUnlockCodec_encodeRequest p.1 p.2.1 f.1 f.2.1 f.2.2.1);
  mkRequestFormat 1835264 true [F_int] [param string_codec]
    (fun f p => FlakeIdGeneratorNewIdBatchCodec_encodeRequest p.1 f.1);
  mkRequestFormat 1901056 false [F_long_arg; F_boolean; F_uuid] [param string_codec; param entry_uuid_long_codec]
    (fun f p => PNCounterAddCodec_encodeRequest p.1 f.1 f.2.1 p.2.1 f.2.2.1);
  mkRequestFormat 1900800 true [F_uuid] [param string_codec; param entry_uuid_long_codec]
    (fun f p => PNCounterGetCodec_encodeRequest p.1 p.2.1 f.1);
  mkRequestFormat 1901312 true [] [param string_codec]
    (fun f p => PNCounterGetConfiguredReplicaCountCodec_encodeRequest p.1);
  mkRequestFormat 786944 true [F_long_arg; F_long_arg; F_uuid; F_int; F_long_arg] [param (struct_msg_codec raft_group_id_codec); param string_codec]
    (fun f p => SemaphoreAcquireCodec_encodeRequest p.1 p.2.1 f.1 f.2.1 f.2.2.1 f.2.2.2.1 f.2.2.2.2.1);
  mkRequestFormat 787968 true [] [param (struct_msg_codec raft_group_id_codec); param string_codec]
    (fun f p => SemaphoreAvailablePermitsCodec_encodeRequest p.1 p.2.1);
  mkRequestFormat 787712 true [F_long_arg; F_long_arg; F_uuid; F_int] [param (struct_msg_codec raft_group_id_codec); param string_codec]
    (fun f p => SemaphoreChangeCodec_encodeRequest p.1 p.2.1 f.1 f.2.1 f.2.2.1 f.2.2.2.1);
  mkRequestFormat 787456 true [F_long_arg; F_long_arg; F_uuid] [param (struct_msg_codec raft_group_id_codec); param string_codec]
    (fun f p => SemaphoreDrainCodec_encodeRequest p.1 p.2.1 f.1 f.2.1 f.2.2.1);
  mkRequestFormat 788224 true [] [param string_codec]
    (fun f p => SemaphoreGetSemaphoreTypeCodec_encodeRequest p.1);
  mkRequestFormat 786688 true [F_int] [param (struct_msg_codec raft_group_id_codec); param string_codec]
    (fun f p => SemaphoreInitCodec_encodeRequest p.1 p.2.1 f.1);
  mkRequestFormat 787200 true [F_long_arg; F_long_arg; F_uuid; F_int] [param (struct_msg_codec raft_group_id_codec); param string_codec]
    (fun f p => SemaphoreReleaseCodec_encodeRequest p.1 p.2.1 f.1 f.2.1 f.2.2.1 f.2.2.2.1);
  mkRequestFormat 2163456 false [] [param (struct_msg_codec sql_query_id_codec)]
    (fun f p => SqlCloseCodec_encodeRequest p.1);
  mkRequestFormat 2163712 false [F_long_arg; F_int; F_byte] [param string_codec; param (contains_nullable_codec data_codec); param (nullable_codec string_codec); param (struct_msg_codec sql_query_id_codec)]
    (fun f p => SqlExecuteCodec_encodeRequest p.1 p.2.1 f.1 f.2.1 p.2.2.1 f.2.2.1 p.2.2.2.1);
  mkRequestFormat 2163968 false [F_int] [param (struct_msg_codec sql_query_id_codec)]
    (fun f p => SqlFetchCodec_encodeRequest p.1 f.1)
].

Definition service_responses : list ReplyFormat := [
  mkReplyFormat [F_long] [] L
    (fun f p => f.1) AtomicLongAddAndGetCodec_decodeResponse;
  mkReplyFormat [F_long] [] L
    (fun f p => f.1) AtomicLongAlterCodec_decodeResponse;
  mkReplyFormat [] [reply (nullable_codec data_codec)] (option HeapData)
    (fun f p => p.1) AtomicLongApplyCodec_decodeResponse;
  mkReplyFormat [F_boolean] [] bool
    (fun f p => f.1) AtomicLongCompareAndSetCodec_decodeResponse;
  mkReplyFormat [F_long] [] L
    (fun f p => f.1) AtomicLongGetAndAddCodec_decodeResponse;
  mkReplyFormat [F_long] [] L
    (fun f p => f.1) AtomicLongGetAndSetCodec_decodeResponse;
  mkReplyFormat [F_long] [] L
    (fun f p => f.1) AtomicLongGetCodec_decodeResponse;
  mkReplyFormat [] [reply (nullable_codec data_codec)] (option HeapData)
    (fun f p => p.1) AtomicRefApplyCodec_decodeResponse;
  mkReplyFormat [F_boolean] [] bool
    (fun f p => f.1) AtomicRefCompareAndSetCodec_decodeResponse;
  mkReplyFormat [F_boolean] [] bool
    (fun f p => f.1) AtomicRefContainsCodec_decodeResponse;
  mkReplyFormat [] [reply (nullable_codec data_codec)] (option HeapData)
    (fun f p => p.1) AtomicRefGetCodec_decodeResponse;
  mkReplyFormat [] [reply (nullable_codec data_codec)] (option HeapData)
    (fun f p => p.1) AtomicRefSetCodec_decodeResponse;
  mkReplyFormat [] [reply (struct_msg_codec raft_group_id_codec)] (RaftGroupId L)
    (fun f p => p.1) CPGroupCreateCPGroupCodec_decodeResponse;
  mkReplyFormat [F_boolean] [] bool
    (fun f p => f.1) CPSessionCloseSessionCodec_decodeResponse;
  mkReplyFormat [F_long; F_long; F_long] [] (CPSessionCreateSessionResponseParams L)
    (fun f p => mkCPSessionCreateSessionResponseParams f.1 f.2.1 f.2.2.1) CPSessionCreateSessionCodec_decodeResponse;
  mkReplyFormat [F_long] [] L
    (fun f p => f.1) CPSessionGenerateThreadIdCodec_decodeResponse;
  mkReplyFormat [F_uuid] [] (option (UUID L))
    (fun f p => f.1) ClientAddDistributedObjectListenerCodec_decodeResponse;
  mkReplyFormat [F_uuid] [] (option (UUID L))
    (fun f p => f.1) ClientAddPartitionLostListenerCodec_decodeResponse;
  mkReplyFormat [F_byte; F_uuid; F_byte; F_int; F_uuid; F_boolean] [reply (nullable_codec (struct_msg_codec address_codec)); reply string_codec] (ClientAuthenticationResponseParams L)
    (fun f p => mkClientAuthenticationResponseParams f.1 p.1 f.2.1 f.2.2.1 p.2.1 f.2.2.2.1 f.2.2.2.2.1 f.2.2.2.2.2.1) ClientAuthenticationCodec_decodeResponse;
  mkReplyFormat [F_byte; F_uuid; F_byte; F_int; F_uuid; F_boolean] [reply (nullable_codec (struct_msg_codec address_codec)); reply string_codec] (ClientAuthenticationCustomResponseParams L)
    (fun f p => mkClientAuthenticationCustomResponseParams f.1 p.1 f.2.1 f.2.2.1 p.2.1 f.2.2.2.1 f.2.2.2.2.1 f.2.2.2.2.2.1) ClientAuthenticationCustomCodec_decodeResponse;
  mkReplyFormat [] [reply (list_codec (struct_msg_codec distributed_object_info_codec))] (list DistributedObjectInfo)
    (fun f p => p.1) ClientGetDistributedObjectsCodec_decodeResponse;
  mkReplyFormat [F_uuid] [] (option (UUID L))
    (fun f p => f.1) ClientLocalBackupListenerCodec_decodeResponse;
  mkReplyFormat [F_boolean] [] bool
    (fun f p => f.1) ClientRemoveDistributedObjectListenerCodec_decodeResponse;
  mkReplyFormat [F_boolean] [] bool
    (fun f p => f.1) ClientRemoveMigrationListenerCodec_decodeResponse;
  mkReplyFormat [F_boolean] [] bool
    (fun f p => f.1) ClientRemovePartitionLostListenerCodec_decodeResponse;
  mkReplyFormat [F_boolean] [] bool
    (fun f p => f.1) CountDownLatchAwaitCodec_decodeResponse;
  mkReplyFormat [F_int] [] Z
    (fun f p => f.1) CountDownLatchGetCountCodec_decodeResponse;
  mkReplyFormat [F_int] [] Z
    (fun f p => f.1) CountDownLatchGetRoundCodec_decodeResponse;
  mkReplyFormat [F_boolean] [] bool
    (fun f p => f.1) CountDownLatchTrySetCountCodec_decodeResponse;
  mkReplyFormat [F_long; F_int; F_long; F_long] [] (FencedLockGetLockOwnershipResponseParams L)
    (fun f p => mkFencedLockGetLockOwnershipResponseParams f.1 f.2.1 f.2.2.1 f.2.2.2.1) FencedLockGetLockOwnershipCodec_decodeResponse;
  mkReplyFormat [F_long] [] L
    (fun f p => f.1) FencedLockLockCodec_decodeResponse;
  mkReplyFormat [F_long] [] L
    (fun f p => f.1) FencedLockTryLockCodec_decodeResponse;
  mkReplyFormat [F_boolean] [] bool
    (fun f p => f.1) FencedLockUnlockCodec_decodeResponse;
  mkReplyFormat [F_long; F_long; F_int] [] (FlakeIdGeneratorNewIdBatchResponseParams L)
    (fun f p => mkFlakeIdGeneratorNewIdBatchResponseParams f.1 f.2.1 f.2.2.1) FlakeIdGeneratorNewIdBatchCodec_decodeResponse;
  mkReplyFormat [F_long; F_int] [reply entry_uuid_long_codec] (PNCounterAddResponseParams L)
    (fun f p => mkPNCounterAddResponseParams f.1 p.1 f.2.1) PNCounterAddCodec_decodeResponse;
  mkReplyFormat [F_long; F_int] [reply entry_uuid_long_codec] (PNCounterGetResponseParams L)
    (fun f p => mkPNCounterGetResponseParams f.1 p.1 f.2.1) PNCounterGetCodec_decodeResponse;
  mkReplyFormat [F_int] [] Z
    (fun f p => f.1) PNCounterGetConfiguredReplicaCountCodec_decodeResponse;
  mkReplyFormat [F_boolean] [] bool
    (fun f p => f.1) SemaphoreAcquireCodec_decodeResponse;
  mkReplyFormat [F_int] [] Z
    (fun f p => f.1) SemaphoreAvailablePermitsCodec_decodeResponse;
  mkReplyFormat [F_boolean] [] bool
    (fun f p => f.1) SemaphoreChangeCodec_decodeResponse;
  mkReplyFormat [F_int] [] Z
    (fun f p => f.1) SemaphoreDrainCodec_decodeResponse;
  mkReplyFormat [F_boolean] [] bool
    (fun f p => f.1) SemaphoreGetSemaphoreTypeCodec_decodeResponse;
  mkReplyFormat [F_boolean] [] bool
    (fun f p => f.1) SemaphoreInitCodec_decodeResponse;
  mkReplyFormat [F_boolean] [] bool
    (fun f p => f.1) SemaphoreReleaseCodec_decodeResponse;
  mkReplyFormat [F_long] [reply (nullable_codec (list_codec (struct_msg_codec sql_column_metadata_codec))); reply_nullable_page; reply (nullable_codec (struct_msg_codec sql_error_codec))] (SqlExecuteResponseParams L)
    (fun f p => mkSqlExecuteResponseParams p.1 p.2.1 f.1 p.2.2.1) SqlExecuteCodec_decodeResponse;
  mkReplyFormat [] [reply_nullable_page; reply (nullable_codec (struct_msg_codec sql_error_codec))] (SqlFetchResponseParams L)
    (fun f p => mkSqlFetchResponseParams p.1 p.2.1) SqlFetchCodec_decodeResponse
].

Definition service_events : list EventFormat := [
  mkEventFormat 770 [F_int] [reply (list_codec (struct_msg_codec member_info_codec))] (Z * (list (MemberInfo L)))
    (fun f p => (f.1, p.1)) (ClientAddClusterViewListenerCodec_handle (Some (fun version memberInfos => (version, memberInfos))) None);
  mkEventFormat 771 [F_int] [reply_uuid_integers] (Z * (list (option (UUID L) * option (list Z))))
    (fun f p => (f.1, p.1)) (ClientAddClusterViewListenerCodec_handle None (Some (fun version partitions => (version, partitions))));
  mkEventFormat 2306 [F_uuid] [reply string_codec; reply string_codec; reply string_codec] (string * string * string * (option (UUID L)))
    (fun f p => (p.1, p.2.1, p.2.2.1, f.1)) (ClientAddDistributedObjectListenerCodec_handle (Some (fun name serviceName eventType source => (name, serviceName, eventType, source))));
  mkEventFormat 1538 [F_int; F_int; F_uuid] [] (Z * Z * (option (UUID L)))
    (fun f p => (f.1, f.2.1, f.2.2.1)) (ClientAddPartitionLostListenerCodec_handle (Some (fun partitionId lostBackupCount source => (partitionId, lostBackupCount, source))));
  mkEventFormat 3842 [F_long] [] (L)
    (fun f p => (f.1)) (ClientLocalBackupListenerCodec_handle (Some (fun sourceInvocationCorrelationId => (sourceInvocationCorrelationId))))
].

Lemma service_requests_conform : Forall request_conforms service_requests.
Proof. format_agrees service_requests. Qed.

Lemma service_responses_conform : Forall response_conforms service_responses.
Proof. format_agrees service_responses. Qed.

Lemma service_events_conform : Forall event_conforms service_events.
Proof. format_agrees service_events. Qed.
End Formats.
