(* ===== verification/Requests.v ===== *)
(** * All requests, responses and events

    The 239 codecs of [src/src/codec/] together: what they promise to the rest of the client and to the members. *)

From S2P Require Export MapRequests CollectionRequests ServiceRequests.
From S2P Require Import MessageReader Transport.

Section Requests.
Context `{Uninit} {L : Type} `{LongLaws L}.

Definition all_requests : list RequestFormat := map_requests ++ collection_requests ++ service_requests.
Definition all_responses : list ReplyFormat := map_responses ++ collection_responses ++ service_responses.
Definition all_events : list EventFormat := map_events ++ collection_events ++ service_events.

Lemma all_requests_conform : Forall request_conforms all_requests.
Proof. repeat apply Forall_app_2; [apply map_requests_conform | apply collection_requests_conform | apply service_requests_conform]. Qed.
Lemma all_responses_conform : Forall response_conforms all_responses.
Proof. repeat apply Forall_app_2; [apply map_responses_conform | apply collection_responses_conform | apply service_responses_conform]. Qed.
Lemma all_events_conform : Forall event_conforms all_events.
Proof. repeat apply Forall_app_2; [apply map_events_conform | apply collection_events_conform | apply service_events_conform]. Qed.

(** What a member reads: its reader is the one of the protocol, and the request is decoded by its format. *)
Definition member_receives (c : RequestFormat) (bs : list buffer)
    : res (list (res ((fvals (rf_fields c) * pargs (rf_params c)) * frames))) :=
  '(received, _) ← on_data_all newReader bs;
  Ok (map (decode_request (rf_fields c) (rf_params c)) received).

Lemma received_request c f p m bs : request_ok c f p m -> message_ok (rq_frames m) -> concat bs = wire (rq_frames m) ->
  member_receives c bs = Ok [Ok ((fview _ f, p), [])].
Proof.
  intros (i & fs & Em & _ & _ & _ & _ & _ & D) Hok Hbs.
  destruct (reader_ok [rq_frames m] bs) as (r' & Er & _); [by constructor | by cbn; rewrite app_nil_r|].
  unfold member_receives. rewrite Er, res_bind_ok. cbn [map]. do 2 f_equal.
  assert (Forall frame_ok (rq_frames m)) as Hf by (destruct Hok as [_ Hok]; eapply Forall_impl; [exact Hok|]; by intros x []).
  pose proof (similar_finalize _ Hf) as Hs. rewrite Em in Hs. apply Forall2_cons_inv_l in Hs as (g & gs & Hg & Hgs & Eg).
  rewrite Em, Eg. rewrite <- (app_nil_r gs). by apply D.
Qed.
End Requests.

(** ** Properties *)

(** C4: every request codec is correct: with any valid arguments [encodeRequest] does not throw, and makes a message with
    the type of the request, no partition yet, the retryable flag of the protocol, and an initial frame of exactly the
    size of its fixed-size parameters; the bytes of the message, cut in any way, are received as one message, in which
    every argument is found where the protocol has it. No two requests have the same type. *)
Theorem requests_correct `{Uninit} {L} `{LongLaws L} (c : RequestFormat) (f : fargs (rf_fields c)) (p : pargs (rf_params c)) :
  c ∈ all_requests (L := L) -> fvalid _ f -> pvalid _ p ->
  (exists m, rf_encode c f p = Ok m /\ request_ok c f p m /\
     forall bs, message_ok (rq_frames m) -> concat bs = wire (rq_frames m) ->
       member_receives c bs = Ok [Ok ((fview _ f, p), [])]) /\
  NoDup (map rf_type (all_requests (L := L))).
Proof.
  intros Hc Hf Hp. split.
  - pose proof (proj1 (Forall_forall _ _) all_requests_conform c Hc) as Hconf.
    destruct (encode_request_ok c f p Hconf Hf Hp) as (m & E & Hm). exists m. split_and!; [done | done |].
    intros bs. by apply received_request.
  - assert (map rf_type (all_requests (L := L)) = map rf_type (all_requests (H := fun _ => Byte.x00) (L := Int64.t))) as -> by done.
    apply (bool_decide_eq_true_1 _). vm_compute. reflexivity.
Qed.

(** C16: every response and every event is decoded: if the fields of the initial frame are where the protocol has them and
    the parameters follow in order, [decodeResponse] returns their values and [handle] calls its handler with them,
    whatever bytes a newer member adds to the initial frame and whatever frames it adds behind the parameters. A handler is
    called for its own type of event only. *)
Theorem replies_decoded `{Uninit} {L} `{LongLaws L} :
  Forall (fun c => forall f p content fl fs fs' rest,
    fields_at (pf_fields c) RESPONSE_FIELDS_OFFSET content f -> replies_at (pf_params c) p fs -> Forall2 similar fs fs' ->
    pf_decode c (mkFrame content fl :: fs' ++ rest) = Ok (pf_build c f p, rest)) (all_responses (L := L)) /\
  Forall (fun c => forall content fl t fs' rest, readInt32LE content MESSAGE_TYPE_OFFSET = Ok t ->
    (t <> ef_type c -> ef_handle c (mkFrame content fl :: rest) = Ok (None, mkFrame content fl :: rest)) /\
    forall f p fs, t = ef_type c -> fields_at (ef_fields c) FIELDS_OFFSET content f -> replies_at (ef_params c) p fs ->
      Forall2 similar fs fs' -> ef_handle c (mkFrame content fl :: fs' ++ rest) = Ok (Some (ef_build c f p), rest))
    (all_events (L := L)).
Proof.
  split.
  - eapply Forall_impl; [exact all_responses_conform|]. intros c Hc f p content fl fs fs' rest Hf Hp Hs.
    rewrite Hc. by eapply decode_reply_ok.
  - eapply Forall_impl; [exact all_events_conform|]. intros c Hc content fl t fs' rest Ht. split.
    + intros Hne. by eapply handle_other_event.
    + intros f p fs -> Hf Hp Hs. by eapply handle_event_ok.
Qed.

(** ** Witnesses *)

#[local] Instance demo_uninit : Uninit := fun _ => Byte.xee.
Definition demo_put : RequestFormat :=
  mkRequestFormat 65792 false [F_long_arg; F_long_arg (L := Int64.t)] [param string_codec; param data_codec; param data_codec]
    (fun f p => MapPutCodec_encodeRequest p.1 p.2.1 p.2.2.1 f.1 f.2.1).
Definition demo_data : HeapData := mkHeapData (Some (replicate 8 Byte.x00 ++ [Byte.x41])).

Lemma requests_correct_witness : exists m,
  MapPutCodec_encodeRequest (L := Int64.t) "m" demo_data demo_data (IsNumber 0) (IsNumber (-1)) = Ok m /\
  length (rq_frames m) = 4%nat /\
  member_receives demo_put [take 9 (wire (rq_frames m)); drop 9 (wire (rq_frames m))] =
    Ok [Ok (((0, (-1, tt)), ("m", (demo_data, (demo_data, tt)))), [])].
Proof.
  destruct (requests_correct (L := Int64.t) demo_put (IsNumber 0, (IsNumber (-1), tt)) ("m", (demo_data, (demo_data, tt))))
    as [(m & E & Hm & R) _].
  - apply list_elem_of_lookup. exists 45%nat. reflexivity.
  - cbn. unfold in_sint. lia.
  - split; [exact I|]. split; [|split; [|exact I]]; (eexists; split; [reflexivity | right; vm_compute; congruence]).
  - exists m. split; [exact E|]. vm_compute in E. injection E as <-. split; [reflexivity|]. apply R.
    + split; [discriminate|]. repeat constructor; vm_compute; congruence.
    + cbn [concat]. rewrite app_nil_r. apply take_drop.
Defined.

Lemma replies_decoded_witness :
  MapGetCodec_decodeResponse [mkFrame (replicate 20 Byte.x01) 0; newFrame (replicate 9 Byte.x00); NULL_FRAME] =
    Ok (Some (mkHeapData (Some (replicate 9 Byte.x00))), [NULL_FRAME]).
Proof.
  destruct (replies_decoded (L := Int64.t)) as [R _].
  pose proof (Forall_lookup_1 _ _ 26 (mkReplyFormat [] [reply (nullable_codec data_codec)] (option HeapData)
    (fun f p => p.1) MapGetCodec_decodeResponse) R eq_refl) as D.
  apply (D tt (Some (mkHeapData (Some (replicate 9 Byte.x00))), tt) (replicate 20 Byte.x01) 0 [newFrame (replicate 9 Byte.x00)]
    [newFrame (replicate 9 Byte.x00)] [NULL_FRAME]).
  - exact I.
  - eexists _, _. split; [symmetry; apply app_nil_r|]. split; [|reflexivity]. split; [|reflexivity].
    eexists. split; [reflexivity | right; vm_compute; congruence].
  - apply similar_refl_list.
Defined.
