(* ===== verification/ProxyCore.v ===== *)
(** * Proxies and the members they call

    [BaseProxy] of [src/src/proxy/BaseProxy.ts]: a method of a proxy encodes a request, has it invoked on the owner of a
    partition, on a member or on any member, and continues with the reply. A method is a program, [Proxy]: it is
    settled, or it waits for one reply, or for the replies of several requests ([Promise.all]).

    A member is a state and the services it offers, each with the format of its request ([RequestCore]) and its effect on
    the state. [runs] runs a program against a member: the member decodes what it is sent as the protocol says,
    and answers with any reply the protocol allows. [wp] is the weakest precondition of a program, by which the theorems
    about proxies are proved. *)

From S2P Require Export Prelude RequestCore RequestTypes PartitionService.

(** ** Programs *)

(** Where [InvocationService] sends an invocation. *)
Inductive target {L : Type} := OnPartition (partitionId : Z) | OnTarget (uuid : UUID L) | OnRandomTarget.
Arguments target L : clear implicits.

(** [Done] is a settled promise, or a method that has thrown; a call has its own timeout if the method gives one. *)
Inductive Proxy {L : Type} (A : Type) :=
  | Done (r : res A)
  | Call (t : target L) (timeoutMillis : option Z) (m : Request) (k : frames -> Proxy A)
  | CallAll (calls : list (target L * Request)) (k : list frames -> Proxy A).
Arguments Proxy L A : clear implicits.
Arguments Done {L A} r.
Arguments Call {L A} t timeoutMillis m k.
Arguments CallAll {L A} calls k.

(** [then]. *)
Fixpoint proxy_bind {L A B} (f : A -> Proxy L B) (m : Proxy L A) : Proxy L B :=
  match m with
  | Done (Ok a) => f a
  | Done (Err e) => Done (Err e)
  | Call t timeout m k => Call t timeout m (fun reply => proxy_bind f (k reply))
  | CallAll calls k => CallAll calls (fun replies => proxy_bind f (k replies))
  end.
#[global] Instance Proxy_ret {L} : MRet (Proxy L) := fun A a => Done (Ok a).
#[global] Instance Proxy_bind {L} : MBind (Proxy L) := fun A B f m => proxy_bind f m.

(** Code that may throw, and the decoder of a response. *)
Definition try_ {L A} (r : res A) : Proxy L A := Done r.
Definition decodeResponse {L A} (dec : Dec A) (reply : frames) : Proxy L A := Done ('(a, _) ← dec reply; Ok a).

Lemma try_ok {L A B} (a : A) (f : A -> Proxy L B) : try_ (Ok a) ≫= f = f a.
Proof. done. Qed.

(** ** BaseProxy *)

Section BaseProxy.
Context {L : Type} (partitionService : PartitionServiceImpl L).

(** The proxy passes serialized keys. *)
Definition partition_of (key : HeapData) : res Z := getPartitionId (fun _ => mkHeapData None) partitionService (inl key).

Definition encodeInvokeOnPartition (request : res Request) (partitionId : Z) : Proxy L frames :=
  m ← try_ request; Call (OnPartition partitionId) None m (fun reply => Done (Ok reply)).
Definition encodeInvokeOnPartitionWithTimeout (timeoutMillis : Z) (request : res Request) (partitionId : Z) : Proxy L frames :=
  m ← try_ request; Call (OnPartition partitionId) (Some timeoutMillis) m (fun reply => Done (Ok reply)).
Definition encodeInvokeOnKey (request : res Request) (partitionKey : HeapData) : Proxy L frames :=
  partitionId ← try_ (partition_of partitionKey); encodeInvokeOnPartition request partitionId.
Definition encodeInvokeOnKeyWithTimeout (timeoutMillis : Z) (request : res Request) (partitionKey : HeapData) : Proxy L frames :=
  partitionId ← try_ (partition_of partitionKey); encodeInvokeOnPartitionWithTimeout timeoutMillis request partitionId.
Definition encodeInvokeOnRandomTarget (request : res Request) : Proxy L frames :=
  m ← try_ request; Call OnRandomTarget None m (fun reply => Done (Ok reply)).
Definition encodeInvokeOnTarget (request : res Request) (uuid : UUID L) : Proxy L frames :=
  m ← try_ request; Call (OnTarget uuid) None m (fun reply => Done (Ok reply)).

(** [Promise.all] of requests to partitions: they are encoded and sent one after the other. *)
Fixpoint encode_all (requests : list (Z * res Request)) : res (list (target L * Request)) :=
  match requests with
  | [] => Ok []
  | (p, r) :: requests => m ← r; l ← encode_all requests; Ok ((OnPartition p, m) :: l)
  end.
Definition invokeOnPartitions (requests : list (Z * res Request)) : Proxy L (list frames) :=
  calls ← try_ (encode_all requests); CallAll calls (fun replies => Done (Ok replies)).
End BaseProxy.

(** ** Members *)

(** What a member answers: the fixed-size and the other parameters of its response. *)
Record answer := mkAnswer {
  an_fields : list FixedType;
  an_params : list ReplyType;
  an_fvals : fvals an_fields;
  an_rvals : rvals an_params
}.

Definition no_answer : answer := mkAnswer [] [] tt tt.
Definition answer_field (t : FixedType) (v : ft_val t) : answer := mkAnswer [t] [] (v, tt) tt.
Definition answer_param (t : ReplyType) (v : rp_val t) : answer := mkAnswer [] [t] tt (v, tt).

(** The replies that mean an answer, with what a newer member may add. *)
Definition reply_of (a : answer) (reply : frames) : Prop :=
  exists c fl fs fs' rest, reply = mkFrame c fl :: fs' ++ rest /\
    fields_at (an_fields a) RESPONSE_FIELDS_OFFSET c (an_fvals a) /\ replies_at (an_params a) (an_rvals a) fs /\
    Forall2 similar fs fs'.

Section Members.
Context `{Uninit} {L : Type} {S : Type}.

Record Service := mkService {
  sv_format : RequestFormat;
  sv_effect : fvals (rf_fields sv_format) -> pargs (rf_params sv_format) -> target L -> S -> answer -> S -> Prop
}.

Context (services : list Service).

(** The member finds the service by the message type and decodes the request. *)
Inductive serves (s : S) (t : target L) (m : frames) (a : answer) (s' : S) : Prop :=
  | serves_by sv i fs f p rest :
      sv ∈ services -> m = i :: fs -> readInt32LE (content i) MESSAGE_TYPE_OFFSET = Ok (rf_type (sv_format sv)) ->
      decode_request (rf_fields (sv_format sv)) (rf_params (sv_format sv)) m = Ok ((f, p), rest) ->
      sv_effect sv f p t s a s' -> serves s t m a s'.

(** Several requests, served in any order. *)
Inductive all_served : list (target L * Request) -> S -> list frames -> S -> Prop :=
  | all_done s : all_served [] s [] s
  | all_next l1 t m l2 s a s1 reply rs1 rs2 s' :
      serves s t (rq_frames m) a s1 -> reply_of a reply -> length rs1 = length l1 ->
      all_served (l1 ++ l2) s1 (rs1 ++ rs2) s' -> all_served (l1 ++ (t, m) :: l2) s (rs1 ++ reply :: rs2) s'.

(** A run of a program in which every request is answered. *)
Inductive runs {A} : Proxy L A -> S -> res A -> S -> Prop :=
  | run_done r s : runs (Done r) s r s
  | run_call t timeout m k s a s1 reply r s2 :
      serves s t (rq_frames m) a s1 -> reply_of a reply -> runs (k reply) s1 r s2 -> runs (Call t timeout m k) s r s2
  | run_all calls k s replies s1 r s2 :
      all_served calls s replies s1 -> runs (k replies) s1 r s2 -> runs (CallAll calls k) s r s2.

(** ** The program logic *)

Fixpoint wp {A} (m : Proxy L A) (Q : res A -> S -> Prop) (s : S) : Prop :=
  match m with
  | Done r => Q r s
  | Call t _ m k =>
      (exists a s1 reply, serves s t (rq_frames m) a s1 /\ reply_of a reply) /\
      forall a s1 reply, serves s t (rq_frames m) a s1 -> reply_of a reply -> wp (k reply) Q s1
  | CallAll calls k =>
      (exists replies s1, all_served calls s replies s1) /\
      forall replies s1, all_served calls s replies s1 -> wp (k replies) Q s1
  end.

(** A program with a weakest precondition runs to its end, and every run ends as it says. *)
Lemma wp_sound {A} (m : Proxy L A) Q s : wp m Q s ->
  (exists r s', runs m s r s') /\ forall r s', runs m s r s' -> Q r s'.
Proof.
  revert s. induction m as [r|t timeout m k IH|calls k IH]; intros s; cbn.
  - intros HQ. split; [eexists _, _; constructor|]. intros r' s' Hr. by inversion Hr; subst.
  - intros [(a & s1 & reply & Hs & Hr) Hk]. split.
    + destruct (IH reply s1 (Hk a s1 reply Hs Hr)) as [(r & s' & Hrun) _]. eexists _, _. by eapply run_call.
    + intros r s' Hrun. inversion Hrun; subst. eapply IH; [|eassumption]. by eapply Hk.
  - intros [(replies & s1 & Hs) Hk]. split.
    + destruct (IH replies s1 (Hk replies s1 Hs)) as [(r & s' & Hrun) _]. eexists _, _. by eapply run_all.
    + intros r s' Hrun. inversion Hrun; subst. eapply IH; [|eassumption]. by eapply Hk.
Qed.

Lemma wp_mono {A} (m : Proxy L A) (Q Q' : res A -> S -> Prop) s : (forall r s, Q r s -> Q' r s) -> wp m Q s -> wp m Q' s.
Proof.
  intros HQ. revert s. induction m as [r|t timeout m k IH|calls k IH]; intros s; cbn; [auto | |].
  - intros [He Hk]. split; [done|]. eauto.
  - intros [He Hk]. split; [done|]. eauto.
Qed.

Lemma wp_bind {A B} (m : Proxy L A) (f : A -> Proxy L B) (Q : res B -> S -> Prop) s :
  wp m (fun r s1 => match r with Ok a => wp (f a) Q s1 | Err e => Q (Err e) s1 end) s -> wp (m ≫= f) Q s.
Proof.
  revert s. induction m as [[a|e]|t timeout m k IH|calls k IH]; intros s; cbn; [done | done | |].
  - intros [He Hk]. split; [done|]. intros a s1 reply Hs Hr. apply IH. by eapply Hk.
  - intros [He Hk]. split; [done|]. intros replies s1 Hs. apply IH. by apply Hk.
Qed.

(** ** Calls *)

Context (services_distinct : NoDup (map (fun sv => rf_type (sv_format sv)) services)).

Lemma service_unique sv sv' : sv ∈ services -> sv' ∈ services ->
  rf_type (sv_format sv) = rf_type (sv_format sv') -> sv = sv'.
Proof.
  clear -services_distinct. induction services as [|x l IH]; intros H1 H2 E; [by apply not_elem_of_nil in H1|].
  cbn in services_distinct. apply NoDup_cons in services_distinct as [Hx Hl].
  apply elem_of_cons in H1 as [->|H1]; apply elem_of_cons in H2 as [->|H2]; auto.
  - destruct Hx. rewrite E. by apply (list_elem_of_fmap_2 (fun sv => rf_type (sv_format sv))).
  - destruct Hx. rewrite <- E. by apply (list_elem_of_fmap_2 (fun sv => rf_type (sv_format sv))).
Qed.

(** A request of a service has the effect of the service, with the arguments the proxy gave. *)
Lemma serves_iff sv f p m s t a s' : sv ∈ services -> request_ok (sv_format sv) f p m ->
  serves s t (rq_frames m) a s' <-> sv_effect sv (fview _ f) p t s a s'.
Proof.
  intros Hsv (i & fs & Em & _ & _ & _ & Ht & _ & Hd). rewrite Em.
  assert (decode_request (rf_fields (sv_format sv)) (rf_params (sv_format sv)) (i :: fs) = Ok ((fview _ f, p), [])) as Hdec.
  { rewrite <- (app_nil_r fs). apply Hd; [done | apply similar_refl_list]. }
  split.
  - intros [sv' i' fs' f' p' rest Hsv' [= <- <-] Ht' Hd' He].
    assert (sv' = sv) as -> by (apply service_unique; [done | done | congruence]). congruence.
  - intros He. by eapply serves_by.
Qed.

(** An answer some reply has: its fixed-size values are those of some arguments, and its other parameters have frames. *)
Definition answerable (a : answer) : Prop :=
  (exists f, fvalid (an_fields a) f /\ fview _ f = an_fvals a) /\ exists fs, replies_at (an_params a) (an_rvals a) fs.

Lemma answerable_reply a : answerable a -> exists reply, reply_of a reply.
Proof.
  intros [(f & Hf & Ef) (fs & Hfs)].
  set (c0 := replicate (Z.to_nat (RESPONSE_FIELDS_OFFSET + fsize (an_fields a))) Byte.x00 : buffer).
  pose proof (fsize_nonneg (an_fields a)) as Hs.
  destruct (write_fields_ok (an_fields a) RESPONSE_FIELDS_OFFSET (mkFrame c0 0) f Hf) as (c & _ & _ & Hc & _).
  - done.
  - cbn [content]. unfold c0. rewrite length_replicate. change RESPONSE_FIELDS_OFFSET with 13. lia.
  - rewrite Ef in Hc. exists (mkFrame c 0 :: fs ++ []), c, 0, fs, fs, []. split_and!; [done | done | done | apply similar_refl_list].
Qed.

Lemma wp_call {A} sv f p m t timeout (k : frames -> Proxy L A) Q s :
  sv ∈ services -> request_ok (sv_format sv) f p m ->
  (exists a s1, sv_effect sv (fview _ f) p t s a s1 /\ answerable a) ->
  (forall a s1 reply, sv_effect sv (fview _ f) p t s a s1 -> reply_of a reply -> wp (k reply) Q s1) ->
  wp (Call t timeout m k) Q s.
Proof.
  intros Hsv Hm (a & s1 & He & Ha) Hk. cbn. split.
  - destruct (answerable_reply a Ha) as [reply Hr]. exists a, s1, reply. split; [|done]. by apply (serves_iff sv f p).
  - intros a' s2 reply Hs. apply (serves_iff sv f p) in Hs; [|done|done]. by apply Hk.
Qed.

(** A request to any member. *)
Lemma wp_random {A} sv f p req (g : frames -> Proxy L A) Q s :
  Forall (fun sv => request_conforms (sv_format sv)) services -> sv ∈ services ->
  rf_encode (sv_format sv) f p = req -> fvalid _ f -> pvalid _ p ->
  (exists a s1, sv_effect sv (fview _ f) p OnRandomTarget s a s1 /\ answerable a) ->
  (forall a s1 reply, sv_effect sv (fview _ f) p OnRandomTarget s a s1 -> reply_of a reply -> wp (g reply) Q s1) ->
  wp (encodeInvokeOnRandomTarget req ≫= g) Q s.
Proof.
  intros Hall Hsv <- Hf Hp Hex Hg. rewrite Forall_forall in Hall.
  destruct (encode_request_ok (sv_format sv) f p (Hall sv Hsv) Hf Hp) as (m & E & Hm). unfold encodeInvokeOnRandomTarget.
  rewrite E. cbn [try_ mbind Proxy_bind proxy_bind]. by apply (wp_call sv f p m).
Qed.

(** Requests to partitions can be served one after the other while a property of the state lasts. *)
Lemma all_served_exists (I : S -> Prop) calls : forall s, I s ->
  (forall s t m, I s -> (t, m) ∈ calls -> exists a s1, serves s t (rq_frames m) a s1 /\ answerable a /\ I s1) ->
  exists replies s', all_served calls s replies s'.
Proof.
  induction calls as [|[t m] calls IH]; intros s Hs Hc; [by exists [], s; constructor|].
  destruct (Hc s t m Hs) as (a & s1 & Ha & Han & Hs1); [by left|]. destruct (answerable_reply a Han) as [reply Hr].
  destruct (IH s1 Hs1) as (replies & s' & Hall); [intros s2 t' m' H2 Hin; apply Hc; [done | by right]|].
  exists (reply :: replies), s'. by apply (all_next [] t m calls s a s1 reply [] replies).
Qed.

(** The requests of a service to several partitions. *)
Lemma encode_all_ok {A} (c : RequestFormat) (F : Z * A -> fargs (rf_fields c)) (P : Z * A -> pargs (rf_params c)) G :
  request_conforms c -> Forall (fun g => fvalid _ (F g) /\ pvalid _ (P g)) G ->
  exists calls, encode_all (L := L) (map (fun g => (g.1, rf_encode c (F g) (P g))) G) = Ok calls /\
    Forall2 (fun g call => call.1 = OnPartition g.1 /\ request_ok c (F g) (P g) call.2) G calls.
Proof.
  intros Hc HG. induction HG as [|g G [Hf Hp] _ (calls & E & Hcalls)]; [by exists []|].
  destruct (encode_request_ok c (F g) (P g) Hc Hf Hp) as (m & Em & Hm). exists ((OnPartition g.1, m) :: calls).
  cbn. rewrite Em. cbn. rewrite E. split; [done|]. by constructor.
Qed.
End Members.
Arguments Service : clear implicits.

(** The response of a codec that conforms to its format. *)
Lemma decode_answer (c : ReplyFormat) (f : fvals (pf_fields c)) (p : rvals (pf_params c)) reply : response_conforms c ->
  reply_of (mkAnswer (pf_fields c) (pf_params c) f p) reply -> exists rest, pf_decode c reply = Ok (pf_build c f p, rest).
Proof.
  intros Hc (content & fl & fs & fs' & rest & -> & Hf & Hp & Hs). cbn in *. exists rest. rewrite Hc.
  by eapply decode_reply_ok.
Qed.

Lemma answerable_param {A} {nn valid} {enc : Enc A} {dec : Dec A} (C : MsgCodec nn valid enc dec) a :
  valid a -> answerable (answer_param (reply C) a).
Proof.
  intros Ha. split; [by exists tt|]. destruct (C a Ha) as [fs [E _ _ _]]. exists (fs ++ []), fs, []. cbn.
  split_and!; [done | done | | done]. apply (E []).
Qed.

Lemma answerable_field {A} {size valid wr rd} (F : FixedCodec (A := A) size valid wr rd) a :
  valid a -> answerable (answer_field (fixed F) a).
Proof. intros Ha. split; [exists (a, tt); cbn; by split | by exists []]. Qed.

Lemma answerable_none : answerable no_answer.
Proof. split; [by exists tt | by exists []]. Qed.

(** A codec whose response has one parameter, and what it decodes from a reply. *)
Definition decodes_param {A} (t : ReplyType) (dec : Dec A) (build : rp_val t -> A) : Prop :=
  response_conforms (mkReplyFormat [] [t] A (fun _ p => build p.1) dec).
Definition decodes_field {A} (t : FixedType) (dec : Dec A) (build : ft_val t -> A) : Prop :=
  response_conforms (mkReplyFormat [t] [] A (fun f _ => build f.1) dec).

Lemma decode_param {L A} t (dec : Dec A) build x reply : decodes_param t dec build ->
  reply_of (answer_param t x) reply -> decodeResponse (L := L) dec reply = Done (Ok (build x)).
Proof.
  intros Hc Hr. destruct (decode_answer (mkReplyFormat [] [t] A (fun _ p => build p.1) dec) tt (x, tt) reply Hc Hr) as [rest E].
  unfold decodeResponse. cbn in E. by rewrite E.
Qed.

Lemma decode_field {L A} t (dec : Dec A) build x reply : decodes_field t dec build ->
  reply_of (answer_field t x) reply -> decodeResponse (L := L) dec reply = Done (Ok (build x)).
Proof.
  intros Hc Hr. destruct (decode_answer (mkReplyFormat [t] [] A (fun f _ => build f.1) dec) (x, tt) tt reply Hc Hr) as [rest E].
  unfold decodeResponse. cbn in E. by rewrite E.
Qed.

(** ** Values and serialized values *)

(** What the proxies use of the serialization service. *)
Class ObjectSerialization (V : Type) := {
  toData : V -> res HeapData;
  toObject : option HeapData -> res V;
  isNull : V -> bool
}.

(** [assertNotNull] of [src/src/util/Util.ts]. *)
Definition assertNotNull {V} `{ObjectSerialization V} {L} (v : V) : Proxy L unit :=
  if isNull v then Done (Err AssertionError) else Done (Ok tt).

(** [serializeList] and [deserializeEntryList] of [src/src/serialization/SerializationUtil.ts], and [map(toObject)]. *)
Fixpoint serializeList {V} `{ObjectSerialization V} (input : list V) : res (list HeapData) :=
  match input with
  | [] => Ok []
  | v :: input => d ← toData v; l ← serializeList input; Ok (d :: l)
  end.
Fixpoint deserializeEntryList {V} `{ObjectSerialization V} (entrySet : list (HeapData * HeapData)) : res (list (V * V)) :=
  match entrySet with
  | [] => Ok []
  | (k, v) :: entrySet =>
      k ← toObject (Some k); v ← toObject (Some v); l ← deserializeEntryList entrySet; Ok ((k, v) :: l)
  end.
Fixpoint deserializeList {V} `{ObjectSerialization V} (l : list HeapData) : res (list V) :=
  match l with
  | [] => Ok []
  | d :: l => v ← toObject (Some d); l ← deserializeList l; Ok (v :: l)
  end.

(** *** Bytes, and answers made of them *)

Definition heap (b : buffer) : HeapData := mkHeapData (Some b).
Definition bytes (d : HeapData) : buffer := default [] (payload d).

(** The partition of a key. *)
Definition pid {L} (partitionService : PartitionServiceImpl L) (k : buffer) : Z :=
  match partition_of partitionService (heap k) with Ok p => p | Err _ => 0 end.

Lemma partition_pid {L} (partitionService : PartitionServiceImpl L) k : 0 < partitionCount partitionService ->
  partition_of partitionService (heap k) = Ok (pid partitionService k).
Proof.
  intros Hc. unfold pid. unfold partition_of.
  destruct (getPartitionId_bounds (fun _ => mkHeapData None) partitionService (heap k) k eq_refl ltac:(lia)) as [_ Hp].
  by destruct (Hp Hc) as (p & -> & _).
Qed.

Definition data_answer (o : option buffer) : answer := answer_param (reply (nullable_codec data_codec)) (heap <$> o).
Definition bool_answer (b : bool) : answer := answer_field F_boolean b.
Definition int_answer (z : Z) : answer := answer_field F_int z.
Definition list_answer (l : list buffer) : answer := answer_param (reply (list_codec data_codec)) (heap <$> l).
Definition entries_answer (l : list (buffer * buffer)) : answer :=
  answer_param (reply (entry_list_codec (CK := data_codec) (CV := data_codec))) (prod_map heap heap <$> l).

Definition valid_bytes (b : buffer) : Prop := 8 <= blen b.

Lemma data_valid_heap b : valid_bytes b -> data_valid (heap b).
Proof. intros Hb. exists b. split; [done | by right]. Qed.

Lemma answerable_data o : option_valid valid_bytes o -> answerable (data_answer o).
Proof.
  intros Ho. apply (answerable_param (nullable_codec data_codec)). destruct o; [|done].
  by apply data_valid_heap.
Qed.

Lemma answerable_bool b : answerable (bool_answer b).
Proof. by apply (answerable_field fixed_boolean). Qed.

Lemma answerable_list l : Forall valid_bytes l -> answerable (list_answer l).
Proof.
  intros Hl. apply (answerable_param (list_codec data_codec)). apply Forall_fmap. eapply Forall_impl; [exact Hl|].
  apply data_valid_heap.
Qed.

Lemma answerable_entries l : Forall (fun e => valid_bytes e.1 /\ valid_bytes e.2) l -> answerable (entries_answer l).
Proof.
  intros Hl. apply (answerable_param (entry_list_codec (CK := data_codec) (CV := data_codec))). apply Forall_fmap.
  eapply Forall_impl; [exact Hl|]. intros [k v] [Hk Hv]. split; by apply data_valid_heap.
Qed.

Lemma answerable_int z : in_sint 32 z -> answerable (int_answer z).
Proof. by apply (answerable_field fixed_int). Qed.

Section Arguments.
Context {V : Type} `{ObjectSerialization V}.

(** A value that is not null, and its bytes. *)
Definition serializes (x : V) (b : buffer) : Prop := isNull x = false /\ toData x = Ok (heap b) /\ valid_bytes b.

(** The value of an optional entry; [null] if there is none. *)
Definition obj (o : option buffer) : res V := toObject (heap <$> o).

(** The arguments of methods. *)
Definition arg_ok (x : V) : Prop := exists b, serializes x b.
Definition is_data (x : V) (b : buffer) : Prop := toData x = Ok (heap b).

Lemma is_data_inj x b b' : serializes x b -> is_data x b' -> b' = b.
Proof. intros (_ & E & _) E'. unfold is_data in E'. rewrite E in E'. by injection E'. Qed.

Lemma arg_list (xs : list V) : Forall arg_ok xs -> exists l, Forall2 serializes xs l.
Proof. induction 1 as [|x xs [b Hb] _ [l Hl]]; [by exists []|]. exists (b :: l). by constructor. Qed.
End Arguments.

(** ** Values for witnesses *)

(** Objects are booleans, [null] is none of them; a serialized boolean has a header of eight bytes. *)
Definition demo_bytes (b : bool) : buffer := replicate 8 Byte.x00 ++ [if b then Byte.x01 else Byte.x00].
Definition bool_serialization : ObjectSerialization bool := {|
  toData := fun b : bool => Ok (heap (demo_bytes b));
  toObject := fun o : option HeapData =>
    match o with Some d => Ok (bool_decide (bytes d !! 8%nat = Some Byte.x01)) | None => Ok false end;
  isNull := fun _ : bool => false
|}.
Definition demo_uninit : Uninit := fun _ => Byte.xee.

Section DemoValues.
#[local] Existing Instance bool_serialization.

Lemma demo_serializes (b : bool) : serializes b (demo_bytes b).
Proof. split_and!; [done | done | by destruct b]. Qed.
End DemoValues.
