(* ===== verification/MapProxy.v ===== *)
(** * The distributed map

    [MapProxy] of [src/src/proxy/MapProxy.ts], with the codecs of [MapRequests]: the operations of a map as programs that
    send requests ([ProxyCore]). The methods with predicates, the entry listeners and [getEntryView] are in [MapQueries].

    The members keep the entries of a map by partition, and a request that is sent to a partition reads and writes the
    entries of that partition only ([map_services]). So an entry that was written through the wrong partition is not found
    again: the theorems show that the operations are those of one map, however many partitions there are. *)

From Stdlib Require Import Sorted.
From S2P Require Export Prelude ProxyCore MapRequests.

Section MapProxy.
Context `{Uninit} {L : Type} `{LongLib L} {V : Type} `{ObjectSerialization V}.
Context (partitionService : PartitionServiceImpl L) (name : string).

#[local] Abbreviation P := (Proxy L).
#[local] Abbreviation N z := (IsNumber z : long_arg L).

(** [Number.MAX_SAFE_INTEGER]. *)
Definition MAX_SAFE_INTEGER : Z := 2 ^ 53 - 1.

Definition invokeOnKey (request : res Request) (key : HeapData) : P frames := encodeInvokeOnKey partitionService request key.

(** [.then(() => {})]. *)
Definition ignore_response (p : P frames) : P unit := _ ← p; mret tt.

(** ** The protected methods, which take serialized arguments *)

Definition executeOnKeyInternal (keyData proData : HeapData) : P V :=
  clientMessage ← invokeOnKey (MapExecuteOnKeyCodec_encodeRequest name proData keyData (N 1)) keyData;
  response ← decodeResponse MapExecuteOnKeyCodec_decodeResponse clientMessage;
  try_ (toObject response).

Definition containsKeyInternal (keyData : HeapData) : P bool :=
  clientMessage ← invokeOnKey (MapContainsKeyCodec_encodeRequest name keyData (N 0)) keyData;
  decodeResponse MapContainsKeyCodec_decodeResponse clientMessage.

Definition putInternal (keyData valueData : HeapData) (ttl maxIdle : option (long_arg L)) : P V :=
  let ttl := default (N (-1)) ttl in
  clientMessage ←
    match maxIdle with
    | Some maxIdle => invokeOnKey (MapPutWithMaxIdleCodec_encodeRequest name keyData valueData (N 0) ttl maxIdle) keyData
    | None => invokeOnKey (MapPutCodec_encodeRequest name keyData valueData (N 0) ttl) keyData
    end;
  response ← decodeResponse MapPutCodec_decodeResponse clientMessage;
  try_ (toObject response).

Definition getInternal (keyData : HeapData) : P V :=
  clientMessage ← invokeOnKey (MapGetCodec_encodeRequest name keyData (N 0)) keyData;
  response ← decodeResponse MapGetCodec_decodeResponse clientMessage;
  try_ (toObject response).

(** The result is the old value, or a boolean if a value is given. *)
Definition removeInternal (keyData : HeapData) (value : option V) : P (V + bool) :=
  match value with
  | None =>
      clientMessage ← invokeOnKey (MapRemoveCodec_encodeRequest name keyData (N 0)) keyData;
      response ← decodeResponse MapRemoveCodec_decodeResponse clientMessage;
      v ← try_ (toObject response);
      mret (inl v)
  | Some value =>
      valueData ← try_ (toData value);
      clientMessage ← invokeOnKey (MapRemoveIfSameCodec_encodeRequest name keyData valueData (N 0)) keyData;
      b ← decodeResponse MapRemoveIfSameCodec_decodeResponse clientMessage;
      mret (inr b)
  end.

Definition deleteInternal (keyData : HeapData) : P unit :=
  ignore_response (invokeOnKey (MapDeleteCodec_encodeRequest name keyData (N 0)) keyData).

Definition evictInternal (keyData : HeapData) : P bool :=
  clientMessage ← invokeOnKey (MapEvictCodec_encodeRequest name keyData (N 0)) keyData;
  decodeResponse MapEvictCodec_decodeResponse clientMessage.

Definition putIfAbsentInternal (keyData valueData : HeapData) (ttl maxIdle : option (long_arg L)) : P V :=
  let ttl := default (N (-1)) ttl in
  clientMessage ←
    match maxIdle with
    | Some maxIdle =>
        invokeOnKey (MapPutIfAbsentWithMaxIdleCodec_encodeRequest name keyData valueData (N 0) ttl maxIdle) keyData
    | None => invokeOnKey (MapPutIfAbsentCodec_encodeRequest name keyData valueData (N 0) ttl) keyData
    end;
  response ← decodeResponse MapPutIfAbsentCodec_decodeResponse clientMessage;
  try_ (toObject response).

Definition putTransientInternal (keyData valueData : HeapData) (ttl maxIdle : option (long_arg L)) : P unit :=
  let ttl := default (N (-1)) ttl in
  ignore_response
    match maxIdle with
    | Some maxIdle =>
        invokeOnKey (MapPutTransientWithMaxIdleCodec_encodeRequest name keyData valueData (N 0) ttl maxIdle) keyData
    | None => invokeOnKey (MapPutTransientCodec_encodeRequest name keyData valueData (N 0) ttl) keyData
    end.

Definition replaceInternal (keyData newValueData : HeapData) : P V :=
  clientMessage ← invokeOnKey (MapReplaceCodec_encodeRequest name keyData newValueData (N 0)) keyData;
  response ← decodeResponse MapReplaceCodec_decodeResponse clientMessage;
  try_ (toObject response).

Definition replaceIfSameInternal (keyData oldValueData newValueData : HeapData) : P bool :=
  clientMessage ← invokeOnKey (MapReplaceIfSameCodec_encodeRequest name keyData oldValueData newValueData (N 0)) keyData;
  decodeResponse MapReplaceIfSameCodec_decodeResponse clientMessage.

Definition setInternal (keyData valueData : HeapData) (ttl maxIdle : option (long_arg L)) : P unit :=
  let ttl := default (N (-1)) ttl in
  ignore_response
    match maxIdle with
    | Some maxIdle => invokeOnKey (MapSetWithMaxIdleCodec_encodeRequest name keyData valueData (N 0) ttl maxIdle) keyData
    | None => invokeOnKey (MapSetCodec_encodeRequest name keyData valueData (N 0) ttl) keyData
    end.

Definition tryPutInternal (keyData valueData : HeapData) (timeout : Z) : P bool :=
  clientMessage ← invokeOnKey (MapTryPutCodec_encodeRequest name keyData valueData (N 0) (N timeout)) keyData;
  decodeResponse MapTryPutCodec_decodeResponse clientMessage.

Definition tryRemoveInternal (keyData : HeapData) (timeout : Z) : P bool :=
  clientMessage ← invokeOnKey (MapTryRemoveCodec_encodeRequest name keyData (N 0) (N timeout)) keyData;
  decodeResponse MapTryRemoveCodec_decodeResponse clientMessage.

Definition setTtlInternal (keyData : HeapData) (ttl : Z) : P bool :=
  clientMessage ← invokeOnKey (MapSetTtlCodec_encodeRequest name keyData (N ttl)) keyData;
  decodeResponse MapSetTtlCodec_decodeResponse clientMessage.

(** *** Requests to several partitions *)

(** [partitionsToKeys[pId].push(x)]: the properties of an object that are integers are enumerated in ascending order. *)
Fixpoint push_to {A} (p : Z) (x : A) (groups : list (Z * list A)) : list (Z * list A) :=
  match groups with
  | [] => [(p, [x])]
  | (q, xs) :: groups =>
      if p =? q then (q, xs ++ [x]) :: groups
      else if p <? q then (p, [x]) :: (q, xs) :: groups
      else (q, xs) :: push_to p x groups
  end.

Fixpoint group_keys (keys : list V) (partitionsToKeys : list (Z * list HeapData)) : res (list (Z * list HeapData)) :=
  match keys with
  | [] => Ok partitionsToKeys
  | key :: keys =>
      keyData ← toData key;
      pId ← partition_of partitionService keyData;
      group_keys keys (push_to pId keyData partitionsToKeys)
  end.

Fixpoint decode_each {A} (dec : Dec A) (replies : list frames) : res (list A) :=
  match replies with
  | [] => Ok []
  | reply :: replies => '(a, _) ← dec reply; l ← decode_each dec replies; Ok (a :: l)
  end.

(** The entries as they came, and what is pushed to [result]. *)
Definition getAllInternal (partitionsToKeys : list (Z * list HeapData)) : P (list (HeapData * HeapData) * list (V * V)) :=
  replies ← invokeOnPartitions (map (fun g => (g.1, MapGetAllCodec_encodeRequest name g.2)) partitionsToKeys);
  serializedEntryArrayArray ← try_ (decode_each MapGetAllCodec_decodeResponse replies);
  let serializedEntryArray := concat serializedEntryArrayArray in
  result ← try_ (deserializeEntryList serializedEntryArray);
  mret (serializedEntryArray, result).

Fixpoint group_pairs (pairs : list (V * V)) (partitionsToKeys : list (Z * list (HeapData * HeapData)))
    : res (list (Z * list (HeapData * HeapData))) :=
  match pairs with
  | [] => Ok partitionsToKeys
  | (key, value) :: pairs =>
      keyData ← toData key;
      pId ← partition_of partitionService keyData;
      valueData ← toData value;
      group_pairs pairs (push_to pId (keyData, valueData) partitionsToKeys)
  end.

Definition putAllInternal (pairs : list (V * V)) (triggerMapLoader : bool) : P unit :=
  partitionsToKeys ← try_ (group_pairs pairs []);
  _ ← invokeOnPartitions (map (fun g => (g.1, MapPutAllCodec_encodeRequest name g.2 triggerMapLoader)) partitionsToKeys);
  mret tt.

(** ** The methods of [IMap] *)

Definition aggregate (aggregator : V) : P V :=
  _ ← assertNotNull aggregator;
  aggregatorData ← try_ (toData aggregator);
  clientMessage ← encodeInvokeOnRandomTarget (MapAggregateCodec_encodeRequest name aggregatorData);
  response ← decodeResponse MapAggregateCodec_decodeResponse clientMessage;
  try_ (toObject response).

Definition executeOnKeys (keys : list V) (entryProcessor : V) : P (list (V * V)) :=
  match keys with
  | [] => mret []
  | _ =>
      keysData ← try_ (serializeList keys);
      proData ← try_ (toData entryProcessor);
      clientMessage ← encodeInvokeOnRandomTarget (MapExecuteOnKeysCodec_encodeRequest name proData keysData);
      response ← decodeResponse MapExecuteOnKeysCodec_decodeResponse clientMessage;
      try_ (deserializeEntryList response)
  end.

Definition executeOnKey (key entryProcessor : V) : P V :=
  _ ← assertNotNull key; _ ← assertNotNull entryProcessor;
  keyData ← try_ (toData key); proData ← try_ (toData entryProcessor);
  executeOnKeyInternal keyData proData.

Definition executeOnEntries (entryProcessor : V) (predicate : option V) : P (list (V * V)) :=
  _ ← assertNotNull entryProcessor;
  proData ← try_ (toData entryProcessor);
  match predicate with
  | None =>
      clientMessage ← encodeInvokeOnRandomTarget (MapExecuteOnAllKeysCodec_encodeRequest name proData);
      response ← decodeResponse MapExecuteOnAllKeysCodec_decodeResponse clientMessage;
      try_ (deserializeEntryList response)
  | Some predicate =>
      predData ← try_ (toData predicate);
      clientMessage ← encodeInvokeOnRandomTarget (MapExecuteWithPredicateCodec_encodeRequest name proData predData);
      response ← decodeResponse MapExecuteWithPredicateCodec_decodeResponse clientMessage;
      try_ (deserializeEntryList response)
  end.

Definition containsKey (key : V) : P bool :=
  _ ← assertNotNull key; keyData ← try_ (toData key); containsKeyInternal keyData.

Definition containsValue (value : V) : P bool :=
  _ ← assertNotNull value;
  valueData ← try_ (toData value);
  clientMessage ← encodeInvokeOnRandomTarget (MapContainsValueCodec_encodeRequest name valueData);
  decodeResponse MapContainsValueCodec_decodeResponse clientMessage.

Definition put (key value : V) (ttl maxIdle : option (long_arg L)) : P V :=
  _ ← assertNotNull key; _ ← assertNotNull value;
  keyData ← try_ (toData key); valueData ← try_ (toData value);
  putInternal keyData valueData ttl maxIdle.

Definition putAll (pairs : list (V * V)) : P unit := putAllInternal pairs true.
Definition setAll (pairs : list (V * V)) : P unit := putAllInternal pairs false.

Definition get (key : V) : P V := _ ← assertNotNull key; keyData ← try_ (toData key); getInternal keyData.

Definition remove (key : V) (value : option V) : P (V + bool) :=
  _ ← assertNotNull key; keyData ← try_ (toData key); removeInternal keyData value.

Definition size : P Z :=
  clientMessage ← encodeInvokeOnRandomTarget (MapSizeCodec_encodeRequest name);
  decodeResponse MapSizeCodec_decodeResponse clientMessage.
Definition clear : P unit := ignore_response (encodeInvokeOnRandomTarget (MapClearCodec_encodeRequest name)).
Definition isEmpty : P bool :=
  clientMessage ← encodeInvokeOnRandomTarget (MapIsEmptyCodec_encodeRequest name);
  decodeResponse MapIsEmptyCodec_decodeResponse clientMessage.

Definition getAll (keys : list V) : P (list (V * V)) :=
  partitionsToKeys ← try_ (group_keys keys []);
  result ← getAllInternal partitionsToKeys;
  mret result.2.

Definition delete (key : V) : P unit := _ ← assertNotNull key; keyData ← try_ (toData key); deleteInternal keyData.

Definition entrySet : P (list (V * V)) :=
  clientMessage ← encodeInvokeOnRandomTarget (MapEntrySetCodec_encodeRequest name);
  response ← decodeResponse MapEntrySetCodec_decodeResponse clientMessage;
  try_ (deserializeEntryList response).

Definition evict (key : V) : P bool := _ ← assertNotNull key; keyData ← try_ (toData key); evictInternal keyData.
Definition evictAll : P unit := ignore_response (encodeInvokeOnRandomTarget (MapEvictAllCodec_encodeRequest name)).
Definition flush : P unit := ignore_response (encodeInvokeOnRandomTarget (MapFlushCodec_encodeRequest name)).

Definition lock (key : V) (leaseTime : Z) : P unit :=
  _ ← assertNotNull key; keyData ← try_ (toData key);
  ignore_response (encodeInvokeOnKeyWithTimeout partitionService MAX_SAFE_INTEGER
    (MapLockCodec_encodeRequest name keyData (N 0) (N leaseTime) (N 0)) keyData).
Definition isLocked (key : V) : P bool :=
  _ ← assertNotNull key; keyData ← try_ (toData key);
  clientMessage ← invokeOnKey (MapIsLockedCodec_encodeRequest name keyData) keyData;
  decodeResponse MapIsLockedCodec_decodeResponse clientMessage.
Definition unlock (key : V) : P unit :=
  _ ← assertNotNull key; keyData ← try_ (toData key);
  ignore_response (invokeOnKey (MapUnlockCodec_encodeRequest name keyData (N 0) (N 0)) keyData).
Definition forceUnlock (key : V) : P unit :=
  _ ← assertNotNull key; keyData ← try_ (toData key);
  ignore_response (invokeOnKey (MapForceUnlockCodec_encodeRequest name keyData (N 0)) keyData).
Definition tryLock (key : V) (timeout leaseTime : Z) : P bool :=
  _ ← assertNotNull key; keyData ← try_ (toData key);
  clientMessage ← encodeInvokeOnKeyWithTimeout partitionService MAX_SAFE_INTEGER
    (MapTryLockCodec_encodeRequest name keyData (N 0) (N leaseTime) (N timeout) (N 0)) keyData;
  decodeResponse MapTryLockCodec_decodeResponse clientMessage.

Definition keySet : P (list V) :=
  clientMessage ← encodeInvokeOnRandomTarget (MapKeySetCodec_encodeRequest name);
  response ← decodeResponse MapKeySetCodec_decodeResponse clientMessage;
  try_ (deserializeList response).

Definition loadAll (keys : option (list V)) (replaceExistingValues : bool) : P unit :=
  match keys with
  | None => ignore_response (encodeInvokeOnRandomTarget (MapLoadAllCodec_encodeRequest name replaceExistingValues))
  | Some keys =>
      keysData ← try_ (serializeList keys);
      ignore_response (encodeInvokeOnRandomTarget (MapLoadGivenKeysCodec_encodeRequest name keysData replaceExistingValues))
  end.

Definition putIfAbsent (key value : V) (ttl maxIdle : option (long_arg L)) : P V :=
  _ ← assertNotNull key; _ ← assertNotNull value;
  keyData ← try_ (toData key); valueData ← try_ (toData value);
  putIfAbsentInternal keyData valueData ttl maxIdle.
Definition putTransient (key value : V) (ttl maxIdle : option (long_arg L)) : P unit :=
  _ ← assertNotNull key; _ ← assertNotNull value;
  keyData ← try_ (toData key); valueData ← try_ (toData value);
  putTransientInternal keyData valueData ttl maxIdle.
Definition replace (key newValue : V) : P V :=
  _ ← assertNotNull key; _ ← assertNotNull newValue;
  keyData ← try_ (toData key); newValueData ← try_ (toData newValue);
  replaceInternal keyData newValueData.
Definition replaceIfSame (key oldValue newValue : V) : P bool :=
  _ ← assertNotNull key; _ ← assertNotNull oldValue; _ ← assertNotNull newValue;
  keyData ← try_ (toData key); newValueData ← try_ (toData newValue); oldValueData ← try_ (toData oldValue);
  replaceIfSameInternal keyData oldValueData newValueData.
Definition set (key value : V) (ttl maxIdle : option (long_arg L)) : P unit :=
  _ ← assertNotNull key; _ ← assertNotNull value;
  keyData ← try_ (toData key); valueData ← try_ (toData value);
  setInternal keyData valueData ttl maxIdle.

(** The [ReadOnlyLazyList] of the response; it deserializes a value when it is read. *)
Definition values : P (list HeapData) :=
  clientMessage ← encodeInvokeOnRandomTarget (MapValuesCodec_encodeRequest name);
  decodeResponse MapValuesCodec_decodeResponse clientMessage.

Definition tryPut (key value : V) (timeout : Z) : P bool :=
  _ ← assertNotNull key; _ ← assertNotNull value;
  keyData ← try_ (toData key); valueData ← try_ (toData value);
  tryPutInternal keyData valueData timeout.
Definition tryRemove (key : V) (timeout : Z) : P bool :=
  _ ← assertNotNull key; keyData ← try_ (toData key); tryRemoveInternal keyData timeout.
Definition setTtl (key : V) (ttl : Z) : P bool :=
  _ ← assertNotNull key; keyData ← try_ (toData key); setTtlInternal keyData ttl.
End MapProxy.

(** ** The members of a map *)

Section MapMembers.
Context `{Uninit} {L : Type} `{LongLaws L}.

(** The entries of each map: partition and key to value. *)
Definition Maps : Type := string -> gmap (Z * buffer) buffer.
Definition set_map (name : string) (m : gmap (Z * buffer) buffer) (s : Maps) : Maps :=
  fun n => if bool_decide (n = name) then m else s n.

(** The effect of a request for one key, on the entry of the partition it is sent to: the value before, the answer, the
    value after. *)
Definition on_key (effect : option buffer -> answer -> option buffer -> Prop) (name : string) (key : HeapData)
    (t : target L) (s : Maps) (a : answer) (s' : Maps) : Prop :=
  match t with
  | OnPartition p => exists new, effect (s name !! (p, bytes key)) a new /\
      s' = set_map name (partial_alter (fun _ => new) (p, bytes key) (s name)) s
  | _ => False
  end.

(** The effect of a request for a whole map, which the member that gets it has executed on all partitions. *)
Definition on_map (effect : gmap (Z * buffer) buffer -> answer -> gmap (Z * buffer) buffer -> Prop) (name : string)
    (t : target L) (s : Maps) (a : answer) (s' : Maps) : Prop :=
  match t with
  | OnRandomTarget => exists m, effect (s name) a m /\ s' = set_map name m s
  | _ => False
  end.

(** The effect of a request for keys of one partition. *)
Definition on_partition (effect : Z -> gmap (Z * buffer) buffer -> answer -> gmap (Z * buffer) buffer -> Prop) (name : string)
    (t : target L) (s : Maps) (a : answer) (s' : Maps) : Prop :=
  match t with
  | OnPartition p => exists m, effect p (s name) a m /\ s' = set_map name m s
  | _ => False
  end.

(** What a request does to an entry: the value before, what is answered, the value after. *)
Definition put_rel (v : buffer) (old o new : option buffer) : Prop := o = old /\ new = Some v.
Definition put_absent_rel (v : buffer) (old o new : option buffer) : Prop := o = old /\ new = Some (default v old).
Definition read_rel (old o new : option buffer) : Prop := o = old /\ new = old.
Definition remove_rel (old o new : option buffer) : Prop := o = old /\ new = None.
Definition replace_rel (v : buffer) (old o new : option buffer) : Prop := o = old /\ new = (fun _ => v) <$> old.
(** An entry processor may do anything to the entry. *)
Definition execute_rel (old o new : option buffer) : Prop :=
  option_valid (fun b => 8 <= blen b) o /\ option_valid (fun b => 8 <= blen b) new.
Definition contains_rel (old : option buffer) (b : bool) (new : option buffer) : Prop := b = bool_decide (is_Some old) /\ new = old.
Definition remove_same_rel (v : buffer) (old : option buffer) (b : bool) (new : option buffer) : Prop :=
  b = bool_decide (old = Some v) /\ new = if b then None else old.
Definition replace_same_rel (v w : buffer) (old : option buffer) (b : bool) (new : option buffer) : Prop :=
  b = bool_decide (old = Some v) /\ new = if b then Some w else old.
(** The lock of the entry may not be free in time. *)
Definition try_put_rel (v : buffer) (old : option buffer) (b : bool) (new : option buffer) : Prop := new = if b then Some v else old.
Definition try_remove_rel (old : option buffer) (b : bool) (new : option buffer) : Prop := new = if b then None else old.
Definition ttl_rel (old : option buffer) (b : bool) (new : option buffer) : Prop := new = old.

Definition data_effect (rel : option buffer -> option buffer -> option buffer -> Prop) old a new : Prop :=
  exists o, a = data_answer o /\ rel old o new.
Definition bool_effect (rel : option buffer -> bool -> option buffer -> Prop) old a new : Prop :=
  exists b, a = bool_answer b /\ rel old b new.
Definition set_effect (v : option buffer) (old : option buffer) a new : Prop := a = no_answer /\ new = v.

Definition put_all_entries (p : Z) (l : list (HeapData * HeapData)) (m : gmap (Z * buffer) buffer) : gmap (Z * buffer) buffer :=
  foldl (fun m e => <[(p, bytes e.1) := bytes e.2]> m) m l.

Definition map_services : list (Service L Maps) := [
  mkService (mkRequestFormat 65792 false [F_long_arg; F_long_arg] [param string_codec; param data_codec; param data_codec]
      (fun f p => MapPutCodec_encodeRequest p.1 p.2.1 p.2.2.1 f.1 f.2.1))
    (fun f p => on_key (data_effect (put_rel (bytes p.2.2.1))) p.1 p.2.1);
  mkService (mkRequestFormat 82944 false [F_long_arg; F_long_arg; F_long_arg] [param string_codec; param data_codec; param data_codec]
      (fun f p => MapPutWithMaxIdleCodec_encodeRequest p.1 p.2.1 p.2.2.1 f.1 f.2.1 f.2.2.1))
    (fun f p => on_key (data_effect (put_rel (bytes p.2.2.1))) p.1 p.2.1);
  mkService (mkRequestFormat 69120 false [F_long_arg; F_long_arg] [param string_codec; param data_codec; param data_codec]
      (fun f p => MapPutIfAbsentCodec_encodeRequest p.1 p.2.1 p.2.2.1 f.1 f.2.1))
    (fun f p => on_key (data_effect (put_absent_rel (bytes p.2.2.1))) p.1 p.2.1);
  mkService (mkRequestFormat 83456 false [F_long_arg; F_long_arg; F_long_arg] [param string_codec; param data_codec; param data_codec]
      (fun f p => MapPutIfAbsentWithMaxIdleCodec_encodeRequest p.1 p.2.1 p.2.2.1 f.1 f.2.1 f.2.2.1))
    (fun f p => on_key (data_effect (put_absent_rel (bytes p.2.2.1))) p.1 p.2.1);
  mkService (mkRequestFormat 68864 false [F_long_arg; F_long_arg] [param string_codec; param data_codec; param data_codec]
      (fun f p => MapPutTransientCodec_encodeRequest p.1 p.2.1 p.2.2.1 f.1 f.2.1))
    (fun f p => on_key (set_effect (Some (bytes p.2.2.1))) p.1 p.2.1);
  mkService (mkRequestFormat 83200 false [F_long_arg; F_long_arg; F_long_arg] [param string_codec; param data_codec; param data_codec]
      (fun f p => MapPutTransientWithMaxIdleCodec_encodeRequest p.1 p.2.1 p.2.2.1 f.1 f.2.1 f.2.2.1))
    (fun f p => on_key (set_effect (Some (bytes p.2.2.1))) p.1 p.2.1);
  mkService (mkRequestFormat 69376 false [F_long_arg; F_long_arg] [param string_codec; param data_codec; param data_codec]
      (fun f p => MapSetCodec_encodeRequest p.1 p.2.1 p.2.2.1 f.1 f.2.1))
    (fun f p => on_key (set_effect (Some (bytes p.2.2.1))) p.1 p.2.1);
  mkService (mkRequestFormat 83712 false [F_long_arg; F_long_arg; F_long_arg] [param string_codec; param data_codec; param data_codec]
      (fun f p => MapSetWithMaxIdleCodec_encodeRequest p.1 p.2.1 p.2.2.1 f.1 f.2.1 f.2.2.1))
    (fun f p => on_key (set_effect (Some (bytes p.2.2.1))) p.1 p.2.1);
  mkService (mkRequestFormat 66048 true [F_long_arg] [param string_codec; param data_codec]
      (fun f p => MapGetCodec_encodeRequest p.1 p.2.1 f.1))
    (fun f p => on_key (data_effect read_rel) p.1 p.2.1);
  mkService (mkRequestFormat 66304 false [F_long_arg] [param string_codec; param data_codec]
      (fun f p => MapRemoveCodec_encodeRequest p.1 p.2.1 f.1))
    (fun f p => on_key (data_effect remove_rel) p.1 p.2.1);
  mkService (mkRequestFormat 67584 false [F_long_arg] [param string_codec; param data_codec; param data_codec]
      (fun f p => MapRemoveIfSameCodec_encodeRequest p.1 p.2.1 p.2.2.1 f.1))
    (fun f p => on_key (bool_effect (remove_same_rel (bytes p.2.2.1))) p.1 p.2.1);
  mkService (mkRequestFormat 67840 false [F_long_arg] [param string_codec; param data_codec]
      (fun f p => MapDeleteCodec_encodeRequest p.1 p.2.1 f.1))
    (fun f p => on_key (set_effect None) p.1 p.2.1);
  mkService (mkRequestFormat 67072 true [F_long_arg] [param string_codec; param data_codec]
      (fun f p => MapContainsKeyCodec_encodeRequest p.1 p.2.1 f.1))
    (fun f p => on_key (bool_effect contains_rel) p.1 p.2.1);
  mkService (mkRequestFormat 67328 true [] [param string_codec; param data_codec]
      (fun f p => MapContainsValueCodec_encodeRequest p.1 p.2.1))
    (fun f p => on_map (fun m a m' =>
       a = bool_answer (bool_decide (bytes p.2.1 ∈ (map_to_list m).*2)) /\ m' = m) p.1);
  mkService (mkRequestFormat 66560 false [F_long_arg] [param string_codec; param data_codec; param data_codec]
      (fun f p => MapReplaceCodec_encodeRequest p.1 p.2.1 p.2.2.1 f.1))
    (fun f p => on_key (data_effect (replace_rel (bytes p.2.2.1))) p.1 p.2.1);
  mkService (mkRequestFormat 66816 false [F_long_arg] [param string_codec; param data_codec; param data_codec; param data_codec]
      (fun f p => MapReplaceIfSameCodec_encodeRequest p.1 p.2.1 p.2.2.1 p.2.2.2.1 f.1))
    (fun f p => on_key (bool_effect (replace_same_rel (bytes p.2.2.1) (bytes p.2.2.2.1))) p.1 p.2.1);
  mkService (mkRequestFormat 68608 false [F_long_arg; F_long_arg] [param string_codec; param data_codec; param data_codec]
      (fun f p => MapTryPutCodec_encodeRequest p.1 p.2.1 p.2.2.1 f.1 f.2.1))
    (fun f p => on_key (bool_effect (try_put_rel (bytes p.2.2.1))) p.1 p.2.1);
  mkService (mkRequestFormat 68352 false [F_long_arg; F_long_arg] [param string_codec; param data_codec]
      (fun f p => MapTryRemoveCodec_encodeRequest p.1 p.2.1 f.1 f.2.1))
    (fun f p => on_key (bool_effect try_remove_rel) p.1 p.2.1);
  mkService (mkRequestFormat 82688 false [F_long_arg] [param string_codec; param data_codec]
      (fun f p => MapSetTtlCodec_encodeRequest p.1 p.2.1 f.1))
    (fun f p => on_key (bool_effect ttl_rel) p.1 p.2.1);
  mkService (mkRequestFormat 73216 false [F_long_arg] [param string_codec; param data_codec]
      (fun f p => MapEvictCodec_encodeRequest p.1 p.2.1 f.1))
    (fun f p => on_key (bool_effect try_remove_rel) p.1 p.2.1);
  mkService (mkRequestFormat 77312 false [F_long_arg] [param string_codec; param data_codec; param data_codec]
      (fun f p => MapExecuteOnKeyCodec_encodeRequest p.1 p.2.1 p.2.2.1 f.1))
    (fun f p => on_key (data_effect execute_rel) p.1 p.2.2.1);
  mkService (mkRequestFormat 76288 true [] [param string_codec] (fun f p => MapSizeCodec_encodeRequest p.1))
    (fun f p => on_map (fun m a m' => a = int_answer (Z.of_nat (base.size m)) /\ m' = m) p.1);
  mkService (mkRequestFormat 76544 true [] [param string_codec] (fun f p => MapIsEmptyCodec_encodeRequest p.1))
    (fun f p => on_map (fun m a m' => a = bool_answer (bool_decide (m = ∅)) /\ m' = m) p.1);
  mkService (mkRequestFormat 77056 false [] [param string_codec] (fun f p => MapClearCodec_encodeRequest p.1))
    (fun f p => on_map (fun m a m' => a = no_answer /\ m' = ∅) p.1);
  mkService (mkRequestFormat 73472 false [] [param string_codec] (fun f p => MapEvictAllCodec_encodeRequest p.1))
    (fun f p => on_map (fun m a m' => a = no_answer /\ m' ⊆ m) p.1);
  mkService (mkRequestFormat 74240 true [] [param string_codec] (fun f p => MapKeySetCodec_encodeRequest p.1))
    (fun f p => on_map (fun m a m' => (exists l, a = list_answer l /\ l ≡ₚ (fun e => e.1.2) <$> map_to_list m) /\ m' = m) p.1);
  mkService (mkRequestFormat 75008 true [] [param string_codec] (fun f p => MapEntrySetCodec_encodeRequest p.1))
    (fun f p => on_map (fun m a m' =>
       (exists l, a = entries_answer l /\ l ≡ₚ (fun e => (e.1.2, e.2)) <$> map_to_list m) /\ m' = m) p.1);
  mkService (mkRequestFormat 74752 true [] [param string_codec] (fun f p => MapValuesCodec_encodeRequest p.1))
    (fun f p => on_map (fun m a m' => (exists l, a = list_answer l /\ l ≡ₚ (map_to_list m).*2) /\ m' = m) p.1);
  mkService (mkRequestFormat 76800 false [F_boolean] [param string_codec; param (entry_list_codec (CK := data_codec) (CV := data_codec))]
      (fun f p => MapPutAllCodec_encodeRequest p.1 p.2.1 f.1))
    (fun f p => on_partition (fun q m a m' => a = no_answer /\ m' = put_all_entries q p.2.1 m) p.1);
  mkService (mkRequestFormat 74496 false [] [param string_codec; param (list_codec data_codec)]
      (fun f p => MapGetAllCodec_encodeRequest p.1 p.2.1))
    (fun f p => on_partition (fun q m a m' => (exists l, a = entries_answer l /\ NoDup l.*1 /\
       forall k v, (k, v) ∈ l <-> k ∈ (bytes <$> p.2.1) /\ m !! (q, k) = Some v) /\ m' = m) p.1)
].

(** The [n]-th service. *)
Definition service (n : nat) : Service L Maps := nth n map_services (mkService (mkRequestFormat 0 false [] [] (fun _ _ => Err Error)) (fun _ _ _ _ _ _ => False)).

Lemma map_services_conform : Forall (fun sv => request_conforms (sv_format sv)) map_services.
Proof. format_agrees map_services. Qed.

Lemma map_services_distinct : NoDup (map (fun sv => rf_type (sv_format sv)) map_services).
Proof. apply (bool_decide_eq_true_1 _). vm_compute. reflexivity. Qed.
End MapMembers.

(** ** The operations of one map *)

Section MapRefinement.
Context `{Uninit} {L : Type} `{LongLaws L} {V : Type} `{ObjectSerialization V}.
Context (partitionService : PartitionServiceImpl L) (name : string).
Context (partitions_known : 0 < partitionCount partitionService).
Implicit Types (M : gmap buffer buffer) (s : Maps) (k v : buffer).

#[local] Abbreviation pid := (pid partitionService).

(** The members have the entries of [M], each in the partition of its key. *)
Record implements M s : Prop := {
  im_map : s name = kmap (fun k => (pid k, k)) M;
  im_valid : map_Forall (fun k v => valid_bytes k /\ valid_bytes v) M
}.

Definition others_kept s s' : Prop := forall n, n <> name -> s' n = s n.

#[local] Instance pid_inj : Inj (=) (=) (fun k => (pid k, k)).
Proof. by intros a b [= _ ->]. Qed.

Lemma implements_lookup M s k : implements M s -> s name !! (pid k, k) = M !! k.
Proof. intros [-> _]. apply (lookup_kmap (fun k => (pid k, k))). Qed.

Lemma set_map_others m s : others_kept s (set_map name m s).
Proof. intros n Hn. unfold set_map. by rewrite bool_decide_eq_false_2. Qed.

Lemma set_map_same m s : set_map name m s name = m.
Proof. unfold set_map. by rewrite bool_decide_eq_true_2. Qed.

Lemma implements_alter M s k new : implements M s -> valid_bytes k -> option_valid valid_bytes new ->
  implements (partial_alter (fun _ => new) k M)
    (set_map name (partial_alter (fun _ => new) (pid k, k) (s name)) s).
Proof.
  intros [Em Hv] Hk Hn. split.
  - rewrite set_map_same, Em. symmetry. apply (kmap_partial_alter (fun k => (pid k, k))).
  - intros k' v'. destruct (decide (k' = k)) as [->|Hne].
    + rewrite lookup_partial_alter_eq. intros ->. by split.
    + rewrite lookup_partial_alter_ne by done. apply Hv.
Qed.

(** ** Calls for one key *)

#[local] Abbreviation wp_map := (wp (map_services (L := L))).

Lemma wp_key_of {A} (services : list (Service L Maps)) sv f p req k (g : frames -> Proxy L A) Q s M eff :
  NoDup (map (fun sv => rf_type (sv_format sv)) services) -> Forall (fun sv => request_conforms (sv_format sv)) services ->
  sv ∈ services -> rf_encode (sv_format sv) f p = req -> fvalid _ f -> pvalid _ p -> valid_bytes k ->
  implements M s -> sv_effect sv (fview _ f) p = on_key eff name (heap k) ->
  (exists a new, eff (M !! k) a new /\ answerable a) ->
  (forall a new reply s', eff (M !! k) a new -> reply_of a reply ->
     (option_valid valid_bytes new -> implements (partial_alter (fun _ => new) k M) s') -> others_kept s s' ->
     wp services (g reply) Q s') ->
  wp services (invokeOnKey partitionService req (heap k) ≫= g) Q s.
Proof.
  intros Hd Hcs Hsv <- Hf Hp Hk Hi He (a & new & Ha & Han) Hg.
  pose proof (proj1 (Forall_forall _ _) Hcs sv Hsv) as Hc.
  destruct (encode_request_ok (sv_format sv) f p Hc Hf Hp) as (m & E & Hm). unfold invokeOnKey, encodeInvokeOnKey.
  rewrite (partition_pid partitionService k partitions_known), E. cbn [try_ encodeInvokeOnPartition mbind Proxy_bind proxy_bind].
  apply (wp_call services Hd sv f p m); [done | done | |].
  - exists a, (set_map name (partial_alter (fun _ => new) (pid k, k) (s name)) s). split; [|done]. rewrite He. cbn.
    exists new. by rewrite (implements_lookup M s k Hi).
  - intros a' s' reply Hs Hr. rewrite He in Hs. cbn in Hs. rewrite (implements_lookup M s k Hi) in Hs.
    destruct Hs as (new' & Ha' & ->). eapply Hg; [done | done | | apply set_map_others].
    intros Hv. by apply implements_alter.
Qed.

Lemma wp_on_key {A} n sv f p req k (g : frames -> Proxy L A) Q s M eff :
  map_services !! n = Some sv -> rf_encode (sv_format sv) f p = req -> fvalid _ f -> pvalid _ p -> valid_bytes k ->
  implements M s -> sv_effect sv (fview _ f) p = on_key eff name (heap k) ->
  (exists a new, eff (M !! k) a new /\ answerable a) ->
  (forall a new reply s', eff (M !! k) a new -> reply_of a reply ->
     (option_valid valid_bytes new -> implements (partial_alter (fun _ => new) k M) s') -> others_kept s s' ->
     wp_map (g reply) Q s') ->
  wp_map (invokeOnKey partitionService req (heap k) ≫= g) Q s.
Proof.
  intros Hn%list_elem_of_lookup_2. by apply wp_key_of; [apply map_services_distinct | apply map_services_conform |].
Qed.

(** The outcome of an operation that is specified by [spec]. *)
Definition outcome_ok {A} (spec : gmap buffer buffer -> res A -> gmap buffer buffer -> Prop) M s (r : res A) s' : Prop :=
  exists M', implements M' s' /\ others_kept s s' /\ spec M r M'.

Lemma old_valid M s k : implements M s -> option_valid valid_bytes (M !! k).
Proof. intros [_ Hv]. destruct (M !! k) as [v|] eqn:E; [|done]. by apply (Hv k v E). Qed.

Create HintDb map_proxy discriminated.
#[local] Hint Resolve answerable_data answerable_bool answerable_none old_valid data_valid_heap : map_proxy.

(** The three kinds of methods for one key, by the response: a value, a boolean, nothing. *)
Definition data_spec (rel : option buffer -> option buffer -> option buffer -> Prop) k M (r : res V) M' : Prop :=
  exists o new, rel (M !! k) o new /\ r = obj o /\ M' = partial_alter (fun _ => new) k M.
Definition bool_spec (rel : option buffer -> bool -> option buffer -> Prop) k M (r : res bool) M' : Prop :=
  exists b new, rel (M !! k) b new /\ r = Ok b /\ M' = partial_alter (fun _ => new) k M.
Definition unit_spec (new : option buffer) k M (r : res unit) M' : Prop :=
  r = Ok tt /\ M' = partial_alter (fun _ => new) k M.

(** The effect gives valid bytes, and has an answer. *)
Definition data_rel_ok (rel : option buffer -> option buffer -> option buffer -> Prop) : Prop :=
  forall old, option_valid valid_bytes old ->
    (exists o new, rel old o new) /\
    forall o new, rel old o new -> option_valid valid_bytes o /\ option_valid valid_bytes new.
Definition bool_rel_ok (rel : option buffer -> bool -> option buffer -> Prop) : Prop :=
  forall old, option_valid valid_bytes old ->
    (exists b new, rel old b new) /\ forall b new, rel old b new -> option_valid valid_bytes new.

Lemma wp_key_data n sv f p req k rel dec s M :
  map_services !! n = Some sv -> rf_encode (sv_format sv) f p = req -> fvalid _ f -> pvalid _ p -> valid_bytes k ->
  sv_effect sv (fview _ f) p = on_key (data_effect rel) name (heap k) ->
  decodes_param (reply (nullable_codec data_codec)) dec id -> data_rel_ok rel -> implements M s ->
  wp_map (clientMessage ← invokeOnKey partitionService req (heap k);
          response ← decodeResponse dec clientMessage; try_ (toObject response))
    (outcome_ok (data_spec rel k) M s) s.
Proof.
  intros Hn Er Hf Hp Hk He Hd Hrel Hi. destruct (Hrel (M !! k) (old_valid M s k Hi)) as [(o & new & Ho) Hv].
  eapply (wp_on_key n sv f p); [done | done | done | done | done | done | exact He | |].
  - exists (data_answer o), new. split; [by exists o|]. apply answerable_data. by apply (Hv o new).
  - intros a new' reply s' (o' & -> & Ho') Hr Hi' Hoth. rewrite (decode_param _ dec id _ _ Hd Hr). cbn.
    eexists. split_and!; [by apply Hi', (Hv o') | done |]. by exists o', new'.
Qed.

Lemma wp_key_bool n sv f p req k rel dec s M :
  map_services !! n = Some sv -> rf_encode (sv_format sv) f p = req -> fvalid _ f -> pvalid _ p -> valid_bytes k ->
  sv_effect sv (fview _ f) p = on_key (bool_effect rel) name (heap k) ->
  decodes_field F_boolean dec id -> bool_rel_ok rel -> implements M s ->
  wp_map (clientMessage ← invokeOnKey partitionService req (heap k); decodeResponse dec clientMessage)
    (outcome_ok (bool_spec rel k) M s) s.
Proof.
  intros Hn Er Hf Hp Hk He Hd Hrel Hi. destruct (Hrel (M !! k) (old_valid M s k Hi)) as [(b & new & Ho) Hv].
  eapply (wp_on_key n sv f p); [done | done | done | done | done | done | exact He | |].
  - exists (bool_answer b), new. split; [by exists b | apply answerable_bool].
  - intros a new' reply s' (b' & -> & Ho') Hr Hi' Hoth. rewrite (decode_field _ dec id _ _ Hd Hr). cbn.
    eexists. split_and!; [by apply Hi', (Hv b') | done |]. by exists b', new'.
Qed.

Lemma wp_key_unit n sv f p req k new s M :
  map_services !! n = Some sv -> rf_encode (sv_format sv) f p = req -> fvalid _ f -> pvalid _ p -> valid_bytes k ->
  sv_effect sv (fview _ f) p = on_key (set_effect new) name (heap k) -> option_valid valid_bytes new -> implements M s ->
  wp_map (ignore_response (invokeOnKey partitionService req (heap k))) (outcome_ok (unit_spec new k) M s) s.
Proof.
  intros Hn Er Hf Hp Hk He Hnew Hi. unfold ignore_response.
  eapply (wp_on_key n sv f p); [done | done | done | done | done | done | exact He | |].
  - exists no_answer, new. split; [by split | apply answerable_none].
  - intros a new' reply s' [-> ->] Hr Hi' Hoth. cbn. eexists. split_and!; [by apply Hi' | done |]. by split.
Qed.

(** *** The effects *)

#[local] Ltac rel_ok :=
  intros old Hold; split; [by repeat eexists |];
  intros; unfold put_rel, put_absent_rel, read_rel, remove_rel, replace_rel, contains_rel, remove_same_rel, replace_same_rel,
    try_put_rel, try_remove_rel, ttl_rel in *; destruct_and?; subst;
  repeat case_bool_decide; repeat case_match; destruct old; done.

Lemma put_rel_ok v : valid_bytes v -> data_rel_ok (put_rel v).
Proof. intros Hv. rel_ok. Qed.
Lemma put_absent_rel_ok v : valid_bytes v -> data_rel_ok (put_absent_rel v).
Proof. intros Hv. rel_ok. Qed.
Lemma read_rel_ok : data_rel_ok read_rel.
Proof. rel_ok. Qed.
Lemma remove_rel_ok : data_rel_ok remove_rel.
Proof. rel_ok. Qed.
Lemma replace_rel_ok v : valid_bytes v -> data_rel_ok (replace_rel v).
Proof. intros Hv. rel_ok. Qed.
Lemma execute_rel_ok : data_rel_ok execute_rel.
Proof. intros old Hold. split; [by exists None, None|]. by intros o new [? ?]. Qed.
Lemma contains_rel_ok : bool_rel_ok contains_rel.
Proof. rel_ok. Qed.
Lemma remove_same_rel_ok v : bool_rel_ok (remove_same_rel v).
Proof. rel_ok. Qed.
Lemma replace_same_rel_ok v w : valid_bytes w -> bool_rel_ok (replace_same_rel v w).
Proof. intros Hw. rel_ok. Qed.
Lemma try_put_rel_ok v : valid_bytes v -> bool_rel_ok (try_put_rel v).
Proof. intros Hv old Hold. split; [by exists true, (Some v)|]. intros b new ->. by destruct b. Qed.
Lemma try_remove_rel_ok : bool_rel_ok try_remove_rel.
Proof. intros old Hold. split; [by exists true, None|]. intros b new ->. by destruct b. Qed.
Lemma ttl_rel_ok : bool_rel_ok ttl_rel.
Proof. intros old Hold. split; [by exists true, old|]. by intros b new ->. Qed.

(** ** Calls for the whole map *)

Lemma wp_on_map {A} n sv f p req (g : frames -> Proxy L A) Q s eff :
  map_services !! n = Some sv -> rf_encode (sv_format sv) f p = req -> fvalid _ f -> pvalid _ p ->
  sv_effect sv (fview _ f) p = on_map eff name ->
  (exists a m, eff (s name) a m /\ answerable a) ->
  (forall a m reply, eff (s name) a m -> reply_of a reply -> wp_map (g reply) Q (set_map name m s)) ->
  wp_map (encodeInvokeOnRandomTarget req ≫= g) Q s.
Proof.
  intros Hn Er Hf Hp He (a & m0 & Ha & Han) Hg. apply list_elem_of_lookup_2 in Hn.
  apply (wp_random map_services map_services_distinct sv f p); [apply map_services_conform | done | done | done | done | |]; rewrite He.
  - exists a, (set_map name m0 s). split; [|done]. cbn. eauto.
  - intros a' s' reply (m' & Ha' & ->) Hr. by eapply Hg.
Qed.

Lemma implements_same M s : implements M s -> implements M (set_map name (s name) s).
Proof. intros [Em Hv]. split; [by rewrite set_map_same | done]. Qed.

(** A method that only reads. *)
Lemma outcome_read {A} (spec : gmap buffer buffer -> res A -> gmap buffer buffer -> Prop) M s r :
  implements M s -> spec M r M -> outcome_ok spec M s r (set_map name (s name) s).
Proof. intros Hi Hs. exists M. split_and!; [by apply implements_same | apply set_map_others | done]. Qed.

Lemma entries_perm M s : implements M s -> map_to_list (s name) ≡ₚ (fun e => ((pid e.1, e.1), e.2)) <$> map_to_list M.
Proof.
  intros [-> _]. rewrite (map_to_list_kmap (fun k => (pid k, k))). apply reflexive_eq, list_fmap_ext. by intros ? [] ?.
Qed.

Lemma entries_keys M s : implements M s -> (fun e => e.1.2) <$> map_to_list (s name) ≡ₚ (map_to_list M).*1.
Proof. intros Hi. rewrite (entries_perm M s Hi), <- list_fmap_compose. done. Qed.

Lemma entries_values M s : implements M s -> (map_to_list (s name)).*2 ≡ₚ (map_to_list M).*2.
Proof. intros Hi. rewrite (entries_perm M s Hi), <- list_fmap_compose. done. Qed.

Lemma entries_entries M s : implements M s -> (fun e => (e.1.2, e.2)) <$> map_to_list (s name) ≡ₚ map_to_list M.
Proof.
  intros Hi. rewrite (entries_perm M s Hi), <- list_fmap_compose. apply reflexive_eq.
  rewrite <- (list_fmap_id (map_to_list M)) at 2. apply list_fmap_ext. by intros ? [] ?.
Qed.

Lemma entries_valid M s : implements M s -> Forall (fun e => valid_bytes e.1 /\ valid_bytes e.2) (map_to_list M).
Proof. intros [_ Hv]. apply map_Forall_to_list in Hv. eapply Forall_impl; [exact Hv|]. by intros []. Qed.

Lemma map_size_same M s : implements M s -> base.size (s name) = base.size M.
Proof.
  intros Hi. rewrite <- !length_map_to_list, (entries_perm M s Hi). apply length_fmap.
Qed.

Lemma subset_implements M s m : implements M s -> m ⊆ s name ->
  exists M', M' ⊆ M /\ implements M' (set_map name m s).
Proof.
  intros [Em Hv] Hsub. exists (map_imap (fun k _ => m !! (pid k, k)) M).
  assert (forall k v, map_imap (fun k _ => m !! (pid k, k)) M !! k = Some v <-> m !! (pid k, k) = Some v) as Hl.
  { intros k v. rewrite map_lookup_imap. destruct (M !! k) as [v'|] eqn:Ek; cbn; [done|]. split; [done|]. intros Hm.
    pose proof (lookup_weaken _ _ _ _ Hm Hsub) as Hs. rewrite Em in Hs.
    rewrite (lookup_kmap (fun k => (pid k, k))) in Hs. congruence. }
  assert (map_imap (fun k _ => m !! (pid k, k)) M ⊆ M) as HM.
  { apply map_subseteq_spec. intros k v Hk%Hl. pose proof (lookup_weaken _ _ _ _ Hk Hsub) as Hs.
    by rewrite Em, (lookup_kmap (fun k => (pid k, k))) in Hs. }
  split; [done|]. split.
  - rewrite set_map_same. apply map_eq. intros [q k]. apply option_eq. intros v.
    rewrite (lookup_kmap_Some (fun k => (pid k, k))). split.
    + intros Hm. exists k. pose proof (lookup_weaken _ _ _ _ Hm Hsub) as Hs. rewrite Em in Hs.
      apply (lookup_kmap_Some (fun k => (pid k, k))) in Hs as (k' & [= -> ->] & _). by split; [|apply Hl].
    + by intros (k' & [= -> ->] & Hk%Hl).
  - intros k v Hk. apply Hv. by eapply lookup_weaken.
Qed.

(** *** Grouping by partition *)

Definition grouped {A} (part : A -> Z) (G : list (Z * list A)) : Prop :=
  StronglySorted Z.lt G.*1 /\ Forall (fun g => Forall (fun x => part x = g.1) g.2) G.

Lemma push_partitions {A} p (x : A) G q : q ∈ (push_to p x G).*1 -> q = p \/ q ∈ G.*1.
Proof.
  induction G as [|[r xs] G IH]; cbn; [rewrite list_elem_of_singleton; auto|].
  destruct (p =? r), (p <? r); cbn; rewrite ?elem_of_cons; intuition.
Qed.

Lemma push_grouped {A} (part : A -> Z) x G : grouped part G -> grouped part (push_to (part x) x G).
Proof.
  intros [Hs Hp]. split.
  - induction G as [|[r xs] G IH]; cbn; [repeat constructor|]. cbn in Hs. apply StronglySorted_inv in Hs as [Hs Hr].
    apply Forall_cons in Hp as [_ Hp]. destruct (Z.eqb_spec (part x) r), (Z.ltb_spec (part x) r); cbn; try by constructor.
    + constructor; [by constructor|]. constructor; [done|]. eapply Forall_impl; [exact Hr|]. cbn. intros. lia.
    + constructor; [by apply IH|]. apply Forall_forall. intros q [->|Hq]%push_partitions; [lia|].
      rewrite Forall_forall in Hr. by apply Hr.
  - clear Hs. induction Hp as [|[r xs] G Hx Hp IH]; cbn; [by repeat constructor|].
    destruct (Z.eqb_spec (part x) r), (Z.ltb_spec (part x) r); cbn in *; subst; repeat constructor; try done.
    all: apply Forall_app; split; [done | by constructor].
Qed.

Lemma push_perm {A} p (x : A) G : concat (push_to p x G).*2 ≡ₚ x :: concat G.*2.
Proof.
  induction G as [|[r xs] G IH]; cbn; [done|]. destruct (p =? r); cbn; [|destruct (p <? r); cbn; [done|]].
  - rewrite <- app_assoc. cbn. by rewrite <- Permutation_middle.
  - rewrite IH. by rewrite <- Permutation_middle.
Qed.

Lemma push_map {A B} (h : A -> B) p x G :
  push_to p (h x) (map (fun g => (g.1, map h g.2)) G) = map (fun g => (g.1, map h g.2)) (push_to p x G).
Proof.
  induction G as [|[r xs] G IH]; cbn; [done|]. destruct (p =? r); cbn; [by rewrite map_app|]. destruct (p <? r); [done|].
  cbn. by rewrite IH.
Qed.

(** The pairs of all groups set the same entries as the pairs in their order. *)
Definition put_pairs (M : gmap buffer buffer) (l : list (buffer * buffer)) : gmap buffer buffer :=
  foldl (fun M e => <[e.1 := e.2]> M) M l.

Lemma put_pairs_app M l l' : put_pairs M (l ++ l') = put_pairs (put_pairs M l) l'.
Proof. apply foldl_app. Qed.

Lemma put_pairs_insert M k v l : (k ∉ l.*1) -> put_pairs (<[k := v]> M) l = <[k := v]> (put_pairs M l).
Proof.
  revert M. induction l as [|[k' v'] l IH]; intros M Hk; [done|]. cbn in *. apply not_elem_of_cons in Hk as [Hne Hk].
  rewrite insert_insert_ne by done. by apply IH.
Qed.

Lemma other_groups G k : Forall (fun g => Forall (fun e : buffer * buffer => pid e.1 = g.1) g.2) G ->
  Forall (fun g => pid k <> g.1) G -> k ∉ (concat G.*2).*1.
Proof.
  intros Hp Hne ([k' v'] & -> & Hin)%list_elem_of_fmap. induction Hp as [|[r xs] G Hx Hp IH]; [by apply not_elem_of_nil in Hin|].
  apply Forall_cons in Hne as [Hne Hns]. cbn in Hin. apply elem_of_app in Hin as [Hin|Hin]; [|by apply IH].
  rewrite Forall_forall in Hx. by specialize (Hx _ Hin).
Qed.

Lemma push_put_pairs G k v : grouped (fun e : buffer * buffer => pid e.1) G -> forall M,
  put_pairs M (concat (push_to (pid k) (k, v) G).*2) = <[k := v]> (put_pairs M (concat G.*2)).
Proof.
  intros [Hs Hp]. induction G as [|[r xs] G IH]; intros M; cbn [push_to]; [done|]. cbn in Hs.
  apply StronglySorted_inv in Hs as [Hs Hr]. pose proof Hp as Hp'. apply Forall_cons in Hp' as [Hx Hp'].
  rewrite (Forall_fmap fst) in Hr.
  destruct (Z.eqb_spec (pid k) r) as [E|E]; [|destruct (Z.ltb_spec (pid k) r)]; cbn.
  - rewrite !put_pairs_app. cbn. apply put_pairs_insert, other_groups; [done|].
    eapply Forall_impl; [exact Hr|]. cbn. intros. lia.
  - apply (put_pairs_insert M k v (xs ++ concat G.*2)), (other_groups ((r, xs) :: G)); [done|].
    constructor; [done|]. eapply Forall_impl; [exact Hr|]. cbn. intros. lia.
  - rewrite !put_pairs_app. by apply IH.
Qed.

(** *** Requests to several partitions *)

Lemma put_all_kmap q es M : Forall (fun e => pid e.1 = q) es ->
  put_all_entries q (map (prod_map heap heap) es) (kmap (fun k => (pid k, k)) M) = kmap (fun k => (pid k, k)) (put_pairs M es).
Proof.
  unfold put_all_entries, put_pairs. intros He. revert M. induction He as [|[k v] es Hk _ IH]; intros M; [done|]. cbn in *.
  rewrite <- IH. f_equal. subst q. symmetry. apply (kmap_insert (fun k => (pid k, k))).
Qed.

Lemma put_all_commute q q' es es' m : q <> q' ->
  put_all_entries q es (put_all_entries q' es' m) = put_all_entries q' es' (put_all_entries q es m).
Proof.
  intros Hne. unfold put_all_entries. revert m. induction es as [|e es IH]; intros m; [done|]. cbn. rewrite <- IH. f_equal.
  clear IH. revert m. induction es' as [|e' es' IH']; intros m; [done|]. cbn. rewrite IH'. f_equal.
  apply insert_insert_ne. congruence.
Qed.

Lemma others_trans s1 s2 s3 : others_kept s1 s2 -> others_kept s2 s3 -> others_kept s1 s3.
Proof. intros Ha Hb n Hn. by rewrite Hb, Ha. Qed.

(** One request to each partition of [G], each with the effect [eff] on its partition. *)
Definition sent_to (c : RequestFormat) {A} (F : Z * A -> fargs (rf_fields c)) (P : Z * A -> pargs (rf_params c))
    (G : list (Z * A)) (calls : list (target L * Request)) : Prop :=
  Forall2 (fun g call => call.1 = OnPartition g.1 /\ request_ok c (F g) (P g) call.2) G calls.

Lemma serves_partition n sv {A} (F : Z * A -> fargs (rf_fields (sv_format sv))) (P : Z * A -> pargs (rf_params (sv_format sv)))
    eff g t m s a s' :
  map_services !! n = Some sv -> request_ok (sv_format sv) (F g) (P g) m -> t = OnPartition g.1 ->
  sv_effect sv (fview _ (F g)) (P g) = on_partition (eff g) name ->
  serves map_services s t (rq_frames m) a s' <-> exists m', eff g g.1 (s name) a m' /\ s' = set_map name m' s.
Proof.
  intros Hn Hm -> He. apply list_elem_of_lookup_2 in Hn. rewrite (serves_iff _ map_services_distinct sv (F g) (P g)) by done.
  by rewrite He.
Qed.

Lemma grouped_nodup {A} (part : A -> Z) G : grouped part G -> NoDup G.*1.
Proof.
  intros [Hs _]. induction Hs as [|r l Hs IH Hr]; constructor; [|done]. intros Hin. rewrite Forall_forall in Hr.
  specialize (Hr r Hin). lia.
Qed.

(** [putAll]: whatever the order in which the partitions answer. *)
Definition put_groups (G : list (Z * list (buffer * buffer))) (m : gmap (Z * buffer) buffer) : gmap (Z * buffer) buffer :=
  foldl (fun m g => put_all_entries g.1 (map (prod_map heap heap) g.2) m) m G.

Lemma put_groups_cons g G m : put_groups (g :: G) m = put_groups G (put_all_entries g.1 (map (prod_map heap heap) g.2) m).
Proof. done. Qed.

Lemma put_groups_kmap G : forall M, Forall (fun g => Forall (fun e => pid e.1 = g.1) g.2) G ->
  put_groups G (kmap (fun k => (pid k, k)) M) = kmap (fun k => (pid k, k)) (put_pairs M (concat G.*2)).
Proof.
  induction G as [|[r xs] G IH]; intros M HG; [done|]. apply Forall_cons in HG as [Hx HG].
  rewrite put_groups_cons. cbn [fst snd] in *. rewrite put_all_kmap, IH by done. cbn. by rewrite put_pairs_app.
Qed.

Lemma put_groups_middle G1 g G2 m : (g.1 ∉ G1.*1) ->
  put_groups (G1 ++ g :: G2) m = put_groups (G1 ++ G2) (put_all_entries g.1 (map (prod_map heap heap) g.2) m).
Proof.
  revert m. induction G1 as [|h G1 IH]; intros m Hg; [done|]. cbn in Hg. apply not_elem_of_cons in Hg as [Hne Hg].
  rewrite <- !app_comm_cons, !put_groups_cons, IH by done. by rewrite put_all_commute.
Qed.

Lemma all_served_put n sv F P G calls s replies s' :
  map_services !! n = Some sv ->
  (forall g, sv_effect sv (fview _ (F g)) (P g) =
     on_partition (fun q m a m' => a = no_answer /\ m' = put_all_entries q (map (prod_map heap heap) g.2) m) name) ->
  sent_to (sv_format sv) F P G calls -> NoDup G.*1 -> all_served map_services calls s replies s' ->
  s' name = put_groups G (s name) /\ others_kept s s'.
Proof.
  intros Hn He Hs Hd Hall. revert G Hs Hd.
  induction Hall as [s|l1 t m l2 s a s1 reply rs1 rs2 s' Hserve Hr Hlen Hall IH]; intros G Hs Hd.
  - apply Forall2_nil_inv_r in Hs as ->. done.
  - apply Forall2_app_inv_r in Hs as (G1 & G2' & HG1 & HG2 & ->).
    apply Forall2_cons_inv_r in HG2 as (g & G2 & [Ht Hm] & HG2 & ->).
    rewrite fmap_app in Hd. cbn in Hd. apply NoDup_app in Hd as (Hd1 & Hd12 & Hd2). apply NoDup_cons in Hd2 as [Hg Hd2].
    apply (serves_partition n sv F P (fun g q m a m' => a = no_answer /\ m' = put_all_entries q (map (prod_map heap heap) g.2) m) g)
      in Hserve as (m' & [_ ->] & ->); [|done|done|done|apply He].
    destruct (IH (G1 ++ G2)) as [En Ho]; [by apply Forall2_app | |].
    { rewrite fmap_app. apply NoDup_app. split_and!; [done | | done]. intros q Hq Hq2. apply (Hd12 q Hq). by right. }
    rewrite En, set_map_same. split.
    + symmetry. apply put_groups_middle. intros Hin. apply (Hd12 _ Hin). left.
    + eapply others_trans; [apply set_map_others | exact Ho].
Qed.

(** [getAll]: what one partition answers. *)
Definition part_entries (m : gmap (Z * buffer) buffer) (g : Z * list buffer) (l : list (buffer * buffer)) : Prop :=
  NoDup l.*1 /\ forall k v, (k, v) ∈ l <-> k ∈ g.2 /\ m !! (g.1, k) = Some v.

Definition get_all_effect (g : Z * list buffer) (q : Z) (m : gmap (Z * buffer) buffer) (a : answer) m' : Prop :=
  (exists l, a = entries_answer l /\ NoDup l.*1 /\ forall k v, (k, v) ∈ l <-> k ∈ (bytes <$> map heap g.2) /\ m !! (q, k) = Some v) /\
  m' = m.

Lemma bytes_heap l : bytes <$> map heap l = l.
Proof. induction l as [|b l IH]; cbn; [done|]. by f_equal. Qed.

Lemma all_served_get n sv F P G calls s replies s' :
  map_services !! n = Some sv ->
  (forall g, sv_effect sv (fview _ (F g)) (P g) = on_partition (get_all_effect g) name) ->
  sent_to (sv_format sv) F P G calls -> all_served map_services calls s replies s' ->
  s' name = s name /\ others_kept s s' /\
  Forall2 (fun g reply => exists l, reply_of (entries_answer l) reply /\ part_entries (s name) g l) G replies.
Proof.
  intros Hn He Hs Hall. revert G Hs.
  induction Hall as [s|l1 t m l2 s a s1 reply rs1 rs2 s' Hserve Hr Hlen Hall IH]; intros G Hs.
  - apply Forall2_nil_inv_r in Hs as ->. done.
  - apply Forall2_app_inv_r in Hs as (G1 & G2' & HG1 & HG2 & ->).
    apply Forall2_cons_inv_r in HG2 as (g & G2 & [Ht Hm] & HG2 & ->).
    apply (serves_partition n sv F P get_all_effect g) in Hserve as (m' & [(l & -> & Hl) ->] & ->); [|done|done|done|apply He].
    rewrite bytes_heap in Hl. destruct (IH (G1 ++ G2)) as (En & Ho & Hf); [by apply Forall2_app|].
    rewrite set_map_same in En. rewrite set_map_same in Hf.
    apply Forall2_app_inv in Hf as [Hf1 Hf2]; [|apply Forall2_length in HG1; lia].
    split_and!; [done | eapply others_trans; [apply set_map_others | exact Ho] |].
    apply Forall2_app; [done|]. constructor; [by exists l | done].
Qed.

Lemma part_entries_exist M s g : implements M s -> exists l, part_entries (s name) g l /\
  Forall (fun e => valid_bytes e.1 /\ valid_bytes e.2) l.
Proof.
  intros Hi. pose proof Hi as [Em Hv]. exists (map_to_list (filter (fun e : buffer * buffer => e.1 ∈ g.2 /\ pid e.1 = g.1) M)).
  split; [split|].
  - apply NoDup_fst_map_to_list.
  - intros k v. rewrite elem_of_map_to_list, map_lookup_filter_Some, Em, (lookup_kmap_Some (fun k => (pid k, k))). cbn. split.
    + intros (Hk & Hin & Hp). split; [done|]. exists k. by rewrite Hp.
    + intros (Hin & k' & [= Hp ->] & Hk). done.
  - apply Forall_forall. intros [k v] Hin. apply elem_of_map_to_list, map_lookup_filter_Some in Hin as [Hk _]. by apply Hv.
Qed.

(** The entries of all partitions together. *)
Lemma all_entries M s G ls : implements M s -> grouped pid G -> Forall2 (part_entries (s name)) G ls ->
  NoDup (concat ls).*1 /\ forall k v, (k, v) ∈ concat ls <-> k ∈ concat G.*2 /\ M !! k = Some v.
Proof.
  intros Hi [Hs Hp] Hf.
  assert (Forall2 (fun g l => NoDup l.*1 /\ forall k v, (k, v) ∈ l <-> k ∈ g.2 /\ M !! k = Some v) G ls) as Hf'.
  { clear Hs. induction Hf as [|g l G ls [Hn Hl] Hf IH]; [done|]. apply Forall_cons in Hp as [Hg Hp]. constructor; [|by apply IH].
    split; [done|]. intros k v. rewrite Hl. split; intros [Hk Hm]; (split; [done|]); rewrite Forall_forall in Hg.
    - rewrite <- (Hg k Hk), (implements_lookup M s k Hi) in Hm. done.
    - by rewrite <- (Hg k Hk), (implements_lookup M s k Hi). }
  clear Hf. induction Hf' as [|g l G ls [Hn Hl] Hf IH]; cbn.
  { split; [by constructor|]. intros k v. split; [intros Hk | intros [Hk _]]; by apply not_elem_of_nil in Hk. }
  cbn in Hs. apply StronglySorted_inv in Hs as [Hs Hr]. apply Forall_cons in Hp as [Hg Hp].
  destruct (IH Hs Hp) as [Hn' Hl']. split.
  - rewrite fmap_app. apply NoDup_app. split_and!; [done | | done].
    intros k ([k' v] & -> & Hin)%list_elem_of_fmap ([k2 v'] & E & Hin')%list_elem_of_fmap. cbn in E. subst k2.
    apply Hl in Hin as [Hin _]. apply Hl' in Hin' as [Hin' _]. rewrite Forall_forall in Hg. specialize (Hg k' Hin).
    clear -Hin' Hp Hr Hg. induction G as [|[r xs] G IH]; [by apply not_elem_of_nil in Hin'|]. cbn in *.
    apply Forall_cons in Hr as [Hr Hrs]. apply Forall_cons in Hp as [Hx Hp]. apply elem_of_app in Hin' as [Hin|Hin]; [|by apply IH].
    rewrite Forall_forall in Hx. specialize (Hx k' Hin). cbn in Hx. lia.
  - intros k v. rewrite !elem_of_app, Hl, Hl'. tauto.
Qed.

(** ** The contract of the map *)

Inductive MapOp : Type -> Type :=
  | Get (key : V) : MapOp V
  | Put (key value : V) (ttl maxIdle : option (long_arg L)) : MapOp V
  | PutIfAbsent (key value : V) (ttl maxIdle : option (long_arg L)) : MapOp V
  | PutTransient (key value : V) (ttl maxIdle : option (long_arg L)) : MapOp unit
  | SetValue (key value : V) (ttl maxIdle : option (long_arg L)) : MapOp unit
  | Replace (key value : V) : MapOp V
  | ReplaceIfSame (key old new : V) : MapOp bool
  | Remove (key : V) : MapOp (V + bool)
  | RemoveIfSame (key value : V) : MapOp (V + bool)
  | Delete (key : V) : MapOp unit
  | ContainsKey (key : V) : MapOp bool
  | TryPut (key value : V) (timeout : Z) : MapOp bool
  | TryRemove (key : V) (timeout : Z) : MapOp bool
  | SetTtl (key : V) (ttl : Z) : MapOp bool
  | Evict (key : V) : MapOp bool
  | ExecuteOnKey (key entryProcessor : V) : MapOp V
  | ContainsValue (value : V) : MapOp bool
  | Size : MapOp Z
  | IsEmpty : MapOp bool
  | Clear : MapOp unit
  | EvictAll : MapOp unit
  | KeySet : MapOp (list V)
  | EntrySet : MapOp (list (V * V))
  | Values : MapOp (list HeapData)
  | PutAll (pairs : list (V * V)) : MapOp unit
  | SetAll (pairs : list (V * V)) : MapOp unit
  | GetAll (keys : list V) : MapOp (list (V * V)).

Definition method {A} (op : MapOp A) : Proxy L A :=
  match op with
  | Get key => get partitionService name key
  | Put key value ttl maxIdle => put partitionService name key value ttl maxIdle
  | PutIfAbsent key value ttl maxIdle => putIfAbsent partitionService name key value ttl maxIdle
  | PutTransient key value ttl maxIdle => putTransient partitionService name key value ttl maxIdle
  | SetValue key value ttl maxIdle => set partitionService name key value ttl maxIdle
  | Replace key value => replace partitionService name key value
  | ReplaceIfSame key old new => replaceIfSame partitionService name key old new
  | Remove key => remove partitionService name key None
  | RemoveIfSame key value => remove partitionService name key (Some value)
  | Delete key => delete partitionService name key
  | ContainsKey key => containsKey partitionService name key
  | TryPut key value timeout => tryPut partitionService name key value timeout
  | TryRemove key timeout => tryRemove partitionService name key timeout
  | SetTtl key ttl => setTtl partitionService name key ttl
  | Evict key => evict partitionService name key
  | ExecuteOnKey key entryProcessor => executeOnKey partitionService name key entryProcessor
  | ContainsValue value => containsValue name value
  | Size => size name
  | IsEmpty => isEmpty name
  | Clear => clear name
  | EvictAll => evictAll name
  | KeySet => keySet name
  | EntrySet => entrySet name
  | Values => values name
  | PutAll pairs => putAll partitionService name pairs
  | SetAll pairs => setAll partitionService name pairs
  | GetAll keys => getAll partitionService name keys
  end.

(** The arguments are values the client can serialize, and times a long has room for. *)
Definition time_ok (t : option (long_arg L)) : Prop := option_valid long_arg_valid t.
Definition op_ok {A} (op : MapOp A) (M : gmap buffer buffer) : Prop :=
  match op with
  | Get key | Remove key | Delete key | ContainsKey key | Evict key => arg_ok key
  | Put key value ttl maxIdle | PutIfAbsent key value ttl maxIdle | PutTransient key value ttl maxIdle
  | SetValue key value ttl maxIdle => arg_ok key /\ arg_ok value /\ time_ok ttl /\ time_ok maxIdle
  | Replace key value | RemoveIfSame key value | ExecuteOnKey key value => arg_ok key /\ arg_ok value
  | ReplaceIfSame key old new => arg_ok key /\ arg_ok old /\ arg_ok new
  | TryPut key value timeout => arg_ok key /\ arg_ok value /\ in_sint 64 timeout
  | TryRemove key t | SetTtl key t => arg_ok key /\ in_sint 64 t
  | ContainsValue value => arg_ok value
  | Size => Z.of_nat (base.size M) < 2 ^ 31
  | PutAll pairs | SetAll pairs => Forall (fun e => arg_ok e.1 /\ arg_ok e.2) pairs
  | GetAll keys => Forall arg_ok keys
  | _ => True
  end.

(** What the operation does to a map from bytes to bytes, and returns. *)
Definition map_spec {A} (op : MapOp A) (M : gmap buffer buffer) : res A -> gmap buffer buffer -> Prop :=
  match op in MapOp A return res A -> _ -> Prop with
  | Get key => fun r M' => forall k, is_data key k -> r = obj (M !! k) /\ M' = M
  | Put key value _ _ => fun r M' => forall k v, is_data key k -> is_data value v -> r = obj (M !! k) /\ M' = <[k := v]> M
  | PutIfAbsent key value _ _ => fun r M' => forall k v, is_data key k -> is_data value v ->
      r = obj (M !! k) /\ M' = match M !! k with Some _ => M | None => <[k := v]> M end
  | PutTransient key value _ _ | SetValue key value _ _ => fun r M' => forall k v, is_data key k -> is_data value v ->
      r = Ok tt /\ M' = <[k := v]> M
  | Replace key value => fun r M' => forall k v, is_data key k -> is_data value v ->
      r = obj (M !! k) /\ M' = match M !! k with Some _ => <[k := v]> M | None => M end
  | ReplaceIfSame key old new => fun r M' => forall k v w, is_data key k -> is_data old v -> is_data new w ->
      if bool_decide (M !! k = Some v) then r = Ok true /\ M' = <[k := w]> M else r = Ok false /\ M' = M
  | Remove key => fun r M' => forall k, is_data key k -> r = (v ← obj (M !! k); Ok (inl v)) /\ M' = base.delete k M
  | RemoveIfSame key value => fun r M' => forall k v, is_data key k -> is_data value v ->
      if bool_decide (M !! k = Some v) then r = Ok (inr true) /\ M' = base.delete k M else r = Ok (inr false) /\ M' = M
  | Delete key => fun r M' => forall k, is_data key k -> r = Ok tt /\ M' = base.delete k M
  | ContainsKey key => fun r M' => forall k, is_data key k -> r = Ok (bool_decide (is_Some (M !! k))) /\ M' = M
  | TryPut key value _ => fun r M' => forall k v, is_data key k -> is_data value v ->
      r = Ok true /\ M' = <[k := v]> M \/ r = Ok false /\ M' = M
  | TryRemove key _ | Evict key => fun r M' => forall k, is_data key k ->
      r = Ok true /\ M' = base.delete k M \/ r = Ok false /\ M' = M
  | SetTtl key _ => fun r M' => (exists b, r = Ok b) /\ M' = M
  | ExecuteOnKey key _ => fun r M' => forall k, is_data key k ->
      exists o, r = obj o /\ forall k', k' <> k -> M' !! k' = M !! k'
  | ContainsValue value => fun r M' => forall v, is_data value v ->
      r = Ok (bool_decide (v ∈ (map_to_list M).*2)) /\ M' = M
  | Size => fun r M' => r = Ok (Z.of_nat (base.size M)) /\ M' = M
  | IsEmpty => fun r M' => r = Ok (bool_decide (M = ∅)) /\ M' = M
  | Clear => fun r M' => r = Ok tt /\ M' = ∅
  | EvictAll => fun r M' => r = Ok tt /\ M' ⊆ M
  | KeySet => fun r M' => (exists l, l ≡ₚ (map_to_list M).*1 /\ r = deserializeList (map heap l)) /\ M' = M
  | EntrySet => fun r M' =>
      (exists l, l ≡ₚ map_to_list M /\ r = deserializeEntryList (map (prod_map heap heap) l)) /\ M' = M
  | Values => fun r M' => (exists l, l ≡ₚ (map_to_list M).*2 /\ r = Ok (map heap l)) /\ M' = M
  | PutAll pairs | SetAll pairs => fun r M' => forall l,
      Forall2 (fun e b => is_data e.1 b.1 /\ is_data e.2 b.2) pairs l -> r = Ok tt /\ M' = put_pairs M l
  | GetAll keys => fun r M' => forall l, Forall2 is_data keys l -> M' = M /\
      exists es, NoDup es.*1 /\ (forall k v, (k, v) ∈ es <-> k ∈ l /\ M !! k = Some v) /\
        r = deserializeEntryList (map (prod_map heap heap) es)
  end.

(** ** The methods implement the contract *)

Lemma outcome_mono {A} (spec spec' : gmap buffer buffer -> res A -> gmap buffer buffer -> Prop) M s r s' :
  (forall M', spec M r M' -> spec' M r M') -> outcome_ok spec M s r s' -> outcome_ok spec' M s r s'.
Proof. intros Hs (M' & Hi & Ho & Hm). exists M'. auto. Qed.

(** An entry that keeps its value. *)
Lemma alter_same M k o : M !! k = o -> partial_alter (fun _ => o) k M = M.
Proof. intros <-. apply partial_alter_self. Qed.

(** Runs the checks and conversions of a method. *)
#[local] Ltac enter :=
  repeat match goal with H : arg_ok _ |- _ => destruct H as [? H] end;
  repeat match goal with
  | H : serializes ?x _ |- _ =>
      match goal with
      | _ : toData x = _ |- _ => fail 1
      | _ => pose proof (proj1 H); pose proof (proj1 (proj2 H)); pose proof (proj2 (proj2 H))
      end
  end;
  unfold method, get, put, putIfAbsent, putTransient, set, replace, replaceIfSame, remove, delete, containsKey, tryPut, tryRemove,
    setTtl, evict, executeOnKey, containsValue, assertNotNull, try_;
  repeat match goal with
  | H : isNull _ = false |- _ => rewrite H
  | H : toData _ = Ok _ |- _ => rewrite H
  end; cbn [mbind Proxy_bind proxy_bind].

#[local] Ltac same_data :=
  repeat match goal with
  | H : serializes ?x ?b, H' : is_data ?x ?b' |- _ => pose proof (is_data_inj x b b' H H'); subst b'; clear H'
  end.

#[local] Ltac valid_args := cbn; unfold in_sint, time_ok in *; split_and!; try lia; auto with map_proxy; try done.

#[local] Ltac by_data n f p rel :=
  eapply wp_mono; [|eapply (wp_key_data n (service n) f p _ _ rel);
    [reflexivity | reflexivity | valid_args | valid_args | done | reflexivity | intros ? ?; reflexivity | | done]].
#[local] Ltac by_bool n f p rel :=
  eapply wp_mono; [|eapply (wp_key_bool n (service n) f p _ _ rel);
    [reflexivity | reflexivity | valid_args | valid_args | done | reflexivity | intros ? ?; reflexivity | | done]].
#[local] Ltac by_unit n f p new :=
  eapply wp_mono; [|eapply (wp_key_unit n (service n) f p _ _ new);
    [reflexivity | reflexivity | valid_args | valid_args | done | reflexivity | | done]].
#[local] Ltac data_done := intros r s'; apply outcome_mono; intros M' (o & new & Hrel & -> & ->); cbn; intros; same_data.
#[local] Ltac unit_done := intros r s'; apply outcome_mono; intros M' [-> ->]; cbn; intros; same_data.

#[local] Abbreviation T0 := (IsNumber 0 : long_arg L).
#[local] Abbreviation ttl_of t := (default (IsNumber (-1)) t : long_arg L).
#[local] Abbreviation refined op := (forall M s, implements M s -> op_ok op M -> wp_map (method op) (outcome_ok (map_spec op) M s) s).

Lemma get_refined key : refined (Get key).
Proof.
  intros M s Hi [k Hk]. enter. by_data 8%nat (T0, tt) (name, (heap k, tt)) read_rel; [|apply read_rel_ok].
  data_done. destruct Hrel as [-> ->]. split; [done | by apply alter_same].
Qed.

Lemma put_refined key value ttl maxIdle : refined (Put key value ttl maxIdle).
Proof.
  intros M s Hi ([k Hk] & [v Hv] & Ht & Hm). enter. unfold putInternal. destruct maxIdle as [m|], ttl as [t|];
    [by_data 1%nat (T0, (t, (m, tt))) (name, (heap k, (heap v, tt))) (put_rel v)
    |by_data 1%nat (T0, (IsNumber (-1) : long_arg L, (m, tt))) (name, (heap k, (heap v, tt))) (put_rel v)
    |by_data 0%nat (T0, (t, tt)) (name, (heap k, (heap v, tt))) (put_rel v)
    |by_data 0%nat (T0, (IsNumber (-1) : long_arg L, tt)) (name, (heap k, (heap v, tt))) (put_rel v)];
    try (by apply put_rel_ok); data_done; by destruct Hrel as [-> ->].
Qed.

Lemma putIfAbsent_refined key value ttl maxIdle : refined (PutIfAbsent key value ttl maxIdle).
Proof.
  intros M s Hi ([k Hk] & [v Hv] & Ht & Hm). enter. unfold putIfAbsentInternal. destruct maxIdle as [m|], ttl as [t|];
    [by_data 3%nat (T0, (t, (m, tt))) (name, (heap k, (heap v, tt))) (put_absent_rel v)
    |by_data 3%nat (T0, (IsNumber (-1) : long_arg L, (m, tt))) (name, (heap k, (heap v, tt))) (put_absent_rel v)
    |by_data 2%nat (T0, (t, tt)) (name, (heap k, (heap v, tt))) (put_absent_rel v)
    |by_data 2%nat (T0, (IsNumber (-1) : long_arg L, tt)) (name, (heap k, (heap v, tt))) (put_absent_rel v)];
    try (by apply put_absent_rel_ok); data_done; destruct Hrel as [-> ->]; (split; [done|]); destruct (M !! k) eqn:E;
    [by apply alter_same | done | by apply alter_same | done | by apply alter_same | done | by apply alter_same | done].
Qed.

Lemma putTransient_refined key value ttl maxIdle : refined (PutTransient key value ttl maxIdle).
Proof.
  intros M s Hi ([k Hk] & [v Hv] & Ht & Hm). enter. unfold putTransientInternal. destruct maxIdle as [m|], ttl as [t|];
    [by_unit 5%nat (T0, (t, (m, tt))) (name, (heap k, (heap v, tt))) (Some v)
    |by_unit 5%nat (T0, (IsNumber (-1) : long_arg L, (m, tt))) (name, (heap k, (heap v, tt))) (Some v)
    |by_unit 4%nat (T0, (t, tt)) (name, (heap k, (heap v, tt))) (Some v)
    |by_unit 4%nat (T0, (IsNumber (-1) : long_arg L, tt)) (name, (heap k, (heap v, tt))) (Some v)];
    try done; by unit_done.
Qed.

Lemma set_refined key value ttl maxIdle : refined (SetValue key value ttl maxIdle).
Proof.
  intros M s Hi ([k Hk] & [v Hv] & Ht & Hm). enter. unfold setInternal. destruct maxIdle as [m|], ttl as [t|];
    [by_unit 7%nat (T0, (t, (m, tt))) (name, (heap k, (heap v, tt))) (Some v)
    |by_unit 7%nat (T0, (IsNumber (-1) : long_arg L, (m, tt))) (name, (heap k, (heap v, tt))) (Some v)
    |by_unit 6%nat (T0, (t, tt)) (name, (heap k, (heap v, tt))) (Some v)
    |by_unit 6%nat (T0, (IsNumber (-1) : long_arg L, tt)) (name, (heap k, (heap v, tt))) (Some v)];
    try done; by unit_done.
Qed.

Lemma replace_refined key value : refined (Replace key value).
Proof.
  intros M s Hi ([k Hk] & [v Hv]). enter. unfold replaceInternal.
  by_data 14%nat (T0, tt) (name, (heap k, (heap v, tt))) (replace_rel v); [|by apply replace_rel_ok].
  data_done. destruct Hrel as [-> ->]. split; [done|]. destruct (M !! k) eqn:E; [done | by apply alter_same].
Qed.

Lemma replaceIfSame_refined key oldValue newValue : refined (ReplaceIfSame key oldValue newValue).
Proof.
  intros M s Hi ([k Hk] & [v Hv] & [w Hw]). enter. unfold replaceIfSameInternal.
  by_bool 15%nat (T0, tt) (name, (heap k, (heap v, (heap w, tt)))) (replace_same_rel v w); [|by apply replace_same_rel_ok].
  data_done. destruct Hrel as [-> ->]. case_bool_decide; [done|]. split; [done | by apply alter_same].
Qed.

Lemma remove_refined key : refined (Remove key).
Proof.
  intros M s Hi [k Hk]. enter. unfold removeInternal.
  eapply (wp_on_key 9%nat (service 9) (T0, tt) (name, (heap k, tt)) _ k _ _ s M (data_effect remove_rel));
    [reflexivity | reflexivity | valid_args | valid_args | done | done | reflexivity | |].
  - exists (data_answer (M !! k)), None. split; [by exists (M !! k) | eauto with map_proxy].
  - intros a new rep s' (o & -> & -> & ->) Hr Hi' Ho.
    rewrite (decode_param (reply (nullable_codec data_codec)) MapRemoveCodec_decodeResponse id _ _ ltac:(intros ? ?; reflexivity) Hr). cbn. unfold id, try_.
    assert (outcome_ok (map_spec (Remove key)) M s (v ← obj (M !! k); Ok (inl v)) s') as Hok.
    { exists (base.delete k M). split_and!; [by apply Hi' | done |]. cbn. intros k' Hk'. same_data. done. }
    unfold obj in Hok. by destruct (toObject (heap <$> M !! k)).
Qed.

Lemma removeIfSame_refined key value : refined (RemoveIfSame key value).
Proof.
  intros M s Hi ([k Hk] & [v Hv]). enter. unfold removeInternal, try_.
  match goal with E : toData value = _ |- _ => rewrite E end. cbn [mbind Proxy_bind proxy_bind].
  eapply (wp_on_key 10%nat (service 10) (T0, tt) (name, (heap k, (heap v, tt))) _ k _ _ s M (bool_effect (remove_same_rel v)));
    [reflexivity | reflexivity | valid_args | valid_args | done | done | reflexivity | |].
  - eexists (bool_answer _), _. split; [by eexists | apply answerable_bool].
  - intros a new rep s' (b & -> & -> & ->) Hr Hi' Ho.
    rewrite (decode_field F_boolean MapRemoveIfSameCodec_decodeResponse id _ _ ltac:(intros ? ?; reflexivity) Hr). cbn. unfold id.
    eexists. split_and!; [apply Hi' | done |].
    + case_bool_decide; [done | eauto with map_proxy].
    + cbn. intros k' v' Hk' Hv'. same_data. case_bool_decide; [done|]. split; [done | by apply alter_same].
Qed.

Lemma delete_refined key : refined (Delete key).
Proof.
  intros M s Hi [k Hk]. enter. unfold deleteInternal.
  by_unit 11%nat (T0, tt) (name, (heap k, tt)) (None : option buffer); [|done]. by unit_done.
Qed.

Lemma containsKey_refined key : refined (ContainsKey key).
Proof.
  intros M s Hi [k Hk]. enter. unfold containsKeyInternal.
  by_bool 12%nat (T0, tt) (name, (heap k, tt)) contains_rel; [|apply contains_rel_ok].
  data_done. destruct Hrel as [-> ->]. split; [done | by apply alter_same].
Qed.

Lemma tryPut_refined key value timeout : refined (TryPut key value timeout).
Proof.
  intros M s Hi ([k Hk] & [v Hv] & Ht). enter. unfold tryPutInternal.
  by_bool 16%nat (T0, (IsNumber timeout : long_arg L, tt)) (name, (heap k, (heap v, tt))) (try_put_rel v); [|by apply try_put_rel_ok].
  data_done. rewrite Hrel. destruct o; [by left|]. right. split; [done | by apply alter_same].
Qed.

Lemma tryRemove_refined key timeout : refined (TryRemove key timeout).
Proof.
  intros M s Hi ([k Hk] & Ht). enter. unfold tryRemoveInternal.
  by_bool 17%nat (T0, (IsNumber timeout : long_arg L, tt)) (name, (heap k, tt)) try_remove_rel; [|apply try_remove_rel_ok].
  data_done. rewrite Hrel. destruct o; [by left|]. right. split; [done | by apply alter_same].
Qed.

Lemma setTtl_refined key ttl : refined (SetTtl key ttl).
Proof.
  intros M s Hi ([k Hk] & Ht). enter. unfold setTtlInternal.
  by_bool 18%nat (IsNumber ttl : long_arg L, tt) (name, (heap k, tt)) ttl_rel; [|apply ttl_rel_ok].
  data_done. rewrite Hrel. split; [by exists o | by apply alter_same].
Qed.

Lemma evict_refined key : refined (Evict key).
Proof.
  intros M s Hi [k Hk]. enter. unfold evictInternal.
  by_bool 19%nat (T0, tt) (name, (heap k, tt)) try_remove_rel; [|apply try_remove_rel_ok].
  data_done. rewrite Hrel. destruct o; [by left|]. right. split; [done | by apply alter_same].
Qed.

Lemma executeOnKey_refined key entryProcessor : refined (ExecuteOnKey key entryProcessor).
Proof.
  intros M s Hi ([k Hk] & [v Hv]). enter. unfold executeOnKeyInternal.
  by_data 20%nat (IsNumber 1 : long_arg L, tt) (name, (heap v, (heap k, tt))) execute_rel; [|apply execute_rel_ok].
  data_done. exists o. split; [done|]. intros k' Hne. by rewrite lookup_partial_alter_ne.
Qed.

#[local] Ltac call_map n p := eapply (wp_on_map n (service n) tt p);
  [reflexivity | reflexivity | exact I | valid_args | reflexivity | |].
#[local] Abbreviation data_list := (reply (list_codec data_codec)).
#[local] Abbreviation data_entries := (reply (entry_list_codec (CK := data_codec) (CV := data_codec))).

Lemma containsValue_refined value : refined (ContainsValue value).
Proof.
  intros M s Hi [v Hv]. enter. call_map 13%nat (name, (heap v, tt)).
  - eexists (bool_answer _), _. split; [done | apply answerable_bool].
  - intros a m rep [-> ->] Hr. rewrite (decode_field F_boolean MapContainsValueCodec_decodeResponse id _ _ ltac:(intros ? ?; reflexivity) Hr).
    apply outcome_read; [done|]. cbn. intros v' Hv'. same_data. split; [|done]. unfold id. f_equal. apply bool_decide_ext.
    by rewrite (entries_values M s Hi).
Qed.

Lemma size_refined : refined Size.
Proof.
  intros M s Hi Hs. cbn in Hs. unfold method, size. call_map 21%nat (name, tt).
  - eexists (int_answer _), _. split; [done|]. apply (answerable_field fixed_int). rewrite (map_size_same M s Hi). unfold in_sint. lia.
  - intros a m rep [-> ->] Hr. rewrite (decode_field F_int MapSizeCodec_decodeResponse id _ _ ltac:(intros ? ?; reflexivity) Hr).
    apply outcome_read; [done|]. cbn. by rewrite (map_size_same M s Hi).
Qed.

Lemma isEmpty_refined : refined IsEmpty.
Proof.
  intros M s Hi _. unfold method, isEmpty. call_map 22%nat (name, tt).
  - eexists (bool_answer _), _. split; [done | apply answerable_bool].
  - intros a m rep [-> ->] Hr. rewrite (decode_field F_boolean MapIsEmptyCodec_decodeResponse id _ _ ltac:(intros ? ?; reflexivity) Hr).
    apply outcome_read; [done|]. cbn. split; [|done]. unfold id. f_equal. apply bool_decide_ext. destruct Hi as [-> _].
    apply (kmap_empty_iff (fun k => (pid k, k))).
Qed.

Lemma clear_refined : refined Clear.
Proof.
  intros M s Hi _. unfold method, clear, ignore_response. call_map 23%nat (name, tt).
  - exists no_answer, ∅. split; [done | apply answerable_none].
  - intros a m rep [-> ->] Hr. exists ∅. split_and!; [|apply set_map_others|done]. split; [|done].
    rewrite set_map_same. symmetry. apply kmap_empty.
Qed.

Lemma evictAll_refined : refined EvictAll.
Proof.
  intros M s Hi _. unfold method, evictAll, ignore_response. call_map 24%nat (name, tt).
  - exists no_answer, (s name). split; [done | apply answerable_none].
  - intros a m rep [-> Hm] Hr. destruct (subset_implements M s m Hi Hm) as (M' & HM & Hi'). exists M'.
    split_and!; [done | apply set_map_others | done].
Qed.

Lemma keySet_refined : refined KeySet.
Proof.
  intros M s Hi _. unfold method, keySet. call_map 25%nat (name, tt).
  - eexists (list_answer _), _. split; [split; [by eexists | done]|]. apply answerable_list.
    rewrite (entries_keys M s Hi). apply Forall_fmap. eapply Forall_impl; [by eapply entries_valid|]. by intros e [].
  - intros a m rep [(l & -> & Hl) ->] Hr.
    rewrite (decode_param data_list MapKeySetCodec_decodeResponse id _ _ ltac:(intros ? ?; reflexivity) Hr).
    apply outcome_read; [done|]. cbn. split; [|done]. exists l. split; [by rewrite Hl, (entries_keys M s Hi) | done].
Qed.

Lemma entrySet_refined : refined EntrySet.
Proof.
  intros M s Hi _. unfold method, entrySet. call_map 26%nat (name, tt).
  - eexists (entries_answer _), _. split; [split; [by eexists | done]|]. apply answerable_entries.
    rewrite (entries_entries M s Hi). by eapply entries_valid.
  - intros a m rep [(l & -> & Hl) ->] Hr.
    rewrite (decode_param data_entries MapEntrySetCodec_decodeResponse id _ _ ltac:(intros ? ?; reflexivity) Hr).
    apply outcome_read; [done|]. cbn. split; [|done]. exists l. split; [by rewrite Hl, (entries_entries M s Hi) | done].
Qed.

Lemma values_refined : refined Values.
Proof.
  intros M s Hi _. unfold method, values. call_map 27%nat (name, tt).
  - eexists (list_answer _), _. split; [split; [by eexists | done]|]. apply answerable_list.
    rewrite (entries_values M s Hi). apply Forall_fmap. eapply Forall_impl; [by eapply entries_valid|]. by intros e [].
  - intros a m rep [(l & -> & Hl) ->] Hr.
    rewrite (decode_param data_list MapValuesCodec_decodeResponse id _ _ ltac:(intros ? ?; reflexivity) Hr).
    apply outcome_read; [done|]. cbn. split; [|done]. exists l. split; [by rewrite Hl, (entries_values M s Hi) | done].
Qed.

(** *** putAll and getAll *)

Lemma group_pairs_ok pairs l : Forall2 (fun e b => serializes e.1 b.1 /\ serializes e.2 b.2) pairs l -> forall G,
  group_pairs partitionService pairs (map (fun g => (g.1, map (prod_map heap heap) g.2)) G) =
  Ok (map (fun g => (g.1, map (prod_map heap heap) g.2)) (foldl (fun G e => push_to (pid e.1) e G) G l)).
Proof.
  induction 1 as [|[x y] [k v] pairs l [(_ & Ek & _) (_ & Ev & _)] _ IH]; intros G; [done|]. cbn in *.
  rewrite Ek, res_bind_ok, (partition_pid partitionService _ partitions_known), res_bind_ok, Ev, res_bind_ok.
  rewrite (push_map (prod_map heap heap) (pid k) (k, v)). apply IH.
Qed.

Lemma group_keys_ok keys l : Forall2 serializes keys l -> forall G,
  group_keys partitionService keys (map (fun g => (g.1, map heap g.2)) G) =
  Ok (map (fun g => (g.1, map heap g.2)) (foldl (fun G k => push_to (pid k) k G) G l)).
Proof.
  induction 1 as [|x k keys l (_ & Ek & _) _ IH]; intros G; [done|]. cbn in *.
  rewrite Ek, res_bind_ok, (partition_pid partitionService _ partitions_known), res_bind_ok. rewrite (push_map heap (pid k) k). apply IH.
Qed.

(** The groups of a list of pairs or keys. *)
Lemma groups_ok {A} (part : A -> Z) (l : list A) : forall G, grouped part G ->
  grouped part (foldl (fun G x => push_to (part x) x G) G l) /\
  concat (foldl (fun G x => push_to (part x) x G) G l).*2 ≡ₚ concat G.*2 ++ l.
Proof.
  induction l as [|x l IH]; intros G HG; cbn; [by rewrite app_nil_r|].
  destruct (IH _ (push_grouped part x G HG)) as [Hg Hp]. split; [done|]. rewrite Hp, push_perm. cbn.
  by rewrite <- Permutation_middle.
Qed.

Lemma groups_put l : forall G M, grouped (fun e : buffer * buffer => pid e.1) G ->
  put_pairs M (concat (foldl (fun G e => push_to (pid e.1) e G) G l).*2) = put_pairs (put_pairs M (concat G.*2)) l.
Proof.
  induction l as [|[k v] l IH]; intros G M HG; [done|]. cbn. rewrite IH by (by apply (push_grouped (fun e => pid e.1) (k, v))).
  by rewrite push_put_pairs.
Qed.

Lemma put_pairs_valid M l : map_Forall (fun k v => valid_bytes k /\ valid_bytes v) M ->
  Forall (fun e => valid_bytes e.1 /\ valid_bytes e.2) l ->
  map_Forall (fun k v => valid_bytes k /\ valid_bytes v) (put_pairs M l).
Proof.
  intros HM Hl. revert M HM. induction Hl as [|[k v] l Hk _ IH]; intros M HM; [done|]. cbn. apply IH.
  by apply map_Forall_insert_2.
Qed.

Lemma groups_valid {A} (part : A -> Z) (P : A -> Prop) (l : list A) : Forall P l ->
  Forall (fun g => Forall P g.2) (foldl (fun G x => push_to (part x) x G) [] l).
Proof.
  intros Hl. destruct (groups_ok part l [] ltac:(by split; constructor)) as [_ Hp]. cbn in Hp. rewrite <- Hp in Hl.
  apply Forall_concat in Hl. by rewrite Forall_fmap in Hl.
Qed.

Lemma arg_pairs (xs : list (V * V)) : Forall (fun e => arg_ok e.1 /\ arg_ok e.2) xs ->
  exists l, Forall2 (fun e b => serializes e.1 b.1 /\ serializes e.2 b.2) xs l.
Proof.
  induction 1 as [|x xs [[k Hk] [v Hv]] _ [l Hl]]; [by exists []|]. exists ((k, v) :: l). by constructor.
Qed.

(** The calls to the partitions, and what follows from their replies. *)
Lemma wp_partitions {A B : Type} n (F : Z * A -> fargs (rf_fields (sv_format (service n)))) (P : Z * A -> pargs (rf_params (sv_format (service n))))
    (G : list (Z * A)) (I : Maps -> Prop) (eff : Z * A -> Z -> gmap (Z * buffer) buffer -> answer -> gmap (Z * buffer) buffer -> Prop)
    (k : list frames -> Proxy L B) (Q : res B -> Maps -> Prop) s :
  map_services !! n = Some (service n) -> Forall (fun g => fvalid _ (F g) /\ pvalid _ (P g)) G ->
  (forall g, sv_effect (service n) (fview _ (F g)) (P g) = on_partition (eff g) name) -> I s ->
  (forall g s, g ∈ G -> I s -> exists a m, eff g g.1 (s name) a m /\ answerable a /\ I (set_map name m s)) ->
  (forall calls replies s', sent_to _ F P G calls -> all_served map_services calls s replies s' -> wp_map (k replies) Q s') ->
  wp_map (invokeOnPartitions (map (fun g => (g.1, rf_encode (sv_format (service n)) (F g) (P g))) G) ≫= k) Q s.
Proof.
  intros Hn HG He Hs Hex Hk. pose proof (Forall_lookup_1 _ _ _ _ map_services_conform Hn) as Hc.
  destruct (encode_all_ok (L := L) _ F P G Hc HG) as (calls & E & Hcalls). unfold invokeOnPartitions. rewrite E.
  cbn [try_ mbind Proxy_bind proxy_bind wp]. split; [|intros replies s' Hall; by eapply Hk].
  eapply (all_served_exists map_services I calls s Hs). intros s1 t m Hs1 Hin.
  apply list_elem_of_lookup in Hin as [i Hi]. destruct (Forall2_lookup_r _ _ _ _ _ Hcalls Hi) as (g & Hg & Ht & Hm). cbn in Ht, Hm.
  destruct (Hex g s1) as (a & m' & Ha & Han & HI); [by eapply list_elem_of_lookup_2 | done |].
  exists a, (set_map name m' s1). split_and!; [|done|done]. apply (serves_partition n (service n) F P eff g); try done. by exists m'.
Qed.

Lemma putAll_ok b pairs M s : implements M s -> Forall (fun e => arg_ok e.1 /\ arg_ok e.2) pairs ->
  wp_map (putAllInternal partitionService name pairs b) (outcome_ok (map_spec (PutAll pairs)) M s) s.
Proof.
  intros Hi Hp. destruct (arg_pairs pairs Hp) as [l Hl]. unfold putAllInternal.
  pose proof (group_pairs_ok pairs l Hl []) as Eg. cbn [map] in Eg. rewrite Eg, try_ok.
  set (G := foldl _ _ l). rewrite map_map.
  assert (Forall (fun e => valid_bytes e.1 /\ valid_bytes e.2) l) as Hval.
  { apply Forall_forall. intros e [i He]%list_elem_of_lookup. destruct (Forall2_lookup_r _ _ _ _ _ Hl He) as (x & _ & (_ & _ & ?) & _ & _ & ?). done. }
  destruct (groups_ok (fun e : buffer * buffer => pid e.1) l [] ltac:(by split; constructor)) as [Hg _]. fold G in Hg.
  apply (wp_partitions 28%nat (fun g => (b, tt)) (fun g => (name, (map (prod_map heap heap) g.2, tt))) G (fun _ => True)
    (fun g q m a m' => a = no_answer /\ m' = put_all_entries q (map (prod_map heap heap) g.2) m)); try done.
  - pose proof (groups_valid (fun e : buffer * buffer => pid e.1) _ l Hval) as HG. fold G in HG.
    eapply Forall_impl; [exact HG|]. intros g Hg'. split; [done|]. cbn. split_and!; [done | | done]. apply Forall_fmap.
    eapply Forall_impl; [exact Hg'|]. intros e [? ?]. split; by apply data_valid_heap.
  - intros g s1 _ _. eexists _, _. split; [done|]. split; [apply answerable_none | done].
  - intros calls replies s' Hsent Hall.
    destruct (all_served_put 28%nat (service 28) (fun g => (b, tt)) (fun g => (name, (map (prod_map heap heap) g.2, tt)))
      G calls s replies s' eq_refl (fun g => eq_refl) Hsent (grouped_nodup _ _ Hg) Hall) as [En Ho].
    cbn. exists (put_pairs M l). split_and!; [|done|].
    + split; [|by apply put_pairs_valid; [apply Hi|]]. destruct Hi as [Em _]. rewrite En, Em, put_groups_kmap by (by destruct Hg).
      f_equal. unfold G. by rewrite groups_put by (by split; constructor).
    + intros l' Hl'. split; [done|]. f_equal. clear -Hl Hl'. revert l' Hl'.
      induction Hl as [|x [k v] pairs l [Hk Hv] _ IH]; intros l' Hl'; [by apply Forall2_nil_inv_l in Hl' as ->|].
      apply Forall2_cons_inv_l in Hl' as ([k' v'] & l2 & [Hk' Hv'] & Hl2 & ->). cbn in *. same_data. f_equal. by apply IH.
Qed.

Lemma decode_entries_each (G : list (Z * list buffer)) (replies : list frames) (m : gmap (Z * buffer) buffer) :
  Forall2 (fun g rep => exists l, reply_of (entries_answer l) rep /\ part_entries m g l) G replies ->
  exists ls, decode_each MapGetAllCodec_decodeResponse replies = Ok (map (map (prod_map heap heap)) ls) /\
    Forall2 (part_entries m) G ls.
Proof.
  induction 1 as [|g rep G replies (l & Hr & Hl) _ (ls & E & Hls)]; [by exists []|]. exists (l :: ls). split; [|by constructor].
  pose proof (decode_param (L := L) data_entries MapGetAllCodec_decodeResponse id _ _ ltac:(intros ? ?; reflexivity) Hr) as D.
  unfold decodeResponse in D. cbn. destruct (MapGetAllCodec_decodeResponse rep) as [[x rest]|]; [|done].
  injection D as ->. cbn. rewrite E. done.
Qed.

Lemma concat_map_map {A B} (h : A -> B) (ls : list (list A)) : concat (map (map h) ls) = map h (concat ls).
Proof. induction ls as [|l ls IH]; cbn; [done|]. by rewrite map_app, IH. Qed.

Lemma getAll_refined keys : refined (GetAll keys).
Proof.
  intros M s Hi Hk. cbn in Hk. destruct (arg_list keys Hk) as [l Hl]. unfold method, getAll, getAllInternal.
  pose proof (group_keys_ok keys l Hl []) as Eg. cbn [map] in Eg. rewrite Eg, try_ok.
  set (G := foldl _ _ l). rewrite map_map. apply wp_bind.
  assert (Forall valid_bytes l) as Hval.
  { apply Forall_forall. intros e [i He]%list_elem_of_lookup. destruct (Forall2_lookup_r _ _ _ _ _ Hl He) as (x & _ & _ & _ & ?). done. }
  destruct (groups_ok pid l [] ltac:(by split; constructor)) as [Hg Hperm]. fold G in Hg, Hperm. cbn in Hperm.
  apply (wp_partitions 29%nat (fun g => tt) (fun g => (name, (map heap g.2, tt))) G (implements M) get_all_effect); try done.
  - pose proof (groups_valid pid _ l Hval) as HG. fold G in HG. eapply Forall_impl; [exact HG|]. intros g Hg'.
    split; [done|]. cbn. split_and!; [done | | done]. apply Forall_fmap. eapply Forall_impl; [exact Hg'|]. apply data_valid_heap.
  - intros g s1 _ Hi1. destruct (part_entries_exist M s1 g Hi1) as (es & [Hn He] & Hv).
    exists (entries_answer es), (s1 name). split_and!; [|by apply answerable_entries | by apply implements_same].
    split; [|done]. exists es. by rewrite bytes_heap.
  - intros calls replies s' Hsent Hall.
    destruct (all_served_get 29%nat (service 29) (fun g => tt) (fun g => (name, (map heap g.2, tt))) G calls s replies s'
      eq_refl (fun g => eq_refl) Hsent Hall) as (En & Ho & Hf).
    destruct (decode_entries_each G replies (s name) Hf) as (ls & E & Hls).
    destruct (all_entries M s G ls Hi Hg Hls) as [Hn He]. rewrite E, try_ok, concat_map_map.
    assert (outcome_ok (map_spec (GetAll keys)) M s (deserializeEntryList (map (prod_map heap heap) (concat ls))) s') as Hok.
    { exists M. split_and!; [destruct Hi; split; [by rewrite En | done] | done |]. cbn. intros l' Hl'.
      assert (l' = l) as ->.
      { clear -Hl Hl'. revert l' Hl'. induction Hl as [|x k keys l Hk _ IH]; intros l' Hl'; [by apply Forall2_nil_inv_l in Hl' as ->|].
        apply Forall2_cons_inv_l in Hl' as (k' & l2 & Hk' & Hl2 & ->). cbn in *. same_data. f_equal. by apply IH. }
      split; [done|]. exists (concat ls). split_and!; [done | | done]. intros k v. by rewrite He, Hperm. }
    by destruct (deserializeEntryList (map (prod_map heap heap) (concat ls))).
Qed.

Lemma map_refined {A} (op : MapOp A) : refined op.
Proof.
  destruct op; auto using get_refined, put_refined, putIfAbsent_refined, putTransient_refined, set_refined, replace_refined,
    replaceIfSame_refined, remove_refined, removeIfSame_refined, delete_refined, containsKey_refined, tryPut_refined,
    tryRemove_refined, setTtl_refined, evict_refined, executeOnKey_refined, containsValue_refined, size_refined,
    isEmpty_refined, clear_refined, evictAll_refined, keySet_refined, entrySet_refined, values_refined, getAll_refined.
  - intros M s Hi Hp. by apply putAll_ok.
  - intros M s Hi Hp. by apply putAll_ok.
Qed.
End MapRefinement.

(** ** Properties *)

(** C2: the 27 operations of [MapProxy] on entries are those of one map: [get], [put], [putIfAbsent], [putTransient],
    [set], [replace], [replaceIfSame], [remove] of a key, [remove] of a key with a value, [delete], [containsKey], [tryPut],
    [tryRemove], [setTtl], [evict], [executeOnKey], [containsValue], [size], [isEmpty], [clear], [evictAll], [keySet],
    [entrySet], [values], [putAll], [setAll] and [getAll]. If the members hold the entries of a map [M], each in the
    partition of its key, then each of these with serializable arguments and times that fit in a long ([size]: of fewer
    than 2^31 entries) settles when its requests are answered, and
    however they are answered (also those [putAll], [setAll] and [getAll] send to several partitions at once, in any order) it
    returns what its contract says about [M], the members hold the entries of the map the contract leaves, each again
    in the partition of its key, and no other map changes. The other methods are not operations of this theorem: locks, [flush],
    loading, indexes, processors on many entries; entry views, aggregations, queries with a predicate and listeners have
    theorems of their own in [MapQueries.v]. *)
Theorem map_proxy_refines_map `{Uninit} {L} `{LongLaws L} {V} `{ObjectSerialization V} {A}
    (partitionService : PartitionServiceImpl L) (name : string) (op : MapOp A) (M : gmap buffer buffer) (s : Maps) :
  0 < partitionCount partitionService -> implements partitionService name M s -> op_ok op M ->
  (exists r s', runs map_services (method partitionService name op) s r s') /\
  forall r s', runs map_services (method partitionService name op) s r s' ->
    exists M', implements partitionService name M' s' /\ (forall n, n <> name -> s' n = s n) /\ map_spec op M r M'.
Proof. intros Hc Hi Hop. apply wp_sound. by apply map_refined. Qed.

(** What is set is what is read: if the conversions are inverse on a value, then [set] followed by [get] of the same key
    returns the value, and leaves the other entries of the map as they were. *)
Theorem set_then_get_value `{Uninit} {L} `{LongLaws L} {V} `{ObjectSerialization V}
    (partitionService : PartitionServiceImpl L) (name : string) (key value : V) (k v : buffer)
    (ttl maxIdle : option (long_arg L)) (M : gmap buffer buffer) (s : Maps) (r : res V) (s' : Maps) :
  0 < partitionCount partitionService -> implements partitionService name M s ->
  serializes key k -> serializes value v -> time_ok ttl -> time_ok maxIdle -> toObject (Some (heap v)) = Ok value ->
  runs map_services (_ ← set partitionService name key value ttl maxIdle; get partitionService name key) s r s' ->
  r = Ok value /\ implements partitionService name (<[k := v]> M) s'.
Proof.
  intros Hc Hi Hk Hv Ht Hm Eo Hrun.
  set (Q := fun (r : res V) s' => r = Ok value /\ implements partitionService name (<[k := v]> M) s').
  refine (proj2 (wp_sound map_services _ Q s _) r s' Hrun). apply wp_bind.
  eapply wp_mono; [|apply (set_refined partitionService name Hc key value ttl maxIdle M s Hi)];
    [|cbn; split_and!; [by exists k | by exists v | done | done]].
  intros r1 s1 (M1 & Hi1 & _ & Hs). destruct (Hs k v (proj1 (proj2 Hk)) (proj1 (proj2 Hv))) as [-> ->].
  eapply wp_mono; [|apply (get_refined partitionService name Hc key _ s1 Hi1); by exists k].
  intros r2 s2 (M2 & Hi2 & _ & Hg). destruct (Hg k (proj1 (proj2 Hk))) as [-> ->]. split; [|done].
  unfold obj. by rewrite lookup_insert_eq.
Qed.

(** ** Witnesses *)

#[local] Existing Instances bool_serialization demo_uninit.

Definition demo_partitions : PartitionServiceImpl Int64.t := mkPartitionService (newPartitionTable (L := Int64.t)) 271.

Lemma demo_empty : implements demo_partitions "m" ∅ (fun _ => ∅).
Proof. split; [symmetry; apply kmap_empty | done]. Qed.

Lemma map_proxy_refines_map_witness :
  exists r s', runs map_services (method demo_partitions "m" (Put true false None None)) (fun _ => ∅) r s' /\
    r = Ok false /\ implements demo_partitions "m" {[ demo_bytes true := demo_bytes false ]} s'.
Proof.
  destruct (map_proxy_refines_map demo_partitions "m" (Put true false None None) ∅ (fun _ => ∅)) as [(r & s' & Hr) Hall].
  - reflexivity.
  - apply demo_empty.
  - split; [exists (demo_bytes true); apply demo_serializes|]. split; [exists (demo_bytes false); apply demo_serializes|]. by split.
  - destruct (Hall r s' Hr) as (M' & Hi & _ & Hs). exists r, s'. split; [exact Hr|].
    destruct (Hs (demo_bytes true) (demo_bytes false) eq_refl eq_refl) as [-> ->]. split; [reflexivity | exact Hi].
Defined.

Lemma demo_set_get_runs : exists r s',
  runs map_services (_ ← set demo_partitions "m" true false None None; get demo_partitions "m" true) (fun _ => ∅) r s'.
Proof.
  apply (wp_sound map_services _ (fun _ _ => True)). apply wp_bind.
  eapply wp_mono; [|apply (set_refined demo_partitions "m" ltac:(done) true false None None ∅ _ demo_empty)].
  - intros r s (M & Hi & _ & Hs). destruct (Hs (demo_bytes true) (demo_bytes false) eq_refl eq_refl) as [-> ->].
    eapply wp_mono; [|apply (get_refined demo_partitions "m" ltac:(done) true _ s Hi)]; [done|].
    exists (demo_bytes true). apply demo_serializes.
  - split; [exists (demo_bytes true); apply demo_serializes|]. split; [exists (demo_bytes false); apply demo_serializes|]. by split.
Qed.

Lemma set_then_get_value_witness : exists r s',
  runs map_services (_ ← set demo_partitions "m" true false None None; get demo_partitions "m" true) (fun _ => ∅) r s' /\
  r = Ok false.
Proof.
  destruct demo_set_get_runs as (r & s' & Hr). exists r, s'. split; [exact Hr|].
  apply (set_then_get_value demo_partitions "m" true false (demo_bytes true) (demo_bytes false) None None ∅ (fun _ => ∅) r s').
  - reflexivity.
  - apply demo_empty.
  - apply demo_serializes.
  - apply demo_serializes.
  - exact I.
  - exact I.
  - reflexivity.
  - exact Hr.
Defined.
