(* ===== verification/CollectionCore.v ===== *)
(** * Objects kept in one partition

    [PartitionSpecificProxy] of [src/src/proxy/PartitionSpecificProxy.ts], the base of the proxies of lists, queues and sets: all
    requests go to the partition of the name. [ReadOnlyLazyList] of [src/src/core/ReadOnlyLazyList.ts]. The members of such
    objects, and the correspondence between a list of values and the list of their bytes. *)

From S2P Require Export Prelude ProxyCore UuidText.

(** ** PartitionSpecificProxy *)

Record PartitionSpecificProxy := mkPartitionSpecificProxy { px_name : string; partitionId : Z }.

Section PartitionSpecificProxy.
Context {L : Type}.

(** The constructor; the key is a string, which the partition service serializes. *)
Definition newPartitionSpecificProxy (serializeName : string -> HeapData) (partitionService : PartitionServiceImpl L)
    (name : string) : res PartitionSpecificProxy :=
  partitionId ← getPartitionId serializeName partitionService (inr name);
  Ok (mkPartitionSpecificProxy name partitionId).

Definition encodeInvoke (proxy : PartitionSpecificProxy) (request : res Request) : Proxy L frames :=
  encodeInvokeOnPartition request (partitionId proxy).

(** [.then(() => {})]. *)
Definition ignore_answer (p : Proxy L frames) : Proxy L unit := _ ← p; mret tt.
End PartitionSpecificProxy.

(** ** ReadOnlyLazyList *)

Module LazyList.
Section LazyList.
Context {V : Type} `{ObjectSerialization V}.

(** An element of [internalArray]; [isData] tells them apart. *)
Inductive element := IsData (d : HeapData) | IsObject (v : V).

(** [None] is [undefined]. *)
Definition get (index : nat) (internalArray : list element) : res (option V * list element) :=
  match internalArray !! index with
  | None => Ok (None, internalArray)
  | Some (IsData d) => v ← toObject (Some d); Ok (Some v, <[index := IsObject v]> internalArray)
  | Some (IsObject v) => Ok (if isNull v then None else Some v, internalArray)
  end.

Definition size (internalArray : list element) : nat := length internalArray.

(** [ReadOnlyLazyListIterator]: the index, and the list it reads. *)
Definition next (index : nat) (l : list element) : res (option (option V) * nat * list element) :=
  if (index <? size l)%nat then '(v, l) ← get index l; Ok (Some v, S index, l) else Ok (None, index, l).

Fixpoint push_all (fuel : nat) (index : nat) (arr : list (option V)) (l : list element)
    : res (list (option V) * list element) :=
  match fuel with
  | O => Err OutOfFuel
  | S fuel =>
      '(item, index, l) ← next index l;
      match item with Some v => push_all fuel index (arr ++ [v]) l | None => Ok (arr, l) end
  end.
Definition toArray (l : list element) : res (list (option V) * list element) := push_all (S (size l)) 0 [] l.

(** [slice] with indices that are not negative: the elements are copied. *)
Definition slice (start : nat) (stop : option nat) (l : list element) : list element :=
  drop start (match stop with Some stop => take stop l | None => l end).

(** *** A lazy list shows its values, whatever was read before *)

Definition shows (x : V) (e : element) : Prop :=
  isNull x = false /\ match e with IsData d => toObject (Some d) = Ok x | IsObject v => v = x end.

Lemma get_shows xs l i : Forall2 shows xs l -> exists l', get i l = Ok (xs !! i, l') /\ Forall2 shows xs l'.
Proof.
  intros Hl. unfold get. destruct (l !! i) as [e|] eqn:Ei.
  - destruct (Forall2_lookup_r _ _ _ _ _ Hl Ei) as (x & Ex & Hx & He). rewrite Ex. destruct e as [d|v].
    + cbn in He. rewrite He. cbn. eexists. split; [done|]. rewrite <- (list_insert_id xs i x Ex). by apply Forall2_insert.
    + subst v. rewrite Hx. by eexists.
  - apply lookup_ge_None in Ei. rewrite lookup_ge_None_2 by (by rewrite (Forall2_length _ _ _ Hl)). by eexists.
Qed.

Lemma push_all_shows xs fuel : forall i arr l, Forall2 shows xs l -> (length xs - i < fuel)%nat ->
  exists l', push_all fuel i arr l = Ok (arr ++ (Some <$> drop i xs), l') /\ Forall2 shows xs l'.
Proof.
  induction fuel as [|fuel IH]; intros i arr l Hl Hf; [lia|]. cbn [push_all]. unfold next, size.
  pose proof (Forall2_length _ _ _ Hl) as Hlen. destruct (Nat.ltb_spec i (length l)) as [Hi|Hi].
  - destruct (get_shows xs l i Hl) as (l1 & E1 & H1). rewrite E1.
    destruct (lookup_lt_is_Some_2 xs i) as [x Ex]; [lia|]. rewrite Ex. cbn.
    destruct (IH (S i) (arr ++ [Some x]) l1 H1) as (l' & E' & H'); [lia|]. exists l'. split; [|done].
    rewrite E'. rewrite (drop_S xs x i Ex). by rewrite <- app_assoc.
  - exists l. cbn. rewrite drop_ge by lia. by rewrite app_nil_r.
Qed.

Lemma toArray_shows xs l : Forall2 shows xs l -> exists l', toArray l = Ok (Some <$> xs, l') /\ Forall2 shows xs l'.
Proof.
  intros Hl. destruct (push_all_shows xs (S (size l)) 0 [] l Hl) as (l' & E & H'); [|by exists l'].
  unfold size. rewrite (Forall2_length _ _ _ Hl). lia.
Qed.

Lemma slice_shows xs l i j : Forall2 shows xs l -> Forall2 shows (drop i (match j with Some j => take j xs | None => xs end)) (slice i j l).
Proof. intros Hl. unfold slice. apply Forall2_drop. destruct j; [by apply Forall2_take | done]. Qed.
End LazyList.
Arguments element V : clear implicits.
Definition ReadOnlyLazyList (V : Type) : Type := list (element V).
End LazyList.

(** ** Members *)

(** What a request is answered with. *)
Inductive kind := KUnit | KBool | KInt | KData | KList.
Definition member_val (k : kind) : Type :=
  match k with KUnit => unit | KBool => bool | KInt => Z | KData => option buffer | KList => list buffer end.
Definition answer_of (k : kind) : member_val k -> answer :=
  match k with
  | KUnit => fun _ => no_answer
  | KBool => bool_answer
  | KInt => int_answer
  | KData => data_answer
  | KList => list_answer
  end.
Definition member_ok (k : kind) : member_val k -> Prop :=
  match k with
  | KUnit | KBool => fun _ => True
  | KInt => in_sint 32
  | KData => option_valid valid_bytes
  | KList => Forall valid_bytes
  end.

(** What the client decodes. *)
Definition client_val (k : kind) : Type :=
  match k with KUnit => unit | KBool => bool | KInt => Z | KData => option HeapData | KList => list HeapData end.
Definition client (k : kind) : member_val k -> client_val k :=
  match k with
  | KUnit => fun v => v
  | KBool => fun v => v
  | KInt => fun v => v
  | KData => fmap heap
  | KList => fmap heap
  end.
Definition decodes_kind (k : kind) : Dec (client_val k) -> Prop :=
  match k with
  | KUnit => fun _ => False
  | KBool => fun dec => decodes_field F_boolean dec id
  | KInt => fun dec => decodes_field F_int dec id
  | KData => fun dec => decodes_param (reply (nullable_codec data_codec)) dec id
  | KList => fun dec => decodes_param (reply (list_codec data_codec)) dec id
  end.

Lemma answerable_of k v : member_ok k v -> answerable (answer_of k v).
Proof.
  destruct k; cbn; intros Hv; [apply answerable_none | apply answerable_bool | by apply answerable_int
    | by apply answerable_data | by apply answerable_list].
Qed.

Lemma decode_kind {L} k dec v reply : decodes_kind k dec -> reply_of (answer_of k v) reply ->
  decodeResponse (L := L) dec reply = Done (Ok (client k v)).
Proof.
  destruct k; cbn; intros Hd Hr; [done | by rewrite (decode_field _ _ _ _ _ Hd Hr) | by rewrite (decode_field _ _ _ _ _ Hd Hr)
    | by rewrite (decode_param _ _ _ _ _ Hd Hr) | by rewrite (decode_param _ _ _ _ _ Hd Hr)].
Qed.

Section Objects.
Context `{Uninit} {L C : Type}.

(** The objects of each partition, by name. *)
Definition Objects : Type := Z -> string -> C.
Definition set_object (p : Z) (name : string) (c : C) (s : Objects) : Objects :=
  fun q n => if bool_decide (q = p /\ n = name) then c else s q n.

(** A request to a partition reads and writes the object of that partition. *)
Definition on_object_with (rel : C -> answer -> C -> Prop) (name : string)
    (t : target L) (s : Objects) (a : answer) (s' : Objects) : Prop :=
  match t with
  | OnPartition p => exists c, rel (s p name) a c /\ s' = set_object p name c s
  | _ => False
  end.
Definition on_object {k : kind} (rel : C -> member_val k -> C -> Prop) :=
  on_object_with (fun c a c' => exists v, rel c v c' /\ a = answer_of k v).

(** An effect that is a function of the object. *)
Definition effect_of (k : kind) (f : C -> member_val k * C) (c : C) (v : member_val k) (c' : C) : Prop := f c = (v, c').
Definition reads (k : kind) (f : C -> member_val k) : C -> member_val k -> C -> Prop := effect_of k (fun c => (f c, c)).

Definition no_service : Service L Objects :=
  mkService (mkRequestFormat 0 false [] [] (fun _ _ => Err Error)) (fun _ _ _ _ _ _ => False).

Context (services : list (Service L Objects)).
Context (distinct : NoDup (map (fun sv => rf_type (sv_format sv)) services)).
Context (conform : Forall (fun sv => request_conforms (sv_format sv)) services).
Context (proxy : PartitionSpecificProxy).

#[local] Abbreviation current s := (s (partitionId proxy) (px_name proxy)).
#[local] Abbreviation updated c s := (set_object (partitionId proxy) (px_name proxy) c s).

Lemma wp_object_with {A} n (rel : C -> answer -> C -> Prop) sv f p req (g : frames -> Proxy L A) Q s :
  services !! n = Some sv -> rf_encode (sv_format sv) f p = req -> fvalid _ f -> pvalid _ p ->
  sv_effect sv (fview _ f) p = on_object_with rel (px_name proxy) ->
  (exists a c, rel (current s) a c /\ answerable a) ->
  (forall a c reply, rel (current s) a c -> reply_of a reply -> wp services (g reply) Q (updated c s)) ->
  wp services (encodeInvoke proxy req ≫= g) Q s.
Proof.
  intros Hn <- Hf Hp He (a & c & Hrel & Ha) Hg. apply list_elem_of_lookup_2 in Hn as Hsv.
  pose proof (proj1 (Forall_forall _ _) conform sv Hsv) as Hc.
  destruct (encode_request_ok (sv_format sv) f p Hc Hf Hp) as (m & E & Hm).
  unfold encodeInvoke, encodeInvokeOnPartition. rewrite E. cbn [try_ mbind Proxy_bind proxy_bind].
  apply (wp_call services distinct sv f p m); [done | done | |].
  - exists a, (updated c s). split; [|done]. rewrite He. by exists c.
  - intros a' s' reply Hs Hr. rewrite He in Hs. destruct Hs as (c' & Hrel' & ->). by apply (Hg a' c').
Qed.

Lemma wp_object {A} n k (rel : C -> member_val k -> C -> Prop) sv f p req (g : frames -> Proxy L A) Q s :
  services !! n = Some sv -> rf_encode (sv_format sv) f p = req -> fvalid _ f -> pvalid _ p ->
  sv_effect sv (fview _ f) p = on_object rel (px_name proxy) ->
  (exists v c, rel (current s) v c /\ member_ok k v) ->
  (forall v c reply, rel (current s) v c ->
     (forall dec, decodes_kind k dec -> decodeResponse (L := L) dec reply = Done (Ok (client k v))) ->
     wp services (g reply) Q (updated c s)) ->
  wp services (encodeInvoke proxy req ≫= g) Q s.
Proof.
  intros Hn Er Hf Hp He (v & c & Hrel & Hv) Hg. eapply (wp_object_with n _ sv f p); [done | done | done | done | exact He | |].
  - exists (answer_of k v), c. split; [by exists v | by apply answerable_of].
  - intros a c' reply (v' & Hrel' & ->) Hr. apply (Hg v' c'); [done|]. intros dec Hd. by apply decode_kind.
Qed.

Lemma set_object_same p n c s : set_object p n c s p n = c.
Proof. unfold set_object. by rewrite bool_decide_eq_true_2. Qed.

Lemma set_object_other p n c s q m : (q, m) <> (p, n) -> set_object p n c s q m = s q m.
Proof. intros Hne. unfold set_object. rewrite bool_decide_eq_false_2; [done|]. intros [-> ->]. done. Qed.
End Objects.
Arguments Objects C : clear implicits.

(** ** Lists of values and lists of their bytes *)

(** The operations of lists that compare elements. *)
Section ListOperations.
Context {A : Type} `{EqDecision A}.

Fixpoint index_of (x : A) (l : list A) : option nat :=
  match l with [] => None | y :: l => if decide (y = x) then Some O else S <$> index_of x l end.
Fixpoint last_index_of (x : A) (l : list A) : option nat :=
  match l with
  | [] => None
  | y :: l => match last_index_of x l with Some i => Some (S i) | None => if decide (y = x) then Some O else None end
  end.
Fixpoint remove_first (x : A) (l : list A) : list A :=
  match l with [] => [] | y :: l => if decide (y = x) then l else y :: remove_first x l end.
Definition subset (ys xs : list A) : bool := bool_decide (Forall (fun y => y ∈ xs) ys).
Definition without (ys xs : list A) : list A := filter (fun x => x ∉ ys) xs.
Definition only (ys xs : list A) : list A := filter (fun x => x ∈ ys) xs.
End ListOperations.

(** The index of an element, [-1] if there is none. *)
Definition int_of (o : option nat) : Z := match o with Some i => Z.of_nat i | None => -1 end.

Lemma index_of_lt {A} `{EqDecision A} (x : A) l i : index_of x l = Some i -> (i < length l)%nat.
Proof.
  revert i. induction l as [|y l IH]; intros i; cbn; [done|]. case_decide; [intros [= <-]; lia|].
  destruct (index_of x l) as [j|]; cbn; [|done]. intros [= <-]. specialize (IH j eq_refl). lia.
Qed.

Lemma last_index_of_lt {A} `{EqDecision A} (x : A) l i : last_index_of x l = Some i -> (i < length l)%nat.
Proof.
  revert i. induction l as [|y l IH]; intros i; cbn; [done|]. destruct (last_index_of x l) as [j|].
  - intros [= <-]. specialize (IH j eq_refl). lia.
  - case_decide; [intros [= <-]; lia | done].
Qed.

Lemma int_of_range o n : (forall i, o = Some i -> (i < n)%nat) -> Z.of_nat n < 2 ^ 31 -> in_sint 32 (int_of o).
Proof. intros Ho Hn. destruct o as [i|]; cbn; [specialize (Ho i eq_refl)|]; unfold in_sint; lia. Qed.

(** A relation that is one-to-one carries the operations over. *)
Section Transfer.
Context {A B : Type} `{EqDecision A, EqDecision B} (R : A -> B -> Prop).
Context (functional : forall x b b', R x b -> R x b' -> b = b').
Context (injective : forall x y b, R x b -> R y b -> x = y).

Lemma transfer_eq x y b c : R x b -> R y c -> x = y <-> b = c.
Proof. intros Hx Hy. split; intros ->; eauto. Qed.

Lemma transfer_elem xs l x b : Forall2 R xs l -> R x b -> x ∈ xs <-> b ∈ l.
Proof.
  intros Hl Hx. induction Hl as [|y c xs l Hy Hl IH]; [by rewrite !elem_of_nil|].
  by rewrite !elem_of_cons, IH, (transfer_eq x y b c).
Qed.

Lemma transfer_all ys bs xs l : Forall2 R ys bs -> Forall2 R xs l ->
  Forall (fun y => y ∈ xs) ys <-> Forall (fun b => b ∈ l) bs.
Proof.
  intros Hy Hl. induction Hy as [|y b ys bs Hy _ IH]; [by rewrite !Forall_nil|].
  by rewrite !Forall_cons, IH, (transfer_elem xs l y b).
Qed.

Lemma transfer_subset ys bs xs l : Forall2 R ys bs -> Forall2 R xs l -> subset ys xs = subset bs l.
Proof. intros Hy Hl. apply bool_decide_ext. by apply transfer_all. Qed.

Lemma transfer_filter (P : A -> Prop) (Q : B -> Prop) `{!∀ x, Decision (P x), !∀ x, Decision (Q x)} xs l :
  Forall2 R xs l -> (forall x b, R x b -> P x <-> Q b) -> Forall2 R (filter P xs) (filter Q l).
Proof.
  intros Hl HPQ. induction Hl as [|x b xs l Hx _ IH]; [constructor|]. rewrite !filter_cons.
  destruct (decide (P x)) as [Hp|Hp], (decide (Q b)) as [Hq|Hq]; [by constructor | | | done]; exfalso;
    apply (HPQ x b) in Hx; tauto.
Qed.

Lemma transfer_without ys bs xs l : Forall2 R ys bs -> Forall2 R xs l -> Forall2 R (without ys xs) (without bs l).
Proof. intros Hy Hl. apply transfer_filter; [done|]. intros x b Hx. by rewrite (transfer_elem ys bs x b). Qed.

Lemma transfer_only ys bs xs l : Forall2 R ys bs -> Forall2 R xs l -> Forall2 R (only ys xs) (only bs l).
Proof. intros Hy Hl. apply transfer_filter; [done|]. intros x b Hx. by rewrite (transfer_elem ys bs x b). Qed.

Lemma transfer_index xs l x b : Forall2 R xs l -> R x b -> index_of x xs = index_of b l.
Proof.
  intros Hl Hx. induction Hl as [|y c xs l Hy _ IH]; [done|]. cbn. rewrite IH.
  by rewrite (decide_ext (y = x) (c = b)) by (by apply transfer_eq).
Qed.

Lemma transfer_last_index xs l x b : Forall2 R xs l -> R x b -> last_index_of x xs = last_index_of b l.
Proof.
  intros Hl Hx. induction Hl as [|y c xs l Hy _ IH]; [done|]. cbn. rewrite IH.
  by rewrite (decide_ext (y = x) (c = b)) by (by apply transfer_eq).
Qed.

Lemma transfer_remove xs l x b : Forall2 R xs l -> R x b -> Forall2 R (remove_first x xs) (remove_first b l).
Proof.
  intros Hl Hx. induction Hl as [|y c xs l Hy Hl IH]; [constructor|]. cbn.
  destruct (decide (y = x)) as [E|E], (decide (c = b)) as [F|F]; [done | | | by constructor]; exfalso;
    apply (transfer_eq y x c b) in Hx as Hq; try done; tauto.
Qed.

End Transfer.

(** A value, and the bytes the members keep of it: the conversions are inverse on it. *)
Section Stored.
Context {V : Type} `{ObjectSerialization V}.

Definition stored (x : V) (b : buffer) : Prop := toData x = Ok (heap b) /\ valid_bytes b /\ toObject (Some (heap b)) = Ok x.

Lemma stored_functional x b b' : stored x b -> stored x b' -> b = b'.
Proof. intros (E & _) (E' & _). rewrite E in E'. by injection E'. Qed.

Lemma stored_injective x y b : stored x b -> stored y b -> x = y.
Proof. intros (_ & _ & E) (_ & _ & E'). rewrite E in E'. by injection E'. Qed.

Lemma Forall2_eq_stored xs l l' : Forall2 stored xs l -> Forall2 stored xs l' -> l' = l.
Proof.
  intros Hl. revert l'. induction Hl as [|x b xs l Hx _ IH]; intros l' Hl'; inversion Hl' as [|? b' ? l2 Hb' Hl2]; subst; [done|].
  by rewrite (stored_functional x b' b), (IH l2).
Qed.

Lemma serialize_stored xs l : Forall2 stored xs l -> serializeList xs = Ok (heap <$> l).
Proof. induction 1 as [|x b xs l (E & _) _ IH]; [done|]. cbn. rewrite E. cbn. by rewrite IH. Qed.

Lemma deserialize_stored xs l : Forall2 stored xs l -> deserializeList (heap <$> l) = Ok xs.
Proof. induction 1 as [|x b xs l (_ & _ & E) _ IH]; [done|]. cbn. rewrite E. cbn. by rewrite IH. Qed.

Lemma stored_valid xs l : Forall2 stored xs l -> Forall valid_bytes l.
Proof. induction 1 as [|x b xs l (_ & Hb & _) _ IH]; by constructor. Qed.

Lemma data_valid_list (l : list buffer) : Forall valid_bytes l -> Forall data_valid (heap <$> l).
Proof. intros Hl. apply Forall_fmap. eapply Forall_impl; [exact Hl|]. apply data_valid_heap. Qed.

Lemma bytes_heap_list (l : list buffer) : bytes <$> (heap <$> l) = l.
Proof. rewrite <- list_fmap_compose. apply list_fmap_id. Qed.

Lemma can_store xs : Forall (fun x : V => exists b, stored x b) xs -> exists l, Forall2 stored xs l.
Proof. induction 1 as [|x xs [b Hb] _ [l Hl]]; [by exists []|]. exists (b :: l). by constructor. Qed.
End Stored.

(** ** Item listeners *)

(** [ItemEventType] and [ItemEvent] of [src/src/proxy/ItemListener.ts]. *)
Definition ITEM_ADDED : Z := 1.
Definition ITEM_REMOVED : Z := 2.
Record ItemEvent {V M : Type} := mkItemEvent { ie_name : string; ie_eventType : Z; ie_item : V; ie_member : option M }.
Arguments ItemEvent V M : clear implicits.
Arguments mkItemEvent {V M}.
Arguments ie_name {V M}.
Arguments ie_eventType {V M}.
Arguments ie_item {V M}.
Arguments ie_member {V M}.

(** A listener, whose functions return a [T]. *)
Record ItemListener {V M T : Type} := mkItemListener {
  itemAdded : option (ItemEvent V M -> T);
  itemRemoved : option (ItemEvent V M -> T)
}.
Arguments ItemListener V M T : clear implicits.
Arguments mkItemListener {V M T}.
Arguments itemAdded {V M T}.
Arguments itemRemoved {V M T}.

Section ItemListeners.
Context {L : Type} `{LongLib L} {V M T : Type} `{ObjectSerialization V}.
Context (getMember : string -> option M) (name : string) (listener : ItemListener V M T).

(** What the handlers of the three proxies do after the conversion of the item: [None] if the listener has no function for the
    event. *)
Definition notify_item (responseObject : V) (uuid : option (UUID L)) (eventType : Z) : res (option T) :=
  match uuid with
  | None => Err TypeError
  | Some uuid =>
      let member := getMember (UUID_toString uuid) in
      let itemEvent := mkItemEvent name eventType responseObject member in
      Ok (match (eventType =? ITEM_ADDED), itemAdded listener with
          | true, Some f => Some (f itemEvent)
          | _, _ => match (eventType =? ITEM_REMOVED), itemRemoved listener with
                    | true, Some f => Some (f itemEvent)
                    | _, _ => None
                    end
          end)
  end.

(** The handler of an event message, with the [handle] of the codec. *)
Definition item_handler (handle : option (option HeapData -> option (UUID L) -> Z -> res (option T)) -> Dec (option (res (option T))))
    (convert : option HeapData -> res V) (message : frames) : res (option T) :=
  '(called, _) ← handle (Some (fun item uuid eventType => responseObject ← convert item; notify_item responseObject uuid eventType)) message;
  match called with Some r => r | None => Ok None end.

(** The function an event is for. *)
Definition item_called (event : ItemEvent V M) : option T :=
  if ie_eventType event =? ITEM_ADDED then (fun f => f event) <$> itemAdded listener
  else if ie_eventType event =? ITEM_REMOVED then (fun f => f event) <$> itemRemoved listener else None.
End ItemListeners.

(** A message with an event of an item, as the members send it. *)
Inductive item_message {L} `{LongLaws L} (type : Z) (uuid : UUID L) (eventType : Z) (item : option HeapData) : frames -> Prop :=
  | is_item_message content fl fs fs' :
      readInt32LE content MESSAGE_TYPE_OFFSET = Ok type ->
      fields_at [F_uuid; F_int] FIELDS_OFFSET content (Some uuid, (eventType, tt)) ->
      replies_at [reply (nullable_codec data_codec)] (item, tt) fs -> Forall2 similar fs fs' ->
      item_message type uuid eventType item (mkFrame content fl :: fs').

Lemma item_handled {L} `{LongLaws L} {V M T} (getMember : string -> option M) (name : string) (listener : ItemListener V M T)
    (handle : option (option HeapData -> option (UUID L) -> Z -> res (option T)) -> Dec (option (res (option T))))
    convert type (uuid : UUID L) eventType item v message rest :
  (forall h, event_conforms (mkEventFormat type [F_uuid; F_int] [reply (nullable_codec data_codec)] (res (option T))
    (fun f p => h p.1 f.1 f.2.1) (handle (Some h)))) ->
  item_message type uuid eventType item message -> convert item = Ok v ->
  item_handler getMember name listener handle convert (message ++ rest) =
    Ok (item_called listener (mkItemEvent name eventType v (getMember (UUID_toString uuid)))).
Proof.
  intros Hc [content fl fs fs' Ht Hf Hp Hs] Hv. unfold item_handler. set (h := fun item uuid eventType => _).
  assert (E := handle_event_ok (mkEventFormat type [F_uuid; F_int] [reply (nullable_codec data_codec)] (res (option T))
    (fun f p => h p.1 f.1 f.2.1) (handle (Some h))) (Some uuid, (eventType, tt)) (item, tt) content fl fs fs' rest (Hc h) Ht Hf Hp Hs).
  cbn in E. cbn [app]. rewrite E.
  cbn. subst h. cbn. rewrite Hv. cbn. unfold item_called. cbn. f_equal.
  destruct (eventType =? ITEM_ADDED) eqn:E1; [|by destruct (eventType =? ITEM_REMOVED), (itemRemoved listener)].
  apply Z.eqb_eq in E1 as ->. by destruct (itemAdded listener), (itemRemoved listener).
Qed.

(** The codec of an event, with any handler. *)
Ltac event_agrees :=
  intros ? ? t E; etransitivity; [apply (message_type_bind _ _ _ _ E)|];
  cbv beta iota zeta delta [on_event ef_type];
  lazymatch goal with |- context [t =? ?n] => destruct (t =? n) end; reflexivity.

(** ** Members that hold a list of values *)

Definition len (l : list buffer) : Z := Z.of_nat (length l).

(** The requests with an index out of range are not answered but refused. *)
Definition at_index k (hi : list buffer -> Z) (i : Z) (f : nat -> list buffer -> member_val k * list buffer)
    (l : list buffer) (v : member_val k) (l' : list buffer) : Prop :=
  0 <= i < hi l /\ f (Z.to_nat i) l = (v, l').

Section Holds.
Context `{Uninit} {L V : Type} `{ObjectSerialization V} `{EqDecision V}.
Context (proxy : PartitionSpecificProxy).
Implicit Types (xs : list V) (s : Objects (list buffer)).

Definition storable (x : V) : Prop := exists b, stored x b.
Definition size_of (xs : list V) : Z := Z.of_nat (length xs).

(** The members hold the bytes of the values. *)
Definition holds xs s : Prop := Forall2 stored xs (s (partitionId proxy) (px_name proxy)).
Definition others_kept s s' : Prop := forall p n, (p, n) <> (partitionId proxy, px_name proxy) -> s' p n = s p n.

(** The outcome of a method that has the contract [spec]. *)
Definition outcome {A} (spec : list V -> res A -> list V -> Prop) xs s (r : res A) s' : Prop :=
  exists xs', holds xs' s' /\ others_kept s s' /\ spec xs r xs'.

Lemma outcome_updated {A} (spec : list V -> res A -> list V -> Prop) xs s r xs' c : Forall2 stored xs' c -> spec xs r xs' ->
  outcome spec xs s r (set_object (partitionId proxy) (px_name proxy) c s).
Proof.
  intros Hc Hs. exists xs'. split_and!; [|intros p n; apply set_object_other|done].
  unfold holds. by rewrite set_object_same.
Qed.

Lemma holds_len xs s : holds xs s -> len (s (partitionId proxy) (px_name proxy)) = size_of xs.
Proof. intros Hh. unfold len, size_of. by rewrite (Forall2_length _ _ _ Hh). Qed.

Lemma transfer_mem xs s x b : holds xs s -> stored x b ->
  bool_decide (x ∈ xs) = bool_decide (b ∈ s (partitionId proxy) (px_name proxy)).
Proof. intros Hh Hx. apply bool_decide_ext. by apply (transfer_elem stored stored_functional stored_injective). Qed.

Lemma nil_iff (ys : list V) l : Forall2 stored ys l -> bool_decide (ys <> []) = bool_decide (l <> []).
Proof. intros Hl. apply bool_decide_ext. by destruct Hl. Qed.

(** The list has changed if its length has. *)
Lemma without_changed ys bs xs s : Forall2 stored ys bs -> holds xs s ->
  bool_decide (length (without ys xs) <> length xs) =
  bool_decide (length (without bs (s (partitionId proxy) (px_name proxy))) <> length (s (partitionId proxy) (px_name proxy))).
Proof.
  intros Hy Hh. pose proof (transfer_without stored stored_functional stored_injective ys bs xs _ Hy Hh) as Hw.
  by rewrite (Forall2_length _ _ _ Hw), (Forall2_length _ _ _ Hh).
Qed.

Lemma only_changed ys bs xs s : Forall2 stored ys bs -> holds xs s ->
  bool_decide (length (only ys xs) <> length xs) =
  bool_decide (length (only bs (s (partitionId proxy) (px_name proxy))) <> length (s (partitionId proxy) (px_name proxy))).
Proof.
  intros Hy Hh. pose proof (transfer_only stored stored_functional stored_injective ys bs xs _ Hy Hh) as Hw.
  by rewrite (Forall2_length _ _ _ Hw), (Forall2_length _ _ _ Hh).
Qed.

(** A value that is returned. *)
Lemma element_at xs s i : holds xs s -> 0 <= i < size_of xs ->
  exists x b, xs !! Z.to_nat i = Some x /\ s (partitionId proxy) (px_name proxy) !! Z.to_nat i = Some b /\ stored x b.
Proof.
  intros Hh Hi. destruct (lookup_lt_is_Some_2 xs (Z.to_nat i)) as [x Hx]; [unfold size_of in Hi; lia|].
  destruct (Forall2_lookup_l _ _ _ _ _ Hh Hx) as (b & Hb & Hs). by exists x, b.
Qed.

Lemma shows_stored xs l : Forall2 stored xs l -> Forall (fun x => isNull x = false) xs ->
  Forall2 LazyList.shows xs (map LazyList.IsData (heap <$> l)).
Proof.
  intros Hl Hn. induction Hl as [|x b xs l (_ & _ & E) _ IH]; [constructor|]. apply Forall_cons in Hn as [Hx Hn].
  constructor; [by split | by apply IH].
Qed.
End Holds.

(** ** Tactics for the methods *)

(** The members answer, the client decodes the answer, and the values are those of the bytes. *)
Ltac valid_args := cbn; unfold in_sint in *; split_and?; try lia; try done;
  try (by apply data_valid_heap); try (by apply data_valid_list; eapply stored_valid).
Ltac convert_args :=
  repeat match goal with
  | H : storable ?x |- _ => destruct H as [? H]; rewrite ?(proj1 H)
  | H : Forall storable ?ys |- _ => apply can_store in H as [? H]; rewrite ?(serialize_stored _ _ H)
  end; rewrite ?try_ok;
  repeat match goal with H : stored _ ?b |- _ => lazymatch goal with _ : valid_bytes b |- _ => fail | _ => pose proof (proj1 (proj2 H)) end end.
Ltac functional_effect := eexists _, _; split; [reflexivity | try done].
Ltac index_effect Hh := eexists _, _; split; [split; [rewrite (holds_len _ _ _ Hh); lia | reflexivity] |].
Ltac answered :=
  intros v c reply Hrel Hd; unfold reads, effect_of, at_index in Hrel; cbn in Hrel;
  repeat match goal with
  | H : _ /\ _ |- _ => let E := type of H in match E with context [c] => destruct H as [_ H] end
  | H : (_, _) = (_, _) |- _ => injection H as <- <-
  end.
Ltac decoded dec :=
  match goal with
  | Hd : forall d, decodes_kind _ d -> _ |- _ =>
      let E := fresh in
      assert (E := Hd dec ltac:(intros ? ?; reflexivity)); cbn [client client_val] in E; rewrite E; clear E
  end; cbn [mbind Proxy_bind proxy_bind try_ wp].
Ltac stored_list ys k := match goal with H : Forall2 stored ys _ |- _ => k H end.

(** ** Values for witnesses *)

Section DemoStored.
#[local] Existing Instance bool_serialization.

Lemma demo_stored (b : bool) : stored b (demo_bytes b).
Proof. split_and!; [done | by destruct b | by destruct b]. Qed.
End DemoStored.
Definition demo_proxy : PartitionSpecificProxy := mkPartitionSpecificProxy "c" 7.
