(* ===== verification/ListProxy.v ===== *)
(** * The distributed list

    [ListProxy] of [src/src/proxy/ListProxy.ts]: its methods as programs ([ProxyCore]) that send the requests of
    [CollectionRequests] to the partition of the list, the members that keep lists of bytes, and the contract of
    [src/src/proxy/IList.ts] on lists of values. The lists have no maximum size. *)

From S2P Require Export Prelude CollectionCore CollectionRequests.

Section ListProxy.
Context `{Uninit} {L : Type} `{LongLib L} {V : Type} `{ObjectSerialization V}.
Context (proxy : PartitionSpecificProxy).

#[local] Abbreviation P := (Proxy L).
#[local] Abbreviation name := (px_name proxy).

(** The decoder is the one of another codec, for the same response. *)
Definition add (element : V) : P bool :=
  elementData ← try_ (toData element);
  clientMessage ← encodeInvoke proxy (ListAddCodec_encodeRequest name elementData);
  decodeResponse ListAddAllCodec_decodeResponse clientMessage.

Definition addAll (elements : list V) : P bool :=
  elementList ← try_ (serializeList elements);
  clientMessage ← encodeInvoke proxy (ListAddAllCodec_encodeRequest name elementList);
  decodeResponse ListAddAllCodec_decodeResponse clientMessage.

Definition addAllAt (index : Z) (elements : list V) : P bool :=
  elementList ← try_ (serializeList elements);
  clientMessage ← encodeInvoke proxy (ListAddAllWithIndexCodec_encodeRequest name index elementList);
  decodeResponse ListAddAllWithIndexCodec_decodeResponse clientMessage.

Definition addAt (index : Z) (element : V) : P unit :=
  elementData ← try_ (toData element);
  ignore_answer (encodeInvoke proxy (ListAddWithIndexCodec_encodeRequest name index elementData)).

Definition clear : P unit := ignore_answer (encodeInvoke proxy (ListClearCodec_encodeRequest name)).

Definition contains (entry : V) : P bool :=
  entryData ← try_ (toData entry);
  clientMessage ← encodeInvoke proxy (ListContainsCodec_encodeRequest name entryData);
  decodeResponse ListContainsCodec_decodeResponse clientMessage.

Definition containsAll (elements : list V) : P bool :=
  elementList ← try_ (serializeList elements);
  clientMessage ← encodeInvoke proxy (ListContainsAllCodec_encodeRequest name elementList);
  decodeResponse ListContainsAllCodec_decodeResponse clientMessage.

Definition isEmpty : P bool :=
  clientMessage ← encodeInvoke proxy (ListIsEmptyCodec_encodeRequest name);
  decodeResponse ListIsEmptyCodec_decodeResponse clientMessage.

Definition remove (entry : V) : P bool :=
  entryData ← try_ (toData entry);
  clientMessage ← encodeInvoke proxy (ListRemoveCodec_encodeRequest name entryData);
  decodeResponse ListRemoveCodec_decodeResponse clientMessage.

Definition removeAll (elements : list V) : P bool :=
  elementList ← try_ (serializeList elements);
  clientMessage ← encodeInvoke proxy (ListCompareAndRemoveAllCodec_encodeRequest name elementList);
  decodeResponse ListCompareAndRemoveAllCodec_decodeResponse clientMessage.

Definition retainAll (elements : list V) : P bool :=
  elementList ← try_ (serializeList elements);
  clientMessage ← encodeInvoke proxy (ListCompareAndRetainAllCodec_encodeRequest name elementList);
  decodeResponse ListCompareAndRetainAllCodec_decodeResponse clientMessage.

Definition removeAt (index : Z) : P V :=
  clientMessage ← encodeInvoke proxy (ListRemoveWithIndexCodec_encodeRequest name index);
  response ← decodeResponse ListRemoveWithIndexCodec_decodeResponse clientMessage;
  try_ (toObject response).

Definition get (index : Z) : P V :=
  clientMessage ← encodeInvoke proxy (ListGetCodec_encodeRequest name index);
  response ← decodeResponse ListGetCodec_decodeResponse clientMessage;
  try_ (toObject response).

Definition set (index : Z) (element : V) : P V :=
  elementData ← try_ (toData element);
  clientMessage ← encodeInvoke proxy (ListSetCodec_encodeRequest name index elementData);
  response ← decodeResponse ListSetCodec_decodeResponse clientMessage;
  try_ (toObject response).

Definition indexOf (element : V) : P Z :=
  elementData ← try_ (toData element);
  clientMessage ← encodeInvoke proxy (ListIndexOfCodec_encodeRequest name elementData);
  decodeResponse ListIndexOfCodec_decodeResponse clientMessage.

Definition lastIndexOf (element : V) : P Z :=
  elementData ← try_ (toData element);
  clientMessage ← encodeInvoke proxy (ListLastIndexOfCodec_encodeRequest name elementData);
  decodeResponse ListLastIndexOfCodec_decodeResponse clientMessage.

Definition size : P Z :=
  clientMessage ← encodeInvoke proxy (ListSizeCodec_encodeRequest name);
  decodeResponse ListSizeCodec_decodeResponse clientMessage.

Definition subList (start stop : Z) : P (LazyList.ReadOnlyLazyList V) :=
  clientMessage ← encodeInvoke proxy (ListSubCodec_encodeRequest name start stop);
  response ← decodeResponse ListSubCodec_decodeResponse clientMessage;
  mret (map LazyList.IsData response).

Definition toArray : P (list V) :=
  clientMessage ← encodeInvoke proxy (ListGetAllCodec_encodeRequest name);
  response ← decodeResponse ListGetAllCodec_decodeResponse clientMessage;
  try_ (deserializeList response).
End ListProxy.

(** [listenerHandler] of [addItemListener]. *)
Definition listenerHandler {L} `{LongLib L} {V M T} `{ObjectSerialization V} (null : V) (getMember : string -> option M)
    (name : string) (listener : ItemListener V M T) : frames -> res (option T) :=
  item_handler getMember name listener ListAddListenerCodec_handle
    (fun element => match element with Some _ => toObject element | None => Ok null end).

(** ** The members of lists *)

Section ListMembers.
Context `{Uninit} {L : Type} `{LongLaws L}.

Definition list_services : list (Service L (Objects (list buffer))) := [
  mkService (mkRequestFormat 328704 false [] [param string_codec; param data_codec]
      (fun f p => ListAddCodec_encodeRequest p.1 p.2.1))
    (fun f p => on_object (effect_of KBool (fun l => (true, l ++ [bytes p.2.1]))) p.1);
  mkService (mkRequestFormat 329216 false [] [param string_codec; param (list_codec data_codec)]
      (fun f p => ListAddAllCodec_encodeRequest p.1 p.2.1))
    (fun f p => on_object (effect_of KBool (fun l => (bool_decide (bytes <$> p.2.1 <> []), l ++ (bytes <$> p.2.1)))) p.1);
  mkService (mkRequestFormat 331264 false [F_int] [param string_codec; param (list_codec data_codec)]
      (fun f p => ListAddAllWithIndexCodec_encodeRequest p.1 f.1 p.2.1))
    (fun f p => on_object (at_index KBool (fun l => len l + 1) f.1
       (fun i l => (bool_decide (bytes <$> p.2.1 <> []), take i l ++ (bytes <$> p.2.1) ++ drop i l))) p.1);
  mkService (mkRequestFormat 332032 false [F_int] [param string_codec; param data_codec]
      (fun f p => ListAddWithIndexCodec_encodeRequest p.1 f.1 p.2.1))
    (fun f p => on_object (at_index KUnit (fun l => len l + 1) f.1
       (fun i l => (tt, take i l ++ bytes p.2.1 :: drop i l))) p.1);
  mkService (mkRequestFormat 329984 false [] [param string_codec] (fun f p => ListClearCodec_encodeRequest p.1))
    (fun f p => on_object (effect_of KUnit (fun l => (tt, []))) p.1);
  mkService (mkRequestFormat 328192 true [] [param string_codec; param data_codec]
      (fun f p => ListContainsCodec_encodeRequest p.1 p.2.1))
    (fun f p => on_object (reads KBool (fun l => bool_decide (bytes p.2.1 ∈ l))) p.1);
  mkService (mkRequestFormat 328448 true [] [param string_codec; param (list_codec data_codec)]
      (fun f p => ListContainsAllCodec_encodeRequest p.1 p.2.1))
    (fun f p => on_object (reads KBool (subset (bytes <$> p.2.1))) p.1);
  mkService (mkRequestFormat 331008 true [] [param string_codec] (fun f p => ListIsEmptyCodec_encodeRequest p.1))
    (fun f p => on_object (reads KBool (fun l => bool_decide (l = []))) p.1);
  mkService (mkRequestFormat 328960 false [] [param string_codec; param data_codec]
      (fun f p => ListRemoveCodec_encodeRequest p.1 p.2.1))
    (fun f p => on_object (effect_of KBool (fun l => (bool_decide (bytes p.2.1 ∈ l), remove_first (bytes p.2.1) l))) p.1);
  mkService (mkRequestFormat 329472 false [] [param string_codec; param (list_codec data_codec)]
      (fun f p => ListCompareAndRemoveAllCodec_encodeRequest p.1 p.2.1))
    (fun f p => on_object (effect_of KBool (fun l =>
       (bool_decide (length (without (bytes <$> p.2.1) l) <> length l), without (bytes <$> p.2.1) l))) p.1);
  mkService (mkRequestFormat 329728 false [] [param string_codec; param (list_codec data_codec)]
      (fun f p => ListCompareAndRetainAllCodec_encodeRequest p.1 p.2.1))
    (fun f p => on_object (effect_of KBool (fun l =>
       (bool_decide (length (only (bytes <$> p.2.1) l) <> length l), only (bytes <$> p.2.1) l))) p.1);
  mkService (mkRequestFormat 332288 false [F_int] [param string_codec]
      (fun f p => ListRemoveWithIndexCodec_encodeRequest p.1 f.1))
    (fun f p => on_object (at_index KData len f.1 (fun i l => (l !! i, delete i l))) p.1);
  mkService (mkRequestFormat 331520 true [F_int] [param string_codec] (fun f p => ListGetCodec_encodeRequest p.1 f.1))
    (fun f p => on_object (at_index KData len f.1 (fun i l => (l !! i, l))) p.1);
  mkService (mkRequestFormat 331776 false [F_int] [param string_codec; param data_codec]
      (fun f p => ListSetCodec_encodeRequest p.1 f.1 p.2.1))
    (fun f p => on_object (at_index KData len f.1 (fun i l => (l !! i, <[i := bytes p.2.1]> l))) p.1);
  mkService (mkRequestFormat 332800 true [] [param string_codec; param data_codec]
      (fun f p => ListIndexOfCodec_encodeRequest p.1 p.2.1))
    (fun f p => on_object (reads KInt (fun l => int_of (index_of (bytes p.2.1) l))) p.1);
  mkService (mkRequestFormat 332544 true [] [param string_codec; param data_codec]
      (fun f p => ListLastIndexOfCodec_encodeRequest p.1 p.2.1))
    (fun f p => on_object (reads KInt (fun l => int_of (last_index_of (bytes p.2.1) l))) p.1);
  mkService (mkRequestFormat 327936 true [] [param string_codec] (fun f p => ListSizeCodec_encodeRequest p.1))
    (fun f p => on_object (reads KInt len) p.1);
  mkService (mkRequestFormat 333056 true [F_int; F_int] [param string_codec]
      (fun f p => ListSubCodec_encodeRequest p.1 f.1 f.2.1))
    (fun f p => on_object (k := KList) (fun l v l' => 0 <= f.1 <= f.2.1 /\ f.2.1 <= len l /\
       v = drop (Z.to_nat f.1) (take (Z.to_nat f.2.1) l) /\ l' = l) p.1);
  mkService (mkRequestFormat 330240 true [] [param string_codec] (fun f p => ListGetAllCodec_encodeRequest p.1))
    (fun f p => on_object (reads KList (fun l => l)) p.1)
].
Definition list_service (n : nat) : Service L (Objects (list buffer)) := nth n list_services no_service.

Lemma list_services_conform : Forall (fun sv => request_conforms (sv_format sv)) list_services.
Proof. format_agrees list_services. Qed.

Lemma list_services_distinct : NoDup (map (fun sv => rf_type (sv_format sv)) list_services).
Proof. apply (bool_decide_eq_true_1 _). vm_compute. reflexivity. Qed.
End ListMembers.

(** ** The contract of a list *)

Section ListRefinement.
Context `{Uninit} {L : Type} `{LongLaws L} {V : Type} `{ObjectSerialization V} `{EqDecision V}.
Context (proxy : PartitionSpecificProxy).
Implicit Types (xs : list V) (s : Objects (list buffer)).

Inductive ListOp : Type -> Type :=
  | Add (element : V) : ListOp bool
  | AddAll (elements : list V) : ListOp bool
  | AddAllAt (index : Z) (elements : list V) : ListOp bool
  | AddAt (index : Z) (element : V) : ListOp unit
  | Clear : ListOp unit
  | Contains (entry : V) : ListOp bool
  | ContainsAll (elements : list V) : ListOp bool
  | IsEmpty : ListOp bool
  | Remove (entry : V) : ListOp bool
  | RemoveAll (elements : list V) : ListOp bool
  | RetainAll (elements : list V) : ListOp bool
  | RemoveAt (index : Z) : ListOp V
  | Get (index : Z) : ListOp V
  | SetAt (index : Z) (element : V) : ListOp V
  | IndexOf (element : V) : ListOp Z
  | LastIndexOf (element : V) : ListOp Z
  | Size : ListOp Z
  | SubList (start stop : Z) : ListOp (LazyList.ReadOnlyLazyList V)
  | ToArray : ListOp (list V).

Definition method {A} (op : ListOp A) : Proxy L A :=
  match op with
  | Add element => add proxy element
  | AddAll elements => addAll proxy elements
  | AddAllAt index elements => addAllAt proxy index elements
  | AddAt index element => addAt proxy index element
  | Clear => clear proxy
  | Contains entry => contains proxy entry
  | ContainsAll elements => containsAll proxy elements
  | IsEmpty => isEmpty proxy
  | Remove entry => remove proxy entry
  | RemoveAll elements => removeAll proxy elements
  | RetainAll elements => retainAll proxy elements
  | RemoveAt index => removeAt proxy index
  | Get index => get proxy index
  | SetAt index element => set proxy index element
  | IndexOf element => indexOf proxy element
  | LastIndexOf element => lastIndexOf proxy element
  | Size => size proxy
  | SubList start stop => subList proxy start stop
  | ToArray => toArray proxy
  end.

(** The arguments can be stored and the indices are in range; a size is an [int] of the members. *)
Definition op_ok {A} (op : ListOp A) xs : Prop :=
  match op with
  | Add x | Contains x | Remove x => storable x
  | AddAll ys | ContainsAll ys | RemoveAll ys | RetainAll ys => Forall storable ys
  | AddAllAt i ys => 0 <= i <= size_of xs /\ i < 2 ^ 31 /\ Forall storable ys
  | AddAt i x => 0 <= i <= size_of xs /\ i < 2 ^ 31 /\ storable x
  | RemoveAt i | Get i => 0 <= i < size_of xs /\ i < 2 ^ 31
  | SetAt i x => 0 <= i < size_of xs /\ i < 2 ^ 31 /\ storable x
  | IndexOf x | LastIndexOf x => storable x /\ size_of xs < 2 ^ 31
  | Size => size_of xs < 2 ^ 31
  | SubList i j => 0 <= i <= j /\ j <= size_of xs /\ j < 2 ^ 31 /\ Forall (fun x => isNull x = false) xs
  | Clear | IsEmpty | ToArray => True
  end.

(** What the method returns and the list after it. *)
Definition list_spec {A} (op : ListOp A) xs : res A -> list V -> Prop :=
  match op in ListOp A return res A -> list V -> Prop with
  | Add x => fun r xs' => r = Ok true /\ xs' = xs ++ [x]
  | AddAll ys => fun r xs' => r = Ok (bool_decide (ys <> [])) /\ xs' = xs ++ ys
  | AddAllAt i ys => fun r xs' => r = Ok (bool_decide (ys <> [])) /\ xs' = take (Z.to_nat i) xs ++ ys ++ drop (Z.to_nat i) xs
  | AddAt i x => fun r xs' => r = Ok tt /\ xs' = take (Z.to_nat i) xs ++ x :: drop (Z.to_nat i) xs
  | Clear => fun r xs' => r = Ok tt /\ xs' = []
  | Contains x => fun r xs' => r = Ok (bool_decide (x ∈ xs)) /\ xs' = xs
  | ContainsAll ys => fun r xs' => r = Ok (subset ys xs) /\ xs' = xs
  | IsEmpty => fun r xs' => r = Ok (bool_decide (xs = [])) /\ xs' = xs
  | Remove x => fun r xs' => r = Ok (bool_decide (x ∈ xs)) /\ xs' = remove_first x xs
  | RemoveAll ys => fun r xs' => r = Ok (bool_decide (length xs' <> length xs)) /\ xs' = without ys xs
  | RetainAll ys => fun r xs' => r = Ok (bool_decide (length xs' <> length xs)) /\ xs' = only ys xs
  | RemoveAt i => fun r xs' => (exists x, xs !! Z.to_nat i = Some x /\ r = Ok x) /\ xs' = delete (Z.to_nat i) xs
  | Get i => fun r xs' => (exists x, xs !! Z.to_nat i = Some x /\ r = Ok x) /\ xs' = xs
  | SetAt i x => fun r xs' => (exists y, xs !! Z.to_nat i = Some y /\ r = Ok y) /\ xs' = <[Z.to_nat i := x]> xs
  | IndexOf x => fun r xs' => r = Ok (int_of (index_of x xs)) /\ xs' = xs
  | LastIndexOf x => fun r xs' => r = Ok (int_of (last_index_of x xs)) /\ xs' = xs
  | Size => fun r xs' => r = Ok (size_of xs) /\ xs' = xs
  | SubList i j => fun r xs' =>
      (exists l, r = Ok l /\ Forall2 LazyList.shows (drop (Z.to_nat i) (take (Z.to_nat j) xs)) l) /\ xs' = xs
  | ToArray => fun r xs' => r = Ok xs /\ xs' = xs
  end.

#[local] Abbreviation refined op := (forall xs s, holds proxy xs s -> op_ok op xs -> wp list_services (method op) (outcome proxy (list_spec op) xs s) s).

#[local] Ltac enter := intros xs s Hh Hop; cbn [method op_ok] in *; destruct_and?.
#[local] Ltac call n k rel f p :=
  eapply (wp_object list_services list_services_distinct list_services_conform proxy n k rel (list_service n) f p);
  [reflexivity | reflexivity | valid_args | valid_args | reflexivity | | ].
(** A call with a decoder of its answer. Left are that there is an answer, the list after it, and the contract. *)
#[local] Ltac by_call n k rel f p dec := call n k rel f p; [|answered; decoded dec; eapply outcome_updated].

Lemma list_add_refined x : refined (Add x).
Proof.
  enter. unfold add. convert_args.
  by_call 0%nat KBool (effect_of KBool (fun l => (true, l ++ [x0]))) tt (px_name proxy, (heap x0, tt)) ListAddAllCodec_decodeResponse.
  - functional_effect.
  - apply Forall2_app; [done|]. by constructor.
  - by split.
Qed.

Lemma list_addAll_refined ys : refined (AddAll ys).
Proof.
  enter. unfold addAll. convert_args.
  by_call 1%nat KBool (effect_of KBool (fun l => (bool_decide (bytes <$> (heap <$> x) <> []), l ++ (bytes <$> (heap <$> x)))))
    tt (px_name proxy, (heap <$> x, tt)) ListAddAllCodec_decodeResponse.
  - functional_effect.
  - apply Forall2_app; [done|]. by rewrite bytes_heap_list.
  - split; [|done]. rewrite bytes_heap_list. stored_list ys ltac:(fun H => by rewrite (nil_iff _ _ H)).
Qed.

Lemma list_addAllAt_refined i ys : refined (AddAllAt i ys).
Proof.
  enter. unfold addAllAt. convert_args.
  by_call 2%nat KBool (at_index KBool (fun l => len l + 1) i
      (fun i l => (bool_decide (bytes <$> (heap <$> x) <> []), take i l ++ (bytes <$> (heap <$> x)) ++ drop i l)))
    (i, tt) (px_name proxy, (heap <$> x, tt)) ListAddAllWithIndexCodec_decodeResponse.
  - by index_effect Hh.
  - rewrite bytes_heap_list. apply Forall2_app; [by apply Forall2_take|]. apply Forall2_app; [done | by apply Forall2_drop].
  - split; [|done]. rewrite bytes_heap_list. stored_list ys ltac:(fun H => by rewrite (nil_iff _ _ H)).
Qed.

Lemma list_addAt_refined i x : refined (AddAt i x).
Proof.
  enter. unfold addAt, ignore_answer. convert_args.
  call 3%nat KUnit (at_index KUnit (fun l => len l + 1) i (fun i l => (tt, take i l ++ x0 :: drop i l)))
    (i, tt) (px_name proxy, (heap x0, tt)); [by index_effect Hh | answered].
  eapply (outcome_updated proxy _ _ _ (Ok tt)); [|by split].
  apply Forall2_app; [by apply Forall2_take|]. constructor; [done | by apply Forall2_drop].
Qed.

Lemma list_clear_refined : refined Clear.
Proof.
  enter. unfold clear, ignore_answer. call 4%nat KUnit (effect_of KUnit (fun l : list buffer => (tt, [] : list buffer))) tt (px_name proxy, tt).
  - functional_effect.
  - answered. eapply (outcome_updated proxy _ _ _ (Ok tt)); [|by split]. constructor.
Qed.

Lemma list_contains_refined x : refined (Contains x).
Proof.
  enter. unfold contains. convert_args.
  by_call 5%nat KBool (reads KBool (fun l : list buffer => bool_decide (x0 ∈ l))) tt (px_name proxy, (heap x0, tt)) ListContainsCodec_decodeResponse;
    [functional_effect | done |]. split; [|done]. by rewrite (transfer_mem proxy xs s x x0).
Qed.

Lemma list_containsAll_refined ys : refined (ContainsAll ys).
Proof.
  enter. unfold containsAll. convert_args.
  by_call 6%nat KBool (reads KBool (subset (bytes <$> (heap <$> x)))) tt (px_name proxy, (heap <$> x, tt)) ListContainsAllCodec_decodeResponse;
    [functional_effect | done |]. split; [|done].
  by rewrite bytes_heap_list, (transfer_subset stored stored_functional stored_injective ys x xs _ Hop Hh).
Qed.

Lemma list_isEmpty_refined : refined IsEmpty.
Proof.
  enter. unfold isEmpty.
  by_call 7%nat KBool (reads KBool (fun l : list buffer => bool_decide (l = []))) tt (px_name proxy, tt) ListIsEmptyCodec_decodeResponse;
    [functional_effect | done |]. split; [|done]. f_equal. apply bool_decide_ext. by destruct Hh.
Qed.

Lemma list_remove_refined x : refined (Remove x).
Proof.
  enter. unfold remove. convert_args.
  by_call 8%nat KBool (effect_of KBool (fun l => (bool_decide (x0 ∈ l), remove_first x0 l))) tt (px_name proxy, (heap x0, tt))
    ListRemoveCodec_decodeResponse.
  - functional_effect.
  - by apply (transfer_remove stored stored_functional stored_injective xs _ x x0).
  - split; [|done]. by rewrite (transfer_mem proxy xs s x x0).
Qed.

Lemma list_removeAll_refined ys : refined (RemoveAll ys).
Proof.
  enter. unfold removeAll. convert_args.
  by_call 9%nat KBool (effect_of KBool (fun l =>
      (bool_decide (length (without (bytes <$> (heap <$> x)) l) <> length l), without (bytes <$> (heap <$> x)) l)))
    tt (px_name proxy, (heap <$> x, tt)) ListCompareAndRemoveAllCodec_decodeResponse; [functional_effect | |].
  - rewrite bytes_heap_list. by apply (transfer_without stored stored_functional stored_injective ys x xs).
  - split; [|done]. by rewrite bytes_heap_list, (without_changed proxy ys x xs s).
Qed.

Lemma list_retainAll_refined ys : refined (RetainAll ys).
Proof.
  enter. unfold retainAll. convert_args.
  by_call 10%nat KBool (effect_of KBool (fun l =>
      (bool_decide (length (only (bytes <$> (heap <$> x)) l) <> length l), only (bytes <$> (heap <$> x)) l)))
    tt (px_name proxy, (heap <$> x, tt)) ListCompareAndRetainAllCodec_decodeResponse; [functional_effect | |].
  - rewrite bytes_heap_list. by apply (transfer_only stored stored_functional stored_injective ys x xs).
  - split; [|done]. by rewrite bytes_heap_list, (only_changed proxy ys x xs s).
Qed.

(** The answer is the element at the index. *)
#[local] Ltac at_element Hh :=
  match goal with H1 : 0 <= ?i, H2 : ?i < size_of _ |- _ => destruct (element_at proxy _ _ i Hh (conj H1 H2)) as (y & c0 & Hy & Hb & Hs) end.

Lemma list_removeAt_refined i : refined (RemoveAt i).
Proof.
  enter. at_element Hh. unfold removeAt.
  by_call 11%nat KData (at_index KData len i (fun i l => (l !! i, delete i l))) (i, tt) (px_name proxy, tt)
    ListRemoveWithIndexCodec_decodeResponse.
  - index_effect Hh. cbn. rewrite Hb. apply Hs.
  - by apply Forall2_delete.
  - split; [|done]. exists y. split; [done|]. rewrite Hb. apply Hs.
Qed.

Lemma list_get_refined i : refined (Get i).
Proof.
  enter. at_element Hh. unfold get.
  by_call 12%nat KData (at_index KData len i (fun i l => (l !! i, l))) (i, tt) (px_name proxy, tt) ListGetCodec_decodeResponse.
  - index_effect Hh. cbn. rewrite Hb. apply Hs.
  - done.
  - split; [|done]. exists y. split; [done|]. rewrite Hb. apply Hs.
Qed.

Lemma list_set_refined i x : refined (SetAt i x).
Proof.
  enter. at_element Hh. unfold set. convert_args.
  by_call 13%nat KData (at_index KData len i (fun i l => (l !! i, <[i := x0]> l))) (i, tt) (px_name proxy, (heap x0, tt))
    ListSetCodec_decodeResponse.
  - index_effect Hh. cbn. rewrite Hb. apply Hs.
  - by apply Forall2_insert.
  - split; [|done]. exists y. split; [done|]. rewrite Hb. apply Hs.
Qed.

Lemma list_indexOf_refined x : refined (IndexOf x).
Proof.
  enter. unfold indexOf. convert_args.
  by_call 14%nat KInt (reads KInt (fun l : list buffer => int_of (index_of x0 l))) tt (px_name proxy, (heap x0, tt))
    ListIndexOfCodec_decodeResponse; [functional_effect | done |].
  - eapply int_of_range; [intros j; apply index_of_lt|]. by rewrite <- (Forall2_length _ _ _ Hh).
  - split; [|done]. by rewrite (transfer_index stored stored_functional stored_injective xs _ x x0 Hh).
Qed.

Lemma list_lastIndexOf_refined x : refined (LastIndexOf x).
Proof.
  enter. unfold lastIndexOf. convert_args.
  by_call 15%nat KInt (reads KInt (fun l : list buffer => int_of (last_index_of x0 l))) tt (px_name proxy, (heap x0, tt))
    ListLastIndexOfCodec_decodeResponse; [functional_effect | done |].
  - eapply int_of_range; [intros j; apply last_index_of_lt|]. by rewrite <- (Forall2_length _ _ _ Hh).
  - split; [|done]. by rewrite (transfer_last_index stored stored_functional stored_injective xs _ x x0 Hh).
Qed.

Lemma list_size_refined : refined Size.
Proof.
  enter. unfold size. by_call 16%nat KInt (reads KInt len) tt (px_name proxy, tt) ListSizeCodec_decodeResponse;
    [functional_effect | done |].
  - cbn. rewrite (holds_len proxy xs s Hh). unfold in_sint, size_of in *. lia.
  - split; [|done]. by rewrite (holds_len proxy xs s Hh).
Qed.

Lemma list_subList_refined i j : refined (SubList i j).
Proof.
  enter. unfold subList.
  call 17%nat KList (fun (l : list buffer) (v : member_val KList) (l' : list buffer) => 0 <= i <= j /\ j <= len l /\
      v = drop (Z.to_nat i) (take (Z.to_nat j) l) /\ l' = l) (i, (j, tt)) (px_name proxy, tt).
  - eexists _, _. rewrite (holds_len proxy xs s Hh). split_and!; [lia | lia | lia | reflexivity | reflexivity |]. cbn.
    apply Forall_drop, Forall_take. by eapply stored_valid.
  - intros v c reply (_ & _ & -> & ->) Hd. decoded ListSubCodec_decodeResponse.
    eapply (outcome_updated proxy _ _ _ (Ok _)); [exact Hh|]. split; [|done]. eexists. split; [done|].
    apply shows_stored; [by apply Forall2_drop, Forall2_take|]. by apply Forall_drop, Forall_take.
Qed.

Lemma list_toArray_refined : refined ToArray.
Proof.
  enter. unfold toArray. by_call 18%nat KList (reads KList (fun l : list buffer => l)) tt (px_name proxy, tt) ListGetAllCodec_decodeResponse;
    [functional_effect | done |].
  - by eapply stored_valid.
  - split; [|done]. by rewrite (deserialize_stored _ _ Hh).
Qed.

Lemma list_refined {A} (op : ListOp A) : refined op.
Proof.
  destruct op; auto using list_add_refined, list_addAll_refined, list_addAllAt_refined, list_addAt_refined, list_clear_refined, list_contains_refined,
    list_containsAll_refined, list_isEmpty_refined, list_remove_refined, list_removeAll_refined, list_retainAll_refined, list_removeAt_refined, list_get_refined,
    list_set_refined, list_indexOf_refined, list_lastIndexOf_refined, list_size_refined, list_subList_refined, list_toArray_refined.
Qed.
End ListRefinement.

(** ** Properties *)

(** The operations of [ListProxy] are those of a list of values. If the members hold the serialized values [xs] in the
    partition of the list, then every method with arguments that can be stored and indices in range settles when its request
    is answered, returns what its contract says about [xs] (elements are equal as values), the members hold the values of the
    list the contract leaves, and no other list changes. *)
Theorem list_proxy_refines_list `{Uninit} {L} `{LongLaws L} {V} `{ObjectSerialization V} `{EqDecision V} {A}
    (proxy : PartitionSpecificProxy) (op : ListOp A) (xs : list V) (s : Objects (list buffer)) :
  holds proxy xs s -> op_ok op xs ->
  (exists r s', runs (list_services (L := L)) (method proxy op) s r s') /\
  forall r s', runs (list_services (L := L)) (method proxy op) s r s' ->
    exists xs', holds proxy xs' s' /\ (forall p n, (p, n) <> (partitionId proxy, px_name proxy) -> s' p n = s p n) /\
      list_spec op xs r xs'.
Proof. intros Hh Hop. apply wp_sound. by apply list_refined. Qed.

(** An event of an item is handed to the function of the listener for its type, with the value of the item. *)
Lemma list_event_handled {L} `{LongLaws L} {V M T} `{ObjectSerialization V} (null : V) (getMember : string -> option M)
    (name : string) (listener : ItemListener V M T) (uuid : UUID L) eventType item v message rest :
  item_message 330498 uuid eventType item message ->
  (match item with Some _ => toObject item | None => Ok null end) = Ok v ->
  listenerHandler null getMember name listener (message ++ rest) =
    Ok (item_called listener (mkItemEvent name eventType v (getMember (UUID_toString uuid)))).
Proof. intros Hm Hv. eapply item_handled; [|done|done]. intros h. event_agrees. Qed.

(** ** Witnesses *)

#[local] Existing Instances bool_serialization demo_uninit.

Lemma list_proxy_refines_list_witness : exists r s',
  runs (list_services (L := Int64.t)) (method demo_proxy (SetAt 1 true)) (fun _ _ => demo_bytes <$> [true; false]) r s' /\
  r = Ok false /\ s' 7 "c" = demo_bytes <$> [true; true].
Proof.
  destruct (list_proxy_refines_list (L := Int64.t) demo_proxy (SetAt 1 true) [true; false] (fun _ _ => demo_bytes <$> [true; false]))
    as [(r & s' & Hr) Hall].
  - constructor; [apply demo_stored|]. constructor; [apply demo_stored | constructor].
  - split; [unfold size_of; cbn; lia|]. split; [lia|]. exists (demo_bytes true). apply demo_stored.
  - destruct (Hall r s' Hr) as (xs' & Hh & _ & (y & Hy & ->) & ->). exists (Ok y), s'. split; [exact Hr|]. cbn in Hy, Hh.
    injection Hy as <-. split; [done|].
    apply (fun H => Forall2_eq_stored [true; true] _ _ H Hh). constructor; [apply demo_stored|].
    constructor; [apply demo_stored | constructor].
Defined.
