(* ===== verification/QueueProxy.v ===== *)
(** * The distributed queue

    [QueueProxy] of [src/src/proxy/QueueProxy.ts]: its methods as programs ([ProxyCore]) that send the requests of
    [CollectionRequests] to the partition of the queue, the members that keep queues of bytes with a capacity, and the contract
    of [src/src/proxy/IQueue.ts] on queues of values. A [put] to a full queue and a [take] from an empty one are not answered
    before there is room or an item. *)

From S2P Require Export Prelude CollectionCore CollectionRequests.

Section QueueProxy.
Context `{Uninit} {L : Type} `{LongLib L} {V : Type} `{ObjectSerialization V}.
Context (proxy : PartitionSpecificProxy).

#[local] Abbreviation P := (Proxy L).
#[local] Abbreviation name := (px_name proxy).
#[local] Abbreviation N z := (IsNumber z : long_arg L).

Definition offer (item : V) (time : Z) : P bool :=
  itemData ← try_ (toData item);
  clientMessage ← encodeInvoke proxy (QueueOfferCodec_encodeRequest name itemData (N time));
  decodeResponse QueueOfferCodec_decodeResponse clientMessage.

Definition add (item : V) : P bool :=
  ret ← offer item 0;
  if ret : bool then mret true else try_ (Err IllegalStateError).

Definition addAll (items : list V) : P bool :=
  rawList ← try_ (serializeList items);
  clientMessage ← encodeInvoke proxy (QueueAddAllCodec_encodeRequest name rawList);
  decodeResponse QueueAddAllCodec_decodeResponse clientMessage.

Definition clear : P unit := ignore_answer (encodeInvoke proxy (QueueClearCodec_encodeRequest name)).

Definition contains (item : V) : P bool :=
  itemData ← try_ (toData item);
  clientMessage ← encodeInvoke proxy (QueueContainsCodec_encodeRequest name itemData);
  decodeResponse QueueContainsCodec_decodeResponse clientMessage.

Definition containsAll (items : list V) : P bool :=
  rawItems ← try_ (serializeList items);
  clientMessage ← encodeInvoke proxy (QueueContainsAllCodec_encodeRequest name rawItems);
  decodeResponse QueueContainsAllCodec_decodeResponse clientMessage.

(** The loop of [drainTo] pushes to the array of the caller; if a conversion throws, the array keeps what was pushed. *)
Fixpoint push_drained (arr : list V) (rawArr : list HeapData) : list V * res unit :=
  match rawArr with
  | [] => (arr, Ok tt)
  | rawItem :: rawArr =>
      match toObject (Some rawItem) with
      | Ok v => push_drained (arr ++ [v]) rawArr
      | Err e => (arr, Err e)
      end
  end.

(** The result is the array after the call, and what the promise is settled with. *)
Definition drainTo (arr : list V) (maxElements : option Z) : P (list V * res Z) :=
  rawArr ← match maxElements with
           | None =>
               clientMessage ← encodeInvoke proxy (QueueDrainToCodec_encodeRequest name);
               decodeResponse QueueDrainToCodec_decodeResponse clientMessage
           | Some maxElements =>
               clientMessage ← encodeInvoke proxy (QueueDrainToMaxSizeCodec_encodeRequest name maxElements);
               decodeResponse QueueDrainToMaxSizeCodec_decodeResponse clientMessage
           end;
  let '(arr, r) := push_drained arr rawArr in
  mret (arr, match r with Ok _ => Ok (Z.of_nat (length rawArr)) | Err e => Err e end).

Definition isEmpty : P bool :=
  clientMessage ← encodeInvoke proxy (QueueIsEmptyCodec_encodeRequest name);
  decodeResponse QueueIsEmptyCodec_decodeResponse clientMessage.

Definition peek : P V :=
  clientMessage ← encodeInvoke proxy (QueuePeekCodec_encodeRequest name);
  response ← decodeResponse QueuePeekCodec_decodeResponse clientMessage;
  try_ (toObject response).

Definition poll (time : Z) : P V :=
  clientMessage ← encodeInvoke proxy (QueuePollCodec_encodeRequest name (N time));
  response ← decodeResponse QueuePollCodec_decodeResponse clientMessage;
  try_ (toObject response).

Definition put (item : V) : P unit :=
  itemData ← try_ (toData item);
  ignore_answer (encodeInvoke proxy (QueuePutCodec_encodeRequest name itemData)).

Definition remainingCapacity : P Z :=
  clientMessage ← encodeInvoke proxy (QueueRemainingCapacityCodec_encodeRequest name);
  decodeResponse QueueRemainingCapacityCodec_decodeResponse clientMessage.

Definition remove (item : V) : P bool :=
  itemData ← try_ (toData item);
  clientMessage ← encodeInvoke proxy (QueueRemoveCodec_encodeRequest name itemData);
  decodeResponse QueueRemoveCodec_decodeResponse clientMessage.

Definition removeAll (items : list V) : P bool :=
  rawItems ← try_ (serializeList items);
  clientMessage ← encodeInvoke proxy (QueueCompareAndRemoveAllCodec_encodeRequest name rawItems);
  decodeResponse QueueCompareAndRemoveAllCodec_decodeResponse clientMessage.

Definition retainAll (items : list V) : P bool :=
  rawItems ← try_ (serializeList items);
  clientMessage ← encodeInvoke proxy (QueueCompareAndRetainAllCodec_encodeRequest name rawItems);
  decodeResponse QueueCompareAndRetainAllCodec_decodeResponse clientMessage.

Definition size : P Z :=
  clientMessage ← encodeInvoke proxy (QueueSizeCodec_encodeRequest name);
  decodeResponse QueueSizeCodec_decodeResponse clientMessage.

Definition take : P V :=
  clientMessage ← encodeInvoke proxy (QueueTakeCodec_encodeRequest name);
  response ← decodeResponse QueueTakeCodec_decodeResponse clientMessage;
  try_ (toObject response).

Definition toArray : P (list V) :=
  clientMessage ← encodeInvoke proxy (QueueIteratorCodec_encodeRequest name);
  response ← decodeResponse QueueIteratorCodec_decodeResponse clientMessage;
  try_ (deserializeList response).
End QueueProxy.

(** [handler] of [addItemListener]. *)
Definition listenerHandler {L} `{LongLib L} {V M T} `{ObjectSerialization V} (null : V) (getMember : string -> option M)
    (name : string) (listener : ItemListener V M T) : frames -> res (option T) :=
  item_handler getMember name listener QueueAddListenerCodec_handle
    (fun item => match item with None => Ok null | Some _ => toObject item end).

(** ** The members of queues *)

Section QueueMembers.
Context `{Uninit} {L : Type} `{LongLaws L} (capacity : string -> Z).

Definition room (name : string) (n : nat) (l : list buffer) : bool := Z.of_nat (length l + n) <=? capacity name.

Definition queue_services : list (Service L (Objects (list buffer))) := [
  mkService (mkRequestFormat 196864 false [F_long_arg] [param string_codec; param data_codec]
      (fun f p => QueueOfferCodec_encodeRequest p.1 p.2.1 f.1))
    (fun f p => on_object (effect_of KBool (fun l => if room p.1 1 l then (true, l ++ [bytes p.2.1]) else (false, l))) p.1);
  mkService (mkRequestFormat 200704 false [] [param string_codec; param (list_codec data_codec)]
      (fun f p => QueueAddAllCodec_encodeRequest p.1 p.2.1))
    (fun f p => on_object (effect_of KBool (fun l =>
       if room p.1 (length (bytes <$> p.2.1)) l then (true, l ++ (bytes <$> p.2.1)) else (false, l))) p.1);
  mkService (mkRequestFormat 200448 false [] [param string_codec] (fun f p => QueueClearCodec_encodeRequest p.1))
    (fun f p => on_object (effect_of KUnit (fun l => (tt, []))) p.1);
  mkService (mkRequestFormat 199936 false [] [param string_codec; param (list_codec data_codec)]
      (fun f p => QueueCompareAndRemoveAllCodec_encodeRequest p.1 p.2.1))
    (fun f p => on_object (effect_of KBool (fun l =>
       (bool_decide (length (without (bytes <$> p.2.1) l) <> length l), without (bytes <$> p.2.1) l))) p.1);
  mkService (mkRequestFormat 200192 false [] [param string_codec; param (list_codec data_codec)]
      (fun f p => QueueCompareAndRetainAllCodec_encodeRequest p.1 p.2.1))
    (fun f p => on_object (effect_of KBool (fun l =>
       (bool_decide (length (only (bytes <$> p.2.1) l) <> length l), only (bytes <$> p.2.1) l))) p.1);
  mkService (mkRequestFormat 199680 false [] [param string_codec; param (list_codec data_codec)]
      (fun f p => QueueContainsAllCodec_encodeRequest p.1 p.2.1))
    (fun f p => on_object (reads KBool (subset (bytes <$> p.2.1))) p.1);
  mkService (mkRequestFormat 199424 false [] [param string_codec; param data_codec]
      (fun f p => QueueContainsCodec_encodeRequest p.1 p.2.1))
    (fun f p => on_object (reads KBool (fun l => bool_decide (bytes p.2.1 ∈ l))) p.1);
  mkService (mkRequestFormat 198912 false [] [param string_codec] (fun f p => QueueDrainToCodec_encodeRequest p.1))
    (fun f p => on_object (effect_of KList (fun l => (l, []))) p.1);
  mkService (mkRequestFormat 199168 false [F_int] [param string_codec]
      (fun f p => QueueDrainToMaxSizeCodec_encodeRequest p.1 f.1))
    (fun f p => on_object (effect_of KList (fun l => (list.take (Z.to_nat f.1) l, drop (Z.to_nat f.1) l))) p.1);
  mkService (mkRequestFormat 201728 false [] [param string_codec] (fun f p => QueueIsEmptyCodec_encodeRequest p.1))
    (fun f p => on_object (reads KBool (fun l => bool_decide (l = []))) p.1);
  mkService (mkRequestFormat 198656 false [] [param string_codec] (fun f p => QueueIteratorCodec_encodeRequest p.1))
    (fun f p => on_object (reads KList (fun l => l)) p.1);
  mkService (mkRequestFormat 198400 false [] [param string_codec] (fun f p => QueuePeekCodec_encodeRequest p.1))
    (fun f p => on_object (reads KData head) p.1);
  mkService (mkRequestFormat 197888 false [F_long_arg] [param string_codec]
      (fun f p => QueuePollCodec_encodeRequest p.1 f.1))
    (fun f p => on_object (effect_of KData (fun l => (head l, tail l))) p.1);
  mkService (mkRequestFormat 197120 false [] [param string_codec; param data_codec]
      (fun f p => QueuePutCodec_encodeRequest p.1 p.2.1))
    (fun f p => on_object (k := KUnit) (fun l v l' => room p.1 1 l = true /\ v = tt /\ l' = l ++ [bytes p.2.1]) p.1);
  mkService (mkRequestFormat 201472 false [] [param string_codec] (fun f p => QueueRemainingCapacityCodec_encodeRequest p.1))
    (fun f p => on_object (reads KInt (fun l => capacity p.1 - len l)) p.1);
  mkService (mkRequestFormat 197632 false [] [param string_codec; param data_codec]
      (fun f p => QueueRemoveCodec_encodeRequest p.1 p.2.1))
    (fun f p => on_object (effect_of KBool (fun l => (bool_decide (bytes p.2.1 ∈ l), remove_first (bytes p.2.1) l))) p.1);
  mkService (mkRequestFormat 197376 false [] [param string_codec] (fun f p => QueueSizeCodec_encodeRequest p.1))
    (fun f p => on_object (reads KInt len) p.1);
  mkService (mkRequestFormat 198144 false [] [param string_codec] (fun f p => QueueTakeCodec_encodeRequest p.1))
    (fun f p => on_object (k := KData) (fun l v l' => exists b, l = b :: l' /\ v = Some b) p.1)
].
Definition queue_service (n : nat) : Service L (Objects (list buffer)) := nth n queue_services no_service.

Lemma queue_services_conform : Forall (fun sv => request_conforms (sv_format sv)) queue_services.
Proof. format_agrees queue_services. Qed.

Lemma queue_services_distinct : NoDup (map (fun sv => rf_type (sv_format sv)) queue_services).
Proof. apply (bool_decide_eq_true_1 _). vm_compute. reflexivity. Qed.
End QueueMembers.

(** ** The contract of a queue *)

Section QueueRefinement.
Context `{Uninit} {L : Type} `{LongLaws L} {V : Type} `{ObjectSerialization V} `{EqDecision V}.
Context (capacity : string -> Z) (proxy : PartitionSpecificProxy).
Implicit Types (xs : list V) (s : Objects (list buffer)).

Inductive QueueOp : Type -> Type :=
  | Offer (item : V) (time : Z) : QueueOp bool
  | Add (item : V) : QueueOp bool
  | AddAll (items : list V) : QueueOp bool
  | Clear : QueueOp unit
  | Contains (item : V) : QueueOp bool
  | ContainsAll (items : list V) : QueueOp bool
  | DrainTo (arr : list V) (maxElements : option Z) : QueueOp (list V * res Z)
  | IsEmpty : QueueOp bool
  | Peek : QueueOp V
  | Poll (time : Z) : QueueOp V
  | Put (item : V) : QueueOp unit
  | RemainingCapacity : QueueOp Z
  | Remove (item : V) : QueueOp bool
  | RemoveAll (items : list V) : QueueOp bool
  | RetainAll (items : list V) : QueueOp bool
  | Size : QueueOp Z
  | Take : QueueOp V
  | ToArray : QueueOp (list V).

Definition method {A} (op : QueueOp A) : Proxy L A :=
  match op with
  | Offer item time => offer proxy item time
  | Add item => add proxy item
  | AddAll items => addAll proxy items
  | Clear => clear proxy
  | Contains item => contains proxy item
  | ContainsAll items => containsAll proxy items
  | DrainTo arr maxElements => drainTo proxy arr maxElements
  | IsEmpty => isEmpty proxy
  | Peek => peek proxy
  | Poll time => poll proxy time
  | Put item => put proxy item
  | RemainingCapacity => remainingCapacity proxy
  | Remove item => remove proxy item
  | RemoveAll items => removeAll proxy items
  | RetainAll items => retainAll proxy items
  | Size => size proxy
  | Take => take proxy
  | ToArray => toArray proxy
  end.

Definition cap : Z := capacity (px_name proxy).

(** The arguments can be stored, and the requests can be answered: there is room for [put] and an item for [take]. *)
Definition op_ok {A} (op : QueueOp A) xs : Prop :=
  match op with
  | Offer x time => storable x /\ in_sint 64 time
  | Add x | Contains x | Remove x => storable x
  | AddAll ys => ys <> [] /\ Forall storable ys
  | ContainsAll ys | RemoveAll ys | RetainAll ys => Forall storable ys
  | DrainTo _ (Some n) => 0 <= n < 2 ^ 31
  | Poll time => in_sint 64 time
  | Put x => storable x /\ size_of xs < cap
  | RemainingCapacity => size_of xs <= cap < 2 ^ 31
  | Size => size_of xs < 2 ^ 31
  | Take => xs <> []
  | _ => True
  end.

(** [null], which the conversion of no data gives. *)
Definition first xs : res V := match xs with [] => toObject None | x :: _ => Ok x end.
Definition queue_spec {A} (op : QueueOp A) xs : res A -> list V -> Prop :=
  match op in QueueOp A return res A -> list V -> Prop with
  | Offer x _ => fun r xs' =>
      if size_of xs <? cap then r = Ok true /\ xs' = xs ++ [x] else r = Ok false /\ xs' = xs
  | Add x => fun r xs' =>
      if size_of xs <? cap then r = Ok true /\ xs' = xs ++ [x] else r = Err IllegalStateError /\ xs' = xs
  | AddAll ys => fun r xs' =>
      if size_of xs + size_of ys <=? cap then r = Ok true /\ xs' = xs ++ ys else r = Ok false /\ xs' = xs
  | Clear => fun r xs' => r = Ok tt /\ xs' = []
  | Contains x => fun r xs' => r = Ok (bool_decide (x ∈ xs)) /\ xs' = xs
  | ContainsAll ys => fun r xs' => r = Ok (subset ys xs) /\ xs' = xs
  | DrainTo arr None => fun r xs' => r = Ok (arr ++ xs, Ok (size_of xs)) /\ xs' = []
  | DrainTo arr (Some n) => fun r xs' =>
      let drained := list.take (Z.to_nat n) xs in r = Ok (arr ++ drained, Ok (size_of drained)) /\ xs = drained ++ xs'
  | IsEmpty => fun r xs' => r = Ok (bool_decide (xs = [])) /\ xs' = xs
  | Peek => fun r xs' => r = first xs /\ xs' = xs
  | Poll _ => fun r xs' => r = first xs /\ xs' = tail xs
  | Put x => fun r xs' => r = Ok tt /\ xs' = xs ++ [x]
  | RemainingCapacity => fun r xs' => r = Ok (cap - size_of xs) /\ xs' = xs
  | Remove x => fun r xs' => r = Ok (bool_decide (x ∈ xs)) /\ xs' = remove_first x xs
  | RemoveAll ys => fun r xs' => r = Ok (bool_decide (length xs' <> length xs)) /\ xs' = without ys xs
  | RetainAll ys => fun r xs' => r = Ok (bool_decide (length xs' <> length xs)) /\ xs' = only ys xs
  | Size => fun r xs' => r = Ok (size_of xs) /\ xs' = xs
  | Take => fun r xs' => exists x, r = Ok x /\ xs = x :: xs'
  | ToArray => fun r xs' => r = Ok xs /\ xs' = xs
  end.

#[local] Abbreviation refined op :=
  (forall xs s, holds proxy xs s -> op_ok op xs -> wp (queue_services capacity) (method op) (outcome proxy (queue_spec op) xs s) s).
#[local] Ltac enter := intros xs s Hh Hop; cbn [method op_ok] in *; destruct_and?.
#[local] Ltac call n k rel f p :=
  eapply (wp_object (queue_services capacity) (queue_services_distinct capacity) (queue_services_conform capacity) proxy n k rel
    (queue_service capacity n) f p);
  [reflexivity | reflexivity | valid_args | valid_args | reflexivity | | ].
(** A call with a decoder of its answer. Left are that there is an answer, the queue after it, and the contract. *)
#[local] Ltac by_call n k rel f p dec := call n k rel f p; [|answered; decoded dec; eapply outcome_updated].
#[local] Abbreviation current s := (s (partitionId proxy) (px_name proxy)).

Lemma room_holds xs s n : holds proxy xs s -> room capacity (px_name proxy) n (current s) = (size_of xs + Z.of_nat n <=? cap).
Proof. intros Hh. unfold room, cap. rewrite <- (holds_len proxy xs s Hh). unfold len. by rewrite Nat2Z.inj_add. Qed.

Lemma room_one xs s : holds proxy xs s -> room capacity (px_name proxy) 1 (current s) = (size_of xs <? cap).
Proof.
  intros Hh. rewrite (room_holds xs s 1 Hh). apply eq_true_iff_eq. rewrite Z.leb_le, Z.ltb_lt. cbn. lia.
Qed.

Lemma offer_call x b time (Q : res bool -> Objects (list buffer) -> Prop) xs s :
  holds proxy xs s -> stored x b -> in_sint 64 time ->
  (if size_of xs <? cap then Q (Ok true) (set_object (partitionId proxy) (px_name proxy) (current s ++ [b]) s)
   else Q (Ok false) (set_object (partitionId proxy) (px_name proxy) (current s) s)) ->
  wp (queue_services capacity) (offer proxy x time) Q s.
Proof.
  intros Hh Hx Ht HQ. unfold offer. rewrite (proj1 Hx), try_ok. pose proof (proj1 (proj2 Hx)) as Hb.
  call 0%nat KBool (effect_of KBool (fun l => if room capacity (px_name proxy) 1 l then (true, l ++ [b]) else (false, l)))
    (IsNumber time : long_arg L, tt) (px_name proxy, (heap b, tt)).
  - unfold effect_of. cbn beta. rewrite (room_one xs s Hh). by destruct (size_of xs <? cap); eexists _, _.
  - intros v c reply Hrel Hd. unfold effect_of in Hrel. cbn beta in Hrel. rewrite (room_one xs s Hh) in Hrel.
    destruct (size_of xs <? cap); injection Hrel as <- <-; by decoded QueueOfferCodec_decodeResponse.
Qed.

Lemma queue_offer_refined x time : refined (Offer x time).
Proof.
  enter. match goal with H : storable x |- _ => destruct H as [b Hb] end. apply (offer_call x b time _ xs); [done | done | done |].
  destruct (size_of xs <? cap) eqn:E; (eapply outcome_updated; [|cbn; by rewrite E]); [|done].
  apply Forall2_app; [done | by constructor].
Qed.

Lemma queue_add_refined x : refined (Add x).
Proof.
  enter. destruct Hop as [b Hb]. unfold add. apply wp_bind. apply (offer_call x b 0 _ xs); [done | done | done |].
  destruct (size_of xs <? cap) eqn:E; (eapply outcome_updated; [|cbn; by rewrite E]); [|done].
  apply Forall2_app; [done | by constructor].
Qed.

Lemma queue_addAll_refined ys : refined (AddAll ys).
Proof.
  enter. unfold addAll. convert_args. rename x into bs.
  call 1%nat KBool (effect_of KBool (fun l => if room capacity (px_name proxy) (length (bytes <$> (heap <$> bs))) l
      then (true, l ++ (bytes <$> (heap <$> bs))) else (false, l))) tt (px_name proxy, (heap <$> bs, tt)).
  - unfold effect_of. destruct (room _ _ _ _); by eexists _, _.
  - intros v c reply Hrel Hd. unfold effect_of in Hrel. cbn beta in Hrel. rewrite bytes_heap_list in Hrel.
    rewrite (room_holds xs s (length bs) Hh) in Hrel. stored_list ys ltac:(fun H => rewrite <- (Forall2_length _ _ _ H) in Hrel).
    change (Z.of_nat (length ys)) with (size_of ys) in Hrel.
    destruct (size_of xs + size_of ys <=? cap) eqn:E; injection Hrel as <- <-; decoded QueueAddAllCodec_decodeResponse;
      (eapply outcome_updated; [|cbn; by rewrite E]); [|done]. by apply Forall2_app.
Qed.

Lemma queue_clear_refined : refined Clear.
Proof.
  enter. unfold clear, ignore_answer. call 2%nat KUnit (effect_of KUnit (fun l : list buffer => (tt, [] : list buffer))) tt (px_name proxy, tt).
  - functional_effect.
  - answered. eapply (outcome_updated proxy _ _ _ (Ok tt)); [|by split]. constructor.
Qed.

Lemma queue_contains_refined x : refined (Contains x).
Proof.
  enter. unfold contains. convert_args.
  by_call 6%nat KBool (reads KBool (fun l : list buffer => bool_decide (x0 ∈ l))) tt (px_name proxy, (heap x0, tt)) QueueContainsCodec_decodeResponse;
    [functional_effect | done |]. split; [|done]. by rewrite (transfer_mem proxy xs s x x0).
Qed.

Lemma queue_containsAll_refined ys : refined (ContainsAll ys).
Proof.
  enter. unfold containsAll. convert_args.
  by_call 5%nat KBool (reads KBool (subset (bytes <$> (heap <$> x)))) tt (px_name proxy, (heap <$> x, tt)) QueueContainsAllCodec_decodeResponse;
    [functional_effect | done |]. split; [|done].
  by rewrite bytes_heap_list, (transfer_subset stored stored_functional stored_injective ys x xs _ Hop Hh).
Qed.

Lemma push_drained_stored xs l : Forall2 stored xs l -> forall arr, push_drained arr (heap <$> l) = (arr ++ xs, Ok tt).
Proof.
  induction 1 as [|x b xs l (_ & _ & E) _ IH]; intros arr; [by rewrite app_nil_r|]. cbn. rewrite E, IH. by rewrite <- app_assoc.
Qed.

Lemma queue_drainTo_refined arr n : refined (DrainTo arr n).
Proof.
  enter. unfold drainTo. apply wp_bind. destruct n as [n|].
  - call 8%nat KList (effect_of KList (fun l : list buffer => (list.take (Z.to_nat n) l, drop (Z.to_nat n) l))) (n, tt) (px_name proxy, tt).
    + functional_effect. apply Forall_take. by eapply stored_valid.
    + answered. decoded QueueDrainToMaxSizeCodec_decodeResponse. assert (Ht := Forall2_take _ _ _ (Z.to_nat n) Hh).
      rewrite (push_drained_stored _ _ Ht). rewrite length_fmap, <- (Forall2_length _ _ _ Ht).
      eapply (outcome_updated proxy _ _ _ (Ok _) (drop (Z.to_nat n) xs)); [by apply Forall2_drop|]. split; [done|]. by rewrite take_drop.
  - call 7%nat KList (effect_of KList (fun l : list buffer => (l, [] : list buffer))) tt (px_name proxy, tt).
    + functional_effect. by eapply stored_valid.
    + answered. decoded QueueDrainToCodec_decodeResponse. rewrite (push_drained_stored _ _ Hh). rewrite length_fmap, <- (Forall2_length _ _ _ Hh).
      eapply (outcome_updated proxy _ _ _ (Ok _) []); [constructor | by split].
Qed.

Lemma queue_isEmpty_refined : refined IsEmpty.
Proof.
  enter. unfold isEmpty.
  by_call 9%nat KBool (reads KBool (fun l : list buffer => bool_decide (l = []))) tt (px_name proxy, tt) QueueIsEmptyCodec_decodeResponse;
    [functional_effect | done |]. split; [|done]. f_equal. apply bool_decide_ext. by destruct Hh.
Qed.

(** The first item, as the client converts it. *)
Lemma head_stored xs l : Forall2 stored xs l -> toObject (heap <$> head l) = first xs /\ option_valid valid_bytes (head l).
Proof. intros Hl. destruct Hl as [|x b xs l (_ & Hb & E) _]; [done | by split]. Qed.

Lemma queue_peek_refined : refined Peek.
Proof.
  enter. destruct (head_stored _ _ Hh) as [Hf Hv]. unfold peek.
  by_call 11%nat KData (reads KData head) tt (px_name proxy, tt) QueuePeekCodec_decodeResponse; [functional_effect | done | by split].
Qed.

Lemma queue_poll_refined time : refined (Poll time).
Proof.
  enter. destruct (head_stored _ _ Hh) as [Hf Hv]. unfold poll.
  by_call 12%nat KData (effect_of KData (fun l : list buffer => (head l, tail l))) (IsNumber time : long_arg L, tt) (px_name proxy, tt)
    QueuePollCodec_decodeResponse; [functional_effect | | by split]. by destruct Hh.
Qed.

Lemma queue_put_refined x : refined (Put x).
Proof.
  enter. unfold put, ignore_answer. convert_args.
  call 13%nat KUnit (fun (l : list buffer) (v : member_val KUnit) l' => room capacity (px_name proxy) 1 l = true /\ v = tt /\ l' = l ++ [x0])
    tt (px_name proxy, (heap x0, tt)).
  - eexists _, _. split; [|done]. split_and!; [|done|done]. rewrite (room_one xs s Hh). by apply Z.ltb_lt.
  - intros v c reply (_ & -> & ->) Hd. eapply (outcome_updated proxy _ _ _ (Ok tt)); [|by split].
    apply Forall2_app; [done | by constructor].
Qed.

Lemma queue_remainingCapacity_refined : refined RemainingCapacity.
Proof.
  enter. unfold remainingCapacity.
  by_call 14%nat KInt (reads KInt (fun l => capacity (px_name proxy) - len l)) tt (px_name proxy, tt) QueueRemainingCapacityCodec_decodeResponse;
    [functional_effect | done |].
  - cbn. rewrite (holds_len proxy xs s Hh). unfold in_sint, cap, size_of in *. lia.
  - split; [|done]. by rewrite (holds_len proxy xs s Hh).
Qed.

Lemma queue_remove_refined x : refined (Remove x).
Proof.
  enter. unfold remove. convert_args.
  by_call 15%nat KBool (effect_of KBool (fun l => (bool_decide (x0 ∈ l), remove_first x0 l))) tt (px_name proxy, (heap x0, tt))
    QueueRemoveCodec_decodeResponse.
  - functional_effect.
  - by apply (transfer_remove stored stored_functional stored_injective xs _ x x0).
  - split; [|done]. by rewrite (transfer_mem proxy xs s x x0).
Qed.

Lemma queue_removeAll_refined ys : refined (RemoveAll ys).
Proof.
  enter. unfold removeAll. convert_args.
  by_call 3%nat KBool (effect_of KBool (fun l =>
      (bool_decide (length (without (bytes <$> (heap <$> x)) l) <> length l), without (bytes <$> (heap <$> x)) l)))
    tt (px_name proxy, (heap <$> x, tt)) QueueCompareAndRemoveAllCodec_decodeResponse; [functional_effect | |].
  - rewrite bytes_heap_list. by apply (transfer_without stored stored_functional stored_injective ys x xs).
  - split; [|done]. by rewrite bytes_heap_list, (without_changed proxy ys x xs s).
Qed.

Lemma queue_retainAll_refined ys : refined (RetainAll ys).
Proof.
  enter. unfold retainAll. convert_args.
  by_call 4%nat KBool (effect_of KBool (fun l =>
      (bool_decide (length (only (bytes <$> (heap <$> x)) l) <> length l), only (bytes <$> (heap <$> x)) l)))
    tt (px_name proxy, (heap <$> x, tt)) QueueCompareAndRetainAllCodec_decodeResponse; [functional_effect | |].
  - rewrite bytes_heap_list. by apply (transfer_only stored stored_functional stored_injective ys x xs).
  - split; [|done]. by rewrite bytes_heap_list, (only_changed proxy ys x xs s).
Qed.

Lemma queue_size_refined : refined Size.
Proof.
  enter. unfold size. by_call 16%nat KInt (reads KInt len) tt (px_name proxy, tt) QueueSizeCodec_decodeResponse;
    [functional_effect | done |].
  - cbn. rewrite (holds_len proxy xs s Hh). unfold in_sint, size_of in *. lia.
  - split; [|done]. by rewrite (holds_len proxy xs s Hh).
Qed.

Lemma queue_take_refined : refined Take.
Proof.
  enter. unfold take. assert (Hh' := Hh). unfold holds in Hh'. inversion Hh' as [|x b xs' l Hx Hl E1 E2]; subst xs; [done|].
  call 17%nat KData (fun (l : list buffer) (v : member_val KData) l' => exists b, l = b :: l' /\ v = Some b) tt (px_name proxy, tt).
  - exists (Some b), l. split; [by exists b|]. apply Hx.
  - intros v c reply (b' & E & ->) Hd. rewrite <- E2 in E. injection E as <- <-. decoded QueueTakeCodec_decodeResponse.
    eapply outcome_updated; [exact Hl|]. exists x. split; [apply Hx | done].
Qed.

Lemma queue_toArray_refined : refined ToArray.
Proof.
  enter. unfold toArray. by_call 10%nat KList (reads KList (fun l : list buffer => l)) tt (px_name proxy, tt) QueueIteratorCodec_decodeResponse;
    [functional_effect | done |].
  - by eapply stored_valid.
  - split; [|done]. by rewrite (deserialize_stored _ _ Hh).
Qed.

Lemma queue_refined {A} (op : QueueOp A) : refined op.
Proof.
  destruct op; auto using queue_offer_refined, queue_add_refined, queue_addAll_refined, queue_clear_refined, queue_contains_refined, queue_containsAll_refined,
    queue_drainTo_refined, queue_isEmpty_refined, queue_peek_refined, queue_poll_refined, queue_put_refined, queue_remainingCapacity_refined, queue_remove_refined,
    queue_removeAll_refined, queue_retainAll_refined, queue_size_refined, queue_take_refined, queue_toArray_refined.
Qed.
End QueueRefinement.

(** ** Properties *)

(** C5: the operations of [QueueProxy] are those of a bounded queue of values. If the members hold the serialized values [xs] in
    the partition of the queue, then every method whose request can be answered settles, returns what its contract says about
    [xs] and the capacity ([offer] returns [false] and [add] throws if the queue is full, [poll] and [peek] return [null] if it
    is empty, [drainTo] moves the items to the end of the array, in order), and the members hold the values the
    contract leaves; no other queue changes. [put] and [take] are answered when there is room or an item; [addAll] is of an array that
    is not empty; listeners are not among the methods. *)
Theorem queue_proxy_refines_queue `{Uninit} {L} `{LongLaws L} {V} `{ObjectSerialization V} `{EqDecision V} {A}
    (capacity : string -> Z) (proxy : PartitionSpecificProxy) (op : QueueOp A) (xs : list V) (s : Objects (list buffer)) :
  holds proxy xs s -> op_ok capacity proxy op xs ->
  (exists r s', runs (queue_services (L := L) capacity) (method proxy op) s r s') /\
  forall r s', runs (queue_services (L := L) capacity) (method proxy op) s r s' ->
    exists xs', holds proxy xs' s' /\ (forall p n, (p, n) <> (partitionId proxy, px_name proxy) -> s' p n = s p n) /\
      queue_spec capacity proxy op xs r xs'.
Proof. intros Hh Hop. apply wp_sound. by apply queue_refined. Qed.

(** An event of an item is handed to the function of the listener for its type, with the value of the item. *)
Lemma queue_event_handled {L} `{LongLaws L} {V M T} `{ObjectSerialization V} (null : V) (getMember : string -> option M)
    (name : string) (listener : ItemListener V M T) (uuid : UUID L) eventType item v message rest :
  item_message 200962 uuid eventType item message ->
  (match item with None => Ok null | Some _ => toObject item end) = Ok v ->
  listenerHandler null getMember name listener (message ++ rest) =
    Ok (item_called listener (mkItemEvent name eventType v (getMember (UUID_toString uuid)))).
Proof. intros Hm Hv. eapply item_handled; [|done|done]. intros h. event_agrees. Qed.

(** ** Witnesses *)

#[local] Existing Instances bool_serialization demo_uninit.

Lemma queue_proxy_refines_queue_witness : exists r s',
  runs (queue_services (L := Int64.t) (fun _ => 2)) (method demo_proxy (Add true)) (fun _ _ => demo_bytes <$> [true; false]) r s' /\
  r = Err IllegalStateError /\ s' 7 "c" = demo_bytes <$> [true; false].
Proof.
  assert (Forall2 stored [true; false] (demo_bytes <$> [true; false])) as Hl.
  { constructor; [apply demo_stored|]. constructor; [apply demo_stored | constructor]. }
  destruct (queue_proxy_refines_queue (L := Int64.t) (fun _ => 2) demo_proxy (Add true) [true; false] (fun _ _ => demo_bytes <$> [true; false]))
    as [(r & s' & Hr) Hall].
  - exact Hl.
  - exists (demo_bytes true). apply demo_stored.
  - destruct (Hall r s' Hr) as (xs' & Hh & _ & -> & ->). exists (Err IllegalStateError), s'. split; [exact Hr|]. split; [reflexivity|].
    exact (Forall2_eq_stored _ _ _ Hl Hh).
Defined.
