(* ===== verification/SetProxy.v ===== *)
(** * The distributed set

    [SetProxy] of [src/src/proxy/SetProxy.ts]: its methods as programs ([ProxyCore]) that send the requests of
    [CollectionRequests] to the partition of the set, the members that keep sets of bytes, and the contract of
    [src/src/proxy/ISet.ts] on sets of values. The sets have no maximum size. *)

From S2P Require Export Prelude CollectionCore CollectionRequests.

Section SetProxy.
Context `{Uninit} {L : Type} {V : Type} `{ObjectSerialization V}.
Context (proxy : PartitionSpecificProxy).

#[local] Abbreviation P := (Proxy L).
#[local] Abbreviation name := (px_name proxy).

Definition add (entry : V) : P bool :=
  entryData ← try_ (toData entry);
  clientMessage ← encodeInvoke proxy (SetAddCodec_encodeRequest name entryData);
  decodeResponse SetAddCodec_decodeResponse clientMessage.

Definition addAll (items : list V) : P bool :=
  itemList ← try_ (serializeList items);
  clientMessage ← encodeInvoke proxy (SetAddAllCodec_encodeRequest name itemList);
  decodeResponse SetAddAllCodec_decodeResponse clientMessage.

Definition toArray : P (list V) :=
  clientMessage ← encodeInvoke proxy (SetGetAllCodec_encodeRequest name);
  response ← decodeResponse SetGetAllCodec_decodeResponse clientMessage;
  try_ (deserializeList response).

Definition clear : P unit := ignore_answer (encodeInvoke proxy (SetClearCodec_encodeRequest name)).

Definition contains (entry : V) : P bool :=
  entryData ← try_ (toData entry);
  clientMessage ← encodeInvoke proxy (SetContainsCodec_encodeRequest name entryData);
  decodeResponse SetContainsCodec_decodeResponse clientMessage.

Definition containsAll (items : list V) : P bool :=
  itemList ← try_ (serializeList items);
  clientMessage ← encodeInvoke proxy (SetContainsAllCodec_encodeRequest name itemList);
  decodeResponse SetContainsAllCodec_decodeResponse clientMessage.

Definition isEmpty : P bool :=
  clientMessage ← encodeInvoke proxy (SetIsEmptyCodec_encodeRequest name);
  decodeResponse SetIsEmptyCodec_decodeResponse clientMessage.

Definition remove (entry : V) : P bool :=
  entryData ← try_ (toData entry);
  clientMessage ← encodeInvoke proxy (SetRemoveCodec_encodeRequest name entryData);
  decodeResponse SetRemoveCodec_decodeResponse clientMessage.

Definition removeAll (items : list V) : P bool :=
  itemList ← try_ (serializeList items);
  clientMessage ← encodeInvoke proxy (SetCompareAndRemoveAllCodec_encodeRequest name itemList);
  decodeResponse SetCompareAndRemoveAllCodec_decodeResponse clientMessage.

Definition retainAll (items : list V) : P bool :=
  itemList ← try_ (serializeList items);
  clientMessage ← encodeInvoke proxy (SetCompareAndRetainAllCodec_encodeRequest name itemList);
  decodeResponse SetCompareAndRetainAllCodec_decodeResponse clientMessage.

Definition size : P Z :=
  clientMessage ← encodeInvoke proxy (SetSizeCodec_encodeRequest name);
  decodeResponse SetSizeCodec_decodeResponse clientMessage.
End SetProxy.

(** [handler] of [addItemListener]. *)
Definition listenerHandler {L} `{LongLib L} {V M T} `{ObjectSerialization V} (getMember : string -> option M)
    (name : string) (listener : ItemListener V M T) : frames -> res (option T) :=
  item_handler getMember name listener SetAddListenerCodec_handle toObject.

(** ** The members of sets *)

Section SetMembers.
Context `{Uninit} {L : Type}.

(** The bytes of a list of items. *)
Definition items (l : list HeapData) : gset buffer := list_to_set (bytes <$> l).

Definition set_services : list (Service L (Objects (gset buffer))) := [
  mkService (mkRequestFormat 394240 false [] [param string_codec; param data_codec]
      (fun f p => SetAddCodec_encodeRequest p.1 p.2.1))
    (fun f p => on_object (effect_of KBool (fun X => (bool_decide (bytes p.2.1 ∉ X), {[ bytes p.2.1 ]} ∪ X))) p.1);
  mkService (mkRequestFormat 394752 false [] [param string_codec; param (list_codec data_codec)]
      (fun f p => SetAddAllCodec_encodeRequest p.1 p.2.1))
    (fun f p => on_object (effect_of KBool (fun X => (bool_decide (¬ items p.2.1 ⊆ X), items p.2.1 ∪ X))) p.1);
  mkService (mkRequestFormat 395776 false [] [param string_codec] (fun f p => SetGetAllCodec_encodeRequest p.1))
    (fun f p => on_object (k := KList) (fun X v X' => v ≡ₚ elements X /\ X' = X) p.1);
  mkService (mkRequestFormat 395520 false [] [param string_codec] (fun f p => SetClearCodec_encodeRequest p.1))
    (fun f p => on_object (effect_of KUnit (fun X => (tt, ∅))) p.1);
  mkService (mkRequestFormat 393728 false [] [param string_codec; param data_codec]
      (fun f p => SetContainsCodec_encodeRequest p.1 p.2.1))
    (fun f p => on_object (reads KBool (fun X => bool_decide (bytes p.2.1 ∈ X))) p.1);
  mkService (mkRequestFormat 393984 false [] [param string_codec; param (list_codec data_codec)]
      (fun f p => SetContainsAllCodec_encodeRequest p.1 p.2.1))
    (fun f p => on_object (reads KBool (fun X => bool_decide (items p.2.1 ⊆ X))) p.1);
  mkService (mkRequestFormat 396544 false [] [param string_codec] (fun f p => SetIsEmptyCodec_encodeRequest p.1))
    (fun f p => on_object (reads KBool (fun X => bool_decide (X = ∅))) p.1);
  mkService (mkRequestFormat 394496 false [] [param string_codec; param data_codec]
      (fun f p => SetRemoveCodec_encodeRequest p.1 p.2.1))
    (fun f p => on_object (effect_of KBool (fun X => (bool_decide (bytes p.2.1 ∈ X), X ∖ {[ bytes p.2.1 ]}))) p.1);
  mkService (mkRequestFormat 395008 false [] [param string_codec; param (list_codec data_codec)]
      (fun f p => SetCompareAndRemoveAllCodec_encodeRequest p.1 p.2.1))
    (fun f p => on_object (effect_of KBool (fun X => (bool_decide (X ∩ items p.2.1 <> ∅), X ∖ items p.2.1))) p.1);
  mkService (mkRequestFormat 395264 false [] [param string_codec; param (list_codec data_codec)]
      (fun f p => SetCompareAndRetainAllCodec_encodeRequest p.1 p.2.1))
    (fun f p => on_object (effect_of KBool (fun X => (bool_decide (¬ X ⊆ items p.2.1), X ∩ items p.2.1))) p.1);
  mkService (mkRequestFormat 393472 false [] [param string_codec] (fun f p => SetSizeCodec_encodeRequest p.1))
    (fun f p => on_object (reads KInt (fun X => Z.of_nat (base.size X))) p.1)
].
Definition set_service (n : nat) : Service L (Objects (gset buffer)) := nth n set_services no_service.

Lemma set_services_conform : Forall (fun sv => request_conforms (sv_format sv)) set_services.
Proof. format_agrees set_services. Qed.

Lemma set_services_distinct : NoDup (map (fun sv => rf_type (sv_format sv)) set_services).
Proof. apply (bool_decide_eq_true_1 _). vm_compute. reflexivity. Qed.
End SetMembers.

(** ** The contract of a set *)

Section SetRefinement.
Context `{Uninit} {L : Type} {V : Type} `{ObjectSerialization V} `{EqDecision V}.
Context (proxy : PartitionSpecificProxy).
Implicit Types (xs : list V) (s : Objects (gset buffer)).

Inductive SetOp : Type -> Type :=
  | Add (entry : V) : SetOp bool
  | AddAll (items : list V) : SetOp bool
  | ToArray : SetOp (list V)
  | Clear : SetOp unit
  | Contains (entry : V) : SetOp bool
  | ContainsAll (items : list V) : SetOp bool
  | IsEmpty : SetOp bool
  | Remove (entry : V) : SetOp bool
  | RemoveAll (items : list V) : SetOp bool
  | RetainAll (items : list V) : SetOp bool
  | Size : SetOp Z.

Definition method {A} (op : SetOp A) : Proxy L A :=
  match op with
  | Add entry => add proxy entry
  | AddAll items => addAll proxy items
  | ToArray => toArray proxy
  | Clear => clear proxy
  | Contains entry => contains proxy entry
  | ContainsAll items => containsAll proxy items
  | IsEmpty => isEmpty proxy
  | Remove entry => remove proxy entry
  | RemoveAll items => removeAll proxy items
  | RetainAll items => retainAll proxy items
  | Size => size proxy
  end.

Definition op_ok {A} (op : SetOp A) xs : Prop :=
  match op with
  | Add x | Contains x | Remove x => storable x
  | AddAll ys | ContainsAll ys | RemoveAll ys | RetainAll ys => Forall storable ys
  | Size => Z.of_nat (length xs) < 2 ^ 31
  | _ => True
  end.

(** A set of values is a list without duplicates; its order says nothing. *)
Definition set_spec {A} (op : SetOp A) xs : res A -> list V -> Prop :=
  match op in SetOp A return res A -> list V -> Prop with
  | Add x => fun r xs' => r = Ok (bool_decide (x ∉ xs)) /\ forall y, y ∈ xs' <-> y = x \/ y ∈ xs
  | AddAll ys => fun r xs' => r = Ok (negb (subset ys xs)) /\ forall y, y ∈ xs' <-> y ∈ ys \/ y ∈ xs
  | ToArray => fun r xs' => (exists zs, zs ≡ₚ xs /\ r = Ok zs) /\ xs' = xs
  | Clear => fun r xs' => r = Ok tt /\ xs' = []
  | Contains x => fun r xs' => r = Ok (bool_decide (x ∈ xs)) /\ xs' = xs
  | ContainsAll ys => fun r xs' => r = Ok (subset ys xs) /\ xs' = xs
  | IsEmpty => fun r xs' => r = Ok (bool_decide (xs = [])) /\ xs' = xs
  | Remove x => fun r xs' => r = Ok (bool_decide (x ∈ xs)) /\ forall y, y ∈ xs' <-> y <> x /\ y ∈ xs
  | RemoveAll ys => fun r xs' => r = Ok (bool_decide (only ys xs <> [])) /\ xs' = without ys xs
  | RetainAll ys => fun r xs' => r = Ok (negb (subset xs ys)) /\ xs' = only ys xs
  | Size => fun r xs' => r = Ok (Z.of_nat (length xs)) /\ xs' = xs
  end.

(** The members hold the bytes of the values. *)
Definition bytes_of xs (X : gset buffer) : Prop :=
  NoDup xs /\ exists l, Forall2 stored xs l /\ X = list_to_set l.
Definition holds_set xs s : Prop := bytes_of xs (s (partitionId proxy) (px_name proxy)).
Definition set_outcome {A} (op : SetOp A) xs s (r : res A) s' : Prop :=
  exists xs', holds_set xs' s' /\ (forall p n, (p, n) <> (partitionId proxy, px_name proxy) -> s' p n = s p n) /\
    set_spec op xs r xs'.

#[local] Abbreviation current s := (s (partitionId proxy) (px_name proxy)).

(** *** Sets of values and sets of bytes *)

Lemma set_mem xs X x b : bytes_of xs X -> stored x b -> x ∈ xs <-> b ∈ X.
Proof.
  intros (_ & l & Hl & ->) Hx. rewrite elem_of_list_to_set. by apply (transfer_elem stored stored_functional stored_injective).
Qed.

Lemma set_subset ys bs xs X : Forall2 stored ys bs -> bytes_of xs X ->
  Forall (fun y => y ∈ xs) ys <-> (list_to_set bs : gset buffer) ⊆ X.
Proof.
  intros Hy HX. induction Hy as [|y b ys bs Hb _ IH]; [split; [set_solver | by constructor]|].
  rewrite Forall_cons, IH, (set_mem xs X y b HX Hb). set_solver.
Qed.

Lemma set_insert xs X x b : bytes_of xs X -> stored x b -> bytes_of (if decide (x ∈ xs) then xs else x :: xs) ({[ b ]} ∪ X).
Proof.
  intros HX Hx. pose proof (set_mem xs X x b HX Hx) as Hm. destruct HX as (Hn & l & Hl & ->). case_decide as Hin.
  - split; [done|]. exists l. split; [done|]. apply Hm in Hin. set_solver.
  - split; [by constructor|]. exists (b :: l). split; [by constructor | done].
Qed.

Fixpoint union_list (ys xs : list V) : list V :=
  match ys with [] => xs | y :: ys => let zs := union_list ys xs in if decide (y ∈ zs) then zs else y :: zs end.

Lemma elem_of_union_list ys xs y : y ∈ union_list ys xs <-> y ∈ ys \/ y ∈ xs.
Proof. induction ys as [|z ys IH]; cbn; [set_solver|]. case_decide; set_solver. Qed.

Lemma set_union ys bs xs X : Forall2 stored ys bs -> bytes_of xs X -> bytes_of (union_list ys xs) (list_to_set bs ∪ X).
Proof.
  intros Hy HX. induction Hy as [|y b ys bs Hb _ IH]; [by rewrite list_to_set_nil, (left_id_L ∅ (∪))|]. cbn [union_list list_to_set].
  rewrite <- (assoc_L (∪)). by apply set_insert.
Qed.

Lemma set_filter (P : V -> Prop) (Q : buffer -> Prop) `{!∀ x, Decision (P x), !∀ x, Decision (Q x)} xs X Y : bytes_of xs X ->
  (forall x b, stored x b -> P x <-> Q b) -> (forall b, b ∈ Y <-> Q b /\ b ∈ X) -> bytes_of (filter P xs) Y.
Proof.
  intros (Hn & l & Hl & ->) HPQ HY. split; [by apply NoDup_filter|]. exists (filter Q l).
  split; [by apply transfer_filter|]. apply set_eq. intros b. rewrite HY, !elem_of_list_to_set. by rewrite list_elem_of_filter.
Qed.

Lemma set_without ys bs xs X : Forall2 stored ys bs -> bytes_of xs X -> bytes_of (without ys xs) (X ∖ list_to_set bs).
Proof.
  intros Hy HX. apply (set_filter _ (fun b => b ∉ bs) xs X); [done| |set_solver].
  intros x b Hx. by rewrite (transfer_elem stored stored_functional stored_injective ys bs x b Hy Hx).
Qed.

Lemma set_only ys bs xs X : Forall2 stored ys bs -> bytes_of xs X -> bytes_of (only ys xs) (X ∩ list_to_set bs).
Proof.
  intros Hy HX. apply (set_filter _ (fun b => b ∈ bs) xs X); [done| |set_solver].
  intros x b Hx. by rewrite (transfer_elem stored stored_functional stored_injective ys bs x b Hy Hx).
Qed.

Lemma set_nodup xs l : NoDup xs -> Forall2 stored xs l -> NoDup l.
Proof.
  intros Hn Hl. induction Hl as [|x b xs l Hx Hl IH]; [constructor|]. apply NoDup_cons in Hn as [Hni Hn].
  constructor; [|by apply IH]. by rewrite <- (transfer_elem stored stored_functional stored_injective xs l x b Hl Hx).
Qed.

Lemma set_size xs X : bytes_of xs X -> base.size X = length xs.
Proof. intros (Hn & l & Hl & ->). rewrite size_list_to_set by (by eapply set_nodup). by rewrite (Forall2_length _ _ _ Hl). Qed.

Lemma set_empty xs X : bytes_of xs X -> xs = [] <-> X = ∅.
Proof.
  intros HX. rewrite <- length_zero_iff_nil, <- (set_size xs X HX). rewrite size_empty_iff. by rewrite leibniz_equiv_iff.
Qed.

(** The values of the elements, in any order. *)
Lemma set_elements xs X l' : bytes_of xs X -> l' ≡ₚ elements X -> exists zs, zs ≡ₚ xs /\ Forall2 stored zs l'.
Proof.
  intros (Hn & l & Hl & ->) Hp. pose proof (set_nodup xs l Hn Hl) as Hnl.
  assert (l' ≡ₚ l) as Hp' by (rewrite Hp; by apply elements_list_to_set).
  assert (exists zs, Forall2 (fun z b => z ∈ xs /\ stored z b) zs l') as [zs Hzs].
  { assert (Forall (fun b => exists z, z ∈ xs /\ stored z b) l') as Hf.
    { rewrite Hp'. apply Forall_forall. intros b Hb. apply list_elem_of_lookup in Hb as [i Hi].
      destruct (Forall2_lookup_r _ _ _ _ _ Hl Hi) as (x & Hx & Hs). exists x. split; [by eapply list_elem_of_lookup_2 | done]. }
    clear -Hf. induction Hf as [|b l' [z Hz] _ [zs Hzs]]; [by exists []|]. exists (z :: zs). by constructor. }
  exists zs. assert (Forall2 stored zs l') as Hs by (eapply Forall2_impl; [exact Hzs|]; by intros ? ? []).
  split; [|done]. apply NoDup_Permutation; [| done |].
  - apply (NoDup_fmap_1 (fun x => match toData x with Ok d => bytes d | Err _ => [] end)).
    assert ((fun x => match toData x with Ok d => bytes d | Err _ => [] end) <$> zs = l') as ->; [|by rewrite Hp'].
    clear -Hs. induction Hs as [|z b zs l' (E & _) _ IH]; [done|]. cbn. by rewrite E, IH.
  - intros x. split.
    + intros Hx. apply list_elem_of_lookup in Hx as [i Hi]. by destruct (Forall2_lookup_l _ _ _ _ _ Hzs Hi) as (b & _ & Hin & _).
    + intros Hx. apply list_elem_of_lookup in Hx as [i Hi]. destruct (Forall2_lookup_l _ _ _ _ _ Hl Hi) as (b & Hb & Hxb).
      apply list_elem_of_lookup_2 in Hb. rewrite <- Hp' in Hb.
      by apply (transfer_elem stored stored_functional stored_injective zs l' x b Hs Hxb).
Qed.

(** *** The methods *)

Lemma set_updated {A} (op : SetOp A) xs s r xs' X : bytes_of xs' X -> set_spec op xs r xs' ->
  set_outcome op xs s r (set_object (partitionId proxy) (px_name proxy) X s).
Proof.
  intros HX Hs. exists xs'. split_and!; [|intros p n; apply set_object_other|done].
  unfold holds_set. by rewrite set_object_same.
Qed.

Lemma items_heap bs : items (heap <$> bs) = list_to_set bs.
Proof. unfold items. by rewrite bytes_heap_list. Qed.

Lemma negb_subset (ys xs : list V) (P : Prop) `{!Decision (¬ P)} : (Forall (fun y => y ∈ xs) ys <-> P) ->
  bool_decide (¬ P) = negb (subset ys xs).
Proof.
  intros HP. unfold subset. destruct (decide (Forall (fun y => y ∈ xs) ys)) as [Hd|Hd].
  - rewrite (bool_decide_eq_true_2 _ Hd), bool_decide_eq_false_2; [done|]. intros Hn. by apply Hn, HP.
  - rewrite (bool_decide_eq_false_2 _ Hd), bool_decide_eq_true_2; [done|]. intros Hp. by apply Hd, HP.
Qed.

#[local] Abbreviation refined op := (forall xs s, holds_set xs s -> op_ok op xs -> wp set_services (method op) (set_outcome op xs s) s).
#[local] Ltac enter := intros xs s Hh Hop; cbn [method op_ok] in *; destruct_and?.
#[local] Ltac call n k rel f p :=
  eapply (wp_object set_services set_services_distinct set_services_conform proxy n k rel (set_service n) f p);
  [reflexivity | reflexivity | valid_args | valid_args | reflexivity | | ].
(** A call with a decoder of its answer. Left are that there is an answer, the set after it, and the contract. *)
#[local] Ltac by_call n k rel f p dec := call n k rel f p; [|answered; decoded dec; rewrite ?items_heap; eapply set_updated].

Lemma set_add_refined x : refined (Add x).
Proof.
  enter. unfold add. convert_args.
  by_call 0%nat KBool (effect_of KBool (fun X : gset buffer => (bool_decide (x0 ∉ X), {[ x0 ]} ∪ X))) tt (px_name proxy, (heap x0, tt))
    SetAddCodec_decodeResponse.
  - functional_effect.
  - by apply set_insert.
  - split; [f_equal; apply bool_decide_ext; by rewrite (set_mem xs (current s) x x0)|]. cbn. intros y. destruct (decide (x ∈ xs)); set_solver.
Qed.

Lemma set_addAll_refined ys : refined (AddAll ys).
Proof.
  enter. unfold addAll. convert_args. rename x into bs.
  by_call 1%nat KBool (effect_of KBool (fun X : gset buffer => (bool_decide (¬ items (heap <$> bs) ⊆ X), items (heap <$> bs) ∪ X)))
    tt (px_name proxy, (heap <$> bs, tt)) SetAddAllCodec_decodeResponse.
  - functional_effect.
  - by apply (set_union ys).
  - split; [|intros y; apply elem_of_union_list].
    f_equal. apply negb_subset. apply (set_subset ys bs xs _ Hop Hh).
Qed.

Lemma set_toArray_refined : refined ToArray.
Proof.
  enter. unfold toArray.
  call 2%nat KList (fun (X : gset buffer) (v : member_val KList) X' => v ≡ₚ elements X /\ X' = X) tt (px_name proxy, tt).
  - eexists (elements (current s) : member_val KList), _. split; [done|]. cbn.
    destruct (set_elements xs (current s) (elements (current s)) Hh) as (zs & _ & Hz); [done|]. by eapply stored_valid.
  - intros v c reply [Hv ->] Hd. decoded SetGetAllCodec_decodeResponse.
    destruct (set_elements xs (current s) v Hh Hv) as (zs & Hp & Hz). rewrite (deserialize_stored _ _ Hz).
    eapply set_updated; [exact Hh|]. split; [|done]. by exists zs.
Qed.

Lemma set_clear_refined : refined Clear.
Proof.
  enter. unfold clear, ignore_answer. call 3%nat KUnit (effect_of KUnit (fun X : gset buffer => (tt, ∅ : gset buffer))) tt (px_name proxy, tt).
  - functional_effect.
  - answered. eapply (set_updated _ _ _ (Ok tt)); [|by split]. split; [constructor|]. by exists [].
Qed.

Lemma set_contains_refined x : refined (Contains x).
Proof.
  enter. unfold contains. convert_args.
  by_call 4%nat KBool (reads KBool (fun X : gset buffer => bool_decide (x0 ∈ X))) tt (px_name proxy, (heap x0, tt)) SetContainsCodec_decodeResponse;
    [functional_effect | done |]. split; [|done]. f_equal. apply bool_decide_ext. by rewrite (set_mem xs (current s) x x0).
Qed.

Lemma set_containsAll_refined ys : refined (ContainsAll ys).
Proof.
  enter. unfold containsAll. convert_args. rename x into bs.
  by_call 5%nat KBool (reads KBool (fun X : gset buffer => bool_decide (items (heap <$> bs) ⊆ X))) tt (px_name proxy, (heap <$> bs, tt))
    SetContainsAllCodec_decodeResponse; [functional_effect | done |].
  split; [|done]. f_equal. apply bool_decide_ext. by rewrite (set_subset ys bs xs (current s) Hop Hh).
Qed.

Lemma set_isEmpty_refined : refined IsEmpty.
Proof.
  enter. unfold isEmpty.
  by_call 6%nat KBool (reads KBool (fun X : gset buffer => bool_decide (X = ∅))) tt (px_name proxy, tt) SetIsEmptyCodec_decodeResponse;
    [functional_effect | done |]. split; [|done]. f_equal. apply bool_decide_ext. by rewrite (set_empty xs (current s) Hh).
Qed.

Lemma set_remove_refined x : refined (Remove x).
Proof.
  enter. unfold remove. convert_args.
  by_call 7%nat KBool (effect_of KBool (fun X : gset buffer => (bool_decide (x0 ∈ X), X ∖ {[ x0 ]}))) tt (px_name proxy, (heap x0, tt))
    SetRemoveCodec_decodeResponse.
  - functional_effect.
  - assert (bytes_of (without [x] xs) (current s ∖ {[ x0 ]})) as Hw; [|exact Hw].
    replace ({[ x0 ]} : gset buffer) with (list_to_set [x0] : gset buffer) by set_solver. apply set_without; [constructor; [done | constructor] | done].
  - split; [f_equal; apply bool_decide_ext; by rewrite (set_mem xs (current s) x x0)|].
    intros y. unfold without. rewrite list_elem_of_filter. set_solver.
Qed.

Lemma set_removeAll_refined ys : refined (RemoveAll ys).
Proof.
  enter. unfold removeAll. convert_args. rename x into bs.
  by_call 8%nat KBool (effect_of KBool (fun X : gset buffer => (bool_decide (X ∩ items (heap <$> bs) <> ∅), X ∖ items (heap <$> bs))))
    tt (px_name proxy, (heap <$> bs, tt)) SetCompareAndRemoveAllCodec_decodeResponse.
  - functional_effect.
  - by apply (set_without ys bs).
  - split; [|done]. f_equal. apply bool_decide_ext. by rewrite (set_empty _ _ (set_only ys bs xs (current s) Hop Hh)).
Qed.

Lemma set_retainAll_refined ys : refined (RetainAll ys).
Proof.
  enter. unfold retainAll. convert_args. rename x into bs.
  by_call 9%nat KBool (effect_of KBool (fun X : gset buffer => (bool_decide (¬ X ⊆ items (heap <$> bs)), X ∩ items (heap <$> bs))))
    tt (px_name proxy, (heap <$> bs, tt)) SetCompareAndRetainAllCodec_decodeResponse.
  - functional_effect.
  - by apply (set_only ys bs).
  - split; [|done]. f_equal. apply negb_subset. destruct Hh as (_ & l & Hl & ->).
    rewrite (transfer_all stored stored_functional stored_injective xs l ys bs Hl Hop), Forall_forall. set_solver.
Qed.

Lemma set_size_refined : refined Size.
Proof.
  enter. unfold size.
  by_call 10%nat KInt (reads KInt (fun X : gset buffer => Z.of_nat (base.size X))) tt (px_name proxy, tt) SetSizeCodec_decodeResponse;
    [functional_effect | done |].
  - cbn. rewrite (set_size xs (current s) Hh). unfold in_sint. lia.
  - split; [|done]. by rewrite (set_size xs (current s) Hh).
Qed.

Lemma set_ops_refined {A} (op : SetOp A) : refined op.
Proof.
  destruct op; auto using set_add_refined, set_addAll_refined, set_toArray_refined, set_clear_refined, set_contains_refined, set_containsAll_refined,
    set_isEmpty_refined, set_remove_refined, set_removeAll_refined, set_retainAll_refined, set_size_refined.
Qed.
End SetRefinement.

(** ** Properties *)

(** The operations of [SetProxy] are those of a set of values. If the members hold the serialized values [xs], without
    duplicates, in the partition of the set, then every method with arguments that can be stored settles when its request is
    answered, returns what its contract says about [xs] ([toArray] in any order), and the members hold the values the contract
    leaves, again without duplicates; no other set changes. *)
Theorem set_proxy_refines_set `{Uninit} {L : Type} {V} `{ObjectSerialization V} `{EqDecision V} {A}
    (proxy : PartitionSpecificProxy) (op : SetOp A) (xs : list V) (s : Objects (gset buffer)) :
  holds_set proxy xs s -> op_ok op xs ->
  (exists r s', runs (set_services (L := L)) (method proxy op) s r s') /\
  forall r s', runs (set_services (L := L)) (method proxy op) s r s' ->
    exists xs', holds_set proxy xs' s' /\ (forall p n, (p, n) <> (partitionId proxy, px_name proxy) -> s' p n = s p n) /\
      set_spec op xs r xs'.
Proof. intros Hh Hop. apply wp_sound. by apply set_ops_refined. Qed.

(** An event of an item is handed to the function of the listener for its type, with the value of the item. *)
Lemma set_event_handled {L} `{LongLaws L} {V M T} `{ObjectSerialization V} (getMember : string -> option M)
    (name : string) (listener : ItemListener V M T) (uuid : UUID L) eventType item v message rest :
  item_message 396034 uuid eventType item message -> toObject item = Ok v ->
  listenerHandler getMember name listener (message ++ rest) =
    Ok (item_called listener (mkItemEvent name eventType v (getMember (UUID_toString uuid)))).
Proof. intros Hm Hv. eapply item_handled; [|done|done]. intros h. event_agrees. Qed.

(** ** Witnesses *)

#[local] Existing Instances bool_serialization demo_uninit.

Lemma set_proxy_refines_set_witness : exists r s',
  runs (set_services (L := Int64.t)) (method demo_proxy (Add true)) (fun _ _ => list_to_set (demo_bytes <$> [true; false])) r s' /\
  r = Ok false.
Proof.
  destruct (set_proxy_refines_set (L := Int64.t) demo_proxy (Add true) [true; false] (fun _ _ => list_to_set (demo_bytes <$> [true; false])))
    as [(r & s' & Hr) Hall].
  - split; [by apply (bool_decide_eq_true_1 _)|]. exists (demo_bytes <$> [true; false]). split; [|reflexivity].
    constructor; [apply demo_stored|]. constructor; [apply demo_stored | constructor].
  - exists (demo_bytes true). apply demo_stored.
  - destruct (Hall r s' Hr) as (xs' & Hh & _ & -> & _). exists (Ok false), s'. split; [exact Hr | reflexivity].
Defined.
