(* ===== verification/KeyedCore.v ===== *)
(** * Objects with keys

    What the proxies of multi-maps and replicated maps have in common: the requests for a key go to the partition of the key,
    and those for the whole object to any member, which has them executed on all partitions. The members keep, for each key, a
    slot; the slots of a key that was never written are [vacant]. [EntryEvent], [MapEvent] and [EntryListener] of
    [src/src/proxy/EntryListener.ts] and [src/src/proxy/MapListener.ts]. *)

From S2P Require Export Prelude CollectionCore.

(** ** Slots *)

(** What the store of a partition, [C], has for each key. *)
Class Keyed (C X : Type) := {
  slot : buffer -> C -> X;
  set_slot : buffer -> X -> C -> C;
  vacant : X;
  slot_ok : X -> Prop
}.
Class KeyedLaws (C X : Type) `{Keyed C X} := {
  slot_set k x c : slot k (set_slot k x c) = x;
  slot_set_ne k k' x c : k' <> k -> slot k' (set_slot k x c) = slot k' c
}.

Section KeyedObjects.
Context `{Uninit} {L C X : Type} `{KeyedLaws C X}.
Implicit Types (M : C) (s : Objects C) (k : buffer).

(** A request for a key reads and writes its slot. *)
Definition at_key {kd : kind} (rel : X -> member_val kd -> X -> Prop) (key : HeapData) (c : C) (v : member_val kd) (c' : C) : Prop :=
  exists x, rel (slot (bytes key) c) v x /\ c' = set_slot (bytes key) x c.

(** A request to any member reads and writes all partitions. *)
Definition set_all (name : string) (c : Z -> C) s : Objects C := fun p n => if bool_decide (n = name) then c p else s p n.
Definition on_all (rel : (Z -> C) -> answer -> (Z -> C) -> Prop) (name : string)
    (t : target L) s (a : answer) (s' : Objects C) : Prop :=
  match t with
  | OnRandomTarget => exists c, rel (fun p => s p name) a c /\ s' = set_all name c s
  | _ => False
  end.

Context (services : list (Service L (Objects C))).
Context (distinct : NoDup (map (fun sv => rf_type (sv_format sv)) services)).
Context (conform : Forall (fun sv => request_conforms (sv_format sv)) services).
Context (partitionService : PartitionServiceImpl L) (name : string).
Context (partitions_known : 0 < partitionCount partitionService).

#[local] Abbreviation pid := (pid partitionService).

(** The members have the slots of [M], each in the partition of its key. *)
Record slots_held M s : Prop := {
  sh_slot p k : slot k (s p name) = if p =? pid k then slot k M else vacant;
  sh_valid k : slot k M = vacant \/ valid_bytes k /\ slot_ok (slot k M)
}.

Definition names_kept s s' : Prop := forall p n, n <> name -> s' p n = s p n.

Lemma held_slot M s k : slots_held M s -> slot k (s (pid k) name) = slot k M.
Proof. intros [Hs _]. by rewrite Hs, Z.eqb_refl. Qed.

Lemma held_set M s k x : slots_held M s -> valid_bytes k -> x = vacant \/ slot_ok x ->
  slots_held (set_slot k x M) (set_object (pid k) name (set_slot k x (s (pid k) name)) s).
Proof.
  intros Hh Hk Hx. pose proof Hh as [Hs Hv]. split.
  - intros p k'. destruct (decide (p = pid k)) as [->|Hne].
    + rewrite set_object_same. destruct (decide (k' = k)) as [->|Hk'].
      * by rewrite !slot_set, Z.eqb_refl.
      * by rewrite !slot_set_ne, Hs.
    + rewrite set_object_other by congruence. rewrite Hs. destruct (Z.eqb_spec p (pid k')) as [->|]; [|done].
      rewrite slot_set_ne; [done|]. congruence.
  - intros k'. destruct (decide (k' = k)) as [->|Hk']; [rewrite slot_set | by rewrite slot_set_ne].
    destruct Hx; [by left | by right].
Qed.

Lemma object_names_kept p c s : names_kept s (set_object p name c s).
Proof. intros q n Hn. apply set_object_other. congruence. Qed.

Lemma all_names_kept c s : names_kept s (set_all name c s).
Proof. intros q n Hn. unfold set_all. by rewrite bool_decide_eq_false_2. Qed.

Lemma set_all_same c s p : set_all name c s p name = c p.
Proof. unfold set_all. by rewrite bool_decide_eq_true_2. Qed.

(** ** Calls *)

#[local] Abbreviation wp_services := (wp services).

(** A call for a key. *)
Lemma wp_slot {A} n kd (rel : X -> member_val kd -> X -> Prop) sv f p req k (g : frames -> Proxy L A) Q s M :
  services !! n = Some sv -> rf_encode (sv_format sv) f p = req -> fvalid _ f -> pvalid _ p ->
  sv_effect sv (fview _ f) p = on_object (at_key rel (heap k)) name -> slots_held M s ->
  (exists v x, rel (slot k M) v x /\ member_ok kd v) ->
  (forall v x reply, rel (slot k M) v x ->
     (forall dec, decodes_kind kd dec -> decodeResponse (L := L) dec reply = Done (Ok (client kd v))) ->
     wp_services (g reply) Q (set_object (pid k) name (set_slot k x (s (pid k) name)) s)) ->
  wp_services (encodeInvokeOnKey partitionService req (heap k) ≫= g) Q s.
Proof.
  intros Hn Er Hf Hp He Hh (v & x & Hrel & Hv) Hg. unfold encodeInvokeOnKey.
  rewrite (partition_pid _ _ partitions_known), try_ok.
  change (wp_services (encodeInvoke (mkPartitionSpecificProxy name (pid k)) req ≫= g) Q s).
  eapply (wp_object services distinct conform (mkPartitionSpecificProxy name (pid k)) n kd (at_key rel (heap k)) sv f p);
    [done | done | done | done | done | |]; cbn [partitionId px_name].
  - exists v, (set_slot k x (s (pid k) name)). split; [|done]. exists x. unfold bytes; cbn. by rewrite (held_slot M).
  - intros v' c reply (x' & Hrel' & ->) Hd. unfold bytes in *; cbn in *. rewrite (held_slot M) in Hrel' by done.
    by eapply Hg.
Qed.

Lemma wp_key {A} n kd (rel : X -> member_val kd -> X -> Prop) sv f p req k (g : frames -> Proxy L A) Q s M :
  services !! n = Some sv -> rf_encode (sv_format sv) f p = req -> fvalid _ f -> pvalid _ p -> valid_bytes k ->
  sv_effect sv (fview _ f) p = on_object (at_key rel (heap k)) name -> slots_held M s ->
  (exists v x, rel (slot k M) v x /\ member_ok kd v) ->
  (forall v x reply s', rel (slot k M) v x ->
     (forall dec, decodes_kind kd dec -> decodeResponse (L := L) dec reply = Done (Ok (client kd v))) ->
     (x = vacant \/ slot_ok x -> slots_held (set_slot k x M) s') -> names_kept s s' -> wp_services (g reply) Q s') ->
  wp_services (encodeInvokeOnKey partitionService req (heap k) ≫= g) Q s.
Proof.
  intros Hn Er Hf Hp Hk He Hh Hex Hg. eapply (wp_slot n kd rel sv f p); [done | done | done | done | done | done | done |].
  intros v x reply Hrel Hd. eapply Hg; [done | done | by apply held_set | apply object_names_kept].
Qed.

(** A call for all keys. *)
Lemma wp_all {A} n rel sv f p req (g : frames -> Proxy L A) Q s :
  services !! n = Some sv -> rf_encode (sv_format sv) f p = req -> fvalid _ f -> pvalid _ p ->
  sv_effect sv (fview _ f) p = on_all rel name ->
  (exists a c, rel (fun p => s p name) a c /\ answerable a) ->
  (forall a c reply, rel (fun p => s p name) a c -> reply_of a reply -> wp_services (g reply) Q (set_all name c s)) ->
  wp_services (encodeInvokeOnRandomTarget req ≫= g) Q s.
Proof.
  intros Hn Er Hf Hp He (a & c & Hrel & Ha) Hg. apply list_elem_of_lookup_2 in Hn.
  apply (wp_random services distinct sv f p); [done | done | done | done | done | |]; rewrite He.
  - exists a, (set_all name c s). split; [|done]. by exists c.
  - intros a' s' reply (c' & Ha' & ->) Hr. by eapply Hg.
Qed.

(** The slots of all partitions, changed alike. *)
Lemma held_all M M' s (c : Z -> C) : slots_held M s ->
  (forall p k, slot k (c p) = if p =? pid k then slot k M' else vacant) ->
  (forall k, slot k M' = vacant \/ valid_bytes k /\ slot_ok (slot k M')) -> slots_held M' (set_all name c s).
Proof. intros _ Hc Hv. split; [|done]. intros p k. by rewrite set_all_same. Qed.

Lemma held_same M s : slots_held M s -> slots_held M (set_all name (fun p => s p name) s).
Proof. intros Hh. pose proof Hh as [Hs Hv]. by apply (held_all M M s (fun p => s p name)). Qed.
End KeyedObjects.

(** ** Entry listeners *)

(** [EventType]. *)
Definition ADDED : Z := 1.
Definition REMOVED : Z := 2.
Definition UPDATED : Z := 4.
Definition EVICTED : Z := 8.
Definition EXPIRED : Z := 16.
Definition EVICT_ALL : Z := 32.
Definition CLEAR_ALL : Z := 64.
Definition MERGED : Z := 128.
Definition INVALIDATION : Z := 256.
Definition LOADED : Z := 512.

Record EntryEvent {V M : Type} := mkEntryEvent {
  ev_name : string; ev_key : V; ev_value : V; ev_oldValue : V; ev_mergingValue : V; ev_member : option M
}.
Arguments EntryEvent V M : clear implicits.
Arguments mkEntryEvent {V M}.

Record MapEvent {M : Type} := mkMapEvent { mv_name : string; mv_numberOfAffectedEntries : Z; mv_member : option M }.
Arguments MapEvent M : clear implicits.
Arguments mkMapEvent {M}.

(** [ListenerMessageCodec] of [src/src/listener/ListenerMessageCodec.ts], which the listener service is given. *)
Record ListenerMessageCodec {L : Type} := mkListenerMessageCodec {
  encodeAddRequest : bool -> res Request;
  decodeAddResponse : Dec (option (UUID L));
  encodeRemoveRequest : option (UUID L) -> res Request
}.
Arguments ListenerMessageCodec L : clear implicits.

(** A listener, whose functions return a [T]. *)
Record EntryListener {V M T : Type} := mkEntryListener {
  added : option (EntryEvent V M -> T);
  removed : option (EntryEvent V M -> T);
  updated : option (EntryEvent V M -> T);
  merged : option (EntryEvent V M -> T);
  evicted : option (EntryEvent V M -> T);
  expired : option (EntryEvent V M -> T);
  loaded : option (EntryEvent V M -> T);
  mapEvicted : option (MapEvent M -> T);
  mapCleared : option (MapEvent M -> T)
}.
Arguments EntryListener V M T : clear implicits.

(** What the members send about an entry. *)
Definition entry_reply : list ReplyType :=
  [reply (nullable_codec data_codec); reply (nullable_codec data_codec); reply (nullable_codec data_codec); reply (nullable_codec data_codec)].
Inductive entry_message {L} `{LongLaws L} (type : Z) (uuid : UUID L) (eventType count : Z) (key value oldValue mergingValue : option HeapData)
    : frames -> Prop :=
  | is_entry_message content fl fs fs' :
      readInt32LE content MESSAGE_TYPE_OFFSET = Ok type ->
      fields_at [F_int; F_uuid; F_int] FIELDS_OFFSET content (eventType, (Some uuid, (count, tt))) ->
      replies_at entry_reply (key, (value, (oldValue, (mergingValue, tt)))) fs -> Forall2 similar fs fs' ->
      entry_message type uuid eventType count key value oldValue mergingValue (mkFrame content fl :: fs').

Section EntryListeners.
Context {L : Type} `{LongLaws L} {V M T : Type} `{ObjectSerialization V}.

(** The type of [entryEventHandler], and the [handle] of a codec with one. *)
Definition EntryHandler : Type :=
  option HeapData -> option HeapData -> option HeapData -> option HeapData -> Z -> option (UUID L) -> Z -> res (option T).
Definition handle_entry (handle : option EntryHandler -> Dec (option (res (option T)))) (handler : EntryHandler) (message : frames)
    : res (option T) :=
  '(called, _) ← handle (Some handler) message;
  match called with Some r => r | None => Ok None end.

(** The handler is called with what the message is about. *)
Lemma entry_handled (handle : option EntryHandler -> Dec (option (res (option T)))) (handler : EntryHandler) type
    (uuid : UUID L) eventType count key value oldValue mergingValue message rest :
  event_conforms (mkEventFormat type [F_int; F_uuid; F_int] entry_reply (res (option T))
    (fun f p => handler p.1 p.2.1 p.2.2.1 p.2.2.2.1 f.1 f.2.1 f.2.2.1) (handle (Some handler))) ->
  entry_message type uuid eventType count key value oldValue mergingValue message ->
  handle_entry handle handler (message ++ rest) = handler key value oldValue mergingValue eventType (Some uuid) count.
Proof.
  intros Hc [content fl fs fs' Ht Hf Hp Hs]. unfold handle_entry.
  assert (E := handle_event_ok (mkEventFormat type [F_int; F_uuid; F_int] entry_reply (res (option T))
    (fun f p => handler p.1 p.2.1 p.2.2.1 p.2.2.2.1 f.1 f.2.1 f.2.2.1) (handle (Some handler))) (eventType, (Some uuid, (count, tt))) (key, (value, (oldValue, (mergingValue, tt))))
    content fl fs fs' rest Hc Ht Hf Hp Hs).
  cbn in E. cbn [app]. by rewrite E.
Qed.
End EntryListeners.
Arguments EntryHandler L T : clear implicits.
