(* ===== verification/MapQueries.v ===== *)
(** * Queries and listeners of a map

    The methods of [MapProxy] of [src/src/proxy/MapProxy.ts] that take a predicate, [getEntryView], and the entry listeners; with
    [PagingPredicateImpl] of [src/src/serialization/DefaultPredicates.ts], [PagingPredicateHolder] and [AnchorDataListHolder] of
    [src/src/protocol/].

    What a predicate matches, how a comparator orders and what an aggregator computes is the business of the members, and a
    parameter of their model. A paging predicate is an object with a state: its page, and the anchors the members sent with
    the last page, which go back to them with the next query. *)

From S2P Require Export Prelude KeyedCore MapProxy.

(** ** Paging predicates *)

Inductive IterationType := KEY | VALUE | ENTRY.
Definition iterationTypeToId (type : IterationType) : Z := match type with KEY => 0 | VALUE => 1 | ENTRY => 2 end.

Section PagingPredicates.
Context {V : Type} `{ObjectSerialization V}.

(** [None] as the page of an anchor is [undefined]. *)
Record PagingPredicateImpl := mkPagingPredicate {
  internalPredicate : option V;
  pp_pageSize : Z;
  comparatorObject : option V;
  pp_page : Z;
  iterationType : IterationType;
  anchorList : list (option Z * (V * V))
}.

Inductive Predicate := Plain (predicate : V) | Paging (predicate : PagingPredicateImpl).

Definition newPagingPredicate (internal : option Predicate) (pageSize : Z) (comparator : option V) : res PagingPredicateImpl :=
  if pageSize <=? 0 then Err TypeError
  else match internal with
       | Some (Paging _) => Err TypeError
       | Some (Plain predicate) => Ok (mkPagingPredicate (Some predicate) pageSize comparator 0 ENTRY [])
       | None => Ok (mkPagingPredicate None pageSize comparator 0 ENTRY [])
       end.

Definition setPage (page : Z) (p : PagingPredicateImpl) : PagingPredicateImpl :=
  mkPagingPredicate (internalPredicate p) (pp_pageSize p) (comparatorObject p) page (iterationType p) (anchorList p).
Definition nextPage (p : PagingPredicateImpl) : PagingPredicateImpl := setPage (pp_page p + 1) p.
Definition previousPage (p : PagingPredicateImpl) : PagingPredicateImpl := setPage (pp_page p - 1) p.
Definition setIterationType (type : IterationType) (p : PagingPredicateImpl) : PagingPredicateImpl :=
  mkPagingPredicate (internalPredicate p) (pp_pageSize p) (comparatorObject p) (pp_page p) type (anchorList p).
Definition setAnchorList (l : list (option Z * (V * V))) (p : PagingPredicateImpl) : PagingPredicateImpl :=
  mkPagingPredicate (internalPredicate p) (pp_pageSize p) (comparatorObject p) (pp_page p) (iterationType p) l.

(** [anchorList[i]] of an array: [undefined] outside of it. *)
Definition anchor_at (l : list (option Z * (V * V))) (i : Z) : option (option Z * (V * V)) :=
  if (0 <=? i) then l !! Z.to_nat i else None.

Inductive Anchor := NULL_ANCHOR | AnchorAt (entry : option (option Z * (V * V))).

Definition getAnchor (p : PagingPredicateImpl) : Anchor :=
  let anchorCount := Z.of_nat (length (anchorList p)) in
  if (pp_page p =? 0) || (anchorCount =? 0) then NULL_ANCHOR
  else if pp_page p <? anchorCount then AnchorAt (anchor_at (anchorList p) (pp_page p - 1))
  else AnchorAt (anchor_at (anchorList p) (anchorCount - 1)).

(** *** PagingPredicateHolder, AnchorDataListHolder *)

(** [toData] of a value that may be [null]. *)
Definition toData_nullable (v : option V) : res (option HeapData) :=
  match v with Some v => d ← toData v; Ok (Some d) | None => Ok None end.

Fixpoint anchors_to_data (l : list (option Z * (V * V))) : res (list (HeapData * HeapData)) :=
  match l with
  | [] => Ok []
  | (_, (k, v)) :: l => kd ← toData k; vd ← toData v; rest ← anchors_to_data l; Ok ((kd, vd) :: rest)
  end.

(** An [undefined] page is written as 0. *)
Definition buildHolder (predicate : PagingPredicateImpl) : res PagingPredicateHolder :=
  anchorDataList ← anchors_to_data (anchorList predicate);
  let anchorDataListHolder := mkAnchorDataListHolder (map (fun a => default 0 a.1) (anchorList predicate)) anchorDataList in
  predicateData ← toData_nullable (internalPredicate predicate);
  comparatorData ← toData_nullable (comparatorObject predicate);
  Ok (mkPagingPredicateHolder anchorDataListHolder predicateData comparatorData (pp_pageSize predicate) (pp_page predicate)
    (iterationTypeToId (iterationType predicate)) None).

Fixpoint asAnchorList (pages : list Z) (entries : list (HeapData * HeapData)) : res (list (option Z * (V * V))) :=
  match entries with
  | [] => Ok []
  | (kd, vd) :: entries =>
      k ← toObject (Some kd); v ← toObject (Some vd); rest ← asAnchorList (tail pages) entries;
      Ok ((head pages, (k, v)) :: rest)
  end.
Definition anchors_of (holder : AnchorDataListHolder) : res (list (option Z * (V * V))) :=
  asAnchorList (anchorPageList holder) (anchorDataList holder).
End PagingPredicates.
Arguments PagingPredicateImpl V : clear implicits.
Arguments Predicate V : clear implicits.
Arguments Anchor V : clear implicits.

(** [SimpleEntryView] with the key and the value of the application. *)
Record EntryView {L V : Type} := mkEntryView {
  view_key : V; view_value : V; view_cost : L; view_creationTime : L; view_expirationTime : L; view_hits : L;
  view_lastAccessTime : L; view_lastStoredTime : L; view_lastUpdateTime : L; view_version : L; view_ttl : L; view_maxIdle : L
}.
Arguments EntryView L V : clear implicits.

(** ** Methods with a predicate *)

Section MapQueries.
Context `{Uninit} {L : Type} `{LongLib L} {V : Type} `{ObjectSerialization V}.
Context (partitionService : PartitionServiceImpl L) (name : string).

#[local] Abbreviation P := (Proxy L).

Definition checkNotPagingPredicate (v : Predicate V) : res V :=
  match v with Plain v => Ok v | Paging _ => Err RangeError end.

(** [assertNotNull] of a predicate. *)
Definition assertPredicate (v : Predicate V) : P unit := match v with Plain v => assertNotNull v | Paging _ => mret tt end.

Definition aggregateWithPredicate (aggregator : V) (predicate : Predicate V) : P V :=
  _ ← assertNotNull aggregator;
  _ ← assertPredicate predicate;
  predicate ← try_ (checkNotPagingPredicate predicate);
  aggregatorData ← try_ (toData aggregator);
  predicateData ← try_ (toData predicate);
  clientMessage ← encodeInvokeOnRandomTarget (MapAggregateWithPredicateCodec_encodeRequest name aggregatorData predicateData);
  response ← decodeResponse MapAggregateWithPredicateCodec_decodeResponse clientMessage;
  try_ (toObject response).

(** The result comes with the predicate: a paging predicate has a new iteration type and new anchors. *)
Definition entrySetWithPredicate (predicate : Predicate V) : P (list (V * V) * Predicate V) :=
  _ ← assertPredicate predicate;
  match predicate with
  | Paging predicate =>
      let predicate := setIterationType ENTRY predicate in
      pagingPredicateHolder ← try_ (buildHolder predicate);
      clientMessage ← encodeInvokeOnRandomTarget (MapEntriesWithPagingPredicateCodec_encodeRequest name pagingPredicateHolder);
      response ← decodeResponse MapEntriesWithPagingPredicateCodec_decodeResponse clientMessage;
      anchors ← try_ (anchors_of (MapEntriesWithPagingPredicate_anchorDataList response));
      result ← try_ (deserializeEntryList (MapEntriesWithPagingPredicate_response response));
      mret (result, Paging (setAnchorList anchors predicate))
  | Plain v =>
      pData ← try_ (toData v);
      clientMessage ← encodeInvokeOnRandomTarget (MapEntriesWithPredicateCodec_encodeRequest name pData);
      response ← decodeResponse MapEntriesWithPredicateCodec_decodeResponse clientMessage;
      result ← try_ (deserializeEntryList response);
      mret (result, predicate)
  end.

Definition keySetWithPredicate (predicate : Predicate V) : P (list V * Predicate V) :=
  _ ← assertPredicate predicate;
  match predicate with
  | Paging predicate =>
      let predicate := setIterationType KEY predicate in
      pagingPredicateHolder ← try_ (buildHolder predicate);
      clientMessage ← encodeInvokeOnRandomTarget (MapKeySetWithPagingPredicateCodec_encodeRequest name pagingPredicateHolder);
      response ← decodeResponse MapKeySetWithPagingPredicateCodec_decodeResponse clientMessage;
      anchors ← try_ (anchors_of (MapKeySetWithPagingPredicate_anchorDataList response));
      result ← try_ (deserializeList (MapKeySetWithPagingPredicate_response response));
      mret (result, Paging (setAnchorList anchors predicate))
  | Plain v =>
      predicateData ← try_ (toData v);
      clientMessage ← encodeInvokeOnRandomTarget (MapKeySetWithPredicateCodec_encodeRequest name predicateData);
      response ← decodeResponse MapKeySetWithPredicateCodec_decodeResponse clientMessage;
      result ← try_ (deserializeList response);
      mret (result, predicate)
  end.

Definition valuesWithPredicate (predicate : Predicate V) : P (LazyList.ReadOnlyLazyList V * Predicate V) :=
  _ ← assertPredicate predicate;
  match predicate with
  | Paging predicate =>
      let predicate := setIterationType VALUE predicate in
      pagingPredicateHolder ← try_ (buildHolder predicate);
      clientMessage ← encodeInvokeOnRandomTarget (MapValuesWithPagingPredicateCodec_encodeRequest name pagingPredicateHolder);
      response ← decodeResponse MapValuesWithPagingPredicateCodec_decodeResponse clientMessage;
      anchors ← try_ (anchors_of (MapValuesWithPagingPredicate_anchorDataList response));
      mret (map LazyList.IsData (MapValuesWithPagingPredicate_response response), Paging (setAnchorList anchors predicate))
  | Plain v =>
      predicateData ← try_ (toData v);
      clientMessage ← encodeInvokeOnRandomTarget (MapValuesWithPredicateCodec_encodeRequest name predicateData);
      response ← decodeResponse MapValuesWithPredicateCodec_decodeResponse clientMessage;
      mret (map LazyList.IsData response, predicate)
  end.

Definition getEntryView (key : V) : P (option (EntryView L V)) :=
  _ ← assertNotNull key;
  keyData ← try_ (toData key);
  clientMessage ← invokeOnKey partitionService (MapGetEntryViewCodec_encodeRequest name keyData (IsNumber 0)) keyData;
  response ← decodeResponse MapGetEntryViewCodec_decodeResponse clientMessage;
  match MapGetEntryView_response response with
  | None => mret None
  | Some dataEntryView =>
      k ← try_ (toObject (Some (CustomCodecs.key dataEntryView)));
      v ← try_ (toObject (Some (CustomCodecs.value dataEntryView)));
      mret (Some (mkEntryView L V k v (cost dataEntryView) (creationTime dataEntryView) (expirationTime dataEntryView)
        (hits dataEntryView) (lastAccessTime dataEntryView) (lastStoredTime dataEntryView) (lastUpdateTime dataEntryView)
        (version dataEntryView) (ttl dataEntryView) (MapGetEntryView_maxIdle response)))
  end.

(** ** Entry listeners *)

#[local] Abbreviation has o := (match o with Some _ => true | None => false end).

(** [flags | conversionTable[funcName]] for the functions the listener has, in the order of the table; [null] counts as 0. *)
Definition listener_flags {M T} (listener : EntryListener V M T) : Z :=
  foldl (fun flags (e : bool * Z) => if e.1 then js_or flags e.2 else flags) 0
    [(has (added listener), ADDED); (has (mapCleared listener), CLEAR_ALL); (has (evicted listener), EVICTED);
     (has (mapEvicted listener), EVICT_ALL); (has (merged listener), MERGED); (has (removed listener), REMOVED);
     (has (updated listener), UPDATED); (has (expired listener), EXPIRED); (has (loaded listener), LOADED)].

(** [listener.f.apply(null, [event])]: a function that is missing throws. *)
Definition apply_listener {E T} (f : option (E -> T)) (event : E) : res (option T) :=
  match f with Some f => Ok (Some (f event)) | None => Err TypeError end.

Definition entryEventHandler {M T} (getMember : string -> option M) (listener : EntryListener V M T) : EntryHandler L T :=
  fun key value oldValue mergingValue eventType uuid numberOfAffectedEntries =>
    match uuid with
    | None => Err TypeError
    | Some uuid =>
        let member := getMember (UUID_toString uuid) in
        key ← toObject key;
        value ← toObject value;
        oldValue ← toObject oldValue;
        mergingValue ← toObject mergingValue;
        let entryEvent := mkEntryEvent name key value oldValue mergingValue member in
        let mapEvent := mkMapEvent name numberOfAffectedEntries member in
        if eventType =? ADDED then apply_listener (added listener) entryEvent
        else if eventType =? REMOVED then apply_listener (removed listener) entryEvent
        else if eventType =? UPDATED then apply_listener (updated listener) entryEvent
        else if eventType =? EVICTED then apply_listener (evicted listener) entryEvent
        else if eventType =? EVICT_ALL then apply_listener (mapEvicted listener) mapEvent
        else if eventType =? CLEAR_ALL then apply_listener (mapCleared listener) mapEvent
        else if eventType =? MERGED then apply_listener (merged listener) entryEvent
        else if eventType =? EXPIRED then apply_listener (expired listener) entryEvent
        else if eventType =? LOADED then apply_listener (loaded listener) entryEvent
        else Ok None
    end.

Definition createEntryListenerToKey (keyData : HeapData) (includeValue : bool) (flags : Z) : ListenerMessageCodec L :=
  mkListenerMessageCodec L
    (fun localOnly => MapAddEntryListenerToKeyCodec_encodeRequest name keyData includeValue flags localOnly)
    MapAddEntryListenerToKeyCodec_decodeResponse
    (fun listenerId => MapRemoveEntryListenerCodec_encodeRequest name listenerId).
Definition createEntryListenerToKeyWithPredicate (keyData predicateData : HeapData) (includeValue : bool) (flags : Z) : ListenerMessageCodec L :=
  mkListenerMessageCodec L
    (fun localOnly => MapAddEntryListenerToKeyWithPredicateCodec_encodeRequest name keyData predicateData includeValue flags localOnly)
    MapAddEntryListenerToKeyWithPredicateCodec_decodeResponse
    (fun listenerId => MapRemoveEntryListenerCodec_encodeRequest name listenerId).
Definition createEntryListenerWithPredicate (predicateData : HeapData) (includeValue : bool) (flags : Z) : ListenerMessageCodec L :=
  mkListenerMessageCodec L
    (fun localOnly => MapAddEntryListenerWithPredicateCodec_encodeRequest name predicateData includeValue flags localOnly)
    MapAddEntryListenerWithPredicateCodec_decodeResponse
    (fun listenerId => MapRemoveEntryListenerCodec_encodeRequest name listenerId).
Definition createEntryListener (includeValue : bool) (flags : Z) : ListenerMessageCodec L :=
  mkListenerMessageCodec L
    (fun localOnly => MapAddEntryListenerCodec_encodeRequest name includeValue flags localOnly)
    MapAddEntryListenerCodec_decodeResponse
    (fun listenerId => MapRemoveEntryListenerCodec_encodeRequest name listenerId).

(** What is registered with the listener service: the codec, and the handler of its messages. [truthy] is JavaScript's
    conversion of a key to a boolean; predicates are objects, which are truthy. *)
Definition addEntryListenerInternal {M T} (truthy : V -> bool) (getMember : string -> option M) (listener : EntryListener V M T)
    (predicate key : option V) (includeValue : bool) : res (ListenerMessageCodec L * (frames -> res (option T))) :=
  let flags := listener_flags listener in
  let handler := entryEventHandler getMember listener in
  match (match key with Some key => if truthy key then Some key else None | None => None end), predicate with
  | Some key, Some predicate =>
      keyData ← toData key;
      predicateData ← toData predicate;
      Ok (createEntryListenerToKeyWithPredicate keyData predicateData includeValue flags,
          handle_entry MapAddEntryListenerToKeyWithPredicateCodec_handle handler)
  | Some key, None =>
      keyData ← toData key;
      Ok (createEntryListenerToKey keyData includeValue flags, handle_entry MapAddEntryListenerToKeyCodec_handle handler)
  | None, Some predicate =>
      predicateData ← toData predicate;
      Ok (createEntryListenerWithPredicate predicateData includeValue flags,
          handle_entry MapAddEntryListenerWithPredicateCodec_handle handler)
  | None, None => Ok (createEntryListener includeValue flags, handle_entry MapAddEntryListenerCodec_handle handler)
  end.

Definition addEntryListenerWithPredicate {M T} truthy (getMember : string -> option M) (listener : EntryListener V M T)
    (predicate : V) (key : option V) (includeValue : bool) :=
  addEntryListenerInternal truthy getMember listener (Some predicate) key includeValue.
Definition addEntryListener {M T} truthy (getMember : string -> option M) (listener : EntryListener V M T)
    (key : option V) (includeValue : bool) :=
  addEntryListenerInternal truthy getMember listener None key includeValue.
End MapQueries.

(** ** The members *)

Section QueryMembers.
Context `{Uninit} {L : Type} `{LongLaws L}.
(** What a predicate matches, how a comparator orders the entries, and the result of an aggregator. *)
Context (matches : HeapData -> buffer * buffer -> bool).
Context (order : option HeapData -> list (buffer * buffer) -> list (buffer * buffer)).
Context (aggregated : HeapData -> list (buffer * buffer) -> option buffer).

(** The entries of all partitions, in some order. *)
Definition entries_of (m : gmap (Z * buffer) buffer) (l : list (buffer * buffer)) : Prop := l ≡ₚ (fun e => (e.1.2, e.2)) <$> map_to_list m.
Definition matching (p : HeapData) (l : list (buffer * buffer)) : list (buffer * buffer) := filter (fun e => matches p e = true) l.
Definition matching_all (p : option HeapData) (l : list (buffer * buffer)) : list (buffer * buffer) :=
  match p with Some p => matching p l | None => l end.

(** The entries of a page. *)
Definition page_of (h : PagingPredicateHolder) (l : list (buffer * buffer)) : list (buffer * buffer) :=
  take (Z.to_nat (pageSize h)) (drop (Z.to_nat (page h * pageSize h)) (order (comparatorData h) (matching_all (predicateData h) l))).

Definition entry_type : ReplyType := reply (entry_list_codec (CK := data_codec) (CV := data_codec)).
Definition datas_type : ReplyType := reply (list_codec data_codec).
Definition anchors_type : ReplyType := reply (struct_msg_codec anchor_data_list_holder_codec).
Definition entries_page (l : list (buffer * buffer)) (anchors : AnchorDataListHolder) : answer :=
  mkAnswer [] [entry_type; anchors_type] tt (prod_map heap heap <$> l, (anchors, tt)).
Definition datas_page (l : list buffer) (anchors : AnchorDataListHolder) : answer :=
  mkAnswer [] [datas_type; anchors_type] tt (heap <$> l, (anchors, tt)).

(** A query reads the entries of the map; the answer to a paging predicate has anchors for the next query. *)
Definition reads_map (f : list (buffer * buffer) -> answer -> Prop) (m : gmap (Z * buffer) buffer) (a : answer) (m' : gmap (Z * buffer) buffer) : Prop :=
  (exists l, entries_of m l /\ f l a) /\ m' = m.

(** The view of an entry: its key and value with the statistics of the member. *)
Definition view_answer (view : option (SimpleEntryView L)) (maxIdle : L) : answer :=
  mkAnswer [F_long] [reply (nullable_codec (struct_msg_codec simple_entry_view_codec))] (maxIdle, tt) (view, tt).
Definition view_effect (k : HeapData) (old : option buffer) (a : answer) (new : option buffer) : Prop :=
  new = old /\ exists view maxIdle, a = view_answer view maxIdle /\
  match old, view with
  | Some v, Some view => CustomCodecs.key view = k /\ CustomCodecs.value view = heap v
  | None, None => True
  | _, _ => False
  end.

Definition query_services : list (Service L Maps) := [
  mkService (mkRequestFormat 80384 true [] [param string_codec; param data_codec; param data_codec]
      (fun f p => MapAggregateWithPredicateCodec_encodeRequest p.1 p.2.1 p.2.2.1))
    (fun f p => on_map (reads_map (fun l a => a = data_answer (aggregated p.2.1 (matching p.2.2.1 l)))) p.1);
  mkService (mkRequestFormat 75776 true [] [param string_codec; param data_codec]
      (fun f p => MapEntriesWithPredicateCodec_encodeRequest p.1 p.2.1))
    (fun f p => on_map (reads_map (fun l a => a = entries_answer (matching p.2.1 l))) p.1);
  mkService (mkRequestFormat 75264 true [] [param string_codec; param data_codec]
      (fun f p => MapKeySetWithPredicateCodec_encodeRequest p.1 p.2.1))
    (fun f p => on_map (reads_map (fun l a => a = list_answer (matching p.2.1 l).*1)) p.1);
  mkService (mkRequestFormat 75520 true [] [param string_codec; param data_codec]
      (fun f p => MapValuesWithPredicateCodec_encodeRequest p.1 p.2.1))
    (fun f p => on_map (reads_map (fun l a => a = list_answer (matching p.2.1 l).*2)) p.1);
  mkService (mkRequestFormat 79360 true [] [param string_codec; param (struct_msg_codec paging_predicate_holder_codec)]
      (fun f p => MapEntriesWithPagingPredicateCodec_encodeRequest p.1 p.2.1))
    (fun f p => on_map (reads_map (fun l a => iterationTypeId p.2.1 = 2 /\
       exists anchors, anchor_valid anchors /\ a = entries_page (page_of p.2.1 l) anchors)) p.1);
  mkService (mkRequestFormat 78848 true [] [param string_codec; param (struct_msg_codec paging_predicate_holder_codec)]
      (fun f p => MapKeySetWithPagingPredicateCodec_encodeRequest p.1 p.2.1))
    (fun f p => on_map (reads_map (fun l a => iterationTypeId p.2.1 = 0 /\
       exists anchors, anchor_valid anchors /\ a = datas_page (page_of p.2.1 l).*1 anchors)) p.1);
  mkService (mkRequestFormat 79104 true [] [param string_codec; param (struct_msg_codec paging_predicate_holder_codec)]
      (fun f p => MapValuesWithPagingPredicateCodec_encodeRequest p.1 p.2.1))
    (fun f p => on_map (reads_map (fun l a => iterationTypeId p.2.1 = 1 /\
       exists anchors, anchor_valid anchors /\ a = datas_page (page_of p.2.1 l).*2 anchors)) p.1);
  mkService (mkRequestFormat 72960 true [F_long_arg] [param string_codec; param data_codec]
      (fun f p => MapGetEntryViewCodec_encodeRequest p.1 p.2.1 f.1))
    (fun f p => on_key (view_effect p.2.1) p.1 p.2.1)
].
Definition query_service (n : nat) : Service L Maps :=
  nth n query_services (mkService (mkRequestFormat 0 false [] [] (fun _ _ => Err Error)) (fun _ _ _ _ _ _ => False)).

Lemma query_services_conform : Forall (fun sv => request_conforms (sv_format sv)) query_services.
Proof. format_agrees query_services. Qed.

Lemma query_services_distinct : NoDup (map (fun sv => rf_type (sv_format sv)) query_services).
Proof. apply (bool_decide_eq_true_1 _). vm_compute. reflexivity. Qed.
End QueryMembers.

(** ** The contract of the queries *)

(** An answer with two parameters. *)
Lemma answerable_two {A B} {n1 v1} {e1 : Enc A} {d1 : Dec A} (C1 : MsgCodec n1 v1 e1 d1) {n2 v2} {e2 : Enc B} {d2 : Dec B}
    (C2 : MsgCodec n2 v2 e2 d2) a b : v1 a -> v2 b -> answerable (mkAnswer [] [reply C1; reply C2] tt (a, (b, tt))).
Proof.
  intros Ha Hb. split; [by exists tt|]. destruct (C1 a Ha) as [fs1 [E1 _ _ _]]. destruct (C2 b Hb) as [fs2 [E2 _ _ _]].
  exists (fs1 ++ fs2 ++ []), fs1, (fs2 ++ []). cbn. split_and!; [done | done | apply (E1 []) |].
  exists fs2, []. split_and!; [done | done | apply (E2 []) | done].
Qed.

Section MapQueryRefinement.
Context `{Uninit} {L : Type} `{LongLaws L} {V : Type} `{ObjectSerialization V}.
Context (matches : HeapData -> buffer * buffer -> bool).
Context (order : option HeapData -> list (buffer * buffer) -> list (buffer * buffer)).
Context (aggregated : HeapData -> list (buffer * buffer) -> option buffer).
Context (order_perm : forall c l, order c l ≡ₚ l).
Context (aggregated_valid : forall d l, option_valid valid_bytes (aggregated d l)).
Context (partitionService : PartitionServiceImpl L) (name : string).
Context (partitions_known : 0 < partitionCount partitionService).
Implicit Types (M : gmap buffer buffer) (s : Maps).

#[local] Abbreviation services := (query_services (L := L) matches order aggregated).
#[local] Abbreviation implements := (implements partitionService name).
#[local] Abbreviation others_kept := (MapProxy.others_kept name).

Inductive QueryOp : Type -> Type :=
  | AggregateWithPredicate (aggregator : V) (predicate : Predicate V) : QueryOp V
  | EntrySetWithPredicate (predicate : Predicate V) : QueryOp (list (V * V) * Predicate V)
  | KeySetWithPredicate (predicate : Predicate V) : QueryOp (list V * Predicate V)
  | ValuesWithPredicate (predicate : Predicate V) : QueryOp (LazyList.ReadOnlyLazyList V * Predicate V)
  | GetEntryView (key : V) : QueryOp (option (EntryView L V)).

Definition query {A} (op : QueryOp A) : Proxy L A :=
  match op with
  | AggregateWithPredicate aggregator predicate => aggregateWithPredicate name aggregator predicate
  | EntrySetWithPredicate predicate => entrySetWithPredicate name predicate
  | KeySetWithPredicate predicate => keySetWithPredicate name predicate
  | ValuesWithPredicate predicate => valuesWithPredicate name predicate
  | GetEntryView key => getEntryView partitionService name key
  end.

(** A predicate the client can serialize; its page is an [int] that is not negative. *)
Definition paging_ok (p : PagingPredicateImpl V) : Prop :=
  option_valid arg_ok (internalPredicate p) /\ option_valid arg_ok (comparatorObject p) /\
  0 < pp_pageSize p < 2 ^ 31 /\ 0 <= pp_page p < 2 ^ 31 /\
  Forall (fun a => option_valid (in_sint 32) a.1 /\ arg_ok a.2.1 /\ arg_ok a.2.2) (anchorList p).
Definition predicate_ok (p : Predicate V) : Prop := match p with Plain v => arg_ok v | Paging p => paging_ok p end.
Definition query_ok {A} (op : QueryOp A) : Prop :=
  match op with
  | AggregateWithPredicate aggregator predicate => arg_ok aggregator /\ predicate_ok predicate
  | EntrySetWithPredicate predicate | KeySetWithPredicate predicate | ValuesWithPredicate predicate => predicate_ok predicate
  | GetEntryView key => arg_ok key
  end.

(** The entries a predicate selects from the entries of the map, which have no order: all that match, or those of the current page of
    the ordered ones. *)
Definition is_data_nullable (v : option V) (d : option HeapData) : Prop :=
  match v, d with Some v, Some d => toData v = Ok d | None, None => True | _, _ => False end.
Definition selects (p : Predicate V) M (l : list (buffer * buffer)) : Prop :=
  exists all, all ≡ₚ map_to_list M /\
  match p with
  | Plain v => exists d, toData v = Ok d /\ l = matching matches d all
  | Paging p => exists d c, is_data_nullable (internalPredicate p) d /\ is_data_nullable (comparatorObject p) c /\
      l = take (Z.to_nat (pp_pageSize p)) (drop (Z.to_nat (pp_page p * pp_pageSize p)) (order c (matching_all matches d all)))
  end.

(** The predicate after a query: a paging predicate has the objects of the anchors that were sent. *)
Definition queried (type : IterationType) (p : Predicate V) (anchors : AnchorDataListHolder) : res (Predicate V) :=
  match p with
  | Plain v => Ok (Plain v)
  | Paging p => l ← anchors_of anchors; Ok (Paging (setAnchorList l (setIterationType type p)))
  end.

Definition query_spec {A} (op : QueryOp A) M : res A -> Prop :=
  match op in QueryOp A return res A -> Prop with
  | AggregateWithPredicate aggregator (Plain v) => fun r =>
      exists all da d, all ≡ₚ map_to_list M /\ toData aggregator = Ok da /\ toData v = Ok d /\
        r = obj (aggregated da (matching matches d all))
  | AggregateWithPredicate _ (Paging _) => fun r => r = Err RangeError
  | EntrySetWithPredicate p => fun r => exists l anchors, selects p M l /\ anchor_valid anchors /\
      r = (p' ← queried ENTRY p anchors; es ← deserializeEntryList (prod_map heap heap <$> l); Ok (es, p'))
  | KeySetWithPredicate p => fun r => exists l anchors, selects p M l /\ anchor_valid anchors /\
      r = (p' ← queried KEY p anchors; ks ← deserializeList (heap <$> l.*1); Ok (ks, p'))
  | ValuesWithPredicate p => fun r => exists l anchors, selects p M l /\ anchor_valid anchors /\
      r = (p' ← queried VALUE p anchors; Ok (map LazyList.IsData (heap <$> l.*2), p'))
  | GetEntryView key => fun r => forall k, toData key = Ok (heap k) ->
      match M !! k with
      | None => r = Ok None
      | Some v => exists view maxIdle, CustomCodecs.value view = heap v /\
          r = (ko ← toObject (Some (heap k)); vo ← toObject (Some (heap v));
               Ok (Some (mkEntryView L V ko vo (cost view) (creationTime view) (expirationTime view) (hits view) (lastAccessTime view)
                 (lastStoredTime view) (lastUpdateTime view) (version view) (ttl view) maxIdle)))
      end
  end.

Definition query_outcome {A} (op : QueryOp A) M s (r : res A) s' : Prop := implements M s' /\ others_kept s s' /\ query_spec op M r.

(** *** The proofs *)

Lemma wp_query {A} (n : nat) (eff : list (buffer * buffer) -> answer -> Prop) sv f p req (g : frames -> Proxy L A) Q s M :
  services !! n = Some sv -> rf_encode (sv_format sv) f p = req -> fvalid _ f -> pvalid _ p ->
  sv_effect sv (fview _ f) p = on_map (reads_map eff) name -> implements M s ->
  (exists a, eff (map_to_list M) a /\ answerable a) ->
  (forall l a reply s', l ≡ₚ map_to_list M -> eff l a -> reply_of a reply -> implements M s' -> others_kept s s' ->
     wp services (g reply) Q s') ->
  wp services (encodeInvokeOnRandomTarget req ≫= g) Q s.
Proof.
  intros Hn Er Hf Hp He Hi (a & Ha & Han) Hg. apply list_elem_of_lookup_2 in Hn.
  pose proof (entries_entries partitionService name M s Hi) as Hes.
  apply (wp_random services (query_services_distinct matches order aggregated) sv f p);
    [apply query_services_conform | done | done | done | done | |]; rewrite He.
  - exists a, (set_map name (s name) s). split; [|done]. exists (s name). split; [|done]. split; [|done].
    exists (map_to_list M). split; [by unfold entries_of; symmetry | done].
  - intros a' s' reply (m' & [(l & Hl & Ha') ->] & ->) Hr.
    eapply Hg; [|done|done|by apply implements_same | apply set_map_others]. unfold entries_of in Hl. by rewrite Hl, Hes.
Qed.

Lemma matching_valid p l : Forall (fun e => valid_bytes e.1 /\ valid_bytes e.2) l ->
  Forall (fun e => valid_bytes e.1 /\ valid_bytes e.2) (matching matches p l).
Proof. intros Hl. apply Forall_forall. intros e [_ He]%list_elem_of_filter. rewrite Forall_forall in Hl. by apply Hl. Qed.

Lemma page_valid h l : Forall (fun e => valid_bytes e.1 /\ valid_bytes e.2) l ->
  Forall (fun e => valid_bytes e.1 /\ valid_bytes e.2) (page_of matches order h l).
Proof.
  intros Hl. apply Forall_take, Forall_drop. rewrite order_perm. destruct (predicateData h); [by apply matching_valid | done].
Qed.

Lemma nullable_data (v : option V) : option_valid arg_ok v ->
  exists d, toData_nullable v = Ok d /\ option_valid data_valid d /\ is_data_nullable v d.
Proof.
  destruct v as [v|]; [|by exists None]. intros [b (_ & E & Hb)]. exists (Some (heap b)). cbn. rewrite E.
  split_and!; [done | by apply data_valid_heap | done].
Qed.

Lemma anchors_data (l : list (option Z * (V * V))) : Forall (fun a => option_valid (in_sint 32) a.1 /\ arg_ok a.2.1 /\ arg_ok a.2.2) l ->
  exists ds, anchors_to_data l = Ok ds /\ anchor_valid (mkAnchorDataListHolder (map (fun a => default 0 a.1) l) ds).
Proof.
  induction 1 as [|[p [k v]] l (Hp & [kb (_ & Ek & Hk)] & [vb (_ & Ev & Hv)]) _ (ds & E & [Hps Hds])].
  { exists []. split; [done|]. by split. }
  exists ((heap kb, heap vb) :: ds). cbn in *. rewrite Ek. cbn. rewrite Ev. cbn. rewrite E. split; [done|].
  split; constructor; [by destruct p | done | by split; apply data_valid_heap | done].
Qed.

Lemma holder_ok (p : PagingPredicateImpl V) : paging_ok p ->
  exists h, buildHolder p = Ok h /\ paging_valid h /\ pageSize h = pp_pageSize p /\ page h = pp_page p /\
    iterationTypeId h = iterationTypeToId (iterationType p) /\
    is_data_nullable (internalPredicate p) (predicateData h) /\ is_data_nullable (comparatorObject p) (comparatorData h).
Proof.
  intros (Hi & Hc & Hs & Hp & Ha). destruct (anchors_data _ Ha) as (ds & Ed & Hds).
  destruct (nullable_data _ Hi) as (d & Ep & Hd & Sd). destruct (nullable_data _ Hc) as (c & Ec & Hcv & Sc).
  unfold buildHolder. rewrite Ed. cbn. rewrite Ep. cbn. rewrite Ec. cbn. eexists. split; [done|]. cbn. split_and!; try done.
  unfold paging_valid, in_sint, in_uint. cbn. split_and!; try done; try lia; try (destruct (iterationType p); cbn; lia).
Qed.

#[local] Ltac valid := cbn; unfold in_sint in *; split_and?; try lia; try done; try (by apply data_valid_heap).
#[local] Ltac call n eff p :=
  eapply (wp_query n eff (query_service matches order aggregated n) tt p);
  [reflexivity | reflexivity | valid | valid | reflexivity | eassumption | | ].

(** The response of a page. *)
Lemma decode_page {A} (dec : Dec A) t (x : rp_val t) anchors build rep :
  response_conforms (mkReplyFormat [] [t; anchors_type] A (fun _ p => build p.1 p.2.1) dec) ->
  reply_of (mkAnswer [] [t; anchors_type] tt (x, (anchors, tt))) rep ->
  decodeResponse (L := L) dec rep = Done (Ok (build x anchors)).
Proof.
  intros Hc Hr. destruct (decode_answer (mkReplyFormat [] [t; anchors_type] A (fun _ p => build p.1 p.2.1) dec) tt (x, (anchors, tt)) rep Hc Hr)
    as [rest E]. unfold decodeResponse. cbn in E. by rewrite E.
Qed.

#[local] Abbreviation refined op := (forall M s, implements M s -> query_ok op -> wp services (query op) (query_outcome op M s) s).

Lemma aggregate_refined aggregator predicate : refined (AggregateWithPredicate aggregator predicate).
Proof.
  intros M s Hi [[a (Na & Ea & Hva)] Hp]. cbn [query]. unfold aggregateWithPredicate, assertNotNull. rewrite Na.
  destruct predicate as [v|p]; cbn [mbind Proxy_bind proxy_bind assertPredicate].
  - destruct Hp as [b (Nb & Eb & Hb)]. unfold assertNotNull. rewrite Nb. cbn [mbind Proxy_bind proxy_bind checkNotPagingPredicate].
    rewrite try_ok, Ea, try_ok, Eb, try_ok.
    call 0%nat (fun (l : list (buffer * buffer)) a' => a' = data_answer (aggregated (heap a) (matching matches (heap b) l))) (name, (heap a, (heap b, tt))).
    + eexists. split; [done|]. apply answerable_data, aggregated_valid.
    + intros l a' rep s' Hl -> Hr Hi' Ho.
      rewrite (decode_param (reply (nullable_codec data_codec)) MapAggregateWithPredicateCodec_decodeResponse id _ _ ltac:(intros ? ?; reflexivity) Hr).
      cbn. unfold id, try_. split_and!; [done | done |]. by exists l, (heap a), (heap b).
  - cbn. split_and!; [done | intros ?; done | done].
Qed.

(** The page a holder selects. *)
Lemma selects_page p type h M l : l ≡ₚ map_to_list M -> pageSize h = pp_pageSize p -> page h = pp_page p ->
  is_data_nullable (internalPredicate p) (predicateData h) -> is_data_nullable (comparatorObject p) (comparatorData h) ->
  selects (Paging p) M (page_of matches order h l) /\ pp_page (setIterationType type p) = pp_page p.
Proof.
  intros Hl Es Ep Hd Hc. split; [|done]. exists l. split; [done|]. exists (predicateData h), (comparatorData h).
  split_and!; [done | done |]. unfold page_of. by rewrite Es, Ep.
Qed.

Lemma iteration_ok type (p : PagingPredicateImpl V) : paging_ok p -> paging_ok (setIterationType type p).
Proof. done. Qed.

(** A query that needs no anchors. *)
Definition no_anchors : AnchorDataListHolder := mkAnchorDataListHolder [] [].

Lemma no_anchors_valid : anchor_valid no_anchors.
Proof. by split. Qed.

#[local] Ltac plain_predicate b Nb Eb Hb :=
  match goal with H : arg_ok _ |- _ => destruct H as [b (Nb & Eb & Hb)] end;
  unfold assertNotNull; rewrite Nb; cbn [mbind Proxy_bind proxy_bind]; rewrite Eb, try_ok.
#[local] Ltac paging_predicate type h Eh Hh Es Ep Et Hd Hc :=
  match goal with H : paging_ok ?p |- _ =>
    destruct (holder_ok (setIterationType type p) (iteration_ok type p H)) as (h & Eh & Hh & Es & Ep & Et & Hd & Hc) end;
  cbn [mbind Proxy_bind proxy_bind mret Proxy_ret]; rewrite Eh, try_ok.

Lemma entrySet_query_refined predicate : refined (EntrySetWithPredicate predicate).
Proof.
  intros M s Hi Hp. cbn [query]. unfold entrySetWithPredicate. pose proof (entries_valid partitionService name M s Hi) as Hv.
  destruct predicate as [v|p]; cbn [assertPredicate query_ok predicate_ok] in *.
  - plain_predicate b Nb Eb Hb.
    call 1%nat (fun (l : list (buffer * buffer)) a => a = entries_answer (matching matches (heap b) l)) (name, (heap b, tt)).
    + eexists. split; [done|]. by apply answerable_entries, matching_valid.
    + intros l a rep s' Hl -> Hr Hi' Ho.
      rewrite (decode_param entry_type MapEntriesWithPredicateCodec_decodeResponse id _ _ ltac:(intros ? ?; reflexivity) Hr).
      cbn [mbind Proxy_bind proxy_bind]. unfold try_, id.
      assert (selects (Plain v) M (matching matches (heap b) l)) as Hs by (exists l; split; [done|]; by exists (heap b)).
      destruct (deserializeEntryList _) eqn:E; cbn; (split_and!; [done | done |]);
        exists (matching matches (heap b) l), no_anchors; (split_and!; [done | apply no_anchors_valid |]); cbn; by rewrite E.
  - paging_predicate ENTRY h Eh Hh Es Ep Et Hd Hc.
    call 4%nat (fun (l : list (buffer * buffer)) a => iterationTypeId h = 2 /\
      exists anchors, anchor_valid anchors /\ a = entries_page (page_of matches order h l) anchors) (name, (h, tt)).
    + eexists. split; [split; [by rewrite Et|]; exists no_anchors; split; [apply no_anchors_valid | done]|].
      apply answerable_two; [|apply no_anchors_valid]. apply Forall_fmap. eapply Forall_impl; [by apply page_valid|].
      intros e [? ?]. split; by apply data_valid_heap.
    + intros l a rep s' Hl (_ & anchors & Ha & ->) Hr Hi' Ho.
      rewrite (decode_page MapEntriesWithPagingPredicateCodec_decodeResponse entry_type _ anchors mkMapEntriesWithPagingPredicateResponseParams rep ltac:(intros ? ?; reflexivity) Hr).
      cbn [mbind Proxy_bind proxy_bind MapEntriesWithPagingPredicate_anchorDataList MapEntriesWithPagingPredicate_response]. unfold try_.
      destruct (selects_page p ENTRY h M l Hl Es Ep Hd Hc) as [Hs _].
      destruct (anchors_of anchors) as [as'|e1] eqn:Ea; [destruct (deserializeEntryList _) eqn:E|]; cbn; (split_and!; [done | done |]);
        exists (page_of matches order h l), anchors; (split_and!; [done | done |]); cbn; rewrite Ea; cbn; by rewrite ?E.
Qed.

Lemma keySet_query_refined predicate : refined (KeySetWithPredicate predicate).
Proof.
  intros M s Hi Hp. cbn [query]. unfold keySetWithPredicate. pose proof (entries_valid partitionService name M s Hi) as Hv.
  destruct predicate as [v|p]; cbn [assertPredicate query_ok predicate_ok] in *.
  - plain_predicate b Nb Eb Hb.
    call 2%nat (fun (l : list (buffer * buffer)) a => a = list_answer (matching matches (heap b) l).*1) (name, (heap b, tt)).
    + eexists. split; [done|]. apply answerable_list, Forall_fmap. eapply Forall_impl; [by apply matching_valid|]. by intros ? [].
    + intros l a rep s' Hl -> Hr Hi' Ho.
      rewrite (decode_param datas_type MapKeySetWithPredicateCodec_decodeResponse id _ _ ltac:(intros ? ?; reflexivity) Hr).
      cbn [mbind Proxy_bind proxy_bind]. unfold try_, id.
      assert (selects (Plain v) M (matching matches (heap b) l)) as Hs by (exists l; split; [done|]; by exists (heap b)).
      destruct (deserializeList _) eqn:E; cbn; (split_and!; [done | done |]);
        exists (matching matches (heap b) l), no_anchors; (split_and!; [done | apply no_anchors_valid |]); cbn; by rewrite E.
  - paging_predicate KEY h Eh Hh Es Ep Et Hd Hc.
    call 5%nat (fun (l : list (buffer * buffer)) a => iterationTypeId h = 0 /\
      exists anchors, anchor_valid anchors /\ a = datas_page (page_of matches order h l).*1 anchors) (name, (h, tt)).
    + eexists. split; [split; [by rewrite Et|]; exists no_anchors; split; [apply no_anchors_valid | done]|].
      apply answerable_two; [|apply no_anchors_valid]. apply Forall_fmap, Forall_fmap. eapply Forall_impl; [by apply page_valid|].
      intros e [? ?]. by apply data_valid_heap.
    + intros l a rep s' Hl (_ & anchors & Ha & ->) Hr Hi' Ho.
      rewrite (decode_page MapKeySetWithPagingPredicateCodec_decodeResponse datas_type _ anchors mkMapKeySetWithPagingPredicateResponseParams rep ltac:(intros ? ?; reflexivity) Hr).
      cbn [mbind Proxy_bind proxy_bind MapKeySetWithPagingPredicate_anchorDataList MapKeySetWithPagingPredicate_response]. unfold try_.
      destruct (selects_page p KEY h M l Hl Es Ep Hd Hc) as [Hs _].
      destruct (anchors_of anchors) as [as'|e1] eqn:Ea; [destruct (deserializeList _) eqn:E|]; cbn; (split_and!; [done | done |]);
        exists (page_of matches order h l), anchors; (split_and!; [done | done |]); cbn; rewrite Ea; cbn; by rewrite ?E.
Qed.

Lemma values_query_refined predicate : refined (ValuesWithPredicate predicate).
Proof.
  intros M s Hi Hp. cbn [query]. unfold valuesWithPredicate. pose proof (entries_valid partitionService name M s Hi) as Hv.
  destruct predicate as [v|p]; cbn [assertPredicate query_ok predicate_ok] in *.
  - plain_predicate b Nb Eb Hb.
    call 3%nat (fun (l : list (buffer * buffer)) a => a = list_answer (matching matches (heap b) l).*2) (name, (heap b, tt)).
    + eexists. split; [done|]. apply answerable_list, Forall_fmap. eapply Forall_impl; [by apply matching_valid|]. by intros ? [].
    + intros l a rep s' Hl -> Hr Hi' Ho.
      rewrite (decode_param datas_type MapValuesWithPredicateCodec_decodeResponse id _ _ ltac:(intros ? ?; reflexivity) Hr). cbn.
      split_and!; [done | done |]. exists (matching matches (heap b) l), no_anchors. split_and!; [|apply no_anchors_valid | done].
      exists l. split; [done|]. by exists (heap b).
  - paging_predicate VALUE h Eh Hh Es Ep Et Hd Hc.
    call 6%nat (fun (l : list (buffer * buffer)) a => iterationTypeId h = 1 /\
      exists anchors, anchor_valid anchors /\ a = datas_page (page_of matches order h l).*2 anchors) (name, (h, tt)).
    + eexists. split; [split; [by rewrite Et|]; exists no_anchors; split; [apply no_anchors_valid | done]|].
      apply answerable_two; [|apply no_anchors_valid]. apply Forall_fmap, Forall_fmap. eapply Forall_impl; [by apply page_valid|].
      intros e [? ?]. by apply data_valid_heap.
    + intros l a rep s' Hl (_ & anchors & Ha & ->) Hr Hi' Ho.
      rewrite (decode_page MapValuesWithPagingPredicateCodec_decodeResponse datas_type _ anchors mkMapValuesWithPagingPredicateResponseParams rep ltac:(intros ? ?; reflexivity) Hr).
      cbn [mbind Proxy_bind proxy_bind MapValuesWithPagingPredicate_anchorDataList MapValuesWithPagingPredicate_response]. unfold try_.
      destruct (selects_page p VALUE h M l Hl Es Ep Hd Hc) as [Hs _].
      destruct (anchors_of anchors) as [as'|e1] eqn:Ea; cbn; (split_and!; [done | done |]);
        exists (page_of matches order h l), anchors; (split_and!; [done | done |]); cbn; by rewrite Ea.
Qed.

(** Some statistics. *)
Definition some_view (k v : buffer) : SimpleEntryView L :=
  let z := long_of_Z 0 in mkSimpleEntryView (heap k) (heap v) z z z z z z z z z z.

Lemma answerable_view view maxIdle : option_valid entry_view_valid view -> answerable (view_answer (L := L) view maxIdle).
Proof.
  intros Hv. split; [by exists (maxIdle, tt)|].
  destruct (nullable_codec (struct_msg_codec simple_entry_view_codec) view Hv) as [fs [E _ _ _]]. exists (fs ++ []), fs, [].
  cbn. split_and!; [done | done | apply (E []) | done].
Qed.

Lemma decode_view view maxIdle rep : reply_of (view_answer view maxIdle) rep ->
  decodeResponse (L := L) MapGetEntryViewCodec_decodeResponse rep = Done (Ok (mkMapGetEntryViewResponseParams view maxIdle)).
Proof.
  intros Hr. destruct (decode_answer (mkReplyFormat [F_long] [reply (nullable_codec (struct_msg_codec simple_entry_view_codec))]
    (MapGetEntryViewResponseParams L) (fun f p => mkMapGetEntryViewResponseParams p.1 f.1) MapGetEntryViewCodec_decodeResponse)
    (maxIdle, tt) (view, tt) rep ltac:(intros ? ?; reflexivity) Hr) as [rest E]. unfold decodeResponse. cbn in E. by rewrite E.
Qed.

Lemma getEntryView_refined key : refined (GetEntryView key).
Proof.
  intros M s Hi [k (Nk & Ek & Hk)]. cbn [query]. unfold getEntryView, assertNotNull. rewrite Nk. cbn [mbind Proxy_bind proxy_bind].
  rewrite Ek, try_ok. pose proof (old_valid partitionService name M s k Hi) as Hv.
  eapply (wp_key_of partitionService name partitions_known services (query_service matches order aggregated 7) (IsNumber 0 : long_arg L, tt)
    (name, (heap k, tt)) _ k _ _ s M (view_effect (heap k)));
    [apply query_services_distinct | apply query_services_conform | apply (list_elem_of_lookup_2 _ 7%nat); reflexivity | reflexivity
    | valid | valid | done | done | reflexivity | |].
  - exists (view_answer (some_view k <$> M !! k) (long_of_Z 0)), (M !! k). split.
    + split; [done|]. eexists _, _. split; [done|]. by destruct (M !! k).
    + apply answerable_view. destruct (M !! k); [|done]. by split; apply data_valid_heap.
  - intros a new rep s' [-> (view & maxIdle & -> & Hview)] Hr Hi' Ho. rewrite partial_alter_self in Hi'.
    rewrite (decode_view view maxIdle rep Hr). cbn [mbind Proxy_bind proxy_bind MapGetEntryView_response MapGetEntryView_maxIdle].
    assert (forall k', toData key = Ok (heap k') -> k' = k) as Hinj by (intros k' Ek'; rewrite Ek in Ek'; by injection Ek').
    destruct view as [view|], (M !! k) as [v|] eqn:EM; try done.
    + destruct Hview as [Hvk Hvv]. rewrite Hvk, Hvv. unfold try_.
      destruct (toObject (Some (heap k))) as [ko|] eqn:E1; [destruct (toObject (Some (heap v))) as [vo|] eqn:E2|];
        cbn [mbind Proxy_bind proxy_bind mret Proxy_ret wp]; (split_and!; [by apply Hi' | done |]); intros k' ->%Hinj; rewrite EM;
        exists view, maxIdle; (split; [done|]); rewrite E1; cbn; by rewrite ?E2.
    + cbn. split_and!; [by apply Hi' | done |]. intros k' ->%Hinj. by rewrite EM.
Qed.

Lemma query_refined {A} (op : QueryOp A) : refined op.
Proof. destruct op; eauto using aggregate_refined, entrySet_query_refined, keySet_query_refined, values_query_refined, getEntryView_refined. Qed.
End MapQueryRefinement.

(** Over a map that holds [M], for members that match, order and aggregate in any way, every query with serializable arguments
    settles when its request is answered. It returns the entries the predicate selects from [M] (for a paging predicate, the
    entries of its page), or what the aggregator makes of them; the paging predicate then has the anchors of the
    answer. A paging predicate is refused for an aggregation. [getEntryView] returns the key and the value of the entry with
    the statistics the member sent, or null. The maps do not change. *)
Theorem map_queries_refined `{Uninit} {L} `{LongLaws L} {V} `{ObjectSerialization V} {A}
    (matches : HeapData -> buffer * buffer -> bool) (order : option HeapData -> list (buffer * buffer) -> list (buffer * buffer))
    (aggregated : HeapData -> list (buffer * buffer) -> option buffer)
    (partitionService : PartitionServiceImpl L) (name : string) (op : QueryOp (L := L) (V := V) A) (M : gmap buffer buffer) (s : Maps) :
  (forall c l, order c l ≡ₚ l) -> (forall d l, option_valid valid_bytes (aggregated d l)) ->
  0 < partitionCount partitionService -> implements partitionService name M s -> query_ok op ->
  (exists r s', runs (query_services (L := L) matches order aggregated) (query partitionService name op) s r s') /\
  forall r s', runs (query_services (L := L) matches order aggregated) (query partitionService name op) s r s' ->
    implements partitionService name M s' /\ others_kept name s s' /\ query_spec matches order aggregated op M r.
Proof. intros Ho Ha Hc Hi Hq. apply wp_sound. by apply query_refined. Qed.

(** ** Paging *)

(** Over objects that the client serializes the way the members do, the anchors of an answer go back with the next query
    as they came. *)
Lemma anchors_sent_back {V} `{ObjectSerialization V} (pages : list Z) (entries : list (HeapData * HeapData)) (p : PagingPredicateImpl V) l :
  length pages = length entries ->
  Forall (fun e : HeapData * HeapData => forall v, toObject (Some e.1) = Ok v -> toData v = Ok e.1) entries ->
  Forall (fun e : HeapData * HeapData => forall v, toObject (Some e.2) = Ok v -> toData v = Ok e.2) entries ->
  anchors_of (mkAnchorDataListHolder pages entries) = Ok l ->
  forall h, buildHolder (setAnchorList l p) = Ok h -> anchorDataListHolder h = mkAnchorDataListHolder pages entries.
Proof.
  intros Hlen Hk Hv Ha h. assert (anchors_to_data l = Ok entries /\ map (fun a => default 0 a.1) l = pages) as [Ed Ep].
  { unfold anchors_of in Ha. cbn in Ha. revert pages l Hlen Hk Hv Ha. induction entries as [|[kd vd] entries IH]; intros [|n pages] l Hlen Hk Hv Ha; try done.
    - cbn in Ha. by simplify_eq.
    - apply Forall_cons in Hk as [Hk0 Hk], Hv as [Hv0 Hv]. cbn in Ha. destruct (toObject (Some kd)) as [k|] eqn:Ek; [|done]. cbn in Ha.
      destruct (toObject (Some vd)) as [v|] eqn:Ev; [|done]. cbn in Ha. destruct (asAnchorList pages entries) as [rest|] eqn:Er; [|done].
      cbn in Ha. injection Ha as <-. destruct (IH pages rest) as [E1 E2]; [by injection Hlen | done | done | done |].
      cbn in *. rewrite (Hk0 k Ek), (Hv0 v Ev). cbn. rewrite E1, E2. done. }
  unfold buildHolder, setAnchorList. cbn. rewrite Ed, Ep. cbn.
  destruct (toData_nullable (internalPredicate p)); [|discriminate]. cbn.
  destruct (toData_nullable (comparatorObject p)); [|discriminate]. by intros [= <-].
Qed.

(** Up to the page after the last one that has an anchor, the anchor is that of the page before. *)
Lemma anchor_of_previous_page {V} (p : PagingPredicateImpl V) :
  0 < pp_page p <= Z.of_nat (length (anchorList p)) -> getAnchor p = AnchorAt (anchorList p !! Z.to_nat (pp_page p - 1)).
Proof.
  intros Hp. unfold getAnchor, anchor_at. destruct (Z.eqb_spec (pp_page p) 0); [lia|].
  destruct (Z.eqb_spec (Z.of_nat (length (anchorList p))) 0); [lia|]. cbn.
  destruct (Z.ltb_spec (pp_page p) (Z.of_nat (length (anchorList p)))).
  - by destruct (Z.leb_spec 0 (pp_page p - 1)); [|lia].
  - replace (Z.of_nat (length (anchorList p))) with (pp_page p) by lia. by destruct (Z.leb_spec 0 (pp_page p - 1)); [|lia].
Qed.

(** Further on it is the last anchor, though the page before was not queried. *)
Lemma anchor_of_skipped_page {V} (p : PagingPredicateImpl V) a : last (anchorList p) = Some a ->
  Z.of_nat (length (anchorList p)) < pp_page p -> getAnchor p = AnchorAt (Some a).
Proof.
  intros Hl Hp. unfold getAnchor, anchor_at. destruct (Z.eqb_spec (pp_page p) 0); [lia|].
  destruct (anchorList p) as [|x l] eqn:E; [done|]. rewrite <- E in *.
  assert (0 < Z.of_nat (length (anchorList p))) by (rewrite E; cbn; lia).
  destruct (Z.eqb_spec (Z.of_nat (length (anchorList p))) 0); [lia|]. cbn.
  destruct (Z.ltb_spec (pp_page p) (Z.of_nat (length (anchorList p)))); [lia|].
  destruct (Z.leb_spec 0 (Z.of_nat (length (anchorList p)) - 1)); [|lia]. rewrite <- Hl, last_lookup. do 2 f_equal. lia.
Qed.

(** ** Events *)

#[local] Abbreviation has o := (match o with Some _ => true | None => false end).

(** A listener asks the members for the types of events it has functions for. *)
Lemma flags_of_functions {V M T} (listener : EntryListener V M T) :
  map (fun e => negb (js_and (listener_flags listener) e =? 0))
    [ADDED; REMOVED; UPDATED; MERGED; EVICTED; EXPIRED; LOADED; EVICT_ALL; CLEAR_ALL; INVALIDATION] =
  [has (added listener); has (removed listener); has (updated listener); has (merged listener); has (evicted listener);
   has (expired listener); has (loaded listener); has (mapEvicted listener); has (mapCleared listener); false].
Proof.
  destruct listener as [a b c d e f g h i]. destruct a, b, c, d, e, f, g, h, i; vm_compute; reflexivity.
Qed.

(** The message type of the events of a listener. *)
Definition event_type {V} (truthy : V -> bool) (predicate key : option V) : Z :=
  match key, predicate with
  | Some key, Some _ => if truthy key then 71170 else 71426
  | Some key, None => if truthy key then 71682 else 71938
  | None, Some _ => 71426
  | None, None => 71938
  end.

(** A message about an event is handed to the function of the listener for its type, with the objects of the message. *)
Definition handed {V M T} (listener : EntryListener V M T) (eventType : Z) (event : EntryEvent V M) (mapEvent : MapEvent M) : option T :=
  if eventType =? EVICT_ALL then (fun f => f mapEvent) <$> mapEvicted listener
  else if eventType =? CLEAR_ALL then (fun f => f mapEvent) <$> mapCleared listener
  else f ← (if eventType =? ADDED then added listener else if eventType =? REMOVED then removed listener
            else if eventType =? UPDATED then updated listener else if eventType =? EVICTED then evicted listener
            else if eventType =? MERGED then merged listener else if eventType =? EXPIRED then expired listener
            else if eventType =? LOADED then loaded listener else None);
       Some (f event).

Theorem map_event_handled `{Uninit} {L} `{LongLaws L} {V M T} `{ObjectSerialization V} (name : string) (truthy : V -> bool)
    (getMember : string -> option M) (listener : EntryListener V M T) (predicate target : option V) (includeValue : bool) codec handler
    (uuid : UUID L) eventType count key value oldValue mergingValue k v ov mv message rest :
  addEntryListenerInternal name truthy getMember listener predicate target includeValue = Ok (codec, handler) ->
  entry_message (event_type truthy predicate target) uuid eventType count key value oldValue mergingValue message ->
  toObject key = Ok k -> toObject value = Ok v -> toObject oldValue = Ok ov -> toObject mergingValue = Ok mv ->
  eventType ∈ [ADDED; REMOVED; UPDATED; MERGED; EVICTED; EXPIRED; LOADED; EVICT_ALL; CLEAR_ALL] ->
  js_and (listener_flags listener) eventType <> 0 ->
  let member := getMember (UUID_toString uuid) in
  exists r, handler (message ++ rest) = Ok (Some r) /\
    handed listener eventType (mkEntryEvent name k v ov mv member) (mkMapEvent name count member) = Some r.
Proof.
  intros Ha Hm Hk Hv Ho Hg Ht Hf member.
  assert (handler (message ++ rest) = entryEventHandler name getMember listener key value oldValue mergingValue eventType (Some uuid) count) as ->.
  { unfold addEntryListenerInternal, event_type in *.
    destruct target as [x|], predicate as [y|]; try destruct (truthy x);
      repeat match type of Ha with context [toData ?z] => destruct (toData z); [|done]; cbn in Ha end; injection Ha as <- <-;
      (eapply entry_handled; [|exact Hm]); event_agrees. }
  unfold entryEventHandler. rewrite Hk, Hv, Ho, Hg. cbn [mbind res_bind]. fold member.
  pose proof (flags_of_functions listener) as Hl. cbn [map] in Hl. injection Hl as F1 F2 F3 F4 F5 F6 F7 F8 F9 _.
  repeat (apply elem_of_cons in Ht as [->|Ht]); [.. | by apply elem_of_nil in Ht];
    match goal with F : negb (js_and _ ?e =? 0) = has (?f listener), Hf : js_and _ ?e <> 0 |- _ =>
      apply Z.eqb_neq in Hf; rewrite Hf in F; cbn; destruct (f listener); [by eexists | discriminate] end.
Qed.

(** A listener for a key that is falsy in JavaScript (0, the empty string, false) is registered for the entries of all keys. *)
Lemma falsy_key_of_map `{Uninit} {L} `{LongLib L} {V M T} `{ObjectSerialization V} (name : string) (truthy : V -> bool)
    (getMember : string -> option M) (listener : EntryListener V M T) key includeValue : truthy key = false ->
  addEntryListener (L := L) name truthy getMember listener (Some key) includeValue =
  addEntryListener name truthy getMember listener None includeValue.
Proof. intros Hk. unfold addEntryListener, addEntryListenerInternal. by rewrite Hk. Qed.

(** ** Witnesses *)

#[local] Existing Instances bool_serialization demo_uninit.

(** A map with one entry. *)
Definition demo_entry : gmap buffer buffer := {[ demo_bytes true := demo_bytes false ]}.
Definition demo_maps : Maps := fun _ => kmap (fun k => (pid demo_partitions k, k)) demo_entry.

Lemma demo_maps_entry : implements demo_partitions "m" demo_entry demo_maps.
Proof.
  split; [done|]. unfold demo_entry. intros k v [<- <-]%lookup_singleton_Some. split; apply demo_serializes.
Qed.

(** The second page, of one key each, of a map with one key is empty. *)
Definition demo_paging : PagingPredicateImpl bool := setPage 1 (mkPagingPredicate None 1 None 0 ENTRY []).

Lemma map_queries_refined_witness :
  exists r s', runs (query_services (L := Int64.t) (fun _ _ => true) (fun _ l => l) (fun _ _ => None))
      (query demo_partitions "m" (KeySetWithPredicate (Paging demo_paging))) demo_maps r s' /\
    (forall ks p, r = Ok (ks, p) -> ks = []) /\ implements demo_partitions "m" demo_entry s'.
Proof.
  destruct (map_queries_refined (fun _ _ => true) (fun _ l => l) (fun _ _ => None) demo_partitions "m"
    (KeySetWithPredicate (Paging demo_paging)) demo_entry demo_maps) as [(r & s' & Hr) Hall].
  - done.
  - done.
  - reflexivity.
  - apply demo_maps_entry.
  - repeat split; done.
  - destruct (Hall r s' Hr) as (Hi & _ & l & anchors & (all & Hp & d & c & Hd & Hc & ->) & _ & ->). eexists _, s'.
    split; [exact Hr|]. split; [|exact Hi]. intros ks p. unfold demo_entry in Hp. rewrite map_to_list_singleton in Hp.
    apply Permutation_singleton_r in Hp as ->. destruct d; [done|]. cbn. destruct (anchors_of anchors); cbn; [|done]. by intros [= <- _].
Defined.
