(* ===== verification/MultiMapProxy.v ===== *)
(** * The distributed multi-map

    [MultiMapProxy] of [src/src/proxy/MultiMapProxy.ts] and [LockReferenceIdGenerator] of
    [src/src/proxy/LockReferenceIdGenerator.ts]: the methods as programs ([ProxyCore]) that send the requests of
    [CollectionRequests], the members that keep the values and the lock of each key in the partition of the key, and the
    contract of [src/src/proxy/MultiMap.ts].

    A key may be locked by this client, whose requests all carry the same thread id, or by another one. A member counts how often
    a lock was acquired, and treats a request whose reference id is that of the last one as a repetition of it; so each
    request needs an id of its own. Leases that end are not modelled. *)

From S2P Require Export Prelude KeyedCore CollectionRequests.

(** ** LockReferenceIdGenerator *)

(** [getNextReferenceId]: the id, which is the new [counter]. *)
Definition getNextReferenceId {L} `{LongLib L} (counter : L) : L * L :=
  let counter := long_add counter (long_of_Z 1) in (counter, counter).

(** ** MultiMapProxy *)

Section MultiMapProxy.
Context `{Uninit} {L : Type} `{LongLib L} {V : Type} `{ObjectSerialization V}.
Context (partitionService : PartitionServiceImpl L) (name : string).

#[local] Abbreviation P := (Proxy L).
#[local] Abbreviation N z := (IsNumber z : long_arg L).
#[local] Abbreviation invokeOnKey := (encodeInvokeOnKey partitionService).

Definition lazyList (response : list HeapData) : LazyList.ReadOnlyLazyList V := map LazyList.IsData response.

Definition put (key value : V) : P bool :=
  keyData ← try_ (toData key);
  valueData ← try_ (toData value);
  clientMessage ← invokeOnKey (MultiMapPutCodec_encodeRequest name keyData valueData (N 1)) keyData;
  decodeResponse MultiMapPutCodec_decodeResponse clientMessage.

Definition get (key : V) : P (LazyList.ReadOnlyLazyList V) :=
  keyData ← try_ (toData key);
  clientMessage ← invokeOnKey (MultiMapGetCodec_encodeRequest name keyData (N 1)) keyData;
  response ← decodeResponse MultiMapGetCodec_decodeResponse clientMessage;
  mret (lazyList response).

Definition remove (key value : V) : P bool :=
  keyData ← try_ (toData key);
  valueData ← try_ (toData value);
  clientMessage ← invokeOnKey (MultiMapRemoveEntryCodec_encodeRequest name keyData valueData (N 1)) keyData;
  decodeResponse MultiMapRemoveEntryCodec_decodeResponse clientMessage.

Definition removeAll (key : V) : P (LazyList.ReadOnlyLazyList V) :=
  keyData ← try_ (toData key);
  clientMessage ← invokeOnKey (MultiMapRemoveCodec_encodeRequest name keyData (N 1)) keyData;
  response ← decodeResponse MultiMapRemoveCodec_decodeResponse clientMessage;
  mret (lazyList response).

Definition keySet : P (list V) :=
  clientMessage ← encodeInvokeOnRandomTarget (MultiMapKeySetCodec_encodeRequest name);
  response ← decodeResponse MultiMapKeySetCodec_decodeResponse clientMessage;
  try_ (deserializeList response).

Definition values : P (LazyList.ReadOnlyLazyList V) :=
  clientMessage ← encodeInvokeOnRandomTarget (MultiMapValuesCodec_encodeRequest name);
  response ← decodeResponse MultiMapValuesCodec_decodeResponse clientMessage;
  mret (lazyList response).

Definition entrySet : P (list (V * V)) :=
  clientMessage ← encodeInvokeOnRandomTarget (MultiMapEntrySetCodec_encodeRequest name);
  response ← decodeResponse MultiMapEntrySetCodec_decodeResponse clientMessage;
  try_ (deserializeEntryList response).

Definition containsKey (key : V) : P bool :=
  keyData ← try_ (toData key);
  clientMessage ← invokeOnKey (MultiMapContainsKeyCodec_encodeRequest name keyData (N 1)) keyData;
  decodeResponse MultiMapContainsKeyCodec_decodeResponse clientMessage.

Definition containsValue (value : V) : P bool :=
  valueData ← try_ (toData value);
  clientMessage ← encodeInvokeOnRandomTarget (MultiMapContainsValueCodec_encodeRequest name valueData);
  decodeResponse MultiMapContainsValueCodec_decodeResponse clientMessage.

Definition containsEntry (key value : V) : P bool :=
  keyData ← try_ (toData key);
  valueData ← try_ (toData value);
  clientMessage ← invokeOnKey (MultiMapContainsEntryCodec_encodeRequest name keyData valueData (N 1)) keyData;
  decodeResponse MultiMapContainsEntryCodec_decodeResponse clientMessage.

Definition size : P Z :=
  clientMessage ← encodeInvokeOnRandomTarget (MultiMapSizeCodec_encodeRequest name);
  decodeResponse MultiMapSizeCodec_decodeResponse clientMessage.

Definition clear : P unit := ignore_answer (encodeInvokeOnRandomTarget (MultiMapClearCodec_encodeRequest name)).

Definition valueCount (key : V) : P Z :=
  keyData ← try_ (toData key);
  clientMessage ← invokeOnKey (MultiMapValueCountCodec_encodeRequest name keyData (N 1)) keyData;
  decodeResponse MultiMapValueCountCodec_decodeResponse clientMessage.

Definition isLocked (key : V) : P bool :=
  keyData ← try_ (toData key);
  clientMessage ← invokeOnKey (MultiMapIsLockedCodec_encodeRequest name keyData) keyData;
  decodeResponse MultiMapIsLockedCodec_decodeResponse clientMessage.

(** *** Methods with a reference id

    The id is taken when the key has been serialized; the method returns the counter of the generator too. *)

Definition nextSequence (counter : L) : L * L := getNextReferenceId counter.

Definition with_sequence {A} (key : V) (counter : L) (invoke : HeapData -> L -> P A) : P A * L :=
  match toData key with
  | Err e => (Done (Err e), counter)
  | Ok keyData => let '(sequence, counter) := nextSequence counter in (invoke keyData sequence, counter)
  end.

Definition lock (key : V) (leaseMillis : Z) (counter : L) : P unit * L :=
  with_sequence key counter (fun keyData sequence =>
    ignore_answer (invokeOnKey (MultiMapLockCodec_encodeRequest name keyData (N 1) (N leaseMillis) (IsLong sequence)) keyData)).

Definition tryLock (key : V) (timeoutMillis leaseMillis : Z) (counter : L) : P bool * L :=
  with_sequence key counter (fun keyData sequence =>
    clientMessage ← invokeOnKey (MultiMapTryLockCodec_encodeRequest name keyData (N 1) (N leaseMillis) (N timeoutMillis)
      (IsLong sequence)) keyData;
    decodeResponse MultiMapTryLockCodec_decodeResponse clientMessage).

Definition unlock (key : V) (counter : L) : P unit * L :=
  with_sequence key counter (fun keyData sequence =>
    ignore_answer (invokeOnKey (MultiMapUnlockCodec_encodeRequest name keyData (N 1) (IsLong sequence)) keyData)).

Definition forceUnlock (key : V) (counter : L) : P unit * L :=
  with_sequence key counter (fun keyData sequence =>
    ignore_answer (invokeOnKey (MultiMapForceUnlockCodec_encodeRequest name keyData (IsLong sequence)) keyData)).

(** *** putAll *)

(** [dataPairs]: the values are serialized before the key. *)
Fixpoint serialize_pairs (pairs : list (V * list V)) : res (list (HeapData * list HeapData)) :=
  match pairs with
  | [] => Ok []
  | entry :: pairs =>
      valuesData ← serializeList entry.2;
      keyData ← toData entry.1;
      dataPairs ← serialize_pairs pairs;
      Ok ((keyData, valuesData) :: dataPairs)
  end.

(** [partitionToDataPairs]: a [Map], whose keys are in the order of their insertion. *)
Fixpoint push_pair {A} (partitionId : Z) (dataPair : A) (partitionToDataPairs : list (Z * list A)) : list (Z * list A) :=
  match partitionToDataPairs with
  | [] => [(partitionId, [dataPair])]
  | (q, partitionedDataPairs) :: rest =>
      if partitionId =? q then (q, partitionedDataPairs ++ [dataPair]) :: rest
      else (q, partitionedDataPairs) :: push_pair partitionId dataPair rest
  end.

Fixpoint group_data_pairs (dataPairs : list (HeapData * list HeapData)) (partitionToDataPairs : list (Z * list (HeapData * list HeapData)))
    : res (list (Z * list (HeapData * list HeapData))) :=
  match dataPairs with
  | [] => Ok partitionToDataPairs
  | dataPair :: dataPairs =>
      partitionId ← partition_of partitionService dataPair.1;
      group_data_pairs dataPairs (push_pair partitionId dataPair partitionToDataPairs)
  end.

Definition putAll (pairs : list (V * list V)) : P unit :=
  match pairs with
  | [] => mret tt
  | _ =>
      dataPairs ← try_ (serialize_pairs pairs);
      partitionToDataPairs ← try_ (group_data_pairs dataPairs []);
      _ ← invokeOnPartitions (map (fun g => (g.1, MultiMapPutAllCodec_encodeRequest name g.2)) partitionToDataPairs);
      mret tt
  end.

(** *** addEntryListener *)

Definition createEntryListenerToKey (keyData : HeapData) (includeValue : bool) : ListenerMessageCodec L :=
  mkListenerMessageCodec L
    (fun localOnly => MultiMapAddEntryListenerToKeyCodec_encodeRequest name keyData includeValue localOnly)
    MultiMapAddEntryListenerToKeyCodec_decodeResponse
    (fun listenerId => MultiMapRemoveEntryListenerCodec_encodeRequest name listenerId).
Definition createEntryListener (includeValue : bool) : ListenerMessageCodec L :=
  mkListenerMessageCodec L
    (fun localOnly => MultiMapAddEntryListenerCodec_encodeRequest name includeValue localOnly)
    MultiMapAddEntryListenerCodec_decodeResponse
    (fun listenerId => MultiMapRemoveEntryListenerCodec_encodeRequest name listenerId).

Definition entryEventHandler {M T} (getMember : string -> option M) (listener : EntryListener V M T) : EntryHandler L T :=
  fun keyData valueData oldValueData mergingValueData eventType uuid numberOfAffectedEntries =>
    match uuid with
    | None => Err TypeError
    | Some uuid =>
        let member := getMember (UUID_toString uuid) in
        key ← toObject keyData;
        value ← toObject valueData;
        oldValue ← toObject oldValueData;
        mergingValue ← toObject mergingValueData;
        let entryEvent := mkEntryEvent name key value oldValue mergingValue member in
        let mapEvent := mkMapEvent name numberOfAffectedEntries member in
        Ok (if eventType =? ADDED then (fun f => f entryEvent) <$> added listener
            else if eventType =? REMOVED then (fun f => f entryEvent) <$> removed listener
            else if eventType =? CLEAR_ALL then (fun f => f mapEvent) <$> mapCleared listener
            else None)
    end.

(** What is registered with the listener service: the codec, and the handler of its messages. [truthy] is JavaScript's
    conversion of a key to a boolean. *)
Definition addEntryListener {M T} (truthy : V -> bool) (getMember : string -> option M) (listener : EntryListener V M T)
    (key : option V) (includeValue : bool) : res (ListenerMessageCodec L * (frames -> res (option T))) :=
  let handler := entryEventHandler getMember listener in
  match (match key with Some key => if truthy key then Some key else None | None => None end) with
  | Some key =>
      keyData ← toData key;
      Ok (createEntryListenerToKey keyData includeValue, handle_entry MultiMapAddEntryListenerToKeyCodec_handle handler)
  | None => Ok (createEntryListener includeValue, handle_entry MultiMapAddEntryListenerCodec_handle handler)
  end.
End MultiMapProxy.

(** ** The members of multi-maps *)

(** A lock: the thread id if this client has it, how often it was acquired, and the reference id of the last request. *)
Record Lock := mkLock { holder : option Z; lock_count : nat; reference : Z }.
(** What a member keeps for the keys of a partition. *)
Record MultiMapStore := mkStore { entries : gmap buffer (list buffer); locks : gmap buffer Lock }.

#[global] Instance multi_map_keyed : Keyed MultiMapStore (option (list buffer) * option Lock) := {|
  slot k c := (entries c !! k, locks c !! k);
  set_slot k x c := mkStore (partial_alter (fun _ => x.1) k (entries c)) (partial_alter (fun _ => x.2) k (locks c));
  vacant := (None, None);
  slot_ok x := option_valid (fun l => l <> [] /\ Forall valid_bytes l) x.1
|}.
#[global] Instance multi_map_keyed_laws : KeyedLaws MultiMapStore (option (list buffer) * option Lock).
Proof.
  split; intros; cbn.
  - rewrite !lookup_partial_alter_eq. by destruct x.
  - by rewrite !lookup_partial_alter_ne.
Qed.

Section MultiMapMembers.
Context `{Uninit} {L : Type} `{LongLaws L}.
(** Multi-maps are configured to keep the values of a key as a set or as a list. *)
Context (as_set : string -> bool).

#[local] Abbreviation Slot := (option (list buffer) * option Lock)%type.

(** A key without values has no entry. *)
Definition values_of (o : option (list buffer)) : list buffer := default [] o.
Definition of_values (l : list buffer) : option (list buffer) := match l with [] => None | _ => Some l end.

Definition adds (set : bool) (v : buffer) (l : list buffer) : bool := negb (set && bool_decide (v ∈ l)).
Definition add_value (set : bool) (l : list buffer) (v : buffer) : list buffer := if adds set v l then l ++ [v] else l.

(** The values as they are sent: a set has no order. *)
Definition shown (set : bool) (l l' : list buffer) : Prop := if set then l' ≡ₚ l else l' = l.

(** A key that is locked by someone else cannot be written; the request waits. *)
Definition lockable (thread : Z) (lk : option Lock) : bool :=
  match lk with None => true | Some l => bool_decide (holder l = Some thread) end.

Definition acquire (thread ref : Z) (lk : option Lock) : Lock :=
  match lk with
  | None => mkLock (Some thread) 1 ref
  | Some l => if reference l =? ref then l else mkLock (holder l) (S (lock_count l)) ref
  end.
Definition release (ref : Z) (l : Lock) : option Lock :=
  if reference l =? ref then Some l
  else match lock_count l with S (S n) => Some (mkLock (holder l) (S n) ref) | _ => None end.

Definition reads_slot (kd : kind) (f : Slot -> member_val kd) (x : Slot) (v : member_val kd) (x' : Slot) : Prop := v = f x /\ x' = x.
Definition writes_slot (kd : kind) (thread : Z) (f : list buffer -> member_val kd * list buffer) (x : Slot) (v : member_val kd) (x' : Slot) : Prop :=
  lockable thread x.2 = true /\ v = (f (values_of x.1)).1 /\ x' = (of_values (f (values_of x.1)).2, x.2).

Definition get_rel (set : bool) (x : Slot) (v : list buffer) (x' : Slot) : Prop := shown set (values_of x.1) v /\ x' = x.
Definition remove_rel (set : bool) (thread : Z) (x : Slot) (v : list buffer) (x' : Slot) : Prop :=
  lockable thread x.2 = true /\ shown set (values_of x.1) v /\ x' = (None, x.2).
Definition lock_rel (thread ttl ref : Z) (x : Slot) (v : unit) (x' : Slot) : Prop :=
  ttl < 0 /\ lockable thread x.2 = true /\ x' = (x.1, Some (acquire thread ref x.2)).
Definition try_lock_rel (thread lease ref : Z) (x : Slot) (v : bool) (x' : Slot) : Prop :=
  lease < 0 /\ v = lockable thread x.2 /\ x' = if v then (x.1, Some (acquire thread ref x.2)) else x.
Definition unlock_rel (thread ref : Z) (x : Slot) (v : unit) (x' : Slot) : Prop :=
  exists l, x.2 = Some l /\ holder l = Some thread /\ x' = (x.1, release ref l).
Definition force_unlock_rel (x : Slot) (v : unit) (x' : Slot) : Prop := x' = (x.1, None).

(** The entries of all partitions. *)
Definition listed (c : Z -> MultiMapStore) (l : list (Z * buffer * list buffer)) : Prop :=
  NoDup l /\ forall p k vs, (p, k, vs) ∈ l <-> entries (c p) !! k = Some vs.
Definition reads_all (f : list (Z * buffer * list buffer) -> answer -> Prop) (c : Z -> MultiMapStore) (a : answer) (c' : Z -> MultiMapStore) : Prop :=
  (exists l, listed c l /\ f l a) /\ c' = c.

Definition flat (l : list (buffer * list buffer)) : list (buffer * buffer) := e ← l; pair e.1 <$> e.2.
Definition unpartitioned (l : list (Z * buffer * list buffer)) : list (buffer * list buffer) := (fun e => (e.1.2, e.2)) <$> l.

(** The entries of keys that are locked may remain. *)
Definition clear_rel (c : Z -> MultiMapStore) (a : answer) (c' : Z -> MultiMapStore) : Prop :=
  a = no_answer /\ forall p, locks (c' p) = locks (c p) /\
    forall k, entries (c' p) !! k = None \/ is_Some (locks (c p) !! k) /\ entries (c' p) !! k = entries (c p) !! k.

Definition put_values (set : bool) (c : MultiMapStore) (e : buffer * list buffer) : MultiMapStore :=
  let x := slot e.1 c in set_slot e.1 (of_values (foldl (add_value set) (values_of x.1) e.2), x.2) c.
Definition raw (e : HeapData * list HeapData) : buffer * list buffer := (bytes e.1, bytes <$> e.2).

Definition multi_map_services : list (Service L (Objects MultiMapStore)) := [
  mkService (mkRequestFormat 131328 false [F_long_arg] [param string_codec; param data_codec; param data_codec]
      (fun f p => MultiMapPutCodec_encodeRequest p.1 p.2.1 p.2.2.1 f.1))
    (fun f p => on_object (at_key (writes_slot KBool f.1
       (fun l => (adds (as_set p.1) (bytes p.2.2.1) l, add_value (as_set p.1) l (bytes p.2.2.1)))) p.2.1) p.1);
  mkService (mkRequestFormat 131584 true [F_long_arg] [param string_codec; param data_codec]
      (fun f p => MultiMapGetCodec_encodeRequest p.1 p.2.1 f.1))
    (fun f p => on_object (at_key (kd := KList) (get_rel (as_set p.1)) p.2.1) p.1);
  mkService (mkRequestFormat 136448 false [F_long_arg] [param string_codec; param data_codec; param data_codec]
      (fun f p => MultiMapRemoveEntryCodec_encodeRequest p.1 p.2.1 p.2.2.1 f.1))
    (fun f p => on_object (at_key (writes_slot KBool f.1
       (fun l => (bool_decide (bytes p.2.2.1 ∈ l), remove_first (bytes p.2.2.1) l))) p.2.1) p.1);
  mkService (mkRequestFormat 131840 false [F_long_arg] [param string_codec; param data_codec]
      (fun f p => MultiMapRemoveCodec_encodeRequest p.1 p.2.1 f.1))
    (fun f p => on_object (at_key (kd := KList) (remove_rel (as_set p.1) f.1) p.2.1) p.1);
  mkService (mkRequestFormat 132864 true [F_long_arg] [param string_codec; param data_codec]
      (fun f p => MultiMapContainsKeyCodec_encodeRequest p.1 p.2.1 f.1))
    (fun f p => on_object (at_key (reads_slot KBool (fun x => bool_decide (is_Some x.1))) p.2.1) p.1);
  mkService (mkRequestFormat 133376 true [F_long_arg] [param string_codec; param data_codec; param data_codec]
      (fun f p => MultiMapContainsEntryCodec_encodeRequest p.1 p.2.1 p.2.2.1 f.1))
    (fun f p => on_object (at_key (reads_slot KBool (fun x => bool_decide (bytes p.2.2.1 ∈ values_of x.1))) p.2.1) p.1);
  mkService (mkRequestFormat 134144 true [F_long_arg] [param string_codec; param data_codec]
      (fun f p => MultiMapValueCountCodec_encodeRequest p.1 p.2.1 f.1))
    (fun f p => on_object (at_key (reads_slot KInt (fun x => len (values_of x.1))) p.2.1) p.1);
  mkService (mkRequestFormat 135680 true [] [param string_codec; param data_codec]
      (fun f p => MultiMapIsLockedCodec_encodeRequest p.1 p.2.1))
    (fun f p => on_object (at_key (reads_slot KBool (fun x => bool_decide (is_Some x.2))) p.2.1) p.1);
  mkService (mkRequestFormat 135168 true [F_long_arg; F_long_arg; F_long_arg] [param string_codec; param data_codec]
      (fun f p => MultiMapLockCodec_encodeRequest p.1 p.2.1 f.1 f.2.1 f.2.2.1))
    (fun f p => on_object (at_key (kd := KUnit) (lock_rel f.1 f.2.1 f.2.2.1) p.2.1) p.1);
  mkService (mkRequestFormat 135424 true [F_long_arg; F_long_arg; F_long_arg; F_long_arg] [param string_codec; param data_codec]
      (fun f p => MultiMapTryLockCodec_encodeRequest p.1 p.2.1 f.1 f.2.1 f.2.2.1 f.2.2.2.1))
    (fun f p => on_object (at_key (kd := KBool) (try_lock_rel f.1 f.2.1 f.2.2.2.1) p.2.1) p.1);
  mkService (mkRequestFormat 135936 true [F_long_arg; F_long_arg] [param string_codec; param data_codec]
      (fun f p => MultiMapUnlockCodec_encodeRequest p.1 p.2.1 f.1 f.2.1))
    (fun f p => on_object (at_key (kd := KUnit) (unlock_rel f.1 f.2.1) p.2.1) p.1);
  mkService (mkRequestFormat 136192 true [F_long_arg] [param string_codec; param data_codec]
      (fun f p => MultiMapForceUnlockCodec_encodeRequest p.1 p.2.1 f.1))
    (fun f p => on_object (at_key (kd := KUnit) force_unlock_rel p.2.1) p.1);
  mkService (mkRequestFormat 132096 true [] [param string_codec] (fun f p => MultiMapKeySetCodec_encodeRequest p.1))
    (fun f p => on_all (reads_all (fun l a => exists ks, ks ≡ₚ (unpartitioned l).*1 /\ a = list_answer ks)) p.1);
  mkService (mkRequestFormat 132352 true [] [param string_codec] (fun f p => MultiMapValuesCodec_encodeRequest p.1))
    (fun f p => on_all (reads_all (fun l a => exists vs, vs ≡ₚ (flat (unpartitioned l)).*2 /\ a = list_answer vs)) p.1);
  mkService (mkRequestFormat 132608 true [] [param string_codec] (fun f p => MultiMapEntrySetCodec_encodeRequest p.1))
    (fun f p => on_all (reads_all (fun l a => exists es, es ≡ₚ flat (unpartitioned l) /\ a = entries_answer es)) p.1);
  mkService (mkRequestFormat 133632 true [] [param string_codec] (fun f p => MultiMapSizeCodec_encodeRequest p.1))
    (fun f p => on_all (reads_all (fun l a => a = int_answer (Z.of_nat (length (flat (unpartitioned l)))))) p.1);
  mkService (mkRequestFormat 133120 true [] [param string_codec; param data_codec]
      (fun f p => MultiMapContainsValueCodec_encodeRequest p.1 p.2.1))
    (fun f p => on_all (reads_all (fun l a => a = bool_answer (bool_decide (bytes p.2.1 ∈ (flat (unpartitioned l)).*2)))) p.1);
  mkService (mkRequestFormat 133888 false [] [param string_codec] (fun f p => MultiMapClearCodec_encodeRequest p.1))
    (fun f p => on_all clear_rel p.1);
  mkService (mkRequestFormat 136960 false [] [param string_codec; param (entry_list_codec (CK := data_codec) (CV := list_data_codec))]
      (fun f p => MultiMapPutAllCodec_encodeRequest p.1 p.2.1))
    (fun f p => on_object (k := KUnit) (fun c _ c' => c' = foldl (put_values (as_set p.1)) c (raw <$> p.2.1)) p.1)
].
Definition multi_map_service (n : nat) : Service L (Objects MultiMapStore) := nth n multi_map_services no_service.

Lemma multi_map_services_conform : Forall (fun sv => request_conforms (sv_format sv)) multi_map_services.
Proof. format_agrees multi_map_services. Qed.

Lemma multi_map_services_distinct : NoDup (map (fun sv => rf_type (sv_format sv)) multi_map_services).
Proof. apply (bool_decide_eq_true_1 _). vm_compute. reflexivity. Qed.
End MultiMapMembers.

(** ** The contract of a multi-map *)

Section MultiMapRefinement.
Context `{Uninit} {L : Type} `{LongLaws L} {V : Type} `{ObjectSerialization V}.
Context (as_set : string -> bool) (partitionService : PartitionServiceImpl L) (name : string).
Context (partitions_known : 0 < partitionCount partitionService).
Implicit Types (M : MultiMapStore) (s : Objects MultiMapStore) (k : buffer) (counter : L).

#[local] Abbreviation set := (as_set name).
#[local] Abbreviation pid := (pid partitionService).
#[local] Abbreviation held := (slots_held partitionService name).

Inductive MultiMapOp : Type -> Type :=
  | Put (key value : V) : MultiMapOp bool
  | Get (key : V) : MultiMapOp (LazyList.ReadOnlyLazyList V)
  | Remove (key value : V) : MultiMapOp bool
  | RemoveAll (key : V) : MultiMapOp (LazyList.ReadOnlyLazyList V)
  | KeySet : MultiMapOp (list V)
  | Values : MultiMapOp (LazyList.ReadOnlyLazyList V)
  | EntrySet : MultiMapOp (list (V * V))
  | ContainsKey (key : V) : MultiMapOp bool
  | ContainsValue (value : V) : MultiMapOp bool
  | ContainsEntry (key value : V) : MultiMapOp bool
  | Size : MultiMapOp Z
  | Clear : MultiMapOp unit
  | ValueCount (key : V) : MultiMapOp Z
  | IsLocked (key : V) : MultiMapOp bool
  | DoLock (key : V) (leaseMillis : Z) : MultiMapOp unit
  | TryLock (key : V) (timeoutMillis leaseMillis : Z) : MultiMapOp bool
  | Unlock (key : V) : MultiMapOp unit
  | ForceUnlock (key : V) : MultiMapOp unit
  | PutAll (pairs : list (V * list V)) : MultiMapOp unit.

(** The program of a method, and the counter of the reference ids after it. *)
Definition method {A} (op : MultiMapOp A) counter : Proxy L A * L :=
  match op with
  | Put key value => (put partitionService name key value, counter)
  | Get key => (get partitionService name key, counter)
  | Remove key value => (remove partitionService name key value, counter)
  | RemoveAll key => (removeAll partitionService name key, counter)
  | KeySet => (keySet name, counter)
  | Values => (values name, counter)
  | EntrySet => (entrySet name, counter)
  | ContainsKey key => (containsKey partitionService name key, counter)
  | ContainsValue value => (containsValue name value, counter)
  | ContainsEntry key value => (containsEntry partitionService name key value, counter)
  | Size => (size name, counter)
  | Clear => (clear name, counter)
  | ValueCount key => (valueCount partitionService name key, counter)
  | IsLocked key => (isLocked partitionService name key, counter)
  | DoLock key leaseMillis => lock partitionService name key leaseMillis counter
  | TryLock key timeoutMillis leaseMillis => tryLock partitionService name key timeoutMillis leaseMillis counter
  | Unlock key => unlock partitionService name key counter
  | ForceUnlock key => forceUnlock partitionService name key counter
  | PutAll pairs => (putAll partitionService name pairs, counter)
  end.

(** *** States *)

Definition key_values M k : list buffer := values_of (entries M !! k).
Definition set_values k (l : list buffer) M : MultiMapStore := set_slot k (of_values l, locks M !! k) M.
Definition set_lock k (o : option Lock) M : MultiMapStore := set_slot k (entries M !! k, o) M.
(** How often this client has acquired the lock. *)
Definition holds_count M k : nat := match locks M !! k with Some l => lock_count l | None => O end.
Definition ours M k : Prop := exists l, locks M !! k = Some l /\ holder l = Some 1.
Definition accessible M k : Prop := lockable 1 (locks M !! k) = true.

(** The reference ids of the locks of this client were given before. *)
Definition references_past M counter : Prop :=
  forall k l, locks M !! k = Some l -> holder l = Some 1 -> reference l <= long_val counter.

(** The arguments are values the client can serialize, the keys that are written are not locked by another client, the locks
    have no lease, and there are reference ids left. *)
Definition of_key (key : V) (Q : buffer -> Prop) : Prop := exists k, serializes key k /\ Q k.
Definition op_ok {A} (op : MultiMapOp A) M counter : Prop :=
  match op with
  | Put key value | Remove key value => of_key key (accessible M) /\ arg_ok value
  | RemoveAll key => of_key key (accessible M)
  | Get key | ContainsKey key | IsLocked key => arg_ok key
  | ContainsEntry key value => arg_ok key /\ arg_ok value
  | ContainsValue value => arg_ok value
  | KeySet | Values | EntrySet | Clear => True
  | Size => Z.of_nat (length (flat (map_to_list (entries M)))) < 2 ^ 31
  | ValueCount key => of_key key (fun k => len (key_values M k) < 2 ^ 31)
  | DoLock key lease => of_key key (accessible M) /\ - 2 ^ 63 <= lease < 0 /\ long_val counter + 1 < 2 ^ 63
  | TryLock key timeout lease => arg_ok key /\ in_sint 64 timeout /\ - 2 ^ 63 <= lease < 0 /\ long_val counter + 1 < 2 ^ 63
  | Unlock key => of_key key (ours M) /\ long_val counter + 1 < 2 ^ 63
  | ForceUnlock key => arg_ok key /\ long_val counter + 1 < 2 ^ 63
  | PutAll pairs => Forall (fun e => arg_ok e.1 /\ Forall arg_ok e.2) pairs
  end.

(** What the method returns, and the multi-map after it; [id] is the next reference id. *)
Definition multi_map_spec {A} (op : MultiMapOp A) M (id : Z) : res A -> MultiMapStore -> Prop :=
  match op in MultiMapOp A return res A -> MultiMapStore -> Prop with
  | Put key value => fun r M' => forall k v, is_data key k -> is_data value v ->
      r = Ok (negb (set && bool_decide (v ∈ key_values M k))) /\ M' = set_values k (add_value set (key_values M k) v) M
  | Get key => fun r M' => forall k, is_data key k ->
      (exists l, shown set (key_values M k) l /\ r = Ok (lazyList (heap <$> l))) /\ M' = M
  | Remove key value => fun r M' => forall k v, is_data key k -> is_data value v ->
      r = Ok (bool_decide (v ∈ key_values M k)) /\ M' = set_values k (remove_first v (key_values M k)) M
  | RemoveAll key => fun r M' => forall k, is_data key k ->
      (exists l, shown set (key_values M k) l /\ r = Ok (lazyList (heap <$> l))) /\ M' = set_values k [] M
  | KeySet => fun r M' => (exists l, l ≡ₚ (map_to_list (entries M)).*1 /\ r = deserializeList (heap <$> l)) /\ M' = M
  | Values => fun r M' => (exists l, l ≡ₚ (flat (map_to_list (entries M))).*2 /\ r = Ok (lazyList (heap <$> l))) /\ M' = M
  | EntrySet => fun r M' =>
      (exists l, l ≡ₚ flat (map_to_list (entries M)) /\ r = deserializeEntryList (prod_map heap heap <$> l)) /\ M' = M
  | ContainsKey key => fun r M' => forall k, is_data key k -> r = Ok (bool_decide (key_values M k <> [])) /\ M' = M
  | ContainsValue value => fun r M' => forall v, is_data value v ->
      (exists b, r = Ok b /\ (b = true <-> exists k, v ∈ key_values M k)) /\ M' = M
  | ContainsEntry key value => fun r M' => forall k v, is_data key k -> is_data value v ->
      r = Ok (bool_decide (v ∈ key_values M k)) /\ M' = M
  | Size => fun r M' => r = Ok (Z.of_nat (length (flat (map_to_list (entries M))))) /\ M' = M
  | Clear => fun r M' => r = Ok tt /\ locks M' = locks M /\ entries M' ⊆ entries M /\
      forall k, locks M !! k = None -> key_values M' k = []
  | ValueCount key => fun r M' => forall k, is_data key k -> r = Ok (len (key_values M k)) /\ M' = M
  | IsLocked key => fun r M' => forall k, is_data key k -> r = Ok (bool_decide (is_Some (locks M !! k))) /\ M' = M
  | DoLock key _ => fun r M' => forall k, is_data key k ->
      r = Ok tt /\ M' = set_lock k (Some (mkLock (Some 1) (S (holds_count M k)) id)) M
  | TryLock key _ _ => fun r M' => forall k, is_data key k ->
      if lockable 1 (locks M !! k) then r = Ok true /\ M' = set_lock k (Some (mkLock (Some 1) (S (holds_count M k)) id)) M
      else r = Ok false /\ M' = M
  | Unlock key => fun r M' => forall k, is_data key k ->
      r = Ok tt /\ M' = set_lock k (match holds_count M k with S (S n) => Some (mkLock (Some 1) (S n) id) | _ => None end) M
  | ForceUnlock key => fun r M' => forall k, is_data key k -> r = Ok tt /\ M' = set_lock k None M
  | PutAll pairs => fun r M' => forall l, Forall2 (fun e b => is_data e.1 b.1 /\ Forall2 is_data e.2 b.2) pairs l ->
      r = Ok tt /\ M' = foldl (put_values set) M l
  end.

Definition outcome_ok {A} (op : MultiMapOp A) M counter counter' s (r : res A) s' : Prop :=
  exists M', held M' s' /\ names_kept name s s' /\ references_past M' counter' /\ multi_map_spec op M (long_val counter + 1) r M'.

(** ** The methods implement the contract *)

Lemma set_slot_same k M : set_slot k (slot k M) M = M.
Proof. destruct M as [es ls]. unfold set_slot, slot. cbn. by rewrite !partial_alter_self. Qed.

(** A slot with no entry or with valid values. *)
Lemma slot_valid (o : option (list buffer)) (lk : option Lock) : option_valid (fun l => l <> [] /\ Forall valid_bytes l) o ->
  (o, lk) = vacant \/ slot_ok (o, lk).
Proof. intros Ho. by right. Qed.

Lemma values_valid M s k : held M s -> option_valid (fun l => l <> [] /\ Forall valid_bytes l) (entries M !! k).
Proof. intros [_ Hv]. destruct (Hv k) as [E|[_ Hx]]; [by injection E as -> _ | done]. Qed.

Lemma key_values_valid M s k : held M s -> Forall valid_bytes (key_values M k).
Proof. intros Hh. pose proof (values_valid M s k Hh) as Hv. unfold key_values. destruct (entries M !! k); [apply Hv | constructor]. Qed.

Lemma of_values_valid l : Forall valid_bytes l -> option_valid (fun l => l <> [] /\ Forall valid_bytes l) (of_values l).
Proof. by destruct l. Qed.

Lemma add_value_valid b l v : Forall valid_bytes l -> valid_bytes v -> Forall valid_bytes (add_value b l v).
Proof. intros Hl Hv. unfold add_value. destruct (adds b v l); [|done]. apply Forall_app. by split; [|constructor]. Qed.

Lemma remove_first_valid v l : Forall valid_bytes l -> Forall valid_bytes (remove_first v l).
Proof. induction 1 as [|x l Hx Hl IH]; cbn; [done|]. case_decide; [done | by constructor]. Qed.

Lemma shown_valid b l l' : shown b l l' -> Forall valid_bytes l -> Forall valid_bytes l'.
Proof. destruct b; cbn; [by intros -> | by intros ->]. Qed.

Lemma shown_refl b l : shown b l l.
Proof. by destruct b; cbn. Qed.

(** A method that leaves the locks. *)
Lemma references_values M counter k l : references_past M counter -> references_past (set_values k l M) counter.
Proof.
  intros Hr k' l' Hl Ho. apply (Hr k' l'); [|done]. cbn in Hl. destruct (decide (k' = k)) as [->|Hne].
  - by rewrite lookup_partial_alter_eq in Hl.
  - by rewrite lookup_partial_alter_ne in Hl.
Qed.

(** A method that sets a lock, with a new reference id. *)
Lemma references_lock M counter counter' k o : references_past M counter -> long_val counter <= long_val counter' ->
  option_valid (fun l => reference l <= long_val counter') o -> references_past (set_lock k o M) counter'.
Proof.
  intros Hr Hc Ho k' l' Hl Hh. cbn in Hl. destruct (decide (k' = k)) as [->|Hne].
  - rewrite lookup_partial_alter_eq in Hl. subst o. apply Ho.
  - rewrite lookup_partial_alter_ne in Hl by done. specialize (Hr k' l' Hl Hh). lia.
Qed.

(** The next reference id. *)
Lemma next_reference counter : long_val counter + 1 < 2 ^ 63 ->
  long_val (getNextReferenceId counter).1 = long_val counter + 1 /\ (getNextReferenceId counter).2 = (getNextReferenceId counter).1.
Proof.
  intros Hc. unfold getNextReferenceId. cbn. split; [|done]. pose proof (long_val_range counter) as Hr. unfold in_sint in Hr.
  rewrite long_val_add, long_val_of_Z by (unfold in_sint; lia). apply swrap_id; unfold in_sint; lia.
Qed.

#[local] Abbreviation wp_mm := (wp (multi_map_services (L := L) as_set)).
#[local] Abbreviation refined op := (forall M s counter, held M s -> references_past M counter -> op_ok op M counter ->
  wp_mm (method op counter).1 (outcome_ok op M counter (method op counter).2 s) s).

#[local] Ltac data_args :=
  repeat match goal with
  | H : of_key _ _ |- _ => destruct H as (? & H & ?)
  | H : arg_ok _ |- _ => destruct H as [? H]
  end;
  repeat match goal with
  | H : serializes ?x _ |- _ =>
      lazymatch goal with
      | _ : toData x = _ |- _ => fail
      | _ => pose proof (proj1 (proj2 H)); pose proof (proj2 (proj2 H))
      end
  end;
  repeat match goal with H : toData _ = Ok _ |- _ => rewrite H end; rewrite ?try_ok.
#[local] Ltac same_data :=
  repeat match goal with
  | H : serializes ?x ?b, H' : is_data ?x ?b' |- _ => pose proof (is_data_inj x b b' H H'); subst b'; clear H'
  end.
#[local] Ltac enter := intros M s counter Hh Hr Hop; cbn [method op_ok fst snd] in *; destruct_and?.
#[local] Ltac valid := cbn; unfold in_sint in *; split_and?; try lia; try done; try (by apply data_valid_heap).
#[local] Ltac call_key n kd rel f p k :=
  eapply (wp_key (multi_map_services as_set) (multi_map_services_distinct as_set) (multi_map_services_conform as_set)
    partitionService name partitions_known n kd rel (multi_map_service as_set n) f p _ k);
  [reflexivity | reflexivity | valid | valid | done | reflexivity | eassumption | |].
#[local] Ltac call_all n rel f p :=
  eapply (wp_all (multi_map_services as_set) (multi_map_services_distinct as_set) (multi_map_services_conform as_set)
    name n rel (multi_map_service as_set n) f p);
  [reflexivity | reflexivity | valid | valid | reflexivity | |].



(** The end of a method that reads the slot of a key, and of one that writes its values or its lock. *)
Lemma read_outcome {A} (op : MultiMapOp A) M counter s r s' k : held M s ->
  (slot k M = vacant \/ slot_ok (slot k M) -> held (set_slot k (slot k M) M) s') -> names_kept name s s' ->
  references_past M counter -> multi_map_spec op M (long_val counter + 1) r M -> outcome_ok op M counter counter s r s'.
Proof.
  intros Hh Hs Hn Hr Hop. exists M. split_and!; [|done|done|done]. rewrite (set_slot_same k M) in Hs. apply Hs, slot_valid.
  by eapply values_valid.
Qed.

Lemma values_outcome {A} (op : MultiMapOp A) M counter s r s' k l : held M s -> Forall valid_bytes l ->
  ((of_values l, locks M !! k) = vacant \/ slot_ok (of_values l, locks M !! k) -> held (set_values k l M) s') ->
  names_kept name s s' -> references_past M counter -> multi_map_spec op M (long_val counter + 1) r (set_values k l M) ->
  outcome_ok op M counter counter s r s'.
Proof.
  intros Hh Hl Hs Hn Hr Hop. exists (set_values k l M). split_and!; [|done|by apply references_values|done].
  by apply Hs, slot_valid, of_values_valid.
Qed.

Lemma lock_outcome {A} (op : MultiMapOp A) M counter counter' s r s' k o : held M s ->
  ((entries M !! k, o) = vacant \/ slot_ok (entries M !! k, o) -> held (set_lock k o M) s') ->
  names_kept name s s' -> references_past M counter -> long_val counter <= long_val counter' ->
  option_valid (fun l => reference l <= long_val counter') o ->
  multi_map_spec op M (long_val counter + 1) r (set_lock k o M) -> outcome_ok op M counter counter' s r s'.
Proof.
  intros Hh Hs Hn Hr Hc Ho Hop. exists (set_lock k o M). split_and!; [|done|by eapply references_lock|done].
  apply Hs, slot_valid. by eapply values_valid.
Qed.

#[local] Ltac decode d :=
  match goal with
  | Hd : forall d', decodes_kind _ d' -> _ |- _ =>
      let E := fresh in
      assert (E := Hd d ltac:(intros ? ?; reflexivity)); cbn [client client_val] in E; rewrite E; clear E
  end; cbn [mbind Proxy_bind proxy_bind try_ wp].
#[local] Abbreviation one := (IsNumber 1 : long_arg L).

Lemma mm_put_refined key value : refined (Put key value).
Proof.
  enter. unfold put. data_args.
  call_key 0%nat KBool (writes_slot KBool 1 (fun l => (adds set x0 l, add_value set l x0))) (one, tt) (name, (heap x, (heap x0, tt))) x.
  - eexists _, _. split; [by split_and! | done].
  - intros v c reply s' (_ & -> & ->) Hd Hs Hn. decode MultiMapPutCodec_decodeResponse.
    eapply (values_outcome _ _ _ _ _ _ x (add_value set (key_values M x) x0)); [done | | done | done | done |].
    + apply add_value_valid; [by eapply key_values_valid | done].
    + cbn. intros. by same_data.
Qed.

Lemma mm_remove_refined key value : refined (Remove key value).
Proof.
  enter. unfold remove. data_args.
  call_key 2%nat KBool (writes_slot KBool 1 (fun l => (bool_decide (x0 ∈ l), remove_first x0 l))) (one, tt) (name, (heap x, (heap x0, tt))) x.
  - eexists _, _. split; [by split_and! | done].
  - intros v c reply s' (_ & -> & ->) Hd Hs Hn. decode MultiMapRemoveEntryCodec_decodeResponse.
    eapply (values_outcome _ _ _ _ _ _ x (remove_first x0 (key_values M x))); [done | | done | done | done |].
    + apply remove_first_valid. by eapply key_values_valid.
    + cbn. intros. by same_data.
Qed.

Lemma mm_get_refined key : refined (Get key).
Proof.
  enter. unfold get. data_args. call_key 1%nat KList (get_rel set) (one, tt) (name, (heap x, tt)) x.
  - exists (key_values M x), (slot x M). split; [split; [apply shown_refl | done]|]. by eapply key_values_valid.
  - intros v c reply s' [Hv ->] Hd Hs Hn. decode MultiMapGetCodec_decodeResponse.
    eapply (read_outcome _ _ _ _ _ _ x); [done | done | done | done |]. cbn. intros. same_data. split; [by exists v | done].
Qed.

Lemma mm_removeAll_refined key : refined (RemoveAll key).
Proof.
  enter. unfold removeAll. data_args. call_key 3%nat KList (remove_rel set 1) (one, tt) (name, (heap x, tt)) x.
  - exists (key_values M x), (None, locks M !! x). split; [split_and!; [done | apply shown_refl | done]|]. by eapply key_values_valid.
  - intros v c reply s' (_ & Hv & ->) Hd Hs Hn. decode MultiMapRemoveCodec_decodeResponse.
    eapply (values_outcome _ _ _ _ _ _ x []); [done | constructor | done | done | done |]. cbn. intros. same_data. split; [by exists v | done].
Qed.

Lemma entry_values M s k : held M s -> bool_decide (is_Some (entries M !! k)) = bool_decide (key_values M k <> []).
Proof.
  intros Hh. apply bool_decide_ext. pose proof (values_valid M s k Hh) as Hv. unfold key_values.
  destruct (entries M !! k); cbn in *; [|by split; intros []]. split; [intros _; apply Hv | by eexists].
Qed.

Lemma mm_containsKey_refined key : refined (ContainsKey key).
Proof.
  enter. unfold containsKey. data_args.
  call_key 4%nat KBool (reads_slot KBool (fun x => bool_decide (is_Some x.1))) (one, tt) (name, (heap x, tt)) x.
  - eexists _, _. by split.
  - intros v c reply s' [-> ->] Hd Hs Hn. decode MultiMapContainsKeyCodec_decodeResponse.
    eapply (read_outcome _ _ _ _ _ _ x); [done | done | done | done |]. cbn. intros. same_data. by rewrite (entry_values M s).
Qed.

Lemma mm_containsEntry_refined key value : refined (ContainsEntry key value).
Proof.
  enter. unfold containsEntry. data_args.
  call_key 5%nat KBool (reads_slot KBool (fun y => bool_decide (x ∈ values_of y.1))) (one, tt) (name, (heap x0, (heap x, tt))) x0.
  - eexists _, _. by split.
  - intros v c reply s' [-> ->] Hd Hs Hn. decode MultiMapContainsEntryCodec_decodeResponse.
    eapply (read_outcome _ _ _ _ _ _ x0); [done | done | done | done |]. cbn. intros. by same_data.
Qed.

Lemma mm_valueCount_refined key : refined (ValueCount key).
Proof.
  enter. unfold valueCount. data_args.
  call_key 6%nat KInt (reads_slot KInt (fun x => len (values_of x.1))) (one, tt) (name, (heap x, tt)) x.
  - eexists _, _. split; [by split|]. change (in_sint 32 (len (key_values M x))). unfold in_sint, len in *. lia.
  - intros v c reply s' [-> ->] Hd Hs Hn. decode MultiMapValueCountCodec_decodeResponse.
    eapply (read_outcome _ _ _ _ _ _ x); [done | done | done | done |]. cbn. intros. by same_data.
Qed.

Lemma mm_isLocked_refined key : refined (IsLocked key).
Proof.
  enter. unfold isLocked. data_args.
  call_key 7%nat KBool (reads_slot KBool (fun x => bool_decide (is_Some x.2))) tt (name, (heap x, tt)) x.
  - eexists _, _. by split.
  - intros v c reply s' [-> ->] Hd Hs Hn. decode MultiMapIsLockedCodec_decodeResponse.
    eapply (read_outcome _ _ _ _ _ _ x); [done | done | done | done |]. cbn. intros. by same_data.
Qed.

(** The requests with a reference id. *)
#[local] Ltac with_id :=
  unfold lock, tryLock, unlock, forceUnlock, with_sequence;
  repeat match goal with H : toData _ = Ok _ |- _ => rewrite H end; unfold nextSequence;
  match goal with Hc : long_val ?c + 1 < _ |- _ => destruct (next_reference c Hc) as [Hid Hid2] end;
  destruct (getNextReferenceId _) as [id counter']; cbn [fst snd] in *; subst counter'.

Lemma acquire_new M counter k : references_past M counter -> accessible M k ->
  acquire 1 (long_val counter + 1) (locks M !! k) = mkLock (Some 1) (S (holds_count M k)) (long_val counter + 1).
Proof.
  intros Hr Ha. unfold acquire, holds_count, accessible, lockable in *. destruct (locks M !! k) as [l|] eqn:E; [|done].
  apply bool_decide_eq_true in Ha. specialize (Hr k l E Ha). destruct (Z.eqb_spec (reference l) (long_val counter + 1)); [lia|].
  by rewrite Ha.
Qed.

Lemma release_new M counter k l : references_past M counter -> locks M !! k = Some l -> holder l = Some 1 ->
  release (long_val counter + 1) l =
    match holds_count M k with S (S n) => Some (mkLock (Some 1) (S n) (long_val counter + 1)) | _ => None end.
Proof.
  intros Hr E Ho. unfold release, holds_count. rewrite E, Ho. specialize (Hr k l E Ho).
  by destruct (Z.eqb_spec (reference l) (long_val counter + 1)); [lia|].
Qed.

Lemma mm_lock_refined key lease : refined (DoLock key lease).
Proof.
  enter. data_args. with_id. unfold ignore_answer.
  call_key 8%nat KUnit (lock_rel 1 lease (long_val id)) (one, (IsNumber lease : long_arg L, (IsLong id, tt))) (name, (heap x, tt)) x.
  - eexists tt, _. split; [by split_and! | done].
  - intros v c reply s' (_ & _ & ->) Hd Hs Hn. cbn in Hs. rewrite Hid, (acquire_new M) in Hs by done.
    eapply (lock_outcome _ _ _ _ _ (Ok tt) _ x (Some (mkLock (Some 1) (S (holds_count M x)) (long_val counter + 1))));
      [done | done | done | done | lia | cbn; lia |]. cbn. intros. by same_data.
Qed.

Lemma mm_tryLock_refined key timeout lease : refined (TryLock key timeout lease).
Proof.
  enter. data_args. with_id.
  call_key 9%nat KBool (try_lock_rel 1 lease (long_val id))
    (one, (IsNumber lease : long_arg L, (IsNumber timeout : long_arg L, (IsLong id, tt)))) (name, (heap x, tt)) x.
  - eexists _, _. split; [by split_and! | done].
  - intros v c reply s' (_ & Hv & ->) Hd Hs Hn. cbn in Hv. decode MultiMapTryLockCodec_decodeResponse.
    destruct v; symmetry in Hv.
    + cbn in Hs. rewrite Hid, (acquire_new M) in Hs by done.
      eapply (lock_outcome _ _ _ _ _ (Ok true) _ x (Some (mkLock (Some 1) (S (holds_count M x)) (long_val counter + 1))));
        [done | done | done | done | lia | cbn; lia |]. cbn. intros. same_data. by rewrite Hv.
    + exists M. cbn iota in Hs. rewrite set_slot_same in Hs. split_and!; [|done| |].
      * apply Hs, slot_valid. by eapply values_valid.
      * intros k l Hl Ho. specialize (Hr k l Hl Ho). lia.
      * cbn. intros. same_data. by rewrite Hv.
Qed.

Lemma mm_unlock_refined key : refined (Unlock key).
Proof.
  enter. data_args. with_id. match goal with H : ours _ _ |- _ => destruct H as (l & Hl & Ho) end. unfold ignore_answer.
  call_key 10%nat KUnit (unlock_rel 1 (long_val id)) (one, (IsLong id, tt)) (name, (heap x, tt)) x.
  - eexists tt, _. split; [by exists l | done].
  - intros v c reply s' (l' & Hl' & _ & ->) Hd Hs Hn. cbn in Hs, Hl'. rewrite Hl in Hl'. injection Hl' as <-.
    rewrite Hid, (release_new M counter x l) in Hs by done.
    eapply (lock_outcome _ _ _ _ _ (Ok tt) _ x
      (match holds_count M x with S (S n) => Some (mkLock (Some 1) (S n) (long_val counter + 1)) | _ => None end));
      [done | done | done | done | lia | by destruct (holds_count M x) as [|[]]; cbn; lia |]. cbn. intros. by same_data.
Qed.

Lemma mm_forceUnlock_refined key : refined (ForceUnlock key).
Proof.
  enter. data_args. with_id. unfold ignore_answer.
  call_key 11%nat KUnit force_unlock_rel (IsLong id : long_arg L, tt) (name, (heap x, tt)) x.
  - eexists tt, _. by split.
  - intros v c reply s' -> Hd Hs Hn. cbn in Hs.
    eapply (lock_outcome _ _ _ _ _ (Ok tt) _ x None); [done | done | done | done | lia | done |]. cbn. intros. by same_data.
Qed.

(** *** Requests to any member *)

Lemma held_entries M s p k : held M s -> entries (s p name) !! k = if p =? pid k then entries M !! k else None.
Proof. intros [Hs _]. specialize (Hs p k). cbn in Hs. destruct (p =? pid k); by injection Hs. Qed.

Lemma listed_entries M s : held M s ->
  listed (fun p => s p name) ((fun e => (pid e.1, e.1, e.2)) <$> map_to_list (entries M)).
Proof.
  intros Hh. split.
  - apply NoDup_fmap_2; [|apply NoDup_map_to_list]. by intros [] [] [= _ -> ->].
  - intros p k vs. rewrite (held_entries M s p k Hh), list_elem_of_fmap. split.
    + intros ([k' vs'] & [= -> -> ->] & Hin). cbn. rewrite Z.eqb_refl. by apply elem_of_map_to_list.
    + destruct (Z.eqb_spec p (pid k)) as [->|]; [|done]. intros Hk. exists (k, vs). split; [done|]. by apply elem_of_map_to_list.
Qed.

Lemma listed_perm M s l : held M s -> listed (fun p => s p name) l -> unpartitioned l ≡ₚ map_to_list (entries M).
Proof.
  intros Hh [Hn Hl]. destruct (listed_entries M s Hh) as [Hn' Hl'].
  assert (l ≡ₚ (fun e => (pid e.1, e.1, e.2)) <$> map_to_list (entries M)) as Hp.
  { apply NoDup_Permutation; [done | done|]. intros [[p k] vs]. by rewrite Hl, Hl'. }
  unfold unpartitioned. rewrite Hp, <- list_fmap_compose. apply reflexive_eq.
  rewrite <- (list_fmap_id (map_to_list (entries M))) at 2. apply list_fmap_ext. by intros ? [] ?.
Qed.

#[local] Instance flat_proper : Proper ((≡ₚ) ==> (≡ₚ)) flat.
Proof. intros l l' Hl. unfold flat. by rewrite Hl. Qed.

Lemma in_flat M v : v ∈ (flat (map_to_list (entries M))).*2 <-> exists k, v ∈ key_values M k.
Proof.
  unfold flat, key_values, values_of. split.
  - intros ([k v'] & -> & Hin)%list_elem_of_fmap. apply list_elem_of_bind in Hin as ([k' l] & Hv & Hin).
    apply list_elem_of_fmap in Hv as (v & [= -> ->] & Hv). exists k'. apply elem_of_map_to_list in Hin. by rewrite Hin.
  - intros [k Hv]. destruct (entries M !! k) as [l|] eqn:E; [|by apply not_elem_of_nil in Hv].
    apply list_elem_of_fmap. exists (k, v). split; [done|]. apply list_elem_of_bind. exists (k, l). split.
    + apply list_elem_of_fmap. by exists v.
    + by apply elem_of_map_to_list.
Qed.

Lemma flat_valid M s : held M s -> Forall (fun e => valid_bytes e.1 /\ valid_bytes e.2) (flat (map_to_list (entries M))).
Proof.
  intros Hh. apply Forall_forall. intros [k v] Hin. apply list_elem_of_bind in Hin as ([k' l] & Hv & Hin).
  apply list_elem_of_fmap in Hv as (v' & [= -> ->] & Hv). apply elem_of_map_to_list in Hin. pose proof Hh as [_ Hs].
  destruct (Hs k') as [E|[Hk _]]; [cbn in E; congruence|]. split; [done|].
  pose proof (values_valid M s k' Hh) as Hl. rewrite Hin in Hl. destruct Hl as [_ Hl]. rewrite Forall_forall in Hl. by apply Hl.
Qed.

Lemma keys_valid M s : held M s -> Forall valid_bytes (map_to_list (entries M)).*1.
Proof.
  intros Hh. apply Forall_forall. intros k ([k' l] & -> & Hin)%list_elem_of_fmap. apply elem_of_map_to_list in Hin.
  pose proof Hh as [_ Hs]. destruct (Hs k') as [E|[Hk _]]; [cbn in E; congruence | done].
Qed.

(** The end of a method that reads all entries. *)
Lemma all_outcome {A} (op : MultiMapOp A) M counter s r : held M s -> references_past M counter ->
  multi_map_spec op M (long_val counter + 1) r M ->
  outcome_ok op M counter counter s r (set_all name (fun p => s p name) s).
Proof. intros Hh Hr Hop. exists M. split_and!; [by apply held_same | apply all_names_kept | done | done]. Qed.

(** A request that reads all entries: it has an answer, and every answer is about the entries of [M]. *)
Lemma wp_reads_all {A} n (f : list (buffer * list buffer) -> answer -> Prop) sv fs p req (g : frames -> Proxy L A) Q s M :
  multi_map_services as_set !! n = Some sv -> rf_encode (sv_format sv) fs p = req -> fvalid _ fs -> pvalid _ p ->
  sv_effect sv (fview _ fs) p = on_all (reads_all (fun l => f (unpartitioned l))) name -> held M s ->
  (exists l a, l ≡ₚ map_to_list (entries M) /\ f l a /\ answerable a) ->
  (forall l l' a, l ≡ₚ l' -> f l a -> f l' a) ->
  (forall l a reply, l ≡ₚ map_to_list (entries M) -> f l a -> reply_of a reply ->
     wp_mm (g reply) Q (set_all name (fun p => s p name) s)) ->
  wp_mm (encodeInvokeOnRandomTarget req ≫= g) Q s.
Proof.
  intros Hn Er Hf Hp He Hh (l & a & Hl & Ha & Han) Hperm Hg.
  eapply (wp_all (multi_map_services as_set) (multi_map_services_distinct as_set) (multi_map_services_conform as_set)
    name n _ sv fs p); [done | done | done | done | exact He | |].
  - exists a, (fun p => s p name). split; [|done]. split; [|done]. eexists. split; [by apply (listed_entries M)|].
    eapply Hperm; [|exact Ha]. by rewrite Hl, (listed_perm M s _ Hh (listed_entries M s Hh)).
  - intros a' c reply [(l' & Hl' & Ha') ->] Hr. eapply Hg; [|done|done]. by apply (listed_perm M s).
Qed.

#[local] Ltac call_reads n f p :=
  eapply (wp_reads_all n f (multi_map_service as_set n) tt p);
  [reflexivity | reflexivity | valid | valid | reflexivity | eassumption | | |].
#[local] Ltac decode_as kd d Hrep :=
  rewrite (decode_kind kd d _ _ ltac:(intros ? ?; reflexivity) Hrep); cbn [mbind Proxy_bind proxy_bind try_ wp client].

#[local] Abbreviation data_entries := (reply (entry_list_codec (CK := data_codec) (CV := data_codec))).

Lemma mm_keySet_refined : refined KeySet.
Proof.
  enter. unfold keySet. call_reads 12%nat (fun (l : list (buffer * list buffer)) a => exists ks, ks ≡ₚ l.*1 /\ a = list_answer ks) (name, tt).
  - exists (map_to_list (entries M)). eexists. split_and!; [done | by eexists|]. apply answerable_list. by eapply keys_valid.
  - intros l l' a Hl (ks & Hks & ->). exists ks. split; [by rewrite Hks, Hl | done].
  - intros l a reply Hl (ks & Hks & ->) Hrep. decode_as KList MultiMapKeySetCodec_decodeResponse Hrep.
    apply (all_outcome KeySet); [done | done|]. split; [|done]. exists ks. split; [by rewrite Hks, Hl | done].
Qed.

Lemma mm_values_refined : refined Values.
Proof.
  enter. unfold values. call_reads 13%nat (fun l a => exists vs : list buffer, vs ≡ₚ (flat l).*2 /\ a = list_answer vs) (name, tt).
  - exists (map_to_list (entries M)). eexists. split_and!; [done | by eexists|]. apply answerable_list, Forall_fmap.
    eapply Forall_impl; [by eapply flat_valid|]. by intros ? [].
  - intros l l' a Hl (vs & Hvs & ->). exists vs. split; [by rewrite Hvs, Hl | done].
  - intros l a reply Hl (vs & Hvs & ->) Hrep. decode_as KList MultiMapValuesCodec_decodeResponse Hrep.
    apply (all_outcome Values); [done | done|]. split; [|done]. exists vs. split; [by rewrite Hvs, Hl | done].
Qed.

Lemma mm_entrySet_refined : refined EntrySet.
Proof.
  enter. unfold entrySet. call_reads 14%nat (fun l a => exists es, es ≡ₚ flat l /\ a = entries_answer es) (name, tt).
  - exists (map_to_list (entries M)). eexists. split_and!; [done | by eexists|]. apply answerable_entries. by eapply flat_valid.
  - intros l l' a Hl (es & Hes & ->). exists es. split; [by rewrite Hes, Hl | done].
  - intros l a reply Hl (es & Hes & ->) Hrep. rewrite (decode_param data_entries MultiMapEntrySetCodec_decodeResponse id _ _ ltac:(intros ? ?; reflexivity) Hrep).
    apply (all_outcome EntrySet); [done | done|]. split; [|done]. exists es. split; [by rewrite Hes, Hl | done].
Qed.

Lemma mm_size_refined : refined Size.
Proof.
  enter. unfold size. call_reads 15%nat (fun l a => a = int_answer (Z.of_nat (length (flat l)))) (name, tt).
  - exists (map_to_list (entries M)). eexists. split_and!; [done | done|]. apply answerable_int. unfold in_sint. lia.
  - intros l l' a Hl ->. by rewrite Hl.
  - intros l a reply Hl -> Hrep. decode_as KInt MultiMapSizeCodec_decodeResponse Hrep.
    apply (all_outcome Size); [done | done|]. split; [|done]. by rewrite Hl.
Qed.

Lemma mm_containsValue_refined value : refined (ContainsValue value).
Proof.
  enter. unfold containsValue. data_args.
  call_reads 16%nat (fun l a => a = bool_answer (bool_decide (x ∈ (flat l).*2))) (name, (heap x, tt)).
  - exists (map_to_list (entries M)). eexists. split_and!; [done | done | apply answerable_bool].
  - intros l l' a Hl ->. f_equal. apply bool_decide_ext. by rewrite Hl.
  - intros l a reply Hl -> Hrep. decode_as KBool MultiMapContainsValueCodec_decodeResponse Hrep.
    apply (all_outcome (ContainsValue value)); [done | done|]. cbn. intros. same_data. split; [|done]. eexists. split; [done|].
    unfold id. by rewrite bool_decide_eq_true, Hl, in_flat.
Qed.

(** [clear]: the entries that remain are those of locked keys. *)
Lemma mm_clear_refined : refined Clear.
Proof.
  enter. unfold clear, ignore_answer. call_all 17%nat clear_rel tt (name, tt).
  - exists no_answer, (fun p => mkStore ∅ (locks (s p name))). split; [|apply answerable_none]. split; [done|].
    intros p. split; [done|]. intros k. left. apply lookup_empty.
  - intros a c reply [-> Hc] _. cbn.
    exists (mkStore (map_imap (fun k _ => entries (c (pid k)) !! k) (entries M)) (locks M)). pose proof Hh as [Hs Hv].
    assert (forall k, map_imap (fun k _ => entries (c (pid k)) !! k) (entries M) !! k = entries (c (pid k)) !! k) as Hl.
    { intros k. rewrite map_lookup_imap. destruct (Hc (pid k)) as [_ Hk]. pose proof (held_entries M s (pid k) k Hh) as E.
      rewrite Z.eqb_refl in E. destruct (Hk k) as [->|[_ ->]]; rewrite ?E; by destruct (entries M !! k). }
    assert (forall k, entries (c (pid k)) !! k = None \/ is_Some (locks M !! k) /\ entries (c (pid k)) !! k = entries M !! k) as Hk.
    { intros k. destruct (Hc (pid k)) as [_ Hk]. pose proof (held_slot partitionService name M s k Hh) as E. injection E as E1 E2.
      specialize (Hk k). by rewrite E1, E2 in Hk. }
    split_and!; [|apply all_names_kept|done|].
    + apply (held_all partitionService name M); [done | |].
      * intros p k. cbn. destruct (Hc p) as [El Hcp]. specialize (Hs p k). cbn in Hs. rewrite El, Hl. specialize (Hcp k).
        destruct (Z.eqb_spec p (pid k)) as [->|Hne]; injection Hs as E1 E2; rewrite ?E2; [done|].
        destruct Hcp as [->|[_ ->]]; by rewrite ?E1.
      * intros k. cbn. rewrite Hl. destruct (Hv k) as [E|[Hkv Ho]]; cbn in *.
        -- injection E as E1 E2. left. rewrite E2. destruct (Hk k) as [->|[_ ->]]; by rewrite ?E1.
        -- right. split; [done|]. by destruct (Hk k) as [->|[_ ->]].
    + cbn. split_and!; [done | done | |].
      * apply map_subseteq_spec. intros k l. rewrite Hl. by destruct (Hk k) as [->|[_ ->]].
      * intros k Hn. unfold key_values. cbn. rewrite Hl. destruct (Hk k) as [->|[Hs' _]]; [done|]. rewrite Hn in Hs'. by destruct Hs'.
Qed.

(** *** putAll *)

(** What is stored under a key depends on the pairs of the key only. *)
Lemma put_values_slot b es : forall M k,
  slot k (foldl (put_values b) M es) =
  foldl (fun x e => (of_values (foldl (add_value b) (values_of x.1) e.2), x.2)) (slot k M) (filter (fun e => e.1 = k) es).
Proof.
  induction es as [|[k' l] es IH]; intros M k; [done|]. cbn [foldl]. rewrite IH, filter_cons. cbn [fst].
  unfold put_values. cbn zeta. cbn [fst snd]. destruct (decide (k' = k)) as [->|Hne]; cbn [foldl]; [by rewrite slot_set|].
  by rewrite slot_set_ne.
Qed.

(** The pairs that are sent to a partition. *)
Definition group_at {A} (p : Z) (G : list (Z * list A)) : list A := concat (filter (fun g => g.1 = p) G).*2.

Lemma no_group {A} p (G : list (Z * list A)) : (p ∉ G.*1) -> group_at p G = [].
Proof.
  unfold group_at. induction G as [|[q xs] G IH]; [done|]. cbn [fmap list_fmap fst]. rewrite not_elem_of_cons, filter_cons.
  intros [Hq Hp]. cbn. destruct (decide (q = p)) as [->|]; [done | by apply IH].
Qed.

Lemma group_at_push {A} p q (x : A) G : NoDup G.*1 ->
  NoDup (push_pair q x G).*1 /\ (forall r, r ∈ (push_pair q x G).*1 <-> r = q \/ r ∈ G.*1) /\
  group_at p (push_pair q x G) = group_at p G ++ if decide (q = p) then [x] else [].
Proof.
  induction G as [|[r xs] G IH]; intros Hd; cbn [push_pair fmap list_fmap fst snd] in *.
  - split_and!; [apply NoDup_singleton | intros r; rewrite list_elem_of_singleton, elem_of_nil; tauto |].
    unfold group_at. rewrite filter_cons. cbn. by case_decide.
  - apply NoDup_cons in Hd as [Hr Hd]. destruct (IH Hd) as (Hd' & Hin & E). destruct (Z.eqb_spec q r) as [->|Hne]; cbn [fmap list_fmap fst snd].
    + split_and!; [by constructor | intros r'; rewrite !elem_of_cons; tauto |].
      unfold group_at. rewrite !filter_cons. cbn. destruct (decide (r = p)) as [->|]; [|by rewrite app_nil_r]. cbn.
      fold (group_at p G). by rewrite (no_group p G Hr), !app_nil_r.
    + split_and!; [constructor; [|done] | intros r'; rewrite !elem_of_cons, Hin; tauto |].
      * rewrite Hin. intros [->|?]; done.
      * unfold group_at in *. rewrite !filter_cons. cbn. destruct (decide (r = p)) as [->|]; cbn; [|done].
        by rewrite E, app_assoc.
Qed.

(** The groups of pairs of bytes. *)
Definition heap_pair (e : buffer * list buffer) : HeapData * list HeapData := (heap e.1, heap <$> e.2).
Definition heap_groups (G : list (Z * list (buffer * list buffer))) : list (Z * list (HeapData * list HeapData)) :=
  map (fun g => (g.1, map heap_pair g.2)) G.
Definition groups (l : list (buffer * list buffer)) : list (Z * list (buffer * list buffer)) :=
  foldl (fun G e => push_pair (pid e.1) e G) [] l.

Lemma push_heap p e G : push_pair p (heap_pair e) (heap_groups G) = heap_groups (push_pair p e G).
Proof.
  unfold heap_groups. induction G as [|[q xs] G IH]; cbn; [done|]. destruct (p =? q); cbn; [by rewrite map_app|]. by rewrite IH.
Qed.

Lemma group_data_ok l : forall G, group_data_pairs partitionService (heap_pair <$> l) (heap_groups G) =
  Ok (heap_groups (foldl (fun G e => push_pair (pid e.1) e G) G l)).
Proof.
  induction l as [|e l IH]; intros G; [done|]. cbn [fmap list_fmap group_data_pairs foldl].
  change (heap_pair e).1 with (heap e.1). rewrite (partition_pid _ _ partitions_known). cbn [mbind].
  etransitivity; [|apply IH]. cbn. by rewrite push_heap.
Qed.

Lemma groups_at l p : NoDup (groups l).*1 /\ group_at p (groups l) = filter (fun e => pid e.1 = p) l.
Proof.
  unfold groups. induction l as [|e l IH] using rev_ind; [by split; [constructor|]|]. rewrite foldl_app. cbn [foldl].
  destruct IH as [Hd E]. destruct (group_at_push p (pid e.1) e _ Hd) as (Hd' & _ & E'). split; [done|].
  rewrite E', E, filter_app, filter_cons. done.
Qed.

Lemma serialize_pairs_ok pairs l : Forall2 (fun e b => serializes e.1 b.1 /\ Forall2 serializes e.2 b.2) pairs l ->
  serialize_pairs pairs = Ok (heap_pair <$> l).
Proof.
  induction 1 as [|e b pairs l [(_ & Ek & _) Hv] _ IH]; [done|]. cbn [serialize_pairs].
  assert (serializeList e.2 = Ok (heap <$> b.2)) as ->.
  { clear -Hv. induction Hv as [|x v xs vs (_ & E & _) _ IH]; [done|]. cbn. rewrite E. cbn. by rewrite IH. }
  cbn. rewrite Ek. cbn. rewrite IH. done.
Qed.

(** The requests to the partitions, in whatever order they are served. *)
#[local] Abbreviation put_all := (multi_map_service as_set 18 : Service L (Objects MultiMapStore)).
#[local] Abbreviation put_all_args g := (name, (map heap_pair g.2, tt)).

Lemma raw_heap (l : list (buffer * list buffer)) : raw <$> map heap_pair l = l.
Proof.
  induction l as [|[k vs] l IH]; cbn; [done|]. f_equal; [|apply IH]. unfold raw, bytes. cbn. f_equal.
  rewrite <- list_fmap_compose. apply list_fmap_id.
Qed.

Lemma serves_put_all g t m s a s' : request_ok (sv_format put_all) tt (put_all_args g) m -> t = OnPartition g.1 ->
  serves (multi_map_services as_set) s t (rq_frames m) a s' <->
  a = no_answer /\ s' = set_object g.1 name (foldl (put_values set) (s g.1 name) g.2) s.
Proof.
  intros Hm ->. rewrite (serves_iff (multi_map_services as_set) (multi_map_services_distinct as_set) put_all tt (put_all_args g))
    by (first [done | by apply list_elem_of_lookup_2 with 18%nat]).
  cbn. unfold on_object, on_object_with. split.
  - intros (c & (v & -> & ->) & ->). by rewrite raw_heap.
  - intros [-> ->]. eexists. split; [by exists tt|]. by rewrite raw_heap.
Qed.

Lemma all_served_put_all G calls s replies s' :
  Forall2 (fun g call => call.1 = OnPartition g.1 /\ request_ok (sv_format put_all) tt (put_all_args g) call.2) G calls ->
  NoDup G.*1 -> all_served (multi_map_services as_set) calls s replies s' ->
  (forall p, s' p name = foldl (put_values set) (s p name) (group_at p G)) /\ names_kept name s s'.
Proof.
  intros Hs Hd Hall. revert G Hs Hd.
  induction Hall as [s|l1 t m l2 s a s1 reply rs1 rs2 s' Hserve Hr Hlen Hall IH]; intros G Hs Hd.
  - apply Forall2_nil_inv_r in Hs as ->. by split.
  - apply Forall2_app_inv_r in Hs as (G1 & G2' & HG1 & HG2 & ->).
    apply Forall2_cons_inv_r in HG2 as (g & G2 & [Ht Hm] & HG2 & ->). cbn in Ht, Hm.
    apply (serves_put_all g) in Hserve as [_ ->]; [|done|done].
    rewrite fmap_app in Hd. cbn in Hd. apply NoDup_app in Hd as (Hd1 & Hd12 & Hd2). apply NoDup_cons in Hd2 as [Hg Hd2].
    destruct (IH (G1 ++ G2)) as [En Hn]; [by apply Forall2_app | |].
    { rewrite fmap_app. apply NoDup_app. split_and!; [done | | done]. intros q Hq Hq2. apply (Hd12 q Hq). by right. }
    split.
    + intros p. rewrite En. unfold group_at. rewrite !filter_app, !fmap_app, !concat_app, filter_cons.
      fold (group_at p G1) (group_at p G2). destruct (decide (g.1 = p)) as [<-|Hne].
      * rewrite set_object_same. cbn [fmap list_fmap concat]. fold (group_at g.1 G2).
        rewrite (no_group g.1 G1), (no_group g.1 G2); [|done|intros Hin; apply (Hd12 _ Hin); left]. cbn. by rewrite app_nil_r.
      * rewrite set_object_other by congruence. done.
    + intros p n Hne. rewrite Hn by done. by apply object_names_kept.
Qed.

Lemma put_values_valid b M e : valid_bytes e.1 -> Forall valid_bytes e.2 ->
  (forall k, slot k M = vacant \/ valid_bytes k /\ slot_ok (slot k M)) ->
  forall k, slot k (put_values b M e) = vacant \/ valid_bytes k /\ slot_ok (slot k (put_values b M e)).
Proof.
  intros Hk Hvs Hv k. unfold put_values. cbn zeta. destruct (decide (k = e.1)) as [->|Hne]; [|by rewrite slot_set_ne].
  rewrite slot_set. right. split; [done|]. apply of_values_valid.
  assert (Forall valid_bytes (values_of (slot e.1 M).1)) as Hold.
  { destruct (Hv e.1) as [->|[_ Ho]]; [constructor|]. cbn in *. destruct (entries M !! e.1); [apply Ho | constructor]. }
  revert Hold. generalize (values_of (slot e.1 M).1). induction Hvs as [|v vs Hx _ IH]; intros l Hl; [done|]. cbn.
  by apply IH, add_value_valid.
Qed.

(** The multi-map of all partitions, after them. *)
Lemma put_all_held M s s' l : held M s -> Forall (fun e => valid_bytes e.1 /\ Forall valid_bytes e.2) l ->
  (forall p, s' p name = foldl (put_values set) (s p name) (group_at p (groups l))) ->
  held (foldl (put_values set) M l) s'.
Proof.
  intros Hh Hl Hs'. pose proof Hh as [Hs Hv]. split.
  - intros p k. rewrite Hs', !put_values_slot, (proj2 (groups_at l p)), Hs, list_filter_filter.
    destruct (Z.eqb_spec p (pid k)) as [->|Hne].
    + f_equal. apply list_filter_iff. intros e. split; [by intros [-> _]|]. by intros ->.
    + assert (filter (fun e => e.1 = k /\ pid e.1 = p) l = []) as ->; [|done].
      clear -Hne. induction l as [|e l IH]; [done|]. rewrite filter_cons, decide_False; [done|]. by intros [<- ?].
  - clear -Hv Hl. revert M Hv. induction Hl as [|e l [Hk Hvs] _ IH]; intros M Hv; [done|]. cbn [foldl].
    apply IH. by apply put_values_valid.
Qed.

(** *** The arguments of putAll *)

#[local] Abbreviation serialized_pairs := (Forall2 (fun (e : V * list V) (b : buffer * list buffer) => serializes e.1 b.1 /\ Forall2 serializes e.2 b.2)).
#[local] Abbreviation pairs_are_data := (Forall2 (fun (e : V * list V) (b : buffer * list buffer) => is_data e.1 b.1 /\ Forall2 is_data e.2 b.2)).

Lemma pairs_serialize pairs : Forall (fun e => arg_ok e.1 /\ Forall arg_ok e.2) pairs -> exists l, serialized_pairs pairs l.
Proof.
  induction 1 as [|e pairs [[k Hk] Hvs] _ [l Hl]]; [by exists []|]. destruct (arg_list _ Hvs) as [vs ?].
  exists ((k, vs) :: l). by constructor.
Qed.

Lemma serializes_valid (xs : list V) l : Forall2 serializes xs l -> Forall valid_bytes l.
Proof. induction 1 as [|x b xs l (_ & _ & ?)]; by constructor. Qed.

Lemma pairs_valid pairs l : serialized_pairs pairs l -> Forall (fun e => valid_bytes e.1 /\ Forall valid_bytes e.2) l.
Proof.
  induction 1 as [|e b pairs l [(_ & _ & Hk) Hvs] _ IH]; constructor; [|done]. split; [done | by eapply serializes_valid].
Qed.

Lemma is_data_list (xs : list V) l l' : Forall2 serializes xs l -> Forall2 is_data xs l' -> l' = l.
Proof.
  intros Hl. revert l'. induction Hl as [|x b xs l Hx _ IH]; intros l' Hl'; [by apply Forall2_nil_inv_l in Hl' as ->|].
  apply Forall2_cons_inv_l in Hl' as (b' & l2 & Hb' & Hl2 & ->). same_data. f_equal. by apply IH.
Qed.

Lemma pairs_data pairs l l' : serialized_pairs pairs l -> pairs_are_data pairs l' -> l' = l.
Proof.
  intros Hl. revert l'. induction Hl as [|e [k vs] pairs l [Hk Hvs] _ IH]; intros l' Hl'; [by apply Forall2_nil_inv_l in Hl' as ->|].
  apply Forall2_cons_inv_l in Hl' as ([k' vs'] & l2 & [Hk' Hvs'] & Hl2 & ->). cbn in *. same_data.
  rewrite (is_data_list _ _ _ Hvs Hvs'). f_equal. by apply IH.
Qed.

(** The locks are left. *)
Lemma put_values_locks b l k : forall M, locks (foldl (put_values b) M l) !! k = locks M !! k.
Proof.
  intros M. change (locks (foldl (put_values b) M l) !! k) with (slot k (foldl (put_values b) M l)).2.
  change (locks M !! k) with (slot k M).2. rewrite put_values_slot.
  generalize (slot k M). induction (filter _ l) as [|e es IH]; intros x; [done|]. cbn [foldl]. by rewrite IH.
Qed.

Lemma put_all_outcome pairs l M counter s s' : serialized_pairs pairs l -> references_past M counter ->
  held (foldl (put_values set) M l) s' -> names_kept name s s' -> outcome_ok (PutAll pairs) M counter counter s (Ok tt) s'.
Proof.
  intros Hl Hr Hh Hn. exists (foldl (put_values set) M l). split_and!; [done | done | |].
  - intros k l' Hk. rewrite put_values_locks in Hk. exact (Hr k l' Hk).
  - cbn. intros l' Hl'. split; [done|]. by rewrite (pairs_data pairs l l').
Qed.

Lemma wp_put_all {A} G (g : list frames -> Proxy L A) Q s : NoDup G.*1 ->
  Forall (fun h => Forall (fun e => valid_bytes e.1 /\ Forall valid_bytes e.2) h.2) G ->
  (forall replies s', (forall p, s' p name = foldl (put_values set) (s p name) (group_at p G)) -> names_kept name s s' ->
     wp_mm (g replies) Q s') ->
  wp_mm (invokeOnPartitions (map (fun h => (h.1, MultiMapPutAllCodec_encodeRequest name (map heap_pair h.2))) G) ≫= g) Q s.
Proof.
  intros Hd HG Hg.
  assert (request_conforms (sv_format put_all)) as Hc by exact (Forall_lookup_1 _ _ 18 _ (multi_map_services_conform as_set) eq_refl).
  destruct (encode_all_ok (L := L) (sv_format put_all) (fun _ => tt) (fun h => put_all_args h) G Hc) as (calls & E & Hcalls).
  { eapply Forall_impl; [exact HG|]. intros h Hh. split; [done|]. cbn. split_and!; [done | | done]. apply Forall_fmap.
    eapply Forall_impl; [exact Hh|]. intros e [Hk Hvs]. split; [by apply data_valid_heap | by apply data_valid_list]. }
  unfold invokeOnPartitions.
  change (encode_all (L := L) (map (fun h => (h.1, MultiMapPutAllCodec_encodeRequest name (map heap_pair h.2))) G) = Ok calls) in E.
  rewrite E. cbn [try_ mbind Proxy_bind proxy_bind wp]. split.
  - apply (all_served_exists _ (fun _ => True) calls s I). intros s1 t m _ Hin. apply list_elem_of_lookup in Hin as [i Hi].
    destruct (Forall2_lookup_r _ _ _ _ _ Hcalls Hi) as (h & Hh & Ht & Hm). cbn in Ht, Hm.
    eexists no_answer, _. split; [|split; [apply answerable_none | done]]. by apply (serves_put_all h).
  - intros replies s' Hall. destruct (all_served_put_all G calls s replies s' Hcalls Hd Hall) as [Hs Hn]. by apply Hg.
Qed.

Lemma group_in {A} (Q : A -> Prop) (G : list (Z * list A)) : (forall p, Forall Q (group_at p G)) -> Forall (fun h => Forall Q h.2) G.
Proof.
  intros HG. apply Forall_forall. intros [p xs] Hin. specialize (HG p). unfold group_at in HG. apply Forall_concat in HG.
  rewrite Forall_fmap, Forall_forall in HG. apply (HG (p, xs)). by apply list_elem_of_filter.
Qed.

Lemma mm_putAll_refined pairs : refined (PutAll pairs).
Proof.
  enter. destruct (pairs_serialize pairs Hop) as [l Hl]. pose proof (pairs_valid pairs l Hl) as Hval.
  unfold putAll. destruct pairs as [|e pairs].
  { apply Forall2_nil_inv_l in Hl as ->. by apply (put_all_outcome [] []). }
  rewrite (serialize_pairs_ok _ l Hl), try_ok. pose proof (group_data_ok l []) as Eg. cbn [heap_groups map] in Eg.
  rewrite Eg, try_ok. unfold heap_groups. rewrite map_map. change (foldl _ [] l) with (groups l).
  apply wp_put_all; [by apply (groups_at l 0) | |].
  - apply group_in. intros p. rewrite (proj2 (groups_at l p)). apply Forall_forall. intros h [_ Hin]%list_elem_of_filter.
    rewrite Forall_forall in Hval. by apply Hval.
  - intros replies s' Hs Hn. eapply put_all_outcome; [done | done | | done]. by eapply put_all_held.
Qed.

Lemma multi_map_refined {A} (op : MultiMapOp A) : refined op.
Proof.
  destruct op; eauto using mm_put_refined, mm_get_refined, mm_remove_refined, mm_removeAll_refined, mm_keySet_refined, mm_values_refined,
    mm_entrySet_refined, mm_containsKey_refined, mm_containsValue_refined, mm_containsEntry_refined, mm_size_refined, mm_clear_refined,
    mm_valueCount_refined, mm_isLocked_refined, mm_lock_refined, mm_tryLock_refined, mm_unlock_refined, mm_forceUnlock_refined,
    mm_putAll_refined.
Qed.
End MultiMapRefinement.

(** ** Properties *)

(** C24: the operations of [MultiMapProxy] are those of one multi-map with a lock per key. If the members hold the values and
    the locks of a multi-map [M], each in the partition of its key, and the reference ids of this client's locks were given
    before, then every method with serializable arguments, whose key is not locked by another client where it is written
    ([lock] and [tryLock] without a lease time, which is a negative one, and [unlock] of a lock this client holds),
    settles when its requests are answered, and however they are answered (also those [putAll] sends to several partitions
    at once, in any order) it returns what its contract says about [M], the members hold the multi-map the contract leaves,
    and no other multi-map changes. An acquired lock counts each time, and a release takes one away, because no reference id is
    used again. *)
Theorem multi_map_proxy_refines_multi_map `{Uninit} {L} `{LongLaws L} {V} `{ObjectSerialization V} {A} (as_set : string -> bool)
    (partitionService : PartitionServiceImpl L) (name : string) (op : MultiMapOp A) (M : MultiMapStore) (counter : L)
    (s : Objects MultiMapStore) :
  0 < partitionCount partitionService -> slots_held partitionService name M s -> references_past M counter -> op_ok op M counter ->
  let '(program, counter') := method partitionService name op counter in
  (exists r s', runs (multi_map_services as_set) program s r s') /\
  forall r s', runs (multi_map_services as_set) program s r s' ->
    exists M', slots_held partitionService name M' s' /\ (forall p n, n <> name -> s' p n = s p n) /\
      references_past M' counter' /\ multi_map_spec as_set name op M (long_val counter + 1) r M'.
Proof.
  intros Hc Hh Hr Hop. pose proof (multi_map_refined as_set partitionService name Hc op M s counter Hh Hr Hop) as Hw.
  destruct (method partitionService name op counter) as [program counter']. by apply wp_sound in Hw.
Qed.

(** The listener that is registered gets the events of the key, or of all keys: a message is handed to its function for the type
    of the event, with the objects of the message. *)
Lemma multi_map_event_handled `{Uninit} {L} `{LongLaws L} {V M T} `{ObjectSerialization V} (truthy : V -> bool) (getMember : string -> option M)
    (name : string) (listener : EntryListener V M T) (target : option V) includeValue codec handler (uuid : UUID L) eventType count
    key value oldValue mergingValue k v ov mv message rest :
  addEntryListener name truthy getMember listener target includeValue = Ok (codec, handler) ->
  entry_message (match target with Some key => if truthy key then 134402 else 134658 | None => 134658 end)
    uuid eventType count key value oldValue mergingValue message ->
  toObject key = Ok k -> toObject value = Ok v -> toObject oldValue = Ok ov -> toObject mergingValue = Ok mv ->
  let member := getMember (UUID_toString uuid) in
  handler (message ++ rest) =
    Ok (if eventType =? ADDED then (fun f => f (mkEntryEvent name k v ov mv member)) <$> added listener
        else if eventType =? REMOVED then (fun f => f (mkEntryEvent name k v ov mv member)) <$> removed listener
        else if eventType =? CLEAR_ALL then (fun f => f (mkMapEvent name count member)) <$> mapCleared listener
        else None).
Proof.
  intros Ha Hm Hk Hv Ho Hg member.
  transitivity (entryEventHandler name getMember listener key value oldValue mergingValue eventType (Some uuid) count);
    [|unfold entryEventHandler; by rewrite Hk, Hv, Ho, Hg].
  unfold addEntryListener in Ha. destruct target as [x|]; [destruct (truthy x)|].
  - destruct (toData x); [|done]. injection Ha as <- <-. eapply entry_handled; [|exact Hm]. event_agrees.
  - injection Ha as <- <-. eapply entry_handled; [|exact Hm]. event_agrees.
  - injection Ha as <- <-. eapply entry_handled; [|exact Hm]. event_agrees.
Qed.

(** A listener for a key that is falsy in JavaScript (0, the empty string, false) is registered for all keys. *)
Lemma falsy_key_listens_to_all `{Uninit} {L} `{LongLib L} {V M T} `{ObjectSerialization V} (truthy : V -> bool)
    (getMember : string -> option M) (name : string) (listener : EntryListener V M T) key includeValue :
  truthy key = false ->
  addEntryListener (L := L) name truthy getMember listener (Some key) includeValue =
  addEntryListener name truthy getMember listener None includeValue.
Proof. intros Hk. unfold addEntryListener. by rewrite Hk. Qed.

(** ** Witnesses *)

#[local] Existing Instances bool_serialization demo_uninit.

Definition demo_partitioned : PartitionServiceImpl Int64.t := mkPartitionService (newPartitionTable (L := Int64.t)) 271.
Definition empty_store : MultiMapStore := mkStore ∅ ∅.

Lemma demo_multi_map : slots_held demo_partitioned "m" empty_store (fun _ _ => empty_store).
Proof. split; [|by left]. intros p k. by destruct (p =? pid demo_partitioned k). Qed.

Lemma multi_map_proxy_refines_multi_map_witness :
  exists r s', runs (multi_map_services (fun _ => true))
      (method demo_partitioned "m" (DoLock true (-1)) (long_of_Z 4)).1 (fun _ _ => empty_store) r s' /\
    r = Ok tt /\ slots_held demo_partitioned "m" (mkStore ∅ {[ demo_bytes true := mkLock (Some 1) 1 5 ]}) s'.
Proof.
  pose proof (multi_map_proxy_refines_multi_map (fun _ => true) demo_partitioned "m" (DoLock true (-1)) empty_store (long_of_Z 4)
    (fun _ _ => empty_store)) as HT.
  destruct HT as [(r & s' & Hr) Hall].
  - reflexivity.
  - apply demo_multi_map.
  - intros k l Hl. discriminate Hl.
  - split; [exists (demo_bytes true); split; [apply demo_serializes | reflexivity]|]. split; [lia|]. reflexivity.
  - destruct (Hall r s' Hr) as (M' & Hi & _ & _ & Hs). exists r, s'. split; [exact Hr|].
    destruct (Hs (demo_bytes true) eq_refl) as [-> ->]. split; [reflexivity | exact Hi].
Defined.
