(* ===== verification/ReplicatedMapProxy.v ===== *)
(** * The replicated map

    [ReplicatedMapProxy] of [src/src/proxy/ReplicatedMapProxy.ts]: the requests for a key go to the partition of the key, those
    that read the whole map to the partition of the name, and [clear] and [putAll] to any member.

    Every member has a copy of the map. The owner of the partition of a key has what was last written to the key; the copies
    follow later. So a member keeps, for each partition it owns, the entries of the keys of the partition, and a copy of the whole
    map that may be out of date ([replica]). *)

From stdpp Require Import sorting.
From S2P Require Export Prelude KeyedCore CollectionRequests.

Section ReplicatedMapProxy.
Context `{Uninit} {L : Type} `{LongLib L} {V : Type} `{ObjectSerialization V}.
Context (partitionService : PartitionServiceImpl L) (proxy : PartitionSpecificProxy).

#[local] Abbreviation P := (Proxy L).
#[local] Abbreviation name := (px_name proxy).
#[local] Abbreviation invokeOnKey := (encodeInvokeOnKey partitionService).

Definition put (key value : V) (ttl : long_arg L) : P V :=
  _ ← assertNotNull key; _ ← assertNotNull value;
  valueData ← try_ (toData value);
  keyData ← try_ (toData key);
  clientMessage ← invokeOnKey (ReplicatedMapPutCodec_encodeRequest name keyData valueData ttl) keyData;
  response ← decodeResponse ReplicatedMapPutCodec_decodeResponse clientMessage;
  try_ (toObject response).

Definition clear : P unit := ignore_answer (encodeInvokeOnRandomTarget (ReplicatedMapClearCodec_encodeRequest name)).

Definition get (key : V) : P V :=
  _ ← assertNotNull key;
  keyData ← try_ (toData key);
  clientMessage ← invokeOnKey (ReplicatedMapGetCodec_encodeRequest name keyData) keyData;
  response ← decodeResponse ReplicatedMapGetCodec_decodeResponse clientMessage;
  try_ (toObject response).

Definition containsKey (key : V) : P bool :=
  _ ← assertNotNull key;
  keyData ← try_ (toData key);
  clientMessage ← invokeOnKey (ReplicatedMapContainsKeyCodec_encodeRequest name keyData) keyData;
  decodeResponse ReplicatedMapContainsKeyCodec_decodeResponse clientMessage.

Definition containsValue (value : V) : P bool :=
  _ ← assertNotNull value;
  valueData ← try_ (toData value);
  clientMessage ← encodeInvoke proxy (ReplicatedMapContainsValueCodec_encodeRequest name valueData);
  decodeResponse ReplicatedMapContainsValueCodec_decodeResponse clientMessage.

Definition size : P Z :=
  clientMessage ← encodeInvoke proxy (ReplicatedMapSizeCodec_encodeRequest name);
  decodeResponse ReplicatedMapSizeCodec_decodeResponse clientMessage.

Definition isEmpty : P bool :=
  clientMessage ← encodeInvoke proxy (ReplicatedMapIsEmptyCodec_encodeRequest name);
  decodeResponse ReplicatedMapIsEmptyCodec_decodeResponse clientMessage.

Definition remove (key : V) : P V :=
  _ ← assertNotNull key;
  keyData ← try_ (toData key);
  clientMessage ← invokeOnKey (ReplicatedMapRemoveCodec_encodeRequest name keyData) keyData;
  response ← decodeResponse ReplicatedMapRemoveCodec_decodeResponse clientMessage;
  try_ (toObject response).

Fixpoint serialize_entries (pairs : list (V * V)) : res (list (HeapData * HeapData)) :=
  match pairs with
  | [] => Ok []
  | entry :: pairs =>
      keyData ← toData entry.1;
      valueData ← toData entry.2;
      entries ← serialize_entries pairs;
      Ok ((keyData, valueData) :: entries)
  end.

Definition putAll (pairs : list (V * V)) : P unit :=
  entries ← try_ (serialize_entries pairs);
  ignore_answer (encodeInvokeOnRandomTarget (ReplicatedMapPutAllCodec_encodeRequest name entries)).

Definition keySet : P (list V) :=
  clientMessage ← encodeInvoke proxy (ReplicatedMapKeySetCodec_encodeRequest name);
  response ← decodeResponse ReplicatedMapKeySetCodec_decodeResponse clientMessage;
  try_ (deserializeList response).

(** [sort] with a comparator, which returns a number: a stable sort. *)
Definition not_greater (comparator : V -> V -> Z) (a b : V) : Prop := comparator a b <= 0.
#[global] Instance not_greater_dec comparator : RelDecision (not_greater comparator) := fun a b => Z_le_dec (comparator a b) 0.

Definition values (comparator : option (V -> V -> Z)) : P (LazyList.ReadOnlyLazyList V) :=
  clientMessage ← encodeInvoke proxy (ReplicatedMapValuesCodec_encodeRequest name);
  valuesData ← decodeResponse ReplicatedMapValuesCodec_decodeResponse clientMessage;
  match comparator with
  | Some comparator =>
      desValues ← try_ (deserializeList valuesData);
      mret (map LazyList.IsObject (merge_sort (not_greater comparator) desValues))
  | None => mret (map LazyList.IsData valuesData)
  end.

Definition entrySet : P (list (V * V)) :=
  clientMessage ← encodeInvoke proxy (ReplicatedMapEntrySetCodec_encodeRequest name);
  response ← decodeResponse ReplicatedMapEntrySetCodec_decodeResponse clientMessage;
  try_ (deserializeEntryList response).

(** *** addEntryListenerInternal *)

Definition createEntryListener : ListenerMessageCodec L :=
  mkListenerMessageCodec L
    (fun localOnly => ReplicatedMapAddEntryListenerCodec_encodeRequest name localOnly)
    ReplicatedMapAddEntryListenerCodec_decodeResponse
    (fun listenerId => ReplicatedMapRemoveEntryListenerCodec_encodeRequest name listenerId).
Definition createEntryListenerToKey (keyData : HeapData) : ListenerMessageCodec L :=
  mkListenerMessageCodec L
    (fun localOnly => ReplicatedMapAddEntryListenerToKeyCodec_encodeRequest name keyData localOnly)
    ReplicatedMapAddEntryListenerToKeyCodec_decodeResponse
    (fun listenerId => ReplicatedMapRemoveEntryListenerCodec_encodeRequest name listenerId).
Definition createEntryListenerWithPredicate (predicateData : HeapData) : ListenerMessageCodec L :=
  mkListenerMessageCodec L
    (fun localOnly => ReplicatedMapAddEntryListenerWithPredicateCodec_encodeRequest name predicateData localOnly)
    ReplicatedMapAddEntryListenerWithPredicateCodec_decodeResponse
    (fun listenerId => ReplicatedMapRemoveEntryListenerCodec_encodeRequest name listenerId).
Definition createEntryListenerToKeyWithPredicate (keyData predicateData : HeapData) : ListenerMessageCodec L :=
  mkListenerMessageCodec L
    (fun localOnly => ReplicatedMapAddEntryListenerToKeyWithPredicateCodec_encodeRequest name keyData predicateData localOnly)
    ReplicatedMapAddEntryListenerToKeyWithPredicateCodec_decodeResponse
    (fun listenerId => ReplicatedMapRemoveEntryListenerCodec_encodeRequest name listenerId).

(** The property of the listener an event is for: the two objects from event types to names. *)
Definition entryEventHandler {M T} (getMember : string -> option M) (listener : EntryListener V M T) : EntryHandler L T :=
  fun key value oldValue mergingValue event uuid numberOfAffectedEntries =>
    match uuid with
    | None => Err TypeError
    | Some uuid =>
        let member := getMember (UUID_toString uuid) in
        key ← toObject key;
        value ← toObject value;
        oldValue ← toObject oldValue;
        mergingValue ← toObject mergingValue;
        let entryEvent := mkEntryEvent name key value oldValue mergingValue member in
        let mapEvent := mkMapEvent name numberOfAffectedEntries member in
        let entryEventMethod :=
          if event =? ADDED then added listener else if event =? REMOVED then removed listener
          else if event =? UPDATED then updated listener else if event =? EVICTED then evicted listener else None in
        let mapEventMethod := if event =? CLEAR_ALL then mapCleared listener else None in
        Ok (match entryEventMethod, mapEventMethod with
            | Some f, _ => Some (f entryEvent)
            | None, Some f => Some (f mapEvent)
            | None, None => None
            end)
    end.

(** What is registered with the listener service: the codec, and the handler of its messages. [truthy] is JavaScript's
    conversion of a key to a boolean; predicates are objects, which are truthy. *)
Definition addEntryListenerInternal {M T} (truthy : V -> bool) (getMember : string -> option M) (listener : EntryListener V M T)
    (predicate key : option V) : res (ListenerMessageCodec L * (frames -> res (option T))) :=
  let handler := entryEventHandler getMember listener in
  match (match key with Some key => if truthy key then Some key else None | None => None end), predicate with
  | Some key, Some predicate =>
      keyData ← toData key;
      predicateData ← toData predicate;
      Ok (createEntryListenerToKeyWithPredicate keyData predicateData,
          handle_entry ReplicatedMapAddEntryListenerToKeyWithPredicateCodec_handle handler)
  | Some key, None =>
      keyData ← toData key;
      Ok (createEntryListenerToKey keyData, handle_entry ReplicatedMapAddEntryListenerToKeyCodec_handle handler)
  | None, Some predicate =>
      predicateData ← toData predicate;
      Ok (createEntryListenerWithPredicate predicateData, handle_entry ReplicatedMapAddEntryListenerWithPredicateCodec_handle handler)
  | None, None => Ok (createEntryListener, handle_entry ReplicatedMapAddEntryListenerCodec_handle handler)
  end.

Section Listeners.
Context {M T : Type} (truthy : V -> bool) (getMember : string -> option M) (listener : EntryListener V M T).

Definition addEntryListenerToKeyWithPredicate (key predicate : V) :=
  addEntryListenerInternal truthy getMember listener (Some predicate) (Some key).
Definition addEntryListenerWithPredicate (predicate : V) := addEntryListenerInternal truthy getMember listener (Some predicate) None.
Definition addEntryListenerToKey (key : V) := addEntryListenerInternal truthy getMember listener None (Some key).
Definition addEntryListener := addEntryListenerInternal truthy getMember listener None None.
End Listeners.
End ReplicatedMapProxy.

(** ** The members of replicated maps *)

Record ReplicatedStore := mkReplicated { owned : gmap buffer buffer; replica : gmap buffer buffer }.

#[global] Instance replicated_keyed : Keyed ReplicatedStore (option buffer) := {|
  slot k c := owned c !! k;
  set_slot k x c := mkReplicated (partial_alter (fun _ => x) k (owned c)) (replica c);
  vacant := None;
  slot_ok := option_valid valid_bytes
|}.
#[global] Instance replicated_keyed_laws : KeyedLaws ReplicatedStore (option buffer).
Proof. split; intros; cbn; [apply lookup_partial_alter_eq | by apply lookup_partial_alter_ne]. Qed.

Section ReplicatedMembers.
Context `{Uninit} {L : Type} `{LongLaws L}.
(** The partition the members find for a key. *)
Context (key_partition : buffer -> Z).

Definition owner_rel (kd : kind) (f : option buffer -> member_val kd * option buffer) (x : option buffer) (v : member_val kd) (x' : option buffer)
    : Prop := f x = (v, x').
(** A request that reads the copy of the member. *)
Definition reads_replica (f : gmap buffer buffer -> answer -> Prop) (c : ReplicatedStore) (a : answer) (c' : ReplicatedStore) : Prop :=
  f (replica c) a /\ c' = c.

Definition put_entries (l : list (buffer * buffer)) (m : gmap buffer buffer) : gmap buffer buffer :=
  foldl (fun m e => <[e.1 := e.2]> m) m l.
Definition at_partition (p : Z) (l : list (buffer * buffer)) : list (buffer * buffer) := filter (fun e => key_partition e.1 = p) l.

Definition replicated_services : list (Service L (Objects ReplicatedStore)) := [
  mkService (mkRequestFormat 852224 false [F_long_arg] [param string_codec; param data_codec; param data_codec]
      (fun f p => ReplicatedMapPutCodec_encodeRequest p.1 p.2.1 p.2.2.1 f.1))
    (fun f p => on_object (at_key (owner_rel KData (fun x => (x, Some (bytes p.2.2.1)))) p.2.1) p.1);
  mkService (mkRequestFormat 853504 true [] [param string_codec; param data_codec]
      (fun f p => ReplicatedMapGetCodec_encodeRequest p.1 p.2.1))
    (fun f p => on_object (at_key (owner_rel KData (fun x => (x, x))) p.2.1) p.1);
  mkService (mkRequestFormat 852992 true [] [param string_codec; param data_codec]
      (fun f p => ReplicatedMapContainsKeyCodec_encodeRequest p.1 p.2.1))
    (fun f p => on_object (at_key (owner_rel KBool (fun x => (bool_decide (is_Some x), x))) p.2.1) p.1);
  mkService (mkRequestFormat 853760 false [] [param string_codec; param data_codec]
      (fun f p => ReplicatedMapRemoveCodec_encodeRequest p.1 p.2.1))
    (fun f p => on_object (at_key (owner_rel KData (fun x => (x, None))) p.2.1) p.1);
  mkService (mkRequestFormat 853248 true [] [param string_codec; param data_codec]
      (fun f p => ReplicatedMapContainsValueCodec_encodeRequest p.1 p.2.1))
    (fun f p => on_object_with (reads_replica (fun m a => a = bool_answer (bool_decide (bytes p.2.1 ∈ (map_to_list m).*2)))) p.1);
  mkService (mkRequestFormat 852480 true [] [param string_codec] (fun f p => ReplicatedMapSizeCodec_encodeRequest p.1))
    (fun f p => on_object_with (reads_replica (fun m a => a = int_answer (Z.of_nat (base.size m)))) p.1);
  mkService (mkRequestFormat 852736 true [] [param string_codec] (fun f p => ReplicatedMapIsEmptyCodec_encodeRequest p.1))
    (fun f p => on_object_with (reads_replica (fun m a => a = bool_answer (bool_decide (m = ∅)))) p.1);
  mkService (mkRequestFormat 855808 true [] [param string_codec] (fun f p => ReplicatedMapKeySetCodec_encodeRequest p.1))
    (fun f p => on_object_with (reads_replica (fun m a => exists l, l ≡ₚ (map_to_list m).*1 /\ a = list_answer l)) p.1);
  mkService (mkRequestFormat 856064 true [] [param string_codec] (fun f p => ReplicatedMapValuesCodec_encodeRequest p.1))
    (fun f p => on_object_with (reads_replica (fun m a => exists l, l ≡ₚ (map_to_list m).*2 /\ a = list_answer l)) p.1);
  mkService (mkRequestFormat 856320 true [] [param string_codec] (fun f p => ReplicatedMapEntrySetCodec_encodeRequest p.1))
    (fun f p => on_object_with (reads_replica (fun m a => exists l, l ≡ₚ map_to_list m /\ a = entries_answer l)) p.1);
  mkService (mkRequestFormat 854272 false [] [param string_codec] (fun f p => ReplicatedMapClearCodec_encodeRequest p.1))
    (fun f p => on_all (fun c a c' => a = no_answer /\ c' = fun _ => mkReplicated ∅ ∅) p.1);
  mkService (mkRequestFormat 854016 false [] [param string_codec; param (entry_list_codec (CK := data_codec) (CV := data_codec))]
      (fun f p => ReplicatedMapPutAllCodec_encodeRequest p.1 p.2.1))
    (fun f p => on_all (fun c a c' => a = no_answer /\
       c' = fun q => mkReplicated (put_entries (at_partition q (prod_map bytes bytes <$> p.2.1)) (owned (c q))) (replica (c q))) p.1)
].
Definition replicated_service (n : nat) : Service L (Objects ReplicatedStore) := nth n replicated_services no_service.

Lemma replicated_services_conform : Forall (fun sv => request_conforms (sv_format sv)) replicated_services.
Proof. format_agrees replicated_services. Qed.

Lemma replicated_services_distinct : NoDup (map (fun sv => rf_type (sv_format sv)) replicated_services).
Proof. apply (bool_decide_eq_true_1 _). vm_compute. reflexivity. Qed.
End ReplicatedMembers.

(** ** The contract of a replicated map *)

Section ReplicatedRefinement.
Context `{Uninit} {L : Type} `{LongLaws L} {V : Type} `{ObjectSerialization V}.
Context (partitionService : PartitionServiceImpl L) (proxy : PartitionSpecificProxy).
Context (partitions_known : 0 < partitionCount partitionService).
Implicit Types (M : ReplicatedStore) (s : Objects ReplicatedStore) (k : buffer).

#[local] Abbreviation name := (px_name proxy).
#[local] Abbreviation pid := (pid partitionService).
#[local] Abbreviation services := (replicated_services (L := L) pid).

Inductive ReplicatedMapOp : Type -> Type :=
  | Put (key value : V) (ttl : long_arg L) : ReplicatedMapOp V
  | Get (key : V) : ReplicatedMapOp V
  | ContainsKey (key : V) : ReplicatedMapOp bool
  | Remove (key : V) : ReplicatedMapOp V
  | ContainsValue (value : V) : ReplicatedMapOp bool
  | Size : ReplicatedMapOp Z
  | IsEmpty : ReplicatedMapOp bool
  | KeySet : ReplicatedMapOp (list V)
  | Values (comparator : option (V -> V -> Z)) : ReplicatedMapOp (LazyList.ReadOnlyLazyList V)
  | EntrySet : ReplicatedMapOp (list (V * V))
  | Clear : ReplicatedMapOp unit
  | PutAll (pairs : list (V * V)) : ReplicatedMapOp unit.

Definition method {A} (op : ReplicatedMapOp A) : Proxy L A :=
  match op with
  | Put key value ttl => put partitionService proxy key value ttl
  | Get key => get partitionService proxy key
  | ContainsKey key => containsKey partitionService proxy key
  | Remove key => remove partitionService proxy key
  | ContainsValue value => containsValue proxy value
  | Size => size proxy
  | IsEmpty => isEmpty proxy
  | KeySet => keySet proxy
  | Values comparator => values proxy comparator
  | EntrySet => entrySet proxy
  | Clear => clear proxy
  | PutAll pairs => putAll proxy pairs
  end.

Definition op_ok {A} (op : ReplicatedMapOp A) M : Prop :=
  match op with
  | Put key value ttl => arg_ok key /\ arg_ok value /\ long_arg_valid ttl
  | Get key | ContainsKey key | Remove key => arg_ok key
  | ContainsValue value => arg_ok value
  | Size => Z.of_nat (base.size (replica M)) < 2 ^ 31
  | PutAll pairs => Forall (fun e => arg_ok e.1 /\ arg_ok e.2) pairs
  | _ => True
  end.

(** The members have the entries of [owned M], each in the partition of its key, and the member that is asked about the whole
    map has the copy [replica M]. *)
Record held M s : Prop := {
  rh_slots : slots_held partitionService name M s;
  rh_replica : replica (s (partitionId proxy) name) = replica M;
  rh_valid : map_Forall (fun k v => valid_bytes k /\ valid_bytes v) (replica M)
}.

(** The methods for keys are about the entries of the owners, the others about the copy; they say the same if the copy is up to
    date. *)
Definition replicated_spec {A} (op : ReplicatedMapOp A) M : res A -> ReplicatedStore -> Prop :=
  match op in ReplicatedMapOp A return res A -> ReplicatedStore -> Prop with
  | Put key value _ => fun r M' => forall k v, is_data key k -> is_data value v ->
      r = obj (owned M !! k) /\ M' = mkReplicated (<[k := v]> (owned M)) (replica M)
  | Get key => fun r M' => forall k, is_data key k -> r = obj (owned M !! k) /\ M' = M
  | ContainsKey key => fun r M' => forall k, is_data key k -> r = Ok (bool_decide (is_Some (owned M !! k))) /\ M' = M
  | Remove key => fun r M' => forall k, is_data key k ->
      r = obj (owned M !! k) /\ M' = mkReplicated (delete k (owned M)) (replica M)
  | ContainsValue value => fun r M' => forall v, is_data value v ->
      r = Ok (bool_decide (v ∈ (map_to_list (replica M)).*2)) /\ M' = M
  | Size => fun r M' => r = Ok (Z.of_nat (base.size (replica M))) /\ M' = M
  | IsEmpty => fun r M' => r = Ok (bool_decide (replica M = ∅)) /\ M' = M
  | KeySet => fun r M' => (exists l, l ≡ₚ (map_to_list (replica M)).*1 /\ r = deserializeList (heap <$> l)) /\ M' = M
  | Values None => fun r M' => (exists l, l ≡ₚ (map_to_list (replica M)).*2 /\ r = Ok (map LazyList.IsData (heap <$> l))) /\ M' = M
  | Values (Some comparator) => fun r M' =>
      (exists l, l ≡ₚ (map_to_list (replica M)).*2 /\
         r = (xs ← deserializeList (heap <$> l); Ok (map LazyList.IsObject (merge_sort (not_greater comparator) xs)))) /\ M' = M
  | EntrySet => fun r M' => (exists l, l ≡ₚ map_to_list (replica M) /\ r = deserializeEntryList (prod_map heap heap <$> l)) /\ M' = M
  | Clear => fun r M' => r = Ok tt /\ M' = mkReplicated ∅ ∅
  | PutAll pairs => fun r M' => forall l, Forall2 (fun e b => is_data e.1 b.1 /\ is_data e.2 b.2) pairs l ->
      r = Ok tt /\ M' = mkReplicated (put_entries l (owned M)) (replica M)
  end.

Definition outcome_ok {A} (op : ReplicatedMapOp A) M s (r : res A) s' : Prop :=
  exists M', held M' s' /\ names_kept name s s' /\ replicated_spec op M r M'.

(** ** The methods implement the contract *)

#[local] Abbreviation wp_rep := (wp services).
#[local] Abbreviation refined op := (forall M s, held M s -> op_ok op M -> wp_rep (method op) (outcome_ok op M s) s).

#[local] Ltac enter := intros M s Hh Hop; cbn [method op_ok] in *; destruct_and?.
#[local] Ltac data_args :=
  repeat match goal with H : arg_ok _ |- _ => destruct H as [? H] end;
  repeat match goal with
  | H : serializes ?x _ |- _ =>
      lazymatch goal with
      | _ : toData x = _ |- _ => fail
      | _ => pose proof (proj1 H); pose proof (proj1 (proj2 H)); pose proof (proj2 (proj2 H))
      end
  end;
  unfold assertNotNull;
  repeat match goal with
  | H : isNull _ = false |- _ => rewrite H
  | H : toData _ = Ok _ |- _ => rewrite H
  end; unfold try_; cbn [mbind Proxy_bind proxy_bind].
#[local] Ltac same_data :=
  repeat match goal with
  | H : serializes ?x ?b, H' : is_data ?x ?b' |- _ => pose proof (is_data_inj x b b' H H'); subst b'; clear H'
  end.
#[local] Ltac valid := cbn; unfold in_sint in *; split_and?; try lia; try done; try (by apply data_valid_heap).

Lemma owner_valid M s k : held M s -> option_valid valid_bytes (owned M !! k).
Proof. intros [[_ Hv] _ _]. destruct (Hv k) as [E|[_ Hx]]; [cbn in E; by rewrite E | done]. Qed.

Lemma replica_kept p x k s : replica (set_object p name (set_slot k x (s p name)) s (partitionId proxy) name) = replica (s (partitionId proxy) name).
Proof.
  destruct (decide (p = partitionId proxy)) as [->|Hne]; [by rewrite set_object_same | by rewrite set_object_other by congruence].
Qed.

(** A request for a key. *)
Lemma wp_owner {A : Type} (n : nat) kd (f : option buffer -> member_val kd * option buffer) (op : ReplicatedMapOp A) sv fs p req k
    (g : frames -> Proxy L A) r s M :
  services !! n = Some sv -> rf_encode (sv_format sv) fs p = req -> fvalid _ fs -> pvalid _ p -> valid_bytes k ->
  sv_effect sv (fview _ fs) p = on_object (at_key (owner_rel kd f) (heap k)) name -> held M s ->
  member_ok kd (f (owned M !! k)).1 -> option_valid valid_bytes (f (owned M !! k)).2 ->
  (forall reply, (forall dec, decodes_kind kd dec -> decodeResponse (L := L) dec reply = Done (Ok (client kd (f (owned M !! k)).1))) ->
     g reply = Done r) ->
  replicated_spec op M r (mkReplicated (partial_alter (fun _ => (f (owned M !! k)).2) k (owned M)) (replica M)) ->
  wp_rep (encodeInvokeOnKey partitionService req (heap k) ≫= g) (outcome_ok op M s) s.
Proof.
  intros Hn Er Hf Hp Hk He Hh Hv Hx Hg Hop. pose proof Hh as [Hs Hr Hval].
  eapply (wp_slot services (replicated_services_distinct pid) (replicated_services_conform pid) partitionService name
    partitions_known n kd (owner_rel kd f) sv fs p); [done | done | done | done | done | done | |].
  - eexists _, _. split; [apply surjective_pairing | done].
  - intros v x reply Hrel Hd. unfold owner_rel in Hrel. cbn in Hrel. rewrite Hrel in *. cbn in *. rewrite (Hg reply Hd). cbn.
    exists (set_slot k x M). split_and!; [|apply object_names_kept | done]. split; [|etransitivity; [apply replica_kept | done] | done].
    exact (held_set partitionService name M s k x Hs Hk (or_intror Hx)).
Qed.

(** A request to the member of the name. *)
Lemma wp_replica {A : Type} (n : nat) (f : gmap buffer buffer -> answer -> Prop) (op : ReplicatedMapOp A) sv fs p req (g : frames -> Proxy L A) s M :
  services !! n = Some sv -> rf_encode (sv_format sv) fs p = req -> fvalid _ fs -> pvalid _ p ->
  sv_effect sv (fview _ fs) p = on_object_with (reads_replica f) name -> held M s ->
  (exists a, f (replica M) a /\ answerable a) ->
  (forall a reply, f (replica M) a -> reply_of a reply -> exists r, g reply = Done r /\ replicated_spec op M r M) ->
  wp_rep (encodeInvoke proxy req ≫= g) (outcome_ok op M s) s.
Proof.
  intros Hn Er Hf Hp He Hh (a & Ha & Han) Hg. pose proof Hh as [Hs Hr Hval].
  eapply (wp_object_with services (replicated_services_distinct pid) (replicated_services_conform pid) proxy n (reads_replica f) sv fs p);
    [done | done | done | done | done | |].
  - exists a. eexists. split; [split; [by rewrite Hr | done] | done].
  - intros a' c reply [Ha' ->] Hrep. rewrite Hr in Ha'. destruct (Hg a' reply Ha' Hrep) as (r & -> & Hop). cbn.
    assert (forall p, set_object (partitionId proxy) name (s (partitionId proxy) name) s p name = s p name) as Es.
    { intros q. destruct (decide (q = partitionId proxy)) as [->|]; [apply set_object_same | apply set_object_other; congruence]. }
    exists M. split_and!; [|apply object_names_kept | done]. split; [|by rewrite Es | done].
    destruct Hs as [Hsl Hvl]. split; [|done]. intros q k. by rewrite Es.
Qed.

#[local] Ltac by_owner n kd f fs p k :=
  eapply (wp_owner n kd f _ (replicated_service pid n) fs p _ k);
  [reflexivity | reflexivity | valid | valid | done | reflexivity | eassumption | try done; try (by eapply owner_valid)
  | try done; try (by eapply owner_valid) | | ].
#[local] Ltac by_replica n f p :=
  eapply (wp_replica n f _ (replicated_service pid n) tt p);
  [reflexivity | reflexivity | valid | valid | reflexivity | eassumption | | ].
#[local] Ltac decode d :=
  let reply := fresh "reply" in let Hd := fresh "Hd" in
  let E := fresh in
  intros reply Hd; assert (E := Hd d ltac:(intros ? ?; reflexivity)); cbn [client client_val fst] in E; rewrite E; reflexivity.

Lemma store_same M k : mkReplicated (partial_alter (fun _ => owned M !! k) k (owned M)) (replica M) = M.
Proof. destruct M as [o r]. cbn. by rewrite partial_alter_self. Qed.

Lemma rep_put_refined key value ttl : refined (Put key value ttl).
Proof.
  intros M s Hh ([k Hk] & [v Hv] & Ht). cbn [method]. unfold put. data_args.
  by_owner 0%nat KData (fun x : option buffer => (x, Some v)) (ttl, tt) (name, (heap k, (heap v, tt))) k.
  - decode ReplicatedMapPutCodec_decodeResponse.
  - cbn. intros. by same_data.
Qed.

Lemma rep_get_refined key : refined (Get key).
Proof.
  enter. unfold get. data_args. by_owner 1%nat KData (fun x : option buffer => (x, x)) tt (name, (heap x, tt)) x.
  - decode ReplicatedMapGetCodec_decodeResponse.
  - cbn. intros. same_data. by rewrite store_same.
Qed.

Lemma rep_containsKey_refined key : refined (ContainsKey key).
Proof.
  enter. unfold containsKey. data_args.
  by_owner 2%nat KBool (fun x : option buffer => (bool_decide (is_Some x), x)) tt (name, (heap x, tt)) x.
  - decode ReplicatedMapContainsKeyCodec_decodeResponse.
  - cbn. intros. same_data. by rewrite store_same.
Qed.

Lemma rep_remove_refined key : refined (Remove key).
Proof.
  enter. unfold remove. data_args.
  by_owner 3%nat KData (fun x : option buffer => (x, None : option buffer)) tt (name, (heap x, tt)) x.
  - decode ReplicatedMapRemoveCodec_decodeResponse.
  - cbn. intros. by same_data.
Qed.

(** *** The methods for the whole map *)

#[local] Ltac decode_as kd d Hrep := rewrite (decode_kind kd d _ _ ltac:(intros ? ?; reflexivity) Hrep).

Lemma replica_list M s : held M s -> Forall (fun e => valid_bytes e.1 /\ valid_bytes e.2) (map_to_list (replica M)).
Proof. intros [_ _ Hv]. apply map_Forall_to_list in Hv. eapply Forall_impl; [exact Hv|]. by intros []. Qed.

Lemma rep_containsValue_refined value : refined (ContainsValue value).
Proof.
  enter. unfold containsValue. data_args.
  by_replica 4%nat (fun (m : gmap buffer buffer) a => a = bool_answer (bool_decide (x ∈ (map_to_list m).*2))) (name, (heap x, tt)).
  - eexists. split; [done | apply answerable_bool].
  - intros a rep -> Hrep. decode_as KBool ReplicatedMapContainsValueCodec_decodeResponse Hrep. eexists. split; [done|].
    cbn. intros. by same_data.
Qed.

Lemma rep_size_refined : refined Size.
Proof.
  enter. unfold size. by_replica 5%nat (fun (m : gmap buffer buffer) a => a = int_answer (Z.of_nat (base.size m))) (name, tt).
  - eexists. split; [done|]. apply answerable_int. unfold in_sint. lia.
  - intros a rep -> Hrep. decode_as KInt ReplicatedMapSizeCodec_decodeResponse Hrep. by eexists.
Qed.

Lemma rep_isEmpty_refined : refined IsEmpty.
Proof.
  enter. unfold isEmpty. by_replica 6%nat (fun (m : gmap buffer buffer) a => a = bool_answer (bool_decide (m = ∅))) (name, tt).
  - eexists. split; [done | apply answerable_bool].
  - intros a rep -> Hrep. decode_as KBool ReplicatedMapIsEmptyCodec_decodeResponse Hrep. by eexists.
Qed.

Lemma rep_keySet_refined : refined KeySet.
Proof.
  enter. unfold keySet.
  by_replica 7%nat (fun (m : gmap buffer buffer) a => exists l, l ≡ₚ (map_to_list m).*1 /\ a = list_answer l) (name, tt).
  - eexists. split; [by eexists|]. apply answerable_list, Forall_fmap. eapply Forall_impl; [by eapply replica_list|]. by intros ? [].
  - intros a rep (l & Hl & ->) Hrep. decode_as KList ReplicatedMapKeySetCodec_decodeResponse Hrep. eexists. split; [done|].
    split; [by exists l | done].
Qed.

Lemma rep_values_refined comparator : refined (Values comparator).
Proof.
  enter. unfold values.
  by_replica 8%nat (fun (m : gmap buffer buffer) a => exists l, l ≡ₚ (map_to_list m).*2 /\ a = list_answer l) (name, tt).
  - eexists. split; [by eexists|]. apply answerable_list, Forall_fmap. eapply Forall_impl; [by eapply replica_list|]. by intros ? [].
  - intros a rep (l & Hl & ->) Hrep. decode_as KList ReplicatedMapValuesCodec_decodeResponse Hrep.
    destruct comparator as [comparator|]; cbn [mbind Proxy_bind proxy_bind client].
    + exists (xs ← deserializeList (heap <$> l); Ok (map LazyList.IsObject (merge_sort (not_greater comparator) xs))). split.
      * by destruct (deserializeList (heap <$> l)).
      * split; [by exists l | done].
    + eexists. split; [done|]. split; [by exists l | done].
Qed.

Lemma rep_entrySet_refined : refined EntrySet.
Proof.
  enter. unfold entrySet.
  by_replica 9%nat (fun (m : gmap buffer buffer) a => exists l, l ≡ₚ map_to_list m /\ a = entries_answer l) (name, tt).
  - eexists. split; [by eexists|]. apply answerable_entries. by eapply replica_list.
  - intros a rep (l & Hl & ->) Hrep.
    rewrite (decode_param (reply (entry_list_codec (CK := data_codec) (CV := data_codec))) ReplicatedMapEntrySetCodec_decodeResponse id
      _ _ ltac:(intros ? ?; reflexivity) Hrep). eexists. split; [done|]. split; [by exists l | done].
Qed.

(** *** Requests to any member *)

#[local] Ltac call_all n rel p :=
  eapply (wp_all services (replicated_services_distinct pid) (replicated_services_conform pid) name n rel
    (replicated_service pid n) tt p);
  [reflexivity | reflexivity | valid | valid | reflexivity | |].

Lemma rep_clear_refined : refined Clear.
Proof.
  enter. unfold clear, ignore_answer.
  call_all 10%nat (fun (c : Z -> ReplicatedStore) a c' => a = no_answer /\ c' = fun _ : Z => mkReplicated ∅ ∅) (name, tt).
  - eexists _, _. split; [done | apply answerable_none].
  - intros a c rep [-> ->] _. cbn. exists (mkReplicated ∅ ∅). split_and!; [|apply all_names_kept | done].
    split; [| by rewrite set_all_same | done]. eapply held_all; [by apply Hh | |].
    + intros p k. cbn. rewrite lookup_empty. by destruct (p =? pid k).
    + intros k. by left.
Qed.

Lemma put_entries_lookup (l : list (buffer * buffer)) k : forall m,
  put_entries l m !! k = foldl (fun _ e => Some e.2) (m !! k) (filter (fun e => e.1 = k) l).
Proof.
  unfold put_entries. induction l as [|[k' v] l IH]; intros m; [done|]. cbn [foldl fst snd]. rewrite IH, filter_cons. cbn [fst].
  destruct (decide (k' = k)) as [->|Hne]; cbn [foldl snd]; [by rewrite lookup_insert_eq | by rewrite lookup_insert_ne].
Qed.

(** The pairs of a partition set the entries of the keys of the partition. *)
Lemma put_entries_at p l m k :
  put_entries (at_partition pid p l) m !! k = if p =? pid k then put_entries l m !! k else m !! k.
Proof.
  rewrite !put_entries_lookup. unfold at_partition. rewrite list_filter_filter. destruct (Z.eqb_spec p (pid k)) as [->|Hne].
  - f_equal. apply list_filter_iff. intros e. split; [by intros [-> _]|]. by intros ->.
  - assert (filter (fun e => e.1 = k /\ pid e.1 = p) l = []) as ->; [|done].
    induction l as [|e l IH]; [done|]. rewrite filter_cons, decide_False; [done|]. by intros [<- ?].
Qed.

Lemma entries_serialize (pairs : list (V * V)) : Forall (fun e => arg_ok e.1 /\ arg_ok e.2) pairs ->
  exists l, Forall2 (fun e b => serializes e.1 b.1 /\ serializes e.2 b.2) pairs l /\
    serialize_entries pairs = Ok (prod_map heap heap <$> l) /\ Forall (fun e => valid_bytes e.1 /\ valid_bytes e.2) l.
Proof.
  induction 1 as [|e pairs [[k (Nk & Ek & Hk)] [v (Nv & Ev & Hv)]] _ (l & Hl & E & Hval)]; [by exists []|].
  exists ((k, v) :: l). cbn. rewrite Ek. cbn. rewrite Ev. cbn. rewrite E. split_and!; [by constructor | done | by constructor].
Qed.

Lemma entries_data (pairs : list (V * V)) l l' : Forall2 (fun e b => serializes e.1 b.1 /\ serializes e.2 b.2) pairs l ->
  Forall2 (fun e b => is_data e.1 b.1 /\ is_data e.2 b.2) pairs l' -> l' = l.
Proof.
  intros Hl. revert l'. induction Hl as [|e [k v] pairs l [Hk Hv] _ IH]; intros l' Hl'; [by apply Forall2_nil_inv_l in Hl' as ->|].
  apply Forall2_cons_inv_l in Hl' as ([k' v'] & l2 & [Hk' Hv'] & Hl2 & ->). cbn in *. same_data. f_equal. by apply IH.
Qed.

Lemma put_entries_valid l : forall m k, Forall (fun e => valid_bytes e.1 /\ valid_bytes e.2) l ->
  (m !! k = None \/ valid_bytes k /\ option_valid valid_bytes (m !! k)) ->
  put_entries l m !! k = None \/ valid_bytes k /\ option_valid valid_bytes (put_entries l m !! k).
Proof.
  unfold put_entries. induction l as [|[k' v] l IH]; intros m k Hl Hm; [done|]. apply Forall_cons in Hl as [[Hk Hv] Hl].
  apply IH; [done|]. cbn in *. destruct (decide (k = k')) as [->|Hne]; [rewrite lookup_insert_eq; by right | by rewrite lookup_insert_ne].
Qed.

Lemma entries_bytes (l : list (buffer * buffer)) : prod_map bytes bytes <$> (prod_map heap heap <$> l) = l.
Proof. induction l as [|[k v] l IH]; [done|]. cbn. by f_equal. Qed.

Lemma rep_putAll_refined pairs : refined (PutAll pairs).
Proof.
  enter. destruct (entries_serialize pairs Hop) as (l & Hl & E & Hval). unfold putAll. rewrite E, try_ok. unfold ignore_answer.
  call_all 11%nat (fun (c : Z -> ReplicatedStore) a c' => a = no_answer /\ c' = fun q : Z =>
      mkReplicated (put_entries (at_partition pid q (prod_map bytes bytes <$> (prod_map heap heap <$> l))) (owned (c q))) (replica (c q)))
    (name, (prod_map heap heap <$> l, tt)).
  - apply Forall_fmap. eapply Forall_impl; [exact Hval|]. intros e [? ?]. split; by apply data_valid_heap.
  - eexists _, _. split; [done | apply answerable_none].
  - intros a c rep [-> ->] _. rewrite entries_bytes. cbn.
    pose proof Hh as [[Hs Hv] Hr Hrv]. exists (mkReplicated (put_entries l (owned M)) (replica M)).
    split_and!; [|apply all_names_kept|].
    + split; [|by rewrite set_all_same | done]. eapply held_all; [by apply Hh | |].
      * intros p k. cbn. rewrite put_entries_at. pose proof (Hs p k) as Ek. cbn in Ek.
        destruct (p =? pid k); [|done]. by rewrite !put_entries_lookup, Ek.
      * intros k. apply put_entries_valid; [done | apply Hv].
    + cbn. intros l' Hl'. by rewrite (entries_data pairs l l').
Qed.

Lemma replicated_refined {A} (op : ReplicatedMapOp A) : refined op.
Proof.
  destruct op; eauto using rep_put_refined, rep_get_refined, rep_containsKey_refined, rep_remove_refined, rep_containsValue_refined,
    rep_size_refined, rep_isEmpty_refined, rep_keySet_refined, rep_values_refined, rep_entrySet_refined, rep_clear_refined,
    rep_putAll_refined.
Qed.
End ReplicatedRefinement.

(** ** Properties *)

(** The operations of [ReplicatedMapProxy] are those of a replicated map. If the members hold the entries of [owned M], each in
    the partition of its key, and the member of the name has the copy [replica M], then every method with serializable
    arguments settles when its request is answered, returns what its contract says about [M] (a method for a key about the
    entries of the owners, the others about the copy), the members hold the map the contract leaves, and no other map
    changes. *)
Theorem replicated_map_proxy_refines_map `{Uninit} {L} `{LongLaws L} {V} `{ObjectSerialization V} {A}
    (partitionService : PartitionServiceImpl L) (proxy : PartitionSpecificProxy) (op : ReplicatedMapOp A) (M : ReplicatedStore)
    (s : Objects ReplicatedStore) :
  0 < partitionCount partitionService -> held partitionService proxy M s -> op_ok op M ->
  (exists r s', runs (replicated_services (pid partitionService)) (method partitionService proxy op) s r s') /\
  forall r s', runs (replicated_services (pid partitionService)) (method partitionService proxy op) s r s' ->
    exists M', held partitionService proxy M' s' /\ (forall p n, n <> px_name proxy -> s' p n = s p n) /\ replicated_spec op M r M'.
Proof. intros Hc Hh Hop. apply wp_sound. by apply replicated_refined. Qed.

(** [values] with a comparator that is a total order returns the values in this order. *)
Lemma values_sorted {V} (comparator : V -> V -> Z) (xs : list V) :
  Total (not_greater comparator) -> Transitive (not_greater comparator) ->
  StronglySorted (not_greater comparator) (merge_sort (not_greater comparator) xs) /\ merge_sort (not_greater comparator) xs ≡ₚ xs.
Proof.
  intros Ht Htr. split; [by apply StronglySorted_merge_sort | apply merge_sort_Permutation].
Qed.

(** The message type of the events of a listener. *)
Definition event_type {V} (truthy : V -> bool) (predicate key : option V) : Z :=
  match key, predicate with
  | Some key, Some _ => if truthy key then 854530 else 854786
  | Some key, None => if truthy key then 855042 else 855298
  | None, Some _ => 854786
  | None, None => 855298
  end.

(** The listener that is registered gets the events: a message is handed to its function for the type of the event, with the
    objects of the message. *)
Lemma replicated_event_handled `{Uninit} {L} `{LongLaws L} {V M T} `{ObjectSerialization V} (truthy : V -> bool) (getMember : string -> option M)
    (proxy : PartitionSpecificProxy) (listener : EntryListener V M T) (predicate target : option V) codec handler (uuid : UUID L)
    eventType count key value oldValue mergingValue k v ov mv message rest :
  addEntryListenerInternal proxy truthy getMember listener predicate target = Ok (codec, handler) ->
  entry_message (event_type truthy predicate target) uuid eventType count key value oldValue mergingValue message ->
  toObject key = Ok k -> toObject value = Ok v -> toObject oldValue = Ok ov -> toObject mergingValue = Ok mv ->
  let member := getMember (UUID_toString uuid) in
  let event := mkEntryEvent (px_name proxy) k v ov mv member in
  handler (message ++ rest) =
    Ok (if eventType =? ADDED then (fun f => f event) <$> added listener
        else if eventType =? REMOVED then (fun f => f event) <$> removed listener
        else if eventType =? UPDATED then (fun f => f event) <$> updated listener
        else if eventType =? EVICTED then (fun f => f event) <$> evicted listener
        else if eventType =? CLEAR_ALL then (fun f => f (mkMapEvent (px_name proxy) count member)) <$> mapCleared listener
        else None).
Proof.
  intros Ha Hm Hk Hv Ho Hg member event. transitivity (entryEventHandler proxy getMember listener key value oldValue mergingValue eventType (Some uuid) count).
  - unfold addEntryListenerInternal, event_type in *.
    destruct target as [x|], predicate as [y|]; try destruct (truthy x);
      repeat match type of Ha with context [toData ?z] => destruct (toData z); [|done]; cbn in Ha end; injection Ha as <- <-;
      (eapply entry_handled; [|exact Hm]); event_agrees.
  - unfold entryEventHandler. rewrite Hk, Hv, Ho, Hg. cbn. fold member event. unfold ADDED, REMOVED, UPDATED, EVICTED, CLEAR_ALL.
    repeat match goal with |- context [eventType =? ?n] => destruct (Z.eqb_spec eventType n); subst end; cbn; try lia;
      repeat case_match; simplify_eq; done.
Qed.

(** A listener for a key that is falsy in JavaScript (0, the empty string, false) is registered for the entries of all keys. *)
Lemma falsy_key_of_replicated_map `{Uninit} {L} `{LongLib L} {V M T} `{ObjectSerialization V} (truthy : V -> bool)
    (getMember : string -> option M) (proxy : PartitionSpecificProxy) (listener : EntryListener V M T) key :
  truthy key = false ->
  addEntryListenerToKey (L := L) proxy truthy getMember listener key = addEntryListener proxy truthy getMember listener.
Proof. intros Hk. unfold addEntryListenerToKey, addEntryListener, addEntryListenerInternal. by rewrite Hk. Qed.

(** ** Witnesses *)

#[local] Existing Instances bool_serialization demo_uninit.

Definition demo_replicated : PartitionServiceImpl Int64.t := mkPartitionService (newPartitionTable (L := Int64.t)) 271.
Definition empty_replicated : ReplicatedStore := mkReplicated ∅ ∅.

Lemma demo_replicated_held : held demo_replicated demo_proxy empty_replicated (fun _ _ => empty_replicated).
Proof. split; [|done|done]. split; [|by left]. intros p k. cbn. rewrite lookup_empty. by destruct (p =? pid demo_replicated k). Qed.

Lemma replicated_map_proxy_refines_map_witness :
  exists r s', runs (replicated_services (pid demo_replicated)) (method demo_replicated demo_proxy (Put true false (IsNumber 0)))
      (fun _ _ => empty_replicated) r s' /\
    r = Ok false /\ held demo_replicated demo_proxy (mkReplicated {[ demo_bytes true := demo_bytes false ]} ∅) s'.
Proof.
  destruct (replicated_map_proxy_refines_map demo_replicated demo_proxy (Put true false (IsNumber 0)) empty_replicated
    (fun _ _ => empty_replicated)) as [(r & s' & Hr) Hall].
  - reflexivity.
  - apply demo_replicated_held.
  - split; [exists (demo_bytes true); apply demo_serializes|]. split; [exists (demo_bytes false); apply demo_serializes|]. cbn. unfold in_sint. lia.
  - destruct (Hall r s' Hr) as (M' & Hi & _ & Hs). exists r, s'. split; [exact Hr|].
    destruct (Hs (demo_bytes true) (demo_bytes false) eq_refl eq_refl) as [-> ->]. split; [reflexivity | exact Hi].
Defined.
