(* ===== verification/Ringbuffer.v ===== *)
(** * Ringbuffers

    [RingbufferProxy] and [LazyReadResultSet] of [src/src/proxy/ringbuffer/], the members that keep ringbuffers, and the contract
    of [src/src/proxy/Ringbuffer.ts]. *)

From S2P Require Export Prelude CollectionCore CollectionRequests.

(** ** The ringbuffer of the members *)

(** [src/src/proxy/OverflowPolicy.ts]. *)
Inductive OverflowPolicy := OVERWRITE | FAIL.
Definition overflowPolicyToId (type : OverflowPolicy) : Z := match type with OVERWRITE => 0 | FAIL => 1 end.

(** Every item that was ever added, at its sequence; the items before [rb_head] are gone. *)
Record Ring {A : Type} := mkRing { rb_written : list A; rb_head : nat; rb_capacity : nat; rb_ttl : bool }.
Arguments Ring A : clear implicits.
Arguments mkRing {A}.
Arguments rb_written {A}.
Arguments rb_head {A}.
Arguments rb_capacity {A}.
Arguments rb_ttl {A}.

Section Ring.
Context {A : Type}.
Implicit Types r : Ring A.

Definition rb_next r : nat := length (rb_written r).
Definition rb_tail r : Z := Z.of_nat (rb_next r) - 1.
Definition rb_size r : nat := rb_next r - rb_head r.
(** Items may be overwritten only if they have no time to live. *)
Definition rb_remaining r : nat := if rb_ttl r then rb_capacity r - rb_size r else rb_capacity r.

Definition rb_push (x : A) r : Ring A :=
  mkRing (rb_written r ++ [x]) (Nat.max (rb_head r) (S (rb_next r) - rb_capacity r)) (rb_capacity r) (rb_ttl r).
(** The sequence of the item, or [-1]. *)
Definition rb_add (policyId : Z) (x : A) r : Z * Ring A :=
  if (policyId =? overflowPolicyToId FAIL) && (rb_remaining r <? 1)%nat then (-1, r) else (Z.of_nat (rb_next r), rb_push x r).
Definition rb_addAll (policyId : Z) (xs : list A) r : Z * Ring A :=
  if (policyId =? overflowPolicyToId FAIL) && (rb_remaining r <? length xs)%nat then (-1, r)
  else let r' := foldl (fun r x => rb_push x r) r xs in (rb_tail r', r').

(** Where a read that starts at a sequence begins, and the items it gets. *)
Definition rb_start (sequence : Z) r : nat := Nat.min (Nat.max (Z.to_nat sequence) (rb_head r)) (rb_next r).
Definition rb_read (start : nat) (maxCount : Z) r : list A := take (Z.to_nat maxCount) (drop start (rb_written r)).

Record rb_wf r : Prop := {
  wf_head : (rb_head r <= rb_next r)%nat;
  wf_size : (rb_size r <= rb_capacity r)%nat;
  wf_capacity : (0 < rb_capacity r)%nat
}.

Lemma rb_push_wf x r : rb_wf r -> rb_wf (rb_push x r).
Proof. intros [H1 H2 H3]. unfold rb_size, rb_next in *. split; unfold rb_push, rb_size, rb_next; cbn; rewrite ?length_app; cbn; lia. Qed.

Lemma rb_add_wf p x r : rb_wf r -> rb_wf (rb_add p x r).2.
Proof. intros Hr. unfold rb_add. destruct (_ && _); [done | by apply rb_push_wf]. Qed.

Lemma rb_pushes_wf xs : forall r, rb_wf r -> rb_wf (foldl (fun r x => rb_push x r) r xs).
Proof. induction xs as [|x xs IH]; intros r Hr; [done|]. cbn. by apply IH, rb_push_wf. Qed.

Lemma rb_start_range n r : rb_wf r -> (rb_head r <= rb_start n r <= rb_next r)%nat.
Proof. intros [H1 _ _]. unfold rb_start. lia. Qed.
End Ring.

(** ** LazyReadResultSet *)

Section LazyReadResultSet.
Context {L V : Type} `{ObjectSerialization V}.

Record LazyReadResultSet := mkLazyReadResultSet {
  readCount : Z;
  rs_items : list (LazyList.element V);
  itemSeqs : option (list L);
  nextSeq : L
}.

Definition rs_get (index : nat) (rs : LazyReadResultSet) : res (option V * LazyReadResultSet) :=
  '(v, items) ← LazyList.get index (rs_items rs);
  Ok (v, mkLazyReadResultSet (readCount rs) items (itemSeqs rs) (nextSeq rs)).
(** [itemSeqs] may be missing. *)
Definition getSequence (index : nat) (rs : LazyReadResultSet) : res (option L) :=
  match itemSeqs rs with Some seqs => Ok (seqs !! index) | None => Err TypeError end.
Definition rs_size (rs : LazyReadResultSet) : nat := length (rs_items rs).
End LazyReadResultSet.
Arguments LazyReadResultSet L V : clear implicits.

(** ** RingbufferProxy *)

Section RingbufferProxy.
Context `{Uninit} {L : Type} `{LongLib L} {V : Type} `{ObjectSerialization V}.
Context (proxy : PartitionSpecificProxy).

#[local] Abbreviation P := (Proxy L).
#[local] Abbreviation name := (px_name proxy).

Definition MAX_BATCH_SIZE : Z := 1000.

Definition capacity : P L :=
  clientMessage ← encodeInvoke proxy (RingbufferCapacityCodec_encodeRequest name);
  decodeResponse RingbufferCapacityCodec_decodeResponse clientMessage.

Definition size : P L :=
  clientMessage ← encodeInvoke proxy (RingbufferSizeCodec_encodeRequest name);
  decodeResponse RingbufferSizeCodec_decodeResponse clientMessage.

Definition tailSequence : P L :=
  clientMessage ← encodeInvoke proxy (RingbufferTailSequenceCodec_encodeRequest name);
  decodeResponse RingbufferTailSequenceCodec_decodeResponse clientMessage.

Definition headSequence : P L :=
  clientMessage ← encodeInvoke proxy (RingbufferHeadSequenceCodec_encodeRequest name);
  decodeResponse RingbufferHeadSequenceCodec_decodeResponse clientMessage.

Definition remainingCapacity : P L :=
  clientMessage ← encodeInvoke proxy (RingbufferRemainingCapacityCodec_encodeRequest name);
  decodeResponse RingbufferRemainingCapacityCodec_decodeResponse clientMessage.

Definition add (item : V) (overflowPolicy : OverflowPolicy) : P L :=
  let policyId := overflowPolicyToId overflowPolicy in
  itemData ← try_ (toData item);
  clientMessage ← encodeInvoke proxy (RingbufferAddCodec_encodeRequest name policyId itemData);
  decodeResponse RingbufferAddCodec_decodeResponse clientMessage.

Definition addAll (items : list V) (overflowPolicy : OverflowPolicy) : P L :=
  let policyId := overflowPolicyToId overflowPolicy in
  dataList ← try_ (serializeList items);
  clientMessage ← encodeInvoke proxy (RingbufferAddAllCodec_encodeRequest name dataList policyId);
  decodeResponse RingbufferAddAllCodec_decodeResponse clientMessage.

(** [Long.fromValue(sequence).lessThan(0)]. *)
Definition negative (sequence : long_arg L) : bool :=
  long_ltb (match sequence with IsLong l => l | IsNumber z => long_of_Z z end) (long_of_Z 0).

Definition readOne (sequence : long_arg L) : P V :=
  if negative sequence then try_ (Err RangeError)
  else
    clientMessage ← encodeInvoke proxy (RingbufferReadOneCodec_encodeRequest name sequence);
    response ← decodeResponse RingbufferReadOneCodec_decodeResponse clientMessage;
    try_ (toObject response).

(** The filter is given serialized; [null] is serialized to [null]. *)
Definition readMany (startSequence : long_arg L) (minCount maxCount : Z) (filter : option V) : P (LazyReadResultSet L V) :=
  if negative startSequence then try_ (Err RangeError)
  else if minCount <? 0 then try_ (Err RangeError)
  else if maxCount <? minCount then try_ (Err RangeError)
  else if MAX_BATCH_SIZE <? maxCount then try_ (Err RangeError)
  else
    filterData ← try_ (match filter with Some filter => d ← toData filter; Ok (Some d) | None => Ok None end);
    clientMessage ← encodeInvoke proxy (RingbufferReadManyCodec_encodeRequest name startSequence minCount maxCount filterData);
    response ← decodeResponse RingbufferReadManyCodec_decodeResponse clientMessage;
    mret (mkLazyReadResultSet (RingbufferReadMany_readCount response) (map LazyList.IsData (RingbufferReadMany_items response))
      (RingbufferReadMany_itemSeqs response) (RingbufferReadMany_nextSeq response)).
End RingbufferProxy.

(** ** The members of ringbuffers *)

Section RingMembers.
Context `{Uninit} {L : Type} `{LongLaws L}.

Definition long_answer (z : Z) : answer := answer_field (F_long (L := L)) (long_of_Z z).
Definition seqs_from (start count : nat) : list L := map (fun i => long_of_Z (Z.of_nat i)) (seq start count).
Definition read_answer (start : nat) (l : list buffer) : answer :=
  mkAnswer [F_int; F_long (L := L)] [reply (list_codec data_codec); reply (nullable_codec (list_long_codec (L := L)))]
    (Z.of_nat (length l), (long_of_Z (Z.of_nat (start + length l)), tt))
    (heap <$> l, (Some (seqs_from start (length l)), tt)).

Definition ring_reads (f : Ring buffer -> Z) (r : Ring buffer) (a : answer) (r' : Ring buffer) : Prop :=
  a = long_answer (f r) /\ r' = r.
Definition ring_writes (f : Ring buffer -> Z * Ring buffer) (r : Ring buffer) (a : answer) (r' : Ring buffer) : Prop :=
  a = long_answer (f r).1 /\ r' = (f r).2.

(** A read waits until there are enough items. Filters are functions of the members and not modelled. *)
Definition ring_services : list (Service L (Objects (Ring buffer))) := [
  mkService (mkRequestFormat 1508352 true [] [param string_codec] (fun f p => RingbufferCapacityCodec_encodeRequest p.1))
    (fun f p => on_object_with (ring_reads (fun r => Z.of_nat (rb_capacity r))) p.1);
  mkService (mkRequestFormat 1507584 true [] [param string_codec] (fun f p => RingbufferSizeCodec_encodeRequest p.1))
    (fun f p => on_object_with (ring_reads (fun r => Z.of_nat (rb_size r))) p.1);
  mkService (mkRequestFormat 1507840 true [] [param string_codec] (fun f p => RingbufferTailSequenceCodec_encodeRequest p.1))
    (fun f p => on_object_with (ring_reads rb_tail) p.1);
  mkService (mkRequestFormat 1508096 true [] [param string_codec] (fun f p => RingbufferHeadSequenceCodec_encodeRequest p.1))
    (fun f p => on_object_with (ring_reads (fun r => Z.of_nat (rb_head r))) p.1);
  mkService (mkRequestFormat 1508608 true [] [param string_codec] (fun f p => RingbufferRemainingCapacityCodec_encodeRequest p.1))
    (fun f p => on_object_with (ring_reads (fun r => Z.of_nat (rb_remaining r))) p.1);
  mkService (mkRequestFormat 1508864 false [F_int] [param string_codec; param data_codec]
      (fun f p => RingbufferAddCodec_encodeRequest p.1 f.1 p.2.1))
    (fun f p => on_object_with (ring_writes (rb_add f.1 (bytes p.2.1))) p.1);
  mkService (mkRequestFormat 1509376 false [F_int] [param string_codec; param (list_codec data_codec)]
      (fun f p => RingbufferAddAllCodec_encodeRequest p.1 p.2.1 f.1))
    (fun f p => on_object_with (ring_writes (rb_addAll f.1 (bytes <$> p.2.1))) p.1);
  mkService (mkRequestFormat 1509120 true [F_long_arg] [param string_codec]
      (fun f p => RingbufferReadOneCodec_encodeRequest p.1 f.1))
    (fun f p => on_object_with (fun r a r' => Z.of_nat (rb_head r) <= f.1 /\
       (exists b, rb_written r !! Z.to_nat f.1 = Some b /\ a = data_answer (Some b)) /\ r' = r) p.1);
  mkService (mkRequestFormat 1509632 true [F_long_arg; F_int; F_int] [param string_codec; param (nullable_codec data_codec)]
      (fun f p => RingbufferReadManyCodec_encodeRequest p.1 f.1 f.2.1 f.2.2.1 p.2.1))
    (fun f p => on_object_with (fun r a r' => p.2.1 = None /\ r' = r /\
       let start := rb_start f.1 r in
       let l := rb_read start f.2.2.1 r in
       f.2.1 <= Z.of_nat (length l) /\ a = read_answer start l) p.1)
].
Definition ring_service (n : nat) : Service L (Objects (Ring buffer)) := nth n ring_services no_service.

Lemma ring_services_conform : Forall (fun sv => request_conforms (sv_format sv)) ring_services.
Proof. format_agrees ring_services. Qed.

Lemma ring_services_distinct : NoDup (map (fun sv => rf_type (sv_format sv)) ring_services).
Proof. apply (bool_decide_eq_true_1 _). vm_compute. reflexivity. Qed.
End RingMembers.

(** ** The contract of a ringbuffer *)

Section RingRefinement.
Context `{Uninit} {L : Type} `{LongLaws L} {V : Type} `{ObjectSerialization V}.
Context (proxy : PartitionSpecificProxy).
Implicit Types (R : Ring V) (s : Objects (Ring buffer)).

Inductive RingOp : Type -> Type :=
  | Capacity : RingOp L
  | Size : RingOp L
  | TailSequence : RingOp L
  | HeadSequence : RingOp L
  | RemainingCapacity : RingOp L
  | Add (item : V) (overflowPolicy : OverflowPolicy) : RingOp L
  | AddAll (items : list V) (overflowPolicy : OverflowPolicy) : RingOp L
  | ReadOne (sequence : long_arg L) : RingOp V
  | ReadMany (startSequence : long_arg L) (minCount maxCount : Z) : RingOp (LazyReadResultSet L V).

Definition method {A} (op : RingOp A) : Proxy L A :=
  match op with
  | Capacity => capacity proxy
  | Size => size proxy
  | TailSequence => tailSequence proxy
  | HeadSequence => headSequence proxy
  | RemainingCapacity => remainingCapacity proxy
  | Add item policy => add proxy item policy
  | AddAll items policy => addAll proxy items policy
  | ReadOne sequence => readOne proxy sequence
  | ReadMany startSequence minCount maxCount => readMany proxy startSequence minCount maxCount None
  end.

Definition bad_range (sequence minCount maxCount : Z) : bool :=
  (sequence <? 0) || (minCount <? 0) || (maxCount <? minCount) || (MAX_BATCH_SIZE <? maxCount).

(** The items can be stored; a read that is not refused is for items that are there. *)
Definition op_ok {A} (op : RingOp A) R : Prop :=
  match op with
  | Add x _ => storable x
  | AddAll xs _ => Forall storable xs
  | ReadOne i => long_arg_valid i /\
      (0 <= long_arg_val i -> Z.of_nat (rb_head R) <= long_arg_val i < Z.of_nat (rb_next R))
  | ReadMany i minCount maxCount => long_arg_valid i /\ Forall (fun x => isNull x = false) (rb_written R) /\
      (bad_range (long_arg_val i) minCount maxCount = false ->
       minCount <= Z.of_nat (length (rb_read (rb_start (long_arg_val i) R) maxCount R)))
  | _ => True
  end.

Definition ring_spec {A} (op : RingOp A) R : res A -> Ring V -> Prop :=
  match op in RingOp A return res A -> Ring V -> Prop with
  | Capacity => fun r R' => r = Ok (long_of_Z (Z.of_nat (rb_capacity R))) /\ R' = R
  | Size => fun r R' => r = Ok (long_of_Z (Z.of_nat (rb_size R))) /\ R' = R
  | TailSequence => fun r R' => r = Ok (long_of_Z (rb_tail R)) /\ R' = R
  | HeadSequence => fun r R' => r = Ok (long_of_Z (Z.of_nat (rb_head R))) /\ R' = R
  | RemainingCapacity => fun r R' => r = Ok (long_of_Z (Z.of_nat (rb_remaining R))) /\ R' = R
  | Add x policy => fun r R' => r = Ok (long_of_Z (rb_add (overflowPolicyToId policy) x R).1) /\
      R' = (rb_add (overflowPolicyToId policy) x R).2
  | AddAll xs policy => fun r R' => r = Ok (long_of_Z (rb_addAll (overflowPolicyToId policy) xs R).1) /\
      R' = (rb_addAll (overflowPolicyToId policy) xs R).2
  | ReadOne i => fun r R' => R' = R /\
      if long_arg_val i <? 0 then r = Err RangeError
      else exists x, rb_written R !! Z.to_nat (long_arg_val i) = Some x /\ r = Ok x
  | ReadMany i minCount maxCount => fun r R' => R' = R /\
      if bad_range (long_arg_val i) minCount maxCount then r = Err RangeError
      else exists items, let start := rb_start (long_arg_val i) R in let xs := rb_read start maxCount R in
        Forall2 LazyList.shows xs items /\
        r = Ok (mkLazyReadResultSet (Z.of_nat (length xs)) items (Some (seqs_from start (length xs)))
              (long_of_Z (Z.of_nat (start + length xs))))
  end.

(** The members hold the bytes of the items. *)
Record ring_stored R (r : Ring buffer) : Prop := {
  rs_written : Forall2 stored (rb_written R) (rb_written r);
  rs_head : rb_head r = rb_head R;
  rs_capacity : rb_capacity r = rb_capacity R;
  rs_ttl : rb_ttl r = rb_ttl R;
  rs_wf : rb_wf R
}.
Definition holds_ring R s : Prop := ring_stored R (s (partitionId proxy) (px_name proxy)).
Definition ring_outcome {A} (op : RingOp A) R s (r : res A) s' : Prop :=
  exists R', holds_ring R' s' /\ (forall p n, (p, n) <> (partitionId proxy, px_name proxy) -> s' p n = s p n) /\
    ring_spec op R r R'.

Lemma ring_updated {A} (op : RingOp A) R s r R' c : ring_stored R' c -> ring_spec op R r R' ->
  ring_outcome op R s r (set_object (partitionId proxy) (px_name proxy) c s).
Proof.
  intros Hc Hs. exists R'. split_and!; [|intros p n; apply set_object_other|done].
  unfold holds_ring. by rewrite set_object_same.
Qed.

Lemma stored_next R r : ring_stored R r -> rb_next r = rb_next R.
Proof. intros [Hw _ _ _ _]. unfold rb_next. by rewrite (Forall2_length _ _ _ Hw). Qed.

Lemma stored_size R r : ring_stored R r -> rb_size r = rb_size R /\ rb_remaining r = rb_remaining R.
Proof.
  intros Hr. pose proof (stored_next R r Hr) as Hn. destruct Hr as [_ Hh Hc Ht _]. unfold rb_remaining, rb_size. by rewrite Hn, Hh, Hc, Ht.
Qed.

Lemma stored_push R r x b : ring_stored R r -> stored x b -> ring_stored (rb_push x R) (rb_push b r).
Proof.
  intros Hr Hx. pose proof (stored_next R r Hr) as Hn. destruct Hr as [Hw Hh Hc Ht Hwf]. split; cbn; try done.
  - apply Forall2_app; [done | by constructor].
  - by rewrite Hh, Hn, Hc.
  - by apply rb_push_wf.
Qed.

Lemma stored_add R r p x b : ring_stored R r -> stored x b ->
  (rb_add p b r).1 = (rb_add p x R).1 /\ ring_stored (rb_add p x R).2 (rb_add p b r).2.
Proof.
  intros Hr Hx. unfold rb_add. rewrite (proj2 (stored_size R r Hr)), (stored_next R r Hr).
  destruct (_ && _); cbn; split; [done | done | done | by apply stored_push].
Qed.

Lemma stored_pushes xs bs : Forall2 stored xs bs -> forall R r, ring_stored R r ->
  ring_stored (foldl (fun R x => rb_push x R) R xs) (foldl (fun r b => rb_push b r) r bs).
Proof. induction 1 as [|x b xs bs Hx _ IH]; intros R r Hr; [done|]. cbn. by apply IH, stored_push. Qed.

Lemma stored_addAll R r p xs bs : ring_stored R r -> Forall2 stored xs bs ->
  (rb_addAll p bs r).1 = (rb_addAll p xs R).1 /\ ring_stored (rb_addAll p xs R).2 (rb_addAll p bs r).2.
Proof.
  intros Hr Hx. unfold rb_addAll. rewrite (proj2 (stored_size R r Hr)), (Forall2_length _ _ _ Hx).
  pose proof (stored_pushes xs bs Hx R r Hr) as Hp. destruct (_ && _); cbn; split; try done.
  unfold rb_tail. by rewrite (stored_next _ _ Hp).
Qed.

(** *** Answers *)

Lemma answerable_long z : answerable (long_answer (L := L) z).
Proof. by apply (answerable_field fixed_long). Qed.

Lemma decode_long (dec : Dec L) z reply : decodes_field (F_long (L := L)) dec id -> reply_of (long_answer (L := L) z) reply ->
  decodeResponse (L := L) dec reply = Done (Ok (long_of_Z z)).
Proof. intros Hd Hr. by rewrite (decode_field _ _ _ _ _ Hd Hr). Qed.

Lemma answerable_read start l : Z.of_nat (length l) < 2 ^ 31 -> Forall valid_bytes l -> answerable (read_answer (L := L) start l).
Proof.
  intros Hn Hl. split.
  - exists (Z.of_nat (length l), (long_of_Z (Z.of_nat (start + length l)) : L, tt)). cbn. unfold in_sint. split_and!; try done; lia.
  - destruct (proj2 (answerable_param (list_codec data_codec) (heap <$> l) (data_valid_list l Hl))) as (fs1 & g1 & g1' & -> & Hg1 & ->).
    destruct (proj2 (answerable_param (nullable_codec (list_long_codec (L := L))) (Some (seqs_from start (length l))) ltac:(cbn; by apply Forall_forall)))
      as (fs2 & g2 & g2' & -> & Hg2 & ->).
    exists (g1 ++ g2 ++ []). eexists _, _. split_and!; [done | exact Hg1 |]. by eexists _, _.
Qed.

Lemma decode_read start l message : reply_of (read_answer (L := L) start l) message ->
  decodeResponse (L := L) RingbufferReadManyCodec_decodeResponse message =
    Done (Ok (mkRingbufferReadManyResponseParams (Z.of_nat (length l)) (heap <$> l) (Some (seqs_from start (length l)))
      (long_of_Z (Z.of_nat (start + length l))))).
Proof.
  intros Hr. set (c := mkReplyFormat [F_int; F_long (L := L)]
    [reply (list_codec data_codec); reply (nullable_codec (list_long_codec (L := L)))] (RingbufferReadManyResponseParams L)
    (fun f p => mkRingbufferReadManyResponseParams f.1 p.1 p.2.1 f.2.1) RingbufferReadManyCodec_decodeResponse).
  assert (response_conforms c) as Hc by (intros ? ?; reflexivity).
  destruct (decode_answer c (Z.of_nat (length l), (long_of_Z (Z.of_nat (start + length l)) : L, tt))
    (heap <$> l, (Some (seqs_from start (length l)), tt)) message Hc Hr) as [rest E].
  unfold decodeResponse. cbn in E. by rewrite E.
Qed.

#[local] Abbreviation current s := (s (partitionId proxy) (px_name proxy)).
#[local] Abbreviation refined op := (forall R s, holds_ring R s -> op_ok op R -> wp ring_services (method op) (ring_outcome op R s) s).
#[local] Ltac call n rel f p :=
  eapply (wp_object_with ring_services ring_services_distinct ring_services_conform proxy n rel (ring_service n) f p);
  [reflexivity | reflexivity | valid_args | valid_args | reflexivity | | ].
#[local] Ltac decoded dec := match goal with Hr : reply_of _ _ |- _ => rewrite (decode_long dec _ _ ltac:(intros ? ?; reflexivity) Hr) end.
(** A request for a number. *)
#[local] Ltac by_read n f dec :=
  call n (ring_reads f) tt (px_name proxy, tt);
  [eexists _, _; split; [by split | apply answerable_long]
  |intros a c reply [-> ->] Hr; decoded dec; eapply ring_updated; [done|]; split; [|done]; do 2 f_equal].

Lemma ring_capacity_refined : refined Capacity.
Proof.
  intros R s Hh _. unfold method, capacity. by_read 0%nat (fun r : Ring buffer => Z.of_nat (rb_capacity r)) (RingbufferCapacityCodec_decodeResponse (L := L)).
  by rewrite (rs_capacity _ _ Hh).
Qed.

Lemma ring_size_refined : refined Size.
Proof.
  intros R s Hh _. unfold method, size. by_read 1%nat (fun r : Ring buffer => Z.of_nat (rb_size r)) (RingbufferSizeCodec_decodeResponse (L := L)).
  by rewrite (proj1 (stored_size _ _ Hh)).
Qed.

Lemma ring_tailSequence_refined : refined TailSequence.
Proof.
  intros R s Hh _. unfold method, tailSequence. by_read 2%nat (rb_tail (A := buffer)) (RingbufferTailSequenceCodec_decodeResponse (L := L)).
  unfold rb_tail. by rewrite (stored_next _ _ Hh).
Qed.

Lemma ring_headSequence_refined : refined HeadSequence.
Proof.
  intros R s Hh _. unfold method, headSequence. by_read 3%nat (fun r : Ring buffer => Z.of_nat (rb_head r)) (RingbufferHeadSequenceCodec_decodeResponse (L := L)).
  by rewrite (rs_head _ _ Hh).
Qed.

Lemma ring_remainingCapacity_refined : refined RemainingCapacity.
Proof.
  intros R s Hh _. unfold method, remainingCapacity.
  by_read 4%nat (fun r : Ring buffer => Z.of_nat (rb_remaining r)) (RingbufferRemainingCapacityCodec_decodeResponse (L := L)).
  by rewrite (proj2 (stored_size _ _ Hh)).
Qed.

Lemma ring_add_refined x policy : refined (Add x policy).
Proof.
  intros R s Hh Hop. unfold method, add. cbn [op_ok] in Hop. convert_args. rename x0 into b.
  destruct (stored_add R (current s) (overflowPolicyToId policy) x b Hh Hop) as [E Hs].
  call 5%nat (ring_writes (rb_add (overflowPolicyToId policy) b)) (overflowPolicyToId policy, tt) (px_name proxy, (heap b, tt)).
  - by destruct policy.
  - by destruct policy.
  - eexists _, _. split; [by split | apply answerable_long].
  - intros a c reply [-> ->] Hr. decoded (RingbufferAddCodec_decodeResponse (L := L)). eapply ring_updated; [done|]. split; [|done].
    by rewrite E.
Qed.

Lemma ring_addAll_refined xs policy : refined (AddAll xs policy).
Proof.
  intros R s Hh Hop. unfold method, addAll. cbn [op_ok] in Hop. convert_args. rename x into bs.
  destruct (stored_addAll R (current s) (overflowPolicyToId policy) xs bs Hh Hop) as [E Hs].
  call 6%nat (ring_writes (rb_addAll (overflowPolicyToId policy) (bytes <$> (heap <$> bs)))) (overflowPolicyToId policy, tt)
    (px_name proxy, (heap <$> bs, tt)).
  - by destruct policy.
  - by destruct policy.
  - eexists _, _. split; [by split | apply answerable_long].
  - rewrite bytes_heap_list. intros a c reply [-> ->] Hr. decoded (RingbufferAddAllCodec_decodeResponse (L := L)).
    eapply ring_updated; [done|]. split; [|done]. by rewrite E.
Qed.

Lemma negative_spec i : long_arg_valid i -> negative (L := L) i = (long_arg_val i <? 0).
Proof.
  intros Hi. unfold negative. rewrite long_ltb_spec, (long_val_of_Z 0) by done.
  destruct i as [l|z]; [done|]. cbn. by rewrite long_val_of_Z.
Qed.

Lemma unchanged {A} (op : RingOp A) R s r : holds_ring R s -> ring_spec op R r R -> ring_outcome op R s r s.
Proof. intros Hh Hs. exists R. split_and!; done. Qed.

Lemma ring_readOne_refined i : refined (ReadOne i).
Proof.
  intros R s Hh [Hi Hrange]. unfold method, readOne. rewrite (negative_spec i Hi). destruct (Z.ltb_spec (long_arg_val i) 0) as [Hn|Hn].
  - apply (unchanged (ReadOne i)); [done|]. split; [done|]. by rewrite (proj2 (Z.ltb_lt _ _)).
  - destruct (Hrange Hn) as [H3 H4]. destruct (lookup_lt_is_Some_2 (rb_written R) (Z.to_nat (long_arg_val i))) as [x Hx]; [unfold rb_next in H4; lia|].
    destruct (Forall2_lookup_l _ _ _ _ _ (rs_written _ _ Hh) Hx) as (b & Hb & Hs).
    call 7%nat (fun (r : Ring buffer) a r' => Z.of_nat (rb_head r) <= long_arg_val i /\
       (exists b, rb_written r !! Z.to_nat (long_arg_val i) = Some b /\ a = data_answer (Some b)) /\ r' = r) (i, tt) (px_name proxy, tt).
    + eexists _, _. split; [split_and!; [by rewrite (rs_head _ _ Hh) | by exists b | done]|]. apply answerable_data. apply Hs.
    + intros a c reply (_ & (b' & Hb' & ->) & ->) Hr. rewrite Hb in Hb'. injection Hb' as <-.
      assert (E := decode_kind (L := L) KData RingbufferReadOneCodec_decodeResponse (Some b) reply ltac:(intros ? ?; reflexivity) Hr).
      cbn [client client_val] in E. rewrite E. cbn [mbind Proxy_bind proxy_bind try_ wp].
      eapply ring_updated; [done|]. split; [done|]. rewrite (proj2 (Z.ltb_ge _ _)) by done. exists x. split; [done | apply Hs].
Qed.

Lemma stored_read R r start n : ring_stored R r -> Forall2 stored (rb_read start n R) (rb_read start n r).
Proof. intros Hr. apply Forall2_take, Forall2_drop, Hr. Qed.

Lemma read_length start n (R : Ring V) : 0 <= n -> Z.of_nat (length (rb_read start n R)) <= n.
Proof. intros Hn. unfold rb_read. rewrite length_take. lia. Qed.

Lemma readMany_refused i minCount maxCount : long_arg_valid i ->
  readMany (V := V) proxy i minCount maxCount None =
    if bad_range (long_arg_val i) minCount maxCount then try_ (Err RangeError)
    else
      clientMessage ← encodeInvoke proxy (RingbufferReadManyCodec_encodeRequest (px_name proxy) i minCount maxCount None);
      response ← decodeResponse (L := L) RingbufferReadManyCodec_decodeResponse clientMessage;
      mret (mkLazyReadResultSet (RingbufferReadMany_readCount response) (map LazyList.IsData (RingbufferReadMany_items response))
        (RingbufferReadMany_itemSeqs response) (RingbufferReadMany_nextSeq response)).
Proof.
  intros Hi. unfold readMany, bad_range. rewrite (negative_spec i Hi).
  by destruct (long_arg_val i <? 0), (minCount <? 0), (maxCount <? minCount), (MAX_BATCH_SIZE <? maxCount).
Qed.

Lemma ring_readMany_refined i minCount maxCount : refined (ReadMany i minCount maxCount).
Proof.
  intros R s Hh (Hi & Hnull & Hmin). unfold method. rewrite (readMany_refused i minCount maxCount Hi).
  destruct (bad_range (long_arg_val i) minCount maxCount) eqn:Eb.
  - apply (unchanged (ReadMany i minCount maxCount)); [done|]. split; [done|]. by rewrite Eb.
  - specialize (Hmin eq_refl). unfold bad_range, MAX_BATCH_SIZE in Eb. rewrite !orb_false_iff, !Z.ltb_ge in Eb.
    set (start := rb_start (long_arg_val i) R) in *. pose proof (stored_read R (current s) start maxCount Hh) as Hread.
    assert (rb_start (long_arg_val i) (current s) = start) as Es.
    { unfold start, rb_start. by rewrite (rs_head _ _ Hh), (stored_next _ _ Hh). }
    call 8%nat (fun (r : Ring buffer) a r' => (None : option HeapData) = None /\ r' = r /\
       let start := rb_start (long_arg_val i) r in
       let l := rb_read start maxCount r in
       minCount <= Z.of_nat (length l) /\ a = read_answer (L := L) start l) (i, (minCount, (maxCount, tt))) (px_name proxy, (None : option HeapData, tt)).
    + exists (read_answer (L := L) start (rb_read start maxCount (current s))), (current s). split.
      * split; [done|]. split; [done|]. cbn zeta. rewrite Es. split; [|done]. by rewrite <- (Forall2_length _ _ _ Hread).
      * apply answerable_read; [|by eapply stored_valid]. rewrite <- (Forall2_length _ _ _ Hread).
        pose proof (read_length start maxCount R). lia.
    + intros a c reply (_ & -> & _ & ->) Hr. rewrite Es in Hr. rewrite (decode_read _ _ _ Hr).
      eapply (ring_updated (ReadMany i minCount maxCount)); [done|]. split; [done|].
      replace (bad_range (long_arg_val i) minCount maxCount) with false
        by (symmetry; unfold bad_range, MAX_BATCH_SIZE; rewrite !orb_false_iff, !Z.ltb_ge; done).
      fold start. cbn. eexists. split; [apply (shows_stored _ _ Hread); by apply Forall_take, Forall_drop|].
      by rewrite (Forall2_length _ _ _ Hread).
Qed.

Lemma ring_refined {A} (op : RingOp A) : refined op.
Proof.
  destruct op; auto using ring_capacity_refined, ring_size_refined, ring_tailSequence_refined, ring_headSequence_refined, ring_remainingCapacity_refined,
    ring_add_refined, ring_addAll_refined, ring_readOne_refined, ring_readMany_refined.
Qed.
End RingRefinement.

(** ** Properties *)

(** C25: the operations of [RingbufferProxy] are those of a ringbuffer of values. If the members hold the serialized items of the
    ring [R], then every method settles when its request is answered; a read with a negative sequence or a bad
    range of counts is refused with a [RangeError] and changes nothing; [add] returns the sequence at which the item is found, or
    [-1] if the policy is [FAIL] and there is no room; [readMany] returns the items from the start sequence, or the oldest one
    that is left, in order with their sequences, and the sequence to go on from. The members hold the ring the contract
    leaves, which keeps its capacity, and no other ring changes. A [readOne] is of a sequence that is in the ring, and a [readMany] of a range
    with enough items, without a filter. *)
Theorem ring_proxy_refines_ring `{Uninit} {L} `{LongLaws L} {V} `{ObjectSerialization V} {A}
    (proxy : PartitionSpecificProxy) (op : RingOp A) (R : Ring V) (s : Objects (Ring buffer)) :
  holds_ring proxy R s -> op_ok (L := L) op R ->
  (exists r s', runs (ring_services (L := L)) (method proxy op) s r s') /\
  forall r s', runs (ring_services (L := L)) (method proxy op) s r s' ->
    exists R', holds_ring proxy R' s' /\ (forall p n, (p, n) <> (partitionId proxy, px_name proxy) -> s' p n = s p n) /\
      ring_spec op R r R'.
Proof. intros Hh Hop. apply wp_sound. by apply ring_refined. Qed.

(** ** Witnesses *)

#[local] Existing Instances bool_serialization demo_uninit.

Lemma ring_proxy_refines_ring_witness : exists rs s',
  runs (ring_services (L := Int64.t)) (method demo_proxy (ReadMany (IsNumber 0) 1 10))
    (fun _ _ => mkRing (demo_bytes <$> [true; false; true]) 1 2 false) (Ok rs) s' /\
  readCount rs = 2 /\ nextSeq rs = long_of_Z 3 /\ Forall2 LazyList.shows [false; true] (rs_items rs).
Proof.
  destruct (ring_proxy_refines_ring (L := Int64.t) demo_proxy (ReadMany (IsNumber 0) 1 10) (mkRing [true; false; true] 1 2 false)
    (fun _ _ => mkRing (demo_bytes <$> [true; false; true]) 1 2 false)) as [(r & s' & Hr) Hall].
  - split; [|reflexivity|reflexivity|reflexivity|split; cbn; lia]. cbn.
    constructor; [apply demo_stored|]. constructor; [apply demo_stored|]. constructor; [apply demo_stored | constructor].
  - split; [cbn; unfold in_sint; lia|]. split; [by repeat constructor|]. intros _. vm_compute. discriminate.
  - destruct (Hall r s' Hr) as (R' & _ & _ & -> & items & Hi & ->). eexists _, s'. split; [exact Hr|].
    split; [reflexivity|]. split; [reflexivity|]. exact Hi.
Defined.
