(* ===== verification/Errors.v ===== *)
(** * Errors of the client and errors sent by the members

    The error classes of [src/core/HazelcastError.ts] with the relation [extends] that
    [instanceof] follows, the protocol codes of [src/protocol/ClientProtocolErrorCodes.ts]
    and the factory of [src/protocol/ErrorFactory.ts], which builds the error of an exception message
    from its list of holders. *)

From S2P Require Export CustomCodecs.
#[local] Open Scope Z_scope.

Module Err.
Inductive t :=
  | HazelcastError | HazelcastSerializationError | AuthenticationError | ClientNotActiveError |
  ClientNotAllowedInClusterError | ClientOfflineError | InvalidConfigurationError |
  IllegalStateError | StaleSequenceError | TopicOverloadError | IOError | OperationTimeoutError |
  RetryableHazelcastError | TargetNotMemberError | CallerNotMemberError | CancellationError |
  ClassCastError | ClassNotFoundError | ConcurrentModificationError | ConfigMismatchError |
  DistributedObjectDestroyedError | HazelcastInstanceNotActiveError | MemberLeftError |
  PartitionMigratingError | QueryError | TransactionError | TransactionNotActiveError |
  TransactionTimedOutError | SplitBrainProtectionError | RetryableIOError | TargetDisconnectedError
  | UnsupportedOperationError | ConsistencyLostError | NoDataMemberInClusterError | StaleTaskIdError
  | NodeIdOutOfRangeError | ReachedMaxSizeError | IndeterminateOperationStateError |
  ArrayIndexOutOfBoundsError | ArrayStoreError | IllegalArgumentError | IndexOutOfBoundsError |
  InterruptedError | InvalidAddressError | NegativeArraySizeError | NoSuchElementError |
  NullPointerError | SessionExpiredError | CPGroupDestroyedError | LockOwnershipLostError |
  IllegalMonitorStateError | WaitKeyCancelledError | LeaderDemotedError | StaleAppendRequestError |
  CannotReplicateError | NotLeaderError | UndefinedErrorCodeError | HazelcastSqlException.

#[global] Instance eq_dec : EqDecision t.
Proof. solve_decision. Defined.

(** The class a class extends; [HazelcastError] extends the [Error] of the language. *)
Definition parent (c : t) : option t :=
  match c with
  | HazelcastError => None
  | TargetNotMemberError | CallerNotMemberError | MemberLeftError | PartitionMigratingError |
  RetryableIOError | CannotReplicateError => Some RetryableHazelcastError
  | CancellationError | HazelcastInstanceNotActiveError => Some IllegalStateError
  | SplitBrainProtectionError => Some TransactionError
  | _ => Some HazelcastError
  end.

(** [e instanceof d] for an [e] created by the class [c]: the chain of parents has at most three
    classes below [HazelcastError]. *)
Fixpoint instanceof_fuel (fuel : nat) (c d : t) : bool :=
  bool_decide (c = d) ||
  match fuel, parent c with
  | S fuel, Some p => instanceof_fuel fuel p d
  | _, _ => false
  end.

Definition instanceof (c d : t) : bool := instanceof_fuel 3 c d.
End Err.

(** ** Protocol codes *)

Module Codes.
Inductive t :=
  | UNDEFINED | ARRAY_INDEX_OUT_OF_BOUNDS | ARRAY_STORE | AUTHENTICATION | CACHE | CACHE_LOADER |
  CACHE_NOT_EXISTS | CACHE_WRITER | CALLER_NOT_MEMBER | CANCELLATION | CLASS_CAST | CLASS_NOT_FOUND
  | CONCURRENT_MODIFICATION | CONFIG_MISMATCH | DISTRIBUTED_OBJECT_DESTROYED | EOF | ENTRY_PROCESSOR
  | EXECUTION | HAZELCAST | HAZELCAST_INSTANCE_NOT_ACTIVE | HAZELCAST_OVERLOAD |
  HAZELCAST_SERIALIZATION | IO | ILLEGAL_ARGUMENT | ILLEGAL_ACCESS_EXCEPTION | ILLEGAL_ACCESS_ERROR
  | ILLEGAL_MONITOR_STATE | ILLEGAL_STATE | ILLEGAL_THREAD_STATE | INDEX_OUT_OF_BOUNDS | INTERRUPTED
  | INVALID_ADDRESS | INVALID_CONFIGURATION | MEMBER_LEFT | NEGATIVE_ARRAY_SIZE | NO_SUCH_ELEMENT |
  NOT_SERIALIZABLE | NULL_POINTER | OPERATION_TIMEOUT | PARTITION_MIGRATING | QUERY |
  QUERY_RESULT_SIZE_EXCEEDED | SPLIT_BRAIN_PROTECTION | REACHED_MAX_SIZE | REJECTED_EXECUTION |
  RESPONSE_ALREADY_SENT | RETRYABLE_HAZELCAST | RETRYABLE_IO | RUNTIME | SECURITY | SOCKET |
  STALE_SEQUENCE | TARGET_DISCONNECTED | TARGET_NOT_MEMBER | TIMEOUT | TOPIC_OVERLOAD | TRANSACTION
  | TRANSACTION_NOT_ACTIVE | TRANSACTION_TIMED_OUT | URI_SYNTAX | UTF_DATA_FORMAT |
  UNSUPPORTED_OPERATION | WRONG_TARGET | XA | ACCESS_CONTROL | LOGIN | UNSUPPORTED_CALLBACK |
  NO_DATA_MEMBER | REPLICATED_MAP_CANT_BE_CREATED | MAX_MESSAGE_SIZE_EXCEEDED |
  WAN_REPLICATION_QUEUE_FULL | ASSERTION_ERROR | OUT_OF_MEMORY_ERROR | STACK_OVERFLOW_ERROR |
  NATIVE_OUT_OF_MEMORY_ERROR | SERVICE_NOT_FOUND | STALE_TASK_ID | DUPLICATE_TASK | STALE_TASK |
  LOCAL_MEMBER_RESET | INDETERMINATE_OPERATION_STATE | FLAKE_ID_NODE_ID_OUT_OF_RANGE_EXCEPTION |
  TARGET_NOT_REPLICA_EXCEPTION | MUTATION_DISALLOWED_EXCEPTION | CONSISTENCY_LOST_EXCEPTION |
  SESSION_EXPIRED_EXCEPTION | WAIT_KEY_CANCELLED_EXCEPTION | LOCK_ACQUIRE_LIMIT_REACHED_EXCEPTION |
  LOCK_OWNERSHIP_LOST_EXCEPTION | CP_GROUP_DESTROYED_EXCEPTION | CANNOT_REPLICATE_EXCEPTION |
  LEADER_DEMOTED_EXCEPTION | STALE_APPEND_REQUEST_EXCEPTION | NOT_LEADER_EXCEPTION |
  VERSION_MISMATCH_EXCEPTION.

#[global] Instance eq_dec : EqDecision t.
Proof. solve_decision. Defined.

Definition value (c : t) : Z :=
  match c with
  | UNDEFINED => 0 | ARRAY_INDEX_OUT_OF_BOUNDS => 1 | ARRAY_STORE => 2 | AUTHENTICATION => 3 | CACHE
  => 4 | CACHE_LOADER => 5 | CACHE_NOT_EXISTS => 6 | CACHE_WRITER => 7 | CALLER_NOT_MEMBER => 8 |
  CANCELLATION => 9 | CLASS_CAST => 10 | CLASS_NOT_FOUND => 11 | CONCURRENT_MODIFICATION => 12 |
  CONFIG_MISMATCH => 13 | DISTRIBUTED_OBJECT_DESTROYED => 14 | EOF => 15 | ENTRY_PROCESSOR => 16 |
  EXECUTION => 17 | HAZELCAST => 18 | HAZELCAST_INSTANCE_NOT_ACTIVE => 19 | HAZELCAST_OVERLOAD => 20
  | HAZELCAST_SERIALIZATION => 21 | IO => 22 | ILLEGAL_ARGUMENT => 23 | ILLEGAL_ACCESS_EXCEPTION =>
  24 | ILLEGAL_ACCESS_ERROR => 25 | ILLEGAL_MONITOR_STATE => 26 | ILLEGAL_STATE => 27 |
  ILLEGAL_THREAD_STATE => 28 | INDEX_OUT_OF_BOUNDS => 29 | INTERRUPTED => 30 | INVALID_ADDRESS => 31
  | INVALID_CONFIGURATION => 32 | MEMBER_LEFT => 33 | NEGATIVE_ARRAY_SIZE => 34 | NO_SUCH_ELEMENT =>
  35 | NOT_SERIALIZABLE => 36 | NULL_POINTER => 37 | OPERATION_TIMEOUT => 38 | PARTITION_MIGRATING
  => 39 | QUERY => 40 | QUERY_RESULT_SIZE_EXCEEDED => 41 | SPLIT_BRAIN_PROTECTION => 42 |
  REACHED_MAX_SIZE => 43 | REJECTED_EXECUTION => 44 | RESPONSE_ALREADY_SENT => 45 |
  RETRYABLE_HAZELCAST => 46 | RETRYABLE_IO => 47 | RUNTIME => 48 | SECURITY => 49 | SOCKET => 50 |
  STALE_SEQUENCE => 51 | TARGET_DISCONNECTED => 52 | TARGET_NOT_MEMBER => 53 | TIMEOUT => 54 |
  TOPIC_OVERLOAD => 55 | TRANSACTION => 56 | TRANSACTION_NOT_ACTIVE => 57 | TRANSACTION_TIMED_OUT =>
  58 | URI_SYNTAX => 59 | UTF_DATA_FORMAT => 60 | UNSUPPORTED_OPERATION => 61 | WRONG_TARGET => 62 |
  XA => 63 | ACCESS_CONTROL => 64 | LOGIN => 65 | UNSUPPORTED_CALLBACK => 66 | NO_DATA_MEMBER => 67
  | REPLICATED_MAP_CANT_BE_CREATED => 68 | MAX_MESSAGE_SIZE_EXCEEDED => 69 |
  WAN_REPLICATION_QUEUE_FULL => 70 | ASSERTION_ERROR => 71 | OUT_OF_MEMORY_ERROR => 72 |
  STACK_OVERFLOW_ERROR => 73 | NATIVE_OUT_OF_MEMORY_ERROR => 74 | SERVICE_NOT_FOUND => 75 |
  STALE_TASK_ID => 76 | DUPLICATE_TASK => 77 | STALE_TASK => 78 | LOCAL_MEMBER_RESET => 79 |
  INDETERMINATE_OPERATION_STATE => 80 | FLAKE_ID_NODE_ID_OUT_OF_RANGE_EXCEPTION => 81 |
  TARGET_NOT_REPLICA_EXCEPTION => 82 | MUTATION_DISALLOWED_EXCEPTION => 83 |
  CONSISTENCY_LOST_EXCEPTION => 84 | SESSION_EXPIRED_EXCEPTION => 85 | WAIT_KEY_CANCELLED_EXCEPTION
  => 86 | LOCK_ACQUIRE_LIMIT_REACHED_EXCEPTION => 87 | LOCK_OWNERSHIP_LOST_EXCEPTION => 88 |
  CP_GROUP_DESTROYED_EXCEPTION => 89 | CANNOT_REPLICATE_EXCEPTION => 90 | LEADER_DEMOTED_EXCEPTION
  => 91 | STALE_APPEND_REQUEST_EXCEPTION => 92 | NOT_LEADER_EXCEPTION => 93 |
  VERSION_MISMATCH_EXCEPTION => 94
  end.
End Codes.

(** ** The factory *)

(** The calls of [register] in the constructor, in order. *)
Definition registrations : list (Codes.t * Err.t) := [
  (Codes.ARRAY_INDEX_OUT_OF_BOUNDS, Err.ArrayIndexOutOfBoundsError); (Codes.ARRAY_STORE,
  Err.ArrayStoreError); (Codes.AUTHENTICATION, Err.AuthenticationError); (Codes.CALLER_NOT_MEMBER,
  Err.CallerNotMemberError); (Codes.CANCELLATION, Err.CancellationError); (Codes.CLASS_CAST,
  Err.ClassCastError); (Codes.CLASS_NOT_FOUND, Err.ClassNotFoundError);
  (Codes.CONCURRENT_MODIFICATION, Err.ConcurrentModificationError); (Codes.CONFIG_MISMATCH,
  Err.ConfigMismatchError); (Codes.DISTRIBUTED_OBJECT_DESTROYED,
  Err.DistributedObjectDestroyedError); (Codes.EOF, Err.IOError); (Codes.HAZELCAST,
  Err.HazelcastError); (Codes.HAZELCAST_INSTANCE_NOT_ACTIVE, Err.HazelcastInstanceNotActiveError);
  (Codes.HAZELCAST_OVERLOAD, Err.HazelcastError); (Codes.HAZELCAST_SERIALIZATION,
  Err.HazelcastSerializationError); (Codes.INDETERMINATE_OPERATION_STATE,
  Err.IndeterminateOperationStateError); (Codes.IO, Err.IOError); (Codes.ILLEGAL_ARGUMENT,
  Err.IllegalArgumentError); (Codes.ILLEGAL_STATE, Err.IllegalStateError);
  (Codes.INDEX_OUT_OF_BOUNDS, Err.IndexOutOfBoundsError); (Codes.INTERRUPTED, Err.InterruptedError);
  (Codes.INVALID_ADDRESS, Err.InvalidAddressError); (Codes.INVALID_CONFIGURATION,
  Err.InvalidConfigurationError); (Codes.MEMBER_LEFT, Err.MemberLeftError);
  (Codes.NEGATIVE_ARRAY_SIZE, Err.NegativeArraySizeError); (Codes.NO_SUCH_ELEMENT,
  Err.NoSuchElementError); (Codes.NOT_SERIALIZABLE, Err.IOError); (Codes.NULL_POINTER,
  Err.NullPointerError); (Codes.OPERATION_TIMEOUT, Err.OperationTimeoutError);
  (Codes.PARTITION_MIGRATING, Err.PartitionMigratingError); (Codes.QUERY, Err.QueryError);
  (Codes.QUERY_RESULT_SIZE_EXCEEDED, Err.QueryError); (Codes.SPLIT_BRAIN_PROTECTION,
  Err.SplitBrainProtectionError); (Codes.REACHED_MAX_SIZE, Err.ReachedMaxSizeError);
  (Codes.RETRYABLE_HAZELCAST, Err.RetryableHazelcastError); (Codes.RETRYABLE_IO,
  Err.RetryableIOError); (Codes.SOCKET, Err.IOError); (Codes.STALE_SEQUENCE,
  Err.StaleSequenceError); (Codes.TARGET_DISCONNECTED, Err.TargetDisconnectedError);
  (Codes.TARGET_NOT_MEMBER, Err.TargetNotMemberError); (Codes.TOPIC_OVERLOAD,
  Err.TopicOverloadError); (Codes.TRANSACTION, Err.TransactionError); (Codes.TRANSACTION_NOT_ACTIVE,
  Err.TransactionNotActiveError); (Codes.TRANSACTION_TIMED_OUT, Err.TransactionTimedOutError);
  (Codes.UNSUPPORTED_OPERATION, Err.UnsupportedOperationError); (Codes.NO_DATA_MEMBER,
  Err.NoDataMemberInClusterError); (Codes.STALE_TASK_ID, Err.StaleTaskIdError);
  (Codes.FLAKE_ID_NODE_ID_OUT_OF_RANGE_EXCEPTION, Err.NodeIdOutOfRangeError);
  (Codes.CONSISTENCY_LOST_EXCEPTION, Err.ConsistencyLostError); (Codes.SESSION_EXPIRED_EXCEPTION,
  Err.SessionExpiredError); (Codes.CP_GROUP_DESTROYED_EXCEPTION, Err.CPGroupDestroyedError);
  (Codes.LOCK_OWNERSHIP_LOST_EXCEPTION, Err.LockOwnershipLostError); (Codes.ILLEGAL_MONITOR_STATE,
  Err.IllegalMonitorStateError); (Codes.WAIT_KEY_CANCELLED_EXCEPTION, Err.WaitKeyCancelledError);
  (Codes.CANNOT_REPLICATE_EXCEPTION, Err.CannotReplicateError); (Codes.LEADER_DEMOTED_EXCEPTION,
  Err.LeaderDemotedError); (Codes.STALE_APPEND_REQUEST_EXCEPTION, Err.StaleAppendRequestError);
  (Codes.NOT_LEADER_EXCEPTION, Err.NotLeaderError)].

Definition codeToErrorConstructor : js_map Z Err.t :=
  foldl (fun m r => js_map_set Z.eqb m (Codes.value r.1) r.2) [] registrations.

(** An error: its class, message, cause and server-side stack trace. *)
Inductive error := mkError (cls : Err.t) (msg : option string) (cause : option error) (trace : list StackTraceElement).

Definition err_class (e : error) : Err.t := match e with mkError c _ _ _ => c end.
Definition err_cause (e : error) : option error := match e with mkError _ _ c _ => c end.

(** [s + x] where the string may be null. *)
Definition null_text (s : option string) : string := default "null"%string s.

Fixpoint createError (errorHolders : list ErrorHolder) : option error :=
  match errorHolders with
  | [] => None
  | errorHolder :: rest =>
      match js_map_get Z.eqb codeToErrorConstructor (errorCode errorHolder) with
      | Some c => Some (mkError c (message errorHolder) (createError rest) (stackTraceElements errorHolder))
      | None =>
          let msg := "Class name: " +:+ className errorHolder +:+ ", Message: " +:+ null_text (message errorHolder) in
          Some (mkError Err.UndefinedErrorCodeError (Some msg) (createError rest) (stackTraceElements errorHolder))
      end
  end.

(** ** The chain of causes *)

Fixpoint error_chain (e : error) : list Err.t :=
  match e with mkError c _ cause _ => c :: match cause with Some e => error_chain e | None => [] end end.

Definition holder_class (h : ErrorHolder) : Err.t :=
  default Err.UndefinedErrorCodeError (js_map_get Z.eqb codeToErrorConstructor (errorCode h)).

(** The factory loses nothing of a remote error: the chain of causes it builds has one error per
    holder of the message, in order, each of the class registered for its code; every registered code
    creates its own class (no registration hides another), and only the others create an
    [UndefinedErrorCodeError]. *)
Theorem error_factory_faithful (holders : list ErrorHolder) :
  match createError holders with Some e => error_chain e | None => [] end = map holder_class holders /\
  Forall (fun r => js_map_get Z.eqb codeToErrorConstructor (Codes.value r.1) = Some r.2) registrations /\
  Forall (fun e => e.2 <> Err.UndefinedErrorCodeError) codeToErrorConstructor.
Proof.
  split_and!.
  - induction holders as [|h holders IH]; [done|]. cbn [createError map]. unfold holder_class at 1.
    destruct (js_map_get Z.eqb codeToErrorConstructor (errorCode h)); cbn; by rewrite IH.
  - apply (bool_decide_unpack _). vm_compute. exact I.
  - apply (bool_decide_unpack _). vm_compute. exact I.
Qed.
