(* ===== verification/ReliableTopic.v ===== *)
(** * Reliable topics

    [ReliableTopicProxy] and [ReliableTopicListenerRunner] of [src/src/proxy/topic/], on a ringbuffer ([Ringbuffer]): messages
    are published to the ringbuffer, and for each listener a runner reads it from the sequence that was next when the listener was
    added.

    The state has the ringbuffer of the members, the runners and the calls of [publish] with the requests they wait for, the
    messages handed to [process.nextTick], and those the listeners were called with. The steps are the calls of the application,
    the answers and failures of requests and the callbacks they run, ticks, messages published by other clients and items
    that expire. Sequences are numbers, as [toNumber] returns them (exact below [2 ^ 53]). *)

From Stdlib Require Import Sorted.
From S2P Require Export Prelude Ringbuffer Errors.

(** An error of a class of the client, or another one, such as a [RangeError]. *)
Definition err : Type := option Err.t.
Definition is_a (e : err) (c : Err.t) : bool := match e with Some k => Err.instanceof k c | None => false end.

(** [src/src/proxy/TopicOverloadPolicy.ts]. *)
Inductive TopicOverloadPolicy := DISCARD_OLDEST | DISCARD_NEWEST | BLOCK | ERROR.

Definition TOPIC_INITIAL_BACKOFF : Z := 100.
Definition TOPIC_MAX_BACKOFF : Z := 2000.

(** [ReliableTopicMessage], and the [Message] a listener is called with. *)
Record ReliableTopicMessage {T A P : Type} := mkReliableTopicMessage { publishTime : T; publisherAddress : A; payload_of : P }.
Record Message {T A E : Type} := mkMessage { messageObject : E; publisher : A; publishingTime : T }.
Arguments ReliableTopicMessage T A P : clear implicits.
Arguments mkReliableTopicMessage {T A P}.
Arguments publishTime {T A P}.
Arguments publisherAddress {T A P}.
Arguments payload_of {T A P}.
Arguments Message T A E : clear implicits.
Arguments mkMessage {T A E}.

(** What the topic uses of the serialization service: [toData] and [toObject] of objects, and of messages, which the
    ringbuffer has as items. *)
Class TopicSerialization (D T A P E : Type) := {
  payload_data : E -> err + P;
  item_data : ReliableTopicMessage T A P -> err + D;
  item_object : D -> err + ReliableTopicMessage T A P;
  payload_object : P -> err + E
}.

(** ** Runners and calls of publish *)

(** What a runner waits for: an answer of [tailSequence] or [readMany], which is given but whose callback has not run. *)
Inductive RunnerStage {D : Type} :=
  | TailSent
  | TailAnswered (seq : Z)
  | ReadSent
  | ReadAnswered (readCount : Z) (items : list D) (nextSeq : Z)
  | TailFailed
  | Stopped.
Arguments RunnerStage D : clear implicits.

(** The last field is where the runner began; the code does not keep it. *)
Record Runner {D : Type} := mkRunner { sequenceNumber : Z; cancelled : bool; r_stage : RunnerStage D; r_first : Z }.
Arguments Runner D : clear implicits.
Arguments mkRunner {D}.
Arguments sequenceNumber {D}.
Arguments cancelled {D}.
Arguments r_stage {D}.
Arguments r_first {D}.

(** A call of [publish]: a request to add the message is under way, or answered with a sequence, or the promise is settled. *)
Inductive PublishStage := AddSent (delay : Z) | AddAnswered (delay : Z) (seq : Z) | Published | Rejected (e : err).
(** The last field is where the message was added; the code does not keep it. *)
Record Publisher {D : Type} := mkPublisher { p_item : D; p_stage : PublishStage; p_added : list nat }.
Arguments Publisher D : clear implicits.
Arguments mkPublisher {D}.
Arguments p_item {D}.
Arguments p_stage {D}.
Arguments p_added {D}.

Section ReliableTopic.
Context {D T A P E : Type} `{TopicSerialization D T A P E}.
Context (batchSize : Z) (overloadPolicy : TopicOverloadPolicy) (localAddress : A).

(** A runner is known by its index, and so is its listener; [runners] are those the proxy has. *)
Record Topic := mkTopic {
  ring : Ring D;
  objs : list (Runner D);
  runners : list nat;
  ticks : list (nat * Message T A E);
  calls : list (nat * Message T A E);
  publishers : list (Publisher D)
}.
Implicit Types (s : Topic) (r : Runner D) (i : nat).

Definition with_ring rb s : Topic := mkTopic rb (objs s) (runners s) (ticks s) (calls s) (publishers s).
Definition set_runner i r s : Topic := mkTopic (ring s) (<[i := r]> (objs s)) (runners s) (ticks s) (calls s) (publishers s).
Definition set_stage i (st : RunnerStage D) s : Topic :=
  match objs s !! i with
  | Some r => set_runner i (mkRunner (sequenceNumber r) (cancelled r) st (r_first r)) s
  | None => s
  end.
Definition set_publisher j (p : Publisher D) s : Topic :=
  mkTopic (ring s) (objs s) (runners s) (ticks s) (calls s) (<[j := p]> (publishers s)).

(** *** ReliableTopicListenerRunner *)

Definition cancel i s : Topic :=
  match objs s !! i with
  | Some r => set_runner i (mkRunner (sequenceNumber r) true (r_stage r) (r_first r)) s
  | None => s
  end.

Definition removeMessageListener i s : bool * Topic :=
  if bool_decide (i ∈ runners s) then
    let s := cancel i s in
    (true, mkTopic (ring s) (objs s) (filter (fun k => k <> i) (runners s)) (ticks s) (calls s) (publishers s))
  else (false, s).

(** [readMany] throws if the counts are out of range; [next] returns whether it threw. *)
Definition next i s : bool * Topic :=
  match objs s !! i with
  | Some r =>
      if cancelled r then (false, set_stage i Stopped s)
      else if bad_range (sequenceNumber r) 1 batchSize then (true, s)
      else (false, set_stage i ReadSent s)
  | None => (false, s)
  end.

Definition handleInternalError (e : err) : bool :=
  if is_a e Err.OperationTimeoutError then true
  else if is_a e Err.ClientOfflineError then true
  else if is_a e Err.ClientNotActiveError then false
  else false.

(** The handler at the end of [next]; what it throws itself is not handled. *)
Definition read_caught i (e : err) s : Topic :=
  if handleInternalError e then
    let '(threw, s) := next i s in if threw : bool then set_stage i Stopped s else s
  else (removeMessageListener i (set_stage i Stopped s)).2.

(** The body of the loop over the items, and the loop, which stops at the first item that cannot be read. *)
Definition message_of (d : D) : err + Message T A E :=
  match item_object d with
  | inl e => inl e
  | inr item =>
      match payload_object (payload_of item) with
      | inl e => inl e
      | inr o => inr (mkMessage o (publisherAddress item) (publishTime item))
      end
  end.
Fixpoint schedule_items i (items : list D) (q : list (nat * Message T A E)) : option err * list (nat * Message T A E) :=
  match items with
  | [] => (None, q)
  | d :: items => match message_of d with inl e => (Some e, q) | inr m => schedule_items i items (q ++ [(i, m)]) end
  end.

(** The callback of [readMany]. *)
Definition read_answered i (items : list D) (nextSeq : Z) s : Topic :=
  match objs s !! i with
  | Some r =>
      if cancelled r then set_stage i Stopped s
      else
        let '(threw, q) := schedule_items i items (ticks s) in
        let s := mkTopic (ring s) (objs s) (runners s) q (calls s) (publishers s) in
        match threw with
        | Some e => read_caught i e s
        | None =>
            let s := set_runner i (mkRunner nextSeq (cancelled r) (r_stage r) (r_first r)) s in
            let '(threw, s) := next i s in
            if threw : bool then read_caught i None s else s
        end
  | None => s
  end.

(** *** ReliableTopicProxy *)

Definition addMessageListener s : Topic :=
  mkTopic (ring s) (objs s ++ [mkRunner 0 false TailSent 0]) (runners s ++ [length (objs s)]) (ticks s) (calls s) (publishers s).

(** The callback of [tailSequence]; its handler only logs. *)
Definition tail_answered i (seq : Z) s : Topic :=
  match objs s !! i with
  | Some r =>
      let s := set_runner i (mkRunner (seq + 1) (cancelled r) (r_stage r) (seq + 1)) s in
      let '(threw, s) := next i s in
      if threw : bool then set_stage i TailFailed s else s
  | None => s
  end.

Definition destroy s : Topic := foldl (fun s i => cancel i s) s (runners s).

(** [publish] throws what [toData] throws, of the payload, or of the message in [add]; else the request of [addOrDiscard],
    [addWithError], [addOrOverwrite] or [trySendMessage] is under way. *)
Definition publish (now : T) (message : E) s : err + Topic :=
  match payload_data message with
  | inl e => inl e
  | inr payload =>
      match item_data (mkReliableTopicMessage now localAddress payload) with
      | inl e => inl e
      | inr item =>
          inr (mkTopic (ring s) (objs s) (runners s) (ticks s) (calls s)
            (publishers s ++ [mkPublisher item (AddSent TOPIC_INITIAL_BACKOFF) []]))
      end
  end.
Definition policyId : Z := overflowPolicyToId (match overloadPolicy with DISCARD_OLDEST => OVERWRITE | _ => FAIL end).

(** The callback of [add]. *)
Definition add_answered (delay seq : Z) : PublishStage :=
  match overloadPolicy with
  | DISCARD_NEWEST | DISCARD_OLDEST => Published
  | ERROR => if seq =? -1 then Rejected (Some Err.TopicOverloadError) else Published
  | BLOCK =>
      if seq =? -1 then
        let newDelay := 2 * delay in
        AddSent (if TOPIC_MAX_BACKOFF <? newDelay then TOPIC_MAX_BACKOFF else newDelay)
      else Published
  end.

(** ** Steps *)

Inductive step s : Topic -> Prop :=
  | does_add_listener : step s (addMessageListener s)
  | does_remove_listener i : step s (removeMessageListener i s).2
  | does_destroy : step s (destroy s)
  | does_publish now message s' : publish now message s = inr s' -> step s s'
  (** The members answer. *)
  | tail_served i r : objs s !! i = Some r -> r_stage r = TailSent -> step s (set_stage i (TailAnswered (rb_tail (ring s))) s)
  | tail_refused i r : objs s !! i = Some r -> r_stage r = TailSent -> step s (set_stage i TailFailed s)
  | read_served i r : objs s !! i = Some r -> r_stage r = ReadSent ->
      let start := rb_start (sequenceNumber r) (ring s) in
      let items := rb_read start batchSize (ring s) in
      1 <= Z.of_nat (length items) ->
      step s (set_stage i (ReadAnswered (Z.of_nat (length items)) items (Z.of_nat (start + length items))) s)
  | read_refused i r e : objs s !! i = Some r -> r_stage r = ReadSent -> step s (read_caught i e s)
  | add_served j p delay seq rb : publishers s !! j = Some p -> p_stage p = AddSent delay ->
      rb_add policyId (p_item p) (ring s) = (seq, rb) ->
      step s (with_ring rb (set_publisher j
        (mkPublisher (p_item p) (AddAnswered delay seq) (if seq =? -1 then p_added p else p_added p ++ [Z.to_nat seq])) s))
  | add_refused j p delay e : publishers s !! j = Some p -> p_stage p = AddSent delay ->
      step s (set_publisher j (mkPublisher (p_item p) (Rejected e) (p_added p)) s)
  | add_lost j p delay seq rb e : publishers s !! j = Some p -> p_stage p = AddSent delay ->
      rb_add policyId (p_item p) (ring s) = (seq, rb) ->
      step s (with_ring rb (set_publisher j
        (mkPublisher (p_item p) (Rejected e) (if seq =? -1 then p_added p else p_added p ++ [Z.to_nat seq])) s))
  (** The callbacks of answers. *)
  | tail_called i r seq : objs s !! i = Some r -> r_stage r = TailAnswered seq -> step s (tail_answered i seq s)
  | read_called i r n items nextSeq : objs s !! i = Some r -> r_stage r = ReadAnswered n items nextSeq ->
      step s (read_answered i items nextSeq s)
  | add_called j p delay seq : publishers s !! j = Some p -> p_stage p = AddAnswered delay seq ->
      step s (set_publisher j (mkPublisher (p_item p) (add_answered delay seq) (p_added p)) s)
  | ticked i m q : ticks s = (i, m) :: q -> step s (mkTopic (ring s) (objs s) (runners s) q (calls s ++ [(i, m)]) (publishers s))
  (** Other clients, and time. *)
  | others_add policy d : step s (with_ring (rb_add policy d (ring s)).2 s)
  | expires h : (rb_head (ring s) <= h <= rb_next (ring s))%nat ->
      step s (with_ring (mkRing (rb_written (ring s)) h (rb_capacity (ring s)) (rb_ttl (ring s))) s).

Definition new_topic (rb : Ring D) : Topic := mkTopic rb [] [] [] [] [].
Definition reachable rb s : Prop := rtc step (new_topic rb) s.

(** ** What a listener has received *)

(** The messages a listener was called with, and those it will be called with. *)
Definition received i s : list (Message T A E) := (filter (fun c => c.1 = i) (calls s ++ ticks s)).*2.
Definition delivers (rb : Ring D) (q : nat) (m : Message T A E) : Prop :=
  exists d, rb_written rb !! q = Some d /\ message_of d = inr m.

(** A ringbuffer at a later time. *)
Definition grows (rb rb' : Ring D) : Prop := rb_written rb `prefix_of` rb_written rb' /\ (rb_head rb <= rb_head rb')%nat.

(** While a runner reads, what it received comes before its sequence. *)
Definition reading (rb : Ring D) (qs : list nat) r : Prop :=
  Forall (fun q => Z.of_nat q < sequenceNumber r) qs /\ 0 <= r_first r <= sequenceNumber r /\ sequenceNumber r <= Z.of_nat (rb_next rb).
Definition stage_ok (rb : Ring D) (msgs : list (Message T A E)) (qs : list nat) r : Prop :=
  match r_stage r with
  | TailSent => msgs = []
  | TailAnswered seq => msgs = [] /\ 0 <= seq + 1 <= Z.of_nat (rb_next rb)
  | ReadSent => reading rb qs r
  | ReadAnswered _ items nextSeq => reading rb qs r /\ exists start,
      (start + length items <= rb_next rb)%nat /\ items = take (length items) (drop start (rb_written rb)) /\ nextSeq = Z.of_nat (start + length items) /\
      sequenceNumber r <= Z.of_nat start /\ (forall q, sequenceNumber r <= Z.of_nat q -> (q < start)%nat -> (q < rb_head rb)%nat)
  | TailFailed | Stopped => True
  end.
(** The messages are those of some sequences, in order; what is missing before the sequence of the runner is no longer in the
    ringbuffer. *)
Definition covers (rb : Ring D) (msgs : list (Message T A E)) r (qs : list nat) : Prop :=
  StronglySorted lt qs /\ Forall2 (delivers rb) qs msgs /\ Forall (fun q => r_first r <= Z.of_nat q) qs /\
  forall q, r_first r <= Z.of_nat q < sequenceNumber r -> q ∈ qs \/ (q < rb_head rb)%nat.
Definition runner_ok (rb : Ring D) (msgs : list (Message T A E)) r : Prop :=
  exists qs, covers rb msgs r qs /\ stage_ok rb msgs qs r.

Record topic_inv s : Prop := {
  ti_ring : rb_wf (ring s);
  ti_ids : Forall (fun c => (c.1 < length (objs s))%nat) (calls s ++ ticks s);
  ti_runners : forall i r, objs s !! i = Some r -> runner_ok (ring s) (received i s) r
}.

(** *** The ringbuffer *)

Lemma grows_refl rb : grows rb rb.
Proof. by split. Qed.

Lemma grows_next rb rb' : grows rb rb' -> (rb_next rb <= rb_next rb')%nat.
Proof. intros [Hp _]. by apply prefix_length. Qed.

Lemma grows_lookup rb rb' q d : grows rb rb' -> rb_written rb !! q = Some d -> rb_written rb' !! q = Some d.
Proof. intros [Hp _] Hq. by eapply prefix_lookup_Some. Qed.

Lemma add_grows policy d rb : grows rb (rb_add policy d rb).2.
Proof.
  unfold rb_add. destruct (_ && _); cbn; [by split|]. split; cbn; [by apply prefix_app_r | lia].
Qed.

Lemma slice_grows rb rb' start n : grows rb rb' -> (start + n <= rb_next rb)%nat ->
  take n (drop start (rb_written rb')) = take n (drop start (rb_written rb)).
Proof.
  intros [[k Hk] _] Hn. unfold rb_next in Hn. rewrite Hk, drop_app_le by lia. apply take_app_le. rewrite length_drop. lia.
Qed.

Lemma covers_grows rb rb' msgs r qs : grows rb rb' -> covers rb msgs r qs -> covers rb' msgs r qs.
Proof.
  intros Hg (Hs & Hd & Hf & Hm). split_and!; [done | | done |].
  - eapply Forall2_impl; [exact Hd|]. intros q m (d & Hq & E1). exists d. split; [by eapply grows_lookup | done].
  - intros q Hq. destruct (Hm q Hq) as [|Hlt]; [by left|]. right. destruct Hg as [_ Hh]. lia.
Qed.

Lemma reading_grows rb rb' qs r : grows rb rb' -> reading rb qs r -> reading rb' qs r.
Proof. intros Hg (H1 & H2 & H3). pose proof (grows_next _ _ Hg). split_and!; try done; lia. Qed.

Lemma runner_ok_grows rb rb' msgs r : grows rb rb' -> runner_ok rb msgs r -> runner_ok rb' msgs r.
Proof.
  intros Hg (qs & Hc & Hst). exists qs. split; [by eapply covers_grows|]. pose proof (grows_next _ _ Hg) as Hn.
  unfold stage_ok in *. destruct (r_stage r) as [|seq| |n items nx| |]; try done.
  - destruct Hst. split; [done | lia].
  - by eapply reading_grows.
  - destruct Hst as (Hr & start & Hl & Ei & En & Hseq & Hlost). split; [by eapply reading_grows|]. exists start.
    split_and!; [lia | | done | done |].
    + rewrite Ei at 1. symmetry. by apply slice_grows.
    + intros q H1 H2. specialize (Hlost q H1 H2). destruct Hg. lia.
Qed.

(** *** Messages *)

Lemma received_schedule i k ms s q :
  ticks s = q -> forall s', calls s' = calls s -> ticks s' = q ++ map (pair i) ms ->
  received k s' = received k s ++ if decide (k = i) then ms else [].
Proof.
  intros <- s' Ec Et. unfold received. rewrite Ec, Et, app_assoc, (filter_app _ (calls s ++ ticks s)), fmap_app. f_equal. clear Ec Et.
  induction ms as [|m ms IH]; [by destruct (decide (k = i))|]. cbn [map]. rewrite filter_cons. cbn.
  destruct (decide (i = k)) as [->|Hne].
  - rewrite decide_True by done. cbn. f_equal. rewrite IH. by rewrite decide_True.
  - rewrite (decide_False (P := k = i)) by congruence. rewrite IH. by rewrite decide_False by congruence.
Qed.

Lemma received_none i s : Forall (fun c => (c.1 < i)%nat) (calls s ++ ticks s) -> received i s = [].
Proof.
  unfold received. generalize (calls s ++ ticks s). induction 1 as [|c l Hc _ IH]; [done|]. rewrite filter_cons.
  rewrite decide_False by lia. done.
Qed.

Lemma schedule_items_spec i items : forall q, exists pre ms,
  (schedule_items i items q).2 = q ++ map (pair i) ms /\ pre `prefix_of` items /\ Forall2 (fun d m => message_of d = inr m) pre ms /\
  match (schedule_items i items q).1 with None => pre = items | Some e => exists d, message_of d = inl e end.
Proof.
  induction items as [|d items IH]; intros q; cbn.
  - exists [], []. by rewrite app_nil_r.
  - destruct (message_of d) as [e|m] eqn:Em; cbn.
    + exists [], []. rewrite app_nil_r. split_and!; [done | apply prefix_nil | constructor | by exists d].
    + destruct (IH (q ++ [(i, m)])) as (pre & ms & E1 & Hp & Hf & Hm). exists (d :: pre), (m :: ms).
      rewrite E1. cbn [map]. rewrite <- app_assoc. split_and!; [done | by apply prefix_cons | by constructor |].
      destruct (schedule_items i items (q ++ [(i, m)])).1; [done | by subst].
Qed.

(** The messages of a slice of the ringbuffer. *)
Lemma slice_delivers rb start pre ms : forall items, items = take (length items) (drop start (rb_written rb)) ->
  pre `prefix_of` items -> Forall2 (fun d m => message_of d = inr m) pre ms ->
  Forall2 (delivers rb) (seq start (length pre)) ms.
Proof.
  intros items Ei Hp Hf. apply Forall2_same_length_lookup_2; [by rewrite length_seq, (Forall2_length _ _ _ Hf)|].
  intros k q m Hq Hm. apply lookup_seq in Hq as [-> Hk].
  destruct (Forall2_lookup_r _ _ _ _ _ Hf Hm) as (d & Hd & E1). exists d. split; [|done].
  assert (items !! k = Some d) as Hi by (by eapply prefix_lookup_Some). rewrite Ei in Hi.
  apply lookup_take_Some in Hi as [Hi _]. by rewrite lookup_drop in Hi.
Qed.

(** A runner that reads a slice after its sequence. *)
Lemma covers_slice rb msgs r r' qs start n ms : covers rb msgs r qs -> reading rb qs r ->
  r_first r' = r_first r -> Forall2 (delivers rb) (seq start n) ms ->
  sequenceNumber r <= Z.of_nat start -> sequenceNumber r' <= Z.of_nat (start + n) ->
  (forall q, sequenceNumber r <= Z.of_nat q -> (q < start)%nat -> (q < rb_head rb)%nat) ->
  covers rb (msgs ++ ms) r' (qs ++ seq start n).
Proof.
  intros (Hs & Hd & Hf & Hm) (Hlt & Hrange & _) Ef Hms Hstart Hseq Hlost.
  assert (Forall (fun q => (q < start)%nat) qs) as Hqs by (eapply Forall_impl; [exact Hlt|]; intros q Hq; cbn in Hq; lia).
  split_and!.
  - clear -Hs Hqs. induction Hs as [|q qs Hs IH Hq]; cbn.
    + clear. revert start. induction n as [|n IH]; intros start; cbn; [constructor|]. constructor; [apply IH|].
      apply Forall_forall. intros q Hq. apply elem_of_seq in Hq. lia.
    + apply Forall_cons in Hqs as [Hq0 Hqs]. constructor; [by apply IH|]. apply Forall_app. split; [done|].
      apply Forall_forall. intros q' Hq'. apply elem_of_seq in Hq'. lia.
  - by apply Forall2_app.
  - rewrite Ef. apply Forall_app. split; [done|]. apply Forall_forall. intros q Hq. apply elem_of_seq in Hq. lia.
  - intros q [H1 H2]. rewrite Ef in H1. destruct (decide (Z.of_nat q < sequenceNumber r)) as [Hlow|Hhigh].
    + destruct (Hm q) as [Hin|Hh]; [lia | left; apply elem_of_app; by left | by right].
    + destruct (decide (q < start)%nat) as [Hgap|Hin]; [right; apply Hlost; [lia | done]|].
      left. apply elem_of_app. right. apply elem_of_seq. lia.
Qed.

(** *** The operations change one runner *)

Definition updated i r' rs ms s : Topic :=
  mkTopic (ring s) (<[i := r']> (objs s)) rs (ticks s ++ map (pair i) ms) (calls s) (publishers s).
Definition staged (st : RunnerStage D) r : Runner D := mkRunner (sequenceNumber r) (cancelled r) st (r_first r).
(** The runner with another stage or mark. *)
Definition same_place r r' : Prop := sequenceNumber r' = sequenceNumber r /\ r_first r' = r_first r.

Lemma set_stage_updated i st r s : objs s !! i = Some r -> set_stage i st s = updated i (staged st r) (runners s) [] s.
Proof. intros Hr. unfold set_stage, updated, set_runner. by rewrite Hr, app_nil_r. Qed.

Lemma updated_objs i r r' rs ms s : objs s !! i = Some r -> objs (updated i r' rs ms s) !! i = Some r'.
Proof. intros Hr. apply list_lookup_insert_eq. by eapply lookup_lt_Some. Qed.

Lemma updated_updated i r1 r2 rs1 rs2 ms s : updated i r2 rs2 [] (updated i r1 rs1 ms s) = updated i r2 rs2 ms s.
Proof. unfold updated. cbn. by rewrite list_insert_insert_eq, app_nil_r. Qed.

Lemma remove_shape i r s : objs s !! i = Some r -> exists r' rs, (removeMessageListener i s).2 = updated i r' rs [] s /\
  same_place r r' /\ r_stage r' = r_stage r.
Proof.
  intros Hr. unfold removeMessageListener. case_bool_decide; cbn.
  - unfold cancel. rewrite Hr. cbn. eexists _, _. split; [unfold updated; cbn; by rewrite app_nil_r | by split].
  - exists r, (runners s). split; [|by split]. unfold updated. rewrite (list_insert_id _ _ _ Hr), app_nil_r. by destruct s.
Qed.

Lemma next_shape i r s : objs s !! i = Some r ->
  next i s = if cancelled r then (false, updated i (staged Stopped r) (runners s) [] s)
             else if bad_range (sequenceNumber r) 1 batchSize then (true, s)
             else (false, updated i (staged ReadSent r) (runners s) [] s).
Proof. intros Hr. unfold next. rewrite Hr. by rewrite !(set_stage_updated i _ r s Hr). Qed.

Lemma read_caught_shape i r e s : objs s !! i = Some r -> exists r' rs, read_caught i e s = updated i r' rs [] s /\
  same_place r r' /\ (r_stage r' = Stopped \/ r_stage r' = ReadSent /\ handleInternalError e = true).
Proof.
  intros Hr. unfold read_caught. destruct (handleInternalError e).
  - rewrite (next_shape i r s Hr). destruct (cancelled r); [eexists _, _; split_and!; [done | by split | by left]|].
    destruct (bad_range _ _ _); rewrite ?(set_stage_updated i _ r s Hr); eexists _, _; (split_and!; [done | by split | auto]).
  - rewrite (set_stage_updated i _ r s Hr).
    destruct (remove_shape i _ (updated i (staged Stopped r) (runners s) [] s) (updated_objs i r _ _ _ s Hr)) as (r' & rs & -> & Hp & Hs).
    exists r', rs. rewrite updated_updated. split_and!; [done | done | by left].
Qed.

Lemma tail_answered_shape i r seq s : objs s !! i = Some r -> exists r', tail_answered i seq s = updated i r' (runners s) [] s /\
  sequenceNumber r' = seq + 1 /\ r_first r' = seq + 1 /\ (r_stage r' = Stopped \/ r_stage r' = ReadSent \/ r_stage r' = TailFailed).
Proof.
  intros Hr. unfold tail_answered. rewrite Hr. set (r1 := mkRunner (seq + 1) (cancelled r) (r_stage r) (seq + 1)).
  assert (set_runner i r1 s = updated i r1 (runners s) [] s) as -> by (unfold updated; by rewrite app_nil_r).
  pose proof (updated_objs i r r1 (runners s) [] s Hr) as Hr1. rewrite (next_shape i r1 _ Hr1).
  destruct (cancelled r1); [eexists; split_and!; [by rewrite updated_updated | done | done | by left]|].
  destruct (bad_range _ _ _); rewrite ?(set_stage_updated i _ r1 _ Hr1), updated_updated; eexists; split_and!; eauto.
Qed.

(** The callback of a read schedules a prefix of the items, all of them if the runner goes on. *)
Lemma read_answered_shape i r items nextSeq s : objs s !! i = Some r ->
  (forall d e, message_of d = inl e -> handleInternalError e = false) ->
  exists r' rs pre ms, read_answered i items nextSeq s = updated i r' rs ms s /\ r_first r' = r_first r /\
    pre `prefix_of` items /\ Forall2 (fun d m => message_of d = inr m) pre ms /\
    (r_stage r' = Stopped /\ (sequenceNumber r' = sequenceNumber r \/ sequenceNumber r' = nextSeq /\ pre = items) \/
     r_stage r' = ReadSent /\ sequenceNumber r' = nextSeq /\ pre = items).
Proof.
  intros Hr Hfinal. unfold read_answered. rewrite Hr. destruct (cancelled r) eqn:Ec.
  { rewrite (set_stage_updated i _ r s Hr). eexists _, _, [], []. split_and!; [done | done | apply prefix_nil | constructor |].
    left. split; [done | by left]. }
  destruct (schedule_items_spec i items (ticks s)) as (pre & ms & E1 & Hp & Hf & Hm).
  destruct (schedule_items i items (ticks s)) as [threw q]. cbn in E1, Hm. subst q.
  set (s1 := mkTopic _ _ _ _ _ _). destruct threw as [e|].
  - destruct Hm as [d Hd]. destruct (read_caught_shape i r e s1 Hr) as (r' & rs & -> & [Hs Hfi] & Hst).
    exists r', rs, pre, ms. split_and!; [unfold updated; cbn; by rewrite app_nil_r | done | done | done |].
    destruct Hst as [Hst|[_ Hst]]; [left; split; [done | by left]|]. by rewrite (Hfinal d e Hd) in Hst.
  - subst pre. set (r1 := mkRunner nextSeq false (r_stage r) (r_first r)).
    match goal with |- context [next i ?x] => change x with (updated i r1 (runners s) ms s) end.
    pose proof (updated_objs i r r1 (runners s) ms s Hr) as Hr1. rewrite (next_shape i r1 _ Hr1). cbn [cancelled r1].
    destruct (bad_range _ _ _).
    + destruct (read_caught_shape i r1 None _ Hr1) as (r' & rs & -> & [Hs Hfi] & Hst).
      exists r', rs, items, ms. rewrite updated_updated. split_and!; [done | done | done | done |].
      destruct Hst as [Hst|[_ Hst]]; [|done]. left. split; [done | by right].
    + rewrite updated_updated. eexists _, _, items, ms. split_and!; [done | done | done | done | by right].
Qed.

Lemma publish_shape now message s s' : publish now message s = inr s' -> exists item,
  s' = mkTopic (ring s) (objs s) (runners s) (ticks s) (calls s) (publishers s ++ [mkPublisher item (AddSent TOPIC_INITIAL_BACKOFF) []]).
Proof.
  unfold publish. destruct (payload_data message) as [|payload]; [done|]. destruct (item_data _) as [|item]; [done|].
  intros [= <-]. by exists item.
Qed.

(** *** The invariant *)

Lemma updated_inv i r r' rs ms s : topic_inv s -> objs s !! i = Some r -> runner_ok (ring s) (received i s ++ ms) r' ->
  topic_inv (updated i r' rs ms s).
Proof.
  intros [Hw Hid Hr] Hi Hok. pose proof (lookup_lt_Some _ _ _ Hi) as Hlt. split; [done | |].
  - cbn. rewrite length_insert, app_assoc. apply Forall_app. split; [done|]. apply Forall_forall. intros c Hc.
    apply list_elem_of_fmap in Hc as (m & -> & _). done.
  - intros k x Hk. rewrite (received_schedule i k ms s (ticks s) eq_refl (updated i r' rs ms s)) by done. cbn in Hk |- *.
    destruct (decide (k = i)) as [->|Hne].
    + rewrite list_lookup_insert_eq in Hk by done. by injection Hk as <-.
    + rewrite app_nil_r. rewrite list_lookup_insert_ne in Hk by congruence. by apply Hr.
Qed.

Lemma grows_inv rb s : topic_inv s -> grows (ring s) rb -> rb_wf rb -> topic_inv (with_ring rb s).
Proof. intros [Hw Hid Hr] Hg Hwf. split; [done | done |]. intros i r Hi. eapply runner_ok_grows; [done|]. by apply Hr. Qed.

Lemma publishers_inv s ps : topic_inv s -> topic_inv (mkTopic (ring s) (objs s) (runners s) (ticks s) (calls s) ps).
Proof. by intros [Hw Hid Hr]. Qed.

Lemma same_place_ok rb msgs r r' : same_place r r' -> r_stage r' = r_stage r -> runner_ok rb msgs r -> runner_ok rb msgs r'.
Proof.
  intros [Hs Hf] Hst (qs & Hc & Hok). exists qs. unfold covers, stage_ok, reading in *. by rewrite Hs, Hf, Hst.
Qed.

Lemma cancel_inv i s : topic_inv s -> topic_inv (cancel i s).
Proof.
  intros Hi. unfold cancel. destruct (objs s !! i) as [r|] eqn:Hr; [|done].
  set (r' := mkRunner _ _ _ _). assert (set_runner i r' s = updated i r' (runners s) [] s) as -> by (unfold updated; by rewrite app_nil_r).
  eapply updated_inv; [done | done|]. rewrite app_nil_r. eapply (same_place_ok _ _ r); [by split | done | by apply (ti_runners s Hi)].
Qed.

Lemma destroy_inv s : topic_inv s -> topic_inv (destroy s).
Proof.
  intros Hi. unfold destroy. generalize (runners s). intros l. revert s Hi. induction l as [|i l IH]; intros s Hi; [done|].
  cbn. by apply IH, cancel_inv.
Qed.

Lemma remove_inv i s : topic_inv s -> topic_inv (removeMessageListener i s).2.
Proof.
  intros Hi. unfold removeMessageListener. case_bool_decide; [|done]. cbn. by destruct (cancel_inv i s Hi).
Qed.

(** A runner that has stopped or failed keeps what it received. *)
Lemma ended_ok rb msgs r r' : same_place r r' -> r_stage r' = Stopped \/ r_stage r' = TailFailed -> runner_ok rb msgs r -> runner_ok rb msgs r'.
Proof.
  intros [Hs Hf] Hst (qs & Hc & _). exists qs. split; [unfold covers in *; by rewrite Hs, Hf|]. unfold stage_ok. by destruct Hst as [-> | ->].
Qed.

(** A read that failed may be sent again. *)
Lemma retried_ok rb msgs r r' : same_place r r' -> r_stage r = ReadSent -> r_stage r' = ReadSent \/ r_stage r' = Stopped ->
  runner_ok rb msgs r -> runner_ok rb msgs r'.
Proof.
  intros Hp Hr [Hst|Hst] Hok; [eapply same_place_ok; [done | congruence | done] | eapply ended_ok; [done | by left | done]].
Qed.

Lemma tail_answered_ok rb msgs r r' seq : r_stage r = TailAnswered seq -> sequenceNumber r' = seq + 1 -> r_first r' = seq + 1 ->
  r_stage r' = Stopped \/ r_stage r' = ReadSent \/ r_stage r' = TailFailed -> runner_ok rb msgs r -> runner_ok rb msgs r'.
Proof.
  intros Hst Hs Hf Hst' (qs & Hc & Hok). unfold stage_ok in Hok. rewrite Hst in Hok. destruct Hok as [-> Hseq]. exists [].
  split; [split_and!; [constructor | constructor | constructor | lia]|].
  unfold stage_ok. destruct Hst' as [-> | [-> | ->]]; [done | | done]. split_and!; [constructor | lia | lia | lia].
Qed.

Lemma read_served_ok rb msgs r : rb_wf rb -> r_stage r = ReadSent ->
  let start := rb_start (sequenceNumber r) rb in
  let items := rb_read start batchSize rb in
  runner_ok rb msgs r ->
  runner_ok rb msgs (staged (ReadAnswered (Z.of_nat (length items)) items (Z.of_nat (start + length items))) r).
Proof.
  intros Hw Hst start items (qs & Hc & Hok). unfold stage_ok in Hok. rewrite Hst in Hok. exists qs. split; [done|].
  split; [done|]. destruct Hok as (Hlt & Hrange & Hnext). exists start. pose proof (wf_head _ Hw) as Hh.
  assert (start = Nat.max (Z.to_nat (sequenceNumber r)) (rb_head rb)) as Es by (unfold start, rb_start; lia).
  assert (length items = Nat.min (Z.to_nat batchSize) (rb_next rb - start)) as El
    by (unfold items, rb_read; by rewrite length_take, length_drop).
  assert (start <= rb_next rb)%nat as Hle by lia. cbn. split_and!; [lia | | done | lia |].
  - rewrite El. unfold items, rb_read. rewrite <- take_take. rewrite (take_ge (drop start (rb_written rb)) (rb_next rb - start)); [done|].
    rewrite length_drop. unfold rb_next. lia.
  - intros q H1 H2. lia.
Qed.

Lemma read_answered_ok rb msgs r r' n items nextSeq pre ms : r_stage r = ReadAnswered n items nextSeq -> r_first r' = r_first r ->
  pre `prefix_of` items -> Forall2 (fun d m => message_of d = inr m) pre ms ->
  (r_stage r' = Stopped /\ (sequenceNumber r' = sequenceNumber r \/ sequenceNumber r' = nextSeq /\ pre = items) \/
   r_stage r' = ReadSent /\ sequenceNumber r' = nextSeq /\ pre = items) ->
  runner_ok rb msgs r -> runner_ok rb (msgs ++ ms) r'.
Proof.
  intros Hst Hf Hp Hms Hcase (qs & Hc & Hok). unfold stage_ok in Hok. rewrite Hst in Hok.
  destruct Hok as (Hread & start & Hl & Ei & En & Hseq & Hlost).
  pose proof (slice_delivers rb start pre ms items Ei Hp Hms) as Hd. exists (qs ++ seq start (length pre)). split.
  - eapply covers_slice; try done. destruct Hcase as [[_ [->|[-> ->]]]|(_ & -> & ->)]; lia.
  - unfold stage_ok. destruct Hcase as [[-> _]|(-> & Hs & ->)]; [done|]. destruct Hread as (Hlt & Hrange & Hnext).
    split_and!; [|lia|lia|lia]. rewrite Hs, En. apply Forall_app. split; [eapply Forall_impl; [exact Hlt|]; cbn; intros; lia|].
    apply Forall_forall. intros q Hq. apply elem_of_seq in Hq. lia.
Qed.

Context (conversions_final : forall d e, message_of d = inl e -> handleInternalError e = false).

Lemma step_topic_inv s s' : topic_inv s -> step s s' -> topic_inv s'.
Proof.
  intros Hi Hstep. pose proof (ti_ring s Hi) as Hw. destruct Hstep.
  - destruct Hi as [_ Hid Hr]. split; [done | |].
    + cbn. eapply Forall_impl; [exact Hid|]. cbn. intros c Hc. rewrite length_app. cbn. lia.
    + intros i r. cbn. rewrite lookup_app_Some. intros [Hlt|[Hge Hn]]; [by apply Hr|].
      destruct (i - length (objs s))%nat as [|k] eqn:Ek; cbn in Hn; [|done]. injection Hn as <-. exists [].
      assert (received i s = []) as E0.
      { apply received_none. eapply Forall_impl; [exact Hid|]. cbn. lia. }
      unfold received in *. cbn. rewrite E0. split; [|done]. split_and!; [constructor | constructor | constructor | cbn; lia].
  - by apply remove_inv.
  - by apply destroy_inv.
  - destruct (publish_shape _ _ _ _ H0) as [item ->]. by apply publishers_inv.
  - rewrite (set_stage_updated _ _ r) by done. eapply updated_inv; [done | done|]. rewrite app_nil_r.
    destruct (ti_runners s Hi _ _ H0) as (qs & Hc & Hok). exists qs. split; [done|]. unfold stage_ok in *. rewrite H1 in Hok. cbn.
    split; [done|]. unfold rb_tail. lia.
  - rewrite (set_stage_updated _ _ r) by done. eapply updated_inv; [done | done|]. rewrite app_nil_r.
    eapply (ended_ok _ _ r); [by split | by right | by apply (ti_runners s Hi)].
  - rewrite (set_stage_updated _ _ r) by done. eapply updated_inv; [done | done|]. rewrite app_nil_r.
    apply read_served_ok; [done | done | by apply (ti_runners s Hi)].
  - destruct (read_caught_shape i r e s H0) as (r' & rs & -> & Hp & Hst). eapply updated_inv; [done | done|]. rewrite app_nil_r.
    eapply (retried_ok _ _ r); [done | done | | by apply (ti_runners s Hi)]. destruct Hst as [|[]]; auto.
  - replace rb with (rb_add policyId (p_item p) (ring s)).2 by (by rewrite H2).
    apply grows_inv; [by apply publishers_inv | apply add_grows | by apply rb_add_wf].
  - by apply publishers_inv.
  - replace rb with (rb_add policyId (p_item p) (ring s)).2 by (by rewrite H2).
    apply grows_inv; [by apply publishers_inv | apply add_grows | by apply rb_add_wf].
  - destruct (tail_answered_shape i r seq s H0) as (r' & -> & Hs & Hf & Hst). eapply updated_inv; [done | done|]. rewrite app_nil_r.
    eapply (tail_answered_ok _ _ r); [done | done | done | done | by apply (ti_runners s Hi)].
  - destruct (read_answered_shape i r items nextSeq s H0 conversions_final) as (r' & rs & pre & ms & -> & Hf & Hp & Hms & Hcase).
    eapply updated_inv; [done | done|]. eapply (read_answered_ok _ _ r); [done | done | done | done | done |]. by apply (ti_runners s Hi).
  - by apply publishers_inv.
  - destruct Hi as [_ Hid Hr]. rewrite H0 in Hid. split; [done | |].
    + cbn. by rewrite <- app_assoc.
    + intros k r Hk. assert (received k (mkTopic (ring s) (objs s) (runners s) q (calls s ++ [(i, m)]) (publishers s)) = received k s) as ->;
        [|by apply Hr]. unfold received. cbn. by rewrite H0, <- app_assoc.
  - apply grows_inv; [done | apply add_grows | by apply rb_add_wf].
  - apply grows_inv; [done | split; [done | cbn; lia] |]. destruct Hw as [H1 H2 H3]. unfold rb_size, rb_next in *. split; cbn in *; try done.
    + lia.
    + unfold rb_size, rb_next. cbn. lia.
Qed.

(** ** What became of a published message *)

Definition added_at (rb : Ring D) (p : Publisher D) : Prop := exists n, p_added p = [n] /\ rb_written rb !! n = Some (p_item p).
Definition publisher_ok (rb : Ring D) (p : Publisher D) : Prop :=
  match p_stage p with
  | AddSent _ => p_added p = []
  | AddAnswered _ seq => if seq =? -1 then p_added p = [] /\ overloadPolicy <> DISCARD_OLDEST else added_at rb p
  | Published => added_at rb p \/ overloadPolicy = DISCARD_NEWEST /\ p_added p = []
  | Rejected _ => added_at rb p \/ p_added p = []
  end.
Definition publishers_ok s : Prop := Forall (publisher_ok (ring s)) (publishers s).

Lemma added_grows rb rb' p : grows rb rb' -> added_at rb p -> added_at rb' p.
Proof. intros Hg (n & E1 & Hn). exists n. split; [done | by eapply grows_lookup]. Qed.

Lemma publisher_ok_grows rb rb' p : grows rb rb' -> publisher_ok rb p -> publisher_ok rb' p.
Proof.
  intros Hg. unfold publisher_ok. destruct (p_stage p) as [|delay seq| |]; [done | | |].
  - destruct (seq =? -1); [done | by apply added_grows].
  - intros [Ha|Hd]; [left; by eapply added_grows | by right].
  - intros [Ha|Hd]; [left; by eapply added_grows | by right].
Qed.

Lemma publishers_ok_grows s rb' j p : grows (ring s) rb' -> publishers_ok s -> publisher_ok rb' p ->
  Forall (publisher_ok rb') (<[j := p]> (publishers s)).
Proof.
  intros Hg Hs Hp. apply Forall_insert; [|done]. eapply Forall_impl; [exact Hs|]. intros x. by apply publisher_ok_grows.
Qed.

(** The item is added at the sequence that is answered. *)
Lemma add_answer x rb seq rb' : rb_add policyId x rb = (seq, rb') ->
  grows rb rb' /\ if seq =? -1 then overloadPolicy <> DISCARD_OLDEST else exists n, seq = Z.of_nat n /\ rb_written rb' !! n = Some x.
Proof.
  intros E1. split; [replace rb' with (rb_add policyId x rb).2 by (by rewrite E1); apply add_grows|]. revert E1. unfold rb_add, policyId.
  destruct (_ && _) eqn:Eb; intros [= <- <-].
  - apply andb_true_iff in Eb as [Eb _]. by destruct overloadPolicy.
  - rewrite (proj2 (Z.eqb_neq _ (-1))) by lia. exists (rb_next rb). split; [done|]. cbn. unfold rb_next. by apply list_lookup_middle.
Qed.

Lemma served_ok x rb seq rb' p st : rb_add policyId x rb = (seq, rb') -> p_item p = x -> p_added p = [] ->
  (st = Rejected None \/ exists e, st = Rejected e) \/ (exists delay, st = AddAnswered delay seq) ->
  publisher_ok rb' (mkPublisher x st (if seq =? -1 then p_added p else p_added p ++ [Z.to_nat seq])).
Proof.
  intros E1 Hi Ha Hst. destruct (add_answer x rb seq rb' E1) as [_ Hans]. rewrite Ha. unfold publisher_ok. cbn.
  destruct Hst as [[->|[e ->]]|[delay ->]]; destruct (seq =? -1) eqn:Es; try done; try (by right).
  - left. destruct Hans as (n & -> & Hn). exists n. cbn. by rewrite Nat2Z.id.
  - left. destruct Hans as (n & -> & Hn). exists n. cbn. by rewrite Nat2Z.id.
  - destruct Hans as (n & -> & Hn). exists n. cbn. by rewrite Nat2Z.id.
Qed.

Lemma answered_ok rb p delay seq : p_stage p = AddAnswered delay seq -> publisher_ok rb p ->
  publisher_ok rb (mkPublisher (p_item p) (add_answered delay seq) (p_added p)).
Proof.
  intros Hst Hp. unfold publisher_ok in Hp. rewrite Hst in Hp. unfold publisher_ok, add_answered. cbn. revert Hp.
  destruct overloadPolicy, (seq =? -1); cbn; intuition.
Qed.

(** The other operations keep the ringbuffer and the calls of publish. *)
Lemma read_caught_keeps i e s : ring (read_caught i e s) = ring s /\ publishers (read_caught i e s) = publishers s.
Proof.
  destruct (objs s !! i) as [r|] eqn:Hr.
  - by destruct (read_caught_shape i r e s Hr) as (r' & rs & -> & _).
  - unfold read_caught, next, removeMessageListener, cancel, set_stage. rewrite Hr. destruct (handleInternalError e); [done|].
    case_bool_decide; cbn; rewrite ?Hr; done.
Qed.

Lemma destroy_keeps s : ring (destroy s) = ring s /\ publishers (destroy s) = publishers s.
Proof.
  unfold destroy. generalize (runners s). intros l. revert s. induction l as [|i l IH]; intros s; [done|]. cbn.
  destruct (IH (cancel i s)) as [-> ->]. unfold cancel. by destruct (objs s !! i).
Qed.

Lemma step_publishers_ok s s' : publishers_ok s -> step s s' -> publishers_ok s'.
Proof.
  intros Hp Hstep. unfold publishers_ok in *. destruct Hstep.
  - done.
  - unfold removeMessageListener, cancel. case_bool_decide; [|done]. by destruct (objs s !! i).
  - by destruct (destroy_keeps s) as [-> ->].
  - destruct (publish_shape _ _ _ _ H0) as [item ->]. cbn. apply Forall_app. split; [done|]. by constructor.
  - by rewrite (set_stage_updated _ _ r).
  - by rewrite (set_stage_updated _ _ r).
  - by rewrite (set_stage_updated _ _ r).
  - by destruct (read_caught_keeps i e s) as [-> ->].
  - cbn. pose proof (Forall_lookup_1 _ _ _ _ Hp H0) as Hj. unfold publisher_ok in Hj. rewrite H1 in Hj.
    apply (publishers_ok_grows s); [by apply (add_answer _ _ _ _ H2) | done |]. eapply served_ok; [done | done | done |]. right. eauto.
  - cbn. pose proof (Forall_lookup_1 _ _ _ _ Hp H0) as Hj. unfold publisher_ok in Hj. rewrite H1 in Hj.
    apply Forall_insert; [done|]. by right.
  - cbn. pose proof (Forall_lookup_1 _ _ _ _ Hp H0) as Hj. unfold publisher_ok in Hj. rewrite H1 in Hj.
    apply (publishers_ok_grows s); [by apply (add_answer _ _ _ _ H2) | done |]. eapply served_ok; [done | done | done |]. left. eauto.
  - by destruct (tail_answered_shape i r seq s H0) as (r' & -> & _).
  - by destruct (read_answered_shape i r items nextSeq s H0 conversions_final) as (r' & rs & pre & ms & -> & _).
  - cbn. apply Forall_insert; [done|]. eapply answered_ok; [done|]. by eapply Forall_lookup_1.
  - done.
  - cbn. eapply Forall_impl; [exact Hp|]. intros x. apply publisher_ok_grows, add_grows.
  - cbn. eapply Forall_impl; [exact Hp|]. intros x. apply publisher_ok_grows. split; [done | cbn; lia].
Qed.

Lemma added_once rb p : publisher_ok rb p -> (length (p_added p) <= 1)%nat.
Proof.
  unfold publisher_ok. destruct (p_stage p) as [|delay seq| |].
  - intros ->. cbn. lia.
  - destruct (seq =? -1); [intros [-> _] | intros (n & -> & _)]; cbn; lia.
  - intros [(n & -> & _)|[_ ->]]; cbn; lia.
  - intros [(n & -> & _)| ->]; cbn; lia.
Qed.

(** ** Reachable states *)

Lemma new_topic_inv rb : rb_wf rb -> topic_inv (new_topic rb).
Proof. intros Hw. split; [done | constructor | done]. Qed.

Lemma topic_reachable_inv rb s : rb_wf rb -> reachable rb s -> topic_inv s /\ publishers_ok s.
Proof.
  intros Hw Hs. refine (rtc_ind_r (fun s => topic_inv s /\ publishers_ok s) (new_topic rb) _ _ s Hs).
  - split; [by apply new_topic_inv | constructor].
  - intros x y _ Hstep [H1 H2]. split; [by eapply step_topic_inv | by eapply step_publishers_ok].
Qed.

(** ** A listener is not forgotten *)

Context (batch_ok : 1 <= batchSize <= MAX_BATCH_SIZE).

(** A runner the proxy has and has not cancelled has not stopped. *)
Definition live r : Prop := r_stage r = Stopped -> cancelled r = true.
Definition registered_ok s : Prop := forall i, i ∈ runners s -> exists r, objs s !! i = Some r /\ live r.

Lemma bad_range_ok n : 0 <= n -> bad_range n 1 batchSize = false.
Proof. intros Hn. unfold bad_range, MAX_BATCH_SIZE in *. rewrite !orb_false_iff, !Z.ltb_ge. lia. Qed.

(** An operation that changes one runner and may drop registrations. *)
Lemma updated_registered i r r' rs ms s : registered_ok s -> objs s !! i = Some r -> rs ⊆ runners s -> (i ∈ rs -> live r') ->
  registered_ok (updated i r' rs ms s).
Proof.
  intros Hs Hi Hrs Hl k Hk. cbn in *. destruct (decide (k = i)) as [->|Hne].
  - exists r'. split; [|by apply Hl]. apply list_lookup_insert_eq. by eapply lookup_lt_Some.
  - rewrite list_lookup_insert_ne by congruence. apply Hs. by apply Hrs.
Qed.

Lemma stage_registered i r st s : registered_ok s -> objs s !! i = Some r -> st <> Stopped -> registered_ok (set_stage i st s).
Proof. intros Hs Hi Hst. rewrite (set_stage_updated i st r s Hi). eapply updated_registered; [done | done | done |]. by intros _ E1. Qed.

Lemma cancel_registered i s : registered_ok s -> registered_ok (cancel i s).
Proof.
  intros Hs k Hk. unfold cancel in *. destruct (objs s !! i) as [r|] eqn:Hi; [|by apply Hs]. cbn in *.
  destruct (decide (k = i)) as [->|Hne].
  - eexists. split; [apply list_lookup_insert_eq; by eapply lookup_lt_Some | done].
  - rewrite list_lookup_insert_ne by congruence. by apply Hs.
Qed.

Lemma remove_registered i s : (forall k, k <> i -> k ∈ runners s -> exists r, objs s !! k = Some r /\ live r) -> (i ∈ runners s -> is_Some (objs s !! i)) ->
  registered_ok (removeMessageListener i s).2.
Proof.
  intros Hs Hsome k. unfold removeMessageListener. case_bool_decide as Hin; cbn.
  - intros Hk. apply list_elem_of_filter in Hk as [Hne Hk]. unfold cancel in *. destruct (Hsome Hin) as [r Hr]. rewrite Hr in *. cbn in *.
    rewrite list_lookup_insert_ne by congruence. by apply Hs.
  - intros Hk. apply Hs; [congruence | done].
Qed.

Lemma next_registered i r s : registered_ok s -> objs s !! i = Some r -> 0 <= sequenceNumber r ->
  (next i s).1 = false /\ registered_ok (next i s).2.
Proof.
  intros Hs Hi Hn. rewrite (next_shape i r s Hi), (bad_range_ok _ Hn). destruct (cancelled r) eqn:Ec; cbn; (split; [done|]).
  - eapply updated_registered; [done | done | done |]. by intros _ _.
  - eapply updated_registered; [done | done | done |]. by intros _ E1.
Qed.

Lemma read_caught_registered i r e s : registered_ok s -> objs s !! i = Some r -> 0 <= sequenceNumber r -> registered_ok (read_caught i e s).
Proof.
  intros Hs Hi Hn. unfold read_caught. destruct (handleInternalError e).
  - destruct (next_registered i r s Hs Hi Hn) as [E1 H1]. destruct (next i s) as [threw s1]. cbn in E1, H1. by subst threw.
  - apply remove_registered.
    + intros k Hne Hk. rewrite (set_stage_updated i _ r s Hi) in *. cbn in *. rewrite list_lookup_insert_ne by congruence. by apply Hs.
    + intros _. rewrite (set_stage_updated i _ r s Hi). eexists. by eapply updated_objs.
Qed.

(** The runner goes on from another sequence. *)
Lemma moved_registered i r r1 s s1 : registered_ok s -> objs s !! i = Some r -> objs s1 = objs s -> runners s1 = runners s ->
  r_stage r1 <> Stopped -> registered_ok (set_runner i r1 s1).
Proof.
  intros Hs Hi Eo Er Hst k Hk. cbn in *. rewrite Er in Hk. rewrite Eo. destruct (decide (k = i)) as [->|Hne].
  - exists r1. split; [apply list_lookup_insert_eq; by eapply lookup_lt_Some | by intros E1].
  - rewrite list_lookup_insert_ne by congruence. by apply Hs.
Qed.

Lemma read_answered_registered i r items nextSeq s : registered_ok s -> objs s !! i = Some r -> r_stage r <> Stopped ->
  0 <= sequenceNumber r -> 0 <= nextSeq -> registered_ok (read_answered i items nextSeq s).
Proof.
  intros Hs Hi Hst Hn Hnext. unfold read_answered. rewrite Hi. destruct (cancelled r) eqn:Ec.
  - rewrite (set_stage_updated i _ r s Hi). eapply updated_registered; [done | done | done |]. by intros _ _.
  - destruct (schedule_items i items (ticks s)) as [threw q]. destruct threw as [e|]; [by apply (read_caught_registered i r)|].
    set (r1 := mkRunner nextSeq false (r_stage r) (r_first r)). set (s1 := mkTopic _ _ _ _ _ _).
    assert (objs (set_runner i r1 s1) !! i = Some r1) as Hr1 by (apply list_lookup_insert_eq; by eapply lookup_lt_Some).
    destruct (next_registered i r1 (set_runner i r1 s1)) as [E1 H1]; [by eapply (moved_registered i r) | done | done |].
    destruct (next i (set_runner i r1 s1)) as [threw s2]. cbn in E1, H1. by subst threw.
Qed.

Lemma tail_answered_registered i r seq s : registered_ok s -> objs s !! i = Some r -> r_stage r <> Stopped -> 0 <= seq + 1 ->
  registered_ok (tail_answered i seq s).
Proof.
  intros Hs Hi Hst Hn. unfold tail_answered. rewrite Hi. set (r1 := mkRunner (seq + 1) (cancelled r) (r_stage r) (seq + 1)).
  assert (objs (set_runner i r1 s) !! i = Some r1) as Hr1 by (apply list_lookup_insert_eq; by eapply lookup_lt_Some).
  destruct (next_registered i r1 (set_runner i r1 s)) as [E1 H1]; [by eapply (moved_registered i r) | done | done |].
  destruct (next i (set_runner i r1 s)) as [threw s2]. cbn in E1, H1. by subst threw.
Qed.

(** The sequence of a runner that reads is not negative. *)
Lemma reading_nonneg s i r : topic_inv s -> objs s !! i = Some r ->
  match r_stage r with
  | ReadSent => 0 <= sequenceNumber r
  | ReadAnswered _ _ nextSeq => 0 <= sequenceNumber r /\ 0 <= nextSeq
  | TailAnswered seq => 0 <= seq + 1
  | _ => True
  end.
Proof.
  intros Hi Hr. destruct (ti_runners s Hi i r Hr) as (qs & _ & Hok). unfold stage_ok, reading in Hok.
  destruct (r_stage r); try done; [lia | lia |]. destruct Hok as (Hread & start & Hl & _ & -> & _). lia.
Qed.

Lemma step_registered_ok s s' : topic_inv s -> registered_ok s -> step s s' -> registered_ok s'.
Proof.
  intros Hi Hs Hstep. destruct Hstep.
  - intros k Hk. cbn in *. apply elem_of_app in Hk as [Hk|Hk].
    + destruct (Hs k Hk) as (r & Hr & Hl). exists r. split; [by apply lookup_app_l_Some | done].
    + apply list_elem_of_singleton in Hk as ->. eexists. split; [by apply list_lookup_middle | done].
  - apply remove_registered; [by auto|]. intros Hk. destruct (Hs i Hk) as (r & -> & _). by eexists.
  - unfold destroy. generalize (runners s) at 1. intros l. clear Hi. revert s Hs. induction l as [|i l IH]; intros s Hs; [done|]. cbn.
    by apply IH, cancel_registered.
  - by destruct (publish_shape _ _ _ _ H0) as [item ->].
  - by apply (stage_registered i r).
  - by apply (stage_registered i r).
  - by apply (stage_registered i r).
  - pose proof (reading_nonneg s i r Hi H0) as Hn. rewrite H1 in Hn. by apply (read_caught_registered i r).
  - done.
  - done.
  - done.
  - pose proof (reading_nonneg s i r Hi H0) as Hn. rewrite H1 in Hn. apply (tail_answered_registered i r); [done | done | by rewrite H1 | done].
  - pose proof (reading_nonneg s i r Hi H0) as Hn. rewrite H1 in Hn. apply (read_answered_registered i r); [done | done | by rewrite H1 | |]; apply Hn.
  - done.
  - done.
  - done.
  - done.
Qed.

Lemma reachable_registered rb s : rb_wf rb -> reachable rb s -> registered_ok s.
Proof.
  intros Hw Hs. refine (proj2 (rtc_ind_r (fun s => topic_inv s /\ registered_ok s) (new_topic rb) _ _ s Hs)).
  - split; [by apply new_topic_inv|]. intros i Hi. by apply not_elem_of_nil in Hi.
  - intros x y _ Hstep [H1 H2]. split; [by eapply step_topic_inv | by eapply step_registered_ok].
Qed.

(** *** A listener catches up *)

(** The answers to the requests of the runner [i], their callbacks, and the scheduled calls of listeners. *)
Inductive runs i s : Topic -> Prop :=
  | runs_served r : objs s !! i = Some r -> r_stage r = ReadSent ->
      let start := rb_start (sequenceNumber r) (ring s) in
      let items := rb_read start batchSize (ring s) in
      1 <= Z.of_nat (length items) ->
      runs i s (set_stage i (ReadAnswered (Z.of_nat (length items)) items (Z.of_nat (start + length items))) s)
  | runs_tail r seq : objs s !! i = Some r -> r_stage r = TailAnswered seq -> runs i s (tail_answered i seq s)
  | runs_read r n items nextSeq : objs s !! i = Some r -> r_stage r = ReadAnswered n items nextSeq ->
      runs i s (read_answered i items nextSeq s)
  | runs_tick k m q : ticks s = (k, m) :: q -> runs i s (mkTopic (ring s) (objs s) (runners s) q (calls s ++ [(k, m)]) (publishers s)).

Lemma runs_step i s s' : runs i s s' -> step s s'.
Proof. destruct 1; [by eapply read_served | by eapply tail_called | by eapply read_called | by apply ticked]. Qed.

(** Scheduled messages reach their listeners. *)
Lemma ticks_run i s : exists s', rtc (runs i) s s' /\ calls s' = calls s ++ ticks s /\ ring s' = ring s.
Proof.
  remember (ticks s) as q eqn:Eq. revert s Eq. induction q as [|[k m] q IH]; intros s Eq.
  - exists s. split_and!; [done | by rewrite app_nil_r | done].
  - destruct (IH (mkTopic (ring s) (objs s) (runners s) q (calls s ++ [(k, m)]) (publishers s)) eq_refl) as (s' & Hs & Ec & Er).
    exists s'. split_and!; [eapply rtc_l; [by apply (runs_tick i s k m q)|done] | | done]. rewrite Ec. cbn. by rewrite <- app_assoc.
Qed.

Definition readable (d : D) : Prop := exists m, message_of d = inr m.
Definition gives (items : list D) (ms : list (Message T A E)) : Prop := Forall2 (fun d m => message_of d = inr m) items ms.

Lemma readable_gives items : Forall readable items -> exists ms, gives items ms.
Proof.
  induction 1 as [|d items [m Hm] _ [ms IH]]; [exists []; constructor|]. exists (m :: ms). by constructor.
Qed.

Lemma schedule_all i items ms : gives items ms -> forall q, schedule_items i items q = (None, q ++ map (pair i) ms).
Proof.
  induction 1 as [|d m items ms Hm _ IH]; intros q; cbn; [by rewrite app_nil_r|]. by rewrite Hm, IH, <- app_assoc.
Qed.

Lemma read_answered_all i r items nextSeq ms s : objs s !! i = Some r -> cancelled r = false -> 0 <= nextSeq -> gives items ms ->
  read_answered i items nextSeq s = updated i (mkRunner nextSeq false ReadSent (r_first r)) (runners s) ms s.
Proof.
  intros Hr Hc Hn Hg. unfold read_answered. rewrite Hr, Hc, (schedule_all i items ms Hg).
  set (r1 := mkRunner nextSeq false (r_stage r) (r_first r)).
  match goal with |- context [next i ?x] => change x with (updated i r1 (runners s) ms s) end.
  pose proof (updated_objs i r r1 (runners s) ms s Hr) as Hr1. rewrite (next_shape i r1 _ Hr1). cbn [cancelled r1 sequenceNumber].
  rewrite (bad_range_ok _ Hn). by rewrite updated_updated.
Qed.

Lemma tail_answered_all i r seq s : objs s !! i = Some r -> cancelled r = false -> 0 <= seq + 1 ->
  tail_answered i seq s = updated i (mkRunner (seq + 1) false ReadSent (seq + 1)) (runners s) [] s.
Proof.
  intros Hr Hc Hn. unfold tail_answered. rewrite Hr, Hc. set (r1 := mkRunner (seq + 1) false (r_stage r) (seq + 1)).
  assert (set_runner i r1 s = updated i r1 (runners s) [] s) as -> by (unfold updated; by rewrite app_nil_r).
  rewrite (next_shape i r1 _ (updated_objs i r r1 _ _ s Hr)). cbn [cancelled r1 sequenceNumber]. rewrite (bad_range_ok _ Hn).
  by rewrite updated_updated.
Qed.

(** A runner whose read is under way. *)
Record waiting i (seq : Z) s : Prop := {
  w_runner : exists first, objs s !! i = Some (mkRunner seq false ReadSent first);
  w_seq : 0 <= seq <= Z.of_nat (rb_next (ring s));
  w_readable : Forall readable (rb_written (ring s));
  w_wf : rb_wf (ring s)
}.

Lemma updated_waiting i r seq first rs ms s : objs s !! i = Some r -> 0 <= seq <= Z.of_nat (rb_next (ring s)) ->
  Forall readable (rb_written (ring s)) -> rb_wf (ring s) -> waiting i seq (updated i (mkRunner seq false ReadSent first) rs ms s).
Proof. intros Hr. split; [|done..]. exists first. by eapply updated_objs. Qed.

(** The messages of a batch are scheduled. *)
Lemma batch_read i seq s : waiting i seq s -> let start := rb_start seq (ring s) in (start < rb_next (ring s))%nat ->
  exists s' n ms, rtc (runs i) s s' /\ (1 <= n)%nat /\ gives (take n (drop start (rb_written (ring s)))) ms /\
    ring s' = ring s /\ calls s' = calls s /\ ticks s' = ticks s ++ map (pair i) ms /\ waiting i (Z.of_nat (start + n)) s'.
Proof.
  intros [[first Hr] Hseq Hread Hw] start Hlt. set (items := rb_read start batchSize (ring s)).
  assert (length items = Nat.min (Z.to_nat batchSize) (rb_next (ring s) - start)) as El
    by (unfold items, rb_read; by rewrite length_take, length_drop).
  assert (items = take (length items) (drop start (rb_written (ring s)))) as Ei.
  { unfold items at 1, rb_read. rewrite El, <- take_take, (take_ge (drop _ _) (rb_next (ring s) - start)); [done|]. rewrite length_drop. done. }
  destruct (readable_gives items) as [ms Hms]; [by apply Forall_take, Forall_drop|].
  assert (1 <= Z.of_nat (length items)) as Hl1 by lia.
  assert (runs i s (set_stage i (ReadAnswered (Z.of_nat (length items)) items (Z.of_nat (start + length items))) s)) as S1
    by exact (runs_served i s _ Hr eq_refl Hl1).
  rewrite (set_stage_updated _ _ _ _ Hr) in S1. set (s1 := updated _ _ _ _ s) in S1.
  pose proof (updated_objs i _ (staged (ReadAnswered (Z.of_nat (length items)) items (Z.of_nat (start + length items))) (mkRunner seq false ReadSent first))
    (runners s) [] s Hr) as Hr1. fold s1 in Hr1.
  pose proof (runs_read i s1 _ _ items _ Hr1 eq_refl) as S2. rewrite (read_answered_all i _ items _ ms s1 Hr1 eq_refl) in S2 by (done || lia).
  eexists _, (length items), ms. split; [eapply rtc_l; [exact S1|]; apply rtc_once; exact S2|]. rewrite <- Ei.
  split_and!; [lia | done | done | done | cbn; by rewrite app_nil_r |]. eapply updated_waiting; [exact Hr1 | cbn; lia | done | done].
Qed.

(** Every message that is left from its sequence on reaches the listener, in order. *)
Lemma caught_up k : forall i seq s, waiting i seq s -> (rb_next (ring s) - rb_start seq (ring s) <= k)%nat ->
  exists s' ms, rtc (runs i) s s' /\ ring s' = ring s /\ calls s' = calls s ++ ticks s ++ map (pair i) ms /\
    gives (drop (rb_start seq (ring s)) (rb_written (ring s))) ms.
Proof.
  induction k as [|k IH]; intros i seq s Hwt Hk; set (start := rb_start seq (ring s)) in *;
    (destruct (decide (start < rb_next (ring s))%nat) as [Hlt|Hge];
     [try lia|destruct (ticks_run i s) as (s' & Hs & Ec & Er); exists s', []; rewrite app_nil_r; split_and!; [done | done | done |];
        rewrite drop_ge by (unfold rb_next in Hge; lia); constructor]).
  destruct (batch_read i seq s Hwt Hlt) as (s1 & n & ms & S1 & Hn & Hms & Er & Ec & Et & Hwt1). fold start in Hms, Hwt1.
  assert (rb_start (Z.of_nat (start + n)) (ring s) = start + n)%nat as Es.
  { pose proof (w_seq _ _ _ Hwt1) as Hb. rewrite Er in Hb. pose proof (rb_start_range seq (ring s) (w_wf _ _ _ Hwt)) as Hb2.
    fold start in Hb2. unfold rb_start. lia. }
  destruct (IH i _ s1 Hwt1) as (s' & ms' & S2 & Er' & El & Hq); [rewrite Er, Es; lia|]. rewrite Er, Es in Hq. rewrite Ec, Et in El.
  exists s', (ms ++ ms'). split_and!; [by etrans | congruence | by rewrite map_app; rewrite <- app_assoc in El |].
  rewrite <- (take_drop n (drop start _)), drop_drop. by apply Forall2_app.
Qed.

(** A runner whose registration is complete comes to a read at a sequence that the ringbuffer had not passed. *)
Definition subscribed r : Prop :=
  cancelled r = false /\ match r_stage r with TailAnswered _ | ReadSent | ReadAnswered _ _ _ => True | _ => False end.

(** The items whose callback has not run, and the sequence the runner reads from after it. *)
Definition answered_items r : list D := match r_stage r with ReadAnswered _ items _ => items | _ => [] end.
Definition upcoming r : Z :=
  match r_stage r with TailAnswered seq => seq + 1 | ReadAnswered _ _ nextSeq => nextSeq | _ => sequenceNumber r end.

Lemma comes_to_read s i r : topic_inv s -> Forall readable (rb_written (ring s)) -> objs s !! i = Some r -> subscribed r ->
  exists s' ms, rtc (runs i) s s' /\ ring s' = ring s /\ calls s' = calls s /\ ticks s' = ticks s ++ map (pair i) ms /\
    gives (answered_items r) ms /\ waiting i (upcoming r) s' /\ upcoming r <= Z.of_nat (rb_next (ring s)).
Proof.
  intros Hi Hread Hr [Hc Hst]. pose proof (ti_ring s Hi) as Hw. unfold answered_items, upcoming.
  destruct (ti_runners s Hi i r Hr) as (qs & _ & Hok). unfold stage_ok, reading in Hok.
  destruct (r_stage r) as [|seq| |n items nx| |] eqn:Es; try done.
  - pose proof (runs_tail i s r seq Hr Es) as S1. rewrite (tail_answered_all i r seq s Hr Hc) in S1 by lia.
    eexists _, []. split_and!; [by apply rtc_once | done | done | done | constructor | | lia].
    eapply updated_waiting; [exact Hr | lia | done | done].
  - exists s, []. rewrite app_nil_r. split_and!; [done | done | done | done | constructor | | lia].
    split; [|lia|done|done]. exists (r_first r). destruct r. cbn in *. congruence.
  - destruct Hok as (Hrd & start & Hl & Ei & En & Hseq & _).
    destruct (readable_gives items) as [ms Hms]; [rewrite Ei; by apply Forall_take, Forall_drop|].
    pose proof (runs_read i s r n items nx Hr Es) as S1. rewrite (read_answered_all i r items nx ms s Hr Hc) in S1 by (done || lia).
    eexists _, ms. split_and!; [by apply rtc_once | done | done | done | done | | lia].
    eapply updated_waiting; [exact Hr | cbn; lia | done | done].
Qed.

(** What is added while a listener is subscribed reaches it. *)
Lemma added_reaches s i r d m : topic_inv s -> Forall readable (rb_written (ring s)) -> objs s !! i = Some r -> subscribed r ->
  message_of d = inr m -> let s0 := with_ring (rb_push d (ring s)) s in
  exists s' ms1 ms, rtc (runs i) s0 s' /\ ring s' = ring s0 /\ calls s' = calls s ++ ticks s ++ map (pair i) (ms1 ++ ms) /\
    gives (answered_items r) ms1 /\ gives (drop (rb_start (upcoming r) (ring s0)) (rb_written (ring s0))) ms /\ last ms = Some m.
Proof.
  intros Hi Hread Hr Hsub Hm s0.
  assert (topic_inv s0) as Hi0.
  { apply grows_inv; [done | | apply rb_push_wf, Hi]. split; cbn; [by apply prefix_app_r | lia]. }
  destruct (comes_to_read s i r Hi Hread Hr Hsub) as (_ & _ & _ & _ & _ & _ & _ & _ & Hup).
  destruct (comes_to_read s0 i r) as (s1 & ms1 & S1 & Er & Ec & Et & H1 & Hwt & _); try done.
  { cbn. apply Forall_app. split; [done|]. constructor; [by exists m | constructor]. }
  destruct (caught_up _ i _ s1 Hwt (Nat.le_refl _)) as (s' & ms & S2 & Er' & El & Hg). rewrite Er in Hg.
  exists s', ms1, ms. rewrite Ec, Et, <- app_assoc, <- map_app in El. split_and!; [by etrans | congruence | done | done | done |].
  assert (rb_start (upcoming r) (ring s0) <= length (rb_written (ring s)))%nat as Hlt.
  { pose proof (wf_capacity _ (ti_ring s Hi)). pose proof (wf_head _ (ti_ring s Hi)). unfold rb_start, rb_next in *. cbn. unfold rb_next. lia. }
  cbn [rb_written rb_push s0 with_ring ring] in Hg. rewrite drop_app_le in Hg by done.
  apply Forall2_app_inv_l in Hg as (ma & mb & _ & Hb & ->). inversion Hb as [|? m' ? tl E1 E2]; subst. inversion E2; subst.
  rewrite Hm in E1. injection E1 as <-. apply last_snoc.
Qed.

(** ** Runners that are dead but registered *)

(** A runner whose request for the tail failed does nothing more. *)
Lemma tail_failed_for_good s s' i r : objs s !! i = Some r -> r_stage r = TailFailed -> step s s' ->
  exists r', objs s' !! i = Some r' /\ r_stage r' = TailFailed.
Proof.
  intros Hr Hst Hstep.
  assert (forall k r1 r' rs ms s1, objs s1 = objs s -> objs s !! k = Some r1 -> r_stage r1 <> TailFailed -> exists r2, objs (updated k r' rs ms s1) !! i = Some r2 /\ r_stage r2 = TailFailed) as Hother.
  { intros k r1 r' rs ms s1 Eo Hk Hne. exists r. cbn. rewrite Eo, list_lookup_insert_ne; [done|]. intros ->. congruence. }
  assert (forall k x, (exists r', objs x !! i = Some r' /\ r_stage r' = TailFailed) -> exists r', objs (cancel k x) !! i = Some r' /\ r_stage r' = TailFailed) as Hcancel.
  { intros k x (r' & Hx & Hx'). unfold cancel. destruct (objs x !! k) as [rk|] eqn:Hk; [|by exists r']. cbn.
    destruct (decide (k = i)) as [->|Hne].
    - rewrite Hx in Hk. injection Hk as <-. rewrite list_lookup_insert_eq by (by eapply lookup_lt_Some). by eexists.
    - rewrite list_lookup_insert_ne by congruence. by exists r'. }
  destruct Hstep; try (by exists r).
  - exists r. split; [by apply lookup_app_l_Some | done].
  - unfold removeMessageListener. case_bool_decide; [|by exists r]. apply Hcancel. by exists r.
  - assert (exists r', objs s !! i = Some r' /\ r_stage r' = TailFailed) as Hx by (by exists r). unfold destroy. generalize (runners s). intros l.
    clear Hr Hst Hother. revert s Hx. induction l as [|k l IH]; intros s Hx; [done|]. cbn. by apply IH, Hcancel.
  - destruct (publish_shape _ _ _ _ H0) as [item ->]. by exists r.
  - rewrite (set_stage_updated _ _ r0) by done. eapply Hother; [done | done | congruence].
  - rewrite (set_stage_updated _ _ r0) by done. eapply Hother; [done | done | congruence].
  - rewrite (set_stage_updated _ _ r0) by done. eapply Hother; [done | done | congruence].
  - destruct (read_caught_shape i0 r0 e s) as (r' & rs & -> & _); [done|]. eapply Hother; [done | done | congruence].
  - destruct (tail_answered_shape i0 r0 seq s) as (r' & -> & _); [done|]. eapply Hother; [done | done | congruence].
  - destruct (read_answered_shape i0 r0 items nextSeq s) as (r' & rs & pre & ms & -> & _); [done | done |]. eapply Hother; [done | done | congruence].
Qed.
End ReliableTopic.

(** A batch size that [readMany] does not accept is found only when the listener was added, and only logged: the listener stays
    registered and is never called. *)
Lemma large_batch_reads_nothing {D T A P E : Type} `{TopicSerialization D T A P E} (batchSize : Z) (s : Topic (D := D) (T := T) (A := A) (E := E)) i r seq :
  MAX_BATCH_SIZE < batchSize -> objs s !! i = Some r -> cancelled r = false ->
  tail_answered batchSize i seq s = set_stage i TailFailed (set_runner i (mkRunner (seq + 1) false (r_stage r) (seq + 1)) s).
Proof.
  intros Hb Hr Hc. unfold tail_answered. rewrite Hr, Hc. set (r1 := mkRunner _ _ _ _).
  assert (objs (set_runner i r1 s) !! i = Some r1) as Hr1 by (apply list_lookup_insert_eq; by eapply lookup_lt_Some).
  rewrite (next_shape batchSize i r1 _ Hr1). cbn [cancelled r1]. unfold bad_range. rewrite (proj2 (Z.ltb_lt MAX_BATCH_SIZE batchSize) Hb).
  by rewrite orb_true_r.
Qed.

(** The delay before a message is sent again is computed and not waited for: the request is under way at once. *)
Lemma block_sends_at_once delay : exists delay', add_answered BLOCK delay (-1) = AddSent delay' /\ delay' <= TOPIC_MAX_BACKOFF.
Proof.
  eexists. split; [reflexivity|]. destruct (Z.ltb_spec TOPIC_MAX_BACKOFF (2 * delay)); lia.
Qed.

(** ** Properties *)

(** C6: a listener of a reliable topic is called in the order of the ringbuffer, with no message twice. In every state that is
    reached (by any order of listeners added and removed, publications, requests of runners served or failed, retries, expiry
    and overwriting), if an item that cannot be read fails with an error that is neither a timeout nor a sign of
    being offline, then the messages a listener was called with, and those that are scheduled for it, are those of increasing sequences,
    not before the one that was next when it was added; of the messages before the sequence the runner has come to, only
    those that have left the ringbuffer are missing. *)
Theorem topic_messages_in_order {D T A P E : Type} `{TopicSerialization D T A P E} (batchSize : Z) (policy : TopicOverloadPolicy)
    (address : A) (rb : Ring D) (s : Topic) (i : nat) (r : Runner D) :
  rb_wf rb -> (forall d e, message_of d = inl e -> handleInternalError e = false) ->
  reachable batchSize policy address rb s -> objs s !! i = Some r ->
  exists qs, StronglySorted lt qs /\ Forall2 (delivers (ring s)) qs (received i s) /\
    Forall (fun q => r_first r <= Z.of_nat q) qs /\
    forall q, r_first r <= Z.of_nat q < sequenceNumber r -> q ∈ qs \/ (q < rb_head (ring s))%nat.
Proof.
  intros Hw Hf Hs Hr. destruct (topic_reachable_inv batchSize policy address Hf rb s Hw Hs) as [Hi _].
  destruct (ti_runners s Hi i r Hr) as (qs & Hc & _). by exists qs.
Qed.

(** C7: a message that is added to the ringbuffer while a listener is subscribed reaches it, once the answers to the requests of its
    runner come. In every state that is reached, if the batch size is one that [readMany] accepts, a listener that the proxy has
    and did not cancel has a runner that has not stopped, whatever requests failed. If further its first request was
    answered, and the messages in the ringbuffer can be read, then after a message is added there is a run that consists
    only of answers to this runner's reads, their callbacks and the scheduled calls (nothing is added meanwhile), and in it the listener is
    called with the messages that were scheduled, then with those of the answer whose callback had not run, then with
    the message of every sequence from the one the runner reads next (or the oldest left) to the last, each once and in order; the last
    is the message added. *)
Theorem published_reaches_listener {D T A P E : Type} `{TopicSerialization D T A P E} (batchSize : Z) (policy : TopicOverloadPolicy)
    (address : A) (rb : Ring D) (s : Topic) (i : nat) :
  rb_wf rb -> (forall d e, message_of d = inl e -> handleInternalError e = false) -> 1 <= batchSize <= MAX_BATCH_SIZE ->
  reachable batchSize policy address rb s -> i ∈ runners s ->
  exists r, objs s !! i = Some r /\ (r_stage r = Stopped -> cancelled r = true) /\
    (cancelled r = false -> r_stage r <> TailSent -> r_stage r <> TailFailed -> Forall readable (rb_written (ring s)) ->
     forall d m, message_of d = inr m ->
       let s0 := with_ring (rb_add (overflowPolicyToId OVERWRITE) d (ring s)).2 s in
       exists s' ms1 ms, rtc (runs batchSize i) s0 s' /\ ring s' = ring s0 /\
         calls s' = calls s ++ ticks s ++ map (pair i) (ms1 ++ ms) /\
         gives (answered_items r) ms1 /\ gives (drop (rb_start (upcoming r) (ring s0)) (rb_written (ring s0))) ms /\
         last ms = Some m).
Proof.
  intros Hw Hf Hb Hs Hi. destruct (reachable_registered batchSize policy address Hf Hb rb s Hw Hs i Hi) as (r & Hr & Hl).
  exists r. split_and!; [done | done |]. intros Hc H1 H2 Hread d m Hm.
  apply (added_reaches batchSize Hb s i r d m); try done; [by apply (topic_reachable_inv batchSize policy address Hf rb)|].
  split; [done|]. unfold live in Hl. destruct (r_stage r); try done. specialize (Hl eq_refl). congruence.
Qed.

(** What a settled call of [publish] tells: a message is added at most once; if the promise is fulfilled it was added, at a
    sequence where it is found, unless the policy is to discard new messages. *)
Theorem publish_outcome {D T A P E : Type} `{TopicSerialization D T A P E} (batchSize : Z) (policy : TopicOverloadPolicy)
    (address : A) (rb : Ring D) (s : Topic) (j : nat) (p : Publisher D) :
  rb_wf rb -> (forall d e, message_of d = inl e -> handleInternalError e = false) ->
  reachable batchSize policy address rb s -> publishers s !! j = Some p ->
  (length (p_added p) <= 1)%nat /\
  (p_stage p = Published -> policy <> DISCARD_NEWEST -> exists n, p_added p = [n] /\ rb_written (ring s) !! n = Some (p_item p)).
Proof.
  intros Hw Hf Hs Hp. destruct (topic_reachable_inv batchSize policy address Hf rb s Hw Hs) as [_ Hps].
  pose proof (Forall_lookup_1 _ _ _ _ Hps Hp) as Hok. split.
  - by apply (added_once policy (ring s)).
  - intros Es Hne. unfold publisher_ok in Hok. rewrite Es in Hok. destruct Hok as [Ha|[Ed _]]; [exact Ha | done].
Qed.

(** ** Witnesses *)

#[local] Instance flag_messages : TopicSerialization bool Z unit bool bool := {
  payload_data o := inr o;
  item_data m := inr (payload_of m);
  item_object d := inr (mkReliableTopicMessage 0 tt d);
  payload_object p := inr p
}.
Definition demo_ring : Ring bool := mkRing [] 0 2 false.
(** A listener that waits for messages. *)
Definition demo_listening : Topic := mkTopic (T := Z) (A := unit) (E := bool) demo_ring [mkRunner 0 false ReadSent 0] [0%nat] [] [] [].
(** It has got one, another client published it. *)
Definition demo_received : Topic :=
  mkTopic (mkRing [true] 0 2 false) [mkRunner 1 false ReadSent 0] [0%nat] [(0%nat, mkMessage true tt 0)] [] [].

Lemma demo_listening_reachable : reachable 10 BLOCK tt demo_ring demo_listening.
Proof.
  eapply rtc_l; [apply does_add_listener|].
  eapply rtc_l; [eapply (tail_served _ _ _ _ 0%nat); reflexivity|].
  eapply rtc_l; [eapply (tail_called _ _ _ _ 0%nat); reflexivity|]. apply rtc_refl.
Qed.

Lemma demo_received_reachable : reachable 10 BLOCK tt demo_ring demo_received.
Proof.
  unfold reachable. etrans; [apply demo_listening_reachable|].
  eapply rtc_l; [apply (others_add _ _ _ _ 0 true)|].
  eapply rtc_l; [eapply (read_served _ _ _ _ 0%nat); [reflexivity | reflexivity | vm_compute; discriminate]|].
  eapply rtc_l; [eapply (read_called _ _ _ _ 0%nat); reflexivity|]. apply rtc_refl.
Qed.

Lemma demo_ring_wf : rb_wf demo_ring.
Proof. split; cbn; lia. Qed.

Lemma topic_messages_in_order_witness : exists qs, StronglySorted lt qs /\
  Forall2 (delivers (ring demo_received)) qs [mkMessage true tt 0] /\ (0%nat ∈ qs \/ (0 < 0)%nat).
Proof.
  destruct (topic_messages_in_order 10 BLOCK tt demo_ring demo_received 0 (mkRunner 1 false ReadSent 0)) as (qs & H1 & H2 & _ & H4).
  - exact demo_ring_wf.
  - intros d e E1. discriminate E1.
  - exact demo_received_reachable.
  - reflexivity.
  - exists qs. split; [exact H1|]. split; [exact H2|]. apply (H4 0%nat). cbn. lia.
Defined.

Lemma published_reaches_listener_witness : exists s',
  rtc (runs 10 0%nat) (with_ring (mkRing [true] 0 2 false) demo_listening) s' /\ calls s' = [(0%nat, mkMessage true tt 0)].
Proof.
  destruct (published_reaches_listener 10 BLOCK tt demo_ring demo_listening 0) as (r & Hr & _ & Hrun).
  - exact demo_ring_wf.
  - intros d e E1. discriminate E1.
  - unfold MAX_BATCH_SIZE. lia.
  - exact demo_listening_reachable.
  - constructor.
  - injection Hr as <-.
    destruct (Hrun eq_refl ltac:(discriminate) ltac:(discriminate) ltac:(constructor) true _ eq_refl) as (s' & ms1 & ms & H1 & _ & H2 & G1 & G2 & _).
    exists s'. split; [exact H1|]. inversion G1; subst ms1. inversion G2 as [|? m ? l E1 E2]; subst ms. inversion E2; subst l.
    injection E1 as <-. exact H2.
Defined.
