(* ===== verification/ConnectionRegistry.v ===== *)
(** * Load balancers and the registry of connections

    [AbstractLoadBalancer] of [src/core/LoadBalancer.ts], the two balancers of [src/util/RandomLB.ts]
    and [src/util/RoundRobinLB.ts], and [ConnectionRegistryImpl] of
    [src/network/ConnectionManager.ts], which answers every routing question of the invocation
    service. A connection is named by its id. The balancer is an interface ([LoadBalancer]), as in
    the client, where the user may supply one. *)

From S2P Require Export Errors UuidText.
#[local] Open Scope Z_scope.

(** ** Load balancers *)

(** [MemberImpl] of [src/core/Member.ts]. *)
Record MemberImpl (L : Type) := mkMember {
  m_address : AddressImpl; m_uuid : UUID L; m_attributes : js_map string string;
  m_liteMember : bool; m_version : MemberVersion; m_addressMap : js_map EndpointQualifier AddressImpl }.
Arguments mkMember {L}. Arguments m_address {L}. Arguments m_uuid {L}. Arguments m_attributes {L}.
Arguments m_liteMember {L}. Arguments m_version {L}. Arguments m_addressMap {L}.

(** What the registry uses of a balancer; [rnd] is the answer of the random number generator:
    [randomInt n] is [rnd n], below [n]. *)
Class LoadBalancer (L B : Type) := {
  next : (nat -> nat) -> B -> option (MemberImpl L) * B;
  nextDataMember : (nat -> nat) -> B -> option (MemberImpl L) * B;
  canGetNextDataMember : B -> bool
}.

Section Balancers.
Context {L : Type}.
#[local] Abbreviation Member := (MemberImpl L).

(** The state of [AbstractLoadBalancer]: the lists are undefined until the first event. *)
Record AbstractLoadBalancer := mkBalancer {
  lb_members : option (list Member); lb_dataMembers : option (list Member) }.

Definition newBalancer : AbstractLoadBalancer := mkBalancer None None.

(** [setMembers], run on the initial event and on every membership event. *)
Definition setMembers (clusterMembers : list Member) (b : AbstractLoadBalancer) : AbstractLoadBalancer :=
  mkBalancer (Some clusterMembers) (Some (filter (fun m => m_liteMember m = false) clusterMembers)).

Definition pick_members (dataMember : bool) (b : AbstractLoadBalancer) : option (list Member) :=
  if dataMember then lb_dataMembers b else lb_members b.

Record RandomLB := mkRandomLB { random_base : AbstractLoadBalancer }.

Definition randomlb_next (rnd : nat -> nat) (dataMember : bool) (b : RandomLB) : option Member :=
  match pick_members dataMember (random_base b) with
  | None | Some [] => None
  | Some members => members !! rnd (length members)
  end.

#[global] Instance RandomLB_balancer : LoadBalancer L RandomLB := {
  next rnd b := (randomlb_next rnd false b, b);
  nextDataMember rnd b := (randomlb_next rnd true b, b);
  canGetNextDataMember _ := true
}.

Record RoundRobinLB := mkRoundRobinLB { rr_base : AbstractLoadBalancer; rr_index : Z }.

Definition INITIAL_SEED_CAP : Z := js_shl 1 16.

Definition newRoundRobinLB (seed : Z) : RoundRobinLB := mkRoundRobinLB newBalancer seed.

Definition rr_next (dataMember : bool) (b : RoundRobinLB) : option Member * RoundRobinLB :=
  match pick_members dataMember (rr_base b) with
  | None | Some [] => (None, b)
  | Some members =>
      let idx := rr_index b mod Z.of_nat (length members) in
      (members !! Z.to_nat idx, mkRoundRobinLB (rr_base b) (rr_index b + 1))
  end.

#[global] Instance RoundRobinLB_balancer : LoadBalancer L RoundRobinLB := {
  next _ b := rr_next false b;
  nextDataMember _ b := rr_next true b;
  canGetNextDataMember _ := true
}.

(** The members [n] calls of [next] return. *)
Fixpoint rr_calls (n : nat) (dataMember : bool) (b : RoundRobinLB) : list (option Member) * RoundRobinLB :=
  match n with
  | O => ([], b)
  | S n =>
      let '(m, b) := rr_next dataMember b in
      let '(ms, b) := rr_calls n dataMember b in (m :: ms, b)
  end.
End Balancers.
Arguments AbstractLoadBalancer : clear implicits.
Arguments RandomLB : clear implicits.
Arguments RoundRobinLB : clear implicits.

(** ** The registry *)

Inductive ConnectionState := INITIAL | CONNECTED_TO_CLUSTER | INITIALIZED_ON_CLUSTER.

#[global] Instance ConnectionState_eq_dec : EqDecision ConnectionState.
Proof. solve_decision. Defined.

Inductive ReconnectMode := OFF | ON | ASYNC.

#[global] Instance ReconnectMode_eq_dec : EqDecision ReconnectMode.
Proof. solve_decision. Defined.

Section Registry.
Context {L : Type} `{LongLib L} {B : Type} `{LoadBalancer L B}.

Record ConnectionRegistryImpl := mkRegistry {
  cr_active : bool;
  activeConnections : js_map string nat;
  loadBalancer : B;
  connectionState : ConnectionState;
  smartRoutingEnabled : bool;
  asyncStart : bool;
  reconnectMode : ReconnectMode
}.

Definition newConnectionRegistry (async : bool) (mode : ReconnectMode) (smart : bool) (lb : B)
    : ConnectionRegistryImpl := mkRegistry false [] lb INITIAL smart async mode.

Definition with_connections (r : ConnectionRegistryImpl) (cs : js_map string nat) : ConnectionRegistryImpl :=
  mkRegistry (cr_active r) cs (loadBalancer r) (connectionState r) (smartRoutingEnabled r)
    (asyncStart r) (reconnectMode r).

Definition with_balancer (r : ConnectionRegistryImpl) (lb : B) : ConnectionRegistryImpl :=
  mkRegistry (cr_active r) (activeConnections r) lb (connectionState r) (smartRoutingEnabled r)
    (asyncStart r) (reconnectMode r).

Definition isEmpty (r : ConnectionRegistryImpl) : bool := (length (activeConnections r) =? 0)%nat.

Definition getConnections (r : ConnectionRegistryImpl) : list nat := map snd (activeConnections r).

Definition getConnection (r : ConnectionRegistryImpl) (uuid : UUID L) : option nat :=
  js_map_get String.eqb (activeConnections r) (UUID_toString uuid).

(** The first connection, of a data member when asked for one. *)
Fixpoint first_connection (getMember : string -> option (MemberImpl L)) (dataMember : bool)
    (entries : js_map string nat) : option nat :=
  match entries with
  | [] => None
  | (uuid, connection) :: entries =>
      if dataMember && match getMember uuid with None => true | Some m => m_liteMember m end
      then first_connection getMember dataMember entries
      else Some connection
  end.

(** [getMember] is that of the cluster service. *)
Definition getRandomConnection (getMember : string -> option (MemberImpl L)) (rnd : nat -> nat)
    (dataMember : bool) (r : ConnectionRegistryImpl) : option nat * ConnectionRegistryImpl :=
  let '(member, r) :=
    if smartRoutingEnabled r then
      if dataMember then
        if canGetNextDataMember (L := L) (loadBalancer r) then
          let '(m, lb) := nextDataMember rnd (loadBalancer r) in (m, with_balancer r lb)
        else (None, r)
      else let '(m, lb) := next rnd (loadBalancer r) in (m, with_balancer r lb)
    else (None, r) in
  match (m ← member; getConnection r (m_uuid m)) with
  | Some connection => (Some connection, r)
  | None => (first_connection getMember dataMember (activeConnections r), r)
  end.

(** The error, if the state of the connections does not allow invocations. *)
Definition checkIfInvocationAllowed (r : ConnectionRegistryImpl) : option Err.t :=
  let state := connectionState r in
  if bool_decide (state = INITIALIZED_ON_CLUSTER) && (0 <? Z.of_nat (length (activeConnections r))) then None
  else if bool_decide (state = INITIAL) then
    if asyncStart r then Some Err.ClientOfflineError else Some Err.IOError
  else if bool_decide (reconnectMode r = ASYNC) then Some Err.ClientOfflineError
  else Some Err.IOError.

Definition deleteConnection (r : ConnectionRegistryImpl) (uuid : UUID L) : ConnectionRegistryImpl :=
  with_connections r (js_map_delete String.eqb (activeConnections r) (UUID_toString uuid)).2.

Definition setConnection (r : ConnectionRegistryImpl) (uuid : UUID L) (connection : nat) : ConnectionRegistryImpl :=
  with_connections r (js_map_set String.eqb (activeConnections r) (UUID_toString uuid) connection).

Definition setConnectionState (r : ConnectionRegistryImpl) (s : ConnectionState) : ConnectionRegistryImpl :=
  mkRegistry (cr_active r) (activeConnections r) (loadBalancer r) s (smartRoutingEnabled r)
    (asyncStart r) (reconnectMode r).

Definition set_active (b : bool) (r : ConnectionRegistryImpl) : ConnectionRegistryImpl :=
  mkRegistry b (activeConnections r) (loadBalancer r) (connectionState r) (smartRoutingEnabled r)
    (asyncStart r) (reconnectMode r).
Definition activate : ConnectionRegistryImpl -> ConnectionRegistryImpl := set_active true.
Definition deactivate : ConnectionRegistryImpl -> ConnectionRegistryImpl := set_active false.
End Registry.
Arguments ConnectionRegistryImpl : clear implicits.

(** ** Round robin *)

Section RoundRobin.
Context {L : Type}.
Implicit Types (b : RoundRobinLB L) (ms : list (MemberImpl L)).

Lemma rr_next_spec d b ms : pick_members d (rr_base b) = Some ms -> ms <> [] ->
  rr_next d b = (ms !! Z.to_nat (rr_index b mod Z.of_nat (length ms)), mkRoundRobinLB (rr_base b) (rr_index b + 1)).
Proof. intros E Hne. unfold rr_next. rewrite E. by destruct ms. Qed.

(** The calls of one round, in terms of the positions they pick. *)
Lemma rr_calls_spec d ms n : ms <> [] -> forall b, pick_members d (rr_base b) = Some ms ->
  rr_calls n d b = (map (fun i => ms !! Z.to_nat ((rr_index b + Z.of_nat i) mod Z.of_nat (length ms))) (seq 0 n),
    mkRoundRobinLB (rr_base b) (rr_index b + Z.of_nat n)).
Proof.
  intros Hne. induction n as [|n IH]; intros b E; [destruct b; cbn; by rewrite Z.add_0_r|].
  cbn [rr_calls]. rewrite (rr_next_spec d b ms E Hne), IH by done. cbn [rr_index rr_base].
  cbn [seq map]. rewrite Z.add_0_r, <- seq_shift, map_map. f_equal; [|f_equal; lia].
  f_equal. apply map_ext. intros i. do 3 f_equal. lia.
Qed.

(** [length l] consecutive positions modulo the length, from [k], read the list rotated by [k]. *)
Lemma rotation {A} (l : list A) (k : nat) : (k < length l)%nat ->
  map (fun i => l !! ((k + i) mod length l)%nat) (seq 0 (length l)) = map Some (drop k l ++ take k l).
Proof.
  intros Hk. apply list_eq. intros i.
  change (((fun i => l !! ((k + i) mod length l)%nat) <$> seq 0 (length l)) !! i = (Some <$> (drop k l ++ take k l)) !! i).
  rewrite !list_lookup_fmap. destruct (decide (i < length l)%nat) as [Hi|Hi].
  - rewrite lookup_seq_lt by done. cbn. rewrite lookup_app, lookup_drop, length_drop.
    destruct (decide (k + i < length l)%nat) as [Hki|Hki].
    + rewrite Nat.mod_small by done. destruct (lookup_lt_is_Some_2 l (k + i) Hki) as [x ->]. done.
    + rewrite (lookup_ge_None_2 l (k + i)) by lia. cbn.
      replace ((k + i) mod length l)%nat with (i - (length l - k))%nat.
      * rewrite lookup_take_lt by lia. destruct (lookup_lt_is_Some_2 l (i - (length l - k)) ltac:(lia)) as [x ->]. done.
      * apply (Nat.mod_unique _ _ 1); lia.
  - rewrite lookup_seq_ge by lia. rewrite lookup_ge_None_2; [done|]. rewrite length_app, length_drop, length_take. lia.
Qed.

(** The round-robin balancer is fair: as many calls as there are (data) members return each of
    them once, in the order of the member list from the current index on, and the index
    advances by one per call. *)
Theorem round_robin_fair (d : bool) b ms :
  pick_members d (rr_base b) = Some ms -> ms <> [] -> 0 <= rr_index b ->
  let k := Z.to_nat (rr_index b mod Z.of_nat (length ms)) in
  rr_calls (length ms) d b =
    (map Some (drop k ms ++ take k ms), mkRoundRobinLB (rr_base b) (rr_index b + Z.of_nat (length ms))) /\
  drop k ms ++ take k ms ≡ₚ ms.
Proof.
  intros E Hne Hi k.
  assert (0 < Z.of_nat (length ms)) as Hl by (destruct ms; [done | cbn; lia]).
  pose proof (Z.mod_pos_bound (rr_index b) _ Hl) as Hk. split.
  - rewrite (rr_calls_spec d ms _ Hne b E). f_equal. rewrite <- rotation by lia. apply map_ext_in.
    intros i _. f_equal. apply Nat2Z.inj. rewrite Z2Nat.id by (apply Z.mod_pos_bound; lia).
    rewrite Nat2Z.inj_mod, Nat2Z.inj_add. unfold k. rewrite Z2Nat.id by lia. by rewrite Zplus_mod_idemp_l.
  - rewrite Permutation_app_comm. by rewrite take_drop.
Qed.
End RoundRobin.

(** ** What a balancer promises *)

(** [lb_ok] is the invariant of a balancer under which its data members are data members. *)
Class LoadBalancerLaws (L B : Type) `{LoadBalancer L B} := {
  lb_ok : B -> Prop;
  nextDataMember_data rnd b m b' : lb_ok b -> nextDataMember rnd b = (Some m, b') -> m_liteMember m = false
}.

Section BalancerLaws.
Context {L : Type}.

Definition base_ok (b : AbstractLoadBalancer L) : Prop :=
  forall ms, lb_dataMembers b = Some ms -> Forall (fun m => m_liteMember m = false) ms.

Lemma newBalancer_ok : base_ok newBalancer.
Proof. intros ms E. discriminate E. Qed.

Lemma setMembers_ok ms b : base_ok (setMembers ms b).
Proof. intros ms' [= <-]. apply Forall_forall. intros m Hm. by apply list_elem_of_filter in Hm as [? _]. Qed.

#[global] Program Instance RandomLB_laws : LoadBalancerLaws L (RandomLB L) := {
  lb_ok b := base_ok (random_base b)
}.
Next Obligation.
  intros rnd [b] m b' Hb E. cbn in *. unfold randomlb_next, pick_members in E. cbn in E.
  destruct (lb_dataMembers b) as [[|x ms]|] eqn:Eb; try done. injection E as E _.
  specialize (Hb _ Eb). rewrite Forall_forall in Hb. by apply Hb, (list_elem_of_lookup_2 _ (rnd (length (x :: ms)))).
Qed.

#[global] Program Instance RoundRobinLB_laws : LoadBalancerLaws L (RoundRobinLB L) := {
  lb_ok b := base_ok (rr_base b)
}.
Next Obligation.
  intros rnd [b i] m b' Hb E. cbn in *. unfold rr_next, pick_members in E. cbn in E.
  destruct (lb_dataMembers b) as [[|x ms]|] eqn:Eb; try done. injection E as E _.
  specialize (Hb _ Eb). rewrite Forall_forall in Hb. eapply Hb, list_elem_of_lookup_2, E.
Qed.
End BalancerLaws.

(** ** The registry as a map from UUIDs to connections *)

Section RegistryProperties.
Context {L : Type} `{LongLaws L} {B : Type} `{LoadBalancer L B}.
Implicit Types (r : ConnectionRegistryImpl B).

Definition registry_wf r : Prop := js_map_wf String.eqb (activeConnections r).

Lemma eqb_uuid (u v : UUID L) : u <> v -> String.eqb (UUID_toString u) (UUID_toString v) = false.
Proof. intros Hne. apply String.eqb_neq. intros E. by apply Hne, UUID_toString_inj. Qed.

(** The registry is a map keyed by the UUID of the member: a connection set is the one found, until it
    is deleted, and no other member's connection is affected. *)
Theorem registry_is_map r (u v : UUID L) (c : nat) : registry_wf r ->
  registry_wf (setConnection r u c) /\ registry_wf (deleteConnection r u) /\
  getConnection (setConnection r u c) u = Some c /\
  getConnection (deleteConnection r u) u = None /\
  (u <> v -> getConnection (setConnection r u c) v = getConnection r v /\
             getConnection (deleteConnection r u) v = getConnection r v).
Proof.
  intros Hwf. unfold registry_wf, getConnection, setConnection, deleteConnection. cbn.
  rewrite !(js_map_get_set String.eqb String.eqb_eq), !(js_map_get_delete String.eqb String.eqb_eq) by done.
  rewrite !String.eqb_refl.
  split_and!; try done; [by apply js_map_set_wf, Hwf; apply String.eqb_eq | by apply js_map_delete_wf |].
  intros Hne. by rewrite eqb_uuid.
Qed.

(** ** Choosing a connection *)

Lemma first_connection_elem getMember d es c :
  first_connection (L := L) getMember d es = Some c ->
  exists key, (key, c) ∈ es /\ (d = true -> exists m, getMember key = Some m /\ m_liteMember m = false).
Proof.
  induction es as [|[key c'] es IH]; cbn; [done|]. intros E.
  destruct (d && _) eqn:Ed.
  - destruct (IH E) as (key' & Hm & Hd). exists key'. split; [by right | done].
  - injection E as ->. exists key. split; [by left|]. intros ->. cbn in Ed.
    destruct (getMember key) as [m|] eqn:Em; [eauto | done].
Qed.

Lemma first_connection_none getMember d es :
  first_connection (L := L) getMember d es = None -> forall key c, (key, c) ∈ es ->
  d = true /\ forall m, getMember key = Some m -> m_liteMember m = true.
Proof.
  induction es as [|[key c'] es IH]; cbn; intros E key' c Hin; [by apply not_elem_of_nil in Hin|].
  destruct (d && _) eqn:Ed; [|done]. apply andb_prop in Ed as [Hd Hk].
  apply elem_of_cons in Hin as [[= -> ->]|Hin]; [|by eapply IH]. split; [done|].
  intros m Em. by rewrite Em in Hk.
Qed.

(** The connection of the member the balancer picked, or else the first one. *)
Lemma random_connection_cases getMember rnd d r o r' :
  getRandomConnection getMember rnd d r = (o, r') ->
  activeConnections r' = activeConnections r /\
  ((exists c m lb, o = Some c /\ getConnection r (m_uuid m) = Some c /\
      (d = true -> nextDataMember rnd (loadBalancer r) = (Some m, lb))) \/
   o = first_connection getMember d (activeConnections r)).
Proof.
  unfold getRandomConnection. destruct (smartRoutingEnabled r); [|intros [= <- <-]; eauto].
  destruct d; [destruct (canGetNextDataMember (loadBalancer r)); [|intros [= <- <-]; eauto];
    destruct (nextDataMember rnd (loadBalancer r)) as [[m|] lb] eqn:Em
    | destruct (next rnd (loadBalancer r)) as [[m|] lb] eqn:Em]; cbn;
    [destruct (js_map_get _ _ _) as [c|] eqn:Ec |
    | destruct (js_map_get _ _ _) as [c|] eqn:Ec |];
    intros [= <- <-]; eauto; split; try done; left; by exists c, m, lb.
Qed.

Lemma random_connection_active getMember rnd d r o r' c :
  getRandomConnection (L := L) getMember rnd d r = (o, r') -> o = Some c -> c ∈ getConnections r.
Proof.
  intros E ->. destruct (random_connection_cases _ _ _ _ _ _ E) as [_ [(c' & m & lb & [= <-] & Ec & _)|Ec]].
  - apply (js_map_get_Some _ String.eqb_eq) in Ec. apply list_elem_of_fmap. by exists (UUID_toString (m_uuid m), c).
  - destruct (first_connection_elem _ _ _ _ (eq_sym Ec)) as (key & Hm & _). apply list_elem_of_fmap. by exists (key, c).
Qed.
End RegistryProperties.

Section RoutingProperties.
Context {L : Type} `{LongLaws L} {B : Type} `{LoadBalancerLaws L B}.

(** Routing finds a connection whenever it may: what [getRandomConnection] returns is an active connection;
    it returns none only if there is none at all or, when a data member is asked for, only if no active
    connection is to a known data member, and then it returns no connection to a lite
    member. An invocation that [checkIfInvocationAllowed] lets through always finds one. *)
Theorem random_connection_found (getMember : string -> option (MemberImpl L)) rnd d
    (r r' : ConnectionRegistryImpl B) o :
  lb_ok (loadBalancer r) -> getRandomConnection getMember rnd d r = (o, r') ->
  activeConnections r' = activeConnections r /\
  (forall c, o = Some c -> c ∈ getConnections r /\
     (d = true -> exists m, m_liteMember m = false /\
        (getConnection r (m_uuid m) = Some c \/
         exists key, getMember key = Some m /\ (key, c) ∈ activeConnections r))) /\
  (o = None -> forall key c, (key, c) ∈ activeConnections r ->
     d = true /\ forall m, getMember key = Some m -> m_liteMember m = true) /\
  (checkIfInvocationAllowed r = None -> d = false -> is_Some o).
Proof.
  intros Hlb E. destruct (random_connection_cases _ _ _ _ _ _ E) as [Ha Hc]. split_and!; [done | ..].
  - intros c ->. split; [by eapply random_connection_active|]. intros ->.
    destruct Hc as [(c' & m & lb & [= <-] & Ec & Em)|Ec].
    + exists m. split; [by eapply nextDataMember_data, Em | by left].
    + destruct (first_connection_elem _ _ _ _ (eq_sym Ec)) as (key & Hm & Hd).
      destruct (Hd eq_refl) as (m & Em & Hlite). exists m. split; [done|]. right. by exists key.
  - intros ->. destruct Hc as [(c' & m & lb & Hx & _)|Ec]; [discriminate Hx | by apply first_connection_none].
  - intros Hok ->. unfold checkIfInvocationAllowed in Hok. destruct (_ && _) eqn:Ea.
    + bool_hyps. destruct (activeConnections r) as [|[key c] es]; [cbn in *; lia|].
      destruct Hc as [(c' & m & lb & -> & _)| -> ]; done.
    + destruct (bool_decide (connectionState r = INITIAL)), (asyncStart r), (bool_decide (reconnectMode r = ASYNC)); done.
Qed.
End RoutingProperties.

(** ** Witnesses *)

Definition demo_uuid (n : Z) : UUID Int64.t := mkUUID (long_of_Z n) (long_of_Z n).
Definition demo_member (n : Z) (lite : bool) : MemberImpl Int64.t :=
  mkMember (mkAddress "host" n) (demo_uuid n) [] lite (mkMemberVersion 5 0 0) [].
Definition demo_members : list (MemberImpl Int64.t) := [demo_member 1 false; demo_member 2 true; demo_member 3 false].
Definition demo_balancer : RoundRobinLB Int64.t := mkRoundRobinLB (setMembers demo_members newBalancer) 4.
Definition demo_registry : ConnectionRegistryImpl (RoundRobinLB Int64.t) :=
  setConnectionState (setConnection (newConnectionRegistry false ON true demo_balancer) (demo_uuid 2) 7) INITIALIZED_ON_CLUSTER.

Lemma round_robin_fair_witness :
  (rr_calls 3 false demo_balancer).1 = [Some (demo_member 2 true); Some (demo_member 3 false); Some (demo_member 1 false)].
Proof.
  destruct (round_robin_fair false demo_balancer demo_members) as [E _].
  - reflexivity.
  - discriminate.
  - vm_compute. discriminate.
  - cbn [length demo_members] in E. rewrite E. reflexivity.
Defined.

Lemma registry_is_map_witness :
  getConnection (deleteConnection demo_registry (demo_uuid 2)) (demo_uuid 2) = None /\
  getConnection (setConnection demo_registry (demo_uuid 2) 8) (demo_uuid 2) = Some 8%nat.
Proof.
  destruct (registry_is_map demo_registry (demo_uuid 2) (demo_uuid 3) 8) as (_ & _ & E1 & E2 & _).
  - vm_compute. auto.
  - split; [exact E2 | exact E1].
Defined.

Lemma random_connection_found_witness :
  is_Some (getRandomConnection (fun _ => None) (fun _ => 0%nat) false demo_registry).1.
Proof.
  destruct (getRandomConnection (fun _ => None) (fun _ => 0%nat) false demo_registry) as [o r'] eqn:E.
  destruct (random_connection_found (fun _ => None) (fun _ => 0%nat) false demo_registry r' o) as (_ & _ & _ & Hf).
  - apply setMembers_ok.
  - exact E.
  - apply Hf; [vm_compute; reflexivity | reflexivity].
Defined.
