(* ===== verification/ClusterService.v ===== *)
(** * The member list

    [ClusterService] of [src/invocation/ClusterService.ts]: the snapshot of the cluster's members, kept
    current by the member views the cluster sends, and the membership listeners that are told
    of every change. The calls made to the listeners, and the connections the service closes, are
    recorded in the order they are made; what a listener does in its callback is its own. *)

From stdpp Require Import pretty.
From S2P Require Export ConnectionRegistry.
#[local] Open Scope Z_scope.

Section ClusterService.
Context {L : Type} `{LongLib L} {B : Type}.
#[local] Abbreviation Member := (MemberImpl L).

(** ** Members *)

(** [toString] of [src/core/Address.ts]. *)
Definition address_toString (a : AddressImpl) : string := host a +:+ ":" +:+ pretty (port a).

(** [id] of [src/core/Member.ts]; the members of a snapshot have a UUID. *)
Definition member_id (m : Member) : string := address_toString (m_address m) +:+ UUID_toString (m_uuid m).

(** [members] is the map by UUID text, [memberList] the list in the order of the view. *)
Record MemberListSnapshot := mkSnapshot {
  ms_version : Z; ms_members : js_map string Member; memberList : list Member }.

(** ** Events and listeners *)

Inductive MemberEvent := ADDED | REMOVED.

Record MembershipEvent := mkMembershipEvent {
  me_member : Member; me_eventType : MemberEvent; me_members : list Member }.

(** Which callbacks a listener defines. *)
Record MembershipListener := mkListener { has_init : bool; has_memberAdded : bool; has_memberRemoved : bool }.

Inductive call := Init (members : list Member) | MemberAdded (e : MembershipEvent) | MemberRemoved (e : MembershipEvent).

(** [memberListSnapshot] is [None] while it is the object [EMPTY_SNAPSHOT]; [calls] are the calls to the
    listeners and [closed] the connections closed, in order. *)
Record ClusterService := mkCluster {
  listeners : js_map string MembershipListener;
  memberListSnapshot : option MemberListSnapshot;
  calls : list (string * call);
  closed : list nat
}.

Definition newClusterService : ClusterService := mkCluster [] None [] [].

Definition with_snapshot (s : ClusterService) (sn : option MemberListSnapshot) : ClusterService :=
  mkCluster (listeners s) sn (calls s) (closed s).

Definition record_calls (s : ClusterService) (cs : list (string * call)) : ClusterService :=
  mkCluster (listeners s) (memberListSnapshot s) (calls s ++ cs) (closed s).

Definition EMPTY_SNAPSHOT : MemberListSnapshot := mkSnapshot (-1) [] [].

Definition current_snapshot (s : ClusterService) : MemberListSnapshot := default EMPTY_SNAPSHOT (memberListSnapshot s).

Definition getMemberList (s : ClusterService) : list Member := memberList (current_snapshot s).

Definition getMember (s : ClusterService) (uuid : string) : option Member :=
  js_map_get String.eqb (ms_members (current_snapshot s)) uuid.

Definition getMembers (selector : option (Member -> bool)) (s : ClusterService) : list Member :=
  match selector with
  | None => getMemberList s
  | Some f => filter (fun m => f m = true) (getMemberList s)
  end.

Definition getSize (s : ClusterService) : Z := Z.of_nat (length (ms_members (current_snapshot s))).

(** ** Operations *)

(** [registrationId] is the text of a generated UUID. *)
Definition addMembershipListener (registrationId : string) (listener : MembershipListener) (s : ClusterService)
    : ClusterService :=
  let s := mkCluster (js_map_set String.eqb (listeners s) registrationId listener)
             (memberListSnapshot s) (calls s) (closed s) in
  if has_init listener then
    let members := getMemberList s in
    if negb (length members =? 0)%nat then record_calls s [(registrationId, Init members)] else s
  else s.

Definition removeMembershipListener (listenerId : string) (s : ClusterService) : bool * ClusterService :=
  let '(b, ls) := js_map_delete String.eqb (listeners s) listenerId in
  (b, mkCluster ls (memberListSnapshot s) (calls s) (closed s)).

Definition cs_reset (s : ClusterService) : ClusterService := with_snapshot s None.

Definition clearMemberListVersion (s : ClusterService) : ClusterService :=
  match memberListSnapshot s with
  | None => s
  | Some sn => with_snapshot s (Some (mkSnapshot 0 (ms_members sn) (memberList sn)))
  end.

(** The call one listener gets for one event. *)
Definition fire_one (event : MembershipEvent) (l : string * MembershipListener) : list (string * call) :=
  match me_eventType event with
  | ADDED => if has_memberAdded l.2 then [(l.1, MemberAdded event)] else []
  | REMOVED => if has_memberRemoved l.2 then [(l.1, MemberRemoved event)] else []
  end.

Definition fireEvents (events : list MembershipEvent) (s : ClusterService) : ClusterService :=
  record_calls s (e ← events; l ← listeners s; fire_one e l).

(** [deadMembers] and [newMembers] of [detectMembershipEvents]. *)
Definition dead_init (prevMembers : list Member) : js_map string Member :=
  foldl (fun m member => js_map_set String.eqb m (member_id member) member) [] prevMembers.

Definition dead_step (acc : js_map string Member * list Member) (member : Member) : js_map string Member * list Member :=
  let '(found, dead) := js_map_delete String.eqb acc.1 (member_id member) in
  (dead, if found then acc.2 else acc.2 ++ [member]).

(** The events, and the connections closed: those of the removed members. *)
Definition detectMembershipEvents (prevMembers currentMembers : list Member)
    (connectionRegistry : ConnectionRegistryImpl B) : list MembershipEvent * list nat :=
  let '(dead, newMembers) := foldl dead_step (dead_init prevMembers, []) currentMembers in
  let deadMembers := map snd dead in
  (map (fun m => mkMembershipEvent m REMOVED currentMembers) deadMembers
   ++ map (fun m => mkMembershipEvent m ADDED currentMembers) newMembers,
   omap (fun m => getConnection connectionRegistry (m_uuid m)) deadMembers).

Definition apply_events (prevMembers currentMembers : list Member) (connectionRegistry : ConnectionRegistryImpl B)
    (s : ClusterService) : ClusterService :=
  let '(events, cs) := detectMembershipEvents prevMembers currentMembers connectionRegistry in
  fireEvents events (mkCluster (listeners s) (memberListSnapshot s) (calls s) (closed s ++ cs)).

Definition clearMemberList (connectionRegistry : ConnectionRegistryImpl B) (s : ClusterService) : ClusterService :=
  match memberListSnapshot s with
  | None => s
  | Some sn =>
      apply_events (memberList sn) [] connectionRegistry (with_snapshot s (Some (mkSnapshot 0 [] [])))
  end.

(** [createSnapshot]: [toString] of a missing UUID throws. *)
Definition member_of (i : MemberInfo L) : res Member :=
  match mi_uuid i with
  | None => Err TypeError
  | Some u => Ok (mkMember (mi_address i) u (mi_attributes i) (liteMember i) (mi_version i) (addressMap i))
  end.

Fixpoint members_of (infos : list (MemberInfo L)) : res (list Member) :=
  match infos with
  | [] => Ok []
  | i :: infos => m ← member_of i; ms ← members_of infos; Ok (m :: ms)
  end.

Definition createSnapshot (version : Z) (infos : list (MemberInfo L)) : res MemberListSnapshot :=
  ms ← members_of infos;
  Ok (mkSnapshot version
        (foldl (fun m member => js_map_set String.eqb m (UUID_toString (m_uuid member)) member) [] ms) ms).

Definition init_one (members : list Member) (l : string * MembershipListener) : list (string * call) :=
  if has_init l.2 then [(l.1, Init members)] else [].

Definition applyInitialState (version : Z) (infos : list (MemberInfo L)) (s : ClusterService) : res ClusterService :=
  snapshot ← createSnapshot version infos;
  let s := with_snapshot s (Some snapshot) in
  Ok (record_calls s (l ← listeners s; init_one (memberList snapshot) l)).

Definition handleMembersViewEvent (connectionRegistry : ConnectionRegistryImpl B) (memberListVersion : Z)
    (memberInfos : list (MemberInfo L)) (s : ClusterService) : res ClusterService :=
  match memberListSnapshot s with
  | None => applyInitialState memberListVersion memberInfos s
  | Some sn =>
      if ms_version sn <=? memberListVersion then
        snapshot ← createSnapshot memberListVersion memberInfos;
        Ok (apply_events (memberList sn) (memberList snapshot) connectionRegistry (with_snapshot s (Some snapshot)))
      else Ok s
  end.
End ClusterService.
Arguments MemberListSnapshot : clear implicits.
Arguments MembershipEvent : clear implicits.
Arguments call : clear implicits.
Arguments ClusterService : clear implicits.

(** ** Membership events *)

Section Events.
Context {L : Type} `{LongLaws L} {B : Type}.
Implicit Types (ms prev cur : list (MemberImpl L)) (s : ClusterService L).

Definition ids ms : gset string := list_to_set (map member_id ms).

Lemma elem_of_ids ms k : k ∈ ids ms <-> exists m, member_id m = k /\ m ∈ ms.
Proof.
  unfold ids. rewrite elem_of_list_to_set, list_elem_of_fmap. split; intros (m & E & Hm); eauto.
Qed.

(** A map of members under their own ids. *)
Definition by_id (d : js_map string (MemberImpl L)) : Prop :=
  js_map_wf String.eqb d /\ Forall (fun e => e.1 = member_id e.2) d.

Lemma by_id_keys d k : by_id d -> k ∈ ids (map snd d) <-> is_Some (js_map_get String.eqb d k).
Proof.
  intros [Hwf Hid]. rewrite Forall_forall in Hid. rewrite elem_of_ids. split.
  - intros (m & <- & Hm). apply list_elem_of_fmap in Hm as ([k' m'] & -> & Hm).
    exists m'. apply (js_map_get_elem _ String.eqb_eq); [done|].
    pose proof (Hid _ Hm) as E. cbn in *. by rewrite <- E.
  - intros [m Hm]. apply (js_map_get_Some _ String.eqb_eq) in Hm. exists m.
    split; [symmetry; exact (Hid _ Hm) | apply list_elem_of_fmap; by exists (k, m)].
Qed.

Lemma set_by_id d m : by_id d -> by_id (js_map_set String.eqb d (member_id m) m).
Proof.
  intros [Hwf Hid]. split; [by apply js_map_set_wf|]. clear Hwf.
  induction Hid as [|[k m'] d Hk Hid IH]; cbn in *; [by apply Forall_singleton|].
  destruct (String.eqb_spec k (member_id m)) as [->|]; by apply Forall_cons.
Qed.

Lemma delete_by_id d k : by_id d -> by_id (js_map_delete String.eqb d k).2.
Proof.
  intros [Hwf Hid]. split; [by apply js_map_delete_wf|]. clear Hwf.
  induction Hid as [|[k' m'] d Hk Hid IH]; cbn in *; [done|]. destruct (String.eqb k' k); [done|].
  destruct (js_map_delete String.eqb d k). by apply Forall_cons.
Qed.

Lemma ids_snoc ms m : ids (ms ++ [m]) = ids ms ∪ {[member_id m]}.
Proof. unfold ids. rewrite map_app, list_to_set_app_L. cbn. by rewrite (right_id_L ∅ (∪)). Qed.

Lemma dead_init_ok prev : by_id (dead_init prev) /\ ids (map snd (dead_init prev)) = ids prev.
Proof.
  unfold dead_init. induction prev as [|m prev [Hb E]] using rev_ind; [done|]. rewrite foldl_app. cbn [foldl].
  pose proof (set_by_id _ m Hb) as Hb'. split; [done|]. apply set_eq. intros k.
  rewrite by_id_keys, (js_map_get_set _ String.eqb_eq) by done.
  rewrite ids_snoc, <- E, elem_of_union, elem_of_singleton, by_id_keys by done.
  destruct (String.eqb_spec (member_id m) k) as [->|Hne]; [split; eauto|].
  split; [by left | by intros [?| ->]].
Qed.

(** What is left of [deadMembers], and the new members, after the current ones are processed. *)
Lemma dead_step_ok prev cur :
  let '(dead, new) := foldl dead_step (dead_init prev, []) cur in
  by_id dead /\ ids (map snd dead) = ids prev ∖ ids cur /\
  ids cur ∖ ids prev ⊆ ids new /\ new ⊆ cur /\ (NoDup (map member_id cur) -> ids new ## ids prev).
Proof.
  induction cur as [|m cur IH] using rev_ind.
  - destruct (dead_init_ok prev) as [Hb E]. cbn [foldl]. change (ids []) with (∅ : gset string). split_and!; set_solver.
  - rewrite foldl_app. cbn [foldl]. destruct (foldl dead_step (dead_init prev, []) cur) as [dead new].
    destruct IH as (Hb & Ed & Hn & Hs & Hnd). unfold dead_step. cbn [fst snd].
    pose proof (js_map_delete_found String.eqb dead (member_id m)) as Ef.
    pose proof (delete_by_id dead (member_id m) Hb) as Hb'.
    assert (forall k, k ∈ ids (map snd (js_map_delete String.eqb dead (member_id m)).2) <->
      k ∈ ids (map snd dead) /\ k <> member_id m) as Hk.
    { intros k. rewrite !by_id_keys, (js_map_get_delete _ String.eqb_eq) by (done || apply Hb).
      destruct (String.eqb_spec (member_id m) k); split; try naive_solver. }
    assert (is_Some (js_map_get String.eqb dead (member_id m)) <-> member_id m ∈ ids (map snd dead)) as Hm
      by (by rewrite by_id_keys).
    destruct (js_map_delete String.eqb dead (member_id m)) as [found dead'] eqn:Edel. cbn [fst snd] in *.
    pose proof (ids_snoc cur m) as Ecur.
    split; [done|]. split; [|split; [|split]].
    + apply set_eq. intros k. rewrite Hk, Ed, Ecur. set_solver.
    + rewrite Ecur. subst found. destruct (js_map_get String.eqb dead (member_id m)).
      * assert (member_id m ∈ ids prev) by (rewrite Ed in Hm; set_solver). set_solver.
      * rewrite ids_snoc. set_solver.
    + subst found. destruct (js_map_get String.eqb dead (member_id m)); set_solver.
    + rewrite map_app, NoDup_app. intros (Hnd1 & Hnd2 & _). specialize (Hnd Hnd1).
      subst found. destruct (js_map_get String.eqb dead (member_id m)) eqn:Eg; [done|].
      rewrite ids_snoc.
      assert (member_id m ∉ ids cur) by (unfold ids; rewrite elem_of_list_to_set; intros Hin; apply (Hnd2 _ Hin); by left).
      assert (~ member_id m ∈ ids (map snd dead)) by (rewrite <- Hm; intros [? ?]; discriminate).
      set_solver.
Qed.

(** ** What a listener knows *)

(** A listener that keeps a set of members: the initial list, plus the added, minus the removed ones. *)
Definition view_step (v : gset string) (c : call L) : gset string :=
  match c with
  | Init ms => ids ms
  | MemberAdded e => v ∪ {[member_id (me_member e)]}
  | MemberRemoved e => v ∖ {[member_id (me_member e)]}
  end.

Definition calls_of (id : string) (cs : list (string * call L)) : list (call L) :=
  omap (fun c => if String.eqb c.1 id then Some c.2 else None) cs.

Definition view (id : string) s : gset string := foldl view_step ∅ (calls_of id (calls s)).

Definition full_listener : MembershipListener := mkListener true true true.

Lemma calls_of_app id cs cs' : calls_of id (cs ++ cs') = calls_of id cs ++ calls_of id cs'.
Proof. apply omap_app. Qed.

(** The calls a registered listener gets when every listener is offered the same. *)
Lemma calls_of_each (f : string * MembershipListener -> list (string * call L))
    (ls : list (string * MembershipListener)) id l :
  (forall k l', Forall (fun c => c.1 = k) (f (k, l'))) ->
  js_map_wf String.eqb ls -> js_map_get String.eqb ls id = Some l ->
  calls_of id (ls ≫= f) = map snd (f (id, l)).
Proof.
  intros Hf. assert (forall k l', k <> id -> calls_of id (f (k, l')) = []) as Hother.
  { intros k l' Hk. specialize (Hf k l'). induction Hf as [|[k' c] cs E _ IH]; [done|]. cbn in *.
    subst k'. by destruct (String.eqb_spec k id). }
  assert (forall l', calls_of id (f (id, l')) = map snd (f (id, l'))) as Hself.
  { intros l'. specialize (Hf id l'). induction Hf as [|[k' c] cs E _ IH]; [done|]. cbn in *.
    subst k'. rewrite String.eqb_refl. exact (f_equal (cons c) IH). }
  induction ls as [|[k l'] ls IH]; [done|]. intros [Hk Hwf] Hg. cbn in Hg.
  change (((k, l') :: ls) ≫= f) with (f (k, l') ++ (ls ≫= f)). rewrite calls_of_app.
  destruct (String.eqb_spec k id) as [->|Hne].
  - injection Hg as ->. rewrite Hself. rewrite <- (app_nil_r (map snd _)) at 2. f_equal.
    clear IH Hwf. induction Hk as [|[k l0] ls Hk _ IH]; [done|]. cbn in Hk. apply String.eqb_neq in Hk.
    change (((k, l0) :: ls) ≫= f) with (f (k, l0) ++ (ls ≫= f)). rewrite calls_of_app, IH, Hother; [done|]. congruence.
  - by rewrite Hother, IH.
Qed.

Definition call_of (e : MembershipEvent L) : call L :=
  match me_eventType e with ADDED => MemberAdded e | REMOVED => MemberRemoved e end.

(** Firing a list of events. *)
Lemma calls_of_events events (ls : list (string * MembershipListener)) id :
  js_map_wf String.eqb ls -> js_map_get String.eqb ls id = Some full_listener ->
  calls_of id (events ≫= (fun e => ls ≫= fire_one e)) =
  map call_of events.
Proof.
  intros Hwf Hg. induction events as [|e events IH]; [done|].
  change ((e :: events) ≫= (fun e => ls ≫= fire_one e))
    with ((ls ≫= fire_one e) ++ (events ≫= (fun e => ls ≫= fire_one e))).
  rewrite calls_of_app, IH, (calls_of_each _ ls id full_listener); [| |done..].
  - cbn [map]. unfold fire_one, call_of. by destruct (me_eventType e).
  - intros k l'. unfold fire_one. cbn. destruct (me_eventType e); [destruct (has_memberAdded l') | destruct (has_memberRemoved l')];
      constructor; done.
Qed.

Lemma view_removed cur ms v :
  foldl view_step v (map call_of (map (fun m => mkMembershipEvent m REMOVED cur) ms)) = v ∖ ids ms.
Proof.
  revert v. induction ms as [|m ms IH]; intros v; [unfold ids; cbn; set_solver|]. cbn [map foldl].
  rewrite IH. unfold ids. cbn. set_solver.
Qed.

Lemma view_added cur ms v :
  foldl view_step v (map call_of (map (fun m => mkMembershipEvent m ADDED cur) ms)) = v ∪ ids ms.
Proof.
  revert v. induction ms as [|m ms IH]; intros v; [unfold ids; cbn; set_solver|]. cbn [map foldl].
  rewrite IH. unfold ids. cbn. set_solver.
Qed.

(** The events of a change of the list, applied by a listener that knew the previous one. *)
Lemma events_view prev cur (r : ConnectionRegistryImpl B) :
  foldl view_step (ids prev)
    (map call_of
       (detectMembershipEvents prev cur r).1) = ids cur.
Proof.
  pose proof (dead_step_ok prev cur) as Hd. unfold detectMembershipEvents.
  destruct (foldl dead_step (dead_init prev, []) cur) as [dead new]. destruct Hd as (_ & Ed & Hn & Hs & _).
  cbn [fst]. rewrite map_app, foldl_app, view_removed, Ed, view_added.
  assert (ids new ⊆ ids cur) as Hs'.
  { intros k (m & <- & Hm)%elem_of_ids. apply elem_of_ids. exists m. split; [done | by apply Hs]. }
  apply set_eq. intros k. destruct (decide (k ∈ ids prev)), (decide (k ∈ ids cur)); set_solver.
Qed.

Lemma apply_events_view prev cur (r : ConnectionRegistryImpl B) s id :
  js_map_wf String.eqb (listeners s) -> js_map_get String.eqb (listeners s) id = Some full_listener ->
  view id s = ids prev -> view id (apply_events prev cur r s) = ids cur.
Proof.
  intros Hwf Hg Hv. unfold apply_events. pose proof (events_view prev cur r) as E.
  destruct (detectMembershipEvents prev cur r) as [events cs]. unfold view, fireEvents, record_calls. cbn [calls listeners fst] in *.
  rewrite calls_of_app, foldl_app, calls_of_events by done. unfold view in Hv. by rewrite Hv.
Qed.

Lemma apply_events_rest prev cur (r : ConnectionRegistryImpl B) s :
  listeners (apply_events prev cur r s) = listeners s /\
  memberListSnapshot (apply_events prev cur r s) = memberListSnapshot s.
Proof. unfold apply_events. by destruct (detectMembershipEvents prev cur r). Qed.

(** ** Runs of the service *)

(** One operation; a registration id is the text of a fresh UUID. *)
Inductive cs_step : ClusterService L -> ClusterService L -> Prop :=
  | step_add id l s : js_map_get String.eqb (listeners s) id = None -> calls_of id (calls s) = [] ->
      cs_step s (addMembershipListener id l s)
  | step_remove id s : cs_step s (removeMembershipListener id s).2
  | step_reset s : cs_step s (cs_reset s)
  | step_clear_version s : cs_step s (clearMemberListVersion s)
  | step_clear (r : ConnectionRegistryImpl B) s : cs_step s (clearMemberList r s)
  | step_view (r : ConnectionRegistryImpl B) v infos s s' :
      handleMembersViewEvent r v infos s = Ok s' -> cs_step s s'.

Record cs_inv s : Prop := {
  inv_listeners : js_map_wf String.eqb (listeners s);
  inv_view id sn : js_map_get String.eqb (listeners s) id = Some full_listener ->
    memberListSnapshot s = Some sn -> view id s = ids (memberList sn)
}.

Lemma init_view ls ms s id : js_map_wf String.eqb ls -> js_map_get String.eqb ls id = Some full_listener ->
  view id (record_calls s (ls ≫= init_one ms)) = ids ms.
Proof.
  intros Hwf Hg. unfold view, record_calls. cbn [calls]. rewrite calls_of_app, foldl_app.
  rewrite (calls_of_each _ ls id full_listener); [done | | done..].
  intros k l. unfold init_one. cbn. destruct (has_init l); constructor; done.
Qed.

Lemma add_inv id l s : js_map_get String.eqb (listeners s) id = None -> calls_of id (calls s) = [] ->
  cs_inv s -> cs_inv (addMembershipListener id l s).
Proof.
  intros Hg Hc [Hwf Hv].
  assert (js_map_wf String.eqb (js_map_set String.eqb (listeners s) id l)) as Hwf' by (by apply js_map_set_wf).
  unfold addMembershipListener.
  assert (forall cs id', id' <> id -> Forall (fun c => c.1 = id) cs ->
    view id' (record_calls s cs) = view id' s) as Hother.
  { intros cs id' Hne Hcs. unfold view, record_calls. cbn [calls]. rewrite calls_of_app.
    assert (calls_of id' cs = []) as ->; [|by rewrite app_nil_r].
    induction Hcs as [|[k c] cs E _ IH]; [done|]. cbn in *. subst k. by destruct (String.eqb_spec id id'). }
  assert (forall id', js_map_get String.eqb (js_map_set String.eqb (listeners s) id l) id' = Some full_listener ->
    id' <> id -> js_map_get String.eqb (listeners s) id' = Some full_listener) as Hl.
  { intros id'. rewrite (js_map_get_set _ String.eqb_eq). destruct (String.eqb_spec id id'); congruence. }
  destruct (has_init l) eqn:Ei; [destruct (negb _) eqn:En|]; (split; [done|]); intros id' sn Hg' Hs; cbn in Hg', Hs;
    (destruct (decide (id' = id)) as [->|Hne]; [|transitivity (view id' s); [|by eapply Hv; [apply Hl|]]]); try done.
  - unfold view, record_calls, getMemberList, current_snapshot. cbn [calls memberListSnapshot].
    rewrite calls_of_app, Hc, Hs. cbn. by rewrite String.eqb_refl.
  - apply Hother; [done|]. by constructor.
  - unfold view. cbn [calls]. rewrite Hc. unfold getMemberList, current_snapshot in En. cbn in En. rewrite Hs in En.
    apply negb_false_iff, Nat.eqb_eq in En. cbn in En. by apply nil_length_inv in En as ->.
  - rewrite (js_map_get_set _ String.eqb_eq), String.eqb_refl in Hg'. injection Hg' as ->. discriminate Ei.
Qed.

Lemma step_inv s s' : cs_step s s' -> cs_inv s -> cs_inv s'.
Proof.
  intros [id l s0 Hg Hc|id s0|s0|s0|r s0|r v infos s0 s1 E] Hinv; [by apply add_inv|..]; pose proof Hinv as [Hwf Hv].
  - unfold removeMembershipListener. pose proof (js_map_delete_wf String.eqb _ id Hwf) as Hd.
    destruct (js_map_delete String.eqb (listeners s0) id) as [b ls] eqn:Ed. split; [done|]. intros id' sn Hg Hs.
    apply (Hv id' sn); [|done]. cbn in Hg.
    assert (ls = (js_map_delete String.eqb (listeners s0) id).2) as -> by (by rewrite Ed).
    rewrite (js_map_get_delete _ String.eqb_eq) in Hg by done. by destruct (String.eqb id id').
  - split; [done|]. intros id sn _ Hs. discriminate Hs.
  - unfold clearMemberListVersion. destruct (memberListSnapshot s0) as [sn|] eqn:Es; [|exact Hinv].
    split; [done|]. intros id sn' Hg [= <-]. by apply (Hv id sn).
  - unfold clearMemberList. destruct (memberListSnapshot s0) as [sn|] eqn:Es; [|exact Hinv].
    pose proof (apply_events_rest (memberList sn) [] r (with_snapshot s0 (Some (mkSnapshot 0 [] [])))) as [E1 E2].
    split; [by rewrite E1|]. intros id sn'. rewrite E1, E2. intros Hg [= <-].
    apply apply_events_view; [done..|]. by apply (Hv id sn).
  - unfold handleMembersViewEvent in E. destruct (memberListSnapshot s0) as [sn|] eqn:Es.
    + destruct (_ <=? _); [|injection E as <-; exact Hinv]. apply res_bind_inv in E as (sn' & _ & E). injection E as <-.
      pose proof (apply_events_rest (memberList sn) (memberList sn') r (with_snapshot s0 (Some sn'))) as [E1 E2].
      split; [by rewrite E1|]. intros id sn''. rewrite E1, E2. intros Hg [= <-].
      apply apply_events_view; [done..|]. by apply (Hv id sn).
    + unfold applyInitialState in E. apply res_bind_inv in E as (sn' & _ & E). injection E as <-.
      split; [done|]. intros id sn'' Hg [= <-]. by apply init_view.
Qed.

(** C33: listeners are told the truth: whatever sequence of registrations, member views (stale ones
    included), list and version clearings and cluster switches happens, a listener that starts from the
    initial list it was given and applies the added and removed events it gets has exactly
    the current members, whenever the client has a member list. *)
Theorem listeners_track_members s id sn :
  rtc cs_step newClusterService s -> js_map_get String.eqb (listeners s) id = Some full_listener ->
  memberListSnapshot s = Some sn -> view id s = ids (memberList sn).
Proof.
  intros Hr Hg Hs. assert (cs_inv newClusterService) as H0' by (split; [done | intros ? ? [=]]).
  enough (cs_inv s) as Hi by (by apply (inv_view s Hi)).
  clear Hg Hs. induction Hr as [|s1 s2 s3 Hst _ IH]; [done|]. by apply IH, (step_inv s1).
Qed.

(** ** The exact events of a change *)

Lemma delete_filter (d : list (string * MemberImpl L)) k : js_map_wf String.eqb d ->
  (js_map_delete String.eqb d k).2 = filter (fun e => e.1 <> k) d.
Proof.
  induction d as [|[k0 m] d IH]; [done|]. intros [Hk Hwf]. specialize (IH Hwf). cbn [js_map_delete].
  rewrite filter_cons. cbn [fst]. destruct (String.eqb_spec k0 k) as [->|Hne].
  - rewrite decide_False by (intros Hx; by apply Hx). cbn. symmetry. apply filter_all.
    rewrite Forall_forall in Hk. intros e He E. specialize (Hk _ He). cbn in Hk. by rewrite E, String.eqb_refl in Hk.
  - rewrite decide_True by done. destruct (js_map_delete String.eqb d k). cbn in *. by rewrite IH.
Qed.

Lemma dead_init_distinct prev : NoDup (map member_id prev) -> dead_init prev = map (fun m => (member_id m, m)) prev.
Proof.
  unfold dead_init. induction prev as [|m prev IH] using rev_ind; [done|]. rewrite map_app, NoDup_app.
  intros (Hnd & Hm & _). rewrite foldl_app, IH, map_app by done. cbn. apply js_map_set_new.
  apply Forall_map, Forall_forall. intros m' Hm'. cbn. apply String.eqb_neq. intros E.
  apply (Hm (member_id m')); [by apply list_elem_of_fmap_2 | rewrite E; by left].
Qed.

Lemma dead_steps_distinct cur : forall (d : list (string * MemberImpl L)) new,
  NoDup (map member_id cur) -> by_id d ->
  foldl dead_step (d, new) cur =
    (filter (fun e => e.1 ∉ ids cur) d, new ++ filter (fun m => member_id m ∉ ids (map snd d)) cur).
Proof.
  induction cur as [|m cur IH]; intros d new Hnd Hb.
  - cbn. rewrite app_nil_r, filter_all; [done|]. intros e _. unfold ids. cbn. apply not_elem_of_empty.
  - cbn [map] in Hnd. apply NoDup_cons in Hnd as [Hm Hnd]. cbn [foldl]. unfold dead_step at 2. cbn [fst snd].
    pose proof (js_map_delete_found String.eqb d (member_id m)) as Ef.
    pose proof (delete_filter d (member_id m) (proj1 Hb)) as Ed. pose proof (delete_by_id d (member_id m) Hb) as Hb'.
    destruct (js_map_delete String.eqb d (member_id m)) as [found d']. cbn [fst snd] in *.
    rewrite IH by done. subst d'. f_equal.
    + rewrite list_filter_filter. apply list_filter_iff. intros e. unfold ids. cbn. set_solver.
    + rewrite filter_cons. pose proof (by_id_keys d (member_id m) Hb) as Hk.
      assert (filter (fun m0 => member_id m0 ∉ ids (map snd (filter (fun e => e.1 <> member_id m) d))) cur
        = filter (fun m0 => member_id m0 ∉ ids (map snd d)) cur) as ->.
      { apply filter_ext_in. intros m0 Hm0. rewrite !by_id_keys by done. cbn.
        rewrite <- (delete_filter d (member_id m) (proj1 Hb)), (js_map_get_delete _ String.eqb_eq) by apply Hb.
        destruct (String.eqb_spec (member_id m) (member_id m0)) as [E|]; [|done].
        destruct Hm. rewrite E. by apply list_elem_of_fmap_2. }
      subst found. destruct (js_map_get String.eqb d (member_id m)) eqn:Eg.
      * rewrite decide_False; [done|]. intros Hx. apply Hx, Hk. eauto.
      * rewrite decide_True by (rewrite Hk; by intros [? ?]). by rewrite <- app_assoc.
Qed.

(** The events of a new member view are exactly the difference: with distinct members in each list, a
    removed event for every previous member that left, in the order of the previous list,
    then an added event for every member that joined, in the order of the new list; the
    connections closed are those of the members that left. *)
Theorem membership_events_exact prev cur (r : ConnectionRegistryImpl B) :
  NoDup (map member_id prev) -> NoDup (map member_id cur) ->
  let left := filter (fun m => member_id m ∉ ids cur) prev in
  let joined := filter (fun m => member_id m ∉ ids prev) cur in
  detectMembershipEvents prev cur r =
    (map (fun m => mkMembershipEvent m REMOVED cur) left ++ map (fun m => mkMembershipEvent m ADDED cur) joined,
     omap (fun m => getConnection r (m_uuid m)) left).
Proof.
  intros Hp Hc. unfold detectMembershipEvents. destruct (dead_init_ok prev) as [Hb E].
  rewrite dead_steps_distinct, E, (dead_init_distinct prev Hp) by done. cbn [app].
  assert (map snd (filter (fun e : string * MemberImpl L => e.1 ∉ ids cur) (map (fun m => (member_id m, m)) prev))
    = filter (fun m => member_id m ∉ ids cur) prev) as ->; [|done].
  clear. induction prev as [|m prev IH]; [done|]. cbn [map]. rewrite !filter_cons. cbn [fst].
  destruct (decide (member_id m ∉ ids cur)); cbn; by rewrite IH.
Qed.

(** ** The snapshot *)

Definition uuid_map ms : js_map string (MemberImpl L) :=
  foldl (fun m member => js_map_set String.eqb m (UUID_toString (m_uuid member)) member) [] ms.

Lemma uuid_map_distinct ms : NoDup (map m_uuid ms) -> uuid_map ms = map (fun m => (UUID_toString (m_uuid m), m)) ms.
Proof.
  unfold uuid_map. induction ms as [|m ms IH] using rev_ind; [done|]. rewrite map_app, NoDup_app.
  intros (Hnd & Hm & _). rewrite foldl_app, IH, map_app by done. cbn. apply js_map_set_new.
  apply Forall_map, Forall_forall. intros m' Hm'. cbn. apply String.eqb_neq. intros E%UUID_toString_inj.
  apply (Hm (m_uuid m')); [by apply list_elem_of_fmap_2 | rewrite E; by left].
Qed.

Lemma uuid_map_wf ms : js_map_wf String.eqb (uuid_map ms).
Proof.
  unfold uuid_map. induction ms as [|m ms IH] using rev_ind; [done|]. rewrite foldl_app. by apply js_map_set_wf.
Qed.

Lemma uuid_map_get ms u m : NoDup (map m_uuid ms) ->
  js_map_get String.eqb (uuid_map ms) (UUID_toString u) = Some m <-> m ∈ ms /\ m_uuid m = u.
Proof.
  intros Hnd. split.
  - intros E%(js_map_get_Some _ String.eqb_eq). rewrite uuid_map_distinct in E by done.
    apply list_elem_of_fmap in E as (m' & [= E ->] & Hm). split; [done | by apply UUID_toString_inj].
  - intros [Hm <-]. apply (js_map_get_elem _ String.eqb_eq); [apply uuid_map_wf|].
    rewrite uuid_map_distinct by done. apply list_elem_of_fmap. by exists m.
Qed.

(** A member view either is older than the current list, and changes nothing, or becomes the
    current list: the members are those of the view, in its order and with its version, and
    [getMember] finds by UUID exactly those members. *)
Theorem members_view_applied (r : ConnectionRegistryImpl B) v infos s ms :
  members_of infos = Ok ms -> NoDup (map m_uuid ms) ->
  exists s', handleMembersViewEvent r v infos s = Ok s' /\
    ((exists sn, memberListSnapshot s = Some sn /\ v < ms_version sn /\ s' = s) \/
     getMemberList s' = ms /\ ms_version (current_snapshot s') = v /\ getSize s' = Z.of_nat (length ms) /\
     forall u m, getMember s' (UUID_toString u) = Some m <-> m ∈ ms /\ m_uuid m = u).
Proof.
  intros Em Hnd.
  assert (createSnapshot v infos = Ok (mkSnapshot v (uuid_map ms) ms)) as Ec by (unfold createSnapshot; by rewrite Em).
  assert (forall s', memberListSnapshot s' = Some (mkSnapshot v (uuid_map ms) ms) ->
    getMemberList s' = ms /\ ms_version (current_snapshot s') = v /\ getSize s' = Z.of_nat (length ms) /\
    forall u m, getMember s' (UUID_toString u) = Some m <-> m ∈ ms /\ m_uuid m = u) as Hok.
  { intros s' E. unfold getMemberList, getSize, getMember, current_snapshot. rewrite E. cbn. split_and!; try done.
    - rewrite uuid_map_distinct by done. by rewrite length_map.
    - intros u m. by apply uuid_map_get. }
  unfold handleMembersViewEvent, applyInitialState. rewrite Ec, res_bind_ok.
  destruct (memberListSnapshot s) as [sn|] eqn:Es; [|eexists; split; [done|]; right; by apply Hok].
  destruct (Z.leb_spec (ms_version sn) v); [|eauto 8].
  eexists. split; [done|]. right. apply Hok. by rewrite (proj2 (apply_events_rest _ _ _ _)).
Qed.
End Events.

(** ** Witnesses *)

Definition demo_info (n : Z) : MemberInfo Int64.t :=
  mkMemberInfo (mkAddress "host" n) (Some (demo_uuid n)) [] false (mkMemberVersion 5 0 0) [].

Definition demo_view (v : Z) (ns : list Z) (s : ClusterService Int64.t) : ClusterService Int64.t :=
  match handleMembersViewEvent demo_registry v (map demo_info ns) s with Ok s' => s' | Err _ => s end.

(** A listener registered before the first view, then two views. *)
Definition demo_cluster : ClusterService Int64.t :=
  demo_view 2 [3; 1] (demo_view 1 [1; 2] (addMembershipListener "listener" full_listener newClusterService)).

Lemma listeners_track_members_witness :
  exists sn, memberListSnapshot demo_cluster = Some sn /\ view "listener" demo_cluster = ids (memberList sn) /\
    map m_uuid (memberList sn) = [demo_uuid 3; demo_uuid 1].
Proof.
  eexists. split; [vm_compute; reflexivity|]. split; [|vm_compute; reflexivity].
  eapply (listeners_track_members (B := RoundRobinLB Int64.t)).
  - eapply rtc_l; [apply (step_add "listener" full_listener); reflexivity|].
    eapply rtc_l; [apply (step_view demo_registry 1 (map demo_info [1; 2])); vm_compute; reflexivity|].
    eapply rtc_l; [apply (step_view demo_registry 2 (map demo_info [3; 1])); vm_compute; reflexivity|].
    apply rtc_refl.
  - vm_compute. reflexivity.
  - vm_compute. reflexivity.
Defined.

Lemma membership_events_exact_witness :
  (detectMembershipEvents [demo_member 1 false; demo_member 2 false] [demo_member 1 false] demo_registry).2 = [7%nat].
Proof.
  rewrite (membership_events_exact [demo_member 1 false; demo_member 2 false] [demo_member 1 false] demo_registry).
  - vm_compute. reflexivity.
  - apply NoDup_cons. split; [|apply NoDup_singleton]. intros Hx. apply list_elem_of_singleton in Hx. vm_compute in Hx. discriminate Hx.
  - apply NoDup_singleton.
Defined.

Lemma members_view_applied_witness :
  exists s', handleMembersViewEvent demo_registry 1 [demo_info 1] (newClusterService (L := Int64.t)) = Ok s' /\
    getSize s' = 1.
Proof.
  destruct (members_view_applied demo_registry 1 [demo_info 1] newClusterService [demo_member 1 false])
    as (s' & E & [(sn & Hs & _)|(_ & _ & Hz & _)]).
  - reflexivity.
  - apply NoDup_singleton.
  - discriminate Hs.
  - exists s'. split; [exact E | exact Hz].
Defined.
