(* ===== verification/ConnectionManager.v ===== *)
(** * The connection manager

    [ConnectionManager] of [src/network/ConnectionManager.ts] with the parts of [Connection]
    ([src/network/Connection.ts]), of the life cycle ([src/LifecycleService.ts]) and of the client
    ([src/HazelcastClient.ts]) it works with: opening and authenticating connections, the duplicate and wrong-cluster
    checks, closing, cluster changes, reconnection to members and shutdown.

    An attempt to connect is a chain of promises. It is an [Attempt] here, whose [Stage] says what it waits for, and
    each callback of the chain is a function that the event loop runs when the awaited answer arrives
    ([step]). The loop that tries address after address and cluster after cluster is [ClusterConnect.v]: here it is a
    task, and the calls it makes are steps. *)

From S2P Require Export ClusterService PartitionService.
#[local] Open Scope Z_scope.

Inductive LifecycleState :=
  | STARTING | STARTED | SHUTTING_DOWN | SHUTDOWN | CONNECTED | DISCONNECTED | CHANGED_CLUSTER.

(** [AuthenticationStatus]; other numbers are unknown to the client. *)
Definition AUTHENTICATED : Z := 0.
Definition CREDENTIALS_FAILED : Z := 1.
Definition SERIALIZATION_VERSION_MISMATCH : Z := 2.
Definition NOT_ALLOWED_IN_CLUSTER : Z := 3.

(** A rejection: an error of the client's classes, or one of the language, of a socket or of a user's code. *)
Inductive failure := Hz (e : Err.t) | Native.

#[global] Instance failure_eq_dec : EqDecision failure.
Proof. solve_decision. Defined.

#[global] Instance AddressImpl_eq_dec : EqDecision AddressImpl.
Proof. solve_decision. Defined.

Section ConnectionManager.
Context {L : Type} `{LongLib L} {B : Type}.
#[local] Abbreviation Member := (MemberImpl L).

(** ** State *)

(** [c_alive] is [closedTime === 0]. The client keeps the number computed from [c_serverVersion]. *)
Record Connection := mkConnection {
  c_alive : bool; c_remoteAddress : option AddressImpl; c_remoteUuid : option (UUID L); c_serverVersion : option string }.

(** [ClientAuthenticationResponseParams]; a member that accepts the client gives both ids. *)
Record AuthResponse := mkAuthResponse {
  r_status : Z; r_address : option AddressImpl; r_memberUuid : UUID L; r_partitionCount : Z; r_clusterId : UUID L;
  r_failoverSupported : bool; r_serverVersion : string }.

(** What an attempt waits for: the address, the socket, the protocol header, the response of the member. *)
Inductive Stage :=
  | Translating | Connecting (translatedAddress : AddressImpl) | Initiating (connection : nat)
  | Authenticating (connection : nat) | Done.

(** A deferred promise of a connection. *)
Inductive Promise := Pending | Resolved (connection : nat) | Rejected (e : failure).

(** [a_listed]: its [finally] has not run. *)
Record Attempt := mkAttempt { a_key : string; a_stage : Stage; a_promise : Promise; a_listed : bool }.

Inductive Task := StartConnect | ConnectToCluster | SendState (targetClusterId : UUID L) | FinishShutdown.

Inductive Effect :=
  | Lifecycle (st : LifecycleState) | ConnectionAdded (c : nat) | ConnectionRemoved (c : nat) | ClearNearCaches
  | StateSent (clusterId : UUID L).

(** What [getOrConnectToAddress] and [getOrConnectToMember] return: a settled promise or that of an attempt. *)
Inductive Answer := Settled (p : Promise) | Awaits (attempt : nat).

(** [registry] has the reconnect mode and [asyncStart] too; [running] is the life cycle's flag, [invocationsShutDown]
    that of the invocation service. [answers] keeps the accepted responses of the members, which the client forgets, and
    [effects] what listeners and other components were told; both are only written. *)
Record ConnectionManager := mkManager {
  registry : ConnectionRegistryImpl B;
  connectionIdCounter : nat;
  conns : gmap nat Connection;
  attempts : list Attempt;
  pendingConnections : js_map string nat;
  clusterId : option (UUID L);
  switchingToNextCluster : bool;
  connectToClusterTaskSubmitted : bool;
  connectingMembers : list (string * Answer);
  reconnectToMembersTask : bool;
  failoverConfigProvided : bool;
  running : bool;
  invocationsShutDown : bool;
  cluster : ClusterService L;
  partitions : PartitionServiceImpl L;
  tasks : list Task;
  answers : gmap nat AuthResponse;
  effects : list Effect }.
#[local] Abbreviation CM := ConnectionManager.

Definition newConnectionManager (reg : ConnectionRegistryImpl B) (failover : bool) : CM :=
  mkManager reg 0 ∅ [] [] None false false [] false failover true false newClusterService newPartitionService [] ∅ [].

(** Assignments to the fields. *)
Definition set_registry (r : ConnectionRegistryImpl B) (s : CM) : CM :=
  mkManager r (connectionIdCounter s) (conns s) (attempts s) (pendingConnections s) (clusterId s)
    (switchingToNextCluster s) (connectToClusterTaskSubmitted s) (connectingMembers s) (reconnectToMembersTask s)
    (failoverConfigProvided s) (running s) (invocationsShutDown s) (cluster s) (partitions s) (tasks s) (answers s) (effects s).
Definition set_conns (n : nat) (cs : gmap nat Connection) (s : CM) : CM :=
  mkManager (registry s) n cs (attempts s) (pendingConnections s) (clusterId s)
    (switchingToNextCluster s) (connectToClusterTaskSubmitted s) (connectingMembers s) (reconnectToMembersTask s)
    (failoverConfigProvided s) (running s) (invocationsShutDown s) (cluster s) (partitions s) (tasks s) (answers s) (effects s).
Definition set_attempts (l : list Attempt) (p : js_map string nat) (s : CM) : CM :=
  mkManager (registry s) (connectionIdCounter s) (conns s) l p (clusterId s)
    (switchingToNextCluster s) (connectToClusterTaskSubmitted s) (connectingMembers s) (reconnectToMembersTask s)
    (failoverConfigProvided s) (running s) (invocationsShutDown s) (cluster s) (partitions s) (tasks s) (answers s) (effects s).
Definition set_clusterId (c : option (UUID L)) (s : CM) : CM :=
  mkManager (registry s) (connectionIdCounter s) (conns s) (attempts s) (pendingConnections s) c
    (switchingToNextCluster s) (connectToClusterTaskSubmitted s) (connectingMembers s) (reconnectToMembersTask s)
    (failoverConfigProvided s) (running s) (invocationsShutDown s) (cluster s) (partitions s) (tasks s) (answers s) (effects s).
Definition set_flags (switching submitted reconnect : bool) (s : CM) : CM :=
  mkManager (registry s) (connectionIdCounter s) (conns s) (attempts s) (pendingConnections s) (clusterId s)
    switching submitted (connectingMembers s) reconnect
    (failoverConfigProvided s) (running s) (invocationsShutDown s) (cluster s) (partitions s) (tasks s) (answers s) (effects s).
Definition set_connecting (l : list (string * Answer)) (s : CM) : CM :=
  mkManager (registry s) (connectionIdCounter s) (conns s) (attempts s) (pendingConnections s) (clusterId s)
    (switchingToNextCluster s) (connectToClusterTaskSubmitted s) l (reconnectToMembersTask s)
    (failoverConfigProvided s) (running s) (invocationsShutDown s) (cluster s) (partitions s) (tasks s) (answers s) (effects s).
Definition set_running (b inv : bool) (s : CM) : CM :=
  mkManager (registry s) (connectionIdCounter s) (conns s) (attempts s) (pendingConnections s) (clusterId s)
    (switchingToNextCluster s) (connectToClusterTaskSubmitted s) (connectingMembers s) (reconnectToMembersTask s)
    (failoverConfigProvided s) b inv (cluster s) (partitions s) (tasks s) (answers s) (effects s).
Definition set_services (c : ClusterService L) (p : PartitionServiceImpl L) (s : CM) : CM :=
  mkManager (registry s) (connectionIdCounter s) (conns s) (attempts s) (pendingConnections s) (clusterId s)
    (switchingToNextCluster s) (connectToClusterTaskSubmitted s) (connectingMembers s) (reconnectToMembersTask s)
    (failoverConfigProvided s) (running s) (invocationsShutDown s) c p (tasks s) (answers s) (effects s).
Definition set_tasks (l : list Task) (s : CM) : CM :=
  mkManager (registry s) (connectionIdCounter s) (conns s) (attempts s) (pendingConnections s) (clusterId s)
    (switchingToNextCluster s) (connectToClusterTaskSubmitted s) (connectingMembers s) (reconnectToMembersTask s)
    (failoverConfigProvided s) (running s) (invocationsShutDown s) (cluster s) (partitions s) l (answers s) (effects s).
Definition set_answers (a : gmap nat AuthResponse) (s : CM) : CM :=
  mkManager (registry s) (connectionIdCounter s) (conns s) (attempts s) (pendingConnections s) (clusterId s)
    (switchingToNextCluster s) (connectToClusterTaskSubmitted s) (connectingMembers s) (reconnectToMembersTask s)
    (failoverConfigProvided s) (running s) (invocationsShutDown s) (cluster s) (partitions s) (tasks s) a (effects s).
Definition emit (e : Effect) (s : CM) : CM :=
  mkManager (registry s) (connectionIdCounter s) (conns s) (attempts s) (pendingConnections s) (clusterId s)
    (switchingToNextCluster s) (connectToClusterTaskSubmitted s) (connectingMembers s) (reconnectToMembersTask s)
    (failoverConfigProvided s) (running s) (invocationsShutDown s) (cluster s) (partitions s) (tasks s) (answers s)
    (effects s ++ [e]).

Definition set_switching (b : bool) (s : CM) : CM :=
  set_flags b (connectToClusterTaskSubmitted s) (reconnectToMembersTask s) s.
Definition set_submitted (b : bool) (s : CM) : CM := set_flags (switchingToNextCluster s) b (reconnectToMembersTask s) s.
Definition push (t : Task) (s : CM) : CM := set_tasks (tasks s ++ [t]) s.
Definition set_connection (c : nat) (k : Connection) (s : CM) : CM :=
  set_conns (connectionIdCounter s) (<[c := k]> (conns s)) s.
Definition set_attempt (i : nat) (a : Attempt) (s : CM) : CM :=
  set_attempts (<[i := a]> (attempts s)) (pendingConnections s) s.

(** ** Closing *)

(** [client.shutdown()]: the rest of it runs when the sessions of the CP subsystem are closed ([FinishShutdown]). *)
Definition shutdownClient (s : CM) : CM :=
  if running s then push FinishShutdown (emit (Lifecycle SHUTTING_DOWN) (set_running false (invocationsShutDown s) s)) else s.

Definition submitConnectToClusterTask (s : CM) : CM :=
  if connectToClusterTaskSubmitted s then s else set_submitted true (push ConnectToCluster s).

Definition triggerClusterReconnection (s : CM) : CM :=
  if bool_decide (reconnectMode (registry s) = OFF) then shutdownClient s
  else if running s then submitConnectToClusterTask s else s.

Definition onConnectionClose (c : nat) (k : Connection) (s : CM) : CM :=
  match c_remoteAddress k, c_remoteUuid k with
  | Some _, Some memberUuid =>
      if bool_decide (getConnection (registry s) memberUuid = Some c) then
        let s := set_registry (deleteConnection (registry s) memberUuid) s in
        let s :=
          if isEmpty (registry s) then
            triggerClusterReconnection
              (if bool_decide (connectionState (registry s) = INITIALIZED_ON_CLUSTER)
               then emit (Lifecycle DISCONNECTED) s else s)
          else s in
        emit (ConnectionRemoved c) s
      else s
  | _, _ => s
  end.

(** [connection.close(...)]: a connection is closed once. *)
Definition close (c : nat) (s : CM) : CM :=
  match conns s !! c with
  | Some k =>
      if c_alive k then
        let k := mkConnection false (c_remoteAddress k) (c_remoteUuid k) (c_serverVersion k) in
        onConnectionClose c k (set_connection c k s)
      else s
  | None => s
  end.

Definition close_all (cs : list nat) (s : CM) : CM := foldl (fun s c => close c s) s cs.

Definition reset (s : CM) : CM := close_all (getConnections (registry s)) s.

(** ** Authentication *)

Definition checkPartitionCount (newPartitionCount : Z) (s : CM) : bool * CM :=
  let '(ok, p) := checkAndSetPartitionCount newPartitionCount (partitions s) in (ok, set_services (cluster s) p s).

(** [checkConnectionStateOnClusterIdChange]: the error it throws, if any. *)
Definition checkConnectionStateOnClusterIdChange (c : nat) (s : CM) : option failure * CM :=
  if isEmpty (registry s) then
    if failoverConfigProvided s then
      if switchingToNextCluster s then (None, set_switching false s)
      else (Some (Hz Err.ClientNotAllowedInClusterError), close c s)
    else (None, s)
  else (Some (Hz Err.IllegalStateError), close c s).

(** The cluster service closes the connections of the members it removes from its list. *)
Definition update_members (cl : ClusterService L) (s : CM) : CM :=
  close_all (drop (length (closed (cluster s))) (closed cl)) (set_services cl (partitions s) s).

Definition onClusterRestart (s : CM) : CM :=
  let s := emit ClearNearCaches s in update_members (clearMemberList (registry s) (cluster s)) s.

Definition initializeClientOnCluster (targetClusterId : UUID L) (s : CM) : CM :=
  if UUID_equals targetClusterId (clusterId s) then push (SendState targetClusterId) s else s.

Definition onAuthenticated (c : nat) (r : AuthResponse) (s : CM) : (nat + failure) * CM :=
  let '(ok, s) := checkPartitionCount (r_partitionCount r) s in
  if negb ok then (inr (Hz Err.ClientNotAllowedInClusterError), s)
  else
    let alive := match conns s !! c with Some k => c_alive k | None => false end in
    let s := set_connection c (mkConnection alive (r_address r) (Some (r_memberUuid r)) (Some (r_serverVersion r))) s in
    match getConnection (registry s) (r_memberUuid r) with
    | Some existingConnection => (inl existingConnection, close c s)
    | None =>
        let clusterIdChanged :=
          match clusterId s with Some _ => negb (UUID_equals (r_clusterId r) (clusterId s)) | None => false end in
        let '(thrown, s) :=
          if clusterIdChanged then
            match checkConnectionStateOnClusterIdChange c s with
            | (None, s) => (None, onClusterRestart s)
            | (Some e, s) => (Some e, s)
            end
          else (None, s) in
        match thrown with
        | Some e => (inr e, s)
        | None =>
            let connectionsEmpty := isEmpty (registry s) in
            let s := set_registry (setConnection (registry s) (r_memberUuid r) c) s in
            let s :=
              if connectionsEmpty then
                let s := set_clusterId (Some (r_clusterId r)) s in
                if clusterIdChanged then
                  initializeClientOnCluster (r_clusterId r)
                    (set_registry (setConnectionState (registry s) CONNECTED_TO_CLUSTER) s)
                else emit (Lifecycle CONNECTED) (set_registry (setConnectionState (registry s) INITIALIZED_ON_CLUSTER) s)
              else s in
            (inl c, emit (ConnectionAdded c) s)
        end
    end.

(** The error for a status that is not [AUTHENTICATED]. *)
Definition status_error (status : Z) : failure :=
  if status =? CREDENTIALS_FAILED then Hz Err.AuthenticationError
  else if status =? SERIALIZATION_VERSION_MISMATCH then Hz Err.IllegalStateError
  else if status =? NOT_ALLOWED_IN_CLUSTER then Hz Err.ClientNotAllowedInClusterError
  else Hz Err.AuthenticationError.

(** The callback of the authentication response. *)
Definition authenticateOnCluster (c : nat) (r : AuthResponse) (s : CM) : (nat + failure) * CM :=
  let s := set_answers (<[c := r]> (answers s)) s in
  let authenticationStatus :=
    if failoverConfigProvided s && negb (r_failoverSupported r) then NOT_ALLOWED_IN_CLUSTER else r_status r in
  if authenticationStatus =? AUTHENTICATED then onAuthenticated c r s
  else (inr (status_error authenticationStatus), close c s).

(** ** Attempts *)

Definition getConnectionForAddress (address : AddressImpl) (s : CM) : option nat :=
  find (fun c => bool_decide ((k ← conns s !! c; c_remoteAddress k) = Some address)) (getConnections (registry s)).

(** The promise of the pending attempt for the address, or of a new one. *)
Definition getOrConnect (address : AddressImpl) (s : CM) : nat * CM :=
  let addressKey := address_toString address in
  match js_map_get String.eqb (pendingConnections s) addressKey with
  | Some pendingConnection => (pendingConnection, s)
  | None =>
      let i := length (attempts s) in
      (i, set_attempts (attempts s ++ [mkAttempt addressKey Translating Pending true])
            (js_map_set String.eqb (pendingConnections s) addressKey i) s)
  end.

Definition getOrConnectToAddress (address : AddressImpl) (s : CM) : Answer * CM :=
  if negb (running s) then (Settled (Rejected (Hz Err.ClientNotActiveError)), s)
  else match getConnectionForAddress address s with
       | Some connection => (Settled (Resolved connection), s)
       | None => let '(i, s) := getOrConnect address s in (Awaits i, s)
       end.

Definition getOrConnectToMember (member : Member) (s : CM) : Answer * CM :=
  if negb (running s) then (Settled (Rejected (Hz Err.ClientNotActiveError)), s)
  else match getConnection (registry s) (m_uuid member) with
       | Some connection => (Settled (Resolved connection), s)
       | None => let '(i, s) := getOrConnect (m_address member) s in (Awaits i, s)
       end.

(** [lookupPublicAddress] and [translateMemberAddress]: an address, or one the address provider is asked to translate. *)
Definition CLIENT_PROTOCOL : Z := 1.

Fixpoint lookupPublicAddress (addressMap : js_map EndpointQualifier AddressImpl) : option AddressImpl :=
  match addressMap with
  | [] => None
  | (qualifier, address) :: addressMap =>
      if (eq_type qualifier =? CLIENT_PROTOCOL) && bool_decide (identifier qualifier = Some "public"%string) then Some address
      else lookupPublicAddress addressMap
  end.

Definition translateMemberAddress (translateToPublicAddress : bool) (member : Member) : AddressImpl + AddressImpl :=
  if translateToPublicAddress then inl (default (m_address member) (lookupPublicAddress (m_addressMap member)))
  else inr (m_address member).

(** A promise is settled once. *)
Definition settle (p q : Promise) : Promise := match p with Pending => q | _ => p end.

Definition to_stage (i : nat) (st : Stage) (s : CM) : CM :=
  match attempts s !! i with
  | Some a => set_attempt i (mkAttempt (a_key a) st (a_promise a) (a_listed a)) s
  | None => s
  end.

(** The last callbacks of the chain: [connectionResolver.resolve], and the [catch]. *)
Definition finish (i : nat) (p : Promise) (s : CM) : CM :=
  match attempts s !! i with
  | Some a => set_attempt i (mkAttempt (a_key a) Done (settle (a_promise a) p) (a_listed a)) s
  | None => s
  end.

Definition fail (i : nat) (connection : option nat) (e : failure) (s : CM) : CM :=
  finish i (Rejected e) (match connection with Some c => close c s | None => s end).

(** The answers an attempt waits for; a translator may answer null. *)
Definition translated (i : nat) (r : option AddressImpl + failure) (s : CM) : CM :=
  match r with
  | inl (Some translatedAddress) => to_stage i (Connecting translatedAddress) s
  | inl None => fail i None Native s
  | inr e => fail i None e s
  end.

Definition connected (i : nat) (translatedAddress : AddressImpl) (r : unit + failure) (s : CM) : CM :=
  match r with
  | inl _ =>
      let c := connectionIdCounter s in
      to_stage i (Initiating c) (set_conns (S c) (<[c := mkConnection true (Some translatedAddress) None None]> (conns s)) s)
  | inr e => fail i None e s
  end.

Definition initiated (i c : nat) (r : unit + failure) (s : CM) : CM :=
  match r with inl _ => to_stage i (Authenticating c) s | inr e => fail i (Some c) e s end.

(** The invocation failed, or was not answered within the heartbeat timeout. *)
Definition authentication_failed (i c : nat) (e : failure) (s : CM) : CM := fail i (Some c) e (close c s).

Definition authenticated (i c : nat) (r : AuthResponse) (s : CM) : CM :=
  match authenticateOnCluster c r s with
  | (inl conn, s) => finish i (Resolved conn) s
  | (inr e, s) => fail i (Some c) e s
  end.

(** [finally(() => this.pendingConnections.delete(addressKey))]. *)
Definition finally (i : nat) (s : CM) : CM :=
  match attempts s !! i with
  | Some a =>
      set_attempts (<[i := mkAttempt (a_key a) (a_stage a) (a_promise a) false]> (attempts s))
        (js_map_delete String.eqb (pendingConnections s) (a_key a)).2 s
  | None => s
  end.

(** ** Start, cluster changes, shutdown *)

(** [start]; without [asyncStart] the caller awaits the loop itself. *)
Definition start (s : CM) : CM :=
  if cr_active (registry s) then s
  else
    let s := set_registry (activate (registry s)) s in
    if asyncStart (registry s) then submitConnectToClusterTask s else push StartConnect s.

(** The end of the loop of a submitted task. *)
Definition connect_task_done (connected : bool) (s : CM) : CM :=
  if connected then
    let s := set_submitted false s in
    if isEmpty (registry s) then submitConnectToClusterTask s else s
  else shutdownClient s.

(** The first part of [cleanupAndTryNextCluster]; [onClusterChange] is the client's. *)
Definition onClusterChange (s : CM) : CM :=
  let s := emit ClearNearCaches s in
  reset (set_services (cs_reset (cluster s)) (PartitionService.reset (partitions s)) s).

Definition cleanupAndTryNextCluster (s : CM) : CM := set_switching true (onClusterChange s).

(** [sendStateToCluster] answered. *)
Definition state_sent (targetClusterId : UUID L) (s : CM) : CM :=
  let s := emit (StateSent targetClusterId) s in
  if UUID_equals targetClusterId (clusterId s) then
    emit (Lifecycle CONNECTED) (set_registry (setConnectionState (registry s) INITIALIZED_ON_CLUSTER) s)
  else s.

Definition state_failed (targetClusterId : UUID L) (s : CM) : CM :=
  if UUID_equals targetClusterId (clusterId s) then initializeClientOnCluster targetClusterId s else s.

Fixpoint tryConnectToAllClusterMembers (members : list Member) (s : CM) : CM :=
  match members with
  | [] => s
  | member :: members => tryConnectToAllClusterMembers members (getOrConnectToMember member s).2
  end.

Definition connectToAllClusterMembers (s : CM) : CM :=
  if smartRoutingEnabled (registry s) then tryConnectToAllClusterMembers (getMembers None (cluster s)) s else s.

Definition reconnect_one (member : Member) (s : CM) : CM :=
  match getConnection (registry s) (m_uuid member) with
  | Some _ => s
  | None =>
      let memberUuid := UUID_toString (m_uuid member) in
      if existsb (fun m => String.eqb m.1 memberUuid) (connectingMembers s) then s
      else let '(a, s) := getOrConnectToMember member s in set_connecting (connectingMembers s ++ [(memberUuid, a)]) s
  end.

Fixpoint reconnect_each (members : list Member) (s : CM) : CM :=
  match members with [] => s | member :: members => reconnect_each members (reconnect_one member s) end.

Definition reconnectToMembers (s : CM) : CM :=
  if running s then reconnect_each (getMembers None (cluster s)) s else s.

(** The member's promise is settled. *)
Definition connecting_done (memberUuid : string) (s : CM) : CM :=
  set_connecting (filter (fun m => m.1 <> memberUuid) (connectingMembers s)) s.

Definition reject_one (l : list Attempt) (e : string * nat) : list Attempt :=
  match l !! e.2 with
  | Some a => <[e.2 := mkAttempt (a_key a) (a_stage a) (settle (a_promise a) (Rejected (Hz Err.ClientNotActiveError))) (a_listed a)]> l
  | None => l
  end.

Definition reject_pending (l : list Attempt) (p : js_map string nat) : list Attempt := foldl reject_one l p.

Definition shutdown (s : CM) : CM :=
  if cr_active (registry s) then
    let s := set_registry (deactivate (registry s)) s in
    let s := set_flags (switchingToNextCluster s) (connectToClusterTaskSubmitted s) false s in
    let s := set_attempts (reject_pending (attempts s) (pendingConnections s)) (pendingConnections s) s in
    close_all (getConnections (registry s)) s
  else s.

(** The second part of the client's shutdown: the invocation service, then the connections. *)
Definition finish_shutdown (s : CM) : CM :=
  emit (Lifecycle SHUTDOWN) (shutdown (set_running (running s) true s)).
End ConnectionManager.
Arguments ConnectionManager : clear implicits.
Arguments AuthResponse : clear implicits.
Arguments Connection : clear implicits.
Arguments Task : clear implicits.
Arguments Effect : clear implicits.

(** ** The event loop *)

Section Steps.
Context {L : Type} `{LongLib L} {B : Type}.
#[local] Abbreviation CM := (ConnectionManager L B).

(** A member that accepts the client tells its address. *)
Definition protocol_ok (r : AuthResponse L) : Prop := r_status r = AUTHENTICATED -> is_Some (r_address r).

Definition stage_of (s : CM) (i : nat) : option Stage := a_stage <$> attempts s !! i.
Definition settled (p : Promise) : bool := match p with Pending => false | _ => true end.

(** The promise an answer is about is settled. *)
Definition answer_settled (s : CM) (a : Answer) : Prop :=
  match a with Settled p => settled p = true | Awaits i => exists t, attempts s !! i = Some t /\ settled (a_promise t) = true end.

(** One callback or call. The callers of [getOrConnect] run between [start] and [shutdown]; a response is delivered while
    the connection is open and the invocation service has not rejected the invocation. *)
Inductive step : CM -> CM -> Prop :=
  | st_start s : step s (start s)
  | st_to_address s address : cr_active (registry s) = true -> step s (getOrConnectToAddress address s).2
  | st_to_member s member : cr_active (registry s) = true -> step s (getOrConnectToMember member s).2
  | st_to_all s : cr_active (registry s) = true -> step s (connectToAllClusterMembers s)
  | st_reconnect s : cr_active (registry s) = true -> step s (reconnectToMembers s)
  | st_connecting_done s m a : (m, a) ∈ connectingMembers s -> answer_settled s a -> step s (connecting_done m s)
  | st_translated s i r : stage_of s i = Some Translating -> step s (translated i r s)
  | st_connected s i address r : stage_of s i = Some (Connecting address) -> step s (connected i address r s)
  | st_initiated s i c r : stage_of s i = Some (Initiating c) -> step s (initiated i c r s)
  | st_authentication_failed s i c e : stage_of s i = Some (Authenticating c) -> step s (authentication_failed i c e s)
  | st_authenticated s i c r k : stage_of s i = Some (Authenticating c) -> conns s !! c = Some k -> c_alive k = true ->
      invocationsShutDown s = false -> protocol_ok r -> step s (authenticated i c r s)
  | st_finally s i a : attempts s !! i = Some a -> settled (a_promise a) = true -> a_listed a = true -> step s (finally i s)
  | st_close s c : step s (close c s)
  | st_connect_task s ok l l' : tasks s = l ++ ConnectToCluster :: l' -> step s (connect_task_done ok (set_tasks (l ++ l') s))
  | st_start_connect s ok l l' : tasks s = l ++ StartConnect :: l' ->
      step s (let s := set_tasks (l ++ l') s in if ok : bool then s else shutdownClient s)
  | st_next_cluster s : StartConnect ∈ tasks s \/ ConnectToCluster ∈ tasks s -> step s (cleanupAndTryNextCluster s)
  | st_members s version infos cl : handleMembersViewEvent (registry s) version infos (cluster s) = Ok cl ->
      step s (update_members cl s)
  | st_state_sent s cid l l' : tasks s = l ++ SendState cid :: l' -> step s (state_sent cid (set_tasks (l ++ l') s))
  | st_state_failed s cid l l' : tasks s = l ++ SendState cid :: l' -> step s (state_failed cid (set_tasks (l ++ l') s))
  | st_client_shutdown s : step s (shutdownClient s)
  | st_finish_shutdown s l l' : tasks s = l ++ FinishShutdown :: l' -> step s (finish_shutdown (set_tasks (l ++ l') s)).

Inductive reachable (init : CM) : CM -> Prop :=
  | reach_init : reachable init init
  | reach_step s s' : reachable init s -> step s s' -> reachable init s'.
End Steps.

(** ** Invariant *)

Section Invariant.
Context {L : Type} `{LongLaws L} {B : Type}.
#[local] Abbreviation CM := (ConnectionManager L B).
Implicit Types (s : CM) (c : nat) (k : Connection L).

(** The connection [c] is the active one of the member with the UUID text [u]. *)
Definition active s (u : string) c : Prop := js_map_get String.eqb (activeConnections (registry s)) u = Some c.

(** The connection an attempt has opened and not yet handed over. *)
Definition stage_conn (a : Attempt) : option nat :=
  match a_stage a with Initiating c | Authenticating c => Some c | _ => None end.

Definition owned s c : Prop := exists i a, attempts s !! i = Some a /\ stage_conn a = Some c.

Definition is_alive s c : Prop := exists k, conns s !! c = Some k /\ c_alive k = true.

(** [x] is the connection whose authentication response is being processed. *)
Record Inv (x : option nat) s : Prop := {
  inv_wf : js_map_wf String.eqb (activeConnections (registry s));
  inv_active u c : active s u c -> exists k v r,
    conns s !! c = Some k /\ c_alive k = true /\ is_Some (c_remoteAddress k) /\ c_remoteUuid k = Some v /\ u = UUID_toString v /\
    answers s !! c = Some r /\ r_memberUuid r = v /\ clusterId s = Some (r_clusterId r);
  inv_ids c : is_Some (conns s !! c) -> (c < connectionIdCounter s)%nat;
  inv_stage i a c : attempts s !! i = Some a -> stage_conn a = Some c ->
    exists k, conns s !! c = Some k /\ (x <> Some c -> c_remoteUuid k = None);
  inv_distinct i j a b c : attempts s !! i = Some a -> attempts s !! j = Some b ->
    stage_conn a = Some c -> stage_conn b = Some c -> i = j;
  inv_alive c : is_alive s c -> (exists u, active s u c) \/ owned s c;
  inv_pending key i : js_map_get String.eqb (pendingConnections s) key = Some i ->
    exists a, attempts s !! i = Some a /\ a_key a = key /\ a_listed a = true;
  inv_listed i a : attempts s !! i = Some a -> a_listed a = true ->
    js_map_get String.eqb (pendingConnections s) (a_key a) = Some i;
  inv_pending_wf : js_map_wf String.eqb (pendingConnections s);
  inv_settled i a : attempts s !! i = Some a -> a_stage a = Done \/ a_listed a = false -> settled (a_promise a) = true;
  inv_initial : connectionState (registry s) = INITIAL -> clusterId s = None }.

(** No connection before [start] and after the shutdown. *)
Definition Life s : Prop :=
  (invocationsShutDown s = true -> activeConnections (registry s) = []) /\
  (cr_active (registry s) = false -> invocationsShutDown s = false -> activeConnections (registry s) = [] /\ attempts s = []).

Lemma insert_cases {A} (l : list A) i x : (i < length l)%nat -> forall j y,
  <[i := x]> l !! j = Some y -> (j = i /\ y = x) \/ (j <> i /\ l !! j = Some y).
Proof.
  intros Hi j y. rewrite list_lookup_insert. case_decide as E; [intros [= <-]; destruct E; auto|].
  intros Hj. right. split; [|done]. intros ->. by destruct E.
Qed.

(** An operation that only assigns fields the invariant does not mention. *)
Ltac frame I := destruct I; constructor; assumption.

Lemma submit_inv x s : Inv x s -> Inv x (submitConnectToClusterTask s).
Proof. intros I. unfold submitConnectToClusterTask. destruct (connectToClusterTaskSubmitted s); [done|]. frame I. Qed.

Lemma shutdownClient_inv x s : Inv x s -> Inv x (shutdownClient s).
Proof. intros I. unfold shutdownClient. destruct (running s); [|done]. frame I. Qed.

Lemma trigger_inv x s : Inv x s -> Inv x (triggerClusterReconnection s).
Proof.
  intros I. unfold triggerClusterReconnection. case_bool_decide; [by apply shutdownClient_inv|].
  destruct (running s); [by apply submit_inv | done].
Qed.

Lemma emit_inv x e s : Inv x s -> Inv x (emit e s).
Proof. intros I. frame I. Qed.

(** Ends a bound connection: what closing does to the connections and to the registry. *)
Definition kill k : Connection L := mkConnection false (c_remoteAddress k) (c_remoteUuid k) (c_serverVersion k).

Lemma kill_inv x s c k : Inv x s -> conns s !! c = Some k -> (forall u, ~ active s u c) ->
  Inv x (set_connection c (kill k) s).
Proof.
  intros [] Hc Hn. constructor; try assumption; cbn.
  - intros u d Hd. destruct (inv_active0 u d Hd) as (k' & v & r & Hk & Hrest). exists k', v, r.
    rewrite lookup_insert_ne; [done|]. intros ->. by destruct (Hn u).
  - intros d [k' Hd]. apply inv_ids0. rewrite lookup_insert in Hd. case_decide; subst; eauto.
  - intros i a d Ha Hs. destruct (inv_stage0 i a d Ha Hs) as (k' & Hk & Hu). rewrite lookup_insert. case_decide as E; [|eauto].
    subst. rewrite Hc in Hk. injection Hk as <-. exists (kill k). by split.
  - intros d (k' & Hk & Ha). cbn in Hk. rewrite lookup_insert in Hk. case_decide as E; [by injection Hk as <-|].
    apply inv_alive0. by exists k'.
Qed.

Lemma delete_active_inv x s c k v : Inv x s -> conns s !! c = Some k -> c_remoteUuid k = Some v -> active s (UUID_toString v) c ->
  let s' := set_registry (deleteConnection (registry s) v) (set_connection c (kill k) s) in
  Inv x s' /\ forall u, ~ active s' u c.
Proof.
  intros I Hc Hv Ha. destruct I.
  assert (forall u d, js_map_get String.eqb (js_map_delete String.eqb (activeConnections (registry s)) (UUID_toString v)).2 u = Some d ->
    active s u d /\ d <> c) as Hdel.
  { intros u d Hd. rewrite (js_map_get_delete _ String.eqb_eq) in Hd by done.
    destruct (String.eqb (UUID_toString v) u) eqn:E; [done|]. split; [done|]. intros ->.
    destruct (inv_active0 u c Hd) as (k' & w & r & Hk & _ & _ & Hw & -> & _). rewrite Hc in Hk. injection Hk as <-.
    rewrite Hv in Hw. injection Hw as <-. by rewrite String.eqb_refl in E. }
  split.
  - constructor; try assumption; cbn.
    + by apply js_map_delete_wf.
    + intros u d Hd. destruct (Hdel u d Hd) as [Hd' Hne]. destruct (inv_active0 u d Hd') as (k' & w & r & Hk & Hrest).
      exists k', w, r. by rewrite lookup_insert_ne.
    + intros d [k' Hd]. apply inv_ids0. rewrite lookup_insert in Hd. case_decide; subst; eauto.
    + intros i a d Ha' Hs. destruct (inv_stage0 i a d Ha' Hs) as (k' & Hk & Hu). rewrite lookup_insert. case_decide as E; [|eauto].
      subst. rewrite Hc in Hk. injection Hk as <-. exists (kill k). by split.
    + intros d (k' & Hk & Hal). cbn in Hk. rewrite lookup_insert in Hk. case_decide as E; [by injection Hk as <-|].
      destruct (inv_alive0 d) as [[u Hu]|Ho]; [by exists k' | | by right]. left. exists u. unfold active. cbn.
      rewrite (js_map_get_delete _ String.eqb_eq) by done. destruct (String.eqb (UUID_toString v) u) eqn:E'; [|done].
      apply String.eqb_eq in E' as <-. unfold active in Ha, Hu. congruence.
  - intros u Hu. by destruct (Hdel u c Hu).
Qed.

(** Closing keeps the invariant, and a closed connection is not active. *)
Lemma cm_close_inv x s c : Inv x s -> Inv x (close c s).
Proof.
  intros I. unfold close. destruct (conns s !! c) as [k|] eqn:Hc; [|done]. destruct (c_alive k) eqn:Hal; [|done].
  fold (kill k). unfold onConnectionClose. cbn [c_remoteAddress c_remoteUuid kill].
  destruct (decide ((v ← c_remoteUuid k; getConnection (registry s) v) = Some c)) as [Hu|Hn].
  - destruct (c_remoteUuid k) as [v|] eqn:Hv; [|done]. cbn in Hu.
    destruct (inv_active _ _ I _ c Hu) as (k' & w & r & Hk & _ & [ad Had] & _). rewrite Hc in Hk. injection Hk as <-.
    rewrite Had. rewrite bool_decide_true by exact Hu.
    destruct (delete_active_inv x s c k v I Hc Hv Hu) as [I' _]. apply emit_inv.
    set (s1 := set_registry _ _). change (Inv x s1) in I'. destruct (isEmpty (registry s1)); [|done]. apply trigger_inv.
    case_bool_decide; [by apply emit_inv | done].
  - assert (Inv x (set_connection c (kill k) s)) as I'.
    { apply kill_inv; [done..|]. intros u Hu. apply Hn.
      destruct (inv_active _ _ I u c Hu) as (k' & v & r & Hk & _ & _ & Hv & -> & _). rewrite Hc in Hk. injection Hk as <-.
      by rewrite Hv. }
    destruct (c_remoteAddress k), (c_remoteUuid k) as [v|]; try done. by rewrite bool_decide_false.
Qed.

(** What closing leaves as it is. *)
Record same s s' : Prop := {
  same_attempts : attempts s' = attempts s;
  same_pending : pendingConnections s' = pendingConnections s;
  same_clusterId : clusterId s' = clusterId s;
  same_answers : answers s' = answers s;
  same_shutdown : invocationsShutDown s' = invocationsShutDown s;
  same_partitions : partitions s' = partitions s;
  same_active u c : active s' u c -> active s u c;
  same_dead c k : conns s !! c = Some k -> exists k', conns s' !! c = Some k' /\ (k' = k \/ k' = kill k) }.

Lemma cm_same_refl s : same s s.
Proof. constructor; eauto. Qed.

Lemma kill_kill k : kill (kill k) = kill k.
Proof. done. Qed.

Lemma same_trans s1 s2 s3 : same s1 s2 -> same s2 s3 -> same s1 s3.
Proof.
  intros [] []. constructor; try congruence; [auto|]. intros c k Hk.
  destruct (same_dead0 c k Hk) as (k2 & Hk2 & E2), (same_dead1 c k2 Hk2) as (k3 & Hk3 & E3).
  exists k3. split; [done|]. destruct E2 as [-> | ->], E3 as [-> | ->]; auto.
Qed.

Lemma trigger_same s : same s (triggerClusterReconnection s).
Proof.
  unfold triggerClusterReconnection, shutdownClient, submitConnectToClusterTask.
  case_bool_decide; destruct (running s); try apply cm_same_refl; [constructor; cbn; eauto|].
  destruct (connectToClusterTaskSubmitted s); constructor; cbn; eauto.
Qed.

Lemma get_delete_sub (m : js_map string nat) a u c : js_map_wf String.eqb m ->
  js_map_get String.eqb (js_map_delete String.eqb m a).2 u = Some c -> js_map_get String.eqb m u = Some c.
Proof. intros Hwf. rewrite (js_map_get_delete _ String.eqb_eq) by done. by destruct (String.eqb a u). Qed.

Lemma close_same x s c : Inv x s -> same s (close c s) /\ (forall k, conns s !! c = Some k -> conns (close c s) !! c = Some (kill k)).
Proof.
  intros I. unfold close. destruct (conns s !! c) as [k|] eqn:Hc; [|split; [apply cm_same_refl | done]].
  destruct (c_alive k) eqn:Hal; [|split; [apply cm_same_refl|]; intros k' [= <-]; rewrite Hc; f_equal; destruct k; cbn in *; by subst].
  fold (kill k). set (s1 := set_connection c (kill k) s).
  assert (same s s1) as Hs1.
  { constructor; cbn; try done. intros d k' Hd. rewrite lookup_insert. case_decide as E; [|eauto].
    subst. rewrite Hc in Hd. injection Hd as <-. eauto. }
  assert (conns s1 !! c = Some (kill k)) as Hc1 by (cbn; by rewrite lookup_insert_eq).
  unfold onConnectionClose. destruct (c_remoteAddress (kill k)), (c_remoteUuid (kill k)) as [v|]; try (split; [done | by intros ? [= <-]]).
  case_bool_decide; [|split; [done | by intros ? [= <-]]].
  set (s2 := set_registry _ s1).
  assert (same s1 s2) as Hs2.
  { constructor; cbn; eauto. intros u d Hd. eapply get_delete_sub; [apply (inv_wf _ _ I) | exact Hd]. }
  match goal with |- same s (emit _ ?t) /\ _ => set (s3 := t); assert (same s2 s3 /\ conns s3 = conns s2) as [Hs3 Hc3]; [unfold s3|] end.
  { destruct (isEmpty (registry s2)); [|split; [apply cm_same_refl | done]]. case_bool_decide; (split;
      [eapply same_trans; [|apply trigger_same]; constructor; cbn; eauto|]);
      unfold triggerClusterReconnection, shutdownClient, submitConnectToClusterTask; repeat case_match; done. }
  split; [|intros ? [= <-]; change (conns s3 !! c = Some (kill k)); by rewrite Hc3].
  eapply same_trans; [exact Hs1|]. eapply same_trans; [exact Hs2|]. eapply same_trans; [exact Hs3|]. constructor; cbn; eauto.
Qed.

Lemma close_closed x s c : Inv x s -> ~ is_alive (close c s) c.
Proof.
  intros I (k & Hk & Ha). destruct (close_same x s c I) as [_ Hc]. destruct (conns s !! c) as [k0|] eqn:E.
  - rewrite (Hc k0 eq_refl) in Hk. by injection Hk as <-.
  - unfold close in Hk. rewrite E in Hk. by rewrite E in Hk.
Qed.

Lemma alive_active x s u c : Inv x s -> active s u c -> is_alive s c.
Proof. intros I Ha. destruct (inv_active _ _ I u c Ha) as (k & v & r & Hk & Hal & _). by exists k. Qed.

(** A connection that is closed stays closed. *)
Lemma same_closed s s' c k : same s s' -> conns s !! c = Some k -> is_alive s' c -> is_alive s c.
Proof.
  intros Hs Hc (k' & Hk & Ha). destruct (same_dead _ _ Hs c k Hc) as (k2 & Hk2 & [->| ->]); rewrite Hk in Hk2; injection Hk2 as ->; [by exists k | done].
Qed.

Lemma close_all_inv x cs : forall s, Inv x s -> Inv x (close_all cs s) /\ same s (close_all cs s).
Proof.
  induction cs as [|c cs IH]; intros s I; [split; [done | apply cm_same_refl]|]. cbn.
  destruct (IH (close c s) (cm_close_inv x s c I)) as [I' Hs]. split; [done|].
  eapply same_trans; [by apply (close_same x) | done].
Qed.

Lemma close_all_closed x cs c : forall k s, Inv x s -> conns s !! c = Some k -> c ∈ cs -> ~ is_alive (close_all cs s) c.
Proof.
  induction cs as [|d cs IH]; intros k s I Hc Hin; [by apply not_elem_of_nil in Hin|]. cbn.
  destruct (close_same x s d I) as [Hs Hd]. destruct (same_dead _ _ Hs c k Hc) as (k' & Hk' & _).
  apply elem_of_cons in Hin as [->|Hin].
  - intros Hal. destruct (close_all_inv x cs (close d s) (cm_close_inv x s d I)) as [_ Hs'].
    by eapply (close_closed x s d I), same_closed.
  - apply (IH k' (close d s)); [by apply cm_close_inv | done | done].
Qed.

(** Closing every active connection leaves none. *)
Lemma close_all_empty x s : Inv x s -> activeConnections (registry (close_all (getConnections (registry s)) s)) = [].
Proof.
  intros I. destruct (close_all_inv x (getConnections (registry s)) s I) as [I' Hs]. apply (js_map_empty _ String.eqb_eq).
  intros u. destruct (js_map_get _ _ u) as [c|] eqn:E; [|done]. exfalso.
  pose proof (same_active _ _ Hs u c E) as Ha. destruct (inv_active _ _ I u c Ha) as (k & v & r & Hk & _).
  eapply (close_all_closed x _ c k s I Hk); [|by eapply alive_active].
  apply (js_map_get_Some _ String.eqb_eq) in Ha. apply list_elem_of_fmap. by exists (u, c).
Qed.

Lemma cm_inv_weaken x s : Inv None s -> Inv x s.
Proof.
  intros []. constructor; try assumption. intros i a c Ha Hs. destruct (inv_stage0 i a c Ha Hs) as (k & Hk & Hu).
  exists k. split; [done|]. intros _. by apply Hu.
Qed.

(** An attempt's connection is not active until its response is processed. *)
Lemma owned_not_active s c u : Inv None s -> owned s c -> ~ active s u c.
Proof.
  intros I (i & a & Ha & Hs) Hu. destruct (inv_active _ _ I u c Hu) as (k & v & r & Hk & _ & _ & Hv & _).
  destruct (inv_stage _ _ I i a c Ha Hs) as (k' & Hk' & Hn). rewrite Hk in Hk'. injection Hk' as <-.
  by rewrite Hn in Hv.
Qed.

(** The connection under authentication is told who it is connected to. *)
Lemma touch_inv s c k k' r : Inv None s -> owned s c -> conns s !! c = Some k -> c_alive k' = c_alive k ->
  Inv (Some c) (set_connection c k' (set_answers (<[c := r]> (answers s)) s)).
Proof.
  intros I Ho Hc Hal. pose proof (fun u => owned_not_active s c u I Ho) as Hn. destruct I. constructor; try assumption; cbn.
  - intros u d Hd. destruct (inv_active0 u d Hd) as (kd & v & r' & Hk & Hrest). exists kd, v, r'.
    assert (c <> d) by (intros ->; by destruct (Hn u)). by rewrite !lookup_insert_ne.
  - intros d [kd Hd]. apply inv_ids0. rewrite lookup_insert in Hd. case_decide; subst; eauto.
  - intros i a d Ha Hs. destruct (inv_stage0 i a d Ha Hs) as (kd & Hk & Hu). rewrite lookup_insert. case_decide as E; [|by eauto].
    subst. exists k'. split; [done|]. by intros [].
  - intros d (kd & Hk & Ha). cbn in Hk. rewrite lookup_insert in Hk. case_decide as E; [|apply inv_alive0; by exists kd].
    subst. injection Hk as <-. apply inv_alive0. exists k. split; congruence.
Qed.

(** The connection becomes the active one of its member. *)
Lemma register_inv s c k r reg : Inv (Some c) s -> owned s c -> (forall u, ~ active s u c) ->
  conns s !! c = Some k -> c_alive k = true -> is_Some (c_remoteAddress k) -> c_remoteUuid k = Some (r_memberUuid r) ->
  answers s !! c = Some r -> getConnection (registry s) (r_memberUuid r) = None ->
  activeConnections reg = js_map_set String.eqb (activeConnections (registry s)) (UUID_toString (r_memberUuid r)) c ->
  connectionState reg <> INITIAL ->
  activeConnections (registry s) = [] \/ clusterId s = Some (r_clusterId r) ->
  Inv (Some c) (set_clusterId (Some (r_clusterId r)) (set_registry reg s)).
Proof.
  intros I Ho Hn Hc Hal Had Hv Hr Hg Eact Hst Hcid. destruct I. constructor; try assumption; cbn.
  - rewrite Eact. by apply js_map_set_wf.
  - intros u d. unfold active. cbn. rewrite Eact, (js_map_get_set _ String.eqb_eq).
    destruct (String.eqb (UUID_toString (r_memberUuid r)) u) eqn:E.
    + intros [= <-]. apply String.eqb_eq in E as <-. exists k, (r_memberUuid r), r. by split_and!.
    + intros Hd. destruct Hcid as [E0|Ecid]; [by rewrite E0 in Hd|].
      destruct (inv_active0 u d Hd) as (kd & w & r' & Hk & H1' & H2' & H3' & H4' & H5' & H6' & H7').
      exists kd, w, r'. split_and!; try done. congruence.
  - intros d Hd. destruct (inv_alive0 d Hd) as [[u Hu]|Ho']; [|by right]. left. unfold active. cbn. rewrite Eact.
    exists u. rewrite (js_map_get_set _ String.eqb_eq). destruct (String.eqb _ u) eqn:E; [|done].
    apply String.eqb_eq in E as <-. unfold active, getConnection in *. congruence.
  - done.
Qed.

Lemma empty_no_connection (r : ConnectionRegistryImpl B) u : isEmpty r = true -> getConnection r u = None.
Proof. unfold isEmpty, getConnection. intros E. apply Nat.eqb_eq in E. by destruct (activeConnections r). Qed.

(** Nothing is closed for members that have no connection. *)
Lemma restart_closes_nothing s : isEmpty (registry s) = true ->
  closed (clearMemberList (registry s) (cluster s)) = closed (cluster s).
Proof.
  intros E. unfold clearMemberList. destruct (memberListSnapshot (cluster s)) as [sn|]; [|done].
  unfold apply_events, detectMembershipEvents. destruct (foldl _ _ _) as [dead new]. cbn.
  assert (omap (fun m : MemberImpl L => getConnection (registry s) (m_uuid m)) (map snd dead) = []) as ->; [|by rewrite app_nil_r].
  induction (map snd dead) as [|m l IH]; cbn; [done|]. by rewrite empty_no_connection.
Qed.

(** The attempt hands its connection over, or gives it up. *)
Lemma finish_inv x s i a p : Inv x s -> (forall c, x = Some c -> stage_conn a = Some c) -> attempts s !! i = Some a ->
  (forall c, stage_conn a = Some c -> ~ is_alive s c \/ (exists u, active s u c)) -> settled p = true -> Inv None (finish i p s).
Proof.
  intros I Hx Ha Hc Hp. unfold finish. rewrite Ha. set (a' := mkAttempt _ _ _ _).
  pose proof (lookup_lt_Some _ _ _ Ha) as Hlt. pose proof (insert_cases (attempts s) i a' Hlt) as Hl.
  assert (forall j b, j <> i -> attempts s !! j = Some b -> <[i := a']> (attempts s) !! j = Some b) as Hl'
    by (intros; by rewrite list_lookup_insert_ne).
  destruct I. constructor; try assumption; cbn.
  - intros j b d Hj Hs. destruct (Hl j b Hj) as [[-> ->]|[Hne Hj']]; [done|]. destruct (inv_stage0 j b d Hj' Hs) as (k & Hk & Hu).
    exists k. split; [done|]. intros _. apply Hu. intros ->. by apply Hne, (inv_distinct0 j i b a d), Hx.
  - intros j j' b b' d Hj Hj' Hs Hs'. destruct (Hl j b Hj) as [[-> ->]|[_ Hj2]]; [done|].
    destruct (Hl j' b' Hj') as [[-> ->]|[_ Hj2']]; [done|]. eauto.
  - intros d Hd. destruct (inv_alive0 d Hd) as [?|(j & b & Hj & Hs)]; [by left|].
    destruct (decide (j = i)) as [->|Hne]; [|right; exists j, b; split; [by apply Hl' | done]].
    rewrite Ha in Hj. injection Hj as <-. left. by destruct (Hc d Hs).
  - intros key j Hj. destruct (inv_pending0 key j Hj) as (b & Hb & Hk & Hli). destruct (decide (j = i)) as [->|Hne].
    + rewrite Ha in Hb. injection Hb as <-. exists a'. by rewrite list_lookup_insert_eq.
    + exists b. split_and!; [by apply Hl'|done..].
  - intros j b Hj Hli. destruct (Hl j b Hj) as [[-> ->]|[_ Hj']]; [exact (inv_listed0 i a Ha Hli) | eauto].
  - intros j b Hj Hs. destruct (Hl j b Hj) as [[-> ->]|[_ Hj']]; [|eauto]. cbn. by destruct (a_promise a).
Qed.

(** What processing the response leaves: the attempts as they were, and the connection handed over or closed. *)
Definition processed (c : nat) (r : AuthResponse L) s (out : nat + failure) s' : Prop :=
  Inv (Some c) s' /\ attempts s' = attempts s /\
  match out with
  | inl d => active s' (UUID_toString (r_memberUuid r)) d /\ (d = c /\ clusterId s' = Some (r_clusterId r) \/ ~ is_alive s' c)
  | inr _ => True
  end.

Lemma registered_processed s s0 c k r reg tks eff : Inv (Some c) s -> owned s c -> (forall u, ~ active s u c) ->
  conns s !! c = Some k -> c_alive k = true -> is_Some (c_remoteAddress k) -> c_remoteUuid k = Some (r_memberUuid r) ->
  answers s !! c = Some r -> getConnection (registry s) (r_memberUuid r) = None ->
  activeConnections reg = js_map_set String.eqb (activeConnections (registry s)) (UUID_toString (r_memberUuid r)) c ->
  connectionState reg <> INITIAL ->
  activeConnections (registry s) = [] \/ clusterId s = Some (r_clusterId r) -> attempts s = attempts s0 ->
  processed c r s0 (inl c) (emit eff (set_tasks tks (set_clusterId (Some (r_clusterId r)) (set_registry reg s)))).
Proof.
  intros I Ho Hn Hc Hal Had Hv Hr Hg Eact Hst Hcid Ea.
  pose proof (register_inv s c k r reg I Ho Hn Hc Hal Had Hv Hr Hg Eact Hst Hcid) as I'.
  split; [frame I' | split; [done|]]. split; [|by left]. unfold active. cbn.
  by rewrite Eact, (js_map_get_set _ String.eqb_eq), String.eqb_refl.
Qed.

Lemma state_known s u c : Inv None s -> active s u c -> connectionState (registry s) <> INITIAL.
Proof.
  intros I Ha E. apply (inv_initial _ _ I) in E. destruct (inv_active _ _ I u c Ha) as (k & v & r & H0' & H1' & H2' & H3' & H4' & H5' & H6' & Hcl).
  congruence.
Qed.

Lemma nonempty_active (s : CM) : isEmpty (registry s) = false -> exists u c, active s u c.
Proof.
  unfold isEmpty, active. intros E. destruct (activeConnections (registry s)) as [|[u c] m]; [done|].
  exists u, c. cbn. by rewrite String.eqb_refl.
Qed.

Lemma is_empty_nil (s : CM) : isEmpty (registry s) = true -> activeConnections (registry s) = [].
Proof. unfold isEmpty. intros E. apply Nat.eqb_eq in E. by destruct (activeConnections (registry s)). Qed.
Lemma nil_is_empty (s : CM) : activeConnections (registry s) = [] -> isEmpty (registry s) = true.
Proof. unfold isEmpty. by intros ->. Qed.

(** The rest of the processing, once the connection may stay. *)
Lemma accept_processed s s0 c k r (changed : bool) : Inv (Some c) s -> owned s c -> (forall u, ~ active s u c) ->
  conns s !! c = Some k -> c_alive k = true -> is_Some (c_remoteAddress k) -> c_remoteUuid k = Some (r_memberUuid r) ->
  answers s !! c = Some r -> getConnection (registry s) (r_memberUuid r) = None ->
  (isEmpty (registry s) = false -> clusterId s = Some (r_clusterId r) /\ connectionState (registry s) <> INITIAL) ->
  attempts s = attempts s0 ->
  processed c r s0 (inl c) (emit (ConnectionAdded c)
    (let connectionsEmpty := isEmpty (registry s) in
     let s := set_registry (setConnection (registry s) (r_memberUuid r) c) s in
     if connectionsEmpty then
       let s := set_clusterId (Some (r_clusterId r)) s in
       if changed then
         initializeClientOnCluster (r_clusterId r) (set_registry (setConnectionState (registry s) CONNECTED_TO_CLUSTER) s)
       else emit (Lifecycle CONNECTED) (set_registry (setConnectionState (registry s) INITIALIZED_ON_CLUSTER) s)
     else s)).
Proof.
  intros I Ho Hn Hc Hal Had Hv Hr Hg Hne Ea. cbv zeta. destruct (isEmpty (registry s)) eqn:Eem.
  - pose proof (is_empty_nil s Eem) as Enil. destruct changed.
    + unfold initializeClientOnCluster. cbn [clusterId set_registry set_clusterId].
      rewrite (proj2 (UUID_equals_true _ _) eq_refl).
      by eapply (registered_processed s s0 c k r (setConnectionState (setConnection (registry s) (r_memberUuid r) c) CONNECTED_TO_CLUSTER)); eauto.
    + assert (processed c r s0 (inl c) (emit (ConnectionAdded c) (set_tasks (tasks s) (set_clusterId (Some (r_clusterId r))
        (set_registry (setConnectionState (setConnection (registry s) (r_memberUuid r) c) INITIALIZED_ON_CLUSTER) s))))) as (I' & Ea' & Hp)
        by (eapply (registered_processed s s0 c k r); eauto; done).
      split; [frame I' | split; [done | exact Hp]].
  - destruct (Hne eq_refl) as [Ecid Hst].
    assert (processed c r s0 (inl c) (emit (ConnectionAdded c) (set_tasks (tasks s) (set_clusterId (Some (r_clusterId r))
        (set_registry (setConnection (registry s) (r_memberUuid r) c) s))))) as (I' & Ea' & Hp)
        by (eapply (registered_processed s s0 c k r); eauto; done).
    rewrite <- Ecid in I'. split; [frame I' | split; [done|]]. destruct Hp as [Hp _]. split; [exact Hp | by left].
Qed.

(** Closing a connection that is not active leaves the registry as it is. *)
Lemma close_inactive s c : (forall u, ~ active s u c) -> registry (close c s) = registry s.
Proof.
  intros Hn. unfold close. destruct (conns s !! c) as [k|]; [|done]. destruct (c_alive k); [|done].
  unfold onConnectionClose. cbn [c_remoteAddress c_remoteUuid]. destruct (c_remoteAddress k), (c_remoteUuid k) as [v|]; try done.
  rewrite bool_decide_false; [done|]. intros Hv. by apply (Hn (UUID_toString v)).
Qed.

Lemma onAuthenticated_inv s i a c k r : Inv None s -> attempts s !! i = Some a -> stage_conn a = Some c ->
  conns s !! c = Some k -> c_alive k = true -> is_Some (r_address r) ->
  let s1 := set_answers (<[c := r]> (answers s)) s in
  processed c r s (onAuthenticated c r s1).1 (onAuthenticated c r s1).2.
Proof.
  intros I Ha Hsc Hc Hal Had s1. assert (owned s c) as Ho by (by exists i, a).
  unfold onAuthenticated, checkPartitionCount. destruct (checkAndSetPartitionCount _ _) as [ok p]. cbn [conns set_services set_answers s1].
  rewrite Hc. set (k' := mkConnection (c_alive k) _ _ _).
  pose proof (touch_inv s c k k' r I Ho Hc eq_refl) as I2. pose proof (touch_inv s c k k r I Ho Hc eq_refl) as I1.
  destruct ok; cbn [negb]; [|split; [|done]].
  2: { unfold set_connection in I1. cbn in I1. rewrite insert_id in I1 by done. frame I1. }
  set (s2 := set_connection c k' _).
  assert (Inv (Some c) s2) as I2' by (frame I2).
  assert (conns s2 !! c = Some k') as Hc2 by (cbn; by rewrite lookup_insert_eq).
  assert (attempts s2 = attempts s) as Ea2 by done.
  assert (forall u, ~ active s2 u c) as Hn2 by (intros u; exact (owned_not_active s c u I Ho)).
  assert (answers s2 !! c = Some r) as Hr2 by (cbn; by rewrite lookup_insert_eq).
  assert (isEmpty (registry s2) = false -> connectionState (registry s2) <> INITIAL) as Hst2.
  { intros E. destruct (nonempty_active s2 E) as (u & d & Hd). by eapply (state_known s u d I). }
  assert (forall u d, active s2 u d -> is_Some (clusterId s2)) as Hcl2.
  { intros u d Hd. destruct (inv_active _ _ I u d Hd) as (? & ? & r' & _ & _ & _ & _ & _ & _ & _ & E). exists (r_clusterId r'). exact E. }
  clearbody s2. clear I1 I2. destruct (getConnection (registry s2) (r_memberUuid r)) as [d|] eqn:Eg.
  - cbn. split; [by apply cm_close_inv|]. destruct (close_same (Some c) s2 c I2') as [Hs _].
    split; [by rewrite (same_attempts _ _ Hs)|]. split; [|right; by eapply close_closed].
    unfold active. by rewrite close_inactive.
  - set (changed := match clusterId s2 with Some _ => _ | None => false end).
    assert (changed = false -> isEmpty (registry s2) = false -> clusterId s2 = Some (r_clusterId r)) as Hch.
    { unfold changed. intros E1 E2. destruct (nonempty_active s2 E2) as (u & d & Hd). destruct (Hcl2 u d Hd) as [cid Ecid].
      rewrite Ecid in E1 |- *. apply negb_false_iff in E1. by apply UUID_equals_true in E1. }
    destruct changed.
    + unfold checkConnectionStateOnClusterIdChange.
      assert (processed c r s (inr (Hz Err.IllegalStateError)) (close c s2)) as Hclose.
      { split; [by apply cm_close_inv|]. split; [|done]. by rewrite (same_attempts _ _ (proj1 (close_same (Some c) s2 c I2'))). }
      destruct (isEmpty (registry s2)) eqn:Eem; [|exact Hclose].
      assert (forall b, processed c r s (inl c) (emit (ConnectionAdded c)
        (let s := onClusterRestart (set_switching b s2) in
         let connectionsEmpty := isEmpty (registry s) in
         let s := set_registry (setConnection (registry s) (r_memberUuid r) c) s in
         if connectionsEmpty then
           let s := set_clusterId (Some (r_clusterId r)) s in
           initializeClientOnCluster (r_clusterId r) (set_registry (setConnectionState (registry s) CONNECTED_TO_CLUSTER) s)
         else s))) as Haccept.
      { intros b. unfold onClusterRestart, update_members. rewrite drop_ge; [cbn [close_all foldl]|].
        2: { cbn. rewrite restart_closes_nothing; [done | exact Eem]. }
        match goal with |- context [isEmpty (registry ?t)] => apply (accept_processed t s c k' r true) end; try done.
        - frame I2'.
        - exists i, a. cbn. by rewrite Ea2.
        - intros E. cbn in E. by rewrite Eem in E. }
      destruct (failoverConfigProvided s2); [destruct (switchingToNextCluster s2)|].
      * apply Haccept.
      * exact Hclose.
      * destruct s2. exact (Haccept switchingToNextCluster0).
    + refine (accept_processed s2 s c k' r false I2' _ Hn2 Hc2 _ _ _ Hr2 Eg _ Ea2); try done; [|auto].
      exists i, a. by rewrite Ea2.
Qed.

Lemma fail_inv x s i a o e : Inv x s -> (forall c, x = Some c -> stage_conn a = Some c) -> attempts s !! i = Some a ->
  stage_conn a = o -> Inv None (fail i o e s).
Proof.
  intros I Hx Ha Ho. unfold fail. destruct o as [c|].
  - destruct (close_same x s c I) as [Hs _]. eapply (finish_inv x); [by apply cm_close_inv | done | by rewrite (same_attempts _ _ Hs) | | done].
    intros d Hd. rewrite Ho in Hd. injection Hd as <-. left. by eapply close_closed.
  - eapply (finish_inv x); eauto. intros d Hd. congruence.
Qed.

(** The response of a member, on every branch. *)
Lemma authenticateOnCluster_processed s i a c k r : Inv None s -> attempts s !! i = Some a -> stage_conn a = Some c ->
  conns s !! c = Some k -> c_alive k = true -> protocol_ok r ->
  processed c r s (authenticateOnCluster c r s).1 (authenticateOnCluster c r s).2.
Proof.
  intros I Ha Hsc Hc Hal Hp. unfold authenticateOnCluster. set (s1 := set_answers _ s). cbv zeta.
  set (st := if _ && _ then _ else _). destruct (st =? AUTHENTICATED) eqn:E.
  - assert (is_Some (r_address r)) as Had.
    { apply Hp. unfold st in E. destruct (_ && _); [done|]. by apply Z.eqb_eq in E. }
    exact (onAuthenticated_inv s i a c k r I Ha Hsc Hc Hal Had).
  - assert (Inv (Some c) s1) as I1.
    { pose proof (touch_inv s c k k r I ltac:(by exists i, a) Hc eq_refl) as I1. unfold set_connection in I1. cbn in I1.
      rewrite insert_id in I1 by done. frame I1. }
    cbn. split; [by apply cm_close_inv|]. split; [|done]. by rewrite (same_attempts _ _ (proj1 (close_same (Some c) s1 c I1))).
Qed.

Lemma authenticated_inv s i a c k r : Inv None s -> attempts s !! i = Some a -> stage_conn a = Some c ->
  conns s !! c = Some k -> c_alive k = true -> protocol_ok r -> Inv None (authenticated i c r s).
Proof.
  intros I Ha Hsc Hc Hal Hp. pose proof (authenticateOnCluster_processed s i a c k r I Ha Hsc Hc Hal Hp) as Hpr.
  unfold authenticated. destruct (authenticateOnCluster c r s) as [[d|e] s']; cbn in Hpr; destruct Hpr as (I' & Ea & Hd).
  - eapply (finish_inv (Some c)); [done | by intros ? [= <-] | by rewrite Ea | | done].
    intros c' Hc'. rewrite Hsc in Hc'. injection Hc' as <-. destruct Hd as [Hact [[-> _]|Hdead]]; eauto.
  - eapply (fail_inv (Some c)); [done | by intros ? [= <-] | by rewrite Ea | done].
Qed.

(** An attempt goes on to its next stage. *)
Lemma stage_inv s i a st : Inv None s -> attempts s !! i = Some a -> st <> Done ->
  stage_conn (mkAttempt (a_key a) st (a_promise a) (a_listed a)) = stage_conn a -> Inv None (to_stage i st s).
Proof.
  intros I Ha Hst Hsc. unfold to_stage. rewrite Ha. set (a' := mkAttempt _ _ _ _) in *.
  pose proof (lookup_lt_Some _ _ _ Ha) as Hlt.
  assert (forall j b, <[i := a']> (attempts s) !! j = Some b -> exists b', attempts s !! j = Some b' /\ stage_conn b = stage_conn b' /\
    a_key b = a_key b' /\ a_listed b = a_listed b' /\ a_promise b = a_promise b' /\ (a_stage b = Done -> a_stage b' = Done)) as Hl.
  { intros j b. rewrite list_lookup_insert. case_decide as E; [|by exists b].
    destruct E as [-> _]. intros [= <-]. exists a. split_and!; done. }
  assert (forall j b, attempts s !! j = Some b -> exists b', <[i := a']> (attempts s) !! j = Some b' /\ stage_conn b' = stage_conn b /\
    a_key b' = a_key b /\ a_listed b' = a_listed b) as Hl'.
  { intros j b Hb. rewrite list_lookup_insert. case_decide as E; [|by exists b].
    destruct E as [-> _]. rewrite Ha in Hb. injection Hb as <-. exists a'. split_and!; done. }
  destruct I. constructor; try assumption; cbn.
  - intros j b d Hj Hs. destruct (Hl j b Hj) as (b' & Hb' & E & _). rewrite E in Hs. eauto.
  - intros j j' b b' d Hj Hj' Hs Hs'. destruct (Hl j b Hj) as (b1 & Hb1 & E1 & _), (Hl j' b' Hj') as (b2 & Hb2 & E2 & _).
    rewrite E1 in Hs. rewrite E2 in Hs'. eauto.
  - intros d Hd. destruct (inv_alive0 d Hd) as [?|(j & b & Hj & Hs)]; [by left|]. right.
    destruct (Hl' j b Hj) as (b' & Hb' & E & _). exists j, b'. split; [done | congruence].
  - intros key j Hj. destruct (inv_pending0 key j Hj) as (b & Hb & Hk & Hli). destruct (Hl' j b Hb) as (b' & Hb' & _ & E1 & E2).
    exists b'. split_and!; [done | congruence..].
  - intros j b Hj Hli. destruct (Hl j b Hj) as (b' & Hb' & _ & E1 & E2 & _). rewrite E1. apply (inv_listed0 j b'); [done | congruence].
  - intros j b Hj Hs. destruct (Hl j b Hj) as (b' & Hb' & _ & _ & E2 & E3 & E4). rewrite E3. apply (inv_settled0 j b'); [done|].
    destruct Hs as [Hs|Hs]; [auto | right; congruence].
Qed.

Lemma connected_inv s i a address r : Inv None s -> attempts s !! i = Some a -> stage_conn a = None ->
  Inv None (connected i address r s).
Proof.
  intros I Ha Hsc. unfold connected. destruct r as [_|e]; [|by eapply (fail_inv None)]. set (c := connectionIdCounter s).
  assert (conns s !! c = None) as Hc.
  { destruct (conns s !! c) as [k|] eqn:E; [|done]. pose proof (inv_ids _ _ I c ltac:(eauto)). unfold c in *. lia. }
  unfold to_stage. cbn [attempts set_conns]. rewrite Ha. set (a' := mkAttempt _ _ _ _).
  pose proof (lookup_lt_Some _ _ _ Ha) as Hlt. pose proof (insert_cases (attempts s) i a' Hlt) as Hl.
  assert (forall j b, j <> i -> attempts s !! j = Some b -> <[i := a']> (attempts s) !! j = Some b) as Hl'
    by (intros; by rewrite list_lookup_insert_ne).
  destruct I. constructor; try assumption; cbn.
  - intros u d Hd. destruct (inv_active0 u d Hd) as (k & v & r & Hk & Hrest). exists k, v, r. rewrite lookup_insert_ne; [done|]. congruence.
  - intros d [k Hd]. rewrite lookup_insert in Hd. case_decide; subst; [lia|]. pose proof (inv_ids0 d ltac:(eauto)). lia.
  - intros j b d Hj Hs. destruct (Hl j b Hj) as [[-> ->]|[_ Hj']].
    + injection Hs as <-. rewrite lookup_insert_eq. eexists. by split.
    + destruct (inv_stage0 j b d Hj' Hs) as (k & Hk & Hu). exists k. rewrite lookup_insert_ne; [done | congruence].
  - intros j j' b b' d Hj Hj' Hs Hs'.
    assert (forall j b, attempts s !! j = Some b -> stage_conn b <> Some c) as Hfresh.
    { intros j0 b0 Hj0 Hs0. destruct (inv_stage0 j0 b0 c Hj0 Hs0) as (k & Hk & _). congruence. }
    destruct (Hl j b Hj) as [[-> ->]|[_ Hj2]], (Hl j' b' Hj') as [[-> ->]|[_ Hj2']]; [done | | | eauto].
    + injection Hs as <-. by destruct (Hfresh j' b').
    + injection Hs' as <-. by destruct (Hfresh j b).
  - intros d (k & Hk & Hal). cbn in Hk. rewrite lookup_insert in Hk. case_decide as E.
    + subst. right. exists i, a'. cbn. by rewrite list_lookup_insert_eq.
    + destruct (inv_alive0 d) as [?|(j & b & Hj & Hs)]; [by exists k | by left|]. right. exists j, b. cbn. split; [|done].
      apply Hl'; [|done]. intros ->. congruence.
  - intros key j Hj. destruct (inv_pending0 key j Hj) as (b & Hb & Hk & Hli). destruct (decide (j = i)) as [->|Hne].
    + rewrite Ha in Hb. injection Hb as <-. exists a'. by rewrite list_lookup_insert_eq.
    + exists b. split_and!; [by apply Hl'|done..].
  - intros j b Hj Hli. destruct (Hl j b Hj) as [[-> ->]|[_ Hj']]; [exact (inv_listed0 i a Ha Hli) | eauto].
  - intros j b Hj Hs. destruct (Hl j b Hj) as [[-> ->]|[_ Hj']]; [|eauto]. destruct Hs as [Hs|Hs]; [done|].
    apply (inv_settled0 i a Ha). by right.
Qed.

Lemma getOrConnect_inv s address : Inv None s -> Inv None (getOrConnect address s).2.
Proof.
  intros I. unfold getOrConnect. set (key := address_toString address). destruct (js_map_get _ _ key) as [p|] eqn:Ep; [done|].
  cbn [snd]. set (i := length (attempts s)). set (a' := mkAttempt key Translating Pending true).
  assert (forall j b, (attempts s ++ [a']) !! j = Some b -> attempts s !! j = Some b \/ (j = i /\ b = a')) as Hl.
  { intros j b [Hj|[Hge Hj]]%lookup_app_Some; [by left|]. right. apply list_lookup_singleton_Some in Hj as [Hj ->]. split; [unfold i; lia | done]. }
  assert (forall j b, attempts s !! j = Some b -> (attempts s ++ [a']) !! j = Some b) as Hl' by (intros; by apply lookup_app_l_Some).
  assert (attempts s !! i = None) as Hi by (by apply lookup_ge_None).
  destruct I. constructor; try assumption; cbn.
  - intros j b d Hj Hs. destruct (Hl j b Hj) as [Hj'|[-> ->]]; [eauto | done].
  - intros j j' b b' d Hj Hj' Hs Hs'. destruct (Hl j b Hj) as [Hj2|[-> ->]], (Hl j' b' Hj') as [Hj2'|[-> ->]]; eauto; done.
  - intros d Hd. destruct (inv_alive0 d Hd) as [?|(j & b & Hj & Hs)]; [by left|]. right. exists j, b. eauto.
  - intros key' j. rewrite (js_map_get_set _ String.eqb_eq). destruct (String.eqb key key') eqn:E.
    + apply String.eqb_eq in E as <-. intros [= <-]. exists a'. split; [|done]. unfold i. by rewrite list_lookup_middle.
    + intros Hj. destruct (inv_pending0 key' j Hj) as (b & Hb & Hk & Hli). eauto.
  - intros j b Hj Hli. rewrite (js_map_get_set _ String.eqb_eq). destruct (Hl j b Hj) as [Hj'|[-> ->]].
    + pose proof (inv_listed0 j b Hj' Hli) as E. destruct (String.eqb key (a_key b)) eqn:E'; [|done].
      apply String.eqb_eq in E'. rewrite <- E' in E. congruence.
    + cbn. by rewrite String.eqb_refl.
  - by apply js_map_set_wf.
  - intros j b Hj Hs. destruct (Hl j b Hj) as [Hj'|[-> ->]]; [eauto|]. by destruct Hs.
Qed.

Lemma to_address_inv s address : Inv None s -> Inv None (getOrConnectToAddress address s).2.
Proof.
  intros I. unfold getOrConnectToAddress. destruct (negb _); [done|]. destruct (getConnectionForAddress _ _); [done|].
  pose proof (getOrConnect_inv s address I). by destruct (getOrConnect address s).
Qed.

Lemma to_member_inv s member : Inv None s -> Inv None (getOrConnectToMember member s).2.
Proof.
  intros I. unfold getOrConnectToMember. destruct (negb _); [done|]. destruct (getConnection _ _); [done|].
  pose proof (getOrConnect_inv s (m_address member) I). by destruct (getOrConnect (m_address member) s).
Qed.

Lemma to_all_inv ms : forall s, Inv None s -> Inv None (tryConnectToAllClusterMembers ms s).
Proof. induction ms as [|m ms IH]; intros s I; [done|]. by apply IH, to_member_inv. Qed.

Lemma reconnect_inv ms : forall s, Inv None s -> Inv None (reconnect_each ms s).
Proof.
  induction ms as [|m ms IH]; intros s I; [done|]. apply IH. unfold reconnect_one.
  destruct (getConnection _ _); [done|]. destruct (existsb _ _); [done|].
  pose proof (to_member_inv s m I) as I'. destruct (getOrConnectToMember m s) as [an s']. frame I'.
Qed.

Lemma finally_inv s i a : Inv None s -> attempts s !! i = Some a -> settled (a_promise a) = true -> a_listed a = true ->
  Inv None (finally i s).
Proof.
  intros I Ha Hp Hli. unfold finally. rewrite Ha. set (a' := mkAttempt _ _ _ _).
  pose proof (lookup_lt_Some _ _ _ Ha) as Hlt. pose proof (insert_cases (attempts s) i a' Hlt) as Hl.
  assert (forall j b, j <> i -> attempts s !! j = Some b -> <[i := a']> (attempts s) !! j = Some b) as Hl'
    by (intros; by rewrite list_lookup_insert_ne).
  pose proof (inv_listed _ _ I i a Ha Hli) as Hpi.
  destruct I. constructor; try assumption; cbn.
  - intros j b d Hj Hs. destruct (Hl j b Hj) as [[-> ->]|[_ Hj']]; [exact (inv_stage0 i a d Ha Hs) | eauto].
  - intros j j' b b' d Hj Hj' Hs Hs'.
    destruct (Hl j b Hj) as [[-> ->]|[Hn Hj2]], (Hl j' b' Hj') as [[-> ->]|[Hn' Hj2']]; [done | | | eauto].
    + by apply (inv_distinct0 i j' a b' d).
    + by apply (inv_distinct0 j i b a d).
  - intros d Hd. destruct (inv_alive0 d Hd) as [?|(j & b & Hj & Hs)]; [by left|]. right. destruct (decide (j = i)) as [->|Hne].
    + rewrite Ha in Hj. injection Hj as <-. exists i, a'. cbn. by rewrite list_lookup_insert_eq.
    + exists j, b. split; [by apply Hl' | done].
  - intros key j. rewrite (js_map_get_delete _ String.eqb_eq) by done. destruct (String.eqb (a_key a) key) eqn:E; [done|].
    intros Hj. destruct (inv_pending0 key j Hj) as (b & Hb & Hk & Hlb). exists b. split; [|done]. apply Hl'; [|done].
    intros ->. rewrite Ha in Hb. injection Hb as <-. rewrite Hk in E. by rewrite String.eqb_refl in E.
  - intros j b Hj Hlb. destruct (Hl j b Hj) as [[-> ->]|[Hn Hj']]; [done|]. rewrite (js_map_get_delete _ String.eqb_eq) by done.
    pose proof (inv_listed0 j b Hj' Hlb) as E. destruct (String.eqb (a_key a) (a_key b)) eqn:E'; [|done].
    apply String.eqb_eq in E'. rewrite <- E', Hpi in E. by injection E as ->.
  - by apply js_map_delete_wf.
  - intros j b Hj Hs. destruct (Hl j b Hj) as [[-> ->]|[_ Hj']]; [done | eauto].
Qed.

(** Rejecting the pending promises. *)
Lemma reject_pending_spec p : forall l, length (reject_pending l p) = length l /\ forall j b, reject_pending l p !! j = Some b ->
  exists b', l !! j = Some b' /\ a_key b = a_key b' /\ a_stage b = a_stage b' /\ a_listed b = a_listed b' /\
    (settled (a_promise b') = true -> a_promise b = a_promise b').
Proof.
  induction p as [|[key i] p IH]; intros l; [split; [done|]; intros j b Hj; exists b; by split_and!|].
  change (reject_pending l ((key, i) :: p)) with (reject_pending (reject_one l (key, i)) p). unfold reject_one. cbn [snd].
  destruct (l !! i) as [a|] eqn:Ha; [|apply IH]. set (a' := mkAttempt _ _ _ _). destruct (IH (<[i := a']> l)) as [Hlen Hj].
  split; [by rewrite Hlen, length_insert|]. intros j b Hb. destruct (Hj j b Hb) as (b1 & Hb1 & E1 & E2 & E3 & E4).
  destruct (insert_cases l i a' (lookup_lt_Some _ _ _ Ha) j b1 Hb1) as [[-> ->]|[_ Hb']]; [|exists b1; by split_and!].
  exists a. split_and!; [done..|]. intros Hs. cbn in E4. rewrite E4; [|by destruct (a_promise a)]. by destruct (a_promise a).
Qed.

Lemma reject_inv s : Inv None s -> Inv None (set_attempts (reject_pending (attempts s) (pendingConnections s)) (pendingConnections s) s).
Proof.
  intros I. destruct (reject_pending_spec (pendingConnections s) (attempts s)) as [Hlen Hl].
  set (l := reject_pending _ _) in *.
  assert (forall j b, attempts s !! j = Some b -> exists b', l !! j = Some b' /\ a_key b' = a_key b /\ a_stage b' = a_stage b /\ a_listed b' = a_listed b) as Hl'.
  { intros j b Hb. destruct (lookup_lt_is_Some_2 l j) as [b' Hb']; [rewrite Hlen; by eapply lookup_lt_Some|].
    destruct (Hl j b' Hb') as (b0 & Hb0 & E1 & E2 & E3 & _). rewrite Hb in Hb0. injection Hb0 as <-. by exists b'. }
  clearbody l. destruct I. constructor; try assumption; cbn.
  - intros j b d Hj Hs. destruct (Hl j b Hj) as (b' & Hb' & _ & E & _). apply (inv_stage0 j b'); [done|]. unfold stage_conn in *. by rewrite <- E.
  - intros j j' b b' d Hj Hj' Hs Hs'. destruct (Hl j b Hj) as (b1 & Hb1 & _ & E1 & _), (Hl j' b' Hj') as (b2 & Hb2 & _ & E2 & _).
    apply (inv_distinct0 j j' b1 b2 d); [done..| |]; unfold stage_conn in *; by rewrite <- ?E1, <- ?E2.
  - intros d Hd. destruct (inv_alive0 d Hd) as [?|(j & b & Hj & Hs)]; [by left|]. right.
    destruct (Hl' j b Hj) as (b' & Hb' & _ & E & _). exists j, b'. split; [done|]. unfold stage_conn in *. by rewrite E.
  - intros key j Hj. destruct (inv_pending0 key j Hj) as (b & Hb & Hk & Hli). destruct (Hl' j b Hb) as (b' & Hb' & E1 & _ & E2).
    exists b'. split_and!; [done | congruence..].
  - intros j b Hj Hli. destruct (Hl j b Hj) as (b' & Hb' & E1 & _ & E2 & _). rewrite E1. apply (inv_listed0 j b'); [done | congruence].
  - intros j b Hj Hs. destruct (Hl j b Hj) as (b' & Hb' & _ & E1 & E2 & E3). rewrite E1, E2 in Hs.
    pose proof (inv_settled0 j b' Hb' Hs) as Hp. by rewrite E3.
Qed.

Lemma shutdown_inv s : Inv None s -> Inv None (shutdown s) /\
  (cr_active (registry s) = true -> activeConnections (registry (shutdown s)) = []).
Proof.
  intros I. unfold shutdown. destruct (cr_active (registry s)); [|done]. cbv zeta.
  match goal with |- Inv _ (close_all (getConnections (registry ?t)) ?t) /\ _ => assert (Inv None t) as I' end.
  { set (s1 := set_flags _ _ _ _). assert (Inv None s1) as I1 by (frame I). exact (reject_inv s1 I1). }
  split; [by apply close_all_inv|]. intros _. by apply (close_all_empty None).
Qed.

(** ** The flags *)

Definition flags s : bool * bool := (invocationsShutDown s, cr_active (registry s)).

Lemma trigger_flags s : flags (triggerClusterReconnection s) = flags s.
Proof. unfold triggerClusterReconnection, shutdownClient, submitConnectToClusterTask. by repeat case_match. Qed.

Lemma close_flags c s : flags (close c s) = flags s.
Proof.
  unfold close, onConnectionClose. repeat (case_match; try done); unfold emit, flags; cbn;
    match goal with |- (invocationsShutDown ?t, _) = _ => change (flags t = flags s) end; by rewrite trigger_flags.
Qed.

Lemma close_all_flags cs : forall s, flags (close_all cs s) = flags s.
Proof. induction cs as [|c cs IH]; intros s; [done|]. change (flags (close_all cs (close c s)) = flags s). by rewrite IH, close_flags. Qed.

Lemma finish_flags i p s : flags (finish i p s) = flags s.
Proof. unfold finish. by destruct (attempts s !! i). Qed.

Lemma fail_flags i o e s : flags (fail i o e s) = flags s.
Proof. unfold fail. rewrite finish_flags. destruct o; [apply close_flags | done]. Qed.

Lemma authenticate_flags c r s : flags (authenticateOnCluster c r s).2 = flags s.
Proof.
  unfold authenticateOnCluster. cbv zeta. destruct (_ =? AUTHENTICATED); [|cbn; by rewrite close_flags].
  unfold onAuthenticated, checkPartitionCount. destruct (checkAndSetPartitionCount _ _) as [ok p]. destruct ok; cbn [negb]; [|done].
  set (s2 := set_connection c _ _). assert (flags s2 = flags s) as E2 by done. clearbody s2.
  destruct (getConnection _ _); [cbn; by rewrite close_flags|].
  assert (forall s3 ch, flags s3 = flags s -> flags (emit (ConnectionAdded c) (
    if isEmpty (registry s3) then
      if ch : bool then initializeClientOnCluster (r_clusterId r) (set_registry (setConnectionState
        (registry (set_clusterId (Some (r_clusterId r)) (set_registry (setConnection (registry s3) (r_memberUuid r) c) s3))) CONNECTED_TO_CLUSTER)
        (set_clusterId (Some (r_clusterId r)) (set_registry (setConnection (registry s3) (r_memberUuid r) c) s3)))
      else emit (Lifecycle CONNECTED) (set_registry (setConnectionState
        (registry (set_clusterId (Some (r_clusterId r)) (set_registry (setConnection (registry s3) (r_memberUuid r) c) s3))) INITIALIZED_ON_CLUSTER)
        (set_clusterId (Some (r_clusterId r)) (set_registry (setConnection (registry s3) (r_memberUuid r) c) s3)))
    else set_registry (setConnection (registry s3) (r_memberUuid r) c) s3)) = flags s) as Hend.
  { intros s3 ch E3. unfold initializeClientOnCluster. by repeat case_match. }
  set (changed := match clusterId s2 with Some _ => _ | None => false end). destruct changed; [|by apply (Hend s2 false)].
  assert (forall s3, flags s3 = flags s -> flags (onClusterRestart s3) = flags s) as Hr.
  { intros s3 E3. unfold onClusterRestart, update_members. rewrite close_all_flags. done. }
  unfold checkConnectionStateOnClusterIdChange. destruct (isEmpty (registry s2)); [|cbn; by rewrite close_flags].
  destruct (failoverConfigProvided s2); [destruct (switchingToNextCluster s2)|].
  - by apply (Hend _ true), Hr.
  - cbn. by rewrite close_flags.
  - by apply (Hend _ true), Hr.
Qed.

Lemma authenticated_flags i c r s : flags (authenticated i c r s) = flags s.
Proof.
  unfold authenticated. pose proof (authenticate_flags c r s) as E. destruct (authenticateOnCluster c r s) as [[d|e] s']; cbn in E.
  - by rewrite finish_flags.
  - by rewrite fail_flags.
Qed.

Lemma life_mono s s' : flags s' = flags s -> (activeConnections (registry s) = [] -> activeConnections (registry s') = []) ->
  (attempts s = [] -> attempts s' = []) -> Life s -> Life s'.
Proof.
  unfold flags. intros [= E1 E2] Ha Ht [L1 L2]. unfold Life. rewrite E1, E2. split; [auto|].
  intros H1' H2'. destruct (L2 H1' H2'). auto.
Qed.

Lemma same_nil s s' : same s s' -> activeConnections (registry s) = [] -> activeConnections (registry s') = [].
Proof.
  intros Hs E. apply (js_map_empty _ String.eqb_eq). intros u. destruct (js_map_get _ _ u) as [c|] eqn:Eu; [|done].
  apply (same_active _ _ Hs) in Eu. unfold active in Eu. by rewrite E in Eu.
Qed.

Lemma close_life x c s : Inv x s -> Life s -> Life (close c s).
Proof.
  intros I. destruct (close_same x s c I) as [Hs _].
  apply life_mono; [apply close_flags | by apply same_nil | by rewrite (same_attempts _ _ Hs)].
Qed.

Lemma close_all_life x cs s : Inv x s -> Life s -> Life (close_all cs s).
Proof.
  intros I. destruct (close_all_inv x cs s I) as [_ Hs].
  apply life_mono; [apply close_all_flags | by apply same_nil | by rewrite (same_attempts _ _ Hs)].
Qed.

Lemma finish_life i p s : Life s -> Life (finish i p s).
Proof.
  apply life_mono; [apply finish_flags | unfold finish; by destruct (attempts s !! i) |].
  unfold finish. intros E. by rewrite E.
Qed.

Lemma fail_life x i o e s : Inv x s -> Life s -> Life (fail i o e s).
Proof. intros I HL. unfold fail. apply finish_life. destruct o; [by eapply close_life | done]. Qed.

Lemma to_member_frame m s : registry (getOrConnectToMember m s).2 = registry s /\ invocationsShutDown (getOrConnectToMember m s).2 = invocationsShutDown s.
Proof. unfold getOrConnectToMember, getOrConnect. by repeat case_match; simplify_eq. Qed.

Lemma to_address_frame a s : registry (getOrConnectToAddress a s).2 = registry s /\ invocationsShutDown (getOrConnectToAddress a s).2 = invocationsShutDown s.
Proof. unfold getOrConnectToAddress, getOrConnect. by repeat case_match; simplify_eq. Qed.

Lemma to_all_frame ms : forall s, registry (tryConnectToAllClusterMembers ms s) = registry s /\
  invocationsShutDown (tryConnectToAllClusterMembers ms s) = invocationsShutDown s.
Proof. induction ms as [|m ms IH]; intros s; [done|]. cbn. destruct (IH (getOrConnectToMember m s).2) as [-> ->]. apply to_member_frame. Qed.

Lemma reconnect_frame ms : forall s, registry (reconnect_each ms s) = registry s /\
  invocationsShutDown (reconnect_each ms s) = invocationsShutDown s.
Proof.
  induction ms as [|m ms IH]; intros s; [done|]. cbn. destruct (IH (reconnect_one m s)) as [-> ->]. unfold reconnect_one.
  repeat (case_match; try done). pose proof (to_member_frame m s) as E.
  match goal with Em : getOrConnectToMember m s = _ |- _ => rewrite Em in E end. exact E.
Qed.

(** A started manager keeps what it has while attempts are added. *)
Lemma frame_life s s' : registry s' = registry s -> invocationsShutDown s' = invocationsShutDown s -> cr_active (registry s) = true ->
  Life s -> Life s'.
Proof. unfold Life. intros -> -> E [L1 _]. split; [done|]. rewrite E. done. Qed.

(** An attempt exists only between [start] and the end of the shutdown. *)
Lemma attempt_active s i a : Life s -> attempts s !! i = Some a -> invocationsShutDown s = false -> cr_active (registry s) = true.
Proof.
  intros [_ HL] Ha Hs. destruct (cr_active (registry s)) eqn:E; [done|]. destruct (HL eq_refl Hs) as [_ E']. by rewrite E' in Ha.
Qed.

(** ** Every step keeps the invariant *)

Definition good s : Prop := Inv None s /\ Life s.

Lemma good_frame s s' : good s -> Inv None s' -> flags s' = flags s -> activeConnections (registry s') = activeConnections (registry s) ->
  attempts s' = attempts s -> good s'.
Proof. intros [_ HL] I Hf Ha Ht. split; [done|]. revert HL. apply life_mono; [done | by rewrite Ha | by rewrite Ht]. Qed.

Lemma submit_good s : good s -> good (submitConnectToClusterTask s).
Proof. intros G. apply (good_frame s); [done | by apply submit_inv, G |..]; unfold submitConnectToClusterTask; by destruct (connectToClusterTaskSubmitted s). Qed.

Lemma shutdownClient_good s : good s -> good (shutdownClient s).
Proof. intros G. apply (good_frame s); [done | by apply shutdownClient_inv, G |..]; unfold shutdownClient; by destruct (running s). Qed.

Lemma close_all_good cs s : good s -> good (close_all cs s).
Proof. intros [I HL]. split; [by apply close_all_inv | by eapply close_all_life]. Qed.

Lemma tasks_good l s : good s -> good (set_tasks l s).
Proof. intros G. apply (good_frame s); [done | destruct G as [I _]; frame I | done..]. Qed.

(** The stages of an attempt. *)
Lemma attempt_good s i st (f : CM -> CM) : good s -> stage_of s i = Some st ->
  (forall a, attempts s !! i = Some a -> a_stage a = st -> Inv None (f s)) -> (good s -> Life (f s)) -> good (f s).
Proof.
  intros G Hst HI HL. split; [|auto]. unfold stage_of in Hst. apply fmap_Some in Hst as (a & Ha & E). by eapply HI.
Qed.

Lemma translated_good s i r : good s -> stage_of s i = Some Translating -> good (translated i r s).
Proof.
  intros G Hst. apply (attempt_good s i Translating (translated i r)); [done..| |].
  - intros a Ha E. assert (stage_conn a = None) as En by (unfold stage_conn; by rewrite E).
    destruct r as [[ad|]|e]; cbn; [eapply stage_inv; [apply G | done | done | by rewrite En] | by eapply (fail_inv None); [apply G|..]..].
  - intros [I HL]. destruct r as [[ad|]|e]; cbn; [|by eapply fail_life..]. unfold to_stage. destruct (attempts s !! i) eqn:Ea; [|done].
    revert HL. apply life_mono; [done | done |]. intros E. by rewrite E in Ea.
Qed.

Lemma connected_good s i address r : good s -> stage_of s i = Some (Connecting address) -> good (connected i address r s).
Proof.
  intros G Hst. apply (attempt_good s i (Connecting address) (connected i address r)); [done..| |].
  - intros a Ha E. eapply connected_inv; [apply G | done |]. unfold stage_conn. by rewrite E.
  - intros [I HL]. destruct r as [[]|e]; cbn; [|by eapply fail_life]. unfold to_stage. cbn. destruct (attempts s !! i) eqn:Ea; [|done].
    revert HL. apply life_mono; [done | done |]. intros E. by rewrite E in Ea.
Qed.

Lemma initiated_good s i c r : good s -> stage_of s i = Some (Initiating c) -> good (initiated i c r s).
Proof.
  intros G Hst. apply (attempt_good s i (Initiating c) (initiated i c r)); [done..| |].
  - intros a Ha E. assert (stage_conn a = Some c) as En by (unfold stage_conn; by rewrite E).
    destruct r as [[]|e]; cbn; [eapply stage_inv; [apply G | done | done | by rewrite En] | by eapply (fail_inv None); [apply G|..]].
  - intros [I HL]. destruct r as [[]|e]; cbn; [|by eapply fail_life]. unfold to_stage. destruct (attempts s !! i) eqn:Ea; [|done].
    revert HL. apply life_mono; [done | done |]. intros E. by rewrite E in Ea.
Qed.

Lemma authentication_failed_good s i c e : good s -> stage_of s i = Some (Authenticating c) -> good (authentication_failed i c e s).
Proof.
  intros G Hst. apply (attempt_good s i (Authenticating c) (authentication_failed i c e)); [done..| |].
  - intros a Ha E. destruct G as [I HL]. unfold authentication_failed. destruct (close_same None s c I) as [Hs _].
    eapply (fail_inv None); [by apply cm_close_inv | done | by rewrite (same_attempts _ _ Hs) |]. unfold stage_conn. by rewrite E.
  - intros [I HL]. unfold authentication_failed. eapply fail_life; [by apply cm_close_inv | by eapply close_life].
Qed.

Lemma authenticated_good s i c r k : good s -> stage_of s i = Some (Authenticating c) -> conns s !! c = Some k -> c_alive k = true ->
  invocationsShutDown s = false -> protocol_ok r -> good (authenticated i c r s).
Proof.
  intros G Hst Hc Hal Hsh Hp. apply (attempt_good s i (Authenticating c) (authenticated i c r)); [done..| |].
  - intros a Ha E. eapply authenticated_inv; [apply G | done | | done..]. unfold stage_conn. by rewrite E.
  - intros [I HL]. pose proof (authenticated_flags i c r s) as Ef. unfold flags in Ef. injection Ef as E1 E2. unfold stage_of in Hst. apply fmap_Some in Hst as (a & Ha & _).
    pose proof (attempt_active s i a HL Ha Hsh) as Hact. unfold Life. rewrite E1, E2, Hsh, Hact. by split.
Qed.

Lemma finish_shutdown_good s : good s -> good (finish_shutdown s).
Proof.
  intros [I [L1 L2]]. set (s1 := set_running (running s) true s). assert (Inv None s1) as I1 by (frame I).
  destruct (shutdown_inv s1 I1) as [I2 He]. unfold finish_shutdown. fold s1.
  assert (Life (shutdown s1)) as HL.
  { assert (invocationsShutDown (shutdown s1) = true) as Ei.
    { unfold shutdown. destruct (cr_active (registry s1)); [|done]. cbv zeta.
      match goal with |- invocationsShutDown (close_all ?cs ?t) = _ => exact (f_equal fst (close_all_flags cs t)) end. }
    split; [|by rewrite Ei]. intros _. destruct (cr_active (registry s1)) eqn:E; [by apply He|].
    unfold shutdown. rewrite E. destruct (invocationsShutDown s) eqn:Es; [by apply L1 | by apply L2]. }
  apply (good_frame (shutdown s1)); [by split | by apply emit_inv | done..].
Qed.

Lemma step_good s s' : good s -> step s s' -> good s'.
Proof.
  intros G Hstep. pose proof G as [I HL]. destruct Hstep.
  - unfold start. destruct (cr_active (registry s)) eqn:E; [done|].
    assert (good (set_registry (activate (registry s)) s)) as G'.
    { split; [frame I|]. destruct HL as [L1 _]. by split. }
    cbv zeta. destruct (asyncStart _); [by apply submit_good|]. by apply tasks_good.
  - destruct (to_address_frame address s) as [E1 E2]. split; [by apply to_address_inv | by apply (frame_life s)].
  - destruct (to_member_frame member s) as [E1 E2]. split; [by apply to_member_inv | by apply (frame_life s)].
  - unfold connectToAllClusterMembers. destruct (smartRoutingEnabled _); [|done].
    destruct (to_all_frame (getMembers None (cluster s)) s) as [E1 E2]. split; [by apply to_all_inv | by apply (frame_life s)].
  - unfold reconnectToMembers. destruct (running s); [|done].
    destruct (reconnect_frame (getMembers None (cluster s)) s) as [E1 E2]. split; [by apply reconnect_inv | by apply (frame_life s)].
  - apply (good_frame s); [done | frame I | done..].
  - by apply translated_good.
  - by apply connected_good.
  - by apply initiated_good.
  - by apply authentication_failed_good.
  - by eapply authenticated_good.
  - split; [by eapply finally_inv|]. unfold finally. match goal with Ha : attempts s !! i = Some _ |- _ => rewrite Ha end.
    revert HL. apply life_mono; [done | done |]. intros E. match goal with Ha : attempts s !! i = Some _ |- _ => by rewrite E in Ha end.
  - split; [by apply cm_close_inv | by eapply close_life].
  - unfold connect_task_done. destruct ok; [|by apply shutdownClient_good, tasks_good]. cbv zeta.
    assert (good (set_submitted false (set_tasks (l ++ l') s))) as G' by (apply (good_frame s); [done | frame I | done..]).
    destruct (isEmpty _); [by apply submit_good | done].
  - cbv zeta. destruct ok; [by apply tasks_good | by apply shutdownClient_good, tasks_good].
  - unfold cleanupAndTryNextCluster, onClusterChange, reset. cbv zeta.
    match goal with |- good (set_switching _ (close_all ?cs ?t)) =>
      assert (good (close_all cs t)) as G' by (apply close_all_good; apply (good_frame s); [done | frame I | done..]);
      apply (good_frame _ _ G'); [destruct G' as [I' _]; frame I' | done..] end.
  - unfold update_members. apply close_all_good. apply (good_frame s); [done | frame I | done..].
  - unfold state_sent. cbv zeta. destruct (UUID_equals _ _); (apply (good_frame s); [done | | done..]); [|frame I].
    destruct I. constructor; try assumption. done.
  - unfold state_failed, initializeClientOnCluster. destruct (UUID_equals _ _); (apply (good_frame s); [done | frame I | done..]).
  - by apply shutdownClient_good.
  - by apply finish_shutdown_good, tasks_good.
Qed.

(** The states a manager can be in, from its creation on. *)
Lemma reachable_good reg failover s : activeConnections reg = [] -> reachable (newConnectionManager reg failover) s -> good s.
Proof.
  intros E. induction 1 as [|s s' _ G Hs]; [|by eapply step_good].
  assert (forall u c, ~ active (newConnectionManager reg failover : CM) u c) as Hn by (intros u c; unfold active; cbn; by rewrite E).
  split; [|split; [by cbn | by rewrite <- E]].
  constructor; cbn; try done; [by rewrite E | intros u c Hu; by destruct (Hn u c) | intros c [k Hk]; done | by intros c (k & Hk & _)].
Qed.

(** ** Properties *)

(** C8: the client talks to one cluster at a time: whatever the order of connection attempts, answers, failures, cluster
    changes and shutdowns, every connection in the registry is open, is listed under the UUID of the member that
    answered on it, and that member reported the id the manager has as its cluster's. *)
Theorem single_cluster reg failover s u c : activeConnections reg = [] -> reachable (newConnectionManager reg failover) s ->
  js_map_get String.eqb (activeConnections (registry s)) u = Some c ->
  exists k r, conns s !! c = Some k /\ c_alive k = true /\ answers s !! c = Some r /\
    u = UUID_toString (r_memberUuid r) /\ clusterId s = Some (r_clusterId r).
Proof.
  intros E Hr Hu. destruct (reachable_good _ _ _ E Hr) as [I _].
  destruct (inv_active _ _ I u c Hu) as (k & v & r & Hk & Hal & _ & _ & -> & Hans & <- & Hcl). by exists k, r.
Qed.

(** C12: no connection is leaked: an open connection is in the registry or belongs to an attempt that is still waiting for
    the protocol header to be written or for the response of the member. After the shutdown of the client the registry is
    empty, so that once the attempts have ended every connection is closed. *)
Theorem no_connection_leaked reg failover s c k : activeConnections reg = [] -> reachable (newConnectionManager reg failover) s ->
  conns s !! c = Some k -> c_alive k = true ->
  (c ∈ getConnections (registry s) \/
   exists i a, attempts s !! i = Some a /\ (a_stage a = Initiating c \/ a_stage a = Authenticating c)) /\
  (invocationsShutDown s = true -> c ∉ getConnections (registry s)).
Proof.
  intros E Hr Hk Hal. destruct (reachable_good _ _ _ E Hr) as [I [HL _]]. split.
  - destruct (inv_alive _ _ I c ltac:(by exists k)) as [[u Hu]|(i & a & Ha & Hs)].
    + left. apply (js_map_get_Some _ String.eqb_eq) in Hu. apply list_elem_of_fmap. by exists (u, c).
    + right. exists i, a. split; [done|]. unfold stage_conn in Hs. destruct (a_stage a); simplify_eq; auto.
  - intros Hsh. unfold getConnections. rewrite (HL Hsh). apply not_elem_of_nil.
Qed.

(** There is one attempt per address: the pending entries are exactly the attempts that wait or whose end has not been
    noticed, each under its own address, and an attempt that has ended has settled its promise, so that no caller waits
    for an attempt that is over. *)
Theorem attempts_tracked reg failover s i a : activeConnections reg = [] -> reachable (newConnectionManager reg failover) s ->
  attempts s !! i = Some a ->
  (a_listed a = true <-> js_map_get String.eqb (pendingConnections s) (a_key a) = Some i) /\
  (forall j b, attempts s !! j = Some b -> a_listed a = true -> a_listed b = true -> a_key a = a_key b -> i = j) /\
  (a_stage a = Done \/ a_listed a = false -> a_promise a <> Pending).
Proof.
  intros E Hr Ha. destruct (reachable_good _ _ _ E Hr) as [I _]. split_and!.
  - split; [by apply (inv_listed _ _ I)|]. intros Hp. destruct (inv_pending _ _ I _ _ Hp) as (b & Hb & _ & Hl).
    rewrite Ha in Hb. by injection Hb as <-.
  - intros j b Hb Hla Hlb Ek. pose proof (inv_listed _ _ I i a Ha Hla) as E1. pose proof (inv_listed _ _ I j b Hb Hlb) as E2.
    rewrite Ek, E2 in E1. by injection E1.
  - intros Hd Hp. pose proof (inv_settled _ _ I i a Ha Hd) as Hs. by rewrite Hp in Hs.
Qed.

(** ** The response of a member

    What a response has to lead to, rule by rule, said of the state it arrives in. *)

(** The client was configured with more than one cluster and the member's cluster does not support that. *)
Definition failover_refused s (r : AuthResponse L) : Prop := failoverConfigProvided s = true /\ r_failoverSupported r = false.

Definition member_accepts s (r : AuthResponse L) : Prop := ~ failover_refused s r /\ r_status r = 0.

(** The client knows no partition count yet, or knows this one. *)
Definition partitions_agree s (r : AuthResponse L) : Prop :=
  partitionCount (partitions s) = 0 \/ partitionCount (partitions s) = r_partitionCount r.

(** The connection the client already has to the member. *)
Definition known_connection s (r : AuthResponse L) : option nat :=
  js_map_get String.eqb (activeConnections (registry s)) (UUID_toString (r_memberUuid r)).

Definition other_cluster s (r : AuthResponse L) : Prop := exists id, clusterId s = Some id /\ id <> r_clusterId r.

Inductive outcome s (c : nat) (r : AuthResponse L) : Promise -> Prop :=
  | out_failover : failover_refused s r -> outcome s c r (Rejected (Hz Err.ClientNotAllowedInClusterError))
  | out_credentials : ~ failover_refused s r -> r_status r = 1 -> outcome s c r (Rejected (Hz Err.AuthenticationError))
  | out_version : ~ failover_refused s r -> r_status r = 2 -> outcome s c r (Rejected (Hz Err.IllegalStateError))
  | out_not_allowed : ~ failover_refused s r -> r_status r = 3 -> outcome s c r (Rejected (Hz Err.ClientNotAllowedInClusterError))
  | out_unknown : ~ failover_refused s r -> r_status r ∉ [0; 1; 2; 3] -> outcome s c r (Rejected (Hz Err.AuthenticationError))
  | out_partitions : member_accepts s r -> ~ partitions_agree s r ->
      outcome s c r (Rejected (Hz Err.ClientNotAllowedInClusterError))
  | out_known d : member_accepts s r -> partitions_agree s r -> known_connection s r = Some d -> outcome s c r (Resolved d)
  | out_two_clusters : member_accepts s r -> partitions_agree s r -> known_connection s r = None -> other_cluster s r ->
      activeConnections (registry s) <> [] -> outcome s c r (Rejected (Hz Err.IllegalStateError))
  | out_unexpected_cluster : member_accepts s r -> partitions_agree s r -> known_connection s r = None -> other_cluster s r ->
      activeConnections (registry s) = [] -> failoverConfigProvided s = true -> switchingToNextCluster s = false ->
      outcome s c r (Rejected (Hz Err.ClientNotAllowedInClusterError))
  | out_accepted : member_accepts s r -> partitions_agree s r -> known_connection s r = None ->
      (other_cluster s r -> activeConnections (registry s) = [] /\ (failoverConfigProvided s = true -> switchingToNextCluster s = true)) ->
      outcome s c r (Resolved c).

(** The rules exclude each other. *)
Lemma outcome_unique s c r o o' : outcome s c r o -> outcome s c r o' -> o = o'.
Proof.
  destruct 1; destruct 1; unfold member_accepts in *; try done; try congruence; try (by exfalso; intuition congruence);
    try (exfalso; match goal with Hx : r_status r ∉ _ |- _ => apply Hx; rewrite !elem_of_cons; intuition congruence end);
    (exfalso; match goal with Hx : other_cluster s r -> _, Ho : other_cluster s r |- _ => destruct (Hx Ho) as [? Hy]; intuition congruence end).
Qed.

Definition promise_of (out : nat + failure) : Promise := match out with inl d => Resolved d | inr e => Rejected e end.

(** The checks of a response whose partition count was found good. *)
Lemma checks_outcome c r s : member_accepts s r -> partitions_agree s r -> forall alive p,
  let s1 := set_connection c (mkConnection alive (r_address r) (Some (r_memberUuid r)) (Some (r_serverVersion r)))
              (set_services (cluster s) p (set_answers (<[c := r]> (answers s)) s)) in
  let changed := match clusterId s1 with Some _ => negb (UUID_equals (r_clusterId r) (clusterId s1)) | None => false end in
  match getConnection (registry s1) (r_memberUuid r) with
  | Some d => outcome s c r (Resolved d)
  | None => match (if changed then (checkConnectionStateOnClusterIdChange c s1).1 else None) with
            | Some e => outcome s c r (Rejected e)
            | None => outcome s c r (Resolved c)
            end
  end.
Proof.
  intros Ha Hsp alive p s1 changed. destruct (getConnection (registry s1) (r_memberUuid r)) as [d|] eqn:Eg; [by eapply out_known|].
  assert (changed = true <-> other_cluster s r) as Hch.
  { unfold changed, other_cluster. cbn. destruct (clusterId s) as [id|]; [|naive_solver].
    rewrite negb_true_iff, <- not_true_iff_false, UUID_equals_true. naive_solver. }
  destruct changed.
  - destruct Hch as [Ho _]. specialize (Ho eq_refl). unfold checkConnectionStateOnClusterIdChange.
    destruct (isEmpty (registry s1)) eqn:Ee.
    + apply is_empty_nil in Ee. cbn [failoverConfigProvided switchingToNextCluster s1 set_connection set_conns set_services set_answers].
      destruct (failoverConfigProvided s) eqn:Ef; [destruct (switchingToNextCluster s) eqn:Es|];
        [apply out_accepted | apply out_unexpected_cluster | apply out_accepted]; try done; intros _; (split; [exact Ee | congruence]).
    + apply out_two_clusters; try done. intros En. by rewrite (nil_is_empty s1 En) in Ee.
  - apply out_accepted; try done. intros Ho. by apply Hch in Ho.
Qed.

Lemma onAuthenticated_outcome c r s : member_accepts s r ->
  outcome s c r (promise_of (onAuthenticated c r (set_answers (<[c := r]> (answers s)) s)).1).
Proof.
  intros Hacc. unfold onAuthenticated, checkPartitionCount, checkAndSetPartitionCount.
  cbn [partitions set_answers]. destruct (partitionCount (partitions s) =? 0) eqn:E0;
    [|destruct (partitionCount (partitions s) =? r_partitionCount r) eqn:E1];
    [apply Z.eqb_eq in E0 | apply Z.eqb_eq in E1 | apply out_partitions; [done|]; apply Z.eqb_neq in E0, E1; by intros [?|?]];
    cbn [negb]; cbv zeta; cbn [set_answers cluster conns];
    match goal with |- context [set_connection c (mkConnection ?al _ _ _) (set_services _ ?p _)] =>
      pose proof (checks_outcome c r s Hacc ltac:(by (left + right)) al p) as Hc; cbv zeta in Hc end;
    (destruct (getConnection _ _); [exact Hc|]);
    (destruct (match clusterId _ with Some _ => _ | None => false end); [|exact Hc]);
    destruct (checkConnectionStateOnClusterIdChange _ _) as [[e|] s']; exact Hc.
Qed.

(** The rules are the code's. *)
Lemma authenticateOnCluster_outcome c r s : outcome s c r (promise_of (authenticateOnCluster c r s).1).
Proof.
  unfold authenticateOnCluster. cbn [set_answers failoverConfigProvided].
  destruct (failoverConfigProvided s && negb (r_failoverSupported r)) eqn:Ef.
  - apply andb_true_iff in Ef as [E1 E2]. apply negb_true_iff in E2. by apply out_failover.
  - assert (~ failover_refused s r) as Hf by (intros [E1 E2]; by rewrite E1, E2 in Ef).
    destruct (r_status r =? AUTHENTICATED) eqn:E; [apply Z.eqb_eq in E; by apply onAuthenticated_outcome|].
    cbn [fst promise_of]. unfold status_error, CREDENTIALS_FAILED, SERIALIZATION_VERSION_MISMATCH, NOT_ALLOWED_IN_CLUSTER, AUTHENTICATED in *.
    apply Z.eqb_neq in E. repeat case_match; rewrite ?Z.eqb_eq, ?Z.eqb_neq in *;
      [by apply out_credentials | by apply out_version | by apply out_not_allowed|].
    apply out_unknown; [done|]. rewrite !elem_of_cons, elem_of_nil. lia.
Qed.

(** C36: what the response of a member leads to. A client configured for failover refuses a cluster that does not support
    it (ClientNotAllowedInClusterError); the member's refusals and unknown statuses become AuthenticationError,
    IllegalStateError or ClientNotAllowedInClusterError by status; of a member that accepts, another partition count than
    the known one is refused; a member that is already connected gives its connection; a member of another cluster is
    refused with IllegalStateError while other connections are open and, with failover, with
    ClientNotAllowedInClusterError unless the client is switching clusters; every other member is accepted with the new
    connection. Exactly one of these holds. The attempt ends, its promise is settled so if nothing had settled it, and the
    connection it gives is open and registered under the member's UUID, the cluster id being the member's when the
    connection is the new one, while a connection not given is closed. *)
Theorem authentication_outcome reg failover s i c k r a : activeConnections reg = [] ->
  reachable (newConnectionManager reg failover) s -> attempts s !! i = Some a -> a_stage a = Authenticating c ->
  conns s !! c = Some k -> c_alive k = true -> protocol_ok r ->
  let s' := authenticated i c r s in
  exists o a', outcome s c r o /\ (forall o', outcome s c r o' -> o' = o) /\
    attempts s' !! i = Some a' /\ a_stage a' = Done /\ a_promise a' = settle (a_promise a) o /\
    match o with
    | Pending => False
    | Resolved d =>
        js_map_get String.eqb (activeConnections (registry s')) (UUID_toString (r_memberUuid r)) = Some d /\ is_alive s' d /\
        (d = c -> clusterId s' = Some (r_clusterId r)) /\ (d <> c -> ~ is_alive s' c)
    | Rejected _ => ~ is_alive s' c
    end.
Proof.
  intros E Hr Ha Hst Hc Hal Hp. destruct (reachable_good _ _ _ E Hr) as [I _].
  assert (stage_conn a = Some c) as Hsc by (unfold stage_conn; by rewrite Hst).
  pose proof (authenticateOnCluster_processed s i a c k r I Ha Hsc Hc Hal Hp) as Hpr.
  pose proof (authenticateOnCluster_outcome c r s) as Hout. pose proof (lookup_lt_Some _ _ _ Ha) as Hlt. cbv zeta.
  set (o := promise_of (authenticateOnCluster c r s).1) in *.
  exists o, (mkAttempt (a_key a) Done (settle (a_promise a) o) (a_listed a)). subst o. split; [exact Hout|].
  split; [intros o' Ho'; by eapply outcome_unique|]. clear Hout. unfold authenticated.
  destruct (authenticateOnCluster c r s) as [[d|e] s1]; cbn [fst snd promise_of] in *; destruct Hpr as (I1 & Ea & Hd).
  - unfold finish. rewrite Ea, Ha. cbn [set_attempt set_attempts attempts registry clusterId]. rewrite Ea, list_lookup_insert_eq by done.
    destruct Hd as [Hu Hor]. pose proof (alive_active _ _ _ d I1 Hu) as Hald. split_and!; [done..| exact Hald | |].
    + intros ->. destruct Hor as [[_ ?]|Hn]; [done | by destruct (Hn Hald)].
    + intros Hne. destruct Hor as [[-> _]|Hn]; [done | exact Hn].
  - unfold fail, finish. destruct (close_same (Some c) s1 c I1) as [Hs _]. rewrite (same_attempts _ _ Hs), Ea, Ha.
    cbn [set_attempt set_attempts attempts]. rewrite (same_attempts _ _ Hs), Ea, list_lookup_insert_eq by done.
    split_and!; [done..|]. exact (close_closed _ s1 c I1).
Qed.
End Invariant.

(** ** Runs *)

Module Run.
#[local] Abbreviation CM := (ConnectionManager Int64.t unit).

Definition uuid (n : Z) : UUID Int64.t := mkUUID (Int64.of_Z n) (Int64.of_Z n).
Definition address : AddressImpl := mkAddress "10.0.0.1" 5701.
Definition init : CM := newConnectionManager (newConnectionRegistry true ON true ()) false.
Definition response (member clusterId : Z) : AuthResponse Int64.t :=
  mkAuthResponse AUTHENTICATED (Some address) (uuid member) 271 (uuid clusterId) true "5.0".

(** The attempt [i] up to the response, on the connection [c]. *)
Definition opened_at (adr : AddressImpl) (i c : nat) (s : CM) : CM :=
  initiated i c (inl ()) (connected i adr (inl ()) (translated i (inl (Some adr)) (getOrConnectToAddress adr s).2)).
Definition opened : nat -> nat -> CM -> CM := opened_at address.

(** The whole attempt. *)
Definition session (i c : nat) (member clusterId : Z) (s : CM) : CM :=
  finally i (authenticated i c (response member clusterId) (opened i c s)).

Lemma opened_reachable address i c s : reachable init s -> cr_active (registry s) = true ->
  stage_of (getOrConnectToAddress address s).2 i = Some Translating -> connectionIdCounter (getOrConnectToAddress address s).2 = c ->
  reachable init (opened_at address i c s).
Proof.
  intros Hr Ha Hi Hc. unfold opened_at. pose proof Hi as Hi'. unfold stage_of in Hi'. apply fmap_Some in Hi' as (a & Ea & _).
  pose proof (lookup_lt_Some _ _ _ Ea) as Hl. set (s1 := (getOrConnectToAddress address s).2) in *.
  assert (reachable init s1) as H1 by (by eapply reach_step; [|apply st_to_address]).
  assert (stage_of (translated i (inl (Some address)) s1) i = Some (Connecting address)) as E2.
  { unfold translated, to_stage, stage_of. rewrite Ea. cbn. by rewrite list_lookup_insert_eq. }
  assert (stage_of (connected i address (inl ()) (translated i (inl (Some address)) s1)) i = Some (Initiating c)) as E3.
  { unfold connected, translated, to_stage, stage_of. rewrite Ea. cbn. rewrite list_lookup_insert_eq by done. cbn.
    rewrite list_lookup_insert_eq; [by rewrite Hc | by rewrite length_insert]. }
  eapply reach_step; [eapply reach_step; [eapply reach_step; [exact H1|]|]|]; [by apply st_translated | by apply st_connected | by apply st_initiated].
Qed.

Lemma session_reachable i c member cid s k a : reachable init s -> cr_active (registry s) = true ->
  stage_of (getOrConnectToAddress address s).2 i = Some Translating -> connectionIdCounter (getOrConnectToAddress address s).2 = c ->
  stage_of (opened i c s) i = Some (Authenticating c) -> conns (opened i c s) !! c = Some k -> c_alive k = true ->
  invocationsShutDown (opened i c s) = false ->
  attempts (authenticated i c (response member cid) (opened i c s)) !! i = Some a -> settled (a_promise a) = true -> a_listed a = true ->
  reachable init (session i c member cid s).
Proof.
  intros Hr Ha Hi Hc Hst Hk Hal Hsh Hat Hp Hl. unfold session.
  eapply reach_step; [eapply reach_step; [by apply (opened_reachable address)|]|].
  - apply (st_authenticated _ i c (response member cid) k); [done..|]. intros _. by exists address.
  - by eapply st_finally.
Qed.

(** One member of the cluster 100; the cluster is replaced by 200; the connection is lost before the client has sent its
    state; the client connects again. *)
Definition first : CM := session 0 0 1 100 (start init).
Definition replaced : CM := session 1 1 1 200 (close 0 first).
Definition again : CM := session 2 2 1 200 (close 1 replaced).

Ltac run := vm_compute; reflexivity.

Lemma first_reachable : reachable init first.
Proof. unfold first. eapply session_reachable; [eapply reach_step; [apply reach_init | apply st_start] | run..]. Qed.

Lemma replaced_reachable : reachable init replaced.
Proof.
  unfold replaced. eapply session_reachable; [eapply reach_step; [exact first_reachable | apply st_close] | run..].
Qed.

(** A member at another address answers while the connection to the first is open. *)
Definition second : CM := opened_at (mkAddress "10.0.0.2" 5701) 1 1 first.

Lemma second_reachable : reachable init second.
Proof. unfold second. apply opened_reachable; [exact first_reachable | run..]. Qed.

(** The client is taken to be initialized on the new cluster, and invocations are allowed, although the state was
    never sent to it: connecting again to a cluster of the same id sets the state, whatever it was. *)
Lemma initialized_without_state :
  reachable init again /\ connectionState (registry again) = INITIALIZED_ON_CLUSTER /\
  checkIfInvocationAllowed (registry again) = None /\ clusterId again = Some (uuid 200) /\
  connectionState (registry replaced) = CONNECTED_TO_CLUSTER /\ SendState (uuid 200) ∈ tasks again /\
  Forall (fun e => match e with StateSent _ => False | _ => True end) (effects again).
Proof.
  split; [unfold again; eapply session_reachable; [eapply reach_step; [exact replaced_reachable | apply st_close] | run..]|].
  split_and!; [run | run | run | run | |].
  - vm_compute. repeat first [apply list_elem_of_here | apply list_elem_of_further].
  - vm_compute. repeat constructor.
Qed.
End Run.

Lemma single_cluster_witness : exists k r, conns Run.first !! 0%nat = Some k /\ c_alive k = true /\
  answers Run.first !! 0%nat = Some r /\ clusterId Run.first = Some (r_clusterId r).
Proof.
  destruct (single_cluster (newConnectionRegistry true ON true ()) false Run.first (UUID_toString (Run.uuid 1)) 0) as (k & r & Hk & Ha & Hr & _ & Hc).
  - reflexivity.
  - exact Run.first_reachable.
  - vm_compute. reflexivity.
  - exists k, r. by split_and!.
Defined.

Lemma no_connection_leaked_witness : 0%nat ∈ getConnections (registry Run.first) \/
  exists i a, attempts Run.first !! i = Some a /\ (a_stage a = Initiating 0 \/ a_stage a = Authenticating 0).
Proof.
  refine (proj1 (no_connection_leaked (newConnectionRegistry true ON true ()) false Run.first 0
    (mkConnection true (Some Run.address) (Some (Run.uuid 1)) (Some "5.0"%string)) _ Run.first_reachable _ _)); [reflexivity | vm_compute; reflexivity | reflexivity].
Defined.

Lemma attempts_tracked_witness : a_promise (mkAttempt "10.0.0.1:5701" Done (Resolved 0) false) <> Pending.
Proof.
  refine (proj2 (proj2 (attempts_tracked (newConnectionRegistry true ON true ()) false Run.first 0
    (mkAttempt "10.0.0.1:5701" Done (Resolved 0) false) _ Run.first_reachable _)) _); [reflexivity | vm_compute; reflexivity | by left].
Defined.

(** The first member is accepted; a member of another cluster is refused while the connection to the first is open. *)
Lemma authentication_outcome_witness :
  (let s' := authenticated 0 0 (Run.response 1 100) (Run.opened 0 0 (start Run.init)) in
   js_map_get String.eqb (activeConnections (registry s')) (UUID_toString (Run.uuid 1)) = Some 0%nat /\
   is_alive s' 0 /\ clusterId s' = Some (Run.uuid 100)) /\
  (exists a', attempts (authenticated 1 1 (Run.response 2 300) Run.second) !! 1%nat = Some a' /\
     a_promise a' = Rejected (Hz Err.IllegalStateError)).
Proof.
  split.
  - intros s'. destruct (authentication_outcome (newConnectionRegistry true ON true ()) false (Run.opened 0 0 (start Run.init)) 0 0
      (mkConnection true (Some Run.address) None None) (Run.response 1 100) (mkAttempt "10.0.0.1:5701" (Authenticating 0) Pending true))
      as (o & a' & Ho & Hu & _ & _ & _ & Hm);
      [reflexivity | | vm_compute; reflexivity | reflexivity | vm_compute; reflexivity | reflexivity | intros _; by exists Run.address |].
    + apply Run.opened_reachable; [eapply reach_step; [apply reach_init | apply st_start] | vm_compute; reflexivity..].
    + assert (o = Resolved 0) as ->.
      { symmetry. apply Hu, out_accepted; [split; [by intros [? _] | reflexivity] | by left | reflexivity | by intros (id & ? & _)]. }
      destruct Hm as (H1 & H2 & H3 & _). split_and!; [exact H1 | exact H2 | exact (H3 eq_refl)].
  - destruct (authentication_outcome (newConnectionRegistry true ON true ()) false Run.second 1 1
      (mkConnection true (Some (mkAddress "10.0.0.2" 5701)) None None) (Run.response 2 300) (mkAttempt "10.0.0.2:5701" (Authenticating 1) Pending true))
      as (o & a' & Ho & Hu & Ha' & _ & Hp & _);
      [reflexivity | exact Run.second_reachable | vm_compute; reflexivity | reflexivity | vm_compute; reflexivity | reflexivity
      | intros _; by exists Run.address |].
    exists a'. split; [exact Ha'|]. rewrite Hp. cbn [a_promise settle]. symmetry. apply Hu, out_two_clusters.
    + split; [by intros [? _] | reflexivity].
    + right. vm_compute. reflexivity.
    + vm_compute. reflexivity.
    + exists (Run.uuid 100). split; [vm_compute; reflexivity | by vm_compute].
    + by vm_compute.
Defined.
