(* ===== verification/ClusterConnect.v ===== *)
(** * Connecting to a cluster

    The loop of [src/network/ConnectionManager.ts] that tries members, configured addresses and clusters until it has a
    connection ([doConnectToCluster] and what it calls), the back-off of [src/network/WaitStrategy.ts], the choice of
    the next cluster of [src/ClusterFailoverService.ts] and the heartbeats of [src/network/HeartbeatManager.ts].

    The loop is asynchronous: whatever it awaits may change anything. The rest of the program is a type of
    worlds ([World]), and each operation that is awaited returns its answer and the world in which the
    answer arrives. *)

From S2P Require Export ConnectionManager JsNumber.
#[local] Open Scope Z_scope.

(** ** Numbers *)

(** [x < y], [Math.min], [Math.round]. *)
Definition num_lt (x y : js_number) : bool := SFltb x y.

Definition num_min (x y : js_number) : js_number :=
  match x, y with
  | S754_nan, _ | _, S754_nan => S754_nan
  | S754_zero s, S754_zero t => S754_zero (s || t)
  | _, _ => if num_lt y x then y else x
  end.

Definition num_add (x y : js_number) : js_number := SFadd 53 1024 x y.
Definition num_sub (x y : js_number) : js_number := SFsub 53 1024 x y.
Definition num_mul (x y : js_number) : js_number := SFmul 53 1024 x y.

(** The integer nearest to a number, the greater one of two; what rounds to 0 from below is -0. *)
Definition num_round (x : js_number) : js_number :=
  match x with
  | S754_finite s m e =>
      if 0 <=? e then x
      else
        let v := if s then Zneg m else Zpos m in
        match (2 * v + 2 ^ (- e)) / 2 ^ (1 - e) with
        | Z0 => S754_zero s
        | z => num_of_Z z
        end
  | _ => x
  end.

(** ** WaitStrategy *)

Module WaitStrategy.
(** The configuration, with -1 replaced by [Number.MAX_SAFE_INTEGER] for the timeout, and the state. *)
Record config := mkConfig {
  initialBackoffMillis : js_number; maxBackoffMillis : js_number; multiplier : js_number; jitter : js_number;
  clusterConnectTimeoutMillis : js_number }.
Record t := mk { attempt : Z; currentBackoffMillis : js_number; clusterConnectAttemptBegin : Z }.

Definition MAX_SAFE_INTEGER : Z := 2 ^ 53 - 1.

Definition new (initial max mult : js_number) (timeout : js_number) (jit : js_number) : config :=
  mkConfig initial max mult jit (if bool_decide (timeout = num_of_Z (-1)) then num_of_Z MAX_SAFE_INTEGER else timeout).

Definition reset (cfg : config) (now : Z) : t :=
  mk 0 (num_min (maxBackoffMillis cfg) (initialBackoffMillis cfg)) now.

(** The time to sleep, [None] when the timeout is reached; [random] is in [0, 1). *)
Definition sleep_time (cfg : config) (now : Z) (random : js_number) (s : t) : option js_number :=
  let timePassed := now - clusterConnectAttemptBegin s in
  if num_ltb (clusterConnectTimeoutMillis cfg) timePassed then None
  else
    let actualSleepTime := num_add (currentBackoffMillis s)
      (num_mul (num_mul (currentBackoffMillis s) (jitter cfg)) (num_sub (num_mul (num_of_Z 2) random) (num_of_Z 1))) in
    Some (num_min actualSleepTime (num_sub (clusterConnectTimeoutMillis cfg) (num_of_Z timePassed))).

Definition count (s : t) : t := mk (attempt s + 1) (currentBackoffMillis s) (clusterConnectAttemptBegin s).

(** After the delay. *)
Definition backoff (cfg : config) (s : t) : t :=
  let nextCurrentBackoffMillis := num_round (num_mul (currentBackoffMillis s) (multiplier cfg)) in
  mk (attempt s) (num_min nextCurrentBackoffMillis (maxBackoffMillis cfg)) (clusterConnectAttemptBegin s).
End WaitStrategy.

(** ** The loop *)

(** [throw] of a callback, or its value. *)
Inductive outcome (A : Type) := Returns (a : A) | Throws (e : failure).
Arguments Returns {A}. Arguments Throws {A}.

(** The [Addresses] of a provider. *)
Record Addresses := mkAddresses { primary : list AddressImpl; secondary : list AddressImpl }.

(** What the loop asks the rest of the program. A candidate cluster is its position in the list of candidates. *)
Class World (L W : Type) := {
  w_isRunning : W -> bool;
  w_now : W -> Z;
  w_random : W -> js_number;
  w_members : W -> list (MemberImpl L);
  w_shuffleMembers : list (MemberImpl L) -> W -> list (MemberImpl L);
  w_shuffleAddresses : list AddressImpl -> W -> list AddressImpl;
  w_connectToMember : MemberImpl L -> W -> (nat + failure) * W;
  w_connectToAddress : AddressImpl -> W -> (nat + failure) * W;
  w_loadAddresses : nat -> W -> (Addresses + failure) * W;
  w_delay : js_number -> W -> W;
  w_onClusterChange : W -> W;
  w_setSwitching : W -> W;
  w_waitForInitialMemberList : W -> outcome unit * W;
  w_changedCluster : W -> W
}.

(** The time of the clock while the loop waits: Node.js makes a timer of less than a millisecond one of a millisecond. *)
Class WorldLaws (L W : Type) `{World L W} := {
  now_connectToMember m w : w_now w <= w_now (w_connectToMember m w).2;
  now_connectToAddress a w : w_now w <= w_now (w_connectToAddress a w).2;
  now_loadAddresses n w : w_now w <= w_now (w_loadAddresses n w).2;
  now_delay d w : w_now w + 1 <= w_now (w_delay d w);
  now_onClusterChange w : w_now w <= w_now (w_onClusterChange w);
  now_setSwitching w : w_now w <= w_now (w_setSwitching w)
}.

Section Loop.
Context {L W : Type} `{World L W}.
Context (cfg : WaitStrategy.config) (shuffleMemberList : bool).
#[local] Abbreviation Member := (MemberImpl L).

(** [set.add(x)]. *)
Definition set_add (x : string) (l : list string) : list string := if bool_decide (x ∈ l) then l else l ++ [x].

(** [connect]: an error that the configuration or the cluster causes is thrown on, any other one is no connection. *)
Definition connect {T} (getOrConnectFn : T -> W -> (nat + failure) * W) (target : T) (w : W) : outcome (option nat) * W :=
  match getOrConnectFn target w with
  | (inl c, w) => (Returns (Some c), w)
  | (inr (Hz e), w) =>
      if Err.instanceof e Err.InvalidConfigurationError || Err.instanceof e Err.ClientNotAllowedInClusterError
      then (Throws (Hz e), w) else (Returns None, w)
  | (inr Native, w) => (Returns None, w)
  end.

(** [tryConnecting] from an index on: the items left. *)
Fixpoint tryConnecting {T} (getAddress : T -> AddressImpl) (connectTo : T -> W -> (nat + failure) * W) (items : list T)
    (triedAddresses : list string) (w : W) : outcome bool * list string * W :=
  match items with
  | [] => (Returns false, triedAddresses, w)
  | item :: items =>
      if negb (w_isRunning w) then (Throws (Hz Err.ClientNotActiveError), triedAddresses, w)
      else
        let triedAddresses := set_add (address_toString (getAddress item)) triedAddresses in
        match connect connectTo item w with
        | (Throws e, w) => (Throws e, triedAddresses, w)
        | (Returns (Some _), w) => (Returns true, triedAddresses, w)
        | (Returns None, w) => tryConnecting getAddress connectTo items triedAddresses w
        end
  end.

Definition loadAddressesFromProvider (ctx : nat) (w : W) : list AddressImpl * W :=
  let '(r, w) := w_loadAddresses ctx w in
  let providerAddresses := match r with inl a => a | inr _ => mkAddresses [] [] end in
  if shuffleMemberList then
    (w_shuffleAddresses (primary providerAddresses) w ++ w_shuffleAddresses (secondary providerAddresses) w, w)
  else (primary providerAddresses ++ secondary providerAddresses, w).

(** One round over the members and the addresses of the provider. *)
Definition try_round (ctx : nat) (w : W) : outcome bool * list string * W :=
  let members := w_members w in
  let members := if shuffleMemberList then w_shuffleMembers members w else members in
  match tryConnecting m_address w_connectToMember members [] w with
  | (Returns false, tried, w) =>
      let '(addresses, w) := loadAddressesFromProvider ctx w in
      tryConnecting id w_connectToAddress (filter (fun a => address_toString a ∉ tried) addresses) tried w
  | r => r
  end.

(** The [catch]: the cluster is given up. *)
Definition give_up_cluster (e : failure) : bool :=
  match e with
  | Hz e => Err.instanceof e Err.ClientNotAllowedInClusterError || Err.instanceof e Err.InvalidConfigurationError
  | Native => false
  end.

(** [tryConnectingToAddresses]; the rounds end with a connection, an error or the timeout, and the fuel bounds them.
    [triedAddresses] is only logged. *)
Fixpoint tryConnectingToAddresses (fuel : nat) (ctx : nat) (triedAddresses : list string) (ws : WaitStrategy.t) (w : W)
    : option (outcome bool * list string * WaitStrategy.t * W) :=
  match fuel with
  | O => None
  | S fuel =>
      match try_round ctx w with
      | (Returns true, _, w) => Some (Returns true, triedAddresses, ws, w)
      | (Throws e, _, w) => Some (if give_up_cluster e then Returns false else Throws e, triedAddresses, ws, w)
      | (Returns false, triedPerAttempt, w) =>
          let triedAddresses := foldl (fun l a => set_add a l) triedAddresses triedPerAttempt in
          if negb (w_isRunning w) then Some (Throws (Hz Err.ClientNotActiveError), triedAddresses, ws, w)
          else
            let ws := WaitStrategy.count ws in
            match WaitStrategy.sleep_time cfg (w_now w) (w_random w) ws with
            | None => Some (Returns false, triedAddresses, ws, w)
            | Some d => tryConnectingToAddresses fuel ctx triedAddresses (WaitStrategy.backoff cfg ws) (w_delay d w)
            end
      end
  end.

Definition doConnectToCandidateCluster (fuel : nat) (ctx : nat) (w : W) : option (outcome bool * W) :=
  '(r, _, _, w) ← tryConnectingToAddresses fuel ctx [] (WaitStrategy.reset cfg (w_now w)) w; Some (r, w).

Definition cleanupAndTryNextCluster (fuel : nat) (nextCtx : nat) (w : W) : option (outcome bool * W) :=
  let w := w_setSwitching (w_onClusterChange w) in
  '(r, w) ← doConnectToCandidateCluster fuel nextCtx w;
  match r with
  | Returns true =>
      match w_waitForInitialMemberList w with
      | (Returns _, w) => Some (Returns true, w_changedCluster w)
      | (Throws e, w) => Some (Throws e, w)
      end
  | r => Some (r, w)
  end.

(** *** ClusterFailoverService *)

Record ClusterFailoverService := mkFailover { maxTryCount : nat; candidateClusters : nat; index : nat }.

Definition current (f : ClusterFailoverService) : nat := (index f mod candidateClusters f)%nat.

Definition next_index (f : ClusterFailoverService) : ClusterFailoverService :=
  mkFailover (maxTryCount f) (candidateClusters f) (S (index f)).

(** [doTryNextCluster], with the number of tries left instead of the number made. *)
Fixpoint doTryNextCluster (tries : nat) (fn : nat -> W -> option (outcome bool * W)) (f : ClusterFailoverService) (w : W)
    : option (outcome bool * ClusterFailoverService * W) :=
  match tries with
  | O => Some (Returns false, f, w)
  | S tries =>
      if negb (w_isRunning w) then Some (Returns false, f, w)
      else
        let f := next_index f in
        '(r, w) ← fn (current f) w;
        match r with
        | Returns false => doTryNextCluster tries fn f w
        | r => Some (r, f, w)
        end
  end.

Definition tryNextCluster (fn : nat -> W -> option (outcome bool * W)) (f : ClusterFailoverService) (w : W)
    : option (outcome bool * ClusterFailoverService * W) := doTryNextCluster (maxTryCount f) fn f w.

Definition doConnectToCluster (fuel : nat) (f : ClusterFailoverService) (w : W)
    : option (outcome unit * ClusterFailoverService * W) :=
  '(r, w) ← doConnectToCandidateCluster fuel (current f) w;
  match r with
  | Throws e => Some (Throws e, f, w)
  | Returns connected =>
      '(r, f, w) ← (if connected : bool then Some (Returns true, f, w) else tryNextCluster (cleanupAndTryNextCluster fuel) f w);
      match r with
      | Returns true => Some (Returns tt, f, w)
      | Returns false => Some (Throws (Hz Err.IllegalStateError), f, w)
      | Throws e => Some (Throws e, f, w)
      end
  end.
End Loop.

(** ** Heartbeats *)

(** [now] and the times are milliseconds. *)
Record Beat := mkBeat { b_alive : bool; b_lastRead : Z; b_lastWrite : Z }.
Inductive heartbeat_action := CloseConnection (c : nat) | Ping (c : nat).

Definition checkConnection (interval timeout now : Z) (c : nat) (b : Beat) : list heartbeat_action :=
  if negb (b_alive b) then []
  else if now - b_lastRead b >? timeout then [CloseConnection c]
  else if now - b_lastWrite b >? interval then [Ping c]
  else [].

Definition heartbeatFunction (interval timeout now : Z) (isActive : bool) (connections : list (nat * Beat)) : list heartbeat_action :=
  if isActive then connections ≫= (fun cb => checkConnection interval timeout now cb.1 cb.2) else [].

(** ** The back-off *)

Section Backoff.
Import WaitStrategy.

Lemma SFltb_irrefl x : SFltb x x = false.
Proof.
  destruct x as [s|s| |s m e]; cbn; unfold SFltb, SFcompare; try done; try (by destruct s).
  destruct s; rewrite Z.compare_refl; change (Pos.compare_cont Eq m m) with (m ?= m)%positive; by rewrite Pos.compare_refl.
Qed.

(** [Math.min] does not exceed its arguments. *)
Lemma num_min_bound x y : num_lt x (num_min x y) = false /\ num_lt y (num_min x y) = false.
Proof.
  unfold num_lt. assert (forall z, SFltb z S754_nan = false) as Hnan by (by intros [[]|[]| |[] ? ?]).
  assert (forall s t z, (exists u, z = S754_zero u) -> SFltb z (S754_zero (s || t)) = false) as Hzero by (by intros s t z [u ->]).
  assert (SFltb x (if num_lt y x then y else x) = false /\ SFltb y (if num_lt y x then y else x) = false) as Hgen.
  { unfold num_lt. destruct (SFltb y x) eqn:E; [|by rewrite E, SFltb_irrefl].
    split; [|apply SFltb_irrefl]. revert E. unfold SFltb. destruct x as [s|s| |s m e], y as [t|t| |t n f]; cbn; try done;
      try (destruct s, t; done); try (destruct s; done); try (destruct t; done).
    destruct s, t; try done; rewrite (Z.compare_antisym f e); destruct (Z.compare f e); cbn; try done.
    all: change (Pos.compare_cont Eq n m) with (n ?= m)%positive; change (Pos.compare_cont Eq m n) with (m ?= n)%positive.
    all: rewrite (Pos.compare_antisym m n); by destruct (m ?= n)%positive. }
  destruct x, y; cbn [num_min]; try apply Hgen; auto; try (split; apply Hnan); split; apply Hzero; eauto.
Qed.

(** The states a wait strategy goes through: one back-off per sleep. *)
Fixpoint after_sleeps (cfg : config) (n : nat) (s : t) : t :=
  match n with O => s | S n => after_sleeps cfg n (backoff cfg (count s)) end.

(** The waiting times stay within their bounds: after any number of failed rounds the back-off does not exceed the
    configured maximum, a sleep does not last longer than what is left of the timeout, whatever the random number, and there is a
    sleep exactly while the timeout is not exceeded. *)
Theorem backoff_bounded cfg n begin now random :
  let s := after_sleeps cfg n (reset cfg begin) in
  num_lt (maxBackoffMillis cfg) (currentBackoffMillis s) = false /\
  clusterConnectAttemptBegin s = begin /\
  (sleep_time cfg now random s = None <-> num_ltb (clusterConnectTimeoutMillis cfg) (now - begin) = true) /\
  forall d, sleep_time cfg now random s = Some d ->
    num_lt (num_sub (clusterConnectTimeoutMillis cfg) (num_of_Z (now - begin))) d = false.
Proof.
  assert (forall s, clusterConnectAttemptBegin s = begin -> num_lt (maxBackoffMillis cfg) (currentBackoffMillis s) = false ->
    clusterConnectAttemptBegin (after_sleeps cfg n s) = begin /\
    num_lt (maxBackoffMillis cfg) (currentBackoffMillis (after_sleeps cfg n s)) = false) as Hn.
  { induction n as [|n IH]; intros s Hb Hm; [done|]. cbn [after_sleeps]. apply IH; [done|]. apply num_min_bound. }
  intros s. destruct (Hn (reset cfg begin) eq_refl) as [Hb Hm]; [apply num_min_bound|]. fold s in Hb, Hm.
  split_and!; [done | done | |]; unfold sleep_time; rewrite Hb.
  - destruct (num_ltb _ _); [done|]. by split.
  - intros d. destruct (num_ltb _ _); [done|]. intros [= <-]. apply num_min_bound.
Qed.
End Backoff.

(** ** Termination *)

Section Termination.
Context {L W : Type} `{WorldLaws L W}.
Context (cfg : WaitStrategy.config) (shuffle : bool) (T : Z).
Context (HT : 0 <= T < 2 ^ 53) (Hcfg : WaitStrategy.clusterConnectTimeoutMillis cfg = num_of_Z T).

(** The clock does not go back while a round runs. *)
Lemma connect_now {U} (f : U -> W -> (nat + failure) * W) x w : (forall w, w_now w <= w_now (f x w).2) ->
  w_now w <= w_now (connect f x w).2.
Proof. intros Hf. specialize (Hf w). unfold connect. destruct (f x w) as [[c|[e|]] w']; cbn in *; [done | by case_match | done]. Qed.

Lemma tryConnecting_now {U} (addr : U -> AddressImpl) f items : (forall x w, w_now w <= w_now (f x w).2) ->
  forall tried w, w_now w <= w_now (tryConnecting addr f items tried w).2.
Proof.
  intros Hf. induction items as [|x items IH]; intros tried w; cbn; [lia|]. destruct (negb _); [cbn; lia|].
  pose proof (connect_now f x w (Hf x)) as Hc. destruct (connect f x w) as [[[c|]|e] w']; cbn in *; [done| |done].
  etrans; [exact Hc | apply IH].
Qed.

Lemma try_round_now ctx w : w_now w <= w_now (try_round shuffle ctx w).2.
Proof.
  unfold try_round. match goal with |- context [tryConnecting m_address _ ?ms [] w] =>
    pose proof (tryConnecting_now m_address w_connectToMember ms now_connectToMember [] w) as Hm; destruct (tryConnecting _ _ ms [] w) as [[[[]|e] tried] w1] end;
    cbn in Hm |- *; try done.
  unfold loadAddressesFromProvider. pose proof (now_loadAddresses ctx w1) as Hl. destruct (w_loadAddresses ctx w1) as [r w2]. cbn in Hl.
  destruct shuffle; (etrans; [exact Hm|]; etrans; [exact Hl|]; apply tryConnecting_now; apply now_connectToAddress).
Qed.

(** Enough rounds for the time that is left, a millisecond each. *)
Lemma rounds_terminate ctx fuel : forall tried ws w,
  T + 1 - (w_now w - WaitStrategy.clusterConnectAttemptBegin ws) < Z.of_nat fuel -> (0 < fuel)%nat ->
  is_Some (tryConnectingToAddresses cfg shuffle fuel ctx tried ws w).
Proof.
  induction fuel as [|fuel IH]; intros tried ws w Hf H0'; [lia|]. cbn [tryConnectingToAddresses].
  pose proof (try_round_now ctx w) as Hr. destruct (try_round shuffle ctx w) as [[[[]|e] tr] w1]; cbn in Hr; [eauto| |eauto].
  destruct (negb _); [eauto|]. cbv zeta. destruct (WaitStrategy.sleep_time _ _ _ _) as [d|] eqn:Es; [|eauto].
  unfold WaitStrategy.sleep_time in Es. destruct (num_ltb _ _) eqn:El; [done|]. rewrite Hcfg in El.
  rewrite (proj2 (num_of_Z_cmp T _ ltac:(lia))) in El. apply Z.ltb_ge in El. cbn in El.
  pose proof (now_delay d w1) as Hd. apply IH; cbn; lia.
Qed.

Lemma candidate_terminates fuel ctx w : T + 1 < Z.of_nat fuel -> is_Some (doConnectToCandidateCluster cfg shuffle fuel ctx w).
Proof.
  intros Hf. unfold doConnectToCandidateCluster.
  destruct (rounds_terminate ctx fuel [] (WaitStrategy.reset cfg (w_now w)) w) as [[[[r tr] ws] w'] ->]; [cbn; lia | lia | eauto].
Qed.

Lemma cleanup_terminates fuel ctx w : T + 1 < Z.of_nat fuel -> is_Some (cleanupAndTryNextCluster cfg shuffle fuel ctx w).
Proof.
  intros Hf. unfold cleanupAndTryNextCluster. destruct (candidate_terminates fuel ctx (w_setSwitching (w_onClusterChange w)) Hf) as [[r w'] ->].
  cbn. destruct r as [[]|e]; [|eauto..]. destruct (w_waitForInitialMemberList w') as [[]]; eauto.
Qed.

Lemma next_terminates (fn : nat -> W -> option (outcome bool * W)) tries : (forall c w, is_Some (fn c w)) ->
  forall f w, is_Some (doTryNextCluster tries fn f w).
Proof.
  intros Hfn. induction tries as [|tries IH]; intros f w; cbn [doTryNextCluster]; [eauto|]. destruct (negb _); [eauto|].
  cbv zeta. destruct (Hfn (current (next_index f)) w) as [[r w'] ->]. cbn. destruct r as [[]|e]; eauto.
Qed.

(** C13: connecting ends: with a finite connect timeout of [T] milliseconds, whatever members, providers and other clusters
    answer, the loop over addresses, rounds and candidate clusters returns or throws, after at most [T + 2] rounds per
    candidate cluster and [maxTryCount] clusters after the first. *)
Theorem doConnectToCluster_terminates (fuel : nat) f w : T + 1 < Z.of_nat fuel ->
  exists r, doConnectToCluster cfg shuffle fuel f w = Some r.
Proof.
  intros Hf. unfold doConnectToCluster. destruct (candidate_terminates fuel (current f) w Hf) as [[r w1] ->]. cbn.
  destruct r as [c|e]; [|eauto].
  assert (is_Some (if c then Some (Returns true, f, w1) else tryNextCluster (cleanupAndTryNextCluster cfg shuffle fuel) f w1)) as [[[r f'] w'] ->].
  { destruct c; [eauto|]. apply next_terminates. intros ctx w'. by apply cleanup_terminates. }
  cbn. destruct r as [[]|e]; eauto.
Qed.
End Termination.

(** ** The order of the clusters *)

Section Order.
Context {L W : Type} `{World L W}.

(** The reference: the clusters of a list, until one answers. *)
Fixpoint try_candidates (fn : nat -> W -> option (outcome bool * W)) (l : list nat) (w : W) : option (outcome bool * W) :=
  match l with
  | [] => Some (Returns false, w)
  | c :: l =>
      if negb (w_isRunning w) then Some (Returns false, w)
      else '(r, w) ← fn c w; match r with Returns false => try_candidates fn l w | r => Some (r, w) end
  end.

(** The clusters that are tried after the current one. *)
Definition next_clusters (f : ClusterFailoverService) (n : nat) : list nat :=
  map (fun j => ((index f + j) mod candidateClusters f)%nat) (seq 1 n).

Lemma next_clusters_S f n : next_clusters f (S n) = current (next_index f) :: next_clusters (next_index f) n.
Proof.
  unfold next_clusters, current, next_index. cbn [seq map index candidateClusters]. f_equal; [f_equal; lia|].
  rewrite <- (seq_shift n 1), map_map. apply map_ext. intros j. f_equal. lia.
Qed.

(** Failover goes through the candidate clusters in turn: [tryNextCluster] is the plain search through the clusters
    after the current one, round and round, at most [maxTryCount] of them, until one is connected, an error is thrown or the
    client stops; with at least as many tries as there are clusters, every cluster is among them. *)
Theorem failover_in_turn fn f w : (0 < candidateClusters f)%nat ->
  (fun r => (r.1.1, r.2)) <$> tryNextCluster fn f w = try_candidates fn (next_clusters f (maxTryCount f)) w /\
  ((candidateClusters f <= maxTryCount f)%nat -> forall c, (c < candidateClusters f)%nat -> c ∈ next_clusters f (maxTryCount f)).
Proof.
  intros Hpos. split.
  - unfold tryNextCluster. generalize (maxTryCount f) as n. intros n. clear Hpos. revert f w. induction n as [|n IH]; intros f w; [done|].
    rewrite next_clusters_S. cbn [doTryNextCluster try_candidates]. destruct (negb _); [done|]. cbv zeta.
    destruct (fn _ w) as [[r w']|]; cbn; [|done]. destruct r as [[]|e]; [done | apply IH | done].
  - intros Hn c Hc. apply list_elem_of_fmap. set (n := candidateClusters f) in *. set (i := index f).
    exists (S ((c + n - (S i) mod n) mod n)). split.
    + pose proof (Nat.mod_upper_bound (S i) n ltac:(lia)) as Hm.
      replace (i + S ((c + n - S i mod n) mod n))%nat with (S i + (c + n - S i mod n) mod n)%nat by lia.
      rewrite Nat.Div0.add_mod_idemp_r. rewrite <- (Nat.Div0.add_mod_idemp_l (S i)).
      replace (S i mod n + (c + n - S i mod n))%nat with (c + 1 * n)%nat by lia. by rewrite Nat.Div0.mod_add, Nat.mod_small.
    + apply elem_of_seq. pose proof (Nat.mod_upper_bound (c + n - S i mod n) n ltac:(lia)). lia.
Qed.
End Order.

(** ** A world in which nothing answers *)

Module Silent.
(** A world is its clock. *)
#[export] Instance world : World Int64.t Z := {|
  w_isRunning _ := true; w_now w := w; w_random _ := S754_zero false; w_members _ := []; w_shuffleMembers l _ := l;
  w_shuffleAddresses l _ := l; w_connectToMember _ w := (inr Native, w + 3); w_connectToAddress _ w := (inr Native, w + 3);
  w_loadAddresses _ w := (inl (mkAddresses [mkAddress "10.0.0.1" 5701] []), w); w_delay _ w := w + 1000;
  w_onClusterChange w := w; w_setSwitching w := w; w_waitForInitialMemberList w := (Returns tt, w); w_changedCluster w := w |}.

#[export] Instance world_laws : WorldLaws Int64.t Z.
Proof. constructor; intros; cbn; lia. Qed.

Definition strategy : WaitStrategy.config :=
  WaitStrategy.new (num_of_Z 1000) (num_of_Z 30000) (num_of_Z 2) (num_of_Z 2000) (num_of_Z 0).
End Silent.

Lemma doConnectToCluster_terminates_witness : exists w,
  doConnectToCluster (L := Int64.t) (H := Silent.world) Silent.strategy false 2002 (mkFailover 1 2 0) 0 =
    Some (Throws (Hz Err.IllegalStateError), mkFailover 1 2 1, w).
Proof.
  destruct (doConnectToCluster_terminates (L := Int64.t) (H := Silent.world) (H0 := Silent.world_laws) Silent.strategy false 2000
    ltac:(lia) eq_refl 2002 (mkFailover 1 2 0) 0 ltac:(lia)) as [r Hr].
  vm_compute in Hr. injection Hr as <-. eexists. vm_compute. reflexivity.
Defined.

Lemma failover_in_turn_witness : 0%nat ∈ next_clusters (mkFailover 3 3 1) 3.
Proof.
  apply (proj2 (failover_in_turn (L := Int64.t) (H := Silent.world) (fun _ w => Some (Returns false, w)) (mkFailover 3 3 1) 0
    ltac:(cbn; lia))); cbn; lia.
Defined.
