(* ===== verification/AddressUtil.v ===== *)
(** * Addresses

    The parsing of configured addresses ([src/util/AddressUtil.ts]), the default address provider
    ([src/connection/DefaultAddressProvider.ts]) and the decision whether members are reached by their public addresses
    ([src/network/TranslateAddressProvider.ts]). The name service and the network are functions: what a name resolves to,
    which addresses accept a connection. A port is a number that may be [NaN], here [None]. *)

From Stdlib Require Import Ascii.
From stdpp Require Import pretty.
From S2P Require Export ConnectionManager.
#[local] Open Scope Z_scope.

(** ** Strings *)

Fixpoint str_drop (n : nat) (s : string) : string :=
  match n, s with O, _ => s | S n, String _ s => str_drop n s | S _, EmptyString => EmptyString end.
Fixpoint str_take (n : nat) (s : string) : string :=
  match n, s with O, _ => EmptyString | S n, String c s => String c (str_take n s) | S _, EmptyString => EmptyString end.

(** [s.substring(a, b)] for [a <= b]. *)
Definition substring (s : string) (a b : Z) : string := str_take (Z.to_nat (b - a)) (str_drop (Z.to_nat a) s).

Fixpoint find_char (c : ascii) (s : string) : option nat :=
  match s with
  | EmptyString => None
  | String d s => if Ascii.eqb d c then Some O else S <$> find_char c s
  end.
Fixpoint find_last_char (c : ascii) (s : string) : option nat :=
  match s with
  | EmptyString => None
  | String d s =>
      match find_last_char c s with Some n => Some (S n) | None => if Ascii.eqb d c then Some O else None end
  end.

Definition or_minus_one (o : option nat) : Z := match o with Some n => Z.of_nat n | None => -1 end.

(** [indexOf] from a position, [-1] when there is none; a negative position is 0. *)
Definition indexOf (c : ascii) (s : string) (from : Z) : Z :=
  match find_char c (str_drop (Z.to_nat from) s) with Some n => Z.of_nat (Z.to_nat from + n) | None => -1 end.
Definition lastIndexOf (c : ascii) (s : string) : Z := or_minus_one (find_last_char c s).

(** [Number.parseInt]: white space, a sign, a hexadecimal prefix, and the longest run of digits. *)
Definition is_space (c : ascii) : bool :=
  let n := nat_of_ascii c in (n =? 32)%nat || ((9 <=? n)%nat && (n <=? 13)%nat).

Fixpoint trim_start (s : string) : string :=
  match s with String c r => if is_space c then trim_start r else s | EmptyString => s end.

Definition digit (radix : Z) (c : ascii) : option Z :=
  let n := Z.of_nat (nat_of_ascii c) in
  let d := if (48 <=? n) && (n <=? 57) then n - 48
           else if (97 <=? n) && (n <=? 122) then n - 87
           else if (65 <=? n) && (n <=? 90) then n - 55 else 36 in
  if d <? radix then Some d else None.

Fixpoint digits (radix acc : Z) (s : string) : Z :=
  match s with
  | String c s => match digit radix c with Some d => digits radix (acc * radix + d) s | None => acc end
  | EmptyString => acc
  end.

Definition parse_digits (radix : Z) (s : string) : option Z :=
  match s with
  | String c _ => match digit radix c with Some _ => Some (digits radix 0 s) | None => None end
  | EmptyString => None
  end.

Definition parse_unsigned (s : string) : option Z :=
  match s with
  | String "0" (String "x" r) | String "0" (String "X" r) => parse_digits 16 r
  | _ => parse_digits 10 s
  end.

Definition parseInt (s : string) : option Z :=
  match trim_start s with
  | String "-" r => Z.opp <$> parse_unsigned r
  | String "+" r => parse_unsigned r
  | r => parse_unsigned r
  end.

(** ** Configured addresses *)

(** An [AddressImpl] made from a text. *)
Record Parsed := mkParsed { p_host : string; p_port : option Z }.

Definition MAX_PORT_TRIES : nat := 3.
Definition INITIAL_FIRST_PORT : Z := 5701.

Definition createAddressFromString (address : string) (defaultPort : Z) : Parsed :=
  let indexBracketStart := indexOf "[" address 0 in
  let indexBracketEnd := indexOf "]" address indexBracketStart in
  let indexColon := indexOf ":" address 0 in
  let lastIndexColon := lastIndexOf ":" address in
  if (indexColon >? -1) && (lastIndexColon >? indexColon) then
    if (indexBracketStart =? 0) && (indexBracketEnd >? indexBracketStart) then
      mkParsed (substring address (indexBracketStart + 1) indexBracketEnd)
        (if lastIndexColon =? indexBracketEnd + 1 then parseInt (str_drop (Z.to_nat (lastIndexColon + 1)) address)
         else Some defaultPort)
    else mkParsed address (Some defaultPort)
  else if (indexColon >? 0) && (indexColon =? lastIndexColon) then
    mkParsed (substring address 0 indexColon) (parseInt (str_drop (Z.to_nat (indexColon + 1)) address))
  else mkParsed address (Some defaultPort).

(** [Addresses]: those to try first, and the others. *)
Record ParsedAddresses := mkParsedAddresses { p_primary : list Parsed; p_secondary : list Parsed }.

Definition getSocketAddresses (address : string) : ParsedAddresses :=
  let addressHolder := createAddressFromString address (-1) in
  let unknown := bool_decide (p_port addressHolder = Some (-1)) in
  let maxPortTryCount := if unknown then MAX_PORT_TRIES else 1%nat in
  let possiblePort := if unknown then Some INITIAL_FIRST_PORT else p_port addressHolder in
  let addressList := map (fun i => mkParsed (p_host addressHolder) (p ← possiblePort; Some (p + Z.of_nat i))) (seq 0 maxPortTryCount) in
  match addressList with
  | [] => mkParsedAddresses [] []
  | a :: l => mkParsedAddresses [a] l
  end.

Definition addAll (addresses other : ParsedAddresses) : ParsedAddresses :=
  mkParsedAddresses (p_primary addresses ++ p_primary other) (p_secondary addresses ++ p_secondary other).

(** [loadAddresses], and the list of the configuration after it, to which the default is added. *)
Definition loadAddresses (clusterMembers : list string) : ParsedAddresses * list string :=
  let addressList := match clusterMembers with [] => ["127.0.0.1"%string] | l => l end in
  (foldl (fun a s => addAll a (getSocketAddresses s)) (mkParsedAddresses [] []) addressList, addressList).

(** ** Public addresses *)

Section Translate.
Context {L : Type} (dns_lookup : string -> option string) (isAddressReachable : AddressImpl -> Z -> bool)
  (shuffleArray : list (MemberInfo L) -> list (MemberInfo L)).

Definition resolveAddress (address : string) : option string :=
  if String.eqb address "" then None
  else let host := p_host (createAddressFromString address (-1)) in
       if String.eqb host "" then None else dns_lookup host.

Definition REACHABLE_CHECK_LIMIT : nat := 3.
Definition internalAddressTimeoutMs : Z := 1000.
Definition publicAddressTimeoutMs : Z := 3000.

(** A host that is not resolved is null in both lists. *)
Definition internalMemberAddressMatchesConfig (clusterMembers : list string) (members : list (MemberInfo L)) : bool :=
  let addressesFromConfig := map resolveAddress clusterMembers in
  existsb (fun m => bool_decide (resolveAddress (host (mi_address m)) ∈ addressesFromConfig)) members.

(** [attempts] is the number of attempts left, [REACHABLE_CHECK_LIMIT - attempt]. *)
Fixpoint reachableOnlyViaPublicAddressInternal (attempts : nat) (shuffledMembers : list (MemberInfo L)) : res bool :=
  match attempts with
  | O => Ok true
  | S attempts =>
      match shuffledMembers with
      | [] => Err TypeError
      | member :: rest =>
          match lookupPublicAddress (addressMap member) with
          | None => Ok false
          | Some publicAddress =>
              if isAddressReachable (mi_address member) internalAddressTimeoutMs then Ok false
              else if negb (isAddressReachable publicAddress publicAddressTimeoutMs) then Ok false
              else reachableOnlyViaPublicAddressInternal attempts (match rest with [] => shuffledMembers | _ => rest end)
          end
      end
  end.

Definition reachableOnlyViaPublicAddress (members : list (MemberInfo L)) : res bool :=
  reachableOnlyViaPublicAddressInternal (REACHABLE_CHECK_LIMIT - 1) (shuffleArray members).

(** [resolve]: whether to translate; [publicIpEnabled] is null unless the user set it. *)
Definition resolve (isDefaultProvider : bool) (publicIpEnabled : option bool) (sslEnabled : bool) (clusterMembers : list string)
    (members : list (MemberInfo L)) : res bool :=
  if negb isDefaultProvider then Ok false
  else match publicIpEnabled with
       | Some b => Ok b
       | None =>
           if sslEnabled then Ok false
           else match members with
                | [] => Ok false
                | _ => if internalMemberAddressMatchesConfig clusterMembers members then Ok false
                       else reachableOnlyViaPublicAddress members
                end
       end.

(** A configured host and the host of a member that are both unknown to the name service are taken to be the same, so that
    the internal addresses are used. *)
Lemma unresolved_hosts_match clusterMembers members c m : c ∈ clusterMembers -> m ∈ members -> resolveAddress c = None ->
  resolveAddress (host (mi_address m)) = None -> resolve true None false clusterMembers members = Ok false.
Proof.
  intros Hc Hm Ec Em. unfold resolve. cbn [negb]. destruct members as [|m0 ms]; [done|].
  assert (internalMemberAddressMatchesConfig clusterMembers (m0 :: ms) = true) as ->; [|done].
  apply existsb_exists. exists m. split; [by apply list_elem_of_In|]. apply bool_decide_eq_true. rewrite Em, <- Ec.
  apply list_elem_of_fmap. by exists c.
Qed.

(** Two members are looked at, although the limit is three. *)
Lemma two_members_checked m1 m2 rest rest' :
  reachableOnlyViaPublicAddressInternal (REACHABLE_CHECK_LIMIT - 1) (m1 :: m2 :: rest) =
  reachableOnlyViaPublicAddressInternal (REACHABLE_CHECK_LIMIT - 1) (m1 :: m2 :: rest').
Proof. done. Qed.
End Translate.

(** ** Parsing what is printed *)

#[local] Arguments Ascii.eqb : simpl never.
#[local] Arguments String.append !_ _ / : simpl nomatch.

Definition no_char (c : ascii) (s : string) : Prop := find_char c s = None.

Lemma find_char_app c s t : no_char c s -> find_char c (s +:+ String c t) = Some (String.length s).
Proof.
  unfold no_char. induction s as [|d s IH]; cbn; [by rewrite Ascii.eqb_refl|]. destruct (Ascii.eqb d c); [done|].
  intros Hs. rewrite IH; [done|]. by destruct (find_char c s).
Qed.

Lemma find_last_none c s : no_char c s -> find_last_char c s = None.
Proof.
  unfold no_char. induction s as [|d s IH]; cbn; [done|]. destruct (Ascii.eqb d c) eqn:E; [done|]. intros Hs.
  rewrite IH; [done|]. by destruct (find_char c s).
Qed.

Lemma find_last_app c s t : no_char c t -> find_last_char c (s +:+ String c t) = Some (String.length s).
Proof. intros Ht. induction s as [|d s IH]; cbn; [by rewrite find_last_none, Ascii.eqb_refl | by rewrite IH]. Qed.

Lemma str_drop_app s t : str_drop (String.length s) (s +:+ t) = t.
Proof. by induction s. Qed.
Lemma str_take_app s t : str_take (String.length s) (s +:+ t) = s.
Proof. induction s as [|c s IH]; cbn; [by destruct t | by rewrite IH]. Qed.

(** The digits of a printed number. *)
Lemma digit_pretty x : (x < 10)%N -> digit 10 (pretty_N_char x) = Some (Z.of_N x).
Proof. intros Hx. assert (x = 0 \/ x = 1 \/ x = 2 \/ x = 3 \/ x = 4 \/ x = 5 \/ x = 6 \/ x = 7 \/ x = 8 \/ x = 9)%N as Hc by lia. by destruct_or! Hc; subst. Qed.

Lemma digits_pretty x : forall s, digits 10 0 (pretty_N_go x s) = digits 10 (Z.of_N x) s.
Proof.
  induction x as [x IH] using (well_founded_ind N.lt_wf_0). intros s.
  destruct (decide (0 < x)%N) as [Hx|Hx]; [|replace x with 0%N by lia; by rewrite pretty_N_go_0].
  rewrite pretty_N_go_step by done. rewrite IH by (apply N.div_lt; lia). cbn [digits].
  rewrite digit_pretty by (apply N.mod_lt; lia). f_equal. rewrite N2Z.inj_div, N2Z.inj_mod. pose proof (Z.div_mod (Z.of_N x) 10 ltac:(lia)). cbn in *. lia.
Qed.

Lemma go_snoc x : (0 < x)%N -> forall s, exists c r, pretty_N_go x s = String c r /\ is_Some (digit 10 c) /\
  (c = "0"%char -> False).
Proof.
  induction x as [x IH] using (well_founded_ind N.lt_wf_0). intros Hx s. rewrite pretty_N_go_step by done.
  destruct (decide (0 < x `div` 10)%N) as [Hd|Hd]; [apply IH; [apply N.div_lt; lia | done]|].
  assert ((x `div` 10)%N = 0%N) as E0 by (by apply N.le_0_r, N.nlt_ge). rewrite E0, pretty_N_go_0. do 2 eexists. split; [done|].
  assert (x < 10)%N as Hlt by (by apply N.div_small_iff). rewrite N.mod_small by done. rewrite digit_pretty by done. split; [eauto|].
  intros E. assert (x = 1 \/ x = 2 \/ x = 3 \/ x = 4 \/ x = 5 \/ x = 6 \/ x = 7 \/ x = 8 \/ x = 9)%N as Hc by lia.
  by destruct_or! Hc; subst.
Qed.

(** The first character of a printed positive number is a digit from 1 to 9. *)
Definition leading (c : ascii) : Prop := c ∈ ["1"; "2"; "3"; "4"; "5"; "6"; "7"; "8"; "9"]%char.

Lemma digit_leading c : is_Some (digit 10 c) -> (c = "0"%char -> False) -> leading c.
Proof.
  intros [d Hd] H0. unfold leading. revert Hd H0.
  destruct c as [[] [] [] [] [] [] [] []]; cbn; intros; try done; try (exfalso; by apply H0);
    repeat first [apply list_elem_of_here | apply list_elem_of_further].
Qed.

Lemma parseInt_pretty n : 0 <= n -> parseInt (pretty n) = Some n.
Proof.
  intros Hn. destruct n as [|p|p]; [done| |lia].
  change (pretty (Zpos p)) with (pretty (Npos p)). unfold pretty, pretty_N. rewrite decide_False by lia.
  destruct (go_snoc (Npos p) ltac:(lia) "") as (c & r & E & Hd & H0).
  assert (digits 10 0 (String c r) = Zpos p) as Hdig by (rewrite <- E, digits_pretty; done).
  rewrite E. pose proof (digit_leading c Hd H0) as Hl. clear E Hd H0. unfold leading in Hl.
  repeat (apply elem_of_cons in Hl as [->|Hl]; [unfold parseInt; cbn; by rewrite <- Hdig|]). by apply not_elem_of_nil in Hl.
Qed.

Lemma pretty_char_not_colon x : (x < 10)%N -> Ascii.eqb (pretty_N_char x) ":" = false.
Proof. intros Hx. assert (x = 0 \/ x = 1 \/ x = 2 \/ x = 3 \/ x = 4 \/ x = 5 \/ x = 6 \/ x = 7 \/ x = 8 \/ x = 9)%N as Hc by lia. by destruct_or! Hc; subst. Qed.

Lemma go_no_colon x : forall s, no_char ":" s -> no_char ":" (pretty_N_go x s).
Proof.
  induction x as [x IH] using (well_founded_ind N.lt_wf_0). intros s Hs.
  destruct (decide (0 < x)%N) as [Hx|Hx]; [|replace x with 0%N by lia; by rewrite pretty_N_go_0].
  rewrite pretty_N_go_step by done. apply IH; [apply N.div_lt; lia|]. unfold no_char in *. cbn [find_char].
  rewrite pretty_char_not_colon by (apply N.mod_lt; lia). by rewrite Hs.
Qed.

Lemma pretty_no_colon n : 0 <= n -> no_char ":" (pretty n).
Proof.
  intros Hn. destruct n as [|p|p]; [done| |lia]. change (pretty (Zpos p)) with (pretty (Npos p)). unfold pretty, pretty_N.
  rewrite decide_False by lia. by apply go_no_colon.
Qed.

Lemma indexOf_app c s t : no_char c s -> indexOf c (s +:+ String c t) 0 = Z.of_nat (String.length s).
Proof. intros Hs. unfold indexOf. change (str_drop (Z.to_nat 0) (s +:+ String c t)) with (s +:+ String c t). by rewrite find_char_app. Qed.

Lemma lastIndexOf_app c s t : no_char c t -> lastIndexOf c (s +:+ String c t) = Z.of_nat (String.length s).
Proof. intros Ht. unfold lastIndexOf. by rewrite find_last_app. Qed.

Lemma drop_S s c t : str_drop (S (String.length s)) (s +:+ String c t) = t.
Proof. induction s as [|d s IH]; [done | exact IH]. Qed.

Lemma host_port h p d : no_char ":" h -> h <> ""%string -> 0 <= p ->
  createAddressFromString (h +:+ String ":" (pretty p)) d = mkParsed h (Some p).
Proof.
  intros Hh Hne Hp. unfold createAddressFromString. rewrite (indexOf_app ":" h) by done.
  rewrite lastIndexOf_app by (by apply pretty_no_colon).
  assert (0 < Z.of_nat (String.length h)) as Hl by (destruct h; [done | cbn; lia]).
  replace (Z.of_nat (String.length h) >? Z.of_nat (String.length h)) with false by (symmetry; rewrite Z.gtb_ltb; apply Z.ltb_irrefl).
  rewrite andb_false_r. replace (Z.of_nat (String.length h) >? 0) with true by (symmetry; rewrite Z.gtb_ltb; by apply Z.ltb_lt).
  rewrite Z.eqb_refl. cbn [andb]. unfold substring. rewrite Z.sub_0_r, Nat2Z.id.
  change (str_drop (Z.to_nat 0) (h +:+ String ":" (pretty p))) with (h +:+ String ":" (pretty p)).
  rewrite str_take_app. replace (Z.to_nat (Z.of_nat (String.length h) + 1)) with (S (String.length h)) by lia.
  by rewrite drop_S, parseInt_pretty.
Qed.

Lemma length_append s t : String.length (s +:+ t) = (String.length s + String.length t)%nat.
Proof. by induction s as [|c s IH]; [|cbn; rewrite IH]. Qed.

Lemma append_assoc_str s t u : (s +:+ t) +:+ u = s +:+ (t +:+ u).
Proof. by induction s as [|c s IH]; [|cbn; rewrite IH]. Qed.

Lemma find_char_first c s t k : find_char c s = Some k -> find_char c (s +:+ t) = Some k /\ (k < String.length s)%nat.
Proof.
  revert k. induction s as [|d s IH]; intros k; cbn; [done|]. destruct (Ascii.eqb d c); [intros [= <-]; split; [done | lia]|].
  destruct (find_char c s) as [n|]; [|done]. intros [= <-]. destruct (IH n eq_refl) as [-> ?]. split; [done | lia].
Qed.

Lemma bracketed_host_port h p d : ~ no_char ":" h -> no_char "]" h -> 0 <= p ->
  createAddressFromString ("[" +:+ h +:+ "]:" +:+ pretty p) d = mkParsed h (Some p).
Proof.
  intros Hc Hb Hp. unfold no_char in Hc. destruct (find_char ":" h) as [k|] eqn:Ek; [|done].
  set (text := "[" +:+ h +:+ "]:" +:+ pretty p).
  assert (text = String "[" h +:+ String "]" (String ":" (pretty p))) as E1 by done.
  assert (text = (String "[" h +:+ "]") +:+ String ":" (pretty p)) as E2 by (rewrite append_assoc_str; done).
  assert (indexOf "[" text 0 = 0) as Ebs by done.
  assert (indexOf "]" text 0 = 1 + Z.of_nat (String.length h)) as Ebe.
  { rewrite E1, indexOf_app; [cbn; lia|]. unfold no_char in *. cbn [find_char]. change (Ascii.eqb "[" "]") with false. by rewrite Hb. }
  assert (indexOf ":" text 0 = 1 + Z.of_nat k /\ (k < String.length h)%nat) as [Eic Hk].
  { destruct (find_char_first ":" h (String "]" (String ":" (pretty p))) k Ek) as [Ef Hk]. split; [|done]. unfold indexOf.
    change (str_drop (Z.to_nat 0) text) with (String "[" (h +:+ String "]" (String ":" (pretty p)))). cbn [find_char].
    change (Ascii.eqb "[" ":") with false. rewrite Ef. cbn. lia. }
  assert (String.length (String "[" h +:+ "]") = 2 + String.length h)%nat as El by (rewrite length_append; cbn; lia).
  assert (lastIndexOf ":" text = 2 + Z.of_nat (String.length h)) as Elc.
  { rewrite E2, lastIndexOf_app by (by apply pretty_no_colon). lia. }
  unfold createAddressFromString. rewrite Ebs, Ebe, Eic, Elc.
  replace (1 + Z.of_nat k >? -1) with true by (symmetry; rewrite Z.gtb_ltb; apply Z.ltb_lt; lia).
  replace (2 + Z.of_nat (String.length h) >? 1 + Z.of_nat k) with true by (symmetry; rewrite Z.gtb_ltb; apply Z.ltb_lt; lia).
  replace (1 + Z.of_nat (String.length h) >? 0) with true by (symmetry; rewrite Z.gtb_ltb; apply Z.ltb_lt; lia).
  replace (2 + Z.of_nat (String.length h) =? 1 + Z.of_nat (String.length h) + 1) with true by (symmetry; apply Z.eqb_eq; lia).
  cbn [andb Z.eqb]. f_equal.
  - unfold substring. replace (Z.to_nat (1 + Z.of_nat (String.length h) - (0 + 1))) with (String.length h) by lia.
    change (str_drop (Z.to_nat (0 + 1)) text) with (h +:+ "]:" +:+ pretty p). apply str_take_app.
  - replace (Z.to_nat (2 + Z.of_nat (String.length h) + 1)) with (S (String.length (String "[" h +:+ "]"))) by lia.
    rewrite E2, drop_S. by apply parseInt_pretty.
Qed.

(** A configured address is read as it is meant: [host:port] with a host that has no colon, and [[host]:port] with one
    that has, give that host and that port; a host without a port is tried at the three default ports, the first of
    which is the primary address. *)
Theorem address_parsed h p :
  0 <= p ->
  (no_char ":" h -> h <> ""%string ->
   createAddressFromString (address_toString (mkAddress h p)) (-1) = mkParsed h (Some p) /\
   getSocketAddresses h =
     mkParsedAddresses [mkParsed h (Some 5701)] [mkParsed h (Some 5702); mkParsed h (Some 5703)]) /\
  (~ no_char ":" h -> no_char "]" h -> createAddressFromString ("[" +:+ h +:+ "]:" +:+ pretty p) (-1) = mkParsed h (Some p)).
Proof.
  intros Hp. split; [|by intros; apply bracketed_host_port]. intros Hc Hne. split; [by apply host_port|].
  assert (createAddressFromString h (-1) = mkParsed h (Some (-1))) as E; [|unfold getSocketAddresses; by rewrite E].
  unfold createAddressFromString. assert (indexOf ":" h 0 = -1) as ->; [|done].
  unfold indexOf. change (str_drop (Z.to_nat 0) h) with h. by rewrite Hc.
Qed.

Lemma address_parsed_witness : createAddressFromString "[fe80::1]:5702" (-1) = mkParsed "fe80::1" (Some 5702).
Proof. exact (proj2 (address_parsed "fe80::1" 5702 ltac:(lia)) ltac:(done) eq_refl). Defined.
