(* ===== verification/ListenerService.v ===== *)
(** * Listeners

    [ListenerService] of [src/listener/ListenerService.ts], which registers a listener on every connection and keeps it
    registered as connections come and go, and [ClusterViewListenerService] of
    [src/listener/ClusterViewListenerService.ts], which keeps the listener of cluster views on one connection.

    Responses arrive in any order, and after the listener is gone. A request in flight keeps a reference to the map of
    registrations of its listener, which outlives the entry in [activeRegistrations]; a map is named here by the user
    key it was made for. Connections, correlation ids and the ids members give are numbers. *)

From S2P Require Export ConnectionManager.

(** ** ListenerService *)

Section ListenerService.

(** [ClientEventRegistration]; [removable] is false when [encodeRemoveRequest] of the codec returns null. *)
Record Registration := mkRegistration {
  serverRegistrationId : nat; correlationId : nat; subscriber : nat; removable : bool }.

Inductive Request :=
  | Register (userKey connection correlationId : nat)
  | Reregister (userKey connection correlationId : nat)
  | Remove (connection serverRegistrationId : nat).

(** [userKeyInformation] has the kind of the codec; [eventHandlers] are those of the invocation service. The last three
    fields are only written: the connections [registerListener] saw, the keys whose promise was rejected, the
    re-registrations that failed. *)
Record ListenerService := mkListeners {
  maps : gmap nat (js_map nat Registration);
  activeRegistrations : list nat;
  userKeyInformation : gmap nat bool;
  eventHandlers : gset nat;
  nextCorrelationId : nat;
  requests : list Request;
  connections : list nat;
  seen : gmap nat (list nat);
  rejected : gset nat;
  lost : list (nat * nat) }.
#[local] Abbreviation LS := ListenerService.

Definition newListenerService : LS := mkListeners ∅ [] ∅ ∅ 0 [] [] ∅ ∅ [].

Definition registrations (s : LS) (userKey : nat) : js_map nat Registration := default [] (maps s !! userKey).

Definition set_map (userKey : nat) (m : js_map nat Registration) (s : LS) : LS :=
  mkListeners (<[userKey := m]> (maps s)) (activeRegistrations s) (userKeyInformation s) (eventHandlers s)
    (nextCorrelationId s) (requests s) (connections s) (seen s) (rejected s) (lost s).
Definition set_requests (l : list Request) (s : LS) : LS :=
  mkListeners (maps s) (activeRegistrations s) (userKeyInformation s) (eventHandlers s)
    (nextCorrelationId s) l (connections s) (seen s) (rejected s) (lost s).
Definition set_connections (l : list nat) (s : LS) : LS :=
  mkListeners (maps s) (activeRegistrations s) (userKeyInformation s) (eventHandlers s)
    (nextCorrelationId s) (requests s) l (seen s) (rejected s) (lost s).
Definition set_handlers (h : gset nat) (n : nat) (s : LS) : LS :=
  mkListeners (maps s) (activeRegistrations s) (userKeyInformation s) h
    n (requests s) (connections s) (seen s) (rejected s) (lost s).

Definition removeEventHandler (id : nat) (s : LS) : LS := set_handlers (eventHandlers s ∖ {[id]}) (nextCorrelationId s) s.

(** [invokeUrgent] of an invocation with a handler: a new correlation id, under which the handler is registered. *)
Definition invoke_with_handler (mk : nat -> Request) (s : LS) : LS :=
  let id := nextCorrelationId s in
  set_requests (requests s ++ [mk id]) (set_handlers (eventHandlers s ∪ {[id]}) (S id) s).

Definition deregisterListenerOnTarget (r : Registration) (s : LS) : LS :=
  if removable r then set_requests (requests s ++ [Remove (subscriber r) (serverRegistrationId r)]) s else s.

(** The registrations of a key, one after the other. *)
Fixpoint deregister_each (userKey : nat) (l : js_map nat Registration) (s : LS) : LS :=
  match l with
  | [] => s
  | (connection, eventRegistration) :: l =>
      let s := set_map userKey (js_map_delete Nat.eqb (registrations s userKey) connection).2 s in
      let s := removeEventHandler (correlationId eventRegistration) s in
      deregister_each userKey l (deregisterListenerOnTarget eventRegistration s)
  end.

Definition deregisterListener (userKey : nat) (s : LS) : bool * LS :=
  if bool_decide (userKey ∈ activeRegistrations s) then
    let s := mkListeners (maps s) (filter (fun k => k <> userKey) (activeRegistrations s)) (delete userKey (userKeyInformation s))
               (eventHandlers s) (nextCorrelationId s) (requests s) (connections s) (seen s) (rejected s) (lost s) in
    (true, deregister_each userKey (registrations s userKey) s)
  else (false, s).

Fixpoint register_each (userKey : nat) (conns : list nat) (s : LS) : LS :=
  match conns with
  | [] => s
  | connection :: conns =>
      register_each userKey conns
        (match js_map_get Nat.eqb (registrations s userKey) connection with
         | Some _ => s
         | None => invoke_with_handler (Register userKey connection) s
         end)
  end.

(** [userKey] is the text of a new UUID. *)
Definition registerListener (userKey : nat) (hasRemoveRequest : bool) (s : LS) : LS :=
  let s := mkListeners (<[userKey := []]> (maps s)) (activeRegistrations s ++ [userKey])
             (<[userKey := hasRemoveRequest]> (userKeyInformation s)) (eventHandlers s) (nextCorrelationId s) (requests s)
             (connections s) (<[userKey := connections s]> (seen s)) (rejected s) (lost s) in
  register_each userKey (connections s) s.

(** The answers to a request of [registerListener]; an open connection is in the registry. *)
Definition registered (userKey connection id serverId : nat) (removable : bool) (s : LS) : LS :=
  set_map userKey (js_map_set Nat.eqb (registrations s userKey) connection (mkRegistration serverId id connection removable)) s.

Definition reject (userKey : nat) (s : LS) : LS :=
  mkListeners (maps s) (activeRegistrations s) (userKeyInformation s) (eventHandlers s)
    (nextCorrelationId s) (requests s) (connections s) (seen s) (rejected s ∪ {[userKey]}) (lost s).

Definition register_failed (userKey connection : nat) (s : LS) : LS :=
  if bool_decide (connection ∈ connections s) then reject userKey (deregisterListener userKey s).2 else s.

(** [reregisterListenersOnConnection], with [invokeRegistrationFromRecord]. *)
Fixpoint reregister_each (keys : list nat) (connection : nat) (s : LS) : LS :=
  match keys with
  | [] => s
  | userKey :: keys =>
      reregister_each keys connection
        (match js_map_get Nat.eqb (registrations s userKey) connection with
         | Some _ => s
         | None => invoke_with_handler (Reregister userKey connection) s
         end)
  end.

Definition onConnectionAdded (connection : nat) (s : LS) : LS := reregister_each (activeRegistrations s) connection s.

Definition reregistered (userKey connection id serverId : nat) (removable : bool) (s : LS) : LS :=
  let eventRegistration := mkRegistration serverId id connection removable in
  match userKeyInformation s !! userKey with
  | None => deregisterListenerOnTarget eventRegistration s
  | Some _ => set_map userKey (js_map_set Nat.eqb (registrations s userKey) connection eventRegistration) s
  end.

(** The failure is logged. *)
Definition reregister_failed (userKey connection : nat) (s : LS) : LS :=
  mkListeners (maps s) (activeRegistrations s) (userKeyInformation s) (eventHandlers s)
    (nextCorrelationId s) (requests s) (connections s) (seen s) (rejected s) (lost s ++ [(userKey, connection)]).

Fixpoint remove_each (keys : list nat) (connection : nat) (s : LS) : LS :=
  match keys with
  | [] => s
  | userKey :: keys =>
      remove_each keys connection
        (match js_map_get Nat.eqb (registrations s userKey) connection with
         | Some eventRegistration => removeEventHandler (correlationId eventRegistration) s
         | None => s
         end)
  end.

Definition onConnectionRemoved (connection : nat) (s : LS) : LS := remove_each (activeRegistrations s) connection s.

(** ** The event loop *)

(** The registry changes and tells its listeners in one go; a request is answered once. The application knows the key
    of a listener once its promise is resolved. A connection added is a new object. *)
Inductive step : LS -> LS -> Prop :=
  | ls_register s userKey b : maps s !! userKey = None -> step s (registerListener userKey b s)
  | ls_deregister s userKey : seen s !! userKey <> None -> (forall c id, Register userKey c id ∉ requests s) ->
      userKey ∉ rejected s -> step s (deregisterListener userKey s).2
  | ls_registered s k c id srv b l l' : requests s = l ++ Register k c id :: l' ->
      step s (registered k c id srv b (set_requests (l ++ l') s))
  | ls_register_failed s k c id l l' : requests s = l ++ Register k c id :: l' ->
      step s (register_failed k c (set_requests (l ++ l') s))
  | ls_reregistered s k c id srv b l l' : requests s = l ++ Reregister k c id :: l' ->
      step s (reregistered k c id srv b (set_requests (l ++ l') s))
  | ls_reregister_failed s k c id l l' : requests s = l ++ Reregister k c id :: l' ->
      step s (reregister_failed k c (set_requests (l ++ l') s))
  | ls_removed s c srv l l' : requests s = l ++ Remove c srv :: l' -> step s (set_requests (l ++ l') s)
  | ls_added s c : c ∉ connections s -> (forall k l, seen s !! k = Some l -> c ∉ l) ->
      step s (onConnectionAdded c (set_connections (connections s ++ [c]) s))
  | ls_closed s c : c ∈ connections s ->
      step s (onConnectionRemoved c (set_connections (filter (fun d => d <> c) (connections s)) s)).

Inductive reachable : LS -> Prop :=
  | reach_new : reachable newListenerService
  | reach_step s s' : reachable s -> step s s' -> reachable s'.

(** ** What each operation changes *)

Definition entry (s : LS) (k c : nat) : Prop := is_Some (js_map_get Nat.eqb (registrations s k) c).
Definition registering (s : LS) (k c : nat) : Prop := exists id, Register k c id ∈ requests s.
Definition reregistering (s : LS) (k c : nat) : Prop := exists id, Reregister k c id ∈ requests s.

(** [s'] differs from [s] in the requests it adds and in the handlers. *)
Record adds (new : Request -> Prop) (s s' : LS) : Prop := {
  adds_maps : maps s' = maps s;
  adds_active : activeRegistrations s' = activeRegistrations s;
  adds_info : userKeyInformation s' = userKeyInformation s;
  adds_conns : connections s' = connections s;
  adds_seen : seen s' = seen s;
  adds_rejected : rejected s' = rejected s;
  adds_lost : lost s' = lost s;
  adds_requests : exists l, requests s' = requests s ++ l /\ Forall new l }.

Lemma adds_refl new s : adds new s s.
Proof. constructor; auto. exists []. by rewrite app_nil_r. Qed.

Lemma adds_trans new s1 s2 s3 : adds new s1 s2 -> adds new s2 s3 -> adds new s1 s3.
Proof.
  intros [] []. constructor; try congruence. destruct adds_requests0 as (l & E & Hl), adds_requests1 as (l' & E' & Hl').
  exists (l ++ l'). rewrite E', E, app_assoc. split; [done | by apply Forall_app].
Qed.

Lemma adds_mono (new : Request -> Prop) s s' r : adds new s s' -> r ∈ requests s -> r ∈ requests s'.
Proof. intros [] Hr. destruct adds_requests0 as (l & -> & _). apply elem_of_app. by left. Qed.

Lemma adds_new (new : Request -> Prop) s s' r : adds new s s' -> r ∈ requests s' -> r ∈ requests s \/ new r.
Proof.
  intros [] Hr. destruct adds_requests0 as (l & E & Hl). rewrite E in Hr. apply elem_of_app in Hr as [Hr|Hr]; [by left | right].
  by eapply Forall_forall in Hl.
Qed.

Lemma invoke_adds (new : Request -> Prop) mk s : (forall id, new (mk id)) -> adds new s (invoke_with_handler mk s).
Proof. intros Hn. constructor; auto. exists [mk (nextCorrelationId s)]. split; [done | by apply Forall_singleton]. Qed.

Lemma invoke_request mk s : mk (nextCorrelationId s) ∈ requests (invoke_with_handler mk s).
Proof. apply elem_of_app. right. by apply list_elem_of_singleton. Qed.

Lemma register_each_adds k conns s :
  adds (fun r => exists c id, r = Register k c id) s (register_each k conns s) /\
  forall c, c ∈ conns -> entry s k c \/ registering (register_each k conns s) k c.
Proof.
  revert s. induction conns as [|c0 conns IH]; intros s; cbn; [split; [apply adds_refl | by intros c Hc%not_elem_of_nil]|].
  set (s1 := match js_map_get _ _ _ with Some _ => _ | None => _ end). destruct (IH s1) as [Ha Hc].
  assert (H1 : adds (fun r => exists c id, r = Register k c id) s s1).
  { unfold s1. destruct (js_map_get _ _ _); [apply adds_refl | apply invoke_adds; eauto]. }
  split; [by eapply adds_trans|]. intros c [-> |Hin]%elem_of_cons.
  - unfold entry. destruct (js_map_get Nat.eqb (registrations s k) c0) as [r|] eqn:E; [left; eauto | right].
    exists (nextCorrelationId s). eapply adds_mono; [apply Ha|]. unfold s1. apply invoke_request.
  - destruct (Hc c Hin) as [He|Hr]; [left | by right]. unfold entry, registrations in *. by rewrite (adds_maps _ _ _ H1) in He.
Qed.

Lemma reregister_each_adds keys c s :
  adds (fun r => exists k id, r = Reregister k c id) s (reregister_each keys c s) /\
  forall k, k ∈ keys -> entry s k c \/ reregistering (reregister_each keys c s) k c.
Proof.
  revert s. induction keys as [|k0 keys IH]; intros s; cbn; [split; [apply adds_refl | by intros k Hk%not_elem_of_nil]|].
  set (s1 := match js_map_get _ _ _ with Some _ => _ | None => _ end). destruct (IH s1) as [Ha Hc].
  assert (H1 : adds (fun r => exists k id, r = Reregister k c id) s s1).
  { unfold s1. destruct (js_map_get _ _ _); [apply adds_refl | apply invoke_adds; eauto]. }
  split; [by eapply adds_trans|]. intros k [-> |Hin]%elem_of_cons.
  - unfold entry. destruct (js_map_get Nat.eqb (registrations s k0) c) as [r|] eqn:E; [left; eauto | right].
    exists (nextCorrelationId s). eapply adds_mono; [apply Ha|]. unfold s1. apply invoke_request.
  - destruct (Hc k Hin) as [He|Hr]; [left | by right]. unfold entry, registrations in *. by rewrite (adds_maps _ _ _ H1) in He.
Qed.

Lemma remove_each_adds keys c s : adds (fun _ => False) s (remove_each keys c s).
Proof.
  revert s. induction keys as [|k0 keys IH]; intros s; cbn; [apply adds_refl|].
  eapply adds_trans; [|apply IH]. destruct (js_map_get _ _ _); [|apply adds_refl]. constructor; auto. exists []. by rewrite app_nil_r.
Qed.

(** The removals a map of registrations asks for. *)
Definition removals (l : js_map nat Registration) : list Request :=
  omap (fun e => if removable e.2 then Some (Remove (subscriber e.2) (serverRegistrationId e.2)) else None) l.

Definition handler_ids (l : js_map nat Registration) : gset nat := list_to_set (map (fun e => correlationId e.2) l).

Lemma deregister_each_run k l s : registrations s k = l -> is_Some (maps s !! k) ->
  deregister_each k l s =
    mkListeners (<[k := []]> (maps s)) (activeRegistrations s) (userKeyInformation s) (eventHandlers s ∖ handler_ids l)
      (nextCorrelationId s) (requests s ++ removals l) (connections s) (seen s) (rejected s) (lost s).
Proof.
  revert s. induction l as [|[c r] l IH]; intros s E Hk.
  { cbn. rewrite app_nil_r. destruct Hk as [m Hm]. unfold registrations in E. setoid_rewrite Hm in E. cbn in E. subst m.
    rewrite insert_id by done. unfold handler_ids. cbn. rewrite difference_empty_L. by destruct s. }
  cbn -[js_map_delete]. rewrite E. cbn. rewrite Nat.eqb_refl. cbn.
  set (s1 := deregisterListenerOnTarget _ _).
  assert (E1 : s1 = mkListeners (<[k := l]> (maps s)) (activeRegistrations s) (userKeyInformation s)
    (eventHandlers s ∖ {[correlationId r]}) (nextCorrelationId s)
    (requests s ++ removals [(c, r)]) (connections s) (seen s) (rejected s) (lost s)).
  { unfold s1, deregisterListenerOnTarget. unfold removals. cbn. destruct (removable r); cbn; [done|]. by rewrite app_nil_r. }
  rewrite E1, IH; cbn.
  - rewrite insert_insert_eq, <- app_assoc. f_equal; [|unfold removals; cbn; by destruct (removable r)].
    unfold handler_ids. cbn. by rewrite difference_difference_l_L.
  - unfold registrations. cbn. by rewrite lookup_insert_eq.
  - rewrite lookup_insert_eq. eauto.
Qed.

Lemma deregister_run k s : k ∈ activeRegistrations s -> is_Some (maps s !! k) ->
  deregisterListener k s =
    (true, mkListeners (<[k := []]> (maps s)) (filter (fun j => j <> k) (activeRegistrations s)) (delete k (userKeyInformation s))
      (eventHandlers s ∖ handler_ids (registrations s k)) (nextCorrelationId s) (requests s ++ removals (registrations s k))
      (connections s) (seen s) (rejected s) (lost s)).
Proof.
  intros Hk Hm. unfold deregisterListener. rewrite bool_decide_eq_true_2 by done. cbn.
  rewrite deregister_each_run; [done | done | by cbn].
Qed.

Lemma deregister_absent k s : k ∉ activeRegistrations s -> deregisterListener k s = (false, s).
Proof. intros Hk. unfold deregisterListener. by rewrite bool_decide_eq_false_2. Qed.

Lemma removals_remove l r : r ∈ removals l -> exists c srv, r = Remove c srv.
Proof. intros (e & _ & E)%list_elem_of_omap. destruct (removable e.2); [|done]. injection E as <-. eauto. Qed.

(** ** Invariant *)

Record inv (s : LS) : Prop := {
  inv_active : forall k, k ∈ activeRegistrations s <-> is_Some (userKeyInformation s !! k);
  inv_maps : forall k, is_Some (maps s !! k) <-> is_Some (seen s !! k);
  inv_known : forall k, k ∈ activeRegistrations s -> is_Some (seen s !! k);
  inv_registering : forall k c, registering s k c -> is_Some (seen s !! k);
  inv_covered : forall k c, k ∈ activeRegistrations s -> c ∈ connections s ->
    entry s k c \/ registering s k c \/ reregistering s k c \/ (k, c) ∈ lost s;
  inv_promise : forall k l c, seen s !! k = Some l -> k ∈ activeRegistrations s -> k ∉ rejected s -> c ∈ l ->
    c ∈ connections s -> entry s k c \/ registering s k c;
  inv_gone : forall k, is_Some (seen s !! k) -> k ∉ activeRegistrations s -> k ∉ rejected s ->
    registrations s k = [] /\ forall c, ~ registering s k c }.

Lemma inv_new : inv newListenerService.
Proof.
  constructor; cbn; unfold newListenerService, registering; cbn; intros; try set_solver.
  - rewrite lookup_empty. split; [by intros ?%not_elem_of_nil | by intros [? ?]].
  - by rewrite !lookup_empty.
Qed.

Lemma entry_set s k c m : entry (set_map k m s) k c <-> is_Some (js_map_get Nat.eqb m c).
Proof. unfold entry, registrations. cbn. by rewrite lookup_insert_eq. Qed.

Lemma registrations_other s k j m : j <> k -> registrations (set_map k m s) j = registrations s j.
Proof. intros Hj. unfold registrations. cbn. by rewrite lookup_insert_ne. Qed.

(** A map that gains an entry loses none. *)
Lemma entry_gain s k j c d r :
  entry s j d \/ (j = k /\ d = c) <-> entry (set_map k (js_map_set Nat.eqb (registrations s k) c r) s) j d.
Proof.
  destruct (decide (j = k)) as [->|Hj].
  - rewrite entry_set, js_map_get_set by apply Nat.eqb_eq. destruct (Nat.eqb_spec c d) as [->|Hcd].
    + split; [eauto | by right].
    + split; [by intros [He|[_ ->]] | by left].
  - unfold entry. rewrite registrations_other by done. split; [by intros [He|[-> _]] | by left].
Qed.

(** Without one of the requests. *)
Lemma answered_in (l l' : list Request) r q : q ∈ l ++ r :: l' <-> q = r \/ q ∈ l ++ l'.
Proof. set_solver. Qed.

Lemma inv_adds (new : Request -> Prop) s s' : inv s -> adds new s s' ->
  (forall k c id, new (Register k c id) -> is_Some (seen s !! k) /\ (k ∈ activeRegistrations s \/ k ∈ rejected s)) -> inv s'.
Proof.
  intros [] Ha Hnew.
  assert (Hreg : forall k c, registering s k c -> registering s' k c) by (intros k c [id Hid]; exists id; by eapply adds_mono).
  assert (Hrereg : forall k c, reregistering s k c -> reregistering s' k c) by (intros k c [id Hid]; exists id; by eapply adds_mono).
  assert (Hback : forall k c, registering s' k c -> registering s k c \/ exists id, new (Register k c id)).
  { intros k c [id Hid]. destruct (adds_new _ _ _ _ Ha Hid); [left; by exists id | right; by exists id]. }
  assert (Hent : forall k c, entry s' k c <-> entry s k c) by (intros; unfold entry, registrations; by rewrite (adds_maps _ _ _ Ha)).
  constructor; intros *; rewrite ?(adds_active _ _ _ Ha), ?(adds_info _ _ _ Ha), ?(adds_maps _ _ _ Ha), ?(adds_seen _ _ _ Ha),
    ?(adds_rejected _ _ _ Ha), ?(adds_conns _ _ _ Ha), ?(adds_lost _ _ _ Ha), ?Hent; auto.
  - intros [Hr|[id Hn]]%Hback; [eauto | by apply Hnew in Hn as [? _]].
  - intros Hk Hc. destruct (inv_covered0 k c Hk Hc) as [?|[?|[?|?]]]; auto.
  - intros Hs Hk Hr Hc Hd. destruct (inv_promise0 k l c Hs Hk Hr Hc Hd); auto.
  - intros Hs Hk Hr. destruct (inv_gone0 k Hs Hk Hr) as [E Hn]. split.
    + unfold registrations. by rewrite (adds_maps _ _ _ Ha).
    + intros c [Hc|[id Hn']]%Hback; [by eapply Hn|]. apply Hnew in Hn' as [_ [|]]; done.
Qed.

(** What is settled needs no request: the registration is in the map or given up, or the listener or the connection is
    gone. *)
Definition settled (s : LS) (r : Request) : Prop :=
  match r with
  | Register k c _ => entry s k c \/ k ∉ activeRegistrations s \/ c ∉ connections s
  | Reregister k c _ => entry s k c \/ (k, c) ∈ lost s \/ k ∉ activeRegistrations s \/ c ∉ connections s
  | Remove _ _ => True
  end.

Record answers (r : Request) (s s' : LS) : Prop := {
  ans_active : activeRegistrations s' = activeRegistrations s;
  ans_info : userKeyInformation s' = userKeyInformation s;
  ans_conns : connections s' = connections s;
  ans_seen : seen s' = seen s;
  ans_rejected : rejected s' = rejected s;
  ans_maps : forall k, is_Some (maps s' !! k) <-> is_Some (maps s !! k);
  ans_entry : forall k c, entry s k c -> entry s' k c;
  ans_lost : forall e, e ∈ lost s -> e ∈ lost s';
  ans_gone : forall k, k ∉ activeRegistrations s -> k ∉ rejected s -> registrations s k = [] -> 
    (forall c, ~ registering s k c) -> registrations s' k = [];
  ans_requests : forall q, q ∈ requests s <-> q = r \/ q ∈ requests s' }.

Lemma inv_answers r s s' : inv s -> answers r s s' -> (forall q, q ∈ requests s -> q ∈ requests s' \/ settled s' q) -> inv s'.
Proof.
  intros [] [] Hs.
  assert (Hback : forall k c, registering s' k c -> registering s k c) by (intros k c [id Hid]; exists id; apply ans_requests0; by right).
  constructor; intros *; rewrite ?ans_active0, ?ans_info0, ?ans_maps0, ?ans_seen0, ?ans_rejected0, ?ans_conns0; auto.
  - eauto.
  - intros Hk Hc. destruct (inv_covered0 k c Hk Hc) as [?|[[id Hid]|[[id Hid]|?]]]; auto.
    + destruct (Hs _ Hid) as [Hr|[Hr|[Hr|Hr]]]; [right; left; by exists id | auto | rewrite ans_active0 in Hr; done
        | rewrite ans_conns0 in Hr; done].
    + destruct (Hs _ Hid) as [Hr|[Hr|[Hr|[Hr|Hr]]]]; [do 2 right; left; by exists id | auto | auto | rewrite ans_active0 in Hr; done
        | rewrite ans_conns0 in Hr; done].
  - intros Hse Hk Hr Hc Hd. destruct (inv_promise0 k l c Hse Hk Hr Hc Hd) as [?|[id Hid]]; auto.
    destruct (Hs _ Hid) as [Hq|[Hq|[Hq|Hq]]]; [right; by exists id | auto | rewrite ans_active0 in Hq; done
      | rewrite ans_conns0 in Hq; done].
  - intros Hse Hk Hr. destruct (inv_gone0 k Hse Hk Hr) as [E Hn]. split; [by apply ans_gone0|].
    intros c Hc. by eapply Hn, Hback.
Qed.

(** A request answered whose outcome is [settled]. *)
Lemma inv_answer r l l' s s' : inv s -> requests s = l ++ r :: l' -> requests s' = l ++ l' ->
  answers r s s' -> settled s' r -> inv s'.
Proof.
  intros Hi E E' Ha Hs. eapply inv_answers; [done | done |]. intros q. rewrite E, E', answered_in. intros [-> |]; auto.
Qed.

Lemma answers_drop r l l' s : requests s = l ++ r :: l' -> answers r s (set_requests (l ++ l') s).
Proof. intros E. constructor; auto. intros q. rewrite E. apply answered_in. Qed.

Lemma answers_gain r l l' s k c reg : requests s = l ++ r :: l' -> is_Some (maps s !! k) ->
  (k ∈ activeRegistrations s \/ k ∈ rejected s \/ exists d, registering s k d) ->
  answers r s (set_map k (js_map_set Nat.eqb (registrations s k) c reg) (set_requests (l ++ l') s)).
Proof.
  intros E Hm Hk. constructor; auto.
  - intros j. cbn. destruct (decide (j = k)) as [->|Hj]; [|by rewrite lookup_insert_ne]. rewrite lookup_insert_eq. split; eauto.
  - intros j d He. apply (entry_gain (set_requests (l ++ l') s)). by left.
  - intros j Hj Hr Ej Hn. rewrite registrations_other; [done|]. intros ->. destruct Hk as [|[|[d Hd]]]; [done | done | by eapply Hn].
  - intros q. cbn. rewrite E. apply answered_in.
Qed.

Lemma inv_registered s k c id srv b l l' : inv s -> requests s = l ++ Register k c id :: l' ->
  inv (registered k c id srv b (set_requests (l ++ l') s)).
Proof.
  intros Hi E. assert (Hr : registering s k c) by (exists id; rewrite E; apply answered_in; by left).
  eapply inv_answer; [done | done | done | apply (answers_gain _ l l' s k c) |]; [done | apply Hi; by eapply inv_registering | eauto |].
  left. apply (entry_gain (set_requests (l ++ l') s)). by right.
Qed.

Lemma inv_reregister_failed s k c id l l' : inv s -> requests s = l ++ Reregister k c id :: l' ->
  inv (reregister_failed k c (set_requests (l ++ l') s)).
Proof.
  intros Hi E. eapply inv_answer; [done | done | done | |].
  - destruct (answers_drop _ _ _ _ E). constructor; auto. intros e He. cbn. apply elem_of_app. by left.
  - right. left. cbn. apply elem_of_app. right. by apply list_elem_of_singleton.
Qed.

Lemma inv_removed s c srv l l' : inv s -> requests s = l ++ Remove c srv :: l' -> inv (set_requests (l ++ l') s).
Proof. intros Hi E. by eapply inv_answer; [done | done | done | apply answers_drop |]. Qed.

Lemma inv_reregistered s k c id srv b l l' : inv s -> requests s = l ++ Reregister k c id :: l' ->
  inv (reregistered k c id srv b (set_requests (l ++ l') s)).
Proof.
  intros Hi E. unfold reregistered. cbn. destruct (userKeyInformation s !! k) eqn:Ei.
  - assert (Hk : k ∈ activeRegistrations s) by (apply Hi; eauto).
    eapply inv_answer; [done | done | done | apply (answers_gain _ l l' s k c) |]; [done | by apply (inv_maps s Hi), (inv_known s Hi) | eauto |].
    left. apply (entry_gain (set_requests (l ++ l') s)). by right.
  - assert (Hk : k ∉ activeRegistrations s) by (intros Hk; apply (inv_active s Hi) in Hk as [? Hk]; congruence).
    assert (Hd : inv (set_requests (l ++ l') s)).
    { eapply inv_answer; [done | done | done | by apply answers_drop |]. right. right. by left. }
    eapply (inv_adds (fun r => exists c srv, r = Remove c srv)); [done | | by intros ? ? ? (? & ? & ?)].
    unfold deregisterListenerOnTarget. cbn. destruct b; [|apply adds_refl].
    constructor; auto. exists [Remove c srv]. split; [done|]. apply Forall_singleton. eauto.
Qed.

(** The listener [k] is removed while the requests [L] are in flight; what it registers later is tolerated only if its
    promise was rejected. *)
Lemma inv_dereg s k L m h n rej : inv s -> k ∈ activeRegistrations s ->
  (forall r, r ∈ L -> r ∈ requests s) -> (forall r, r ∈ requests s -> r ∈ L \/ exists c id, r = Register k c id) ->
  rejected s ⊆ rej -> (forall j, j ∈ rej -> j = k \/ j ∈ rejected s) -> (k ∈ rej \/ forall c, ~ registering s k c) ->
  inv (mkListeners (<[k := []]> (maps s)) (filter (fun j => j <> k) (activeRegistrations s)) (delete k (userKeyInformation s))
        h n (L ++ removals m) (connections s) (seen s) rej (lost s)).
Proof.
  intros Hi Hk HL Hreq Hsub Hrej Hk'. pose proof (inv_known s Hi k Hk) as Hseen. destruct Hi. set (s' := mkListeners _ _ _ _ _ _ _ _ _ _).
  assert (Hact : forall j, j ∈ activeRegistrations s' <-> j <> k /\ j ∈ activeRegistrations s) by (intros; cbn; by rewrite list_elem_of_filter).
  assert (Hregs : forall j, registrations s' j = if decide (j = k) then [] else registrations s j).
  { intros j. unfold registrations, s'. cbn. case_decide as E; [rewrite E, lookup_insert_eq | rewrite lookup_insert_ne by done]; done. }
  assert (Hent : forall j c, j <> k -> entry s j c -> entry s' j c) by (intros; unfold entry; rewrite Hregs, decide_False by done; done).
  assert (Hin : forall r, r ∈ requests s -> (forall c id, r <> Register k c id) -> r ∈ requests s').
  { intros r Hr Hn. apply elem_of_app. left. destruct (Hreq r Hr) as [|(c & id & ->)]; [done|]. by destruct (Hn c id). }
  assert (Hback : forall j c, registering s' j c -> registering s j c).
  { intros j c [id Hid]. exists id. apply elem_of_app in Hid as [Hid|Hid]; [by apply HL|].
    by apply removals_remove in Hid as (? & ? & ?). }
  constructor.
  - intros j. rewrite Hact, inv_active0. cbn. destruct (decide (j = k)) as [->|Hj].
    + rewrite lookup_delete_eq. split; [by intros [? _] | by intros [? ?]].
    + rewrite lookup_delete_ne by done. tauto.
  - intros j. cbn. rewrite <- inv_maps0. destruct (decide (j = k)) as [->|Hj]; [|by rewrite lookup_insert_ne].
    rewrite lookup_insert_eq, inv_maps0. split; eauto.
  - intros j [_ Hj]%Hact. by apply inv_known0.
  - intros j c Hr. eapply inv_registering0, Hback, Hr.
  - intros j c [Hj Ha]%Hact Hc. destruct (inv_covered0 j c Ha Hc) as [?|[[id Hid]|[[id Hid]|?]]]; auto.
    + right. left. exists id. apply Hin; congruence.
    + do 2 right. left. exists id. apply Hin; congruence.
  - intros j l c Hl [Hj Ha]%Hact Hr Hc Hd. assert (Hr' : j ∉ rejected s) by set_solver.
    destruct (inv_promise0 j l c Hl Ha Hr' Hc Hd) as [?|[id Hid]]; auto. right. exists id. apply Hin; congruence.
  - intros j Hs Ha Hr. rewrite Hregs. case_decide as E.
    + subst j. destruct Hk' as [|Hn]; [done|]. split; [done|]. intros c Hc. by eapply Hn, Hback.
    + destruct (inv_gone0 j Hs) as [Er Hn]; [by intros Hj; apply Ha, Hact | set_solver |]. split; [done|].
      intros c Hc. by eapply Hn, Hback.
Qed.

Lemma inv_deregister s k : inv s -> (forall c, ~ registering s k c) -> inv (deregisterListener k s).2.
Proof.
  intros Hi Hn. destruct (decide (k ∈ activeRegistrations s)) as [Hk|Hk]; [|by rewrite deregister_absent].
  rewrite deregister_run; [|done | by apply (inv_maps s Hi), (inv_known s Hi)]. cbn. apply inv_dereg; auto.
Qed.

Lemma inv_reject s k : inv s -> k ∉ activeRegistrations s -> inv (reject k s).
Proof.
  intros [] Hk. constructor; auto; cbn; intros j *.
  - intros Hs Ha Hr. apply inv_promise0; set_solver.
  - intros Hs Ha Hr. apply inv_gone0; set_solver.
Qed.

Lemma inv_register_failed s k c id l l' : inv s -> requests s = l ++ Register k c id :: l' ->
  inv (register_failed k c (set_requests (l ++ l') s)).
Proof.
  intros Hi E. unfold register_failed. cbn. set (s0 := set_requests _ _).
  assert (Hd : k ∉ activeRegistrations s \/ c ∉ connections s -> inv s0).
  { intros Ha. eapply inv_answer; [done | done | done | by apply answers_drop |]. right. done. }
  case_bool_decide as Hc; [|auto].
  destruct (decide (k ∈ activeRegistrations s)) as [Hk|Hk]; [|rewrite deregister_absent by done; apply inv_reject; auto].
  rewrite deregister_run; [|done | by apply (inv_maps s Hi), (inv_known s Hi)].
  unfold reject. cbn. apply (inv_dereg s k (l ++ l')); auto; try set_solver.
  - intros r Hr. rewrite E. apply answered_in. by right.
  - intros r. rewrite E, answered_in. intros [-> |]; eauto.
Qed.

Lemma inv_register s k b : inv s -> maps s !! k = None -> inv (registerListener k b s).
Proof.
  intros Hi Hk. assert (Hs : seen s !! k = None) by (apply eq_None_not_Some; rewrite <- (inv_maps s Hi), Hk; by intros [? ?]).
  assert (Hka : k ∉ activeRegistrations s) by (intros [? E]%(inv_known s Hi); congruence).
  unfold registerListener. set (s1 := mkListeners _ _ _ _ _ _ _ _ _ _). cbn [connections s1].
  destruct (register_each_adds k (connections s) s1) as [[] Hc]. set (s2 := register_each _ _ _) in *. cbn in *.
  assert (Hregs : forall j, registrations s2 j = if decide (j = k) then [] else registrations s j).
  { intros j. unfold registrations. rewrite adds_maps0. cbn.
    case_decide as E; [rewrite E, lookup_insert_eq | rewrite lookup_insert_ne by done]; done. }
  assert (Hent : forall j c, j <> k -> entry s j c -> entry s2 j c) by (intros; unfold entry; rewrite Hregs, decide_False by done; done).
  assert (Hin : forall r, r ∈ requests s -> r ∈ requests s2) by (destruct adds_requests0 as (l & -> & _); set_solver).
  assert (Hreg : forall j c, registering s j c -> registering s2 j c) by (intros j c [id Hid]; exists id; auto).
  assert (Hrereg : forall j c, reregistering s j c -> reregistering s2 j c) by (intros j c [id Hid]; exists id; auto).
  assert (Hback : forall j c, registering s2 j c -> j = k \/ registering s j c).
  { intros j c [id Hid]. destruct adds_requests0 as (l & E & Hl). rewrite E in Hid. apply elem_of_app in Hid as [Hid|Hid].
    - right. by exists id.
    - left. rewrite Forall_forall in Hl. by destruct (Hl _ Hid) as (? & ? & [= -> _ _]). }
  assert (Hkc : forall c, c ∈ connections s -> registering s2 k c).
  { intros c [[? E]|Hr]%Hc; [|done]. unfold registrations in E. cbn in E. by rewrite lookup_insert_eq in E. }
  assert (Hact : forall j, j ∈ activeRegistrations s2 <-> j = k \/ j ∈ activeRegistrations s).
  { intros j. rewrite adds_active0, elem_of_app, list_elem_of_singleton. tauto. }
  assert (Hsome : forall {A} (m : gmap nat A) j x, is_Some (<[k := x]> m !! j) <-> j = k \/ is_Some (m !! j)).
  { intros A m j x. rewrite lookup_insert_is_Some'. naive_solver. }
  destruct Hi. constructor.
  - intros j. by rewrite Hact, adds_info0, Hsome, inv_active0.
  - intros j. by rewrite adds_maps0, adds_seen0, !Hsome, inv_maps0.
  - intros j. rewrite Hact, adds_seen0, Hsome. naive_solver.
  - intros j c. rewrite adds_seen0, Hsome. intros [?|?]%Hback; eauto.
  - intros j c. rewrite Hact, adds_conns0, adds_lost0. destruct (decide (j = k)) as [->|Hj]; [auto|].
    intros [?|Ha] Hcn; [done|]. destruct (inv_covered0 j c Ha Hcn) as [?|[?|[?|?]]]; auto.
  - intros j l c. rewrite Hact, adds_conns0, adds_seen0, adds_rejected0. destruct (decide (j = k)) as [->|Hj]; [auto|].
    rewrite lookup_insert_ne by done. intros E [?|Ha] Hr Hl Hcn; [done|]. destruct (inv_promise0 j l c E Ha Hr Hl Hcn); auto.
  - intros j. rewrite Hact, adds_seen0, Hsome, adds_rejected0. intros Hse Hn Hr.
    destruct (inv_gone0 j) as [E Hno]; [naive_solver | tauto | done |]. rewrite Hregs, decide_False by tauto.
    split; [done|]. intros d [?|?]%Hback; [tauto | by eapply Hno].
Qed.

Lemma inv_added s c : inv s -> (forall k l, seen s !! k = Some l -> c ∉ l) ->
  inv (onConnectionAdded c (set_connections (connections s ++ [c]) s)).
Proof.
  intros [] Hf. unfold onConnectionAdded. cbn. set (s1 := set_connections _ _).
  destruct (reregister_each_adds (activeRegistrations s) c s1) as [Ha Hc]. 
  assert (Hreg : forall j d, registering s j d -> registering (reregister_each (activeRegistrations s) c s1) j d)
    by (intros j d [id Hid]; exists id; by eapply adds_mono).
  assert (Hrereg : forall j d, reregistering s j d -> reregistering (reregister_each (activeRegistrations s) c s1) j d)
    by (intros j d [id Hid]; exists id; by eapply adds_mono).
  assert (Hback : forall j d, registering (reregister_each (activeRegistrations s) c s1) j d -> registering s j d).
  { intros j d [id Hid]. destruct (adds_new _ _ _ _ Ha Hid) as [|(? & ? & [=])]. by exists id. }
  destruct Ha. set (s2 := reregister_each _ _ _) in *. cbn in *.
  assert (Hent : forall j d, entry s2 j d <-> entry s j d) by (intros; unfold entry, registrations; by rewrite adds_maps0).
  constructor; intros j *; rewrite ?adds_active0, ?adds_info0, ?adds_maps0, ?adds_seen0, ?adds_rejected0, ?adds_conns0, ?adds_lost0,
    ?elem_of_app, ?list_elem_of_singleton, ?Hent; auto.
  - eauto.
  - intros Hj [Hd| ->].
    + destruct (inv_covered0 j c0 Hj Hd) as [?|[?|[?|?]]]; auto.
    + destruct (Hc j Hj) as [He|Hr]; auto.
  - intros E Hj Hr Hl [Hd| ->]; [|by apply Hf in E]. destruct (inv_promise0 j l c0 E Hj Hr Hl Hd); auto.
  - intros Hs Hj Hr. destruct (inv_gone0 j Hs Hj Hr) as [E Hn]. split; [unfold registrations; by rewrite adds_maps0|].
    intros d Hd. by eapply Hn, Hback.
Qed.

Lemma inv_closed s c : inv s -> inv (onConnectionRemoved c (set_connections (filter (fun d => d <> c) (connections s)) s)).
Proof.
  intros Hi. unfold onConnectionRemoved. eapply inv_adds; [|apply remove_each_adds | done].
  destruct Hi. constructor; auto; cbn; intros j *; rewrite list_elem_of_filter.
  - intros Hj [_ Hd]. by apply inv_covered0.
  - intros E Hj Hr Hl [_ Hd]. by eapply inv_promise0.
Qed.

Lemma listener_step s s' : inv s -> step s s' -> inv s'.
Proof.
  intros Hi Hst. destruct Hst.
  - by apply inv_register.
  - apply inv_deregister; [done|]. intros c [id Hid]. naive_solver.
  - by eapply inv_registered.
  - by eapply inv_register_failed.
  - by eapply inv_reregistered.
  - by eapply inv_reregister_failed.
  - by eapply inv_removed.
  - by apply inv_added.
  - by apply inv_closed.
Qed.

Definition gone (s : LS) (k : nat) : Prop := is_Some (seen s !! k) /\ k ∉ activeRegistrations s /\ k ∉ rejected s.

Lemma gone_adds (new : Request -> Prop) s s' k : adds new s s' -> gone s k -> gone s' k.
Proof. intros [] Hg. unfold gone. by rewrite adds_seen0, adds_active0, adds_rejected0. Qed.

Lemma gone_deregister s j k : inv s -> gone s k -> gone (deregisterListener j s).2 k.
Proof.
  intros Hi Hg. destruct (decide (j ∈ activeRegistrations s)) as [Hj|Hj]; [|by rewrite deregister_absent].
  rewrite deregister_run by (try done; by apply (inv_maps s Hi), (inv_known s Hi)).
  destruct Hg as (Hs & Ha & Hr). split_and!; cbn; [done | | done]. rewrite list_elem_of_filter. tauto.
Qed.

Lemma gone_step s s' k : inv s -> step s s' -> gone s k -> gone s' k.
Proof.
  intros Hi Hst Hg. destruct Hst as [s j b Hj| |s j c id srv b l l' E|s j c id l l' E|s j c id srv b l l' E| | | | ].
  - eapply gone_adds; [apply register_each_adds|]. assert (Hjk : k <> j).
    { intros ->. destruct Hg as [Hs _]. rewrite <- (inv_maps s Hi), Hj in Hs. by destruct Hs. }
    destruct Hg as (Hs & Ha & Hr). split_and!; cbn; [by rewrite lookup_insert_ne | set_solver | done].
  - by apply gone_deregister.
  - done.
  - assert (Hjk : k <> j).
    { intros ->. destruct Hg as (Hs & Ha & Hr). destruct (inv_gone s Hi j Hs Ha Hr) as [_ Hn]. apply (Hn c). exists id.
      rewrite E. apply answered_in. by left. }
    unfold register_failed. case_bool_decide; [|done]. set (s0 := set_requests _ _).
    assert (Hd : gone (deregisterListener j s0).2 k).
    { unfold deregisterListener. case_bool_decide as Hja; [|done]. cbn in Hja. cbn -[deregister_each].
      rewrite deregister_each_run by (try done; cbn; by apply (inv_maps s Hi), (inv_known s Hi)).
      destruct Hg as (Hs & Ha & Hr). split_and!; cbn; [done | | done]. rewrite list_elem_of_filter. tauto. }
    destruct Hd as (Hs & Ha & Hr). split_and!; cbn; [done | done | set_solver].
  - unfold reregistered. cbn. destruct (userKeyInformation s !! j); [done|]. unfold deregisterListenerOnTarget. by destruct (removable _).
  - done.
  - done.
  - by eapply gone_adds; [apply reregister_each_adds|].
  - by eapply gone_adds; [apply remove_each_adds|].
Qed.

Lemma reachable_inv s : reachable s -> inv s.
Proof. induction 1; [apply inv_new | by eapply listener_step]. Qed.

(** C35: a listener is on every connection. Whatever connections come and go and in whatever order the members answer,
    for each listener and each open connection the listener is registered there, or a request to register it there is in
    flight, or the re-registration failed and was logged. When the promise of [registerListener] is resolved, the
    listener is registered on every connection of that moment that is still open. *)
Theorem listener_on_every_connection (s : LS) (userKey : nat) :
  reachable s -> userKey ∈ activeRegistrations s ->
  (forall c, c ∈ connections s ->
     entry s userKey c \/ registering s userKey c \/ reregistering s userKey c \/ (userKey, c) ∈ lost s) /\
  (userKey ∉ rejected s -> (forall c, ~ registering s userKey c) ->
     forall l c, seen s !! userKey = Some l -> c ∈ l -> c ∈ connections s -> entry s userKey c).
Proof.
  intros Hr Hk. apply reachable_inv in Hr. split.
  - intros c Hc. by apply (inv_covered s Hr).
  - intros Hj Hn l c E Hl Hc. destruct (inv_promise s Hr userKey l c E Hk Hj Hl Hc); [done | by apply Hn in H].
Qed.

(** [deregisterListener] undoes a registration. It returns true for a listener that is registered and false for one
    that is not; it removes the handler of each of its registrations and asks each member that has one to remove it; and
    whatever happens afterwards, the listener removed has no registration, now or later. *)
Theorem deregistered_cleanly (s : LS) (userKey : nat) :
  reachable s -> userKey ∉ rejected s -> (forall c, ~ registering s userKey c) ->
  let '(found, s') := deregisterListener userKey s in
  (found = true <-> userKey ∈ activeRegistrations s) /\
  (forall c r, (c, r) ∈ registrations s userKey -> correlationId r ∉ eventHandlers s' /\
     (removable r = true -> Remove (subscriber r) (serverRegistrationId r) ∈ requests s')) /\
  (forall j, j <> userKey -> registrations s' j = registrations s j) /\
  (is_Some (seen s !! userKey) -> forall s'', rtc step s' s'' -> registrations s'' userKey = []).
Proof.
  intros Hr Hj Hn. pose proof (reachable_inv s Hr) as Hi. pose proof (inv_deregister s userKey Hi Hn) as Hi'.
  assert (Hlater : is_Some (seen s !! userKey) -> forall s'', rtc step (deregisterListener userKey s).2 s'' ->
    registrations s'' userKey = []).
  { intros Hs s'' Hst. assert (Hg : gone (deregisterListener userKey s).2 userKey).
    { destruct (decide (userKey ∈ activeRegistrations s)); [|by rewrite deregister_absent].
      rewrite deregister_run by (try done; by apply (inv_maps s Hi), (inv_known s Hi)). split_and!; cbn; [done | | done].
      rewrite list_elem_of_filter. tauto. }
    induction Hst as [x|x y z Hxy _ IH]; [by apply (inv_gone _ Hi'); apply Hg|]. apply IH; [by eapply listener_step | by eapply gone_step]. }
  destruct (decide (userKey ∈ activeRegistrations s)) as [Hk|Hk].
  - rewrite deregister_run in * by (try done; by apply (inv_maps s Hi), (inv_known s Hi)). cbn in *. split_and!; [done | | | done].
    + intros c r Hin. split.
      * intros [_ Hn']%elem_of_difference. apply Hn'. apply elem_of_list_to_set, list_elem_of_fmap. by exists (c, r).
      * intros Hre. apply elem_of_app. right. apply list_elem_of_omap. exists (c, r). cbn. by rewrite Hre.
    + intros j Hne. unfold registrations. cbn. by rewrite lookup_insert_ne.
  - rewrite deregister_absent in * by done. split_and!; [done | | done | done].
    intros c r Hin. destruct (decide (is_Some (seen s !! userKey))) as [Hs|Hs].
    + destruct (inv_gone s Hi userKey Hs Hk Hj) as [E _]. rewrite E in Hin. by apply not_elem_of_nil in Hin.
    + rewrite <- (inv_maps s Hi) in Hs. unfold registrations in Hin. destruct (maps s !! userKey); [by destruct Hs; eauto|].
      by apply not_elem_of_nil in Hin.
Qed.
End ListenerService.

(** ** Runs *)

#[local] Open Scope nat_scope.

Module ListenerRun.

(** Two connections, a listener registered on both; the first member refuses. *)
Definition both_open : ListenerService :=
  onConnectionAdded 2 (set_connections [1; 2] (onConnectionAdded 1 (set_connections [1] newListenerService))).
Definition asked : ListenerService := registerListener 7 true both_open.
Definition refused : ListenerService := register_failed 7 1 (set_requests [Register 7 2 1] asked).
Definition orphaned : ListenerService := registered 7 2 1 50 true (set_requests [] refused).
Definition accepted : ListenerService :=
  registered 7 2 1 50 true (set_requests [] (registered 7 1 0 40 true (set_requests [Register 7 2 1] asked))).

Lemma asked_reachable : reachable asked.
Proof.
  assert (H1 : reachable (onConnectionAdded 1 (set_connections [1] newListenerService))).
  { eapply reach_step; [apply reach_new|]. apply (ls_added newListenerService 1); [by apply not_elem_of_nil | done]. }
  eapply reach_step; [eapply reach_step; [exact H1|]|].
  - apply (ls_added _ 2); [vm_compute; set_solver | done].
  - by apply ls_register.
Qed.

Lemma refused_reachable : reachable refused.
Proof. eapply reach_step; [apply asked_reachable|]. by apply (ls_register_failed asked 7 1 0 [] [Register 7 2 1]). Qed.

Lemma accepted_reachable : reachable accepted.
Proof.
  eapply reach_step; [eapply reach_step; [apply asked_reachable|]|].
  - by apply (ls_registered asked 7 1 0 40 true [] [Register 7 2 1]).
  - by apply (ls_registered (registered 7 1 0 40 true (set_requests [Register 7 2 1] asked)) 7 2 1 50 true [] []).
Qed.

(** When one member refuses a listener, the registration another member makes afterwards stays: the application got an
    error and no key, the listener is not active, and yet its handler and its registration on the member remain and no
    request to remove them is sent. *)
Lemma orphan_registration :
  reachable orphaned /\ 7 ∈ rejected orphaned /\ 7 ∉ activeRegistrations orphaned /\ requests orphaned = [] /\
  exists r, js_map_get Nat.eqb (registrations orphaned 7) 2 = Some r /\ correlationId r ∈ eventHandlers orphaned.
Proof.
  split; [eapply reach_step; [apply refused_reachable|]; by apply (ls_registered refused 7 2 1 50 true [] [])|].
  split_and!; [set_solver | by apply (bool_decide_unpack _); vm_compute | done |].
  eexists. split; [reflexivity|]. by apply (bool_decide_unpack _); vm_compute.
Qed.

(** A connection that closes keeps its entry. *)
Lemma closed_connection_kept :
  let s := onConnectionRemoved 1 (set_connections [2] accepted) in
  reachable s /\ connections s = [2] /\ is_Some (js_map_get Nat.eqb (registrations s 7) 1).
Proof.
  split; [|split; [done | by eexists]]. eapply reach_step; [apply accepted_reachable|].
  apply (ls_closed accepted 1). vm_compute. set_solver.
Qed.
End ListenerRun.

Lemma listener_on_every_connection_witness : entry ListenerRun.accepted 7 1 /\ entry ListenerRun.accepted 7 2.
Proof.
  destruct (listener_on_every_connection ListenerRun.accepted 7) as [_ H].
  - apply ListenerRun.accepted_reachable.
  - by apply (bool_decide_unpack _); vm_compute.
  - assert (Hn : 7 ∉ rejected ListenerRun.accepted) by (by apply (bool_decide_unpack _); vm_compute).
    assert (Hq : forall c, ~ registering ListenerRun.accepted 7 c) by (by intros d [id Hid%not_elem_of_nil]).
    split; apply (H Hn Hq [1; 2]); try done; vm_compute; set_solver.
Defined.

Lemma deregistered_cleanly_witness :
  let s := (deregisterListener 7 ListenerRun.accepted).2 in
  0 ∉ eventHandlers s /\ Remove 1 40 ∈ requests s /\ Remove 2 50 ∈ requests s /\ registrations s 7 = [].
Proof.
  pose proof (deregistered_cleanly ListenerRun.accepted 7 ListenerRun.accepted_reachable) as H.
  cbn zeta. destruct (deregisterListener 7 ListenerRun.accepted) as [found s'] eqn:E.
  destruct H as (_ & Hr & _ & Hl); [by apply (bool_decide_unpack _); vm_compute | by intros d [id Hid%not_elem_of_nil] |].
  destruct (Hr 1 (mkRegistration 40 0 1 true)) as [H1 H2]; [vm_compute; set_solver|].
  destruct (Hr 2 (mkRegistration 50 1 2 true)) as [H3 H4]; [vm_compute; set_solver|].
  split_and!; [exact H1 | by apply H2 | by apply H4 | apply Hl; [by eexists | apply rtc_refl]].
Defined.

(** ** ClusterViewListenerService *)

Module ClusterView.
Section ClusterViewListenerService.
Context {L : Type} `{LongLaws L} {B : Type} `{LoadBalancer L B}.

(** The connections that have the request of a registration in flight, and those where it was answered: an event of such
    a connection goes to the cluster service and to the partition service. *)
Record ClusterViewListenerService := mkView {
  listenerAddedConnection : option nat;
  registering : list nat; registered : gset nat;
  clusterService : ClusterService.ClusterService L;
  connectionRegistry : ConnectionRegistryImpl B }.
#[local] Abbreviation VS := ClusterViewListenerService.

Definition tryRegister (connection : nat) (s : VS) : VS :=
  match listenerAddedConnection s with
  | Some _ => s
  | None =>
      mkView (Some connection) (registering s ++ [connection]) (registered s)
        (clearMemberListVersion (clusterService s)) (connectionRegistry s)
  end.

(** [getMember] and [rnd] are what the registry asks of the cluster service and of the random numbers. *)
Definition tryRegisterToRandomConnection (getMember : string -> option (MemberImpl L)) (rnd : nat -> nat)
    (oldConnection : nat) (s : VS) : VS :=
  if bool_decide (listenerAddedConnection s = Some oldConnection) then
    let '(newConnection, r) := getRandomConnection getMember rnd false (connectionRegistry s) in
    let s := mkView None (registering s) (registered s) (clusterService s) r in
    match newConnection with
    | Some newConnection => tryRegister newConnection s
    | None => s
    end
  else s.

Definition connectionAdded (connection : nat) (s : VS) : VS := tryRegister connection s.

Definition connectionRemoved (getMember : string -> option (MemberImpl L)) (rnd : nat -> nat) (connection : nat) (s : VS) : VS :=
  tryRegisterToRandomConnection getMember rnd connection s.

Definition with_registry (s : VS) (r : ConnectionRegistryImpl B) : VS :=
  mkView (listenerAddedConnection s) (registering s) (registered s) (clusterService s) r.

(** The event loop: connections come and go, requests are answered or fail, and the cluster service and the balancer
    change on their own. *)
Inductive step : VS -> VS -> Prop :=
  | vs_added s key c : js_map_get String.eqb (activeConnections (connectionRegistry s)) key = None ->
      let r := connectionRegistry s in
      step s (connectionAdded c (with_registry s (with_connections r (js_map_set String.eqb (activeConnections r) key c))))
  | vs_removed s uuid c getMember rnd : getConnection (L := L) (connectionRegistry s) uuid = Some c ->
      step s (connectionRemoved getMember rnd c (with_registry s (deleteConnection (connectionRegistry s) uuid)))
  | vs_answered s c l l' : registering s = l ++ c :: l' ->
      step s (mkView (listenerAddedConnection s) (l ++ l') (registered s ∪ {[c]}) (clusterService s) (connectionRegistry s))
  | vs_failed s c l l' getMember rnd : registering s = l ++ c :: l' ->
      step s (tryRegisterToRandomConnection getMember rnd c
        (mkView (listenerAddedConnection s) (l ++ l') (registered s) (clusterService s) (connectionRegistry s)))
  | vs_balancer s lb : step s (with_registry s (with_balancer (connectionRegistry s) lb))
  | vs_cluster s cs : step s (mkView (listenerAddedConnection s) (registering s) (registered s) cs (connectionRegistry s)).

Definition init (cs : ClusterService.ClusterService L) (r : ConnectionRegistryImpl B) : VS := mkView None [] ∅ cs r.

Inductive reachable (cs : ClusterService.ClusterService L) (r : ConnectionRegistryImpl B) : VS -> Prop :=
  | reach_init : activeConnections r = [] -> reachable cs r (init cs r)
  | reach_next s s' : reachable cs r s -> step s s' -> reachable cs r s'.

(** The listener is on one of the connections, or there is none. *)
Record view_inv (s : VS) : Prop := {
  view_wf : js_map_wf String.eqb (activeConnections (connectionRegistry s));
  view_on : match listenerAddedConnection s with
            | Some c => c ∈ getConnections (connectionRegistry s) /\ (c ∈ registering s \/ c ∈ registered s)
            | None => activeConnections (connectionRegistry s) = []
            end }.

Lemma random_none getMember rnd (r r' : ConnectionRegistryImpl B) :
  getRandomConnection (L := L) getMember rnd false r = (None, r') -> activeConnections r = [].
Proof.
  intros E. destruct (random_connection_cases _ _ _ _ _ _ E) as [_ [(c & m & lb & [=] & _)|Ec]].
  destruct (activeConnections r) as [|[key c] es]; [done|]. symmetry in Ec.
  by destruct (first_connection_none _ _ _ Ec key c ltac:(by left)) as [? _].
Qed.

Lemma getConnections_random getMember rnd (r r' : ConnectionRegistryImpl B) o :
  getRandomConnection (L := L) getMember rnd false r = (o, r') -> activeConnections r' = activeConnections r.
Proof. intros E. by destruct (random_connection_cases _ _ _ _ _ _ E) as [? _]. Qed.

(** Another connection takes over. *)
Lemma inv_moved getMember rnd c s : js_map_wf String.eqb (activeConnections (connectionRegistry s)) ->
  (listenerAddedConnection s <> Some c -> view_inv s) -> view_inv (tryRegisterToRandomConnection getMember rnd c s).
Proof.
  intros Hwf Hi. unfold tryRegisterToRandomConnection. case_bool_decide as Ec; [|auto].
  destruct (getRandomConnection _ _ _ _) as [[c'|] r] eqn:E; cbn; constructor; cbn; rewrite ?(getConnections_random _ _ _ _ _ E); try done.
  - pose proof (random_connection_active _ _ _ _ _ _ c' E eq_refl) as Hc. unfold getConnections in *.
    rewrite (getConnections_random _ _ _ _ _ E). split; [done|]. left. apply elem_of_app. right. by apply list_elem_of_singleton.
  - by apply random_none in E.
Qed.

Lemma view_step s s' : view_inv s -> step s s' -> view_inv s'.
Proof.
  intros [Hwf Hon] Hst. destruct Hst as [s key c Hk r|s u c gm rnd Hu|s c l l' E|s c l l' gm rnd E|s lb|s cs].
  - unfold connectionAdded, tryRegister. cbn.
    assert (Hc : forall d, d = c \/ d ∈ map snd (activeConnections r) -> d ∈ map snd (js_map_set String.eqb (activeConnections r) key c)).
    { intros d Hd. apply list_elem_of_fmap. destruct Hd as [-> |(e & -> & He)%list_elem_of_fmap].
      - exists (key, c). split; [done|]. apply (js_map_get_Some _ String.eqb_eq). rewrite js_map_get_set by apply String.eqb_eq.
        by rewrite String.eqb_refl.
      - exists e. split; [done|]. destruct e as [k d]. apply (js_map_get_Some _ String.eqb_eq).
        rewrite js_map_get_set by apply String.eqb_eq. pose proof (js_map_get_elem _ String.eqb_eq _ _ _ Hwf He) as Eg.
        destruct (String.eqb_spec key k) as [->|]; [|done]. rewrite Hk in Eg. discriminate Eg. }
    assert (Hwf' : js_map_wf String.eqb (js_map_set String.eqb (activeConnections r) key c)) by (by apply js_map_set_wf).
    destruct (listenerAddedConnection s) as [d|] eqn:Ed; constructor; cbn; rewrite ?Ed; unfold getConnections in *; cbn.
    + done.
    + destruct Hon as [Hd Ho]. split; [apply Hc; by right | done].
    + done.
    + split; [apply Hc; by left | left; apply elem_of_app; right; by apply list_elem_of_singleton].
  - unfold connectionRemoved. apply inv_moved; [by apply js_map_delete_wf|]. cbn. intros Hne. constructor; [by apply js_map_delete_wf|].
    cbn. destruct (listenerAddedConnection s) as [d|].
    + destruct Hon as [((k, d') & -> & Hd)%list_elem_of_fmap Ho]. split; [|done]. cbn in *. apply list_elem_of_fmap. exists (k, d').
      split; [done|]. apply (js_map_get_Some _ String.eqb_eq). cbn. rewrite js_map_get_delete by (done || apply String.eqb_eq).
      pose proof (js_map_get_elem _ String.eqb_eq _ _ _ Hwf Hd) as Eg.
      unfold getConnection in Hu. destruct (String.eqb_spec (UUID_toString u) k) as [<-|]; [|done]. congruence.
    + unfold getConnection in Hu. by rewrite Hon in Hu.
  - constructor; [done|]. cbn. destruct (listenerAddedConnection s) as [d|]; [|done]. destruct Hon as [Hd Ho]. split; [done|].
    rewrite E in Ho. set_solver.
  - apply inv_moved; [done|]. cbn. intros Hne. constructor; [done|]. cbn. destruct (listenerAddedConnection s) as [d|]; [|done].
    destruct Hon as [Hd Ho]. split; [done|]. rewrite E in Ho. assert (d <> c) by congruence. set_solver.
  - by constructor.
  - by constructor.
Qed.

(** Cluster views keep coming. However connections come and go and requests fail, whenever some connection is open
    the listener of cluster views is registered on an open connection or is being registered on one. *)
Theorem view_listener_kept cs r s : reachable cs r s -> getConnections (connectionRegistry s) <> [] ->
  exists c, listenerAddedConnection s = Some c /\ c ∈ getConnections (connectionRegistry s) /\ (c ∈ registering s \/ c ∈ registered s).
Proof.
  intros Hr Hne. assert (Hi : view_inv s).
  { clear Hne. induction Hr as [E|]; [constructor; cbn; by rewrite E | by eapply view_step]. }
  destruct Hi as [_ Hon]. destruct (listenerAddedConnection s) as [c|]; [eauto|].
  unfold getConnections in Hne. by rewrite Hon in Hne.
Qed.
End ClusterViewListenerService.
End ClusterView.

Lemma view_listener_kept_witness :
  let s0 := ClusterView.init (L := Int64.t) (B := RandomLB Int64.t) newClusterService
              (newConnectionRegistry true ON true (mkRandomLB newBalancer)) in
  let r := ClusterView.connectionRegistry s0 in
  let s := ClusterView.connectionAdded 3 (ClusterView.with_registry s0 (with_connections r [("a"%string, 3)])) in
  exists c, ClusterView.listenerAddedConnection s = Some c /\ c = 3.
Proof.
  intros s0 r s. edestruct (ClusterView.view_listener_kept newClusterService r s) as (c & E & _ & _).
  - eapply ClusterView.reach_next; [by apply ClusterView.reach_init|]. by apply (ClusterView.vs_added s0 "a" 3).
  - done.
  - exists c. split; [exact E|]. by injection E as <-.
Defined.
