(* ===== verification/Counters.v ===== *)
(** * Counters and id generators

    [VectorClock] and [PNCounterProxy] of [src/proxy/VectorClock.ts] and [src/proxy/PNCounterProxy.ts], and [Batch] and
    [AutoBatcher] of [src/proxy/flakeid/AutoBatcher.ts], the core of the Flake id generator.

    Operations on a counter run at the same time and share its fields: each waits for promises in between, and the
    answers, the callbacks and the changes of the list of members come in any order. The keys of a vector clock are the UUID objects a
    response was decoded to: a [Map] finds an object by identity, so a key is an object with its identity. *)

From S2P Require Export ClusterService.
#[local] Open Scope Z_scope.

(** ** Vector clocks *)

Section VectorClock.
Context {L : Type} `{LongLib L}.

(** A UUID object. *)
Record Key := mkKey { identity : nat; key_uuid : UUID L }.
Definition same_key (a b : Key) : bool := (identity a =? identity b)%nat.

Definition VectorClock : Type := js_map Key L.

Definition newVectorClock : VectorClock := [].

Definition setReplicaTimestamp (replicaId : Key) (timestamp : L) (c : VectorClock) : VectorClock :=
  js_map_set same_key c replicaId timestamp.

(** The callback of [forEach] returns: the loop goes on. *)
Definition isAfter (this other : VectorClock) : bool :=
  let atLeastOneBigger :=
    foldl (fun (bigger : bool) e =>
      match js_map_get same_key this e.1 with
      | None => bigger
      | Some thisTimestamp =>
          if long_ltb thisTimestamp e.2 then bigger
          else if long_ltb e.2 thisTimestamp then true else bigger
      end) false other in
  atLeastOneBigger || (length other <? length this)%nat.

Definition entrySet (c : VectorClock) : list (Key * L) := map (fun e => (e.1, e.2)) c.

Definition toVectorClock (timestamps : list (Key * L)) : VectorClock :=
  foldl (fun c e => setReplicaTimestamp e.1 e.2 c) newVectorClock timestamps.
End VectorClock.
Arguments Key : clear implicits.
Arguments VectorClock : clear implicits.

(** ** PNCounterProxy *)

Section PNCounter.
Context {L : Type} `{LongLib L}.
#[local] Abbreviation Member := (MemberImpl L).

Record PNCounterProxy := mkCounter {
  lastObservedVectorClock : VectorClock L; maximumReplicaCount : Z; currentTargetReplicaAddress : option Member }.
#[local] Abbreviation PN := PNCounterProxy.

Definition newPNCounterProxy : PN := mkCounter newVectorClock 0 None.

Definition pn_reset (p : PN) : PN := mkCounter newVectorClock (maximumReplicaCount p) (currentTargetReplicaAddress p).

(** [equals] of [MemberImpl]. *)
Definition member_equals (this other : Member) : bool :=
  bool_decide (host (m_address this) = host (m_address other)) && (port (m_address this) =? port (m_address other)) &&
  UUID_equals (m_uuid this) (Some (m_uuid other)).

Definition excluded (m : Member) (excludedAddresses : list Member) : bool := existsb (member_equals m) excludedAddresses.

Definition updateObservedReplicaTimestamps (observedTimestamps : list (Key L * L)) (p : PN) : PN :=
  let observedClock := toVectorClock observedTimestamps in
  if isAfter observedClock (lastObservedVectorClock p) then
    mkCounter observedClock (maximumReplicaCount p) (currentTargetReplicaAddress p)
  else p.

(** *** An operation *)

(** What an operation waits for: the number of replicas, with the data members read before it, or nothing when the number is known
    ([Some]); the callback that takes the target; the answer of the target. *)
Inductive pn_stage :=
  | Counting (dataMembers : list Member) (replicaCount : option Z)
  | Chosen (target : option Member)
  | Invoked (target : Member)
  | Ended (r : Z + Err.t).

(** The last two fields are only written: which of the lists of members was current when the operation last looked for
    a target, and the error when the number of replicas could not be fetched. *)
Record Operation := mkOperation {
  excludedAddresses : list Member; lastError : option Err.t; o_stage : pn_stage; o_view : nat; uncounted : option Err.t }.

Definition set_o_stage (st : pn_stage) (o : Operation) : Operation :=
  mkOperation (excludedAddresses o) (lastError o) st (o_view o) (uncounted o).

(** The number at hand; otherwise the request for it is sent. *)
Definition getMaxConfiguredReplicaCount (p : PN) : option Z :=
  if 0 <? maximumReplicaCount p then Some (maximumReplicaCount p) else None.

(** The number arrived. *)
Definition count_answered (n : Z) (p : PN) : PN := mkCounter (lastObservedVectorClock p) n (currentTargetReplicaAddress p).

Definition getReplicaAddresses (excludedAddresses dataMembers : list Member) (replicaCount : Z) : list Member :=
  let currentCount := Z.min replicaCount (Z.of_nat (length dataMembers)) in
  filter (fun m => excluded m excludedAddresses = false) (take (Z.to_nat currentCount) dataMembers).

Definition chooseTargetReplica (randomInt : nat -> nat) (excludedAddresses dataMembers : list Member) (replicaCount : Z) : option Member :=
  match getReplicaAddresses excludedAddresses dataMembers replicaCount with
  | [] => None
  | replicaAddresses => replicaAddresses !! randomInt (length replicaAddresses)
  end.

(** The data members are read before the number of replicas is known. *)
Definition getCRDTOperationTarget (excludedAddresses dataMembers : list Member) (p : PN) : pn_stage :=
  let choose := Counting dataMembers (getMaxConfiguredReplicaCount p) in
  match currentTargetReplicaAddress p with
  | Some m => if negb (excluded m excludedAddresses) then Chosen (Some m) else choose
  | None => choose
  end.

Definition invokeInternal (excludedAddresses : list Member) (lastError : option Err.t) (view : nat) (dataMembers : list Member) (p : PN)
    : Operation :=
  mkOperation excludedAddresses lastError (getCRDTOperationTarget excludedAddresses dataMembers p) view None.

(** *** The counter and its operations *)

(** [views]: the lists of the cluster's data members so far, the last one is current. *)
Record CounterState := mkCounterState { proxy : PN; views : list (list Member); operations : list Operation }.

Definition members (s : CounterState) : list Member := default [] (last (views s)).
Definition set_operation (i : nat) (o : Operation) (p : PN) (s : CounterState) : CounterState :=
  mkCounterState p (views s) (<[i := o]> (operations s)).
Definition attempt (ex : list Member) (err : option Err.t) (s : CounterState) : Operation :=
  invokeInternal ex err (pred (length (views s))) (members s) (proxy s).

(** [get], [getAndAdd] and the others, which differ in the request. *)
Definition pn_call (s : CounterState) : CounterState :=
  mkCounterState (proxy s) (views s) (operations s ++ [attempt [] None s]).

(** The callbacks of the operation [i]. *)
Definition pn_counted (i : nat) (r : Z + Err.t) (s : CounterState) : CounterState :=
  match operations s !! i with
  | Some o =>
      match o_stage o, r with
      | Counting ms None, inl n => set_operation i (set_o_stage (Counting ms (Some n)) o) (count_answered n (proxy s)) s
      | Counting _ None, inr e =>
          set_operation i (mkOperation (excludedAddresses o) (lastError o) (Ended (inr e)) (o_view o) (Some e)) (proxy s) s
      | _, _ => s
      end
  | None => s
  end.

Definition pn_choose (randomInt : nat -> nat) (i : nat) (s : CounterState) : CounterState :=
  match operations s !! i with
  | Some o =>
      match o_stage o with
      | Counting ms (Some n) =>
          let target := chooseTargetReplica randomInt (excludedAddresses o) ms n in
          set_operation i (set_o_stage (Chosen target) o)
            (mkCounter (lastObservedVectorClock (proxy s)) (maximumReplicaCount (proxy s)) target) s
      | _ => s
      end
  | None => s
  end.

Definition pn_target (i : nat) (s : CounterState) : CounterState :=
  match operations s !! i with
  | Some o =>
      match o_stage o with
      | Chosen None => set_operation i (set_o_stage (Ended (inr (default Err.NoDataMemberInClusterError (lastError o)))) o) (proxy s) s
      | Chosen (Some m) => set_operation i (set_o_stage (Invoked m) o) (proxy s) s
      | _ => s
      end
  | None => s
  end.

(** The value and the timestamps of a replica, or the error, after which the operation starts again without it. *)
Definition pn_replied (i : nat) (r : Z * list (Key L * L) + Err.t) (s : CounterState) : CounterState :=
  match operations s !! i with
  | Some o =>
      match o_stage o, r with
      | Invoked _, inl (value, replicaTimestamps) =>
          set_operation i (set_o_stage (Ended (inl value)) o) (updateObservedReplicaTimestamps replicaTimestamps (proxy s)) s
      | Invoked target, inr err => set_operation i (attempt (excludedAddresses o ++ [target]) (Some err) s) (proxy s) s
      | _, _ => s
      end
  | None => s
  end.
End PNCounter.
Arguments PNCounterProxy : clear implicits.
Arguments Operation : clear implicits.
Arguments CounterState : clear implicits.

(** *** Failover between replicas *)

Section Failover.
Context {L : Type} `{LongLaws L} (configured : Z).
#[local] Abbreviation Member := (MemberImpl L).
#[local] Abbreviation PN := (PNCounterProxy L).
#[local] Abbreviation CS := (CounterState L).
Implicit Types (s : CS) (o : Operation L) (U ex : list Member) (m : Member).

(** The next callback of the operation [i]. The members answer with the configured number of replicas, or fail. *)
Inductive own_step (i : nat) s : CS -> Prop :=
  | own_counted o ms r : operations s !! i = Some o -> o_stage o = Counting ms None -> (forall n, r = inl n -> n = configured) ->
      own_step i s (pn_counted i r s)
  | own_choose o ms n randomInt : operations s !! i = Some o -> o_stage o = Counting ms (Some n) ->
      (forall k, (0 < k)%nat -> (randomInt k < k)%nat) -> own_step i s (pn_choose randomInt i s)
  | own_target o t : operations s !! i = Some o -> o_stage o = Chosen t -> own_step i s (pn_target i s)
  | own_replied o m r : operations s !! i = Some o -> o_stage o = Invoked m -> own_step i s (pn_replied i r s).

Inductive pn_step s : CS -> Prop :=
  | pns_call : pn_step s (pn_call s)
  | pns_reset : pn_step s (mkCounterState (pn_reset (proxy s)) (views s) (operations s))
  | pns_members ms : pn_step s (mkCounterState (proxy s) (views s ++ [ms]) (operations s))
  | pns_own i s' : own_step i s s' -> pn_step s s'.

Definition pn_reachable (ms : list Member) s : Prop := rtc pn_step (mkCounterState newPNCounterProxy [ms] []) s.

Lemma member_equals_refl m : member_equals m m = true.
Proof.
  unfold member_equals. rewrite bool_decide_eq_true_2, Z.eqb_refl, !andb_true_l by done. by apply UUID_equals_true.
Qed.

(** Members that differ from each other. *)
Definition distinct (l : list Member) : Prop :=
  forall i j a b, (i < j)%nat -> l !! i = Some a -> l !! j = Some b -> member_equals b a = false.

Lemma distinct_snoc l m : distinct l -> excluded m l = false -> distinct (l ++ [m]).
Proof.
  intros Hd Hm i j a b Hij Ha Hb. apply lookup_app_Some in Hb as [Hb|[Hl Hb]].
  - rewrite lookup_app_l in Ha by (apply lookup_lt_Some in Hb; lia). eauto.
  - apply list_lookup_singleton_Some in Hb as [Hj <-]. rewrite lookup_app_l in Ha by lia.
    apply not_true_iff_false. intros He. unfold excluded in Hm. apply not_true_iff_false in Hm. apply Hm. apply existsb_exists.
    exists a. split; [|done]. apply list_elem_of_In. by eapply list_elem_of_lookup_2.
Qed.

Lemma distinct_length l U : distinct l -> l ⊆ U -> (length l <= length U)%nat.
Proof.
  intros Hd Hs. apply submseteq_length, NoDup_submseteq; [|exact Hs]. apply NoDup_alt. intros i j a Hi Hj.
  destruct (Nat.lt_trichotomy i j) as [Hlt|[->|Hlt]]; [|done|].
  - pose proof (Hd i j a a Hlt Hi Hj) as E. by rewrite member_equals_refl in E.
  - pose proof (Hd j i a a Hlt Hj Hi) as E. by rewrite member_equals_refl in E.
Qed.

(** *** The invariant *)

(** No replica that could still be tried. *)
Definition exhausted ex (ms : list Member) : Prop := forall m, m ∈ take (Z.to_nat configured) ms -> excluded m ex = true.

Record operation_ok U (vs : list (list Member)) o : Prop := {
  oo_distinct : distinct (excludedAddresses o);
  oo_known : excludedAddresses o ⊆ U;
  oo_stage : match o_stage o with
    | Counting ms c => vs !! o_view o = Some ms /\ forall n, c = Some n -> n = configured
    | Chosen None => exists ms, vs !! o_view o = Some ms /\ exhausted (excludedAddresses o) ms
    | Chosen (Some m) | Invoked m => m ∈ U /\ excluded m (excludedAddresses o) = false
    | Ended (inl _) => True
    | Ended (inr e) => uncounted o = Some e \/ e = default Err.NoDataMemberInClusterError (lastError o) /\
        exists ms, vs !! o_view o = Some ms /\ exhausted (excludedAddresses o) ms
    end
}.

Record counter_ok U s : Prop := {
  co_views : views s <> [];
  co_members : Forall (fun ms => ms ⊆ U) (views s);
  co_count : 0 < maximumReplicaCount (proxy s) -> maximumReplicaCount (proxy s) = configured;
  co_target : forall m, currentTargetReplicaAddress (proxy s) = Some m -> m ∈ U;
  co_operations : Forall (operation_ok U (views s)) (operations s)
}.

(** Later lists of members change nothing for the operations. *)
Lemma operation_ok_grows U vs ms o : operation_ok U vs o -> operation_ok U (vs ++ [ms]) o.
Proof.
  intros [Hd Hk Hs]. split; [done..|]. destruct (o_stage o) as [l c|[m|]|m|[v|e]]; try done.
  - destruct Hs as [Hv Hc]. split; [by apply lookup_app_l_Some | done].
  - destruct Hs as (l & Hv & Hx). exists l. split; [by apply lookup_app_l_Some | done].
  - destruct Hs as [Hs|(He & l & Hv & Hx)]; [by left|]. right. split; [done|]. exists l. split; [by apply lookup_app_l_Some | done].
Qed.

Lemma members_view s : views s <> [] -> views s !! pred (length (views s)) = Some (members s).
Proof.
  intros Hn. unfold members. rewrite <- last_lookup. destruct (last (views s)) as [l|] eqn:El; [done|]. by apply last_None in El.
Qed.

Lemma attempt_ok U s ex err : counter_ok U s -> distinct ex -> ex ⊆ U -> operation_ok U (views s) (attempt ex err s).
Proof.
  intros [Hv Hm Hc Ht Ho] Hd Hk. split; [done..|]. cbn. unfold getCRDTOperationTarget, getMaxConfiguredReplicaCount.
  assert (views s !! pred (length (views s)) = Some (members s) /\
    forall n, (if 0 <? maximumReplicaCount (proxy s) then Some (maximumReplicaCount (proxy s)) else None) = Some n -> n = configured) as Hch.
  { split; [by apply members_view|]. intros n. destruct (Z.ltb_spec 0 (maximumReplicaCount (proxy s))); [|done]. intros [= <-]. auto. }
  destruct (currentTargetReplicaAddress (proxy s)) as [m|] eqn:Et; [|done].
  destruct (excluded m ex) eqn:Ex; cbn [negb]; [done|]. split; [by apply Ht | done].
Qed.

Lemma set_operation_ok U s i o q : counter_ok U s -> operation_ok U (views s) o ->
  (0 < maximumReplicaCount q -> maximumReplicaCount q = configured) -> (forall m, currentTargetReplicaAddress q = Some m -> m ∈ U) ->
  counter_ok U (set_operation i o q s).
Proof. intros [Hv Hm Hc Ht Ho] Hop Hq1 Hq2. split; [done..|]. cbn. by apply Forall_insert. Qed.

(** The choice is among the first of the data members, and finds one that was not tried unless there is none. *)
Lemma choose_cases randomInt ex ms : (forall k, (0 < k)%nat -> (randomInt k < k)%nat) ->
  match chooseTargetReplica randomInt ex ms configured with
  | Some m => m ∈ ms /\ excluded m ex = false
  | None => exhausted ex ms
  end.
Proof.
  intros Hr. unfold chooseTargetReplica, getReplicaAddresses. set (l := filter _ _).
  assert (take (Z.to_nat (Z.min configured (Z.of_nat (length ms)))) ms = take (Z.to_nat configured) ms) as Et.
  { destruct (Z.le_gt_cases configured (Z.of_nat (length ms))); [by rewrite Z.min_l by lia|]. rewrite Z.min_r by lia. rewrite !take_ge; [done | lia | lia]. }
  destruct l as [|a l'] eqn:El.
  - intros m Hm. apply not_false_iff_true. intros Hf. assert (m ∈ l) as Hin by (apply list_elem_of_filter; by rewrite Et).
    rewrite El in Hin. by apply not_elem_of_nil in Hin.
  - destruct (lookup_lt_is_Some_2 (a :: l') _ (Hr (length (a :: l')) ltac:(cbn; lia))) as [m Em]. rewrite Em.
    assert (m ∈ l) as Hin by (rewrite El; by eapply list_elem_of_lookup_2). apply list_elem_of_filter in Hin as [Hex Hin].
    split; [|done]. apply elem_of_take in Hin as (k & Hk & _). by eapply list_elem_of_lookup_2.
Qed.

Lemma own_step_ok U i s s' : counter_ok U s -> own_step i s s' -> counter_ok U s'.
Proof.
  intros Hok Hst. pose proof Hok as [Hv Hm Hc Ht Ho].
  destruct Hst as [o ms r Hi Es Hn|o ms n rnd Hi Es Hr|o t Hi Es|o m r Hi Es];
    pose proof (Forall_lookup_1 _ _ _ _ Ho Hi) as Hop; pose proof Hop as [Hd Hk Hs]; rewrite Es in Hs;
    unfold pn_counted, pn_choose, pn_target, pn_replied; rewrite Hi, Es.
  - destruct r as [n|e]; apply set_operation_ok; try done.
    + split; [done..|]. cbn. destruct Hs as [Hl _]. split; [done|]. intros ? [= <-]. by apply Hn.
    + intros _. by apply Hn.
    + split; [done..|]. by left.
  - destruct Hs as [Hl Hcn]. rewrite (Hcn n eq_refl). pose proof (choose_cases rnd (excludedAddresses o) ms Hr) as Hch.
    destruct (chooseTargetReplica rnd (excludedAddresses o) ms configured) as [m|]; apply set_operation_ok; try done.
    + split; [done..|]. cbn. destruct Hch as [Hin Hex]. split; [|done]. by apply (Forall_lookup_1 _ _ _ _ Hm Hl).
    + cbn. intros ? [= <-]. by apply (Forall_lookup_1 _ _ _ _ Hm Hl), Hch.
    + split; [done..|]. cbn. by exists ms.
  - destruct t as [m|]; apply set_operation_ok; try done. split; [done..|]. by right.
  - destruct Hs as [HmU Hex]. destruct r as [[v ts]|e]; apply set_operation_ok; try done.
    + unfold updateObservedReplicaTimestamps. by destruct (isAfter _ _).
    + unfold updateObservedReplicaTimestamps. by destruct (isAfter _ _).
    + apply attempt_ok; [done | by apply distinct_snoc |]. intros x [Hx|Hx%list_elem_of_singleton]%elem_of_app; [by apply Hk | by subst x].
Qed.

Lemma pn_step_ok U s s' : counter_ok U s -> Forall (fun ms => ms ⊆ U) (views s') -> pn_step s s' -> counter_ok U s'.
Proof.
  intros Hok Hm' Hst. pose proof Hok as [Hv Hm Hc Ht Ho]. destruct Hst as [| |ms|i s' Hs].
  - split; try done. cbn. apply Forall_app. split; [done|]. constructor; [|constructor]. apply attempt_ok; [done | by intros ? ? ? ? _ [=] |].
    by intros x ?%not_elem_of_nil.
  - by split.
  - split; try done; cbn; [by destruct (views s)|]. eapply Forall_impl; [exact Ho|]. intros o. apply operation_ok_grows.
  - by eapply own_step_ok.
Qed.

Lemma own_step_views i s s' : own_step i s s' -> views s' = views s.
Proof.
  destruct 1 as [o ms r Hi Es _|o ms n rnd Hi Es _|o t Hi Es|o m r Hi Es];
    unfold pn_counted, pn_choose, pn_target, pn_replied; rewrite Hi, Es; repeat case_match; done.
Qed.

Lemma pn_reachable_ok U ms s : pn_reachable ms s -> Forall (fun l => l ⊆ U) (views s) -> counter_ok U s.
Proof.
  intros Hr. refine (rtc_ind_r (fun s => Forall (fun l => l ⊆ U) (views s) -> counter_ok U s) _ _ _ s Hr).
  - intros Hm. by split.
  - intros x y _ Hst IH Hm. apply (pn_step_ok U x); [|done|done]. apply IH. destruct Hst as [| |l|i s' Hs]; cbn in Hm; try done.
    + by apply Forall_app in Hm as [? _].
    + by rewrite <- (own_step_views i x s' Hs).
Qed.

(** What is left to do: the replicas not tried, and the callbacks of the attempt. *)
Definition operation_rank U o : nat :=
  5 * (length U - length (excludedAddresses o)) +
  match o_stage o with Counting _ None => 4 | Counting _ (Some _) => 3 | Chosen _ => 2 | Invoked _ => 1 | Ended _ => 0 end.

Lemma own_step_rank U i s s' o : counter_ok U s -> operations s !! i = Some o -> own_step i s s' ->
  exists o', operations s' !! i = Some o' /\ (operation_rank U o' < operation_rank U o)%nat.
Proof.
  intros Hok Hi Hst. pose proof (lookup_lt_Some _ _ _ Hi) as Hlt.
  assert (forall o' q, operations (set_operation i o' q s) !! i = Some o') as Hset by (intros; cbn; by apply list_lookup_insert_eq).
  destruct Hst as [o1 ms r Hi1 Es _|o1 ms n rnd Hi1 Es _|o1 t Hi1 Es|o1 m r Hi1 Es]; (assert (o1 = o) as -> by congruence);
    unfold pn_counted, pn_choose, pn_target, pn_replied; rewrite Hi, Es; unfold operation_rank at 2; rewrite Es.
  - destruct r; (eexists; split; [apply Hset | unfold operation_rank; cbn; lia]).
  - eexists. split; [apply Hset | unfold operation_rank; cbn; lia].
  - destruct t; (eexists; split; [apply Hset | unfold operation_rank; cbn; lia]).
  - destruct r as [[v ts]|e]; (eexists; split; [apply Hset|]); [unfold operation_rank; cbn; lia|].
    pose proof (own_step_ok U i s _ Hok (own_replied i s o m (inr e) Hi Es)) as Hok'. unfold pn_replied in Hok'. rewrite Hi, Es in Hok'.
    destruct (Forall_lookup_1 _ _ _ _ (co_operations _ _ Hok') (Hset _ _)) as [Hd Hk _].
    pose proof (distinct_length _ _ Hd Hk) as Hle. cbn in Hle. rewrite length_app in Hle. cbn in Hle.
    unfold operation_rank. cbn [excludedAddresses attempt invokeInternal o_stage]. rewrite length_app. cbn [length]. repeat case_match; lia.
Qed.

Lemma own_step_exists i s o : operations s !! i = Some o -> (forall x, o_stage o <> Ended x) -> exists s', own_step i s s'.
Proof.
  intros Hi Hn. destruct (o_stage o) as [ms [n|]|t|m|x] eqn:Es.
  - eexists. eapply (own_choose i s o ms n (fun _ => 0%nat)); [done | done |]. lia.
  - eexists. eapply (own_counted i s o ms (inl configured)); [done | done |]. by intros n [= <-].
  - eexists. by eapply own_target.
  - eexists. by eapply (own_replied i s o m (inr Err.IOError)).
  - by destruct (Hn x).
Qed.

(** C27: an operation on a PN counter goes through the replicas and ends. Let the data members come and go while operations
    of the counter run at the same time, in any order of answers and callbacks, all lists of members being of some finite set
    and the configured number of replicas being fixed. An operation tries no member twice, so at most as many as
    there are; each of its callbacks brings it nearer to the end, whatever the answers, and there is one until it has ended; and
    it fails only with the error of the request for the number of replicas, or, with the last error of a replica (or
    NoDataMemberInClusterError), after each of the first data members, up to the configured number, in the list that was current
    when it last looked for a target had failed. *)
Theorem replicas_tried_once ms s U i o : pn_reachable ms s -> Forall (fun l => l ⊆ U) (views s) -> operations s !! i = Some o ->
  (distinct (excludedAddresses o) /\ excludedAddresses o ⊆ U /\ (length (excludedAddresses o) <= length U)%nat) /\
  ((forall x, o_stage o <> Ended x) -> exists s', own_step i s s') /\
  (forall s', own_step i s s' -> exists o', operations s' !! i = Some o' /\ (operation_rank U o' < operation_rank U o)%nat) /\
  (forall e, o_stage o = Ended (inr e) -> uncounted o = Some e \/
     e = default Err.NoDataMemberInClusterError (lastError o) /\
     exists l, views s !! o_view o = Some l /\ forall m, m ∈ take (Z.to_nat configured) l -> excluded m (excludedAddresses o) = true).
Proof.
  intros Hr Hm Hi. pose proof (pn_reachable_ok U ms s Hr Hm) as Hok.
  destruct (Forall_lookup_1 _ _ _ _ (co_operations _ _ Hok) Hi) as [Hd Hk Hs]. split_and!; [done | done | by apply distinct_length | | |].
  - by eapply own_step_exists.
  - intros s' Hst. by eapply own_step_rank.
  - intros e Es. by rewrite Es in Hs.
Qed.
End Failover.

(** *** What the clock does *)

Section Clock.
Context {L : Type} `{LongLaws L}.

Lemma set_timestamp_get (c : VectorClock L) a t k : same_key a k = false ->
  js_map_get same_key (setReplicaTimestamp a t c) k = js_map_get same_key c k.
Proof.
  intros Ha. unfold setReplicaTimestamp. induction c as [|[x v] c IH]; cbn; [by rewrite Ha|].
  destruct (same_key x a) eqn:Exa; cbn.
  - assert (same_key x k = false) as ->; [|done]. unfold same_key in *. apply Nat.eqb_eq in Exa. by rewrite Exa.
  - by rewrite IH.
Qed.

(** The keys of a response are new objects, so that none of them is a key of the clock observed before: whatever the
    timestamps are, the clock is replaced only if the response has more replicas. *)
Lemma observed_by_size (p : PNCounterProxy L) ts :
  (forall e e', e ∈ lastObservedVectorClock p -> e' ∈ ts -> identity e'.1 <> identity e.1) ->
  updateObservedReplicaTimestamps ts p =
    if (length (lastObservedVectorClock p) <? length (toVectorClock ts))%nat then
      mkCounter (toVectorClock ts) (maximumReplicaCount p) (currentTargetReplicaAddress p)
    else p.
Proof.
  intros Hf. unfold updateObservedReplicaTimestamps, isAfter.
  assert (Hget : forall k : Key L, (forall e', e' ∈ ts -> identity e'.1 <> identity k) -> js_map_get same_key (toVectorClock ts) k = None).
  { intros k Hk. unfold toVectorClock. assert (Hn : js_map_get same_key (newVectorClock (L := L)) k = None) by done. revert Hn.
    generalize (newVectorClock (L := L)) as c. induction ts as [|[a t] ts IH]; intros c Hc; cbn; [done|]. apply IH.
    - intros e e' He He'. apply Hf; [done | by right].
    - intros e' He'. apply Hk. by right.
    - rewrite set_timestamp_get; [done|]. apply Nat.eqb_neq. by apply (Hk (a, t)); left. }
  assert (Hfold : forall (l : VectorClock L), (forall e, e ∈ l -> js_map_get same_key (toVectorClock ts) e.1 = None) ->
    foldl (fun (bigger : bool) e => match js_map_get same_key (toVectorClock ts) e.1 with
      | None => bigger
      | Some t => if long_ltb t e.2 then bigger else if long_ltb e.2 t then true else bigger end) false l = false).
  { induction l as [|e l IH]; intros Hl; cbn; [done|]. rewrite (Hl e) by (by left). apply IH. intros e' He'. apply Hl. by right. }
  rewrite Hfold; [done|]. intros e He. apply Hget. intros e' He'. by apply Hf.
Qed.
End Clock.

(** With the same key objects, a clock that is behind in one replica still counts as later. *)
Lemma concurrent_is_after :
  let a := mkKey 0 (mkUUID (Int64.of_Z 0) (Int64.of_Z 1)) in let b := mkKey 1 (mkUUID (Int64.of_Z 0) (Int64.of_Z 2)) in
  isAfter [(a, Int64.of_Z 2); (b, Int64.of_Z 1)] [(a, Int64.of_Z 1); (b, Int64.of_Z 2)] = true.
Proof. vm_compute. reflexivity. Qed.

(** A write is observed at timestamp 6; what the next request sends is still 5. *)
Lemma write_not_observed :
  let u := mkUUID (Int64.of_Z 0) (Int64.of_Z 1) in
  let p := updateObservedReplicaTimestamps [(mkKey 0 u, Int64.of_Z 5)] (newPNCounterProxy (L := Int64.t)) in
  map snd (entrySet (lastObservedVectorClock (updateObservedReplicaTimestamps [(mkKey 1 u, Int64.of_Z 6)] p))) = [Int64.of_Z 5].
Proof. vm_compute. reflexivity. Qed.

(** ** Batches of ids *)

(** [invalidSince] is a time; ids are the numbers of their 64-bit [Long]s. *)
Record Batch := mkBatch { nextIdLong : Z; increment : Z; invalidSince : Z; firstInvalidId : Z }.

Definition newBatch (validityMillis base increment batchSize now : Z) : Batch :=
  mkBatch base increment (if 0 <? validityMillis then validityMillis + now else 2 ^ 53 - 1)
    (swrap 64 (base + swrap 64 (increment * batchSize))).

Definition batch_nextId (now : Z) (b : Batch) : option Z * Batch :=
  if invalidSince b <=? now then (None, b)
  else if firstInvalidId b =? nextIdLong b then (None, b)
  else (Some (nextIdLong b), mkBatch (swrap 64 (nextIdLong b + increment b)) (increment b) (invalidSince b) (firstInvalidId b)).

(** ** AutoBatcher *)

(** A promise is numbered in the order of the calls; [settled] has the promises settled and is only written. *)
Record AutoBatcher := mkBatcher {
  queue : list nat; batch : option Batch; requestInFlight : bool;
  calls_made : nat; settled_ids : list (nat * (Z + Err.t)) }.

Definition newAutoBatcher : AutoBatcher := mkBatcher [] None false 0 [].

(** The loop of [processIdRequests]: what stays in the queue, the batch, the promises resolved, and whether a batch is
    asked for; [now] has the times of the calls of [Date.now()]. *)
Fixpoint process_queue (now : nat -> Z) (ind : nat) (q : list nat) (b : option Batch)
    : list nat * option Batch * list (nat * (Z + Err.t)) * bool :=
  match q with
  | [] => ([], b, [], false)
  | d :: q =>
      match b with
      | Some b =>
          match batch_nextId (now ind) b with
          | (Some nextId, b) =>
              let '(q, b, done, ask) := process_queue now (S ind) q (Some b) in (q, b, (d, inl nextId) :: done, ask)
          | (None, b) => (d :: q, Some b, [], true)
          end
      | None => (d :: q, None, [], true)
      end
  end.

(** [assignNewBatch] calls the supplier unless a request is in flight. *)
Definition processIdRequests (now : nat -> Z) (s : AutoBatcher) : AutoBatcher :=
  let '(q, b, done, ask) := process_queue now 0 (queue s) (batch s) in
  mkBatcher q b (requestInFlight s || ask) (calls_made s) (settled_ids s ++ done).

Definition nextId (now : nat -> Z) (s : AutoBatcher) : AutoBatcher :=
  processIdRequests now
    (mkBatcher (queue s ++ [calls_made s]) (batch s) (requestInFlight s) (S (calls_made s)) (settled_ids s)).

(** The answers of the supplier. *)
Definition batch_arrived (b : Batch) (now : nat -> Z) (s : AutoBatcher) : AutoBatcher :=
  processIdRequests now (mkBatcher (queue s) (Some b) false (calls_made s) (settled_ids s)).

Definition rejectAll (e : Err.t) (s : AutoBatcher) : AutoBatcher :=
  mkBatcher [] (batch s) (requestInFlight s) (calls_made s) (settled_ids s ++ map (fun d => (d, inr e)) (queue s)).

Definition batch_failed (e : Err.t) (s : AutoBatcher) : AutoBatcher :=
  rejectAll e (mkBatcher (queue s) (batch s) false (calls_made s) (settled_ids s)).

(** The ids of a batch of [n]. *)
Definition batch_ids (base increment : Z) (n : nat) : list Z := map (fun i => swrap 64 (base + Z.of_nat i * increment)) (seq 0 n).

Definition issued (s : AutoBatcher) : list Z := omap (fun e => match e.2 with inl i => Some i | inr _ => None end) (settled_ids s).

(** A member gives ids that no batch had before, within 64 bits. *)
Inductive ab_step : AutoBatcher -> AutoBatcher -> Prop :=
  | ab_call s now : ab_step s (nextId now s)
  | ab_batch s base inc n validity t now : requestInFlight s = true ->
      in_sint 64 base -> 0 < inc -> inc * Z.of_nat n < 2 ^ 64 ->
      (forall i, i ∈ issued s -> i ∉ batch_ids base inc n) ->
      ab_step s (batch_arrived (newBatch validity base inc (Z.of_nat n) t) now s)
  | ab_failed s e : requestInFlight s = true -> ab_step s (batch_failed e s).

Inductive ab_reachable : AutoBatcher -> Prop :=
  | ab_new : ab_reachable newAutoBatcher
  | ab_next s s' : ab_reachable s -> ab_step s s' -> ab_reachable s'.

Lemma swrap_add_l w a b : 0 < w -> swrap w (swrap w a + b) = swrap w (a + b).
Proof.
  intros Hw. apply swrap_congr; [|done]. pose proof (uwrap_swrap w a Hw) as E. unfold uwrap in *.
  rewrite <- (Zplus_mod_idemp_l (swrap w a)), E, Zplus_mod_idemp_l. done.
Qed.

Lemma swrap_inj a b : swrap 64 a = swrap 64 b -> - 2 ^ 64 < a - b < 2 ^ 64 -> a = b.
Proof.
  intros E Hd. assert (Ea : uwrap 64 a = uwrap 64 b) by (rewrite <- (uwrap_swrap 64 a), <- (uwrap_swrap 64 b) by lia; by rewrite E).
  unfold uwrap in Ea. pose proof (Z.div_mod a (2 ^ 64) ltac:(lia)). pose proof (Z.div_mod b (2 ^ 64) ltac:(lia)). nia.
Qed.

(** A batch of [n] ids of which [k] are taken. *)
Record holds (b : Batch) (base inc : Z) (n k : nat) : Prop := {
  h_next : nextIdLong b = swrap 64 (base + Z.of_nat k * inc);
  h_inc : increment b = inc;
  h_first : firstInvalidId b = swrap 64 (base + Z.of_nat n * inc);
  h_k : (k <= n)%nat;
  h_pos : 0 < inc;
  h_small : inc * Z.of_nat n < 2 ^ 64 }.

Lemma new_holds validity base inc n t : in_sint 64 base -> 0 < inc -> inc * Z.of_nat n < 2 ^ 64 ->
  holds (newBatch validity base inc (Z.of_nat n) t) base inc n 0.
Proof.
  intros Hb Hi Hs. constructor; cbn; try done; try lia.
  - by rewrite Z.add_0_r, swrap_id.
  - rewrite Z.add_comm, swrap_add_l by lia. f_equal. lia.
Qed.

Lemma batch_ids_lookup base inc n k : (k < n)%nat -> batch_ids base inc n !! k = Some (swrap 64 (base + Z.of_nat k * inc)).
Proof. intros Hk. unfold batch_ids. rewrite list_lookup_fmap, lookup_seq_lt by done. done. Qed.

Lemma batch_ids_nodup base inc n : 0 < inc -> inc * Z.of_nat n < 2 ^ 64 -> NoDup (batch_ids base inc n).
Proof.
  intros Hi Hs. apply NoDup_alt. intros i j x Hx Hy.
  assert (Hlen : length (batch_ids base inc n) = n) by (unfold batch_ids; by rewrite length_fmap, length_seq).
  pose proof (lookup_lt_Some _ _ _ Hx). pose proof (lookup_lt_Some _ _ _ Hy). rewrite batch_ids_lookup in Hx, Hy by lia.
  assert (E : swrap 64 (base + Z.of_nat i * inc) = swrap 64 (base + Z.of_nat j * inc)) by congruence. apply swrap_inj in E; nia.
Qed.

(** A batch gives its ids one after the other, and nothing more. *)
Lemma batch_next b base inc n k now : holds b base inc n k ->
  (batch_nextId now b = (None, b) /\ (k = n \/ invalidSince b <= now)) \/
  exists b', batch_nextId now b = (Some (swrap 64 (base + Z.of_nat k * inc)), b') /\ (k < n)%nat /\ holds b' base inc n (S k).
Proof.
  intros [Hn Hi Hf Hk Hp Hs]. unfold batch_nextId. destruct (Z.leb_spec (invalidSince b) now); [auto|].
  destruct (Z.eqb_spec (firstInvalidId b) (nextIdLong b)) as [E|E].
  - left. split; [done|]. left. rewrite Hn, Hf in E. apply swrap_inj in E; nia.
  - right. rewrite Hn. eexists. split; [done|]. assert (k <> n) by (intros ->; congruence). split; [lia|].
    constructor; cbn; try done; try lia. rewrite Hi, swrap_add_l by lia. f_equal. lia.
Qed.

Definition ids_of (l : list (nat * (Z + Err.t))) : list Z := omap (fun e => match e.2 with inl i => Some i | inr _ => None end) l.

Lemma process_spec now : forall q ind b q' b' done ask, process_queue now ind q b = (q', b', done, ask) ->
  map fst done ++ q' = q /\ (q' <> [] -> ask = true) /\
  match b with
  | None => b' = None /\ done = []
  | Some b => forall base inc n k, holds b base inc n k -> exists b1 m, b' = Some b1 /\ holds b1 base inc n (k + m) /\
      ids_of done = take m (drop k (batch_ids base inc n))
  end.
Proof.
  induction q as [|d q IH]; intros ind b q' b' dn ask E; cbn in E.
  { simplify_eq. split_and!; [done | done |]. destruct b' as [b|]; [|done]. intros base inc n k Hh. exists b, 0%nat. by rewrite Nat.add_0_r. }
  destruct b as [b|]; [|simplify_eq; by split_and!].
  destruct (batch_nextId (now ind) b) as [[i|] b1] eqn:Eb.
  - destruct (process_queue now (S ind) q (Some b1)) as [[[q1 b2] d1] a1] eqn:Ep. simplify_eq.
    destruct (IH _ _ _ _ _ _ Ep) as (E1 & E2 & E3). split_and!; [cbn; by rewrite E1 | done |].
    intros base inc n k Hh. destruct (batch_next _ _ _ _ _ (now ind) Hh) as [[Hx _]|(b3 & Hx & Hk & Hh')]; rewrite Eb in Hx; [done|].
    simplify_eq. destruct (E3 _ _ _ _ Hh') as (b4 & m & -> & H4 & Hid). exists b4, (S m). split_and!; [done | by rewrite Nat.add_succ_r |].
    rewrite (drop_S _ _ _ (batch_ids_lookup base inc n k Hk)). cbn [take]. rewrite <- Hid. done.
  - simplify_eq. split_and!; [done | done |]. intros base inc n k Hh. exists b1, 0%nat. rewrite Nat.add_0_r.
    unfold batch_nextId in Eb. split_and!; [done | | done]. by repeat case_match; simplify_eq.
Qed.

(** ** Every call is answered, in order, with an id of its own *)

Record ab_inv (s : AutoBatcher) : Prop := {
  ab_order : map fst (settled_ids s) ++ queue s = seq 0 (calls_made s);
  ab_waiting : queue s <> [] -> requestInFlight s = true;
  ab_fresh : NoDup (issued s);
  ab_batch_ok : forall b, batch s = Some b -> exists base inc n k, holds b base inc n k /\
    forall i, i ∈ issued s -> i ∉ drop k (batch_ids base inc n) }.

Lemma issued_app s l : issued (mkBatcher (queue s) (batch s) (requestInFlight s) (calls_made s) (settled_ids s ++ l)) = issued s ++ ids_of l.
Proof. unfold issued. cbn. by rewrite omap_app. Qed.

Lemma process_inv now s :
  map fst (settled_ids s) ++ queue s = seq 0 (calls_made s) -> NoDup (issued s) ->
  (forall b, batch s = Some b -> exists base inc n k, holds b base inc n k /\ forall i, i ∈ issued s -> i ∉ drop k (batch_ids base inc n)) ->
  ab_inv (processIdRequests now s).
Proof.
  intros Ho Hf Hb. unfold processIdRequests. destruct (process_queue now 0 (queue s) (batch s)) as [[[q b'] dn] ask] eqn:E.
  destruct (process_spec _ _ _ _ _ _ _ _ E) as (E1 & E2 & E3).
  assert (Hids : NoDup (issued s ++ ids_of dn) /\ forall b, b' = Some b -> exists base inc n k, holds b base inc n k /\
    forall i, i ∈ issued s ++ ids_of dn -> i ∉ drop k (batch_ids base inc n)).
  { destruct (batch s) as [b|] eqn:Eb.
    - destruct (Hb b eq_refl) as (base & inc & n & k & Hh & Hd). destruct (E3 _ _ _ _ Hh) as (b1 & m & -> & H1 & Hid).
      pose proof (batch_ids_nodup base inc n (h_pos _ _ _ _ _ Hh) (h_small _ _ _ _ _ Hh)) as Hnd.
      assert (Hsplit : NoDup (ids_of dn ++ drop (k + m) (batch_ids base inc n))).
      { rewrite Hid, <- drop_drop, take_drop. rewrite <- (take_drop k (batch_ids base inc n)) in Hnd. by apply NoDup_app in Hnd as (_ & _ & ?). }
      apply NoDup_app in Hsplit as (Hn1 & Hdis & _).
      assert (Hsub : forall i, i ∈ ids_of dn \/ i ∈ drop (k + m) (batch_ids base inc n) -> i ∈ drop k (batch_ids base inc n)).
      { intros i. rewrite Hid, <- drop_drop. rewrite <- (take_drop m (drop k (batch_ids base inc n))) at 3. by rewrite elem_of_app. }
      split.
      + apply NoDup_app. split_and!; [done | | done]. intros i Hi Hi'. apply (Hd i Hi), Hsub. by left.
      + intros b0 [= <-]. exists base, inc, n, (k + m)%nat. split; [done|]. intros i [Hi|Hi]%elem_of_app Hx.
        * apply (Hd i Hi), Hsub. by right.
        * by apply (Hdis i Hi).
    - destruct E3 as [-> ->]. cbn. rewrite app_nil_r. by split. }
  destruct Hids as [Hn Hbb]. constructor; cbn.
  - rewrite map_app, <- app_assoc, E1. done.
  - intros Hq. rewrite (E2 Hq). apply orb_true_r.
  - unfold issued. cbn. by rewrite omap_app.
  - intros b Hb'. destruct (Hbb b Hb') as (base & inc & n & k & Hh & Hd). exists base, inc, n, k. split; [done|]. intros i Hi. apply Hd.
    unfold issued in Hi. cbn in Hi. by rewrite omap_app in Hi.
Qed.

Lemma ab_step_inv s s' : ab_inv s -> ab_step s s' -> ab_inv s'.
Proof.
  intros [Ho Hw Hf Hb] Hst. destruct Hst as [s now|s base inc n validity t now Hr Hi Hp Hs Hd|s e Hr].
  - unfold nextId. apply process_inv; [|done|done].
    change (map fst (settled_ids s) ++ queue s ++ [calls_made s] = seq 0 (S (calls_made s))). by rewrite seq_S, app_assoc, Ho.
  - unfold batch_arrived. apply process_inv; cbn; [done | done |]. intros b [= <-]. exists base, inc, n, 0%nat.
    split; [by apply new_holds|]. intros i Hin. rewrite drop_0. by apply Hd.
  - assert (Hm : forall l : list nat, omap (fun x : nat * (Z + Err.t) => match x.2 with inl i => Some i | inr _ => None end)
      (map (fun d => (d, inr e)) l) = []) by (induction l; done).
    unfold batch_failed, rejectAll. cbn. constructor; cbn.
    + rewrite map_app, map_map, map_id, app_nil_r. done.
    + done.
    + unfold issued. cbn. rewrite omap_app, Hm, app_nil_r. done.
    + intros b Eb. destruct (Hb b Eb) as (base & inc & n & k & Hh & Hd). exists base, inc, n, k. split; [done|]. intros i Hin. apply Hd.
      unfold issued in Hin. cbn in Hin. by rewrite omap_app, Hm, app_nil_r in Hin.
Qed.

(** C26: the id generator loses no call and repeats no id: whatever calls and answers come in whatever order, the promises
    settled are, in the order of the calls, the first ones; while one is left a request for a batch is in flight; and no
    id is given to two calls, if the members never put an id into two batches. *)
Theorem ids_in_order_and_unique (s : AutoBatcher) : ab_reachable s ->
  map fst (settled_ids s) ++ queue s = seq 0 (calls_made s) /\ (queue s <> [] -> requestInFlight s = true) /\ NoDup (issued s).
Proof.
  intros Hr. assert (Hi : ab_inv s).
  { induction Hr as [|s s' _ IH Hst]; [|by eapply ab_step_inv]. constructor; cbn; [done | done | constructor | done]. }
  destruct Hi. done.
Qed.

(** ** Witnesses *)

Module CounterRun.
(** Two data members, of which the first does not answer. *)
Definition member (n : Z) : MemberImpl Int64.t :=
  mkMember (mkAddress "10.0.0.1" n) (mkUUID (Int64.of_Z 0) (Int64.of_Z n)) [] false (mkMemberVersion 5 0 0) [].

(** An operation is called; the first member does not answer and leaves the cluster; the second answers. *)
Definition init : CounterState Int64.t := mkCounterState newPNCounterProxy [[member 1; member 2]] [].
Definition asked : CounterState Int64.t :=
  pn_target 0 (pn_choose (fun _ => 0%nat) 0 (pn_counted 0 (inl 2) (pn_call init))).
Definition left : CounterState Int64.t := mkCounterState (proxy asked) (views asked ++ [[member 2]]) (operations asked).
Definition ended : CounterState Int64.t :=
  pn_replied 0 (inl (7, [])) (pn_target 0 (pn_choose (fun _ => 0%nat) 0 (pn_replied 0 (inr Err.IOError) left))).

Lemma ended_reachable : pn_reachable 2 [member 1; member 2] ended.
Proof.
  unfold pn_reachable, ended, left, asked. fold init.
  eapply rtc_r; [|apply (pns_own _ _ 0); eapply own_replied; [vm_compute; reflexivity | reflexivity]].
  eapply rtc_r; [|apply (pns_own _ _ 0); eapply own_target; [vm_compute; reflexivity | reflexivity]].
  eapply rtc_r; [|apply (pns_own _ _ 0); eapply own_choose; [vm_compute; reflexivity | reflexivity | lia]].
  eapply rtc_r; [|apply (pns_own _ _ 0); eapply own_replied; [vm_compute; reflexivity | reflexivity]].
  eapply rtc_r; [|apply pns_members].
  eapply rtc_r; [|apply (pns_own _ _ 0); eapply own_target; [vm_compute; reflexivity | reflexivity]].
  eapply rtc_r; [|apply (pns_own _ _ 0); eapply own_choose; [vm_compute; reflexivity | reflexivity | lia]].
  eapply rtc_r; [|apply (pns_own _ _ 0); eapply own_counted; [vm_compute; reflexivity | reflexivity | congruence]].
  apply rtc_once, pns_call.
Qed.

Definition served : AutoBatcher := Eval vm_compute in
  batch_arrived (newBatch 0 100 3 2 0) (fun _ => 0) (nextId (fun _ => 0) (nextId (fun _ => 0) (nextId (fun _ => 0) newAutoBatcher))).
End CounterRun.

Lemma replicas_tried_once_witness : exists o, operations CounterRun.ended !! 0%nat = Some o /\ o_stage o = Ended (inl 7) /\
  excludedAddresses o = [CounterRun.member 1] /\ distinct (excludedAddresses o) /\ (length (excludedAddresses o) <= 2)%nat.
Proof.
  eexists. split; [vm_compute; reflexivity|]. split; [reflexivity|]. split; [reflexivity|].
  refine (let H := replicas_tried_once 2 [CounterRun.member 1; CounterRun.member 2] CounterRun.ended
    [CounterRun.member 1; CounterRun.member 2] 0 _ CounterRun.ended_reachable _ _ in _).
  - exact (conj (proj1 (proj1 H)) (proj2 (proj2 (proj1 H)))).
  Unshelve.
  + change (views CounterRun.ended) with [[CounterRun.member 1; CounterRun.member 2]; [CounterRun.member 2]].
    apply Forall_cons; split; [|apply Forall_singleton]; set_solver.
  + vm_compute. reflexivity.
Defined.

(** Three calls, a batch of two: two ids, and a request in flight for the third. *)
Lemma ids_in_order_and_unique_witness :
  settled_ids CounterRun.served = [(0%nat, inl 100); (1%nat, inl 103)] /\ queue CounterRun.served = [2%nat] /\
  requestInFlight CounterRun.served = true.
Proof.
  destruct (ids_in_order_and_unique CounterRun.served) as (_ & H & _).
  - assert (H3 : ab_reachable (nextId (fun _ => 0) (nextId (fun _ => 0) (nextId (fun _ => 0) newAutoBatcher)))).
    { do 3 (eapply ab_next; [|apply ab_call]). apply ab_new. }
    eapply ab_next; [exact H3|].
    change CounterRun.served with (batch_arrived (newBatch 0 100 3 (Z.of_nat 2) 0) (fun _ => 0)
      (nextId (fun _ => 0) (nextId (fun _ => 0) (nextId (fun _ => 0) newAutoBatcher)))).
    apply (ab_batch _ 100 3 2 0 0 (fun _ => 0)); [done | unfold in_sint; lia | lia | lia | by intros i Hi%not_elem_of_nil].
  - split_and!; [done | done | by apply H].
Defined.
