(* ===== verification/CpSession.v ===== *)
(** * Sessions of the CP subsystem

    [CPSessionManager] and [SessionState] of [src/proxy/cpsubsystem/CPSessionManager.ts] with the operations of
    [FencedLockProxy] and [SessionAwareSemaphoreProxy], which hold their locks and permits on a session.

    A session is an object the operations share: it is a reference into [states], and the map [sessions] has the current
    one of each CP group. An operation waits for promises in between: its [stage] says for which one, and the steps of
    different operations interleave. The members answer in any order. Session ids are the numbers of their [Long]s;
    [Date.now()] is an argument. *)

From S2P Require Export Errors.
#[local] Open Scope Z_scope.

(** ** Data *)

Record SessionState := mkSession {
  id : Z; groupId : string; ttlMillis : Z; creationTime : Z; acquireCount : Z }.

(** What an operation may throw; [AssertionError] and [TypeError] are those of Node.js. *)
Inductive thrown := Hz (e : Err.t) | AssertionError | TypeError.

#[global] Instance thrown_eq_dec : EqDecision thrown.
Proof. solve_decision. Defined.

(** A request for a session, and whether [onResponseOrError] has run. *)
Inductive CreateStatus := Sent | Created (state : nat) | CreateFailed (e : thrown).
Record Create := mkCreate { cr_group : string; cr_status : CreateStatus; cr_forgotten : bool }.

(** The operations that acquire the session. *)
Inductive Kind := Lock | TryLock | Acquire | TryAcquire | Drain | Change.

Inductive outcome :=
  | Fence (fence : Z) | NoFence | Acquired (b : bool) | Drained (count : Z) | Undefined | Threw (e : thrown).

Inductive Stage :=
  | Creating (request : nat)      (* for the session it asked for *)
  | Waiting (request : nat)       (* for the request of another operation *)
  | Resolved (state : nat)        (* has the session, and acquires it next *)
  | Requested (state : nat)       (* for the answer of the CP group *)
  | Done (result : outcome).

Record Op := mkOp {
  op_kind : Kind; op_proxy : nat; op_group : string; op_thread : nat; op_permits : Z;
  op_timeout : Z; op_start : Z; op_stage : Stage }.

Inductive answer := AFence (fence : Z) | ABool (b : bool) | ACount (n : Z) | AUnit | AError (e : thrown).

(** [unlock] and [release] in flight. *)
Inductive Return :=
  | Unlocking (proxy thread : nat) (group : string) (sessionId : Z)
  | Releasing (group : string) (sessionId permits : Z).

(** [heartbeatTask] has its period and whether it was cancelled. [ledger] has what the group confirmed of each session, and is only written: the permits an operation gained, and,
    negative, those given back; [refused] has those of the releases that were refused. *)
Record CP := mkCP {
  states : list SessionState;
  sessions : gmap string nat;
  inFlightCreateSessionRequests : gmap string nat;
  creates : list Create;
  heartbeatTask : option (Z * bool);
  isShutdown : bool;
  ops : list Op;
  returns : list Return;
  lockedSessionIds : gmap (nat * nat) Z;
  threadIdSeq : gmap nat nat;
  closes : list (string * Z);
  ledger : list (string * Z * Z);
  refused : list (string * Z * Z) }.

Definition newCP : CP := mkCP [] ∅ ∅ [] None false [] [] ∅ ∅ [] [] [].

Definition set_states l s := mkCP l (sessions s) (inFlightCreateSessionRequests s) (creates s) (heartbeatTask s) (isShutdown s)
  (ops s) (returns s) (lockedSessionIds s) (threadIdSeq s) (closes s) (ledger s) (refused s).
Definition set_sessions m s := mkCP (states s) m (inFlightCreateSessionRequests s) (creates s) (heartbeatTask s) (isShutdown s)
  (ops s) (returns s) (lockedSessionIds s) (threadIdSeq s) (closes s) (ledger s) (refused s).
Definition set_creates m l s := mkCP (states s) (sessions s) m l (heartbeatTask s) (isShutdown s)
  (ops s) (returns s) (lockedSessionIds s) (threadIdSeq s) (closes s) (ledger s) (refused s).
Definition set_heartbeat h s := mkCP (states s) (sessions s) (inFlightCreateSessionRequests s) (creates s) h (isShutdown s)
  (ops s) (returns s) (lockedSessionIds s) (threadIdSeq s) (closes s) (ledger s) (refused s).
Definition set_shutdown l s := mkCP (states s) (sessions s) (inFlightCreateSessionRequests s) (creates s) ((fun h => (h.1, true)) <$> heartbeatTask s) true
  (ops s) (returns s) (lockedSessionIds s) (threadIdSeq s) l (ledger s) (refused s).
Definition set_ops l s := mkCP (states s) (sessions s) (inFlightCreateSessionRequests s) (creates s) (heartbeatTask s) (isShutdown s)
  l (returns s) (lockedSessionIds s) (threadIdSeq s) (closes s) (ledger s) (refused s).
Definition set_returns l s := mkCP (states s) (sessions s) (inFlightCreateSessionRequests s) (creates s) (heartbeatTask s) (isShutdown s)
  (ops s) l (lockedSessionIds s) (threadIdSeq s) (closes s) (ledger s) (refused s).
Definition set_locked m s := mkCP (states s) (sessions s) (inFlightCreateSessionRequests s) (creates s) (heartbeatTask s) (isShutdown s)
  (ops s) (returns s) m (threadIdSeq s) (closes s) (ledger s) (refused s).
Definition set_threads m s := mkCP (states s) (sessions s) (inFlightCreateSessionRequests s) (creates s) (heartbeatTask s) (isShutdown s)
  (ops s) (returns s) (lockedSessionIds s) m (closes s) (ledger s) (refused s).
Definition book g sid n s := mkCP (states s) (sessions s) (inFlightCreateSessionRequests s) (creates s) (heartbeatTask s) (isShutdown s)
  (ops s) (returns s) (lockedSessionIds s) (threadIdSeq s) (closes s) (ledger s ++ [(g, sid, n)]) (refused s).
Definition refuse g sid n s := mkCP (states s) (sessions s) (inFlightCreateSessionRequests s) (creates s) (heartbeatTask s) (isShutdown s)
  (ops s) (returns s) (lockedSessionIds s) (threadIdSeq s) (closes s) (ledger s) (refused s ++ [(g, sid, n)]).

Definition set_stage (i : nat) (st : Stage) (s : CP) : CP :=
  match ops s !! i with
  | Some o => set_ops (<[i := mkOp (op_kind o) (op_proxy o) (op_group o) (op_thread o) (op_permits o) (op_timeout o) (op_start o) st]> (ops s)) s
  | None => s
  end.

(** ** SessionState *)

Definition MAX_SAFE_INTEGER : Z := 2 ^ 53 - 1.

Definition acquire (count : Z) (st : SessionState) : SessionState :=
  mkSession (id st) (groupId st) (ttlMillis st) (creationTime st) (acquireCount st + count).

Definition release (count : Z) (st : SessionState) : SessionState :=
  mkSession (id st) (groupId st) (ttlMillis st) (creationTime st) (acquireCount st - count).

Definition isInUse (st : SessionState) : bool := 0 <? acquireCount st.

Definition isExpired (timestamp : Z) (st : SessionState) : bool :=
  let expirationTime := creationTime st + ttlMillis st in
  let expirationTime := if expirationTime <? 0 then MAX_SAFE_INTEGER else expirationTime in
  expirationTime <? timestamp.

Definition isValid (now : Z) (st : SessionState) : bool := isInUse st || negb (isExpired now st).

(** ** CPSessionManager *)

Definition NO_SESSION_ID : Z := -1.
Definition DRAIN_SESSION_ACQ_COUNT : Z := 1024.

Definition session (s : CP) (g : string) : option (nat * SessionState) :=
  r ← sessions s !! g; st ← states s !! r; Some (r, st).

Definition getSessionId (g : string) (s : CP) : Z :=
  match session s g with Some (_, st) => id st | None => NO_SESSION_ID end.

Section Manager.

(** What [equals] of a session id does when it gets undefined: the result, or nothing if it throws. *)
Context (equals_undefined : option bool).

Definition same_session (st : SessionState) (sessionId : option Z) : option bool :=
  match sessionId with Some i => Some (id st =? i) | None => equals_undefined end.

(** Nothing, if it throws. *)
Definition releaseSession (g : string) (sessionId : option Z) (permits : Z) (s : CP) : option CP :=
  match session s g with
  | Some (r, st) =>
      b ← same_session st sessionId;
      Some (if b : bool then set_states (<[r := release permits st]> (states s)) s else s)
  | None => Some s
  end.

Definition invalidateSession (g : string) (sessionId : option Z) (s : CP) : option CP :=
  match session s g with
  | Some (r, st) => b ← same_session st sessionId; Some (if b : bool then set_sessions (delete g (sessions s)) s else s)
  | None => Some s
  end.

(** [getOrCreateSession] with [createNewSession]: the stage of the operation that called it, or the error. *)
Definition createNewSession (g : string) (s : CP) : Stage * CP :=
  match inFlightCreateSessionRequests s !! g with
  | None =>
      let request := length (creates s) in
      (Creating request,
       set_creates (<[g := request]> (inFlightCreateSessionRequests s)) (creates s ++ [mkCreate g Sent false]) s)
  | Some request => (Waiting request, s)
  end.

Definition getOrCreateSession (now : Z) (g : string) (s : CP) : (Stage + thrown) * CP :=
  if isShutdown s then (inr (Hz Err.IllegalStateError), s)
  else
    match session s g with
    | Some (r, st) =>
        if isValid now st then (inl (Resolved r), s)
        else let '(stage, s) := createNewSession g s in (inl stage, s)
    | None => let '(stage, s) := createNewSession g s in (inl stage, s)
    end.

(** The answers to a request for a session. *)
Definition scheduleHeartbeatTask (heartbeatMillis : Z) (s : CP) : CP :=
  match heartbeatTask s with Some _ => s | None => set_heartbeat (Some (heartbeatMillis, false)) s end.

Definition set_create (i : nat) (c : Create) (s : CP) : CP :=
  set_creates (inFlightCreateSessionRequests s) (<[i := c]> (creates s)) s.

Definition session_created (request : nat) (sessionId ttl heartbeatMillis now : Z) (s : CP) : CP :=
  match creates s !! request with
  | Some c =>
      let r := length (states s) in
      let s := set_states (states s ++ [mkSession sessionId (cr_group c) ttl now 0]) s in
      let s := set_sessions (<[cr_group c := r]> (sessions s)) s in
      set_create request (mkCreate (cr_group c) (Created r) (cr_forgotten c)) (scheduleHeartbeatTask heartbeatMillis s)
  | None => s
  end.

Definition session_failed (request : nat) (e : thrown) (s : CP) : CP :=
  match creates s !! request with
  | Some c => set_create request (mkCreate (cr_group c) (CreateFailed e) (cr_forgotten c)) s
  | None => s
  end.

(** [onResponseOrError] of the operation that made the request. *)
Definition request_forgotten (request : nat) (s : CP) : CP :=
  match creates s !! request with
  | Some c =>
      set_creates (delete (cr_group c) (inFlightCreateSessionRequests s))
        (<[request := mkCreate (cr_group c) (cr_status c) true]> (creates s)) s
  | None => s
  end.

(** The sessions a heartbeat is sent for. *)
Definition heartbeats (s : CP) : list (string * Z) :=
  omap (fun e => st ← states s !! e.2; if isInUse st then Some (groupId st, id st) else None) (map_to_list (sessions s)).

Definition heartbeat_failed (g : string) (sessionId : Z) (e : thrown) (s : CP) : CP :=
  if bool_decide (e = Hz Err.SessionExpiredError \/ e = Hz Err.CPGroupDestroyedError) then
    default s (invalidateSession g (Some sessionId) s)
  else s.

(** [shutdown], up to the requests to close, and what follows their answers. *)
Definition shutdown (s : CP) : CP :=
  if isShutdown s then s
  else set_shutdown (omap (fun e => st ← states s !! e.2; Some (groupId st, id st)) (map_to_list (sessions s))) s.

Definition shutdown_done (s : CP) : CP := set_creates ∅ (creates s) (set_sessions ∅ s).

(** ** Operations on locks and semaphores *)

(** The end of an operation whose error is not retried; [releaseSession] may throw instead. *)
Definition mapped_error (k : Kind) (e : thrown) : outcome :=
  if bool_decide (e = Hz Err.WaitKeyCancelledError) then
    match k with
    | Lock => Threw (Hz Err.IllegalMonitorStateError)
    | TryLock => NoFence
    | Acquire => Threw (Hz Err.IllegalStateError)
    | TryAcquire => Acquired false
    | Drain | Change => Threw e
    end
  else Threw e.

Definition finish_error (i : nat) (sessionId : option Z) (e : thrown) (s : CP) : CP :=
  match ops s !! i with
  | Some o =>
      match releaseSession (op_group o) sessionId (op_permits o) s with
      | Some s => set_stage i (Done (mapped_error (op_kind o) e)) s
      | None => set_stage i (Done (Threw TypeError)) s
      end
  | None => s
  end.

Definition nextThreadId (proxy : nat) (s : CP) : nat * CP :=
  let t := default O (threadIdSeq s !! proxy) in (t, set_threads (<[proxy := S t]> (threadIdSeq s)) s).

(** The first stage of a try: [acquireSession]. *)
Definition begin (i : nat) (now : Z) (s : CP) : CP :=
  match ops s !! i with
  | Some o =>
      match getOrCreateSession now (op_group o) s with
      | (inl stage, s) => set_stage i stage s
      | (inr e, s) => finish_error i None e s
      end
  | None => s
  end.

(** A new try: [doLock] and [doTryLock] keep their thread id, the operations of a semaphore take another one. *)
Definition again (i : nat) (timeout now : Z) (s : CP) : CP :=
  match ops s !! i with
  | Some o =>
      let '(thread, s) :=
        match op_kind o with Lock | TryLock => (op_thread o, s) | _ => nextThreadId (op_proxy o) s end in
      let o := mkOp (op_kind o) (op_proxy o) (op_group o) thread (op_permits o) timeout now (op_stage o) in
      begin i now (set_ops (<[i := o]> (ops s)) s)
  | None => s
  end.

Definition op_permits_of (k : Kind) (permits : Z) : Z :=
  match k with Acquire | TryAcquire => permits | Drain => DRAIN_SESSION_ACQ_COUNT | _ => 1 end.

(** [lock], [tryLock], [acquire], [tryAcquire], [drainPermits] and [doChangePermits]. *)
Definition call (k : Kind) (proxy : nat) (g : string) (permits timeout now : Z) (s : CP) : CP :=
  let '(thread, s) := nextThreadId proxy s in
  let i := length (ops s) in
  begin i now (set_ops (ops s ++ [mkOp k proxy g thread (op_permits_of k permits) timeout now (Done Undefined)]) s).

(** The operations of the proxies; a failed assertion throws at once. *)
Definition lock (proxy : nat) (g : string) (now : Z) (s : CP) : option thrown * CP := (None, call Lock proxy g 1 0 now s).

Definition tryLock (proxy : nat) (g : string) (timeout now : Z) (s : CP) : option thrown * CP :=
  if timeout <? 0 then (Some AssertionError, s) else (None, call TryLock proxy g 1 timeout now s).

Definition acquire_permits (proxy : nat) (g : string) (permits now : Z) (s : CP) : option thrown * CP :=
  if permits <=? 0 then (Some AssertionError, s) else (None, call Acquire proxy g permits (-1) now s).

Definition tryAcquire (proxy : nat) (g : string) (permits timeout now : Z) (s : CP) : option thrown * CP :=
  if (permits <=? 0) || (timeout <? 0) then (Some AssertionError, s)
  else (None, call TryAcquire proxy g permits timeout now s).

Definition drainPermits (proxy : nat) (g : string) (now : Z) (s : CP) : option thrown * CP :=
  (None, call Drain proxy g 0 0 now s).

(** [reducePermits] and [increasePermits]: nothing is done for zero permits. *)
Definition changePermits (proxy : nat) (g : string) (permits now : Z) (s : CP) : option thrown * CP :=
  if permits <? 0 then (Some AssertionError, s)
  else if permits =? 0 then (None, s) else (None, call Change proxy g 1 0 now s).

(** The handler of a rejection. *)
Definition caught (i : nat) (sessionId : option Z) (e : thrown) (now : Z) (s : CP) : CP :=
  match ops s !! i with
  | Some o =>
      if bool_decide (e = Hz Err.SessionExpiredError) then
        match invalidateSession (op_group o) sessionId s with
        | None => set_stage i (Done (Threw TypeError)) s
        | Some s =>
            match op_kind o with
            | Lock | Acquire | Drain => again i (op_timeout o) now s
            | TryLock | TryAcquire =>
                let timeout := op_timeout o - (now - op_start o) in
                if timeout <? 0 then
                  set_stage i (Done (match op_kind o with TryLock => NoFence | _ => Acquired false end)) s
                else again i timeout now s
            | Change => set_stage i (Done (Threw (Hz Err.IllegalStateError))) s
            end
        end
      else finish_error i sessionId e s
  | None => s
  end.

(** The session is there: the request goes to the CP group. *)
Definition acquired (i r : nat) (s : CP) : CP :=
  match ops s !! i, states s !! r with
  | Some o, Some st => set_stage i (Requested r) (set_states (<[r := acquire (op_permits o) st]> (states s)) s)
  | _, _ => s
  end.

(** The stages an operation goes through once what it waits for is settled. *)
Definition resume (i : nat) (now : Z) (s : CP) : CP :=
  match ops s !! i with
  | Some o =>
      match op_stage o with
      | Resolved r => acquired i r s
      | Creating request =>
          match cr_status <$> creates s !! request with
          | Some (Created r) => acquired i r s
          | Some (CreateFailed e) => caught i None e now s
          | _ => s
          end
      | Waiting _ => begin i now s
      | _ => s
      end
  | None => s
  end.

(** [releaseSession] of an operation that has its session id. *)
Definition release_own (o : Op) (sessionId permits : Z) (s : CP) : CP :=
  default s (releaseSession (op_group o) (Some sessionId) permits s).

Definition isValidFence (fence : Z) : bool := 0 <? fence.

(** The answer of the CP group to the request of an operation, by operation. *)
Definition keep_lock (i : nat) (o : Op) (sessionId fence : Z) (s : CP) : CP :=
  set_stage i (Done (Fence fence)) (book (op_group o) sessionId (op_permits o)
    (set_locked (<[(op_proxy o, op_thread o) := sessionId]> (lockedSessionIds s)) s)).

Definition lock_answered (i : nat) (o : Op) (sessionId fence now : Z) (s : CP) : CP :=
  if isValidFence fence then keep_lock i o sessionId fence s else caught i (Some sessionId) AssertionError now s.

Definition tryLock_answered (i : nat) (o : Op) (sessionId fence : Z) (s : CP) : CP :=
  if isValidFence fence then keep_lock i o sessionId fence s
  else set_stage i (Done NoFence) (release_own o sessionId (op_permits o) s).

Definition acquire_answered (i : nat) (o : Op) (sessionId : Z) (s : CP) : CP :=
  set_stage i (Done Undefined) (book (op_group o) sessionId (op_permits o) s).

Definition tryAcquire_answered (i : nat) (o : Op) (sessionId : Z) (b : bool) (s : CP) : CP :=
  set_stage i (Done (Acquired b))
    (if b then book (op_group o) sessionId (op_permits o) s else release_own o sessionId (op_permits o) s).

Definition drain_answered (i : nat) (o : Op) (sessionId count : Z) (s : CP) : CP :=
  set_stage i (Done (Drained count))
    (book (op_group o) sessionId count (release_own o sessionId (DRAIN_SESSION_ACQ_COUNT - count) s)).

Definition change_answered (i : nat) (o : Op) (sessionId : Z) (s : CP) : CP :=
  set_stage i (Done Undefined) (release_own o sessionId (op_permits o) s).

Definition answered (i : nat) (a : answer) (now : Z) (s : CP) : CP :=
  match ops s !! i with
  | Some o =>
      match op_stage o with
      | Requested r =>
          match id <$> states s !! r with
          | Some sessionId =>
              match a, op_kind o with
              | AError e, _ => caught i (Some sessionId) e now s
              | AFence fence, Lock => lock_answered i o sessionId fence now s
              | AFence fence, TryLock => tryLock_answered i o sessionId fence s
              | _, Acquire => acquire_answered i o sessionId s
              | ABool b, TryAcquire => tryAcquire_answered i o sessionId b s
              | ACount count, Drain => drain_answered i o sessionId count s
              | AUnit, Change => change_answered i o sessionId s
              | _, _ => s
              end
          | None => s
          end
      | _ => s
      end
  | None => s
  end.

(** [unlock]: an error at once, or a request. *)
Definition unlock (proxy thread : nat) (g : string) (s : CP) : option thrown * CP :=
  let sessionId := getSessionId g s in
  let lost := match lockedSessionIds s !! (proxy, thread) with Some l => negb (l =? sessionId) | None => false end in
  if lost then (Some (Hz Err.LockOwnershipLostError), set_locked (delete (proxy, thread) (lockedSessionIds s)) s)
  else if NO_SESSION_ID =? sessionId then
    (Some (Hz Err.IllegalMonitorStateError), set_locked (delete (proxy, thread) (lockedSessionIds s)) s)
  else (None, set_returns (returns s ++ [Unlocking proxy thread g sessionId]) s).

(** [release] of a semaphore. *)
Definition release_permits (proxy : nat) (g : string) (permits : Z) (s : CP) : option thrown * CP :=
  let sessionId := getSessionId g s in
  if permits <=? 0 then (Some AssertionError, s)
  else if NO_SESSION_ID =? sessionId then (Some (Hz Err.IllegalStateError), s)
  else
    let '(_, s) := nextThreadId proxy s in
    (None, set_returns (returns s ++ [Releasing g sessionId permits]) s).

(** Their answers: nothing, or the error. *)
Definition returned (r : Return) (e : option thrown) (s : CP) : option thrown * CP :=
  match r, e with
  | Unlocking proxy thread g sessionId, None =>
      let s := set_locked (delete (proxy, thread) (lockedSessionIds s)) s in
      (None, book g sessionId (- (1)) (default s (releaseSession g (Some sessionId) 1 s)))
  | Unlocking proxy thread g sessionId, Some e =>
      if bool_decide (e = Hz Err.SessionExpiredError) then
        let s := set_locked (delete (proxy, thread) (lockedSessionIds s)) s in
        (Some (Hz Err.LockOwnershipLostError), default s (invalidateSession g (Some sessionId) s))
      else if bool_decide (e = Hz Err.IllegalMonitorStateError) then
        (Some e, set_locked (delete (proxy, thread) (lockedSessionIds s)) s)
      else (Some e, s)
  | Releasing g sessionId permits, None =>
      (None, book g sessionId (- permits) (default s (releaseSession g (Some sessionId) permits s)))
  | Releasing g sessionId permits, Some e =>
      if bool_decide (e = Hz Err.SessionExpiredError) then
        (Some (Hz Err.IllegalStateError), default s (invalidateSession g (Some sessionId) s))
      else (Some e, refuse g sessionId permits (default s (releaseSession g (Some sessionId) permits s)))
  end.

(** [destroy] of a lock, when the request is answered. *)
Definition destroyed (proxy : nat) (s : CP) : CP :=
  set_locked (filter (fun e => e.1.1 <> proxy) (lockedSessionIds s)) s.
End Manager.

(** ** The event loop *)

Section Steps.
Context (equals_undefined : option bool).

(** What the operation waits for is settled, and [onResponseOrError] of the request, which was there first, has run. *)
Definition ready (s : CP) (st : Stage) : Prop :=
  match st with
  | Resolved _ => True
  | Creating q | Waiting q => exists c, creates s !! q = Some c /\ cr_status c <> Sent /\ cr_forgotten c = true
  | _ => False
  end.

(** A CP group gives each of its sessions an id of its own. *)
Inductive step : CP -> CP -> Prop :=
  | cp_lock s p g now : step s (lock equals_undefined p g now s).2
  | cp_tryLock s p g t now : step s (tryLock equals_undefined p g t now s).2
  | cp_acquire s p g n now : step s (acquire_permits equals_undefined p g n now s).2
  | cp_tryAcquire s p g n t now : step s (tryAcquire equals_undefined p g n t now s).2
  | cp_drain s p g now : step s (drainPermits equals_undefined p g now s).2
  | cp_change s p g n now : step s (changePermits equals_undefined p g n now s).2
  | cp_created s q c sid ttl hb now : creates s !! q = Some c -> cr_status c = Sent ->
      (forall r st, states s !! r = Some st -> groupId st = cr_group c -> id st <> sid) ->
      step s (session_created q sid ttl hb now s)
  | cp_create_failed s q c e : creates s !! q = Some c -> cr_status c = Sent -> step s (session_failed q e s)
  | cp_forgotten s q c : creates s !! q = Some c -> cr_status c <> Sent -> cr_forgotten c = false ->
      step s (request_forgotten q s)
  | cp_resume s i o now : ops s !! i = Some o -> ready s (op_stage o) -> step s (resume equals_undefined i now s)
  | cp_answered s i a now : step s (answered equals_undefined i a now s)
  | cp_unlock s p t g : step s (unlock p t g s).2
  | cp_release s p g n : step s (release_permits p g n s).2
  | cp_returned s l r l' e : returns s = l ++ r :: l' -> step s (returned equals_undefined r e (set_returns (l ++ l') s)).2
  | cp_destroyed s p : step s (destroyed p s)
  | cp_heartbeat_failed s g sid e : step s (heartbeat_failed equals_undefined g sid e s)
  | cp_shutdown s : step s (shutdown s)
  | cp_shutdown_done s : isShutdown s = true -> step s (shutdown_done s).

Inductive reachable : CP -> Prop :=
  | reach_new : reachable newCP
  | reach_step s s' : reachable s -> step s s' -> reachable s'.
End Steps.

(** ** Accounting *)

Section Accounting.

Definition zsum {A} (f : A -> Z) (l : list A) : Z := foldr (fun x n => f x + n) 0 l.

Lemma zsum_app {A} (f : A -> Z) l l' : zsum f (l ++ l') = zsum f l + zsum f l'.
Proof. unfold zsum. induction l as [|x l IH]; cbn; [done|]. rewrite IH. lia. Qed.

Lemma zsum_insert {A} (f : A -> Z) l i x y : l !! i = Some x -> zsum f (<[i := y]> l) = zsum f l - f x + f y.
Proof.
  intros Hi. rewrite <- (take_drop_middle l i x Hi) at 2. rewrite insert_take_drop by (by eapply lookup_lt_Some).
  rewrite !zsum_app. unfold zsum. cbn. lia.
Qed.

Lemma zsum_zero {A} (f : A -> Z) l : (forall x, x ∈ l -> f x = 0) -> zsum f l = 0.
Proof.
  unfold zsum. induction l as [|x l IH]; intros Hf; cbn; [done|]. rewrite IH, (Hf x) by (try (intros; apply Hf; by right); by left). done.
Qed.

#[local] Arguments zsum : simpl never.

(** What an operation waiting for its answer has acquired of a session. *)
Definition share (r : nat) (o : Op) : Z :=
  match op_stage o with Requested r' => if decide (r' = r) then op_permits o else 0 | _ => 0 end.

Definition entry_of (g : string) (sid : Z) (e : string * Z * Z) : Z :=
  if decide (e.1 = (g, sid)) then e.2 else 0.

Lemma entry_single g sid g' sid' n : zsum (entry_of g sid) [(g', sid', n)] = if decide ((g, sid) = (g', sid')) then n else 0.
Proof. unfold zsum, entry_of. cbn. repeat destruct (decide _); try congruence; lia. Qed.

Definition in_flight (s : CP) (r : nat) : Z := zsum (share r) (ops s).

(** What the group confirmed, less the releases it refused. *)
Definition balance (s : CP) (g : string) (sid : Z) : Z := zsum (entry_of g sid) (ledger s) - zsum (entry_of g sid) (refused s).

Definition owed (s : CP) (r : nat) : Z :=
  match states s !! r with
  | Some st => acquireCount st - in_flight s r - balance s (groupId st) (id st)
  | None => 0
  end.

Definition with_stage (st : Stage) (o : Op) : Op :=
  mkOp (op_kind o) (op_proxy o) (op_group o) (op_thread o) (op_permits o) (op_timeout o) (op_start o) st.

Lemma set_stage_run s i o st : ops s !! i = Some o -> set_stage i st s = set_ops (<[i := with_stage st o]> (ops s)) s.
Proof. intros E. unfold set_stage. by rewrite E. Qed.

Lemma owed_set_op s i o o' r : ops s !! i = Some o -> owed (set_ops (<[i := o']> (ops s)) s) r =
  match states s !! r with Some _ => owed s r + share r o - share r o' | None => 0 end.
Proof.
  intros E. unfold owed, in_flight. cbn. destruct (states s !! r); [|done]. rewrite (zsum_insert _ _ _ _ _ E). unfold balance. cbn. lia.
Qed.

Lemma owed_book s g sid n r st : states s !! r = Some st ->
  owed (book g sid n s) r = owed s r - (if decide ((groupId st, id st) = (g, sid)) then n else 0).
Proof.
  intros E. unfold owed, in_flight, balance. cbn. rewrite E, zsum_app, entry_single. lia.
Qed.

Lemma owed_refuse s g sid n r st : states s !! r = Some st ->
  owed (refuse g sid n s) r = owed s r + (if decide ((groupId st, id st) = (g, sid)) then n else 0).
Proof.
  intros E. unfold owed, in_flight, balance. cbn. rewrite E, zsum_app, entry_single. lia.
Qed.

Lemma owed_acquire s r0 st0 n r : states s !! r0 = Some st0 ->
  owed (set_states (<[r0 := acquire n st0]> (states s)) s) r = owed s r + (if decide (r = r0) then n else 0).
Proof.
  intros E. unfold owed, in_flight, balance. cbn. destruct (decide (r = r0)) as [->|Hr].
  - rewrite list_lookup_insert_eq by (by eapply lookup_lt_Some). rewrite E. cbn. lia.
  - rewrite list_lookup_insert_ne by done. destruct (states s !! r); lia.
Qed.

Lemma release_acquire n st : release n st = acquire (- n) st.
Proof. unfold release, acquire. f_equal. Qed.
End Accounting.

(** ** Invariant *)

Section Invariant.
#[local] Arguments zsum : simpl never.
Context (equals_undefined : option bool) (Hund : equals_undefined <> Some true).

Definition state_of (s : CP) (r : nat) (g : string) : Prop := exists st, states s !! r = Some st /\ groupId st = g.
Definition known (s : CP) (g : string) (sid : Z) : Prop := exists r st, states s !! r = Some st /\ groupId st = g /\ id st = sid.
Definition current (s : CP) (r : nat) : Prop := exists g, sessions s !! g = Some r.

Definition stage_ok (s : CP) (g : string) (st : Stage) : Prop :=
  match st with
  | Requested r | Resolved r => state_of s r g
  | Creating q => exists c, creates s !! q = Some c /\ cr_group c = g
  | _ => True
  end.

Definition return_of (x : Return) : string * Z :=
  match x with Unlocking _ _ g sid => (g, sid) | Releasing g sid _ => (g, sid) end.

Record Inv (s : CP) : Prop := {
  c_sessions : forall g r, sessions s !! g = Some r -> state_of s r g;
  c_ids : forall r1 r2 st1 st2, states s !! r1 = Some st1 -> states s !! r2 = Some st2 -> groupId st1 = groupId st2 ->
    id st1 = id st2 -> r1 = r2;
  c_ops : forall i o, ops s !! i = Some o -> stage_ok s (op_group o) (op_stage o);
  c_drain : forall i o, ops s !! i = Some o -> op_kind o = Drain -> op_permits o = DRAIN_SESSION_ACQ_COUNT;
  c_created : forall q c r, creates s !! q = Some c -> cr_status c = Created r -> state_of s r (cr_group c);
  c_ledger : forall e, e ∈ ledger s ++ refused s -> known s e.1.1 e.1.2;
  c_returns : forall x, x ∈ returns s -> known s (return_of x).1 (return_of x).2;
  c_request : forall q c, creates s !! q = Some c -> cr_forgotten c = false ->
    inFlightCreateSessionRequests s !! cr_group c = Some q \/ isShutdown s = true;
  c_sent : forall q c, creates s !! q = Some c -> cr_status c = Sent -> cr_forgotten c = false;
  c_one : forall q1 q2 c1 c2, creates s !! q1 = Some c1 -> creates s !! q2 = Some c2 -> cr_status c1 = Sent ->
    cr_status c2 = Sent -> cr_group c1 = cr_group c2 -> q1 = q2;
  c_count : forall r, current s r -> owed s r = 0 }.

Ltac frame I := destruct I; constructor; assumption.

Lemma Inv_new : Inv newCP.
Proof.
  constructor; cbn; intros *; rewrite ?lookup_empty, ?lookup_nil; try done.
  - by intros ?%not_elem_of_nil.
  - by intros ?%not_elem_of_nil.
Qed.

Definition ids (s : CP) : list (string * Z) := (fun st => (groupId st, id st)) <$> states s.

Lemma state_of_ids s s' r g : ids s' = ids s -> state_of s r g -> state_of s' r g.
Proof.
  intros E (st & Hr & Hg). assert (Hi : ids s' !! r = Some (g, id st)) by (unfold ids in *; rewrite E, list_lookup_fmap, Hr; cbn; by rewrite Hg).
  unfold ids in Hi. rewrite list_lookup_fmap in Hi. apply fmap_Some in Hi as (st' & Hr' & [= -> _]). by exists st'.
Qed.

Lemma known_ids s s' g sid : ids s' = ids s -> known s g sid -> known s' g sid.
Proof.
  intros E (r & st & Hr & Hg & Hi). assert (Hx : ids s' !! r = Some (g, sid)) by (unfold ids in *; rewrite E, list_lookup_fmap, Hr; cbn; by rewrite Hg, Hi).
  unfold ids in Hx. rewrite list_lookup_fmap in Hx. apply fmap_Some in Hx as (st' & Hr' & [= -> ->]). by exists r, st'.
Qed.

Lemma ids_inj s s' : ids s' = ids s ->
  (forall r1 r2 st1 st2, states s !! r1 = Some st1 -> states s !! r2 = Some st2 -> groupId st1 = groupId st2 -> id st1 = id st2 -> r1 = r2) ->
  forall r1 r2 st1 st2, states s' !! r1 = Some st1 -> states s' !! r2 = Some st2 -> groupId st1 = groupId st2 -> id st1 = id st2 -> r1 = r2.
Proof.
  intros E Hi r1 r2 st1 st2 H1 H2 Hg Hid.
  assert (X : forall r st, states s' !! r = Some st -> exists st', states s !! r = Some st' /\ groupId st' = groupId st /\ id st' = id st).
  { intros r st Hr. assert (Hx : ids s !! r = Some (groupId st, id st)) by (rewrite <- E; unfold ids; by rewrite list_lookup_fmap, Hr).
    unfold ids in Hx. rewrite list_lookup_fmap in Hx. apply fmap_Some in Hx as (st' & Hr' & [= -> ->]). by exists st'. }
  destruct (X r1 st1 H1) as (t1 & E1 & G1 & I1), (X r2 st2 H2) as (t2 & E2 & G2 & I2). apply (Hi r1 r2 t1 t2); congruence.
Qed.

(** [s'] has the sessions, the operations and the requests of [s]; what it has booked is known. *)
Record agrees (s s' : CP) : Prop := {
  ag_sessions : sessions s' = sessions s;
  ag_ops : ops s' = ops s;
  ag_creates : creates s' = creates s;
  ag_inflight : inFlightCreateSessionRequests s' = inFlightCreateSessionRequests s;
  ag_shutdown : isShutdown s' = isShutdown s;
  ag_returns : forall x, x ∈ returns s' -> x ∈ returns s \/ known s (return_of x).1 (return_of x).2;
  ag_ids : ids s' = ids s;
  ag_ledger : forall e, e ∈ ledger s' ++ refused s' -> e ∈ ledger s ++ refused s \/ known s e.1.1 e.1.2 }.

Lemma agrees_refl s : agrees s s.
Proof. constructor; auto. Qed.

Lemma agrees_trans s1 s2 s3 : agrees s1 s2 -> agrees s2 s3 -> agrees s1 s3.
Proof.
  intros A B. constructor.
  - by rewrite (ag_sessions _ _ B), (ag_sessions _ _ A).
  - by rewrite (ag_ops _ _ B), (ag_ops _ _ A).
  - by rewrite (ag_creates _ _ B), (ag_creates _ _ A).
  - by rewrite (ag_inflight _ _ B), (ag_inflight _ _ A).
  - by rewrite (ag_shutdown _ _ B), (ag_shutdown _ _ A).
  - intros x [Hx|Hx]%(ag_returns _ _ B); [by apply (ag_returns _ _ A)|]. right. by eapply known_ids; [symmetry; apply (ag_ids _ _ A)|].
  - by rewrite (ag_ids _ _ B), (ag_ids _ _ A).
  - intros e [He|He]%(ag_ledger _ _ B); [by apply (ag_ledger _ _ A)|]. right. by eapply known_ids; [symmetry; apply (ag_ids _ _ A)|].
Qed.

Lemma stage_ok_agrees s s' g st : agrees s s' -> stage_ok s g st -> stage_ok s' g st.
Proof.
  intros A. destruct st; cbn; try done; rewrite ?(ag_creates _ _ A); try done; eauto using state_of_ids, ag_ids.
Qed.

Lemma Inv_agrees s s' : Inv s -> agrees s s' -> (forall r, current s r -> owed s' r = owed s r) -> Inv s'.
Proof.
  intros I A Ho. constructor; intros *; rewrite ?(ag_sessions _ _ A), ?(ag_ops _ _ A), ?(ag_creates _ _ A), ?(ag_inflight _ _ A), ?(ag_shutdown _ _ A).
  - intros Hg. eapply state_of_ids; [apply A | by apply I].
  - eapply ids_inj; [apply A | apply I].
  - intros Hi. eapply stage_ok_agrees; [done | by eapply (c_ops s I)].
  - apply (c_drain s I).
  - intros Hq Hr. eapply state_of_ids; [apply A | by eapply (c_created s I)].
  - intros [He|He]%(ag_ledger _ _ A); (eapply known_ids; [apply A|]); [by apply I | done].
  - intros [Hx|Hx]%(ag_returns _ _ A); (eapply known_ids; [apply A|]); [by apply I | done].
  - apply I.
  - apply I.
  - apply I.
  - intros (g & Hg). rewrite (ag_sessions _ _ A) in Hg. rewrite Ho by (by exists g). apply I. by exists g.
Qed.

Definition same_op (o o' : Op) : Prop := op_group o' = op_group o /\ op_kind o' = op_kind o /\ op_permits o' = op_permits o.

(** An operation moves on, and the sessions in use are acquired and released accordingly. *)
Lemma Inv_move s s1 i o o' : Inv s -> agrees s s1 -> ops s !! i = Some o -> same_op o o' ->
  stage_ok s (op_group o) (op_stage o') -> (forall r, current s r -> owed s1 r = owed s r - share r o + share r o') ->
  Inv (set_ops (<[i := o']> (ops s1)) s1).
Proof.
  intros I A Hi (Hg & Hk & Hp) Hst Ho. pose proof (Hi) as Hi1. rewrite <- (ag_ops _ _ A) in Hi1. constructor; cbn; intros *;
    rewrite ?(ag_sessions _ _ A), ?(ag_creates _ _ A), ?(ag_inflight _ _ A), ?(ag_shutdown _ _ A).
  - intros Hr. eapply state_of_ids; [apply A | by apply I].
  - eapply ids_inj; [apply A | apply I].
  - intros Hj. apply list_lookup_insert_Some in Hj as [(-> & <- & _)|(_ & Hj)].
    + rewrite Hg. by apply (stage_ok_agrees s s1).
    + apply (stage_ok_agrees s s1); [done|]. rewrite (ag_ops _ _ A) in Hj. by eapply (c_ops s I).
  - intros Hj. apply list_lookup_insert_Some in Hj as [(-> & <- & _)|(_ & Hj)].
    + rewrite Hk, Hp. by eapply (c_drain s I).
    + rewrite (ag_ops _ _ A) in Hj. by eapply (c_drain s I).
  - intros Hq Hr. eapply state_of_ids; [apply A | by eapply (c_created s I)].
  - intros [He|He]%(ag_ledger _ _ A); (eapply known_ids; [apply A|]); [by apply I | done].
  - intros [Hx|Hx]%(ag_returns _ _ A); (eapply known_ids; [apply A|]); [by apply I | done].
  - apply I.
  - apply I.
  - apply I.
  - intros (g & Hr). cbn in Hr. rewrite (ag_sessions _ _ A) in Hr. rewrite (owed_set_op _ _ _ _ _ Hi1).
    destruct (states s1 !! r); [|done]. rewrite Ho by (by exists g). rewrite (c_count s I r) by (by exists g). lia.
Qed.

Lemma Inv_set_stage s s1 i o st : Inv s -> agrees s s1 -> ops s !! i = Some o -> stage_ok s (op_group o) st ->
  (forall r, st <> Requested r) -> (forall r, current s r -> owed s1 r = owed s r - share r o) -> Inv (set_stage i st s1).
Proof.
  intros I A Hi Hst Hn Ho. rewrite (set_stage_run s1 i o) by (by rewrite (ag_ops _ _ A)).
  eapply Inv_move; [done | done | done | done | done |]. intros r Hr. rewrite Ho by done. unfold share at 3. cbn.
  destruct st; try lia. by edestruct Hn.
Qed.

Lemma ids_lookup s r st : states s !! r = Some st -> ids s !! r = Some (groupId st, id st).
Proof. intros E. unfold ids. by rewrite list_lookup_fmap, E. Qed.

Lemma current_ids s r g sid : Inv s -> current s r -> ids s !! r = Some (g, sid) -> exists st, session s g = Some (r, st) /\ id st = sid.
Proof.
  intros I (g' & Hg) E. destruct (c_sessions s I g' r Hg) as (st & Hr & Hgr). rewrite (ids_lookup _ _ _ Hr) in E. injection E as <- <-.
  exists st. unfold session. rewrite Hgr, Hg. cbn. by rewrite Hr.
Qed.

Lemma session_ids s g r st : Inv s -> session s g = Some (r, st) -> states s !! r = Some st /\ sessions s !! g = Some r /\ ids s !! r = Some (g, id st).
Proof.
  intros I E. unfold session in E. destruct (sessions s !! g) as [r'|] eqn:Eg; [|done]. cbn in E. destruct (states s !! r') as [st'|] eqn:Er; [|done].
  cbn in E. injection E as -> ->. split_and!; [done | done |]. rewrite (ids_lookup _ _ _ Er). destruct (c_sessions s I g r Eg) as (x & Hx & <-). by simplify_eq.
Qed.

Definition if_of (s : CP) (r : nat) (g : string) (sid n : Z) : Z := if decide (ids s !! r = Some (g, sid)) then n else 0.

Lemma ids_states_insert s r st st' : states s !! r = Some st -> groupId st' = groupId st -> id st' = id st ->
  ids (set_states (<[r := st']> (states s)) s) = ids s.
Proof. intros Hr Hg Hi. unfold ids. cbn. rewrite list_fmap_insert, list_insert_id; [done|]. rewrite list_lookup_fmap, Hr. cbn. by rewrite Hg, Hi. Qed.

Lemma agrees_release s r st n : states s !! r = Some st -> agrees s (set_states (<[r := release n st]> (states s)) s).
Proof. intros Hr. constructor; auto. by eapply ids_states_insert. Qed.

Lemma agrees_acquire s r st n : states s !! r = Some st -> agrees s (set_states (<[r := acquire n st]> (states s)) s).
Proof. intros Hr. constructor; auto. by eapply ids_states_insert. Qed.

Lemma agrees_book s g sid n : known s g sid -> agrees s (book g sid n s).
Proof. intros Hk. constructor; auto. cbn. intros e. rewrite !elem_of_app, list_elem_of_singleton. intros [[?| ->]|?]; auto. Qed.

Lemma agrees_refuse s g sid n : known s g sid -> agrees s (refuse g sid n s).
Proof. intros Hk. constructor; auto. cbn. intros e. rewrite !elem_of_app, list_elem_of_singleton. intros [?|[?| ->]]; auto. Qed.

Lemma agrees_locked s m : agrees s (set_locked m s).
Proof. constructor; auto. Qed.

Lemma agrees_threads s m : agrees s (set_threads m s).
Proof. constructor; auto. Qed.

Lemma owed_book_of s g sid n r : owed (book g sid n s) r = owed s r - if_of s r g sid n.
Proof.
  unfold if_of. destruct (states s !! r) as [st|] eqn:E.
  - rewrite (owed_book _ _ _ _ _ _ E), (ids_lookup _ _ _ E). repeat destruct (decide _); congruence.
  - unfold owed. cbn. rewrite E, decide_False; [done|]. unfold ids. by rewrite list_lookup_fmap, E.
Qed.

Lemma owed_refuse_of s g sid n r : owed (refuse g sid n s) r = owed s r + if_of s r g sid n.
Proof.
  unfold if_of. destruct (states s !! r) as [st|] eqn:E.
  - rewrite (owed_refuse _ _ _ _ _ _ E), (ids_lookup _ _ _ E). repeat destruct (decide _); congruence.
  - unfold owed. cbn. rewrite E, decide_False; [done|]. unfold ids. by rewrite list_lookup_fmap, E.
Qed.

Lemma release_some s g sid n : Inv s -> exists s', releaseSession equals_undefined g (Some sid) n s = Some s' /\ agrees s s' /\
  forall r, current s r -> owed s' r = owed s r - if_of s r g sid n.
Proof.
  intros I. unfold releaseSession. destruct (session s g) as [[r0 st0]|] eqn:E.
  - cbn. eexists. split; [done|]. destruct (session_ids _ _ _ _ I E) as (Hr0 & Hs0 & Hi0). destruct (Z.eqb_spec (id st0) sid) as [<-|Hne].
    + split; [by apply agrees_release|]. intros r Hr. rewrite release_acquire, owed_acquire by done. unfold if_of.
      destruct (decide (r = r0)) as [->|Hrr]; [rewrite decide_True by done; lia|]. rewrite decide_False; [lia|].
      intros Hi. destruct (current_ids _ _ _ _ I Hr Hi) as (st & Hs & _). rewrite E in Hs. congruence.
    + split; [apply agrees_refl|]. intros r Hr. unfold if_of. rewrite decide_False; [lia|].
      intros Hi. destruct (current_ids _ _ _ _ I Hr Hi) as (st & Hs & Hst). rewrite E in Hs. congruence.
  - eexists. split; [done|]. split; [apply agrees_refl|]. intros r Hr. unfold if_of. rewrite decide_False; [lia|].
    intros Hi. destruct (current_ids _ _ _ _ I Hr Hi) as (st & Hs & _). congruence.
Qed.

(** What an operation that waits for the group has of its session. *)
Lemma share_of s i o r st : Inv s -> ops s !! i = Some o -> op_stage o = Requested r -> states s !! r = Some st ->
  groupId st = op_group o /\ forall r', share r' o = if_of s r' (op_group o) (id st) (op_permits o).
Proof.
  intros I Hi Hst Hr. pose proof (c_ops s I i o Hi) as Hok. rewrite Hst in Hok. destruct Hok as (st' & Hr' & Hg). simplify_eq.
  split; [done|]. intros r'. unfold share, if_of. rewrite Hst. destruct (decide (r = r')) as [<-|Hn].
  - rewrite decide_True; [done|]. rewrite (ids_lookup _ _ _ Hr). by rewrite Hg.
  - rewrite decide_False; [done|]. intros E. unfold ids in E. rewrite list_lookup_fmap in E. apply fmap_Some in E as (x & Hx & [= E1 E2]).
    apply Hn. apply (c_ids s I r r' st x); congruence.
Qed.

(** An operation that has nothing of a current session. *)
Definition free (s : CP) (o : Op) : Prop := forall r, current s r -> share r o = 0.

Lemma not_requested_free s o : (forall r, op_stage o <> Requested r) -> free s o.
Proof. intros Hn r _. unfold share. destruct (op_stage o) eqn:E; try done. by edestruct Hn. Qed.

Lemma Inv_done s i o x : Inv s -> ops s !! i = Some o -> free s o -> Inv (set_stage i (Done x) s).
Proof. intros I Hi Hf. eapply Inv_set_stage; [done | apply agrees_refl | done | done | done |]. intros r Hr. rewrite Hf by done. lia. Qed.

Lemma Inv_finish_none s i o e : Inv s -> ops s !! i = Some o -> free s o -> Inv (finish_error equals_undefined i None e s).
Proof.
  intros I Hi Hf. unfold finish_error. rewrite Hi. unfold releaseSession. destruct (session s (op_group o)) as [[r st]|]; cbn.
  - destruct equals_undefined as [[]|]; cbn; [done | by eapply Inv_done..].
  - by eapply Inv_done.
Qed.

Lemma Inv_finish_some s i o r st e : Inv s -> ops s !! i = Some o -> op_stage o = Requested r -> states s !! r = Some st ->
  Inv (finish_error equals_undefined i (Some (id st)) e s).
Proof.
  intros I Hi Hst Hr. unfold finish_error. rewrite Hi. destruct (share_of _ _ _ _ _ I Hi Hst Hr) as [Hg Hs].
  destruct (release_some s (op_group o) (id st) (op_permits o) I) as (s' & -> & A & Ho).
  eapply Inv_set_stage; [done | done | done | done | done |]. intros r' Hr'. by rewrite Ho, Hs.
Qed.

Lemma Inv_create s g : Inv s -> isShutdown s = false -> inFlightCreateSessionRequests s !! g = None ->
  Inv (set_creates (<[g := length (creates s)]> (inFlightCreateSessionRequests s)) (creates s ++ [mkCreate g Sent false]) s).
Proof.
  intros I Hsh Hg. set (s' := set_creates _ _ _).
  assert (Hin : forall q c, creates s' !! q = Some c -> creates s !! q = Some c \/ q = length (creates s) /\ c = mkCreate g Sent false).
  { intros q c Hq. cbn in Hq. apply lookup_app_Some in Hq as [Hq|[Hl Hq]]; [by left | right].
    apply list_lookup_singleton_Some in Hq as [Hq <-]. split; [lia | done]. }
  assert (Hother : forall q c, creates s !! q = Some c -> cr_forgotten c = false -> cr_group c <> g).
  { intros q c Hq Hf <-. destruct (c_request s I q c Hq Hf); congruence. }
  constructor.
  - apply I.
  - apply I.
  - intros i o Hi. pose proof (c_ops s I i o Hi) as Hok. destruct (op_stage o); try done. destruct Hok as (c & Hc & Hgc).
    exists c. split; [|done]. by apply lookup_app_l_Some.
  - apply I.
  - intros q c r [Hq|[-> ->]]%Hin Hr; [by eapply (c_created s I) | done].
  - apply I.
  - apply I.
  - intros q c [Hq|[-> ->]]%Hin Hf; left; cbn; [|by rewrite lookup_insert_eq].
    rewrite lookup_insert_ne by (intros E; by eapply Hother). destruct (c_request s I q c Hq Hf); congruence.
  - intros q c [Hq|[-> ->]]%Hin Hf; [by eapply (c_sent s I) | done].
  - intros q1 q2 c1 c2 [H1|[-> ->]]%Hin [H2|[-> ->]]%Hin S1 S2 Hgg.
    + by eapply (c_one s I).
    + destruct (Hother q1 c1 H1); [by eapply (c_sent s I) | done].
    + destruct (Hother q2 c2 H2); [by eapply (c_sent s I) | done].
    + done.
  - apply I.
Qed.

Lemma Inv_begin s i o now : Inv s -> ops s !! i = Some o -> free s o -> Inv (begin equals_undefined i now s).
Proof.
  intros I Hi Hf. unfold begin. rewrite Hi. unfold getOrCreateSession. destruct (isShutdown s) eqn:Esh; [by eapply Inv_finish_none|].
  assert (Hstage : forall st, stage_ok s (op_group o) st -> (forall r, st <> Requested r) -> Inv (set_stage i st s)).
  { intros st Hst Hn. eapply Inv_set_stage; [done | apply agrees_refl | done | done | done |]. intros r Hr. rewrite Hf by done. lia. }
  assert (Hcreate : Inv (let '(stage, s') := createNewSession (op_group o) s in set_stage i stage s')).
  { unfold createNewSession. destruct (inFlightCreateSessionRequests s !! op_group o) eqn:E; [by apply Hstage|].
    pose proof (Inv_create s (op_group o) I Esh E) as I'. eapply Inv_set_stage; [exact I' | apply agrees_refl | done | | done |].
    - cbn. exists (mkCreate (op_group o) Sent false). split; [|done]. rewrite lookup_app_r by lia. by rewrite Nat.sub_diag.
    - intros r (g & Hr). rewrite Hf by (by exists g). lia. }
  destruct (session s (op_group o)) as [[r st]|] eqn:E.
  - destruct (isValid now st).
    + apply Hstage; [|done]. destruct (session_ids _ _ _ _ I E) as (_ & Hs & _). by apply I.
    + destruct (createNewSession _ _). exact Hcreate.
  - destruct (createNewSession _ _). exact Hcreate.
Qed.

Lemma Inv_threads s m : Inv s -> Inv (set_threads m s).
Proof. intros I. frame I. Qed.

Lemma Inv_again s i o timeout now : Inv s -> ops s !! i = Some o -> free s o -> Inv (again equals_undefined i timeout now s).
Proof.
  intros I Hi Hf. unfold again. rewrite Hi.
  set (p := match op_kind o with Lock | TryLock => _ | _ => _ end).
  assert (Hp : exists t m, p = (t, s) \/ p = (t, set_threads m s)) by (unfold p, nextThreadId; destruct (op_kind o);
    first [exists (op_thread o), ∅; by left | do 2 eexists; by right]).
  assert (X : forall s' t, Inv s' -> sessions s' = sessions s -> ops s' = ops s ->
    Inv (begin equals_undefined i now (set_ops (<[i := mkOp (op_kind o) (op_proxy o) (op_group o) t (op_permits o) timeout now (op_stage o)]> (ops s')) s'))).
  { intros s' t I' Es Eo. set (o' := mkOp _ _ _ _ _ _ _ _). rewrite <- Eo in Hi.
    assert (Hsh : forall r, share r o' = share r o) by done.
    eapply (Inv_begin _ i o').
    - eapply Inv_move; [done | apply agrees_refl | done | done | by apply (c_ops s' I' i o) |]. intros r _. rewrite Hsh. lia.
    - cbn. apply list_lookup_insert_eq. by eapply lookup_lt_Some.
    - intros r (g & Hr). cbn in Hr. rewrite Es in Hr. rewrite Hsh. apply Hf. by exists g. }
  destruct Hp as (t & m & [-> | ->]); apply X; auto. by apply Inv_threads.
Qed.

Lemma Inv_drop s g : Inv s -> Inv (set_sessions (delete g (sessions s)) s).
Proof.
  intros []. constructor; auto; cbn.
  - intros g' r. rewrite lookup_delete_Some. intros [_ Hr]. by apply c_sessions0.
  - intros r (g' & Hr). cbn in Hr. apply lookup_delete_Some in Hr as [_ Hr]. apply c_count0. by exists g'.
Qed.

Lemma invalidate_some s g sid s' : Inv s -> invalidateSession equals_undefined g sid s = Some s' ->
  Inv s' /\ ops s' = ops s /\ states s' = states s /\
  forall r, current s' r -> current s r /\ forall x, sid = Some x -> ids s !! r <> Some (g, x).
Proof.
  intros I. unfold invalidateSession. destruct (session s g) as [[r st]|] eqn:E.
  - destruct (same_session _ _ _) as [b|] eqn:Eb; cbn; [|done]. intros [= <-]. destruct (session_ids _ _ _ _ I E) as (Hr & Hs & Hi). destruct b.
    + split_and!; [by apply Inv_drop | done | done |]. intros r' (g' & Hr'). cbn in Hr'. apply lookup_delete_Some in Hr' as [Hne Hr'].
      split; [by exists g'|]. intros x -> Hx. destruct (current_ids s r' g x I ltac:(by exists g') Hx) as (st' & Hs' & _).
      destruct (session_ids _ _ _ _ I Hs') as (_ & Hs'' & _).
      destruct (c_sessions s I g' r' Hr') as (y & Hy & <-). destruct (c_sessions s I g r' Hs'') as (z & Hz & <-). congruence.
    + split_and!; [done | done | done |]. intros r' Hr'. split; [done|]. intros x -> Hx.
      destruct (current_ids s r' g x I Hr' Hx) as (st' & Hs' & Hid). rewrite E in Hs'. simplify_eq. cbn in Eb. injection Eb as Eb.
      by rewrite Z.eqb_refl in Eb.
  - intros [= <-]. split_and!; [done | done | done |]. intros r' Hr'. split; [done|]. intros x -> Hx.
    destruct (current_ids s r' g x I Hr' Hx) as (st' & Hs' & _). congruence.
Qed.

(** The session id an operation has when its promise is rejected. *)
Definition has_session (s : CP) (o : Op) (sid : option Z) : Prop :=
  match sid with
  | Some x => exists r st, op_stage o = Requested r /\ states s !! r = Some st /\ id st = x
  | None => free s o
  end.

Lemma Inv_caught s i o sid e now : Inv s -> ops s !! i = Some o -> has_session s o sid -> Inv (caught equals_undefined i sid e now s).
Proof.
  intros I Hi Hs. unfold caught. rewrite Hi. case_bool_decide.
  - destruct (invalidateSession _ _ _ _) as [s'|] eqn:E.
    + destruct (invalidate_some _ _ _ _ I E) as (I' & Eo & Est & Hcur).
      assert (Hf : free s' o).
      { intros r Hr. destruct (Hcur r Hr) as [Hr' Hn]. destruct sid as [x|]; [|by apply Hs].
        destruct Hs as (r0 & st0 & Hst & Hr0 & <-). destruct (share_of _ _ _ _ _ I Hi Hst Hr0) as [_ ->]. unfold if_of.
        rewrite decide_False; [done|]. by apply Hn. }
      rewrite <- Eo in Hi. destruct (op_kind o); try (destruct (_ <? 0)); eauto using Inv_done, Inv_again.
    + destruct sid as [x|].
      * exfalso. unfold invalidateSession in E. by destruct (session s (op_group o)) as [[]|].
      * by eapply Inv_done.
  - destruct sid as [x|]; [|by eapply Inv_finish_none]. destruct Hs as (r0 & st0 & Hst & Hr0 & <-). by eapply Inv_finish_some.
Qed.

Lemma Inv_acquired s i o r : Inv s -> ops s !! i = Some o -> (forall r, op_stage o <> Requested r) -> state_of s r (op_group o) ->
  Inv (acquired i r s).
Proof.
  intros I Hi Hn Hr. unfold acquired. destruct Hr as (st & Hr & Hg). rewrite Hi, Hr. rewrite (set_stage_run _ _ o) by done.
  eapply Inv_move; [exact I | by apply agrees_acquire | done | done | by exists st |].
  intros r' Hr'. rewrite owed_acquire by done. rewrite (not_requested_free s o Hn r' Hr'). unfold share. cbn.
  repeat destruct (decide _); try congruence; lia.
Qed.

Lemma Inv_resume s i o now : Inv s -> ops s !! i = Some o -> ready s (op_stage o) -> Inv (resume equals_undefined i now s).
Proof.
  intros I Hi Hrd. unfold resume. rewrite Hi. pose proof (c_ops s I i o Hi) as Hok.
  destruct (op_stage o) as [q|q|r|r|x] eqn:Est; try done.
  - destruct Hok as (c & Hc & Hg). destruct Hrd as (c' & Hc' & Hns & _). assert (c' = c) as -> by congruence. rewrite Hc. cbn.
    destruct (cr_status c) as [|r|e] eqn:Ec; [done | |].
    + eapply Inv_acquired; [done | done | congruence |]. rewrite <- Hg. by eapply (c_created s I).
    + eapply Inv_caught; [done | done |]. apply not_requested_free. congruence.
  - eapply Inv_begin; [done | done |]. apply not_requested_free. congruence.
  - eapply Inv_acquired; [done | done | congruence | done].
Qed.

(** An operation ends: [m] permits are released and [n] stay. *)
Lemma Inv_ends s i o r st x m : Inv s -> ops s !! i = Some o -> op_stage o = Requested r -> states s !! r = Some st -> m = op_permits o ->
  Inv (set_stage i (Done x) (release_own equals_undefined o (id st) m s)).
Proof.
  intros I Hi Hst Hr ->. destruct (share_of _ _ _ _ _ I Hi Hst Hr) as [Hg Hs]. unfold release_own.
  destruct (release_some s (op_group o) (id st) (op_permits o) I) as (s' & -> & A & Ho).
  eapply Inv_set_stage; [done | done | done | done | done |]. intros r' Hr'. cbn. by rewrite Ho, Hs.
Qed.

Lemma Inv_keeps s s1 i o r st x m n : Inv s -> ops s !! i = Some o -> op_stage o = Requested r -> states s !! r = Some st ->
  agrees s s1 -> (forall r', current s r' -> owed s1 r' = owed s r' - if_of s r' (op_group o) (id st) m) -> m + n = op_permits o ->
  Inv (set_stage i (Done x) (book (op_group o) (id st) n s1)).
Proof.
  intros I Hi Hst Hr A Ho Hmn. destruct (share_of _ _ _ _ _ I Hi Hst Hr) as [Hg Hs].
  eapply Inv_set_stage; [done | | done | done | done |].
  - eapply agrees_trans; [done|]. apply agrees_book. eapply known_ids; [apply A|]. exists r, st. split_and!; auto.
  - intros r' Hr'. rewrite owed_book_of, Ho, Hs by done. unfold if_of. rewrite (ag_ids _ _ A). destruct (decide _); lia.
Qed.

Lemma Inv_answered s i a now : Inv s -> Inv (answered equals_undefined i a now s).
Proof.
  intros I. unfold answered, lock_answered, tryLock_answered, keep_lock, acquire_answered, tryAcquire_answered, drain_answered, change_answered. destruct (ops s !! i) as [o|] eqn:Hi; [|done]. destruct (op_stage o) as [q|q|r|r|x] eqn:Hst; try done.
  destruct (states s !! r) as [st|] eqn:Hr; cbn; [|done].
  assert (Hkeep : forall x s1, agrees s s1 -> (forall r', owed s1 r' = owed s r') -> Inv (set_stage i (Done x) (book (op_group o) (id st) (op_permits o) s1))).
  { intros x s1 A Ho. eapply (Inv_keeps s s1 i o r st x 0); [done..| | lia]. intros r' _. rewrite Ho. unfold if_of. destruct (decide _); lia. }
  assert (Hc : forall e, Inv (caught equals_undefined i (Some (id st)) e now s)) by (intros e; eapply Inv_caught; [done | done | by exists r, st]).
  assert (He : forall x, Inv (set_stage i (Done x) (release_own equals_undefined o (id st) (op_permits o) s))) by (intros x; by eapply Inv_ends).
  assert (Hb : forall x, Inv (set_stage i (Done x) (book (op_group o) (id st) (op_permits o) s))) by (intros x; apply Hkeep; [apply agrees_refl | done]).
  assert (Hl : forall f, Inv (set_stage i (Done (Fence f)) (book (op_group o) (id st) (op_permits o)
      (set_locked (<[(op_proxy o, op_thread o) := id st]> (lockedSessionIds s)) s)))) by (intros f; apply Hkeep; [apply agrees_locked | done]).
  destruct a as [f|b|n| |e]; [| | | |done]; destruct (op_kind o) eqn:Ek; try done; try (destruct (isValidFence f); auto); try (destruct b; auto); auto.
  destruct (release_some s (op_group o) (id st) (DRAIN_SESSION_ACQ_COUNT - n) I) as (s' & E & A & Ho). unfold release_own. rewrite E. cbn.
  eapply (Inv_keeps s s' i o r st _ (DRAIN_SESSION_ACQ_COUNT - n) n); [done..|]. rewrite (c_drain s I i o Hi Ek). lia.
Qed.

Lemma Inv_call s k p g n timeout now : Inv s -> Inv (call equals_undefined k p g n timeout now s).
Proof.
  intros I. unfold call, nextThreadId. set (t := default O _). set (s1 := set_threads _ s). cbn [ops s1].
  set (o := mkOp _ _ _ _ _ _ _ _). assert (I1 : Inv s1) by (by apply Inv_threads).
  eapply (Inv_begin _ _ o); cbn.
  - destruct I1. constructor; auto; cbn.
    + intros i x [Hx|[_ [_ <-]%list_lookup_singleton_Some]]%lookup_app_Some; [by eapply c_ops0 | done].
    + intros i x [Hx|[_ [_ <-]%list_lookup_singleton_Some]]%lookup_app_Some; [by eapply c_drain0 | by destruct k].
    + intros r (g' & Hr). specialize (c_count0 r ltac:(by exists g')). unfold owed, in_flight, balance in *. cbn in *.
      destruct (states s !! r); [|done]. rewrite zsum_app. replace (zsum (share r) [o]) with 0 by done. lia.
  - rewrite lookup_app_r by lia. by rewrite Nat.sub_diag.
  - by apply not_requested_free.
Qed.

Lemma Inv_set_create s q c st : Inv s -> creates s !! q = Some c -> cr_status c = Sent -> st <> Sent ->
  (forall r, st = Created r -> state_of s r (cr_group c)) -> Inv (set_create q (mkCreate (cr_group c) st (cr_forgotten c)) s).
Proof.
  intros I Hq Hs Hst Hr. set (c' := mkCreate _ _ _).
  assert (Hin : forall x d, creates (set_create q c' s) !! x = Some d -> d = c' /\ x = q \/ creates s !! x = Some d /\ x <> q).
  { intros x d Hx. apply list_lookup_insert_Some in Hx as [(-> & <- & _)|(Hn & Hx)]; auto. }
  destruct I. constructor; auto.
  - intros i o Hi. pose proof (c_ops0 i o Hi) as Hok. destruct (op_stage o); try done. destruct Hok as (d & Hd & Hg). cbn.
    destruct (decide (request = q)) as [->|Hn].
    + exists c'. rewrite list_lookup_insert_eq by (by eapply lookup_lt_Some). split; [done|]. cbn. congruence.
    + exists d. by rewrite list_lookup_insert_ne.
  - intros x d r [[-> ->]|[Hx Hn]]%Hin; [apply Hr | by eapply c_created0].
  - intros x d [[-> ->]|[Hx Hn]]%Hin; [exact (c_request0 q c Hq) | by eapply c_request0].
  - intros x d [[-> ->]|[Hx Hn]]%Hin; [done | by eapply c_sent0].
  - intros x1 x2 d1 d2 [[-> ->]|[H1 _]]%Hin [[-> ->]|[H2 _]]%Hin; try done. by eapply c_one0.
Qed.

Lemma Inv_new_state s q c sid ttl now : Inv s -> creates s !! q = Some c ->
  (forall r st, states s !! r = Some st -> groupId st = cr_group c -> id st <> sid) ->
  Inv (set_sessions (<[cr_group c := length (states s)]> (sessions s)) (set_states (states s ++ [mkSession sid (cr_group c) ttl now 0]) s)).
Proof.
  intros I Hq Hfresh. set (st' := mkSession _ _ _ _ _). set (s' := set_sessions _ _).
  assert (Hin : forall r x, states s' !! r = Some x -> states s !! r = Some x \/ r = length (states s) /\ x = st').
  { intros r x [Hx|[Hl Hx]]%lookup_app_Some; [by left | right]. apply list_lookup_singleton_Some in Hx as [Hx <-]. split; [lia | done]. }
  assert (Hold : forall r x, states s !! r = Some x -> states s' !! r = Some x) by (intros; by apply lookup_app_l_Some).
  assert (Hso : forall r g, state_of s r g -> state_of s' r g) by (intros r g (x & Hx & Hg); exists x; eauto).
  assert (Hkn : forall g i, known s g i -> known s' g i) by (intros g i (r & x & Hx & Hg & Hi); exists r, x; eauto).
  assert (Hnew : states s' !! length (states s) = Some st') by (cbn; rewrite lookup_app_r by lia; by rewrite Nat.sub_diag).
  assert (Hnb : forall e, e ∈ ledger s ++ refused s -> entry_of (cr_group c) sid e = 0).
  { intros e He. unfold entry_of. rewrite decide_False; [done|]. intros Ee. destruct (c_ledger s I e He) as (r & x & Hx & Hg & Hi).
    rewrite Ee in Hg, Hi. by apply (Hfresh r x Hx). }
  constructor.
  - intros g r. cbn. intros [[<- <-]|[_ Hr]]%lookup_insert_Some; [by exists st' | by apply Hso, I].
  - intros r1 r2 x1 x2 [H1|[-> ->]]%Hin [H2|[-> ->]]%Hin Hg Hi; [by eapply (c_ids s I) | | | done].
    + by destruct (Hfresh r1 x1 H1 Hg).
    + by destruct (Hfresh r2 x2 H2 (eq_sym Hg)).
  - intros i o Hi. pose proof (c_ops s I i o Hi) as Hok. destruct (op_stage o); cbn in *; auto.
  - apply I.
  - intros x d r Hx Hr. apply Hso. by eapply (c_created s I).
  - intros e He. apply Hkn. by apply (c_ledger s I).
  - intros x Hx. apply Hkn. by apply (c_returns s I).
  - apply I.
  - apply I.
  - apply I.
  - intros r (g & Hr). cbn in Hr. apply lookup_insert_Some in Hr as [[<- <-]|[_ Hr]]; unfold owed.
    + rewrite Hnew. unfold in_flight, balance. cbn [acquireCount groupId id st' ops ledger refused s' set_sessions set_states].
      rewrite !zsum_zero; [done | | |].
      * intros e He. apply Hnb, elem_of_app. by right.
      * intros e He. apply Hnb, elem_of_app. by left.
      * intros o [i Hi]%list_elem_of_lookup. pose proof (c_ops s I i o Hi) as Hok. unfold share. destruct (op_stage o) as [| | |r|]; try done.
        destruct Hok as (x & Hx & _). rewrite decide_False; [done|]. intros ->. apply lookup_lt_Some in Hx. lia.
    + destruct (c_sessions s I g r Hr) as (x & Hx & _). rewrite (Hold _ _ Hx).
      pose proof (c_count s I r ltac:(by exists g)) as Hc. unfold owed in Hc. rewrite Hx in Hc. exact Hc.
Qed.

Lemma Inv_created_step s q c sid ttl hb now : Inv s -> creates s !! q = Some c -> cr_status c = Sent ->
  (forall r st, states s !! r = Some st -> groupId st = cr_group c -> id st <> sid) -> Inv (session_created q sid ttl hb now s).
Proof.
  intros I Hq Hs Hf. unfold session_created. rewrite Hq. cbn [sessions set_states].
  pose proof (Inv_new_state s q c sid ttl now I Hq Hf) as I'. set (s' := set_sessions _ _) in *.
  assert (I'' : Inv (scheduleHeartbeatTask hb s')) by (unfold scheduleHeartbeatTask; destruct (heartbeatTask s'); [done|]; frame I').
  assert (Hst : creates (scheduleHeartbeatTask hb s') = creates s /\ states (scheduleHeartbeatTask hb s') = states s')
    by (unfold scheduleHeartbeatTask; by destruct (heartbeatTask s')).
  destruct Hst as [Ec Es]. apply Inv_set_create; [done | by rewrite Ec | done | done |]. intros r [= <-].
  eexists. rewrite Es. cbn. rewrite lookup_app_r, Nat.sub_diag by lia. done.
Qed.

Lemma Inv_forgotten s q c : Inv s -> creates s !! q = Some c -> cr_status c <> Sent -> cr_forgotten c = false ->
  Inv (request_forgotten q s).
Proof.
  intros I Hq Hs Hf. unfold request_forgotten. rewrite Hq. set (c' := mkCreate _ _ _). set (s' := set_creates _ _ _).
  assert (Hin : forall x d, creates s' !! x = Some d -> d = c' /\ x = q \/ creates s !! x = Some d /\ x <> q).
  { intros x d Hx. apply list_lookup_insert_Some in Hx as [(-> & <- & _)|(Hn & Hx)]; auto. }
  destruct I. constructor; auto.
  - intros i o Hi. pose proof (c_ops0 i o Hi) as Hok. destruct (op_stage o); try done. destruct Hok as (d & Hd & Hg). cbn.
    destruct (decide (request = q)) as [->|Hn].
    + exists c'. rewrite list_lookup_insert_eq by (by eapply lookup_lt_Some). split; [done|]. cbn. congruence.
    + exists d. by rewrite list_lookup_insert_ne.
  - intros x d r [[-> ->]|[Hx Hn]]%Hin; [exact (c_created0 q c r Hq) | by eapply c_created0].
  - intros x d [[-> ->]|[Hx Hn]]%Hin; [done|]. intros Hd. destruct (c_request0 x d Hx Hd) as [Hi|Hi]; [|by right].
    destruct (c_request0 q c Hq Hf) as [Hi'|Hi']; [|by right]. left. cbn. rewrite lookup_delete_ne; [done | congruence].
  - intros x d [[-> ->]|[Hx Hn]]%Hin; [done | by eapply c_sent0].
  - intros x1 x2 d1 d2 [[-> ->]|[H1 _]]%Hin [[-> ->]|[H2 _]]%Hin; try done. by eapply c_one0.
Qed.

Lemma Inv_locked s m : Inv s -> Inv (set_locked m s).
Proof. intros I. frame I. Qed.

Lemma known_session s g : Inv s -> getSessionId g s <> NO_SESSION_ID -> known s g (getSessionId g s).
Proof.
  intros I. unfold getSessionId. destruct (session s g) as [[r st]|] eqn:E; [|done]. intros _.
  destruct (session_ids _ _ _ _ I E) as (Hr & Hs & Hi). exists r, st. split_and!; [done | | done].
  rewrite (ids_lookup _ _ _ Hr) in Hi. by injection Hi.
Qed.

Lemma Inv_push_return s x : Inv s -> known s (return_of x).1 (return_of x).2 -> Inv (set_returns (returns s ++ [x]) s).
Proof.
  intros I Hx. eapply Inv_agrees; [done | | done]. constructor; auto. cbn. intros y. rewrite elem_of_app, list_elem_of_singleton.
  intros [?| ->]; auto.
Qed.

Lemma Inv_unlock s p t g : Inv s -> Inv (unlock p t g s).2.
Proof.
  intros I. unfold unlock. destruct (match lockedSessionIds s !! _ with Some _ => _ | None => _ end); [by apply Inv_locked|].
  destruct (Z.eqb_spec NO_SESSION_ID (getSessionId g s)) as [|Hn]; [by apply Inv_locked|].
  apply Inv_push_return; [done|]. exact (known_session s g I (not_eq_sym Hn)).
Qed.

Lemma Inv_release_permits s p g n : Inv s -> Inv (release_permits p g n s).2.
Proof.
  intros I. unfold release_permits. destruct (_ <=? 0); [done|]. destruct (Z.eqb_spec NO_SESSION_ID (getSessionId g s)) as [|Hn]; [done|]. cbn.
  apply (Inv_push_return (set_threads _ s)); [by apply Inv_threads|]. exact (known_session s g I (not_eq_sym Hn)).
Qed.

(** A confirmed return: the session is released, and the ledger says so. *)
Lemma Inv_given_back s s0 g sid n : Inv s -> agrees s s0 -> (forall r, owed s0 r = owed s r) -> known s g sid ->
  Inv (book g sid (- n) (default s0 (releaseSession equals_undefined g (Some sid) n s0))).
Proof.
  intros I A Ho Hk. assert (I0 : Inv s0) by (apply (Inv_agrees s s0 I A); auto).
  destruct (release_some s0 g sid n I0) as (s' & -> & A' & Ho'). cbn.
  eapply Inv_agrees; [exact I0 | |].
  - eapply agrees_trans; [done|]. apply agrees_book. eapply known_ids; [apply A'|]. by eapply known_ids; [apply A|].
  - intros r Hr. rewrite owed_book_of, Ho' by done. unfold if_of. rewrite (ag_ids _ _ A'). destruct (decide _); lia.
Qed.

Lemma Inv_refused s g sid n : Inv s -> known s g sid ->
  Inv (refuse g sid n (default s (releaseSession equals_undefined g (Some sid) n s))).
Proof.
  intros I Hk. destruct (release_some s g sid n I) as (s' & -> & A' & Ho'). cbn. eapply Inv_agrees; [exact I | |].
  - eapply agrees_trans; [done|]. apply agrees_refuse. by eapply known_ids; [apply A'|].
  - intros r Hr. rewrite owed_refuse_of, Ho' by done. unfold if_of. rewrite (ag_ids _ _ A'). destruct (decide _); lia.
Qed.

Lemma Inv_invalidate s g sid : Inv s -> Inv (default s (invalidateSession equals_undefined g (Some sid) s)).
Proof. intros I. destruct (invalidateSession _ _ _ _) as [s'|] eqn:E; [|done]. by destruct (invalidate_some _ _ _ _ I E). Qed.

Lemma Inv_returned s l x l' e : Inv s -> returns s = l ++ x :: l' -> Inv (returned equals_undefined x e (set_returns (l ++ l') s)).2.
Proof.
  intros I E. assert (Hk : known s (return_of x).1 (return_of x).2) by (apply I; rewrite E; set_solver).
  set (s0 := set_returns _ _). assert (A : agrees s s0) by (constructor; auto; cbn; intros y Hy; left; rewrite E; set_solver).
  assert (I0 : Inv s0) by (apply (Inv_agrees s s0 I A); auto).
  assert (Hk0 : known s0 (return_of x).1 (return_of x).2) by done.
  destruct x as [p t g sid|g sid n], e as [e|]; cbn [return_of fst snd returned] in *.
  - case_bool_decide; [cbn|case_bool_decide; cbn; [by apply Inv_locked | done]].
    by apply Inv_invalidate, Inv_locked.
  - cbv zeta. apply (Inv_given_back s0 (set_locked _ s0) g sid 1); [done | apply agrees_locked | done | done].
  - case_bool_decide; cbn; [by apply Inv_invalidate | by apply Inv_refused].
  - apply (Inv_given_back s0 s0 g sid n); [done | apply agrees_refl | done | done].
Qed.

Lemma Inv_shutdown s : Inv s -> Inv (shutdown s).
Proof. intros I. unfold shutdown. destruct (isShutdown s); [done|]. destruct I. constructor; auto. Qed.

Lemma Inv_shutdown_done s : Inv s -> isShutdown s = true -> Inv (shutdown_done s).
Proof.
  intros [] Hsh. constructor; auto; cbn.
  - intros g r. by rewrite lookup_empty.
  - intros r (g & Hr). cbn in Hr. by rewrite lookup_empty in Hr.
Qed.

Lemma cp_step s s' : Inv s -> step equals_undefined s s' -> Inv s'.
Proof.
  intros I Hst. destruct Hst.
  - by apply Inv_call.
  - unfold tryLock. destruct (_ <? _); [done | by apply Inv_call].
  - unfold acquire_permits. destruct (_ <=? _); [done | by apply Inv_call].
  - unfold tryAcquire. destruct (_ || _); [done | by apply Inv_call].
  - by apply Inv_call.
  - unfold changePermits. destruct (_ <? _); [done|]. destruct (_ =? _); [done | by apply Inv_call].
  - by eapply Inv_created_step.
  - unfold session_failed. rewrite H. by apply Inv_set_create.
  - by eapply Inv_forgotten.
  - by eapply Inv_resume.
  - by apply Inv_answered.
  - by apply Inv_unlock.
  - by apply Inv_release_permits.
  - by apply Inv_returned.
  - by apply Inv_locked.
  - unfold heartbeat_failed. case_bool_decide; [by apply Inv_invalidate | done].
  - by apply Inv_shutdown.
  - by apply Inv_shutdown_done.
Qed.

Lemma cp_reachable s : reachable equals_undefined s -> Inv s.
Proof. induction 1; [apply Inv_new | by eapply cp_step]. Qed.
End Invariant.

(** ** Properties *)

Section Properties.
Context (equals_undefined : option bool).

(** C9: a session is acquired exactly as often as it is needed: at every moment, whatever operations on locks and
    semaphores are under way and in whatever order the members answer, the acquire count of the current session of a CP
    group is the sum of the permits of the operations that wait for the group on it and of what the group confirmed on it
    and was not given back, less the releases the group refused. So it is in use exactly as long as this sum is positive,
    and then [getOrCreateSession] returns it and the heartbeat task keeps it alive. *)
Theorem session_accounted (s : CP) (g : string) (r : nat) (st : SessionState) :
  equals_undefined <> Some true -> reachable equals_undefined s -> session s g = Some (r, st) ->
  acquireCount st = in_flight s r + balance s g (id st) /\
  (0 < in_flight s r + balance s g (id st) ->
     (forall now, isShutdown s = false -> getOrCreateSession now g s = (inl (Resolved r), s)) /\ (g, id st) ∈ heartbeats s).
Proof.
  intros Hund Hr Hs. pose proof (cp_reachable _ Hund s Hr) as I. destruct (session_ids _ _ _ _ I Hs) as (Hst & Hg & Hi).
  assert (Egr : groupId st = g) by (rewrite (ids_lookup _ _ _ Hst) in Hi; by injection Hi).
  assert (E : acquireCount st = in_flight s r + balance s g (id st)).
  { pose proof (c_count s I r ltac:(by exists g)) as Ho. unfold owed in Ho. rewrite Hst, Egr in Ho. lia. }
  split; [done|]. intros Hp. assert (Hu : isInUse st = true) by (apply Z.ltb_lt; lia). split.
  - intros now Hsh. unfold getOrCreateSession. rewrite Hsh, Hs. unfold isValid. by rewrite Hu.
  - apply list_elem_of_omap. exists (g, r). split; [by apply elem_of_map_to_list|]. cbn. rewrite Hst. cbn. by rewrite Hu, Egr.
Qed.

(** A CP group is never asked for two sessions at once: of the requests for a session that wait for their answer at
    most one is for a given group. *)
Theorem one_session_request (s : CP) (q1 q2 : nat) (c1 c2 : Create) :
  equals_undefined <> Some true -> reachable equals_undefined s ->
  creates s !! q1 = Some c1 -> creates s !! q2 = Some c2 -> cr_status c1 = Sent -> cr_status c2 = Sent ->
  cr_group c1 = cr_group c2 -> q1 = q2.
Proof. intros Hund Hr. apply (c_one s). by eapply cp_reachable. Qed.
End Properties.

(** ** Runs *)

Module CpRun.
Definition g : string := "default".
#[local] Abbreviation U := (@None bool).

(** A lock is taken on a new session, which expires at 10, and given back. *)
Definition asked : CP := Eval vm_compute in (lock U 0 g 0 newCP).2.
Definition created : CP := Eval vm_compute in request_forgotten 0 (session_created 0 100 10 5000 0 asked).
Definition locked : CP := Eval vm_compute in answered U 0 (AFence 1) 0 (resume U 0 0 created).
Definition unlocked : CP := (returned U (Unlocking 0 0 g 100) None (set_returns [] (unlock 0 0 g locked).2)).2.

(** [s'] is computed by one step from [s]. *)
Lemma ran (f : CP -> CP) s s' : f s = s' -> reachable U s -> step U s (f s) -> reachable U s'.
Proof. intros <-. apply reach_step. Qed.

Ltac run := vm_compute; reflexivity.

Lemma lock_asked_reachable : reachable U asked.
Proof. apply (ran (fun s => (lock U 0 g 0 s).2) newCP); [run | apply reach_new | apply cp_lock]. Qed.

Lemma created_reachable : reachable U created.
Proof.
  apply (ran (request_forgotten 0) (session_created 0 100 10 5000 0 asked)); [run | |].
  - eapply reach_step; [exact lock_asked_reachable|]. eapply cp_created; [run | done | by intros [|r] st].
  - by eapply cp_forgotten; [run | ..].
Qed.

Lemma locked_reachable : reachable U locked.
Proof.
  apply (ran (answered U 0 (AFence 1) 0) (resume U 0 0 created)); [run | | apply cp_answered].
  eapply reach_step; [exact created_reachable|]. eapply cp_resume; [run|]. eexists. split; [run | done].
Qed.

Lemma unlocked_reachable : reachable U unlocked.
Proof.
  apply (ran (fun s => (returned U (Unlocking 0 0 g 100) None (set_returns [] s)).2) (unlock 0 0 g locked).2); [run | |].
  - eapply reach_step; [exact locked_reachable | apply cp_unlock].
  - by apply (cp_returned U _ [] (Unlocking 0 0 g 100) [] None).
Qed.

(** Two locks are asked for in a row, the first when the idle session is still valid and the second a millisecond later,
    when it has expired. The first acquires the session all the same; the answer to the request of the second replaces it. *)
Definition first_call : CP := Eval vm_compute in (lock U 0 g 10 unlocked).2.
Definition second_call : CP := Eval vm_compute in (lock U 1 g 11 first_call).2.
Definition relocked : CP := Eval vm_compute in answered U 1 (AFence 2) 11 (resume U 1 11 second_call).
Definition replaced : CP := Eval vm_compute in session_created 1 101 10 5000 12 relocked.

Lemma session_replaced_reachable : reachable U replaced.
Proof.
  assert (H1 : reachable U second_call).
  { apply (ran (fun s => (lock U 1 g 11 s).2) first_call); [run | | apply cp_lock].
    apply (ran (fun s => (lock U 0 g 10 s).2) unlocked); [run | exact unlocked_reachable | apply cp_lock]. }
  apply (ran (session_created 1 101 10 5000 12) relocked); [run | |].
  - apply (ran (answered U 1 (AFence 2) 11) (resume U 1 11 second_call)); [run | | apply cp_answered].
    eapply reach_step; [exact H1|]. by eapply cp_resume; [run |].
  - eapply cp_created; [run | done |]. intros [|[|r]] st Hr; [|discriminate Hr..]. injection Hr as <-. done.
Qed.

(** The lock is held, its session is no longer kept alive, and [unlock] reports that the session was closed by the server. *)
Lemma session_replaced_in_use :
  reachable U replaced /\ op_stage <$> ops replaced !! 1%nat = Some (Done (Fence 2)) /\
  0 < balance replaced g 100 /\ heartbeats replaced = [] /\ (unlock 0 1 g replaced).1 = Some (Hz Err.LockOwnershipLostError).
Proof. split; [exact session_replaced_reachable|]. by split_and!; vm_compute. Qed.

(** After [shutdown], a lock fails with an [IllegalStateError]; if a session is known, what the caller gets is the
    [TypeError] that [releaseSession] throws on the session id it does not have. *)
Lemma acquire_error_masked :
  let s := (lock U 0 g 5 (shutdown locked)).2 in
  reachable U s /\ op_stage <$> ops s !! 1%nat = Some (Done (Threw TypeError)) /\
  op_stage <$> ops (lock U 0 g 5 (shutdown newCP)).2 !! 0%nat = Some (Done (Threw (Hz Err.IllegalStateError))).
Proof.
  split; [|by split; vm_compute]. eapply reach_step; [eapply reach_step; [exact locked_reachable | apply cp_shutdown]|apply cp_lock].
Qed.

(** One permit is held; a release of five that the group refuses makes the session idle, and no heartbeat is sent. *)
Definition one_permit : CP := Eval vm_compute in answered U 1 (ABool true) 5 (resume U 1 5 (acquire_permits U 2 g 1 5 unlocked).2).
Definition refused_five : CP :=
  (returned U (Releasing g 100 5) (Some (Hz Err.IllegalArgumentError)) (set_returns [] (release_permits 2 g 5 one_permit).2)).2.

Lemma refused_release_uncounted :
  reachable U refused_five /\ heartbeats one_permit = [(g, 100)] /\ heartbeats refused_five = [] /\
  zsum (entry_of g 100) (ledger refused_five) = 1.
Proof.
  split; [|by split_and!; vm_compute].
  assert (H1 : reachable U one_permit).
  { apply (ran (answered U 1 (ABool true) 5) (resume U 1 5 (acquire_permits U 2 g 1 5 unlocked).2)); [run | | apply cp_answered].
    eapply reach_step; [eapply reach_step; [exact unlocked_reachable | apply cp_acquire]|].
    by eapply cp_resume; [run |]. }
  apply (ran (fun s => (returned U (Releasing g 100 5) (Some (Hz Err.IllegalArgumentError)) (set_returns [] s)).2)
    (release_permits 2 g 5 one_permit).2); [run | |].
  - eapply reach_step; [exact H1 | apply cp_release].
  - by apply (cp_returned U _ [] (Releasing g 100 5) [] (Some (Hz Err.IllegalArgumentError))).
Qed.
End CpRun.

Lemma session_accounted_witness :
  in_flight CpRun.locked 0 + balance CpRun.locked CpRun.g 100 = 1 /\ (CpRun.g, 100) ∈ heartbeats CpRun.locked.
Proof.
  destruct (session_accounted None CpRun.locked CpRun.g 0 (mkSession 100 CpRun.g 10 0 1) ltac:(done) CpRun.locked_reachable) as [E H].
  - vm_compute. reflexivity.
  - split; [exact (eq_sym E)|]. apply H. rewrite <- E. reflexivity.
Defined.

Lemma one_session_request_witness : creates CpRun.asked !! 0%nat = Some (mkCreate CpRun.g Sent false) /\ 0%nat = 0%nat.
Proof.
  split; [vm_compute; reflexivity|].
  apply (one_session_request None CpRun.asked 0 0 (mkCreate CpRun.g Sent false) (mkCreate CpRun.g Sent false)).
  - done.
  - exact CpRun.lock_asked_reachable.
  - vm_compute. reflexivity.
  - vm_compute. reflexivity.
  - done.
  - done.
  - done.
Defined.
