(* ===== verification/Sql.v ===== *)
(** * Results of SQL queries

    [SqlResultImpl] of [src/sql/SqlResult.ts] with [SqlPage], [SqlRowMetadataImpl] and [SqlRowImpl], and what
    [SqlServiceImpl] of [src/sql/SqlService.ts] does with the answers of the member.

    A call of [next] waits for promises in between: its stage says for which one, and the steps of the calls, the answers
    of the member and [close] interleave. The value of a column is what [toObject] makes of it; [toObject] is a
    parameter, and may throw. *)

From S2P Require Export Prelude.
From stdpp Require Import strings gmap.
#[local] Open Scope Z_scope.

(** [SqlErrorCode]. *)
Definition GENERIC : Z := -1.
Definition CONNECTION_PROBLEM : Z := 1001.
Definition CANCELLED_BY_USER : Z := 1003.

(** [HazelcastSqlException] by its code, [IllegalStateError], and what the code of the client may throw itself. *)
Inductive sql_error := HazelcastSqlException (code : Z) | IllegalState | Thrown.

#[global] Instance sql_error_eq_dec : EqDecision sql_error.
Proof. solve_decision. Defined.

Definition toHazelcastSqlException (alive : bool) (err : sql_error) : sql_error :=
  if negb alive then HazelcastSqlException CONNECTION_PROBLEM
  else match err with HazelcastSqlException _ => err | _ => HazelcastSqlException GENERIC end.

(** ** SqlRowMetadataImpl and SqlRowImpl *)

Section Metadata.

(** [nameToIndex] is a plain object: a name that is not a key of it is looked up in its prototype. *)
Context (inherited : string -> bool).

Definition COLUMN_NOT_FOUND : Z := -1.

(** The names of the columns; the last of two columns with the same name is the one found. *)
Fixpoint nameToIndex (columns : list string) (i : Z) (columnName : string) : option Z :=
  match columns with
  | [] => None
  | c :: columns =>
      match nameToIndex columns (i + 1) columnName with
      | Some j => Some j
      | None => if (c =? columnName)%string then Some i else None
      end
  end.

(** An index, or a property of the prototype. *)
Definition findColumn (columns : list string) (columnName : string) : Z + unit :=
  match nameToIndex columns 0 columnName with
  | Some i => inl i
  | None => if inherited columnName then inr () else inl COLUMN_NOT_FOUND
  end.

(** [getObject] by name: the value, undefined, or an error. *)
Definition getObject {O} (values : list O) (columns : list string) (columnName : string) : option (option O) :=
  match findColumn columns columnName with
  | inl i => if i =? COLUMN_NOT_FOUND then None else Some (values !! Z.to_nat i)
  | inr () => Some None
  end.
End Metadata.

(** ** SqlPage *)

Section SqlResult.
Context {V O : Type} (toObject : option V -> option O).

Record SqlPage := mkPage { columnTypes : list Z; columns : list (list V); page_last : bool }.

(** Nothing, if there is no first column. *)
Definition getRowCount (p : SqlPage) : option nat := length <$> head (columns p).

Definition getColumnCount (p : SqlPage) : nat := length (columnTypes p).

(** Nothing, if there is no such column; the value may be undefined. *)
Definition getValue (rowIndex columnIndex : nat) (p : SqlPage) : option (option V) :=
  c ← columns p !! columnIndex; Some (c !! rowIndex).

(** ** SqlResultImpl *)

Inductive Row := RawRow (values : list O) | ObjectRow (fields : js_map string O).
Inductive item := Value (row : Row) | Finished | Fails (e : sql_error).

Inductive ExecuteDeferred := ExecutePending | ExecuteDone | ExecuteRejected (e : sql_error).
Inductive FetchPromise := FetchPending | FetchDone (page : SqlPage) | FetchRejected (e : sql_error).
Inductive Stage := WaitExecute | WaitFetch (promise : nat) | Checked (hasNext : bool) | Settled (i : item).
Inductive Request := ExecuteRequest | FetchRequest | CloseRequest.

#[global] Instance Request_eq_dec : EqDecision Request.
Proof. solve_decision. Defined.

(** [fetchDeferred] is a promise of [fetches]. [taken] is only written: the pages taken, in order. [broken]: the connection
    was closed and its pipelined writer's queue is frozen, so that sending a request on it throws at once. *)
Record SqlResult := mkResult {
  updateCount : Z; currentPage : option SqlPage; currentRowCount : nat; currentPosition : nat; last : bool;
  executeDeferred : ExecuteDeferred; fetchDeferred : option nat; fetches : list FetchPromise;
  closeDeferred : option (option (unit + sql_error)); closed : bool; responseReceived : bool;
  rowMetadata : option (list string); returnRawResult : bool;
  calls : list Stage; requests : list Request; taken : list SqlPage; broken : bool }.
#[local] Abbreviation SR := SqlResult.

(** The result of [executeStatement], which has sent its request. *)
Definition newResult (raw : bool) : SR :=
  mkResult 0 None 0 0 false ExecutePending None [] None false false None raw [] [ExecuteRequest] [] false.

Definition set_page (p : SqlPage) (n : nat) (s : SR) : SR :=
  mkResult (updateCount s) (Some p) n 0 (page_last p || last s) (executeDeferred s) (fetchDeferred s) (fetches s)
    (closeDeferred s) (page_last p || closed s) (responseReceived s) (rowMetadata s) (returnRawResult s)
    (calls s) (requests s) (taken s ++ [p]) (broken s).
Definition set_execute (count : Z) (d : ExecuteDeferred) (c : bool) (m : option (list string)) (s : SR) : SR :=
  mkResult count (currentPage s) (currentRowCount s) (currentPosition s) (last s) d (fetchDeferred s) (fetches s)
    (closeDeferred s) c true m (returnRawResult s) (calls s) (requests s) (taken s) (broken s).
Definition set_metadata (m : list string) (s : SR) : SR :=
  mkResult (updateCount s) (currentPage s) (currentRowCount s) (currentPosition s) (last s) (executeDeferred s)
    (fetchDeferred s) (fetches s) (closeDeferred s) (closed s) (responseReceived s) (Some m) (returnRawResult s)
    (calls s) (requests s) (taken s) (broken s).
Definition set_fetch (d : option nat) (l : list FetchPromise) (s : SR) : SR :=
  mkResult (updateCount s) (currentPage s) (currentRowCount s) (currentPosition s) (last s) (executeDeferred s)
    d l (closeDeferred s) (closed s) (responseReceived s) (rowMetadata s) (returnRawResult s)
    (calls s) (requests s) (taken s) (broken s).
Definition set_close (d : option (option (unit + sql_error))) (c : bool) (s : SR) : SR :=
  mkResult (updateCount s) (currentPage s) (currentRowCount s) (currentPosition s) (last s) (executeDeferred s)
    (fetchDeferred s) (fetches s) d c (responseReceived s) (rowMetadata s) (returnRawResult s)
    (calls s) (requests s) (taken s) (broken s).
Definition set_position (n : nat) (s : SR) : SR :=
  mkResult (updateCount s) (currentPage s) (currentRowCount s) n (last s) (executeDeferred s)
    (fetchDeferred s) (fetches s) (closeDeferred s) (closed s) (responseReceived s) (rowMetadata s) (returnRawResult s)
    (calls s) (requests s) (taken s) (broken s).
Definition set_calls (l : list Stage) (s : SR) : SR :=
  mkResult (updateCount s) (currentPage s) (currentRowCount s) (currentPosition s) (last s) (executeDeferred s)
    (fetchDeferred s) (fetches s) (closeDeferred s) (closed s) (responseReceived s) (rowMetadata s) (returnRawResult s)
    l (requests s) (taken s) (broken s).
Definition set_requests (l : list Request) (s : SR) : SR :=
  mkResult (updateCount s) (currentPage s) (currentRowCount s) (currentPosition s) (last s) (executeDeferred s)
    (fetchDeferred s) (fetches s) (closeDeferred s) (closed s) (responseReceived s) (rowMetadata s) (returnRawResult s)
    (calls s) l (taken s) (broken s).

Definition set_broken (s : SR) : SR :=
  mkResult (updateCount s) (currentPage s) (currentRowCount s) (currentPosition s) (last s) (executeDeferred s)
    (fetchDeferred s) (fetches s) (closeDeferred s) (closed s) (responseReceived s) (rowMetadata s) (returnRawResult s)
    (calls s) (requests s) (taken s) true.

(** [onNextPage]; false, if the page has no column and so the count of its rows throws. *)
Definition onNextPage (page : SqlPage) (s : SR) : bool * SR :=
  match getRowCount page with
  | Some n => (true, set_page page n s)
  | None =>
      (false, mkResult (updateCount s) (Some page) (currentRowCount s) (currentPosition s) (last s) (executeDeferred s)
         (fetchDeferred s) (fetches s) (closeDeferred s) (closed s) (responseReceived s) (rowMetadata s) (returnRawResult s)
         (calls s) (requests s) (taken s) (broken s))
  end.

Definition onExecuteError (error : sql_error) (s : SR) : SR :=
  if closed s then s
  else set_execute (-1) (match executeDeferred s with ExecutePending => ExecuteRejected error | d => d end) (closed s) None s.

(** Throws on a page without columns. *)
Definition onExecuteResponse (metadata : option (list string)) (page : SqlPage) (count : Z) (s : SR) : bool * SR :=
  if closed s then (true, s)
  else
    let resolve d := match d with ExecutePending => ExecuteDone | d => d end in
    match metadata with
    | Some m =>
        let '(ok, s) := onNextPage page (set_metadata m s) in
        if ok then (true, set_execute (-1) (resolve (executeDeferred s)) (closed s) (rowMetadata s) s) else (false, s)
    | None => (true, set_execute count (resolve (executeDeferred s)) true (rowMetadata s) s)
    end.

(** [handleExecuteResponse] and the handler of its rejection. *)
Definition execute_answered (alive : bool) (r : sql_error + option (list string) * SqlPage * Z) (s : SR) : SR :=
  match r with
  | inl error => onExecuteError error s
  | inr (metadata, page, count) =>
      let '(ok, s) := onExecuteResponse metadata page count s in
      if ok then s else onExecuteError (toHazelcastSqlException alive Thrown) s
  end.

Definition execute_failed (alive : bool) (err : sql_error) (s : SR) : SR := onExecuteError (toHazelcastSqlException alive err) s.

Definition settle_fetch (p : FetchPromise) (s : SR) : SR :=
  match fetchDeferred s with
  | Some i =>
      match fetches s !! i with
      | Some FetchPending => set_fetch (fetchDeferred s) (<[i := p]> (fetches s)) s
      | _ => s
      end
  | None => s
  end.

(** The promise to wait for, or the rejection, which the exception thrown by [sqlService.fetch] becomes in the callback
    that calls [fetch]: [fetchDeferred] is set by then. *)
Definition fetch (s : SR) : (nat + sql_error) * SR :=
  match fetchDeferred s with
  | Some i => (inl i, s)
  | None =>
      if closed s then (inr IllegalState, s)
      else
        let i := length (fetches s) in
        let s := set_fetch (Some i) (fetches s ++ [FetchPending]) s in
        if broken s then (inr Thrown, s) else (inl i, set_requests (requests s ++ [FetchRequest]) s)
  end.

Definition fetch_answered (page : SqlPage) (s : SR) : SR :=
  let s := settle_fetch (FetchDone page) s in set_fetch None (fetches s) s.

Definition fetch_failed (alive : bool) (err : sql_error) (s : SR) : SR :=
  settle_fetch (FetchRejected (toHazelcastSqlException alive err)) s.

(** [close]; false, if [sqlService.close] throws, before the result is marked as closed. *)
Definition close (s : SR) : bool * SR :=
  match closeDeferred s with
  | Some _ => (true, s)
  | None =>
      if closed s then (true, s)
      else
        let error := HazelcastSqlException CANCELLED_BY_USER in
        let s := if responseReceived s then s else onExecuteError error s in
        let s :=
          match fetchDeferred s with
          | Some _ => s
          | None => set_fetch (Some (length (fetches s))) (fetches s ++ [FetchPending]) s
          end in
        let s := settle_fetch (FetchRejected error) s in
        if broken s then (false, set_close (Some None) (closed s) s)
        else (true, set_close (Some None) true (set_requests (requests s ++ [CloseRequest]) s))
  end.

Definition close_settled (alive : bool) (r : unit + sql_error) (s : SR) : SR :=
  set_close (Some (Some (match r with inl u => inl u | inr e => inr (toHazelcastSqlException alive e) end))) (closed s) s.

(** [getCurrentRow]; nothing, if it throws. *)
Fixpoint mapM_opt {A B} (f : A -> option B) (l : list A) : option (list B) :=
  match l with [] => Some [] | x :: l => y ← f x; ys ← mapM_opt f l; Some (y :: ys) end.

Definition row_at (raw : bool) (names : list string) (p : SqlPage) (position : nat) : option Row :=
  if raw then
    values ← mapM_opt (fun i => v ← getValue position i p; toObject v) (seq 0 (getColumnCount p));
    Some (RawRow values)
  else
    fields ← mapM_opt (fun i => name ← names !! i; v ← getValue position i p; o ← toObject v; Some (name, o))
               (seq 0 (getColumnCount p));
    Some (ObjectRow (foldl (fun m e => js_map_set String.eqb m e.1 e.2) [] fields)).

Definition getCurrentRow (s : SR) : option Row :=
  p ← currentPage s; names ← rowMetadata s; row_at (returnRawResult s) names p (currentPosition s).

(** [checkHasNext]: the stage that follows. *)
Definition checkHasNext (s : SR) : Stage * SR :=
  if (currentPosition s =? currentRowCount s)%nat then
    if negb (last s) then
      match fetch s with
      | (inl i, s) => (WaitFetch i, s)
      | (inr e, s) => (Settled (Fails e), s)
      end
    else (Checked false, s)
  else (Checked true, s).

Definition next (s : SR) : SR := set_calls (calls s ++ [WaitExecute]) s.

(** A call goes on, once what it waits for is settled. *)
Definition advance (st : Stage) (s : SR) : option (Stage * SR) :=
  match st with
  | WaitExecute =>
      match executeDeferred s with
      | ExecutePending => None
      | ExecuteRejected e => Some (Settled (Fails e), s)
      | ExecuteDone =>
          match rowMetadata s with
          | None => Some (Settled (Fails IllegalState), s)
          | Some _ => Some (checkHasNext s)
          end
      end
  | WaitFetch i =>
      match fetches s !! i with
      | Some (FetchDone page) =>
          let '(ok, s) := onNextPage page s in
          if ok then Some (checkHasNext s) else Some (Settled (Fails Thrown), s)
      | Some (FetchRejected e) => Some (Settled (Fails e), s)
      | _ => None
      end
  | Checked true =>
      match getCurrentRow s with
      | Some row => Some (Settled (Value row), set_position (S (currentPosition s)) s)
      | None => Some (Settled (Fails Thrown), s)
      end
  | Checked false => Some (Settled Finished, s)
  | Settled _ => None
  end.

Definition resume (i : nat) (s : SR) : SR :=
  match calls s !! i with
  | Some st => match advance st s with Some (st', s) => set_calls (<[i := st']> (calls s)) s | None => s end
  | None => s
  end.
End SqlResult.
Arguments SqlPage : clear implicits.
Arguments SqlResult : clear implicits.
Arguments Row : clear implicits.
Arguments item : clear implicits.
Arguments Stage : clear implicits.
Arguments FetchPromise : clear implicits.

(** ** The event loop *)

Section Steps.
Context {V O : Type} (toObject : option V -> option O).
#[local] Abbreviation SR := (SqlResult V O).
#[local] Abbreviation ST := (Stage O).

Definition is_settled (st : ST) : Prop := match st with Settled _ => True | _ => False end.

(** Every page has a first column. When [sequential], [next] is called only after the promise of the call before it is
    settled, as [for await] does. *)
Inductive step (sequential : bool) : SR -> SR -> Prop :=
  | sq_next s : (sequential = true -> Forall is_settled (calls s)) -> step sequential s (next s)
  | sq_resume s i st r : calls s !! i = Some st -> advance toObject st s = Some r -> step sequential s (resume toObject i s)
  | sq_close s : step sequential s (close s).2
  | sq_execute s l l' alive r : requests s = l ++ ExecuteRequest :: l' ->
      (forall m page count, r = inr (m, page, count) -> is_Some (getRowCount page)) ->
      step sequential s (execute_answered alive r (set_requests (l ++ l') s))
  | sq_execute_failed s l l' alive e : requests s = l ++ ExecuteRequest :: l' ->
      step sequential s (execute_failed alive e (set_requests (l ++ l') s))
  | sq_fetch s l l' page : requests s = l ++ FetchRequest :: l' -> is_Some (getRowCount page) ->
      step sequential s (fetch_answered page (set_requests (l ++ l') s))
  | sq_fetch_failed s l l' alive e : requests s = l ++ FetchRequest :: l' ->
      step sequential s (fetch_failed alive e (set_requests (l ++ l') s))
  | sq_close_settled s l l' alive r : requests s = l ++ CloseRequest :: l' ->
      step sequential s (close_settled alive r (set_requests (l ++ l') s))
  | sq_connection_closed s : step sequential s (set_broken s).

Inductive reachable (sequential raw : bool) : SR -> Prop :=
  | reach_new : reachable sequential raw (newResult raw)
  | reach_step s s' : reachable sequential raw s -> step sequential s s' -> reachable sequential raw s'.

(** ** No call is left waiting *)

Definition at_most_one (r : Request) (l : list Request) : Prop := forall l1 l2, l = l1 ++ r :: l2 -> r ∉ l1 ++ l2.

Lemma at_most_one_app (r x : Request) l : at_most_one r l -> r ∉ l \/ x <> r -> at_most_one r (l ++ [x]).
Proof.
  intros Hl Hx l1 l2 E. destruct l2 as [|y l2' _] using rev_ind.
  - apply app_inj_tail in E as [-> ->]. rewrite app_nil_r. by destruct Hx.
  - rewrite app_comm_cons, app_assoc in E. apply app_inj_tail in E as [E ->]. pose proof (Hl _ _ E) as Hn.
    intros Hin. rewrite app_assoc in Hin. apply elem_of_app in Hin as [Hin|Hin%list_elem_of_singleton]; [done|]. subst y.
    destruct Hx as [Hx|Hx]; [|done]. apply Hx. rewrite E. set_solver.
Qed.

Lemma at_most_one_drop (r x : Request) l1 l2 : at_most_one r (l1 ++ x :: l2) -> at_most_one r (l1 ++ l2).
Proof.
  intros Hl a b E Hin. destruct (decide (x = r)) as [->|Hx].
  - apply (Hl l1 l2 eq_refl). rewrite E. set_solver.
  - assert (exists a' b', l1 ++ x :: l2 = a' ++ r :: b' /\ forall y, y ∈ a ++ b -> y ∈ a' ++ b') as (a' & b' & E' & Hs).
    { apply app_eq_app in E as (k & [[-> E]|[-> E]]).
      - destruct k as [|y k]; cbn in E.
        + subst l2. exists (a ++ [x]), b. rewrite app_nil_r, <- app_assoc. split; [done | set_solver].
        + injection E as <- ->. exists a, (k ++ x :: l2). rewrite <- app_assoc. cbn. split; [done | set_solver].
      - subst l2. exists (l1 ++ x :: k), b. rewrite <- app_assoc. split; [done | set_solver]. }
    apply (Hl a' b' E'). auto.
Qed.

Record alive_inv (s : SR) : Prop := {
  a_execute : executeDeferred s = ExecutePending -> ExecuteRequest ∈ requests s;
  a_received : closed s = true \/ responseReceived s = true \/ fetches s <> [] -> executeDeferred s <> ExecutePending;
  a_pending : forall i, fetches s !! i = Some FetchPending -> fetchDeferred s = Some i /\ (FetchRequest ∈ requests s \/ broken s = true);
  a_fetching : FetchRequest ∈ requests s -> exists i, fetchDeferred s = Some i;
  a_known : forall i k, calls s !! i = Some (WaitFetch k) -> (k < length (fetches s))%nat;
  a_deferred : forall k, fetchDeferred s = Some k -> (k < length (fetches s))%nat;
  a_one_fetch : at_most_one FetchRequest (requests s);
  a_one_close : at_most_one CloseRequest (requests s);
  a_close : CloseRequest ∈ requests s -> closed s = true }.

(** The fields [alive_inv] is about. *)
Record same_promises (s s' : SR) : Prop := {
  sp_fetches : fetches s' = fetches s; sp_deferred : fetchDeferred s' = fetchDeferred s; sp_requests : requests s' = requests s;
  sp_calls : calls s' = calls s; sp_broken : broken s' = broken s;
  sp_closed : closed s = true -> closed s' = true;
  sp_execute : executeDeferred s' = ExecutePending -> executeDeferred s = ExecutePending;
  sp_received : closed s' = true \/ responseReceived s' = true -> executeDeferred s' <> ExecutePending }.

Lemma alive_same s s' : alive_inv s -> same_promises s s' -> alive_inv s'.
Proof.
  intros [] []. constructor; rewrite ?sp_fetches0, ?sp_deferred0, ?sp_requests0, ?sp_calls0, ?sp_broken0; auto.
  - intros [?|[?|Hn]]; auto. intros E. apply sp_execute0 in E. by apply a_received0 in E; auto.
Qed.

Lemma alive_new raw : alive_inv (newResult raw).
Proof.
  constructor; cbn; try done.
  - intros _. by left.
  - by intros [|[|]].
  - intros [?|?%not_elem_of_nil]%elem_of_cons; done.
  - intros l1 l2 E. destruct l1 as [|x l1]; cbn in E; [done|]. injection E as _ E. by destruct l1.
  - intros l1 l2 E. destruct l1 as [|x l1]; cbn in E; [done|]. injection E as _ E. by destruct l1.
  - intros [?|?%not_elem_of_nil]%elem_of_cons; done.
Qed.

Lemma alive_executed (s s' : SR) l l' : alive_inv s -> requests s = l ++ ExecuteRequest :: l' -> requests s' = l ++ l' ->
  fetches s' = fetches s -> fetchDeferred s' = fetchDeferred s -> calls s' = calls s -> broken s' = broken s -> (closed s = true -> closed s' = true) ->
  executeDeferred s' <> ExecutePending -> alive_inv s'.
Proof.
  intros [] E E' Ef Ed Ec Eb Hcl He.
  assert (Hin : forall r, r <> ExecuteRequest -> r ∈ requests s <-> r ∈ requests s') by (intros r Hr; rewrite E, E'; set_solver).
  constructor; rewrite ?Ef, ?Ed, ?Ec, ?Eb; auto.
  - done.
  - intros i Hi. rewrite <- Hin by done. auto.
  - rewrite <- Hin by done. auto.
  - rewrite E'. eapply at_most_one_drop. by rewrite <- E.
  - rewrite E'. eapply at_most_one_drop. by rewrite <- E.
  - rewrite <- Hin by done. auto.
Qed.

Lemma onExecuteError_run e (s : SR) : (closed s = true \/ responseReceived s = true -> executeDeferred s <> ExecutePending) ->
  same_promises s (onExecuteError e s) /\ executeDeferred (onExecuteError e s) <> ExecutePending.
Proof.
  intros Hr. unfold onExecuteError. destruct (closed s) eqn:Ec.
  - split; [constructor; auto | auto].
  - split; [|by cbn; destruct (executeDeferred s)]. constructor; cbn; auto; [congruence | by destruct (executeDeferred s)..].
Qed.

Lemma execute_answered_alive (s : SR) l l' alive r : alive_inv s -> requests s = l ++ ExecuteRequest :: l' ->
  (forall m page count, r = inr (m, page, count) -> is_Some (getRowCount page)) ->
  alive_inv (execute_answered alive r (set_requests (l ++ l') s)).
Proof.
  intros Hi E Hp. set (s0 := set_requests (l ++ l') s).
  assert (Hr : closed s0 = true \/ responseReceived s0 = true -> executeDeferred s0 <> ExecutePending) by (intros [?|?]; apply (a_received s Hi); auto).
  destruct r as [error|[[m page] count]]; cbn.
  - destruct (onExecuteError_run error s0 Hr) as [[] He]. eapply (alive_executed s _ l l'); [done | done | done..].
  - unfold onExecuteResponse. destruct (closed s0) eqn:Ec.
    + eapply (alive_executed s s0 l l'); [done | done | done.. | by apply Hr; left].
    + destruct m as [m|].
      * unfold onNextPage. destruct (Hp _ _ _ eq_refl) as [n ->]. eapply (alive_executed s _ l l'); [done | done | done.. | |].
        -- cbn. cbn in Ec. rewrite Ec. done.
        -- cbn. by destruct (executeDeferred s).
      * eapply (alive_executed s _ l l'); [done | done | done.. |]. cbn. by destruct (executeDeferred s).
Qed.

Lemma execute_failed_alive (s : SR) l l' alive e : alive_inv s -> requests s = l ++ ExecuteRequest :: l' ->
  alive_inv (execute_failed alive e (set_requests (l ++ l') s)).
Proof.
  intros Hi E. unfold execute_failed. set (s0 := set_requests (l ++ l') s).
  destruct (onExecuteError_run (toHazelcastSqlException alive e) s0) as [[] He]; [intros [?|?]; apply (a_received s Hi); auto|].
  eapply (alive_executed s _ l l'); [done | done | done..].
Qed.

(** Once the promise of the fetch is settled, none is pending. *)
Lemma settle_fetch_run (p : FetchPromise V) (s : SR) : p <> FetchPending -> (forall i, fetches s !! i = Some FetchPending -> fetchDeferred s = Some i) ->
  exists l, settle_fetch p s = set_fetch (fetchDeferred s) l s /\ length l = length (fetches s) /\ (forall i, l !! i <> Some FetchPending).
Proof.
  intros Hp Hd. unfold settle_fetch. destruct (fetchDeferred s) as [k|] eqn:Ek.
  - destruct (fetches s !! k) as [[]|] eqn:Ef.
    + exists (<[k := p]> (fetches s)). split_and!; [done | by rewrite length_insert |]. intros i Hi.
      apply list_lookup_insert_Some in Hi as [(-> & ? & _)|(Hn & Hi)]; [done|]. apply Hd in Hi. congruence.
    + exists (fetches s). split_and!; [by rewrite <- Ek; destruct s | done |]. intros i Hi. pose proof (Hd i Hi). congruence.
    + exists (fetches s). split_and!; [by rewrite <- Ek; destruct s | done |]. intros i Hi. pose proof (Hd i Hi). congruence.
    + exists (fetches s). split_and!; [by rewrite <- Ek; destruct s | done |]. intros i Hi. pose proof (Hd i Hi). congruence.
  - exists (fetches s). split_and!; [by rewrite <- Ek; destruct s | done |]. intros i Hi. pose proof (Hd i Hi). congruence.
Qed.

Lemma alive_fetched (s : SR) l l' d fs : alive_inv s -> requests s = l ++ FetchRequest :: l' -> length fs = length (fetches s) ->
  (forall i, fs !! i <> Some FetchPending) -> d = None \/ d = fetchDeferred s -> alive_inv (set_fetch d fs (set_requests (l ++ l') s)).
Proof.
  intros [] E Hl Hn Hd. pose proof (a_one_fetch0 _ _ E) as Hno.
  assert (Hin : forall r, r <> FetchRequest -> r ∈ requests s <-> r ∈ l ++ l') by (intros r Hr; rewrite E; set_solver).
  constructor; cbn; auto.
  - rewrite <- Hin by done. auto.
  - intros [?|[?|Hf]]; [auto | auto |]. apply a_received0. right. right. intros E0. rewrite E0 in Hl. by destruct fs.
  - intros i Hi. by destruct (Hn i).
  - done.
  - rewrite Hl. auto.
  - rewrite Hl. intros k Hk. destruct Hd as [->| ->]; [done | auto].
  - eapply at_most_one_drop. by rewrite <- E.
  - eapply at_most_one_drop. by rewrite <- E.
  - rewrite <- Hin by done. auto.
Qed.

(** A promise is made for the next page, and the request is sent or throws. *)
Lemma alive_new_fetch (s : SR) rq : alive_inv s -> executeDeferred s <> ExecutePending -> fetchDeferred s = None -> closed s = false ->
  rq = [FetchRequest] \/ rq = [] /\ broken s = true ->
  alive_inv (set_requests (requests s ++ rq) (set_fetch (Some (length (fetches s))) (fetches s ++ [FetchPending]) s)).
Proof.
  intros Hi He Ek Ec Hrq. assert (Hno : FetchRequest ∉ requests s) by (intros Hf; destruct (a_fetching s Hi Hf); congruence).
  destruct Hi. constructor; cbn; auto.
  - intros E. by rewrite E in He.
  - intros i Hx. apply lookup_app_Some in Hx as [Hx|[Hl Hx]].
    + destruct (a_pending0 i Hx). congruence.
    + apply list_lookup_singleton_Some in Hx as [Hx _]. split; [f_equal; lia|].
      destruct Hrq as [->|[_ ?]]; [left; rewrite elem_of_app, list_elem_of_singleton; auto | auto].
  - eauto.
  - intros i k Hk. rewrite length_app. specialize (a_known0 i k Hk). lia.
  - intros k [= <-]. rewrite length_app. cbn. lia.
  - destruct Hrq as [->|[-> _]]; [apply at_most_one_app; auto | by rewrite app_nil_r].
  - destruct Hrq as [->|[-> _]]; [apply at_most_one_app; auto | by rewrite app_nil_r].
  - rewrite elem_of_app. intros [Hx|Hx]; [pose proof (a_close0 Hx); congruence|].
    destruct Hrq as [->|[-> _]]; [by apply list_elem_of_singleton in Hx | by apply not_elem_of_nil in Hx].
Qed.

Lemma fetch_alive (s : SR) r s' : alive_inv s -> executeDeferred s <> ExecutePending -> fetch s = (r, s') ->
  alive_inv s' /\ calls s' = calls s /\ forall i, r = inl i -> (i < length (fetches s'))%nat.
Proof.
  intros Hi He. unfold fetch. destruct (fetchDeferred s) as [k|] eqn:Ek.
  - intros [= <- <-]. split_and!; [done | done |]. intros i [= <-]. by apply (a_deferred s Hi).
  - destruct (closed s) eqn:Ec; [by intros [= <- <-]|]. cbn [broken set_fetch]. destruct (broken s) eqn:Eb; intros [= <- <-]; split_and!; try done.
    + pose proof (alive_new_fetch s [] Hi He Ek Ec (or_intror (conj eq_refl Eb))) as Hn. rewrite app_nil_r in Hn. exact Hn.
    + apply alive_new_fetch; auto.
    + intros i [= <-]. cbn. rewrite length_app. cbn. lia.
Qed.

Lemma alive_set_call (s : SR) i st : alive_inv s -> (forall k, st = WaitFetch k -> (k < length (fetches s))%nat) ->
  alive_inv (set_calls (<[i := st]> (calls s)) s).
Proof.
  intros [] Hk. constructor; auto. cbn. intros j k Hj. apply list_lookup_insert_Some in Hj as [(-> & -> & _)|(_ & Hj)]; eauto.
Qed.

Lemma check_alive (s : SR) st s' : alive_inv s -> executeDeferred s <> ExecutePending -> checkHasNext s = (st, s') ->
  alive_inv s' /\ calls s' = calls s /\ forall k, st = WaitFetch k -> (k < length (fetches s'))%nat.
Proof.
  intros Hi He. unfold checkHasNext. destruct (_ =? _)%nat; [|by intros [= <- <-]]. destruct (negb _); [|by intros [= <- <-]].
  destruct (fetch s) as [[k|e] s1] eqn:E; intros [= <- <-]; destruct (fetch_alive _ _ _ Hi He E) as (H1 & H2 & H3);
    (split_and!; [done | done |]); [intros k' [= <-]; auto | done].
Qed.

Lemma resume_alive (s : SR) i st r : alive_inv s -> calls s !! i = Some st -> advance toObject st s = Some r -> alive_inv (resume toObject i s).
Proof.
  intros Hi Hst Ha. unfold resume. rewrite Hst, Ha. destruct r as [st' s'].
  enough (alive_inv s' /\ calls s' = calls s /\ forall k, st' = WaitFetch k -> (k < length (fetches s'))%nat) as (H1 & H2 & H3) by (by apply alive_set_call).
  destruct st as [|k|[]|x]; cbn in Ha; [| | | |done].
  - destruct (executeDeferred s) eqn:Ee; [done | |by simplify_eq]. destruct (rowMetadata s); [|by simplify_eq].
    injection Ha as Ha. eapply check_alive; [done | congruence | done].
  - destruct (fetches s !! k) as [[]|] eqn:Ef; [done | | by simplify_eq | done].
    assert (He : executeDeferred s <> ExecutePending) by (apply (a_received s Hi); right; right; intros E; by rewrite E in Ef).
    unfold onNextPage in Ha. destruct (getRowCount page) as [n|].
    + assert (Hp : alive_inv (set_page page n s)).
      { eapply alive_same; [done|]. constructor; cbn; auto. intros ->. apply orb_true_r. }
      injection Ha as Ha. eapply (check_alive (set_page page n s)); [done | done | done].
    + simplify_eq. split_and!; [|done|done]. eapply alive_same; [done|]. constructor; cbn; auto.
  - destruct (getCurrentRow toObject s); simplify_eq; (split_and!; [|done|done]); [|done].
    eapply alive_same; [done|]. constructor; cbn; auto. intros [?|?]; apply (a_received s Hi); auto.
  - by simplify_eq.
Qed.

Lemma close_alive (s : SR) : alive_inv s -> alive_inv (close s).2.
Proof.
  intros Hi. unfold close. destruct (closeDeferred s); [done|]. destruct (closed s) eqn:Ec; [done|].
  set (s1 := if responseReceived s then s else _).
  assert (H1 : same_promises s s1 /\ executeDeferred s1 <> ExecutePending /\ closed s1 = false).
  { unfold s1. destruct (responseReceived s) eqn:Er.
    - split_and!; [|by apply (a_received s Hi); auto | done]. constructor; auto. intros [?|?]; apply (a_received s Hi); auto.
    - destruct (onExecuteError_run (HazelcastSqlException CANCELLED_BY_USER) s) as [? ?]; [intros [?|?]; apply (a_received s Hi); auto|].
      split_and!; [done | done |]. unfold onExecuteError. rewrite Ec. by cbn. }
  destruct H1 as (Hs & He & Hc1). pose proof (alive_same _ _ Hi Hs) as Hi1. clearbody s1.
  set (s2 := match fetchDeferred s1 with Some _ => _ | None => _ end).
  assert (H2 : exists d fs, s2 = set_fetch (Some d) fs s1 /\ (d < length fs)%nat /\ (length (fetches s1) <= length fs)%nat /\
    (forall i, fs !! i = Some FetchPending -> i = d) /\ (fetchDeferred s1 = None -> FetchRequest ∉ requests s1)).
  { unfold s2. destruct (fetchDeferred s1) as [d|] eqn:Ed.
    - exists d, (fetches s1). split_and!; [by rewrite <- Ed; destruct s1 | by apply (a_deferred s1 Hi1) | done | | done].
      intros i Hx. destruct (a_pending s1 Hi1 i Hx). congruence.
    - exists (length (fetches s1)), (fetches s1 ++ [FetchPending]). split_and!; [done | rewrite length_app; cbn; lia | rewrite length_app; lia | |].
      + intros i Hx. apply lookup_app_Some in Hx as [Hx|[Hl Hx]]; [destruct (a_pending s1 Hi1 i Hx); congruence|].
        apply list_lookup_singleton_Some in Hx as [Hx _]. lia.
      + intros _ Hf. destruct (a_fetching s1 Hi1 Hf). congruence. }
  destruct H2 as (d & fs & -> & Hd & Hlen & Hp & Hno).
  destruct (settle_fetch_run (FetchRejected (HazelcastSqlException CANCELLED_BY_USER)) (set_fetch (Some d) fs s1)) as (l & -> & Hl & Hn);
    [done | intros i Hx; cbn; by rewrite (Hp i Hx) |]. cbn in Hl.
  cbn [broken set_fetch]. destruct Hi1. destruct (broken s1); constructor; cbn; try done; try (by intros i Hx; destruct (Hn i)); try (by eauto);
    try (by intros k [= <-]; rewrite Hl); try (intros i k Hk; rewrite Hl; specialize (a_known0 i k Hk); lia).
  - apply at_most_one_app; auto.
  - apply at_most_one_app; [done|]. left. intros Hx. apply a_close0 in Hx. congruence.
Qed.

Lemma alive_step b (s s' : SR) : alive_inv s -> step b s s' -> alive_inv s'.
Proof.
  intros Hi Hst. destruct Hst as [s _|s i st r Hst Ha|s|s l l' al r E Hp|s l l' al e E|s l l' page E Hp|s l l' al e E|s l l' al r E|s].
  - destruct Hi. constructor; auto. cbn. intros i k Hk. apply lookup_app_Some in Hk as [Hk|[_ [_ [=]]%list_lookup_singleton_Some]]. eauto.
  - by eapply resume_alive.
  - by apply close_alive.
  - by apply execute_answered_alive.
  - by apply execute_failed_alive.
  - unfold fetch_answered. destruct (settle_fetch_run (FetchDone page) (set_requests (l ++ l') s)) as (fs & -> & Hl & Hn);
      [done | intros i Hx; by apply (a_pending s Hi) |]. by apply (alive_fetched s l l' None fs); auto.
  - unfold fetch_failed. destruct (settle_fetch_run (FetchRejected (toHazelcastSqlException al e)) (set_requests (l ++ l') s)) as (fs & -> & Hl & Hn);
      [done | intros i Hx; by apply (a_pending s Hi) |]. by apply (alive_fetched s l l' (fetchDeferred s) fs); auto.
  - destruct Hi. assert (Hin : forall q, q <> CloseRequest -> q ∈ requests s <-> q ∈ l ++ l') by (intros q Hq; rewrite E; set_solver).
    constructor; cbn; auto.
    + rewrite <- Hin by done. auto.
    + intros i Hx. rewrite <- Hin by done. auto.
    + rewrite <- Hin by done. auto.
    + eapply at_most_one_drop. by rewrite <- E.
    + eapply at_most_one_drop. by rewrite <- E.
    + intros Hx. by destruct (a_one_close0 _ _ E).
  - destruct Hi. constructor; auto. cbn. intros i Hx. destruct (a_pending0 i Hx). auto.
Qed.

Lemma reachable_alive b raw s : reachable b raw s -> alive_inv s.
Proof. induction 1; [apply alive_new | by eapply alive_step]. Qed.

(** C15: no [next] is left waiting while the connection is open, however many are called at once: a call whose promise is
    not settled can go on, or the request whose answer it waits for is in flight; a call can wait for ever only when
    the connection was closed and the request for the page threw, after its promise was made. There is at most one
    request for a page in flight and at most one to close; and once the result is closed (by the last page, an update
    count or [close]) none is sent any more. *)
Theorem next_never_stuck (b raw : bool) (s : SR) : reachable b raw s ->
  (forall i st, calls s !! i = Some st ->
     is_settled st \/ is_Some (advance toObject st s) \/ (st = WaitExecute /\ ExecuteRequest ∈ requests s) \/
     exists k, st = WaitFetch k /\ fetches s !! k = Some FetchPending /\ (FetchRequest ∈ requests s \/ broken s = true)) /\
  at_most_one FetchRequest (requests s) /\ at_most_one CloseRequest (requests s) /\
  (closed s = true -> forall s' r, step b s s' -> r ∈ requests s' -> r ∈ requests s).
Proof.
  intros Hr. pose proof (reachable_alive b raw s Hr) as Hi. split_and!; [| apply Hi | apply Hi |].
  - intros i [|k|[]|x] Hst; cbn.
    + destruct (executeDeferred s) eqn:Ee; [right; right; left; split; [done | by apply (a_execute s Hi)] | |by eauto].
      destruct (rowMetadata s); eauto.
    + destruct (lookup_lt_is_Some_2 (fetches s) k (a_known s Hi i k Hst)) as [p Hp]. rewrite Hp. destruct p as [|page|e].
      * do 3 right. exists k. destruct (a_pending s Hi k Hp). done.
      * right. left. destruct (onNextPage page s) as [[] ?]; eauto.
      * eauto.
    + right. left. destruct (getCurrentRow toObject s); eauto.
    + eauto.
    + by left.
  - intros Hc s' r Hst Hin. destruct Hst as [s _|s i st x Hst Ha|s|s l l' al x E Hp|s l l' al e E|s l l' page E Hp|s l l' al e E|s l l' al x E|s]; try done.
    + unfold resume in Hin. rewrite Hst, Ha in Hin. destruct x as [st' s1]. cbn in Hin. revert Hin.
      assert (Hf : forall q, closed q = true -> requests q = requests s -> forall y, Some (checkHasNext q) = Some (y, s1) -> r ∈ requests s1 -> r ∈ requests s).
      { intros q Hq Eq y. unfold checkHasNext, fetch. rewrite Hq. repeat case_match; intros; simplify_eq; congruence. }
      destruct st as [|k|[]|z]; cbn in Ha.
      * destruct (executeDeferred s); [done | | by simplify_eq]. destruct (rowMetadata s); [|by simplify_eq]. by eapply (Hf s).
      * destruct (fetches s !! k) as [[]|]; [done | | by simplify_eq | done]. unfold onNextPage in Ha. destruct (getRowCount page) as [n|].
        -- eapply (Hf (set_page page n s)); [cbn; rewrite Hc; apply orb_true_r | done | done].
        -- by simplify_eq.
      * by destruct (getCurrentRow toObject s); simplify_eq.
      * by simplify_eq.
      * done.
    + unfold close in Hin. rewrite Hc in Hin. by destruct (closeDeferred s).
    + assert (Hin' : r ∈ l ++ l').
      { revert Hin. unfold execute_answered, onExecuteResponse, onExecuteError. cbn. rewrite Hc. destruct x as [?|[[m p] c]]; done. }
      rewrite E. set_solver.
    + unfold execute_failed, onExecuteError in Hin. cbn in Hin. rewrite Hc in Hin. cbn in Hin. rewrite E. set_solver.
    + assert (Hin' : r ∈ l ++ l').
      { revert Hin. unfold fetch_answered, settle_fetch. cbn. by repeat case_match. }
      rewrite E. set_solver.
    + assert (Hin' : r ∈ l ++ l').
      { revert Hin. unfold fetch_failed, settle_fetch. cbn. by repeat case_match. }
      rewrite E. set_solver.
    + cbn in Hin. rewrite E. set_solver.
Qed.

(** ** Every row once, in order *)

(** The rows of a page: nothing for one that cannot be read. *)
Definition page_rows (s : SR) (p : SqlPage V) : list (option (Row O)) :=
  match rowMetadata s, getRowCount p with
  | Some names, Some n => map (row_at toObject (returnRawResult s) names p) (seq 0 n)
  | _, _ => []
  end.

Definition value_of (st : ST) : option (Row O) := match st with Settled (Value r) => Some r | _ => None end.

(** The rows the calls returned, in the order of the calls. *)
Definition delivered (s : SR) : list (Row O) := omap value_of (calls s).

(** The stage of a call agrees with the position in a page of [n] rows. *)
Definition stage_at (s : SR) (n : nat) (st : ST) : Prop :=
  match st with
  | WaitFetch _ => currentPosition s = n /\ last s = false
  | Checked true => (currentPosition s < n)%nat
  | Checked false | Settled Finished => currentPosition s = n /\ last s = true
  | _ => True
  end.

Record in_page (s : SR) (p : SqlPage V) (earlier : list (SqlPage V)) (n : nat) : Prop := {
  p_taken : taken s = earlier ++ [p];
  p_rows : getRowCount p = Some n;
  p_count : currentRowCount s = n;
  p_metadata : is_Some (rowMetadata s);
  p_received : ExecuteRequest ∉ requests s /\ responseReceived s = true;
  p_position : (currentPosition s <= n)%nat;
  p_last : last s = page_last p;
  p_delivered : Some <$> delivered s = concat (page_rows s <$> earlier) ++ take (currentPosition s) (page_rows s p) }.

Record rows_inv (s : SR) : Prop := {
  r_calls : forall i st, calls s !! i = Some st -> ~ is_settled st -> S i = length (calls s);
  r_fetches : forall i page, fetches s !! i = Some (FetchDone page) -> is_Some (getRowCount page);
  r_one : at_most_one ExecuteRequest (requests s);
  r_page : match currentPage s with
    | None => taken s = [] /\ rowMetadata s = None /\ last s = false /\
        forall st, st ∈ calls s -> st = WaitExecute \/ exists e, st = Settled (Fails e)
    | Some p => exists earlier n, in_page s p earlier n /\ forall st, st ∈ calls s -> stage_at s n st
    end }.

Lemma rows_new raw : rows_inv (newResult raw).
Proof.
  constructor; cbn; try done.
  - intros l1 l2 E. destruct l1 as [|x l1]; cbn in E; [injection E as <-; by intros ?%not_elem_of_nil | injection E as _ E; by destruct l1].
  - split_and!; try done. by intros st ?%not_elem_of_nil.
Qed.

(** The call that goes on is the last one. *)
Lemma active_call (s : SR) i st : rows_inv s -> calls s !! i = Some st -> ~ is_settled st ->
  exists c, calls s = c ++ [st] /\ i = length c /\ Forall is_settled c.
Proof.
  intros Hi Hst Hn. pose proof (r_calls s Hi i st Hst Hn) as Hl. exists (take i (calls s)).
  assert (E : calls s = take i (calls s) ++ [st]) by (rewrite <- (take_drop_middle _ _ _ Hst) at 1; rewrite drop_ge by lia; done).
  split_and!; [done | rewrite length_take; lia |]. apply Forall_forall. intros x Hx. apply list_elem_of_lookup in Hx as [j Hj].
  pose proof (lookup_lt_Some _ _ _ Hj) as Hlt. rewrite length_take in Hlt. rewrite lookup_take_lt in Hj by lia.
  destruct x as [|k|b|y]; try done; pose proof (r_calls s Hi j _ Hj (fun F => F)); lia.
Qed.

(** A state that differs from [s] in the promises and the requests. *)
Record same_rows (s s' : SR) : Prop := {
  sr_calls : calls s' = calls s; sr_page : currentPage s' = currentPage s; sr_count : currentRowCount s' = currentRowCount s;
  sr_position : currentPosition s' = currentPosition s; sr_last : last s' = last s; sr_raw : returnRawResult s' = returnRawResult s;
  sr_taken : taken s' = taken s;
  sr_metadata : currentPage s <> None \/ rowMetadata s <> None -> rowMetadata s' = rowMetadata s;
  sr_none : rowMetadata s = None -> rowMetadata s' = None;
  sr_received : responseReceived s = true -> responseReceived s' = true;
  sr_execute : ExecuteRequest ∈ requests s' -> ExecuteRequest ∈ requests s;
  sr_one : at_most_one ExecuteRequest (requests s) -> at_most_one ExecuteRequest (requests s');
  sr_fetches : (forall i page, fetches s !! i = Some (FetchDone page) -> is_Some (getRowCount page)) ->
    forall i page, fetches s' !! i = Some (FetchDone page) -> is_Some (getRowCount page) }.

Lemma concat_rows_ext (f g : SqlPage V -> list (option (Row O))) l : (forall q, f q = g q) -> concat (f <$> l) = concat (g <$> l).
Proof. intros E. induction l as [|q l IH]; cbn; [done|]. by rewrite E, IH. Qed.

Lemma rows_same (s s' : SR) : rows_inv s -> same_rows s s' -> rows_inv s'.
Proof.
  intros [Hc Hf Ho Hp] []. constructor; [by rewrite sr_calls0 | by apply sr_fetches0 | by apply sr_one0 |]. rewrite sr_page0, sr_calls0. destruct (currentPage s) as [p|] eqn:Ep.
  - destruct Hp as (earlier & n & [] & Hst). assert (Em : rowMetadata s' = rowMetadata s) by (apply sr_metadata0; by left).
    assert (Er : forall q, page_rows s' q = page_rows s q) by (intros q; unfold page_rows; by rewrite Em, sr_raw0).
    exists earlier, n. split.
    + constructor; rewrite ?sr_taken0, ?sr_count0, ?sr_position0, ?sr_last0, ?Em; auto; [naive_solver|].
      unfold delivered. rewrite sr_calls0, Er. by rewrite (concat_rows_ext _ _ earlier Er).
    + intros st Hx. specialize (Hst st Hx). unfold stage_at in *. by rewrite sr_position0, sr_last0.
  - destruct Hp as (? & ? & ? & ?). rewrite sr_taken0, sr_last0. auto.
Qed.

(** The active call goes on without a row. *)
Lemma rows_set_call (s : SR) i st st' p earlier n : rows_inv s -> calls s !! i = Some st -> ~ is_settled st ->
  currentPage s = Some p -> in_page s p earlier n -> stage_at s n st' -> value_of st' = None ->
  rows_inv (set_calls (<[i := st']> (calls s)) s).
Proof.
  intros Hi Hst Hn Hp Hin Hst' Hv. destruct (active_call s i st Hi Hst Hn) as (c & Ec & -> & Hc).
  assert (El : <[length c := st']> (calls s) = c ++ [st']) by (rewrite Ec; by rewrite insert_app_r_alt, Nat.sub_diag by lia).
  rewrite El. destruct Hi as [Hc0 Hf Ho Hpg]. constructor; auto.
  - cbn. intros i x Hx Hnx. apply lookup_app_Some in Hx as [Hx|[Hl [Hx _]%list_lookup_singleton_Some]]; [|rewrite length_app; cbn; lia].
    rewrite Forall_forall in Hc. destruct Hnx. apply Hc. by eapply list_elem_of_lookup_2.
  - cbn. rewrite Hp in *. destruct Hpg as (e1 & n1 & Hin1 & Hall). exists earlier, n.
    assert (n1 = n) as -> by (pose proof (p_rows _ _ _ _ Hin1); pose proof (p_rows _ _ _ _ Hin); congruence). split.
    + destruct Hin. constructor; auto. etransitivity; [|exact p_delivered0]. f_equal. unfold delivered. cbn. rewrite Ec, !omap_app. cbn.
      assert (value_of st = None) as -> by (by destruct st). by rewrite Hv.
    + intros x [Hx|Hx%list_elem_of_singleton]%elem_of_app; [|by subst]. apply Hall. rewrite Ec. apply elem_of_app. by left.
Qed.

Lemma same_rows_trans (s1 s2 s3 : SR) : same_rows s1 s2 -> same_rows s2 s3 -> same_rows s1 s3.
Proof.
  intros [] []. constructor; try congruence; auto.
  - intros Hp. rewrite sr_metadata1, sr_metadata0; [done | done |].
    destruct Hp as [Hp|Hp]; [left; congruence | right; rewrite sr_metadata0; auto].
  - intros Hf. by apply sr_fetches1, sr_fetches0.
Qed.

Lemma rows_fetch (s : SR) r s' : rows_inv s -> fetch s = (r, s') -> same_rows s s' .
Proof.
  intros Hi. unfold fetch. destruct (fetchDeferred s); [intros [= <- <-]; by constructor|].
  assert (Hnew : forall i, same_rows s (set_fetch (Some i) (fetches s ++ [FetchPending]) s)).
  { intros i. constructor; cbn; auto. intros Hf j page [Hx|[_ [_ [=]]%list_lookup_singleton_Some]]%lookup_app_Some. eauto. }
  destruct (closed s); [intros [= <- <-]; by constructor|]. cbn [broken set_fetch]. destruct (broken s); intros [= <- <-]; [apply Hnew|].
  eapply same_rows_trans; [exact (Hnew (length (fetches s)))|]. constructor; cbn; auto.
  - intros [?|?%list_elem_of_singleton]%elem_of_app; done.
  - intros Ho. apply at_most_one_app; auto.
Qed.

Lemma in_page_same (s s' : SR) p earlier n : same_rows s s' -> currentPage s = Some p -> in_page s p earlier n -> in_page s' p earlier n.
Proof.
  intros [] Ep []. assert (Em : rowMetadata s' = rowMetadata s) by (apply sr_metadata0; left; congruence).
  assert (Er : forall q, page_rows s' q = page_rows s q) by (intros q; unfold page_rows; by rewrite Em, sr_raw0).
  constructor; rewrite ?sr_taken0, ?sr_count0, ?sr_position0, ?sr_last0, ?Em; auto; [naive_solver|].
  unfold delivered. rewrite sr_calls0, Er. by rewrite (concat_rows_ext _ _ earlier Er).
Qed.

Lemma rows_check (s : SR) i st st' s' p earlier n : rows_inv s -> calls s !! i = Some st -> ~ is_settled st ->
  currentPage s = Some p -> in_page s p earlier n -> checkHasNext s = (st', s') -> rows_inv (set_calls (<[i := st']> (calls s')) s').
Proof.
  intros Hi Hst Hn Hp Hin. unfold checkHasNext. rewrite (p_count _ _ _ _ Hin). pose proof (p_position _ _ _ _ Hin) as Hpos.
  destruct (Nat.eqb_spec (currentPosition s) n) as [E|E].
  - destruct (last s) eqn:El; cbn.
    + intros [= <- <-]. by eapply rows_set_call.
    + destruct (fetch s) as [r s1] eqn:Ef. pose proof (rows_fetch s r s1 Hi Ef) as Hs. pose proof (rows_same _ _ Hi Hs) as Hi1.
      pose proof (in_page_same _ _ _ _ _ Hs Hp Hin) as Hin1. destruct Hs.
      destruct r as [k|e]; intros [= <- <-]; (eapply rows_set_call; [done | by rewrite sr_calls0 | done | by rewrite sr_page0 | done | | done]); [|done].
      cbn. by rewrite sr_position0, sr_last0.
  - intros [= <- <-]. eapply rows_set_call; [done.. | | done]. cbn. lia.
Qed.

Lemma page_rows_length (s : SR) p n : getRowCount p = Some n -> is_Some (rowMetadata s) -> length (page_rows s p) = n.
Proof. intros Hn [m Hm]. unfold page_rows. rewrite Hm, Hn. by rewrite length_fmap, length_seq. Qed.

(** The page that follows one read to its end. *)
Lemma rows_next_page (s : SR) i page n' p earlier n : rows_inv s -> calls s !! i = Some WaitExecute -> currentPage s = Some p ->
  in_page s p earlier n -> currentPosition s = n -> last s = false -> getRowCount page = Some n' ->
  rows_inv (set_page page n' s) /\ in_page (set_page page n' s) page (earlier ++ [p]) n'.
Proof.
  intros Hi Hst Hp Hin Hpos Hl Hn'.
  assert (Hin' : in_page (set_page page n' s) page (earlier ++ [p]) n').
  { destruct Hin. constructor; cbn; auto; [by rewrite p_taken0 | lia | by rewrite Hl, orb_false_r |].
    change (page_rows (set_page page n' s)) with (page_rows s). rewrite fmap_app, concat_app. cbn. rewrite !app_nil_r.
    etransitivity; [exact p_delivered0|]. f_equal. apply take_ge. rewrite (page_rows_length s p n) by done. lia. }
  split; [|done]. destruct (active_call s i _ Hi Hst (fun F => F)) as (c & Ec & _ & Hc). destruct Hi as [Hc0 Hf Ho Hpg]. constructor; auto.
  cbn. exists (earlier ++ [p]), n'. split; [done|]. rewrite Hp in Hpg. destruct Hpg as (e1 & n1 & Hin1 & Hall).
  intros st Hx. specialize (Hall st Hx). rewrite Ec in Hx. apply elem_of_app in Hx as [Hx|Hx%list_elem_of_singleton]; [|by subst st].
  rewrite Forall_forall in Hc. specialize (Hc st Hx). destruct st as [| | |[]]; try done. cbn in Hall. destruct Hall as [_ Hall]. congruence.
Qed.

Lemma check_calls (l : list ST) (s : SR) : checkHasNext (set_calls l s) = ((checkHasNext s).1, set_calls l (checkHasNext s).2).
Proof. unfold checkHasNext, fetch. cbn. by repeat case_match; simplify_eq. Qed.

Lemma check_keeps_calls (s : SR) : calls (checkHasNext s).2 = calls s.
Proof. unfold checkHasNext, fetch. by repeat case_match; simplify_eq. Qed.

(** A row is returned. *)
Lemma rows_deliver (s : SR) i row p earlier n : rows_inv s -> calls s !! i = Some (Checked true) -> currentPage s = Some p ->
  in_page s p earlier n -> (currentPosition s < n)%nat -> getCurrentRow toObject s = Some row ->
  rows_inv (set_calls (<[i := Settled (Value row)]> (calls s)) (set_position (S (currentPosition s)) s)).
Proof.
  intros Hi Hst Hp Hin Hlt Hrow. destruct (active_call s i _ Hi Hst (fun F => F)) as (c & Ec & -> & Hc).
  assert (El : <[length c := Settled (Value row)]> (calls s) = c ++ [Settled (Value row)])
    by (rewrite Ec; by rewrite insert_app_r_alt, Nat.sub_diag by lia).
  rewrite El. pose proof Hi as [Hc0 Hf Ho Hpg]. constructor; auto.
  - cbn. intros j x Hx Hnx. apply lookup_app_Some in Hx as [Hx|[Hl [Hx _]%list_lookup_singleton_Some]]; [|rewrite length_app; cbn; lia].
    rewrite Forall_forall in Hc. destruct Hnx. apply Hc. by eapply list_elem_of_lookup_2.
  - cbn. rewrite Hp in *. destruct Hpg as (e1 & n1 & Hin1 & Hall). exists earlier, n.
    assert (n1 = n) as -> by (pose proof (p_rows _ _ _ _ Hin1); pose proof (p_rows _ _ _ _ Hin); congruence). split.
    + destruct Hin. constructor; auto. cbn [currentPosition set_calls set_position].
      change (page_rows (set_calls _ _)) with (page_rows s).
      assert (Hr : page_rows s p !! currentPosition s = Some (Some row)).
      { unfold getCurrentRow in Hrow. rewrite Hp in Hrow. cbn in Hrow. destruct (rowMetadata s) as [names|] eqn:Em; [|done]. cbn in Hrow.
        unfold page_rows. rewrite Em, p_rows0, list_lookup_fmap, lookup_seq_lt by done. cbn. by rewrite Hrow. }
      rewrite (take_S_r _ _ _ Hr), app_assoc. rewrite <- p_delivered0. unfold delivered. cbn.
      rewrite Ec, !omap_app, !fmap_app. cbn. by rewrite app_nil_r.
    + intros x [Hx|Hx%list_elem_of_singleton]%elem_of_app; [|by subst]. specialize (Hall x ltac:(rewrite Ec; set_solver)).
      rewrite Forall_forall in Hc. specialize (Hc x Hx). destruct x as [| | |[]]; try done. cbn in Hall. lia.
Qed.

Lemma rows_resume (s : SR) i st r : rows_inv s -> calls s !! i = Some st -> advance toObject st s = Some r -> rows_inv (resume toObject i s).
Proof.
  intros Hi Hst Ha. unfold resume. rewrite Hst, Ha. destruct r as [st' s']. assert (Hn : ~ is_settled st) by (by intros Hs; destruct st).
  pose proof (r_page s Hi) as Hpg. destruct (currentPage s) as [p|] eqn:Ep.
  - destruct Hpg as (earlier & n & Hin & Hall). pose proof (Hall st ltac:(by eapply list_elem_of_lookup_2)) as Hs.
    destruct st as [|k|[]|x]; cbn in Ha, Hs.
    + destruct (executeDeferred s); [done | | simplify_eq; by eapply rows_set_call].
      destruct (rowMetadata s); [|simplify_eq; by eapply rows_set_call]. injection Ha as Ha. by eapply rows_check.
    + destruct Hs as [Hpos Hl]. destruct (fetches s !! k) as [[|page|e]|] eqn:Ef; [done | | simplify_eq; by eapply rows_set_call | done].
      destruct (r_fetches s Hi k page Ef) as [n' Hn']. unfold onNextPage in Ha. rewrite Hn' in Ha. injection Ha as Ha.
      set (w := set_calls (<[i := WaitExecute]> (calls s)) s).
      assert (Hw : rows_inv w) by (by eapply rows_set_call).
      assert (Hwi : in_page w p earlier n).
      { destruct Hw as [_ _ _ Hwp]. cbn in Hwp. rewrite Ep in Hwp. destruct Hwp as (e1 & n1 & Hin1 & _).
        assert (n1 = n) by (pose proof (p_rows _ _ _ _ Hin1); pose proof (p_rows _ _ _ _ Hin); congruence).
        assert (e1 = earlier) by (pose proof (p_taken _ _ _ _ Hin1) as E1; change (taken w) with (taken s) in E1; rewrite (p_taken _ _ _ _ Hin) in E1; by apply app_inj_tail in E1 as [-> _]).
        by subst. }
      assert (Hwc : calls w !! i = Some WaitExecute) by (cbn; apply list_lookup_insert_eq; by eapply lookup_lt_Some).
      destruct (rows_next_page w i page n' p earlier n Hw Hwc Ep Hwi Hpos Hl Hn') as [Hnp Hnpi].
      pose proof (check_calls (<[i := WaitExecute]> (calls s)) (set_page page n' s)) as Ec. rewrite Ha in Ec. cbn [fst snd] in Ec.
      pose proof (check_keeps_calls (set_page page n' s)) as Ek. rewrite Ha in Ek. cbn in Ek.
      pose proof (rows_check (set_page page n' w) i WaitExecute st' _ page (earlier ++ [p]) n' Hnp Hwc (fun F => F) eq_refl Hnpi Ec) as Hfin.
      cbn in Hfin. rewrite list_insert_insert_eq in Hfin. rewrite Ek. exact Hfin.
    + destruct (getCurrentRow toObject s) as [row|] eqn:Er; simplify_eq; [exact (rows_deliver s i row p earlier n Hi Hst Ep Hin Hs Er) | by eapply rows_set_call].
    + simplify_eq. by eapply rows_set_call.
    + done.
  - destruct Hpg as (Ht & Hm & Hl & Hall). destruct (Hall st ltac:(by eapply list_elem_of_lookup_2)) as [->|[e ->]]; [|by destruct Hn].
    assert (Hset : forall e, rows_inv (set_calls (<[i := Settled (Fails e)]> (calls s)) s)).
    { intros e. pose proof (r_calls s Hi i _ Hst Hn) as Hlen. destruct Hi as [Hc Hf Ho _]. constructor; auto.
      - cbn. intros j x Hx Hnx. rewrite length_insert. apply list_lookup_insert_Some in Hx as [(-> & <- & _)|(_ & Hx)]; [by destruct Hnx | eauto].
      - cbn. rewrite Ep. split_and!; [done | done | done |]. intros x Hx. apply list_elem_of_lookup in Hx as [j Hj].
        apply list_lookup_insert_Some in Hj as [(-> & <- & _)|(_ & Hj)]; [by right; eexists | apply Hall; by eapply list_elem_of_lookup_2]. }
    cbn in Ha. rewrite Hm in Ha. destruct (executeDeferred s); simplify_eq; auto.
Qed.

(** What answers and [close] change, apart from the response to the query. *)
Lemma same_error e (s : SR) : currentPage s = None -> rowMetadata s = None -> same_rows s (onExecuteError e s).
Proof. intros Hp Hm. unfold onExecuteError. destruct (closed s); [by constructor|]. constructor; cbn; auto. Qed.

Lemma same_settle p (s : SR) : (forall page, p = FetchDone page -> is_Some (getRowCount page)) -> same_rows s (settle_fetch p s).
Proof.
  intros Hp. unfold settle_fetch. destruct (fetchDeferred s) as [k|]; [|by constructor].
  destruct (fetches s !! k) as [[]|]; [|by constructor..]. constructor; cbn; auto.
  intros Hf i page Hi. apply list_lookup_insert_Some in Hi as [(-> & -> & _)|(_ & Hi)]; eauto.
Qed.

Lemma same_drop r (s : SR) l l' : requests s = l ++ r :: l' -> same_rows s (set_requests (l ++ l') s).
Proof. intros E. constructor; cbn; auto; rewrite E; [set_solver | intros Ho; by eapply at_most_one_drop]. Qed.

Lemma same_close (s : SR) : rows_inv s -> same_rows s (close s).2.
Proof.
  intros Hi. unfold close. destruct (closeDeferred s); [by constructor|]. destruct (closed s) eqn:Ec; [by constructor|].
  set (s1 := if responseReceived s then s else _).
  assert (H1 : same_rows s s1).
  { unfold s1. destruct (responseReceived s) eqn:Er; [by constructor|]. pose proof (r_page s Hi) as Hp. destruct (currentPage s) as [p|] eqn:Ep.
    - destruct Hp as (e & n & [] & _). destruct p_received0. congruence.
    - destruct Hp as (_ & Hm & _). by apply same_error. }
  clearbody s1. eapply same_rows_trans; [exact H1|].
  set (s2 := match fetchDeferred s1 with Some _ => _ | None => _ end).
  assert (H2 : same_rows s1 s2).
  { unfold s2. destruct (fetchDeferred s1); [by constructor|]. constructor; cbn; auto.
    intros Hf i page [Hx|[_ [_ [=]]%list_lookup_singleton_Some]]%lookup_app_Some. eauto. }
  clearbody s2. eapply same_rows_trans; [exact H2|].
  eapply same_rows_trans; [by apply (same_settle (FetchRejected (HazelcastSqlException CANCELLED_BY_USER)))|].
  destruct (broken _); constructor; cbn; auto.
  - intros [?|?%list_elem_of_singleton]%elem_of_app; done.
  - intros Ho. apply at_most_one_app; auto.
Qed.

Lemma rows_executed (s : SR) l l' alive r : rows_inv s -> requests s = l ++ ExecuteRequest :: l' ->
  (forall m page count, r = inr (m, page, count) -> is_Some (getRowCount page)) ->
  rows_inv (execute_answered alive r (set_requests (l ++ l') s)).
Proof.
  intros Hi E Hp. pose proof (same_drop _ s l l' E) as Hd. pose proof (rows_same _ _ Hi Hd) as Hi0.
  pose proof (r_page s Hi) as Hpg. destruct (currentPage s) as [p|] eqn:Ep.
  { destruct Hpg as (e & n & [] & _). destruct p_received0 as [Hx _]. destruct Hx. rewrite E. set_solver. }
  destruct Hpg as (Ht & Hm & Hl & Hall). pose proof (r_one s Hi _ _ E) as Hno. set (s0 := set_requests (l ++ l') s) in *.
  assert (Herr : forall e, rows_inv (onExecuteError e s0)) by (intros e; eapply rows_same; [done | by apply same_error]).
  destruct r as [error|[[m page] count]]; cbn; [done|]. unfold onExecuteResponse. destruct (closed s0); [done|]. destruct m as [m|].
  - unfold onNextPage. destruct (Hp _ _ _ eq_refl) as [n Hn]. rewrite Hn. destruct Hi0 as [Hc Hf Ho _]. constructor; auto. cbn. exists [], n.
    assert (Hdl : delivered s0 = []).
    { unfold delivered. cbn. clear -Hall. induction (calls s) as [|st c IH]; [done|]. cbn.
      destruct (Hall st ltac:(by left)) as [->|[e ->]]; cbn; apply IH; intros x Hx; apply Hall; by right. }
    split.
    + constructor; cbn; try done; [by rewrite Ht | lia | by rewrite Hl, orb_false_r |].
      etransitivity; [exact (f_equal (fmap Some) Hdl) | done].
    + intros st Hx. destruct (Hall st Hx) as [->|[e ->]]; done.
  - eapply rows_same; [done|]. constructor; cbn; auto.
Qed.

Lemma rows_step (s s' : SR) : rows_inv s -> step true s s' -> rows_inv s'.
Proof.
  intros Hi Hst. destruct Hst as [s Hse|s i st r Hst Ha|s|s l l' al r E Hp|s l l' al e E|s l l' page E Hp|s l l' al e E|s l l' al r E|s].
  - specialize (Hse eq_refl). destruct Hi as [Hc Hf Ho Hpg]. constructor; auto.
    + cbn. intros i st Hx Hn. apply lookup_app_Some in Hx as [Hx|[Hl [Hx _]%list_lookup_singleton_Some]]; [|rewrite length_app; cbn; lia].
      rewrite Forall_forall in Hse. destruct Hn. apply Hse. by eapply list_elem_of_lookup_2.
    + cbn. destruct (currentPage s) as [p|].
      * destruct Hpg as (e & n & Hin & Hall). exists e, n. split.
        -- destruct Hin. constructor; auto. etransitivity; [|exact p_delivered0]. f_equal. unfold delivered. cbn. rewrite omap_app. cbn. by rewrite app_nil_r.
        -- intros st [Hx|Hx%list_elem_of_singleton]%elem_of_app; [by apply Hall | by subst].
      * destruct Hpg as (? & ? & ? & Hall). split_and!; [done..|]. intros st [Hx|Hx%list_elem_of_singleton]%elem_of_app; auto.
  - by eapply rows_resume.
  - eapply rows_same; [done | by apply same_close].
  - by apply rows_executed.
  - pose proof (rows_executed s l l' al (inl (toHazelcastSqlException al e)) Hi E ltac:(done)) as Hx. exact Hx.
  - eapply rows_same; [done|]. eapply same_rows_trans; [by eapply same_drop|]. unfold fetch_answered.
    eapply same_rows_trans; [apply (same_settle (FetchDone page)); by intros q [= <-]|]. by constructor.
  - eapply rows_same; [done|]. eapply same_rows_trans; [by eapply same_drop|]. by apply same_settle.
  - eapply rows_same; [done|]. eapply same_rows_trans; [by eapply same_drop|]. by constructor.
  - eapply rows_same; [done|]. by constructor.
Qed.

(** C14: iteration returns every row once and in order. When each [next] is called after the one before it is settled,
    the rows returned so far are the rows of the pages taken, in the order they came, up to the current position; and when
    [next] reports the end, the last page was received and every row of every page was returned. *)
Theorem rows_once_in_order (raw : bool) (s : SR) : reachable true raw s ->
  Some <$> delivered s `prefix_of` concat (page_rows s <$> taken s) /\
  (Settled Finished ∈ calls s -> last s = true /\ Some <$> delivered s = concat (page_rows s <$> taken s)).
Proof.
  intros Hr. assert (Hi : rows_inv s) by (induction Hr; [apply rows_new | by eapply rows_step]).
  pose proof (r_page s Hi) as Hp. destruct (currentPage s) as [p|].
  - destruct Hp as (e & n & Hin & Hall). pose proof (p_delivered _ _ _ _ Hin) as Hd. rewrite (p_taken _ _ _ _ Hin), fmap_app, concat_app. cbn.
    rewrite app_nil_r, Hd. split; [apply prefix_app, prefix_take|]. intros Hf. destruct (Hall _ Hf) as [Hpos Hl]. split; [done|].
    f_equal. apply take_ge. rewrite (page_rows_length s p n); [lia | apply Hin | apply Hin].
  - destruct Hp as (-> & _ & _ & Hall). assert (Hd : delivered s = []).
    { unfold delivered. clear -Hall. induction (calls s) as [|st c IH]; [done|]. cbn.
      destruct (Hall st ltac:(by left)) as [->|[e ->]]; cbn; apply IH; intros x Hx; apply Hall; by right. }
    rewrite Hd. split; [done|]. intros Hf. by destruct (Hall _ Hf) as [|[]].
Qed.
End Steps.

(** ** Runs *)

Module SqlRun.
(** Values are numbers; undefined is nothing. *)
Definition toObject (v : option Z) : option (option Z) := Some v.
Definition page : SqlPage Z := mkPage [4] [[10]] true.
#[local] Abbreviation SR := (SqlResult Z (option Z)).

Definition answered : SR := Eval vm_compute in
  execute_answered true (inr (Some ["age"%string], page, 0)) (set_requests [] (newResult true)).

Lemma answered_reachable b : reachable toObject b true answered.
Proof.
  eapply reach_step; [apply reach_new|]. apply (sq_execute _ _ (newResult true) [] [] true (inr (Some ["age"%string], page, 0))); [done|].
  intros m p c [= <- <- <-]. by eexists.
Qed.

(** One row, read and followed by the end. *)
Definition first_row : SR := Eval vm_compute in resume toObject 0 (resume toObject 0 (next answered)).
Definition finished : SR := Eval vm_compute in resume toObject 1 (resume toObject 1 (next first_row)).

Lemma two_resumes b (s : SR) i st st' r r' : reachable toObject b true s -> calls s !! i = Some st -> advance toObject st s = Some r ->
  calls (resume toObject i s) !! i = Some st' -> advance toObject st' (resume toObject i s) = Some r' ->
  reachable toObject b true (resume toObject i (resume toObject i s)).
Proof. intros Hr H1 H2 H3 H4. eapply reach_step; [eapply reach_step; [exact Hr | by eapply sq_resume]|by eapply sq_resume]. Qed.

Lemma first_row_reachable : reachable toObject true true first_row.
Proof.
  assert (H1 : reachable toObject true true (next answered)) by (eapply reach_step; [apply answered_reachable | by apply sq_next; constructor]).
  exact (two_resumes true (next answered) 0 _ _ _ _ H1 eq_refl eq_refl eq_refl eq_refl).
Qed.

Lemma finished_reachable : reachable toObject true true finished.
Proof.
  assert (H1 : reachable toObject true true (next first_row)) by (eapply reach_step; [apply first_row_reachable | apply sq_next; intros _; by repeat constructor]).
  exact (two_resumes true (next first_row) 1 _ _ _ _ H1 eq_refl eq_refl eq_refl eq_refl).
Qed.

(** Two calls at once where one row is left. *)
Definition both_checked : SR := Eval vm_compute in resume toObject 1 (resume toObject 0 (next (next answered))).
Definition overrun : SR := Eval vm_compute in resume toObject 1 (resume toObject 0 both_checked).

Lemma overrun_reachable : reachable toObject false true overrun.
Proof.
  assert (H1 : reachable toObject false true (next (next answered))).
  { do 2 (eapply reach_step; [|by apply sq_next]). apply answered_reachable. }
  assert (H2 : reachable toObject false true both_checked).
  { eapply (reach_step _ _ _ (resume toObject 0 (next (next answered)))).
    - eapply reach_step; [exact H1|]. eapply sq_resume; reflexivity.
    - apply (sq_resume toObject false (resume toObject 0 (next (next answered))) 1 WaitExecute (Checked true, resume toObject 0 (next (next answered)))); reflexivity. }
  eapply (reach_step _ _ _ (resume toObject 0 both_checked)).
  - eapply reach_step; [exact H2|]. eapply sq_resume; reflexivity.
  - exact (sq_resume toObject false (resume toObject 0 both_checked) 1 (Checked true) _ eq_refl eq_refl).
Qed.

(** Both see that there is a row; the second gets one made of undefined values, the position is beyond the end of the last
    page, and the next call returns such a row again instead of the end. *)
Lemma concurrent_next_overruns :
  reachable toObject false true overrun /\ delivered overrun = [RawRow [Some 10]; RawRow [None]] /\ last overrun = true /\
  (currentRowCount overrun < currentPosition overrun)%nat /\
  delivered (resume toObject 2 (resume toObject 2 (next overrun))) = [RawRow [Some 10]; RawRow [None]; RawRow [None]].
Proof. split; [exact overrun_reachable|]. split_and!; try (vm_compute; reflexivity). Qed.

(** A first page that is not the last, read to its end; then the connection is closed. *)
Definition half : SR := Eval vm_compute in set_broken
  (execute_answered true (inr (Some ["age"%string], mkPage [4] [[]] false, 0)) (set_requests [] (newResult true))).
Definition stuck : SR := Eval vm_compute in resume toObject 1 (next (resume toObject 0 (next half))).

Lemma half_reachable : reachable toObject true true half.
Proof.
  apply (reach_step _ _ _ (execute_answered true (inr (Some ["age"%string], mkPage [4] [[]] false, 0)) (set_requests [] (newResult true)))); [|apply sq_connection_closed].
  eapply reach_step; [apply reach_new|]. apply (sq_execute _ _ (newResult true) [] [] true); [done|]. intros m p c [= <- <- <-]. by eexists.
Qed.

(** The first [next] fails with the exception of the write; the second waits for the promise the first one made, for
    which no request is in flight. Only [close] rejects it, and [close] throws as well, leaves its own promise pending and
    does not mark the result as closed. *)
Lemma fetch_on_closed_connection :
  reachable toObject true true stuck /\ calls stuck = [Settled (Fails Thrown); WaitFetch 0] /\ requests stuck = [] /\
  advance toObject (WaitFetch 0) stuck = None /\ fetches (close stuck).2 = [FetchRejected (HazelcastSqlException CANCELLED_BY_USER)] /\
  (close stuck).1 = false /\ closeDeferred (close stuck).2 = Some None /\ closed (close stuck).2 = false.
Proof.
  split; [|split_and!; vm_compute; reflexivity].
  assert (reachable toObject true true (next half)) as H1 by (eapply reach_step; [apply half_reachable | by apply sq_next; constructor]).
  assert (reachable toObject true true (resume toObject 0 (next half))) as H2 by (eapply reach_step; [exact H1 | by eapply (sq_resume toObject true (next half) 0)]).
  assert (reachable toObject true true (next (resume toObject 0 (next half)))) as H3.
  { eapply reach_step; [exact H2 | apply sq_next; intros _; by repeat constructor]. }
  eapply reach_step; [exact H3|]. exact (sq_resume toObject true (next (resume toObject 0 (next half))) 1 WaitExecute _ eq_refl eq_refl).
Qed.

(** A name that is no column but a property every object has. *)
Lemma inherited_column_found (inherited : string -> bool) : inherited "toString"%string = true ->
  findColumn inherited ["age"%string] "toString" = inr () /\ getObject inherited [Some 10] ["age"%string] "toString" = Some None.
Proof. intros H. unfold getObject, findColumn. cbn. by rewrite H. Qed.
End SqlRun.

Lemma next_never_stuck_witness :
  let s := next (newResult (V := Z) (O := option Z) true) in ExecuteRequest ∈ requests s /\ at_most_one FetchRequest (requests s).
Proof.
  intros s. destruct (next_never_stuck SqlRun.toObject true true s) as (Hc & Ho & _ & _).
  - eapply reach_step; [apply reach_new | by apply sq_next; constructor].
  - split; [|exact Ho]. destruct (Hc 0%nat WaitExecute eq_refl) as [[]|[[? [=]]|[[_ H]|(k & [=] & _)]]]. exact H.
Defined.

Lemma rows_once_in_order_witness : delivered SqlRun.finished = [RawRow [Some 10]] /\ last SqlRun.finished = true.
Proof.
  destruct (rows_once_in_order SqlRun.toObject true SqlRun.finished SqlRun.finished_reachable) as [_ H].
  destruct H as [Hl _]; [vm_compute; set_solver|]. split; [vm_compute; reflexivity | exact Hl].
Defined.
