(* ===== verification/InvocationService.v ===== *)
(** * Invocations

    [Invocation] and [InvocationService] of [src/invocation/InvocationService.ts]: requests are given a
    correlation id, routed to a connection, registered as pending, and settled by the
    response of the member, by an error that is not retried, or by the shutdown of the client.

    The invocations are objects on a heap, because the map of pending invocations, the map of event
    handlers and the callbacks that wait for a promise or a timer share them. A callback that
    has not run yet is a [task]; the event loop may run the tasks in any order. Of a
    message, the model keeps the header fields that the service reads and writes. The state of
    the connections, of the partition table and of the client's life cycle, which other components
    change, is part of the state and is read at every step. *)

From S2P Require Export ConnectionRegistry PartitionService.
#[local] Open Scope Z_scope.

(** ** Messages and promises *)

Record Request := mkRequest {
  rq_correlationId : Z; rq_partitionId : Z; rq_flags : Z; rq_retryable : bool }.

(** [rs_errors] are the holders an exception message carries. *)
Record Response := mkResponse {
  rs_correlationId : Z; rs_flags : Z; rs_messageType : Z; rs_backupAcks : Z; rs_errors : list ErrorHolder }.

(** An error is its class. [None] is an error of no class of the client: the null of an exception message without
    holders, or a TypeError. *)
Definition err : Type := option Err.t.

Definition is_a (e : err) (c : Err.t) : bool := match e with Some k => Err.instanceof k c | None => false end.

(** A promise settles once. *)
Inductive promise := Pending | Resolved (r : Response) | Rejected (e : err).

Definition resolve (r : Response) (p : promise) : promise := match p with Pending => Resolved r | _ => p end.
Definition reject (e : err) (p : promise) : promise := match p with Pending => Rejected e | _ => p end.

Definition MAX_FAST_INVOCATION_COUNT : Z := 5.
Definition EXCEPTION_MESSAGE_TYPE : Z := 0.

Section Invocations.
Context {L : Type} `{LongLib L} {B : Type} `{LoadBalancer L B}.

(** [connection] and [uuid] may be absent (the object has no such property) or null; [partitionId] and
    [handler] may be absent. *)
Record Invocation := mkInvocation {
  request : Request;
  iv_partitionId : option Z;
  iv_uuid : option (option (UUID L));
  deadline : Z;
  iv_connection : option (option nat);
  sendConnection : option nat;
  deferred : promise;
  pendingResponseMessage : option Response;
  backupsAcksReceived : Z;
  backupsAcksExpected : Z;
  pendingResponseReceivedMillis : Z;
  invokeCount : Z;
  has_handler : bool;
  urgent : bool
}.

(** The configuration of the service. *)
Record InvocationConfig := mkInvocationConfig {
  smartRouting : bool;
  invocationTimeoutMillis : Z;
  shouldFailOnIndeterminateState : bool;
  operationBackupTimeoutMillis : Z;
  backupAckToClientEnabled : bool;
  redoOperation : bool
}.

Definition newInvocation (c : InvocationConfig) (now : Z) (r : Request) (timeoutMillis : option Z) : Invocation :=
  mkInvocation r None None (now + default (invocationTimeoutMillis c) timeoutMillis) None None Pending None
    0 (-1) (-1) 0 false false.

Definition set_request (r : Request) (i : Invocation) : Invocation :=
  mkInvocation r (iv_partitionId i) (iv_uuid i) (deadline i) (iv_connection i) (sendConnection i) (deferred i)
    (pendingResponseMessage i) (backupsAcksReceived i) (backupsAcksExpected i) (pendingResponseReceivedMillis i)
    (invokeCount i) (has_handler i) (urgent i).

Definition set_sendConnection (c : nat) (i : Invocation) : Invocation :=
  mkInvocation (request i) (iv_partitionId i) (iv_uuid i) (deadline i) (iv_connection i) (Some c) (deferred i)
    (pendingResponseMessage i) (backupsAcksReceived i) (backupsAcksExpected i) (pendingResponseReceivedMillis i)
    (invokeCount i) (has_handler i) (urgent i).

Definition set_deferred (p : promise) (i : Invocation) : Invocation :=
  mkInvocation (request i) (iv_partitionId i) (iv_uuid i) (deadline i) (iv_connection i) (sendConnection i) p
    (pendingResponseMessage i) (backupsAcksReceived i) (backupsAcksExpected i) (pendingResponseReceivedMillis i)
    (invokeCount i) (has_handler i) (urgent i).

Definition set_pending_response (now : Z) (r : Response) (i : Invocation) : Invocation :=
  mkInvocation (request i) (iv_partitionId i) (iv_uuid i) (deadline i) (iv_connection i) (sendConnection i) (deferred i)
    (Some r) (backupsAcksReceived i) (rs_backupAcks r) now (invokeCount i) (has_handler i) (urgent i).

Definition count_ack (i : Invocation) : Invocation :=
  mkInvocation (request i) (iv_partitionId i) (iv_uuid i) (deadline i) (iv_connection i) (sendConnection i) (deferred i)
    (pendingResponseMessage i) (backupsAcksReceived i + 1) (backupsAcksExpected i) (pendingResponseReceivedMillis i)
    (invokeCount i) (has_handler i) (urgent i).

Definition count_invoke (i : Invocation) : Invocation :=
  mkInvocation (request i) (iv_partitionId i) (iv_uuid i) (deadline i) (iv_connection i) (sendConnection i) (deferred i)
    (pendingResponseMessage i) (backupsAcksReceived i) (backupsAcksExpected i) (pendingResponseReceivedMillis i)
    (invokeCount i + 1) (has_handler i) (urgent i).

Definition set_correlationId (c : Z) (r : Request) : Request :=
  mkRequest c (rq_partitionId r) (rq_flags r) (rq_retryable r).
Definition set_partitionId (p : Z) (r : Request) : Request :=
  mkRequest (rq_correlationId r) p (rq_flags r) (rq_retryable r).
Definition add_flag (f : Z) (r : Request) : Request :=
  mkRequest (rq_correlationId r) (rq_partitionId r) (js_or (rq_flags r) f) (rq_retryable r).

Definition correlationId (i : Invocation) : Z := rq_correlationId (request i).

Definition hasPartitionId (i : Invocation) : bool := match iv_partitionId i with Some p => 0 <=? p | None => false end.

Definition shouldRetry (c : InvocationConfig) (i : Invocation) (e : err) : bool :=
  if match iv_connection i with Some (Some _) => true | _ => false end
     && (is_a e Err.IOError || is_a e Err.TargetDisconnectedError) then false
  else if match iv_uuid i with Some (Some _) => true | _ => false end && is_a e Err.TargetNotMemberError then false
  else if is_a e Err.IOError || is_a e Err.HazelcastInstanceNotActiveError || is_a e Err.RetryableHazelcastError then true
  else if is_a e Err.TargetDisconnectedError then rq_retryable (request i) || redoOperation c
  else false.

(** ** The state of the service *)

(** The [catch] handlers of a promise of [doInvoke]: report the error, or first try another
    connection. *)
Inductive on_error := Notify | RandomThenNotify.

(** A write in progress, a rejected promise whose handlers have not run, a retry timer, an event to
    hand to its handler. *)
Inductive task :=
  | WriteTask (i connection : nat) (k : on_error)
  | FailedTask (i : nat) (e : err) (k : on_error)
  | RetryTask (i : nat)
  | EventTask (correlationId : Z) (m : Response).

(** [frozen c]: the pipelined writer of the connection was closed before any write failed, so that its queue is the
    frozen array and [write] throws a TypeError at once. [thrown]: an exception is on its way to the caller. *)
Record InvocationService := mkService {
  config : InvocationConfig;
  invocations : gmap nat Invocation;
  eventHandlers : js_map Z nat;
  pending : js_map Z nat;
  correlationCounter : Z;
  isShutdown : bool;
  tasks : list task;
  handled : list (nat * Response);
  connectionRegistry : ConnectionRegistryImpl B;
  partitionService : PartitionServiceImpl L;
  running : bool;
  alive : nat -> bool;
  frozen : nat -> bool;
  thrown : bool
}.

Definition newInvocationService (c : InvocationConfig) (r : ConnectionRegistryImpl B) (p : PartitionServiceImpl L)
    (alive frozen : nat -> bool) : InvocationService :=
  mkService c ∅ [] [] 1 false [] [] r p true alive frozen false.

Definition with_invocations (s : InvocationService) (h : gmap nat Invocation) : InvocationService :=
  mkService (config s) h (eventHandlers s) (pending s) (correlationCounter s) (isShutdown s) (tasks s) (handled s)
    (connectionRegistry s) (partitionService s) (running s) (alive s) (frozen s) (thrown s).

Definition with_pending (s : InvocationService) (p : js_map Z nat) : InvocationService :=
  mkService (config s) (invocations s) (eventHandlers s) p (correlationCounter s) (isShutdown s) (tasks s) (handled s)
    (connectionRegistry s) (partitionService s) (running s) (alive s) (frozen s) (thrown s).

Definition with_handlers (s : InvocationService) (h : js_map Z nat) : InvocationService :=
  mkService (config s) (invocations s) h (pending s) (correlationCounter s) (isShutdown s) (tasks s) (handled s)
    (connectionRegistry s) (partitionService s) (running s) (alive s) (frozen s) (thrown s).

Definition with_tasks (s : InvocationService) (t : list task) : InvocationService :=
  mkService (config s) (invocations s) (eventHandlers s) (pending s) (correlationCounter s) (isShutdown s) t (handled s)
    (connectionRegistry s) (partitionService s) (running s) (alive s) (frozen s) (thrown s).

Definition with_handled (s : InvocationService) (l : list (nat * Response)) : InvocationService :=
  mkService (config s) (invocations s) (eventHandlers s) (pending s) (correlationCounter s) (isShutdown s) (tasks s) l
    (connectionRegistry s) (partitionService s) (running s) (alive s) (frozen s) (thrown s).

Definition with_registry (s : InvocationService) (r : ConnectionRegistryImpl B) : InvocationService :=
  mkService (config s) (invocations s) (eventHandlers s) (pending s) (correlationCounter s) (isShutdown s) (tasks s)
    (handled s) r (partitionService s) (running s) (alive s) (frozen s) (thrown s).

Definition with_thrown (s : InvocationService) (b : bool) : InvocationService :=
  mkService (config s) (invocations s) (eventHandlers s) (pending s) (correlationCounter s) (isShutdown s) (tasks s)
    (handled s) (connectionRegistry s) (partitionService s) (running s) (alive s) (frozen s) b.

Definition push (s : InvocationService) (t : task) : InvocationService := with_tasks s (tasks s ++ [t]).

Definition update (s : InvocationService) (i : nat) (f : Invocation -> Invocation) : InvocationService :=
  with_invocations s (alter f i (invocations s)).

Definition get_invocation (s : InvocationService) (i : nat) : res Invocation :=
  match invocations s !! i with Some v => Ok v | None => Err TypeError end.

(** ** Settling an invocation *)

Definition deregisterInvocation (s : InvocationService) (correlationId : Z) : InvocationService :=
  with_pending s (js_map_delete Z.eqb (pending s) correlationId).2.

Definition settle (s : InvocationService) (i : nat) (f : promise -> promise) : res InvocationService :=
  v ← get_invocation s i;
  Ok (deregisterInvocation (update s i (fun v => set_deferred (f (deferred v)) v)) (correlationId v)).

Definition complete (s : InvocationService) (i : nat) (m : Response) : res InvocationService := settle s i (resolve m).
Definition completeWithError (s : InvocationService) (i : nat) (e : err) : res InvocationService := settle s i (reject e).

(** [notify]: the response of the member; kept until the backups are acknowledged. *)
Definition notify (now : Z) (s : InvocationService) (i : nat) (m : Response) : res InvocationService :=
  v ← get_invocation s i;
  if backupsAcksReceived v <? rs_backupAcks m then Ok (update s i (set_pending_response now m))
  else complete s i m.

Definition notifyBackupComplete (s : InvocationService) (i : nat) : res InvocationService :=
  let s := update s i count_ack in
  v ← get_invocation s i;
  match pendingResponseMessage v with
  | None => Ok s
  | Some m => if negb (backupsAcksExpected v =? backupsAcksReceived v) then Ok s else complete s i m
  end.

Definition detectAndHandleBackupTimeout (now timeoutMillis : Z) (s : InvocationService) (i : nat) : res InvocationService :=
  v ← get_invocation s i;
  match pendingResponseMessage v with
  | None => Ok s
  | Some m =>
      if backupsAcksExpected v =? backupsAcksReceived v then Ok s
      else
        let expirationTime := pendingResponseReceivedMillis v + timeoutMillis in
        let timeoutReached := (0 <? expirationTime) && (expirationTime <? now) in
        if negb timeoutReached then Ok s
        else if shouldFailOnIndeterminateState (config s)
             then completeWithError s i (Some Err.IndeterminateOperationStateError)
        else complete s i m
  end.

(** [backupEventHandler], with the correlation id its event carries. *)
Definition backupEventHandler (s : InvocationService) (sourceCorrelationId : Z) : res InvocationService :=
  match js_map_get Z.eqb (pending s) sourceCorrelationId with
  | None => Ok s
  | Some i => notifyBackupComplete s i
  end.

(** ** Sending *)

Definition registerInvocation (s : InvocationService) (i : nat) : res InvocationService :=
  v ← get_invocation s i;
  let p := if hasPartitionId v then default (-1) (iv_partitionId v) else -1 in
  let s := update s i (fun v => set_request (set_partitionId p (request v)) v) in
  let s := if has_handler v then with_handlers s (js_map_set Z.eqb (eventHandlers s) (correlationId v) i) else s in
  Ok (with_pending s (js_map_set Z.eqb (pending s) (correlationId v) i)).

(** [send] and the handlers of the promise it returns, which are not attached when [connection.write] throws: the
    invocation is registered by then. *)
Definition send (s : InvocationService) (i : nat) (connection : option nat) (k : on_error) : res InvocationService :=
  match connection with
  | None => Err AssertionError
  | Some c =>
      if isShutdown s then Ok (push s (FailedTask i (Some Err.ClientNotActiveError) k))
      else
        let s := if backupAckToClientEnabled (config s)
                 then update s i (fun v => set_request (add_flag IS_BACKUP_AWARE_FLAG (request v)) v) else s in
        s ← registerInvocation s i;
        if frozen s c then Ok (with_thrown s true) else Ok (push s (WriteTask i c k))
  end.

(** A promise rejected with 'No connection found to invoke'. *)
Definition no_connection (s : InvocationService) (i : nat) (k : on_error) : InvocationService :=
  push s (FailedTask i (Some Err.IOError) k).

Definition invokeOnRandomConnection (rnd : nat -> nat) (s : InvocationService) (i : nat) (k : on_error)
    : res InvocationService :=
  let '(connection, r) := getRandomConnection (L := L) (fun _ => None) rnd false (connectionRegistry s) in
  let s := with_registry s r in
  match connection with
  | None => Ok (no_connection s i k)
  | Some c => send s i (Some c) k
  end.

Definition invokeOnUuid (s : InvocationService) (i : nat) (target : option (UUID L)) (k : on_error) : res InvocationService :=
  match target with
  | None => Err TypeError
  | Some u =>
      match getConnection (connectionRegistry s) u with
      | None => Ok (no_connection s i k)
      | Some c => send s i (Some c) k
      end
  end.

Definition invokeOnPartitionOwner (s : InvocationService) (i : nat) (partitionId : Z) (k : on_error)
    : res InvocationService :=
  match getPartitionOwner (partitionService s) partitionId with
  | None => Ok (no_connection s i k)
  | Some u => invokeOnUuid s i (Some u) k
  end.

(** [rejectIfNotRetryable]: whether the invocation was rejected. *)
Definition rejectIfNotRetryable (now : Z) (s : InvocationService) (i : nat) (e : err) : res (bool * InvocationService) :=
  v ← get_invocation s i;
  let rejecting e := Ok (true, update s i (fun v => set_deferred (reject e (deferred v)) v)) in
  if negb (running s) then rejecting (Some Err.ClientNotActiveError)
  else if negb (shouldRetry (config s) v e) then rejecting e
  else if deadline v <? now then rejecting (Some Err.OperationTimeoutError)
  else Ok (false, s).

(** [notifyError]; [doInvoke] is the retry it may make at once. *)
Definition notifyError_with (doInvoke : InvocationService -> nat -> res InvocationService) (now : Z)
    (s : InvocationService) (i : nat) (e : err) : res InvocationService :=
  v ← get_invocation s i;
  '(rejected, s) ← rejectIfNotRetryable now s i e;
  if rejected : bool then Ok (deregisterInvocation s (correlationId v))
  else if invokeCount v <? MAX_FAST_INVOCATION_COUNT then doInvoke s i
  else Ok (push s (RetryTask i)).

(** The connection, the partition owner, the member or any connection: the routing of [invokeSmart] and
    [invokeNonSmart]. *)
Definition route (rnd : nat -> nat) (s : InvocationService) (i : nat) (v : Invocation) : res InvocationService :=
  match iv_connection v with
  | Some c => send s i c Notify
  | None =>
      if smartRouting (config s) then
        if hasPartitionId v then invokeOnPartitionOwner s i (default (-1) (iv_partitionId v)) RandomThenNotify
        else match iv_uuid v with
             | Some u => invokeOnUuid s i u RandomThenNotify
             | None => invokeOnRandomConnection rnd s i RandomThenNotify
             end
      else invokeOnRandomConnection rnd s i Notify
  end.

(** [doInvoke]: a retry made at once increments [invokeCount], so [MAX_FAST_INVOCATION_COUNT] bounds
    the depth of the recursion. *)
Fixpoint doInvoke (fuel : nat) (now : Z) (rnd : nat -> nat) (s : InvocationService) (i : nat) : res InvocationService :=
  match fuel with
  | O => Err OutOfFuel
  | S fuel =>
      let s := update s i count_invoke in
      v ← get_invocation s i;
      match (if urgent v then None else checkIfInvocationAllowed (connectionRegistry s)) with
      | Some e => notifyError_with (doInvoke fuel now rnd) now s i (Some e)
      | None => route rnd s i v
      end
  end.

Definition invoke_fuel : nat := 6.

Definition notifyError (now : Z) (rnd : nat -> nat) (s : InvocationService) (i : nat) (e : err) : res InvocationService :=
  notifyError_with (doInvoke invoke_fuel now rnd) now s i e.

(** ** Operations *)

(** [invoke] of a new invocation, allocated at [i]. *)
Definition invoke (now : Z) (rnd : nat -> nat) (s : InvocationService) (i : nat) (v : Invocation) : res InvocationService :=
  let v := set_deferred Pending v in
  let newCorrelationId := correlationCounter s in
  let v := set_request (set_correlationId newCorrelationId (request v)) v in
  let s := mkService (config s) (<[i := v]> (invocations s)) (eventHandlers s) (pending s) (correlationCounter s + 1)
             (isShutdown s) (tasks s) (handled s) (connectionRegistry s) (partitionService s) (running s) (alive s) (frozen s) (thrown s) in
  doInvoke invoke_fuel now rnd s i.

Definition set_urgent (v : Invocation) : Invocation :=
  mkInvocation (request v) (iv_partitionId v) (iv_uuid v) (deadline v) (iv_connection v) (sendConnection v) (deferred v)
    (pendingResponseMessage v) (backupsAcksReceived v) (backupsAcksExpected v) (pendingResponseReceivedMillis v)
    (invokeCount v) (has_handler v) true.

Definition invokeUrgent (now : Z) (rnd : nat -> nat) (s : InvocationService) (i : nat) (v : Invocation) : res InvocationService :=
  invoke now rnd s i (set_urgent v).

(** The target of an invocation, set by [invokeOnConnection], [invokeOnPartition] and [invokeOnTarget]. *)
Definition targeting (p : option Z) (u : option (option (UUID L))) (c : option (option nat)) (handler : bool)
    (v : Invocation) : Invocation :=
  mkInvocation (request v) p u (deadline v) c (sendConnection v) (deferred v)
    (pendingResponseMessage v) (backupsAcksReceived v) (backupsAcksExpected v) (pendingResponseReceivedMillis v)
    (invokeCount v) handler (urgent v).

Definition invokeOnConnection (now : Z) (rnd : nat -> nat) (s : InvocationService) (i : nat) (connection : option nat)
    (r : Request) (handler : bool) : res InvocationService :=
  invoke now rnd s i (targeting None None (Some connection) handler (newInvocation (config s) now r None)).

Definition invokeOnPartition (now : Z) (rnd : nat -> nat) (s : InvocationService) (i : nat) (r : Request)
    (partitionId : Z) (timeoutMillis : option Z) : res InvocationService :=
  invoke now rnd s i (targeting (Some partitionId) None None false (newInvocation (config s) now r timeoutMillis)).

Definition invokeOnTarget (now : Z) (rnd : nat -> nat) (s : InvocationService) (i : nat) (r : Request)
    (target : option (UUID L)) : res InvocationService :=
  invoke now rnd s i (targeting None (Some target) None false (newInvocation (config s) now r None)).

Definition invokeOnRandomTarget (now : Z) (rnd : nat -> nat) (s : InvocationService) (i : nat) (r : Request)
    : res InvocationService :=
  invoke now rnd s i (newInvocation (config s) now r None).

Definition removeEventHandler (s : InvocationService) (correlationId : Z) : InvocationService :=
  with_handlers s (js_map_delete Z.eqb (eventHandlers s) correlationId).2.

Definition processResponse (now : Z) (rnd : nat -> nat) (s : InvocationService) (m : Response) : res InvocationService :=
  let correlationId := rs_correlationId m in
  if isFlagSet (rs_flags m) IS_EVENT_FLAG || isFlagSet (rs_flags m) IS_BACKUP_EVENT_FLAG
  then Ok (push s (EventTask correlationId m))
  else
    match js_map_get Z.eqb (pending s) correlationId with
    | None => Ok s
    | Some i =>
        if rs_messageType m =? EXCEPTION_MESSAGE_TYPE
        then notifyError now rnd s i (err_class <$> createError (rs_errors m))
        else notify now s i m
    end.

(** One visit of the periodic task that cleans up pending invocations. *)
Definition clean_one (now : Z) (rnd : nat -> nat) (s : InvocationService) (i : nat) : res InvocationService :=
  v ← get_invocation s i;
  match sendConnection v with
  | None => Ok s
  | Some c =>
      if negb (alive s c) then notifyError now rnd s i (Some Err.TargetDisconnectedError)
      else if backupAckToClientEnabled (config s)
           then detectAndHandleBackupTimeout now (operationBackupTimeoutMillis (config s)) s i
           else Ok s
  end.

Fixpoint each_invocation (f : InvocationService -> nat -> res InvocationService) (s : InvocationService) (l : list nat)
    : res InvocationService :=
  match l with
  | [] => Ok s
  | i :: l => s ← f s i; if thrown s then Ok s else each_invocation f s l
  end.

(** The iteration visits the invocations pending when it starts: handling one removes no other
    from the map, and a retry sets a key that is there already. *)
Definition cleanResources (now : Z) (rnd : nat -> nat) (s : InvocationService) : res InvocationService :=
  each_invocation (clean_one now rnd) s (map snd (pending s)).

Definition shutdown (now : Z) (rnd : nat -> nat) (s : InvocationService) : res InvocationService :=
  if isShutdown s then Ok s
  else
    let s := mkService (config s) (invocations s) (eventHandlers s) (pending s) (correlationCounter s) true (tasks s)
               (handled s) (connectionRegistry s) (partitionService s) (running s) (alive s) (frozen s) (thrown s) in
    each_invocation (fun s i => notifyError now rnd s i (Some Err.ClientNotActiveError)) s (map snd (pending s)).

(** ** The event loop *)

(** What the handlers of a rejected promise do. When the first of two throws, its promise is rejected and the second
    runs; when the last throws, the rejection is unhandled. *)
Definition run_on_error (now : Z) (rnd : nat -> nat) (s : InvocationService) (i : nat) (e : err) (k : on_error)
    : res InvocationService :=
  match k with
  | Notify => notifyError now rnd s i e
  | RandomThenNotify =>
      s ← invokeOnRandomConnection rnd s i Notify;
      Ok (if thrown s then push (with_thrown s false) (FailedTask i None Notify) else s)
  end.

(** Running the [n]-th task: the callbacks that [invokeSmart] and [send] attach to the promise of a write,
    which ends without or with an error, the timer of [notifyError], and the [nextTick] of
    [processResponse], which passes an event to its handler. *)
Definition run_task (now : Z) (rnd : nat -> nat) (n : nat) (write_error : option err) (s : InvocationService)
    : res InvocationService :=
  match tasks s !! n with
  | None => Ok s
  | Some t =>
      let s := with_tasks s (delete n (tasks s)) in
      match t with
      | WriteTask i c k =>
          match write_error with
          | None => Ok (update s i (set_sendConnection c))
          | Some e => run_on_error now rnd s i e k
          end
      | FailedTask i e k => run_on_error now rnd s i e k
      | RetryTask i => doInvoke invoke_fuel now rnd s i
      | EventTask cid m =>
          match js_map_get Z.eqb (eventHandlers s) cid with
          | None => Ok s
          | Some i => Ok (with_handled s (handled s ++ [(i, m)]))
          end
      end
  end.
End Invocations.
Arguments Invocation : clear implicits.
Arguments InvocationService : clear implicits.

(** ** Well-formed states *)

Section Invariants.
Context {L : Type} `{LongLib L} {B : Type} `{LoadBalancer L B}.
#[local] Abbreviation Service := (InvocationService L B).
#[local] Abbreviation Inv := (Invocation L).
Implicit Types (s : Service) (i j : nat) (v : Inv).

Definition registered s i : Prop := exists cid, js_map_get Z.eqb (pending s) cid = Some i.

(** The invocation a callback will act on, other than a write that may simply succeed. *)
Definition callback_of (t : task) : option nat :=
  match t with FailedTask i _ _ | RetryTask i => Some i | WriteTask _ _ _ | EventTask _ _ => None end.

Definition task_of (t : task) : option nat :=
  match t with FailedTask i _ _ | RetryTask i | WriteTask i _ _ => Some i | EventTask _ _ => None end.

(** Something is still going to happen to the invocation: a response is awaited, or a
    callback has to run. *)
Definition live s i : Prop := registered s i \/ exists t, t ∈ tasks s /\ callback_of t = Some i.

(** Not bound to a null connection or member. *)
Definition target_ok v : Prop := iv_connection v <> Some None /\ iv_uuid v <> Some None.

Record wf s : Prop := {
  wf_pending : js_map_wf Z.eqb (pending s);
  wf_registered cid i : js_map_get Z.eqb (pending s) cid = Some i ->
    exists v, invocations s !! i = Some v /\ correlationId v = cid;
  wf_ids i j v w : invocations s !! i = Some v -> invocations s !! j = Some w ->
    correlationId v = correlationId w -> i = j;
  wf_counter i v : invocations s !! i = Some v -> correlationId v < correlationCounter s;
  wf_tasks i t : t ∈ tasks s -> task_of t = Some i -> is_Some (invocations s !! i);
  wf_targets i v : invocations s !! i = Some v -> target_ok v /\ 0 <= invokeCount v
}.

(** No promise is forgotten. *)
Definition no_orphan s : Prop :=
  forall i v, invocations s !! i = Some v -> deferred v = Pending -> live s i.

(** What an operation on the invocation [i] may change. *)
Record keeps i s s' : Prop := {
  kp_wf : wf s';
  kp_config : config s' = config s;
  kp_counter : correlationCounter s' = correlationCounter s;
  kp_shutdown : isShutdown s' = isShutdown s;
  kp_running : running s' = running s;
  kp_others j : j <> i -> invocations s' !! j = invocations s !! j;
  kp_live j : j <> i -> live s j -> live s' j;
  kp_self v : invocations s !! i = Some v -> exists v', invocations s' !! i = Some v' /\
    correlationId v' = correlationId v /\ (deferred v <> Pending -> deferred v' = deferred v) /\
    invokeCount v <= invokeCount v';
  kp_closed : isShutdown s = true -> forall cid j,
    js_map_get Z.eqb (pending s') cid = Some j -> js_map_get Z.eqb (pending s) cid = Some j;
  kp_frozen : frozen s' = frozen s;
  kp_thrown : thrown s' = true -> thrown s = true \/ exists c, frozen s c = true
}.

(** The invocation is settled or something is still going to happen to it. *)
Definition cared s i : Prop := forall v, invocations s !! i = Some v -> deferred v = Pending -> live s i.

Lemma keeps_trans i s1 s2 s3 : keeps i s1 s2 -> keeps i s2 s3 -> keeps i s1 s3.
Proof.
  intros [W1 C1 N1 D1 R1 O1 L1 S1 P1 F1 T1] [W2 C2 N2 D2 R2 O2 L2 S2 P2 F2 T2]. split; try congruence.
  - intros j Hj. by rewrite O2, O1.
  - intros j Hj Hl. by apply L2, L1.
  - intros v Hv. destruct (S1 v Hv) as (v1 & Hv1 & E1 & Dn1 & Hc1). destruct (S2 v1 Hv1) as (v2 & Hv2 & E2 & Dn2 & Hc2).
    exists v2. split_and!; [done | congruence | | lia]. intros Hd. rewrite Dn2; [by apply Dn1 | by rewrite Dn1].
  - intros Hs cid j Hj. apply P1, P2; [done | by rewrite D1 | done].
  - intros Ht. rewrite F1 in T2. destruct (T2 Ht); auto.
Qed.

Lemma keeps_refl i s : wf s -> keeps i s s.
Proof. intros Hw. split; try done; [|by left]. intros v Hv. exists v. split_and!; [done..|lia]. Qed.

(** ** Elementary changes *)

(** A change of one object that keeps its identity, its target and its settlement. *)
Definition mild (f : Inv -> Inv) : Prop := forall v, target_ok v -> 0 <= invokeCount v ->
  correlationId (f v) = correlationId v /\ target_ok (f v) /\ invokeCount v <= invokeCount (f v) /\
  (deferred v <> Pending -> deferred (f v) = deferred v).

Lemma update_keeps s i f : wf s -> mild f -> keeps i s (update s i f).
Proof.
  intros [Hp Hr Hi Hc Ht Hg] Hf. unfold update.
  assert (forall j w, alter f i (invocations s) !! j = Some w -> exists v, invocations s !! j = Some v /\
    correlationId w = correlationId v /\ target_ok w /\ 0 <= invokeCount w) as Hinv.
  { intros j w. destruct (decide (j = i)) as [->|Hne].
    - rewrite lookup_alter_eq. destruct (invocations s !! i) as [v|] eqn:Ev; [|done]. intros [= <-]. exists v.
      destruct (Hg i v Ev) as [Hto Hn]. destruct (Hf v Hto Hn) as (E & Ht' & Hn' & _). split_and!; try done. lia.
    - rewrite lookup_alter_ne by done. intros Hw. exists w. destruct (Hg j w Hw). split_and!; done. }
  split; try done; cbn.
  - split; cbn; try done.
    + intros cid j Hj. destruct (Hr cid j Hj) as (v & Hv & E). destruct (decide (j = i)) as [->|Hne].
      * exists (f v). rewrite lookup_alter_eq, Hv. split; [done|]. destruct (Hg i v Hv) as [Hto Hn].
        by rewrite (proj1 (Hf v Hto Hn)).
      * exists v. by rewrite lookup_alter_ne.
    + intros a b v w Ha Hb E. destruct (Hinv a v Ha) as (v0 & Hv0 & E0 & _). destruct (Hinv b w Hb) as (w0 & Hw0 & E0' & _).
      apply (Hi a b v0 w0 Hv0 Hw0). congruence.
    + intros a v Ha. destruct (Hinv a v Ha) as (v0 & Hv0 & E0 & _). rewrite E0. by eapply Hc.
    + intros j t Hj Et. destruct (Ht j t Hj Et) as [v Hv]. destruct (decide (j = i)) as [->|Hne].
      * rewrite lookup_alter_eq, Hv. eauto.
      * rewrite lookup_alter_ne by done. eauto.
    + intros j w Hw. destruct (Hinv j w Hw) as (_ & _ & _ & Hto & Hn). done.
  - intros j Hj. by rewrite lookup_alter_ne.
  - intros v Hv. destruct (Hg i v Hv) as [Hto Hn]. destruct (Hf v Hto Hn) as (E & _ & Hn' & Hd).
    exists (f v). rewrite lookup_alter_eq, Hv. split_and!; done.
  - by left.
Qed.

Lemma update_live s i f j : live (update s i f) j <-> live s j.
Proof. done. Qed.

Lemma push_keeps s i t : wf s -> task_of t = Some i -> is_Some (invocations s !! i) -> keeps i s (push s t).
Proof.
  intros [Hp Hr Hi Hc Ht Hg] Et Hv. split; try done; cbn.
  - split; cbn; try done. intros j t' Hin E. apply elem_of_app in Hin as [Hin|Hin]; [by eapply Ht|].
    apply list_elem_of_singleton in Hin as ->. congruence.
  - intros j Hj [Hl|(t' & Hin & E)]; [by left|]. right. exists t'. cbn. rewrite elem_of_app. auto.
  - intros v E. exists v. split_and!; [done..|lia].
  - by left.
Qed.

Lemma thrown_keeps s i b : wf s -> (b = true -> thrown s = true \/ exists c, frozen s c = true) -> keeps i s (with_thrown s b).
Proof. intros [Hp Hr Hi Hc Ht Hg] Hb. split; try done. intros v E. exists v. split_and!; [done..|lia]. Qed.

Lemma push_cared s i t : callback_of t = Some i -> cared (push s t) i.
Proof. intros E v _ _. right. exists t. cbn. rewrite elem_of_app, list_elem_of_singleton. auto. Qed.

Lemma same_id s i v cid j : wf s -> invocations s !! i = Some v -> js_map_get Z.eqb (pending s) cid = Some j ->
  j <> i -> (correlationId v =? cid) = false.
Proof.
  intros Hw Hv Hj Hne. apply Z.eqb_neq. intros <-. destruct (wf_registered s Hw _ _ Hj) as (w & Hwj & E).
  apply Hne. by eapply (wf_ids s Hw j i).
Qed.

Lemma deregister_keeps s i v : wf s -> invocations s !! i = Some v ->
  keeps i s (deregisterInvocation s (correlationId v)).
Proof.
  intros Hw Hv. pose proof Hw as [Hp Hr Hi Hc Ht Hg]. split; try done; cbn.
  - split; cbn; try done; [by apply js_map_delete_wf|]. intros cid j.
    rewrite (js_map_get_delete _ Z.eqb_eq) by done. destruct (correlationId v =? cid); [done | by apply Hr].
  - intros j Hj [[cid Hl]|Hl]; [|by right]. left. exists cid. cbn. rewrite (js_map_get_delete _ Z.eqb_eq) by done.
    by rewrite (same_id s i v cid j).
  - intros w E. exists w. split_and!; [done..|lia].
  - intros _ cid j. rewrite (js_map_get_delete _ Z.eqb_eq) by done. by destruct (correlationId v =? cid).
  - by left.
Qed.

Lemma handlers_keeps s i h : wf s -> keeps i s (with_handlers s h).
Proof. intros [Hp Hr Hi Hc Ht Hg]. split; try done; [|by left]. intros v E. exists v. split_and!; [done..|lia]. Qed.

Lemma registry_keeps s i r : wf s -> keeps i s (with_registry s r).
Proof. intros [Hp Hr Hi Hc Ht Hg]. split; try done; [|by left]. intros v E. exists v. split_and!; [done..|lia]. Qed.

Lemma pending_set_keeps s i v : wf s -> invocations s !! i = Some v -> isShutdown s = false ->
  keeps i s (with_pending s (js_map_set Z.eqb (pending s) (correlationId v) i)).
Proof.
  intros Hw Hv Hs. pose proof Hw as [Hp Hr Hi Hc Ht Hg]. split; try done; cbn.
  - split; cbn; try done; [by apply js_map_set_wf|]. intros cid j.
    rewrite (js_map_get_set _ Z.eqb_eq). destruct (Z.eqb_spec (correlationId v) cid) as [E|]; [|by apply Hr].
    intros [= <-]. eauto.
  - intros j Hj [[cid Hl]|Hl]; [|by right]. left. exists cid. cbn. rewrite (js_map_get_set _ Z.eqb_eq).
    by rewrite (same_id s i v cid j).
  - intros w E. exists w. split_and!; [done..|lia].
  - intros Hx. congruence.
  - by left.
Qed.

(** ** Operations on one invocation *)

(** The operation returns, and leaves the invocation settled or live. *)
Definition op_ok i s (m : res Service) : Prop := exists s', m = Ok s' /\ keeps i s s' /\ cared s' i.

Lemma op_ok_after i s s1 m : keeps i s s1 -> op_ok i s1 m -> op_ok i s m.
Proof. intros K1 (s' & E & K2 & Hc). exists s'. split_and!; [done | by eapply keeps_trans | done]. Qed.

Lemma keeps_lookup i s s' v : keeps i s s' -> invocations s !! i = Some v -> exists v', invocations s' !! i = Some v'.
Proof. intros K Hv. destruct (kp_self _ _ _ K v Hv) as (v' & E & _). eauto. Qed.

Lemma get_invocation_ok s i v : invocations s !! i = Some v -> get_invocation s i = Ok v.
Proof. intros E. unfold get_invocation. by rewrite E. Qed.

Definition settles (f : promise -> promise) : Prop := forall p, f p <> Pending /\ (p <> Pending -> f p = p).

Lemma resolve_settles m : settles (resolve m).
Proof. intros []; done. Qed.

Lemma reject_settles e : settles (reject e).
Proof. intros []; done. Qed.

Lemma set_deferred_mild f : settles f -> mild (fun v => set_deferred (f (deferred v)) v).
Proof. intros Hf v Ht Hn. split_and!; try done. intros Hd. by apply Hf. Qed.

Lemma settled_cared s i v f : settles f -> invocations s !! i = Some v ->
  cared (update s i (fun v => set_deferred (f (deferred v)) v)) i.
Proof.
  intros Hf Hv w Hw Hd. cbn in Hw. rewrite lookup_alter_eq, Hv in Hw. injection Hw as <-. by destruct (Hf (deferred v)).
Qed.

Lemma deregister_cared s i v : (forall w, invocations s !! i = Some w -> deferred w <> Pending) ->
  cared (deregisterInvocation s (correlationId v)) i.
Proof. intros Hs w Hw Hd. by destruct (Hs w Hw). Qed.

Lemma settle_ok s i v f : wf s -> settles f -> invocations s !! i = Some v -> op_ok i s (settle s i f).
Proof.
  intros Hw Hf Hv. unfold settle. rewrite (get_invocation_ok s i v Hv), res_bind_ok.
  pose proof (update_keeps s i _ Hw (set_deferred_mild f Hf)) as K.
  destruct (kp_self _ _ _ K v Hv) as (v' & Hv' & Ec & _). rewrite <- Ec.
  eexists. split; [done|]. split; [by eapply keeps_trans, deregister_keeps, Hv'; [|apply K]|].
  apply deregister_cared. intros w Hw'. cbn in Hw'. rewrite lookup_alter_eq, Hv in Hw'. injection Hw' as <-. apply Hf.
Qed.

Lemma register_ok s i v : wf s -> invocations s !! i = Some v -> isShutdown s = false ->
  exists s', registerInvocation s i = Ok s' /\ keeps i s s' /\ registered s' i /\ tasks s' = tasks s.
Proof.
  intros Hw Hv Hs. unfold registerInvocation. rewrite (get_invocation_ok s i v Hv), res_bind_ok.
  set (p := if hasPartitionId v then _ else _).
  set (s1 := update s i (fun v => set_request (set_partitionId p (request v)) v)).
  assert (keeps i s s1) as K1 by (apply update_keeps; [done|]; by intros w Ht Hn).
  set (s2 := if has_handler v then _ else s1).
  assert (keeps i s s2) as K2 by (unfold s2; destruct (has_handler v); [|done]; eapply keeps_trans, handlers_keeps; apply K1).
  assert (exists w, invocations s2 !! i = Some w /\ correlationId w = correlationId v) as (w & Hv2 & Ew).
  { destruct (kp_self _ _ _ K2 v Hv) as (w & E & Ec & _). by exists w. }
  rewrite <- Ew. eexists. split; [done|]. split_and!.
  - eapply keeps_trans; [exact K2|]. apply pending_set_keeps; [apply K2 | done | by rewrite (kp_shutdown _ _ _ K2)].
  - exists (correlationId w). cbn. rewrite (js_map_get_set _ Z.eqb_eq). by rewrite Z.eqb_refl.
  - unfold s2. by destruct (has_handler v).
Qed.

Lemma send_ok s i v c k : wf s -> invocations s !! i = Some v -> op_ok i s (send s i (Some c) k).
Proof.
  intros Hw Hv. unfold send. destruct (isShutdown s) eqn:Es.
  - eexists. split; [done|]. split; [by apply push_keeps; eauto | by apply push_cared].
  - set (s1 := if backupAckToClientEnabled (config s) then _ else s).
    assert (keeps i s s1) as K1.
    { unfold s1. destruct (backupAckToClientEnabled (config s)); [|by apply keeps_refl].
      apply update_keeps; [done|]. by intros w Ht Hn. }
    destruct (keeps_lookup _ _ _ _ K1 Hv) as [v1 Hv1].
    destruct (register_ok s1 i v1 (kp_wf _ _ _ K1) Hv1) as (s2 & E2 & K2 & Hr & Et); [by rewrite (kp_shutdown _ _ _ K1)|].
    rewrite E2, res_bind_ok. destruct (frozen s2 c) eqn:Ef; (eexists; split; [done|]; split).
    + eapply keeps_trans; [exact K1|]. eapply keeps_trans; [exact K2|]. apply thrown_keeps; [apply K2|]. eauto.
    + intros w Hw' Hd. left. exact Hr.
    + eapply keeps_trans; [exact K1|]. eapply keeps_trans; [exact K2|].
      apply push_keeps; [apply K2 | done|]. destruct (keeps_lookup _ _ _ _ K2 Hv1) as [v2 ->]. eauto.
    + intros w Hw' Hd. left. exact Hr.
Qed.

Lemma no_connection_ok s i v k : wf s -> invocations s !! i = Some v -> op_ok i s (Ok (no_connection s i k)).
Proof. intros Hw Hv. eexists. split; [done|]. split; [by apply push_keeps; eauto | by apply push_cared]. Qed.

Lemma invokeOnRandomConnection_ok rnd s i v k : wf s -> invocations s !! i = Some v ->
  op_ok i s (invokeOnRandomConnection rnd s i k).
Proof.
  intros Hw Hv. unfold invokeOnRandomConnection. destruct (getRandomConnection _ rnd false _) as [[c|] r].
  - apply (op_ok_after i s (with_registry s r)); [by apply registry_keeps|]. eapply send_ok, Hv.
    by apply (registry_keeps s i).
  - apply (op_ok_after i s (with_registry s r)); [by apply registry_keeps|]. eapply no_connection_ok, Hv.
    by apply (registry_keeps s i).
Qed.

Lemma invokeOnUuid_ok s i v u k : wf s -> invocations s !! i = Some v -> op_ok i s (invokeOnUuid s i (Some u) k).
Proof.
  intros Hw Hv. unfold invokeOnUuid. destruct (getConnection _ u); [by eapply send_ok | by eapply no_connection_ok].
Qed.

Lemma route_ok rnd s i v : wf s -> invocations s !! i = Some v -> op_ok i s (route rnd s i v).
Proof.
  intros Hw Hv. destruct (wf_targets s Hw i v Hv) as [[Hc Hu] _]. unfold route.
  destruct (iv_connection v) as [[c|]|]; [by eapply send_ok | done|].
  destruct (smartRouting (config s)); [|by eapply invokeOnRandomConnection_ok].
  destruct (hasPartitionId v).
  - unfold invokeOnPartitionOwner. destruct (getPartitionOwner _ _); [by eapply invokeOnUuid_ok | by eapply no_connection_ok].
  - destruct (iv_uuid v) as [[u|]|]; [by eapply invokeOnUuid_ok | done | by eapply invokeOnRandomConnection_ok].
Qed.

(** An invocation that is rejected: settled and no longer pending. *)
Lemma reject_ok s i v e : wf s -> invocations s !! i = Some v ->
  op_ok i s (Ok (deregisterInvocation (update s i (fun v => set_deferred (reject e (deferred v)) v)) (correlationId v))).
Proof.
  intros Hw Hv. pose proof (settle_ok s i v (reject e) Hw (reject_settles e) Hv) as Hs.
  unfold settle in Hs. by rewrite (get_invocation_ok s i v Hv), res_bind_ok in Hs.
Qed.

Lemma notifyError_with_ok doInv now s i v e : wf s -> invocations s !! i = Some v ->
  (invokeCount v < MAX_FAST_INVOCATION_COUNT -> op_ok i s (doInv s i)) ->
  op_ok i s (notifyError_with doInv now s i e).
Proof.
  intros Hw Hv Hd. unfold notifyError_with, rejectIfNotRetryable.
  rewrite (get_invocation_ok s i v Hv), !res_bind_ok.
  destruct (negb (running s)); [by apply reject_ok|].
  destruct (negb (shouldRetry (config s) v e)); [by apply reject_ok|].
  destruct (deadline v <? now); [by apply reject_ok|]. cbn.
  destruct (Z.ltb_spec (invokeCount v) MAX_FAST_INVOCATION_COUNT); [by apply Hd|].
  eexists. split; [done|]. split; [by apply push_keeps; eauto | by apply push_cared].
Qed.

Lemma count_invoke_mild : mild count_invoke.
Proof. intros v Ht Hn. split_and!; try done. cbn. lia. Qed.

Lemma doInvoke_ok fuel now rnd : forall s i v, wf s -> invocations s !! i = Some v ->
  MAX_FAST_INVOCATION_COUNT <= Z.of_nat fuel + invokeCount v -> (0 < fuel)%nat ->
  op_ok i s (doInvoke fuel now rnd s i).
Proof.
  induction fuel as [|fuel IH]; intros s i v Hw Hv Hf Hp; [lia|]. cbn [doInvoke].
  pose proof (update_keeps s i count_invoke Hw count_invoke_mild) as K.
  assert (invocations (update s i count_invoke) !! i = Some (count_invoke v)) as Hv' by (cbn; by rewrite lookup_alter_eq, Hv).
  rewrite (get_invocation_ok _ _ _ Hv'), res_bind_ok. apply (op_ok_after i s _ _ K).
  destruct (if urgent _ then _ else _) as [e|]; [|by apply route_ok; [apply K|]].
  eapply notifyError_with_ok; [apply K | exact Hv'|]. intros Hlt. cbn in Hlt.
  unfold MAX_FAST_INVOCATION_COUNT in *.
  eapply IH; [apply K | exact Hv' | cbn; lia | lia].
Qed.

Lemma doInvoke_fuel_ok now rnd s i v : wf s -> invocations s !! i = Some v ->
  op_ok i s (doInvoke invoke_fuel now rnd s i).
Proof.
  intros Hw Hv. eapply doInvoke_ok; [done | exact Hv | | unfold invoke_fuel; lia].
  destruct (wf_targets s Hw i v Hv) as [_ Hn]. unfold MAX_FAST_INVOCATION_COUNT, invoke_fuel. lia.
Qed.

Lemma notifyError_ok now rnd s i v e : wf s -> invocations s !! i = Some v -> op_ok i s (notifyError now rnd s i e).
Proof. intros Hw Hv. eapply notifyError_with_ok; [done | exact Hv|]. intros _. by eapply doInvoke_fuel_ok. Qed.

Lemma update_cared s i v f : wf s -> mild f -> invocations s !! i = Some v -> cared s i -> cared (update s i f) i.
Proof.
  intros Hw Hf Hv Hc w Hw' Hd. cbn in Hw'. rewrite lookup_alter_eq, Hv in Hw'. injection Hw' as <-.
  apply (Hc v Hv). destruct (wf_targets s Hw i v Hv) as [Ht Hn]. destruct (Hf v Ht Hn) as (_ & _ & _ & Hs).
  destruct (deferred v); [done|..]; by rewrite Hs in Hd.
Qed.

Lemma update_ok s i v f : wf s -> mild f -> invocations s !! i = Some v -> cared s i -> op_ok i s (Ok (update s i f)).
Proof. intros. eexists. split; [done|]. split; [by apply update_keeps | by eapply update_cared]. Qed.

Lemma same_ok s i : wf s -> cared s i -> op_ok i s (Ok s).
Proof. intros. eexists. split; [done|]. split; [by apply keeps_refl | done]. Qed.

Lemma notify_ok now s i v m : wf s -> invocations s !! i = Some v -> cared s i -> op_ok i s (notify now s i m).
Proof.
  intros Hw Hv Hc. unfold notify. rewrite (get_invocation_ok s i v Hv), res_bind_ok.
  destruct (_ <? _); [by eapply update_ok; [done|by intros w Ht Hn|..] | by eapply settle_ok, Hv; [|apply resolve_settles]].
Qed.

Lemma count_ack_mild : mild count_ack.
Proof. by intros w Ht Hn. Qed.

Lemma notifyBackupComplete_ok s i v : wf s -> invocations s !! i = Some v -> cared s i ->
  op_ok i s (notifyBackupComplete s i).
Proof.
  intros Hw Hv Hc. unfold notifyBackupComplete.
  pose proof (update_keeps s i count_ack Hw count_ack_mild) as K.
  assert (invocations (update s i count_ack) !! i = Some (count_ack v)) as Hv' by (cbn; by rewrite lookup_alter_eq, Hv).
  rewrite (get_invocation_ok _ _ _ Hv'), res_bind_ok.
  destruct (pendingResponseMessage _) as [m|]; [|by eapply update_ok; [|apply count_ack_mild|..]].
  destruct (negb _); [by eapply update_ok; [|apply count_ack_mild|..]|].
  apply (op_ok_after i s _ _ K). eapply settle_ok, Hv'; [apply K | apply resolve_settles].
Qed.

Lemma backup_timeout_ok now t s i v : wf s -> invocations s !! i = Some v -> cared s i ->
  op_ok i s (detectAndHandleBackupTimeout now t s i).
Proof.
  intros Hw Hv Hc. unfold detectAndHandleBackupTimeout. rewrite (get_invocation_ok s i v Hv), res_bind_ok.
  destruct (pendingResponseMessage v) as [m|]; [|by apply same_ok].
  destruct (_ =? _); [by apply same_ok|]. cbv zeta. destruct (negb _); [by apply same_ok|].
  destruct (shouldFailOnIndeterminateState _);
    [by eapply settle_ok, Hv; [|apply reject_settles] | by eapply settle_ok, Hv; [|apply resolve_settles]].
Qed.

Lemma clean_one_ok now rnd s i v : wf s -> invocations s !! i = Some v -> cared s i -> op_ok i s (clean_one now rnd s i).
Proof.
  intros Hw Hv Hc. unfold clean_one. rewrite (get_invocation_ok s i v Hv), res_bind_ok.
  destruct (sendConnection v) as [c|]; [|by apply same_ok]. destruct (negb _); [by eapply notifyError_ok|].
  destruct (backupAckToClientEnabled _); [by eapply backup_timeout_ok | by apply same_ok].
Qed.

Lemma run_on_error_ok now rnd s i v e k : wf s -> invocations s !! i = Some v -> op_ok i s (run_on_error now rnd s i e k).
Proof.
  intros Hw Hv. destruct k; [by eapply notifyError_ok|]. cbn [run_on_error].
  destruct (invokeOnRandomConnection_ok rnd s i v Notify Hw Hv) as (s' & E & K & Hc). rewrite E, res_bind_ok.
  destruct (thrown s'); [|by exists s'].
  assert (keeps i s' (with_thrown s' false)) as K' by (by apply thrown_keeps; [apply K|]).
  eexists. split; [done|]. split; [|by apply push_cared]. eapply keeps_trans; [exact K|]. eapply keeps_trans; [exact K'|].
  apply push_keeps; [apply K' | done|]. destruct (keeps_lookup _ _ _ _ K Hv) as [v' Hv']. by exists v'.
Qed.

(** ** The invariant of the service *)

(** Everything is in order, except perhaps that the invocation [i] is waiting for nothing. *)
Record inv_but (P : nat -> Prop) s : Prop := {
  ib_wf : wf s;
  ib_cared j : ~ P j -> cared s j
}.

Definition inv s : Prop := inv_but (fun _ => False) s.

Lemma inv_cared s i : inv s -> cared s i.
Proof. intros [_ Hc]. apply Hc. by intros []. Qed.

Lemma op_inv i s m : inv_but (eq i) s -> op_ok i s m -> exists s', m = Ok s' /\ keeps i s s' /\ inv s'.
Proof.
  intros [Hw Hc] (s' & E & K & Hi). exists s'. split_and!; [done..|]. split; [apply K|]. intros j _.
  destruct (decide (j = i)) as [->|Hne]; [done|]. intros v Hv Hd. rewrite (kp_others _ _ _ K j Hne) in Hv.
  apply (kp_live _ _ _ K j Hne). eapply (Hc j); [by intros -> | exact Hv | exact Hd].
Qed.

Lemma inv_weaken i s : inv s -> inv_but (eq i) s.
Proof. intros [Hw Hc]. split; [done|]. intros j _. apply Hc. by intros []. Qed.

(** Visiting a list of invocations. *)
Lemma each_ok (f : Service -> nat -> res Service) l :
  (forall s i v, wf s -> invocations s !! i = Some v -> cared s i -> op_ok i s (f s i)) ->
  forall s, inv s -> (forall i, i ∈ l -> is_Some (invocations s !! i)) ->
  exists s', each_invocation f s l = Ok s' /\ inv s' /\ isShutdown s' = isShutdown s /\
    (isShutdown s = true -> forall cid j,
       js_map_get Z.eqb (pending s') cid = Some j -> js_map_get Z.eqb (pending s) cid = Some j) /\
    (forall i v, invocations s !! i = Some v -> exists v', invocations s' !! i = Some v' /\
       (deferred v <> Pending -> deferred v' = deferred v)) /\
    (thrown s' = true -> thrown s = true \/ exists c, frozen s c = true).
Proof.
  intros Hf. induction l as [|i l IH]; intros s Hi Hl.
  - exists s. split_and!; try done; [|by left]. intros i v Hv. eauto.
  - cbn [each_invocation]. destruct (Hl i) as [v Hv]; [by left|].
    destruct (op_inv i s _ (inv_weaken i s Hi) (Hf s i v (ib_wf _ _ Hi) Hv (inv_cared s i Hi))) as (s1 & E & K & Hi1).
    rewrite E, res_bind_ok.
    assert (forall j w, invocations s !! j = Some w -> exists w', invocations s1 !! j = Some w' /\
      (deferred w <> Pending -> deferred w' = deferred w)) as Hk.
    { intros j w Hw. destruct (decide (j = i)) as [->|Hne].
      - destruct (kp_self _ _ _ K w Hw) as (w' & Hw' & _ & Hd & _). by exists w'.
      - exists w. by rewrite (kp_others _ _ _ K j Hne). }
    destruct (thrown s1) eqn:Et.
    { exists s1. split_and!; [done | done | apply K | apply K | exact Hk | by apply K]. }
    destruct (IH s1 Hi1) as (s' & E' & Hi' & Hs & Hp & Hk' & Ht).
    { intros j Hj. destruct (Hl j) as [w Hw]; [by right|]. destruct (Hk j w Hw) as (w' & -> & _). eauto. }
    exists s'. split_and!; [done | done | by rewrite Hs, (kp_shutdown _ _ _ K) | | |].
    { intros Hsd cid j Hj. apply (kp_closed _ _ _ K Hsd), Hp; [by rewrite (kp_shutdown _ _ _ K) | done]. }
    { intros j w Hw. destruct (Hk j w Hw) as (w1 & Hw1 & Hd1). destruct (Hk' j w1 Hw1) as (w2 & Hw2 & Hd2).
      exists w2. split; [done|]. intros Hd. rewrite Hd2; [by apply Hd1 | by rewrite Hd1]. }
    intros Hts. destruct (Ht Hts) as [E1|Hf']; [congruence|]. right. by rewrite <- (kp_frozen _ _ _ K).
Qed.

Lemma pending_valid s i : wf s -> i ∈ map snd (pending s) -> is_Some (invocations s !! i).
Proof.
  intros Hw Hi. apply list_elem_of_fmap in Hi as ([cid j] & -> & Hin). cbn.
  apply (js_map_get_elem _ Z.eqb_eq) in Hin; [|apply Hw]. destruct (wf_registered s Hw cid j Hin) as (v & -> & _). eauto.
Qed.

(** ** Shutdown *)

(** A [ClientNotActiveError] is never retried. *)
Lemma not_active_rejects now rnd s i v : invocations s !! i = Some v ->
  notifyError now rnd s i (Some Err.ClientNotActiveError) =
  Ok (deregisterInvocation
        (update s i (fun v => set_deferred (reject (Some Err.ClientNotActiveError) (deferred v)) v)) (correlationId v)).
Proof.
  intros Hv. unfold notifyError, notifyError_with, rejectIfNotRetryable.
  rewrite (get_invocation_ok s i v Hv), !res_bind_ok. destruct (negb (running s)); [done|].
  assert (shouldRetry (config s) v (Some Err.ClientNotActiveError) = false) as ->; [|done].
  unfold shouldRetry. destruct (iv_connection v) as [[]|], (iv_uuid v) as [[]|]; reflexivity.
Qed.

Definition reject_not_active v : Inv := set_deferred (reject (Some Err.ClientNotActiveError) (deferred v)) v.

Lemma reject_not_active_idem v : reject_not_active (reject_not_active v) = reject_not_active v.
Proof. unfold reject_not_active. destruct v as [? ? ? ? ? ? d]. by destruct d. Qed.

Lemma shutdown_loop now rnd l : forall s, inv s -> thrown s = false -> (forall i, i ∈ l -> is_Some (invocations s !! i)) ->
  exists s', each_invocation (fun s i => notifyError now rnd s i (Some Err.ClientNotActiveError)) s l = Ok s' /\
    inv s' /\ isShutdown s' = isShutdown s /\ thrown s' = false /\
    (forall cid j, js_map_get Z.eqb (pending s') cid = Some j -> js_map_get Z.eqb (pending s) cid = Some j /\ j ∉ l) /\
    (forall i v, invocations s !! i = Some v ->
       invocations s' !! i = Some (if bool_decide (i ∈ l) then reject_not_active v else v)).
Proof.
  induction l as [|i l IH]; intros s Hi Hcalm Hl.
  - exists s. split_and!; try done. intros cid j Hj. split; [done | apply not_elem_of_nil].
  - cbn [each_invocation]. destruct (Hl i) as [v Hv]; [by left|]. pose proof (ib_wf _ _ Hi) as Hw.
    rewrite (not_active_rejects now rnd s i v Hv), res_bind_ok.
    destruct (op_inv i s _ (inv_weaken i s Hi) (reject_ok s i v (Some Err.ClientNotActiveError) Hw Hv)) as (s1 & E & K & Hi1).
    injection E as E. rewrite E. assert (thrown s1 = false) as Ht1 by (by rewrite <- E). rewrite Ht1. assert (forall j w, invocations s !! j = Some w ->
      invocations s1 !! j = Some (if bool_decide (j = i) then reject_not_active w else w)) as Hk.
    { intros j w Hw'. rewrite <- E. cbn. destruct (bool_decide_reflect (j = i)) as [->|Hne].
      - by rewrite lookup_alter_eq, Hw'.
      - by rewrite lookup_alter_ne. }
    destruct (IH s1 Hi1 Ht1) as (s' & E' & Hi' & Hs & Ht' & Hp & Hk').
    { intros j Hj. destruct (Hl j) as [w Hw']; [by right|]. rewrite (Hk j w Hw'). eauto. }
    exists s'. split_and!; [done | done | by rewrite Hs, (kp_shutdown _ _ _ K) | done | |].
    + intros cid j Hj. destruct (Hp cid j Hj) as [Hj1 Hnl]. rewrite <- E in Hj1. cbn in Hj1.
      rewrite (js_map_get_delete _ Z.eqb_eq) in Hj1 by apply Hw.
      destruct (Z.eqb_spec (correlationId v) cid) as [Ec|Hne]; [done|]. split; [done|].
      apply not_elem_of_cons. split; [|done]. intros ->. destruct (wf_registered s Hw cid i Hj1) as (w & Hw' & <-). congruence.
    + intros j w Hw'. rewrite (Hk' j _ (Hk j w Hw')). f_equal.
      destruct (bool_decide_reflect (j = i)) as [->|Hne].
      * rewrite (bool_decide_eq_true_2 (i ∈ i :: l)) by (by left).
        case_bool_decide; [by rewrite reject_not_active_idem | done].
      * by rewrite (bool_decide_ext (j ∈ i :: l) (j ∈ l)) by set_solver.
Qed.

(** ** Runs *)

(** Everything that can happen to the service: a call of the client, a message, a backup event, the
    periodic task, the end of a write or the running of a callback, and a change of what the other
    components hold. *)
Inductive op :=
  | OpInvoke (i : nat) (v : Inv)
  | OpResponse (m : Response)
  | OpBackupEvent (sourceCorrelationId : Z)
  | OpRemoveHandler (correlationId : Z)
  | OpClean
  | OpShutdown
  | OpTask (n : nat) (write_error : option err)
  | OpEnvironment (r : ConnectionRegistryImpl B) (p : PartitionServiceImpl L) (running : bool) (alive frozen : nat -> bool).

Definition exec (now : Z) (rnd : nat -> nat) (o : op) s : res Service :=
  match o with
  | OpInvoke i v => invoke now rnd s i v
  | OpResponse m => processResponse now rnd s m
  | OpBackupEvent cid => backupEventHandler s cid
  | OpRemoveHandler cid => Ok (removeEventHandler s cid)
  | OpClean => cleanResources now rnd s
  | OpShutdown => shutdown now rnd s
  | OpTask n e => run_task now rnd n e s
  | OpEnvironment r p b a f =>
      Ok (mkService (config s) (invocations s) (eventHandlers s) (pending s) (correlationCounter s) (isShutdown s)
            (tasks s) (handled s) r p b a f (thrown s))
  end.

(** An invocation is a new object, with a proper target. *)
Definition op_pre s (o : op) : Prop :=
  match o with
  | OpInvoke i v => invocations s !! i = None /\ target_ok v /\ 0 <= invokeCount v
  | _ => True
  end.

(** What an operation throws, its caller or the event loop takes. *)
Inductive reach (c : InvocationConfig) : Service -> Prop :=
  | reach_new r p a f : reach c (newInvocationService c r p a f)
  | reach_step now rnd o s s' : reach c s -> op_pre s o -> exec now rnd o s = Ok s' -> reach c (with_thrown s' false).

(** Nothing is pending once the service is shut down. *)
Definition closed s : Prop := isShutdown s = true -> pending s = [].

Definition later s s' : Prop := forall i v, invocations s !! i = Some v -> exists v', invocations s' !! i = Some v' /\
  (deferred v <> Pending -> deferred v' = deferred v).

(** An operation throws only when it writes to a connection whose queue is frozen. *)
Definition calm s s' : Prop := thrown s' = true -> thrown s = true \/ exists c, frozen s c = true.

Lemma calm_refl s : calm s s.
Proof. by left. Qed.

Lemma later_refl s : later s s.
Proof. intros i v Hv. eauto. Qed.

Lemma keeps_later i s s' : keeps i s s' -> later s s'.
Proof.
  intros K j v Hv. destruct (decide (j = i)) as [->|Hne].
  - destruct (kp_self _ _ _ K v Hv) as (v' & E & _ & Hd & _). by exists v'.
  - exists v. by rewrite (kp_others _ _ _ K j Hne).
Qed.

Lemma subset_closed s s' : closed s -> isShutdown s' = isShutdown s ->
  (isShutdown s = true -> forall cid j,
     js_map_get Z.eqb (pending s') cid = Some j -> js_map_get Z.eqb (pending s) cid = Some j) -> closed s'.
Proof.
  intros Hc E Hp Hs. rewrite E in Hs. apply (js_map_empty Z.eqb Z.eqb_eq). intros cid.
  destruct (js_map_get Z.eqb (pending s') cid) as [j|] eqn:Ej; [|done].
  apply (Hp Hs) in Ej. by rewrite (Hc Hs) in Ej.
Qed.

(** An operation on one invocation, as a step of a run. *)
Lemma one_ok i s m : inv_but (eq i) s -> closed s -> op_ok i s m ->
  exists s', m = Ok s' /\ inv s' /\ closed s' /\ later s s' /\ calm s s'.
Proof.
  intros Hi Hc Ho. destruct (op_inv i s m Hi Ho) as (s' & E & K & Hi'). exists s'. split_and!; [done | done | | |].
  - eapply subset_closed; [done | apply K | apply K].
  - by eapply keeps_later.
  - exact (kp_thrown _ _ _ K).
Qed.

Lemma invoke_ok now rnd s i v : inv s -> closed s -> op_pre s (OpInvoke i v) ->
  exists s', invoke now rnd s i v = Ok s' /\ inv s' /\ closed s' /\ later s s' /\ calm s s'.
Proof.
  intros [[Hp Hr Hi Hc Ht Hg] Hca] Hcl (Hn & Hto & Hic). unfold invoke.
  set (v0 := set_request _ _). set (s0 := mkService _ _ _ _ _ _ _ _ _ _ _ _ _ _).
  assert (later s s0) as Hl.
  { intros j w Hw. exists w. split; [|done]. cbn. rewrite lookup_insert_ne; [done|]. congruence. }
  assert (wf s0) as Hw0.
  { split; cbn; try done.
    - intros cid j Hj. destruct (Hr cid j Hj) as (w & Hw & E). exists w. rewrite lookup_insert_ne; [done|]. congruence.
    - intros a b x y Ha Hb E. apply lookup_insert_Some in Ha as [[<- <-]|[Hna Ha]], Hb as [[<- <-]|[Hnb Hb]];
        [done | specialize (Hc b y Hb) | specialize (Hc a x Ha) | by eapply Hi]; cbn in *; lia.
    - intros a x Ha. apply lookup_insert_Some in Ha as [[<- <-]|[Hna Ha]]; [cbn; lia|]. specialize (Hc a x Ha). lia.
    - intros a t Ha E. destruct (Ht a t Ha E) as [x Hx]. rewrite lookup_insert_ne; [eauto|]. congruence.
    - intros a x Ha. apply lookup_insert_Some in Ha as [[<- <-]|[Hna Ha]]; [done | by eapply Hg]. }
  assert (inv_but (eq i) s0) as Hi0.
  { split; [done|]. intros j Hj x Hx Hd. cbn in Hx. rewrite lookup_insert_ne in Hx by done.
    assert (live s j) as Hlive by (eapply (Hca j); [by intros [] | exact Hx | exact Hd]). exact Hlive. }
  destruct (one_ok i s0 (doInvoke invoke_fuel now rnd s0 i) Hi0 Hcl) as (s' & E & Hi' & Hc' & Hl' & Ht').
  { eapply doInvoke_fuel_ok; [done|]. cbn. by rewrite lookup_insert_eq. }
  exists s'. split_and!; [done..| |exact Ht']. intros j w Hw. destruct (Hl j w Hw) as (w0 & Hw0' & Hd0).
  destruct (Hl' j w0 Hw0') as (w1 & Hw1 & Hd1). exists w1. split; [done|]. intros Hd. rewrite Hd1; [by apply Hd0 | by rewrite Hd0].
Qed.

Lemma each_step (f : Service -> nat -> res Service) s :
  (forall s i v, wf s -> invocations s !! i = Some v -> cared s i -> op_ok i s (f s i)) -> inv s -> closed s ->
  exists s', each_invocation f s (map snd (pending s)) = Ok s' /\ inv s' /\ closed s' /\ later s s' /\ calm s s'.
Proof.
  intros Hf Hi Hc. destruct (each_ok f (map snd (pending s)) Hf s Hi) as (s' & E & Hi' & Hs & Hp & Hl & Ht).
  { intros i. apply pending_valid, Hi. }
  exists s'. split_and!; [done | done | by eapply subset_closed | done | done].
Qed.

Lemma shutdown_ok now rnd s : inv s -> thrown s = false -> isShutdown s = false ->
  exists s', shutdown now rnd s = Ok s' /\ inv s' /\ isShutdown s' = true /\ thrown s' = false /\ pending s' = [] /\
    forall i v, invocations s !! i = Some v ->
      invocations s' !! i = Some (if bool_decide (i ∈ map snd (pending s)) then reject_not_active v else v).
Proof.
  intros [Hw Hca] Hcalm Hs. unfold shutdown. rewrite Hs. set (s0 := mkService _ _ _ _ _ _ _ _ _ _ _ _ _ _).
  assert (inv s0) as Hi0 by (destruct Hw; by split).
  destruct (shutdown_loop now rnd (map snd (pending s)) s0 Hi0 Hcalm) as (s' & E & Hi' & Hs' & Ht' & Hp & Hk).
  { intros i. by apply pending_valid. }
  exists s'. split_and!; [done | done | by rewrite Hs' | done | | done].
  apply (js_map_empty Z.eqb Z.eqb_eq). intros cid. destruct (js_map_get Z.eqb (pending s') cid) as [j|] eqn:Ej; [|done].
  destruct (Hp cid j Ej) as [Hj Hnot]. destruct Hnot. cbn in Hj. apply (js_map_get_Some _ Z.eqb_eq) in Hj.
  apply list_elem_of_fmap. by exists (cid, j).
Qed.

(** Taking a task off the queue. *)
Lemma delete_elem (ts : list task) n t t' : ts !! n = Some t -> t' ∈ ts -> t' <> t -> t' ∈ delete n ts.
Proof.
  intros Hn Hin Hne. rewrite delete_take_drop. rewrite <- (take_drop_middle ts n t Hn) in Hin.
  rewrite elem_of_app, elem_of_cons in Hin. rewrite elem_of_app. tauto.
Qed.

Lemma delete_sub (ts : list task) n t' : t' ∈ delete n ts -> t' ∈ ts.
Proof. apply (sublist_subseteq _ _ (sublist_delete ts n)). Qed.

Lemma pop_inv s n t : inv s -> tasks s !! n = Some t ->
  inv_but (fun j => callback_of t = Some j) (with_tasks s (delete n (tasks s))).
Proof.
  intros [[Hp Hr Hi Hc Ht Hg] Hca] Hn. split.
  - split; cbn; try done. intros j t' Hin E. by eapply Ht; [apply delete_sub in Hin|].
  - intros j Hj v Hv Hd. destruct (Hca j ltac:(by intros []) v Hv Hd) as [Hreg|(t' & Hin & Ec)]; [by left|].
    right. exists t'. split; [|done]. cbn. eapply delete_elem; [done..|]. by intros ->.
Qed.

Lemma inv_but_callback i s : inv_but (fun j => Some i = Some j) s -> inv_but (eq i) s.
Proof. intros [Hw Hc]. split; [done|]. intros j Hj. apply Hc. by intros [= ->]. Qed.

Lemma inv_but_none s : inv_but (fun j => None = Some j) s -> inv s.
Proof. intros [Hw Hc]. split; [done|]. intros j _. apply Hc. done. Qed.

Lemma run_task_ok now rnd n e s : inv s -> closed s ->
  exists s', run_task now rnd n e s = Ok s' /\ inv s' /\ closed s' /\ later s s' /\ calm s s'.
Proof.
  intros Hi Hc. unfold run_task. destruct (tasks s !! n) as [t|] eqn:Et; [|exists s; auto using later_refl, calm_refl].
  pose proof (pop_inv s n t Hi Et) as Hb. set (s0 := with_tasks s (delete n (tasks s))) in *.
  assert (closed s0) as Hc0 by exact Hc.
  assert (forall i, task_of t = Some i -> exists v, invocations s0 !! i = Some v) as Hval.
  { intros i Ei. by apply (wf_tasks s (ib_wf _ _ Hi) i t); [eapply list_elem_of_lookup_2|]. }
  assert (forall i m, inv_but (eq i) s0 -> op_ok i s0 m -> exists s', m = Ok s' /\ inv s' /\ closed s' /\ later s s' /\ calm s s') as Hone.
  { intros i m Hib Ho. by apply (one_ok i s0 m Hib Hc0 Ho). }
  destruct t as [i c k|i er k|i|cid m]; cbn [callback_of] in Hb.
  - apply inv_but_none in Hb. destruct (Hval i eq_refl) as [v Hv]. pose proof (ib_wf _ _ Hb) as Hw. destruct e as [e|].
    + apply (Hone i); [by apply inv_weaken|]. by eapply run_on_error_ok.
    + apply (Hone i); [by apply inv_weaken|]. eapply update_ok; [done | by intros w Ht Hn | done | by apply inv_cared].
  - apply inv_but_callback in Hb. destruct (Hval i eq_refl) as [v Hv]. apply (Hone i); [done|].
    eapply run_on_error_ok; [apply Hb | done].
  - apply inv_but_callback in Hb. destruct (Hval i eq_refl) as [v Hv]. apply (Hone i); [done|].
    eapply doInvoke_fuel_ok; [apply Hb | done].
  - apply inv_but_none in Hb. destruct (js_map_get Z.eqb (eventHandlers s0) cid) as [i|]; [|exists s0; split_and!; try done; [exact (later_refl s) | exact (calm_refl s)]].
    eexists. split; [done|]. split_and!; [|exact Hc0 | exact (later_refl s) | exact (calm_refl s)]. destruct Hb as [[] Hca]. by split.
Qed.

Lemma pending_lookup s cid i : inv s -> js_map_get Z.eqb (pending s) cid = Some i -> exists v, invocations s !! i = Some v.
Proof. intros [Hw _] Hg. destruct (wf_registered s Hw cid i Hg) as (v & Hv & _). eauto. Qed.

Lemma exec_ok now rnd o s : inv s -> closed s -> op_pre s o -> (o = OpShutdown -> thrown s = false) ->
  exists s', exec now rnd o s = Ok s' /\ inv s' /\ closed s' /\ later s s' /\ calm s s'.
Proof.
  intros Hi Hc Hpre Hcalm. destruct o as [i v|m|cid|cid| | |n e|r p b a f]; cbn [exec].
  - by apply invoke_ok.
  - unfold processResponse. destruct (_ || _).
    + eexists. split; [done|]. split_and!; [|exact Hc | exact (later_refl s) | exact (calm_refl s)]. destruct Hi as [[Hp Hr Hid Hct Ht Hg] Hca].
      split; [split; cbn; try done | intros j Hj v Hv Hd].
      * intros j t Hin E. apply elem_of_app in Hin as [Hin|Hin]; [by eapply Ht|].
        apply list_elem_of_singleton in Hin as ->. done.
      * destruct (Hca j Hj v Hv Hd) as [Hreg|(t & Hin & E)]; [by left|]. right. exists t. cbn. rewrite elem_of_app. auto.
    + destruct (js_map_get Z.eqb (pending s) (rs_correlationId m)) as [i|] eqn:Ei; [|exists s; auto using later_refl, calm_refl].
      destruct (pending_lookup s _ i Hi Ei) as [v Hv]. pose proof (ib_wf _ _ Hi) as Hw.
      destruct (_ =? _); apply (one_ok i); try done; try (by apply inv_weaken);
        [by eapply notifyError_ok | eapply notify_ok; [done..|by apply inv_cared]].
  - unfold backupEventHandler. destruct (js_map_get Z.eqb (pending s) cid) as [i|] eqn:Ei; [|exists s; auto using later_refl, calm_refl].
    destruct (pending_lookup s _ i Hi Ei) as [v Hv]. apply (one_ok i); [by apply inv_weaken | done|].
    eapply notifyBackupComplete_ok; [apply Hi | done | by apply inv_cared].
  - eexists. split; [done|]. split_and!; [|exact Hc | exact (later_refl s) | exact (calm_refl s)]. destruct Hi as [[] Hca]. by split.
  - apply each_step; [|done..]. intros. by eapply clean_one_ok.
  - destruct (isShutdown s) eqn:Es; [exists s; unfold shutdown; rewrite Es; split_and!; try done; [exact (later_refl s) | exact (calm_refl s)]|].
    destruct (shutdown_ok now rnd s Hi (Hcalm eq_refl) Es) as (s' & E & Hi' & Hs & Ht & Hp & Hk).
    exists s'. split_and!; [done | done | by intros _ | | intros Ht'; congruence].
    intros i v Hv. rewrite (Hk i v Hv). eexists. split; [done|]. intros Hd. case_bool_decide; [|done]. cbn. by destruct (deferred v).
  - by apply run_task_ok.
  - eexists. split; [done|]. split_and!; [|exact Hc | exact (later_refl s) | exact (calm_refl s)]. destruct Hi as [[] Hca]. by split.
Qed.

Lemma new_service_inv c r p a f : inv (newInvocationService c r p a f) /\ closed (newInvocationService c r p a f).
Proof.
  split; [|done]. split; [split; try done|]; cbn.
  - intros i t Hin. by apply not_elem_of_nil in Hin.
  - intros j _ v Hv. done.
Qed.

Lemma caught_inv s : inv s -> inv (with_thrown s false).
Proof. intros [[] Hca]. by split. Qed.

Lemma reach_inv c s : reach c s -> inv s /\ closed s /\ thrown s = false.
Proof.
  induction 1 as [r p a f|now rnd o s s' _ (Hi & Hc & Ht) Hpre E]; [by split_and!; [apply new_service_inv..|]|].
  destruct (exec_ok now rnd o s Hi Hc Hpre (fun _ => Ht)) as (s1 & E1 & Hi1 & Hc1 & _). rewrite E1 in E. injection E as <-.
  split_and!; [by apply caught_inv | exact Hc1 | done].
Qed.

(** C1: no invocation is forgotten: from every reachable state of the service each operation ends (the immediate
    retries always do), a promise that is settled keeps its result for ever, and a promise that is not settled
    stays with the service: the invocation is registered under its own correlation id, or a callback that will
    retry or reject it is outstanding. All this holds even of an operation that throws, and an operation throws
    only when a connection was closed whose pipelined writer had seen no error: a request written to it throws
    a TypeError. *)
Theorem no_invocation_lost c s now rnd o : reach c s -> op_pre s o ->
  exists s', exec now rnd o s = Ok s' /\ later s s' /\
    (forall i v, invocations s' !! i = Some v -> deferred v = Pending ->
      js_map_get Z.eqb (pending s') (correlationId v) = Some i \/
      exists t, t ∈ tasks s' /\ callback_of t = Some i) /\
    (thrown s' = true -> exists conn, frozen s conn = true).
Proof.
  intros Hr Hpre. destruct (reach_inv c s Hr) as (Hi & Hc & Ht).
  destruct (exec_ok now rnd o s Hi Hc Hpre (fun _ => Ht)) as (s' & E & Hi' & _ & Hl & Hca). exists s'. split_and!; [done..| |].
  - intros i v Hv Hd. destruct (inv_cared s' i Hi' v Hv Hd) as [[cid Hg]|Hta]; [left|by right].
    destruct (wf_registered s' (ib_wf _ _ Hi') cid i Hg) as (w & Hw & <-). congruence.
  - intros Hth. destruct (Hca Hth); [congruence | done].
Qed.

(** Shutdown leaves nothing behind: it returns, every pending invocation that was not settled is
    rejected with a [ClientNotActiveError], the others are untouched, and the map of pending
    invocations is empty; in every state reached after it, it stays empty. *)
Theorem shutdown_settles_all c s now rnd : reach c s ->
  (isShutdown s = true -> pending s = []) /\
  (isShutdown s = false -> exists s', shutdown now rnd s = Ok s' /\ isShutdown s' = true /\ thrown s' = false /\ pending s' = [] /\
     forall i v, invocations s !! i = Some v ->
       invocations s' !! i = Some (if bool_decide (i ∈ map snd (pending s))
         then set_deferred (reject (Some Err.ClientNotActiveError) (deferred v)) v else v)).
Proof.
  intros Hr. destruct (reach_inv c s Hr) as (Hi & Hc & Ht). split; [exact Hc|]. intros Hs.
  destruct (shutdown_ok now rnd s Hi Ht Hs) as (s' & E & _ & Hs' & Ht' & Hp & Hk). by exists s'.
Qed.

(** ** Backup acknowledgements *)

(** The messages about one invocation: the response of the partition owner and the acknowledgements of
    the backups, which arrive in any order. *)
Inductive arrival := Primary | Ack.

#[global] Instance arrival_eq_dec : EqDecision arrival.
Proof. solve_decision. Defined.

Definition deliver (now : Z) (rnd : nat -> nat) (m : Response) s (a : arrival) : res Service :=
  match a with
  | Primary => processResponse now rnd s m
  | Ack => backupEventHandler s (rs_correlationId m)
  end.

Fixpoint deliver_all (now : Z) (rnd : nat -> nat) (m : Response) s (l : list arrival) : res Service :=
  match l with
  | [] => Ok s
  | a :: l => s ← deliver now rnd m s a; deliver_all now rnd m s l
  end.

(** A response, not an event and not an exception. *)
Definition plain_response (m : Response) : Prop :=
  isFlagSet (rs_flags m) IS_EVENT_FLAG = false /\ isFlagSet (rs_flags m) IS_BACKUP_EVENT_FLAG = false /\
  rs_messageType m <> EXCEPTION_MESSAGE_TYPE.

(** The state of the invocation once [acks] acknowledgements, and the response if [resp], have arrived. *)
Definition awaiting (m : Response) i (acks : Z) (resp : bool) s : Prop :=
  exists v, invocations s !! i = Some v /\
    if resp && (rs_backupAcks m <=? acks)
    then deferred v = Resolved m /\ js_map_get Z.eqb (pending s) (rs_correlationId m) = None
    else js_map_get Z.eqb (pending s) (rs_correlationId m) = Some i /\ deferred v = Pending /\
      backupsAcksReceived v = acks /\ pendingResponseMessage v = (if resp then Some m else None) /\
      (resp = true -> backupsAcksExpected v = rs_backupAcks m).

Lemma settle_awaiting s i v m acks : inv s -> invocations s !! i = Some v -> deferred v = Pending ->
  correlationId v = rs_correlationId m -> rs_backupAcks m <= acks ->
  exists s', settle s i (resolve m) = Ok s' /\ awaiting m i acks true s' /\
    (forall j, j <> i -> invocations s' !! j = invocations s !! j).
Proof.
  intros Hi Hv Hd Hc Hk. unfold settle. rewrite (get_invocation_ok s i v Hv), res_bind_ok. eexists. split; [done|]. split.
  - exists (set_deferred (Resolved m) v). cbn. rewrite lookup_alter_eq, Hv. cbn. rewrite Hd.
    destruct (Z.leb_spec (rs_backupAcks m) acks); [|lia]. split_and!; try done.
    rewrite Hc, (js_map_get_delete _ Z.eqb_eq) by apply Hi. by rewrite Z.eqb_refl.
  - intros j Hj. cbn. by rewrite lookup_alter_ne.
Qed.

Lemma ack_awaiting s i m acks resp : inv s -> awaiting m i acks resp s ->
  exists s', backupEventHandler s (rs_correlationId m) = Ok s' /\ awaiting m i (acks + 1) resp s' /\
    (forall j, j <> i -> invocations s' !! j = invocations s !! j).
Proof.
  intros Hi (v & Hv & Ha). unfold backupEventHandler. destruct (resp && (rs_backupAcks m <=? acks)) eqn:Ed.
  - destruct Ha as [Hd Hn]. rewrite Hn. bool_hyps. exists s. split_and!; try done. exists v. split; [done|].
    destruct (Z.leb_spec (rs_backupAcks m) (acks + 1)); [|lia]. by subst resp.
  - destruct Ha as (Hg & Hd & Hr & Hp & He). rewrite Hg. unfold notifyBackupComplete.
    pose proof (update_keeps s i count_ack (ib_wf _ _ Hi) count_ack_mild) as K.
    assert (invocations (update s i count_ack) !! i = Some (count_ack v)) as Hv' by (cbn; by rewrite lookup_alter_eq, Hv).
    rewrite (get_invocation_ok _ _ _ Hv'), res_bind_ok. cbn [count_ack pendingResponseMessage backupsAcksExpected backupsAcksReceived].
    assert (forall j, j <> i -> invocations (update s i count_ack) !! j = invocations s !! j) as Ho
      by (intros j Hj; cbn; by rewrite lookup_alter_ne).
    assert (inv (update s i count_ack)) as Hi'.
    { destruct (op_inv i s _ (inv_weaken i s Hi) (update_ok s i v count_ack (ib_wf _ _ Hi) count_ack_mild Hv (inv_cared s i Hi)))
        as (s' & E & _ & Hi'). by injection E as <-. }
    destruct (wf_registered s (ib_wf _ _ Hi) _ _ Hg) as (v0 & Hv0 & Hc). assert (v0 = v) as -> by congruence.
    rewrite Hp. destruct resp; cbn in Ed.
    + rewrite (He eq_refl), Hr. destruct (Z.eqb_spec (rs_backupAcks m) (acks + 1)) as [Ek|Hk]; cbn [negb].
      * destruct (settle_awaiting (update s i count_ack) i (count_ack v) m (acks + 1) Hi' Hv' Hd Hc ltac:(lia)) as (s' & E & Ha & Hs).
        exists s'. split_and!; [done | done|]. intros j Hj. by rewrite Hs, Ho.
      * eexists. split_and!; [done | | done]. exists (count_ack v). split; [done|]. bool_hyps.
        destruct (Z.leb_spec (rs_backupAcks m) (acks + 1)); [lia|]. cbn. split_and!; try done. by rewrite Hr.
    + eexists. split_and!; [done | | done]. exists (count_ack v). split; [done|]. cbn. split_and!; try done. by rewrite Hr.
Qed.

Lemma primary_awaiting now rnd s i m acks : inv s -> plain_response m -> awaiting m i acks false s ->
  exists s', processResponse now rnd s m = Ok s' /\ awaiting m i acks true s' /\
    (forall j, j <> i -> invocations s' !! j = invocations s !! j).
Proof.
  intros Hi (F1 & F2 & Ht) (v & Hv & Hg & Hd & Hr & Hp & He). unfold processResponse. rewrite F1, F2. cbn [orb].
  rewrite Hg. destruct (Z.eqb_spec (rs_messageType m) EXCEPTION_MESSAGE_TYPE); [done|].
  unfold notify. rewrite (get_invocation_ok s i v Hv), res_bind_ok, Hr.
  destruct (wf_registered s (ib_wf _ _ Hi) _ _ Hg) as (v0 & Hv0 & Hc). assert (v0 = v) as -> by congruence.
  destruct (Z.ltb_spec acks (rs_backupAcks m)) as [Hlt|Hge]; [|by eapply settle_awaiting].
  eexists. split_and!; [done | | intros j Hj; cbn; by rewrite lookup_alter_ne].
  exists (set_pending_response now m v). cbn. rewrite lookup_alter_eq, Hv. split; [done|].
  destruct (Z.leb_spec (rs_backupAcks m) acks); [lia|]. split_and!; done.
Qed.

Definition acks_in (l : list arrival) : Z := Z.of_nat (length (filter (eq Ack) l)).
Definition primaries_in (l : list arrival) : nat := length (filter (eq Primary) l).

Lemma primaries_cons a l : primaries_in (a :: l) = (match a with Primary => 1 | Ack => 0 end + primaries_in l)%nat.
Proof. unfold primaries_in. by destruct a. Qed.

Lemma acks_cons a l : acks_in (a :: l) = match a with Primary => 0 | Ack => 1 end + acks_in l.
Proof. unfold acks_in. destruct a; [done|]. rewrite filter_cons_True by done. cbn [length]. lia. Qed.

Lemma deliver_awaiting now rnd m i l : plain_response m -> forall s acks resp,
  inv s -> closed s -> awaiting m i acks resp s -> (primaries_in l + (if resp then 1 else 0) <= 1)%nat ->
  exists s', deliver_all now rnd m s l = Ok s' /\ inv s' /\
    awaiting m i (acks + acks_in l) (resp || bool_decide (Primary ∈ l)) s' /\
    (forall j, j <> i -> invocations s' !! j = invocations s !! j).
Proof.
  intros Hm. induction l as [|a l IH]; intros s acks resp Hi Hc Ha Hone.
  - exists s. unfold acks_in. cbn. rewrite Z.add_0_r, orb_false_r. split_and!; done.
  - cbn [deliver_all].
    assert (exists s1, deliver now rnd m s a = Ok s1 /\ inv s1 /\ closed s1 /\
      awaiting m i (acks + acks_in [a]) (resp || bool_decide (a = Primary)) s1 /\
      (forall j, j <> i -> invocations s1 !! j = invocations s !! j)) as (s1 & E1 & Hi1 & Hc1 & Ha1 & Ho1).
    { destruct a; cbn [deliver].
      - assert (resp = false) as -> by (destruct resp; [rewrite primaries_cons in Hone; cbn in Hone; lia | done]).
        destruct (primary_awaiting now rnd s i m acks Hi Hm Ha) as (s1 & E & Ha' & Ho).
        destruct (exec_ok now rnd (OpResponse m) s Hi Hc I ltac:(done)) as (s1' & E' & Hi' & Hc' & _). cbn in E'. rewrite E in E'.
        injection E' as <-. exists s1. change (acks_in [Primary]) with 0. rewrite Z.add_0_r. split_and!; done.
      - destruct (ack_awaiting s i m acks resp Hi Ha) as (s1 & E & Ha' & Ho).
        destruct (exec_ok now rnd (OpBackupEvent (rs_correlationId m)) s Hi Hc I ltac:(done)) as (s1' & E' & Hi' & Hc' & _). cbn in E'.
        rewrite E in E'. injection E' as <-. exists s1. change (acks_in [Ack]) with 1. cbn. rewrite orb_false_r. split_and!; done. }
    rewrite E1, res_bind_ok.
    destruct (IH s1 _ _ Hi1 Hc1 Ha1) as (s' & E' & Hi' & Ha' & Ho').
    { rewrite primaries_cons in Hone. destruct a, resp; cbn [orb bool_decide decide_rel arrival_eq_dec decide] in *;
        try (rewrite bool_decide_eq_true_2 by done); try (rewrite bool_decide_eq_false_2 by done); lia. }
    exists s'. split_and!; [done | done | | intros j Hj; by rewrite Ho', Ho1].
    replace (acks + acks_in (a :: l)) with (acks + acks_in [a] + acks_in l) by (rewrite (acks_cons a l), (acks_cons a []); unfold acks_in; cbn; lia).
    replace (resp || bool_decide (Primary ∈ a :: l)) with (resp || bool_decide (a = Primary) || bool_decide (Primary ∈ l)); [done|].
    rewrite <- orb_assoc. f_equal. rewrite <- bool_decide_or. apply bool_decide_ext. rewrite elem_of_cons. naive_solver.
Qed.

(** C29: a response waits for the backups it announces, and for no more: whatever the order in which the
    response of the partition owner and the acknowledgements of the backups arrive, the
    promise of the invocation is resolved with the response exactly when the response and at
    least as many acknowledgements as it announces have arrived; until then the invocation stays
    pending, and no other invocation is affected. *)
Theorem backups_awaited c s i v m l now rnd :
  reach c s -> plain_response m -> js_map_get Z.eqb (pending s) (rs_correlationId m) = Some i ->
  invocations s !! i = Some v -> deferred v = Pending -> backupsAcksReceived v = 0 ->
  pendingResponseMessage v = None -> (primaries_in l <= 1)%nat ->
  exists s' v', deliver_all now rnd m s l = Ok s' /\ invocations s' !! i = Some v' /\
    (forall j, j <> i -> invocations s' !! j = invocations s !! j) /\
    if bool_decide (Primary ∈ l) && (rs_backupAcks m <=? acks_in l)
    then deferred v' = Resolved m /\ js_map_get Z.eqb (pending s') (rs_correlationId m) = None
    else deferred v' = Pending /\ js_map_get Z.eqb (pending s') (rs_correlationId m) = Some i.
Proof.
  intros Hr Hm Hg Hv Hd Hb Hp Hl. destruct (reach_inv c s Hr) as (Hi & Hc & _).
  destruct (deliver_awaiting now rnd m i l Hm s 0 false Hi Hc) as (s' & E & _ & (v' & Hv' & Ha) & Ho).
  - exists v. split_and!; done.
  - lia.
  - exists s', v'. split_and!; [done..|]. cbn [orb] in Ha. rewrite Z.add_0_l in Ha.
    destruct (bool_decide (Primary ∈ l) && (rs_backupAcks m <=? acks_in l)); [done|]. by destruct Ha as (? & ? & _).
Qed.
End Invariants.

(** ** Witnesses *)

Definition demo_invocation_config : InvocationConfig := mkInvocationConfig true 120000 false 5000 true false.
Definition demo_request : Request := mkRequest 0 0 0 true.
Definition demo_service : InvocationService Int64.t (RoundRobinLB Int64.t) :=
  newInvocationService demo_invocation_config demo_registry newPartitionService (fun _ => true) (fun _ => false).
Definition demo_random (n : nat) : nat := 0%nat.
Definition demo_invocation : Invocation Int64.t := newInvocation demo_invocation_config 1000 demo_request None.

(** The service after one invocation on any member. *)
Definition demo_invoked : InvocationService Int64.t (RoundRobinLB Int64.t) :=
  match invoke 1000 demo_random demo_service 0 demo_invocation with Ok s => s | Err _ => demo_service end.

Lemma demo_invoked_reach : reach demo_invocation_config demo_invoked.
Proof.
  assert (demo_invoked = with_thrown demo_invoked false) as -> by (vm_compute; reflexivity).
  apply (reach_step _ 1000 demo_random (OpInvoke 0 demo_invocation) demo_service demo_invoked).
  - apply reach_new.
  - repeat split; discriminate || reflexivity.
  - vm_compute. reflexivity.
Qed.

Lemma no_invocation_lost_witness :
  exists s', exec 1000 demo_random (OpInvoke 0 demo_invocation) demo_service = Ok s' /\
    later demo_service s'.
Proof.
  destruct (no_invocation_lost demo_invocation_config demo_service 1000 demo_random (OpInvoke 0 demo_invocation))
    as (s' & E & Hl & _).
  - apply reach_new.
  - repeat split; discriminate || reflexivity.
  - exists s'. split; [exact E | exact Hl].
Defined.

Lemma shutdown_settles_all_witness :
  exists s', shutdown 2000 demo_random demo_invoked = Ok s' /\ pending s' = [] /\
    length (pending demo_invoked) = 1%nat.
Proof.
  destruct (shutdown_settles_all demo_invocation_config demo_invoked 2000 demo_random demo_invoked_reach) as [_ Hs].
  destruct Hs as (s' & E & _ & _ & Hp & _).
  - reflexivity.
  - exists s'. split; [exact E | split; [exact Hp | reflexivity]].
Defined.

(** A response that announces one backup, between two acknowledgements. *)
Definition demo_response : Response := mkResponse 1 0 1 1 [].

Lemma backups_awaited_witness :
  exists s' v', deliver_all 3000 demo_random demo_response demo_invoked [Primary; Ack] = Ok s' /\
    invocations s' !! 0%nat = Some v' /\ deferred v' = Resolved demo_response.
Proof.
  destruct (invocations demo_invoked !! 0%nat) as [v|] eqn:Ev; [|vm_compute in Ev; discriminate Ev].
  destruct (backups_awaited demo_invocation_config demo_invoked 0 v demo_response [Primary; Ack] 3000 demo_random)
    as (s' & v' & E & Ev' & _ & Hd).
  - exact demo_invoked_reach.
  - split; [reflexivity | split; [reflexivity | discriminate]].
  - reflexivity.
  - exact Ev.
  - vm_compute in Ev. injection Ev as <-. reflexivity.
  - vm_compute in Ev. injection Ev as <-. reflexivity.
  - vm_compute in Ev. injection Ev as <-. reflexivity.
  - apply Nat.leb_le. reflexivity.
  - exists s', v'. split; [exact E | split; [exact Ev' | exact (proj1 Hd)]].
Defined.

(** ** Repeated retries *)

(** [n] writes that fail. *)
Fixpoint failing_writes (n : nat) (s : InvocationService Int64.t (RoundRobinLB Int64.t))
    : res (InvocationService Int64.t (RoundRobinLB Int64.t)) :=
  match n with
  | O => Ok s
  | S n => s ← run_task 1000 demo_random 0 (Some (Some Err.IOError)) s; failing_writes n s
  end.

(** Eight writes of an invocation fail, its fifth attempt is written, and the connections are closed. *)
Definition demo_closed : res (InvocationService Int64.t (RoundRobinLB Int64.t)) :=
  s ← failing_writes 8 demo_invoked; s ← run_task 1000 demo_random 0 None s;
  exec 1000 demo_random (OpEnvironment demo_registry newPartitionService true (fun _ => false) (fun _ => false)) s.

(** Two runs of the periodic task, then the two timers they start. *)
Definition two_cleanings : res (InvocationService Int64.t (RoundRobinLB Int64.t)) :=
  s ← demo_closed; s ← cleanResources 2000 demo_random s; cleanResources 2100 demo_random s.

Definition repeated_retries : res (InvocationService Int64.t (RoundRobinLB Int64.t)) :=
  s ← two_cleanings; s ← run_task 3000 demo_random 0 None s; run_task 3100 demo_random 0 None s.

(** An invocation that waits for its retry timer stays pending with the closed connection it was
    written to, so every run of the periodic task starts another timer, and each timer sends
    the request again. *)
Lemma request_sent_twice :
  (tasks <$> demo_closed) = Ok [] /\ (tasks <$> two_cleanings) = Ok [RetryTask 0; RetryTask 0] /\
  (tasks <$> repeated_retries) = Ok [WriteTask 0 7 RandomThenNotify; WriteTask 0 7 RandomThenNotify].
Proof. split_and!; vm_compute; reflexivity. Qed.

(** ** A write that never ends *)

(** The periodic task skips an invocation whose write has not ended: when the writer of a closed connection
    has forgotten the message, nothing settles the invocation, however late it is and although
    the connection is dead. *)
Lemma unwritten_never_cleaned (now : Z) :
  let s := mkService (config demo_invoked) (invocations demo_invoked) (eventHandlers demo_invoked) (pending demo_invoked)
             (correlationCounter demo_invoked) (isShutdown demo_invoked) (tasks demo_invoked) (handled demo_invoked)
             (connectionRegistry demo_invoked) (partitionService demo_invoked) (running demo_invoked) (fun _ => false) (fun _ => true) false in
  cleanResources now demo_random s = Ok s /\ tasks s = [WriteTask 0 7 RandomThenNotify] /\
  (deferred <$> invocations s !! 0%nat) = Some Pending.
Proof. split_and!; reflexivity. Qed.

(** ** A write to a closed connection *)

(** The service when the connection 7 is closed, its queue frozen. *)
Definition closed_service : InvocationService Int64.t (RoundRobinLB Int64.t) :=
  newInvocationService demo_invocation_config demo_registry newPartitionService (fun c => negb (c =? 7)%nat) (fun c => (c =? 7)%nat).

(** The invocation bound to it throws, after it was registered: its promise is pending, no callback
    is outstanding, and the periodic task never settles it. *)
Lemma closed_connection_throws (now : Z) :
  exists s, invokeOnConnection 1000 demo_random closed_service 0 (Some 7%nat) demo_request false = Ok s /\ thrown s = true /\
    (deferred <$> invocations s !! 0%nat) = Some Pending /\ js_map_get Z.eqb (pending s) 1 = Some 0%nat /\ tasks s = [] /\
    cleanResources now demo_random (with_thrown s false) = Ok (with_thrown s false).
Proof. eexists. split; [vm_compute; reflexivity|]. split_and!; reflexivity. Qed.
