(* ===== verification/DataStoreHashMap.v ===== *)
(** * The hash map of the near cache (src/src/nearcache/DataStoreHashMap.ts)

    [DataKeyedHashMap] keeps buckets of records by the hash of the key and compares
    keys with [Data.equals]. It implements a finite map keyed by the data bytes of the
    keys, what [equals] looks at: the refinement is to [gmap buffer T]. *)

From S2P Require Export Prelude NodeBuffer HeapData.

Section HashMap.
Context {T : Type}.

Record InternalRecord := mkInternalRecord { ir_key : HeapData; ir_value : T }.

Record DataKeyedHashMap := mkDataKeyedHashMap {
  hm_size : Z;
  internalStore : js_map Z (list InternalRecord)
}.

Definition newDataKeyedHashMap : DataKeyedHashMap := mkDataKeyedHashMap 0 [].

Definition hm_clear (m : DataKeyedHashMap) : DataKeyedHashMap := mkDataKeyedHashMap 0 [].

(** [bucket.findIndex(item => item.key.equals(key))], from index [i]; [None] is -1. *)
Fixpoint find_index (bucket : list InternalRecord) (key : HeapData) (i : nat) : res (option nat) :=
  match bucket with
  | [] => Ok None
  | item :: bucket =>
      e ← equals (ir_key item) key;
      if e : bool then Ok (Some i) else find_index bucket key (S i)
  end.

Definition findIndexInBucket (m : DataKeyedHashMap) (key : HeapData) : res (option nat) :=
  keyHash ← hashCode key;
  match js_map_get Z.eqb (internalStore m) keyHash with
  | None => Ok None
  | Some bucket => find_index bucket key 0
  end.

(** The bucket, and the store with the bucket in it. *)
Definition getOrCreateBucket (m : DataKeyedHashMap) (key : Z)
    : list InternalRecord * js_map Z (list InternalRecord) :=
  match js_map_get Z.eqb (internalStore m) key with
  | Some bucket => (bucket, internalStore m)
  | None => ([], js_map_set Z.eqb (internalStore m) key [])
  end.

(** Changing the bucket in place. *)
Definition update_bucket (m : DataKeyedHashMap) (size : Z) (key : Z)
    (f : list InternalRecord -> list InternalRecord) : DataKeyedHashMap :=
  let '(bucket, store) := getOrCreateBucket m key in
  mkDataKeyedHashMap size (js_map_set Z.eqb store key (f bucket)).

Definition hm_delete (m : DataKeyedHashMap) (key : HeapData) : res (bool * DataKeyedHashMap) :=
  existingIndex ← findIndexInBucket m key;
  match existingIndex with
  | None => Ok (false, m)
  | Some i =>
      keyHash ← hashCode key;
      Ok (true, update_bucket m (hm_size m - 1) keyHash (fun b => take i b ++ drop (S i) b))
  end.

Definition hm_has (m : DataKeyedHashMap) (key : HeapData) : res bool :=
  existingIndex ← findIndexInBucket m key;
  Ok (match existingIndex with Some _ => true | None => false end).

Definition hm_get (m : DataKeyedHashMap) (key : HeapData) : res (option T) :=
  keyHash ← hashCode key;
  existingIndex ← findIndexInBucket m key;
  match existingIndex with
  | Some i =>
      match (getOrCreateBucket m keyHash).1 !! i with
      | Some item => Ok (Some (ir_value item))
      | None => Err TypeError
      end
  | None => Ok None
  end.

Definition hm_set (m : DataKeyedHashMap) (key : HeapData) (value : T) : res DataKeyedHashMap :=
  keyHash ← hashCode key;
  existingIndex ← findIndexInBucket m key;
  match existingIndex with
  | Some i =>
      Ok (update_bucket m (hm_size m) keyHash
            (alter (fun item => mkInternalRecord (ir_key item) value) i))
  | None => Ok (update_bucket m (hm_size m + 1) keyHash (fun b => b ++ [mkInternalRecord key value]))
  end.

Definition hm_entries (m : DataKeyedHashMap) : list (HeapData * T) :=
  concat (map (fun b => map (fun item => (ir_key item, ir_value item)) b.2) (internalStore m)).
Definition hm_values (m : DataKeyedHashMap) : list T :=
  concat (map (fun b => map ir_value b.2) (internalStore m)).
End HashMap.
Arguments InternalRecord : clear implicits.
Arguments DataKeyedHashMap : clear implicits.

(** ** The finite map it implements *)

Section Refinement.
Context {T : Type}.
Implicit Types (m : DataKeyedHashMap T) (b : list (InternalRecord T)).

(** The bytes a key stands for. *)
Definition key_bytes (k : HeapData) : buffer := match data_key k with Some d => d | None => [] end.

Definition item_entry (i : InternalRecord T) : buffer * T := (key_bytes (ir_key i), ir_value i).

Definition items_of m : list (InternalRecord T) := concat (map snd (internalStore m)).

Definition abs m : gmap buffer T := list_to_map (map item_entry (items_of m)).

(** A bucket holds keys with its hash, each with data, and no data twice. *)
Record bucket_ok (h : Z) b : Prop := {
  bucket_hash : Forall (fun i => exists d, data_key (ir_key i) = Some d /\ murmur d = h) b;
  bucket_nodup : NoDup (map (fun i => key_bytes (ir_key i)) b)
}.

Record hm_wf m : Prop := {
  wf_buckets : Forall (fun e => bucket_ok e.1 e.2) (internalStore m);
  wf_hashes : NoDup (map fst (internalStore m));
  wf_size : hm_size m = Z.of_nat (length (items_of m))
}.

(** A key whose payload is not null. *)
Definition key_ok (k : HeapData) (d : buffer) : Prop := data_key k = Some d.

Lemma store_split (store : js_map Z (list (InternalRecord T))) h :
  match js_map_get Z.eqb store h with
  | Some b => exists l1 l2, store = l1 ++ (h, b) :: l2 /\ (h ∉ l1.*1) /\
      forall b', js_map_set Z.eqb store h b' = l1 ++ (h, b') :: l2
  | None => (h ∉ store.*1) /\ forall b', js_map_set Z.eqb store h b' = store ++ [(h, b')]
  end.
Proof.
  induction store as [|[h' c] store IH]; cbn [js_map_get js_map_set].
  { split; [apply not_elem_of_nil | done]. }
  destruct (Z.eqb_spec h' h) as [->|Hne].
  - exists [], store. split; [done|]. split; [apply not_elem_of_nil | done].
  - destruct (js_map_get Z.eqb store h) as [b|].
    + destruct IH as (l1 & l2 & -> & Hn & Hs). exists ((h', c) :: l1), l2.
      split; [done|]. split; [by apply not_elem_of_cons|]. intros b'. by rewrite Hs.
    + destruct IH as [Hn Hs]. split; [by apply not_elem_of_cons|]. intros b'. by rewrite Hs.
Qed.

Definition stored (l : js_map Z (list (InternalRecord T))) : list (InternalRecord T) := concat (map snd l).

(** The bucket [b] of the hash [h], present or about to be created, and the rest of the store. *)
Record located m (h : Z) (l1 : js_map Z (list (InternalRecord T))) b
    (l2 : js_map Z (list (InternalRecord T))) : Prop := {
  loc_bucket : (getOrCreateBucket m h).1 = b;
  loc_items : items_of m = stored l1 ++ b ++ stored l2;
  loc_update n f : update_bucket m n h f = mkDataKeyedHashMap n (l1 ++ (h, f b) :: l2);
  loc_find k : hashCode k = Ok h -> findIndexInBucket m k = find_index b k 0;
  loc_ok : bucket_ok h b;
  loc_others : Forall (fun e => bucket_ok e.1 e.2) (l1 ++ l2);
  loc_nodup : NoDup (l1 ++ l2).*1;
  loc_fresh : h ∉ (l1 ++ l2).*1
}.

Lemma locate m h : hm_wf m -> exists l1 b l2, located m h l1 b l2.
Proof.
  intros [Hb Hh _]. pose proof (store_split (internalStore m) h) as Hs.
  change (map fst (internalStore m)) with (internalStore m).*1 in Hh.
  destruct (js_map_get Z.eqb (internalStore m) h) as [b|] eqn:Eg.
  - destruct Hs as (l1 & l2 & E & Hn & Hs). exists l1, b, l2.
    split; unfold update_bucket, getOrCreateBucket, findIndexInBucket; rewrite ?Eg.
    + done.
    + unfold items_of, stored. by rewrite E, map_app, concat_app.
    + intros n f. by rewrite Hs.
    + intros k ->. cbn. by rewrite Eg.
    + rewrite E in Hb. by apply Forall_app in Hb as [_ [? _]%Forall_cons].
    + rewrite E in Hb. apply Forall_app in Hb as [? [_ ?]%Forall_cons]. by apply Forall_app.
    + rewrite E, fmap_app, fmap_cons, <- Permutation_middle in Hh. rewrite fmap_app.
      by apply NoDup_cons in Hh as [_ ?].
    + rewrite E, fmap_app, fmap_cons, <- Permutation_middle in Hh. rewrite fmap_app.
      by apply NoDup_cons in Hh as [? _].
  - destruct Hs as [Hn Hs]. exists (internalStore m), [], [].
    split; unfold update_bucket, getOrCreateBucket, findIndexInBucket; rewrite ?Eg, ?app_nil_r; try done.
    + intros n f. f_equal. rewrite Hs. clear -Hn. induction (internalStore m) as [|[h' c] l IH]; cbn in *.
      * by rewrite Z.eqb_refl.
      * apply not_elem_of_cons in Hn as [Hne Hn]. destruct (Z.eqb_spec h' h) as [->|]; [done|].
        by rewrite IH.
    + intros k ->. cbn. by rewrite Eg.
    + split; constructor.
Qed.

Lemma key_bytes_ok k d : key_ok k d -> key_bytes k = d.
Proof. unfold key_ok, key_bytes. by intros ->. Qed.

Lemma bucket_key h b i : bucket_ok h b -> i ∈ b ->
  data_key (ir_key i) = Some (key_bytes (ir_key i)) /\ murmur (key_bytes (ir_key i)) = h.
Proof.
  intros [Hb _] Hi. rewrite Forall_forall in Hb. destruct (Hb i Hi) as (d & Hd & Hm).
  unfold key_bytes. by rewrite Hd.
Qed.

(** [findIndex] finds the record with the data of the key, if there is one. *)
Lemma find_index_ok h b k d : forall i,
  Forall (fun i => exists d, data_key (ir_key i) = Some d /\ murmur d = h) b -> key_ok k d ->
  (exists b1 it b2, b = b1 ++ it :: b2 /\ key_bytes (ir_key it) = d /\
     find_index b k i = Ok (Some (i + length b1)%nat)) \/
  (find_index b k i = Ok None /\ (d ∉ map (fun i => key_bytes (ir_key i)) b)).
Proof.
  induction b as [|it b IH]; intros i Hb Hk.
  { right. split; [done | apply not_elem_of_nil]. }
  apply Forall_cons in Hb as [(d' & Hd' & _) Hb]. cbn [find_index].
  rewrite equals_spec, Hd'. pose proof Hk as Hk'. unfold key_ok in Hk'. rewrite Hk', res_bind_ok.
  case_bool_decide as Hc.
  - left. exists [], it, b. subst d'. cbn [length]. rewrite Nat.add_0_r.
    split_and!; [done | by apply key_bytes_ok | done].
  - destruct (IH (S i) Hb Hk) as [(b1 & it' & b2 & -> & Hd & E)|[E Hn]].
    + left. exists (it :: b1), it', b2. split_and!; [done | done |]. rewrite E. cbn. by rewrite Nat.add_succ_r.
    + right. split; [done|]. cbn. apply not_elem_of_cons. split; [|done].
      unfold key_bytes. rewrite Hd'. congruence.
Qed.

Lemma stored_app l1 l2 : stored (l1 ++ l2) = stored l1 ++ stored l2.
Proof. unfold stored. by rewrite map_app, concat_app. Qed.

(** A record of another bucket has another hash. *)
Lemma stored_hash l i : Forall (fun e => bucket_ok e.1 e.2) l -> i ∈ stored l ->
  murmur (key_bytes (ir_key i)) ∈ l.*1.
Proof.
  induction 1 as [|[h b] l Hb _ IH]; unfold stored; cbn; [by intros ?%not_elem_of_nil|].
  intros [Hi|Hi]%elem_of_app.
  - destruct (bucket_key h b i Hb Hi) as [_ ->]. left.
  - right. by apply IH.
Qed.

Definition item_keys (l : list (InternalRecord T)) : list buffer := map (fun i => key_bytes (ir_key i)) l.

Lemma item_keys_app l k : item_keys (l ++ k) = item_keys l ++ item_keys k.
Proof. apply map_app. Qed.

Lemma elem_item_keys d l : d ∈ item_keys l <-> exists i, i ∈ l /\ key_bytes (ir_key i) = d.
Proof.
  unfold item_keys. rewrite (list_elem_of_fmap (fun i => key_bytes (ir_key i)) l d). naive_solver.
Qed.

Lemma stored_nodup l :
  Forall (fun e => bucket_ok e.1 e.2) l -> NoDup l.*1 -> NoDup (item_keys (stored l)).
Proof.
  induction 1 as [|[h b] l Hb Hl IH]; cbn; [constructor|]. intros [Hn Hd]%NoDup_cons.
  unfold stored. cbn. rewrite item_keys_app. apply NoDup_app. split_and!.
  - apply Hb.
  - intros d (i & Hi & <-)%elem_item_keys (j & Hj & E)%elem_item_keys.
    apply Hn. pose proof (stored_hash l j Hl Hj) as Hs. rewrite E in Hs.
    by destruct (bucket_key h b i Hb Hi) as [_ <-].
  - by apply IH.
Qed.

(** The map of a list of records, and its changes. *)
Definition to_map (l : list (InternalRecord T)) : gmap buffer T := list_to_map (map item_entry l).

Lemma item_entry_keys l : (map item_entry l).*1 = item_keys l.
Proof. induction l as [|i l IH]; cbn; [done|]. by f_equal. Qed.

Lemma to_map_perm l k : l ≡ₚ k -> NoDup (item_keys l) -> to_map l = to_map k.
Proof.
  intros Hp Hn. unfold to_map. apply list_to_map_proper; [by rewrite item_entry_keys|].
  by apply (fmap_Permutation item_entry).
Qed.

Lemma to_map_cons i l : to_map (i :: l) = <[key_bytes (ir_key i) := ir_value i]> (to_map l).
Proof. done. Qed.

Lemma to_map_None l d : (d ∉ item_keys l) -> to_map l !! d = None.
Proof. intros Hn. apply not_elem_of_list_to_map_1. by rewrite item_entry_keys. Qed.

Lemma to_map_size l : NoDup (item_keys l) -> Z.of_nat (size (to_map l)) = Z.of_nat (length l).
Proof.
  induction l as [|i l IH]; intros Hn; [done|]. apply NoDup_cons in Hn as [Hi Hn]. specialize (IH Hn).
  rewrite to_map_cons, map_size_insert_None by (by apply to_map_None). cbn [length]. lia.
Qed.

(** ** Operations *)

Lemma located_wf m h l1 b l2 n b' :
  located m h l1 b l2 -> bucket_ok h b' ->
  n = Z.of_nat (length (stored l1 ++ b' ++ stored l2)) ->
  hm_wf (mkDataKeyedHashMap n (l1 ++ (h, b') :: l2)) /\
  items_of (mkDataKeyedHashMap n (l1 ++ (h, b') :: l2)) = stored l1 ++ b' ++ stored l2.
Proof.
  intros [_ _ _ _ _ Ho Hn Hf] Hb Hsz.
  assert (items_of (mkDataKeyedHashMap n (l1 ++ (h, b') :: l2)) = stored l1 ++ b' ++ stored l2) as E.
  { unfold items_of, stored. cbn. by rewrite map_app, concat_app. }
  split; [|done]. apply Forall_app in Ho as [? ?]. rewrite fmap_app in Hn, Hf.
  split; cbn [internalStore hm_size].
  - apply Forall_app. by split; [|apply Forall_cons].
  - change (map fst ?x) with x.*1. rewrite fmap_app, fmap_cons, <- Permutation_middle. by apply NoDup_cons.
  - by rewrite E.
Qed.

Lemma items_nodup m : hm_wf m -> NoDup (item_keys (items_of m)).
Proof. intros [Hb Hh _]. by apply stored_nodup. Qed.

Lemma abs_size m : hm_wf m -> hm_size m = Z.of_nat (size (abs m)).
Proof. intros Hw. rewrite (wf_size m Hw). symmetry. by apply to_map_size, items_nodup. Qed.

Lemma stored_other_key m h l1 b l2 d :
  located m h l1 b l2 -> murmur d = h -> d ∉ item_keys (stored l1 ++ stored l2).
Proof.
  intros Hl Hd (i & Hi & Hk)%elem_item_keys. apply (loc_fresh _ _ _ _ _ Hl). rewrite <- Hd, <- Hk.
  apply stored_hash; [apply Hl | by rewrite stored_app].
Qed.

Lemma hash_ok k d : key_ok k d -> hashCode k = Ok (murmur d).
Proof. unfold key_ok. rewrite hashCode_spec. by intros ->. Qed.

(** The record of a key, if the map has one. *)
Lemma lookup_cases m k d :
  hm_wf m -> key_ok k d -> exists l1 b l2,
    located m (murmur d) l1 b l2 /\
    ((exists b1 it b2, b = b1 ++ it :: b2 /\ key_bytes (ir_key it) = d /\
        findIndexInBucket m k = Ok (Some (length b1)) /\ abs m !! d = Some (ir_value it) /\
        abs m = <[d := ir_value it]> (to_map (stored l1 ++ b1 ++ b2 ++ stored l2)) /\
        to_map (stored l1 ++ b1 ++ b2 ++ stored l2) !! d = None) \/
     (findIndexInBucket m k = Ok None /\ abs m !! d = None /\ (d ∉ item_keys b))).
Proof.
  intros Hw Hk. destruct (locate m (murmur d) Hw) as (l1 & b & l2 & Hl). exists l1, b, l2. split; [done|].
  pose proof (items_nodup m Hw) as Hn. rewrite (loc_find _ _ _ _ _ Hl k (hash_ok k d Hk)).
  destruct (find_index_ok (murmur d) b k d 0 (bucket_hash _ _ (loc_ok _ _ _ _ _ Hl)) Hk)
    as [(b1 & it & b2 & -> & Hd & E)|[E Hnd]].
  - left. exists b1, it, b2.
    assert (items_of m ≡ₚ it :: stored l1 ++ b1 ++ b2 ++ stored l2) as Hp.
    { rewrite (loc_items _ _ _ _ _ Hl). solve_Permutation. }
    assert (abs m = <[d := ir_value it]> (to_map (stored l1 ++ b1 ++ b2 ++ stored l2))) as Ha.
    { unfold abs. fold (to_map (items_of m)). rewrite (to_map_perm _ _ Hp Hn), to_map_cons. by rewrite Hd. }
    split_and!; [done | done | done | by rewrite Ha, lookup_insert_eq | done |].
    apply to_map_None. unfold item_keys in Hn.
    rewrite (fmap_Permutation (fun i => key_bytes (ir_key i)) _ _ Hp) in Hn. cbn in Hn.
    rewrite Hd in Hn. by apply NoDup_cons in Hn as [? _].
  - right. split_and!; [done | | done]. apply to_map_None.
    rewrite (loc_items _ _ _ _ _ Hl), !item_keys_app, !not_elem_of_app.
    pose proof (stored_other_key m _ l1 b l2 d Hl eq_refl) as Ho.
    rewrite item_keys_app, not_elem_of_app in Ho. tauto.
Qed.

Lemma bucket_ok_keys h b b' :
  item_keys b ≡ₚ item_keys b' -> Forall (fun i => exists d, data_key (ir_key i) = Some d /\ murmur d = h) b' ->
  bucket_ok h b -> bucket_ok h b'.
Proof. intros Hp Hf [_ Hn]. split; [done|]. unfold item_keys in Hp. by rewrite <- Hp. Qed.

Lemma hm_get_ok m k d : hm_wf m -> key_ok k d -> hm_get m k = Ok (abs m !! d).
Proof.
  intros Hw Hk. unfold hm_get. rewrite (hash_ok k d Hk), res_bind_ok.
  destruct (lookup_cases m k d Hw Hk) as (l1 & b & l2 & Hl & [(b1 & it & b2 & -> & Hd & E & Ha & _)|(E & Ha & _)]);
    rewrite E, res_bind_ok, Ha; [|done].
  by rewrite (loc_bucket _ _ _ _ _ Hl), list_lookup_middle.
Qed.

Lemma hm_has_ok m k d : hm_wf m -> key_ok k d -> hm_has m k = Ok (bool_decide (is_Some (abs m !! d))).
Proof.
  intros Hw Hk. unfold hm_has.
  destruct (lookup_cases m k d Hw Hk) as (l1 & b & l2 & _ & [(b1 & it & b2 & _ & _ & E & Ha & _)|(E & Ha & _)]);
    by rewrite E, res_bind_ok, Ha.
Qed.

Lemma hm_set_ok m k d v : hm_wf m -> key_ok k d ->
  exists m', hm_set m k v = Ok m' /\ hm_wf m' /\ abs m' = <[d := v]> (abs m).
Proof.
  intros Hw Hk. unfold hm_set. rewrite (hash_ok k d Hk), res_bind_ok. pose proof (wf_size m Hw) as Hsz.
  destruct (lookup_cases m k d Hw Hk) as (l1 & b & l2 & Hl & [(b1 & it & b2 & -> & Hd & E & _ & Ha & _)|(E & Ha & Hn)]);
    rewrite E, res_bind_ok, (loc_update _ _ _ _ _ Hl); eexists; (split; [done|]);
    rewrite (loc_items _ _ _ _ _ Hl) in Hsz; pose proof (loc_ok _ _ _ _ _ Hl) as Hb.
  - set (it' := mkInternalRecord (ir_key it) v).
    assert (alter (fun item => mkInternalRecord (ir_key item) v) (length b1) (b1 ++ it :: b2) = b1 ++ it' :: b2) as ->
      by (rewrite alter_app_r_alt by done; by rewrite Nat.sub_diag).
    destruct (located_wf m (murmur d) l1 _ l2 (hm_size m) (b1 ++ it' :: b2) Hl) as [Hw' Hi].
    + eapply bucket_ok_keys; [|destruct Hb as [Hf _]; rewrite Forall_app, Forall_cons in Hf |- *; exact Hf|exact Hb].
      by rewrite !item_keys_app.
    + rewrite Hsz, !length_app. done.
    + split; [done|]. unfold abs. rewrite Hi. fold (to_map (stored l1 ++ (b1 ++ it' :: b2) ++ stored l2)).
      assert (stored l1 ++ (b1 ++ it' :: b2) ++ stored l2 ≡ₚ it' :: stored l1 ++ b1 ++ b2 ++ stored l2) as Hp
        by solve_Permutation.
      rewrite (to_map_perm _ _ Hp), to_map_cons by (rewrite <- Hi; by apply items_nodup).
      cbn [ir_key ir_value it']. rewrite Hd. fold (abs m). by rewrite Ha, insert_insert_eq.
  - set (it' := mkInternalRecord k v).
    destruct (located_wf m (murmur d) l1 b l2 (hm_size m + 1) (b ++ [it']) Hl) as [Hw' Hi].
    + destruct Hb as [Hf Hnd]. split.
      * apply Forall_app. split; [done|]. apply Forall_singleton. exists d. by split.
      * rewrite map_app. apply NoDup_app. split_and!; [done | | apply NoDup_singleton].
        intros x Hx ->%list_elem_of_singleton. cbn in Hx. rewrite (key_bytes_ok k d Hk) in Hx. done.
    + rewrite Hsz, !length_app. cbn. lia.
    + split; [done|]. unfold abs. rewrite Hi. fold (to_map (stored l1 ++ (b ++ [it']) ++ stored l2)).
      assert (stored l1 ++ (b ++ [it']) ++ stored l2 ≡ₚ it' :: stored l1 ++ b ++ stored l2) as Hp
        by solve_Permutation.
      rewrite (to_map_perm _ _ Hp), to_map_cons by (rewrite <- Hi; by apply items_nodup).
      cbn [ir_key ir_value it']. rewrite (key_bytes_ok k d Hk), <- (loc_items _ _ _ _ _ Hl). done.
Qed.

Lemma hm_delete_ok m k d : hm_wf m -> key_ok k d ->
  exists m', hm_delete m k = Ok (bool_decide (is_Some (abs m !! d)), m') /\ hm_wf m' /\
    abs m' = delete d (abs m).
Proof.
  intros Hw Hk. unfold hm_delete. pose proof (wf_size m Hw) as Hsz.
  destruct (lookup_cases m k d Hw Hk) as (l1 & b & l2 & Hl & [(b1 & it & b2 & -> & Hd & E & Hlk & Ha & Hno)|(E & Ha & Hn)]);
    rewrite E, res_bind_ok.
  - rewrite (hash_ok k d Hk), res_bind_ok, (loc_update _ _ _ _ _ Hl), Hlk. eexists. split; [done|].
    rewrite (loc_items _ _ _ _ _ Hl) in Hsz; pose proof (loc_ok _ _ _ _ _ Hl) as [Hf Hnd].
    assert (take (length b1) (b1 ++ it :: b2) ++ drop (S (length b1)) (b1 ++ it :: b2) = b1 ++ b2) as ->.
    { rewrite take_app_length. f_equal. change (it :: b2) with ([it] ++ b2). rewrite app_assoc.
      apply drop_app_length'. rewrite length_app. cbn. lia. }
    destruct (located_wf m (murmur d) l1 _ l2 (hm_size m - 1) (b1 ++ b2) Hl) as [Hw' Hi].
    + split.
      * rewrite Forall_app, Forall_cons in Hf. rewrite Forall_app. tauto.
      * rewrite map_app in Hnd |- *. cbn in Hnd. rewrite <- Permutation_middle in Hnd.
        by apply NoDup_cons in Hnd as [_ ?].
    + rewrite Hsz, !length_app. cbn. lia.
    + split; [done|]. unfold abs. rewrite Hi. rewrite <- app_assoc. fold (abs m).
      rewrite Ha, delete_insert_id by done. done.
  - rewrite Ha. exists m. split; [done|]. split; [done|]. by rewrite delete_id.
Qed.

Lemma hm_values_ok m : hm_wf m -> hm_values m ≡ₚ (map_to_list (abs m)).*2.
Proof.
  intros Hw. pose proof (items_nodup m Hw) as Hn.
  assert (hm_values m = (map item_entry (items_of m)).*2) as ->.
  { unfold hm_values, items_of. induction (internalStore m) as [|[h b] l IH]; [done|]. cbn [map concat snd].
    rewrite map_app, fmap_app, IH. f_equal. clear. induction b; cbn; [done|]. by f_equal. }
  unfold abs. rewrite map_to_list_to_map by (by rewrite item_entry_keys). done.
Qed.

Lemma hm_new_ok : hm_wf (newDataKeyedHashMap (T := T)) /\ abs (newDataKeyedHashMap (T := T)) = ∅.
Proof. split; [|done]. split; [constructor | constructor | done]. Qed.

(** C37: the hash map of the near cache is a finite map keyed by the data bytes of
    the keys: [get], [has], [set], [delete] and [size] agree with the lookup, insertion, deletion
    and size of that map (so keys with colliding hashes are kept apart, and a key found is the
    key that was set), [values] lists its values, and every operation keeps the bucket
    invariant. A key without a payload is refused. *)
Theorem hash_map_refines_map (m : DataKeyedHashMap T) (k : HeapData) (d : buffer) (v : T) :
  hm_wf m -> key_ok k d ->
  hm_get m k = Ok (abs m !! d) /\
  hm_has m k = Ok (bool_decide (is_Some (abs m !! d))) /\
  hm_size m = Z.of_nat (size (abs m)) /\
  hm_values m ≡ₚ (map_to_list (abs m)).*2 /\
  (exists m', hm_set m k v = Ok m' /\ hm_wf m' /\ abs m' = <[d := v]> (abs m)) /\
  (exists m', hm_delete m k = Ok (bool_decide (is_Some (abs m !! d)), m') /\ hm_wf m' /\
     abs m' = delete d (abs m)) /\
  (hm_wf (hm_clear m) /\ abs (hm_clear m) = ∅) /\
  hm_get m (mkHeapData None) = Err TypeError.
Proof.
  intros Hw Hk. split_and!; [by apply hm_get_ok | by apply hm_has_ok | by apply abs_size | by apply hm_values_ok |
    by apply hm_set_ok | by apply hm_delete_ok | apply hm_new_ok | apply hm_new_ok | done].
Qed.
End Refinement.

Definition demo_key (n : nat) : HeapData := mkHeapData (Some (replicate 8 Byte.x00 ++ replicate n Byte.x41)).

Lemma hash_map_refines_map_witness :
  exists m', hm_set (newDataKeyedHashMap (T := Z)) (demo_key 3) 42 = Ok m' /\
    hm_get (newDataKeyedHashMap (T := Z)) (demo_key 3) = Ok None.
Proof.
  destruct (hash_map_refines_map (newDataKeyedHashMap (T := Z)) (demo_key 3) (replicate 3 Byte.x41) 42)
    as (G & _ & _ & _ & (m' & E & _) & _).
  - apply hm_new_ok.
  - reflexivity.
  - exists m'. split; [exact E | exact G].
Defined.
