(* ===== verification/InvalidationMetadata.v ===== *)
(** * Invalidation metadata of the near cache

    [src/src/nearcache/MetadataContainer.ts], the metadata side of
    [RepairingHandler.ts], the anti-entropy pass of [RepairingTask.ts] and the
    responses of [MetadataFetcher.ts]. Per partition a container keeps the sequence
    of the last invalidation seen, the sequence up to which cached records are known to be
    stale, and how many invalidations were missed. *)

From S2P Require Export Prelude LongNum.

Section Metadata.
Context {L : Type} `{LongLib L}.

Record MetadataContainer := mkMetadataContainer {
  sequence : L;
  staleSequence : L;
  missedSequenceCount : L;
  uuid : option (UUID L)
}.

Definition newMetadataContainer : MetadataContainer :=
  mkMetadataContainer (long_of_Z 0) (long_of_Z 0) (long_of_Z 0) None.

Definition mc_reset (c : MetadataContainer) : MetadataContainer :=
  mkMetadataContainer (long_of_Z 0) (long_of_Z 0) (long_of_Z 0) (uuid c).
Definition setSequence (s : L) (c : MetadataContainer) : MetadataContainer :=
  mkMetadataContainer s (staleSequence c) (missedSequenceCount c) (uuid c).
Definition setStaleSequence (s : L) (c : MetadataContainer) : MetadataContainer :=
  mkMetadataContainer (sequence c) s (missedSequenceCount c) (uuid c).
Definition increaseMissedSequenceCount (missed : L) (c : MetadataContainer) : MetadataContainer :=
  mkMetadataContainer (sequence c) (staleSequence c) (long_add (missedSequenceCount c) missed) (uuid c).
Definition setUuid (u : option (UUID L)) (c : MetadataContainer) : MetadataContainer :=
  mkMetadataContainer (sequence c) (staleSequence c) (missedSequenceCount c) u.

(** ** RepairingHandler: containers by partition id *)

(** [containers[partitionId]], which is [undefined] out of range; every caller calls a method
    on it. *)
Definition getMetadataContainer (cs : list MetadataContainer) (partitionId : Z) : res MetadataContainer :=
  if partitionId <? 0 then Err TypeError
  else match cs !! Z.to_nat partitionId with Some c => Ok c | None => Err TypeError end.

Definition on_container (cs : list MetadataContainer) (partitionId : Z)
    (f : MetadataContainer -> MetadataContainer) : res (list MetadataContainer) :=
  c ← getMetadataContainer cs partitionId;
  Ok (<[Z.to_nat partitionId := f c]> cs).

Definition newContainers (partitionCount : nat) : list MetadataContainer :=
  replicate partitionCount newMetadataContainer.

(** A loop over pairs that stops at the first error, with the containers it leaves. *)
Fixpoint each_pair {A} (f : list MetadataContainer -> Z -> A -> res (list MetadataContainer))
    (cs : list MetadataContainer) (l : list (Z * A)) : list MetadataContainer * option js_error :=
  match l with
  | [] => (cs, None)
  | (p, a) :: l =>
      match f cs p a with
      | Ok cs => each_pair f cs l
      | Err e => (cs, Some e)
      end
  end.

Definition initUuid (cs : list MetadataContainer) (l : list (Z * option (UUID L))) :=
  each_pair (fun cs p u => on_container cs p (setUuid u)) cs l.
Definition initSequence (cs : list MetadataContainer) (l : string * list (Z * L)) :=
  each_pair (fun cs p s => on_container cs p (setSequence s)) cs l.2.

(** What [checkOrRepairSequence] does to a container. *)
Definition repair_sequence (nextSequence : L) (viaAntiEntropy : bool) (metadata : MetadataContainer)
    : MetadataContainer :=
  let current := sequence metadata in
  if long_geb current nextSequence then metadata
  else
    let metadata := setSequence nextSequence metadata in
    let missed := long_sub nextSequence current in
    let missed := if negb viaAntiEntropy then long_sub missed (long_of_Z 1) else missed in
    if long_gtb missed (long_of_Z 0) then increaseMissedSequenceCount missed metadata else metadata.
Definition checkOrRepairSequence (cs : list MetadataContainer) (partitionId : Z) (nextSequence : L)
    (viaAntiEntropy : bool) : res (list MetadataContainer) :=
  on_container cs partitionId (repair_sequence nextSequence viaAntiEntropy).

Definition repair_uuid (newuuid : option (UUID L)) (metadata : MetadataContainer) : MetadataContainer :=
  match uuid metadata with
  | Some currentUuid =>
      if UUID_equals currentUuid newuuid then metadata else mc_reset (setUuid newuuid metadata)
  | None => mc_reset (setUuid newuuid metadata)
  end.
Definition checkOrRepairUuid (cs : list MetadataContainer) (partitionId : Z) (newuuid : option (UUID L))
    : res (list MetadataContainer) :=
  on_container cs partitionId (repair_uuid newuuid).

Definition updateLastKnownStaleSequence (c : MetadataContainer) : MetadataContainer :=
  if long_ltb (staleSequence c) (sequence c) then setStaleSequence (sequence c) c else c.

(** ** RepairingTask: the anti-entropy pass over a handler *)

(** The loop of [isAboveMaxToleratedMissCount], from partition [i] on, [n] turns left. *)
Fixpoint above_miss_count (cs : list MetadataContainer) (maxToleratedMissCount : Z) (n : nat) (i : Z)
    (totalMissCount : L) : res bool :=
  match n with
  | O => Ok false
  | S n =>
      c ← getMetadataContainer cs i;
      let totalMissCount := long_add totalMissCount (missedSequenceCount c) in
      if long_geb totalMissCount (long_of_Z maxToleratedMissCount) then Ok true
      else above_miss_count cs maxToleratedMissCount n (i + 1) totalMissCount
  end.
Definition isAboveMaxToleratedMissCount (partitionCount : nat) (maxToleratedMissCount : Z)
    (cs : list MetadataContainer) : res bool :=
  above_miss_count cs maxToleratedMissCount partitionCount 0 (long_of_Z 0).

Definition mark_stale (container : MetadataContainer) : MetadataContainer :=
  let missedCount := missedSequenceCount container in
  if long_neqb missedCount (long_of_Z 0) then
    updateLastKnownStaleSequence (increaseMissedSequenceCount (long_neg missedCount) container)
  else container.

Fixpoint mark_stale_loop (cs : list MetadataContainer) (n : nat) (i : Z) : res (list MetadataContainer) :=
  match n with
  | O => Ok cs
  | S n => cs ← on_container cs i mark_stale; mark_stale_loop cs n (i + 1)
  end.
Definition updateLastKnownStaleSequences (partitionCount : nat) (cs : list MetadataContainer)
    : res (list MetadataContainer) := mark_stale_loop cs partitionCount 0.

(** What [antiEntropyTask] does to each handler before it fetches metadata. *)
Definition antiEntropyPass (partitionCount : nat) (maxToleratedMissCount : Z) (cs : list MetadataContainer)
    : res (list MetadataContainer) :=
  above ← isAboveMaxToleratedMissCount partitionCount maxToleratedMissCount cs;
  if above : bool then updateLastKnownStaleSequences partitionCount cs else Ok cs.

(** [getReconciliationIntervalMillis], and the guard of [start]. *)
Definition getReconciliationIntervalMillis (minAllowedReconciliationSeconds seconds : Z) : res Z :=
  if (seconds =? 0) || (minAllowedReconciliationSeconds <=? seconds) then Ok (seconds * 1000)
  else Err RangeError.
Definition start (reconcilliationInterval : Z) : res unit :=
  if 0 <? reconcilliationInterval then Ok tt else Err AssertionError.

(** ** MetadataFetcher *)

Definition repairUuids (cs : list MetadataContainer) (l : list (Z * option (UUID L))) :=
  each_pair checkOrRepairUuid cs l.

(** The loop over the names of the response; the name of a pair list is not looked at. *)
Fixpoint repairSequences (cs : list MetadataContainer) (l : list (string * list (Z * L)))
    : list MetadataContainer * option js_error :=
  match l with
  | [] => (cs, None)
  | partitionIdSeq :: l =>
      match each_pair (fun cs p s => checkOrRepairSequence cs p s true) cs partitionIdSeq.2 with
      | (cs, None) => repairSequences cs l
      | (cs, Some e) => (cs, Some e)
      end
  end.

(** One handler in [processResponse]: errors are logged and swallowed. *)
Definition process_handler (partitionUuidList : list (Z * option (UUID L)))
    (namePartitionSequenceList : list (string * list (Z * L))) (cs : list MetadataContainer)
    : list MetadataContainer :=
  match repairUuids cs partitionUuidList with
  | (cs, None) => (repairSequences cs namePartitionSequenceList).1
  | (cs, Some _) => cs
  end.

(** [processResponse] over the handlers by name. *)
Definition processResponse (partitionUuidList : list (Z * option (UUID L)))
    (namePartitionSequenceList : list (string * list (Z * L)))
    (handlers : js_map string (list MetadataContainer)) : js_map string (list MetadataContainer) :=
  map (fun h => (h.1, process_handler partitionUuidList namePartitionSequenceList h.2)) handlers.
End Metadata.
Arguments MetadataContainer : clear implicits.

(** ** Counting missed invalidations *)

Section MetadataFacts.
Context {L : Type} `{LongLaws L}.
Implicit Types (c : MetadataContainer L) (cs : list (MetadataContainer L)).

Definition handle_sequences c (ss : list L) : MetadataContainer L :=
  foldl (fun c s => repair_sequence s false c) c ss.

(** The events whose sequence exceeds everything seen before. *)
Fixpoint news (cur : Z) (ss : list Z) : Z :=
  match ss with
  | [] => 0
  | s :: ss => if cur <? s then 1 + news s ss else news cur ss
  end.

Lemma long_0 : long_val (long_of_Z 0 : L) = 0.
Proof. by apply long_val_of_Z. Qed.

Lemma long_1 : long_val (long_of_Z 1 : L) = 1.
Proof. by apply long_val_of_Z. Qed.

(** One event: a sequence not seen before moves the container on and counts the gap. *)
Lemma repair_sequence_ok c s M :
  0 <= long_val (sequence c) -> 0 <= long_val (missedSequenceCount c) ->
  long_val s <= M -> long_val (missedSequenceCount c) + M - long_val (sequence c) < 2 ^ 63 -> M < 2 ^ 63 ->
  let c' := repair_sequence s false c in
  staleSequence c' = staleSequence c /\ uuid c' = uuid c /\
  long_val (sequence c') = Z.max (long_val (sequence c)) (long_val s) /\
  long_val (missedSequenceCount c') =
    long_val (missedSequenceCount c) +
      (if long_val (sequence c) <? long_val s then long_val s - long_val (sequence c) - 1 else 0).
Proof.
  intros Hc Hm Hs Hb HM. unfold repair_sequence, long_geb, long_gtb.
  rewrite long_leb_spec. destruct (Z.leb_spec (long_val s) (long_val (sequence c))) as [Hle|Hgt].
  { rewrite (proj2 (Z.ltb_ge _ _)) by lia. split_and!; [done | done | lia | lia]. }
  rewrite (proj2 (Z.ltb_lt _ _)) by lia. cbn [negb]. pose proof (long_val_range s) as Hr. unfold in_sint in Hr.
  assert (long_val (long_sub (long_sub s (sequence c)) (long_of_Z 1)) = long_val s - long_val (sequence c) - 1) as E.
  { rewrite long_val_sub, long_val_sub, long_1, (swrap_id 64 (long_val s - _)) by (unfold in_sint; lia).
    apply swrap_id; unfold in_sint; lia. }
  rewrite long_ltb_spec, long_0, E.
  destruct (Z.ltb_spec 0 (long_val s - long_val (sequence c) - 1)); cbn [increaseMissedSequenceCount setSequence
    sequence staleSequence missedSequenceCount uuid]; split_and!; try done; try lia.
  rewrite long_val_add, E. apply swrap_id; unfold in_sint; lia.
Qed.

Lemma handle_sequences_ok ss M : forall c,
  0 <= long_val (sequence c) -> 0 <= long_val (missedSequenceCount c) ->
  Forall (fun s => long_val s <= M) ss ->
  long_val (missedSequenceCount c) + M - long_val (sequence c) < 2 ^ 63 -> M < 2 ^ 63 ->
  let c' := handle_sequences c ss in
  staleSequence c' = staleSequence c /\ uuid c' = uuid c /\
  long_val (sequence c') = foldl Z.max (long_val (sequence c)) (map long_val ss) /\
  long_val (missedSequenceCount c') =
    long_val (missedSequenceCount c) + (long_val (sequence c') - long_val (sequence c)) -
      news (long_val (sequence c)) (map long_val ss).
Proof.
  induction ss as [|s ss IH]; intros c Hc Hm Hss Hb HM; cbn zeta; cbn [handle_sequences foldl map news].
  { split_and!; [done | done | done | lia]. }
  apply Forall_cons in Hss as [Hs Hss].
  destruct (repair_sequence_ok c s M Hc Hm Hs Hb HM) as (E1 & E2 & E3 & E4).
  destruct (IH (repair_sequence s false c)) as (F1 & F2 & F3 & F4); try done;
    [lia | destruct (Z.ltb_spec (long_val (sequence c)) (long_val s)); lia |
     destruct (Z.ltb_spec (long_val (sequence c)) (long_val s)); lia |].
  unfold handle_sequences in *. rewrite F1, F2, F3, F4, E3, E4. split_and!; [done | done | done |].
  rewrite F3, E3. destruct (Z.ltb_spec (long_val (sequence c)) (long_val s)).
  - rewrite Z.max_r by lia. lia.
  - rewrite Z.max_l by lia. lia.
Qed.

(** ** The anti-entropy pass *)

Definition total_missed cs : Z := foldr (fun c acc => long_val (missedSequenceCount c) + acc) 0 cs.

Lemma getMetadataContainer_ok (pre : list (MetadataContainer L)) c post :
  getMetadataContainer (pre ++ c :: post) (Z.of_nat (length pre)) = Ok c.
Proof.
  unfold getMetadataContainer. rewrite (proj2 (Z.ltb_ge _ _)) by lia. by rewrite Nat2Z.id, list_lookup_middle.
Qed.

Lemma total_missed_nonneg cs : Forall (fun c => 0 <= long_val (missedSequenceCount c)) cs -> 0 <= total_missed cs.
Proof. induction 1 as [|c cs Hc _ IH]; [done|]. unfold total_missed in *. cbn. lia. Qed.

Lemma above_miss_count_ok max post : forall pre tot,
  in_sint 64 max -> Forall (fun c => 0 <= long_val (missedSequenceCount c)) post ->
  0 <= long_val tot < max -> long_val tot + total_missed post < 2 ^ 63 ->
  above_miss_count (pre ++ post) max (length post) (Z.of_nat (length pre)) tot =
    Ok (max <=? long_val tot + total_missed post).
Proof.
  induction post as [|c post IH]; intros pre tot Hmax Hp Ht Hb; cbn [above_miss_count length total_missed foldr].
  { rewrite (proj2 (Z.leb_gt _ _)) by lia. done. }
  apply Forall_cons in Hp as [Hc Hp]. pose proof (total_missed_nonneg post Hp) as Hn.
  cbn [total_missed foldr] in Hb. change (foldr _ 0 post) with (total_missed post) in *.
  rewrite getMetadataContainer_ok, res_bind_ok. unfold long_geb. rewrite long_leb_spec, long_val_of_Z by done.
  assert (long_val (long_add tot (missedSequenceCount c)) = long_val tot + long_val (missedSequenceCount c)) as E.
  { rewrite long_val_add. apply swrap_id; unfold in_sint; lia. }
  rewrite E. destruct (Z.leb_spec max (long_val tot + long_val (missedSequenceCount c))).
  - rewrite (proj2 (Z.leb_le _ _)) by lia. done.
  - replace (Z.of_nat (length pre) + 1) with (Z.of_nat (length (pre ++ [c]))) by (rewrite length_app; cbn; lia).
    replace (pre ++ c :: post) with ((pre ++ [c]) ++ post) by (by rewrite <- app_assoc).
    rewrite IH by (done || lia). rewrite E. do 2 f_equal. lia.
Qed.

Lemma mark_stale_loop_ok post : forall pre : list (MetadataContainer L),
  mark_stale_loop (pre ++ post) (length post) (Z.of_nat (length pre)) = Ok (pre ++ map mark_stale post).
Proof.
  induction post as [|c post IH]; intros pre; cbn [mark_stale_loop length map]; [done|].
  unfold on_container. rewrite getMetadataContainer_ok, res_bind_ok, res_bind_ok, Nat2Z.id.
  rewrite insert_app_r_alt, Nat.sub_diag by done. cbn [list_insert insert].
  replace (Z.of_nat (length pre) + 1) with (Z.of_nat (length (pre ++ [mark_stale c]))) by (rewrite length_app; cbn; lia).
  replace (pre ++ mark_stale c :: post) with ((pre ++ [mark_stale c]) ++ post) by (by rewrite <- app_assoc).
  rewrite IH, <- app_assoc. done.
Qed.

Lemma mark_stale_ok c :
  let c' := mark_stale c in
  missedSequenceCount c' = long_of_Z 0 /\ sequence c' = sequence c /\ uuid c' = uuid c /\
  long_val (staleSequence c') =
    if long_val (missedSequenceCount c) =? 0 then long_val (staleSequence c)
    else Z.max (long_val (staleSequence c)) (long_val (sequence c)).
Proof.
  unfold mark_stale, long_neqb, updateLastKnownStaleSequence. rewrite long_eqb_spec, long_0.
  destruct (Z.eqb_spec (long_val (missedSequenceCount c)) 0) as [E|E]; cbn [negb].
  { split_and!; try done. apply long_val_inj. by rewrite long_0. }
  assert (long_add (missedSequenceCount c) (long_neg (missedSequenceCount c)) = long_of_Z 0) as E0.
  { apply long_val_inj. rewrite long_val_add, long_val_neg, long_0.
    set (x := long_val (missedSequenceCount c)).
    rewrite (swrap_congr 64 (x + swrap 64 (- x)) 0); [done | | lia].
    unfold uwrap. rewrite Zplus_mod. change (swrap 64 (- x) mod 2 ^ 64) with (uwrap 64 (swrap 64 (- x))).
    rewrite uwrap_swrap by lia. unfold uwrap. rewrite <- Zplus_mod. by rewrite Z.add_opp_diag_r. }
  unfold increaseMissedSequenceCount. rewrite E0. cbn [sequence staleSequence missedSequenceCount uuid].
  rewrite long_ltb_spec. case_if; cbn; bool_hyps; split_and!; try done; lia.
Qed.
End MetadataFacts.

(** ** Properties *)

Section MetadataProperties.
Context {L : Type} `{LongLaws L}.

(** The missed-invalidation count of a partition is exact: after invalidation events with
    any sequences (late and repeated ones too), the container is at the greatest
    sequence seen, and the count has grown by the sequence numbers that were skipped,
    that is the distance covered minus the events that were new. *)
Theorem missed_invalidations_counted (c : MetadataContainer L) (ss : list L) (M : Z) :
  0 <= long_val (sequence c) -> 0 <= long_val (missedSequenceCount c) ->
  Forall (fun s => long_val s <= M) ss ->
  long_val (missedSequenceCount c) + M - long_val (sequence c) < 2 ^ 63 -> M < 2 ^ 63 ->
  let c' := handle_sequences c ss in
  staleSequence c' = staleSequence c /\ uuid c' = uuid c /\
  long_val (sequence c') = foldl Z.max (long_val (sequence c)) (map long_val ss) /\
  long_val (missedSequenceCount c') =
    long_val (missedSequenceCount c) + (long_val (sequence c') - long_val (sequence c)) -
      news (long_val (sequence c)) (map long_val ss).
Proof. apply handle_sequences_ok. Qed.

(** The anti-entropy pass acts exactly when the misses of all partitions together
    reach the tolerated number (the early exit of the loop does not change the outcome); then
    every partition with misses is marked stale up to its current sequence, its
    count starts again at 0, and the other partitions are untouched. *)
Theorem anti_entropy_pass (cs : list (MetadataContainer L)) (max : Z) :
  0 < max < 2 ^ 63 ->
  Forall (fun c => 0 <= long_val (missedSequenceCount c)) cs ->
  total_missed cs < 2 ^ 63 ->
  antiEntropyPass (length cs) max cs = Ok (if max <=? total_missed cs then map mark_stale cs else cs) /\
  Forall (fun c =>
    missedSequenceCount (mark_stale c) = long_of_Z 0 /\ sequence (mark_stale c) = sequence c /\
    uuid (mark_stale c) = uuid c /\
    long_val (staleSequence (mark_stale c)) =
      if long_val (missedSequenceCount c) =? 0 then long_val (staleSequence c)
      else Z.max (long_val (staleSequence c)) (long_val (sequence c))) cs.
Proof.
  intros Hmax Hcs Hb. split; [|apply Forall_true; intros; apply mark_stale_ok].
  unfold antiEntropyPass, isAboveMaxToleratedMissCount.
  rewrite (above_miss_count_ok max cs [] (long_of_Z 0)) by (done || rewrite ?long_0; (unfold in_sint; lia)).
  rewrite res_bind_ok, long_0, Z.add_0_l. case_if; [|done]. apply (mark_stale_loop_ok cs []).
Qed.
End MetadataProperties.

(** Sequence 9 after 5 misses 6, 7 and 8; the late 7 changes nothing; 12 misses 10 and 11. *)
Lemma missed_invalidations_counted_witness :
  long_val (missedSequenceCount (handle_sequences
    (setSequence (long_of_Z 5) (newMetadataContainer (L := Int64.t)))
    [long_of_Z 9; long_of_Z 7; long_of_Z 12])) = 5.
Proof.
  destruct (missed_invalidations_counted (L := Int64.t) (setSequence (long_of_Z 5) newMetadataContainer)
    [long_of_Z 9; long_of_Z 7; long_of_Z 12] 12) as (_ & _ & _ & E).
  - vm_compute. discriminate.
  - vm_compute. discriminate.
  - repeat constructor; vm_compute; discriminate.
  - vm_compute. reflexivity.
  - vm_compute. reflexivity.
  - rewrite E. vm_compute. reflexivity.
Defined.

Lemma anti_entropy_pass_witness :
  antiEntropyPass 1 3 [handle_sequences (newMetadataContainer (L := Int64.t)) [long_of_Z 9]] =
    Ok (map mark_stale [handle_sequences (newMetadataContainer (L := Int64.t)) [long_of_Z 9]]).
Proof.
  refine (proj1 (anti_entropy_pass [handle_sequences (newMetadataContainer (L := Int64.t)) [long_of_Z 9]] 3 _ _ _)).
  - lia.
  - repeat constructor; vm_compute; discriminate.
  - vm_compute. reflexivity.
Defined.

(** ** What the response of a member does to the wrong map

    [repairSequences] applies the sequences of every name in the response to every
    handler. A client with two near caches moves the metadata of one map to the
    sequences of the other: the invalidations of the first that follow have lower sequences and are then
    taken for late ones. *)

Lemma foreign_sequences_applied :
  let seqs := [("a"%string, [(0, long_of_Z 5)]); ("b"%string, [(0, long_of_Z 100)])] in
  let a := [setSequence (long_of_Z 5) (newMetadataContainer (L := Int64.t))] in
  let after := process_handler [] seqs a in
  map (fun c => long_val (sequence c)) after = [100] /\
  map (fun c => long_val (missedSequenceCount c)) after = [95] /\
  (* the next invalidation of map "a" is not counted *)
  fmap (map (fun c => long_val (sequence c))) (checkOrRepairSequence after 0 (long_of_Z 6) false) = Ok [100].
Proof. vm_compute. auto. Qed.

(** A reconciliation interval of 0 seconds, which the configuration accepts as "disabled", is the one the
    task asserts against when the first near cache registers. *)
Lemma disabled_reconciliation_fails (min : Z) :
  getReconciliationIntervalMillis min 0 = Ok 0 /\ start 0 = Err AssertionError.
Proof. done. Qed.
