(* ===== verification/NearCache.v ===== *)
(** * The near cache (src/src/nearcache/)

    [DataRecord.ts], [NearCache.ts], [StaleReadDetector.ts] and the event side of
    [RepairingHandler.ts]. Records are objects: the store and the pool of eviction candidates refer to
    the same ones, so the records live in a heap [records] and both hold
    references. [Date.now()] is an argument [now]; the shuffle and the random comparison take their
    choices as arguments. The serialization service is the class [SerializationService]; its conversions may throw.

    [put], [get] and [tryPublishReserved] return two results: the outer one is an error of the cache's own
    structures, which its invariant excludes; the inner one is what the caller gets, the exception of a conversion
    included, together with the cache as it is then, with the changes made before the exception. *)

From Stdlib Require Import Sorting.Sorted.
From S2P Require Export Prelude NodeBuffer LongNum HeapData DataStoreHashMap InvalidationMetadata.

(** The two conversions a cache uses of [src/src/serialization/SerializationService.ts]; both throw, a [RangeError] for
    an unknown type id and whatever a serializer throws. *)
Class SerializationService (V : Type) := { toObject : V -> res V; toData : V -> res V }.

Inductive EvictionPolicy := NONE | LRU | LFU | RANDOM.
Inductive InMemoryFormat := OBJECT | BINARY.

#[global] Instance EvictionPolicy_eq_dec : EqDecision EvictionPolicy.
Proof. solve_decision. Defined.

(** [shuffleArray] of [src/src/util/Util.ts]: [choose i] is [Math.floor(Math.random() * i)]. *)
Definition swap {A} (l : list A) (i j : nat) : list A :=
  match l !! i, l !! j with
  | Some x, Some y => <[j := x]> (<[i := y]> l)
  | _, _ => l
  end.
Fixpoint shuffle_from {A} (choose : nat -> nat) (i : nat) (array : list A) : list A :=
  match i with
  | S (S _ as i') => shuffle_from choose i' (swap array i' (choose i `mod` i)%nat)
  | _ => array
  end.
Definition shuffleArray {A} (choose : nat -> nat) (array : list A) : list A :=
  shuffle_from choose (length array) array.

(** [Array.prototype.sort] with a comparison, a stable sort; [lt x y] is a negative result. *)
Fixpoint sort_insert {A} (le : A -> A -> bool) (x : A) (l : list A) : list A :=
  match l with
  | [] => [x]
  | y :: l => if le x y then x :: y :: l else y :: sort_insert le x l
  end.
Definition js_sort {A} (le : A -> A -> bool) (l : list A) : list A := foldr (sort_insert le) [] l.

Section NearCache.
Context {V : Type} `{SerializationService V} {L : Type} `{LongLib L}.

(** ** DataRecord *)

(** [undefined] is [None]; a falsy time to live is 0. *)
Record DataRecord := mkDataRecord {
  dr_key : HeapData;
  dr_value : option V;
  creationTime : Z;
  expirationTime : option Z;
  lastAccessTime : Z;
  accessHit : Z;
  invalidationSequence : L;
  dr_uuid : option (UUID L);
  status : L;
  ttl : Z
}.

Definition NOT_RESERVED : L := long_of_Z (-1).
Definition READ_PERMITTED : L := long_of_Z (-3).

Definition expiration (creationTime ttl : Z) : option Z :=
  if ttl =? 0 then None else Some (creationTime + ttl * 1000).

(** [new DataRecord(key, value, undefined, ttl)]. *)
Definition newDataRecord (now : Z) (key : HeapData) (value : option V) (ttl : Z) : DataRecord :=
  mkDataRecord key value now (expiration now ttl) now 0 (long_of_Z 0) None READ_PERMITTED ttl.

Definition isExpired (now maxIdleSeconds : Z) (r : DataRecord) : bool :=
  (match expirationTime r with Some e => (0 <? e) && (e <? now) | None => false end) ||
  ((0 <? maxIdleSeconds) && (lastAccessTime r + maxIdleSeconds * 1000 <? now)).

(** [setAccessTime] and [hitRecord]. *)
Definition touch (now : Z) (r : DataRecord) : DataRecord :=
  mkDataRecord (dr_key r) (dr_value r) (creationTime r) (expirationTime r) now (accessHit r + 1)
    (invalidationSequence r) (dr_uuid r) (status r) (ttl r).

Definition hasSameUuid (u : option (UUID L)) (r : DataRecord) : bool :=
  match u, dr_uuid r with Some _, Some v => UUID_equals v u | _, _ => false end.

Definition casStatus (expected update : L) (r : DataRecord) : bool * DataRecord :=
  if long_eqb expected (status r) then
    (true, mkDataRecord (dr_key r) (dr_value r) (creationTime r) (expirationTime r) (lastAccessTime r)
             (accessHit r) (invalidationSequence r) (dr_uuid r) update (ttl r))
  else (false, r).

(** The value and [setCreationTime()]. *)
Definition publish (now : Z) (value : V) (r : DataRecord) : DataRecord :=
  mkDataRecord (dr_key r) (Some value) now (expiration now (ttl r)) (lastAccessTime r)
    (accessHit r) (invalidationSequence r) (dr_uuid r) (status r) (ttl r).

Definition set_metadata (seq : L) (u : option (UUID L)) (r : DataRecord) : DataRecord :=
  mkDataRecord (dr_key r) (dr_value r) (creationTime r) (expirationTime r) (lastAccessTime r)
    (accessHit r) seq u (status r) (ttl r).

(** ** StaleReadDetector *)

(** [StaleReadDetectorImpl]: the containers of the repairing handler and the partition of a key.
    [None] is [alwaysFreshDetector]. *)
Record Detector := mkDetector {
  containers : list (MetadataContainer L);
  partitionOf : HeapData -> res Z
}.

Definition isStaleRead (d : option Detector) (r : DataRecord) : res bool :=
  match d with
  | None => Ok false
  | Some d =>
      p ← partitionOf d (dr_key r);
      metadata ← getMetadataContainer (containers d) p;
      Ok (negb (hasSameUuid (uuid metadata) r) || long_ltb (invalidationSequence r) (staleSequence metadata))
  end.

(** [initInvalidationMetadata]. *)
Definition initInvalidationMetadata (d : option Detector) (r : DataRecord) : res DataRecord :=
  match d with
  | None => Ok r
  | Some d =>
      p ← partitionOf d (dr_key r);
      metadata ← getMetadataContainer (containers d) p;
      Ok (set_metadata (sequence metadata) (uuid metadata) r)
  end.

(** ** NearCacheImpl *)

Record NearCacheConfig := mkNearCacheConfig {
  invalidateOnChange : bool;
  maxIdleSeconds : Z;
  inMemoryFormat : InMemoryFormat;
  timeToLiveSeconds : Z;
  evictionPolicy : EvictionPolicy;
  evictionMaxSize : Z;
  evictionSamplingCount : nat;
  evictionSamplingPoolSize : nat
}.

Record NearCacheImpl := mkNearCache {
  config : NearCacheConfig;
  store : DataKeyedHashMap nat;
  records : gmap nat DataRecord;
  evictionCandidatePool : list nat;
  staleReadDetector : option Detector;
  reservationCounter : L;
  evictedCount : Z;
  expiredCount : Z;
  missCount : Z;
  hitCount : Z
}.

Definition newNearCache (c : NearCacheConfig) : NearCacheImpl :=
  mkNearCache c newDataKeyedHashMap ∅ [] None (long_of_Z 0) 0 0 0 0.

Definition with_store (n : NearCacheImpl) (s : DataKeyedHashMap nat) (r : gmap nat DataRecord) : NearCacheImpl :=
  mkNearCache (config n) s r (evictionCandidatePool n) (staleReadDetector n) (reservationCounter n)
    (evictedCount n) (expiredCount n) (missCount n) (hitCount n).
Definition with_pool (n : NearCacheImpl) (p : list nat) : NearCacheImpl :=
  mkNearCache (config n) (store n) (records n) p (staleReadDetector n) (reservationCounter n)
    (evictedCount n) (expiredCount n) (missCount n) (hitCount n).
Definition count_miss (n : NearCacheImpl) : NearCacheImpl :=
  mkNearCache (config n) (store n) (records n) (evictionCandidatePool n) (staleReadDetector n)
    (reservationCounter n) (evictedCount n) (expiredCount n) (missCount n + 1) (hitCount n).
Definition count_hit (n : NearCacheImpl) : NearCacheImpl :=
  mkNearCache (config n) (store n) (records n) (evictionCandidatePool n) (staleReadDetector n)
    (reservationCounter n) (evictedCount n) (expiredCount n) (missCount n) (hitCount n + 1).
Definition count_evicted (n : NearCacheImpl) : NearCacheImpl :=
  mkNearCache (config n) (store n) (records n) (evictionCandidatePool n) (staleReadDetector n)
    (reservationCounter n) (evictedCount n + 1) (expiredCount n) (missCount n) (hitCount n).
Definition count_expired (n : NearCacheImpl) : NearCacheImpl :=
  mkNearCache (config n) (store n) (records n) (evictionCandidatePool n) (staleReadDetector n)
    (reservationCounter n) (evictedCount n) (expiredCount n + 1) (missCount n) (hitCount n).

(** A reference of the heap. *)
Definition deref_record (n : NearCacheImpl) (l : nat) : res DataRecord :=
  match records n !! l with Some r => Ok r | None => Err TypeError end.

(** [internalStore.get(key)]. *)
Definition lookup_record (n : NearCacheImpl) (key : HeapData) : res (option (nat * DataRecord)) :=
  o ← hm_get (store n) key;
  match o with
  | None => Ok None
  | Some l => r ← deref_record n l; Ok (Some (l, r))
  end.

Definition remove (n : NearCacheImpl) (key : HeapData) : res (bool * NearCacheImpl) :=
  '(b, s) ← hm_delete (store n) key;
  Ok (b, with_store n s (records n)).

(** [internalStore.set(key, dr)] with a new record. *)
Definition add_record (n : NearCacheImpl) (key : HeapData) (r : DataRecord) : res NearCacheImpl :=
  let l := fresh (dom (records n)) in
  s ← hm_set (store n) key l;
  Ok (with_store n s (<[l := r]> (records n))).

Definition setStaleReadDetector (n : NearCacheImpl) (d : option Detector) : NearCacheImpl :=
  mkNearCache (config n) (store n) (records n) (evictionCandidatePool n) d
    (reservationCounter n) (evictedCount n) (expiredCount n) (missCount n) (hitCount n).

Definition nextReservationId (n : NearCacheImpl) : L * NearCacheImpl :=
  (reservationCounter n,
   mkNearCache (config n) (store n) (records n) (evictionCandidatePool n) (staleReadDetector n)
     (long_add (reservationCounter n) (long_of_Z 1)) (evictedCount n) (expiredCount n) (missCount n) (hitCount n)).

Definition expireRecord (n : NearCacheImpl) (key : HeapData) : res NearCacheImpl :=
  '(b, n) ← remove n key;
  Ok (if b : bool then count_expired n else n).
Definition evictRecord (n : NearCacheImpl) (key : HeapData) : res NearCacheImpl :=
  '(b, n) ← remove n key;
  Ok (if b : bool then count_evicted n else n).

(** *** Eviction *)

Definition isEvictionRequired (n : NearCacheImpl) : bool :=
  negb (bool_decide (evictionPolicy (config n) = NONE)) && (evictionMaxSize (config n) <=? hm_size (store n)).

(** [newCandidates.filter(this.filterExpiredRecord, this)]. *)
Fixpoint filter_expired (now : Z) (candidates : list nat) (n : NearCacheImpl) : res (list nat * NearCacheImpl) :=
  match candidates with
  | [] => Ok ([], n)
  | l :: candidates =>
      candidate ← deref_record n l;
      if isExpired now (maxIdleSeconds (config n)) candidate then
        n ← expireRecord n (dr_key candidate);
        filter_expired now candidates n
      else
        '(kept, n) ← filter_expired now candidates n;
        Ok (l :: kept, n)
  end.

(** [compareFunc(x, y) <= 0] on records; a missing record does not occur. *)
Definition compare_records (n : NearCacheImpl) (random : nat -> nat -> bool) (x y : nat) : bool :=
  match records n !! x, records n !! y with
  | Some rx, Some ry =>
      match evictionPolicy (config n) with
      | LFU => accessHit rx <=? accessHit ry
      | LRU => lastAccessTime rx <=? lastAccessTime ry
      | _ => random x y
      end
  | _, _ => true
  end.

Definition recomputeEvictionPool (now : Z) (choose : nat -> nat) (random : nat -> nat -> bool)
    (n : NearCacheImpl) : res (Z * NearCacheImpl) :=
  let arr := shuffleArray choose (hm_values (store n)) in
  let newCandidates := take (evictionSamplingCount (config n)) arr in
  '(cleaned, n) ← filter_expired now newCandidates n;
  let expired := Z.of_nat (length newCandidates) - Z.of_nat (length cleaned) in
  if 0 <? expired then Ok (expired, n)
  else
    let pool := js_sort (compare_records n random) (evictionCandidatePool n ++ cleaned) in
    Ok (0, with_pool n (take (evictionSamplingPoolSize (config n)) pool)).

Definition doEvictionIfRequired (now : Z) (choose : nat -> nat) (random : nat -> nat -> bool)
    (n : NearCacheImpl) : res NearCacheImpl :=
  if negb (isEvictionRequired n) then Ok n
  else
    '(expired, n) ← recomputeEvictionPool now choose random n;
    if 0 <? expired then Ok n
    else
      match evictionCandidatePool n with
      | [] => Err TypeError
      | l :: pool =>
          candidate ← deref_record n l;
          n ← evictRecord n (dr_key candidate);
          Ok (with_pool n pool)
      end.

(** *** Operations *)

Definition convert (n : NearCacheImpl) (value : V) : res V :=
  match inMemoryFormat (config n) with OBJECT => toObject value | BINARY => toData value end.

(** The value handed out of a record; [toObject(undefined)] is [undefined]. *)
Definition read_out (n : NearCacheImpl) (value : option V) : res (option V) :=
  match inMemoryFormat (config n), value with
  | BINARY, Some value => o ← toObject value; Ok (Some o)
  | _, _ => Ok value
  end.

(** A value that cannot be converted is not cached, but the eviction has been done. *)
Definition put (now : Z) (choose : nat -> nat) (random : nat -> nat -> bool)
    (n : NearCacheImpl) (key : HeapData) (value : V) : res (res unit * NearCacheImpl) :=
  n ← doEvictionIfRequired now choose random n;
  match convert n value with
  | Err e => Ok (Err e, n)
  | Ok value =>
      dr ← initInvalidationMetadata (staleReadDetector n)
             (newDataRecord now key (Some value) (timeToLiveSeconds (config n)));
      n ← add_record n key dr;
      Ok (Ok tt, n)
  end.

(** [get], once the cache is ready: a value that cannot be converted counts as a hit before the conversion throws. *)
Definition get (now : Z) (n : NearCacheImpl) (key : HeapData) : res (res (option V) * NearCacheImpl) :=
  o ← lookup_record n key;
  match o with
  | None => Ok (Ok None, count_miss n)
  | Some (l, dr) =>
      stale ← isStaleRead (staleReadDetector n) dr;
      if stale : bool then
        '(_, n) ← remove n key;
        Ok (Ok None, count_miss n)
      else if isExpired now (maxIdleSeconds (config n)) dr then
        n ← expireRecord n key;
        Ok (Ok None, count_miss n)
      else
        let dr := touch now dr in
        let n := count_hit (with_store n (store n) (<[l := dr]> (records n))) in
        Ok (read_out n (dr_value dr), n)
  end.

Definition invalidate (n : NearCacheImpl) (key : HeapData) : res NearCacheImpl :=
  '(_, n) ← remove n key; Ok n.

Definition clear (n : NearCacheImpl) : NearCacheImpl := with_store n (hm_clear (store n)) (records n).

Definition tryReserveForUpdate (now : Z) (choose : nat -> nat) (random : nat -> nat -> bool)
    (n : NearCacheImpl) (key : HeapData) : res (L * NearCacheImpl) :=
  internalRecord ← lookup_record n key;
  let '(resId, n) := nextReservationId n in
  match internalRecord with
  | None =>
      n ← doEvictionIfRequired now choose random n;
      let dr := newDataRecord now key None (timeToLiveSeconds (config n)) in
      let dr := (casStatus READ_PERMITTED resId dr).2 in
      n ← add_record n key dr;
      Ok (resId, n)
  | Some (l, r) =>
      let '(done, r) := casStatus READ_PERMITTED resId r in
      if done : bool then Ok (resId, with_store n (store n) (<[l := r]> (records n)))
      else Ok (NOT_RESERVED, n)
  end.

(** The result is [undefined] when the value was published or the record is gone. When the conversion throws, the
    reservation is already given up and the record keeps its old value, creation time and metadata. *)
Definition tryPublishReserved (now : Z) (n : NearCacheImpl) (key : HeapData) (value : V) (reservationId : L)
    : res (res (option V) * NearCacheImpl) :=
  internalRecord ← lookup_record n key;
  match internalRecord with
  | None => Ok (Ok None, n)
  | Some (l, r) =>
      let '(done, r') := casStatus reservationId READ_PERMITTED r in
      if done : bool then
        match convert n value with
        | Err e => Ok (Err e, with_store n (store n) (<[l := r']> (records n)))
        | Ok value =>
            r' ← initInvalidationMetadata (staleReadDetector n) (publish now value r');
            Ok (Ok None, with_store n (store n) (<[l := r']> (records n)))
        end
      else Ok (read_out n (dr_value r), n)
  end.

(** ** RepairingHandler: an invalidation event *)

(** [handle]: the cache first, then the metadata of the partition of the key, or of the
    name of the map when the whole map is cleared. The containers are those of the detector: the
    client installs it before it registers the listener that delivers the events, so an event
    that finds none has no containers to update. *)
Definition handle (localUuid : UUID L) (namePartition : res Z) (n : NearCacheImpl) (key : option HeapData)
    (sourceUuid partitionUuid : option (UUID L)) (seq : L) : res NearCacheImpl :=
  n ← (if negb (UUID_equals localUuid sourceUuid) then
         match key with
         | None => Ok (clear n)
         | Some k => invalidate n k
         end
       else Ok n);
  match staleReadDetector n with
  | None => Ok n
  | Some d =>
      p ← match key with Some k => partitionOf d k | None => namePartition end;
      cs ← checkOrRepairSequence (containers d) p seq false;
      cs ← checkOrRepairUuid cs p partitionUuid;
      Ok (setStaleReadDetector n (Some (mkDetector cs (partitionOf d))))
  end.
End NearCache.
Arguments DataRecord : clear implicits.
Arguments Detector : clear implicits.
Arguments NearCacheImpl : clear implicits.

(** ** Shuffling and sorting *)

Lemma swap_perm {A} (l : list A) i j : swap l i j ≡ₚ l.
Proof.
  unfold swap. destruct (l !! i) as [x|] eqn:Ei; [|done]. destruct (l !! j) as [y|] eqn:Ej; [|done].
  destruct (decide (i = j)) as [->|Hne].
  - rewrite list_insert_insert_eq. replace y with x in * by congruence. by rewrite list_insert_id.
  - apply (Permutation_inj (<[j:=x]> (<[i:=y]> l)) l). split; [by rewrite !length_insert|].
    exists (fun k => if decide (k = i) then j else if decide (k = j) then i else k). split.
    + intros a b. repeat case_decide; congruence.
    + intros k. repeat case_decide; subst.
      * rewrite list_lookup_insert_ne by done. rewrite list_lookup_insert_eq by (by eapply lookup_lt_Some). done.
      * rewrite list_lookup_insert_eq by (rewrite length_insert; by eapply lookup_lt_Some). done.
      * by rewrite !list_lookup_insert_ne by done.
Qed.

Lemma shuffleArray_perm {A} choose (l : list A) : shuffleArray choose l ≡ₚ l.
Proof.
  unfold shuffleArray. generalize (length l) as i. intros i. revert l.
  induction i as [|[|i] IH]; intros l; [done | done |].
  change (shuffle_from choose (S (S i)) l) with
    (shuffle_from choose (S i) (swap l (S i) (choose (S (S i)) `mod` S (S i))%nat)).
  rewrite IH. apply swap_perm.
Qed.

Lemma sort_insert_perm {A} le (x : A) l : sort_insert le x l ≡ₚ x :: l.
Proof.
  induction l as [|y l IH]; cbn; [done|]. destruct (le x y); [done|]. rewrite IH. constructor.
Qed.

Lemma js_sort_perm {A} le (l : list A) : js_sort le l ≡ₚ l.
Proof. induction l as [|x l IH]; cbn; [done|]. by rewrite sort_insert_perm, IH. Qed.

(** Sorting with a comparison that is total and transitive on the elements. *)
Section Sorted.
Context {A : Type} (le : A -> A -> bool) (P : A -> Prop).
Context (total : forall a b, P a -> P b -> le a b = true \/ le b a = true).
Context (trans : forall a b c, P a -> P b -> P c -> le a b = true -> le b c = true -> le a c = true).

Lemma sort_insert_sorted x l : P x -> Forall P l ->
  StronglySorted (fun a b => le a b = true) l -> StronglySorted (fun a b => le a b = true) (sort_insert le x l).
Proof.
  intros Hx Hp Hs. induction Hs as [|y l Hl IH Hy]; cbn; [by repeat constructor|].
  apply Forall_cons in Hp as [Py Pl]. destruct (le x y) eqn:E.
  - constructor; [by constructor|]. constructor; [done|]. rewrite Forall_forall in *. intros z Hz.
    by apply (trans x y z); auto.
  - constructor; [by apply IH|]. rewrite sort_insert_perm. constructor; [|done]. destruct (total x y); congruence.
Qed.

Lemma js_sort_sorted l : Forall P l -> StronglySorted (fun a b => le a b = true) (js_sort le l).
Proof.
  induction 1 as [|x l Hx Hl IH]; [constructor|]. change (js_sort le (x :: l)) with (sort_insert le x (js_sort le l)). apply sort_insert_sorted; [done | by rewrite js_sort_perm | done].
Qed.
End Sorted.

(** ** The invariant of the cache *)

Section NearCacheFacts.
Context {V : Type} `{SerializationService V} {L : Type} `{LongLaws L}.
Implicit Types (n : NearCacheImpl V L) (r : DataRecord V L) (k : HeapData) (d : buffer).

Definition entry n d : option nat := abs (store n) !! d.

Record nc_wf n : Prop := {
  nc_store : hm_wf (store n);
  nc_keys l r : records n !! l = Some r -> exists d, key_ok (dr_key r) d;
  nc_entries d l : entry n d = Some l -> exists r, records n !! l = Some r /\ key_ok (dr_key r) d;
  nc_pool l : l ∈ evictionCandidatePool n -> is_Some (records n !! l);
  nc_status l r : records n !! l = Some r ->
    status r = READ_PERMITTED \/ 0 <= long_val (status r) < long_val (reservationCounter n)
}.

(** A configuration the client accepts with an eviction policy. *)
Definition config_ok (c : NearCacheConfig) : Prop :=
  0 < evictionMaxSize c /\ (0 < evictionSamplingCount c)%nat /\ (0 < evictionSamplingPoolSize c)%nat.

(** [n'] is [n] after removals: the same objects, fewer entries. *)
Record shrinks n n' : Prop := {
  sh_wf : nc_wf n';
  sh_records : records n' = records n;
  sh_config : config n' = config n;
  sh_detector : staleReadDetector n' = staleReadDetector n;
  sh_counter : reservationCounter n' = reservationCounter n;
  sh_entries : abs (store n') ⊆ abs (store n)
}.

Lemma shrinks_refl n : nc_wf n -> shrinks n n.
Proof. by intros. Qed.

Lemma shrinks_trans n1 n2 n3 : shrinks n1 n2 -> shrinks n2 n3 -> shrinks n1 n3.
Proof. intros [] []. split; try congruence. by transitivity (abs (store n2)). Qed.

Lemma shrink_wf n s :
  nc_wf n -> hm_wf s -> abs s ⊆ abs (store n) -> nc_wf (with_store n s (records n)).
Proof.
  intros [] Hs Hsub. split; cbn; [done | done | | done | done].
  intros d l Hl. apply nc_entries0. unfold entry in *. cbn in Hl. by eapply lookup_weaken.
Qed.

Lemma remove_ok n k d :
  nc_wf n -> key_ok k d ->
  exists s, remove n k = Ok (bool_decide (is_Some (entry n d)), with_store n s (records n)) /\
    hm_wf s /\ abs s = delete d (abs (store n)) /\ shrinks n (with_store n s (records n)).
Proof.
  intros Hw Hk. destruct (hm_delete_ok (store n) k d (nc_store n Hw) Hk) as (s & E & Hs & Ha).
  exists s. unfold remove. rewrite E, res_bind_ok. split_and!; [done | done | done |].
  assert (abs s ⊆ abs (store n)) as Hsub by (rewrite Ha; apply delete_subseteq).
  split; try done. by apply shrink_wf.
Qed.

Lemma lookup_record_ok n k d :
  nc_wf n -> key_ok k d ->
  match entry n d with
  | None => lookup_record n k = Ok None
  | Some l => exists r, records n !! l = Some r /\ key_ok (dr_key r) d /\ lookup_record n k = Ok (Some (l, r))
  end.
Proof.
  intros Hw Hk. unfold lookup_record. rewrite (hm_get_ok (store n) k d (nc_store n Hw) Hk), res_bind_ok.
  fold (entry n d). destruct (entry n d) as [l|] eqn:E; [|done].
  destruct (nc_entries n Hw d l E) as (r & Hr & Hd). exists r. split_and!; [done | done |].
  unfold deref_record. by rewrite Hr.
Qed.

(** Counters do not matter to the invariant. *)
Lemma count_shrinks n n' f :
  f = count_miss \/ f = count_hit \/ f = count_evicted \/ f = count_expired ->
  shrinks n n' -> shrinks n (f n').
Proof. by intros [->|[->|[->| ->]]] [[] ? ? ? ? ?]; split; cbn; auto. Qed.

Lemma drop_record_ok n k d f :
  f = count_evicted \/ f = count_expired -> nc_wf n -> key_ok k d ->
  exists n', ('(b, n) ← remove n k; Ok (if b : bool then f n else n)) = Ok n' /\ shrinks n n' /\
    abs (store n') = delete d (abs (store n)) /\ evictionCandidatePool n' = evictionCandidatePool n.
Proof.
  intros Hf Hw Hk. destruct (remove_ok n k d Hw Hk) as (s & E & Hs & Ha & Hsh).
  rewrite E, res_bind_ok. case_bool_decide.
  - eexists. split; [done|]. split; [apply count_shrinks; tauto|]. by destruct Hf as [->| ->].
  - eexists. split; [done|]. done.
Qed.

(** A record that has expired. *)
Definition expired_at (now : Z) n (l : nat) : bool :=
  match records n !! l with Some r => isExpired now (maxIdleSeconds (config n)) r | None => false end.

(** [n'] has the entries of [n] but those of the records [ls]. *)
Definition drops n n' (ls : list nat) : Prop :=
  forall d l, entry n' d = Some l <-> entry n d = Some l /\ l ∉ ls.

Lemma drops_smaller n n' ls d l :
  drops n n' ls -> entry n d = Some l -> l ∈ ls -> (size (abs (store n')) < size (abs (store n)))%nat.
Proof.
  intros Hd El Hin. assert (abs (store n') ⊆ delete d (abs (store n))) as Hsub%map_subseteq_size.
  { apply map_subseteq_spec. intros d' l' E. apply Hd in E as [E Hn]. rewrite lookup_delete_ne; [done|].
    intros <-. unfold entry in *. congruence. }
  rewrite map_size_delete_Some in Hsub by (exists l; exact El).
  assert (size (abs (store n)) <> 0%nat); [|lia].
  intros E0%map_size_empty_inv. unfold entry in El. by rewrite E0, lookup_empty in El.
Qed.

(** The key of the record is cached with that record, or not at all. *)
Definition unshadowed n (l : nat) : Prop :=
  forall r d, records n !! l = Some r -> key_ok (dr_key r) d -> entry n d = Some l \/ entry n d = None.

Lemma drop_one n n' l r d :
  nc_wf n -> records n !! l = Some r -> key_ok (dr_key r) d -> unshadowed n l ->
  abs (store n') = delete d (abs (store n)) -> drops n n' [l].
Proof.
  intros Hw Hr Hd Hu Ha d' l'. unfold entry. rewrite Ha, lookup_delete_Some, list_elem_of_singleton. split.
  - intros [Hne E]. split; [done|]. intros ->. destruct (nc_entries n Hw d' l E) as (r' & Hr' & Hk').
    unfold key_ok in *. congruence.
  - intros [E Hne]. split; [|done]. intros <-. destruct (Hu r d Hr Hd) as [E'|E']; unfold entry in *; congruence.
Qed.

Lemma drops_trans n1 n2 n3 ls ls' : drops n1 n2 ls -> drops n2 n3 ls' -> drops n1 n3 (ls ++ ls').
Proof. intros H12 H23 d l. rewrite (H23 d l), (H12 d l), not_elem_of_app. tauto. Qed.

Lemma drops_unshadowed n n' ls l : records n' = records n -> drops n n' ls -> unshadowed n l -> unshadowed n' l.
Proof.
  intros Er Hd Hu r d Hr Hk. rewrite Er in Hr. destruct (entry n' d) as [l'|] eqn:E; [|by right]. left.
  apply Hd in E as [E _]. destruct (Hu r d Hr Hk); congruence.
Qed.

(** The expired ones of the candidates are dropped, the others are kept. *)
Lemma filter_expired_ok now ls : forall n,
  nc_wf n -> Forall (fun l => is_Some (records n !! l)) ls -> Forall (unshadowed n) ls ->
  exists n', filter_expired now ls n = Ok (filter (fun l => expired_at now n l = false) ls, n') /\ shrinks n n' /\
    evictionCandidatePool n' = evictionCandidatePool n /\ drops n n' (filter (fun l => expired_at now n l = true) ls).
Proof.
  induction ls as [|l ls IH]; intros n Hw Hls Hun.
  { exists n. split_and!; [done | by apply shrinks_refl | done |]. intros d l. set_solver. }
  apply Forall_cons in Hls as [[r Hr] Hls]. apply Forall_cons in Hun as [Hu Hun].
  destruct (nc_keys n Hw l r Hr) as [d Hd]. rewrite !filter_cons.
  assert (expired_at now n l = isExpired now (maxIdleSeconds (config n)) r) as Ex by (unfold expired_at; by rewrite Hr).
  cbn [filter_expired]. unfold deref_record. rewrite Hr, res_bind_ok, <- Ex.
  destruct (expired_at now n l) eqn:Ee; repeat case_decide; try done.
  - destruct (drop_record_ok n (dr_key r) d count_expired ltac:(auto) Hw Hd) as (n1 & E1 & Hsh & Ha & Hp).
    unfold expireRecord. rewrite E1, res_bind_ok. pose proof (drop_one n n1 l r d Hw Hr Hd Hu Ha) as Hd1.
    assert (forall x, expired_at now n1 x = expired_at now n x) as Esame.
    { intros x. unfold expired_at. by rewrite (sh_records _ _ Hsh), (sh_config _ _ Hsh). }
    destruct (IH n1 (sh_wf _ _ Hsh)) as (n' & E' & Hsh' & Hp' & Hd').
    { by rewrite (sh_records _ _ Hsh). }
    { eapply Forall_impl; [exact Hun|]. intros x. by apply (drops_unshadowed n n1 [l]), Hd1; apply Hsh. }
    assert (forall b, filter (fun x => expired_at now n1 x = b) ls = filter (fun x => expired_at now n x = b) ls) as Ef
      by (intros b; apply list_filter_iff; intros x; by rewrite Esame).
    rewrite Ef in E', Hd'. exists n'.
    split_and!; [done | by eapply shrinks_trans | congruence | by apply (drops_trans n n1 n' [l])].
  - destruct (IH n Hw Hls Hun) as (n' & E' & Hsh' & Hp' & Hd'). rewrite E', res_bind_ok. by exists n'.
Qed.

Lemma values_are_entries n :
  nc_wf n -> Forall (fun l => exists d, entry n d = Some l) (hm_values (store n)).
Proof.
  intros Hw. apply Forall_forall. intros l Hl. rewrite (hm_values_ok _ (nc_store n Hw)) in Hl.
  apply list_elem_of_fmap in Hl as ([d l'] & -> & Hin). exists d. by apply elem_of_map_to_list in Hin.
Qed.

Lemma sample_entries n choose m :
  nc_wf n -> Forall (fun l => exists d, entry n d = Some l) (take m (shuffleArray choose (hm_values (store n)))).
Proof. intros Hw. apply Forall_take. rewrite shuffleArray_perm. by apply values_are_entries. Qed.

Lemma entries_have_records n ls :
  nc_wf n -> Forall (fun l => exists d, entry n d = Some l) ls -> Forall (fun l => is_Some (records n !! l)) ls.
Proof.
  intros Hw Hls. eapply Forall_impl; [exact Hls|]. intros l [d Hl]. destruct (nc_entries n Hw d l Hl) as (r & -> & _). eauto.
Qed.

(** The records the next eviction looks at. *)
Definition sample_of (choose : nat -> nat) n : list nat :=
  take (evictionSamplingCount (config n)) (shuffleArray choose (hm_values (store n))).

Lemma entry_unshadowed n d l : nc_wf n -> entry n d = Some l -> unshadowed n l.
Proof.
  intros Hw El r d' Hr Hk. left. destruct (nc_entries n Hw d l El) as (r' & Hr' & Hk').
  unfold key_ok in *. congruence.
Qed.

Lemma filter_all_kept {A} (f : A -> bool) l :
  filter (fun x => f x = true) l = [] -> filter (fun x => f x = false) l = l.
Proof.
  induction l as [|x l IH]; [done|]. rewrite !filter_cons. destruct (f x); repeat case_decide; try done.
  intros E. by rewrite IH.
Qed.

Lemma filter_lengths {A} (f : A -> bool) l :
  length l = (length (filter (fun x => f x = true) l) + length (filter (fun x => f x = false) l))%nat.
Proof.
  induction l as [|x l IH]; [done|]. rewrite !filter_cons. destruct (f x); repeat case_decide; try done; cbn; lia.
Qed.

(** The pool after [recomputeEvictionPool], or fewer entries because some had expired. *)
Lemma recompute_ok now choose random n :
  nc_wf n ->
  let sample := sample_of choose n in
  let expired := filter (fun l => expired_at now n l = true) sample in
  exists e n', recomputeEvictionPool now choose random n = Ok (e, n') /\ shrinks n n' /\ drops n n' expired /\
    ((0 < e /\ expired <> [] /\ evictionCandidatePool n' = evictionCandidatePool n) \/
     (e = 0 /\ expired = [] /\ evictionCandidatePool n' =
        take (evictionSamplingPoolSize (config n)) (js_sort (compare_records n' random) (evictionCandidatePool n ++ sample)))).
Proof.
  intros Hw sample expired. unfold recomputeEvictionPool. fold (sample_of choose n). fold sample.
  pose proof (sample_entries n choose (evictionSamplingCount (config n)) Hw) as Hls. fold (sample_of choose n) sample in Hls.
  destruct (filter_expired_ok now sample n Hw (entries_have_records n sample Hw Hls)) as (n1 & E & Hsh & Hp & Hd).
  { eapply Forall_impl; [exact Hls|]. intros l [d Hl]. by eapply entry_unshadowed. }
  rewrite E, res_bind_ok. fold expired in Hd. pose proof (filter_lengths (expired_at now n) sample) as Hlen.
  fold expired in Hlen. destruct (Z.ltb_spec 0 (Z.of_nat (length sample) -
    Z.of_nat (length (filter (fun l => expired_at now n l = false) sample)))) as [Hlt|Hge].
  - eexists _, _. split_and!; [done..|]. left. split_and!; [done | | done]. intros E0. rewrite E0 in Hlen. cbn in Hlen. lia.
  - assert (expired = []) as E0 by (destruct expired; [done | cbn in Hlen; lia]).
    rewrite (filter_all_kept _ _ E0). eexists _, _. split; [done|]. rewrite (sh_config _ _ Hsh), Hp.
    split; [|split; [done | by right]].
    eapply shrinks_trans; [exact Hsh|]. destruct (sh_wf _ _ Hsh) as [W1 W2 W3 W4 W5].
    split; cbn; try done. split; cbn; try done.
    intros l Hl. pose proof (elem_of_sublist _ _ _ Hl (sublist_take _ _)) as Hl'. clear Hl. rename Hl' into Hl.
    rewrite js_sort_perm in Hl. apply elem_of_app in Hl as [Hl|Hl]; [apply W4; by rewrite Hp|].
    rewrite (sh_records _ _ Hsh). pose proof (entries_have_records n sample Hw Hls) as Hr.
    rewrite Forall_forall in Hr. by apply Hr.
Qed.

(** Every candidate of the pool is still cached. *)
Definition pool_live n : Prop := forall l, l ∈ evictionCandidatePool n -> exists d, entry n d = Some l.

Lemma sample_nonempty n choose :
  nc_wf n -> config_ok (config n) -> isEvictionRequired n = true ->
  take (evictionSamplingCount (config n)) (shuffleArray choose (hm_values (store n))) <> [].
Proof.
  intros Hw (Hmax & Hc & _) Hr. unfold isEvictionRequired in Hr. bool_hyps.
  rewrite (abs_size _ (nc_store n Hw)) in *.
  assert (length (shuffleArray choose (hm_values (store n))) = size (abs (store n))) as Hlen.
  { rewrite shuffleArray_perm, (hm_values_ok _ (nc_store n Hw)), length_fmap. apply length_map_to_list. }
  intros E%(f_equal length). rewrite length_take, Hlen in E. cbn in E. lia.
Qed.

(** The record that the policy evicts before the other, or as soon. *)
Definition goes_first n (x y : nat) : Prop :=
  match records n !! x, records n !! y with
  | Some rx, Some ry =>
      match evictionPolicy (config n) with
      | LRU => lastAccessTime rx <= lastAccessTime ry
      | LFU => accessHit rx <= accessHit ry
      | _ => True
      end
  | _, _ => False
  end.

(** What an eviction drops and which candidates it leaves, given the sampled records: nothing if there is room;
    the expired records of the sample if there are any; otherwise one record, the first of the candidates and the sample in the
    order of the policy. The next ones of that order are the candidates left. *)
Inductive evicted (now : Z) n (sample : list nat) : list nat -> list nat -> Prop :=
  | evicted_none : hm_size (store n) < evictionMaxSize (config n) ->
      evicted now n sample [] (evictionCandidatePool n)
  | evicted_expired : evictionMaxSize (config n) <= hm_size (store n) ->
      filter (fun l => expired_at now n l = true) sample <> [] ->
      evicted now n sample (filter (fun l => expired_at now n l = true) sample) (evictionCandidatePool n)
  | evicted_first l rest : evictionMaxSize (config n) <= hm_size (store n) ->
      filter (fun l => expired_at now n l = true) sample = [] ->
      l :: rest ≡ₚ evictionCandidatePool n ++ sample -> StronglySorted (goes_first n) (l :: rest) ->
      evicted now n sample [l] (take (pred (evictionSamplingPoolSize (config n))) rest).

Lemma StronglySorted_weaken {A} (R R' : A -> A -> Prop) (P : A -> Prop) l :
  (forall x y, P x -> P y -> R x y -> R' x y) -> Forall P l -> StronglySorted R l -> StronglySorted R' l.
Proof.
  intros HR Hp Hs. induction Hs as [|x l Hl IH Hx]; [constructor|]. apply Forall_cons in Hp as [Px Pl].
  constructor; [by apply IH|]. rewrite Forall_forall in *. auto.
Qed.

Lemma pool_sorted n random ls :
  evictionPolicy (config n) <> NONE -> Forall (fun l => is_Some (records n !! l)) ls ->
  StronglySorted (goes_first n) (js_sort (compare_records n random) ls).
Proof.
  intros Hpol Hls. set (P l := is_Some (records n !! l)).
  assert (Forall P (js_sort (compare_records n random) ls)) as Hp by (by rewrite js_sort_perm).
  destruct (evictionPolicy (config n)) eqn:E; [done| | |].
  1,2: eapply (StronglySorted_weaken _ _ P); [|exact Hp|apply (js_sort_sorted _ P)]; [..|exact Hls];
    unfold P, goes_first, compare_records; rewrite E; intros;
    repeat match goal with H : is_Some _ |- _ => destruct H as [? H]; rewrite ?H in * end; lia.
  clear Hls. induction Hp as [|l ls' Hl Hls' IH]; constructor; [done|]. eapply Forall_impl; [exact Hls'|].
  unfold P, goes_first. rewrite E. intros l' [? ->]. destruct Hl as [? ->]. done.
Qed.

(** The same up to [compare_records] of a state with the same records. *)
Lemma compare_same n n' random : records n' = records n -> config n' = config n ->
  compare_records n' random = compare_records n random.
Proof. intros Er Ec. unfold compare_records. by rewrite Er, Ec. Qed.

Lemma required_size n : isEvictionRequired n = true ->
  evictionPolicy (config n) <> NONE /\ evictionMaxSize (config n) <= hm_size (store n).
Proof. unfold isEvictionRequired. intros Hr. bool_hyps. by case_bool_decide. Qed.

Lemma not_required_size n : isEvictionRequired n = false -> evictionPolicy (config n) <> NONE ->
  hm_size (store n) < evictionMaxSize (config n).
Proof. unfold isEvictionRequired. intros Hr Hp. rewrite bool_decide_eq_false_2 in Hr by done. cbn in Hr. bool_hyps. lia. Qed.

Lemma doEviction_ok now choose random n :
  nc_wf n -> config_ok (config n) ->
  exists n', doEvictionIfRequired now choose random n = Ok n' /\ shrinks n n' /\
    (evictionPolicy (config n) <> NONE -> pool_live n -> exists dropped,
       evicted now n (sample_of choose n) dropped (evictionCandidatePool n') /\ drops n n' dropped).
Proof.
  intros Hw Hc. unfold doEvictionIfRequired. destruct (isEvictionRequired n) eqn:Hr; cbn [negb].
  2:{ exists n. split; [done|]. split; [by apply shrinks_refl|]. intros Hpol _. exists []. split; [|intros d l; set_solver].
      apply evicted_none. by apply not_required_size. }
  destruct (required_size n Hr) as [Hpol Hsz]. pose proof (sample_nonempty n choose Hw Hc Hr) as Hne.
  destruct (recompute_ok now choose random n Hw) as (e & n1 & E & Hsh & Hdr & Hcase). rewrite E, res_bind_ok.
  fold (sample_of choose n) in Hne. set (sample := sample_of choose n) in *.
  destruct Hcase as [(He & Hex & Hp)|(-> & Hex & Hp)].
  { rewrite (proj2 (Z.ltb_lt 0 e)) by done. exists n1. split; [done|]. split; [done|]. intros _ _. eexists.
    split; [|exact Hdr]. rewrite Hp. by apply evicted_expired. }
  change (0 <? 0) with false. cbn iota. rewrite Hex in Hdr.
  rewrite (compare_same n n1 random (sh_records _ _ Hsh) (sh_config _ _ Hsh)) in Hp.
  destruct (js_sort (compare_records n random) (evictionCandidatePool n ++ sample)) as [|l rest] eqn:Es.
  { exfalso. pose proof (js_sort_perm (compare_records n random) (evictionCandidatePool n ++ sample)) as Hperm.
    rewrite Es in Hperm. apply Permutation_nil, app_eq_nil in Hperm as [_ ?]. done. }
  destruct Hc as (_ & _ & Hpool). destruct (evictionSamplingPoolSize (config n)) as [|m] eqn:Em; [lia|].
  rewrite Hp. cbn [take].
  assert (l ∈ evictionCandidatePool n ++ sample) as Hl
    by (rewrite <- (js_sort_perm (compare_records n random)), Es; left).
  destruct (nc_pool n1 (sh_wf _ _ Hsh) l) as [r Hr1]; [rewrite Hp; left|].
  destruct (nc_keys n1 (sh_wf _ _ Hsh) l r Hr1) as [d Hd].
  unfold deref_record. rewrite Hr1, res_bind_ok.
  destruct (drop_record_ok n1 (dr_key r) d count_evicted ltac:(auto) (sh_wf _ _ Hsh) Hd) as (n2 & E2 & Hsh2 & Ha & Hp2).
  unfold evictRecord. rewrite E2, res_bind_ok. eexists. split; [done|]. split.
  - eapply shrinks_trans; [exact Hsh|]. eapply shrinks_trans; [exact Hsh2|].
    destruct (sh_wf _ _ Hsh2). split; cbn; try done. split; cbn; try done.
    intros x Hx. apply nc_pool0. rewrite Hp2, Hp. by right.
  - intros _ Hlive. exists [l]. cbn [with_pool evictionCandidatePool].
    pose proof (sample_entries n choose (evictionSamplingCount (config n)) Hw) as Hs. fold (sample_of choose n) sample in Hs.
    assert (Forall (fun x => exists d, entry n d = Some x) (evictionCandidatePool n ++ sample)) as Hall
      by (apply Forall_app; split; [by apply Forall_forall | done]).
    split.
    + replace m with (pred (evictionSamplingPoolSize (config n))) by lia. apply evicted_first; [done | done | |].
      * by rewrite <- Es, js_sort_perm.
      * rewrite <- Es. apply pool_sorted; [done|]. by apply entries_have_records.
    + apply (drops_trans n n1 _ [] [l]); [done|]. apply (drop_one n1 _ l r d); [apply Hsh | done | done | | done].
      apply (drops_unshadowed n n1 []); [apply Hsh | done |]. rewrite Forall_forall in Hall. destruct (Hall l Hl) as [d' Hd'].
      by eapply entry_unshadowed.
Qed.

(** An eviction that is needed makes room. *)
Lemma evicted_smaller now n n' choose dropped pool :
  nc_wf n -> pool_live n -> evictionMaxSize (config n) <= hm_size (store n) ->
  evicted now n (sample_of choose n) dropped pool -> drops n n' dropped ->
  (size (abs (store n')) < size (abs (store n)))%nat.
Proof.
  intros Hw Hlive Hsz He Hd. pose proof (sample_entries n choose (evictionSamplingCount (config n)) Hw) as Hs.
  fold (sample_of choose n) in Hs. rewrite Forall_forall in Hs. destruct He as [?|_ Hex|l rest _ _ Hperm _]; [lia| |].
  - destruct (filter _ _) as [|l ls] eqn:E; [done|]. assert (l ∈ sample_of choose n) as Hl.
    { apply (list_elem_of_filter (fun l => expired_at now n l = true)). rewrite E. left. }
    destruct (Hs l Hl) as [d Hd']. eapply drops_smaller; [done | done | left].
  - assert (exists d, entry n d = Some l) as [d Hd'].
    { assert (l ∈ evictionCandidatePool n ++ sample_of choose n) as [Hl|Hl]%elem_of_app by (rewrite <- Hperm; left); auto. }
    eapply drops_smaller; [done | done | left].
Qed.

(** Every key has a partition with a container. *)
Definition detector_ok (o : option (Detector L)) : Prop :=
  match o with
  | None => True
  | Some t => forall k d, key_ok k d -> exists p c,
      partitionOf t k = Ok p /\ getMetadataContainer (containers t) p = Ok c
  end.

Record nc_inv n : Prop := {
  inv_wf : nc_wf n;
  inv_config : config_ok (config n);
  inv_detector : detector_ok (staleReadDetector n)
}.

(** What an operation may do to the records that are cached: each is one that was cached with the same
    status, or has a value to read, or carries the reservation id just handed out. *)
Record step_ok n n' : Prop := {
  step_wf : nc_wf n';
  step_config : config n' = config n;
  step_detector : staleReadDetector n' = staleReadDetector n;
  step_counter : long_val (reservationCounter n) <= long_val (reservationCounter n');
  step_status d l r : entry n' d = Some l -> records n' !! l = Some r ->
    status r = READ_PERMITTED \/ status r = reservationCounter n \/
    exists r0, entry n d = Some l /\ records n !! l = Some r0 /\ status r0 = status r
}.

Lemma shrinks_step n n' : shrinks n n' -> step_ok n n'.
Proof.
  intros [Hw Hr Hc Hd Hk He]. split; try done; [by rewrite Hk|]. intros d l r El Er. right. right.
  exists r. unfold entry in *. rewrite Hr in Er. split_and!; [by eapply lookup_weaken | done | done].
Qed.

Lemma step_trans n1 n2 n3 :
  step_ok n1 n2 -> step_ok n2 n3 -> reservationCounter n1 = reservationCounter n2 -> step_ok n1 n3.
Proof.
  intros [W1 C1 D1 K1 S1] [W2 C2 D2 K2 S2] E. split; [done | congruence | congruence | lia |].
  intros d l r El Er. destruct (S2 d l r El Er) as [?|[?|(r0 & El' & Er' & Es)]];
    [by left | right; left; congruence |].
  rewrite <- Es. by apply S1.
Qed.

Lemma inv_step n n' : nc_inv n -> step_ok n n' -> nc_inv n'.
Proof. intros [] []. split; congruence. Qed.

(** Distinct keys have distinct records. *)
Lemma entry_inj n d d' l : nc_wf n -> entry n d = Some l -> entry n d' = Some l -> d = d'.
Proof.
  intros Hw E E'. destruct (nc_entries n Hw d l E) as (r & Hr & Hd), (nc_entries n Hw d' l E') as (r' & Hr' & Hd').
  unfold key_ok in *. congruence.
Qed.

Definition status_ok n r : Prop :=
  status r = READ_PERMITTED \/ 0 <= long_val (status r) < long_val (reservationCounter n).

Lemma add_record_ok n k d r :
  nc_wf n -> key_ok k d -> key_ok (dr_key r) d -> status_ok n r ->
  exists s l, add_record n k r = Ok (with_store n s (<[l := r]> (records n))) /\
    nc_wf (with_store n s (<[l := r]> (records n))) /\
    abs s = <[d := l]> (abs (store n)) /\ records n !! l = None.
Proof.
  intros Hw Hk Hd Hs. destruct Hw as [W1 W2 W3 W4 W5]. unfold add_record.
  set (l := fresh (dom (records n))).
  assert (records n !! l = None) as Hl by (apply not_elem_of_dom, is_fresh).
  destruct (hm_set_ok (store n) k d l W1 Hk) as (s & E & Hws & Ha). rewrite E, res_bind_ok.
  exists s, l. split_and!; [done | | done | done]. split; unfold entry in *; cbn; try done.
  - intros x r' [[<- <-]|[Hne Hx]]%lookup_insert_Some; eauto.
  - rewrite Ha. intros d' x [[<- <-]|[Hne Hx]]%lookup_insert_Some.
    + exists r. by rewrite lookup_insert_eq.
    + destruct (W3 d' x Hx) as (r' & Hr' & Hk'). exists r'.
      rewrite lookup_insert_ne by (intros ->; congruence). done.
  - intros x Hx. destruct (W4 x Hx) as [r' Hr']. rewrite lookup_insert_ne by (intros ->; congruence). eauto.
  - intros x r' [[<- <-]|[Hne Hx]]%lookup_insert_Some; [done | by eapply W5].
Qed.

(** A change of the record of one key. *)
Lemma update_record_ok n d l r r' :
  nc_wf n -> entry n d = Some l -> records n !! l = Some r -> dr_key r' = dr_key r -> status_ok n r' ->
  nc_wf (with_store n (store n) (<[l := r']> (records n))).
Proof.
  intros [W1 W2 W3 W4 W5] El Er Ek Hs. split; unfold entry in *; cbn; try done.
  - intros x r0 [[<- <-]|[Hne Hx]]%lookup_insert_Some; [rewrite Ek|]; eauto.
  - intros d' x Hx. destruct (W3 d' x Hx) as (r0 & Hr0 & Hk). destruct (decide (x = l)) as [->|Hne].
    + exists r'. rewrite lookup_insert_eq, Ek. split; [done|]. congruence.
    + exists r0. by rewrite lookup_insert_ne.
  - intros x Hx. destruct (decide (x = l)) as [->|Hne]; [by rewrite lookup_insert_eq|].
    rewrite lookup_insert_ne by done. auto.
  - intros x r0 [[<- <-]|[Hne Hx]]%lookup_insert_Some; [done | by eapply W5].
Qed.

(** The metadata of a record's partition. *)
Lemma init_metadata_ok o r d :
  detector_ok o -> key_ok (dr_key r) d ->
  exists r', initInvalidationMetadata o r = Ok r' /\
    dr_key r' = dr_key r /\ dr_value r' = dr_value r /\ status r' = status r /\
    expirationTime r' = expirationTime r /\ lastAccessTime r' = lastAccessTime r /\
    match o with
    | None => r' = r
    | Some t => exists p c, partitionOf t (dr_key r) = Ok p /\ getMetadataContainer (containers t) p = Ok c /\
        invalidationSequence r' = sequence c /\ dr_uuid r' = uuid c
    end.
Proof.
  intros Ho Hk. destruct o as [t|]; cbn in *; [|by exists r].
  destruct (Ho _ _ Hk) as (p & c & Ep & Ec). rewrite Ep, res_bind_ok, Ec, res_bind_ok.
  eexists. split; [done|]. split_and!; try done. by exists p, c.
Qed.

(** The entries but that of [d] after an eviction of [dropped]. *)
Definition others_kept n n' d (dropped : list nat) : Prop :=
  forall d' l, d' <> d -> (entry n' d' = Some l <-> entry n d' = Some l /\ l ∉ dropped).

Lemma eviction_bound now choose random n n1 :
  nc_wf n -> doEvictionIfRequired now choose random n = Ok n1 -> shrinks n n1 ->
  evictionPolicy (config n) <> NONE -> pool_live n -> hm_size (store n) <= evictionMaxSize (config n) ->
  (exists dropped, evicted now n (sample_of choose n) dropped (evictionCandidatePool n1) /\ drops n n1 dropped) ->
  hm_size (store n1) < evictionMaxSize (config n).
Proof.
  intros Hw E Hsh Hpol Hlive Hsz (dropped & He & Hd). destruct (Z.lt_ge_cases (hm_size (store n)) (evictionMaxSize (config n))) as [Hlt|Hge].
  - unfold doEvictionIfRequired in E. destruct (isEvictionRequired n) eqn:Hr; [|by injection E as <-].
    destruct (required_size n Hr). lia.
  - pose proof (evicted_smaller now n n1 choose dropped _ Hw Hlive Hge He Hd) as Hs.
    rewrite (abs_size _ (nc_store n Hw)) in *. rewrite (abs_size _ (nc_store n1 (sh_wf _ _ Hsh))). lia.
Qed.

Lemma put_ok now choose random n k d v :
  nc_inv n -> key_ok k d ->
  exists o n', put now choose random n k v = Ok (o, n') /\ step_ok n n' /\ records n ⊆ records n' /\
    (evictionPolicy (config n) <> NONE -> pool_live n ->
       (exists dropped, evicted now n (sample_of choose n) dropped (evictionCandidatePool n') /\ others_kept n n' d dropped) /\
       (hm_size (store n) <= evictionMaxSize (config n) -> hm_size (store n') <= evictionMaxSize (config n))) /\
    match convert n v with
    | Err e => o = Err e /\ forall l, entry n' d = Some l -> entry n d = Some l
    | Ok x => o = Ok tt /\ exists l r, entry n' d = Some l /\ records n' !! l = Some r /\ records n !! l = None /\
        dr_key r = k /\ dr_value r = Some x /\
        expirationTime r = expiration now (timeToLiveSeconds (config n)) /\ lastAccessTime r = now /\
        initInvalidationMetadata (staleReadDetector n)
          (newDataRecord now k (Some x) (timeToLiveSeconds (config n))) = Ok r
    end.
Proof.
  intros [Hw Hc Hd] Hk. unfold put.
  destruct (doEviction_ok now choose random n Hw Hc) as (n1 & E1 & Hsh & Hev). rewrite E1, res_bind_ok.
  assert (convert n1 v = convert n v) as Ecv by (unfold convert; by rewrite (sh_config _ _ Hsh)).
  rewrite Ecv. pose proof (fun Hp Hl Hz => eviction_bound now choose random n n1 Hw E1 Hsh Hp Hl Hz (Hev Hp Hl)) as Hbound.
  destruct (convert n v) as [x|e].
  2:{ eexists _, n1. split; [done|]. split; [by apply shrinks_step|]. rewrite (sh_records _ _ Hsh). split; [done|].
      split; [|split; [done|intros l Hl; unfold entry in *; by eapply lookup_weaken, sh_entries]].
      intros Hpol Hlive. destruct (Hev Hpol Hlive) as (dropped & He & Hdr). split; [|intros Hz; specialize (Hbound Hpol Hlive Hz); lia].
      exists dropped. split; [done|]. intros d' l _. apply Hdr. }
  rewrite (sh_config _ _ Hsh), (sh_detector _ _ Hsh).
  destruct (init_metadata_ok (staleReadDetector n) (newDataRecord now k (Some x) (timeToLiveSeconds (config n))) d Hd Hk)
    as (r & Er & Ek & Ev & Es & Ex & El & _).
  rewrite Er, res_bind_ok.
  destruct (add_record_ok n1 k d r (sh_wf _ _ Hsh) Hk) as (s' & l & E2 & Hw2 & Ha & Hl);
    [by rewrite Ek | by left; rewrite Es |].
  rewrite E2, res_bind_ok. eexists _, _. split; [done|]. split; [|split; [|split]].
  - eapply step_trans; [by apply shrinks_step| |by rewrite (sh_counter _ _ Hsh)].
    split; cbn; try done. intros d' y r0. unfold entry. cbn. rewrite Ha.
    intros [[<- <-]|[Hne Hx]]%lookup_insert_Some.
    + rewrite lookup_insert_eq. intros [= <-]. left. by rewrite Es.
    + destruct (nc_entries n1 (sh_wf _ _ Hsh) d' y Hx) as (r1 & Hr1 & _).
      rewrite lookup_insert_ne by (intros ->; congruence). intros Hx'. right. right. by exists r0.
  - cbn. rewrite <- (sh_records _ _ Hsh). by apply insert_subseteq.
  - intros Hpol Hlive. destruct (Hev Hpol Hlive) as (dropped & He & Hdr). split.
    + exists dropped. split; [done|]. intros d' y Hne. unfold entry. cbn. rewrite Ha, lookup_insert_ne by done. apply Hdr.
    + intros Hz. specialize (Hbound Hpol Hlive Hz). rewrite (abs_size _ (nc_store _ (sh_wf _ _ Hsh))) in Hbound.
      rewrite (abs_size _ (nc_store _ Hw2)). cbn [store with_store]. rewrite Ha, map_size_insert.
      destruct (_ !! d); cbn; lia.
  - split; [done|]. exists l, r. unfold entry. cbn. rewrite Ha, !lookup_insert_eq. rewrite (sh_records _ _ Hsh) in Hl. done.
Qed.

Lemma invalidate_ok n k d :
  nc_inv n -> key_ok k d ->
  exists n', invalidate n k = Ok n' /\ step_ok n n' /\ entry n' d = None.
Proof.
  intros [Hw _ _] Hk. unfold invalidate. destruct (remove_ok n k d Hw Hk) as (s' & E & Hs & Ha & Hsh).
  rewrite E, res_bind_ok. eexists. split; [done|]. split; [by apply shrinks_step|].
  unfold entry. cbn. by rewrite Ha, lookup_delete_eq.
Qed.

Lemma clear_ok n : nc_inv n -> step_ok n (clear n) /\ forall d, entry (clear n) d = None.
Proof.
  intros [Hw _ _]. split; [|done]. apply shrinks_step. split; try done; [|apply map_empty_subseteq].
  apply shrink_wf; [done | apply hm_new_ok | apply map_empty_subseteq].
Qed.

Lemma isStaleRead_ok o r d :
  detector_ok o -> key_ok (dr_key r) d -> exists b, isStaleRead o r = Ok b.
Proof.
  intros Ho Hk. destruct o as [t|]; cbn in *; [|eauto].
  destruct (Ho _ _ Hk) as (p & c & Ep & Ec). rewrite Ep, res_bind_ok, Ec, res_bind_ok. eauto.
Qed.

Lemma count_step n n' f :
  f = count_miss \/ f = count_hit -> step_ok n n' -> step_ok n (f n').
Proof. by intros [->| ->] [[] ? ? ? ?]; split; cbn; auto. Qed.

Lemma update_step n d l r r' :
  nc_wf n -> entry n d = Some l -> records n !! l = Some r -> dr_key r' = dr_key r ->
  status r' = status r \/ status r' = READ_PERMITTED ->
  step_ok n (with_store n (store n) (<[l := r']> (records n))).
Proof.
  intros Hw El Er Ek Es. split; cbn; try done.
  - eapply update_record_ok; try done. destruct Es as [Es|Es]; [|by left].
    unfold status_ok. rewrite Es. by apply (nc_status n Hw l).
  - intros d' x r0. unfold entry. cbn. intros Ex [[<- <-]|[Hne Hx]]%lookup_insert_Some.
    + destruct Es as [->| ->]; [|by left]. right. right. by exists r.
    + right. right. by exists r0.
Qed.

Lemma get_ok now n k d :
  nc_inv n -> key_ok k d ->
  exists o n', get now n k = Ok (o, n') /\ step_ok n n' /\
    match entry n d with
    | None => o = Ok None
    | Some l => exists r stale, records n !! l = Some r /\ isStaleRead (staleReadDetector n) r = Ok stale /\
        if stale || isExpired now (maxIdleSeconds (config n)) r then o = Ok None /\ entry n' d = None
        else o = read_out n (dr_value r)
    end.
Proof.
  intros [Hw Hc Hd] Hk. unfold get. pose proof (lookup_record_ok n k d Hw Hk) as Hlk.
  destruct (entry n d) as [l|] eqn:El.
  2:{ rewrite Hlk, res_bind_ok. eexists _, _. split; [done|]. split; [|done].
      apply count_step; [auto | by apply shrinks_step, shrinks_refl]. }
  destruct Hlk as (r & Er & Hkr & ->). rewrite res_bind_ok.
  destruct (isStaleRead_ok (staleReadDetector n) r d Hd Hkr) as [b Eb]. rewrite Eb, res_bind_ok.
  destruct (remove_ok n k d Hw Hk) as (s' & E & Hs & Ha & Hsh).
  assert (forall m, abs (store m) = delete d (abs (store n)) -> entry m d = None) as Hgone.
  { intros m Em. unfold entry. by rewrite Em, lookup_delete_eq. }
  destruct b.
  { rewrite E, res_bind_ok. eexists _, _. split; [done|]. split; [apply count_step; [auto | by apply shrinks_step]|].
    exists r, true. split_and!; try done. cbn [orb]. split; [done | by apply Hgone]. }
  destruct (isExpired now (maxIdleSeconds (config n)) r) eqn:Ex.
  { destruct (drop_record_ok n k d count_expired ltac:(auto) Hw Hk) as (n1 & E1 & Hsh1 & Ha1 & _).
    unfold expireRecord. rewrite E1, res_bind_ok. eexists _, _. split; [done|].
    split; [apply count_step; [auto | by apply shrinks_step]|].
    exists r, false. split_and!; try done. rewrite Ex. cbn. split; [done | by apply Hgone]. }
  eexists _, _. split; [done|]. split.
  - apply count_step; [auto|]. eapply update_step; [done | done | done | done | by left].
  - exists r, false. rewrite Ex. by split_and!.
Qed.

Lemma next_id_step n :
  long_val (reservationCounter n) < 2 ^ 63 - 1 -> 0 <= long_val (reservationCounter n) -> nc_wf n ->
  let n1 := (nextReservationId n).2 in
  nc_wf n1 /\ long_val (reservationCounter n1) = long_val (reservationCounter n) + 1.
Proof.
  intros Hlt Hge [W1 W2 W3 W4 W5].
  assert (long_val (reservationCounter (nextReservationId n).2) = long_val (reservationCounter n) + 1) as E.
  { cbn. rewrite long_val_add, long_1. apply swrap_id; unfold in_sint; lia. }
  split; [|done]. split; try done. intros l r Hr. destruct (W5 l r Hr) as [?|?]; [by left|right].
  rewrite E. cbn in *. lia.
Qed.

(** [tryReserveForUpdate] hands out the next id, or none when the record is reserved. *)
Lemma reserve_ok now choose random n k d :
  nc_inv n -> key_ok k d -> 0 <= long_val (reservationCounter n) < 2 ^ 63 - 1 ->
  exists rid n', tryReserveForUpdate now choose random n k = Ok (rid, n') /\ step_ok n n' /\
    long_val (reservationCounter n') = long_val (reservationCounter n) + 1 /\
    (rid = reservationCounter n /\
       (exists l r, entry n' d = Some l /\ records n' !! l = Some r /\ status r = rid) \/
     rid = NOT_RESERVED /\
       (exists l r, entry n d = Some l /\ records n !! l = Some r /\ status r <> READ_PERMITTED)).
Proof.
  intros [Hw Hc Hd] Hk [Hge Hlt]. unfold tryReserveForUpdate.
  destruct (next_id_step n Hlt Hge Hw) as [Hw1 Ek]. set (n1 := (nextReservationId n).2) in *.
  pose proof (lookup_record_ok n k d Hw Hk) as Hlk.
  rewrite (surjective_pairing (nextReservationId n)). fold n1. cbn [fst nextReservationId].
  destruct (entry n d) as [l|] eqn:El.
  - destruct Hlk as (r & Er & Hkr & ->). rewrite res_bind_ok. unfold casStatus.
    destruct (long_eqb READ_PERMITTED (status r)) eqn:Es.
    + eexists _, _. split; [done|]. apply long_eqb_true in Es. set (r' := mkDataRecord _ _ _ _ _ _ _ _ _ _).
      assert (nc_wf (with_store n1 (store n1) (<[l := r']> (records n1)))) as Hw2.
      { eapply (update_record_ok n1 d l r r'); [done | done | done | done |].
        right. cbn [status r']. lia. }
      split; [|split; [done|]].
      * split; [done | done | done | cbn [with_store reservationCounter]; lia |].
        intros d' x r0 Ex Hx. cbn [records with_store] in Hx.
        apply lookup_insert_Some in Hx as [[<- <-]|[Hne Hx]]; [by right; left|].
        right. right. by exists r0.
      * left. split; [done|]. exists l, r'. split_and!; [done | cbn; by rewrite lookup_insert_eq | done].
    + eexists _, _. split; [done|]. split; [|split; [done|]].
      * split; [done | done | done | lia |]. intros d' x r0 Ex Hx. right. right. by exists r0.
      * right. split; [done|]. exists l, r. split_and!; [done | done |]. intros E. rewrite E, long_eqb_refl in Es. done.
  - rewrite Hlk, res_bind_ok.
    destruct (doEviction_ok now choose random n1 Hw1 Hc) as (n2 & E2 & Hsh & _). rewrite E2, res_bind_ok.
    unfold casStatus. cbn [newDataRecord status]. rewrite long_eqb_refl. cbn [snd]. set (r' := mkDataRecord _ _ _ _ _ _ _ _ _ _).
    destruct (add_record_ok n2 k d r' (sh_wf _ _ Hsh) Hk Hk) as (s' & x & E3 & Hw3 & Ha & Hx).
    { right. cbn [status r']. rewrite (sh_counter _ _ Hsh). lia. }
    rewrite E3, res_bind_ok. eexists _, _. split; [done|]. split; [|split].
    + split; [done | exact (sh_config _ _ Hsh) | exact (sh_detector _ _ Hsh) | |].
      * cbn [with_store reservationCounter]. rewrite (sh_counter _ _ Hsh). lia.
      * intros d' y r0. unfold entry. cbn. rewrite Ha. intros [[<- <-]|[Hne Hy]]%lookup_insert_Some.
        -- rewrite lookup_insert_eq. intros [= <-]. by right; left.
        -- destruct (nc_entries n2 (sh_wf _ _ Hsh) d' y Hy) as (r1 & Hr1 & _).
           rewrite lookup_insert_ne by (intros ->; congruence). intros Hy'. right. right. exists r0.
           pose proof (lookup_weaken _ _ _ _ Hy (sh_entries _ _ Hsh)). rewrite (sh_records _ _ Hsh) in Hy'. done.
    + cbn [with_store reservationCounter]. rewrite (sh_counter _ _ Hsh). done.
    + left. split; [done|]. exists x, r'. unfold entry. cbn. rewrite Ha, !lookup_insert_eq. done.
Qed.

(** The cached record of [d], if any, is not reserved under [rid]. *)
Definition unreserved n d (rid : L) : Prop :=
  forall l r, entry n d = Some l -> records n !! l = Some r -> status r <> rid.

Lemma publish_ok now n k d v rid :
  nc_inv n -> key_ok k d ->
  exists o n', tryPublishReserved now n k v rid = Ok (o, n') /\ step_ok n n' /\
    ((exists l r r', entry n d = Some l /\ records n !! l = Some r /\ status r = rid /\
        entry n' d = Some l /\ records n' !! l = Some r' /\ status r' = READ_PERMITTED /\
        match convert n v with
        | Ok x => dr_value r' = Some x /\ o = Ok None
        | Err e => dr_value r' = dr_value r /\ o = Err e
        end) \/
     (n' = n /\ unreserved n d rid)).
Proof.
  intros [Hw Hc Hd] Hk. unfold tryPublishReserved. pose proof (lookup_record_ok n k d Hw Hk) as Hlk.
  destruct (entry n d) as [l|] eqn:El.
  2:{ rewrite Hlk, res_bind_ok. eexists _, _. split; [done|].
      split; [by apply shrinks_step, shrinks_refl|]. right. split; [done|]. intros l r E. congruence. }
  destruct Hlk as (r & Er & Hkr & ->). rewrite res_bind_ok. unfold casStatus.
  destruct (long_eqb rid (status r)) eqn:Es.
  - apply long_eqb_true in Es. destruct (convert n v) as [x|e].
    + set (r1 := publish now x _).
      destruct (init_metadata_ok (staleReadDetector n) r1 d Hd Hkr) as (r' & E' & Ek & Ev & Est & _).
      rewrite E', res_bind_ok. eexists _, _. split; [done|]. split.
      * eapply update_step; [done | done | done | by rewrite Ek | right; by rewrite Est].
      * left. exists l, r, r'. unfold entry in *. cbn. rewrite lookup_insert_eq, Est, Ev. by split_and!.
    + eexists _, _. split; [done|]. split; [by eapply update_step; [done | done | done | | right]|].
      left. exists l, r. eexists. unfold entry in *. cbn. rewrite lookup_insert_eq. by split_and!.
  - eexists _, _. split; [done|]. split; [by apply shrinks_step, shrinks_refl|]. right. split; [done|].
    intros l' r' E E' <-. assert (l' = l) as -> by congruence. assert (r' = r) as -> by congruence.
    by rewrite long_eqb_refl in Es.
Qed.

(** ** Steps of the cache *)

Inductive nc_step : NearCacheImpl V L -> NearCacheImpl V L -> Prop :=
  | nc_put now choose random n k d v o n' :
      key_ok k d -> put now choose random n k v = Ok (o, n') -> nc_step n n'
  | nc_get now n k d o n' : key_ok k d -> get now n k = Ok (o, n') -> nc_step n n'
  | nc_invalidate n k d n' : key_ok k d -> invalidate n k = Ok n' -> nc_step n n'
  | nc_clear n : nc_step n (clear n)
  | nc_reserve now choose random n k d rid n' :
      key_ok k d -> long_val (reservationCounter n) < 2 ^ 63 - 1 ->
      tryReserveForUpdate now choose random n k = Ok (rid, n') -> nc_step n n'
  | nc_publish now n k d v rid o n' :
      key_ok k d -> tryPublishReserved now n k v rid = Ok (o, n') -> nc_step n n'
  | nc_detect n t : detector_ok t -> nc_step n (setStaleReadDetector n t).

Record nc_next n n' : Prop := {
  next_inv : nc_inv n';
  next_counter : long_val (reservationCounter n) <= long_val (reservationCounter n');
  next_status d l r : entry n' d = Some l -> records n' !! l = Some r ->
    status r = READ_PERMITTED \/ status r = reservationCounter n \/
    exists r0, entry n d = Some l /\ records n !! l = Some r0 /\ status r0 = status r
}.

Lemma step_next n n' : nc_inv n -> step_ok n n' -> nc_next n n'.
Proof. intros Hi Hs. pose proof (inv_step n n' Hi Hs). by destruct Hs. Qed.

Lemma nc_step_next n n' : nc_inv n -> 0 <= long_val (reservationCounter n) -> nc_step n n' -> nc_next n n'.
Proof.
  intros Hi Hge Hs. destruct Hs as [now choose random n k d v o n' Hk E|now n k d o n' Hk E|n k d n' Hk E|n
    |now choose random n k d rid n' Hk Hlt E|now n k d v rid o n' Hk E|n t Ht].
  - destruct (put_ok now choose random n k d v Hi Hk) as (o' & m & Em & Hs & _).
    rewrite Em in E. injection E as <- <-. by apply step_next.
  - destruct (get_ok now n k d Hi Hk) as (o' & m & Em & Hs & _).
    rewrite Em in E. injection E as <- <-. by apply step_next.
  - destruct (invalidate_ok n k d Hi Hk) as (m & Em & Hs & _).
    rewrite Em in E. injection E as <-. by apply step_next.
  - by apply step_next, clear_ok.
  - destruct (reserve_ok now choose random n k d Hi Hk ltac:(lia)) as (rid' & m & Em & Hs & _).
    rewrite Em in E. injection E as <- <-. by apply step_next.
  - destruct (publish_ok now n k d v rid Hi Hk) as (o' & m & Em & Hs & _).
    rewrite Em in E. injection E as <- <-. by apply step_next.
  - destruct Hi as [[] Hc _]. split; cbn; [|lia|].
    + split; [split; done | done | done].
    + intros d l r El Er. right. right. by exists r.
Qed.

Lemma next_unreserved n n' d rid :
  nc_next n n' -> long_val rid < long_val (reservationCounter n) -> rid <> READ_PERMITTED ->
  unreserved n d rid -> unreserved n' d rid.
Proof.
  intros [_ _ Hst] Hlt Hrp Hu l r El Er Es. destruct (Hst d l r El Er) as [E|[E|(r0 & El0 & Er0 & E)]].
  - congruence.
  - rewrite <- Es, E in Hlt. lia.
  - apply (Hu l r0); congruence.
Qed.

Lemma nc_steps_inv n n' : nc_inv n -> 0 <= long_val (reservationCounter n) -> rtc nc_step n n' ->
  nc_inv n' /\ long_val (reservationCounter n) <= long_val (reservationCounter n') /\
  forall d rid, long_val rid < long_val (reservationCounter n) -> rid <> READ_PERMITTED ->
    unreserved n d rid -> unreserved n' d rid.
Proof.
  intros Hi Hge Hs. induction Hs as [n|n n1 n2 H12 _ IH]; [done|].
  pose proof (nc_step_next n n1 Hi Hge H12) as Hn. pose proof Hn as [Hi1 Hc1 _].
  destruct (IH Hi1 ltac:(lia)) as (Hi2 & Hc2 & Hu2). split_and!; [done | lia |].
  intros d rid Hlt Hrp Hu. apply Hu2; [lia | done |]. by eapply next_unreserved.
Qed.
End NearCacheFacts.

(** ** Properties *)

Section NearCacheProperties.
Context {V : Type} `{SerializationService V} {L : Type} `{LongLaws L}.

(** A read never returns a stale or expired entry: a hit returns the value of the cached record,
    which is neither stale against the metadata of its partition (same partition UUID, sequence
    not below the stale sequence) nor past its time to live or idle time; a record that is stale or
    expired is dropped and reported as a miss. The read throws only when the conversion of the
    value does, and keeps the invariant of the cache. *)
Theorem get_returns_fresh (n : NearCacheImpl V L) (now : Z) (k : HeapData) (d : buffer) :
  nc_inv n -> key_ok k d ->
  exists o n', get now n k = Ok (o, n') /\ nc_inv n' /\
    match entry n d with
    | None => o = Ok None
    | Some l => exists r stale, records n !! l = Some r /\ isStaleRead (staleReadDetector n) r = Ok stale /\
        if stale || isExpired now (maxIdleSeconds (config n)) r then o = Ok None /\ entry n' d = None
        else o = read_out n (dr_value r)
    end.
Proof.
  intros Hi Hk. destruct (get_ok now n k d Hi Hk) as (o & n' & E & Hs & Ho).
  exists o, n'. split_and!; [done | by eapply inv_step | done].
Qed.

(** A value put is the value read: right after [put], [get] of the same key at the same
    time returns the value through the conversions of the in-memory format, when it can be converted, the partition
    of the key has a UUID and its stale sequence is not ahead of its sequence. *)
Theorem put_then_get (n : NearCacheImpl V L) (now : Z) (choose : nat -> nat) (random : nat -> nat -> bool)
    (k : HeapData) (d : buffer) (v x : V) :
  nc_inv n -> key_ok k d -> convert n v = Ok x ->
  0 <= timeToLiveSeconds (config n) ->
  (forall t p c, staleReadDetector n = Some t -> partitionOf t k = Ok p ->
     getMetadataContainer (containers t) p = Ok c ->
     (exists u, uuid c = Some u) /\ long_val (staleSequence c) <= long_val (sequence c)) ->
  exists n' n'', put now choose random n k v = Ok (Ok tt, n') /\ nc_inv n' /\
    get now n' k = Ok (read_out n (Some x), n'').
Proof.
  intros Hi Hk Hx Httl Hmeta. destruct (put_ok now choose random n k d v Hi Hk) as (o' & n' & E & Hs & _ & _ & Hput).
  rewrite Hx in Hput. destruct Hput as (-> & l & r & El & Er & _ & Ek & Ev & Ex & Ea & Em).
  pose proof (inv_step n n' Hi Hs) as Hi'.
  destruct (get_ok now n' k d Hi' Hk) as (o & n'' & E' & _ & Ho). rewrite El in Ho.
  destruct Ho as (r' & stale & Er' & Est & Ho). rewrite Er in Er'. injection Er' as <-.
  assert (isExpired now (maxIdleSeconds (config n')) r = false) as Hexp.
  { unfold isExpired. rewrite Ex, Ea. unfold expiration. rewrite orb_false_iff, andb_false_iff. split.
    - destruct (Z.eqb_spec (timeToLiveSeconds (config n)) 0); [done|].
      apply andb_false_iff. right. apply Z.ltb_ge. lia.
    - destruct (Z.ltb_spec 0 (maxIdleSeconds (config n'))); [right | by left]. apply Z.ltb_ge. lia. }
  assert (stale = false) as ->.
  { rewrite (step_detector _ _ Hs) in Est. destruct (staleReadDetector n) as [t|] eqn:Et; [|cbn in Est; congruence].
    cbn [isStaleRead initInvalidationMetadata newDataRecord dr_key] in Est, Em.
    rewrite Ek in Est. destruct (partitionOf t k) as [p|] eqn:Ep; [|done]. rewrite res_bind_ok in Est; rewrite res_bind_ok in Em.
    destruct (getMetadataContainer (containers t) p) as [c|] eqn:Ec; [|done]. rewrite res_bind_ok in Est; rewrite res_bind_ok in Em.
    destruct (Hmeta t p c eq_refl Ep Ec) as [[u Hu] Hseq]. injection Em as <-. injection Est as <-.
    cbn [invalidationSequence set_metadata]. unfold hasSameUuid. cbn [dr_uuid set_metadata]. rewrite Hu.
    rewrite (proj2 (UUID_equals_true u (Some u)) eq_refl), long_ltb_spec, (proj2 (Z.ltb_ge _ _)) by done. done. }
  rewrite Hexp in Ho. cbn in Ho. subst o. exists n', n''. split_and!; [done | done |].
  rewrite E', Ev. unfold read_out. by rewrite (step_config _ _ Hs).
Qed.

(** C28: an invalidation beats a pending reservation: when a key was reserved to cache a value being
    fetched, and the key is invalidated before the value arrives, publishing the value
    changes nothing, whatever other operations (including new reservations of the same
    key) happen before and after the invalidation. *)
Theorem invalidated_reservation_not_published (n n1 n2 n3 n4 : NearCacheImpl V L) (now now' : Z)
    (choose : nat -> nat) (random : nat -> nat -> bool) (k : HeapData) (d : buffer) (rid : L) (v : V) :
  nc_inv n -> 0 <= long_val (reservationCounter n) < 2 ^ 63 - 1 -> key_ok k d ->
  tryReserveForUpdate now choose random n k = Ok (rid, n1) -> rid <> NOT_RESERVED ->
  rtc nc_step n1 n2 -> invalidate n2 k = Ok n3 -> rtc nc_step n3 n4 ->
  exists o, tryPublishReserved now' n4 k v rid = Ok (o, n4).
Proof.
  intros Hi Hc Hk E1 Hr H12 E3 H34.
  destruct (reserve_ok now choose random n k d Hi Hk Hc) as (rid' & m & Em & Hs & Hcnt & Hcase).
  rewrite Em in E1. injection E1 as -> ->.
  destruct Hcase as [[-> _]|[-> _]]; [|done]. pose proof (inv_step n n1 Hi Hs) as Hi1.
  destruct (nc_steps_inv n1 n2 Hi1 ltac:(lia) H12) as (Hi2 & Hc2 & _).
  destruct (invalidate_ok n2 k d Hi2 Hk) as (m & Em' & Hs3 & Hgone). rewrite Em' in E3. injection E3 as ->.
  pose proof (inv_step n2 n3 Hi2 Hs3) as Hi3. pose proof (step_counter _ _ Hs3) as Hc3.
  destruct (nc_steps_inv n3 n4 Hi3 ltac:(lia) H34) as (Hi4 & _ & Hu).
  assert (reservationCounter n <> READ_PERMITTED) as Hrp.
  { intros Eq. apply (f_equal long_val) in Eq. unfold READ_PERMITTED in Eq.
    rewrite long_val_of_Z in Eq by done. lia. }
  assert (unreserved n3 d (reservationCounter n)) as Hu3 by (intros l r El; congruence).
  specialize (Hu d (reservationCounter n) ltac:(lia) Hrp Hu3).
  destruct (publish_ok now' n4 k d v (reservationCounter n) Hi4 Hk) as (o & n5 & E5 & _ & [(l & r & _ & El & Er & Es & _)|[-> _]]); [|eauto].
  by destruct (Hu l r El Er).
Qed.

(** C40: eviction bounds the cache and follows the policy: with an eviction policy, and when every candidate left in the
    sampling pool is still cached, a [put] never takes the cache above [evictionMaxSize]. Of the entries of
    other keys it drops none while there is room. In a full cache it looks at [evictionSamplingCount] records (all, if there are
    fewer): if some of them have expired, exactly these are dropped and nothing else;
    otherwise exactly one record is, the first of the candidates and the sample in the order of the policy (least recently
    used for LRU, fewest hits for LFU), and the next [evictionSamplingPoolSize] - 1 of that order are the candidates
    left. The other records are not touched. The value is cached under the key when it can be converted; when the conversion throws, [put]
    throws that error after the eviction. *)
Theorem put_within_bound (n : NearCacheImpl V L) (now : Z) (choose : nat -> nat) (random : nat -> nat -> bool)
    (k : HeapData) (d : buffer) (v : V) :
  nc_inv n -> key_ok k d -> evictionPolicy (config n) <> NONE -> pool_live n ->
  hm_size (store n) <= evictionMaxSize (config n) ->
  exists o n' sample dropped, put now choose random n k v = Ok (o, n') /\ nc_inv n' /\
    hm_size (store n') <= evictionMaxSize (config n') /\
    sample ⊆+ hm_values (store n) /\
    length sample = Nat.min (evictionSamplingCount (config n)) (length (hm_values (store n))) /\
    evicted now n sample dropped (evictionCandidatePool n') /\
    others_kept n n' d dropped /\ records n ⊆ records n' /\
    match convert n v with
    | Err e => o = Err e
    | Ok x => o = Ok tt /\ exists l r, entry n' d = Some l /\ records n' !! l = Some r /\ dr_value r = Some x
    end.
Proof.
  intros Hi Hk Hpol Hlive Hsz.
  destruct (put_ok now choose random n k d v Hi Hk) as (o & n' & E & Hs & Hrec & Hev & Hput).
  destruct (Hev Hpol Hlive) as [(dropped & He & Hd) Hb]. exists o, n', (sample_of choose n), dropped.
  split_and!; [done | by eapply inv_step | rewrite (step_config _ _ Hs); auto | | | done | done | done |].
  - etransitivity; [apply sublist_submseteq, sublist_take|]. by rewrite shuffleArray_perm.
  - unfold sample_of. by rewrite length_take, shuffleArray_perm.
  - destruct (convert n v); [|by destruct Hput]. destruct Hput as (? & l & r & ? & ? & _ & _ & ? & _). eauto 6.
Qed.
End NearCacheProperties.

(** ** Witnesses *)

(** Numbers; a negative one cannot be converted. *)
Definition demo_convert (v : Z) : res Z := if v <? 0 then Err RangeError else Ok v.
#[local] Instance demo_serialization : SerializationService Z := {| toObject := demo_convert; toData := demo_convert |}.

Definition demo_config : NearCacheConfig := mkNearCacheConfig true 0 OBJECT 0 LRU 2 2 2.
Definition demo_cache : NearCacheImpl Z Int64.t := newNearCache demo_config.
Definition no_choice (i : nat) : nat := 0%nat.
Definition no_random (x y : nat) : bool := true.

Lemma demo_inv : nc_inv demo_cache.
Proof.
  split; [split|split_and!|]; try done; try (cbn; lia).
  - apply hm_new_ok.
  - intros l Hl. by apply not_elem_of_nil in Hl.
Qed.

Lemma get_returns_fresh_witness : exists o n', get 5 demo_cache (demo_key 1) = Ok (o, n') /\ o = Ok None.
Proof.
  destruct (get_returns_fresh demo_cache 5 (demo_key 1) [Byte.x41] demo_inv) as (o & n' & E & _ & Ho).
  - reflexivity.
  - exists o, n'. split; [exact E | exact Ho].
Defined.

Lemma put_then_get_witness :
  exists n' n'', put 5 no_choice no_random demo_cache (demo_key 1) 42 = Ok (Ok tt, n') /\
    get 5 n' (demo_key 1) = Ok (Ok (Some 42), n'').
Proof.
  destruct (put_then_get demo_cache 5 no_choice no_random (demo_key 1) [Byte.x41] 42 42 demo_inv)
    as (n' & n'' & E & _ & E').
  - reflexivity.
  - reflexivity.
  - vm_compute. discriminate.
  - intros t p c Et. discriminate Et.
  - exists n', n''. split; [exact E | exact E'].
Defined.

(** A full cache: two keys put at the times 1 and 2. *)
Definition put_demo (now : Z) (i : nat) (n : NearCacheImpl Z Int64.t) : NearCacheImpl Z Int64.t :=
  match put now no_choice no_random n (demo_key i) 42 with Ok (_, n') => n' | Err _ => n end.
Definition demo_full : NearCacheImpl Z Int64.t := put_demo 2 2 (put_demo 1 1 demo_cache).

Lemma put_demo_inv now i n : nc_inv n -> nc_inv (put_demo now i n).
Proof.
  intros Hi. destruct (put_ok now no_choice no_random n (demo_key i) (replicate i Byte.x41) 42 Hi) as (o & n' & E & Hs & _).
  - reflexivity.
  - unfold put_demo. rewrite E. by eapply inv_step.
Qed.

(** The third key evicts the first. *)
Lemma put_within_bound_witness :
  hm_size (store demo_full) = 2 /\
  exists o n' sample dropped, put 5 no_choice no_random demo_full (demo_key 3) 42 = Ok (o, n') /\
    hm_size (store n') <= 2 /\ evicted 5 demo_full sample dropped (evictionCandidatePool n') /\
    others_kept demo_full n' (replicate 3 Byte.x41) dropped /\ o = Ok tt /\
    hm_has (store n') (demo_key 1) = Ok false /\ hm_has (store n') (demo_key 2) = Ok true.
Proof.
  split; [vm_compute; reflexivity|].
  destruct (put_within_bound demo_full 5 no_choice no_random (demo_key 3) (replicate 3 Byte.x41) 42)
    as (o & n' & sample & dropped & E & _ & Hb & _ & _ & He & Hk & _ & Hput).
  - apply put_demo_inv, put_demo_inv, demo_inv.
  - reflexivity.
  - vm_compute. discriminate.
  - intros l Hl. assert (evictionCandidatePool demo_full = []) as Ep by (vm_compute; reflexivity).
    rewrite Ep in Hl. destruct (not_elem_of_nil l Hl).
  - vm_compute. discriminate.
  - exists o, n', sample, dropped. split; [exact E|].
    assert (evictionMaxSize (config n') = 2 /\ hm_has (store n') (demo_key 1) = Ok false /\
            hm_has (store n') (demo_key 2) = Ok true) as (Ec & E1 & E2)
      by (vm_compute in E; injection E as _ <-; split; [|split]; reflexivity).
    rewrite Ec in Hb. split; [exact Hb|]. split; [exact He|]. split; [exact Hk|]. vm_compute in Hput.
    split; [exact (proj1 Hput)|]. split; [exact E1 | exact E2].
Defined.

Lemma invalidated_reservation_not_published_witness :
  exists rid n1 n3 o, tryReserveForUpdate 5 no_choice no_random demo_cache (demo_key 1) = Ok (rid, n1) /\
    invalidate n1 (demo_key 1) = Ok n3 /\ tryPublishReserved 6 n3 (demo_key 1) 42 rid = Ok (o, n3).
Proof.
  destruct (tryReserveForUpdate 5 no_choice no_random demo_cache (demo_key 1)) as [[rid n1]|] eqn:E1;
    [|vm_compute in E1; discriminate E1].
  destruct (invalidate n1 (demo_key 1)) as [n3|] eqn:E3; [|vm_compute in E1; injection E1 as <- <-; vm_compute in E3; discriminate E3].
  assert (rid <> NOT_RESERVED) as Hr by (vm_compute in E1; injection E1 as <- _; intros Eq; vm_compute in Eq; discriminate Eq).
  destruct (invalidated_reservation_not_published demo_cache n1 n1 n3 n3 5 6 no_choice no_random
    (demo_key 1) [Byte.x41] rid 42 demo_inv) as [o E].
  - vm_compute. split; [discriminate | reflexivity].
  - reflexivity.
  - exact E1.
  - exact Hr.
  - apply rtc_refl.
  - exact E3.
  - apply rtc_refl.
  - exists rid, n1, n3, o. split; [reflexivity | split; [exact E3 | exact E]].
Defined.

(** ** Candidates that are no longer cached *)

(** A run of the cache with [evictionMaxSize] 2: two puts fill it, the third evicts the oldest key and
    leaves the second in the pool of candidates, an invalidation removes that second key, and the
    next two puts find room once and evict a candidate that is gone once. *)
Definition stale_candidate_run : res (NearCacheImpl Z Int64.t) :=
  let put' t i n := '(_, n) ← put t no_choice no_random n (demo_key i) 42; Ok n in
  n1 ← put' 1 1%nat demo_cache; n2 ← put' 2 2%nat n1; n3 ← put' 3 3%nat n2;
  n4 ← invalidate n3 (demo_key 2); n5 ← put' 4 4%nat n4; put' 5 5%nat n5.

(** The hypothesis [pool_live] of [put_within_bound] is needed: a candidate of the pool that was
    invalidated since it was sampled makes the eviction a no-op, and the cache outgrows
    [evictionMaxSize]. *)
Lemma stale_candidate_exceeds_bound :
  exists n, stale_candidate_run = Ok n /\ hm_size (store n) = 3 /\ evictionMaxSize (config n) = 2.
Proof. vm_compute. eexists. split; [reflexivity|]. split; reflexivity. Qed.
