(* ===== verification/NearCachedMap.v ===== *)
(** * The map with a near cache

    [NearCachedMapProxy] of [src/src/proxy/NearCachedMapProxy.ts] on top of [NearCache]: reads go through the cache and
    reserve a record while the member is asked, writes drop the record when the member has answered; and
    [NearCacheManager] of [src/src/nearcache/NearCacheManager.ts].

    The operations of all callers interleave: an operation waits for promises in between, and its stage says for which one.
    The member is its [history] of each key: the values the key has had, oldest first. A request is answered with the
    last value of that moment, or it fails, with or without effect; other clients write too, and invalidation events and
    repairs of the metadata come at any time. A member tells keys apart by their type id and their bytes ([member_key]), the
    cache by their bytes alone ([key_bytes]). The conversions of the serialization service may throw: the promise of the
    operation is then rejected. [Date.now()] and the random choices of the cache are arguments of the steps. *)

From S2P Require Export Prelude NearCache.

(** ** NearCacheManager *)

Module NearCacheManager.
Section NearCacheManager.
Context {V : Type} `{SerializationService V} {L : Type} `{LongLib L}.
Context (getNearCacheConfig : string -> NearCacheConfig).

(** The map [caches] and the cache objects it refers to; a proxy keeps its reference. *)
Record Manager := mkManager { caches : js_map string nat; objects : list (NearCacheImpl V L) }.

Definition getOrCreateNearCache (m : Manager) (name : string) : nat * Manager :=
  match js_map_get String.eqb (caches m) name with
  | Some c => (c, m)
  | None =>
      let c := length (objects m) in
      (c, mkManager (js_map_set String.eqb (caches m) name c) (objects m ++ [newNearCache (getNearCacheConfig name)]))
  end.

Definition clear_object (c : nat) (objects : list (NearCacheImpl V L)) : list (NearCacheImpl V L) := alter clear c objects.

Definition destroyNearCache (m : Manager) (name : string) : Manager :=
  match js_map_get String.eqb (caches m) name with
  | Some c => mkManager (js_map_delete String.eqb (caches m) name).2 (clear_object c (objects m))
  | None => m
  end.

Definition listAllNearCaches (m : Manager) : list nat := map snd (caches m).
Definition clearAllNearCaches (m : Manager) : Manager :=
  mkManager (caches m) (foldr clear_object (objects m) (listAllNearCaches m)).
Definition destroyAllNearCaches (m : Manager) : Manager :=
  mkManager [] (foldr clear_object (objects m) (map snd (caches m))).
End NearCacheManager.
Arguments Manager V L : clear implicits.
End NearCacheManager.

(** ** NearCachedMapProxy *)

(** The type id and the bytes of a key: what a member compares. The partition hash before them is left out. *)
Definition member_key (k : HeapData) : buffer := match payload k with Some p => slice_from p TYPE_OFFSET | None => [] end.

(** The values that are [null], [toObject] of the data of a key, and the keys the program uses with the map. *)
Class MapEnv (V : Type) := {
  isNull : V -> bool;
  keyToObject : HeapData -> res V;
  used_key : HeapData -> Prop
}.

Section NearCachedMap.
Context {V : Type} `{SerializationService V} `{MapEnv V} {L : Type} `{LongLib L}.

(** What an operation has been settled with. *)
Inductive outcome (A : Type) := Resolved (a : A) | Rejected.
Arguments Resolved {A} a.
Arguments Rejected {A}.

(** [getInternal] and [containsKeyInternal]: waiting for the cache to be ready, for the callback with what the cache
    returned, for the member, for the callback with its answer (the value and its place in the history). *)
Inductive ReadStage :=
  | WaitReady
  | Looked (cachedValue : option V)
  | AskedMember (reservation : L)
  | Answered (reservation : L) (value : V) (version : nat)
  | ReadDone (result : outcome V).

(** [containsKeyInternal] asks the member without a reservation. *)
Inductive ContainsStage :=
  | CWaitReady
  | CLooked (cachedValue : option V)
  | CAsked
  | CAnswered (value : V) (version : nat)
  | CDone (result : outcome bool).

(** Waiting for the member, for the callback with its answer. *)
Inductive WriteStage := WriteAsked | WriteApplied (version : nat) | WriteDone (result : outcome nat).

(** [getAllInternal]: the lookups that are left (the partition and the index in its array) and the result so far, an entry
    with the data of its key where the code has the object of the key; the callback that
    reserves the records, the requests to the partitions with their answers, the callback with all answers. *)
Inductive PartStage := PartAsked | PartAnswered (entries : list (HeapData * V * nat)).
Inductive GetAllStage :=
  | ALooking (todo : list (nat * nat)) (arrays : list (list HeapData)) (result : list (HeapData * V))
  | AAsked (reservations : list L) (parts : list (list HeapData * PartStage)) (result : list (HeapData * V))
  | ADone (result : outcome (list (HeapData * V))).

(** Operations on many keys: waiting for the member, for the callback with its answer. *)
Inductive ManyStage := ManyAsked | ManyApplied (versions : buffer -> nat) | ManyDone (result : outcome (buffer -> nat)).

(** [floor] and [floors] are only written: the version the caller has to see at least. *)
Inductive Op :=
  | Read (key : HeapData) (floor : nat) (stage : ReadStage)
  | Contains (key : HeapData) (floor : nat) (stage : ContainsStage)
  | Write (key : HeapData) (stage : WriteStage)
  | WriteAll (stage : ManyStage)
  | GetAll (floors : buffer -> nat) (stage : GetAllStage)
  | PutAll (parts : list (list HeapData * ManyStage)).

(** [written] is only written too: the version of the last write of this client that was acknowledged. *)
Record NCM := mkNCM {
  nearCache : NearCacheImpl V L;
  ready : option bool;
  ops : list Op;
  history : buffer -> list V;
  written : buffer -> nat
}.

Definition with_cache (n : NearCacheImpl V L) (s : NCM) : NCM := mkNCM n (ready s) (ops s) (history s) (written s).
Definition set_op (i : nat) (o : Op) (s : NCM) : NCM :=
  mkNCM (nearCache s) (ready s) (<[i := o]> (ops s)) (history s) (written s).
Definition new_op (o : Op) (s : NCM) : NCM := mkNCM (nearCache s) (ready s) (ops s ++ [o]) (history s) (written s).

(** The value of a key at the member, and its version. *)
Definition current (s : NCM) (d : buffer) : option V := last (history s d).
Definition version (s : NCM) (d : buffer) : nat := pred (length (history s d)).

(** The member sets the value of a key. *)
Definition member_sets (d : buffer) (v : V) (s : NCM) : NCM :=
  mkNCM (nearCache s) (ready s) (ops s)
    (fun d' => if bool_decide (d' = d) then history s d' ++ [v] else history s d') (written s).
(** The member clears the map or evicts all its entries. *)
Definition member_sets_all (v : buffer -> V) (s : NCM) : NCM :=
  mkNCM (nearCache s) (ready s) (ops s) (fun d => history s d ++ [v d]) (written s).

Definition acknowledge (d : buffer) (n : nat) (s : NCM) : NCM :=
  mkNCM (nearCache s) (ready s) (ops s) (history s)
    (fun d' => if bool_decide (d' = d) then Nat.max (written s d') n else written s d').

(** *** The constructor *)

(** [setReady]: the listener was registered, or is not needed, or could not be registered. *)
Definition setReady (b : bool) (s : NCM) : NCM :=
  mkNCM (nearCache s) (match ready s with None => Some b | r => r end) (ops s) (history s) (written s).

(** *** getInternal *)

Definition getInternal (key : HeapData) (s : NCM) : NCM :=
  new_op (Read key (written s (member_key key)) WaitReady) s.

(** The body of [NearCache.get]; when it throws, so does the promise of the operation. *)
Definition get_lookup (now : Z) (i : nat) (key : HeapData) (floor : nat) (s : NCM) : res NCM :=
  '(cachedValue, n) ← get now (nearCache s) key;
  let stage := match cachedValue with Ok o => Looked o | Err _ => ReadDone Rejected end in
  Ok (set_op i (Read key floor stage) (with_cache n s)).

(** The callback with the cached value. *)
Definition get_looked (now : Z) (choose : nat -> nat) (random : nat -> nat -> bool) (i : nat) (key : HeapData) (floor : nat)
    (cachedValue : option V) (s : NCM) : res NCM :=
  match cachedValue with
  | Some v => Ok (set_op i (Read key floor (ReadDone (Resolved v))) s)
  | None =>
      '(reservation, n) ← tryReserveForUpdate now choose random (nearCache s) key;
      Ok (set_op i (Read key floor (AskedMember reservation)) (with_cache n s))
  end.

(** The callback of [MapProxy.getInternal] with the answer of the member, then the one of this class. When the answer cannot
    be converted the record stays reserved; when [tryPublishReserved] throws the value is not returned. *)
Definition get_answered (now : Z) (i : nat) (key : HeapData) (floor : nat) (reservation : L) (value : V) (s : NCM) : res NCM :=
  match toObject value with
  | Err _ => Ok (set_op i (Read key floor (ReadDone Rejected)) s)
  | Ok val =>
      '(published, n) ← tryPublishReserved now (nearCache s) key val reservation;
      let result := match published with Ok _ => Resolved val | Err _ => Rejected end in
      Ok (set_op i (Read key floor (ReadDone result)) (with_cache n s))
  end.

(** *** containsKeyInternal *)

Definition containsKeyInternal (key : HeapData) (s : NCM) : NCM :=
  new_op (Contains key (written s (member_key key)) CWaitReady) s.

Definition contains_lookup (now : Z) (i : nat) (key : HeapData) (floor : nat) (s : NCM) : res NCM :=
  '(cachedValue, n) ← get now (nearCache s) key;
  let stage := match cachedValue with Ok o => CLooked o | Err _ => CDone Rejected end in
  Ok (set_op i (Contains key floor stage) (with_cache n s)).

Definition contains_looked (i : nat) (key : HeapData) (floor : nat) (cachedValue : option V) (s : NCM) : NCM :=
  match cachedValue with
  | Some v => set_op i (Contains key floor (CDone (Resolved (negb (isNull v))))) s
  | None => set_op i (Contains key floor CAsked) s
  end.

(** *** Writes of one key *)

(** [putInternal], [putIfAbsentInternal], [putTransientInternal], [setInternal], [replaceInternal],
    [replaceIfSameInternal], [removeInternal], [tryRemoveInternal], [tryPutInternal], [setTtlInternal], [evictInternal] and
    [executeOnKeyInternal] ask the member; [deleteInternal] drops the record first. *)
Definition writeInternal (key : HeapData) (s : NCM) : NCM := new_op (Write key WriteAsked) s.
Definition deleteInternal (key : HeapData) (s : NCM) : res NCM :=
  n ← invalidate (nearCache s) key;
  Ok (writeInternal key (with_cache n s)).

(** [invalidateCacheEntryAndReturn], in the callback with the answer. *)
Definition invalidateCacheEntryAndReturn (i : nat) (key : HeapData) (v : nat) (s : NCM) : res NCM :=
  n ← invalidate (nearCache s) key;
  Ok (acknowledge (member_key key) v (set_op i (Write key (WriteDone (Resolved v))) (with_cache n s))).

(** *** clear and evictAll *)

Definition clear_map (s : NCM) : NCM := new_op (WriteAll ManyAsked) s.
Definition evictAll (s : NCM) : NCM := clear_map (with_cache (NearCache.clear (nearCache s)) s).

(** [invalidateCacheAndReturn]. *)
Definition invalidateCacheAndReturn (i : nat) (versions : buffer -> nat) (s : NCM) : NCM :=
  mkNCM (NearCache.clear (nearCache s)) (ready s) (<[i := WriteAll (ManyDone (Resolved versions))]> (ops s)) (history s)
    (fun d => Nat.max (written s d) (versions d)).

(** *** putAllInternal *)

(** One request per partition. *)
Definition putAllInternal (keys : list (list HeapData)) (s : NCM) : NCM :=
  new_op (PutAll (map (fun ks => (ks, ManyAsked)) keys)) s.

Fixpoint invalidate_keys (keys : list HeapData) (n : NearCacheImpl V L) : res (NearCacheImpl V L) :=
  match keys with
  | [] => Ok n
  | k :: keys => n ← invalidate n k; invalidate_keys keys n
  end.

(** [finalizePutAll]: each answer drops the keys of all partitions. *)
Definition finalizePutAll (i j : nat) (parts : list (list HeapData * ManyStage)) (keys : list HeapData)
    (versions : buffer -> nat) (s : NCM) : res NCM :=
  n ← invalidate_keys (concat parts.*1) (nearCache s);
  Ok (mkNCM n (ready s) (<[i := PutAll (<[j := (keys, ManyDone (Resolved versions))]> parts)]> (ops s)) (history s)
        (fun d => if bool_decide (d ∈ map member_key keys) then Nat.max (written s d) (versions d) else written s d)).

(** *** getAllInternal *)

(** The lookups in the order the loops make them: each array from its end. *)
Definition lookups (arrays : list (list HeapData)) : list (nat * nat) :=
  concat (imap (fun j ks => map (pair j) (rev (seq 0 (length ks)))) arrays).

Definition getAllInternal (arrays : list (list HeapData)) (s : NCM) : NCM :=
  new_op (GetAll (written s) (ALooking (lookups arrays) arrays [])) s.

(** A lookup with its callback, which only changes [result] and the array. If one of them throws, so does the operation. *)
Definition getAll_lookup (now : Z) (i : nat) (floors : buffer -> nat) (j k : nat) (todo : list (nat * nat))
    (arrays : list (list HeapData)) (result : list (HeapData * V)) (s : NCM) : res NCM :=
  match arrays !! j with
  | None => Err TypeError
  | Some ks =>
      match ks !! k with
      | None => Err TypeError
      | Some key =>
          '(cachedResult, n) ← get now (nearCache s) key;
          let stage :=
            match cachedResult with
            | Err _ => ADone Rejected
            | Ok None => ALooking todo arrays result
            | Ok (Some v) =>
                match keyToObject key with
                | Err _ => ADone Rejected
                | Ok _ => ALooking todo (<[j := delete k ks]> arrays) (result ++ [(key, v)])
                end
            end in
          Ok (set_op i (GetAll floors stage) (with_cache n s))
      end
  end.

Fixpoint reserve_all (now : Z) (choose : nat -> nat) (random : nat -> nat -> bool) (keys : list HeapData)
    (n : NearCacheImpl V L) : res (list L * NearCacheImpl V L) :=
  match keys with
  | [] => Ok ([], n)
  | k :: keys =>
      '(r, n) ← tryReserveForUpdate now choose random n k;
      '(rs, n) ← reserve_all now choose random keys n;
      Ok (r :: rs, n)
  end.

(** After all lookups. *)
Definition getAll_ask (now : Z) (choose : nat -> nat) (random : nat -> nat -> bool) (i : nat) (floors : buffer -> nat)
    (arrays : list (list HeapData)) (result : list (HeapData * V)) (s : NCM) : res NCM :=
  '(reservations, n) ← reserve_all now choose random (concat arrays) (nearCache s);
  Ok (set_op i (GetAll floors (AAsked reservations (map (fun ks => (ks, PartAsked)) arrays) result)) (with_cache n s)).

(** All partitions have answered: the entries, in the order of the partitions. *)
Definition all_answered (parts : list (list HeapData * PartStage)) : option (list (HeapData * V * nat)) :=
  l ← mapM (fun p => match p.2 with PartAnswered l => Some l | PartAsked => None end) parts; Some (concat l).

(** [serializedEntryArray.map(deserializeEntry)] of [MapProxy.getAllInternal]. *)
Fixpoint deserializeEntries (entries : list (HeapData * V * nat)) : res (list (HeapData * V)) :=
  match entries with
  | [] => Ok []
  | e :: entries =>
      _ ← keyToObject e.1.1;
      v ← toObject e.1.2;
      l ← deserializeEntries entries;
      Ok ((e.1.1, v) :: l)
  end.

(** [serializedEntryArray.forEach]: the entry at an index is published with the reservation at the same index. Without one,
    a cached record is asked to compare its status with [undefined], which throws. The flag is false when this or
    a conversion threw; the entries before are published. *)
Fixpoint publish_all (now : Z) (entries : list (HeapData * V * nat)) (reservations : list L) (n : NearCacheImpl V L)
    : res (bool * NearCacheImpl V L) :=
  match entries, reservations with
  | [], _ => Ok (true, n)
  | e :: entries, r :: reservations =>
      '(published, n) ← tryPublishReserved now n e.1.1 e.1.2 r;
      match published with
      | Ok _ => publish_all now entries reservations n
      | Err _ => Ok (false, n)
      end
  | e :: entries, [] =>
      r ← lookup_record n e.1.1;
      match r with Some _ => Ok (false, n) | None => publish_all now entries [] n end
  end.

Definition getAll_answered (now : Z) (i : nat) (floors : buffer -> nat) (reservations : list L)
    (entries : list (HeapData * V * nat)) (result : list (HeapData * V)) (s : NCM) : res NCM :=
  match deserializeEntries entries with
  | Err _ => Ok (set_op i (GetAll floors (ADone Rejected)) s)
  | Ok l =>
      '(ok, n) ← publish_all now entries reservations (nearCache s);
      Ok (set_op i (GetAll floors (ADone (if ok : bool then Resolved (result ++ l) else Rejected))) (with_cache n s))
  end.

(** *** The event loop *)

(** An answer about a key: its value now. *)
Definition answer_ok (s : NCM) (key : HeapData) (v : V) (n : nat) : Prop :=
  history s (member_key key) !! n = Some v /\ S n = length (history s (member_key key)).

Definition valid_key (k : HeapData) : Prop := used_key k /\ exists d, key_ok k d.

(** The counter of reservations does not wrap around. *)
Definition can_reserve (s : NCM) (n : nat) : Prop :=
  long_val (reservationCounter (nearCache s)) + Z.of_nat n < 2 ^ 63.

(** What a write of a key does at the member: it sets a value, or leaves the one that is there. *)
Definition member_applies (d : buffer) (v : option V) (s : NCM) : NCM :=
  match v with Some v => member_sets d v s | None => s end.

Fixpoint member_applies_each (l : list (buffer * V)) (s : NCM) : NCM :=
  match l with [] => s | (d, v) :: l => member_applies_each l (member_sets d v s) end.

Inductive step : NCM -> NCM -> Prop :=
  (* calls *)
  | call_get s key : valid_key key -> step s (getInternal key s)
  | call_contains s key : valid_key key -> step s (containsKeyInternal key s)
  | call_write s key : valid_key key -> step s (writeInternal key s)
  | call_delete s s' key : valid_key key -> deleteInternal key s = Ok s' -> step s s'
  | call_clear s : step s (clear_map s)
  | call_evictAll s : step s (evictAll s)
  | call_putAll s keys : Forall (Forall valid_key) keys -> step s (putAllInternal keys s)
  | call_getAll s arrays : Forall (Forall valid_key) arrays -> step s (getAllInternal arrays s)
  (* the cache *)
  | becomes_ready s b : step s (setReady b s)
  | event s localUuid namePartition key sourceUuid partitionUuid seq n :
      match key with Some k => exists d, key_ok k d | None => True end ->
      handle localUuid namePartition (nearCache s) key sourceUuid partitionUuid seq = Ok n -> step s (with_cache n s)
  | repaired s t : detector_ok t -> step s (with_cache (setStaleReadDetector (nearCache s) t) s)
  (* get *)
  | read_lookup s s' now i key floor : ops s !! i = Some (Read key floor WaitReady) -> ready s = Some true ->
      get_lookup now i key floor s = Ok s' -> step s s'
  | read_unready s i key floor : ops s !! i = Some (Read key floor WaitReady) -> ready s = Some false ->
      step s (set_op i (Read key floor (ReadDone Rejected)) s)
  | read_looked s s' now choose random i key floor o : ops s !! i = Some (Read key floor (Looked o)) -> can_reserve s 1 ->
      get_looked now choose random i key floor o s = Ok s' -> step s s'
  | read_served s i key floor r v n : ops s !! i = Some (Read key floor (AskedMember r)) -> answer_ok s key v n ->
      step s (set_op i (Read key floor (Answered r v n)) s)
  | read_fails s i key floor r : ops s !! i = Some (Read key floor (AskedMember r)) ->
      step s (set_op i (Read key floor (ReadDone Rejected)) s)
  | read_answered s s' now i key floor r v n : ops s !! i = Some (Read key floor (Answered r v n)) ->
      get_answered now i key floor r v s = Ok s' -> step s s'
  (* containsKey *)
  | contains_lookup_step s s' now i key floor : ops s !! i = Some (Contains key floor CWaitReady) -> ready s = Some true ->
      contains_lookup now i key floor s = Ok s' -> step s s'
  | contains_looked_step s i key floor o : ops s !! i = Some (Contains key floor (CLooked o)) ->
      step s (contains_looked i key floor o s)
  | contains_served s i key floor v n : ops s !! i = Some (Contains key floor CAsked) -> answer_ok s key v n ->
      step s (set_op i (Contains key floor (CAnswered v n)) s)
  | contains_answered s i key floor v n : ops s !! i = Some (Contains key floor (CAnswered v n)) ->
      step s (set_op i (Contains key floor (CDone (Resolved (negb (isNull v))))) s)
  | contains_fails s i key floor st : ops s !! i = Some (Contains key floor st) -> st = CAsked \/ st = CWaitReady ->
      step s (set_op i (Contains key floor (CDone Rejected)) s)
  (* writes *)
  | write_applied s i key o : ops s !! i = Some (Write key WriteAsked) ->
      let s1 := member_applies (member_key key) o s in
      step s (set_op i (Write key (WriteApplied (version s1 (member_key key)))) s1)
  | write_answered s s' i key n : ops s !! i = Some (Write key (WriteApplied n)) ->
      invalidateCacheEntryAndReturn i key n s = Ok s' -> step s s'
  | write_fails s i key st : ops s !! i = Some (Write key st) -> (forall r, st <> WriteDone r) ->
      step s (set_op i (Write key (WriteDone Rejected)) s)
  | all_applied s i v : ops s !! i = Some (WriteAll ManyAsked) ->
      step s (set_op i (WriteAll (ManyApplied (version (member_sets_all v s)))) (member_sets_all v s))
  | all_acknowledged s i versions : ops s !! i = Some (WriteAll (ManyApplied versions)) ->
      step s (invalidateCacheAndReturn i versions s)
  | all_fails s i st : ops s !! i = Some (WriteAll st) -> (forall r, st <> ManyDone r) ->
      step s (set_op i (WriteAll (ManyDone Rejected)) s)
  | part_applied s i j parts keys l : ops s !! i = Some (PutAll parts) -> parts !! j = Some (keys, ManyAsked) ->
      map fst l = map member_key keys ->
      let s1 := member_applies_each l s in
      step s (set_op i (PutAll (<[j := (keys, ManyApplied (version s1))]> parts)) s1)
  | part_answered s s' i j parts keys versions : ops s !! i = Some (PutAll parts) ->
      parts !! j = Some (keys, ManyApplied versions) -> finalizePutAll i j parts keys versions s = Ok s' -> step s s'
  | part_fails s i j parts keys st : ops s !! i = Some (PutAll parts) -> parts !! j = Some (keys, st) ->
      (forall r, st <> ManyDone r) -> step s (set_op i (PutAll (<[j := (keys, ManyDone Rejected)]> parts)) s)
  (* getAll *)
  | getAll_lookup_step s s' now i floors j k todo arrays result :
      ops s !! i = Some (GetAll floors (ALooking ((j, k) :: todo) arrays result)) -> ready s = Some true ->
      getAll_lookup now i floors j k todo arrays result s = Ok s' -> step s s'
  | getAll_ask_step s s' now choose random i floors arrays result :
      ops s !! i = Some (GetAll floors (ALooking [] arrays result)) -> can_reserve s (S (length (concat arrays))) ->
      getAll_ask now choose random i floors arrays result s = Ok s' -> step s s'
  | getAll_served s i floors reservations parts result j ks entries :
      ops s !! i = Some (GetAll floors (AAsked reservations parts result)) -> parts !! j = Some (ks, PartAsked) ->
      Forall (fun e => e.1.1 ∈ ks /\ answer_ok s e.1.1 e.1.2 e.2) entries ->
      step s (set_op i (GetAll floors (AAsked reservations (<[j := (ks, PartAnswered entries)]> parts) result)) s)
  | getAll_answered_step s s' now i floors reservations parts result entries :
      ops s !! i = Some (GetAll floors (AAsked reservations parts result)) -> all_answered parts = Some entries ->
      getAll_answered now i floors reservations entries result s = Ok s' -> step s s'
  | getAll_fails s i floors st : ops s !! i = Some (GetAll floors st) -> (forall r, st <> ADone r) ->
      step s (set_op i (GetAll floors (ADone Rejected)) s)
  (* a lookup of a [getAll] that was rejected before: the others go on, and nobody sees what they return *)
  | late_lookup s now key o n : valid_key key -> get now (nearCache s) key = Ok (o, n) -> step s (with_cache n s)
  (* other clients *)
  | other_writes s d v : step s (member_sets d v s).

(** A proxy of a map whose keys have the values of [h]. *)
Definition new_map (config : NearCacheConfig) (h : buffer -> list V) : NCM :=
  mkNCM (newNearCache config) None [] h (fun _ => 0%nat).

Definition reachable (s0 s : NCM) : Prop := rtc step s0 s.
End NearCachedMap.
Arguments outcome : clear implicits.
Arguments Resolved {A} a.
Arguments Rejected {A}.
Arguments NCM : clear implicits.
Arguments Op : clear implicits.

(** ** The values in the cache *)

Section CachedValues.
Context {V : Type} `{SerializationService V} {L : Type} `{LongLaws L}.
Implicit Types (n : NearCacheImpl V L) (k : HeapData) (d : buffer).

Definition cached n d (x : V) : Prop :=
  exists l r, entry n d = Some l /\ records n !! l = Some r /\ dr_value r = Some x.

(** An operation that caches no value and only makes steps of the cache. *)
Record quiet n n' : Prop := {
  quiet_steps : rtc nc_step n n';
  quiet_config : config n' = config n;
  quiet_cached d x : cached n' d x -> cached n d x
}.

Lemma quiet_refl n : quiet n n.
Proof. by split; [apply rtc_refl | |]. Qed.

Lemma quiet_trans n1 n2 n3 : quiet n1 n2 -> quiet n2 n3 -> quiet n1 n3.
Proof. intros [S1 C1 V1] [S2 C2 V2]. split; [by etransitivity | congruence | auto]. Qed.

Lemma shrinks_cached n n' d x : shrinks n n' -> cached n' d x -> cached n d x.
Proof.
  intros Hs (l & r & El & Er & Ev). exists l, r. rewrite <- (sh_records _ _ Hs). split_and!; [|done|done].
  unfold entry in *. by eapply lookup_weaken, sh_entries.
Qed.

Lemma update_cached n l r r' d x :
  records n !! l = Some r -> dr_value r' = dr_value r ->
  cached (with_store n (store n) (<[l := r']> (records n))) d x -> cached n d x.
Proof.
  intros Er Ev (l' & r0 & El & Er0 & Ev0). cbn in *. unfold entry in *. cbn in El.
  apply lookup_insert_Some in Er0 as [[<- <-]|[_ Er0]]; [exists l, r | exists l', r0]; split_and!; (done || congruence).
Qed.

Lemma invalidate_quiet n k d :
  nc_inv n -> key_ok k d -> exists n', invalidate n k = Ok n' /\ quiet n n' /\
    forall d', d' = d \/ entry n d' = None -> entry n' d' = None.
Proof.
  intros Hi Hk. destruct (remove_ok n k d (inv_wf n Hi) Hk) as (s & E & _ & Ha & Hsh).
  assert (invalidate n k = Ok (with_store n s (records n))) as Ei by (unfold invalidate; by rewrite E).
  eexists. split; [exact Ei|]. split; [split|].
  - by eapply rtc_once, nc_invalidate.
  - done.
  - intros d' x. by apply shrinks_cached.
  - unfold entry. cbn. rewrite Ha. intros d' [->|Hd']; [apply lookup_delete_eq|].
    destruct (decide (d' = d)) as [->|]; [apply lookup_delete_eq | by rewrite lookup_delete_ne].
Qed.

Lemma clear_quiet n : nc_inv n -> quiet n (NearCache.clear n) /\ forall d, entry (NearCache.clear n) d = None.
Proof.
  intros Hi. split; [|done]. split; [apply rtc_once, nc_clear | done |]. by intros d x (l & r & El & _).
Qed.

Lemma get_quiet now n k d :
  nc_inv n -> key_ok k d ->
  exists o n', get now n k = Ok (o, n') /\ quiet n n' /\
    (forall y, o = Ok (Some y) -> exists x, cached n d x /\ read_out n (Some x) = Ok (Some y)) /\
    (forall e, o = Err e -> exists x, cached n d x /\ read_out n (Some x) = Err e).
Proof.
  intros Hi Hk. destruct (get_ok now n k d Hi Hk) as (o & n' & E & Hs & Ho). exists o, n'. split; [done|].
  assert (forall y, o = y -> y <> Ok None -> exists x, cached n d x /\ read_out n (Some x) = y) as Hval.
  { intros y -> Hy. destruct (entry n d) as [l|] eqn:El; [|done]. destruct Ho as (r & b & Er & _ & Ho).
    destruct (b || _); [by destruct Ho|]. destruct (dr_value r) as [x|] eqn:Ev.
    - exists x. split; [by exists l, r | done].
    - unfold read_out in Ho. by destruct (inMemoryFormat _). }
  split; [split|split; intros; by apply Hval].
  - by eapply rtc_once, nc_get.
  - by apply step_config in Hs.
  - intros d' x Hx. unfold get in E. pose proof (lookup_record_ok n k d (inv_wf n Hi) Hk) as Hlk.
    destruct (remove_ok n k d (inv_wf n Hi) Hk) as (s & Er & _ & _ & Hsh).
    destruct (entry n d) as [l|] eqn:El; [|rewrite Hlk, res_bind_ok in E; by injection E as _ <-].
    destruct Hlk as (r & Hr & _ & Hlk). rewrite Hlk, res_bind_ok in E. unfold expireRecord in E. rewrite Er in E.
    destruct (isStaleRead _ r) as [[]|]; cbn in E; [injection E as _ <-; by apply (shrinks_cached _ _ _ _ Hsh) | | done].
    destruct (isExpired _ _ r); cbn in E.
    + injection E as _ <-. apply (shrinks_cached _ _ _ _ Hsh). by destruct (bool_decide _).
    + injection E as _ <-. by apply (update_cached n l r (touch now r)).
Qed.

Lemma reserve_quiet now choose random n k d :
  nc_inv n -> key_ok k d -> 0 <= long_val (reservationCounter n) < 2 ^ 63 - 1 ->
  exists rid n', tryReserveForUpdate now choose random n k = Ok (rid, n') /\ quiet n n' /\
    long_val (reservationCounter n') = long_val (reservationCounter n) + 1 /\
    long_val rid < long_val (reservationCounter n') /\ rid <> READ_PERMITTED.
Proof.
  intros Hi Hk Hc. destruct (reserve_ok now choose random n k d Hi Hk Hc) as (rid & n' & E & Hs & Hn & Hr).
  exists rid, n'. split; [done|]. split; [split|split; [done|]].
  - eapply rtc_once, nc_reserve; [done | lia | done].
  - by apply step_config in Hs.
  - intros d' x Hx. unfold tryReserveForUpdate in E. pose proof (lookup_record_ok n k d (inv_wf n Hi) Hk) as Hlk.
    destruct Hc as [Hge Hlt]. destruct (next_id_step n Hlt Hge (inv_wf n Hi)) as [Hw1 _].
    destruct (entry n d) as [l|] eqn:El.
    + destruct Hlk as (r & Er & _ & Hlk). rewrite Hlk, res_bind_ok in E. cbn in E. unfold casStatus in E.
      destruct (long_eqb _ _); injection E as _ <-; [|done].
      by apply (update_cached (nextReservationId n).2 l r) in Hx.
    + rewrite Hlk, res_bind_ok in E. cbn [nextReservationId] in E. fold (nextReservationId n).2 in E.
      match type of E with context [doEvictionIfRequired _ _ _ ?m] => change m with (nextReservationId n).2 in E end.
      destruct (doEviction_ok now choose random (nextReservationId n).2 Hw1 (inv_config n Hi)) as (n2 & E2 & Hsh & _).
      rewrite E2, res_bind_ok in E. set (r := (casStatus _ _ _).2) in E.
      assert (dr_value r = None) as Hv by (unfold r, casStatus; by destruct (long_eqb _ _)).
      destruct (add_record n2 k r) as [n3|] eqn:E3; [|done]. injection E as _ <-.
      unfold add_record in E3. res_inv.
      destruct Hx as (l & r0 & El0 & Er0 & Ev0). cbn in Er0.
      destruct (hm_set_ok (store n2) k d (fresh (dom (records n2))) (nc_store _ (sh_wf _ _ Hsh)) Hk) as (s & Es & _ & Ha).
      apply lookup_insert_Some in Er0 as [[_ <-]|[Hne Er0]]; [congruence|].
      apply (shrinks_cached (nextReservationId n).2 n2 d' x Hsh). exists l, r0. split_and!; [|done|done].
      unfold entry in *. cbn in El0. match goal with Hset : hm_set _ _ _ = Ok _ |- _ => rewrite Es in Hset; injection Hset as <- end.
      rewrite Ha in El0. by apply lookup_insert_Some in El0 as [[_ ?]|[_ ?]].
  - rewrite Hn. destruct Hr as [[-> _]|[-> _]]; split.
    + lia.
    + intros Eq%(f_equal long_val). unfold READ_PERMITTED in Eq. rewrite long_val_of_Z in Eq by done. lia.
    + unfold NOT_RESERVED. rewrite long_val_of_Z by done. lia.
    + intros Eq%(f_equal long_val). unfold READ_PERMITTED, NOT_RESERVED in Eq. by rewrite !long_val_of_Z in Eq by done.
Qed.

(** A publication changes the value of its key only, when the record still has the reservation; it throws only if a
    conversion does. *)
Lemma publish_cached now n k d v rid :
  nc_inv n -> key_ok k d ->
  exists o n', tryPublishReserved now n k v rid = Ok (o, n') /\ rtc nc_step n n' /\ config n' = config n /\
    reservationCounter n' = reservationCounter n /\
    (forall d' x, cached n' d' x -> cached n d' x \/ d' = d /\ convert n v = Ok x /\ ~ unreserved n d rid) /\
    (forall e, o = Err e -> convert n v = Err e \/ exists x, cached n d x /\ read_out n (Some x) = Err e).
Proof.
  intros Hi Hk. destruct (publish_ok now n k d v rid Hi Hk) as (o & n' & E & Hs & Hp). exists o, n'.
  split; [done|]. split; [by eapply rtc_once, nc_publish|]. split; [by apply step_config in Hs|].
  unfold tryPublishReserved in E. pose proof (lookup_record_ok n k d (inv_wf n Hi) Hk) as Hlk.
  destruct (entry n d) as [l|] eqn:El; [|rewrite Hlk, res_bind_ok in E; injection E as <- <-; by split_and!; auto].
  destruct Hlk as (r & Er & Hkr & Hlk). rewrite Hlk, res_bind_ok in E. unfold casStatus in E.
  destruct (long_eqb rid (status r)) eqn:Es.
  2:{ injection E as <- <-. split_and!; [done | auto |]. intros e Ee. right. unfold read_out in Ee.
      destruct (inMemoryFormat (config n)) eqn:Ef; [done|]. destruct (dr_value r) as [x|] eqn:Ev; [|done].
      exists x. split; [by exists l, r|]. unfold read_out. by rewrite Ef. }
  assert (~ unreserved n d rid) as Hn by (intros Hu; apply (Hu l r El Er); by apply long_eqb_true in Es).
  destruct (convert n v) as [x|e].
  - set (r1 := publish now x _) in E.
    destruct (init_metadata_ok (staleReadDetector n) r1 d (inv_detector n Hi) Hkr) as (r' & E' & _ & Ev & _).
    rewrite E', res_bind_ok in E. injection E as <- <-. split_and!; [done | | done].
    intros d' y (l' & r0 & El' & Er' & Ev'). unfold entry in El'. cbn in El', Er'. fold (entry n d') in El'.
    apply lookup_insert_Some in Er' as [[<- <-]|[Hne Er']]; [right | left; by exists l', r0].
    rewrite Ev in Ev'. injection Ev' as <-. split_and!; [by eapply entry_inj; [apply inv_wf| |] | done | done].
  - injection E as <- <-. split_and!; [done | | intros ? [= <-]; by left]. intros d' y Hy. left.
    by eapply update_cached; [exact Er| |exact Hy].
Qed.

Lemma on_container_length (cs cs' : list (MetadataContainer L)) p f :
  on_container cs p f = Ok cs' -> length cs' = length cs.
Proof. unfold on_container. intros E. res_inv. apply length_insert. Qed.

Lemma detector_same_length (cs cs' : list (MetadataContainer L)) f :
  length cs' = length cs -> detector_ok (Some (mkDetector cs f)) -> detector_ok (Some (mkDetector cs' f)).
Proof.
  intros El Hd k d Hk. destruct (Hd k d Hk) as (p & c & Ep & Ec). unfold getMetadataContainer in *. cbn [partitionOf containers] in *.
  destruct (p <? 0) eqn:Ez; [done|]. destruct (cs !! Z.to_nat p) eqn:E; [|done]. apply lookup_lt_Some in E.
  rewrite <- El in E. apply lookup_lt_is_Some_2 in E as [c' Ec']. exists p, c'. by rewrite Ez, Ec'.
Qed.

Lemma setDetector_quiet n t : detector_ok t -> quiet n (setStaleReadDetector n t).
Proof. intros Ht. by split; [apply rtc_once, nc_detect | |]. Qed.

Lemma handle_quiet localUuid namePartition n key sourceUuid partitionUuid seq n' :
  nc_inv n -> match key with Some k => exists d, key_ok k d | None => True end ->
  handle localUuid namePartition n key sourceUuid partitionUuid seq = Ok n' -> quiet n n'.
Proof.
  intros Hi Hk E. unfold handle in E. apply res_bind_inv in E as (n1 & E1 & E2).
  assert (quiet n n1 /\ staleReadDetector n1 = staleReadDetector n) as [Hq Hd].
  { destruct (negb _); [|injection E1 as <-; exact (conj (quiet_refl n) eq_refl)].
    destruct key as [k|]; [|injection E1 as <-; exact (conj (proj1 (clear_quiet n Hi)) eq_refl)].
    destruct Hk as [d Hk]. destruct (invalidate_quiet n k d Hi Hk) as (n2 & E & Hq & _).
    rewrite E in E1. injection E1 as <-. split; [done|].
    destruct (invalidate_ok n k d Hi Hk) as (n3 & E3 & Hs & _). rewrite E in E3. injection E3 as <-.
    by apply step_detector in Hs. }
  eapply quiet_trans; [exact Hq|]. pose proof (inv_detector n Hi) as Hdet. rewrite Hd in E2.
  destruct (staleReadDetector n) as [[cs f]|]; [|injection E2 as <-; apply quiet_refl].
  res_inv. apply setDetector_quiet. cbn in *.
  repeat match goal with Hc : _ = Ok _ |- _ => apply on_container_length in Hc end.
  eapply detector_same_length; [|exact Hdet]. congruence.
Qed.
End CachedValues.

(** ** Read your writes *)

(** What the conversions promise when they do not throw: an object is itself, a value survives the conversion to data and
    back, and [null] stays [null]. *)
Class SerializationLaws (V : Type) `{SerializationService V} `{MapEnv V} := {
  toObject_idem v w : toObject v = Ok w -> toObject w = Ok w;
  toObject_toData v d w : toData v = Ok d -> toObject d = Ok w -> toObject v = Ok w;
  isNull_toObject v w : toObject v = Ok w -> isNull w = isNull v
}.

(** The keys of the program that the cache takes for the same are the same for a member: they do not differ in their type
    only. *)
Definition keys_apart `{MapEnv V} : Prop :=
  forall k k', valid_key k -> valid_key k' -> key_bytes k = key_bytes k' -> member_key k = member_key k'.

(** The converse always holds. *)
Lemma key_bytes_member k : key_bytes k = drop 4 (member_key k).
Proof.
  destruct k as [[p|]]; [|done]. unfold key_bytes, data_key, member_key. cbn [payload]. change (mbind _ (Some p)) with (Some (slice_from p DATA_OFFSET)).
  unfold slice_from. cbn. by rewrite ?drop_drop.
Qed.

Lemma member_key_bytes k k' : member_key k = member_key k' -> key_bytes k = key_bytes k'.
Proof. intros E. by rewrite !key_bytes_member, E. Qed.

Section ReadYourWrites.
Context {V : Type} `{SerializationService V} `{MapEnv V} `{!SerializationLaws V} {L : Type} `{LongLaws L}.
Context (apart : keys_apart).
Implicit Types (s : NCM V L) (d : buffer) (key : HeapData).

(** [v] is the value of version [n] or a later one. *)
Definition seen s d (n : nat) (v : V) : Prop :=
  exists m w, history s d !! m = Some w /\ (n <= m)%nat /\ toObject w = Ok v.

(** What the cache hands out for the cached [x]. *)
Definition fresh_value s d (x : V) : Prop :=
  forall v, read_out (nearCache s) (Some x) = Ok (Some v) -> seen s d (written s d) v.

(** The cache and the member: a cached value is not older than the last acknowledged write of this client. *)
Record core_ok s : Prop := {
  core_inv : nc_inv (nearCache s);
  core_counter : 0 <= long_val (reservationCounter (nearCache s));
  core_written d : (written s d < length (history s d))%nat;
  core_cached key x : valid_key key -> cached (nearCache s) (key_bytes key) x -> fresh_value s (member_key key) x
}.

(** A reservation id that was handed out. *)
Definition rid_ok s (r : L) : Prop :=
  long_val r < long_val (reservationCounter (nearCache s)) /\ r <> READ_PERMITTED.

(** An answer of the version [n] that waits for its callback cannot be cached if a later write was acknowledged. *)
Definition guarded s key (r : L) (n : nat) : Prop :=
  unreserved (nearCache s) (key_bytes key) r \/ (written s (member_key key) <= n)%nat.

Definition read_ok s key (floor : nat) (stage : ReadStage) : Prop :=
  match stage with
  | Looked (Some v) | ReadDone (Resolved v) => seen s (member_key key) floor v
  | AskedMember r => rid_ok s r
  | Answered r v n =>
      rid_ok s r /\ history s (member_key key) !! n = Some v /\ (floor <= n)%nat /\ guarded s key r n
  | _ => True
  end.

Definition contains_ok s d (floor : nat) (stage : ContainsStage) : Prop :=
  match stage with
  | CLooked (Some v) => seen s d floor v
  | CAnswered v n => history s d !! n = Some v /\ (floor <= n)%nat
  | CDone (Resolved b) => exists m w, history s d !! m = Some w /\ (floor <= m)%nat /\ b = negb (isNull w)
  | _ => True
  end.

Definition write_ok s d (stage : WriteStage) : Prop :=
  match stage with
  | WriteApplied n => (n < length (history s d))%nat
  | WriteDone (Resolved n) => (n <= written s d)%nat
  | _ => True
  end.

(** The keys of an operation on many. *)
Definition many_ok s (keys : buffer -> Prop) (stage : ManyStage) : Prop :=
  match stage with
  | ManyApplied versions => forall d, (versions d < length (history s d))%nat
  | ManyDone (Resolved versions) => forall d, keys d -> (versions d <= written s d)%nat
  | _ => True
  end.

Definition part_ok s (floors : buffer -> nat) (reservations : list L) (p : list HeapData * PartStage) : Prop :=
  Forall valid_key p.1 /\
  match p.2 with
  | PartAsked => True
  | PartAnswered entries => Forall (fun e => valid_key e.1.1 /\ history s (member_key e.1.1) !! e.2 = Some e.1.2 /\
      (floors (member_key e.1.1) <= e.2)%nat /\
      Forall (fun r => guarded s e.1.1 r e.2) reservations) entries
  end.

Definition result_ok s (floors : buffer -> nat) (result : list (HeapData * V)) : Prop :=
  Forall (fun e => seen s (member_key e.1) (floors (member_key e.1)) e.2) result.

Definition getAll_ok s (floors : buffer -> nat) (stage : GetAllStage) : Prop :=
  match stage with
  | ALooking _ arrays result => Forall (Forall valid_key) arrays /\ result_ok s floors result
  | AAsked reservations parts result =>
      Forall (rid_ok s) reservations /\ Forall (part_ok s floors reservations) parts /\ result_ok s floors result
  | ADone (Resolved result) => result_ok s floors result
  | ADone Rejected => True
  end.

Definition op_ok s (o : Op V L) : Prop :=
  match o with
  | Read key floor stage =>
      valid_key key /\ (floor <= written s (member_key key))%nat /\ read_ok s key floor stage
  | Contains key floor stage =>
      valid_key key /\ (floor <= written s (member_key key))%nat /\ contains_ok s (member_key key) floor stage
  | Write key stage => valid_key key /\ write_ok s (member_key key) stage
  | WriteAll stage => many_ok s (fun _ => True) stage
  | PutAll parts => Forall (fun p => Forall valid_key p.1 /\ many_ok s (fun d => d ∈ map member_key p.1) p.2) parts
  | GetAll floors stage => (forall d, floors d <= written s d)%nat /\ getAll_ok s floors stage
  end.

Record ncm_inv s : Prop := { inv_core : core_ok s; inv_ops : Forall (op_ok s) (ops s) }.

(** What a step may do to the cache and the member. *)
Record moves s s' : Prop := {
  mv_steps : rtc nc_step (nearCache s) (nearCache s');
  mv_config : config (nearCache s') = config (nearCache s);
  mv_cached key x : valid_key key -> cached (nearCache s') (key_bytes key) x ->
    cached (nearCache s) (key_bytes key) x \/ fresh_value s (member_key key) x;
  mv_history d : history s d `prefix_of` history s' d;
  mv_written d : written s' d = written s d \/
    (written s d <= written s' d < length (history s' d))%nat /\
    forall key, valid_key key -> member_key key = d -> entry (nearCache s') (key_bytes key) = None
}.

Lemma moves_quiet s s' :
  quiet (nearCache s) (nearCache s') -> history s' = history s -> written s' = written s -> moves s s'.
Proof. intros [Hs Hc Hv] Eh Ew. split; [done | done | auto | by rewrite Eh | rewrite Ew; auto]. Qed.

Lemma moves_none s s' :
  nearCache s' = nearCache s -> history s' = history s -> written s' = written s -> moves s s'.
Proof. intros En. apply moves_quiet. rewrite En. apply quiet_refl. Qed.

Lemma moves_history s s' :
  nearCache s' = nearCache s -> (forall d, history s d `prefix_of` history s' d) -> written s' = written s -> moves s s'.
Proof. intros En Hh Ew. split; rewrite ?En, ?Ew; auto using rtc_refl. Qed.

Lemma moves_written_le s s' d : moves s s' -> (written s d <= written s' d)%nat.
Proof. intros Hm. destruct (mv_written _ _ Hm d) as [->|[? _]]; lia. Qed.

Lemma moves_lookup s s' d n v : moves s s' -> history s d !! n = Some v -> history s' d !! n = Some v.
Proof. intros Hm Hl. eapply prefix_lookup_Some; [exact Hl | apply mv_history, Hm]. Qed.

Lemma moves_length s s' d : moves s s' -> (length (history s d) <= length (history s' d))%nat.
Proof. intros Hm. apply prefix_length, mv_history, Hm. Qed.

Lemma moves_seen s s' d n v : moves s s' -> seen s d n v -> seen s' d n v.
Proof. intros Hm (m & w & Hl & Hle). exists m, w. by eauto using moves_lookup. Qed.

Lemma moves_steps s s' : core_ok s -> moves s s' ->
  nc_inv (nearCache s') /\
  long_val (reservationCounter (nearCache s)) <= long_val (reservationCounter (nearCache s')) /\
  forall d rid, rid_ok s rid -> unreserved (nearCache s) d rid -> unreserved (nearCache s') d rid.
Proof.
  intros [Hi Hc _ _] Hm. destruct (nc_steps_inv _ _ Hi Hc (mv_steps _ _ Hm)) as (Hi' & Hc' & Hu).
  split_and!; [done | done |]. intros d rid [Hlt Hrp]. by apply Hu.
Qed.

Lemma moves_core s s' : core_ok s -> moves s s' -> core_ok s'.
Proof.
  intros Hco Hm. destruct (moves_steps s s' Hco Hm) as (Hi' & Hc' & _). destruct Hco as [Hi Hc Hw Hv].
  split; [done | lia | |].
  - intros d. pose proof (moves_length s s' d Hm). specialize (Hw d). destruct (mv_written _ _ Hm d) as [->|[? _]]; lia.
  - intros key x Hk Hx v Er. assert (fresh_value s (member_key key) x) as Hs by (destruct (mv_cached _ _ Hm key x Hk Hx); auto).
    assert (read_out (nearCache s) (Some x) = Ok (Some v)) as Er0 by (unfold read_out in *; by rewrite <- (mv_config _ _ Hm)).
    specialize (Hs v Er0). apply (moves_seen s s' _ _ _ Hm) in Hs.
    destruct (mv_written _ _ Hm (member_key key)) as [->|[_ En]]; [done|].
    destruct Hx as (l & r & El & _). rewrite (En key Hk eq_refl) in El. done.
Qed.

Lemma moves_rid s s' r : core_ok s -> moves s s' -> rid_ok s r -> rid_ok s' r.
Proof. intros Hco Hm [Hlt Hrp]. destruct (moves_steps s s' Hco Hm) as (_ & Hc & _). split; [lia | done]. Qed.

Lemma moves_guarded s s' key r n : core_ok s -> moves s s' -> valid_key key -> rid_ok s r ->
  guarded s key r n -> guarded s' key r n.
Proof.
  intros Hco Hm Hk Hr Hg. destruct (moves_steps s s' Hco Hm) as (_ & _ & Hu).
  destruct Hg as [Hg|Hg]; [left; by apply Hu|]. destruct (mv_written _ _ Hm (member_key key)) as [Ew|[_ En]].
  - right. by rewrite Ew.
  - left. intros l r' El. rewrite (En key Hk eq_refl) in El. done.
Qed.

Lemma moves_result s s' floors result : moves s s' -> result_ok s floors result -> result_ok s' floors result.
Proof. intros Hm Hr. eapply Forall_impl; [exact Hr|]. intros e. by apply moves_seen. Qed.

Lemma moves_part s s' floors rs p : core_ok s -> moves s s' -> Forall (rid_ok s) rs ->
  part_ok s floors rs p -> part_ok s' floors rs p.
Proof.
  intros Hco Hm Hrs [Hk Hp]. split; [done|]. destruct p as [ks [|entries]]; cbn in *; [done|].
  eapply Forall_impl; [exact Hp|]. intros e (He & Hl & Hf & Hg). split_and!; [done | by eapply moves_lookup | done |].
  apply Forall_forall. intros r Hr. rewrite Forall_forall in Hrs, Hg. by apply (moves_guarded s s'); auto.
Qed.

Lemma moves_many s s' keys st : moves s s' -> many_ok s keys st -> many_ok s' keys st.
Proof.
  intros Hm. destruct st as [|vs|[vs|]]; cbn; [done| | |done].
  - intros Hv d. pose proof (moves_length s s' d Hm). specialize (Hv d). lia.
  - intros Hv d Hd. pose proof (moves_written_le s s' d Hm). specialize (Hv d Hd). lia.
Qed.

Lemma moves_op s s' o : core_ok s -> moves s s' -> op_ok s o -> op_ok s' o.
Proof.
  intros Hco Hm. destruct o as [key floor st|key floor st|key st|st|floors st|parts]; cbn.
  - intros (Hk & Hf & Hs). pose proof (moves_written_le s s' (member_key key) Hm). split_and!; [done | lia |].
    destruct st as [|[v|]|r|r v n|[v|]]; cbn in *; eauto using moves_seen, moves_rid.
    destruct Hs as (Hr & Hl & Hle & Hg). split_and!; eauto using moves_rid, moves_lookup, moves_guarded.
  - intros (Hk & Hf & Hs). pose proof (moves_written_le s s' (member_key key) Hm). split_and!; [done | lia |].
    destruct st as [|[v|]| |v n|[b|]]; cbn in *; eauto using moves_seen.
    + destruct Hs. eauto using moves_lookup.
    + destruct Hs as (m & w & Hl & Hle & ->). exists m, w. eauto using moves_lookup.
  - intros [Hk Hs]. split; [done|]. pose proof (moves_length s s' (member_key key) Hm).
    pose proof (moves_written_le s s' (member_key key) Hm). destruct st as [|n|[n|]]; cbn in *; lia || done.
  - by apply moves_many.
  - intros [Hf Hs]. split; [intros d; pose proof (moves_written_le s s' d Hm); specialize (Hf d); lia|].
    destruct st as [todo arrays result|rs parts result|[result|]]; cbn in *; [| | |done].
    + destruct Hs. split; [done | by eapply moves_result].
    + destruct Hs as (Hr & Hp & Hres). split_and!; [| |by eapply moves_result].
      * eapply Forall_impl; [exact Hr|]. intros r. by apply moves_rid.
      * eapply Forall_impl; [exact Hp|]. intros p. by apply moves_part.
    + by eapply moves_result.
  - intros Hp. eapply Forall_impl; [exact Hp|]. intros p [Hk Hs]. split; [done | by eapply moves_many].
Qed.

Lemma inv_same s s' : ncm_inv s -> moves s s' -> ops s' = ops s -> ncm_inv s'.
Proof.
  intros [Hco Ho] Hm E. split; [by eapply moves_core|]. rewrite E. eapply Forall_impl; [exact Ho|].
  intros o. by apply moves_op.
Qed.

Lemma inv_set s s' i o : ncm_inv s -> moves s s' -> ops s' = <[i := o]> (ops s) -> op_ok s' o -> ncm_inv s'.
Proof.
  intros [Hco Ho] Hm E Hok. split; [by eapply moves_core|]. rewrite E. apply Forall_insert; [|done].
  eapply Forall_impl; [exact Ho|]. intros o'. by apply moves_op.
Qed.

Lemma called_inv s s' o : ncm_inv s -> moves s s' -> ops s' = ops s ++ [o] -> op_ok s' o -> ncm_inv s'.
Proof.
  intros [Hco Ho] Hm E Hok. split; [by eapply moves_core|]. rewrite E. apply Forall_app. split; [|by apply Forall_singleton].
  eapply Forall_impl; [exact Ho|]. intros o'. by apply moves_op.
Qed.

Lemma inv_op s i o : ncm_inv s -> ops s !! i = Some o -> op_ok s o.
Proof. intros [_ Ho] Hi. rewrite Forall_forall in Ho. apply Ho. by eapply list_elem_of_lookup_2. Qed.

(** *** Each step keeps the invariant *)

Lemma valid_key_ok key : valid_key key -> key_ok key (key_bytes key).
Proof. intros [_ [d Hd]]. by rewrite (key_bytes_ok key d Hd). Qed.

Lemma answer_version s key v n : core_ok s -> answer_ok s key v n -> (written s (member_key key) <= n)%nat.
Proof. intros Hco [_ Hn]. pose proof (core_written s Hco (member_key key)). lia. Qed.

Lemma version_lt s s' d : core_ok s -> moves s s' -> (version s' d < length (history s' d))%nat.
Proof.
  intros Hco Hm. pose proof (core_written s Hco d). pose proof (moves_length s s' d Hm). unfold version. lia.
Qed.

(** What a lookup hands out. *)
Lemma lookup_moves now s key : core_ok s -> valid_key key ->
  exists o n, get now (nearCache s) key = Ok (o, n) /\ quiet (nearCache s) n /\
    (forall v, o = Ok (Some v) -> seen s (member_key key) (written s (member_key key)) v) /\
    (forall e, o = Err e -> exists x, cached (nearCache s) (key_bytes key) x /\ read_out (nearCache s) (Some x) = Err e).
Proof.
  intros Hco Hk. destruct (get_quiet now (nearCache s) key (key_bytes key) (core_inv s Hco) (valid_key_ok key Hk))
    as (o & n & E & Hq & Ho & He).
  exists o, n. split_and!; [done | done | | done]. intros v Ev. destruct (Ho v Ev) as (x & Hx & Er).
  by apply (core_cached s Hco key x Hk Hx).
Qed.

Lemma seen_le s d n m v : (n <= m)%nat -> seen s d m v -> seen s d n v.
Proof. intros Hle (k & w & Hl & Hk & E). exists k, w. split_and!; [done | lia | done]. Qed.

Lemma publish_value (n : NearCacheImpl V L) w x v :
  convert n w = Ok x -> read_out n (Some x) = Ok (Some v) -> toObject w = Ok v.
Proof.
  unfold read_out, convert. destruct (inMemoryFormat (config n)); intros Ex Ev; [congruence|].
  apply res_bind_inv in Ev as (v' & Ev & [= <-]). by eapply toObject_toData.
Qed.

Lemma read_lookup_inv now s s' i key floor : ncm_inv s -> ops s !! i = Some (Read key floor WaitReady) ->
  get_lookup now i key floor s = Ok s' -> ncm_inv s'.
Proof.
  intros Hi Ho E. pose proof (inv_op s i _ Hi Ho) as (Hk & Hf & _).
  destruct (lookup_moves now s key (inv_core s Hi) Hk) as (o & n & Eg & Hq & Hs & _).
  unfold get_lookup in E. rewrite Eg in E. injection E as <-.
  eapply inv_set; [done | by apply moves_quiet | done |]. cbn. split_and!; [done | done |].
  destruct o as [[v|]|]; [|done|done]. by eapply seen_le, Hs.
Qed.

Lemma read_looked_inv now choose random s s' i key floor o : ncm_inv s -> ops s !! i = Some (Read key floor (Looked o)) ->
  can_reserve s 1 -> get_looked now choose random i key floor o s = Ok s' -> ncm_inv s'.
Proof.
  intros Hi Ho Hcan E. pose proof (inv_op s i _ Hi Ho) as (Hk & Hf & Hs). destruct o as [v|]; cbn in E.
  - injection E as <-. by eapply inv_set; [done | apply moves_none | done |].
  - pose proof (core_counter s (inv_core s Hi)). unfold can_reserve in Hcan.
    destruct (reserve_quiet now choose random (nearCache s) key (key_bytes key) (core_inv s (inv_core s Hi))
      (valid_key_ok key Hk) ltac:(lia)) as (rid & n & Er & Hq & _ & Hlt & Hrp).
    rewrite Er in E. injection E as <-. by eapply inv_set; [done | by apply moves_quiet | done |].
Qed.

Lemma read_served_inv s i key floor r v n : ncm_inv s -> ops s !! i = Some (Read key floor (AskedMember r)) ->
  answer_ok s key v n -> ncm_inv (set_op i (Read key floor (Answered r v n)) s).
Proof.
  intros Hi Ho Ha. pose proof (inv_op s i _ Hi Ho) as (Hk & Hf & Hs).
  pose proof (answer_version s key v n (inv_core s Hi) Ha). destruct Ha as [Hl _].
  eapply inv_set; [done | by apply moves_none | done |]. cbn. split_and!; try done; [lia | by right].
Qed.

(** The publication of an answer that waited for its callback. *)
Lemma guarded_value s key key' r n v w x : valid_key key -> valid_key key' -> key_bytes key' = key_bytes key ->
  history s (member_key key) !! n = Some v -> (forall u, toObject w = Ok u -> toObject v = Ok u) -> guarded s key r n ->
  ~ unreserved (nearCache s) (key_bytes key) r -> convert (nearCache s) w = Ok x -> fresh_value s (member_key key') x.
Proof.
  intros Hk Hk' Ek Hl Ew [Hg|Hg] Hn Ex u Eu; [done|]. rewrite (apart key' key Hk' Hk Ek). exists n, v.
  split_and!; [done | done |]. by eapply Ew, publish_value.
Qed.

Lemma read_answered_inv now s s' i key floor r v n : ncm_inv s -> ops s !! i = Some (Read key floor (Answered r v n)) ->
  get_answered now i key floor r v s = Ok s' -> ncm_inv s'.
Proof.
  intros Hi Ho E. pose proof (inv_op s i _ Hi Ho) as (Hk & Hf & Hr & Hl & Hle & Hg). unfold get_answered in E.
  destruct (toObject v) as [w|e] eqn:Ew; [|by injection E as <-; eapply inv_set; [done | apply moves_none | done | ]].
  destruct (publish_cached now (nearCache s) key (key_bytes key) w r (core_inv s (inv_core s Hi))
    (valid_key_ok key Hk)) as (o & n' & Ep & Hst & Hc & _ & Hca & _).
  rewrite Ep in E. injection E as <-. eapply inv_set; [done | | done |].
  - split; [done | done | | done | by left]. intros key' x Hk' Hx.
    destruct (Hca _ x Hx) as [?|(Ek & Ex & Hn)]; [by left|right].
    eapply (guarded_value s key); [done | done | done | done | | done | done | done].
    intros u Eu. rewrite (toObject_idem _ _ Ew) in Eu. congruence.
  - cbn. split_and!; [done | done |]. destruct o; [|done]. by exists n, v.
Qed.

Lemma contains_lookup_inv now s s' i key floor : ncm_inv s -> ops s !! i = Some (Contains key floor CWaitReady) ->
  contains_lookup now i key floor s = Ok s' -> ncm_inv s'.
Proof.
  intros Hi Ho E. pose proof (inv_op s i _ Hi Ho) as (Hk & Hf & _).
  destruct (lookup_moves now s key (inv_core s Hi) Hk) as (o & n & Eg & Hq & Hs & _).
  unfold contains_lookup in E. rewrite Eg in E. injection E as <-.
  eapply inv_set; [done | by apply moves_quiet | done |]. cbn. split_and!; [done | done |].
  destruct o as [[v|]|]; [|done|done]. by eapply seen_le, Hs.
Qed.

Lemma contains_looked_inv s i key floor o : ncm_inv s -> ops s !! i = Some (Contains key floor (CLooked o)) ->
  ncm_inv (contains_looked i key floor o s).
Proof.
  intros Hi Ho. pose proof (inv_op s i _ Hi Ho) as (Hk & Hf & Hs).
  destruct o as [v|]; (eapply inv_set; [done | by apply moves_none | done |]); cbn; split_and!; try done.
  destruct Hs as (m & w & Hl & Hle & E). exists m, w. split_and!; [done | done |]. by rewrite (isNull_toObject _ _ E).
Qed.

Lemma contains_served_inv s i key floor v n : ncm_inv s -> ops s !! i = Some (Contains key floor CAsked) ->
  answer_ok s key v n -> ncm_inv (set_op i (Contains key floor (CAnswered v n)) s).
Proof.
  intros Hi Ho Ha. pose proof (inv_op s i _ Hi Ho) as (Hk & Hf & Hs).
  pose proof (answer_version s key v n (inv_core s Hi) Ha). destruct Ha as [Hl _].
  eapply inv_set; [done | by apply moves_none | done |]. cbn. split_and!; try done; lia.
Qed.

Lemma contains_answered_inv s i key floor v n : ncm_inv s -> ops s !! i = Some (Contains key floor (CAnswered v n)) ->
  ncm_inv (set_op i (Contains key floor (CDone (Resolved (negb (isNull v))))) s).
Proof.
  intros Hi Ho. pose proof (inv_op s i _ Hi Ho) as (Hk & Hf & Hl & Hle).
  eapply inv_set; [done | by apply moves_none | done |]. cbn. split_and!; [done | done |].
  by exists n, v.
Qed.

(** *** Writes *)

Lemma member_sets_moves d v s : moves s (member_sets d v s).
Proof.
  apply moves_history; [done | | done]. intros d'. cbn. case_bool_decide; [by apply prefix_app_r | done].
Qed.

Lemma member_applies_moves d o s : moves s (member_applies d o s).
Proof. destruct o; [apply member_sets_moves | by apply moves_none]. Qed.

Lemma member_applies_each_same l s :
  nearCache (member_applies_each l s) = nearCache s /\ written (member_applies_each l s) = written s /\
  ops (member_applies_each l s) = ops s /\ forall d, history s d `prefix_of` history (member_applies_each l s) d.
Proof.
  revert s. induction l as [|[d v] l IH]; intros s; [done|]. cbn. destruct (IH (member_sets d v s)) as (-> & -> & -> & Hh).
  split_and!; [done.. |]. intros d'. etransitivity; [|apply Hh]. apply (mv_history _ _ (member_sets_moves d v s)).
Qed.

Lemma member_applies_each_moves l s : moves s (member_applies_each l s).
Proof. destruct (member_applies_each_same l s) as (? & ? & _ & ?). by apply moves_history. Qed.

Lemma write_applied_inv s i key o : ncm_inv s -> ops s !! i = Some (Write key WriteAsked) ->
  ncm_inv (set_op i (Write key (WriteApplied (version (member_applies (member_key key) o s) (member_key key))))
    (member_applies (member_key key) o s)).
Proof.
  intros Hi Ho. pose proof (inv_op s i _ Hi Ho) as (Hk & _). pose proof (member_applies_moves (member_key key) o s) as Hm.
  eapply (inv_set s); [done | | by destruct o |].
  - destruct Hm. by split.
  - split; [done|]. apply (version_lt s _ (member_key key) (inv_core s Hi) Hm).
Qed.

Lemma acknowledge_moves s s' : quiet (nearCache s) (nearCache s') -> history s' = history s ->
  (forall d, written s' d = written s d \/
     (written s d <= written s' d < length (history s d))%nat /\
     forall key, valid_key key -> member_key key = d -> entry (nearCache s') (key_bytes key) = None) -> moves s s'.
Proof. intros [Hs Hc Hv] Eh Hw. split; rewrite ?Eh; auto. Qed.

Lemma write_answered_inv s s' i key n : ncm_inv s -> ops s !! i = Some (Write key (WriteApplied n)) ->
  invalidateCacheEntryAndReturn i key n s = Ok s' -> ncm_inv s'.
Proof.
  intros Hi Ho E. pose proof (inv_op s i _ Hi Ho) as (Hk & Hn). cbn in Hn.
  destruct (invalidate_quiet (nearCache s) key (key_bytes key) (core_inv s (inv_core s Hi)) (valid_key_ok key Hk))
    as (n' & Ei & Hq & Hg).
  unfold invalidateCacheEntryAndReturn in E. rewrite Ei in E. injection E as <-.
  eapply inv_set; [done | | done |].
  - apply acknowledge_moves; [done | done |]. intros d. cbn. case_bool_decide as Ed; [subst d|by left].
    pose proof (core_written s (inv_core s Hi) (member_key key)). right. split; [lia|].
    intros key' _ Ek. apply Hg. left. by apply member_key_bytes.
  - cbn. split; [done|]. rewrite bool_decide_eq_true_2 by done. lia.
Qed.

Lemma delete_inv s s' key : ncm_inv s -> valid_key key -> deleteInternal key s = Ok s' -> ncm_inv s'.
Proof.
  intros Hi Hk E. destruct (invalidate_quiet (nearCache s) key (key_bytes key) (core_inv s (inv_core s Hi))
    (valid_key_ok key Hk)) as (n' & Ei & Hq & _).
  unfold deleteInternal in E. rewrite Ei in E. injection E as <-. by eapply called_inv; [done | by apply moves_quiet | done |].
Qed.

Lemma all_applied_inv s i v : ncm_inv s ->
  ncm_inv (set_op i (WriteAll (ManyApplied (version (member_sets_all v s)))) (member_sets_all v s)).
Proof.
  intros Hi. assert (moves s (member_sets_all v s)) as Hm.
  { apply moves_history; [done | | done]. intros d. by apply prefix_app_r. }
  eapply (inv_set s); [done | destruct Hm; by split | done |]. intros d. by apply (version_lt s _ d (inv_core s Hi) Hm).
Qed.

Lemma all_acknowledged_inv s i versions : ncm_inv s -> ops s !! i = Some (WriteAll (ManyApplied versions)) ->
  ncm_inv (invalidateCacheAndReturn i versions s).
Proof.
  intros Hi Ho. pose proof (inv_op s i _ Hi Ho) as Hv. cbn in Hv.
  destruct (clear_quiet (nearCache s) (core_inv s (inv_core s Hi))) as [Hq Hg].
  eapply inv_set; [done | | done | intros d _; cbn; lia]. apply acknowledge_moves; [done | done |]. intros d. right. cbn.
  pose proof (core_written s (inv_core s Hi) d). specialize (Hv d). split; [lia | intros key _ _; apply Hg].
Qed.

(** *** putAll *)

Lemma invalidate_keys_quiet keys : forall n : NearCacheImpl V L,
  nc_inv n -> 0 <= long_val (reservationCounter n) -> Forall valid_key keys ->
  exists n', invalidate_keys keys n = Ok n' /\ quiet n n' /\
    forall d, d ∈ map key_bytes keys \/ entry n d = None -> entry n' d = None.
Proof.
  induction keys as [|k keys IH]; intros n Hi Hc Hk.
  { exists n. split_and!; [done | apply quiet_refl |]. intros d [Hd|Hd]; [by apply not_elem_of_nil in Hd | done]. }
  apply Forall_cons in Hk as [Hk Hks].
  destruct (invalidate_quiet n k (key_bytes k) Hi (valid_key_ok k Hk)) as (n1 & E1 & Hq1 & Hg1).
  destruct (nc_steps_inv _ _ Hi Hc (quiet_steps _ _ Hq1)) as (Hi1 & Hc1 & _).
  destruct (IH n1 Hi1 ltac:(lia) Hks) as (n2 & E2 & Hq2 & Hg2). exists n2. cbn. rewrite E1.
  split_and!; [done | by eapply quiet_trans |].
  intros d [[->|Hd]%elem_of_cons|Hd]; apply Hg2; auto.
Qed.

Lemma part_applied_inv s i j parts keys l : ncm_inv s -> ops s !! i = Some (PutAll parts) ->
  parts !! j = Some (keys, ManyAsked) ->
  ncm_inv (set_op i (PutAll (<[j := (keys, ManyApplied (version (member_applies_each l s)))]> parts))
    (member_applies_each l s)).
Proof.
  intros Hi Ho Hj. pose proof (inv_op s i _ Hi Ho) as Hp. cbn in Hp.
  pose proof (member_applies_each_moves l s) as Hm. destruct (member_applies_each_same l s) as (_ & _ & Eo & _).
  eapply (inv_set s); [done | destruct Hm; by split | cbn; by rewrite Eo |]. cbn. apply Forall_insert.
  - eapply Forall_impl; [exact Hp|]. intros p [Hk Hs]. split; [done|]. by apply (moves_many s (member_applies_each l s)).
  - split; [by apply (Forall_lookup_1 _ _ _ _ Hp Hj)|]. intros d. apply (version_lt s _ d (inv_core s Hi) Hm).
Qed.

Lemma part_answered_inv s s' i j parts keys versions : ncm_inv s -> ops s !! i = Some (PutAll parts) ->
  parts !! j = Some (keys, ManyApplied versions) -> finalizePutAll i j parts keys versions s = Ok s' -> ncm_inv s'.
Proof.
  intros Hi Ho Hj E. pose proof (inv_op s i _ Hi Ho) as Hp. cbn in Hp. pose proof (inv_core s Hi) as Hco.
  destruct (Forall_lookup_1 _ _ _ _ Hp Hj) as [Hk Hv]. cbn in Hk, Hv.
  destruct (invalidate_keys_quiet (concat parts.*1) (nearCache s) (core_inv s Hco) (core_counter s Hco))
    as (n' & Ei & Hq & Hg).
  { apply Forall_concat, Forall_fmap. eapply Forall_impl; [exact Hp|]. by intros p [? _]. }
  unfold finalizePutAll in E. rewrite Ei in E. injection E as <-.
  assert (forall d, d ∈ map member_key keys -> forall key, valid_key key -> member_key key = d -> entry n' (key_bytes key) = None)
    as Hgone.
  { intros d (k & -> & Hin)%list_elem_of_fmap key _ Ek. apply Hg. left. apply list_elem_of_fmap. exists k.
    split; [by apply member_key_bytes|].
    rewrite <- (take_drop_middle parts j _ Hj), fmap_app, concat_app. apply elem_of_app. right.
    cbn. apply elem_of_app. by left. }
  assert (moves s (mkNCM n' (ready s) (<[i := PutAll (<[j := (keys, ManyDone (Resolved versions))]> parts)]> (ops s)) (history s)
    (fun d => if bool_decide (d ∈ map member_key keys) then Nat.max (written s d) (versions d) else written s d))) as Hm.
  { apply acknowledge_moves; [done | done |]. intros d. cbn. case_bool_decide as Hd; [right | by left].
    pose proof (core_written s Hco d). specialize (Hv d). split; [lia | by apply Hgone]. }
  eapply inv_set; [done | exact Hm | done |]. cbn. apply Forall_insert.
  - eapply Forall_impl; [exact Hp|]. intros p [? Hs]. split; [done | by eapply moves_many].
  - split; [done|]. intros d Hd. cbn. rewrite bool_decide_eq_true_2 by done. lia.
Qed.

(** *** getAll *)

Lemma getAll_lookup_inv now s s' i floors j k todo arrays result : ncm_inv s ->
  ops s !! i = Some (GetAll floors (ALooking ((j, k) :: todo) arrays result)) ->
  getAll_lookup now i floors j k todo arrays result s = Ok s' -> ncm_inv s'.
Proof.
  intros Hi Ho E. pose proof (inv_op s i _ Hi Ho) as (Hf & Hk & Hres). unfold getAll_lookup in E.
  destruct (arrays !! j) as [ks|] eqn:Ej; [|done]. destruct (ks !! k) as [key|] eqn:Ek; [|done].
  pose proof (Forall_lookup_1 _ _ _ _ Hk Ej) as Hks. pose proof (Forall_lookup_1 _ _ _ _ Hks Ek) as Hkey.
  destruct (lookup_moves now s key (inv_core s Hi) Hkey) as (o & n & Eg & Hq & Hs & _). rewrite Eg, res_bind_ok in E.
  injection E as <-. eapply inv_set; [done | by apply moves_quiet | done |]. split; [done|].
  destruct o as [[v|]|]; [|done|done]. destruct (keyToObject key); [|done]. split.
  - apply Forall_insert; [done|]. by apply Forall_delete.
  - apply Forall_app. split; [done|]. apply Forall_singleton. cbn. eapply seen_le, Hs; [apply Hf | done].
Qed.

Lemma reserve_all_quiet now choose random keys : forall n : NearCacheImpl V L,
  nc_inv n -> 0 <= long_val (reservationCounter n) ->
  long_val (reservationCounter n) + Z.of_nat (S (length keys)) < 2 ^ 63 -> Forall valid_key keys ->
  exists rs n', reserve_all now choose random keys n = Ok (rs, n') /\ quiet n n' /\
    Forall (fun r => long_val r < long_val (reservationCounter n') /\ r <> READ_PERMITTED) rs.
Proof.
  induction keys as [|k keys IH]; intros n Hi Hc Hlt Hk.
  { exists [], n. split_and!; [done | apply quiet_refl | done]. }
  apply Forall_cons in Hk as [Hk Hks]. cbn [length] in Hlt.
  destruct (reserve_quiet now choose random n k (key_bytes k) Hi (valid_key_ok k Hk) ltac:(lia))
    as (r & n1 & E1 & Hq1 & Hn1 & Hr & Hrp).
  destruct (nc_steps_inv _ _ Hi Hc (quiet_steps _ _ Hq1)) as (Hi1 & _ & _).
  destruct (IH n1 Hi1 ltac:(lia) ltac:(lia) Hks) as (rs & n2 & E2 & Hq2 & Hrs).
  destruct (nc_steps_inv n1 n2 Hi1 ltac:(lia) (quiet_steps _ _ Hq2)) as (_ & Hc2 & _).
  exists (r :: rs), n2. cbn. rewrite E1. cbn. rewrite E2. split_and!; [done | by eapply quiet_trans |].
  apply Forall_cons. split; [split; [lia | done] | done].
Qed.

Lemma getAll_ask_inv now choose random s s' i floors arrays result : ncm_inv s ->
  ops s !! i = Some (GetAll floors (ALooking [] arrays result)) -> can_reserve s (S (length (concat arrays))) ->
  getAll_ask now choose random i floors arrays result s = Ok s' -> ncm_inv s'.
Proof.
  intros Hi Ho Hcan E. pose proof (inv_op s i _ Hi Ho) as (Hf & Hk & Hres). pose proof (inv_core s Hi) as Hco.
  destruct (reserve_all_quiet now choose random (concat arrays) (nearCache s) (core_inv s Hco) (core_counter s Hco) Hcan)
    as (rs & n & Er & Hq & Hrs); [by apply Forall_concat|].
  unfold getAll_ask in E. rewrite Er in E. injection E as <-.
  eapply inv_set; [done | by apply moves_quiet | done |]. split; [done|]. split_and!; [done | | done].
  apply Forall_fmap. eapply Forall_impl; [exact Hk|]. intros ks Hks. by split.
Qed.

Lemma getAll_served_inv s i floors rs parts result j ks entries : ncm_inv s ->
  ops s !! i = Some (GetAll floors (AAsked rs parts result)) -> parts !! j = Some (ks, PartAsked) ->
  Forall (fun e => e.1.1 ∈ ks /\ answer_ok s e.1.1 e.1.2 e.2) entries ->
  ncm_inv (set_op i (GetAll floors (AAsked rs (<[j := (ks, PartAnswered entries)]> parts) result)) s).
Proof.
  intros Hi Ho Hj He. pose proof (inv_op s i _ Hi Ho) as (Hf & Hr & Hp & Hres). pose proof (inv_core s Hi) as Hco.
  eapply inv_set; [done | by apply moves_none | done |]. split; [done|]. split_and!; [done | | done].
  apply Forall_insert; [done|]. destruct (Forall_lookup_1 _ _ _ _ Hp Hj) as [Hk _]. split; [done|]. cbn in *.
  eapply Forall_impl; [exact He|]. intros e [Hin Ha]. pose proof (answer_version s _ _ _ Hco Ha).
  specialize (Hf (member_key e.1.1)). destruct Ha as [Hl _]. split_and!; [| done | lia |].
  - rewrite Forall_forall in Hk. auto.
  - apply Forall_forall. intros r _. by right.
Qed.

Lemma publish_all_ok now entries : forall rs (n : NearCacheImpl V L),
  nc_inv n -> 0 <= long_val (reservationCounter n) -> Forall (fun e => valid_key e.1.1) entries ->
  Forall (fun r => long_val r < long_val (reservationCounter n) /\ r <> READ_PERMITTED) rs ->
  exists b n', publish_all now entries rs n = Ok (b, n') /\ rtc nc_step n n' /\ config n' = config n /\
    forall d x, cached n' d x -> cached n d x \/
      exists e r, e ∈ entries /\ r ∈ rs /\ d = key_bytes e.1.1 /\ convert n e.1.2 = Ok x /\ ~ unreserved n d r.
Proof.
  induction entries as [|e entries IH]; intros rs n Hi Hc Hk Hrs.
  { exists true, n. destruct rs; split_and!; eauto using rtc_refl. }
  apply Forall_cons in Hk as [Hk Hks]. destruct rs as [|r rs]; cbn [publish_all].
  - pose proof (lookup_record_ok n e.1.1 (key_bytes e.1.1) (inv_wf n Hi) (valid_key_ok _ Hk)) as Hlk.
    destruct (entry n (key_bytes e.1.1)) as [l|].
    + destruct Hlk as (r & _ & _ & ->). eexists _, _. split_and!; eauto using rtc_refl.
    + rewrite Hlk, res_bind_ok. destruct (IH [] n Hi Hc Hks Hrs) as (b & n' & E & Hst & Hcf & Hca).
      exists b, n'. split_and!; [done | done | done |]. intros d x Hx.
      destruct (Hca d x Hx) as [?|(e' & r & _ & Hr & _)]; [by left | by apply not_elem_of_nil in Hr].
  - apply Forall_cons in Hrs as [Hr Hrs].
    destruct (publish_cached now n e.1.1 (key_bytes e.1.1) e.1.2 r Hi (valid_key_ok _ Hk))
      as (o & n1 & E1 & Hst1 & Hcf1 & Hn1 & Hca1 & _).
    assert (forall d x, cached n1 d x -> cached n d x \/ exists e' r', e' ∈ e :: entries /\ r' ∈ r :: rs /\
      d = key_bytes e'.1.1 /\ convert n e'.1.2 = Ok x /\ ~ unreserved n d r') as Hfirst.
    { intros d x Hx. destruct (Hca1 d x Hx) as [?|(-> & Ex & Hn)]; [by left|right]. exists e, r.
      split_and!; [left | left | done..]. }
    rewrite E1, res_bind_ok. destruct o as [o|]; [|exists false, n1; by split_and!].
    destruct (nc_steps_inv _ _ Hi Hc Hst1) as (Hi1 & _ & Hu1).
    destruct (IH rs n1 Hi1) as (b & n2 & E2 & Hst2 & Hcf2 & Hca2); [by rewrite Hn1 | done | by rewrite Hn1 |].
    exists b, n2. split_and!; [done | by etransitivity | congruence |].
    intros d x Hx. destruct (Hca2 d x Hx) as [Hx1|(e' & r' & He' & Hr' & -> & Ex & Hn)]; [by apply Hfirst|].
    right. exists e', r'. unfold convert in Ex. rewrite Hcf1 in Ex.
    split_and!; [by right | by right | done | done |].
    intros Hu. apply Hn. rewrite Forall_forall in Hrs. destruct (Hrs r' Hr'). by apply Hu1.
Qed.

Lemma all_answered_ok s floors rs (parts : list (list HeapData * PartStage)) entries :
  Forall (part_ok s floors rs) parts -> all_answered parts = Some entries ->
  Forall (fun e => valid_key e.1.1 /\ history s (member_key e.1.1) !! e.2 = Some e.1.2 /\
      (floors (member_key e.1.1) <= e.2)%nat /\ Forall (fun r => guarded s e.1.1 r e.2) rs) entries.
Proof.
  intros Hp E. unfold all_answered in E. apply bind_Some in E as (l & El & [= <-]).
  apply mapM_Some in El. apply Forall_concat. revert Hp. induction El as [|p es parts l Hes _ IH]; intros Hp; [done|].
  apply Forall_cons in Hp as [[_ Hp] Hps]. apply Forall_cons. split; [|by apply IH].
  destruct p as [ks [|es']]; [done|]. by injection Hes as ->.
Qed.

Lemma deserialized_ok (P : HeapData * V * nat -> Prop) (Q : HeapData * V -> Prop) entries : forall l,
  Forall P entries -> (forall e v, P e -> toObject e.1.2 = Ok v -> Q (e.1.1, v)) ->
  deserializeEntries entries = Ok l -> Forall Q l.
Proof.
  induction entries as [|e entries IH]; intros l Hp HQ E; cbn in E; [by injection E as <-|].
  apply Forall_cons in Hp as [He Hes]. apply res_bind_inv in E as (? & _ & E). apply res_bind_inv in E as (v & Ev & E).
  apply res_bind_inv in E as (l' & El & [= <-]). constructor; [by apply HQ | by apply (IH l')].
Qed.

Lemma getAll_answered_inv now s s' i floors rs parts result entries : ncm_inv s ->
  ops s !! i = Some (GetAll floors (AAsked rs parts result)) -> all_answered parts = Some entries ->
  getAll_answered now i floors rs entries result s = Ok s' -> ncm_inv s'.
Proof.
  intros Hi Ho Ha E. pose proof (inv_op s i _ Hi Ho) as (Hf & Hr & Hp & Hres). pose proof (inv_core s Hi) as Hco.
  pose proof (all_answered_ok s floors rs parts entries Hp Ha) as He. unfold getAll_answered in E.
  destruct (deserializeEntries entries) as [l|] eqn:El; [|by injection E as <-; eapply inv_set; [done | apply moves_none | done | ]].
  destruct (publish_all_ok now entries rs (nearCache s) (core_inv s Hco) (core_counter s Hco)) as (b & n & Ep & Hst & Hcf & Hca).
  { eapply Forall_impl; [exact He|]. by intros e (? & _). }
  { done. }
  rewrite Ep in E. injection E as <-. eapply inv_set; [done | | done |].
  - split; [done | done | | done | by left]. intros key x Hk Hx.
    destruct (Hca _ x Hx) as [?|(e & r & Hin & Hr' & Ek & Ex & Hn)]; [by left|right].
    rewrite Forall_forall in He. destruct (He e Hin) as (Hke & Hl & _ & Hg). rewrite Forall_forall in Hg.
    rewrite Ek in Hn. eapply (guarded_value s e.1.1); [done | done | done | exact Hl | | by apply Hg | done | done]. done.
  - split; [done|]. destruct b; [|done]. apply Forall_app. split; [done|].
    eapply (deserialized_ok _ _ entries l He); [|done]. intros e v (_ & Hl & Hle & _) Ev. by exists e.2, e.1.2.
Qed.

(** *** The invariant *)

(** A step that only changes the stage of an operation. *)
Lemma opstage_inv s i o o' : ncm_inv s -> ops s !! i = Some o -> (op_ok s o -> op_ok (set_op i o' s) o') ->
  ncm_inv (set_op i o' s).
Proof.
  intros Hi Ho Hok. eapply inv_set; [done | by apply moves_none | done |]. by apply Hok, (inv_op s i).
Qed.

Lemma call_inv s s' o : ncm_inv s -> s' = new_op o s -> op_ok s o -> ncm_inv s'.
Proof. intros Hi -> Ho. by eapply called_inv; [done | apply moves_none | done |]. Qed.

#[local] Tactic Notation "by_lemma" uconstr(l) := eapply l; eassumption.

Lemma map_step_inv s s' : ncm_inv s -> step s s' -> ncm_inv s'.
Proof.
  intros Hi Hs. pose proof (inv_core s Hi) as Hco. destruct Hs;
    try first [
      by_lemma read_lookup_inv | by_lemma read_looked_inv | by_lemma read_served_inv |
      by_lemma read_answered_inv | by_lemma contains_lookup_inv | by_lemma contains_looked_inv |
      by_lemma contains_served_inv | by_lemma contains_answered_inv | by_lemma write_applied_inv |
      by_lemma write_answered_inv | by_lemma delete_inv | by_lemma all_applied_inv |
      by_lemma all_acknowledged_inv | by_lemma part_applied_inv | by_lemma part_answered_inv |
      by_lemma getAll_lookup_inv | by_lemma getAll_ask_inv | by_lemma getAll_served_inv |
      by_lemma getAll_answered_inv].
  - by eapply call_inv; [done | reflexivity | split_and!].
  - by eapply call_inv; [done | reflexivity | split_and!].
  - by eapply call_inv; [done | reflexivity | split].
  - by eapply call_inv; [done | reflexivity |].
  - apply (called_inv s _ (WriteAll ManyAsked)); [done | | done | done]. apply moves_quiet; [|done|done].
    by apply clear_quiet, core_inv.
  - eapply call_inv; [done | reflexivity |]. apply Forall_fmap. eapply Forall_impl; [eassumption|]. by intros ks.
  - eapply call_inv; [done | reflexivity |]. split; [done|]. split; [done | by apply Forall_nil].
  - by eapply inv_same; [done | by apply moves_none |].
  - eapply inv_same; [done | apply moves_quiet; [|done|done] | done]. eapply handle_quiet; [by apply core_inv | done | done].
  - eapply inv_same; [done | apply moves_quiet; [|done|done] | done]. by apply setDetector_quiet.
  - eapply opstage_inv; [done | done |]. by intros (? & ? & _).
  - eapply opstage_inv; [done | done |]. by intros (? & ? & _).
  - eapply opstage_inv; [done | done |]. by intros (? & ? & _).
  - eapply opstage_inv; [done | done |]. by intros (? & _).
  - by eapply opstage_inv.
  - eapply opstage_inv; [done | done |]. intros Hp. apply Forall_insert; [done|]. split; [|done].
    match goal with Hj : parts !! _ = Some _ |- _ => by apply (Forall_lookup_1 _ _ _ _ Hp) in Hj as [? _] end.
  - eapply opstage_inv; [done | done |]. by intros [? _].
  - eapply inv_same; [done | apply moves_quiet; [|done|done] | done].
    destruct (lookup_moves now s key (inv_core s Hi) ltac:(done)) as (o1 & n1 & Eg & Hq & _).
    assert (n = n1) as -> by congruence. done.
  - eapply inv_same; [done | apply member_sets_moves | done].
Qed.

Lemma new_map_inv config h : config_ok config -> (forall d, h d <> []) -> ncm_inv (new_map config h).
Proof.
  intros Hc Hh. split; [|done]. split; cbn.
  - split; [split; cbn; try done; [apply hm_new_ok | intros l Hl; by apply not_elem_of_nil in Hl] | done | done].
  - by rewrite long_val_of_Z.
  - intros d. specialize (Hh d). destruct (h d); [done | cbn; lia].
  - by intros key x _ (l & r & El & _).
Qed.

Lemma map_reachable_inv config h s : config_ok config -> (forall d, h d <> []) -> reachable (new_map config h) s ->
  ncm_inv s.
Proof.
  intros Hc Hh. unfold reachable. pose proof (new_map_inv config h Hc Hh) as H0'. revert H0'.
  generalize (new_map config h). intros s0 Hi Hr. induction Hr as [|s1 s2 s3 Hs _ IH]; [done|]. by apply IH, (map_step_inv s1).
Qed.

(** *** The calls keep their floors *)

(** The version an operation that reads [d] has to show at least. *)
Definition floor_at (o : Op V L) d : option nat :=
  match o with
  | Read key floor _ | Contains key floor _ => if bool_decide (member_key key = d) then Some floor else None
  | GetAll floors _ => Some (floors d)
  | _ => None
  end.

Definition floors_kept s s' : Prop :=
  (forall d, written s d <= written s' d)%nat /\
  forall j o', ops s' !! j = Some o' ->
    (exists o, ops s !! j = Some o /\ forall d, floor_at o' d = floor_at o d) \/
    (length (ops s) <= j)%nat /\ forall d f, floor_at o' d = Some f -> f = written s d.

Lemma floors_set s s' i o o' : ops s !! i = Some o -> ops s' = <[i := o']> (ops s) ->
  (forall d, written s d <= written s' d)%nat -> (forall d, floor_at o' d = floor_at o d) -> floors_kept s s'.
Proof.
  intros Ho E Hw Hf. split; [done|]. rewrite E. intros j o1 Hj. left.
  apply list_lookup_insert_Some in Hj as [(<- & <- & _)|[_ Hj]]; eauto.
Qed.

Lemma floors_same s s' : ops s' = ops s -> written s' = written s -> floors_kept s s'.
Proof. intros Eo Ew. split; [by rewrite Ew|]. rewrite Eo. eauto. Qed.

Lemma floors_new s s' o : ops s' = ops s ++ [o] -> written s' = written s ->
  (forall d f, floor_at o d = Some f -> f = written s d) -> floors_kept s s'.
Proof.
  intros Eo Ew Hf. split; [by rewrite Ew|]. rewrite Eo. intros j o' Hj. apply lookup_app_Some in Hj as [Hj|[Hj Hl]]; [eauto|].
  right. split; [done|]. by apply list_lookup_singleton_Some in Hl as [_ <-].
Qed.

(** The step runs to a state whose operations are known. *)
#[local] Ltac run_step :=
  unfold get_lookup, get_looked, get_answered, contains_lookup, invalidateCacheEntryAndReturn, finalizePutAll,
    getAll_lookup, getAll_ask, getAll_answered in *;
  repeat (res_inv; match goal with
    | H : context [match ?x with _ => _ end] |- _ => let E := fresh "E" in destruct x eqn:E
    end); res_inv; try done.
#[local] Ltac keeps_floors :=
  eapply floors_set; [eassumption | reflexivity | intros; cbn; repeat case_bool_decide; lia | done].

#[local] Ltac new_floors :=
  eapply floors_new; [reflexivity | reflexivity | cbn; intros; repeat case_bool_decide; congruence].

Lemma step_floors s s' : step s s' -> floors_kept s s'.
Proof.
  destruct 1; try solve [by apply floors_same | keeps_floors | run_step; keeps_floors | new_floors].
  - unfold deleteInternal in *. res_inv. new_floors.
  - destruct o; unfold contains_looked; keeps_floors.
  - destruct o; keeps_floors.
  - destruct (member_applies_each_same l s) as (_ & Ew & Eo & _).
    eapply floors_set; [eassumption | subst s1; cbn; by rewrite Eo | subst s1; cbn; by rewrite Ew | done].
Qed.

(** Operations called later have floors that are not below what was written before. *)
Lemma steps_floors s s' : rtc (step) s s' ->
  (forall d, written s d <= written s' d)%nat /\
  forall j o d f, (length (ops s) <= j)%nat -> ops s' !! j = Some o -> floor_at o d = Some f -> (written s d <= f)%nat.
Proof.
  revert s'. apply (rtc_ind_r (fun s' => (forall d, written s d <= written s' d)%nat /\ _)).
  - split; [done|]. intros j o d f Hj Ho. apply lookup_lt_Some in Ho. lia.
  - intros s1 s2 _ Hs [Hw Hf]. destruct (step_floors s1 s2 Hs) as [Hw' Hf']. split.
    + intros d. specialize (Hw d). specialize (Hw' d). lia.
    + intros j o d f Hj Ho Hd. destruct (Hf' j o Ho) as [(o' & Ho' & E)|[_ E]].
      * rewrite E in Hd. by apply (Hf j o').
      * rewrite (E d f Hd). apply Hw.
Qed.

(** *** The properties *)

(** A write of [d] that was acknowledged with the version [n]. *)
Inductive acknowledged s d (n : nat) : Prop :=
  | ack_write i key : ops s !! i = Some (Write key (WriteDone (Resolved n))) -> member_key key = d -> acknowledged s d n
  | ack_all i versions : ops s !! i = Some (WriteAll (ManyDone (Resolved versions))) -> versions d = n -> acknowledged s d n
  | ack_part i parts keys versions : ops s !! i = Some (PutAll parts) -> (keys, ManyDone (Resolved versions)) ∈ parts ->
      d ∈ map member_key keys -> versions d = n -> acknowledged s d n.

Lemma acknowledged_written s d n : ncm_inv s -> acknowledged s d n -> (n <= written s d)%nat.
Proof.
  intros Hi [i key Ho <-|i vs Ho <-|i parts keys vs Ho Hp Hd <-]; pose proof (inv_op s i _ Hi Ho) as Hok.
  - by destruct Hok.
  - by apply Hok.
  - cbn in Hok. rewrite Forall_forall in Hok. by apply (Hok _ Hp).
Qed.

(** What a finished operation told its caller about [d], as a relation with the value the member has. *)
Inductive returned : Op V L -> buffer -> (V -> Prop) -> Prop :=
  | returned_get key floor v :
      returned (Read key floor (ReadDone (Resolved v))) (member_key key) (fun w => toObject w = Ok v)
  | returned_contains key floor b :
      returned (Contains key floor (CDone (Resolved b))) (member_key key) (fun w => b = negb (isNull w))
  | returned_getAll floors result key v : (key, v) ∈ result ->
      returned (GetAll floors (ADone (Resolved result))) (member_key key) (fun w => toObject w = Ok v).

Lemma returned_seen s o d P : op_ok s o -> returned o d P ->
  exists f m w, floor_at o d = Some f /\ (f <= m)%nat /\ history s d !! m = Some w /\ P w.
Proof.
  intros Hok Hr. destruct Hr as [key floor v|key floor b|floors result key v Hin]; cbn in *.
  - destruct Hok as (_ & _ & m & w & Hl & Hle & E). exists floor, m, w. by rewrite bool_decide_eq_true_2.
  - destruct Hok as (_ & _ & m & w & Hl & Hle & ->). exists floor, m, w. by rewrite bool_decide_eq_true_2.
  - destruct Hok as [_ Hres]. unfold result_ok in Hres. rewrite Forall_forall in Hres.
    destruct (Hres _ Hin) as (m & w & Hl & Hle & E). cbn in *. exists (floors (member_key key)), m, w. done.
Qed.

(** C3: the near cache never hides the client's own writes: in any interleaving of calls, answers, failures, invalidation
    events, repairs and writes of other clients, a [get], [getAll] or [containsKey] that is called after a write
    of the key was acknowledged ([put], [remove], [putAll], [clear] and the others) returns what the
    member had after that write or later, whether it is served from the cache or by the member. The member tells keys apart by their type
    id and bytes, the cache by their bytes alone; the program must not use two keys that differ in their type only ([keys_apart]: the
    lemma [confused_keys_hide_write] shows a write that is hidden without this). The conversions of the serialization
    service may throw, and the promise is then rejected; a conversion that returns is assumed to be right: [toObject] leaves
    an object as it is, a value is the same after [toData] and [toObject], and [null] stays [null]. *)
Theorem read_your_writes config h s s' d n i o P :
  config_ok config -> (forall d, h d <> []) -> reachable (new_map config h) s ->
  acknowledged s d n -> rtc (step) s s' ->
  (length (ops s) <= i)%nat -> ops s' !! i = Some o -> returned o d P ->
  exists m w, (n <= m)%nat /\ history s' d !! m = Some w /\ P w.
Proof.
  intros Hc Hh Hr Ha Hs Hi Ho Hret. pose proof (map_reachable_inv config h s Hc Hh Hr) as Hinv.
  assert (ncm_inv s') as Hinv' by (apply (map_reachable_inv config h); [done | done | unfold reachable in *; by etransitivity]).
  destruct (returned_seen s' o d P (inv_op s' i o Hinv' Ho) Hret) as (f & m & w & Hf & Hle & Hl & Hp).
  destruct (steps_floors s s' Hs) as (_ & Hfl). pose proof (Hfl i o d f Hi Ho Hf).
  pose proof (acknowledged_written s d n Hinv Ha). exists m, w. split_and!; [lia | done | done].
Qed.

(** *** A get returns *)

#[local] Notation Stage := (ReadStage (V := V) (L := L)).

(** What is left to be done. *)
Definition rank (stage : Stage) : nat :=
  match stage with
  | WaitReady => 4 | Looked _ => 3 | AskedMember _ => 2 | Answered _ _ _ => 1 | ReadDone _ => 0
  end.

(** The conversion of a cached value or of the value to cache throws. *)
Definition cached_throws s key : Prop :=
  exists x e, cached (nearCache s) (key_bytes key) x /\ inMemoryFormat (config (nearCache s)) = BINARY /\ toObject x = Err e.
Definition convert_throws s (w : V) : Prop := exists e, convert (nearCache s) w = Err e.

(** The stages of a [get], and why it is rejected: the cache could not be made ready, the request failed, or a conversion
    threw (of the cached value, of the answer, or of the value to cache). *)
Inductive get_moves s key : Stage -> Stage -> Prop :=
  | get_unready : ready s = Some false -> get_moves s key WaitReady (ReadDone Rejected)
  | get_missed : ready s = Some true -> get_moves s key WaitReady (Looked None)
  | get_found x v : ready s = Some true -> cached (nearCache s) (key_bytes key) x ->
      read_out (nearCache s) (Some x) = Ok (Some v) -> get_moves s key WaitReady (Looked (Some v))
  | get_unreadable : ready s = Some true -> cached_throws s key -> get_moves s key WaitReady (ReadDone Rejected)
  | get_hit v : get_moves s key (Looked (Some v)) (ReadDone (Resolved v))
  | get_reserved r : get_moves s key (Looked None) (AskedMember r)
  | get_served r v n : answer_ok s key v n -> get_moves s key (AskedMember r) (Answered r v n)
  | get_failed r : get_moves s key (AskedMember r) (ReadDone Rejected)
  | get_value r v n w : toObject v = Ok w -> get_moves s key (Answered r v n) (ReadDone (Resolved w))
  | get_no_value r v n e : toObject v = Err e -> get_moves s key (Answered r v n) (ReadDone Rejected)
  | get_unpublished r v n w : toObject v = Ok w -> convert_throws s w \/ cached_throws s key ->
      get_moves s key (Answered r v n) (ReadDone Rejected).

Lemma get_moves_rank s key st st' : get_moves s key st st' -> (rank st' < rank st)%nat.
Proof. destruct 1; cbn; lia. Qed.

(** The callback that runs next, if it does not wait for the member. *)
Definition get_callback (now : Z) (choose : nat -> nat) (random : nat -> nat -> bool) (i : nat) key (floor : nat)
    (stage : Stage) s : option (res (NCM V L)) :=
  match stage with
  | WaitReady =>
      match ready s with
      | None => None
      | Some true => Some (get_lookup now i key floor s)
      | Some false => Some (Ok (set_op i (Read key floor (ReadDone Rejected)) s))
      end
  | Looked o => Some (get_looked now choose random i key floor o s)
  | Answered r v n => Some (get_answered now i key floor r v s)
  | AskedMember _ | ReadDone _ => None
  end.

Lemma read_out_throws s key x e : cached (nearCache s) (key_bytes key) x -> read_out (nearCache s) (Some x) = Err e ->
  cached_throws s key.
Proof.
  intros Hx E. unfold read_out in E. destruct (inMemoryFormat (config (nearCache s))) eqn:Ef; [done|].
  destruct (toObject x) as [|e'] eqn:Et; [done|]. by exists x, e'.
Qed.

Lemma get_counter now (n : NearCacheImpl V L) key o n' :
  get now n key = Ok (o, n') -> reservationCounter n' = reservationCounter n.
Proof.
  unfold get, expireRecord, remove. intros E.
  repeat (res_inv; match goal with
    | Hm : context [match ?x with _ => _ end] |- _ => let Ex := fresh "E" in destruct x eqn:Ex
    end); res_inv; simplify_eq; repeat case_match; done.
Qed.

(** The callbacks return, and move the operation on. *)
Lemma lookup_callback now s i key floor : core_ok s -> valid_key key -> ready s = Some true ->
  exists s' st', get_lookup now i key floor s = Ok s' /\ ops s' = <[i := Read key floor st']> (ops s) /\
    get_moves s key WaitReady st' /\ reservationCounter (nearCache s') = reservationCounter (nearCache s) /\
    ready s' = ready s.
Proof.
  intros Hco Hk Hr. destruct (get_quiet now (nearCache s) key (key_bytes key) (core_inv s Hco) (valid_key_ok key Hk))
    as (o & n & E & _ & Ho & He).
  unfold get_lookup. rewrite E, res_bind_ok. eexists _, _. split; [done|]. split; [done|].
  split; [|split; [by eapply get_counter | done]]. destruct o as [[v|]|e].
  - destruct (Ho v eq_refl) as (x & Hx & Ex). by eapply get_found.
  - by apply get_missed.
  - destruct (He e eq_refl) as (x & Hx & Ex). apply get_unreadable; [done|]. by eapply read_out_throws.
Qed.

Lemma looked_callback now choose random s i key floor o : core_ok s -> valid_key key -> can_reserve s 1 ->
  exists s' st', get_looked now choose random i key floor o s = Ok s' /\ ops s' = <[i := Read key floor st']> (ops s) /\
    get_moves s key (Looked o) st'.
Proof.
  intros Hco Hk Hcan. destruct o as [v|]; cbn.
  { eexists _, _. split; [done|]. split; [done|]. apply get_hit. }
  pose proof (core_counter s Hco). unfold can_reserve in Hcan.
  destruct (reserve_quiet now choose random (nearCache s) key (key_bytes key) (core_inv s Hco) (valid_key_ok key Hk)
    ltac:(lia)) as (r & n & E & _).
  rewrite E, res_bind_ok. eexists _, _. split; [done|]. split; [done|]. apply get_reserved.
Qed.

Lemma answered_callback now s i key floor r v n : core_ok s -> valid_key key ->
  exists s' st', get_answered now i key floor r v s = Ok s' /\ ops s' = <[i := Read key floor st']> (ops s) /\
    get_moves s key (Answered r v n) st'.
Proof.
  intros Hco Hk. unfold get_answered. destruct (toObject v) as [w|e] eqn:Ew.
  2:{ eexists _, _. split; [done|]. split; [done|]. by eapply get_no_value. }
  destruct (publish_cached now (nearCache s) key (key_bytes key) w r (core_inv s Hco) (valid_key_ok key Hk))
    as (o & n' & E & _ & _ & _ & _ & He).
  rewrite E, res_bind_ok. eexists _, _. split; [done|]. split; [done|]. destruct o as [o|e]; [by apply get_value|].
  eapply get_unpublished; [done|]. destruct (He e eq_refl) as [Ec|(x & Hx & Ex)]; [left; by exists e | right].
  by eapply read_out_throws.
Qed.

Lemma member_has_answer s key : core_ok s -> exists v n, answer_ok s key v n.
Proof.
  intros Hco. pose proof (core_written s Hco (member_key key)) as Hw.
  destruct (lookup_lt_is_Some_2 (history s (member_key key)) (pred (length (history s (member_key key))))) as [v Hv]; [lia|].
  exists v, (pred (length (history s (member_key key)))). split; [done | lia].
Qed.

(** Operation [i], a [get], is at the stage it was at or at the next. *)
Definition moved s s' (i : nat) key (floor : nat) (st : Stage) : Prop :=
  exists st', ops s' !! i = Some (Read key floor st') /\ (st' = st \/ get_moves s key st st').

Section Moved.
Context (s s' : NCM V L) (i : nat) (key : HeapData) (floor : nat) (st : Stage).
Context (Hi : ops s !! i = Some (Read key floor st)).

Lemma moved_same : ops s' = ops s -> moved s s' i key floor st.
Proof. intros E. exists st. rewrite E. auto. Qed.

Lemma moved_new o : ops s' = ops s ++ [o] -> moved s s' i key floor st.
Proof. intros E. exists st. rewrite E. split; [by apply lookup_app_l_Some | by left]. Qed.

Lemma moved_other j o o' : ops s !! j = Some o -> (forall k f t, o <> Read k f t) -> ops s' = <[j := o']> (ops s) ->
  moved s s' i key floor st.
Proof.
  intros Ho Hn E. exists st. rewrite E. split; [|by left]. rewrite list_lookup_insert_ne; [done|].
  intros ->. rewrite Hi in Ho. injection Ho as <-. by eapply Hn.
Qed.

Lemma moved_read j key' floor' st0 st1 : ops s !! j = Some (Read key' floor' st0) ->
  ops s' = <[j := Read key' floor' st1]> (ops s) -> get_moves s key' st0 st1 -> moved s s' i key floor st.
Proof.
  intros Ho E Hm. destruct (decide (j = i)) as [->|Hne].
  - assert (key' = key /\ floor' = floor /\ st0 = st) as (-> & -> & ->) by (rewrite Hi in Ho; by injection Ho).
    exists st1. rewrite E, list_lookup_insert_eq by (by eapply lookup_lt_Some). auto.
  - exists st. rewrite E, list_lookup_insert_ne by done. auto.
Qed.
End Moved.

#[local] Ltac moves_other := eapply moved_other; [eassumption | eassumption | done | reflexivity].

Lemma step_moved s s' i key floor st : ncm_inv s -> ops s !! i = Some (Read key floor st) -> step s s' ->
  moved s s' i key floor st.
Proof.
  intros Hinv Hi Hs. pose proof (inv_core s Hinv) as Hco. assert (forall j k f t, ops s !! j = Some (Read k f t) -> valid_key k) as Hkey.
  { intros j k f t Hj. by destruct (inv_op s j _ Hinv Hj). }
  destruct Hs; try solve [by eapply moved_same | by eapply moved_new | moves_other | run_step; moves_other].
  - unfold deleteInternal in *. res_inv. by eapply moved_new.
  - destruct (lookup_callback now s i0 key0 floor0) as (s1 & st1 & E & Eo & Hm & _); [done | by eapply Hkey | done |].
    assert (s' = s1) as -> by congruence. by eapply moved_read.
  - eapply moved_read; [done | done | reflexivity | by apply get_unready].
  - destruct (looked_callback now choose random s i0 key0 floor0 o) as (s1 & st1 & E & Eo & Hm); [done | by eapply Hkey | done |].
    assert (s' = s1) as -> by congruence. by eapply moved_read.
  - eapply moved_read; [done | done | reflexivity | by apply get_served].
  - eapply moved_read; [done | done | reflexivity | by apply get_failed].
  - destruct (answered_callback now s i0 key0 floor0 r v n) as (s1 & st1 & E & Eo & Hm); [done | by eapply Hkey |].
    assert (s' = s1) as -> by congruence. by eapply moved_read.
  - destruct o; unfold contains_looked; moves_other.
  - destruct o; moves_other.
  - destruct (member_applies_each_same l s) as (_ & _ & Eo & _).
    eapply moved_other; [done | done | done |]. subst s1. cbn. by rewrite Eo.
Qed.

Definition finishes s (i : nat) key (floor : nat) : Prop :=
  exists s' r, rtc step s s' /\ ops s' !! i = Some (Read key floor (ReadDone r)).

Lemma finishes_step s s' i key floor : step s s' -> finishes s' i key floor -> finishes s i key floor.
Proof. intros Hs (s'' & r & Hr & Ho). exists s'', r. split; [by eapply rtc_l | done]. Qed.

Lemma callback_ok now choose random s i key floor st c :
  ncm_inv s -> ops s !! i = Some (Read key floor st) -> can_reserve s 1 ->
  get_callback now choose random i key floor st s = Some c ->
  exists s' st', c = Ok s' /\ step s s' /\ ops s' !! i = Some (Read key floor st') /\ get_moves s key st st' /\
    (st = WaitReady -> can_reserve s' 1).
Proof.
  intros Hinv Hi Hcan Hc. pose proof (inv_core s Hinv) as Hco. destruct (inv_op s i _ Hinv Hi) as [Hk _].
  pose proof (lookup_lt_Some _ _ _ Hi) as Hlt.
  assert (forall s' st', ops s' = <[i := Read key floor st']> (ops s) -> ops s' !! i = Some (Read key floor st')) as Hat
    by (intros s' st' ->; by apply list_lookup_insert_eq).
  destruct st as [|o|r|r v n|o]; cbn in Hc; [| |done| |done].
  - destruct (ready s) as [[]|] eqn:Hr; [| |done]; injection Hc as <-.
    + destruct (lookup_callback now s i key floor Hco Hk Hr) as (s' & st' & E & Eo & Hm & Ec & _).
      exists s', st'. split_and!; [done | by eapply read_lookup | by apply Hat | done |].
      intros _. unfold can_reserve in *. by rewrite Ec.
    + eexists _, _. split_and!; [done | by eapply read_unready | by apply Hat | by apply get_unready | done].
  - injection Hc as <-. destruct (looked_callback now choose random s i key floor o Hco Hk Hcan) as (s' & st' & E & Eo & Hm).
    exists s', st'. split_and!; [done | by eapply read_looked | by apply Hat | done | done].
  - injection Hc as <-. destruct (answered_callback now s i key floor r v n Hco Hk) as (s' & st' & E & Eo & Hm).
    exists s', st'. split_and!; [done | by eapply read_answered | by apply Hat | done | done].
Qed.

(** The clock and the choices are any. *)
Lemma get_finishes (m : nat) : forall s i key floor st,
  ncm_inv s -> ops s !! i = Some (Read key floor st) -> (rank st < m)%nat ->
  (st = WaitReady -> ready s <> None) -> (can_reserve s 1 \/ (rank st < 3)%nat) -> finishes s i key floor.
Proof.
  induction m as [|m IH]; intros s i key floor st Hinv Hi Hm Hr Hcan; [lia|].
  destruct st as [|o|r|r v n|o].
  - destruct Hcan as [Hcan|]; [|cbn in *; lia]. destruct (get_callback 0 id (fun _ _ => true) i key floor WaitReady s) as [c|] eqn:Ec.
    2:{ cbn in Ec. destruct (ready s) as [[]|] eqn:Er; [done | done |]. by destruct (Hr eq_refl). }
    destruct (callback_ok _ _ _ _ _ _ _ _ _ Hinv Hi Hcan Ec) as (s' & st' & _ & Hs & Hi' & Hmv & Hc').
    pose proof (get_moves_rank _ _ _ _ Hmv). eapply finishes_step; [exact Hs|].
    eapply (IH s' i key floor st'); [by eapply map_step_inv | done | lia | intros ->; cbn in *; lia | left; auto].
  - destruct Hcan as [Hcan|]; [|cbn in *; lia].
    destruct (callback_ok 0 id (fun _ _ => true) _ _ _ _ _ _ Hinv Hi Hcan eq_refl) as (s' & st' & _ & Hs & Hi' & Hmv & _).
    pose proof (get_moves_rank _ _ _ _ Hmv). cbn in *. eapply finishes_step; [exact Hs|].
    eapply (IH s' i key floor st'); [by eapply map_step_inv | done | lia | intros ->; cbn in *; lia | right; lia].
  - destruct (member_has_answer s key (inv_core s Hinv)) as (v & n & Ha).
    assert (step s (set_op i (Read key floor (Answered r v n)) s)) as Hs by (by eapply read_served).
    eapply finishes_step; [exact Hs|]. eapply (IH _ i key floor (Answered r v n)); [by eapply map_step_inv | | cbn in *; lia | done | right; cbn; lia].
    cbn. apply list_lookup_insert_eq. by eapply lookup_lt_Some.
  - destruct (inv_op s i _ Hinv Hi) as [Hk _].
    destruct (answered_callback 0 s i key floor r v n (inv_core s Hinv) Hk) as (s' & st' & E & Eo & Hmv).
    assert (step s s') as Hs by (by eapply read_answered). pose proof (get_moves_rank _ _ _ _ Hmv). cbn in *.
    eapply finishes_step; [exact Hs|]. eapply (IH s' i key floor st'); [by eapply map_step_inv | | lia | intros ->; cbn in *; lia | right; lia].
    rewrite Eo. apply list_lookup_insert_eq. by eapply lookup_lt_Some.
  - exists s, o. split; [apply rtc_refl | done].
Qed.

(** C18: a [get] never gets stuck. In every reachable state, for a [get] that was called and at whatever stage it is: the callback
    that runs next returns, for every clock and every random choice (the counter of reservations must not be about to
    wrap around), and moves the [get] to its next stage; while it waits for the member, the member has an answer; whatever step any part
    of the program makes, the [get] stays where it is or moves on, and moving on lowers its rank, so that it takes four
    moves at most; and once the cache is ready or known not to be, there is a run in which it finishes. The moves say how it ends: resolved with
    the value of the cache, or with the value of the member's answer; rejected only because the cache could not be made ready,
    the request failed, or a conversion threw (of the cached value, of the answer, or of the value to cache). The conditions on keys and
    conversions are those of reading one's own writes. *)
Theorem get_completes config h s i key floor stage :
  config_ok config -> (forall d, h d <> []) -> reachable (new_map config h) s ->
  ops s !! i = Some (Read key floor stage) ->
  (forall now choose random c, can_reserve s 1 -> get_callback now choose random i key floor stage s = Some c ->
     exists s' stage', c = Ok s' /\ step s s' /\ ops s' !! i = Some (Read key floor stage') /\ get_moves s key stage stage') /\
  (exists v n, answer_ok s key v n) /\
  (forall s', step s s' -> exists stage', ops s' !! i = Some (Read key floor stage') /\
     (stage' = stage \/ get_moves s key stage stage')) /\
  (forall stage', get_moves s key stage stage' -> (rank stage' < rank stage <= 4)%nat) /\
  (ready s <> None -> can_reserve s 1 -> exists s' r, rtc step s s' /\ ops s' !! i = Some (Read key floor (ReadDone r))).
Proof.
  intros Hc Hh Hre Hi. pose proof (map_reachable_inv config h s Hc Hh Hre) as Hinv. split_and!.
  - intros now choose random c Hcan Ec.
    destruct (callback_ok _ _ _ _ _ _ _ _ _ Hinv Hi Hcan Ec) as (s' & st' & ? & ? & ? & ? & _). eauto 6.
  - apply member_has_answer, inv_core, Hinv.
  - intros s' Hs. by apply step_moved.
  - intros stage' Hm. pose proof (get_moves_rank _ _ _ _ Hm). split; [done|]. destruct stage; cbn; lia.
  - intros Hr Hcan. eapply (get_finishes (S (rank stage))); [done | done | lia | done | by left].
Qed.
End ReadYourWrites.

(** ** Witnesses *)

(** A map of numbers, 0 for [null], as objects and as data; there is no serializer for negative ones. *)
Inductive demo_value := Obj (z : Z) | Dat (z : Z).
Definition demo_number (v : demo_value) : Z := match v with Obj z | Dat z => z end.
#[local] Instance number_serialization : SerializationService demo_value := {|
  toObject v := match v with Obj z => Ok v | Dat z => if z <? 0 then Err RangeError else Ok (Obj z) end;
  toData v := match v with Dat z => Ok v | Obj z => if z <? 0 then Err RangeError else Ok (Dat z) end
|}.
#[local] Instance demo_env : MapEnv demo_value := {|
  isNull v := demo_number v =? 0;
  keyToObject k := Ok (Obj 1);
  used_key k := exists n, k = demo_key n
|}.
#[local] Instance number_laws : SerializationLaws demo_value.
Proof.
  split.
  - intros [z|z] w E; cbn in *; [by injection E as <-|]. destruct (z <? 0); [done | by injection E as <-].
  - intros [z|z] d w E; cbn in E; [|by injection E as <-]. destruct (z <? 0) eqn:Ez; [done|].
    injection E as <-. cbn. by rewrite Ez.
  - intros [z|z] w E; cbn in *; [by injection E as <-|]. destruct (z <? 0); [done | by injection E as <-].
Qed.

Lemma demo_apart : keys_apart.
Proof.
  intros k k' [[n ->] _] [[m ->] _] E. change (replicate n Byte.x41 = replicate m Byte.x41) in E.
  change (replicate 4 Byte.x00 ++ replicate n Byte.x41 = replicate 4 Byte.x00 ++ replicate m Byte.x41). by rewrite E.
Qed.

#[local] Notation demo_state := (NCM demo_value Int64.t).
Definition demo_map : demo_state := new_map demo_config (fun _ => [Dat 0]).

(** The state a step that does not throw leads to. *)
Definition run (s : demo_state) (f : demo_state -> res demo_state) : demo_state :=
  match f s with Ok s' => s' | Err _ => s end.

(** A [set] of 42 that is acknowledged. *)
Definition demo_asked : demo_state := writeInternal (demo_key 1) (setReady true demo_map).
Definition demo_applied : demo_state :=
  let s := member_sets (member_key (demo_key 1)) (Dat 42) demo_asked in set_op 0 (Write (demo_key 1) (WriteApplied 1)) s.
Definition demo_written : demo_state := run demo_applied (invalidateCacheEntryAndReturn 0 (demo_key 1) 1).

Lemma demo_valid : valid_key (demo_key 1).
Proof. split; [by exists 1%nat | by exists [Byte.x41]]. Qed.

Lemma demo_written_reachable : reachable demo_map demo_written.
Proof.
  eapply rtc_l; [apply (becomes_ready _ true)|]. eapply rtc_l; [apply (call_write _ (demo_key 1)), demo_valid|].
  eapply rtc_l; [apply (write_applied _ 0 (demo_key 1) (Some (Dat 42))); reflexivity|]. apply rtc_once.
  eapply (write_answered _ _ 0); reflexivity.
Qed.

(** A [get] after it that asks the member. *)
Definition demo_called : demo_state := getInternal (demo_key 1) demo_written.
Definition demo_looked : demo_state := run demo_called (get_lookup 5 1 (demo_key 1) 1).
Definition demo_reserved : demo_state := run demo_looked (get_looked 5 no_choice no_random 1 (demo_key 1) 1 None).
Definition demo_served : demo_state :=
  set_op 1 (Read (demo_key 1) 1 (Answered (long_of_Z 0) (Dat 42) 1)) demo_reserved.
Definition demo_read : demo_state := run demo_served (get_answered 6 1 (demo_key 1) 1 (long_of_Z 0) (Dat 42)).

Lemma demo_called_step : step demo_written demo_called.
Proof. apply (call_get _ (demo_key 1)), demo_valid. Qed.

Lemma demo_read_steps : rtc step demo_written demo_read.
Proof.
  eapply rtc_l; [apply demo_called_step|].
  eapply rtc_l; [eapply (read_lookup _ demo_looked 5 1); reflexivity|].
  eapply rtc_l; [eapply (read_looked _ demo_reserved 5 no_choice no_random 1); [reflexivity | done | reflexivity]|].
  eapply rtc_l; [eapply (read_served _ 1 (demo_key 1) 1 (long_of_Z 0) (Dat 42) 1); [reflexivity | by split]|].
  apply rtc_once. eapply (read_answered _ _ 6 1); reflexivity.
Qed.

Lemma demo_config_ok : config_ok demo_config.
Proof. unfold config_ok. cbn. lia. Qed.

Lemma read_your_writes_witness :
  exists m w, (1 <= m)%nat /\ history demo_read (member_key (demo_key 1)) !! m = Some w /\ toObject w = Ok (Obj 42).
Proof.
  apply (read_your_writes demo_apart demo_config (fun _ => [Dat 0]) demo_written demo_read (member_key (demo_key 1)) 1 1
    (Read (demo_key 1) 1 (ReadDone (Resolved (Obj 42)))) (fun w => toObject w = Ok (Obj 42))).
  - apply demo_config_ok.
  - intros d. discriminate.
  - apply demo_written_reachable.
  - apply (ack_write _ _ _ 0 (demo_key 1)); reflexivity.
  - apply demo_read_steps.
  - apply le_n.
  - reflexivity.
  - exact (returned_get (demo_key 1) 1 (Obj 42)).
Defined.

Lemma get_completes_witness :
  (exists s' stage', get_callback 5 no_choice no_random 1 (demo_key 1) 1 WaitReady demo_called = Some (Ok s') /\
     ops s' !! 1%nat = Some (Read (demo_key 1) 1 stage')) /\
  (exists s' r, rtc step demo_called s' /\ ops s' !! 1%nat = Some (Read (demo_key 1) 1 (ReadDone r))).
Proof.
  destruct (get_completes demo_apart demo_config (fun _ => [Dat 0]) demo_called 1 (demo_key 1) 1 WaitReady)
    as (Hcb & _ & _ & _ & Hrun).
  - apply demo_config_ok.
  - intros d. discriminate.
  - eapply rtc_r; [apply demo_written_reachable | apply demo_called_step].
  - reflexivity.
  - assert (can_reserve demo_called 1) as Hcan by (vm_compute; reflexivity). split.
    + destruct (Hcb 5 no_choice no_random _ Hcan eq_refl) as (s' & stage' & E & _ & Ho & _).
      exists s', stage'. split; [rewrite <- E; reflexivity | exact Ho].
    + apply Hrun; [discriminate | exact Hcan].
Defined.

(** ** What failures leave in the cache *)

(** The value and the status of the record of a key. *)
Definition record_of (s : demo_state) (k : HeapData) : option (option demo_value * Z) :=
  match lookup_record (nearCache s) k with
  | Ok (Some (_, r)) => Some (dr_value r, long_val (status r))
  | _ => None
  end.

(** The reads of one key by a caller, with the outcome of the request to the member. *)
Definition read_once (now : Z) (i : nat) (key : HeapData) (answer : option (demo_value * nat)) (s : demo_state) : demo_state :=
  let s := run (getInternal key s) (get_lookup now i key 0) in
  match ops s !! i with
  | Some (Read _ _ (Looked None)) =>
      let s := run s (get_looked now no_choice no_random i key 0 None) in
      match ops s !! i, answer with
      | Some (Read _ _ (AskedMember r)), Some (v, n) => run s (get_answered now i key 0 r v)
      | _, _ => set_op i (Read key 0 (ReadDone Rejected)) s
      end
  | Some (Read _ _ (Looked (Some v))) => set_op i (Read key 0 (ReadDone (Resolved v))) s
  | _ => s
  end.

(** A [get] whose request fails leaves its reservation: the handler only rethrows the error. Later [get]s of the key
    find the record reserved and cannot publish what they read, so the key is not cached again until the record is
    invalidated or evicted. Without the failure the first one caches the value. *)
Lemma failed_get_keeps_reservation :
  let s := setReady true demo_map in
  record_of (read_once 7 1 (demo_key 1) (Some (Dat 42, 1%nat)) (read_once 6 0 (demo_key 1) None s)) (demo_key 1) = Some (None, 0) /\
  record_of (read_once 6 0 (demo_key 1) (Some (Dat 42, 1%nat)) s) (demo_key 1) = Some (Some (Obj 42), -3).
Proof. vm_compute. split; reflexivity. Qed.

(** An answer that cannot be deserialized rejects the [get] and leaves the reservation in the same way. *)
Lemma unreadable_answer_keeps_reservation :
  let s := read_once 6 0 (demo_key 1) (Some (Dat (-1), 1%nat)) (setReady true demo_map) in
  ops s !! 0%nat = Some (Read (demo_key 1) 0 (ReadDone Rejected)) /\ record_of s (demo_key 1) = Some (None, 0).
Proof. vm_compute. split; reflexivity. Qed.

(** A write that took effect at the member but whose answer was lost does not drop the record, and the invalidation event it
    causes is ignored because it has the UUID of this client: the next [get] returns the value from before. *)
Lemma lost_answer_keeps_value :
  let s := read_once 6 0 (demo_key 1) (Some (Dat 42, 0%nat)) (setReady true demo_map) in
  let s := set_op 1 (Write (demo_key 1) (WriteDone Rejected))
             (member_sets (member_key (demo_key 1)) (Dat 43) (writeInternal (demo_key 1) s)) in
  let uuid := mkUUID (long_of_Z 1) (long_of_Z 2) in
  let s := run s (fun s => n ← handle uuid (Ok 0) (nearCache s) (Some (demo_key 1)) (Some uuid) None (long_of_Z 1);
                           Ok (with_cache n s)) in
  ops (read_once 8 2 (demo_key 1) None s) !! 2%nat = Some (Read (demo_key 1) 0 (ReadDone (Resolved (Obj 42)))) /\
  current s (member_key (demo_key 1)) = Some (Dat 43).
Proof. vm_compute. split; reflexivity. Qed.

(** [getAll] pairs the entries of the answer with the reservations by index. The answer has no entry for a key that is not in
    the map, so the entries after it come with the reservation of another key: nothing is cached, and the records stay
    reserved. *)
Lemma getAll_of_absent_key_caches_nothing :
  let s := setReady true demo_map in
  let keys := [[demo_key 1; demo_key 2]] in
  let s := getAllInternal keys s in
  let s := run s (fun s => getAll_lookup 5 0 (written s) 0 1 [(0, 0)%nat] keys [] s) in
  let s := run s (fun s => getAll_lookup 5 0 (written s) 0 0 [] keys [] s) in
  let s := run s (fun s => getAll_ask 5 no_choice no_random 0 (written s) keys [] s) in
  let s := run s (fun s => getAll_answered 6 0 (written s) [long_of_Z 0; long_of_Z 1] [(demo_key 2, Dat 42, 0%nat)] [] s) in
  ops s !! 0%nat = Some (GetAll (written s) (ADone (Resolved [(demo_key 2, Obj 42)]))) /\
  record_of s (demo_key 1) = Some (None, 0) /\ record_of s (demo_key 2) = Some (None, 1).
Proof. vm_compute. split_and!; reflexivity. Qed.

(** ** Keys that differ in their type only *)

(** A double and a long, both 0: the data is the same, the type ids are -10 and -8. *)
Definition double_zero : HeapData :=
  mkHeapData (Some (replicate 4 Byte.x00 ++ [Byte.xff; Byte.xff; Byte.xff; Byte.xf6] ++ replicate 8 Byte.x00)).
Definition long_zero : HeapData :=
  mkHeapData (Some (replicate 4 Byte.x00 ++ [Byte.xff; Byte.xff; Byte.xff; Byte.xf8] ++ replicate 8 Byte.x00)).

(** The member keeps two entries for them, the cache one. A [set] of the long that was acknowledged is hidden from the
    client that made it: a [get] of the double caches its value, and the [get] of the long returns that value from the cache. *)
Lemma confused_keys_hide_write :
  member_key double_zero <> member_key long_zero /\ key_bytes double_zero = key_bytes long_zero /\
  let s := writeInternal long_zero (setReady true (new_map demo_config (fun _ => [Dat 7]))) in
  let s := set_op 0 (Write long_zero (WriteApplied 1)) (member_sets (member_key long_zero) (Dat 42) s) in
  let s := run s (invalidateCacheEntryAndReturn 0 long_zero 1) in
  let s := read_once 6 1 double_zero (Some (Dat 7, 0%nat)) s in
  let s := read_once 7 2 long_zero None s in
  current s (member_key long_zero) = Some (Dat 42) /\ written s (member_key long_zero) = 1%nat /\
  ops s !! 0%nat = Some (Write long_zero (WriteDone (Resolved 1%nat))) /\
  ops s !! 2%nat = Some (Read long_zero 0 (ReadDone (Resolved (Obj 7)))).
Proof. vm_compute. split_and!; (reflexivity || discriminate). Qed.
