(* ===== verification/MetricsCompressor.v ===== *)
(** * The metrics compressor

    [MetricsCompressor], [MetricsDictionary] and [OutputBuffer] of [src/src/statistics/MetricsCompressor.ts]: metrics are written one
    after the other, each with what differs from the one before; words are replaced by their ids in a
    dictionary, whose words are sorted and written with the length of the prefix they share with the word before.

    The members read the blob; how they do is not part of the repository, and [decompress] says it, so that the theorem is that
    what was added is read back. [deflate] and [inflate] are zlib's, which are arguments. Strings are lists
    of UTF-16 code units. A method that throws leaves what it has written so far. *)

From stdpp Require Import sorting.
From S2P Require Export Prelude NodeBuffer LongNum JsNumber FixSized.

(** ** Descriptors *)

Abbreviation js_string := (list Z).

Inductive ProbeUnit := BYTES | MS | NS | PERCENT | COUNT | BOOLEAN | ENUM | US.
Definition ProbeUnit_value (u : ProbeUnit) : Z :=
  match u with BYTES => 0 | MS => 1 | NS => 2 | PERCENT => 3 | COUNT => 4 | BOOLEAN => 5 | ENUM => 6 | US => 7 end.
#[global] Instance ProbeUnit_eq_dec : EqDecision ProbeUnit.
Proof. solve_decision. Defined.

Inductive ValueType := LONG | DOUBLE.
Definition ValueType_value (t : ValueType) : Z := match t with LONG => 0 | DOUBLE => 1 end.

Record MetricDescriptor := mkDescriptor {
  md_prefix : option js_string;
  md_metric : js_string;
  md_discriminator : option js_string;
  md_discriminatorValue : option js_string;
  md_unit : option ProbeUnit
}.

Definition MASK_PREFIX : Z := 1.
Definition MASK_METRIC : Z := js_shl 1 1.
Definition MASK_DISCRIMINATOR : Z := js_shl 1 2.
Definition MASK_DISCRIMINATOR_VALUE : Z := js_shl 1 3.
Definition MASK_UNIT : Z := js_shl 1 4.
Definition MASK_EXCLUDED_TARGETS : Z := js_shl 1 5.
Definition MASK_TAG_COUNT : Z := js_shl 1 6.
Definition NULL_DICTIONARY_ID : Z := -1.
Definition NULL_UNIT : Z := -1.
Definition UNSIGNED_BYTE_MAX_VALUE : nat := 255.
Definition BITS_IN_BYTE : Z := 8.
Definition BYTE_MASK : Z := 0xFF.
Definition BINARY_FORMAT_VERSION : Z := 1.
Definition SIZE_VERSION : Z := 2.
Definition SIZE_DICTIONARY_BLOB : Z := 4.
Definition SIZE_COUNT_METRICS : Z := 4.

(** ** OutputBuffer *)

Module OutputBuffer.
Section OutputBuffer.
Context `{Uninit}.

Record t := mk { ob_buffer : buffer; pos : Z }.

Definition OUTPUT_BUFFER_INITIAL_SIZE : Z := 1024.
(** [Math.floor(n * OUTPUT_BUFFER_GROW_FACTOR)], with the factor 1.2: below [2 ^ 50] the product is rounded to a number with the
    same integer part as six fifths of [n]. *)
Definition grow (n : Z) : Z := 6 * n / 5.

(** [size || OUTPUT_BUFFER_INITIAL_SIZE]. *)
Definition new (size : option Z) : t :=
  let size := default 0 size in mk (allocUnsafe (if size =? 0 then OUTPUT_BUFFER_INITIAL_SIZE else size)) 0.

Definition toBuffer (o : t) : buffer := slice (ob_buffer o) 0 (pos o).
Definition available (o : t) : Z := blen (ob_buffer o) - pos o.
Definition ensureAvailable (size : Z) (o : t) : t :=
  if available o <? size then
    let newSize := grow (pos o + size) in
    let newSize := if negb (newSize mod 2 =? 0) then newSize + 1 else newSize in
    mk (copy_into (slice (ob_buffer o) 0 (pos o)) (allocUnsafe newSize) 0) (pos o)
  else o.

(** The shape of the writers: make room, write at the position, advance. *)
Definition put (size : Z) (wr : buffer -> Z -> res buffer) (o : t) : res t :=
  let o := ensureAvailable size o in
  b ← wr (ob_buffer o) (pos o);
  Ok (mk b (pos o + size)).

Definition writeBuffer (buf : buffer) : t -> res t := put (blen buf) (fun b p => Ok (copy_into buf b p)).
Definition writeByte (byte : Z) : t -> res t := put BYTE_SIZE_IN_BYTES (fun b p => writeUInt8 b (js_and byte BYTE_MASK) p).
Definition writeChar (char : Z) : t -> res t := put CHAR_SIZE_IN_BYTES (fun b p => writeUInt16 b p char true).
Definition writeDouble (double : js_number) : t -> res t :=
  put DOUBLE_SIZE_IN_BYTES (fun b p => JsNumber.writeDouble b p double true).
Definition writeInt (int : Z) : t -> res t := put INT_SIZE_IN_BYTES (fun b p => writeInt32 b p int true).
(** The argument is the [Long] that [Long.fromNumber] makes of the number. *)
Definition writeLong {L} `{LongLib L} (long : L) : t -> res t :=
  put LONG_SIZE_IN_BYTES (fun b p => b ← writeInt32 b p (long_high long) true; writeInt32 b (p + INT_SIZE_IN_BYTES) (long_low long) true).
End OutputBuffer.
End OutputBuffer.
Abbreviation OutputBuffer := OutputBuffer.t.

(** ** MetricsDictionary *)

(** The entries of the map, in the order in which they were set. *)
Definition MetricsDictionary : Type := list (js_string * Z).

Definition ids_get (word : js_string) (ids : MetricsDictionary) : option Z :=
  snd <$> List.find (fun e => bool_decide (e.1 = word)) ids.

Definition dictionary_getDictionaryId (word : js_string) (ids : MetricsDictionary) : res (Z * MetricsDictionary) :=
  if (UNSIGNED_BYTE_MAX_VALUE <? length word)%nat then Err Error
  else
    match ids_get word ids with
    | Some id => Ok (id, ids)
    | None => let id := Z.of_nat (length ids) in Ok (id, ids ++ [(word, id)])
    end.

(** [w1 < w2], by code units. *)
Fixpoint word_ltb (w1 w2 : js_string) : bool :=
  match w1, w2 with
  | _, [] => false
  | [], _ :: _ => true
  | c1 :: w1, c2 :: w2 => if c1 <? c2 then true else if c2 <? c1 then false else word_ltb w1 w2
  end.
(** [sort] with the comparator of the method: the order of words, and the order of entries for equal ones. *)
Definition not_after (w1 w2 : js_string * Z) : Prop := word_ltb w2.1 w1.1 = false.
#[global] Instance not_after_dec : RelDecision not_after.
Proof. intros w1 w2. unfold not_after. apply _. Defined.
Definition words (ids : MetricsDictionary) : list (js_string * Z) := merge_sort not_after ids.

(** ** MetricsCompressor *)

Section MetricsCompressor.
Context `{Uninit} {L : Type} `{LongLib L} (fromNumber : js_number -> L).
(** [zlib.deflate] with the level 1, or its error. *)
Context (deflate : buffer -> res buffer).

Record MetricsCompressor := mkCompressor {
  metricsBuffer : OutputBuffer;
  dictionaryBuffer : OutputBuffer;
  dictionary : MetricsDictionary;
  metricsCount : Z;
  lastDescriptor : option MetricDescriptor
}.
Definition new_compressor : MetricsCompressor := mkCompressor (OutputBuffer.new None) (OutputBuffer.new None) [] 0 None.

(** A method: it returns or throws, and changes the compressor. *)
Definition Comp (A : Type) : Type := MetricsCompressor -> res A * MetricsCompressor.
#[global] Instance Comp_ret : MRet Comp := fun A a c => (Ok a, c).
#[global] Instance Comp_bind : MBind Comp := fun A B f m c =>
  match m c with (Ok a, c) => f a c | (Err e, c) => (Err e, c) end.

Lemma Comp_bind_ok {A B} (m : Comp A) (f : A -> Comp B) c c' a : m c = (Ok a, c') -> (m ≫= f) c = f a c'.
Proof. intros E. unfold mbind, Comp_bind. by rewrite E. Qed.

Definition throw {A} (e : js_error) : Comp A := fun c => (Err e, c).
Definition this : Comp MetricsCompressor := fun c => (Ok c, c).
Definition unless (b : bool) (m : Comp ()) : Comp () := if b then mret () else m.
Definition to_metrics (w : OutputBuffer -> res OutputBuffer) : Comp () := fun c =>
  match w (metricsBuffer c) with
  | Ok o => (Ok (), mkCompressor o (dictionaryBuffer c) (dictionary c) (metricsCount c) (lastDescriptor c))
  | Err e => (Err e, c)
  end.
Definition to_dictionary (w : OutputBuffer -> res OutputBuffer) : Comp () := fun c =>
  match w (dictionaryBuffer c) with
  | Ok o => (Ok (), mkCompressor (metricsBuffer c) o (dictionary c) (metricsCount c) (lastDescriptor c))
  | Err e => (Err e, c)
  end.

Definition getDictionaryId (word : option js_string) : Comp Z := fun c =>
  match word with
  | None => (Ok NULL_DICTIONARY_ID, c)
  | Some word =>
      match dictionary_getDictionaryId word (dictionary c) with
      | Ok (id, ids) => (Ok id, mkCompressor (metricsBuffer c) (dictionaryBuffer c) ids (metricsCount c) (lastDescriptor c))
      | Err e => (Err e, c)
      end
  end.

Definition set_bit (b : bool) (bit mask : Z) : Z := if b then js_or mask bit else mask.
Definition calculateDescriptorMask (descriptor : MetricDescriptor) (lastDescriptor : option MetricDescriptor) : Z :=
  match lastDescriptor with
  | None => 0
  | Some last =>
      let mask := 0 in
      let mask := set_bit (bool_decide (md_prefix descriptor = md_prefix last)) MASK_PREFIX mask in
      let mask := set_bit (bool_decide (md_metric descriptor = md_metric last)) MASK_METRIC mask in
      let mask := set_bit (bool_decide (md_discriminator descriptor = md_discriminator last)) MASK_DISCRIMINATOR mask in
      let mask := set_bit (bool_decide (md_discriminatorValue descriptor = md_discriminatorValue last)) MASK_DISCRIMINATOR_VALUE mask in
      let mask := set_bit (bool_decide (md_unit descriptor = md_unit last)) MASK_UNIT mask in
      js_or (js_or mask MASK_EXCLUDED_TARGETS) MASK_TAG_COUNT
  end.

Definition masked (mask bit : Z) : bool := negb (js_and mask bit =? 0).
Definition writeWord (word : option js_string) : Comp () := id ← getDictionaryId word; to_metrics (OutputBuffer.writeInt id).

(** [this.metricsCount++; this.lastDescriptor = descriptor]. *)
Definition counted (descriptor : MetricDescriptor) : Comp () := fun c =>
  (Ok (), mkCompressor (metricsBuffer c) (dictionaryBuffer c) (dictionary c) (metricsCount c + 1) (Some descriptor)).

Definition write_masked (descriptor : MetricDescriptor) (mask : Z) : Comp () :=
  _ ← to_metrics (OutputBuffer.writeByte mask);
  _ ← unless (masked mask MASK_PREFIX) (writeWord (md_prefix descriptor));
  _ ← unless (masked mask MASK_METRIC) (writeWord (Some (md_metric descriptor)));
  _ ← unless (masked mask MASK_DISCRIMINATOR) (writeWord (md_discriminator descriptor));
  _ ← unless (masked mask MASK_DISCRIMINATOR_VALUE) (writeWord (md_discriminatorValue descriptor));
  _ ← unless (masked mask MASK_UNIT) (to_metrics (OutputBuffer.writeByte (default NULL_UNIT (ProbeUnit_value <$> md_unit descriptor))));
  _ ← unless (masked mask MASK_EXCLUDED_TARGETS) (to_metrics (OutputBuffer.writeByte 0));
  _ ← unless (masked mask MASK_TAG_COUNT) (to_metrics (OutputBuffer.writeByte 0));
  counted descriptor.
Definition writeDescriptor (descriptor : MetricDescriptor) : Comp () :=
  c ← this;
  let mask := calculateDescriptorMask descriptor (lastDescriptor c) in
  write_masked descriptor mask.

Definition addLong (descriptor : MetricDescriptor) (value : js_number) : Comp () :=
  _ ← writeDescriptor descriptor;
  _ ← to_metrics (OutputBuffer.writeByte (ValueType_value LONG));
  to_metrics (OutputBuffer.writeLong (fromNumber value)).
Definition addDouble (descriptor : MetricDescriptor) (value : js_number) : Comp () :=
  _ ← writeDescriptor descriptor;
  _ ← to_metrics (OutputBuffer.writeByte (ValueType_value DOUBLE));
  to_metrics (OutputBuffer.writeDouble value).

(** The loop over the common prefix. *)
Fixpoint common_len (wordText lastWordText : js_string) : nat :=
  match wordText, lastWordText with
  | c1 :: w1, c2 :: w2 => if c1 =? c2 then S (common_len w1 w2) else 0%nat
  | _, _ => 0%nat
  end.
Fixpoint write_chars (cs : js_string) : Comp () :=
  match cs with
  | [] => mret ()
  | c :: cs => _ ← to_dictionary (OutputBuffer.writeChar c); write_chars cs
  end.
Fixpoint write_words (words : list (js_string * Z)) (lastWordText : js_string) : Comp () :=
  match words with
  | [] => mret ()
  | (wordText, dictionaryId) :: words =>
      if (UNSIGNED_BYTE_MAX_VALUE <? length wordText)%nat then throw Error
      else
        let commonLen := common_len wordText lastWordText in
        let diffLen := (length wordText - commonLen)%nat in
        _ ← to_dictionary (OutputBuffer.writeInt dictionaryId);
        _ ← to_dictionary (OutputBuffer.writeByte (Z.of_nat commonLen));
        _ ← to_dictionary (OutputBuffer.writeByte (Z.of_nat diffLen));
        _ ← write_chars (drop commonLen wordText);
        write_words words wordText
  end.
Definition writeDictionary : Comp () :=
  c ← this;
  let words := words (dictionary c) in
  _ ← to_dictionary (OutputBuffer.writeInt (Z.of_nat (length words)));
  write_words words [].

(** [generateBlob]; a failure is a rejected promise. *)
Definition lift {A} (r : res A) : Comp A := fun c => (r, c).
Definition generateBlob : Comp buffer :=
  _ ← writeDictionary;
  c ← this;
  let metricsBuf := OutputBuffer.toBuffer (metricsBuffer c) in
  let dictionaryBuf := OutputBuffer.toBuffer (dictionaryBuffer c) in
  compressedMetricsBuf ← lift (deflate metricsBuf);
  compressedDictionaryBuf ← lift (deflate dictionaryBuf);
  let completeSize := SIZE_VERSION + SIZE_DICTIONARY_BLOB + blen compressedDictionaryBuf +
    SIZE_COUNT_METRICS + blen compressedMetricsBuf in
  lift (
    let finalBuf := OutputBuffer.new (Some completeSize) in
    finalBuf ← OutputBuffer.writeByte (js_and (js_ushr BINARY_FORMAT_VERSION BITS_IN_BYTE) BYTE_MASK) finalBuf;
    finalBuf ← OutputBuffer.writeByte (js_and BINARY_FORMAT_VERSION BYTE_MASK) finalBuf;
    finalBuf ← OutputBuffer.writeInt (blen compressedDictionaryBuf) finalBuf;
    finalBuf ← OutputBuffer.writeBuffer compressedDictionaryBuf finalBuf;
    finalBuf ← OutputBuffer.writeInt (metricsCount c) finalBuf;
    finalBuf ← OutputBuffer.writeBuffer compressedMetricsBuf finalBuf;
    Ok (OutputBuffer.toBuffer finalBuf)).
End MetricsCompressor.

(** ** What is in a buffer *)

Definition ob_wf (o : OutputBuffer) : Prop := 0 <= OutputBuffer.pos o <= blen (OutputBuffer.ob_buffer o).
(** A writer that appends the bytes [w]. *)
Definition appends (f : OutputBuffer -> res OutputBuffer) (w : buffer) : Prop := forall o, ob_wf o ->
  exists o', f o = Ok o' /\ ob_wf o' /\ OutputBuffer.toBuffer o' = OutputBuffer.toBuffer o ++ w.

Definition be (n : nat) (v : Z) : buffer := rev (le_split n v).

Lemma length_be n v : length (be n v) = n.
Proof. unfold be. by rewrite length_rev, length_le_split. Qed.

Lemma rev_be n v : rev (be n v) = le_split n v.
Proof. apply rev_involutive. Qed.

Section Appends.
Context `{Uninit}.

Lemma grow_enough n : 0 <= n -> n <= OutputBuffer.grow n.
Proof. intros Hn. unfold OutputBuffer.grow. apply Z.div_le_lower_bound; lia. Qed.

Lemma ensure_room size o : ob_wf o -> 0 <= size -> let o' := OutputBuffer.ensureAvailable size o in
  ob_wf o' /\ OutputBuffer.pos o' = OutputBuffer.pos o /\ OutputBuffer.pos o + size <= blen (OutputBuffer.ob_buffer o') /\
  OutputBuffer.toBuffer o' = OutputBuffer.toBuffer o.
Proof.
  destruct o as [b p]. unfold ob_wf, OutputBuffer.ensureAvailable, OutputBuffer.available, OutputBuffer.toBuffer, slice.
  cbn [OutputBuffer.ob_buffer OutputBuffer.pos]. intros Hwf Hs. destruct (Z.ltb_spec (blen b - p) size) as [Hlt|Hge]; cbn;
    [|split_and!; (done || lia)].
  pose proof (grow_enough (p + size) ltac:(lia)) as Hg. set (g := if negb _ then _ else _). assert (p + size <= g) as Hg' by (unfold g; destruct (negb _); lia).
  unfold copy_into, write_at. cbn [Z.to_nat]. rewrite !drop_0, take_0, app_nil_l, Nat.sub_0_r, Nat.add_0_l, length_allocUnsafe.
  assert (length (take (Z.to_nat p) b) = Z.to_nat p) as Hl by (rewrite length_take; lia).
  rewrite (take_ge (take (Z.to_nat p) b)) by lia. rewrite length_app, length_drop, length_allocUnsafe, Hl.
  split_and!; try lia. by rewrite take_app_length' by done.
Qed.

Lemma ob_put_appends size wr w : blen w = size -> (forall b p, in_bounds b p size = true -> wr b p = Ok (write_at b p w)) ->
  appends (OutputBuffer.put size wr) w.
Proof.
  intros Hw Hwr o Hwf. unfold OutputBuffer.put. destruct (ensure_room size o Hwf ltac:(lia)) as (Hwf' & Hp & Hroom & Ec).
  set (o' := OutputBuffer.ensureAvailable size o) in *.
  assert (in_bounds (OutputBuffer.ob_buffer o') (OutputBuffer.pos o') (blen w) = true) as Hin by (apply in_bounds_true; destruct Hwf'; lia).
  rewrite Hwr by (by rewrite <- Hw). cbn. eexists. split; [done|]. destruct Hwf' as [H0 H1]. rewrite <- Ec.
  unfold ob_wf, OutputBuffer.toBuffer, slice. cbn. rewrite length_write_at by done. split; [lia|].
  rewrite !drop_0. unfold write_at. rewrite app_assoc, take_app_length'; [done|]. rewrite length_app, length_take. lia.
Qed.

Lemma appends_seq f g w1 w2 : appends f w1 -> appends g w2 -> appends (fun o => o ← f o; g o) (w1 ++ w2).
Proof.
  intros Hf Hg o Ho. destruct (Hf o Ho) as (o1 & E1 & Ho1 & C1). destruct (Hg o1 Ho1) as (o2 & E2 & Ho2 & C2).
  exists o2. rewrite E1. cbn. rewrite E2. split_and!; [done | done |]. by rewrite C2, C1, app_assoc.
Qed.

Lemma writeByte_appends z : in_uint 8 (js_and z BYTE_MASK) -> appends (OutputBuffer.writeByte z) (be 1 (js_and z BYTE_MASK)).
Proof.
  intros Hz. apply ob_put_appends; [by rewrite length_be|]. intros b p Hin. unfold writeUInt8, writeUIntLE.
  change (8 * Z.of_nat 1) with 8. rewrite (proj2 (fits_uint_true _ _) Hz). by apply write_bytes_ok.
Qed.

Lemma writeChar_appends c : in_uint 16 c -> appends (OutputBuffer.writeChar c) (be 2 c).
Proof.
  intros Hc. apply ob_put_appends; [by rewrite length_be|]. intros b p Hin. unfold writeUInt16, writeUInt16BE, writeUIntBE.
  change (8 * Z.of_nat 2) with 16. rewrite (proj2 (fits_uint_true _ _) Hc). apply write_bytes_ok. by rewrite length_be.
Qed.

Lemma write32_ok b p z : in_sint 32 z -> in_bounds b p 4 = true -> writeInt32 b p z true = Ok (write_at b p (be 4 z)).
Proof.
  intros Hz Hin. unfold writeInt32, writeInt32BE, writeSIntBE. change (8 * Z.of_nat 4) with 32. rewrite (proj2 (fits_sint_true _ _) Hz). apply write_bytes_ok. by rewrite length_be.
Qed.

Lemma writeInt_appends z : in_sint 32 z -> appends (OutputBuffer.writeInt z) (be 4 z).
Proof. intros Hz. apply ob_put_appends; [by rewrite length_be|]. intros b p Hin. by apply write32_ok. Qed.

Lemma writeDouble_appends x : num_valid x -> appends (OutputBuffer.writeDouble x) (be 8 (double_bits x)).
Proof.
  intros Hx. apply ob_put_appends; [by rewrite length_be|]. intros b p Hin. unfold JsNumber.writeDouble, writeUIntBE.
  change (8 * Z.of_nat 8) with 64. rewrite (proj2 (fits_uint_true _ _) (double_bits_range x Hx)). apply write_bytes_ok. by rewrite length_be.
Qed.

Lemma writeLong_appends {L} `{LongLaws L} (x : L) : appends (OutputBuffer.writeLong x) (be 4 (long_high x) ++ be 4 (long_low x)).
Proof.
  apply ob_put_appends; [by rewrite length_app, !length_be|]. intros b p Hin. change LONG_SIZE_IN_BYTES with 8 in Hin.
  apply in_bounds_true in Hin as [Hp0 Hp1].
  assert (in_bounds b p (blen (be 4 (long_high x))) = true) as Hin1 by (rewrite length_be; apply in_bounds_true; lia).
  rewrite write32_ok; [|apply long_high_range | by rewrite length_be in Hin1]. cbn [res_bind mbind].
  rewrite write32_ok; [|apply long_low_range |].
  - rewrite <- (write_at_app b p); [by rewrite length_be|]. rewrite !length_be. apply in_bounds_true. lia.
  - rewrite in_bounds_write by done. apply in_bounds_true. change INT_SIZE_IN_BYTES with 4. lia.
Qed.

Lemma ob_writeBuffer_appends b : appends (OutputBuffer.writeBuffer b) b.
Proof.
  apply ob_put_appends; [done|]. intros b0 p Hin. unfold copy_into. rewrite take_ge; [done|]. apply in_bounds_true in Hin. lia.
Qed.

Lemma new_wf size : 0 <= default 0 size -> ob_wf (OutputBuffer.new size) /\ OutputBuffer.toBuffer (OutputBuffer.new size) = [].
Proof.
  intros Hs. unfold ob_wf, OutputBuffer.new, OutputBuffer.toBuffer, slice, OutputBuffer.OUTPUT_BUFFER_INITIAL_SIZE.
  destruct size as [z|]; cbn in *; (split; [rewrite length_allocUnsafe; try case_match; lia | done]).
Qed.
End Appends.

(** ** How a member reads a blob *)

Definition Read (A : Type) : Type := buffer -> res (A * buffer).
#[global] Instance Read_ret : MRet Read := fun A a b => Ok (a, b).
#[global] Instance Read_bind : MBind Read := fun A B f m b => match m b with Ok (a, b) => f a b | Err e => Err e end.
Definition corrupt {A} : Read A := fun _ => Err Error.
Definition read_uint (n : nat) : Read Z := fun b => v ← readUIntBE n b 0; Ok (v, drop n b).
Definition read_sint (n : nat) : Read Z := fun b => v ← readSIntBE n b 0; Ok (v, drop n b).

Lemma read_uint_be n v rest : in_uint (8 * Z.of_nat n) v -> read_uint n (be n v ++ rest) = Ok (v, rest).
Proof.
  intros Hv. unfold read_uint. rewrite readUIntBE_sub.
  - unfold sub. cbn [Z.to_nat]. rewrite drop_0, take_app_length' by (by rewrite length_be). rewrite rev_be, uwrap_split by done.
    cbn. by rewrite drop_app_length' by (by rewrite length_be).
  - apply in_bounds_true. rewrite length_app, length_be. lia.
Qed.

Lemma read_sint_be n v rest : (0 < n)%nat -> in_sint (8 * Z.of_nat n) v -> read_sint n (be n v ++ rest) = Ok (v, rest).
Proof.
  intros Hn Hv. unfold read_sint, readSIntBE. rewrite readUIntBE_sub.
  - unfold sub. cbn [Z.to_nat]. rewrite drop_0, take_app_length' by (by rewrite length_be). rewrite rev_be. cbn [res_fmap fmap].
    rewrite swrap_split by done. cbn. by rewrite drop_app_length' by (by rewrite length_be).
  - apply in_bounds_true. rewrite length_app, length_be. lia.
Qed.

Section Decompress.
Context {L : Type} `{LongLib L}.
(** The words of the dictionary by their ids. *)
Implicit Types D : Z -> option js_string.

Definition read_ref D : Read (option js_string) :=
  id ← read_sint 4;
  if id =? NULL_DICTIONARY_ID then mret None else match D id with Some w => mret (Some w) | None => corrupt end.
Definition read_unit : Read (option ProbeUnit) :=
  u ← read_uint 1;
  if u =? 255 then mret None
  else match List.find (fun x => ProbeUnit_value x =? u) [BYTES; MS; NS; PERCENT; COUNT; BOOLEAN; ENUM; US] with
       | Some x => mret (Some x)
       | None => corrupt
       end.
(** A field is that of the metric before if its bit is set. *)
Definition read_field {A} (same : bool) (last : option A) (rd : Read A) : Read A :=
  if same then match last with Some a => mret a | None => corrupt end else rd.
Definition read_skipped (same : bool) : Read () := if same then mret () else (_ ← read_uint 1; mret ()).
Definition read_value : Read (L + js_number) :=
  t ← read_uint 1;
  if t =? ValueType_value LONG then
    high ← read_sint 4; low ← read_sint 4; mret (inl (long_of_bits low high))
  else bits ← read_uint 8; mret (inr (double_of_bits bits)).

Definition read_descriptor D (last : option MetricDescriptor) : Read MetricDescriptor :=
  mask ← read_uint 1;
  p ← read_field (masked mask MASK_PREFIX) (md_prefix <$> last) (read_ref D);
  m ← read_field (masked mask MASK_METRIC) (Some ∘ md_metric <$> last) (read_ref D);
  d ← read_field (masked mask MASK_DISCRIMINATOR) (md_discriminator <$> last) (read_ref D);
  v ← read_field (masked mask MASK_DISCRIMINATOR_VALUE) (md_discriminatorValue <$> last) (read_ref D);
  u ← read_field (masked mask MASK_UNIT) (md_unit <$> last) read_unit;
  _ ← read_skipped (masked mask MASK_EXCLUDED_TARGETS);
  _ ← read_skipped (masked mask MASK_TAG_COUNT);
  match m with Some m => mret (mkDescriptor p m d v u) | None => corrupt end.
Definition read_metric D (last : option MetricDescriptor) : Read (MetricDescriptor * (L + js_number)) :=
  d ← read_descriptor D last; v ← read_value; mret (d, v).

Fixpoint read_metrics D (n : nat) (last : option MetricDescriptor) : Read (list (MetricDescriptor * (L + js_number))) :=
  match n with
  | O => mret []
  | S n => x ← read_metric D last; l ← read_metrics D n (Some x.1); mret (x :: l)
  end.

Fixpoint read_chars (n : nat) : Read js_string :=
  match n with O => mret [] | S n => c ← read_uint 2; cs ← read_chars n; mret (c :: cs) end.
Definition read_word (lastWord : js_string) : Read (Z * js_string) :=
  id ← read_sint 4; common ← read_uint 1; diff ← read_uint 1; cs ← read_chars (Z.to_nat diff);
  mret (id, take (Z.to_nat common) lastWord ++ cs).
Fixpoint read_words (n : nat) (lastWord : js_string) : Read (list (Z * js_string)) :=
  match n with
  | O => mret []
  | S n => x ← read_word lastWord; l ← read_words n x.2; mret (x :: l)
  end.
Definition read_dictionary : Read (gmap Z js_string) :=
  n ← read_sint 4; l ← read_words (Z.to_nat n) []; mret (list_to_map l).

Definition take_bytes (n : Z) : Read buffer := fun b =>
  if in_bounds b 0 n then Ok (take (Z.to_nat n) b, drop (Z.to_nat n) b) else Err Error.

(** The whole blob, of the format's version 1. *)
Definition decompress (inflate : buffer -> res buffer) (blob : buffer) : res (list (MetricDescriptor * (L + js_number))) :=
  '(version, b) ← read_uint 2 blob;
  if negb (version =? BINARY_FORMAT_VERSION) then Err Error
  else
    '(size, b) ← read_sint 4 b;
    '(dictionaryBlob, b) ← take_bytes size b;
    '(count, b) ← read_sint 4 b;
    dictionaryBytes ← inflate dictionaryBlob;
    metricsBytes ← inflate b;
    '(D, _) ← read_dictionary dictionaryBytes;
    '(l, _) ← read_metrics (fun id => D !! id) (Z.to_nat count) None metricsBytes;
    Ok l.
End Decompress.

(** ** Words *)

Definition word_ok (w : js_string) : Prop := (length w <= UNSIGNED_BYTE_MAX_VALUE)%nat /\ Forall (in_uint 16) w.

(** The ids are the positions. *)
Record dictionary_ok (n : Z) (ids : MetricsDictionary) : Prop := {
  do_size : blen ids <= n;
  do_ids : ids.*2 = Z.of_nat <$> seq 0 (length ids);
  do_words : NoDup ids.*1;
  do_ok : Forall word_ok ids.*1
}.

Definition known (D : Z -> option js_string) (ids : MetricsDictionary) : Prop := forall w id, (w, id) ∈ ids -> D id = Some w.

Lemma ids_get_spec w ids :
  match ids_get w ids with Some id => (w, id) ∈ ids | None => w ∉ ids.*1 end.
Proof.
  unfold ids_get. destruct (List.find _ ids) as [[w' id]|] eqn:E; cbn.
  - apply List.find_some in E as [Hin Hw]. apply bool_decide_eq_true in Hw. cbn in Hw. subst w'. by apply list_elem_of_In.
  - intros Hin. apply list_elem_of_fmap in Hin as ([w' id] & -> & Hin). apply list_elem_of_In in Hin.
    pose proof (List.find_none _ _ E _ Hin) as Hn. by apply bool_decide_eq_false in Hn.
Qed.

Lemma getDictionaryId_ok w n ids : word_ok w -> dictionary_ok n ids -> n + 1 < 2 ^ 31 -> exists id ids',
  dictionary_getDictionaryId w ids = Ok (id, ids') /\ dictionary_ok (n + 1) ids' /\ ids `prefix_of` ids' /\ (w, id) ∈ ids' /\ 0 <= id < 2 ^ 31.
Proof.
  intros [Hl Hu] [Hs Hi Hd Hok] Hn. unfold dictionary_getDictionaryId. rewrite (proj2 (Nat.ltb_ge _ _) Hl).
  pose proof (ids_get_spec w ids) as Hg. destruct (ids_get w ids) as [id|].
  - exists id, ids. split_and!; [done | split; (done || lia) | done | done | |].
    all: apply (list_elem_of_fmap_2 snd) in Hg; cbn in Hg; rewrite Hi in Hg; apply list_elem_of_fmap in Hg as (k & -> & Hk); apply elem_of_seq in Hk; lia.
  - eexists _, _. split; [done|]. split_and!; [| by apply prefix_app_r | apply elem_of_app; right; by left | lia | lia].
    split.
    + rewrite length_app. cbn. lia.
    + rewrite fmap_app, length_app, Hi, seq_app, fmap_app. cbn. done.
    + rewrite fmap_app. apply NoDup_app. split_and!; [done | | apply NoDup_singleton]. intros x Hx. cbn. intros ->%list_elem_of_singleton. done.
    + rewrite fmap_app. apply Forall_app. split; [done|]. cbn. constructor; [by split | constructor].
Qed.

Lemma known_prefix D ids ids' : ids `prefix_of` ids' -> known D ids' -> known D ids.
Proof. intros [k ->] Hk w id Hin. apply Hk. apply elem_of_app. by left. Qed.

(** ** What a method writes, and how it is read *)

Section Writes.
Context `{Uninit} {L : Type} `{LongLaws L}.
Implicit Types (c : MetricsCompressor) (D : Z -> option js_string).

Definition or_else {A} (x y : option A) : option A := match x with Some _ => x | None => y end.

(** At most [n] words and [s] bytes so far. *)
Definition good (n s : Z) c : Prop :=
  ob_wf (metricsBuffer c) /\ blen (OutputBuffer.toBuffer (metricsBuffer c)) <= s /\ dictionary_ok n (dictionary c).

(** The method [p] adds at most [k] words and [z] bytes, from which [rd] reads [a], and counts the descriptor [l], if any. *)
Definition writes {A} (k z : Z) (p : Comp ()) (rd : (Z -> option js_string) -> Read A) (a : A) (l : option MetricDescriptor) : Prop :=
  forall c n s, good n s c -> n + k < 2 ^ 31 -> exists c' w,
    p c = (Ok (), c') /\ good (n + k) (s + z) c' /\
    OutputBuffer.toBuffer (metricsBuffer c') = OutputBuffer.toBuffer (metricsBuffer c) ++ w /\
    dictionary c `prefix_of` dictionary c' /\ dictionaryBuffer c' = dictionaryBuffer c /\
    metricsCount c' = metricsCount c + (match l with Some _ => 1 | None => 0 end) /\ lastDescriptor c' = or_else l (lastDescriptor c) /\
    forall D rest, known D (dictionary c') -> rd D (w ++ rest) = Ok (a, rest).

Lemma writes_seq {A B} k1 k2 z1 z2 p q (rd1 : _ -> Read A) (rd2 : _ -> A -> Read B) a b l1 l2 : 0 <= k2 -> l1 = None \/ l2 = None ->
  writes k1 z1 p rd1 a l1 -> writes k2 z2 q (fun D => rd2 D a) b l2 ->
  writes (k1 + k2) (z1 + z2) (_ ← p; q) (fun D => x ← rd1 D; rd2 D x) b (or_else l2 l1).
Proof.
  intros Hk Hl Hp1 Hp2 c n s Hg Hn. destruct (Hp1 c n s Hg ltac:(lia)) as (c1 & w1 & E1 & G1 & C1 & P1 & B1 & N1 & L1 & R1).
  destruct (Hp2 c1 (n + k1) (s + z1) G1 ltac:(lia)) as (c2 & w2 & E2 & G2 & C2 & P2 & B2 & N2 & L2 & R2).
  exists c2, (w1 ++ w2). unfold mbind, Comp_bind. rewrite E1, E2.
  split_and!; [done | by rewrite !Z.add_assoc | by rewrite C2, C1, app_assoc | by etrans | congruence | | |].
  - rewrite N2, N1. clear -Hl. destruct Hl as [-> | ->]; [destruct l2 | destruct l1]; cbn; lia.
  - rewrite L2, L1. by destruct l2, l1, (lastDescriptor c).
  - intros D rest Hk2. rewrite <- app_assoc. unfold mbind, Read_bind. rewrite R1 by (by eapply known_prefix). by apply R2.
Qed.

Lemma writes_bytes {A} f w (rd : _ -> Read A) a z : appends f w -> blen w <= z -> (forall D rest, rd D (w ++ rest) = Ok (a, rest)) ->
  writes 0 z (to_metrics f) rd a None.
Proof.
  intros Hf Hz Hr c n s (Hw & Hs & Hd) Hn. destruct (Hf (metricsBuffer c) Hw) as (o & E & Ho & Eo).
  eexists _, w. unfold to_metrics. rewrite E. split; [reflexivity|]. cbn. rewrite !Z.add_0_r. split_and!; try done.
  split_and!; [done | cbn; rewrite Eo, length_app; lia | done].
Qed.

Lemma writes_nothing {A} (rd : _ -> Read A) a : (forall D rest, rd D rest = Ok (a, rest)) -> writes 0 0 (mret ()) rd a None.
Proof.
  intros Hr c n s Hg Hn. exists c, []. rewrite !Z.add_0_r, app_nil_r. split_and!; by auto.
Qed.

Lemma writes_more {A} k z k' z' p (rd : _ -> Read A) a l : k <= k' -> z <= z' -> writes k z p rd a l -> writes k' z' p rd a l.
Proof.
  intros Hk Hz Hp c n s Hg Hn. destruct (Hp c n s Hg ltac:(lia)) as (c' & w & E & (G1 & G2 & [D1 D2 D3 D4]) & Hrest).
  exists c', w. split_and!; [done | | apply Hrest..]. split_and!; [done | lia | split; (done || lia)].
Qed.

Lemma counted_writes d {A} (rd : _ -> Read A) a : (forall D rest, rd D rest = Ok (a, rest)) -> writes 0 0 (counted d) rd a (Some d).
Proof.
  intros Hr c n s Hg Hn. eexists _, []. split; [reflexivity|]. cbn. rewrite !Z.add_0_r, app_nil_r. split_and!; try done.
Qed.

(** *** Fields *)

Lemma read_ref_null D rest : read_ref D (be 4 NULL_DICTIONARY_ID ++ rest) = Ok (None, rest).
Proof. unfold read_ref, mbind, Read_bind. by rewrite (read_sint_be 4) by (done || lia). Qed.

Lemma writeWord_writes w : from_option word_ok True w -> writes 1 4 (writeWord w) read_ref w None.
Proof.
  intros Hw c n s (Ho & Hs & Hd) Hn. unfold writeWord, getDictionaryId, mbind, Comp_bind. destruct w as [w|]; cbn in Hw.
  - destruct (getDictionaryId_ok w n (dictionary c) Hw Hd Hn) as (id & ids & E & Hd' & Hp & Hin & Hid). rewrite E.
    destruct (writeInt_appends id) with (metricsBuffer c) as (o & Eo & Ho' & Co); [unfold in_sint; cbn; lia | done |].
    unfold to_metrics. cbn [metricsBuffer dictionaryBuffer dictionary metricsCount lastDescriptor]. rewrite Eo. eexists _, _. split; [reflexivity|]. cbn. rewrite Co, Z.add_0_r. split_and!; try done.
    + split_and!; [done | cbn; rewrite Co, length_app, length_be; lia | done].
    + intros D rest Hk. unfold read_ref, mbind, Read_bind. rewrite (read_sint_be 4) by (lia || (unfold in_sint; cbn; lia)).
      unfold NULL_DICTIONARY_ID. rewrite (proj2 (Z.eqb_neq id (-1))) by lia. by rewrite (Hk w id Hin).
  - destruct (writeInt_appends NULL_DICTIONARY_ID) with (metricsBuffer c) as (o & Eo & Ho' & Co); [done | done |].
    unfold to_metrics. rewrite Eo. eexists _, _. split; [reflexivity|]. cbn. rewrite Co, Z.add_0_r. destruct Hd. split_and!; try done.
    + split_and!; [done | cbn; rewrite Co, length_app, length_be; lia | split; cbn; (done || lia)].
    + intros D rest _. apply read_ref_null.
Qed.

Lemma field_writes {A} k z (same : bool) (last : option A) p (rd : _ -> Read A) a : 0 <= k -> 0 <= z -> (same = true -> last = Some a) ->
  writes k z p rd a None -> writes k z (unless same p) (fun D => read_field same last (rd D)) a None.
Proof.
  intros Hk Hz Hlast Hp. destruct same; [|done]. rewrite (Hlast eq_refl). cbn. by apply (writes_more 0 0); [lia | lia | apply writes_nothing].
Qed.

Lemma skipped_writes (same : bool) : writes 0 1 (unless same (to_metrics (OutputBuffer.writeByte 0))) (fun _ => read_skipped same) () None.
Proof.
  destruct same; cbn [unless read_skipped]; [by apply (writes_more 0 0); [lia | lia | apply writes_nothing]|].
  eapply writes_bytes; [by apply writeByte_appends | by rewrite length_be |]. intros D rest. unfold mbind, Read_bind.
  by rewrite (read_uint_be 1).
Qed.

Lemma byte_writes z : in_uint 8 z -> js_and z BYTE_MASK = z -> writes 0 1 (to_metrics (OutputBuffer.writeByte z)) (fun _ => read_uint 1) z None.
Proof.
  intros Hz E. eapply writes_bytes; [apply writeByte_appends; by rewrite E | by rewrite length_be |]. intros D rest. rewrite E. by apply (read_uint_be 1).
Qed.

Lemma unit_writes u : writes 0 1 (to_metrics (OutputBuffer.writeByte (default NULL_UNIT (ProbeUnit_value <$> u)))) (fun _ => read_unit) u None.
Proof.
  eapply writes_bytes; [apply writeByte_appends; by destruct u as [[]|] | by rewrite length_be |]. intros D rest. unfold read_unit, mbind, Read_bind.
  rewrite (read_uint_be 1) by (by destruct u as [[]|]). by destruct u as [[]|].
Qed.

(** *** Metrics *)

Lemma mask_spec d last : let mask := calculateDescriptorMask d last in
  (in_uint 8 mask /\ js_and mask BYTE_MASK = mask) /\
  (masked mask MASK_PREFIX = true -> md_prefix <$> last = Some (md_prefix d)) /\
  (masked mask MASK_METRIC = true -> Some ∘ md_metric <$> last = Some (Some (md_metric d))) /\
  (masked mask MASK_DISCRIMINATOR = true -> md_discriminator <$> last = Some (md_discriminator d)) /\
  (masked mask MASK_DISCRIMINATOR_VALUE = true -> md_discriminatorValue <$> last = Some (md_discriminatorValue d)) /\
  (masked mask MASK_UNIT = true -> md_unit <$> last = Some (md_unit d)).
Proof.
  destruct last as [last|]; [|by split_and!]. unfold calculateDescriptorMask. cbn zeta.
  do 5 case_bool_decide; split_and!; try done; intros _; cbn; congruence.
Qed.

Record descriptor_ok (d : MetricDescriptor) : Prop := {
  dk_prefix : from_option word_ok True (md_prefix d);
  dk_metric : word_ok (md_metric d);
  dk_discriminator : from_option word_ok True (md_discriminator d);
  dk_value : from_option word_ok True (md_discriminatorValue d)
}.

Lemma descriptor_writes d last : descriptor_ok d ->
  writes 4 20 (write_masked d (calculateDescriptorMask d last)) (fun D => read_descriptor D last) d (Some d).
Proof.
  intros [H1' H2' H3' H4']. destruct (mask_spec d last) as ([Hm Hm'] & F1 & F2 & F3 & F4 & F5).
  set (mask := calculateDescriptorMask d last) in *. unfold write_masked, read_descriptor.
  eapply (writes_more (0 + (1 + (1 + (1 + (1 + (0 + (0 + (0 + 0)))))))) (1 + (4 + (4 + (4 + (4 + (1 + (1 + (1 + 0)))))))));
    [lia | lia |].
  assert (forall A k1 k2 z1 z2 p q (rd1 : _ -> Read A) (rd2 : _ -> A -> Read MetricDescriptor) a, 0 <= k2 ->
    writes k1 z1 p rd1 a None -> writes k2 z2 q (fun D => rd2 D a) d (Some d) ->
    writes (k1 + k2) (z1 + z2) (_ ← p; q) (fun D => x ← rd1 D; rd2 D x) d (Some d)) as Hseq
    by (intros; by apply (writes_seq k1 k2 z1 z2 p q rd1 rd2 a d None (Some d)); [|left| |]).
  apply (Hseq _ _ _ _ _ _ _ _ _ mask); [lia | by apply byte_writes|].
  apply (Hseq _ _ _ _ _ _ _ _ _ (md_prefix d)); [lia | by apply field_writes; [lia..| |apply writeWord_writes]|].
  apply (Hseq _ _ _ _ _ _ _ _ _ (Some (md_metric d))); [lia | by apply field_writes; [lia..| |apply writeWord_writes]|].
  apply (Hseq _ _ _ _ _ _ _ _ _ (md_discriminator d)); [lia | by apply field_writes; [lia..| |apply writeWord_writes]|].
  apply (Hseq _ _ _ _ _ _ _ _ _ (md_discriminatorValue d)); [lia | by apply field_writes; [lia..| |apply writeWord_writes]|].
  apply (Hseq _ _ _ _ _ _ _ _ _ (md_unit d)); [lia | apply field_writes; [lia..|done|apply unit_writes]|].
  apply (Hseq _ _ _ _ _ _ _ _ _ ()); [lia | apply skipped_writes|].
  apply (Hseq _ _ _ _ _ _ _ _ _ ()); [lia | apply skipped_writes|].
  apply counted_writes. by destruct d.
Qed.
End Writes.

(** ** Lists of metrics *)

Inductive metric_value := LongValue (value : js_number) | DoubleValue (value : js_number).

Section Metrics.
Context `{Uninit} {L : Type} `{LongLaws L} (fromNumber : js_number -> L).
Implicit Types (c : MetricsCompressor) (m : MetricDescriptor * metric_value).

Definition add_metric m : Comp () :=
  match m.2 with LongValue x => addLong fromNumber m.1 x | DoubleValue x => addDouble m.1 x end.
Fixpoint add_all (ms : list (MetricDescriptor * metric_value)) : Comp () :=
  match ms with [] => mret () | m :: ms => _ ← add_metric m; add_all ms end.

(** What a member gets of a metric. *)
Definition sent m : MetricDescriptor * (L + js_number) :=
  (m.1, match m.2 with LongValue x => inl (fromNumber x) | DoubleValue x => inr x end).
Definition metric_ok m : Prop := descriptor_ok m.1 /\ match m.2 with DoubleValue x => num_valid x | LongValue _ => True end.

Lemma long_writes x d : writes 0 9 (_ ← to_metrics (OutputBuffer.writeByte (ValueType_value LONG)); to_metrics (OutputBuffer.writeLong (fromNumber x)))
  (fun _ => v ← read_value; mret (d : MetricDescriptor, v)) (d, inl (fromNumber x)) None.
Proof.
  intros c n s Hg Hn.
  destruct (writes_seq 0 0 1 8 (to_metrics (OutputBuffer.writeByte (ValueType_value LONG))) (to_metrics (OutputBuffer.writeLong (fromNumber x)))
    (fun _ => read_uint 1) (fun _ t => if t =? ValueType_value LONG then high ← read_sint 4; low ← read_sint 4; mret (inl (long_of_bits low high) : L + js_number)
      else bits ← read_uint 8; mret (inr (double_of_bits bits))) 0 (inl (fromNumber x)) None None) with c n s as (c' & w & Hw); [lia | by left | by apply byte_writes | | done | done |].
  - eapply writes_bytes; [apply writeLong_appends | rewrite length_app, !length_be; done |]. intros D rest. cbn [Z.eqb ValueType_value].
    unfold mbind, Read_bind. rewrite <- app_assoc, (read_sint_be 4) by (lia || apply long_high_range).
    rewrite (read_sint_be 4) by (lia || apply long_low_range). by rewrite long_halves.
  - exists c', w. destruct Hw as (E & G & C & P & B & N & La & R). split_and!; try done. intros D rest Hk.
    specialize (R D rest Hk). unfold read_value. unfold mbind, Read_bind in *. rewrite R. done.
Qed.

Lemma double_writes x d : num_valid x -> writes 0 9 (_ ← to_metrics (OutputBuffer.writeByte (ValueType_value DOUBLE)); to_metrics (OutputBuffer.writeDouble x))
  (fun _ => v ← read_value (L := L); mret (d : MetricDescriptor, v)) (d, inr x) None.
Proof.
  intros Hx c n s Hg Hn.
  destruct (writes_seq 0 0 1 8 (to_metrics (OutputBuffer.writeByte (ValueType_value DOUBLE))) (to_metrics (OutputBuffer.writeDouble x))
    (fun _ => read_uint 1) (fun _ t => if t =? ValueType_value LONG then high ← read_sint 4; low ← read_sint 4; mret (inl (long_of_bits low high) : L + js_number)
      else bits ← read_uint 8; mret (inr (double_of_bits bits))) 1 (inr x) None None) with c n s as (c' & w & Hw); [lia | by left | by apply byte_writes | | done | done |].
  - eapply writes_bytes; [by apply writeDouble_appends | by rewrite length_be |]. intros D rest. cbn [Z.eqb ValueType_value].
    unfold mbind, Read_bind. rewrite (read_uint_be 8) by (by apply double_bits_range). by rewrite double_roundtrip.
  - exists c', w. destruct Hw as (E & G & C & P & B & N & La & R). split_and!; try done. intros D rest Hk.
    specialize (R D rest Hk). unfold read_value. unfold mbind, Read_bind in *. rewrite R. done.
Qed.

Lemma metric_writes m last : metric_ok m ->
  writes 4 29 (_ ← write_masked m.1 (calculateDescriptorMask m.1 last);
      match m.2 with
      | LongValue x => _ ← to_metrics (OutputBuffer.writeByte (ValueType_value LONG)); to_metrics (OutputBuffer.writeLong (fromNumber x))
      | DoubleValue x => _ ← to_metrics (OutputBuffer.writeByte (ValueType_value DOUBLE)); to_metrics (OutputBuffer.writeDouble x)
      end) (fun D => read_metric (L := L) D last) (sent m) (Some m.1).
Proof.
  intros [Hd Hv]. destruct m as [d v]. cbn in *. unfold read_metric.
  apply (writes_seq 4 0 20 9 _ _ (fun D => read_descriptor D last) (fun D d => v ← read_value; mret (d, v)) d _ (Some d) None);
    [lia | by right | by apply descriptor_writes |].
  destruct v as [x|x]; [apply long_writes | by apply double_writes].
Qed.

Lemma add_metric_ok m c n s : good n s c -> metric_ok m -> n + 4 < 2 ^ 31 -> exists c' w,
    add_metric m c = (Ok (), c') /\ good (n + 4) (s + 29) c' /\
    OutputBuffer.toBuffer (metricsBuffer c') = OutputBuffer.toBuffer (metricsBuffer c) ++ w /\
    dictionary c `prefix_of` dictionary c' /\ dictionaryBuffer c' = dictionaryBuffer c /\
    metricsCount c' = metricsCount c + 1 /\ lastDescriptor c' = Some m.1 /\
    forall D rest, known D (dictionary c') -> read_metric D (lastDescriptor c) (w ++ rest) = Ok (sent m, rest).
Proof.
  intros Hg Hm Hn. destruct (metric_writes m (lastDescriptor c) Hm c n s Hg Hn) as (c' & w & E & Hrest). exists c', w. split; [|exact Hrest].
  rewrite <- E. destruct m as [d [x|x]]; reflexivity.
Qed.

Lemma add_all_ok ms : forall c n s, good n s c -> Forall metric_ok ms -> n + 4 * blen ms < 2 ^ 31 -> exists c' w,
    add_all ms c = (Ok (), c') /\ good (n + 4 * blen ms) (s + 29 * blen ms) c' /\
    OutputBuffer.toBuffer (metricsBuffer c') = OutputBuffer.toBuffer (metricsBuffer c) ++ w /\
    dictionary c `prefix_of` dictionary c' /\ dictionaryBuffer c' = dictionaryBuffer c /\
    metricsCount c' = metricsCount c + blen ms /\
    forall D rest, known D (dictionary c') -> read_metrics D (length ms) (lastDescriptor c) (w ++ rest) = Ok (sent <$> ms, rest).
Proof.
  induction ms as [|m ms IH]; intros c n s Hg Hms Hn.
  - exists c, []. cbn. rewrite !Z.add_0_r, app_nil_r. by split_and!.
  - apply Forall_cons in Hms as [Hm Hms]. cbn [length] in Hn |- *.
    destruct (add_metric_ok m c n s Hg Hm ltac:(lia)) as (c1 & w1 & E1 & G1 & C1 & P1 & B1 & N1 & L1 & R1).
    destruct (IH c1 (n + 4) (s + 29) G1 Hms ltac:(lia)) as (c2 & w2 & E2 & G2 & C2 & P2 & B2 & N2 & R2).
    exists c2, (w1 ++ w2). cbn [add_all]. unfold mbind, Comp_bind. rewrite E1, E2. split; [done|].
    replace (n + 4 * Z.of_nat (S (length ms))) with (n + 4 + 4 * blen ms) by lia.
    replace (s + 29 * Z.of_nat (S (length ms))) with (s + 29 + 29 * blen ms) by lia.
    split_and!; [done | by rewrite C2, C1, app_assoc | by etrans | congruence | lia |].
    intros D rest Hk. cbn [read_metrics]. unfold mbind, Read_bind. rewrite <- app_assoc, R1 by (by eapply known_prefix).
    cbn [fst sent]. rewrite <- L1, R2 by done. done.
Qed.
End Metrics.

(** ** The dictionary *)

Section Dictionary.
Context `{Uninit}.
Implicit Types c : MetricsCompressor.

Definition with_dictionaryBuffer (o : OutputBuffer) c : MetricsCompressor :=
  mkCompressor (metricsBuffer c) o (dictionary c) (metricsCount c) (lastDescriptor c).
Definition dict_appends (p : Comp ()) (w : buffer) : Prop := forall c, ob_wf (dictionaryBuffer c) -> exists o,
  p c = (Ok (), with_dictionaryBuffer o c) /\ ob_wf o /\ OutputBuffer.toBuffer o = OutputBuffer.toBuffer (dictionaryBuffer c) ++ w.

Lemma dict_seq p q w1 w2 : dict_appends p w1 -> dict_appends q w2 -> dict_appends (_ ← p; q) (w1 ++ w2).
Proof.
  intros Hp Hq c Hc. destruct (Hp c Hc) as (o1 & E1 & Ho1 & C1).
  destruct (Hq (with_dictionaryBuffer o1 c) Ho1) as (o2 & E2 & Ho2 & C2). exists o2. unfold mbind, Comp_bind. rewrite E1, E2.
  split_and!; [done | done |]. rewrite C2. cbn. by rewrite C1, app_assoc.
Qed.

Lemma dict_write f w : appends f w -> dict_appends (to_dictionary f) w.
Proof.
  intros Hf c Hc. destruct (Hf _ Hc) as (o & E & Ho & Co). exists o. unfold to_dictionary. by rewrite E.
Qed.

Lemma dict_nothing : dict_appends (mret ()) [].
Proof. intros c Hc. exists (dictionaryBuffer c). rewrite app_nil_r. by destruct c. Qed.

Lemma write_chars_ok cs : Forall (in_uint 16) cs -> exists w,
  dict_appends (write_chars cs) w /\ length w = (2 * length cs)%nat /\ forall rest, read_chars (length cs) (w ++ rest) = Ok (cs, rest).
Proof.
  induction 1 as [|x cs Hx _ (w & Hw & El & Hr)]; [exists []; split_and!; [apply dict_nothing | done | done]|].
  exists (be 2 x ++ w). split_and!.
  - apply dict_seq; [by apply dict_write, writeChar_appends | done].
  - rewrite length_app, length_be. cbn. lia.
  - intros rest. cbn [length read_chars]. unfold mbind, Read_bind. rewrite <- app_assoc, (read_uint_be 2) by done. by rewrite Hr.
Qed.

Lemma common_len_spec w : forall last, take (common_len w last) last = take (common_len w last) w /\ (common_len w last <= length w)%nat.
Proof.
  induction w as [|x w IH]; intros [|y last]; cbn; try (split; [done | lia]).
  destruct (Z.eqb_spec x y) as [->|Hne]; cbn; [|split; [done | lia]]. destruct (IH last) as [-> Hl]. split; [done | lia].
Qed.

Lemma byte_masked (k : nat) : (k <= UNSIGNED_BYTE_MAX_VALUE)%nat -> in_uint 8 (Z.of_nat k) /\ js_and (Z.of_nat k) BYTE_MASK = Z.of_nat k.
Proof.
  intros Hk. unfold UNSIGNED_BYTE_MAX_VALUE in Hk. assert (in_uint 8 (Z.of_nat k)) as Hu by (unfold in_uint; cbn; lia). split; [done|].
  unfold js_and, to_int32, BYTE_MASK. change 255 with (Z.ones 8). rewrite Z.land_ones by lia. rewrite Z.mod_small by done.
  apply swrap_id; [done|]. unfold in_sint. unfold in_uint in Hu. cbn in *. lia.
Qed.

Lemma byte_dict (k : nat) : (k <= UNSIGNED_BYTE_MAX_VALUE)%nat ->
  dict_appends (to_dictionary (OutputBuffer.writeByte (Z.of_nat k))) (be 1 (Z.of_nat k)).
Proof.
  intros Hk. destruct (byte_masked k Hk) as [H1 H2]. pose proof (writeByte_appends (Z.of_nat k)) as Hw. rewrite H2 in Hw. by apply dict_write, Hw.
Qed.

Definition swap (e : js_string * Z) : Z * js_string := (e.2, e.1).

Lemma write_words_ok l : Forall (fun e => word_ok e.1 /\ 0 <= e.2 < 2 ^ 31) l -> forall last, exists w,
  dict_appends (write_words l last) w /\ blen w <= 516 * blen l /\
  forall rest, read_words (length l) last (w ++ rest) = Ok (swap <$> l, rest).
Proof.
  induction 1 as [|[x id] l [[Hl Hu] Hid] _ IH]; intros last; [exists []; split_and!; [apply dict_nothing | done | done]|].
  destruct (IH x) as (w & Hw & Hlen & Hr). destruct (common_len_spec x last) as [Ec Hc]. set (k := common_len x last) in *. cbn [fst snd] in *.
  destruct (write_chars_ok (drop k x)) as (wc & Hwc & Elc & Hrc); [by apply Forall_drop|]. rewrite length_drop in Elc, Hrc.
  destruct (byte_masked k ltac:(lia)) as [Hk1 Hk2]. destruct (byte_masked (length x - k) ltac:(lia)) as [Hd1 Hd2].
  exists (be 4 id ++ be 1 (Z.of_nat k) ++ be 1 (Z.of_nat (length x - k)) ++ wc ++ w). split_and!.
  - cbn [write_words]. rewrite (proj2 (Nat.ltb_ge _ _) Hl). fold k.
    apply dict_seq; [apply dict_write, writeInt_appends; unfold in_sint; cbn; lia|].
    apply dict_seq; [apply byte_dict; lia|]. apply dict_seq; [apply byte_dict; lia|]. by apply dict_seq.
  - unfold UNSIGNED_BYTE_MAX_VALUE in Hl. rewrite !length_app, !length_be, Elc. cbn [length]. lia.
  - intros rest. cbn [length read_words]. unfold read_word, mbind, Read_bind. rewrite <- !app_assoc.
    rewrite (read_sint_be 4) by (lia || (unfold in_sint; cbn; lia)). rewrite (read_uint_be 1), (read_uint_be 1) by done.
    rewrite !Nat2Z.id, Hrc. cbn [mret Read_ret snd fst]. rewrite Ec, take_drop. unfold mret, Read_ret. cbn [snd fst]. by rewrite Hr.
Qed.

Lemma words_permutation ids : words ids ≡ₚ ids.
Proof. apply merge_sort_Permutation. Qed.

(** The dictionary that is read knows the words of the compressor. *)
Lemma writeDictionary_ok c n : ob_wf (dictionaryBuffer c) -> OutputBuffer.toBuffer (dictionaryBuffer c) = [] ->
  dictionary_ok n (dictionary c) -> n < 2 ^ 31 -> exists o M,
  writeDictionary c = (Ok (), with_dictionaryBuffer o c) /\ blen (OutputBuffer.toBuffer o) <= 4 + 516 * n /\
  read_dictionary (OutputBuffer.toBuffer o) = Ok (M, []) /\ known (fun id => M !! id) (dictionary c).
Proof.
  intros Ho Hempty [Hs Hi Hd Hok] Hn. set (ids := dictionary c) in *. pose proof (words_permutation ids) as Hp.
  assert (length (words ids) = length ids) as El by (by apply Permutation_length).
  destruct (write_words_ok (words ids)) with (last := [] : js_string) as (w & Hw & Hlen & Hr).
  { apply Forall_forall. intros [x id] Hin. rewrite Hp in Hin. split.
    - rewrite Forall_forall in Hok. apply Hok. by apply (list_elem_of_fmap_2 fst).
    - apply (list_elem_of_fmap_2 snd) in Hin. rewrite Hi in Hin. apply list_elem_of_fmap in Hin as (k & Ek & Hk). cbn in Ek. apply elem_of_seq in Hk. cbn. lia. }
  assert (in_sint 32 (Z.of_nat (length (words ids)))) as Hsz by (unfold in_sint; cbn; lia).
  destruct (dict_seq _ _ _ _ (dict_write _ _ (writeInt_appends _ Hsz)) Hw c Ho) as (o & E & Ho' & Co). rewrite Hempty, app_nil_l in Co.
  exists o, (list_to_map (swap <$> words ids)). split_and!.
  - exact E.
  - rewrite Co, length_app, length_be. lia.
  - rewrite Co. unfold read_dictionary, mbind, Read_bind. rewrite (read_sint_be 4) by (done || lia). rewrite Nat2Z.id.
    rewrite <- (app_nil_r w), Hr. done.
  - intros x id Hin. apply elem_of_list_to_map_1.
    + rewrite <- list_fmap_compose. change (fst ∘ swap) with (snd (A := js_string) (B := Z)). rewrite Hp, Hi. apply NoDup_fmap; [intros ? ?; lia | apply NoDup_seq].
    + rewrite <- Hp in Hin. by apply (list_elem_of_fmap_2 swap) in Hin.
Qed.
End Dictionary.

(** ** Properties *)

Section Blob.
Context `{Uninit} {L : Type} `{LongLaws L} (fromNumber : js_number -> L).
Context (deflate inflate : buffer -> res buffer).
Context (zlib : forall b, blen b < 2 ^ 30 -> exists z, deflate b = Ok z /\ blen z < 2 ^ 31 /\ inflate z = Ok b).

Lemma new_good : good 0 0 new_compressor.
Proof. destruct (new_wf None ltac:(done)) as [Hw Ec]. split_and!; [done | cbn; by rewrite Ec |]. by split; [|done|constructor|constructor]. Qed.

Lemma take_bytes_app (b rest : buffer) : take_bytes (blen b) (b ++ rest) = Ok (b, rest).
Proof.
  unfold take_bytes. rewrite (proj2 (in_bounds_true _ _ _)) by (rewrite length_app; lia). rewrite Nat2Z.id.
  by rewrite take_app_length, drop_app_length.
Qed.

(** The layout of the blob. *)
Lemma final_blob (d m : buffer) count : in_sint 32 count -> blen d < 2 ^ 31 ->
  (let finalBuf := OutputBuffer.new (Some (SIZE_VERSION + SIZE_DICTIONARY_BLOB + blen d + SIZE_COUNT_METRICS + blen m)) in
   finalBuf ← OutputBuffer.writeByte (js_and (js_ushr BINARY_FORMAT_VERSION BITS_IN_BYTE) BYTE_MASK) finalBuf;
   finalBuf ← OutputBuffer.writeByte (js_and BINARY_FORMAT_VERSION BYTE_MASK) finalBuf;
   finalBuf ← OutputBuffer.writeInt (blen d) finalBuf;
   finalBuf ← OutputBuffer.writeBuffer d finalBuf;
   finalBuf ← OutputBuffer.writeInt count finalBuf;
   finalBuf ← OutputBuffer.writeBuffer m finalBuf;
   Ok (OutputBuffer.toBuffer finalBuf)) = Ok (be 2 1 ++ be 4 (blen d) ++ d ++ be 4 count ++ m).
Proof.
  intros Hc Hd. cbn zeta. set (size := _ + blen m).
  destruct (new_wf (Some size)) as [Hw E0]; [unfold size, SIZE_VERSION, SIZE_DICTIONARY_BLOB, SIZE_COUNT_METRICS; cbn; lia|].
  destruct (writeByte_appends (js_and (js_ushr BINARY_FORMAT_VERSION BITS_IN_BYTE) BYTE_MASK) ltac:(done) _ Hw) as (o1 & -> & H1' & E1). cbn [mbind res_bind].
  destruct (writeByte_appends (js_and BINARY_FORMAT_VERSION BYTE_MASK) ltac:(done) _ H1') as (o2 & -> & H2' & E2). cbn [mbind res_bind].
  destruct (writeInt_appends (blen d)) with o2 as (o3 & -> & H3' & E3); [unfold in_sint; cbn; lia | done |]. cbn [mbind res_bind].
  destruct (ob_writeBuffer_appends d _ H3') as (o4 & -> & H4' & E4). cbn [mbind res_bind].
  destruct (writeInt_appends count Hc _ H4') as (o5 & -> & H5' & E5). cbn [mbind res_bind].
  destruct (ob_writeBuffer_appends m _ H5') as (o6 & -> & H6' & E6). cbn [mbind res_bind].
  rewrite E6, E5, E4, E3, E2, E1, E0. by rewrite <- !app_assoc.
Qed.

Lemma blob_read ms : Forall metric_ok ms -> blen ms <= 500000 ->
  exists c blob c', add_all fromNumber ms new_compressor = (Ok (), c) /\ generateBlob deflate c = (Ok blob, c') /\
    decompress (L := L) inflate blob = Ok (sent fromNumber <$> ms).
Proof.
  intros Hms Hlen. destruct (add_all_ok fromNumber ms new_compressor 0 0 new_good Hms ltac:(lia)) as (c & w & E & (Gw & Gs & Gd) & C & P & B & N & R).
  destruct (new_wf None ltac:(done)) as [Hw0 E0]. cbn [metricsBuffer dictionaryBuffer new_compressor] in *. rewrite E0, app_nil_l in C.
  destruct (writeDictionary_ok c (0 + 4 * blen ms)) as (o & M & Ed & Hsz & Hrd & Hk); [by rewrite B | by rewrite B | done | lia |].
  destruct (zlib (OutputBuffer.toBuffer (metricsBuffer c))) as (zm & Em & Hzm & Im); [lia|].
  destruct (zlib (OutputBuffer.toBuffer o)) as (zd & Edz & Hzd & Id); [lia|].
  exists c, (be 2 1 ++ be 4 (blen zd) ++ zd ++ be 4 (metricsCount c) ++ zm), (with_dictionaryBuffer o c).
  assert (in_sint 32 (metricsCount c)) as Hcnt by (rewrite N; unfold in_sint; cbn; lia).
  split_and!; [done | |].
  - unfold generateBlob. rewrite (Comp_bind_ok _ _ _ _ _ Ed), (Comp_bind_ok this _ _ _ _ eq_refl).
    cbn [metricsBuffer dictionaryBuffer metricsCount with_dictionaryBuffer].
    rewrite (Comp_bind_ok (lift _) _ _ _ zm) by (unfold lift; by rewrite Em).
    rewrite (Comp_bind_ok (lift _) _ _ _ zd) by (unfold lift; by rewrite Edz). unfold lift. by rewrite final_blob.
  - unfold decompress. rewrite (read_uint_be 2) by done. cbn [mbind res_bind negb Z.eqb BINARY_FORMAT_VERSION Pos.eqb].
    rewrite (read_sint_be 4) by (lia || (unfold in_sint; cbn; lia)). cbn [mbind res_bind]. rewrite take_bytes_app. cbn [mbind res_bind].
    rewrite (read_sint_be 4) by (lia || done). cbn [mbind res_bind]. rewrite Id. cbn [mbind res_bind]. rewrite Im. cbn [mbind res_bind].
    rewrite Hrd. cbn [mbind res_bind]. rewrite N. change (metricsCount new_compressor) with 0. rewrite Z.add_0_l, Nat2Z.id, C, <- (app_nil_r w).
    change (lastDescriptor new_compressor) with (@None MetricDescriptor) in R. by rewrite (R _ [] Hk).
Qed.
End Blob.

(** A metric with a word that is too long is refused only when bytes of it are written: its mask stays in the buffer, and the
    metrics that follow are read from the wrong byte. *)
Lemma refused_metric_leaves_bytes `{Uninit} (c : MetricsCompressor) n s d w : good n s c ->
  md_prefix d = Some w -> (UNSIGNED_BYTE_MAX_VALUE < length w)%nat -> lastDescriptor c = None -> exists c',
  writeDescriptor d c = (Err Error, c') /\ metricsCount c' = metricsCount c /\
  OutputBuffer.toBuffer (metricsBuffer c') = OutputBuffer.toBuffer (metricsBuffer c) ++ be 1 0.
Proof.
  intros (Hw & _ & _) Hp Hlen Hlast. destruct (writeByte_appends 0 ltac:(done) (metricsBuffer c) Hw) as (o & E & _ & Co).
  unfold writeDescriptor. rewrite (Comp_bind_ok this _ _ _ _ eq_refl). rewrite Hlast. cbn [calculateDescriptorMask].
  unfold write_masked. erewrite (Comp_bind_ok (to_metrics _)) by (unfold to_metrics; by rewrite E).
  exists (mkCompressor o (dictionaryBuffer c) (dictionary c) (metricsCount c) (lastDescriptor c)). split; [|split; [reflexivity | exact Co]]. unfold mbind, Comp_bind, unless, writeWord, getDictionaryId. cbn [masked]. rewrite Hp.
  unfold dictionary_getDictionaryId. cbn [dictionary]. rewrite (proj2 (Nat.ltb_lt _ _) Hlen). done.
Qed.

(** C19: a member reads from the blob exactly the metrics that were added. If the words of the descriptors have at most 255 code
    units, at most 500000 metrics are added, and zlib inflates what it deflated, then every call of [addLong] and
    [addDouble] returns, [generateBlob] is resolved, and whoever reads the dictionary and then the metrics, taking from the metric before what the
    mask leaves out, gets the descriptors and the values in the order in which they were added. *)
Theorem metrics_read_back `{Uninit} {L} `{LongLaws L} (fromNumber : js_number -> L) (deflate inflate : buffer -> res buffer)
    (ms : list (MetricDescriptor * metric_value)) :
  (forall b, blen b < 2 ^ 30 -> exists z, deflate b = Ok z /\ blen z < 2 ^ 31 /\ inflate z = Ok b) ->
  Forall metric_ok ms -> blen ms <= 500000 ->
  exists c blob c', add_all fromNumber ms new_compressor = (Ok (), c) /\ generateBlob deflate c = (Ok blob, c') /\
    decompress inflate blob = Ok (sent fromNumber <$> ms).
Proof. intros Hz Hms Hlen. by apply blob_read. Qed.

(** ** Witnesses *)

Definition demo_metrics : list (MetricDescriptor * metric_value) := [
  (mkDescriptor (Some [111; 115]) [102; 114; 101; 101] None None (Some BYTES), DoubleValue (num_of_Z 7));
  (mkDescriptor (Some [111; 115]) [102; 114; 101; 97; 107] (Some [110]) (Some [111]) None, LongValue (num_of_Z 8))
].

Lemma word_ok_check w : ((length w <=? 255)%nat && forallb (fun x => (0 <=? x) && (x <? 2 ^ 16)) w) = true -> word_ok w.
Proof.
  intros [Hl Hw]%andb_true_iff. split; [by apply Nat.leb_le in Hl|]. rewrite List.forallb_forall in Hw.
  apply Forall_forall. intros x Hx. apply list_elem_of_In in Hx. specialize (Hw x Hx). unfold in_uint. apply andb_true_iff in Hw as [H1 H2].
  apply Z.leb_le in H1. apply Z.ltb_lt in H2. lia.
Qed.

Lemma metrics_read_back_witness : exists c blob c',
  add_all (H := fun _ => Byte.xee) (fun x => long_of_Z (num_trunc x) : Int64.t) demo_metrics (new_compressor (H := fun _ => Byte.xee)) = (Ok (), c) /\
  generateBlob (H := fun _ => Byte.xee) (fun b => Ok b) c = (Ok blob, c') /\
  decompress (fun b => Ok b) blob = Ok (sent (fun x => long_of_Z (num_trunc x) : Int64.t) <$> demo_metrics).
Proof.
  apply (metrics_read_back (H := fun _ => Byte.xee)).
  - intros b Hb. exists b. split; [reflexivity|]. split; [lia | reflexivity].
  - unfold demo_metrics. constructor; [|constructor; [|constructor]].
    all: split; [split; first [exact I | apply word_ok_check; reflexivity] | first [exact I | apply num_of_Z_valid; lia]].
  - cbn. lia.
Defined.
