(* ===== verification/ConfigLookup.v ===== *)
(** * Looking up configurations by name

    [ConfigPatternMatcher] of [src/src/config/ConfigPatternMatcher.ts] and the lookups of [ClientConfigImpl] in
    [src/src/config/Config.ts]: the configuration of a map, a reliable topic or an id generator is that of its name, or of
    the pattern with a wildcard that matches best, or the default. Strings are lists of UTF-16 code units; the configurations are the
    properties of an object, which also has the properties of [Object.prototype]. *)

From S2P Require Export Prelude.

Abbreviation js_string := (list Z).

(** ** ConfigPatternMatcher *)

(** The code unit of the wildcard. *)
Definition star : Z := 42.

(** [pattern.indexOf('*')], or [None]. *)
Fixpoint indexOf (c : Z) (s : js_string) : option nat :=
  match s with
  | [] => None
  | x :: s => if x =? c then Some 0%nat else S <$> indexOf c s
  end.
Definition startsWith (s p : js_string) : bool := bool_decide (take (length p) s = p).
Definition endsWith (s p : js_string) : bool :=
  (length p <=? length s)%nat && bool_decide (drop (length s - length p) s = p).

Definition getMatchingPoint (pattern itemName : js_string) : Z :=
  match indexOf star pattern with
  | None => -1
  | Some index =>
      let firstPart := take index pattern in
      if negb (startsWith itemName firstPart) then -1
      else
        let secondPart := drop (index + 1) pattern in
        if negb (endsWith itemName secondPart) then -1
        else Z.of_nat (length firstPart + length secondPart)
  end.

(** The variables of [matches]. *)
Record best := mkBest { bestMatchingPoint : Z; matchingPattern : option js_string; duplicatePattern : option js_string }.
Definition try_pattern (itemName : js_string) (b : best) (pattern : js_string) : best :=
  let currentPoint := getMatchingPoint pattern itemName in
  if bestMatchingPoint b <? currentPoint then mkBest currentPoint (Some pattern) None
  else if (currentPoint =? bestMatchingPoint b) && bool_decide (is_Some (matchingPattern b)) then
    mkBest (bestMatchingPoint b) (Some pattern) (matchingPattern b)
  else b.
Definition matches (configPatterns : list js_string) (itemName : js_string) : res (option js_string) :=
  let b := foldl (try_pattern itemName) (mkBest (-1) None None) configPatterns in
  match duplicatePattern b with
  | Some _ => Err TypeError
  | None => Ok (matchingPattern b)
  end.

(** ** The lookups of ClientConfigImpl *)

(** [toString], [constructor] and the other names that every object has. *)
Class Prototype := inherited : js_string -> bool.

(** A configuration object with its name. *)
Record Named {T : Type} := mkNamed { name_of : option js_string; settings : T }.
Arguments Named T : clear implicits.
Arguments mkNamed {T}.
Arguments name_of {T}.
Arguments settings {T}.

Section Lookup.
Context `{Prototype} {T : Type}.
Implicit Types config : list (js_string * Named T).

(** The code units of [default]. *)
Definition default_name : js_string := [100; 101; 102; 97; 117; 108; 116].

(** A property of the object: one of its own, or one that it inherits and that is no configuration. *)
Inductive property := Own (c : Named T) | Inherited | Missing.
Definition own (config : list (js_string * Named T)) (name : js_string) : option (Named T) :=
  snd <$> List.find (fun e => bool_decide (e.1 = name)) config.
Definition access config (name : js_string) : property :=
  match own config name with
  | Some c => Own c
  | None => if inherited name then Inherited else Missing
  end.

Definition lookupByPattern config (name : js_string) : res property :=
  match access config name with
  | Own c => Ok (Own c)
  | Inherited => Ok Inherited
  | Missing =>
      matchingPattern ← matches config.*1 name;
      match matchingPattern with
      | Some pattern => Ok (access config pattern)
      | None => Ok (access config default_name)
      end
  end.

(** [matching.clone()], with another name. An inherited property has no such method. *)
Definition clone_named (name : js_string) (matching : property) : res (option (Named T)) :=
  match matching with
  | Own c => Ok (Some (mkNamed (Some name) (settings c)))
  | Inherited => Err TypeError
  | Missing => Ok None
  end.

Definition getNearCacheConfig (nearCaches : list (js_string * Named T)) (name : js_string) : res (option (Named T)) :=
  matching ← lookupByPattern nearCaches name; clone_named name matching.

(** [getReliableTopicConfig] and [getFlakeIdGeneratorConfig], which have settings of their own when there is no configuration. *)
Definition config_or_new (fresh : T) config (name : js_string) : res (Named T) :=
  matching ← lookupByPattern config name;
  found ← clone_named name matching;
  Ok (default (mkNamed (Some name) fresh) found).
Definition getReliableTopicConfig := config_or_new.
Definition getFlakeIdGeneratorConfig := config_or_new.
End Lookup.

(** ** Which pattern is found *)

(** A pattern matches a name if the name begins with what is before its first wildcard and ends with what is after it; the score is the length
    of the two. *)
Lemma indexOf_spec c s : match indexOf c s with
  | Some i => exists p q, s = p ++ c :: q /\ length p = i /\ c ∉ p
  | None => c ∉ s
  end.
Proof.
  induction s as [|x s IH]; cbn; [by apply not_elem_of_nil|]. destruct (Z.eqb_spec x c) as [->|Hne]; cbn.
  - exists [], s. split_and!; [done | done | by apply not_elem_of_nil].
  - destruct (indexOf c s) as [i|]; cbn.
    + destruct IH as (p & q & -> & <- & Hp). exists (x :: p), q. split_and!; [done | done |]. apply not_elem_of_cons. split; [congruence | done].
    + apply not_elem_of_cons. split; [congruence | done].
Qed.

Lemma startsWith_spec s p : startsWith s p = true <-> p `prefix_of` s.
Proof.
  unfold startsWith. rewrite bool_decide_eq_true. split.
  - intros <-. exists (drop (length p) s). by rewrite take_drop.
  - intros [k ->]. by rewrite take_app_length.
Qed.

Lemma endsWith_spec s p : endsWith s p = true <-> p `suffix_of` s.
Proof.
  unfold endsWith. rewrite andb_true_iff, Nat.leb_le, bool_decide_eq_true. split.
  - intros [_ <-]. exists (take (length s - length p) s). by rewrite take_drop.
  - intros [k ->]. rewrite length_app. split; [lia|]. by rewrite Nat.add_sub, drop_app_length.
Qed.

Definition fits (pattern itemName : js_string) (first second : js_string) : Prop :=
  pattern = first ++ star :: second /\ star ∉ first /\ first `prefix_of` itemName /\ second `suffix_of` itemName.

Lemma matching_point pattern itemName :
  (exists first second, fits pattern itemName first second /\ getMatchingPoint pattern itemName = Z.of_nat (length first + length second)) \/
  (forall first second, ~ fits pattern itemName first second) /\ getMatchingPoint pattern itemName = -1.
Proof.
  unfold getMatchingPoint. pose proof (indexOf_spec star pattern) as Hi. destruct (indexOf star pattern) as [i|].
  - destruct Hi as (p & q & -> & <- & Hp). rewrite take_app_length, <- drop_drop, drop_app_length.
    change (drop 1 (star :: q)) with q.
    assert (forall first second, p ++ star :: q = first ++ star :: second -> star ∉ first -> first = p /\ second = q) as Huniq.
    { clear -Hp. revert Hp. induction p as [|x p IH]; intros Hp [|y first] second E Hf; cbn in E.
      - by injection E as ->.
      - injection E as <- _. apply not_elem_of_cons in Hf as [Hf _]. done.
      - injection E as -> _. apply not_elem_of_cons in Hp as [Hp _]. done.
      - injection E as <- E. apply not_elem_of_cons in Hp as [_ Hp]. apply not_elem_of_cons in Hf as [_ Hf].
        destruct (IH Hp first second E Hf) as [-> ->]. done. }
    destruct (startsWith itemName p) eqn:Es; cbn [negb].
    + destruct (endsWith itemName q) eqn:Ee; cbn [negb].
      * left. exists p, q. apply startsWith_spec in Es. apply endsWith_spec in Ee. done.
      * right. split; [|done]. intros first second (E & Hf & _ & Hs). destruct (Huniq _ _ E Hf) as [-> ->].
        apply endsWith_spec in Hs. congruence.
    + right. split; [|done]. intros first second (E & Hf & Hs & _). destruct (Huniq _ _ E Hf) as [-> ->].
      apply startsWith_spec in Hs. congruence.
  - right. split; [|done]. intros first second (-> & _). apply Hi. apply elem_of_app. right. by left.
Qed.

(** What [matches] has seen of the patterns so far: the best score, that the pattern has it, and whether it has it alone. *)
Record seen (itemName : js_string) (ps : list js_string) (b : best) : Prop := {
  seen_best : Forall (fun p => getMatchingPoint p itemName <= bestMatchingPoint b) ps;
  seen_found : match matchingPattern b with
    | Some p => p ∈ ps /\ getMatchingPoint p itemName = bestMatchingPoint b /\ 0 <= bestMatchingPoint b
    | None => bestMatchingPoint b = -1 /\ duplicatePattern b = None
    end;
  seen_twice : 0 <= bestMatchingPoint b ->
    (duplicatePattern b = None <-> length (filter (fun p => getMatchingPoint p itemName = bestMatchingPoint b) ps) = 1%nat)
}.

Lemma getMatchingPoint_range p itemName : -1 <= getMatchingPoint p itemName.
Proof. destruct (matching_point p itemName) as [(f & s & _ & ->)|[_ ->]]; lia. Qed.

Lemma filter_none {A} (P : A -> Prop) `{!forall x, Decision (P x)} l : Forall (fun x => ~ P x) l -> filter P l = [].
Proof. induction 1 as [|x l Hx _ IH]; [done|]. by rewrite filter_cons_False. Qed.

Lemma try_pattern_seen itemName ps b p : seen itemName ps b -> seen itemName (ps ++ [p]) (try_pattern itemName b p).
Proof.
  intros [Hb Hf Ht]. unfold try_pattern. pose proof (getMatchingPoint_range p itemName) as Hr.
  set (k := getMatchingPoint p itemName) in *. destruct (Z.ltb_spec (bestMatchingPoint b) k) as [Hlt|Hge].
  - assert (0 <= k) as Hk by (destruct (matchingPattern b); [destruct Hf as (_ & _ & ?) | destruct Hf as [? _]]; lia).
    split; cbn.
    + apply Forall_app. split; [eapply Forall_impl; [exact Hb|]; cbn; lia | constructor; [done | constructor]].
    + split_and!; [apply elem_of_app; right; by left | done | done].
    + intros _. split; [intros _ | done]. rewrite filter_app, filter_none.
      * by rewrite filter_cons_True.
      * eapply Forall_impl; [exact Hb|]. cbn. intros. lia.
  - destruct ((k =? bestMatchingPoint b) && bool_decide (is_Some (matchingPattern b))) eqn:E.
    + apply andb_true_iff in E as [Ek%Z.eqb_eq Es%bool_decide_eq_true]. destruct Es as [m Em]. rewrite Em in *.
      destruct Hf as (Hin & Hm & H0). split; cbn.
      * apply Forall_app. split; [done | constructor; [lia | constructor]].
      * split_and!; [apply elem_of_app; right; by left | done | done].
      * intros _. split; [done|]. rewrite filter_app, length_app, (filter_cons_True _ p) by done. intros Hlen. exfalso.
        assert (filter (fun p => getMatchingPoint p itemName = bestMatchingPoint b) ps = []) as E0 by (apply nil_length_inv; cbn in Hlen; lia).
        apply (not_elem_of_nil m). rewrite <- E0. apply list_elem_of_filter. done.
    + split.
      * apply Forall_app. split; [done | constructor; [lia | constructor]].
      * destruct (matchingPattern b); [|done]. destruct Hf as (Hin & ? & ?). split_and!; [apply elem_of_app; by left | done | done].
      * intros H0. rewrite filter_app, length_app, (filter_cons_False _ p); [cbn; by rewrite Nat.add_0_r, Ht|].
        fold k. intros Ek. rewrite Ek, Z.eqb_refl in E. cbn in E. apply bool_decide_eq_false in E.
        destruct (matchingPattern b); [by apply E | lia].
Qed.

Lemma matches_seen itemName ps : seen itemName ps (foldl (try_pattern itemName) (mkBest (-1) None None) ps).
Proof.
  induction ps as [|p ps IH] using rev_ind.
  - split; cbn; [constructor | done | lia].
  - rewrite foldl_app. by apply try_pattern_seen.
Qed.

(** ** Properties *)

Section Found.
Context `{Prototype} {T : Type}.
Implicit Types (config : list (js_string * Named T)) (name p : js_string).

Lemma own_elem config p c : own config p = Some c -> p ∈ config.*1.
Proof.
  unfold own. intros (e & Ee & _)%fmap_Some. apply List.find_some in Ee as [Hin Hp]. apply bool_decide_eq_true in Hp. subst p.
  apply (list_elem_of_fmap_2 fst). by apply list_elem_of_In.
Qed.

Lemma elem_own config p : p ∈ config.*1 -> is_Some (own config p).
Proof.
  intros ([p' c] & -> & Hin)%list_elem_of_fmap. unfold own. cbn. destruct (List.find _ config) as [e|] eqn:E; [by eexists|].
  apply list_elem_of_In in Hin. pose proof (List.find_none _ _ E _ Hin) as Hn. by apply bool_decide_eq_false in Hn.
Qed.

(** The pattern that is alone with the best score. *)
Lemma matches_best ps name p : NoDup ps -> p ∈ ps -> 0 <= getMatchingPoint p name ->
  (forall q, q ∈ ps -> q <> p -> getMatchingPoint q name < getMatchingPoint p name) -> matches ps name = Ok (Some p).
Proof.
  intros Hnd Hp H0 Hbest. unfold matches. destruct (matches_seen name ps) as [Hb Hf Ht]. set (b := foldl _ _ _) in *.
  rewrite Forall_forall in Hb. pose proof (Hb p Hp) as Hpb. cbn in Hpb.
  assert (matchingPattern b = Some p) as Em.
  { destruct (matchingPattern b) as [m|]; [|destruct Hf as [? _]; lia]. destruct Hf as (Hin & Em & _).
    destruct (decide (m = p)) as [->|Hne]; [done|]. specialize (Hbest m Hin Hne). lia. }
  rewrite Em in *. destruct Hf as (_ & Ep & H0'). rewrite (proj2 (Ht H0')); [done|].
  assert (filter (fun q => getMatchingPoint q name = bestMatchingPoint b) ps ≡ₚ [p]) as ->; [|done].
  apply NoDup_Permutation; [by apply NoDup_filter | apply NoDup_singleton|]. intros q. rewrite list_elem_of_filter, list_elem_of_singleton.
  split; [|by intros ->]. intros [Eq Hq]. destruct (decide (q = p)) as [->|Hne]; [done|]. specialize (Hbest q Hq Hne). lia.
Qed.

Lemma matches_ambiguous ps name p q : p ∈ ps -> q ∈ ps -> p <> q -> 0 <= getMatchingPoint p name ->
  getMatchingPoint q name = getMatchingPoint p name -> (forall x, x ∈ ps -> getMatchingPoint x name <= getMatchingPoint p name) ->
  matches ps name = Err TypeError.
Proof.
  intros Hp Hq Hne H0 Eq Hmax. unfold matches. destruct (matches_seen name ps) as [Hb Hf Ht]. set (b := foldl _ _ _) in *.
  rewrite Forall_forall in Hb. pose proof (Hb p Hp) as Hpb. cbn in Hpb.
  assert (bestMatchingPoint b = getMatchingPoint p name) as Eb.
  { destruct (matchingPattern b) as [m|]; [|destruct Hf as [? _]; lia]. destruct Hf as (Hin & Em & _). specialize (Hmax m Hin). lia. }
  destruct (duplicatePattern b) as [d|] eqn:Ed; [done|]. exfalso. destruct (Ht ltac:(lia)) as [Ht1 _]. specialize (Ht1 eq_refl).
  set (l := filter _ ps) in Ht1. assert (p ∈ l /\ q ∈ l) as [Hpl Hql] by (unfold l; rewrite !list_elem_of_filter; split; (split; [lia | done])).
  destruct l as [|x [|y l]]; cbn in Ht1; try lia. apply list_elem_of_singleton in Hpl, Hql. congruence.
Qed.

Lemma matches_none ps name : (forall p, p ∈ ps -> getMatchingPoint p name = -1) -> matches ps name = Ok None.
Proof.
  intros Hall. unfold matches. destruct (matches_seen name ps) as [Hb Hf Ht]. set (b := foldl _ _ _) in *.
  destruct (matchingPattern b) as [m|]; [destruct Hf as (Hin & Em & H0); specialize (Hall m Hin); lia|]. destruct Hf as [_ ->]. done.
Qed.

Lemma lookup_by_pattern config name : own config name = None -> inherited name = false ->
  getNearCacheConfig config name = (matchingPattern ← matches config.*1 name; clone_named name (access config (default default_name matchingPattern))).
Proof.
  intros Ho Hi. unfold getNearCacheConfig, lookupByPattern, access at 1. rewrite Ho, Hi. destruct (matches config.*1 name) as [[p|]|e]; done.
Qed.
End Found.

(** A pattern applies to a name if the name begins with what is before its first wildcard and ends with what is after it. *)
Definition applies (pattern name : js_string) : Prop := exists first second, fits pattern name first second.

(** The score of a pattern that applies counts its characters without the wildcard. *)
Lemma applies_point p name : applies p name -> getMatchingPoint p name = Z.of_nat (length p) - 1.
Proof.
  intros (f & s & Hf). destruct (matching_point p name) as [(f' & s' & (-> & _) & ->)|[Hn _]]; [|by destruct (Hn f s)].
  rewrite length_app. cbn. lia.
Qed.

Lemma not_applies_point p name : ~ applies p name -> getMatchingPoint p name = -1.
Proof. intros Hn. destruct (matching_point p name) as [(f & s & Hf & _)|[_ ->]]; [|done]. destruct Hn. by exists f, s. Qed.

Lemma point_applies p name : 0 <= getMatchingPoint p name -> applies p name.
Proof. intros H0. destruct (matching_point p name) as [(f & s & Hf & _)|[_ E]]; [by exists f, s | lia]. Qed.

Lemma applies_nonempty p name : applies p name -> (0 < length p)%nat.
Proof. intros (f & s & -> & _). rewrite length_app. cbn. lia. Qed.

(** C21: the configuration that is found for a name. A pattern applies to a name if the name begins with what is before its wildcard
    and ends with what is after it. For a name that is not one of those every object has: if the name is configured, its
    configuration is returned; otherwise, if one pattern applies and has more characters than every other that applies, that of the
    pattern; if two that apply have the same number of characters and no other that applies has more, the lookup fails; if none
    applies, the default one, if there is one. What is returned is a copy with the name that was asked for, whatever the order of the
    patterns. *)
Theorem config_found `{Prototype} {T} (config : list (js_string * Named T)) (name : js_string) :
  NoDup config.*1 -> inherited name = false -> inherited default_name = false ->
  (forall c, own config name = Some c -> getNearCacheConfig config name = Ok (Some (mkNamed (Some name) (settings c)))) /\
  (own config name = None ->
    (forall p c, own config p = Some c -> applies p name ->
       (forall q, q ∈ config.*1 -> q <> p -> applies q name -> (length q < length p)%nat) ->
       getNearCacheConfig config name = Ok (Some (mkNamed (Some name) (settings c)))) /\
    (forall p q, p ∈ config.*1 -> q ∈ config.*1 -> p <> q -> applies p name -> applies q name -> length q = length p ->
       (forall x, x ∈ config.*1 -> applies x name -> (length x <= length p)%nat) ->
       getNearCacheConfig config name = Err TypeError) /\
    ((forall p, p ∈ config.*1 -> ~ applies p name) ->
       getNearCacheConfig config name = Ok ((fun c => mkNamed (Some name) (settings c)) <$> own config default_name))).
Proof.
  intros Hnd Hi Hdi.
  assert (forall p x, applies p name -> (applies x name -> (length x <= length p)%nat) ->
    getMatchingPoint x name <= getMatchingPoint p name) as Hle.
  { intros p x Hp Hx. rewrite (applies_point p name Hp). pose proof (applies_nonempty p name Hp).
    destruct (Z.le_gt_cases 0 (getMatchingPoint x name)) as [Ha%point_applies|?]; [|lia].
    rewrite (applies_point x name Ha). specialize (Hx Ha). lia. }
  split_and!.
  - intros c Hc. unfold getNearCacheConfig, lookupByPattern, access. by rewrite Hc.
  - intros Ho. rewrite (lookup_by_pattern config name Ho Hi). split_and!.
    + intros p c Hc Ha Hbest. pose proof (applies_nonempty p name Ha). pose proof (applies_point p name Ha) as Ep.
      rewrite (matches_best _ _ p Hnd (own_elem _ _ _ Hc)); [|lia|].
      * cbn. unfold access. by rewrite Hc.
      * intros q Hq Hne. rewrite Ep. destruct (Z.le_gt_cases 0 (getMatchingPoint q name)) as [Hq'%point_applies|?]; [|lia].
        rewrite (applies_point q name Hq'). specialize (Hbest q Hq Hne Hq'). lia.
    + intros p q Hp Hq Hne Ha Hb El Hmax. pose proof (applies_nonempty p name Ha). rewrite (matches_ambiguous _ _ p q Hp Hq Hne); [done | | |].
      * rewrite (applies_point p name Ha). lia.
      * rewrite (applies_point p name Ha), (applies_point q name Hb). lia.
      * intros x Hx. apply Hle; [done|]. by apply Hmax.
    + intros Hall. rewrite matches_none by (intros p Hp; by apply not_applies_point, Hall). cbn. unfold access.
      destruct (own config default_name) as [c|]; [done|]. by rewrite Hdi.
Qed.

(** The two parts of a pattern may overlap: [ab*bc] applies to [abc]. *)
Lemma parts_overlap : getMatchingPoint [97; 98; star; 98; 99] [97; 98; 99] = 4 /\ forall x, [97; 98; 99] <> [97; 98] ++ x ++ [98; 99].
Proof. split; [reflexivity|]. intros [|a [|b x]]; discriminate. Qed.

(** A name that every object has, such as [constructor], is taken for a configuration, and the lookup throws. *)
Lemma inherited_name_fails `{Prototype} {T} (config : list (js_string * Named T)) name :
  own config name = None -> inherited name = true -> getNearCacheConfig config name = Err TypeError.
Proof. intros Ho Hi. unfold getNearCacheConfig, lookupByPattern, access. by rewrite Ho, Hi. Qed.

(** ** Witnesses *)

#[local] Instance no_prototype : Prototype := fun _ => false.

Lemma config_found_witness : getNearCacheConfig [([97; star], mkNamed None 1); ([97; 98; star], mkNamed None 2)] [97; 98; 99] =
  Ok (Some (mkNamed (Some [97; 98; 99]) 2)).
Proof.
  assert (NoDup [[97; star]; [97; 98; star]]) as Hnd by (apply (bool_decide_eq_true_1 _); reflexivity).
  destruct (config_found [([97; star], mkNamed None 1); ([97; 98; star], mkNamed None 2)] [97; 98; 99] Hnd eq_refl eq_refl) as (_ & Hb).
  destruct (Hb eq_refl) as (Hbest & _ & _). apply (Hbest [97; 98; star] (mkNamed None 2)).
  - reflexivity.
  - exists [97; 98], []. split; [reflexivity|]. split; [intros Hin; by repeat (apply elem_of_cons in Hin as [Hin|Hin]; [discriminate Hin|]); apply elem_of_nil in Hin|].
    split; [by exists [99] | by exists [97; 98; 99]].
  - intros q Hq Hne _. apply elem_of_cons in Hq as [->|Hq]; [cbn; lia|]. apply list_elem_of_singleton in Hq as ->. destruct (Hne eq_refl).
Defined.
