(* ===== verification/ProxyManager.v ===== *)
(** * The proxy manager

    [ProxyManager] of [src/src/proxy/ProxyManager.ts]: for each name of a service there is one promise of a proxy, which is returned to
    every caller; the proxy is created on the cluster, then in the client, and a reliable topic waits for its ringbuffer, a
    proxy of its own.

    A promise is known by its index. The steps are the calls of the application, the answers of the members, and the callbacks of
    promises; what a constructor throws, and what the configuration says of a near cache, are arguments. *)

From Stdlib Require Import Ascii.
From stdpp Require Import strings.
From S2P Require Export Prelude.
#[local] Open Scope string_scope.
#[local] Open Scope Z_scope.

Definition NAMESPACE_SEPARATOR : Ascii.ascii := "/"%char.
Definition RINGBUFFER_PREFIX : string := "_hz_rb_".

Definition MAP_SERVICE : string := "hz:impl:mapService".
Definition SET_SERVICE : string := "hz:impl:setService".
Definition LOCK_SERVICE : string := "hz:impl:lockService".
Definition QUEUE_SERVICE : string := "hz:impl:queueService".
Definition LIST_SERVICE : string := "hz:impl:listService".
Definition MULTIMAP_SERVICE : string := "hz:impl:multiMapService".
Definition RINGBUFFER_SERVICE : string := "hz:impl:ringbufferService".
Definition REPLICATEDMAP_SERVICE : string := "hz:impl:replicatedMapService".
Definition FLAKEID_SERVICE : string := "hz:impl:flakeIdGeneratorService".
Definition PNCOUNTER_SERVICE : string := "hz:impl:PNCounterService".
Definition RELIABLETOPIC_SERVICE : string := "hz:impl:reliableTopicService".

(** The classes of proxies. *)
Inductive ProxyClass :=
  | MapProxy | NearCachedMapProxy | SetProxy | QueueProxy | ListProxy | MultiMapProxy | RingbufferProxy | ReplicatedMapProxy
  | FlakeIdGeneratorProxy | PNCounterProxy | ReliableTopicProxy.

(** [init]: the classes by service. *)
Definition service : list (string * ProxyClass) := [
  (MAP_SERVICE, MapProxy); (SET_SERVICE, SetProxy); (QUEUE_SERVICE, QueueProxy); (LIST_SERVICE, ListProxy);
  (MULTIMAP_SERVICE, MultiMapProxy); (RINGBUFFER_SERVICE, RingbufferProxy); (REPLICATEDMAP_SERVICE, ReplicatedMapProxy);
  (FLAKEID_SERVICE, FlakeIdGeneratorProxy); (PNCOUNTER_SERVICE, PNCounterProxy); (RELIABLETOPIC_SERVICE, ReliableTopicProxy)
].

Definition full_name (serviceName name : string) : string := serviceName +:+ String NAMESPACE_SEPARATOR name.

(** A proxy; a reliable topic has the promise of its ringbuffer. *)
Record DistributedObject := mkObject { do_class : ProxyClass; do_service : string; do_name : string; do_ringbuffer : option nat }.

Inductive PromiseState :=
  | Creating (createAtServer : bool)
  | AwaitingRingbuffer (localProxy : DistributedObject) (ringbuffer : nat)
  | Resolved (localProxy : DistributedObject)
  | Rejected (e : js_error).
Record Deferred := mkDeferred { d_service : string; d_name : string; d_state : PromiseState }.

Record ProxyManager := mkProxyManager { proxies : js_map string nat; promises : list Deferred }.
Implicit Types (s : ProxyManager) (i : nat).

Definition settle i (st : PromiseState) s : ProxyManager :=
  match promises s !! i with
  | Some d => mkProxyManager (proxies s) (<[i := mkDeferred (d_service d) (d_name d) st]> (promises s))
  | None => s
  end.

Definition getOrCreateProxy (name serviceName : string) (createAtServer : bool) s : nat * ProxyManager :=
  let fullName := full_name serviceName name in
  match js_map_get String.eqb (proxies s) fullName with
  | Some i => (i, s)
  | None =>
      let i := length (promises s) in
      (i, mkProxyManager (js_map_set String.eqb (proxies s) fullName i)
            (promises s ++ [mkDeferred serviceName name (Creating createAtServer)]))
  end.

(** The handler at the end of [getOrCreateProxy]. *)
Definition creation_failed i (e : js_error) s : ProxyManager :=
  match promises s !! i with
  | Some d =>
      let s := mkProxyManager (js_map_delete String.eqb (proxies s) (full_name (d_service d) (d_name d))).2 (promises s) in
      settle i (Rejected e) s
  | None => s
  end.

(** The class whose constructor [initializeLocalProxy] calls; [getNearCacheConfig] may throw, and calling what is not a constructor does. *)
Definition class_of (serviceName : string) (nearCacheConfigured : res bool) : res ProxyClass :=
  nearCached ← (if String.eqb serviceName MAP_SERVICE then nearCacheConfigured else Ok false);
  if nearCached : bool then Ok NearCachedMapProxy
  else match js_map_get String.eqb service serviceName with Some c => Ok c | None => Err TypeError end.

(** [initializeLocalProxy] and what is chained to it. *)
Definition initializeLocalProxy i (nearCacheConfigured : res bool) (constructed : res ()) s : ProxyManager :=
  match promises s !! i with
  | Some (mkDeferred serviceName name (Creating createAtServer)) =>
      match (class ← class_of serviceName nearCacheConfigured; _ ← constructed; Ok class) with
      | Err e => creation_failed i e s
      | Ok class =>
          let localProxy := mkObject class serviceName name None in
          if String.eqb serviceName RELIABLETOPIC_SERVICE then
            let '(ringbuffer, s) := getOrCreateProxy (RINGBUFFER_PREFIX +:+ name) RINGBUFFER_SERVICE createAtServer s in
            settle i (AwaitingRingbuffer localProxy ringbuffer) s
          else settle i (Resolved localProxy) s
      end
  | _ => s
  end.

(** The callback of the promise of the ringbuffer: [setRingbuffer]. *)
Definition ringbuffer_settled i s : ProxyManager :=
  match promises s !! i with
  | Some (mkDeferred _ _ (AwaitingRingbuffer localProxy j)) =>
      match promises s !! j with
      | Some (mkDeferred _ _ (Resolved _)) =>
          settle i (Resolved (mkObject (do_class localProxy) (do_service localProxy) (do_name localProxy) (Some j))) s
      | Some (mkDeferred _ _ (Rejected e)) => creation_failed i e s
      | _ => s
      end
  | _ => s
  end.

Definition destroyProxy (name serviceName : string) s : ProxyManager :=
  mkProxyManager (js_map_delete String.eqb (proxies s) (full_name serviceName name)).2 (promises s).
Definition destroyProxyLocally (namespace : string) s : ProxyManager :=
  match js_map_get String.eqb (proxies s) namespace with
  | Some _ => mkProxyManager (js_map_delete String.eqb (proxies s) namespace).2 (promises s)
  | None => s
  end.
Definition destroy s : ProxyManager := mkProxyManager [] (promises s).
Definition getDistributedObjects s : list nat := (proxies s).*2.

(** [namespace.indexOf('/')] and the substrings before and after it; without a separator the first is empty and the second is all. *)
Fixpoint split_at (c : Ascii.ascii) (ns : string) : option (string * string) :=
  match ns with
  | EmptyString => None
  | String a ns =>
      if Ascii.eqb a c then Some (EmptyString, ns)
      else match split_at c ns with Some (p, q) => Some (String a p, q) | None => None end
  end.
Definition createDistributedObjectsOnCluster s : list (string * string) :=
  map (fun e => let '(serviceName, name) := default (EmptyString, e.1) (split_at NAMESPACE_SEPARATOR e.1) in (name, serviceName)) (proxies s).

(** The names of services have no separator. *)
Definition no_separator (serviceName : string) : bool :=
  forallb (fun a => negb (Ascii.eqb a NAMESPACE_SEPARATOR)) (String.list_ascii_of_string serviceName).

(** ** Steps *)

Inductive step s : ProxyManager -> Prop :=
  | does_get name serviceName createAtServer : no_separator serviceName = true -> step s (getOrCreateProxy name serviceName createAtServer s).2
  | does_destroy name serviceName : step s (destroyProxy name serviceName s)
  | does_destroy_locally namespace : step s (destroyProxyLocally namespace s)
  | does_clear : step s (destroy s)
  (** The member has created the object, or there was no request. *)
  | object_created i serviceName name b nearCacheConfigured constructed :
      promises s !! i = Some (mkDeferred serviceName name (Creating b)) ->
      step s (initializeLocalProxy i nearCacheConfigured constructed s)
  | creation_refused i serviceName name e :
      promises s !! i = Some (mkDeferred serviceName name (Creating true)) -> step s (creation_failed i e s)
  | ringbuffer_called i j serviceName name o : promises s !! i = Some (mkDeferred serviceName name (AwaitingRingbuffer o j)) ->
      step s (ringbuffer_settled i s).

Definition new_manager : ProxyManager := mkProxyManager [] [].
Definition reachable s : Prop := rtc step new_manager s.

(** ** The invariant *)

Definition settled (st : PromiseState) : bool := match st with Resolved _ | Rejected _ => true | _ => false end.

(** The object that a promise gives is of its service, of the class of the service, and a topic has a ringbuffer of its name. *)
Definition is_ringbuffer s (name : string) (j : nat) : Prop :=
  exists d, promises s !! j = Some d /\ d_service d = RINGBUFFER_SERVICE /\ d_name d = RINGBUFFER_PREFIX +:+ name.
Definition object_ok s (d : Deferred) (o : DistributedObject) : Prop :=
  do_service o = d_service d /\ do_name o = d_name d /\
  (exists nearCached, class_of (d_service d) (Ok nearCached) = Ok (do_class o)).
Definition deferred_ok s (d : Deferred) : Prop :=
  match d_state d with
  | AwaitingRingbuffer o j => d_service d = RELIABLETOPIC_SERVICE /\ object_ok s d o /\ is_ringbuffer s (d_name d) j
  | Resolved o => object_ok s d o /\
      match do_ringbuffer o with
      | Some j => is_ringbuffer s (d_name d) j
      | None => d_service d <> RELIABLETOPIC_SERVICE
      end
  | _ => True
  end.
(** The promise of an entry is for its name, and was not rejected. *)
Definition entry_ok s (ns : string) i : Prop :=
  exists d, promises s !! i = Some d /\ full_name (d_service d) (d_name d) = ns /\ (forall e, d_state d <> Rejected e).

Record manager_inv s : Prop := {
  mi_wf : js_map_wf String.eqb (proxies s);
  mi_entries : forall ns i, js_map_get String.eqb (proxies s) ns = Some i -> entry_ok s ns i;
  mi_deferred : forall i d, promises s !! i = Some d -> deferred_ok s d
}.

(** Later states keep the promises, and what is settled. *)
Definition extends s s' : Prop :=
  forall i d, promises s !! i = Some d -> exists d', promises s' !! i = Some d' /\ d_service d' = d_service d /\ d_name d' = d_name d /\
    (settled (d_state d) = true -> d' = d).

Lemma extends_refl s : extends s s.
Proof. intros i d Hd. by exists d. Qed.

Lemma extends_trans s1 s2 s3 : extends s1 s2 -> extends s2 s3 -> extends s1 s3.
Proof.
  intros H1 H2 i d Hd. destruct (H1 i d Hd) as (d2 & Hd2 & Es & En & Ek). destruct (H2 i d2 Hd2) as (d3 & Hd3 & Es' & En' & Ek').
  exists d3. split_and!; [done | congruence | congruence |]. intros Hs. rewrite <- (Ek Hs) in Hs |- *. by apply Ek'.
Qed.

Lemma is_ringbuffer_extends s s' name j : extends s s' -> is_ringbuffer s name j -> is_ringbuffer s' name j.
Proof. intros He (d & Hd & Es & En). destruct (He j d Hd) as (d' & Hd' & Es' & En' & _). exists d'. split_and!; [done | congruence | congruence]. Qed.

Lemma deferred_ok_extends s s' d : extends s s' -> deferred_ok s d -> deferred_ok s' d.
Proof.
  intros He. unfold deferred_ok. destruct (d_state d) as [|o j|o|]; [done | | |done].
  - intros (? & ? & ?). split_and!; [done | done | by eapply is_ringbuffer_extends].
  - intros [Ho Hr]. split; [done|]. destruct (do_ringbuffer o); [by eapply is_ringbuffer_extends | done].
Qed.

Lemma string_same a b : String.eqb a b = true <-> a = b.
Proof. apply String.eqb_eq. Qed.

Lemma settle_extends i d st s : promises s !! i = Some d -> settled (d_state d) = false -> extends s (settle i st s).
Proof.
  intros Hi Hs k x Hx. unfold settle. rewrite Hi. cbn. destruct (decide (k = i)) as [->|Hne].
  - rewrite Hi in Hx. injection Hx as <-. eexists. split; [apply list_lookup_insert_eq; by eapply lookup_lt_Some|].
    split_and!; [done | done |]. congruence.
  - rewrite list_lookup_insert_ne by congruence. by exists x.
Qed.

Lemma deferred_ok_settle i d st s : promises s !! i = Some d -> settled (d_state d) = false ->
  (forall k x, promises s !! k = Some x -> deferred_ok s x) -> deferred_ok s (mkDeferred (d_service d) (d_name d) st) ->
  forall k x, promises (settle i st s) !! k = Some x -> deferred_ok (settle i st s) x.
Proof.
  intros Hi Hs Hall Hok k x. pose proof (settle_extends i d st s Hi Hs) as He. intros Hx. eapply deferred_ok_extends; [exact He|].
  revert Hx. unfold settle. rewrite Hi. cbn. destruct (decide (k = i)) as [->|Hne].
  - rewrite list_lookup_insert_eq by (by eapply lookup_lt_Some). by intros [= <-].
  - rewrite list_lookup_insert_ne by congruence. apply Hall.
Qed.

Lemma settle_inv i d st s : manager_inv s -> promises s !! i = Some d -> settled (d_state d) = false -> (forall e, st <> Rejected e) ->
  deferred_ok s (mkDeferred (d_service d) (d_name d) st) -> manager_inv (settle i st s).
Proof.
  intros [Hwf He Hd] Hi Hs Hst Hok. pose proof (deferred_ok_settle i d st s Hi Hs Hd Hok) as Hd'. split; [| |done].
  - unfold settle. by rewrite Hi.
  - unfold settle. rewrite Hi. cbn. intros ns k Hk. destruct (He ns k Hk) as (x & Hx & En & Hr). destruct (decide (k = i)) as [->|Hne].
    + rewrite Hi in Hx. injection Hx as <-. eexists. split; [apply list_lookup_insert_eq; by eapply lookup_lt_Some | done].
    + exists x. cbn. split; [by rewrite list_lookup_insert_ne by congruence | done].
Qed.

Lemma failed_extends i d e s : promises s !! i = Some d -> settled (d_state d) = false -> extends s (creation_failed i e s).
Proof. intros Hi Hs. unfold creation_failed. rewrite Hi. by apply (settle_extends i d (Rejected e) (mkProxyManager _ (promises s))). Qed.

Lemma failed_manager_inv i d e s : manager_inv s -> promises s !! i = Some d -> settled (d_state d) = false -> manager_inv (creation_failed i e s).
Proof.
  intros [Hwf He Hd] Hi Hs. unfold creation_failed. rewrite Hi.
  set (s1 := mkProxyManager _ (promises s)). assert (extends s s1) as E1 by (by intros k x Hx; exists x).
  pose proof (deferred_ok_settle i d (Rejected e) s1 Hi Hs (fun k x Hx => deferred_ok_extends s s1 x E1 (Hd k x Hx)) I) as Hd'.
  split; [| |done].
  - unfold settle. cbn. rewrite Hi. cbn. by apply js_map_delete_wf.
  - unfold settle. cbn. rewrite Hi. cbn. intros ns k. rewrite (js_map_get_delete _ string_same) by done. destruct (String.eqb _ ns) eqn:En; [done|].
    intros Hk. destruct (He ns k Hk) as (x & Hx & Ex & Hr). exists x. cbn. split; [|done]. rewrite list_lookup_insert_ne; [done|]. intros ->.
    rewrite Hi in Hx. injection Hx as <-. rewrite Ex in En. by rewrite String.eqb_refl in En.
Qed.

Lemma get_extends name serviceName b s : extends s (getOrCreateProxy name serviceName b s).2.
Proof.
  unfold getOrCreateProxy. destruct (js_map_get _ _ _); [apply extends_refl|]. intros i d Hd. exists d. cbn.
  split_and!; [by apply lookup_app_l_Some | done | done | done].
Qed.

(** The promise that is returned is for the name. *)
Lemma get_promise name serviceName b s : manager_inv s -> let '(i, s') := getOrCreateProxy name serviceName b s in
  js_map_get String.eqb (proxies s') (full_name serviceName name) = Some i /\
  (js_map_get String.eqb (proxies s) (full_name serviceName name) = None ->
   promises s' !! i = Some (mkDeferred serviceName name (Creating b))).
Proof.
  intros Hi. unfold getOrCreateProxy. destruct (js_map_get _ _ _) as [i|] eqn:E; [done|]. cbn.
  rewrite (js_map_get_set _ string_same), String.eqb_refl. split; [done|]. intros _. by apply list_lookup_middle.
Qed.

Lemma get_inv name serviceName b s : manager_inv s -> manager_inv (getOrCreateProxy name serviceName b s).2.
Proof.
  intros Hi. pose proof (get_extends name serviceName b s) as Hx. unfold getOrCreateProxy in *. destruct (js_map_get _ _ _) as [i|] eqn:E; [done|].
  destruct Hi as [Hwf He Hd]. cbn in *. split; cbn.
  - by apply js_map_set_wf.
  - intros ns k. rewrite (js_map_get_set _ string_same). destruct (String.eqb _ ns) eqn:En.
    + intros [= <-]. apply string_same in En as <-. eexists. cbn. split; [by apply list_lookup_middle | done].
    + intros Hk. destruct (He ns k Hk) as (x & Hl & ?). exists x. split; [by apply lookup_app_l_Some | done].
  - intros k x. cbn. rewrite lookup_app_Some. intros [Hl|[Hge Hl]].
    + eapply deferred_ok_extends; [exact Hx|]. by apply (Hd k).
    + destruct (k - length (promises s))%nat as [|n]; cbn in Hl; [|done]. by injection Hl as <-.
Qed.

Lemma delete_manager_inv ns s : manager_inv s -> manager_inv (mkProxyManager (js_map_delete String.eqb (proxies s) ns).2 (promises s)).
Proof.
  intros [Hwf He Hd]. split; cbn; [by apply js_map_delete_wf | | done].
  intros k i. rewrite (js_map_get_delete _ string_same) by done. destruct (String.eqb ns k); [done | apply He].
Qed.

Lemma class_of_plain serviceName nc c : class_of serviceName nc = Ok c -> exists nearCached, class_of serviceName (Ok nearCached) = Ok c.
Proof.
  unfold class_of. destruct (String.eqb serviceName MAP_SERVICE); [|intros E; by exists false]. destruct nc as [b|e]; [by exists b | done].
Qed.

(** A service name has no separator, so that the entries of the map tell the service and the name. *)
Lemma split_at_app c sn name : ~ In c (String.list_ascii_of_string sn) -> split_at c (sn +:+ String c name) = Some (sn, name).
Proof.
  induction sn as [|a sn IH]; intros Hn.
  - change (split_at c (String c name) = Some (EmptyString, name)). cbn [split_at]. by rewrite Ascii.eqb_refl.
  - change (split_at c (String a (sn +:+ String c name)) = Some (String a sn, name)). cbn [split_at]. cbn in Hn.
    destruct (Ascii.eqb_spec a c) as [->|Hne]; [destruct Hn; by left|]. rewrite IH; [done | auto].
Qed.

Lemma split_full sn name : no_separator sn = true -> split_at NAMESPACE_SEPARATOR (full_name sn name) = Some (sn, name).
Proof.
  intros Hn. apply split_at_app. intros Hin. unfold no_separator in Hn. rewrite List.forallb_forall in Hn. specialize (Hn _ Hin).
  by rewrite Ascii.eqb_refl in Hn.
Qed.

Lemma full_name_inj sn name sn' name' : no_separator sn = true -> no_separator sn' = true ->
  full_name sn name = full_name sn' name' -> sn = sn' /\ name = name'.
Proof.
  intros H1 H2 E. pose proof (split_full sn name H1) as E1. rewrite E, (split_full sn' name' H2) in E1. by injection E1 as -> ->.
Qed.

Definition names_ok s : Prop := Forall (fun d => no_separator (d_service d) = true) (promises s).

Lemma names_settle i st s : names_ok s -> names_ok (settle i st s).
Proof.
  intros Hn. unfold settle. destruct (promises s !! i) as [d|] eqn:Hi; [|done]. apply Forall_insert; [done|]. cbn.
  by apply (Forall_lookup_1 _ _ _ _ Hn Hi).
Qed.

Lemma names_get name serviceName b s : no_separator serviceName = true -> names_ok s -> names_ok (getOrCreateProxy name serviceName b s).2.
Proof.
  intros Hs Hn. unfold getOrCreateProxy. destruct (js_map_get _ _ _); [done|]. apply Forall_app. split; [done|]. constructor; [done | constructor].
Qed.

(** The promise of an entry is of the service and name of the entry. *)
Lemma entry_names name serviceName s i : manager_inv s -> names_ok s -> no_separator serviceName = true ->
  js_map_get String.eqb (proxies s) (full_name serviceName name) = Some i ->
  exists d, promises s !! i = Some d /\ d_service d = serviceName /\ d_name d = name /\ (forall e, d_state d <> Rejected e).
Proof.
  intros Hi Hn Hs Hg. destruct (mi_entries s Hi _ _ Hg) as (d & Hd & En & Hr). exists d.
  destruct (full_name_inj _ _ _ _ (Forall_lookup_1 _ _ _ _ Hn Hd) Hs En) as [-> ->]. done.
Qed.

Lemma initialize_inv i sn name b nc con s : manager_inv s -> names_ok s -> promises s !! i = Some (mkDeferred sn name (Creating b)) ->
  let s' := initializeLocalProxy i nc con s in manager_inv s' /\ names_ok s' /\ extends s s'.
Proof.
  intros Hi Hn Hd. unfold initializeLocalProxy. rewrite Hd.
  destruct (class ← class_of sn nc; _ ← con; Ok class) as [class|e] eqn:Ec.
  2:{ split_and!; [by eapply failed_manager_inv | | by eapply failed_extends]. unfold creation_failed. rewrite Hd. by apply names_settle. }
  assert (exists nearCached, class_of sn (Ok nearCached) = Ok class) as Hc.
  { destruct (class_of sn nc) as [c|] eqn:E; [|done]. destruct con; [|done]. injection Ec as ->. by eapply class_of_plain. }
  destruct (String.eqb sn RELIABLETOPIC_SERVICE) eqn:Es.
  - apply string_same in Es as ->.
    pose proof (get_inv (RINGBUFFER_PREFIX +:+ name) RINGBUFFER_SERVICE b s Hi) as Hi1.
    pose proof (names_get (RINGBUFFER_PREFIX +:+ name) RINGBUFFER_SERVICE b s eq_refl Hn) as Hn1.
    pose proof (get_extends (RINGBUFFER_PREFIX +:+ name) RINGBUFFER_SERVICE b s) as Hx1.
    pose proof (get_promise (RINGBUFFER_PREFIX +:+ name) RINGBUFFER_SERVICE b s Hi) as Hg.
    assert (promises (getOrCreateProxy (RINGBUFFER_PREFIX +:+ name) RINGBUFFER_SERVICE b s).2 !! i = Some (mkDeferred RELIABLETOPIC_SERVICE name (Creating b))) as Hd1.
    { unfold getOrCreateProxy. destruct (js_map_get _ _ _); [done|]. by apply lookup_app_l_Some. }
    destruct (getOrCreateProxy (RINGBUFFER_PREFIX +:+ name) RINGBUFFER_SERVICE b s) as [j s1]. cbn [fst snd] in *. destruct Hg as [Hg _].
    destruct (entry_names _ RINGBUFFER_SERVICE s1 j Hi1 Hn1 eq_refl Hg) as (r & Hr & Er & Er' & _).
    split_and!; [eapply settle_inv; [done | done | done | done |] | by apply names_settle | eapply extends_trans; [done | by eapply settle_extends]].
    split_and!; [done | by split_and! | by exists r].
  - split_and!; [eapply settle_inv; [done | done | done | done |] | by apply names_settle | by eapply settle_extends].
    split; [by split_and!|]. cbn. intros E. by rewrite E in Es.
Qed.

Lemma ringbuffer_settled_inv i s : manager_inv s -> names_ok s ->
  let s' := ringbuffer_settled i s in manager_inv s' /\ names_ok s' /\ extends s s'.
Proof.
  intros Hi Hn. unfold ringbuffer_settled. destruct (promises s !! i) as [[sn name [ |o j| |]]|] eqn:Hd; try (split_and!; [done | done | apply extends_refl]).
  pose proof (mi_deferred s Hi i _ Hd) as Hok. cbn in Hok. destruct Hok as (Es & Ho & Hr).
  destruct (promises s !! j) as [[sn' name' [ | |o'|e]]|] eqn:Hj; try (split_and!; [done | done | apply extends_refl]).
  - split_and!; [eapply settle_inv; [done | done | done | done |] | by apply names_settle | by eapply settle_extends].
    split; [|done]. by destruct Ho as (? & ? & ?).
  - split_and!; [by eapply failed_manager_inv | | by eapply failed_extends]. unfold creation_failed. rewrite Hd. by apply names_settle.
Qed.

Lemma step_manager_inv s s' : manager_inv s -> names_ok s -> step s s' -> manager_inv s' /\ names_ok s' /\ extends s s'.
Proof.
  intros Hi Hn Hstep. destruct Hstep.
  - split_and!; [by apply get_inv | by apply names_get | apply get_extends].
  - split_and!; [by apply delete_manager_inv | done | intros k x Hx; by exists x].
  - unfold destroyProxyLocally. destruct (js_map_get _ _ _); split_and!; [by apply delete_manager_inv | done | intros k x Hx; by exists x | done | done | apply extends_refl].
  - split_and!; [| done | intros k x Hx; by exists x]. destruct Hi as [? ? ?]. by split.
  - by eapply initialize_inv.
  - split_and!; [by eapply failed_manager_inv | | by eapply failed_extends]. unfold creation_failed. rewrite H. by apply names_settle.
  - by apply ringbuffer_settled_inv.
Qed.

Lemma reachable_manager s : reachable s -> manager_inv s /\ names_ok s.
Proof.
  intros Hs. refine (rtc_ind_r (fun s => manager_inv s /\ names_ok s) new_manager _ _ s Hs).
  - split; [by split | constructor].
  - intros x y _ Hstep [H1 H2]. by destruct (step_manager_inv x y H1 H2 Hstep) as (? & ? & _).
Qed.

(** ** Pending promises *)

Lemma settle_lookup i d st s : promises s !! i = Some d -> promises (settle i st s) !! i = Some (mkDeferred (d_service d) (d_name d) st).
Proof. intros Hd. unfold settle. rewrite Hd. apply list_lookup_insert_eq. by eapply lookup_lt_Some. Qed.

Lemma settle_other i k st s : k <> i -> promises (settle i st s) !! k = promises s !! k.
Proof. intros Hne. unfold settle. destruct (promises s !! i); [|done]. cbn. by rewrite list_lookup_insert_ne by congruence. Qed.

(** A proxy of a service that the client has, and that is not a topic, is resolved when the member has answered. *)
Lemma simple_resolved i sn name b class s : promises s !! i = Some (mkDeferred sn name (Creating b)) -> sn <> RELIABLETOPIC_SERVICE ->
  class_of sn (Ok false) = Ok class -> exists s', step s s' /\
    promises s' !! i = Some (mkDeferred sn name (Resolved (mkObject class sn name None))) /\ (forall k, k <> i -> promises s' !! k = promises s !! k).
Proof.
  intros Hd Hne Hc. eexists. split; [by apply (object_created s i sn name b (Ok false) (Ok ()))|]. unfold initializeLocalProxy. rewrite Hd, Hc.
  cbn [mbind res_bind]. destruct (String.eqb sn RELIABLETOPIC_SERVICE) eqn:E; [by apply string_same in E|].
  split; [by apply (settle_lookup i _ _ s Hd)|]. intros k Hk. by rewrite (settle_other i k _ s Hk).
Qed.

Lemma awaiting_settles i sn name o j s : manager_inv s -> promises s !! i = Some (mkDeferred sn name (AwaitingRingbuffer o j)) -> exists s' d,
  rtc step s s' /\ promises s' !! i = Some d /\ settled (d_state d) = true.
Proof.
  intros Hi Hd. pose proof (mi_deferred s Hi i _ Hd) as Hok. cbn in Hok. destruct Hok as (Es & _ & r & Hj & Er & En).
  assert (forall s1, promises s1 !! i = Some (mkDeferred sn name (AwaitingRingbuffer o j)) -> (exists rs rn st, promises s1 !! j = Some (mkDeferred rs rn st) /\ settled st = true) ->
    exists s' d, rtc step s1 s' /\ promises s' !! i = Some d /\ settled (d_state d) = true) as Hlast.
  { intros s1 Hd1 (rs & rn & st & Hj1 & Hst). destruct st as [| |o'|e]; try done; eexists _, _; split; [apply rtc_once; by eapply ringbuffer_called| | apply rtc_once; by eapply ringbuffer_called|].
    all: unfold ringbuffer_settled; rewrite Hd1, Hj1.
    - split; [by apply (settle_lookup i _ _ s1 Hd1) | done].
    - unfold creation_failed. rewrite Hd1. split; [by apply (settle_lookup i _ _ (mkProxyManager _ (promises s1)) Hd1) | done]. }
  destruct r as [rs rn [b|o' j'|o'|e]]; cbn in Er, En.
  - assert (i <> j) as Hne by (intros ->; rewrite Hd in Hj; discriminate Hj).
    destruct (simple_resolved j rs rn b RingbufferProxy s Hj) as (s1 & S1 & Hj1 & Hoth); [by rewrite Er | by rewrite Er |].
    destruct (Hlast s1) as (s' & d & S2 & Hd' & Hset); [rewrite Hoth by done; done | by eexists _, _, _ |]. exists s', d. split; [by eapply rtc_l | done].
  - pose proof (mi_deferred s Hi j _ Hj) as Hokj. cbn in Hokj. destruct Hokj as (E & _). rewrite Er in E. discriminate E.
  - apply Hlast; [done|]. by eexists _, _, _.
  - apply Hlast; [done|]. by eexists _, _, _.
Qed.

Lemma pending_settles i d s : manager_inv s -> names_ok s -> promises s !! i = Some d -> exists s' d',
  rtc step s s' /\ promises s' !! i = Some d' /\ settled (d_state d') = true.
Proof.
  intros Hi Hn Hd. destruct d as [sn name [b|o j|o|e]]; [|by eapply awaiting_settles | by eexists _, _ | by eexists _, _].
  pose proof (object_created s i sn name b (Ok false) (Ok ()) Hd) as S1.
  destruct (step_manager_inv s _ Hi Hn S1) as (Hi1 & Hn1 & Hx). destruct (Hx i _ Hd) as (d1 & Hd1 & Es & En & _).
  set (s1 := initializeLocalProxy i (Ok false) (Ok ()) s) in *.
  assert (forall b', d_state d1 <> Creating b') as Hnc.
  { intros b' Eb. unfold s1, initializeLocalProxy in Hd1. rewrite Hd in Hd1. destruct (class_of sn (Ok false)) as [c|e]; cbn [mbind res_bind] in Hd1.
    - destruct (String.eqb sn RELIABLETOPIC_SERVICE).
      + destruct (getOrCreateProxy (RINGBUFFER_PREFIX +:+ name) RINGBUFFER_SERVICE b s) as [j s2] eqn:Eg.
        assert (promises s2 !! i = Some (mkDeferred sn name (Creating b))) as Hd2.
        { replace s2 with (getOrCreateProxy (RINGBUFFER_PREFIX +:+ name) RINGBUFFER_SERVICE b s).2 by (by rewrite Eg).
          unfold getOrCreateProxy. destruct (js_map_get _ _ _); [done|]. by apply lookup_app_l_Some. }
        rewrite (settle_lookup i _ _ s2 Hd2) in Hd1. injection Hd1 as <-. discriminate Eb.
      + rewrite (settle_lookup i _ _ s Hd) in Hd1. injection Hd1 as <-. discriminate Eb.
    - unfold creation_failed in Hd1. rewrite Hd in Hd1. erewrite settle_lookup in Hd1 by exact Hd. injection Hd1 as <-. discriminate Eb. }
  destruct d1 as [sn1 name1 [b1|o1 j1|o1|e1]]; cbn in Hnc; [by destruct (Hnc b1) | | |].
  - destruct (awaiting_settles i sn1 name1 o1 j1 s1 Hi1 Hd1) as (s' & d' & S2 & Hd' & Hset). exists s', d'. split; [by eapply rtc_l | done].
  - eexists s1, _. split; [by apply rtc_once | done].
  - eexists s1, _. split; [by apply rtc_once | done].
Qed.

(** What is sent to a cluster that lost the objects. *)
Lemma recreated_names s : manager_inv s -> names_ok s ->
  Forall2 (fun i e => exists d, promises s !! i = Some d /\ e = (d_name d, d_service d)) (getDistributedObjects s) (createDistributedObjectsOnCluster s).
Proof.
  intros Hi Hn. unfold getDistributedObjects, createDistributedObjectsOnCluster. apply Forall2_fmap. apply Forall_Forall2_diag.
  apply Forall_forall. intros [ns i] Hin. cbn. pose proof (js_map_get_elem _ string_same _ _ _ (mi_wf s Hi) Hin) as Hg.
  destruct (mi_entries s Hi ns i Hg) as (d & Hd & <- & _). exists d. split; [done|]. by rewrite (split_full _ _ (Forall_lookup_1 _ _ _ _ Hn Hd)).
Qed.

(** ** Properties *)

(** C20: the promises of proxies. In every state that is reached, an entry of the map has a promise that was made for its service and
    name and was not rejected, so that a failure is never handed to later callers; callers get the same promise while there is an
    entry, and a new one otherwise; a proxy that a promise was resolved with is of the class of its service, and a topic has the
    ringbuffer of its name. A promise that is settled is never changed, and one that is pending can always be settled. What is
    created again on another cluster are exactly the names and services of the entries. *)
Theorem one_promise_per_name (s : ProxyManager) : reachable s ->
  (forall name serviceName b, no_separator serviceName = true -> let '(i, s') := getOrCreateProxy name serviceName b s in
     (exists d, promises s' !! i = Some d /\ d_service d = serviceName /\ d_name d = name /\ (forall e, d_state d <> Rejected e)) /\
     forall b', getOrCreateProxy name serviceName b' s' = (i, s')) /\
  (forall i d o, promises s !! i = Some d -> d_state d = Resolved o ->
     do_service o = d_service d /\ do_name o = d_name d /\ (exists nearCached, class_of (d_service d) (Ok nearCached) = Ok (do_class o)) /\
     (d_service d = RELIABLETOPIC_SERVICE -> exists j, do_ringbuffer o = Some j /\ is_ringbuffer s (d_name d) j)) /\
  (forall s', step s s' -> extends s s') /\
  (forall i d, promises s !! i = Some d -> exists s' d', rtc step s s' /\ promises s' !! i = Some d' /\ settled (d_state d') = true) /\
  Forall2 (fun i e => exists d, promises s !! i = Some d /\ e = (d_name d, d_service d)) (getDistributedObjects s) (createDistributedObjectsOnCluster s).
Proof.
  intros Hs. destruct (reachable_manager s Hs) as [Hi Hn]. split_and!.
  - intros name sn b Hsn. pose proof (get_promise name sn b s Hi) as Hg. pose proof (get_inv name sn b s Hi) as Hi'.
    pose proof (names_get name sn b s Hsn Hn) as Hn'. destruct (getOrCreateProxy name sn b s) as [i s']. destruct Hg as [Hg _].
    split; [by apply (entry_names name sn s' i)|]. intros b'. unfold getOrCreateProxy. cbn in Hg. by rewrite Hg.
  - intros i d o Hd Eo. pose proof (mi_deferred s Hi i d Hd) as Hok. unfold deferred_ok in Hok. rewrite Eo in Hok. destruct Hok as [(? & ? & ?) Hr].
    split_and!; [done | done | done |]. intros Es. destruct (do_ringbuffer o) as [j|]; [by exists j | done].
  - intros s' Hstep. by apply (step_manager_inv s s').
  - intros i d Hd. by eapply pending_settles.
  - by apply recreated_names.
Qed.

(** A creation that fails removes the entry of its name, also when it is the entry of a later creation. *)
Lemma stale_failure_removes_entry : exists s, reachable s /\
  promises s !! 0%nat = Some (mkDeferred MAP_SERVICE "m" (Creating true)) /\
  js_map_get String.eqb (proxies s) (full_name MAP_SERVICE "m") = Some 1%nat /\
  js_map_get String.eqb (proxies (creation_failed 0 Error s)) (full_name MAP_SERVICE "m") = None.
Proof.
  eexists. split.
  - eapply rtc_l; [by apply (does_get _ "m" MAP_SERVICE true)|]. eapply rtc_l; [apply (does_destroy _ "m" MAP_SERVICE)|].
    eapply rtc_l; [by apply (does_get _ "m" MAP_SERVICE true)|]. apply rtc_refl.
  - by vm_compute.
Qed.

(** A reliable topic that is destroyed destroys its ringbuffer only ([ReliableTopicProxy.destroy] calls [destroyProxy] for the ringbuffer): the
    topic stays in the map, and later callers get the destroyed one. *)
Lemma destroyed_topic_stays name s i : js_map_get String.eqb (proxies s) (full_name RELIABLETOPIC_SERVICE name) = Some i -> js_map_wf String.eqb (proxies s) ->
  js_map_get String.eqb (proxies (destroyProxy (RINGBUFFER_PREFIX +:+ name) RINGBUFFER_SERVICE s)) (full_name RELIABLETOPIC_SERVICE name) = Some i.
Proof.
  intros Hg Hwf. unfold destroyProxy. cbn [proxies]. rewrite (js_map_get_delete _ string_same) by done.
  destruct (String.eqb _ _) eqn:E; [|done]. apply string_same in E. by destruct (full_name_inj RINGBUFFER_SERVICE _ RELIABLETOPIC_SERVICE _ eq_refl eq_refl E).
Qed.

(** The promise for an object of a service that the client has no proxy for is rejected, and with it [HazelcastClient.getDistributedObjects],
    which asks for a proxy of every object of the cluster. *)
Lemma unknown_service_rejected i sn name b con s : promises s !! i = Some (mkDeferred sn name (Creating b)) ->
  js_map_get String.eqb service sn = None -> exists d, promises (initializeLocalProxy i (Ok false) con s) !! i = Some d /\ d_state d = Rejected TypeError.
Proof.
  intros Hd Hs. unfold initializeLocalProxy. rewrite Hd. unfold class_of.
  assert ((nearCached ← (if String.eqb sn MAP_SERVICE then Ok false else Ok false : res bool);
    if nearCached : bool then Ok NearCachedMapProxy else match js_map_get String.eqb service sn with Some c => Ok c | None => Err TypeError end) = Err TypeError) as ->
    by (destruct (String.eqb sn MAP_SERVICE); cbn [mbind res_bind]; by rewrite Hs).
  cbn [mbind res_bind]. unfold creation_failed. rewrite Hd. eexists. split; [by apply settle_lookup | done].
Qed.

(** ** Witnesses *)

Lemma one_promise_per_name_witness : let '(i, s') := getOrCreateProxy "m" MAP_SERVICE true new_manager in
  i = 0%nat /\ forall b', getOrCreateProxy "m" MAP_SERVICE b' s' = (i, s').
Proof.
  destruct (one_promise_per_name new_manager (rtc_refl step new_manager)) as (Hget & _).
  pose proof (Hget "m" MAP_SERVICE true eq_refl) as Hm. destruct (getOrCreateProxy "m" MAP_SERVICE true new_manager) as [i s'] eqn:E.
  destruct Hm as [_ Hsame]. split; [|exact Hsame]. injection E as <- _. reflexivity.
Defined.
