(* ===== verification/Portable.v ===== *)
(** * Portable serialization

    The files of [src/serialization/portable/] and the types of [src/serialization/Portable.ts]. A portable is
    an object that names its fields: [PortableSerializer] writes them behind a table of their positions, and a reader finds
    a field by its name, through the definition of the class. Definitions are kept in [PortableContext]; those that are
    not known are made from the object that is written ([ClassDefinitionWriter]) or from the bytes that are read.

    The classes of the user are data here: a [Portable] is its ids and the calls its [writePortable] makes of
    the writer, in order; a [PortableClass] is what a factory returns, with the calls its [readPortable] makes of the reader.
    A [ReadObject] is an object of such a class with what these calls returned.

    A name is a sequence of UTF-16 code units. The key that [encodeVersionedClassId] makes of two numbers is the pair of them.
    The context survives an error: [St] returns it in either case. *)

From S2P Require Import ConfigLookup.
From S2P Require Export ObjectData.
#[local] Open Scope Z_scope.

Abbreviation js_string := (list Z).

(** ** Types *)

Inductive FieldType :=
  | PORTABLE | BYTE | BOOLEAN | CHAR | SHORT | INT | LONG | FLOAT | DOUBLE | STRING
  | PORTABLE_ARRAY | BYTE_ARRAY | BOOLEAN_ARRAY | CHAR_ARRAY | SHORT_ARRAY | INT_ARRAY | LONG_ARRAY | FLOAT_ARRAY
  | DOUBLE_ARRAY | STRING_ARRAY.
Definition FieldType_value (t : FieldType) : Z :=
  match t with
  | PORTABLE => 0 | BYTE => 1 | BOOLEAN => 2 | CHAR => 3 | SHORT => 4 | INT => 5 | LONG => 6 | FLOAT => 7 | DOUBLE => 8
  | STRING => 9 | PORTABLE_ARRAY => 10 | BYTE_ARRAY => 11 | BOOLEAN_ARRAY => 12 | CHAR_ARRAY => 13 | SHORT_ARRAY => 14
  | INT_ARRAY => 15 | LONG_ARRAY => 16 | FLOAT_ARRAY => 17 | DOUBLE_ARRAY => 18 | STRING_ARRAY => 19
  end.
#[global] Instance FieldType_eq_dec : EqDecision FieldType.
Proof. solve_decision. Defined.

(** The values of the fields that are not portables. *)
Inductive Simple {L : Type} :=
  | VByte (x : Z) | VBoolean (x : bool) | VChar (x : Z) | VShort (x : Z) | VInt (x : Z) | VLong (x : L)
  | VFloat (x : js_number) | VDouble (x : js_number) | VString (x : option string)
  | VByteArray (x : option buffer) | VBooleanArray (x : option (list bool)) | VCharArray (x : option (list Z))
  | VShortArray (x : option (list Z)) | VIntArray (x : option (list Z)) | VLongArray (x : option (list L))
  | VFloatArray (x : option (list js_number)) | VDoubleArray (x : option (list js_number))
  | VStringArray (x : option (list (option string))).
Arguments Simple : clear implicits.

(** An object and the calls its [writePortable] makes. *)
Inductive Portable {L : Type} :=
  | mkPortable (factoryId classId : Z) (version : option Z) (fields : list (js_string * Value))
with Value {L : Type} :=
  | WSimple (s : Simple L)
  | WPortable (p : option Portable)
  | WNullPortable (factoryId classId : Z)
  | WPortableArray (ps : option (list Portable)).
Arguments Portable : clear implicits.
Arguments Value : clear implicits.

Definition p_factoryId {L} (p : Portable L) : Z := match p with mkPortable f _ _ _ => f end.
Definition p_classId {L} (p : Portable L) : Z := match p with mkPortable _ c _ _ => c end.
Definition p_version {L} (p : Portable L) : option Z := match p with mkPortable _ _ v _ => v end.
Definition p_fields {L} (p : Portable L) : list (js_string * Value L) := match p with mkPortable _ _ _ fs => fs end.

(** What a factory returns, and an object of it that has been read. *)
Record PortableClass := mkPortableClass { c_version : option Z; c_reads : list (js_string * FieldType) }.

Inductive ReadObject {L : Type} :=
  | mkRead (class : PortableClass) (fields : list (js_string * ReadValue))
with ReadValue {L : Type} :=
  | RUndefined
  | RSimple (s : Simple L)
  | RPortable (p : option ReadObject)
  | RPortableArray (ps : option (list ReadObject)).
Arguments ReadObject : clear implicits.
Arguments ReadValue : clear implicits.

(** The bytes of [Buffer.from(s)]; half of a surrogate pair becomes U+FFFD. *)
Definition utf8_3 (c : Z) : list Z := [0xE0 + c / 0x1000; 0x80 + c / 0x40 mod 0x40; 0x80 + c mod 0x40].
Fixpoint utf8 (s : js_string) : list Z :=
  match s with
  | [] => []
  | u :: rest =>
      if u <? 0x80 then u :: utf8 rest
      else if u <? 0x800 then (0xC0 + u / 0x40) :: (0x80 + u mod 0x40) :: utf8 rest
      else if (0xD800 <=? u) && (u <? 0xDC00) then
        match rest with
        | v :: rest' =>
            if (0xDC00 <=? v) && (v <? 0xE000) then
              let c := 0x10000 + (u - 0xD800) * 0x400 + (v - 0xDC00) in
              (0xF0 + c / 0x40000) :: (0x80 + c / 0x1000 mod 0x40) :: (0x80 + c / 0x40 mod 0x40) :: (0x80 + c mod 0x40) :: utf8 rest'
            else utf8_3 0xFFFD ++ utf8 rest
        | [] => utf8_3 0xFFFD
        end
      else if (0xDC00 <=? u) && (u <? 0xE000) then utf8_3 0xFFFD ++ utf8 rest
      else utf8_3 u ++ utf8 rest
  end.
Definition Buffer_from (s : js_string) : buffer := utf8 s ≫= le_split 1.

(** ** Definitions of classes *)

Record FieldDefinition := mkField {
  fd_index : Z; fd_name : js_string; fd_type : Z; fd_version : Z; fd_factoryId : Z; fd_classId : Z }.
#[global] Instance FieldDefinition_eq_dec : EqDecision FieldDefinition.
Proof. solve_decision. Defined.

(** [fields] is read by name and counted; its order is not used. *)
Record ClassDefinition := mkClass {
  cd_factoryId : Z; cd_classId : Z; cd_version : Z; cd_fields : gmap js_string FieldDefinition }.

(** What a property of [fields] is: a definition, what every object inherits, or nothing. *)
Inductive field_property := OwnField (f : FieldDefinition) | InheritedField | NoField.

Module ClassDef.
Section ClassDef.
Context `{Prototype}.

Definition addFieldDefinition (definition : FieldDefinition) (cd : ClassDefinition) : ClassDefinition :=
  mkClass (cd_factoryId cd) (cd_classId cd) (cd_version cd) (<[fd_name definition := definition]> (cd_fields cd)).
Definition getFieldCount (cd : ClassDefinition) : Z := Z.of_nat (size (cd_fields cd)).
Definition getField (name : js_string) (cd : ClassDefinition) : field_property :=
  match cd_fields cd !! name with
  | Some f => OwnField f
  | None => if inherited name then InheritedField else NoField
  end.
Definition hasField (name : js_string) (cd : ClassDefinition) : bool :=
  match getField name cd with NoField => false | _ => true end.
Definition getFieldType (name : js_string) (cd : ClassDefinition) : res Z :=
  match getField name cd with OwnField f => Ok (fd_type f) | InheritedField => Err TypeError | NoField => Err RangeError end.

(** Calling a method of what [getField] returned. *)
Definition the_field (name : js_string) (cd : ClassDefinition) : res FieldDefinition :=
  match getField name cd with OwnField f => Ok f | _ => Err TypeError end.

Definition equals (o cd : ClassDefinition) : bool :=
  (cd_factoryId o =? cd_factoryId cd) && (cd_classId o =? cd_classId cd) && (cd_version o =? cd_version cd) &&
  bool_decide (cd_fields o = cd_fields cd).
End ClassDef.
End ClassDef.

Module Builder.
Record t := mk { b_factoryId : Z; b_classId : Z; b_version : Z; fieldDefinitions : list FieldDefinition; index : Z; done : bool }.

Definition new (factoryId classId version : Z) : t := mk factoryId classId version [] 0 false.

Definition addField (fieldDefinition : FieldDefinition) (b : t) : res t :=
  if done b then Err HazelcastError
  else if negb (index b =? fd_index fieldDefinition) then Err RangeError
  else Ok (mk (b_factoryId b) (b_classId b) (b_version b) (fieldDefinitions b ++ [fieldDefinition]) (index b + 1) (done b)).

(** A field that is not a portable; the ids are the default ones. *)
Definition add (type : FieldType) (fieldName : js_string) (b : t) : res t :=
  addField (mkField (index b) fieldName (FieldType_value type) (b_version b) 0 0) b.
Definition addByteField := add BYTE.
Definition addBooleanField := add BOOLEAN.
Definition addCharField := add CHAR.
Definition addShortField := add SHORT.
Definition addIntField := add INT.
Definition addLongField := add LONG.
Definition addFloatField := add FLOAT.
Definition addDoubleField := add DOUBLE.
Definition addStringField := add STRING.
Definition addUTFField := addStringField.
Definition addByteArrayField := add BYTE_ARRAY.
Definition addBooleanArrayField := add BOOLEAN_ARRAY.
Definition addCharArrayField := add CHAR_ARRAY.
Definition addShortArrayField := add SHORT_ARRAY.
Definition addIntArrayField := add INT_ARRAY.
Definition addLongArrayField := add LONG_ARRAY.
Definition addFloatArrayField := add FLOAT_ARRAY.
Definition addDoubleArrayField := add DOUBLE_ARRAY.
Definition addStringArrayField := add STRING_ARRAY.
Definition addUTFArrayField := addStringArrayField.

Definition addPortableField (fieldName : js_string) (def : ClassDefinition) (b : t) : res t :=
  if cd_classId def =? 0 then Err RangeError
  else addField (mkField (index b) fieldName (FieldType_value PORTABLE) (cd_version def) (cd_factoryId def) (cd_classId def)) b.
Definition addPortableArrayField (fieldName : js_string) (def : ClassDefinition) (b : t) : res t :=
  if cd_classId def =? 0 then Err RangeError
  else addField (mkField (index b) fieldName (FieldType_value PORTABLE_ARRAY) (cd_version def) (cd_factoryId def) (cd_classId def)) b.

Definition build (b : t) : ClassDefinition * t :=
  (foldl (fun cd fd => ClassDef.addFieldDefinition fd cd) (mkClass (b_factoryId b) (b_classId b) (b_version b) ∅) (fieldDefinitions b),
   mk (b_factoryId b) (b_classId b) (b_version b) (fieldDefinitions b) (index b) true).
End Builder.

(** ** Contexts *)

Module ClassDefinitionContext.
Record t := mk { factoryId : Z; classDefs : gmap (Z * Z) ClassDefinition }.

Definition new (factoryId : Z) : t := mk factoryId ∅.
Definition encodeVersionedClassId (classId version : Z) : Z * Z := (classId, version).
Definition lookup (classId version : Z) (c : t) : option ClassDefinition := classDefs c !! encodeVersionedClassId classId version.
Definition register (classDefinition : ClassDefinition) (c : t) : res ClassDefinition * t :=
  if negb (cd_factoryId classDefinition =? factoryId c) then (Err HazelcastError, c)
  else
    let cdKey := encodeVersionedClassId (cd_classId classDefinition) (cd_version classDefinition) in
    match classDefs c !! cdKey with
    | None => (Ok classDefinition, mk (factoryId c) (<[cdKey := classDefinition]> (classDefs c)))
    | Some current =>
        if negb (ClassDef.equals classDefinition current) then (Err HazelcastError, c) else (Ok classDefinition, c)
    end.
End ClassDefinitionContext.

Record PortableContext := mkContext { pc_version : Z; classDefContext : gmap Z ClassDefinitionContext.t }.

(** Computations that use the context. *)
Definition St (A : Type) : Type := PortableContext -> res A * PortableContext.
#[global] Instance St_ret : MRet St := fun A a c => (Ok a, c).
#[global] Instance St_bind : MBind St := fun A B f m c =>
  match m c with (Ok a, c) => f a c | (Err e, c) => (Err e, c) end.
Definition throw {A} (e : js_error) : St A := fun c => (Err e, c).
Definition lift {A} (r : res A) : St A := fun c => (r, c).

Definition context_getVersion : St Z := fun c => (Ok (pc_version c), c).
Definition lookupClassDefinition (factoryId classId version : Z) (c : PortableContext) : option ClassDefinition :=
  factory ← classDefContext c !! factoryId; ClassDefinitionContext.lookup classId version factory.
Definition registerClassDefinition (classDefinition : ClassDefinition) : St ClassDefinition := fun c =>
  let factoryId := cd_factoryId classDefinition in
  let factory := default (ClassDefinitionContext.new factoryId) (classDefContext c !! factoryId) in
  let '(r, factory) := ClassDefinitionContext.register classDefinition factory in
  (r, mkContext (pc_version c) (<[factoryId := factory]> (classDefContext c))).
(** The argument is the [version] of a portable, if it has one. *)
Definition getClassVersion (version : option Z) : St Z :=
  match version with
  | Some v => if v <? 0 then throw RangeError else mret v
  | None => context_getVersion
  end.

(** ** ClassDefinitionWriter

    The calls of [writePortable] define the fields. The state of the writer is its builder. *)

Module ClassDefinitionWriter.
Section ClassDefinitionWriter.
Context {L : Type}.
Implicit Types fieldName : js_string.

Definition writeInt fieldName (value : Z) := Builder.addIntField fieldName.
Definition writeLong fieldName (long : L) := Builder.addLongField fieldName.
Definition writeString fieldName (str : option string) := Builder.addStringField fieldName.
Definition writeUTF := writeString.
Definition writeBoolean fieldName (value : bool) := Builder.addBooleanField fieldName.
Definition writeByte fieldName (value : Z) := Builder.addByteField fieldName.
Definition writeChar fieldName (char : Z) := Builder.addCharField fieldName.
Definition writeDouble fieldName (double : js_number) := Builder.addDoubleField fieldName.
Definition writeFloat fieldName (float : js_number) := Builder.addFloatField fieldName.
Definition writeShort fieldName (value : Z) := Builder.addShortField fieldName.
Definition writeByteArray fieldName (bytes : option buffer) := Builder.addByteArrayField fieldName.
Definition writeBooleanArray fieldName (booleans : option (list bool)) := Builder.addBooleanArrayField fieldName.
Definition writeCharArray fieldName (chars : option (list Z)) := Builder.addCharArrayField fieldName.
Definition writeIntArray fieldName (ints : option (list Z)) := Builder.addIntArrayField fieldName.
Definition writeLongArray fieldName (longs : option (list L)) := Builder.addLongArrayField fieldName.
Definition writeDoubleArray fieldName (doubles : option (list js_number)) := Builder.addDoubleArrayField fieldName.
Definition writeFloatArray fieldName (floats : option (list js_number)) := Builder.addFloatArrayField fieldName.
Definition writeShortArray fieldName (shorts : option (list Z)) := Builder.addShortArrayField fieldName.
Definition writeStringArray fieldName (val : option (list (option string))) := Builder.addStringArrayField fieldName.
Definition writeUTFArray := writeStringArray.

(** The method that is called for a value. *)
Definition write_simple fieldName (s : Simple L) : Builder.t -> res Builder.t :=
  match s with
  | VByte x => writeByte fieldName x
  | VBoolean x => writeBoolean fieldName x
  | VChar x => writeChar fieldName x
  | VShort x => writeShort fieldName x
  | VInt x => writeInt fieldName x
  | VLong x => writeLong fieldName x
  | VFloat x => writeFloat fieldName x
  | VDouble x => writeDouble fieldName x
  | VString x => writeString fieldName x
  | VByteArray x => writeByteArray fieldName x
  | VBooleanArray x => writeBooleanArray fieldName x
  | VCharArray x => writeCharArray fieldName x
  | VShortArray x => writeShortArray fieldName x
  | VIntArray x => writeIntArray fieldName x
  | VLongArray x => writeLongArray fieldName x
  | VFloatArray x => writeFloatArray fieldName x
  | VDoubleArray x => writeDoubleArray fieldName x
  | VStringArray x => writeStringArray fieldName x
  end.

Section Nested.
(** [portable.writePortable(writer)] of the portables inside. *)
Variable define : Portable L -> Builder.t -> St Builder.t.

Definition createNestedClassDef (portable : Portable L) (nestedBuilder : Builder.t) : St ClassDefinition :=
  nestedBuilder ← define portable nestedBuilder;
  registerClassDefinition (Builder.build nestedBuilder).1.

Definition writePortable fieldName (portable : option (Portable L)) (b : Builder.t) : St Builder.t :=
  match portable with
  | None => throw HazelcastError
  | Some portable =>
      version ← getClassVersion (p_version portable);
      nestedClassDef ← createNestedClassDef portable (Builder.new (p_factoryId portable) (p_classId portable) version);
      lift (Builder.addPortableField fieldName nestedClassDef b)
  end.

Definition writeNullPortable fieldName (factoryId classId : Z) (b : Builder.t) : St Builder.t := fun c =>
  match lookupClassDefinition factoryId classId (pc_version c) c with
  | None => (Err HazelcastError, c)
  | Some nestedClassDef => (Builder.addPortableField fieldName nestedClassDef b, c)
  end.

Definition writePortableArray fieldName (portables : option (list (Portable L))) (b : Builder.t) : St Builder.t :=
  match portables with
  | None | Some [] => throw HazelcastError
  | Some (portable :: others) =>
      if forallb (fun q => p_classId q =? p_classId portable) others then
        version ← getClassVersion (p_version portable);
        nestedClassDef ← createNestedClassDef portable (Builder.new (p_factoryId portable) (p_classId portable) version);
        lift (Builder.addPortableArrayField fieldName nestedClassDef b)
      else throw RangeError
  end.

(** The calls of [writePortable]. *)
Definition write fieldName (v : Value L) (b : Builder.t) : St Builder.t :=
  match v with
  | WSimple s => lift (write_simple fieldName s b)
  | WPortable p => writePortable fieldName p b
  | WNullPortable factoryId classId => writeNullPortable fieldName factoryId classId b
  | WPortableArray ps => writePortableArray fieldName ps b
  end.
Fixpoint write_all (fields : list (js_string * Value L)) (b : Builder.t) : St Builder.t :=
  match fields with
  | [] => mret b
  | (fieldName, v) :: fields => b ← write fieldName v b; write_all fields b
  end.
End Nested.

Fixpoint define (portable : Portable L) : Builder.t -> St Builder.t :=
  match portable with mkPortable _ _ _ fields => write_all define fields end.

Definition registerAndGet (b : Builder.t) : St ClassDefinition := registerClassDefinition (Builder.build b).1.
End ClassDefinitionWriter.
End ClassDefinitionWriter.

Definition lookupOrRegisterClassDefinition {L} (portable : Portable L) : St ClassDefinition :=
  portableVersion ← getClassVersion (p_version portable);
  c ← (fun c => (Ok c, c));
  match lookupClassDefinition (p_factoryId portable) (p_classId portable) portableVersion c with
  | Some cd => mret cd
  | None =>
      b ← ClassDefinitionWriter.define portable (Builder.new (p_factoryId portable) (p_classId portable) portableVersion);
      ClassDefinitionWriter.registerAndGet b
  end.

(** ** DefaultPortableWriter *)

Module DefaultPortableWriter.
Section DefaultPortableWriter.
Context `{Uninit} `{Prototype} {L : Type} `{LongLib L}.
Record t := mk { classDefinition : ClassDefinition; offset : Z; begin : Z }.
Implicit Types (fieldName : js_string) (w : t) (output : ObjectDataOutput).

Definition new (cd : ClassDefinition) output : res (t * ObjectDataOutput) :=
  let begin := o_pos output in
  output ← Output.writeZeroBytes 4 output;
  output ← Output.writeInt (ClassDef.getFieldCount cd) output;
  let offset := o_pos output in
  let fieldIndexesLength := (ClassDef.getFieldCount cd + 1) * INT_SIZE_IN_BYTES in
  output ← Output.writeZeroBytes fieldIndexesLength output;
  Ok (mk cd offset begin, output).

Definition setPosition fieldName (fieldType : FieldType) w output : res (FieldDefinition * ObjectDataOutput) :=
  field ← ClassDef.the_field fieldName (classDefinition w);
  let pos := o_pos output in
  output ← Positional.pwriteInt (offset w + fd_index field * INT_SIZE_IN_BYTES) pos output;
  output ← Output.writeShort (Z.of_nat (length fieldName)) output;
  output ← Output.writeBuffer (Buffer_from fieldName) output;
  output ← Output.writeByte (FieldType_value fieldType) output;
  Ok (field, output).

(** The methods for values that are not portables: the position of the field, then the value. *)
Definition field fieldName (fieldType : FieldType) w (value : Out) : Out := fun output =>
  '(_, output) ← setPosition fieldName fieldType w output; value output.
Definition writeInt fieldName w value := field fieldName INT w (Output.writeInt value).
Definition writeLong fieldName w (long : L) := field fieldName LONG w (Output.writeLong long).
Definition writeString fieldName w str := field fieldName STRING w (Output.writeString str).
Definition writeUTF := writeString.
Definition writeBoolean fieldName w value := field fieldName BOOLEAN w (Output.writeBoolean value).
Definition writeByte fieldName w value := field fieldName BYTE w (Output.writeByte value).
Definition writeChar fieldName w char := field fieldName CHAR w (Output.writeChar char).
Definition writeDouble fieldName w double := field fieldName DOUBLE w (Output.writeDouble double).
Definition writeFloat fieldName w float := field fieldName FLOAT w (Output.writeFloat float).
Definition writeShort fieldName w value := field fieldName SHORT w (Output.writeShort value).
Definition writeByteArray fieldName w bytes := field fieldName BYTE_ARRAY w (Output.writeByteArray bytes).
Definition writeBooleanArray fieldName w booleans := field fieldName BOOLEAN_ARRAY w (Output.writeBooleanArray booleans).
Definition writeCharArray fieldName w chars := field fieldName CHAR_ARRAY w (Output.writeCharArray chars).
Definition writeIntArray fieldName w ints := field fieldName INT_ARRAY w (Output.writeIntArray ints).
Definition writeLongArray fieldName w (longs : option (list L)) := field fieldName LONG_ARRAY w (Output.writeLongArray longs).
Definition writeDoubleArray fieldName w doubles := field fieldName DOUBLE_ARRAY w (Output.writeDoubleArray doubles).
Definition writeFloatArray fieldName w floats := field fieldName FLOAT_ARRAY w (Output.writeFloatArray floats).
Definition writeShortArray fieldName w shorts := field fieldName SHORT_ARRAY w (Output.writeShortArray shorts).
Definition writeStringArray fieldName w val := field fieldName STRING_ARRAY w (Output.writeStringArray val).
Definition writeUTFArray := writeStringArray.

Definition write_simple fieldName w (s : Simple L) : Out :=
  match s with
  | VByte x => writeByte fieldName w x
  | VBoolean x => writeBoolean fieldName w x
  | VChar x => writeChar fieldName w x
  | VShort x => writeShort fieldName w x
  | VInt x => writeInt fieldName w x
  | VLong x => writeLong fieldName w x
  | VFloat x => writeFloat fieldName w x
  | VDouble x => writeDouble fieldName w x
  | VString x => writeString fieldName w x
  | VByteArray x => writeByteArray fieldName w x
  | VBooleanArray x => writeBooleanArray fieldName w x
  | VCharArray x => writeCharArray fieldName w x
  | VShortArray x => writeShortArray fieldName w x
  | VIntArray x => writeIntArray fieldName w x
  | VLongArray x => writeLongArray fieldName w x
  | VFloatArray x => writeFloatArray fieldName w x
  | VDoubleArray x => writeDoubleArray fieldName w x
  | VStringArray x => writeStringArray fieldName w x
  end.

Section Nested.
(** [this.serializer.writeObject]. *)
Variable writeObject : Portable L -> ObjectDataOutput -> St ObjectDataOutput.

Definition writePortable fieldName w (portable : option (Portable L)) output : St ObjectDataOutput :=
  '(fieldDefinition, output) ← lift (setPosition fieldName PORTABLE w output);
  output ← lift (Output.writeBoolean (bool_decide (portable = None)) output);
  output ← lift (Output.writeInt (fd_factoryId fieldDefinition) output);
  output ← lift (Output.writeInt (fd_classId fieldDefinition) output);
  match portable with
  | Some portable => writeObject portable output
  | None => mret output
  end.

Definition writeNullPortable fieldName w (factoryId classId : Z) : Out := fun output =>
  '(_, output) ← setPosition fieldName PORTABLE w output;
  output ← Output.writeBoolean true output;
  output ← Output.writeInt factoryId output;
  Output.writeInt classId output.

(** The loop over the elements; [i] counts them. *)
Fixpoint write_elements (innerOffset i : Z) (portables : list (Portable L)) output : St ObjectDataOutput :=
  match portables with
  | [] => mret output
  | sample :: portables =>
      let posVal := o_pos output in
      output ← lift (Positional.pwriteInt (innerOffset + i * INT_SIZE_IN_BYTES) posVal output);
      output ← writeObject sample output;
      write_elements innerOffset (i + 1) portables output
  end.
Definition writePortableArray fieldName w (portables : option (list (Portable L))) output : St ObjectDataOutput :=
  '(fieldDefinition, output) ← lift (setPosition fieldName PORTABLE_ARRAY w output);
  let len := Output.array_length portables in
  output ← lift (Output.writeInt len output);
  output ← lift (Output.writeInt (fd_factoryId fieldDefinition) output);
  output ← lift (Output.writeInt (fd_classId fieldDefinition) output);
  match portables with
  | Some (portable :: others) =>
      let innerOffset := o_pos output in
      output ← lift (Output.writeZeroBytes (len * 4) output);
      write_elements innerOffset 0 (portable :: others) output
  | _ => mret output
  end.

Definition write fieldName w (v : Value L) output : St ObjectDataOutput :=
  match v with
  | WSimple s => lift (write_simple fieldName w s output)
  | WPortable p => writePortable fieldName w p output
  | WNullPortable factoryId classId => lift (writeNullPortable fieldName w factoryId classId output)
  | WPortableArray ps => writePortableArray fieldName w ps output
  end.
Fixpoint write_all w (fields : list (js_string * Value L)) output : St ObjectDataOutput :=
  match fields with
  | [] => mret output
  | (fieldName, v) :: fields => output ← write fieldName w v output; write_all w fields output
  end.
End Nested.

Definition end_ w : Out := fun output =>
  let position := o_pos output in Positional.pwriteInt (begin w) position output.
End DefaultPortableWriter.
End DefaultPortableWriter.

(** ** DefaultPortableReader *)

Module DefaultPortableReader.
Section DefaultPortableReader.
Context `{Prototype} {L : Type} `{LongLib L}.
Record t := mk { classDefinition : ClassDefinition; offset : Z; finalPos : Z; raw : bool }.
Implicit Types (fieldName : js_string) (r : t) (input : ObjectDataInput).

(** The constructor, with [initFinalPositionAndOffset]. *)
Definition new (cd : ClassDefinition) : Reader t := fun input =>
  '(finalPos, input) ← Input.readInt None input;
  '(fieldCount, input) ← Input.readInt None input;
  let expectedFieldCount := ClassDef.getFieldCount cd in
  if negb (fieldCount =? expectedFieldCount) then Err IllegalStateError
  else Ok (mk cd (i_pos input) finalPos false, input).

Definition getVersion r : Z := cd_version (classDefinition r).
Definition hasField fieldName r : bool := ClassDef.hasField fieldName (classDefinition r).
Definition getFieldType fieldName r : res Z := ClassDef.getFieldType fieldName (classDefinition r).

(** The argument is what [getField] returned; [raw] is checked before a method of it is called. *)
Definition positionByFieldDefinition (field : res FieldDefinition) r input : res Z :=
  if raw r then Err IllegalStateError
  else
    field ← field;
    '(pos, input) ← Input.readInt (Some (offset r + fd_index field * INT_SIZE_IN_BYTES)) input;
    '(len, input) ← Input.readShort (Some pos) input;
    Ok (pos + SHORT_SIZE_IN_BYTES + len + 1).
Definition positionByField fieldName r input : res Z :=
  positionByFieldDefinition (ClassDef.the_field fieldName (classDefinition r)) r input.

(** The methods for values that are not portables. *)
Definition field {A} fieldName r (read : option Z -> Reader A) : Reader A := fun input =>
  pos ← positionByField fieldName r input; read (Some pos) input.
Definition readInt fieldName r := field fieldName r Input.readInt.
Definition readLong fieldName r := field fieldName r (Input.readLong (L := L)).
Definition readString fieldName r := field fieldName r Input.readString.
Definition readUTF := readString.
Definition readBoolean fieldName r := field fieldName r Input.readBoolean.
Definition readByte fieldName r := field fieldName r Input.readByte.
Definition readChar fieldName r := field fieldName r Input.readChar.
Definition readDouble fieldName r := field fieldName r Input.readDouble.
Definition readFloat fieldName r := field fieldName r Input.readFloat.
Definition readShort fieldName r := field fieldName r Input.readShort.
Definition readByteArray fieldName r := field fieldName r Input.readByteArray.
Definition readBooleanArray fieldName r := field fieldName r Input.readBooleanArray.
Definition readCharArray fieldName r := field fieldName r Input.readCharArray.
Definition readIntArray fieldName r := field fieldName r Input.readIntArray.
Definition readLongArray fieldName r := field fieldName r (Input.readLongArray (L := L)).
Definition readDoubleArray fieldName r := field fieldName r Input.readDoubleArray.
Definition readFloatArray fieldName r := field fieldName r Input.readFloatArray.
Definition readShortArray fieldName r := field fieldName r Input.readShortArray.
Definition readStringArray fieldName r := field fieldName r Input.readStringArray.
Definition readUTFArray := readStringArray.

Section Nested.
(** [this.serializer.readObject]. *)
Variable readObject : ObjectDataInput -> Z -> Z -> St (ReadObject L * ObjectDataInput).

Definition readPortable fieldName r input : St (option (ReadObject L) * ObjectDataInput) :=
  let backupPos := i_pos input in
  pos ← lift (positionByField fieldName r input);
  let input := Input.set_pos pos input in
  '(isNull, input) ← lift (Input.readBoolean None input);
  '(factoryId, input) ← lift (Input.readInt None input);
  '(classId, input) ← lift (Input.readInt None input);
  if isNull : bool then mret (None, Input.set_pos backupPos input)
  else '(p, input) ← readObject input factoryId classId; mret (Some p, Input.set_pos backupPos input).

(** The loop over the elements: [n] of them, from number [i]. *)
Fixpoint read_elements (offset factoryId classId : Z) (n : nat) (i : Z) input : St (list (ReadObject L) * ObjectDataInput) :=
  match n with
  | O => mret ([], input)
  | S n =>
      '(start, input) ← lift (Input.readInt (Some (offset + i * INT_SIZE_IN_BYTES)) input);
      let input := Input.set_pos start input in
      '(p, input) ← readObject input factoryId classId;
      '(ps, input) ← read_elements offset factoryId classId n (i + 1) input;
      mret (p :: ps, input)
  end.
Definition readPortableArray fieldName r input : St (option (list (ReadObject L)) * ObjectDataInput) :=
  let backupPos := i_pos input in
  pos ← lift (positionByField fieldName r input);
  let input := Input.set_pos pos input in
  '(len, input) ← lift (Input.readInt None input);
  '(factoryId, input) ← lift (Input.readInt None input);
  '(classId, input) ← lift (Input.readInt None input);
  if len =? NULL_ARRAY_LENGTH then mret (None, Input.set_pos backupPos input)
  else
    '(portables, input) ← read_elements (i_pos input) factoryId classId (Z.to_nat len) 0 input;
    mret (Some portables, Input.set_pos backupPos input).
End Nested.

Definition getRawDataInput r input : res (t * ObjectDataInput) :=
  if raw r then Ok (r, input)
  else
    '(pos, input) ← Input.readInt (Some (offset r + ClassDef.getFieldCount (classDefinition r) * INT_SIZE_IN_BYTES)) input;
    Ok (mk (classDefinition r) (offset r) (finalPos r) true, Input.set_pos pos input).

Definition end_ r input : ObjectDataInput := Input.set_pos (finalPos r) input.
End DefaultPortableReader.
End DefaultPortableReader.

(** ** MorphingPortableReader

    Reads the fields of another version of the class: a field that is not there is [undefined], a number may be narrower
    than the one asked for. *)

Module MorphingPortableReader.
Section MorphingPortableReader.
Context `{Prototype} {L : Type} `{LongLib L} (toNumber : L -> js_number).
Implicit Types (fieldName : js_string) (r : DefaultPortableReader.t) (input : ObjectDataInput).

(** [some] and [conv] say what is returned: the value, or what is made of it. *)
Definition conv {A B} (f : A -> B) (read : Reader A) : Reader (option B) := fun input =>
  '(x, input) ← read input; Ok (Some (f x), input).
Definition some {A} (read : Reader A) : Reader (option A) := conv id read.
Definition createIncompatibleClassChangeError {A} : Reader A := fun _ => Err TypeError.

(** [getField] and the switch on the type of what it returns. *)
Definition by_type {A} fieldName r (switch : Z -> Reader (option A)) : Reader (option A) := fun input =>
  match ClassDef.getField fieldName (DefaultPortableReader.classDefinition r) with
  | NoField => Ok (None, input)
  | InheritedField => Err TypeError
  | OwnField fieldDef => switch (fd_type fieldDef) input
  end.
Definition has (type : Z) (t : FieldType) : bool := type =? FieldType_value t.

Definition readInt fieldName r : Reader (option Z) := by_type fieldName r (fun type =>
  if has type INT then some (DefaultPortableReader.readInt fieldName r)
  else if has type BYTE then some (DefaultPortableReader.readByte fieldName r)
  else if has type CHAR then some (DefaultPortableReader.readChar fieldName r)
  else if has type SHORT then some (DefaultPortableReader.readShort fieldName r)
  else createIncompatibleClassChangeError).

Definition readLong fieldName r : Reader (option L) := by_type fieldName r (fun type =>
  if has type LONG then some (DefaultPortableReader.readLong fieldName r)
  else if has type INT then conv long_of_Z (DefaultPortableReader.readInt fieldName r)
  else if has type BYTE then conv long_of_Z (DefaultPortableReader.readByte fieldName r)
  else if has type CHAR then conv long_of_Z (DefaultPortableReader.readChar fieldName r)
  else if has type SHORT then conv long_of_Z (DefaultPortableReader.readShort fieldName r)
  else createIncompatibleClassChangeError).

Definition readDouble fieldName r : Reader (option js_number) := by_type fieldName r (fun type =>
  if has type DOUBLE then some (DefaultPortableReader.readDouble fieldName r)
  else if has type LONG then conv toNumber (DefaultPortableReader.readLong fieldName r)
  else if has type FLOAT then some (DefaultPortableReader.readFloat fieldName r)
  else if has type INT then conv num_of_Z (DefaultPortableReader.readInt fieldName r)
  else if has type BYTE then conv num_of_Z (DefaultPortableReader.readByte fieldName r)
  else if has type CHAR then conv num_of_Z (DefaultPortableReader.readChar fieldName r)
  else if has type SHORT then conv num_of_Z (DefaultPortableReader.readShort fieldName r)
  else createIncompatibleClassChangeError).

Definition readFloat fieldName r : Reader (option js_number) := by_type fieldName r (fun type =>
  if has type FLOAT then some (DefaultPortableReader.readFloat fieldName r)
  else if has type INT then conv num_of_Z (DefaultPortableReader.readInt fieldName r)
  else if has type BYTE then conv num_of_Z (DefaultPortableReader.readByte fieldName r)
  else if has type CHAR then conv num_of_Z (DefaultPortableReader.readChar fieldName r)
  else if has type SHORT then conv num_of_Z (DefaultPortableReader.readShort fieldName r)
  else createIncompatibleClassChangeError).

Definition readShort fieldName r : Reader (option Z) := by_type fieldName r (fun type =>
  if has type BYTE then some (DefaultPortableReader.readByte fieldName r)
  else if has type SHORT then some (DefaultPortableReader.readShort fieldName r)
  else createIncompatibleClassChangeError).

Definition validateCompatibleAndRead {A} fieldName (expectedType : FieldType) r (readFn : Reader A) : Reader (option A) :=
  by_type fieldName r (fun type => if has type expectedType then some readFn else createIncompatibleClassChangeError).
Definition readStringArray fieldName r := validateCompatibleAndRead fieldName STRING_ARRAY r (DefaultPortableReader.readStringArray fieldName r).
Definition readUTFArray := readStringArray.
Definition readShortArray fieldName r := validateCompatibleAndRead fieldName SHORT_ARRAY r (DefaultPortableReader.readShortArray fieldName r).
Definition readFloatArray fieldName r := validateCompatibleAndRead fieldName FLOAT_ARRAY r (DefaultPortableReader.readFloatArray fieldName r).
Definition readDoubleArray fieldName r := validateCompatibleAndRead fieldName DOUBLE_ARRAY r (DefaultPortableReader.readDoubleArray fieldName r).
Definition readLongArray fieldName r := validateCompatibleAndRead fieldName LONG_ARRAY r (DefaultPortableReader.readLongArray (L := L) fieldName r).
Definition readIntArray fieldName r := validateCompatibleAndRead fieldName INT_ARRAY r (DefaultPortableReader.readIntArray fieldName r).
Definition readCharArray fieldName r := validateCompatibleAndRead fieldName CHAR_ARRAY r (DefaultPortableReader.readCharArray fieldName r).
Definition readBooleanArray fieldName r := validateCompatibleAndRead fieldName BOOLEAN_ARRAY r (DefaultPortableReader.readBooleanArray fieldName r).
Definition readByteArray fieldName r := validateCompatibleAndRead fieldName BYTE_ARRAY r (DefaultPortableReader.readByteArray fieldName r).
Definition readChar fieldName r := validateCompatibleAndRead fieldName CHAR r (DefaultPortableReader.readChar fieldName r).
Definition readByte fieldName r := validateCompatibleAndRead fieldName BYTE r (DefaultPortableReader.readByte fieldName r).
Definition readBoolean fieldName r := validateCompatibleAndRead fieldName BOOLEAN r (DefaultPortableReader.readBoolean fieldName r).
Definition readString fieldName r := validateCompatibleAndRead fieldName STRING r (DefaultPortableReader.readString fieldName r).
Definition readUTF := readString.

(** [readPortableArray] is validated too; [readPortable] is the inherited one. *)
Definition readPortableArray (readObject : ObjectDataInput -> Z -> Z -> St (ReadObject L * ObjectDataInput)) fieldName r input :
    St (option (option (list (ReadObject L))) * ObjectDataInput) :=
  match ClassDef.getField fieldName (DefaultPortableReader.classDefinition r) with
  | NoField => mret (None, input)
  | InheritedField => throw TypeError
  | OwnField fd =>
      if has (fd_type fd) PORTABLE_ARRAY then
        '(ps, input) ← DefaultPortableReader.readPortableArray readObject fieldName r input; mret (Some ps, input)
      else throw TypeError
  end.
End MorphingPortableReader.
End MorphingPortableReader.

(** ** Definitions read from the input *)

Section ReadDefinition.
Implicit Type input : ObjectDataInput.

(** [len] bytes, each a character. *)
Fixpoint read_chars (len : nat) input : res (js_string * ObjectDataInput) :=
  match len with
  | O => Ok ([], input)
  | S len => '(c, input) ← Input.readUnsignedByte None input; '(cs, input) ← read_chars len input; Ok (c :: cs, input)
  end.

(** The recursive call. *)
Variable rec : ObjectDataInput -> Z -> Z -> Z -> St (ClassDefinition * ObjectDataInput).

(** The part of the loop for a nested portable or array: whether to register, the ids and the version of the field. *)
Definition read_nested (type : Z) (register : bool) input : St (bool * Z * Z * Z * ObjectDataInput) :=
  version ← context_getVersion;
  if type =? FieldType_value PORTABLE then
    '(isNull, input) ← lift (Input.readBoolean None input);
    let register := if isNull : bool then false else register in
    '(fieldFactoryId, input) ← lift (Input.readInt None input);
    '(fieldClassId, input) ← lift (Input.readInt None input);
    if register : bool then
      '(fieldVersion, input) ← lift (Input.readInt None input);
      '(_, input) ← rec input fieldFactoryId fieldClassId fieldVersion;
      mret (register, fieldFactoryId, fieldClassId, fieldVersion, input)
    else mret (register, fieldFactoryId, fieldClassId, version, input)
  else if type =? FieldType_value PORTABLE_ARRAY then
    '(k, input) ← lift (Input.readInt None input);
    '(fieldFactoryId, input) ← lift (Input.readInt None input);
    '(fieldClassId, input) ← lift (Input.readInt None input);
    if k >? 0 then
      '(p, input) ← lift (Input.readInt None input);
      let input := Input.set_pos p input in
      '(fieldVersion, input) ← lift (Input.readInt None input);
      '(_, input) ← rec input fieldFactoryId fieldClassId fieldVersion;
      mret (register, fieldFactoryId, fieldClassId, fieldVersion, input)
    else mret (false, fieldFactoryId, fieldClassId, version, input)
  else mret (register, 0, 0, version, input).

(** The loop over the fields: [n] of them, from number [i]. *)
Fixpoint read_definitions (offset : Z) (n : nat) (i : Z) (register : bool) (builder : Builder.t) input :
    St (bool * Builder.t * ObjectDataInput) :=
  match n with
  | O => mret (register, builder, input)
  | S n =>
      '(pos, input) ← lift (Input.readInt (Some (offset + i * INT_SIZE_IN_BYTES)) input);
      let input := Input.set_pos pos input in
      '(len, input) ← lift (Input.readShort None input);
      '(name, input) ← lift (read_chars (Z.to_nat len) input);
      '(type, input) ← lift (Input.readByte None input);
      '(register, fieldFactoryId, fieldClassId, fieldVersion, input) ← read_nested type register input;
      builder ← lift (Builder.addField (mkField i name type fieldVersion fieldFactoryId fieldClassId) builder);
      read_definitions offset n (i + 1) register builder input
  end.
End ReadDefinition.

(** The depth of the nesting in the input is bounded by the fuel. *)
Fixpoint readClassDefinitionFromInput (fuel : nat) (input : ObjectDataInput) (factoryId classId version : Z) :
    St (ClassDefinition * ObjectDataInput) :=
  match fuel with
  | O => throw OutOfFuel
  | S fuel =>
      let builder := Builder.new factoryId classId version in
      '(_, input) ← lift (Input.readInt None input);
      '(fieldCount, input) ← lift (Input.readInt None input);
      '(register, builder, input) ←
        read_definitions (readClassDefinitionFromInput fuel) (i_pos input) (Z.to_nat fieldCount) 0 true builder input;
      let classDefinition := (Builder.build builder).1 in
      if register : bool then cd ← registerClassDefinition classDefinition; mret (cd, input)
      else mret (classDefinition, input)
  end.

(** ** PortableSerializer *)

Module PortableSerializer.
Section PortableSerializer.
Context `{Uninit} `{Prototype} {L : Type} `{LongLib L} (toNumber : L -> js_number) (factories : gmap Z (Z -> option PortableClass)).
Implicit Types (input : ObjectDataInput) (output : ObjectDataOutput).

Fixpoint writeObject (object : Portable L) : ObjectDataOutput -> St ObjectDataOutput :=
  match object with mkPortable factoryId classId version fields => fun output =>
    cd ← lookupOrRegisterClassDefinition (mkPortable factoryId classId version fields);
    output ← lift (Output.writeInt (cd_version cd) output);
    '(writer, output) ← lift (DefaultPortableWriter.new cd output);
    output ← DefaultPortableWriter.write_all writeObject writer fields output;
    lift (DefaultPortableWriter.end_ writer output)
  end.

Definition write (object : Portable L) output : St ObjectDataOutput :=
  output ← lift (Output.writeInt (p_factoryId object) output);
  output ← lift (Output.writeInt (p_classId object) output);
  writeObject object output.

Definition createNewPortableInstance (factoryId classId : Z) : res PortableClass :=
  match factories !! factoryId with
  | None => Err HazelcastError
  | Some factoryFn => match factoryFn classId with None => Err HazelcastError | Some portable => Ok portable end
  end.

(** A call of [readPortable]: of the method of the reader for the type. *)
Section ReadFields.
Variable readObject : ObjectDataInput -> Z -> Z -> St (ReadObject L * ObjectDataInput).

Definition value {A} (f : A -> Simple L) (r : Reader A) : Reader (ReadValue L) := fun input =>
  '(x, input) ← r input; Ok (RSimple (f x), input).
Definition or_undefined {A} (f : A -> Simple L) (r : Reader (option A)) : Reader (ReadValue L) := fun input =>
  '(x, input) ← r input; Ok (match x with Some x => RSimple (f x) | None => RUndefined end, input).

Definition read_default (t : FieldType) (name : js_string) (r : DefaultPortableReader.t) input : St (ReadValue L * ObjectDataInput) :=
  match t with
  | PORTABLE => '(p, input) ← DefaultPortableReader.readPortable readObject name r input; mret (RPortable p, input)
  | PORTABLE_ARRAY => '(ps, input) ← DefaultPortableReader.readPortableArray readObject name r input; mret (RPortableArray ps, input)
  | BYTE => lift (value VByte (DefaultPortableReader.readByte name r) input)
  | BOOLEAN => lift (value VBoolean (DefaultPortableReader.readBoolean name r) input)
  | CHAR => lift (value VChar (DefaultPortableReader.readChar name r) input)
  | SHORT => lift (value VShort (DefaultPortableReader.readShort name r) input)
  | INT => lift (value VInt (DefaultPortableReader.readInt name r) input)
  | LONG => lift (value VLong (DefaultPortableReader.readLong name r) input)
  | FLOAT => lift (value VFloat (DefaultPortableReader.readFloat name r) input)
  | DOUBLE => lift (value VDouble (DefaultPortableReader.readDouble name r) input)
  | STRING => lift (value VString (DefaultPortableReader.readString name r) input)
  | BYTE_ARRAY => lift (value VByteArray (DefaultPortableReader.readByteArray name r) input)
  | BOOLEAN_ARRAY => lift (value VBooleanArray (DefaultPortableReader.readBooleanArray name r) input)
  | CHAR_ARRAY => lift (value VCharArray (DefaultPortableReader.readCharArray name r) input)
  | SHORT_ARRAY => lift (value VShortArray (DefaultPortableReader.readShortArray name r) input)
  | INT_ARRAY => lift (value VIntArray (DefaultPortableReader.readIntArray name r) input)
  | LONG_ARRAY => lift (value VLongArray (DefaultPortableReader.readLongArray name r) input)
  | FLOAT_ARRAY => lift (value VFloatArray (DefaultPortableReader.readFloatArray name r) input)
  | DOUBLE_ARRAY => lift (value VDoubleArray (DefaultPortableReader.readDoubleArray name r) input)
  | STRING_ARRAY => lift (value VStringArray (DefaultPortableReader.readStringArray name r) input)
  end.

Definition read_morphing (t : FieldType) (name : js_string) (r : DefaultPortableReader.t) input : St (ReadValue L * ObjectDataInput) :=
  match t with
  | PORTABLE => '(p, input) ← DefaultPortableReader.readPortable readObject name r input; mret (RPortable p, input)
  | PORTABLE_ARRAY =>
      '(ps, input) ← MorphingPortableReader.readPortableArray readObject name r input;
      mret (match ps with Some ps => RPortableArray ps | None => RUndefined end, input)
  | BYTE => lift (or_undefined VByte (MorphingPortableReader.readByte name r) input)
  | BOOLEAN => lift (or_undefined VBoolean (MorphingPortableReader.readBoolean name r) input)
  | CHAR => lift (or_undefined VChar (MorphingPortableReader.readChar name r) input)
  | SHORT => lift (or_undefined VShort (MorphingPortableReader.readShort name r) input)
  | INT => lift (or_undefined VInt (MorphingPortableReader.readInt name r) input)
  | LONG => lift (or_undefined VLong (MorphingPortableReader.readLong name r) input)
  | FLOAT => lift (or_undefined VFloat (MorphingPortableReader.readFloat name r) input)
  | DOUBLE => lift (or_undefined VDouble (MorphingPortableReader.readDouble toNumber name r) input)
  | STRING => lift (or_undefined VString (MorphingPortableReader.readString name r) input)
  | BYTE_ARRAY => lift (or_undefined VByteArray (MorphingPortableReader.readByteArray name r) input)
  | BOOLEAN_ARRAY => lift (or_undefined VBooleanArray (MorphingPortableReader.readBooleanArray name r) input)
  | CHAR_ARRAY => lift (or_undefined VCharArray (MorphingPortableReader.readCharArray name r) input)
  | SHORT_ARRAY => lift (or_undefined VShortArray (MorphingPortableReader.readShortArray name r) input)
  | INT_ARRAY => lift (or_undefined VIntArray (MorphingPortableReader.readIntArray name r) input)
  | LONG_ARRAY => lift (or_undefined VLongArray (MorphingPortableReader.readLongArray name r) input)
  | FLOAT_ARRAY => lift (or_undefined VFloatArray (MorphingPortableReader.readFloatArray name r) input)
  | DOUBLE_ARRAY => lift (or_undefined VDoubleArray (MorphingPortableReader.readDoubleArray name r) input)
  | STRING_ARRAY => lift (or_undefined VStringArray (MorphingPortableReader.readStringArray name r) input)
  end.

(** [portable.readPortable(reader)]. *)
Fixpoint readPortable (morphing : bool) (r : DefaultPortableReader.t) (calls : list (js_string * FieldType)) input :
    St (list (js_string * ReadValue L) * ObjectDataInput) :=
  match calls with
  | [] => mret ([], input)
  | (name, t) :: calls =>
      '(v, input) ← (if morphing then read_morphing t name r input else read_default t name r input);
      '(vs, input) ← readPortable morphing r calls input;
      mret ((name, v) :: vs, input)
  end.
End ReadFields.

Fixpoint readObject (fuel : nat) input (factoryId classId : Z) : St (ReadObject L * ObjectDataInput) :=
  match fuel with
  | O => throw OutOfFuel
  | S fuel =>
      '(version, input) ← lift (Input.readInt None input);
      portable ← lift (createNewPortableInstance factoryId classId);
      c ← (fun c => (Ok c, c));
      '(classDefinition, input) ←
        match lookupClassDefinition factoryId classId version c with
        | Some cd => mret (cd, input)
        | None =>
            let backupPos := i_pos input in
            '(cd, input) ← readClassDefinitionFromInput (S fuel) input factoryId classId version;
            mret (cd, Input.set_pos backupPos input)
        end;
      classVersion ← getClassVersion (c_version portable);
      '(reader, input) ← lift (DefaultPortableReader.new classDefinition input);
      '(fields, input) ←
        readPortable (readObject fuel) (negb (cd_version classDefinition =? classVersion)) reader (c_reads portable) input;
      mret (mkRead portable fields, DefaultPortableReader.end_ reader input)
  end.

Definition read (fuel : nat) input : St (ReadObject L * ObjectDataInput) :=
  '(factoryId, input) ← lift (Input.readInt None input);
  '(classId, input) ← lift (Input.readInt None input);
  readObject fuel input factoryId classId.
End PortableSerializer.
End PortableSerializer.
Export PortableSerializer.
