(* ===== verification/PortableLayout.v ===== *)
(** * The layout of portables

    What [PortableSerializer.writeObject] writes, as a function of the object and of the position it is written at: the version,
    the end, the number of fields, the table of their positions, and the fields. The writer fills the table in
    while it writes the fields; the layout has it from the start. A [Schema] says which fields the objects of a class have, and
    the context of a serializer agrees with the schemas when every definition in it is the one a schema gives. *)

From S2P Require Import ConfigLookup.
From S2P Require Export Portable.
#[local] Open Scope Z_scope.

(** ** Schemas *)

Record FieldSchema := mkSchema { fs_name : js_string; fs_type : FieldType; fs_factoryId : Z; fs_classId : Z }.
Abbreviation Schema := (list FieldSchema).
Abbreviation Schemas := (Z -> Z -> option Schema).

Definition nested (t : FieldType) : bool := match t with PORTABLE | PORTABLE_ARRAY => true | _ => false end.

(** Names are in ASCII: of others the writer writes the wrong length ([wide_name_misread]). *)
Definition name_ok (name : js_string) : Prop := Z.of_nat (length name) < 2 ^ 15 /\ Forall (fun u => 0 <= u < 0x80) name.
Record field_schema_ok (s : FieldSchema) : Prop := {
  so_name : name_ok (fs_name s);
  so_factory : in_sint 32 (fs_factoryId s);
  so_class : in_sint 32 (fs_classId s);
  so_nested : nested (fs_type s) = true -> fs_classId s <> 0;
  so_simple : nested (fs_type s) = false -> fs_factoryId s = 0 /\ fs_classId s = 0;
}.
Definition schema_ok (sch : Schema) : Prop := NoDup (fs_name <$> sch) /\ Forall field_schema_ok sch.

(** ** Values *)

Section Values.
Context {L : Type}.

Definition simple_type (s : Simple L) : FieldType :=
  match s with
  | VByte _ => BYTE | VBoolean _ => BOOLEAN | VChar _ => CHAR | VShort _ => SHORT | VInt _ => INT | VLong _ => LONG
  | VFloat _ => FLOAT | VDouble _ => DOUBLE | VString _ => STRING | VByteArray _ => BYTE_ARRAY
  | VBooleanArray _ => BOOLEAN_ARRAY | VCharArray _ => CHAR_ARRAY | VShortArray _ => SHORT_ARRAY
  | VIntArray _ => INT_ARRAY | VLongArray _ => LONG_ARRAY | VFloatArray _ => FLOAT_ARRAY
  | VDoubleArray _ => DOUBLE_ARRAY | VStringArray _ => STRING_ARRAY
  end.

(** A byte that was written is read unsigned ([byte_reads_unsigned]). *)
Definition simple_ok (s : Simple L) : Prop :=
  match s with
  | VByte x => in_uint 8 x
  | VChar x => in_uint 16 x
  | VShort x => in_sint 16 x
  | VInt x => in_sint 32 x
  | VFloat x => fround x = x
  | VDouble x => num_valid x
  | VString x => string_valid x
  | VByteArray x => array_valid (fun _ => True) x
  | VBooleanArray x => array_valid (fun _ => True) x
  | VCharArray x => array_valid (in_uint 16) x
  | VShortArray x => array_valid (in_sint 16) x
  | VIntArray x => array_valid (in_sint 32) x
  | VLongArray x => array_valid (fun _ => True) x
  | VFloatArray x => array_valid (fun x => fround x = x) x
  | VDoubleArray x => array_valid num_valid x
  | VStringArray x => array_valid string_valid x
  | VBoolean _ | VLong _ => True
  end.

Definition value_type (v : Value L) : FieldType :=
  match v with
  | WSimple s => simple_type s
  | WPortable _ | WNullPortable _ _ => PORTABLE
  | WPortableArray _ => PORTABLE_ARRAY
  end.

(** [P] of the portables inside a value. *)
Definition inside (P : Portable L -> Prop) (v : Value L) : Prop :=
  match v with
  | WPortable (Some q) => P q
  | WPortableArray (Some qs) => foldr (fun q R => P q /\ R) True qs
  | _ => True
  end.

Lemma inside_array (P : Portable L -> Prop) qs : foldr (fun q R => P q /\ R) True qs <-> Forall P qs.
Proof. induction qs as [|q qs IH]; cbn; [done|]. by rewrite Forall_cons, IH. Qed.

Lemma inside_impl (P Q : Portable L -> Prop) v : inside (fun q => P q -> Q q) v -> inside P v -> inside Q v.
Proof.
  destruct v as [|[q|]| |[qs|]]; cbn; [done | auto | done | done | | done]. rewrite !inside_array. intros H1 H2.
  apply Forall_forall. intros q Hq. rewrite Forall_forall in H1, H2. auto.
Qed.

Lemma inside_and (P Q : Portable L -> Prop) v : inside P v -> inside Q v -> inside (fun q => P q /\ Q q) v.
Proof.
  destruct v as [|[q|]| |[qs|]]; cbn; [done | done | done | done | | done]. rewrite !inside_array.
  intros H1 H2. apply Forall_and. done.
Qed.

(** Induction over a portable and those inside it. *)
Section Induction.
Variable P : Portable L -> Prop.
Hypothesis step : forall f c v fields, Forall (fun x => inside P x.2) fields -> P (mkPortable f c v fields).

Fixpoint portable_rule (p : Portable L) : P p :=
  match p with
  | mkPortable f c v fields => step f c v fields
      ((fix go (fields : list (js_string * Value L)) : Forall (fun x => inside P x.2) fields :=
          match fields with
          | [] => Forall_nil_2 _
          | (name, v) :: fields => Forall_cons_2 (fun x => inside P x.2) (name, v) fields
              (match v return inside P v with
               | WSimple _ | WNullPortable _ _ | WPortable None | WPortableArray None => I
               | WPortable (Some q) => portable_rule q
               | WPortableArray (Some qs) =>
                   (fix all (qs : list (Portable L)) : foldr (fun q R => P q /\ R) True qs :=
                      match qs with [] => I | q :: qs => conj (portable_rule q) (all qs) end) qs
               end) (go fields)
          end) fields)
  end.
End Induction.
End Values.

(** ** The layout *)

Section Layout.
Context {A : Type} (enc : nat -> A -> Z -> buffer).

(** Elements one behind the other, from position [q] on: their positions and their bytes. *)
Fixpoint layout (k : nat) (xs : list A) (q : Z) : list Z * buffer :=
  match xs with
  | [] => ([], [])
  | x :: xs =>
      let b := enc k x q in
      let rest := layout (S k) xs (q + blen b) in (q :: rest.1, b ++ rest.2)
  end.
End Layout.

Section Encoding.
Context `{Uninit} {L : Type} `{LongLib L} (be : bool) (Σ : Schemas) (V : Z).

Definition int_bytes (z : Z) : buffer := in_order be (le_split 4 z).
Definition short_bytes (z : Z) : buffer := in_order be (le_split 2 z).
Definition byte_bytes (z : Z) : buffer := le_split 1 z.
Definition ints (zs : list Z) : buffer := zs ≫= int_bytes.

Definition simple_out (s : Simple L) : Out :=
  match s with
  | VByte x => Output.writeByte x
  | VBoolean x => Output.writeBoolean x
  | VChar x => Output.writeChar x
  | VShort x => Output.writeShort x
  | VInt x => Output.writeInt x
  | VLong x => Output.writeLong x
  | VFloat x => Output.writeFloat x
  | VDouble x => Output.writeDouble x
  | VString x => Output.writeString x
  | VByteArray x => Output.writeByteArray x
  | VBooleanArray x => Output.writeBooleanArray x
  | VCharArray x => Output.writeCharArray x
  | VShortArray x => Output.writeShortArray x
  | VIntArray x => Output.writeIntArray x
  | VLongArray x => Output.writeLongArray x
  | VFloatArray x => Output.writeFloatArray x
  | VDoubleArray x => Output.writeDoubleArray x
  | VStringArray x => Output.writeStringArray x
  end.
(** The bytes of a value: what is written to an empty output. *)
Definition simple_bytes (s : Simple L) : buffer :=
  match simple_out s (Output.new be) with Ok o => out_bytes o | Err _ => [] end.

Definition value_bytes (object_bytes : Portable L -> Z -> buffer) (s : FieldSchema) (v : Value L) (pos : Z) : buffer :=
  match v with
  | WSimple x => simple_bytes x
  | WPortable None => byte_bytes 1 ++ int_bytes (fs_factoryId s) ++ int_bytes (fs_classId s)
  | WPortable (Some q) => byte_bytes 0 ++ int_bytes (fs_factoryId s) ++ int_bytes (fs_classId s) ++ object_bytes q (pos + 9)
  | WNullPortable f c => byte_bytes 1 ++ int_bytes f ++ int_bytes c
  | WPortableArray None => int_bytes (-1) ++ int_bytes (fs_factoryId s) ++ int_bytes (fs_classId s)
  | WPortableArray (Some qs) =>
      let n := Z.of_nat (length qs) in
      let parts := layout (fun _ => object_bytes) 0 qs (pos + 12 + 4 * n) in
      int_bytes n ++ int_bytes (fs_factoryId s) ++ int_bytes (fs_classId s) ++ ints parts.1 ++ parts.2
  end.

Definition field_header (name : js_string) (t : FieldType) : buffer :=
  short_bytes (Z.of_nat (length name)) ++ Buffer_from name ++ byte_bytes (FieldType_value t).
Definition field_bytes object_bytes (sch : Schema) (k : nat) (x : js_string * Value L) (pos : Z) : buffer :=
  let header := field_header x.1 (value_type x.2) in
  let s := default (mkSchema [] PORTABLE 0 0) (sch !! k) in
  header ++ value_bytes object_bytes s x.2 (pos + blen header).

Definition schema_of (f c : Z) : Schema := default [] (Σ f c).
Fixpoint object_bytes (p : Portable L) (pos : Z) : buffer :=
  match p with
  | mkPortable f c _ fields =>
      let n := Z.of_nat (length fields) in
      let start := pos + 12 + 4 * (n + 1) in
      let parts := layout (field_bytes object_bytes (schema_of f c)) 0 fields start in
      int_bytes V ++ int_bytes (start + blen parts.2) ++ int_bytes n ++ ints (parts.1 ++ [0]) ++ parts.2
  end.

(** ** Objects that have the fields of their schema *)

(** The version of the object is that of the client, or the object says the same. *)
Definition version_ok (v : option Z) : Prop := v = None \/ v = Some V.

Definition value_ok (s : FieldSchema) (v : Value L) : Prop :=
  fs_type s = value_type v /\
  match v with
  | WSimple x => simple_ok x
  | WPortable (Some q) => p_factoryId q = fs_factoryId s /\ p_classId q = fs_classId s
  | WNullPortable f c => f = fs_factoryId s /\ c = fs_classId s
  | WPortableArray (Some qs) => size_ok qs /\ Forall (fun q => p_factoryId q = fs_factoryId s /\ p_classId q = fs_classId s) qs
  | _ => True
  end.

(** Every object inside is of a class with a schema and has its fields, in its order. *)
Fixpoint conforms (p : Portable L) : Prop :=
  match p with
  | mkPortable f c v fields =>
      version_ok v /\ (exists sch, Σ f c = Some sch /\ schema_ok sch /\ (fst <$> fields) = (fs_name <$> sch) /\
        Forall2 (fun x s => value_ok s x.2) fields sch) /\
      foldr (fun x R => inside conforms x.2 /\ R) True fields
  end.

Fixpoint depth (p : Portable L) : nat :=
  match p with
  | mkPortable _ _ _ fields => S (foldr (fun x d => Nat.max d (match x.2 with
      | WPortable (Some q) => depth q
      | WPortableArray (Some qs) => foldr (fun q d => Nat.max d (depth q)) O qs
      | _ => O
      end)) O fields)
  end.

(** ** The definition of a class *)

(** The version of a field is that of the class inside it, or that of the serializer's context, [W]. *)
Definition field_of (W : Z) (k : nat) (s : FieldSchema) : FieldDefinition :=
  mkField (Z.of_nat k) (fs_name s) (FieldType_value (fs_type s)) (if nested (fs_type s) then V else W) (fs_factoryId s) (fs_classId s).
Definition fields_of (W : Z) (sch : Schema) : list FieldDefinition := imap (field_of W) sch.
Definition built (f c : Z) (fds : list FieldDefinition) : ClassDefinition :=
  foldl (fun cd fd => ClassDef.addFieldDefinition fd cd) (mkClass f c V ∅) fds.
Definition class_of (W f c : Z) (sch : Schema) : ClassDefinition := built f c (fields_of W sch).

(** A definition that says of every field what the schema says. *)
Definition same_field (k : nat) (s : FieldSchema) (fd : FieldDefinition) : Prop :=
  fd_index fd = Z.of_nat k /\ fd_name fd = fs_name s /\ fd_type fd = FieldType_value (fs_type s) /\
  fd_factoryId fd = fs_factoryId s /\ fd_classId fd = fs_classId s.
Record describes (cd : ClassDefinition) (f c : Z) (sch : Schema) : Prop := {
  de_version : cd_version cd = V;
  de_count : ClassDef.getFieldCount cd = Z.of_nat (length sch);
  de_fields k s : sch !! k = Some s -> exists fd, cd_fields cd !! fs_name s = Some fd /\ same_field k s fd;
  de_only name : name ∉ (fs_name <$> sch) -> cd_fields cd !! name = None;
}.

(** ** Contexts that agree with the schemas *)

Record context_ok (c : PortableContext) : Prop := {
  co_factory f fac : classDefContext c !! f = Some fac -> ClassDefinitionContext.factoryId fac = f;
  co_class f cl cd : lookupClassDefinition f cl V c = Some cd -> exists sch, Σ f cl = Some sch /\ cd = class_of (pc_version c) f cl sch;
}.
Record grows (c c' : PortableContext) : Prop := {
  gr_ok : context_ok c';
  gr_version : pc_version c' = pc_version c;
  gr_kept f cl v cd : lookupClassDefinition f cl v c = Some cd -> lookupClassDefinition f cl v c' = Some cd;
}.

Definition registered (c : PortableContext) (f cl : Z) : Prop := is_Some (lookupClassDefinition f cl V c).

(** The definition of the class can be made from the object: no portable inside is null and no array of portables is empty, unless
    [writeNullPortable] names a class that is known. *)
Fixpoint definable (c : PortableContext) (p : Portable L) : Prop :=
  match p with
  | mkPortable _ _ _ fields => foldr (fun x R => R /\ match x.2 with
      | WSimple _ => True
      | WPortable (Some q) => definable c q
      | WNullPortable f cl => registered c f cl
      | WPortableArray (Some (q :: _)) => definable c q
      | WPortable None | WPortableArray None | WPortableArray (Some []) => False
      end) True fields
  end.
(** Every object inside is of a class that is known, or its definition can be made. *)
Fixpoint ready (c : PortableContext) (p : Portable L) : Prop :=
  match p with
  | mkPortable f cl v fields =>
      (registered c f cl \/ definable c (mkPortable f cl v fields)) /\
      foldr (fun x R => inside (ready c) x.2 /\ R) True fields
  end.
End Encoding.
