(* ===== verification/PortableWriting.v ===== *)
(** * Writing portables

    [PortableSerializer.writeObject] writes the layout of the object, whatever definitions its context knows already, and the
    definitions it adds are those of the schemas. *)

From S2P Require Import ConfigLookup.
From S2P Require Export PortableLayout.
#[local] Open Scope Z_scope.

(** ** Shared facts *)

Lemma foldr_inside {L} (P : Portable L -> Prop) (fields : list (js_string * Value L)) :
  foldr (fun x R => inside P x.2 /\ R) True fields <-> Forall (fun x => inside P x.2) fields.
Proof. induction fields as [|x fields IH]; cbn; [done|]. by rewrite Forall_cons, IH. Qed.

Lemma foldr_each {A} (Q : A -> Prop) (xs : list A) : foldr (fun x R => R /\ Q x) True xs <-> Forall Q xs.
Proof. induction xs as [|x xs IH]; cbn; [done|]. rewrite Forall_cons, IH. tauto. Qed.

Lemma St_bind_ok {A B} (m : St A) (f : A -> St B) c c' a : m c = (Ok a, c') -> (m ≫= f) c = f a c'.
Proof. intros E. unfold mbind, St_bind. by rewrite E. Qed.
Lemma lift_ok {A B} (r : res A) (f : A -> St B) c a : r = Ok a -> (lift r ≫= f) c = f a c.
Proof. intros ->. done. Qed.

(** ** Definitions *)

Lemma built_fields f c V fds : cd_fields (built V f c fds) = foldl (fun m fd => <[fd_name fd := fd]> m) ∅ fds.
Proof.
  unfold built. change (∅ : gmap js_string FieldDefinition) with (cd_fields (mkClass f c V ∅)) at 2.
  generalize (mkClass f c V ∅). induction fds as [|fd fds IH]; intros cd; cbn; [done|]. by rewrite IH.
Qed.

Lemma built_same f c V fds : let cd := built V f c fds in cd_factoryId cd = f /\ cd_classId cd = c /\ cd_version cd = V.
Proof.
  unfold built. assert (forall cd, let cd' := foldl (fun cd fd => ClassDef.addFieldDefinition fd cd) cd fds in
    cd_factoryId cd' = cd_factoryId cd /\ cd_classId cd' = cd_classId cd /\ cd_version cd' = cd_version cd) as E.
  { induction fds as [|fd fds IH]; intros cd; cbn; [done|]. destruct (IH (ClassDef.addFieldDefinition fd cd)) as (-> & -> & ->). done. }
  apply (E (mkClass f c V ∅)).
Qed.

Lemma built_lookup f c V fds : NoDup (fd_name <$> fds) ->
  size (cd_fields (built V f c fds)) = length fds /\
  (forall fd, fd ∈ fds -> cd_fields (built V f c fds) !! fd_name fd = Some fd) /\
  (forall name, name ∉ (fd_name <$> fds) -> cd_fields (built V f c fds) !! name = None).
Proof.
  rewrite built_fields. induction fds as [|fd fds IH] using rev_ind; intros Hnd.
  - split_and!; [apply map_size_empty | set_solver | intros; apply lookup_empty].
  - rewrite fmap_app in Hnd. apply NoDup_app in Hnd as (Hnd & Hd & _). destruct (IH Hnd) as (Hs & Hin & Hout).
    rewrite foldl_app, fmap_app, length_app. cbn [foldl length].
    assert (fd_name fd ∉ (fd_name <$> fds)) as Hf by (intros Hc; apply (Hd _ Hc); cbn; set_solver).
    split_and!.
    + rewrite map_size_insert_None by (by apply Hout). lia.
    + intros fd' [Hfd|Hfd]%elem_of_app.
      * rewrite lookup_insert_ne; [by apply Hin|]. intros Ec. apply Hf. rewrite Ec. by apply list_elem_of_fmap_2.
      * apply list_elem_of_singleton in Hfd as ->. apply lookup_insert_eq.
    + intros name Hn. rewrite not_elem_of_app in Hn. destruct Hn as [Hn Hn']. cbn in Hn'.
      rewrite lookup_insert_ne by set_solver. by apply Hout.
Qed.

(** Definitions that say what the schema says make a description of the class. *)
Lemma built_describes V f c fds sch : schema_ok sch -> length fds = length sch ->
  (forall k s fd, sch !! k = Some s -> fds !! k = Some fd -> same_field k s fd) -> describes V (built V f c fds) f c sch.
Proof.
  intros [Hnd _] Hlen Hsame.
  assert (fd_name <$> fds = fs_name <$> sch) as En.
  { apply list_eq. intros k. rewrite !list_lookup_fmap. destruct (sch !! k) as [s|] eqn:Es.
    - destruct (lookup_lt_is_Some_2 fds k) as [fd Ef]; [rewrite Hlen; by apply lookup_lt_Some in Es|].
      rewrite Ef. cbn. f_equal. apply (Hsame k s fd Es Ef).
    - apply lookup_ge_None in Es. rewrite (proj2 (lookup_ge_None fds k)) by lia. done. }
  destruct (built_lookup f c V fds) as (Hs & Hin & Hout); [by rewrite En|]. split.
  - apply built_same.
  - unfold ClassDef.getFieldCount. by rewrite Hs, Hlen.
  - intros k s Es. destruct (lookup_lt_is_Some_2 fds k) as [fd Ef]; [rewrite Hlen; by apply lookup_lt_Some in Es|].
    pose proof (Hsame k s fd Es Ef) as Hsf. exists fd. split; [|done]. destruct Hsf as (_ & <- & _). apply Hin. by apply list_elem_of_lookup_2 in Ef.
  - intros name Hn. apply Hout. by rewrite En.
Qed.

Lemma fields_of_lookup V W sch k : fields_of V W sch !! k = field_of V W k <$> sch !! k.
Proof. apply list_lookup_imap. Qed.
Lemma fields_of_app V W sch s : fields_of V W (sch ++ [s]) = fields_of V W sch ++ [field_of V W (length sch) s].
Proof. unfold fields_of. rewrite imap_app. cbn. by rewrite Nat.add_0_r. Qed.

Lemma class_describes V W f c sch : schema_ok sch -> describes V (class_of V W f c sch) f c sch.
Proof.
  intros Hok. apply built_describes; [done | apply length_imap|]. intros k s fd Es Ef.
  rewrite fields_of_lookup, Es in Ef. injection Ef as <-. done.
Qed.

(** ** The context *)

Section Context_.
Context {L : Type} (Σ : Schemas) (V : Z).
Implicit Types c : PortableContext.

Lemma context_grows_refl c : context_ok Σ V c -> grows Σ V c c.
Proof. by split. Qed.
Lemma context_grows_trans c1 c2 c3 : grows Σ V c1 c2 -> grows Σ V c2 c3 -> grows Σ V c1 c3.
Proof. intros [O1 V1 K1] [O2 V2 K2]. split; [done | congruence | auto]. Qed.

Lemma factory_eta f fac : ClassDefinitionContext.factoryId fac = f -> fac = ClassDefinitionContext.mk f (ClassDefinitionContext.classDefs fac).
Proof. destruct fac. by intros <-. Qed.

Lemma definition_registered c f cl sch : context_ok Σ V c -> Σ f cl = Some sch -> let cd := class_of V (pc_version c) f cl sch in
  exists c', registerClassDefinition cd c = (Ok cd, c') /\ grows Σ V c c' /\ lookupClassDefinition f cl V c' = Some cd.
Proof.
  intros [Hf Hc] Es cd. assert (cd_factoryId cd = f /\ cd_classId cd = cl /\ cd_version cd = V) as (Ef & Ec & Ev) by apply built_same.
  unfold registerClassDefinition. rewrite Ef. set (fac := default _ _).
  assert (ClassDefinitionContext.factoryId fac = f) as Hfac.
  { unfold fac. destruct (classDefContext c !! f) as [x|] eqn:E; [by apply Hf | done]. }
  assert (forall cl v, ClassDefinitionContext.classDefs fac !! (cl, v) = lookupClassDefinition f cl v c) as Hl.
  { intros cl' v'. unfold lookupClassDefinition, fac. destruct (classDefContext c !! f); [done | apply lookup_empty]. }
  unfold ClassDefinitionContext.register. rewrite Ef, Hfac, Z.eqb_refl, Ec, Ev. cbn [negb].
  unfold ClassDefinitionContext.encodeVersionedClassId. rewrite Hl.
  assert (forall fac' (m : gmap (Z * Z) ClassDefinition), (forall cl' v' x, lookupClassDefinition f cl' v' c = Some x -> m !! (cl', v') = Some x) ->
    (forall cl' x, m !! (cl', V) = Some x -> exists sch', Σ f cl' = Some sch' /\ x = class_of V (pc_version c) f cl' sch') ->
    fac' = ClassDefinitionContext.mk f m -> grows Σ V c (mkContext (pc_version c) (<[f := fac']> (classDefContext c)))) as Hg.
  { intros fac' m Hm HV ->. split; [split|done|].
    - intros f' fac2. cbn. destruct (decide (f' = f)) as [->|Hne].
      + rewrite lookup_insert_eq. by intros [= <-].
      + rewrite lookup_insert_ne by done. apply Hf.
    - intros f' cl' x. unfold lookupClassDefinition. cbn. destruct (decide (f' = f)) as [->|Hne].
      + rewrite lookup_insert_eq. cbn. apply HV.
      + rewrite lookup_insert_ne by done. apply Hc.
    - intros f' cl' v' x Hx. unfold lookupClassDefinition. cbn. destruct (decide (f' = f)) as [->|Hne].
      + rewrite lookup_insert_eq. cbn. by apply Hm.
      + rewrite lookup_insert_ne by done. exact Hx. }
  destruct (lookupClassDefinition f cl V c) as [cur|] eqn:El.
  - destruct (Hc _ _ _ El) as (sch' & Es' & ->). assert (sch' = sch) as -> by congruence.
    assert (ClassDef.equals cd (class_of V (pc_version c) f cl sch) = true) as ->.
    { unfold ClassDef.equals. fold cd. rewrite !Z.eqb_refl. cbn. by apply bool_decide_eq_true. }
    cbn. eexists. split; [done|]. split.
    + apply (Hg fac (ClassDefinitionContext.classDefs fac)); [intros; by rewrite Hl | intros cl' x; rewrite Hl; apply Hc | by apply factory_eta].
    + unfold lookupClassDefinition. cbn. rewrite lookup_insert_eq. cbn. unfold ClassDefinitionContext.lookup, ClassDefinitionContext.encodeVersionedClassId. by rewrite Hl.
  - eexists. split; [done|]. split.
    + eapply Hg; [| |done].
      * intros cl' v' x Hx. destruct (decide ((cl', v') = (cl, V))) as [[= -> ->]|Hne]; [congruence|].
        rewrite lookup_insert_ne by done. by rewrite Hl.
      * intros cl' x. destruct (decide (cl' = cl)) as [->|Hne].
        -- rewrite lookup_insert_eq. intros [= <-]. eauto.
        -- rewrite lookup_insert_ne by congruence. rewrite Hl. apply Hc.
    + unfold lookupClassDefinition. cbn. rewrite lookup_insert_eq. cbn. apply lookup_insert_eq.
Qed.
End Context_.

(** ** Definitions made from objects *)

Section Define.
Context {L : Type} (Σ : Schemas) (V : Z) (HV : 0 <= V).
Implicit Types (c : PortableContext) (p q : Portable L).

Lemma registered_grows c c' f cl : grows Σ V c c' -> registered V c f cl -> registered V c' f cl.
Proof. intros G [cd E]. exists cd. by apply G. Qed.

Lemma definable_grows c c' p : grows Σ V c c' -> definable V c p -> definable V c' p.
Proof.
  intros G. induction p as [f cl v fields IH] using portable_rule. cbn. rewrite !foldr_each.
  intros Hd. rewrite Forall_forall in IH, Hd |- *. intros [name x] Hx. specialize (IH _ Hx). specialize (Hd _ Hx). cbn in *.
  destruct x as [|[q|]| |[[|q qs]|]]; cbn in *; [done | auto | done | by eapply registered_grows | done | | done].
  destruct IH as [IH _]. auto.
Qed.

Lemma ready_grows c c' p : grows Σ V c c' -> ready V c p -> ready V c' p.
Proof.
  intros G. induction p as [f cl v fields IH] using portable_rule. cbn [ready]. rewrite !foldr_inside. intros [Hr Hin]. split.
  - destruct Hr as [Hr|Hr]; [left; by eapply registered_grows | right; by eapply definable_grows].
  - rewrite Forall_forall in IH, Hin |- *. intros x Hx. exact (inside_impl _ _ _ (IH x Hx) (Hin x Hx)).
Qed.

Lemma conforms_class p : conforms Σ V p -> version_ok V (p_version p) /\ exists sch, Σ (p_factoryId p) (p_classId p) = Some sch /\ schema_ok sch /\
  (fst <$> p_fields p) = (fs_name <$> sch) /\ Forall2 (fun x s => value_ok s x.2) (p_fields p) sch /\
  Forall (fun x => inside (conforms Σ V) x.2) (p_fields p).
Proof.
  destruct p as [f c v fields]. cbn. rewrite foldr_inside. intros (Hv & (sch & Es & Hok & Hn & Hf) & Hi).
  split; [done|]. exists sch. done.
Qed.

Lemma class_version c v : pc_version c = V -> version_ok V v -> getClassVersion v c = (Ok V, c).
Proof.
  intros Hc [->| ->]; cbn; [unfold context_getVersion; by rewrite Hc|]. rewrite (proj2 (Z.ltb_ge _ _)) by lia. done.
Qed.

(** The builder of a class with these fields. *)
Definition made (f cl : Z) (sch : Schema) : Builder.t := Builder.mk f cl V (fields_of V V sch) (Z.of_nat (length sch)) false.

Lemma add_made f cl sch s : Builder.addField (field_of V V (length sch) s) (made f cl sch) = Ok (made f cl (sch ++ [s])).
Proof.
  unfold Builder.addField, made. cbn. rewrite Z.eqb_refl. cbn. rewrite fields_of_app, length_app. cbn. do 2 f_equal. lia.
Qed.

Lemma define_simple f cl sch s name (x : Simple L) : field_schema_ok s -> value_ok s (WSimple x) -> name = fs_name s ->
  ClassDefinitionWriter.write_simple name x (made f cl sch) = Ok (made f cl (sch ++ [s])).
Proof.
  intros Hs [Ht _] ->. cbn in Ht. rewrite <- add_made. unfold field_of.
  assert (nested (fs_type s) = false) as Hn by (rewrite Ht; by destruct x).
  destruct (so_simple s Hs Hn) as [-> ->]. rewrite Hn, Ht. by destruct x.
Qed.

(** What [define] does for an object inside. *)
Definition defines (define : Portable L -> Builder.t -> St Builder.t) (q : Portable L) : Prop := forall c sch,
  context_ok Σ V c -> pc_version c = V -> conforms Σ V q -> definable V c q -> Σ (p_factoryId q) (p_classId q) = Some sch ->
  exists c', define q (Builder.new (p_factoryId q) (p_classId q) V) c = (Ok (made (p_factoryId q) (p_classId q) sch), c') /\ grows Σ V c c'.

Lemma nested_class define q c : context_ok Σ V c -> pc_version c = V -> conforms Σ V q -> definable V c q -> defines define q ->
  exists sch c', ClassDefinitionWriter.createNestedClassDef define q (Builder.new (p_factoryId q) (p_classId q) V) c =
    (Ok (class_of V V (p_factoryId q) (p_classId q) sch), c') /\ grows Σ V c c'.
Proof.
  intros Hok Hv Hc Hd Hdef. destruct (conforms_class q Hc) as (_ & sch & Es & _).
  destruct (Hdef c sch Hok Hv Hc Hd Es) as (c1 & E1 & G1). unfold ClassDefinitionWriter.createNestedClassDef.
  rewrite (St_bind_ok _ _ _ _ _ E1). destruct (definition_registered Σ V c1 _ _ sch (gr_ok _ _ _ _ G1) Es) as (c2 & E2 & G2 & _).
  rewrite (gr_version _ _ _ _ G1), Hv in E2. exists sch, c2. split; [exact E2 | by eapply context_grows_trans].
Qed.

Lemma define_nested f cl sch s t W f' cl' sch' : fs_type s = t -> nested t = true -> field_schema_ok s ->
  f' = fs_factoryId s -> cl' = fs_classId s ->
  (let def := class_of V W f' cl' sch' in
   if cd_classId def =? 0 then Err RangeError
   else Builder.addField (mkField (Builder.index (made f cl sch)) (fs_name s) (FieldType_value t) (cd_version def) (cd_factoryId def) (cd_classId def)) (made f cl sch)) =
  Ok (made f cl (sch ++ [s])).
Proof.
  intros Ht Hn Hs -> ->. cbn. destruct (built_same (fs_factoryId s) (fs_classId s) V (fields_of V W sch')) as (Ef & Ec & Ev).
  unfold class_of. rewrite Ef, Ec, Ev. rewrite (proj2 (Z.eqb_neq _ _)) by (apply so_nested; [done | by rewrite Ht]).
  rewrite <- add_made. unfold field_of. by rewrite Ht, Hn.
Qed.

Lemma define_value define f cl sch s name (v : Value L) c : context_ok Σ V c -> pc_version c = V -> field_schema_ok s ->
  value_ok s v -> name = fs_name s -> inside (conforms Σ V) v -> inside (defines define) v ->
  match v with
  | WSimple _ => True
  | WPortable (Some q) => definable V c q
  | WNullPortable f cl => registered V c f cl
  | WPortableArray (Some (q :: _)) => definable V c q
  | WPortable None | WPortableArray None | WPortableArray (Some []) => False
  end ->
  exists c', ClassDefinitionWriter.write define name v (made f cl sch) c = (Ok (made f cl (sch ++ [s])), c') /\ grows Σ V c c'.
Proof.
  intros Hok Hv Hs Hvo -> Hc Hdef Hd. destruct v as [x|[q|]|f' cl'|[[|q qs]|]]; cbn in Hc, Hdef; try done.
  - exists c. split; [|by apply context_grows_refl]. cbn. unfold lift. by rewrite (define_simple _ _ _ _ _ _ Hs Hvo).
  - destruct Hvo as [Ht [Ef Ec]]. destruct (nested_class define q c) as (sch' & c' & E & G); try done.
    exists c'. split; [|done]. cbn. rewrite (St_bind_ok _ _ _ _ _ (class_version c _ Hv (proj1 (conforms_class q Hc)))).
    rewrite (St_bind_ok _ _ _ _ _ E). unfold lift, Builder.addPortableField. by rewrite (define_nested _ _ _ _ PORTABLE V _ _ sch' Ht).
  - destruct Hvo as [Ht [Ef Ec]]. exists c. split; [|by apply context_grows_refl]. cbn. unfold ClassDefinitionWriter.writeNullPortable.
    destruct Hd as [cd E]. rewrite Hv, E. destruct (co_class _ _ _ Hok _ _ _ E) as (sch' & Es' & ->). rewrite Hv.
    unfold Builder.addPortableField. by rewrite (define_nested _ _ _ _ PORTABLE V _ _ sch' Ht).
  - destruct Hvo as [Ht [_ Hids]]. apply Forall_cons in Hids as [[Ef Ec] Hids]. destruct Hc as [Hc _], Hdef as [Hdef _].
    destruct (nested_class define q c) as (sch' & c' & E & G); try done.
    exists c'. split; [|done]. cbn. assert (forallb (fun q0 => p_classId q0 =? p_classId q) qs = true) as ->.
    { apply forallb_forall. intros q0 Hq0%list_elem_of_In. rewrite Forall_forall in Hids. destruct (Hids _ Hq0) as [_ E0].
      apply Z.eqb_eq. congruence. }
    rewrite (St_bind_ok _ _ _ _ _ (class_version c _ Hv (proj1 (conforms_class q Hc)))).
    rewrite (St_bind_ok _ _ _ _ _ E). unfold lift, Builder.addPortableArrayField. by rewrite (define_nested _ _ _ _ PORTABLE_ARRAY V _ _ sch' Ht).
Qed.

Lemma define_all define f cl (fields : list (js_string * Value L)) : Forall (fun x => inside (defines define) x.2) fields -> forall sch1 sch2 c,
  context_ok Σ V c -> pc_version c = V -> Forall field_schema_ok sch2 -> fields.*1 = fs_name <$> sch2 ->
  Forall2 (fun x s => value_ok s x.2) fields sch2 -> Forall (fun x => inside (conforms Σ V) x.2) fields ->
  definable V c (mkPortable f cl None fields) ->
  exists c', ClassDefinitionWriter.write_all define fields (made f cl sch1) c = (Ok (made f cl (sch1 ++ sch2)), c') /\ grows Σ V c c'.
Proof.
  induction fields as [|[name v] fields IH]; intros Hdef sch1 sch2 c Hok Hv Hs Hn Hf Hc Hd.
  - apply Forall2_nil_inv_l in Hf as ->. rewrite app_nil_r. exists c. split; [done | by apply context_grows_refl].
  - apply Forall2_cons_inv_l in Hf as (s & sch' & Hvo & Hf & ->). cbn in Hn. injection Hn as Hname Hn.
    apply Forall_cons in Hs as [Hs Hs'], Hc as [Hc Hc'], Hdef as [Hdef Hdef']. cbn [definable foldr] in Hd. destruct Hd as [Hd' Hd].
    destruct (define_value define f cl sch1 s name v c) as (c1 & E1 & G1); try done. cbn [ClassDefinitionWriter.write_all].
    rewrite (St_bind_ok _ _ _ _ _ E1).
    destruct (IH Hdef' (sch1 ++ [s]) sch' c1) as (c2 & E2 & G2); try done.
    + apply G1.
    + by rewrite (gr_version _ _ _ _ G1).
    + exact (definable_grows c c1 (mkPortable f cl None fields) G1 Hd').
    + exists c2. rewrite <- app_assoc in E2. split; [exact E2 | by eapply context_grows_trans].
Qed.

Lemma define_object p : defines ClassDefinitionWriter.define p.
Proof.
  induction p as [f cl v fields IH] using portable_rule. intros c sch Hok Hv Hc Hd Es.
  destruct (conforms_class _ Hc) as (_ & sch' & Es' & [Hnd Hs] & Hn & Hf & Hi). cbn in *. assert (sch' = sch) as -> by congruence.
  destruct (define_all ClassDefinitionWriter.define f cl fields IH [] sch c) as (c' & E & G); try done. exists c'. split; [exact E | done].
Qed.

(** The definition of the class of an object that is written. *)
Lemma lookup_or_register p c sch : context_ok Σ V c -> pc_version c = V -> conforms Σ V p ->
  registered V c (p_factoryId p) (p_classId p) \/ definable V c p -> Σ (p_factoryId p) (p_classId p) = Some sch ->
  exists c', lookupOrRegisterClassDefinition p c = (Ok (class_of V V (p_factoryId p) (p_classId p) sch), c') /\ grows Σ V c c'.
Proof.
  intros Hok Hv Hc Hr Es. unfold lookupOrRegisterClassDefinition.
  rewrite (St_bind_ok _ _ _ _ _ (class_version c _ Hv (proj1 (conforms_class p Hc)))).
  rewrite (St_bind_ok _ _ c c c) by done.
  destruct (lookupClassDefinition _ _ V c) as [cd|] eqn:El.
  - destruct (co_class _ _ _ Hok _ _ _ El) as (sch' & Es' & ->). rewrite Hv. assert (sch' = sch) as -> by congruence.
    exists c. split; [done | by apply context_grows_refl].
  - destruct Hr as [[cd Hr]|Hd]; [congruence|]. destruct (define_object p c sch Hok Hv Hc Hd Es) as (c1 & E1 & G1).
    rewrite (St_bind_ok _ _ _ _ _ E1). destruct (definition_registered Σ V c1 _ _ sch (gr_ok _ _ _ _ G1) Es) as (c2 & E2 & G2 & _).
    rewrite (gr_version _ _ _ _ G1), Hv in E2. exists c2. split; [exact E2 | by eapply context_grows_trans].
Qed.
End Define.

(** ** Bytes *)

Section Bytes.
Context `{Uninit} (be : bool).

Lemma out_pos o : out_wf o -> blen (out_bytes o) = o_pos o.
Proof. unfold out_wf, out_bytes. intros Hwf. rewrite length_take. lia. Qed.

Lemma length_int z : length (int_bytes be z) = 4%nat.
Proof. unfold int_bytes. by rewrite length_in_order, length_le_split. Qed.
Lemma length_short z : length (short_bytes be z) = 2%nat.
Proof. unfold short_bytes. by rewrite length_in_order, length_le_split. Qed.
Lemma length_ints zs : length (ints be zs) = (4 * length zs)%nat.
Proof. induction zs as [|z zs IH]; [done|]. cbn [ints mbind list_bind]. rewrite length_app, length_int. cbn [length]. fold (ints be zs). lia. Qed.
Lemma ints_app zs zs' : ints be (zs ++ zs') = ints be zs ++ ints be zs'.
Proof. apply bind_app. Qed.

Lemma ints_one z : ints be [z] = int_bytes be z.
Proof. apply app_nil_r. Qed.

Lemma int_appends z : in_sint 32 z -> appends be (Output.writeInt z) (int_bytes be z).
Proof.
  intros Hz. apply put_appends; [by rewrite length_int|]. intros b pos Hb. by apply (write_sint_order 4).
Qed.
Lemma short_appends z : in_sint 16 z -> appends be (Output.writeShort z) (short_bytes be z).
Proof.
  intros Hz. apply put_appends; [by rewrite length_short|]. intros b pos Hb. by apply (write_sint_order 2).
Qed.
Lemma byte_appends z : in_uint 8 z -> appends be (Output.writeByte z) (byte_bytes z).
Proof.
  intros Hz. apply put_appends; [done|]. intros b pos Hb. rewrite js_and_byte, uwrap_id by done. by apply (write_uint_order 1 false).
Qed.

Lemma int_reads z i : in_sint 32 z -> i_bigEndian i = be ->
  (forall p, holds_at i p (int_bytes be z) -> Input.readInt (Some p) i = Ok (z, i)) /\
  (holds_at i (i_pos i) (int_bytes be z) -> Input.readInt None i = Ok (z, Input.set_pos (i_pos i + 4) i)).
Proof.
  intros Hz Hbe. destruct (get_reads be 4 readInt32 (int_bytes be z) z) as [Hn Hs].
  - by rewrite length_int.
  - intros b p Hb Hsub. rewrite length_int in Hsub. by apply (read_sint_order 4); [lia|..].
  - split; [intros p Hp; by apply Hs | intros Hp]. specialize (Hn i Hbe Hp). rewrite length_int in Hn. exact Hn.
Qed.
Lemma short_reads z i : in_sint 16 z -> i_bigEndian i = be ->
  (forall p, holds_at i p (short_bytes be z) -> Input.readShort (Some p) i = Ok (z, i)) /\
  (holds_at i (i_pos i) (short_bytes be z) -> Input.readShort None i = Ok (z, Input.set_pos (i_pos i + 2) i)).
Proof.
  intros Hz Hbe. destruct (get_reads be 2 readInt16 (short_bytes be z) z) as [Hn Hs].
  - by rewrite length_short.
  - intros b p Hb Hsub. rewrite length_short in Hsub. by apply (read_sint_order 2); [lia|..].
  - split; [intros p Hp; by apply Hs | intros Hp]. specialize (Hn i Hbe Hp). rewrite length_short in Hn. exact Hn.
Qed.
Lemma byte_reads z i : in_uint 8 z -> holds_at i (i_pos i) (byte_bytes z) -> Input.readByte None i = Ok (z, Input.set_pos (i_pos i + 1) i).
Proof.
  intros Hz Hp. destruct (get_reads (i_bigEndian i) 1 (fun b p _ => readUInt8 b p) (byte_bytes z) z) as [Hn _].
  - done.
  - intros b p Hb Hsub. by apply (read_uint_order 1 false).
  - exact (Hn i eq_refl Hp).
Qed.

Lemma zeros_append n : appends be (Output.writeZeroBytes (Z.of_nat n * 4)) (ints be (replicate n 0)).
Proof.
  unfold Output.writeZeroBytes. rewrite <- Nat2Z.inj_mul with (m := 4%nat), Nat2Z.id.
  assert (forall m k, appends be (Output.each (fun _ : nat => Output.write 0) (seq k m)) (replicate m Byte.x00)) as Hm.
  { induction m as [|m IH]; intros k; [apply appends_nil|]. exact (appends_bind be _ _ [_] _ (byte_appends 0 ltac:(done)) (IH (S k))). }
  assert (ints be (replicate n 0) = replicate (n * 4) Byte.x00) as ->; [|apply Hm].
  induction n as [|n IH]; [done|]. cbn [replicate ints mbind list_bind]. fold (ints be (replicate n 0)). rewrite IH. by destruct be.
Qed.

(** The bytes that are written to an empty output are written to every output. *)
Lemma appends_bytes (f : Out) w : appends be f w -> appends be f (match f (Output.new be) with Ok o => out_bytes o | Err _ => [] end) /\
  match f (Output.new be) with Ok o => out_bytes o | Err _ => [] end = w.
Proof.
  intros Hw. destruct (new_output_wf be) as (Hwf & Hn & Hb). destruct (Hw _ Hwf Hb) as (o & E & _ & _ & Ho).
  rewrite E, Ho, Hn. done.
Qed.

(** A position of the table is filled in. *)
Lemma write_at_middle A (b1 w : buffer) C p : p = blen A -> length b1 = length w -> write_at (A ++ b1 ++ C) p w = A ++ w ++ C.
Proof.
  intros -> El. unfold write_at. rewrite Nat2Z.id, take_app_length, <- El, drop_app_add, drop_app_length. done.
Qed.
Lemma take_write_at n (b w : buffer) p : 0 <= p -> p + blen w <= Z.of_nat n -> (n <= length b)%nat -> take n (write_at b p w) = write_at (take n b) p w.
Proof.
  intros H0 H1 H2. unfold write_at. rewrite take_take, Nat.min_l by lia.
  rewrite (app_assoc _ w), take_app_ge; rewrite length_app, length_take; [|lia].
  rewrite <- app_assoc. do 2 f_equal. rewrite take_drop_commute. do 2 f_equal. lia.
Qed.
Lemma patch o A T C k z : out_wf o -> o_bigEndian o = be -> out_bytes o = A ++ ints be T ++ C -> (k < length T)%nat -> in_sint 32 z -> exists o',
  Positional.pwriteInt (blen A + Z.of_nat k * INT_SIZE_IN_BYTES) z o = Ok o' /\ out_wf o' /\ o_bigEndian o' = be /\ o_pos o' = o_pos o /\
  out_bytes o' = A ++ ints be (<[k := z]> T) ++ C.
Proof.
  intros Hwf Hbe Ho Hk Hz. pose proof (out_pos o Hwf) as Hpos. rewrite Ho, !length_app, length_ints in Hpos. unfold INT_SIZE_IN_BYTES.
  assert (in_bounds (o_buffer o) (blen A + Z.of_nat k * 4) 4 = true) as Hb.
  { apply in_bounds_true. unfold out_wf in Hwf. lia. }
  unfold Positional.pwriteInt, Positional.at_position. rewrite Hbe.
  assert (writeInt32 (o_buffer o) (blen A + Z.of_nat k * 4) z be = Ok (write_at (o_buffer o) (blen A + Z.of_nat k * 4) (int_bytes be z))) as ->
    by exact (write_sint_order 4 be _ _ z Hz Hb).
  cbn. eexists. split; [done|]. unfold out_wf in *. cbn.
  rewrite length_write_at by (by rewrite length_int). split_and!; [lia | lia | done | done|].
  unfold out_bytes in *. cbn. rewrite take_write_at by (rewrite ?length_int; lia). rewrite Ho.
  destruct (lookup_lt_is_Some_2 T k Hk) as [x Hx]. rewrite <- (take_drop_middle T k x Hx) at 1.
  rewrite insert_take_drop by done. rewrite !ints_app. cbn [ints mbind list_bind]. fold (ints be (drop (S k) T)).
  rewrite !(app_assoc A), <- !(app_assoc (A ++ ints be (take k T))), <- !(app_assoc (int_bytes be _)).
  rewrite write_at_middle; [done | | by rewrite !length_int]. rewrite length_app, length_ints, length_take. lia.
Qed.
End Bytes.

(** ** Values that are not portables *)

Section Simple.
Context `{Uninit} {L : Type} `{LongLaws L} (be : bool).

(** The reader of the input for a type. *)
Definition simple_in (t : FieldType) (pos : option Z) : Reader (Simple L) := fun i =>
  let wrap {A} (f : A -> Simple L) (r : res (A * ObjectDataInput)) := '(x, i) ← r; Ok (f x, i) in
  match t with
  | BYTE => wrap VByte (Input.readByte pos i)
  | BOOLEAN => wrap VBoolean (Input.readBoolean pos i)
  | CHAR => wrap VChar (Input.readChar pos i)
  | SHORT => wrap VShort (Input.readShort pos i)
  | INT => wrap VInt (Input.readInt pos i)
  | LONG => wrap VLong (Input.readLong pos i)
  | FLOAT => wrap VFloat (Input.readFloat pos i)
  | DOUBLE => wrap VDouble (Input.readDouble pos i)
  | STRING => wrap VString (Input.readString pos i)
  | BYTE_ARRAY => wrap VByteArray (Input.readByteArray pos i)
  | BOOLEAN_ARRAY => wrap VBooleanArray (Input.readBooleanArray pos i)
  | CHAR_ARRAY => wrap VCharArray (Input.readCharArray pos i)
  | SHORT_ARRAY => wrap VShortArray (Input.readShortArray pos i)
  | INT_ARRAY => wrap VIntArray (Input.readIntArray pos i)
  | LONG_ARRAY => wrap VLongArray (Input.readLongArray pos i)
  | FLOAT_ARRAY => wrap VFloatArray (Input.readFloatArray pos i)
  | DOUBLE_ARRAY => wrap VDoubleArray (Input.readDoubleArray pos i)
  | STRING_ARRAY => wrap VStringArray (Input.readStringArray pos i)
  | PORTABLE | PORTABLE_ARRAY => Err TypeError
  end.

(** A character at a position is read if there are two bytes at the cursor too. *)
Definition room (i : ObjectDataInput) : Prop := 0 <= i_pos i /\ i_pos i + CHAR_SIZE_IN_BYTES <= blen (i_buffer i).

Lemma char_reads_at x i p w : in_uint 16 x -> reads be (Input.readChar None) w x -> i_bigEndian i = be -> holds_at i p w -> blen w = 2 -> room i ->
  Input.readChar (Some p) i = Ok (x, i).
Proof.
  intros Hx Hr Hbe Hw Hl [R0 R1]. specialize (Hr (Input.set_pos p i) Hbe Hw). unfold Input.readChar in Hr |- *.
  destruct (Input.assertAvailable CHAR_SIZE_IN_BYTES None (Input.set_pos p i)); [|done]. cbn in Hr.
  unfold Input.assertAvailable. cbn [default]. rewrite (proj2 (Z.leb_le _ _) R0), (proj2 (Z.leb_le _ _) R1). cbn.
  destruct (readUInt16 (i_buffer i) p (i_bigEndian i)) as [y|]; [|done]. cbn in Hr |- *. by injection Hr as ->.
Qed.

Lemma char_length x w : appends be (Output.writeChar x) w -> blen w = 2.
Proof.
  intros Hw. destruct (new_output_wf be) as (Hwf & Hn & Hb). destruct (Hw _ Hwf Hb) as (o & E & Hwf' & _ & Ho).
  rewrite Hn in Ho. cbn in Ho. pose proof (out_pos o Hwf') as Hp. rewrite Ho in Hp. rewrite Hp.
  unfold Output.writeChar, Output.put in E. destruct (writeUInt16 _ _ _ _); [|done]. cbn in E. by injection E as <-.
Qed.

Lemma codec_reads {A} (valid : A -> Prop) (wr : A -> Out) rd x : DataCodecAt valid wr rd -> valid x -> exists w,
  appends be (wr x) w /\ forall i p, i_bigEndian i = be -> holds_at i p w -> room i -> rd (Some p) i = Ok (x, i).
Proof. intros C Hx. destruct (C be x Hx) as (w & Hw & _ & Hr). exists w. split; [done|]. intros i p Hbe Hp _. by apply Hr. Qed.

Lemma char_codec_reads x : in_uint 16 x -> exists w,
  appends be (Output.writeChar x) w /\ forall i p, i_bigEndian i = be -> holds_at i p w -> room i -> Input.readChar (Some p) i = Ok (x, i).
Proof.
  intros Hx. destruct (codec_char be x Hx) as (w & Hw & Hr). exists w. split; [done|]. intros i p Hbe Hp Hroom.
  apply (char_reads_at x i p w); try done. by eapply char_length.
Qed.

Lemma simple_codec (s : Simple L) : simple_ok s -> appends be (simple_out s) (simple_bytes be s) /\
  forall i p, i_bigEndian i = be -> holds_at i p (simple_bytes be s) -> room i -> simple_in (simple_type s) (Some p) i = Ok (s, i).
Proof.
  intros Hs. assert (exists w, appends be (simple_out s) w /\
    forall i p, i_bigEndian i = be -> holds_at i p w -> room i -> simple_in (simple_type s) (Some p) i = Ok (s, i)) as (w & Hw & Hr).
  { destruct s; cbn [simple_ok simple_out simple_type] in *;
      match goal with
      | |- exists _, appends _ (Output.writeChar _) _ /\ _ => destruct (char_codec_reads x Hs) as (w & Hw & Hr)
      | |- exists _, appends _ (?wr ?a) _ /\ _ => epose proof (_ : DataCodecAt _ wr _) as C; destruct (codec_reads _ wr _ a C Hs) as (w & Hw & Hr)
      end; exists w; (split; [exact Hw|]); intros i p Hbe Hp Hroom; cbn [simple_in];
      cbv delta [Input.readBooleanArray Input.readCharArray Input.readDoubleArray Input.readFloatArray Input.readIntArray Input.readShortArray
        Input.readLongArray Input.readStringArray]; cbv beta; by rewrite (Hr i p Hbe Hp Hroom). }
  destruct (appends_bytes be _ w Hw) as [Ha Ew]. unfold simple_bytes. split; [exact Ha|]. rewrite Ew. exact Hr.
Qed.
End Simple.

(** ** Names *)

Lemma utf8_ascii name : Forall (fun u => 0 <= u < 0x80) name -> utf8 name = name.
Proof. induction 1 as [|u name Hu _ IH]; [done|]. cbn. rewrite (proj2 (Z.ltb_lt _ _)) by lia. by rewrite IH. Qed.
Lemma length_name name : name_ok name -> length (Buffer_from name) = length name.
Proof.
  intros [_ Ha]. unfold Buffer_from. rewrite (utf8_ascii name Ha). clear Ha. induction name as [|u name IH]; [done|].
  cbn [mbind list_bind]. rewrite length_app, length_le_split. cbn [length]. f_equal. exact IH.
Qed.
Lemma type_byte t : in_uint 8 (FieldType_value t).
Proof. by destruct t. Qed.

Section Emit.
Context `{Uninit} `{Prototype} {L : Type} `{LongLaws L} (be : bool) (Σ : Schemas) (V : Z).
Context (HV : 0 <= V) (HV32 : in_sint 32 V).
Implicit Types (c : PortableContext) (q : Portable L) (o : ObjectDataOutput).

(** [f] appends [w] at position [p], in the context [c]. *)
Definition emits c (f : ObjectDataOutput -> St ObjectDataOutput) (p : Z) (w : buffer) : Prop := forall o,
  out_wf o -> o_bigEndian o = be -> o_pos o = p ->
  exists o' c', f o c = (Ok o', c') /\ out_wf o' /\ o_bigEndian o' = be /\ out_bytes o' = out_bytes o ++ w /\ grows Σ V c c'.

Definition emits_object (writeObject : Portable L -> ObjectDataOutput -> St ObjectDataOutput) q : Prop := forall c p,
  context_ok Σ V c -> pc_version c = V -> conforms Σ V q -> ready V c q -> 0 <= p -> p + blen (object_bytes be Σ V q p) < 2 ^ 31 ->
  emits c (writeObject q) p (object_bytes be Σ V q p).

Lemma length_header name t : name_ok name -> blen (field_header be name t) = Z.of_nat (length name) + 3.
Proof. intros Hn. unfold field_header. rewrite !length_app, length_short, length_name by done. change (length (byte_bytes _)) with 1%nat. lia. Qed.

(** The table entry of the field is filled in and the header of the field is appended. *)
Lemma setPosition_ok name t cd off k fd o A T B : out_wf o -> o_bigEndian o = be -> out_bytes o = A ++ ints be T ++ B ->
  off = blen A -> (k < length T)%nat -> name_ok name -> o_pos o < 2 ^ 31 -> cd_fields cd !! name = Some fd -> fd_index fd = Z.of_nat k -> forall b, exists o',
  DefaultPortableWriter.setPosition name t (DefaultPortableWriter.mk cd off b) o = Ok (fd, o') /\ out_wf o' /\ o_bigEndian o' = be /\
  out_bytes o' = A ++ ints be (<[k := o_pos o]> T) ++ B ++ field_header be name t.
Proof.
  intros Hwf Hbe Ho -> Hk Hn Hp Hf Hi b. pose proof Hn as [Hlen Hascii].
  assert (in_sint 32 (o_pos o)) as Hp32 by (unfold out_wf in Hwf; unfold in_sint; lia).
  destruct (patch be o A T B k (o_pos o) Hwf Hbe Ho Hk Hp32) as (o1 & E1 & W1 & B1 & P1 & O1).
  destruct (short_appends be (Z.of_nat (length name)) ltac:(unfold in_sint; lia) o1 W1 B1) as (o2 & E2 & W2 & B2 & O2).
  destruct (writeBuffer_appends be (Buffer_from name) o2 W2 B2) as (o3 & E3 & W3 & B3 & O3).
  destruct (byte_appends be (FieldType_value t) (type_byte t) o3 W3 B3) as (o4 & E4 & W4 & B4 & O4).
  exists o4. split; [|split_and!; [done | done|]].
  - unfold DefaultPortableWriter.setPosition. cbn [DefaultPortableWriter.classDefinition DefaultPortableWriter.offset].
    unfold ClassDef.the_field, ClassDef.getField. rewrite Hf. cbn [res_bind mbind]. rewrite Hi, E1. cbn [res_bind mbind].
    rewrite E2. cbn [res_bind mbind]. rewrite E3. cbn [res_bind mbind]. rewrite E4. done.
  - rewrite O4, O3, O2, O1. unfold field_header. by rewrite <- !app_assoc.
Qed.

(** Elements of an array, with the table of their positions. *)
Lemma elements_ok writeObject (qs : list (Portable L)) : Forall (emits_object writeObject) qs -> forall c o A ps B k,
  context_ok Σ V c -> pc_version c = V -> Forall (conforms Σ V) qs -> Forall (ready V c) qs ->
  out_wf o -> o_bigEndian o = be -> out_bytes o = A ++ ints be (ps ++ replicate (length qs) 0) ++ B ->
  let parts := layout (fun _ => object_bytes be Σ V) k qs (o_pos o) in
  o_pos o + blen parts.2 < 2 ^ 31 -> exists o' c',
  DefaultPortableWriter.write_elements writeObject (blen A) (Z.of_nat (length ps)) qs o c = (Ok o', c') /\ out_wf o' /\ o_bigEndian o' = be /\
  out_bytes o' = A ++ ints be (ps ++ parts.1) ++ B ++ parts.2 /\ grows Σ V c c'.
Proof.
  induction qs as [|q qs IH]; intros Hw c o A ps B k Hok Hv Hc Hr Hwf Hbe Ho parts Hfit.
  - exists o, c. cbn in *. rewrite !app_nil_r in *. split_and!; done.
  - apply Forall_cons in Hw as [Hw Hw'], Hc as [Hc Hc'], Hr as [Hr Hr']. unfold parts in Hfit |- *. cbn [layout fst snd] in Hfit |- *.
    set (b := object_bytes be Σ V q (o_pos o)) in *. set (rest := layout _ (S k) qs (o_pos o + blen b)) in *.
    rewrite length_app in Hfit. unfold out_wf in Hwf. cbn [length replicate] in Ho.
    destruct (patch be o A (ps ++ 0 :: replicate (length qs) 0) B (length ps) (o_pos o)) as (o1 & E1 & W1 & B1 & P1 & O1);
      [done | done | done | rewrite length_app; cbn; lia | unfold in_sint; lia|].
    rewrite insert_app_r_alt in O1 by lia. rewrite Nat.sub_diag in O1. cbn [insert list_insert] in O1.
    destruct (Hw c (o_pos o) Hok Hv Hc Hr ltac:(lia) ltac:(fold b; lia) o1 W1 B1 P1) as (o2 & c2 & E2 & W2 & B2 & O2 & G2). fold b in O2.
    assert (o_pos o2 = o_pos o + blen b) as P2.
    { rewrite <- (out_pos o2 W2), O2, length_app. pose proof (out_pos o1 W1). lia. }
    destruct (IH Hw' c2 o2 A (ps ++ [o_pos o]) (B ++ b) (S k)) as (o3 & c3 & E3 & W3 & B3 & O3 & G3).
    + apply G2.
    + by rewrite (gr_version _ _ _ _ G2).
    + done.
    + rewrite Forall_forall in Hr' |- *. intros x Hx. eapply ready_grows; [done | auto].
    + done.
    + done.
    + rewrite O2, O1, <- !app_assoc. done.
    + rewrite P2. fold rest. lia.
    + rewrite P2 in O3. fold rest in O3. exists o3, c3. split.
      * cbn [DefaultPortableWriter.write_elements]. rewrite (lift_ok _ _ _ _ E1), (St_bind_ok _ _ _ _ _ E2).
        rewrite length_app in E3. cbn [length] in E3. rewrite <- E3. f_equal. lia.
      * split_and!; [done | done | | by eapply context_grows_trans]. rewrite O3, <- !app_assoc. done.
Qed.

Lemma write_simple_field name w (x : Simple L) o :
  DefaultPortableWriter.write_simple name w x o = DefaultPortableWriter.field name (simple_type x) w (simple_out x) o.
Proof. by destruct x. Qed.

Lemma boolean_appends b : appends be (Output.writeBoolean b) (byte_bytes (if b then 1 else 0)).
Proof. unfold Output.writeBoolean. apply byte_appends. by destruct b. Qed.

(** A flag or a length, and the two ids. *)
Lemma ids_append (f : Out) w x y : appends be f w -> in_sint 32 x -> in_sint 32 y -> forall o, out_wf o -> o_bigEndian o = be -> exists o1 o2 o3,
  f o = Ok o1 /\ Output.writeInt x o1 = Ok o2 /\ Output.writeInt y o2 = Ok o3 /\ out_wf o3 /\ o_bigEndian o3 = be /\
  out_bytes o3 = out_bytes o ++ w ++ int_bytes be x ++ int_bytes be y.
Proof.
  intros Hf Hx Hy o Hwf Hbe. destruct (Hf o Hwf Hbe) as (o1 & E1 & W1 & B1 & O1).
  destruct (int_appends be x Hx o1 W1 B1) as (o2 & E2 & W2 & B2 & O2). destruct (int_appends be y Hy o2 W2 B2) as (o3 & E3 & W3 & B3 & O3).
  exists o1, o2, o3. split_and!; try done. rewrite O3, O2, O1. by rewrite <- !app_assoc.
Qed.

Section Value.
Context (writeObject : Portable L -> ObjectDataOutput -> St ObjectDataOutput) (name : js_string) (s : FieldSchema) (k : nat) (fd : FieldDefinition) (cd : ClassDefinition).
Context (Hs : field_schema_ok s) (Hname : name = fs_name s) (Hfd : cd_fields cd !! name = Some fd) (Hsame : same_field k s fd).

(** What writing the value [v] of the field must do to an output with the table [T] behind [A]. *)
Definition value_written (v : Value L) c : Prop := forall o A T B bgn,
  out_wf o -> o_bigEndian o = be -> out_bytes o = A ++ ints be T ++ B -> (k < length T)%nat ->
  let w := field_header be name (value_type v) ++ value_bytes be (object_bytes be Σ V) s v (o_pos o + blen (field_header be name (value_type v))) in
  o_pos o + blen w < 2 ^ 31 ->
  exists o' c', DefaultPortableWriter.write writeObject name (DefaultPortableWriter.mk cd (blen A) bgn) v o c = (Ok o', c') /\
  out_wf o' /\ o_bigEndian o' = be /\ out_bytes o' = A ++ ints be (<[k := o_pos o]> T) ++ B ++ w /\ grows Σ V c c'.

(** The header first; [next] is the rest of the method. *)
Lemma after_header (v : Value L) c (next : FieldDefinition -> ObjectDataOutput -> St ObjectDataOutput) (w : Z -> buffer) :
  (forall bgn o (A : buffer), DefaultPortableWriter.write writeObject name (DefaultPortableWriter.mk cd (blen A) bgn) v o c =
    ('(fd, o) ← lift (DefaultPortableWriter.setPosition name (value_type v) (DefaultPortableWriter.mk cd (blen A) bgn) o); next fd o) c) ->
  (forall p, w p = value_bytes be (object_bytes be Σ V) s v p) ->
  (forall p, 0 <= p -> p + blen (w p) < 2 ^ 31 -> emits c (next fd) p (w p)) -> value_written v c.
Proof.
  intros Ew Hw Hn o A T B bgn Hwf Hbe Ho Hk w' Hfit. unfold w' in *. clear w'. rewrite <- Hw in *. rewrite length_app in Hfit.
  destruct Hsame as (Hi & _).
  destruct (setPosition_ok name (value_type v) cd (blen A) k fd o A T B Hwf Hbe Ho eq_refl Hk) with (b := bgn) as (o1 & E1 & W1 & B1 & O1);
    [rewrite Hname; by apply so_name | lia | done | done|].
  assert (o_pos o1 = o_pos o + blen (field_header be name (value_type v))) as P1.
  { rewrite <- (out_pos o1 W1), O1. pose proof (out_pos o Hwf) as P0. rewrite Ho in P0. rewrite !length_app, !length_ints in *.
    rewrite length_insert. lia. }
  destruct (Hn (o_pos o1) ltac:(unfold out_wf in W1; lia) ltac:(rewrite P1; lia) o1 W1 B1 eq_refl) as (o2 & c2 & E2 & W2 & B2 & O2 & G2).
  exists o2, c2. rewrite Ew, (lift_ok _ _ _ _ E1). split_and!; try done. rewrite O2, O1, <- !app_assoc, P1. done.
Qed.

Lemma null_written c f cl : context_ok Σ V c -> in_sint 32 f -> in_sint 32 cl ->
  forall p, emits c (fun o => o ← lift (Output.writeBoolean true o); o ← lift (Output.writeInt f o); lift (Output.writeInt cl o)) p
    (byte_bytes 1 ++ int_bytes be f ++ int_bytes be cl).
Proof.
  intros Hok Hf Hcl p o Hwf Hbe Hp. destruct (ids_append _ _ f cl (boolean_appends true) Hf Hcl o Hwf Hbe) as (o1 & o2 & o3 & E1 & E2 & E3 & W & B & O).
  exists o3, c. rewrite (lift_ok _ _ _ _ E1), (lift_ok _ _ _ _ E2). unfold lift. rewrite E3. split_and!; try done.
Qed.

(** A flag and the ids, then what [next] writes. *)
Lemma then_emits c (f : Out) w1 x y next p w2 : context_ok Σ V c -> appends be f w1 -> in_sint 32 x -> in_sint 32 y ->
  emits c next (p + blen w1 + 8) w2 ->
  emits c (fun o => o ← lift (f o); o ← lift (Output.writeInt x o); o ← lift (Output.writeInt y o); next o) p
    (w1 ++ int_bytes be x ++ int_bytes be y ++ w2).
Proof.
  intros Hok Hf Hx Hy Hn o Hwf Hbe Hp. destruct (ids_append f w1 x y Hf Hx Hy o Hwf Hbe) as (o1 & o2 & o3 & E1 & E2 & E3 & W & B & O).
  destruct (Hn o3 W B) as (o4 & c4 & E4 & W4 & B4 & O4 & G4).
  { rewrite <- (out_pos o3 W), O, !length_app, !length_int. pose proof (out_pos o Hwf). lia. }
  exists o4, c4. rewrite (lift_ok _ _ _ _ E1), (lift_ok _ _ _ _ E2), (lift_ok _ _ _ _ E3). split_and!; try done.
  rewrite O4, O. by rewrite <- !app_assoc.
Qed.

Lemma emits_nothing c p : context_ok Σ V c -> emits c (fun o => mret o) p [].
Proof. intros Hok o Hwf Hbe Hp. exists o, c. rewrite app_nil_r. split_and!; try done. Qed.

(** The elements of an array that is not empty. *)
Lemma array_emits c qs p : context_ok Σ V c -> pc_version c = V -> Forall (conforms Σ V) qs -> Forall (ready V c) qs ->
  Forall (emits_object writeObject) qs -> 0 <= p ->
  let parts := layout (fun _ => object_bytes be Σ V) 0 qs (p + 4 * Z.of_nat (length qs)) in
  p + blen (ints be parts.1 ++ parts.2) < 2 ^ 31 ->
  emits c (fun o => let innerOffset := o_pos o in
      o ← lift (Output.writeZeroBytes (Z.of_nat (length qs) * 4) o); DefaultPortableWriter.write_elements writeObject innerOffset 0 qs o)
    p (ints be parts.1 ++ parts.2).
Proof.
  intros Hok Hv Hc Hr Hw Hp0 parts Hfit o Hwf Hbe Hp.
  destruct (zeros_append be (length qs) o Hwf Hbe) as (o1 & E1 & W1 & B1 & O1).
  assert (o_pos o1 = p + 4 * Z.of_nat (length qs)) as P1.
  { rewrite <- (out_pos o1 W1), O1, length_app, length_ints, length_replicate. pose proof (out_pos o Hwf). lia. }
  destruct (elements_ok writeObject qs Hw c o1 (out_bytes o) [] [] 0 Hok Hv Hc Hr W1 B1) as (o2 & c2 & E2 & W2 & B2 & O2 & G2).
  - rewrite O1, app_nil_r. done.
  - rewrite P1. fold parts. rewrite length_app in Hfit. unfold parts in *.
    assert (length (layout (fun _ => object_bytes be Σ V) 0 qs (p + 4 * Z.of_nat (length qs))).1 = length qs) as El.
    { generalize 0%nat, (p + 4 * Z.of_nat (length qs)). clear. induction qs as [|q qs IH]; intros n z; cbn; [done|]. by rewrite IH. }
    rewrite length_ints, El in Hfit. lia.
  - rewrite P1 in O2. fold parts in O2. exists o2, c2. cbv zeta. rewrite (lift_ok _ _ _ _ E1). rewrite (out_pos o Hwf) in E2.
    split_and!; done.
Qed.

Lemma array_is_written qs c : context_ok Σ V c -> pc_version c = V -> value_ok s (WPortableArray (Some qs)) -> Forall (conforms Σ V) qs ->
  Forall (ready V c) qs -> Forall (emits_object writeObject) qs -> value_written (WPortableArray (Some qs)) c.
Proof.
  intros Hok Hv [_ [Hsz _]] Hc Hr Hw. destruct Hsame as (Hi & Hn & Hty & Hf & Hcl). set (n := Z.of_nat (length qs)).
  apply (after_header _ c (fun fd o => o ← lift (Output.writeInt n o);
      o ← lift (Output.writeInt (fd_factoryId fd) o); o ← lift (Output.writeInt (fd_classId fd) o);
      match qs with [] => mret o | _ => let innerOffset := o_pos o in
        o ← lift (Output.writeZeroBytes (n * 4) o); DefaultPortableWriter.write_elements writeObject innerOffset 0 qs o end)
      (fun p => let parts := layout (fun _ => object_bytes be Σ V) 0 qs (p + 12 + 4 * n) in
        int_bytes be n ++ int_bytes be (fs_factoryId s) ++ int_bytes be (fs_classId s) ++ ints be parts.1 ++ parts.2)); [|done|].
  - intros bgn o A. cbn. unfold DefaultPortableWriter.writePortableArray. cbn [Output.array_length]. fold n. by destruct qs.
  - intros p Hp0 Hp. rewrite Hf, Hcl. cbv zeta. apply then_emits; [done | apply int_appends; unfold size_ok, in_sint in *; lia | by apply so_factory | by apply so_class|].
      rewrite length_int. replace (p + Z.of_nat 4 + 8) with (p + 12) by lia. cbv zeta in Hp. rewrite !(length_app (int_bytes be _)), !length_int in Hp.
      destruct qs as [|q qs].
    + by apply emits_nothing.
    + unfold n in *. apply array_emits; try done; [lia|]. cbv zeta. lia.
Qed.

Lemma value_is_written (v : Value L) c : context_ok Σ V c -> pc_version c = V -> value_ok s v -> inside (conforms Σ V) v ->
  inside (ready V c) v -> inside (emits_object writeObject) v -> value_written v c.
Proof.
  intros Hok Hv [Ht Hvo] Hc Hr Hw. destruct Hsame as (Hi & Hn & Hty & Hf & Hcl).
  pose proof (so_factory s Hs) as Hf32. pose proof (so_class s Hs) as Hc32.
  destruct v as [x|[q|]|f cl|[qs|]]; cbn [inside] in *.
  - apply (after_header _ c (fun _ o => lift (simple_out x o)) (fun _ => simple_bytes be x)); [|done|].
    + intros bgn o A. cbn. rewrite write_simple_field. unfold DefaultPortableWriter.field, lift. cbn.
      destruct (DefaultPortableWriter.setPosition _ _ _ _) as [[fd' o']|]; done.
    + intros p _ _ o Hwf Hbe Hp. destruct (proj1 (simple_codec be x Hvo) o Hwf Hbe) as (o' & E & W & B & O).
      exists o', c. unfold lift. rewrite E. split_and!; done.
  - destruct Hvo as [Ef Ec]. apply (after_header _ c (fun fd o => o ← lift (Output.writeBoolean false o);
      o ← lift (Output.writeInt (fd_factoryId fd) o); o ← lift (Output.writeInt (fd_classId fd) o); writeObject q o)
      (fun p => byte_bytes 0 ++ int_bytes be (fs_factoryId s) ++ int_bytes be (fs_classId s) ++ object_bytes be Σ V q (p + 9))); [done | done|].
    intros p Hp0 Hp. rewrite Hf, Hcl. apply then_emits; [done | apply (boolean_appends false) | done | done|].
    change (blen (byte_bytes 0)) with 1. replace (p + 1 + 8) with (p + 9) by lia.
    rewrite !length_app, !length_int in Hp. change (length (byte_bytes 0)) with 1%nat in Hp.
    apply Hw; try done; lia.
  - apply (after_header _ c (fun fd o => o ← lift (Output.writeBoolean true o);
      o ← lift (Output.writeInt (fd_factoryId fd) o); o ← lift (Output.writeInt (fd_classId fd) o); mret o)
      (fun p => byte_bytes 1 ++ int_bytes be (fs_factoryId s) ++ int_bytes be (fs_classId s) ++ [])); [done | intros; by rewrite app_nil_r|].
    intros p Hp0 Hp. rewrite Hf, Hcl. apply then_emits; [done | apply (boolean_appends true) | done | done | by apply emits_nothing].
  - destruct Hvo as [-> ->]. apply (after_header _ c (fun _ o => o ← lift (Output.writeBoolean true o);
      o ← lift (Output.writeInt (fs_factoryId s) o); lift (Output.writeInt (fs_classId s) o))
      (fun p => byte_bytes 1 ++ int_bytes be (fs_factoryId s) ++ int_bytes be (fs_classId s))); [|done|].
    + intros bgn o A. cbn [DefaultPortableWriter.write value_type]. unfold DefaultPortableWriter.writeNullPortable, lift, mbind, St_bind, res_bind.
      destruct (DefaultPortableWriter.setPosition _ _ _ _) as [[fd' o']|]; [|done].
      destruct (Output.writeBoolean true o') as [o1|]; [|done]. destruct (Output.writeInt (fs_factoryId s) o1); done.
    + intros p _ _. by apply null_written.
  - rewrite inside_array in Hc, Hr, Hw. by apply array_is_written.
  - apply (after_header _ c (fun fd o => o ← lift (Output.writeInt (-1) o);
      o ← lift (Output.writeInt (fd_factoryId fd) o); o ← lift (Output.writeInt (fd_classId fd) o); mret o)
      (fun p => int_bytes be (-1) ++ int_bytes be (fs_factoryId s) ++ int_bytes be (fs_classId s) ++ [])); [done | intros; by rewrite app_nil_r|].
    intros p Hp0 Hp. rewrite Hf, Hcl. apply then_emits; [done | by apply int_appends | done | done | by apply emits_nothing].
Qed.
End Value.

(** The fields, with the table of their positions. *)
Lemma fields_ok writeObject f cl sch cd bgn (fields : list (js_string * Value L)) : describes V cd f cl sch ->
  Forall (fun x => inside (emits_object writeObject) x.2) fields -> forall c o A ps B sch1 sch2,
  context_ok Σ V c -> pc_version c = V -> sch = sch1 ++ sch2 -> length ps = length sch1 -> Forall field_schema_ok sch2 ->
  fields.*1 = fs_name <$> sch2 -> Forall2 (fun x s => value_ok s x.2) fields sch2 ->
  Forall (fun x => inside (conforms Σ V) x.2) fields -> Forall (fun x => inside (ready V c) x.2) fields ->
  out_wf o -> o_bigEndian o = be -> out_bytes o = A ++ ints be (ps ++ replicate (length fields) 0 ++ [0]) ++ B ->
  let parts := layout (field_bytes be (object_bytes be Σ V) sch) (length ps) fields (o_pos o) in
  o_pos o + blen parts.2 < 2 ^ 31 -> exists o' c',
  DefaultPortableWriter.write_all writeObject (DefaultPortableWriter.mk cd (blen A) bgn) fields o c = (Ok o', c') /\ out_wf o' /\ o_bigEndian o' = be /\
  out_bytes o' = A ++ ints be (ps ++ parts.1 ++ [0]) ++ B ++ parts.2 /\ grows Σ V c c'.
Proof.
  intros Hd. induction fields as [|[name v] fields IH]; intros Hw c o A ps B sch1 sch2 Hok Hv Es El Hs Hn Hf Hc Hr Hwf Hbe Ho parts Hfit.
  - exists o, c. cbn in *. rewrite !app_nil_r in *. split_and!; done.
  - apply Forall2_cons_inv_l in Hf as (s & sch' & Hvo & Hf & ->). cbn in Hn. injection Hn as Hname Hn.
    apply Forall_cons in Hs as [Hs Hs'], Hc as [Hc Hc'], Hr as [Hr Hr'], Hw as [Hw Hw']. unfold parts in Hfit |- *. cbn [layout fst snd] in Hfit |- *.
    assert (sch !! length ps = Some s) as Hk by (rewrite Es, El; by apply list_lookup_middle).
    set (b := field_bytes be (object_bytes be Σ V) sch (length ps) (name, v) (o_pos o)) in *.
    set (rest := layout _ (S (length ps)) fields (o_pos o + blen b)) in *. rewrite length_app in Hfit.
    destruct (de_fields _ _ _ _ _ Hd _ _ Hk) as (fd & Hfd & Hsame). rewrite <- Hname in Hfd.
    assert (b = field_header be name (value_type v) ++ value_bytes be (object_bytes be Σ V) s v (o_pos o + blen (field_header be name (value_type v)))) as Eb
      by (unfold b, field_bytes; cbn [fst snd]; by rewrite Hk).
    destruct (value_is_written writeObject name s (length ps) fd cd Hs Hname Hfd Hsame v c Hok Hv Hvo Hc Hr Hw
      o A (ps ++ 0 :: replicate (length fields) 0 ++ [0]) B bgn Hwf Hbe Ho) as (o1 & c1 & E1 & W1 & B1 & O1 & G1).
    { rewrite length_app. cbn. lia. }
    { rewrite <- Eb. lia. }
    rewrite <- Eb in O1. rewrite insert_app_r_alt, Nat.sub_diag in O1 by lia. cbn [insert list_insert] in O1.
    assert (o_pos o1 = o_pos o + blen b) as P1.
    { rewrite <- (out_pos o1 W1), O1. pose proof (out_pos o Hwf) as P0. rewrite Ho in P0.
      rewrite !length_app, !length_ints, !length_app in *. cbn [length] in *. rewrite !length_app, !length_replicate in *. cbn [length] in *. lia. }
    destruct (IH Hw' c1 o1 A (ps ++ [o_pos o]) (B ++ b) (sch1 ++ [s]) sch') as (o2 & c2 & E2 & W2 & B2 & O2 & G2); try done.
    + apply G1.
    + by rewrite (gr_version _ _ _ _ G1).
    + by rewrite Es, <- app_assoc.
    + rewrite !length_app. cbn. lia.
    + rewrite Forall_forall in Hr' |- *. intros x Hx. apply (inside_impl (ready V c)); [|by apply Hr'].
      destruct (x.2) as [|[q|]| |[qs|]]; cbn; try done; [intros; by eapply ready_grows|]. apply inside_array, Forall_true. intros; by eapply ready_grows.
    + rewrite O1, <- !app_assoc. done.
    + rewrite P1, length_app. cbn [length]. rewrite Nat.add_1_r. fold rest. lia.
    + rewrite P1, length_app in O2. cbn [length] in O2. rewrite Nat.add_1_r in O2. fold rest in O2. exists o2, c2. split.
      * cbn [DefaultPortableWriter.write_all]. rewrite (St_bind_ok _ _ _ _ _ E1). exact E2.
      * split_and!; [done | done | | by eapply context_grows_trans]. rewrite O2, <- !app_assoc. done.
Qed.

Lemma length_layout {A} (enc : nat -> A -> Z -> buffer) xs : forall k p, length (layout enc k xs p).1 = length xs.
Proof. induction xs as [|x xs IH]; intros k p; cbn; [done|]. by rewrite IH. Qed.

(** The constructor of the writer. *)
Lemma new_writer_ok cd n o : ClassDef.getFieldCount cd = Z.of_nat n -> in_sint 32 (Z.of_nat n) -> out_wf o -> o_bigEndian o = be -> exists o',
  DefaultPortableWriter.new cd o = Ok (DefaultPortableWriter.mk cd (o_pos o + 8) (o_pos o), o') /\ out_wf o' /\ o_bigEndian o' = be /\
  out_bytes o' = out_bytes o ++ ints be [0] ++ int_bytes be (Z.of_nat n) ++ ints be (replicate n 0 ++ [0]).
Proof.
  intros Hn H32 Hwf Hbe. destruct (zeros_append be 1 o Hwf Hbe) as (o1 & E1 & W1 & B1 & O1).
  destruct (int_appends be (Z.of_nat n) H32 o1 W1 B1) as (o2 & E2 & W2 & B2 & O2).
  destruct (zeros_append be (S n) o2 W2 B2) as (o3 & E3 & W3 & B3 & O3).
  assert (o_pos o2 = o_pos o + 8) as P2.
  { rewrite <- (out_pos o2 W2), O2, O1, !length_app, length_ints, length_int. pose proof (out_pos o Hwf). cbn [length replicate]. lia. }
  exists o3. unfold DefaultPortableWriter.new. change 4 with (Z.of_nat 1 * 4) at 1. rewrite E1. cbn [mbind res_bind].
  rewrite Hn, E2. cbn [mbind res_bind]. unfold INT_SIZE_IN_BYTES. replace (Z.of_nat n + 1) with (Z.of_nat (S n)) by lia. rewrite E3, P2.
  split_and!; try done. rewrite O3, O2, O1, <- !app_assoc. rewrite <- replicate_S_end. done.
Qed.

Lemma object_emits q : emits_object writeObject q.
Proof.
  induction q as [f cl v fields IH] using portable_rule. intros c p Hok Hv Hc Hr Hp0 Hfit o Hwf Hbe Hp.
  destruct (conforms_class Σ V _ Hc) as (Hver & sch & Es & [Hnd Hs] & Hn & Hf & Hi). cbn [p_factoryId p_classId p_fields] in *.
  cbn [ready] in Hr. rewrite foldr_inside in Hr. destruct Hr as [Hrd Hr].
  destruct (lookup_or_register Σ V HV (mkPortable f cl v fields) c sch Hok Hv Hc Hrd Es) as (c1 & E1 & G1). cbn [p_factoryId p_classId] in E1.
  set (cd := class_of V V f cl sch) in *. assert (describes V cd f cl sch) as Hd by (by apply class_describes).
  assert (length fields = length sch) as Hlen by (by apply Forall2_length in Hf).
  cbn [object_bytes] in Hfit |- *. assert (schema_of Σ f cl = sch) as Esch by (unfold schema_of; by rewrite Es). rewrite Esch in *.
  set (n := length fields) in *. set (start := p + 12 + 4 * (Z.of_nat n + 1)) in *.
  set (parts := layout (field_bytes be (object_bytes be Σ V) sch) 0 fields start) in *.
  assert (length parts.1 = n) as Hlp by apply length_layout.
  rewrite !length_app, !length_int, length_ints, length_app, Hlp in Hfit. cbn [length] in Hfit.
  destruct (int_appends be V HV32 o Hwf Hbe) as (o1 & E2 & W1 & B1 & O1).
  assert (o_pos o1 = p + 4) as P1 by (rewrite <- (out_pos o1 W1), O1, length_app, length_int; pose proof (out_pos o Hwf); lia).
  destruct (new_writer_ok cd n o1) as (o2 & E3 & W2 & B2 & O2); [rewrite (de_count _ _ _ _ _ Hd), Hlen; done | unfold in_sint; lia | done | done|].
  assert (o_pos o2 = start) as P2.
  { rewrite <- (out_pos o2 W2), O2, !length_app, !length_ints, length_int, length_app, length_replicate. pose proof (out_pos o1 W1). cbn [length]. lia. }
  assert (blen ((out_bytes o1 ++ ints be [0]) ++ int_bytes be (Z.of_nat n)) = o_pos o1 + 8) as PA.
  { rewrite !length_app, length_ints, length_int. pose proof (out_pos o1 W1). cbn [length]. lia. }
  destruct (fields_ok writeObject f cl sch cd (o_pos o1) fields Hd IH c1 o2 ((out_bytes o1 ++ ints be [0]) ++ int_bytes be (Z.of_nat n)) [] [] [] sch)
    as (o3 & c2 & E4 & W3 & B3 & O3 & G2); try done.
  { apply G1. }
  { by rewrite (gr_version _ _ _ _ G1). }
  { rewrite Forall_forall in Hr |- *. intros x Hx. apply (inside_impl (ready V c)); [|by apply Hr].
    destruct (x.2) as [|[q|]| |[qs|]]; cbn; try done; [intros; by eapply ready_grows|]. apply inside_array, Forall_true. intros; by eapply ready_grows. }
  { rewrite O2, app_nil_r. by rewrite <- !app_assoc. }
  { rewrite P2. cbn [length]. fold parts. lia. }
  rewrite P2 in O3. cbn [length app] in O3. fold parts in O3. rewrite PA in E4.
  assert (o_pos o3 = start + blen parts.2) as P3.
  { rewrite <- (out_pos o3 W3), O3. rewrite !length_app, !length_ints, length_int, length_app, Hlp. pose proof (out_pos o1 W1). cbn [length]. lia. }
  destruct (patch be o3 (out_bytes o1) [0] (int_bytes be (Z.of_nat n) ++ ints be (parts.1 ++ [0]) ++ parts.2) 0 (o_pos o3)) as (o4 & E5 & W4 & B4 & _ & O4);
    [done | done | by rewrite O3, <- !app_assoc | cbn; lia | unfold in_sint; lia|].
  exists o4, c2. split.
  - cbn [writeObject]. rewrite (St_bind_ok _ _ _ _ _ E1). assert (cd_version cd = V) as Hcv by apply Hd. rewrite Hcv.
    rewrite (lift_ok _ _ _ _ E2), (lift_ok _ _ _ _ E3), (St_bind_ok _ _ _ _ _ E4). unfold lift, DefaultPortableWriter.end_. cbn [DefaultPortableWriter.begin].
    rewrite (out_pos o1 W1) in E5. rewrite Z.mul_0_l, Z.add_0_r in E5. by rewrite E5.
  - split_and!; [done | done | | by eapply context_grows_trans]. rewrite O4, O1, P3. cbn [insert list_insert]. rewrite ints_one, <- !app_assoc. done.
Qed.
End Emit.
