(* ===== verification/PortableReading.v ===== *)
(** * Reading portables

    [PortableSerializer.readObject] finds in the layout of an object the fields its class asks for, whether the definition of
    the class is known or is read from the input first. [expected] says what they are: the values that were written if
    the versions are the same; of another version, the values as the types asked for where these are wide enough, and [undefined] for
    fields the object does not have. *)

From S2P Require Import LongNum ConfigLookup.
From S2P Require Export PortableWriting.
#[local] Open Scope Z_scope.

(** ** What is read *)

(** A value as a type that can hold it. *)
Section Widen.
Context {L : Type} `{LongLib L} (toNumber : L -> js_number).

(** The integer in a field that is not a [Long]. *)
Definition small_integer (s : Simple L) : option Z :=
  match s with VByte x | VChar x | VShort x | VInt x => Some x | _ => None end.

Definition widen (t : FieldType) (s : Simple L) : option (Simple L) :=
  match t, s with
  | DOUBLE, VLong x => Some (VDouble (toNumber x))
  | DOUBLE, VFloat x => Some (VDouble x)
  | SHORT, VByte x => Some (VShort x)
  | INT, _ => VInt <$> small_integer s
  | LONG, VLong x => Some (VLong x)
  | LONG, _ => (fun x => VLong (long_of_Z x)) <$> small_integer s
  | FLOAT, VFloat x => Some (VFloat x)
  | FLOAT, _ => (fun x => VFloat (num_of_Z x)) <$> small_integer s
  | DOUBLE, VDouble x => Some (VDouble x)
  | DOUBLE, _ => (fun x => VDouble (num_of_Z x)) <$> small_integer s
  | _, _ => if decide (simple_type s = t) then Some s else None
  end.
End Widen.

Fixpoint collect {A} (rs : list (res A)) : res (list A) :=
  match rs with
  | [] => Ok []
  | r :: rs => x ← r; xs ← collect rs; Ok (x :: xs)
  end.

Fixpoint find_name {A} (name : js_string) (l : list (js_string * A)) : option A :=
  match l with
  | [] => None
  | (n, a) :: l => if decide (n = name) then Some a else find_name name l
  end.

Section Expected.
Context {L : Type} `{LongLib L} (toNumber : L -> js_number) (factories : gmap Z (Z -> option PortableClass)) (V W : Z).

(** [W] is the version of the client that reads. *)
Definition version_of (class : PortableClass) : res Z :=
  match c_version class with Some v => if v <? 0 then Err RangeError else Ok v | None => Ok W end.

(** The answer to a call of the reader, from the value of the field and what is inside it. *)
Definition expected_value (morphing : bool) (t : FieldType) (found : option (Value L * res (ReadValue L))) : res (ReadValue L) :=
  match found with
  | None => if morphing && bool_decide (t <> PORTABLE) then Ok RUndefined else Err TypeError
  | Some (WSimple s, _) =>
      if morphing then match (if nested t then None else widen toNumber t s) with Some s => Ok (RSimple s) | None => Err TypeError end
      else Ok (RSimple s)
  | Some (v, r) => if decide (value_type v = t) then r else Err TypeError
  end.

Definition expected_nested (expected : Portable L -> res (ReadObject L)) (v : Value L) : res (ReadValue L) :=
  match v with
  | WSimple _ => Err TypeError
  | WPortable (Some q) => r ← expected q; Ok (RPortable (Some r))
  | WPortable None | WNullPortable _ _ => Ok (RPortable None)
  | WPortableArray (Some qs) => rs ← collect (map expected qs); Ok (RPortableArray (Some rs))
  | WPortableArray None => Ok (RPortableArray None)
  end.

Definition expected_fields (morphing : bool) (found : list (js_string * (Value L * res (ReadValue L)))) (calls : list (js_string * FieldType)) :
    res (list (js_string * ReadValue L)) :=
  collect (map (fun '(name, t) => x ← expected_value morphing t (find_name name found); Ok (name, x)) calls).

Fixpoint expected (p : Portable L) : res (ReadObject L) :=
  match p with
  | mkPortable f cl _ fields =>
      class ← createNewPortableInstance factories f cl;
      v ← version_of class;
      values ← expected_fields (negb (V =? v)) (map (fun x => (x.1, (x.2, expected_nested expected x.2))) fields) (c_reads class);
      Ok (mkRead class values)
  end.
End Expected.

(** A class asks for fields of its own version by their types; portables it asks for by their type in any version. The names of fields
    that are not there are not those of inherited properties. *)
Definition class_ok `{Prototype} (V : Z) (sch : Schema) (class : PortableClass) (version : Z) : Prop :=
  Forall (fun '(name, t) => (name ∉ (fs_name <$> sch) -> inherited name = false) /\
    forall s, s ∈ sch -> fs_name s = name -> version = V \/ t = PORTABLE -> fs_type s = t) (c_reads class).

(** ** Places in the layout *)

Lemma ints_lookup be i a zs j z : zs !! j = Some z -> holds_at i a (ints be zs) -> holds_at i (a + 4 * Z.of_nat j) (int_bytes be z).
Proof.
  intros Hj Hi. rewrite <- (take_drop_middle zs j z Hj), ints_app in Hi. apply holds_app in Hi as [_ Hi].
  rewrite length_ints, length_take in Hi. cbn [ints mbind list_bind] in Hi. apply holds_app in Hi as [Hi _].
  apply lookup_lt_Some in Hj. by replace (a + 4 * Z.of_nat j) with (a + Z.of_nat (4 * Nat.min j (length zs))) by lia.
Qed.

Lemma layout_lookup {A} (enc : nat -> A -> Z -> buffer) xs : forall k p j x, xs !! j = Some x -> exists pj,
  (layout enc k xs p).1 !! j = Some pj /\ p <= pj /\ pj + blen (enc (k + j)%nat x pj) <= p + blen (layout enc k xs p).2 /\
  forall i, holds_at i p (layout enc k xs p).2 -> holds_at i pj (enc (k + j)%nat x pj).
Proof.
  induction xs as [|y xs IH]; intros k p j x Hj; [done|]. cbn [layout fst snd]. rewrite length_app. destruct j as [|j]; cbn in Hj.
  - injection Hj as ->. exists p. rewrite Nat.add_0_r. split_and!; [done | lia | lia|]. intros i Hi. by apply holds_app in Hi as [Hi _].
  - destruct (IH (S k) (p + blen (enc k y p)) j x Hj) as (pj & Hl & Hlo & Hhi & Hh). exists pj.
    rewrite Nat.add_succ_r. rewrite Nat.add_succ_l in Hhi, Hh. split_and!; [done | lia | lia|].
    intros i Hi. apply holds_app in Hi as [_ Hi]. by apply Hh.
Qed.

Lemma find_name_spec {A} name (l : list (js_string * A)) :
  match find_name name l with Some a => exists k, l !! k = Some (name, a) | None => name ∉ l.*1 end.
Proof.
  induction l as [|[n a] l IH]; cbn; [set_solver|]. destruct (decide (n = name)) as [->|Hne]; [by exists 0%nat|].
  destruct (find_name name l) as [b|]; [destruct IH as [k Hk]; by exists (S k) | set_solver].
Qed.

Lemma St_bind_err {A B} (m : St A) (g : A -> St B) (d d' : PortableContext) e : m d = (Err e, d') -> (m ≫= g) d = (Err e, d').
Proof. intros E. unfold mbind, St_bind. by rewrite E. Qed.

(** The methods of the two readers. *)
Ltac default_methods := cbv delta [
    DefaultPortableReader.readByte DefaultPortableReader.readBoolean DefaultPortableReader.readChar
    DefaultPortableReader.readShort DefaultPortableReader.readInt DefaultPortableReader.readLong DefaultPortableReader.readFloat
    DefaultPortableReader.readDouble DefaultPortableReader.readString DefaultPortableReader.readByteArray
    DefaultPortableReader.readBooleanArray DefaultPortableReader.readCharArray DefaultPortableReader.readShortArray
    DefaultPortableReader.readIntArray DefaultPortableReader.readLongArray DefaultPortableReader.readFloatArray
    DefaultPortableReader.readDoubleArray DefaultPortableReader.readStringArray DefaultPortableReader.field]; cbv beta.
Ltac morphing_methods := cbv delta [
    MorphingPortableReader.readByte MorphingPortableReader.readBoolean MorphingPortableReader.readChar
    MorphingPortableReader.readShort MorphingPortableReader.readInt MorphingPortableReader.readLong
    MorphingPortableReader.readFloat MorphingPortableReader.readDouble MorphingPortableReader.readString
    MorphingPortableReader.readByteArray MorphingPortableReader.readBooleanArray MorphingPortableReader.readCharArray
    MorphingPortableReader.readShortArray MorphingPortableReader.readIntArray MorphingPortableReader.readLongArray
    MorphingPortableReader.readFloatArray MorphingPortableReader.readDoubleArray MorphingPortableReader.readStringArray
    MorphingPortableReader.readPortableArray MorphingPortableReader.validateCompatibleAndRead MorphingPortableReader.by_type
    MorphingPortableReader.has MorphingPortableReader.some MorphingPortableReader.conv or_undefined]; cbv beta.

Section Reading.
Context `{Uninit} `{Prototype} {L : Type} `{LongLaws L} (toNumber : L -> js_number) (factories : gmap Z (Z -> option PortableClass)).
Context (be : bool) (Σ : Schemas) (V W : Z) (HV32 : in_sint 32 V).
Context (Hclasses : forall f cl sch class v, Σ f cl = Some sch -> createNewPortableInstance factories f cl = Ok class ->
  version_of W class = Ok v -> class_ok V sch class v).
(** The input; only its position changes. *)
Context (i : ObjectDataInput) (Hbe : i_bigEndian i = be).
Implicit Types (q : Portable L) (d : PortableContext) (p : Z).
Abbreviation at_ p := (Input.set_pos p i).
Abbreviation good d := (context_ok Σ V d /\ pc_version d = W).

(** The object [q] is at position [p]. *)
Definition object_at q p : Prop :=
  conforms Σ V q /\ 0 <= p /\ p + blen (object_bytes be Σ V q p) < 2 ^ 31 /\ holds_at i p (object_bytes be Σ V q p).
Definition value_at (s : FieldSchema) (v : Value L) p : Prop :=
  0 <= p /\ p + blen (value_bytes be (object_bytes be Σ V) s v p) < 2 ^ 31 /\ holds_at i p (value_bytes be (object_bytes be Σ V) s v p).

Lemma read_int z p p' : in_sint 32 z -> holds_at i p (int_bytes be z) ->
  Input.readInt None (at_ p) = Ok (z, at_ (p + 4)) /\ Input.readInt (Some p) (at_ p') = Ok (z, at_ p').
Proof.
  intros Hz Hh. split; [by apply (int_reads be z (at_ p)) | by apply (int_reads be z (at_ p'))].
Qed.
Lemma read_short z p p' : in_sint 16 z -> holds_at i p (short_bytes be z) ->
  Input.readShort None (at_ p) = Ok (z, at_ (p + 2)) /\ Input.readShort (Some p) (at_ p') = Ok (z, at_ p').
Proof.
  intros Hz Hh. split; [by apply (short_reads be z (at_ p)) | by apply (short_reads be z (at_ p'))].
Qed.
Lemma read_byte z p : in_uint 8 z -> holds_at i p (byte_bytes z) -> Input.readByte None (at_ p) = Ok (z, at_ (p + 1)).
Proof. intros Hz Hh. by apply (byte_reads z (at_ p)). Qed.
Lemma read_boolean (b : bool) p : holds_at i p (byte_bytes (if b then 1 else 0)) -> Input.readBoolean None (at_ p) = Ok (b, at_ (p + 1)).
Proof.
  intros Hh. unfold Input.readBoolean. change Input.read with Input.readByte. rewrite (read_byte (if b then 1 else 0) p) by (done || by destruct b). cbn. by destruct b.
Qed.

Lemma length_int_be z : blen (int_bytes be z) = 4.
Proof. by rewrite length_int. Qed.

(** An object that is there, its class and where its fields are. *)
Record located f cl (fields : list (js_string * Value L)) (sch : Schema) p (stop : Z) : Prop := {
  lo_schema : Σ f cl = Some sch;
  lo_ok : schema_ok sch;
  lo_names : fields.*1 = fs_name <$> sch;
  lo_values : Forall2 (fun x s => value_ok s x.2) fields sch;
  lo_inside : Forall (fun x => inside (conforms Σ V) x.2) fields;
  lo_version : holds_at i p (int_bytes be V);
  lo_stop : in_sint 32 stop /\ holds_at i (p + 4) (int_bytes be stop);
  lo_count : in_sint 32 (Z.of_nat (length fields)) /\ holds_at i (p + 8) (int_bytes be (Z.of_nat (length fields)));
  lo_room : room (at_ (p + 12));
  lo_field k name v s : fields !! k = Some (name, v) -> sch !! k = Some s -> exists pk,
    in_sint 32 pk /\ holds_at i (p + 12 + 4 * Z.of_nat k) (int_bytes be pk) /\ holds_at i pk (field_header be name (value_type v)) /\
    value_at s v (pk + Z.of_nat (length name) + 3);
}.

Lemma object_located f cl v fields p : object_at (mkPortable f cl v fields) p ->
  exists sch, located f cl fields sch p (p + blen (object_bytes be Σ V (mkPortable f cl v fields) p)).
Proof.
  intros (Hc & Hp & Hfit & Hh). destruct (conforms_class Σ V _ Hc) as (_ & sch & Es & Hok & Hn & Hf & Hi). cbn [p_factoryId p_classId p_fields] in *.
  exists sch. assert (length fields = length sch) as Hlen by (by apply Forall2_length in Hf).
  cbn [object_bytes] in Hfit, Hh |- *. assert (schema_of Σ f cl = sch) as Esch by (unfold schema_of; by rewrite Es). rewrite Esch in *.
  set (n := length fields) in *. set (start := p + 12 + 4 * (Z.of_nat n + 1)) in *.
  set (parts := layout (field_bytes be (object_bytes be Σ V) sch) 0 fields start) in *.
  assert (length parts.1 = n) as Hlp by apply length_layout.
  assert (blen (int_bytes be V ++ int_bytes be (start + blen parts.2) ++ int_bytes be (Z.of_nat n) ++ ints be (parts.1 ++ [0]) ++ parts.2) =
    start + blen parts.2 - p) as Hsize.
  { rewrite !length_app, !length_int, length_ints, length_app, Hlp. cbn [length]. lia. }
  rewrite Hsize in Hfit |- *. replace (p + (start + blen parts.2 - p)) with (start + blen parts.2) in * by lia.
  rewrite !holds_app, !length_int_be in Hh. destruct Hh as (K1 & K2 & K3 & K4 & K5).
  replace (p + 4 + 4) with (p + 8) in * by lia. replace (p + 8 + 4) with (p + 12) in * by lia.
  rewrite length_ints, length_app, Hlp in K5. cbn [length] in K5. replace (p + 12 + Z.of_nat (4 * (n + 1))) with start in K5 by lia.
  split; try done.
  - split; [unfold in_sint; lia | done].
  - split; [unfold in_sint; lia | done].
  - destruct K4 as [K4 _]. apply in_bounds_true in K4. rewrite length_ints, length_app in K4. cbn [length] in K4.
    unfold room, CHAR_SIZE_IN_BYTES. cbn. lia.
  - intros k name x s Hk Hs. destruct (layout_lookup (field_bytes be (object_bytes be Σ V) sch) fields 0 start k (name, x) Hk) as (pk & Hl & Hlo & Hhi & Hpk).
    fold parts in Hl, Hhi, Hpk. specialize (Hpk i K5). cbn [Nat.add] in Hhi, Hpk. unfold field_bytes in Hhi, Hpk. cbn [fst snd] in Hhi, Hpk.
    rewrite Hs in Hhi, Hpk. cbn [default from_option id] in Hhi, Hpk.
    assert (name_ok name) as Hname.
    { assert (name = fs_name s) as ->.
      { pose proof (f_equal (fun l => l !! k) Hn) as E. cbn beta in E. rewrite !list_lookup_fmap in E. rewrite Hk, Hs in E. by injection E. }
      destruct Hok as [_ Hok]. rewrite Forall_lookup in Hok. by apply so_name, (Hok k). }
    pose proof (length_header be name (value_type x) Hname) as Hlh. rewrite Hlh in Hhi, Hpk. rewrite length_app in Hhi.
    apply holds_app in Hpk as [Hp1 Hp2]. rewrite Hlh in Hp2.
    exists pk. split_and!; [unfold in_sint; lia | | done|].
    + apply (ints_lookup be i _ (parts.1 ++ [0])); [|done]. by apply lookup_app_l_Some.
    + unfold value_at. replace (pk + Z.of_nat (length name) + 3) with (pk + (Z.of_nat (length name) + 3)) by lia.
      split_and!; [lia | lia | done].
Qed.

(** ** Definitions from the input *)

(** What is inside the value of a field. *)
Lemma portable_at s q p : conforms Σ V q -> field_schema_ok s -> value_at s (WPortable (Some q)) p ->
  holds_at i p (byte_bytes 0) /\ holds_at i (p + 1) (int_bytes be (fs_factoryId s)) /\ holds_at i (p + 5) (int_bytes be (fs_classId s)) /\
  object_at q (p + 9).
Proof.
  intros Hc Hs (Hp & Hfit & Hh). cbn [value_bytes] in Hfit, Hh. rewrite !length_app, !length_int in Hfit. change (length (byte_bytes 0)) with 1%nat in Hfit.
  rewrite !holds_app, !length_int_be in Hh. change (blen (byte_bytes 0)) with 1 in Hh. destruct Hh as (K1 & K2 & K3 & K4).
  replace (p + 1 + 4) with (p + 5) in * by lia. replace (p + 5 + 4) with (p + 9) in * by lia. split_and!; try done. split_and!; try done; lia.
Qed.
Lemma null_at s v p : v = WPortable None \/ v = WNullPortable (fs_factoryId s) (fs_classId s) -> value_at s v p ->
  holds_at i p (byte_bytes 1) /\ holds_at i (p + 1) (int_bytes be (fs_factoryId s)) /\ holds_at i (p + 5) (int_bytes be (fs_classId s)).
Proof.
  intros Hv (Hp & Hfit & Hh). assert (holds_at i p (byte_bytes 1 ++ int_bytes be (fs_factoryId s) ++ int_bytes be (fs_classId s))) as Hh'
    by (destruct Hv as [-> | ->]; exact Hh).
  rewrite !holds_app, length_int_be in Hh'. change (blen (byte_bytes 1)) with 1 in Hh'. destruct Hh' as (K1 & K2 & K3).
  replace (p + 1 + 4) with (p + 5) in * by lia. done.
Qed.
Lemma array_at s (ps : option (list (Portable L))) p : value_ok s (WPortableArray ps) -> inside (conforms Σ V) (WPortableArray ps) -> value_at s (WPortableArray ps) p ->
  let n := Output.array_length ps in
  in_sint 32 n /\ holds_at i p (int_bytes be n) /\ holds_at i (p + 4) (int_bytes be (fs_factoryId s)) /\ holds_at i (p + 8) (int_bytes be (fs_classId s)) /\
  match ps with
  | Some qs => forall j q, qs !! j = Some q -> exists pj, in_sint 32 pj /\ holds_at i (p + 12 + 4 * Z.of_nat j) (int_bytes be pj) /\ object_at q pj
  | None => True
  end.
Proof.
  intros [_ Hvo] Hc (Hp & Hfit & Hh) n. assert (in_sint 32 n) as Hn.
  { apply array_length_range. destruct ps as [qs|]; [|done]. destruct Hvo as [Hsz _]. split; [done | by apply Forall_true]. }
  destruct ps as [qs|]; cbn [value_bytes] in Hfit, Hh.
  - change (Output.array_length (Some qs)) with (Z.of_nat (length qs)) in *.
    set (parts := layout _ 0 qs _) in *. assert (length parts.1 = length qs) as Hlp by apply length_layout.
    rewrite !holds_app, !length_int_be, length_ints, Hlp in Hh. destruct Hh as (K1 & K2 & K3 & K4 & K5).
    replace (p + 4 + 4) with (p + 8) in * by lia. replace (p + 8 + 4) with (p + 12) in * by lia. split_and!; try done.
    intros j q Hj. destruct (layout_lookup (fun _ => object_bytes be Σ V) qs 0 (p + 12 + 4 * Z.of_nat (length qs)) j q Hj) as (pj & Hl & Hlo & Hhi & Hpj).
    fold parts in Hl, Hhi, Hpj. rewrite !length_app, !length_int, length_ints, Hlp in Hfit. exists pj.
    split_and!; [unfold in_sint; lia | by apply (ints_lookup be i _ parts.1)|]. split_and!; [|lia | lia|].
    + cbn [inside] in Hc. rewrite inside_array, Forall_lookup in Hc. by apply (Hc j).
    + apply Hpj. by replace (p + 12 + 4 * Z.of_nat (length qs)) with (p + 12 + Z.of_nat (4 * length qs)) by lia.
  - rewrite !holds_app, !length_int_be in Hh. destruct Hh as (K1 & K2 & K3). replace (p + 4 + 4) with (p + 8) in * by lia. done.
Qed.

Lemma object_version q p : object_at q p -> holds_at i p (int_bytes be V) /\ p + 4 <= blen (i_buffer i).
Proof.
  destruct q as [f cl v fields]. intros Hq. destruct (object_located _ _ _ _ _ Hq) as [sch Hl]. pose proof (lo_version _ _ _ _ _ _ Hl) as Hh.
  split; [done|]. destruct Hh as [Hb _]. apply in_bounds_true in Hb. rewrite length_int in Hb. lia.
Qed.

Definition reads_definition (rec : ObjectDataInput -> Z -> Z -> Z -> St (ClassDefinition * ObjectDataInput)) q : Prop := forall p d,
  object_at q p -> good d -> exists cd p' d', rec (at_ (p + 4)) (p_factoryId q) (p_classId q) V d = (Ok (cd, at_ p'), d') /\ grows Σ V d d' /\
  forall sch, Σ (p_factoryId q) (p_classId q) = Some sch -> describes V cd (p_factoryId q) (p_classId q) sch.

Lemma null_nested rec s v register p d : field_schema_ok s -> v = WPortable None \/ v = WNullPortable (fs_factoryId s) (fs_classId s) -> value_at s v p -> good d ->
  read_nested rec (FieldType_value PORTABLE) register (at_ p) d = (Ok (false, fs_factoryId s, fs_classId s, W, at_ (p + 9)), d).
Proof.
  intros Hs Hv Hat [_ Hd]. destruct (null_at s v p Hv Hat) as (K1 & K2 & K3). unfold read_nested.
  rewrite (St_bind_ok _ _ d d W) by (unfold context_getVersion; by rewrite Hd). rewrite Z.eqb_refl, (lift_ok _ _ _ _ (read_boolean true p K1)).
  rewrite (lift_ok _ _ _ _ (proj1 (read_int _ _ 0 (so_factory s Hs) K2))). replace (p + 1 + 4) with (p + 5) by lia.
  rewrite (lift_ok _ _ _ _ (proj1 (read_int _ _ 0 (so_class s Hs) K3))). replace (p + 5 + 4) with (p + 9) by lia. done.
Qed.

Lemma nested_read rec s v register p d : field_schema_ok s -> value_ok s v -> inside (conforms Σ V) v -> inside (reads_definition rec) v ->
  value_at s v p -> good d -> exists register' version p' d',
  read_nested rec (FieldType_value (value_type v)) register (at_ p) d = (Ok (register', fs_factoryId s, fs_classId s, version, at_ p'), d') /\
  grows Σ V d d' /\ (register' = true -> register = true /\ version = if nested (fs_type s) then V else W).
Proof.
  intros Hs Hvo Hc Hrec Hat [Hok Hd]. pose proof (so_factory s Hs) as Hf32. pose proof (so_class s Hs) as Hc32.
  assert (forall d, good d -> context_getVersion d = (Ok W, d)) as Hver by (intros ? [_ Hw]; unfold context_getVersion; by rewrite Hw).
  destruct v as [x|[q|]|f cl|ps]; cbn [inside] in *.
  - destruct Hvo as [Ht _]. cbn [value_type] in Ht |- *. unfold read_nested. rewrite (St_bind_ok _ _ _ _ _ (Hver d (conj Hok Hd))). exists register, W, p, d.
    assert (nested (fs_type s) = false) as Hn by (rewrite Ht; by destruct x). destruct (so_simple s Hs Hn) as [-> ->]. rewrite Hn.
    split; [by destruct x | split; [by apply context_grows_refl | done]].
  - destruct Hvo as [Ht [Ef Ec]]. cbn [value_type] in Ht |- *. destruct (portable_at s q p Hc Hs Hat) as (K1 & K2 & K3 & K4).
    unfold read_nested. rewrite (St_bind_ok _ _ _ _ _ (Hver d (conj Hok Hd))). change (FieldType_value PORTABLE =? FieldType_value PORTABLE) with true. cbv iota.
    rewrite (lift_ok _ _ _ _ (read_boolean false p K1)). rewrite (lift_ok _ _ _ _ (proj1 (read_int _ _ 0 Hf32 K2))).
    replace (p + 1 + 4) with (p + 5) by lia. rewrite (lift_ok _ _ _ _ (proj1 (read_int _ _ 0 Hc32 K3))). replace (p + 5 + 4) with (p + 9) by lia.
    destruct register.
    + rewrite (lift_ok _ _ _ _ (proj1 (read_int _ _ 0 HV32 (proj1 (object_version _ _ K4))))).
      destruct (Hrec (p + 9) d K4 (conj Hok Hd)) as (cd & p' & d' & E & G & _). rewrite Ef, Ec in E. rewrite (St_bind_ok _ _ _ _ _ E).
      exists true, V, p', d'. rewrite Ht. done.
    + exists false, W, (p + 9), d. split; [done | split; [by apply context_grows_refl | done]].
  - exists false, W, (p + 9), d. split; [|split; [by apply context_grows_refl | done]].
    exact (null_nested rec s _ register p d Hs (or_introl eq_refl) Hat (conj Hok Hd)).
  - destruct Hvo as [Ht [-> ->]]. exists false, W, (p + 9), d. split; [|split; [by apply context_grows_refl | done]].
    exact (null_nested rec s _ register p d Hs (or_intror eq_refl) Hat (conj Hok Hd)).
  - destruct (array_at s ps p Hvo Hc Hat) as (Hn & K1 & K2 & K3 & K4). destruct Hvo as [Ht Hvo]. cbn [value_type] in Ht |- *.
    unfold read_nested. rewrite (St_bind_ok _ _ _ _ _ (Hver d (conj Hok Hd))).
    change (FieldType_value PORTABLE_ARRAY =? FieldType_value PORTABLE) with false. cbv iota.
    change (FieldType_value PORTABLE_ARRAY =? FieldType_value PORTABLE_ARRAY) with true. cbv iota.
    rewrite (lift_ok _ _ _ _ (proj1 (read_int _ _ 0 Hn K1))), (lift_ok _ _ _ _ (proj1 (read_int _ _ 0 Hf32 K2))).
    replace (p + 4 + 4) with (p + 8) by lia. rewrite (lift_ok _ _ _ _ (proj1 (read_int _ _ 0 Hc32 K3))). replace (p + 8 + 4) with (p + 12) by lia.
    destruct ps as [[|q qs]|]; cbn [Output.array_length length].
    + exists false, W, (p + 12), d. split; [done | split; [by apply context_grows_refl | done]].
    + rewrite (proj2 (Z.gtb_lt _ _)) by lia. destruct (K4 0%nat q eq_refl) as (pj & Hpj & Kj & Hq). rewrite Z.mul_0_r, Z.add_0_r in Kj.
      rewrite (lift_ok _ _ _ _ (proj1 (read_int _ _ 0 Hpj Kj))). rewrite (lift_ok _ _ _ _ (proj1 (read_int _ pj 0 HV32 (proj1 (object_version _ _ Hq))))).
      destruct Hrec as [Hrec _]. destruct Hvo as [_ Hids]. apply Forall_cons in Hids as [[Ef Ec] _].
      destruct (Hrec pj d Hq (conj Hok Hd)) as (cd & p' & d' & E & G & _). rewrite Ef, Ec in E. rewrite (St_bind_ok _ _ _ _ _ E).
      exists register, V, p', d'. rewrite Ht. done.
    + exists false, W, (p + 12), d. split; [done | split; [by apply context_grows_refl | done]].
Qed.

Lemma name_read name p : Forall (fun u => 0 <= u < 0x80) name -> holds_at i p (Buffer_from name) ->
  read_chars (length name) (at_ p) = Ok (name, at_ (p + Z.of_nat (length name))).
Proof.
  unfold Buffer_from. intros Ha. rewrite (utf8_ascii name Ha). revert p. induction Ha as [|u name Hu _ IH]; intros p Hh; cbn [read_chars length].
  - cbn. by rewrite Z.add_0_r.
  - cbn [mbind list_bind] in Hh. apply holds_app in Hh as [K1 K2]. rewrite length_le_split in K2. change (Z.of_nat 1) with 1 in K2.
    change Input.readUnsignedByte with Input.readByte. rewrite (read_byte u p) by (done || (unfold in_uint; lia)). cbn [mbind res_bind]. rewrite (IH (p + 1) K2). cbn [mbind res_bind].
    do 3 f_equal. lia.
Qed.

Lemma header_read name t p : name_ok name -> holds_at i p (field_header be name t) ->
  Input.readShort None (at_ p) = Ok (Z.of_nat (length name), at_ (p + 2)) /\
  (forall p', Input.readShort (Some p) (at_ p') = Ok (Z.of_nat (length name), at_ p')) /\
  read_chars (length name) (at_ (p + 2)) = Ok (name, at_ (p + 2 + Z.of_nat (length name))) /\
  Input.readByte None (at_ (p + 2 + Z.of_nat (length name))) = Ok (FieldType_value t, at_ (p + Z.of_nat (length name) + 3)).
Proof.
  intros Hn Hh. unfold field_header in Hh. rewrite !holds_app, length_short, length_name in Hh by done. destruct Hh as (K1 & K2 & K3), Hn as [Hl Ha].
  assert (in_sint 16 (Z.of_nat (length name))) as Hs by (unfold in_sint; lia).
  split_and!; [by apply (read_short _ _ 0) | intros p'; by apply read_short | by apply name_read|].
  rewrite (read_byte (FieldType_value t)) by (done || apply type_byte). do 3 f_equal. lia.
Qed.

Section Definition_.
Context (rec : ObjectDataInput -> Z -> Z -> Z -> St (ClassDefinition * ObjectDataInput)).
Context (f cl : Z) (fields : list (js_string * Value L)) (sch : Schema) (p stop : Z) (Hloc : located f cl fields sch p stop).
Context (Hrec : Forall (fun x => inside (reads_definition rec) x.2) fields).

(** The first [k] fields are defined; as the schema has them if the class is going to be registered. *)
Definition building (register : bool) (b : Builder.t) (k : nat) : Prop := exists fds,
  b = Builder.mk f cl V fds (Z.of_nat k) false /\ length fds = k /\
  (forall j s fd, sch !! j = Some s -> fds !! j = Some fd -> same_field j s fd) /\
  (register = true -> fds = fields_of V W (take k sch)).

Lemma field_of_index k name v : fields !! k = Some (name, v) -> exists s, sch !! k = Some s /\ name = fs_name s /\ field_schema_ok s /\ value_ok s v /\
  inside (conforms Σ V) v.
Proof.
  intros Hk. pose proof (lo_values _ _ _ _ _ _ Hloc) as Hv. pose proof (lo_names _ _ _ _ _ _ Hloc) as Hn.
  destruct (Forall2_lookup_l _ _ _ _ _ Hv Hk) as (s & Hs & Hvo). exists s. split_and!; try done.
  - pose proof (f_equal (fun l => l !! k) Hn) as E. cbn beta in E. rewrite !list_lookup_fmap in E. rewrite Hk, Hs in E. by injection E.
  - destruct (lo_ok _ _ _ _ _ _ Hloc) as [_ Hok]. rewrite Forall_lookup in Hok. by apply (Hok k).
  - pose proof (lo_inside _ _ _ _ _ _ Hloc) as Hi. rewrite Forall_lookup in Hi. exact (Hi k _ Hk).
Qed.

Lemma building_step register register' b k s version : building register b k -> sch !! k = Some s ->
  (register' = true -> register = true /\ version = if nested (fs_type s) then V else W) -> exists b',
  Builder.addField (mkField (Z.of_nat k) (fs_name s) (FieldType_value (fs_type s)) version (fs_factoryId s) (fs_classId s)) b = Ok b' /\
  building register' b' (S k).
Proof.
  intros (fds & -> & Hl & Hsame & Hreg) Hs Hr. eexists. split.
  - unfold Builder.addField. cbn. rewrite Z.eqb_refl. cbn. done.
  - eexists. split; [do 2 f_equal; lia|]. split_and!.
    + rewrite length_app. cbn. lia.
    + intros j s' fd Hs' Hfd. destruct (decide (j = k)) as [->|Hne].
      * rewrite (list_lookup_middle fds [] _ k) in Hfd by done. injection Hfd as <-. assert (s' = s) as -> by congruence. done.
      * apply (Hsame j s' fd Hs'). apply lookup_app_Some in Hfd as [Hfd|[Hge Hfd]]; [done|].
        apply lookup_lt_Some in Hfd. cbn in Hfd. lia.
    + intros E. destruct (Hr E) as [-> ->]. rewrite (Hreg eq_refl). rewrite (take_S_r _ _ s Hs), fields_of_app.
      rewrite length_take_le by (apply lookup_lt_Some in Hs; lia). done.
Qed.

Lemma definitions_read n : forall k register b p0 d, (n + k)%nat = length fields -> building register b k -> good d -> exists register' b' p' d',
  read_definitions rec (p + 12) n (Z.of_nat k) register b (at_ p0) d = (Ok (register', b', at_ p'), d') /\
  building register' b' (length fields) /\ grows Σ V d d'.
Proof.
  induction n as [|n IH]; intros k register b p0 d Hn Hb Hd.
  - exists register, b, p0, d. cbn in Hn. subst k. split; [done | split; [done | by apply context_grows_refl, Hd]].
  - destruct (lookup_lt_is_Some_2 fields k) as [[name v] Hk]; [lia|]. destruct (field_of_index k name v Hk) as (s & Hs & Hname & Hso & Hvo & Hc).
    destruct (lo_field _ _ _ _ _ _ Hloc k name v s Hk Hs) as (pk & Hpk & K1 & K2 & Hat).
    assert (name_ok name) as Hnok by (rewrite Hname; by apply so_name). destruct (header_read name _ pk Hnok K2) as (R1 & _ & R2 & R3).
    assert (inside (reads_definition rec) v) as Hrv by (rewrite Forall_lookup in Hrec; exact (Hrec k _ Hk)).
    destruct (nested_read rec s v register _ d Hso Hvo Hc Hrv Hat Hd) as (register' & version & p' & d' & E & G & Hreg).
    destruct (building_step register register' b k s version Hb Hs Hreg) as (b' & Eb & Hb').
    destruct (IH (S k) register' b' p' d') as (r2 & b2 & p2 & d2 & E2 & Hb2 & G2); [lia | done | split; [apply G | by rewrite (gr_version _ _ _ _ G), (proj2 Hd)]|].
    exists r2, b2, p2, d2. split; [|split; [done | by eapply context_grows_trans]].
    cbn [read_definitions]. unfold INT_SIZE_IN_BYTES. rewrite (Z.mul_comm (Z.of_nat k) 4).
    rewrite (lift_ok _ _ _ _ (proj2 (read_int pk _ p0 Hpk K1))). rewrite (lift_ok _ _ _ _ R1). rewrite Nat2Z.id, (lift_ok _ _ _ _ R2), (lift_ok _ _ _ _ R3).
    rewrite (St_bind_ok _ _ _ _ _ E). destruct Hvo as [Ht _]. rewrite <- Ht, Hname, (lift_ok _ _ _ _ Eb).
    replace (Z.of_nat k + 1) with (Z.of_nat (S k)) by lia. exact E2.
Qed.
End Definition_.

Lemma depth_inside f cl v (fields : list (js_string * Value L)) n : (depth (mkPortable f cl v fields) <= S n)%nat ->
  Forall (fun x => inside (fun q => (depth q <= n)%nat) x.2) fields.
Proof.
  cbn [depth]. intros Hd. apply le_S_n in Hd. induction fields as [|[name x] fields IH]; [constructor|]. cbn in Hd. constructor; [|apply IH; lia].
  cbn. destruct x as [|[q|]| |[qs|]]; cbn; try done; [lia|]. rewrite inside_array.
  assert (foldr (fun q (m : nat) => Nat.max m (depth q)) 0%nat qs <= n)%nat as Hq by lia. clear -Hq.
  induction qs as [|q qs IH]; [constructor|]. cbn in Hq. constructor; [lia | apply IH; lia].
Qed.

Lemma definition_read q : forall fuel, (depth q <= fuel)%nat -> reads_definition (readClassDefinitionFromInput fuel) q.
Proof.
  induction q as [f cl v fields IH] using portable_rule. intros [|fuel] Hfuel p d Hq Hd; [cbn in Hfuel; lia|].
  destruct (object_located _ _ _ _ _ Hq) as [sch Hloc]. cbn [p_factoryId p_classId].
  assert (Forall (fun x => inside (reads_definition (readClassDefinitionFromInput fuel)) x.2) fields) as Hrec.
  { apply depth_inside in Hfuel. rewrite Forall_forall in IH, Hfuel |- *. intros x Hx.
    refine (inside_impl _ _ _ _ (inside_and _ _ _ (IH x Hx) (Hfuel x Hx))).
    destruct (x.2) as [|[q|]| |[qs|]]; cbn; try done; [intros [Hr Hf]; by apply Hr|]. apply inside_array, Forall_true. intros q [Hr Hf]. by apply Hr. }
  destruct (lo_stop _ _ _ _ _ _ Hloc) as [S1 S2]. destruct (lo_count _ _ _ _ _ _ Hloc) as [C1 C2].
  destruct (definitions_read _ f cl fields sch p _ Hloc Hrec (length fields) 0 true (Builder.new f cl V) (p + 12) d) as (reg & b & p' & d' & E & Hb & G);
    [lia | by exists [] | done|].
  assert (length fields = length sch) as Hlen by (exact (Forall2_length _ _ _ (lo_values _ _ _ _ _ _ Hloc))).
  destruct Hb as (fds & -> & Hlf & Hsame & Hreg).
  assert (describes V (built V f cl fds) f cl sch) as Hdes by (apply built_describes; [apply Hloc | lia | done]).
  cbn [readClassDefinitionFromInput]. rewrite (lift_ok _ _ _ _ (proj1 (read_int _ _ 0 S1 S2))). replace (p + 4 + 4) with (p + 8) by lia.
  rewrite (lift_ok _ _ _ _ (proj1 (read_int _ _ 0 C1 C2))). replace (p + 8 + 4) with (p + 12) by lia. cbn [i_pos Input.set_pos].
  rewrite Nat2Z.id, (St_bind_ok _ _ _ _ _ E). cbn [Builder.build fst]. change (foldl _ _ fds) with (built V f cl fds).
  assert (forall sch', Σ f cl = Some sch' -> sch' = sch) as Hsch by (intros sch' Es'; rewrite (lo_schema _ _ _ _ _ _ Hloc) in Es'; congruence).
  destruct reg.
  - rewrite (Hreg eq_refl) in *. rewrite Hlen, firstn_all in *.
    destruct (definition_registered Σ V d' f cl sch (gr_ok _ _ _ _ G) (lo_schema _ _ _ _ _ _ Hloc)) as (d2 & E2 & G2 & _).
    rewrite (gr_version _ _ _ _ G), (proj2 Hd) in E2. rewrite (St_bind_ok _ _ _ _ _ E2).
    exists (class_of V W f cl sch), p', d2. split; [done | split; [by eapply context_grows_trans|]]. intros sch' Es'. by rewrite (Hsch sch' Es').
  - exists (built V f cl fds), p', d'. split; [done | split; [done|]]. intros sch' Es'. by rewrite (Hsch sch' Es').
Qed.

(** ** Fields *)

(** A result and the input behind it. *)
Definition arrives {A} (r : res A) p : res (A * ObjectDataInput) := match r with Ok a => Ok (a, at_ p) | Err e => Err e end.

Definition reads_object (rec : ObjectDataInput -> Z -> Z -> St (ReadObject L * ObjectDataInput)) q : Prop := forall p d,
  object_at q p -> good d -> exists d', grows Σ V d d' /\
  rec (at_ p) (p_factoryId q) (p_classId q) d = (arrives (expected toNumber factories V W q) (p + blen (object_bytes be Σ V q p)), d').

Section Fields.
Context (rec : ObjectDataInput -> Z -> Z -> St (ReadObject L * ObjectDataInput)).
Context (f cl : Z) (fields : list (js_string * Value L)) (sch : Schema) (p stop : Z) (Hloc : located f cl fields sch p stop).
Context (Hrec : Forall (fun x => inside (reads_object rec) x.2) fields).
Context (cd : ClassDefinition) (fin : Z) (Hdes : describes V cd f cl sch).
Let r := DefaultPortableReader.mk cd (p + 12) fin false.
Let here := at_ (p + 12).

Lemma field_position k name v : fields !! k = Some (name, v) -> exists s a fd, sch !! k = Some s /\ name = fs_name s /\ field_schema_ok s /\ value_ok s v /\
  inside (conforms Σ V) v /\ value_at s v a /\ ClassDef.getField name cd = OwnField fd /\ fd_type fd = FieldType_value (value_type v) /\
  DefaultPortableReader.positionByField name r here = Ok a.
Proof.
  intros Hk. destruct (field_of_index f cl fields sch p stop Hloc k name v Hk) as (s & Hs & Hname & Hso & Hvo & Hc).
  destruct (lo_field _ _ _ _ _ _ Hloc k name v s Hk Hs) as (pk & Hpk & K1 & K2 & Hat).
  assert (name_ok name) as Hnok by (rewrite Hname; by apply so_name). destruct (header_read name _ pk Hnok K2) as (_ & R1 & _).
  destruct (de_fields _ _ _ _ _ Hdes k s Hs) as (fd & Hfd & Hi & _ & Hty & _). rewrite <- Hname in Hfd.
  assert (ClassDef.getField name cd = OwnField fd) as Hget by (unfold ClassDef.getField; by rewrite Hfd).
  exists s, (pk + Z.of_nat (length name) + 3), fd. split_and!; try done.
  - rewrite Hty. f_equal. apply Hvo.
  - unfold DefaultPortableReader.positionByField, DefaultPortableReader.positionByFieldDefinition, ClassDef.the_field. cbn [DefaultPortableReader.classDefinition DefaultPortableReader.raw DefaultPortableReader.offset r].
    rewrite Hget. cbn [mbind res_bind]. unfold INT_SIZE_IN_BYTES, here. rewrite Hi, (Z.mul_comm (Z.of_nat k) 4), (proj2 (read_int pk _ (p + 12) Hpk K1)). cbn [mbind res_bind].
    rewrite R1. cbn [mbind res_bind]. f_equal. unfold SHORT_SIZE_IN_BYTES. lia.
Qed.

(** The readers of simple values read at the position of the field. *)
Lemma default_simple t name a d : nested t = false -> DefaultPortableReader.positionByField name r here = Ok a ->
  read_default rec t name r here d = (match simple_in t (Some a) here with Ok (s, input) => Ok (RSimple s, input) | Err e => Err e end, d).
Proof.
  intros Hn Hp. destruct t; try done; unfold read_default, value, lift;
    default_methods; rewrite Hp; cbn [mbind res_bind simple_in];
    match goal with |- context [?m ≫= _] => by destruct m as [[??]|] end.
Qed.

(** A value that is there is widened. *)
Lemma morphing_simple t s name a fd d : nested t = false -> ClassDef.getField name cd = OwnField fd -> fd_type fd = FieldType_value (simple_type s) ->
  DefaultPortableReader.positionByField name r here = Ok a -> simple_in (simple_type s) (Some a) here = Ok (s, here) ->
  read_morphing toNumber rec t name r here d =
    (match widen toNumber t s with Some s => Ok (RSimple s, here) | None => Err TypeError end, d).
Proof.
  intros Hn Hget Hty Hp Hs.
  assert (match s with
    | VByte x => DefaultPortableReader.readByte name r here = Ok (x, here)
    | VBoolean x => DefaultPortableReader.readBoolean name r here = Ok (x, here)
    | VChar x => DefaultPortableReader.readChar name r here = Ok (x, here)
    | VShort x => DefaultPortableReader.readShort name r here = Ok (x, here)
    | VInt x => DefaultPortableReader.readInt name r here = Ok (x, here)
    | VLong x => DefaultPortableReader.readLong name r here = Ok (x, here)
    | VFloat x => DefaultPortableReader.readFloat name r here = Ok (x, here)
    | VDouble x => DefaultPortableReader.readDouble name r here = Ok (x, here)
    | VString x => DefaultPortableReader.readString name r here = Ok (x, here)
    | VByteArray x => DefaultPortableReader.readByteArray name r here = Ok (x, here)
    | VBooleanArray x => DefaultPortableReader.readBooleanArray name r here = Ok (x, here)
    | VCharArray x => DefaultPortableReader.readCharArray name r here = Ok (x, here)
    | VShortArray x => DefaultPortableReader.readShortArray name r here = Ok (x, here)
    | VIntArray x => DefaultPortableReader.readIntArray name r here = Ok (x, here)
    | VLongArray x => DefaultPortableReader.readLongArray name r here = Ok (x, here)
    | VFloatArray x => DefaultPortableReader.readFloatArray name r here = Ok (x, here)
    | VDoubleArray x => DefaultPortableReader.readDoubleArray name r here = Ok (x, here)
    | VStringArray x => DefaultPortableReader.readStringArray name r here = Ok (x, here)
    end) as Hread.
  { destruct s; cbn [simple_type simple_in] in Hs;
      match type of Hs with (?m ≫= _) = _ => destruct m as [[y j]|] eqn:E; [|done] end; cbn in Hs; injection Hs as <- <-;
      default_methods; rewrite Hp; exact E. }
  destruct t; try done; cbn [read_morphing];
    morphing_methods; cbv delta [lift]; cbv beta; cbn [DefaultPortableReader.classDefinition r]; rewrite Hget, Hty;
    destruct s; cbn in Hread |- *; try rewrite Hread; done.
Qed.

Lemma grows_good d d' : grows Σ V d d' -> good d -> good d'.
Proof. intros G [_ Hw]. split; [apply G | by rewrite (gr_version _ _ _ _ G)]. Qed.

Abbreviation nested_of := (expected_nested (expected toNumber factories V W)).

Lemma null_field s v name a d : field_schema_ok s -> v = WPortable None \/ v = WNullPortable (fs_factoryId s) (fs_classId s) -> value_at s v a ->
  DefaultPortableReader.positionByField name r here = Ok a -> DefaultPortableReader.readPortable rec name r here d = (Ok (None, here), d).
Proof.
  intros Hs Hv Hat Hp. pose proof (so_factory s Hs) as Hf32. pose proof (so_class s Hs) as Hc32.
  destruct (null_at s v a Hv Hat) as (K1 & K2 & K3). unfold DefaultPortableReader.readPortable. rewrite (lift_ok _ _ _ _ Hp). cbv zeta.
  change (Input.set_pos a here) with (at_ a). rewrite (lift_ok _ _ _ _ (read_boolean true a K1)), (lift_ok _ _ _ _ (proj1 (read_int _ _ 0 Hf32 K2))).
  replace (a + 1 + 4) with (a + 5) by lia. rewrite (lift_ok _ _ _ _ (proj1 (read_int _ _ 0 Hc32 K3))). done.
Qed.

Lemma object_field s q name a d : field_schema_ok s -> value_ok s (WPortable (Some q)) -> conforms Σ V q -> reads_object rec q ->
  value_at s (WPortable (Some q)) a -> DefaultPortableReader.positionByField name r here = Ok a -> good d -> exists d', grows Σ V d d' /\
  DefaultPortableReader.readPortable rec name r here d = (arrives (Some <$> expected toNumber factories V W q) (p + 12), d').
Proof.
  intros Hs [_ [Ef Ec]] Hc Hr Hat Hp Hd. pose proof (so_factory s Hs) as Hf32. pose proof (so_class s Hs) as Hc32.
  destruct (portable_at s q a Hc Hs Hat) as (K1 & K2 & K3 & K4). destruct (Hr (a + 9) d K4 Hd) as (d' & G & E). rewrite Ef, Ec in E.
  exists d'. split; [done|]. unfold DefaultPortableReader.readPortable. rewrite (lift_ok _ _ _ _ Hp). cbv zeta. change (Input.set_pos a here) with (at_ a).
  rewrite (lift_ok _ _ _ _ (read_boolean false a K1)), (lift_ok _ _ _ _ (proj1 (read_int _ _ 0 Hf32 K2))).
  replace (a + 1 + 4) with (a + 5) by lia. rewrite (lift_ok _ _ _ _ (proj1 (read_int _ _ 0 Hc32 K3))). replace (a + 5 + 4) with (a + 9) by lia.
  destruct (expected toNumber factories V W q) as [x|e].
  - by rewrite (St_bind_ok _ _ _ _ _ E).
  - by rewrite (St_bind_err _ _ _ _ _ E).
Qed.

Lemma portable_field s v name a d : field_schema_ok s -> value_ok s v -> value_type v = PORTABLE -> inside (conforms Σ V) v -> inside (reads_object rec) v ->
  value_at s v a -> DefaultPortableReader.positionByField name r here = Ok a -> good d -> exists d', grows Σ V d d' /\
  ('(x, input) ← DefaultPortableReader.readPortable rec name r here; mret (RPortable x, input)) d = (arrives (nested_of v) (p + 12), d').
Proof.
  intros Hs Hvo Ht Hc Hr Hat Hp Hd. destruct v as [x|[q|]|f' cl'|ps]; cbn [inside value_type] in *; [by destruct x | | | |done].
  - destruct (object_field s q name a d Hs Hvo Hc Hr Hat Hp Hd) as (d' & G & E). exists d'. split; [done|]. cbn [expected_nested].
    destruct (expected toNumber factories V W q) as [x|e]; [by rewrite (St_bind_ok _ _ _ _ _ E) | by rewrite (St_bind_err _ _ _ _ _ E)].
  - exists d. split; [apply context_grows_refl, Hd|]. by rewrite (St_bind_ok _ _ _ _ _ (null_field s _ name a d Hs (or_introl eq_refl) Hat Hp)).
  - destruct Hvo as [_ [-> ->]]. exists d. split; [apply context_grows_refl, Hd|].
    by rewrite (St_bind_ok _ _ _ _ _ (null_field s _ name a d Hs (or_intror eq_refl) Hat Hp)).
Qed.

Lemma elements_read f' cl' a (qs : list (Portable L)) : Forall (reads_object rec) qs -> Forall (fun q => p_factoryId q = f' /\ p_classId q = cl') qs -> forall j p0 d,
  (forall k q, qs !! k = Some q -> exists pj, in_sint 32 pj /\ holds_at i (a + 4 * Z.of_nat (j + k)) (int_bytes be pj) /\ object_at q pj) ->
  good d -> exists p' d', grows Σ V d d' /\
  DefaultPortableReader.read_elements rec a f' cl' (length qs) (Z.of_nat j) (at_ p0) d = (arrives (collect (map (expected toNumber factories V W) qs)) p', d').
Proof.
  induction qs as [|q qs IH]; intros Hr Hids j p0 d Hat Hd.
  - exists p0, d. split; [apply context_grows_refl, Hd | done].
  - apply Forall_cons in Hr as [Hr Hr'], Hids as [[<- <-] Hids]. destruct (Hat 0%nat q eq_refl) as (pj & Hpj & K1 & Hq). rewrite Nat.add_0_r in K1.
    destruct (Hr pj d Hq Hd) as (d1 & G1 & E1). cbn [length DefaultPortableReader.read_elements]. unfold INT_SIZE_IN_BYTES. rewrite (Z.mul_comm (Z.of_nat j) 4).
    rewrite (lift_ok _ _ _ _ (proj2 (read_int pj _ p0 Hpj K1))). cbv zeta. change (Input.set_pos pj (at_ p0)) with (at_ pj). cbn [map collect].
    destruct (expected toNumber factories V W q) as [x|e]; cbn [arrives] in E1.
    + rewrite (St_bind_ok _ _ _ _ _ E1).
      destruct (IH Hr' Hids (S j) (pj + blen (object_bytes be Σ V q pj)) d1) as (p' & d2 & G2 & E2); [|by eapply grows_good|].
      { intros k q' Hk. destruct (Hat (S k) q' Hk) as (pk & Hpk & K2 & Hq'). exists pk. by rewrite Nat.add_succ_comm. }
      exists p', d2. split; [by eapply context_grows_trans|]. replace (Z.of_nat j + 1) with (Z.of_nat (S j)) by lia. cbn [mbind res_bind].
      destruct (collect (map (expected toNumber factories V W) qs)) as [xs|e]; cbn [arrives] in E2.
      * rewrite (St_bind_ok _ _ _ _ _ E2). done.
      * rewrite (St_bind_err _ _ _ _ _ E2). done.
    + exists p0, d1. split; [done|]. by rewrite (St_bind_err _ _ _ _ _ E1).
Qed.

Lemma array_field s ps name a d : field_schema_ok s -> value_ok s (WPortableArray ps) -> inside (conforms Σ V) (WPortableArray ps) ->
  inside (reads_object rec) (WPortableArray ps) -> value_at s (WPortableArray ps) a -> DefaultPortableReader.positionByField name r here = Ok a -> good d ->
  exists d', grows Σ V d d' /\
  ('(x, input) ← DefaultPortableReader.readPortableArray rec name r here; mret (RPortableArray x, input)) d = (arrives (nested_of (WPortableArray ps)) (p + 12), d').
Proof.
  intros Hs Hvo Hc Hr Hat Hp Hd. pose proof (so_factory s Hs) as Hf32. pose proof (so_class s Hs) as Hc32.
  destruct (array_at s ps a Hvo Hc Hat) as (Hn & K1 & K2 & K3 & K4). unfold DefaultPortableReader.readPortableArray. cbn [i_pos here Input.set_pos].
  unfold mbind at 1, St_bind at 1. rewrite (lift_ok _ _ _ _ Hp). cbv zeta. change (Input.set_pos a here) with (at_ a).
  rewrite (lift_ok _ _ _ _ (proj1 (read_int _ _ 0 Hn K1))), (lift_ok _ _ _ _ (proj1 (read_int _ _ 0 Hf32 K2))).
  replace (a + 4 + 4) with (a + 8) by lia. rewrite (lift_ok _ _ _ _ (proj1 (read_int _ _ 0 Hc32 K3))). replace (a + 8 + 4) with (a + 12) by lia.
  destruct ps as [qs|]; cbn [Output.array_length expected_nested].
  - cbn [inside] in Hr. rewrite inside_array in Hr. destruct Hvo as [_ [_ Hids]]. unfold NULL_ARRAY_LENGTH. rewrite (proj2 (Z.eqb_neq _ _)) by lia. rewrite Nat2Z.id.
    destruct (elements_read (fs_factoryId s) (fs_classId s) (a + 12) qs Hr Hids 0 (a + 12) d K4 Hd) as (p' & d' & G & E).
    exists d'. split; [done|]. destruct (collect _) as [xs|e]; cbn [arrives mbind res_bind] in *.
    + rewrite (St_bind_ok _ _ _ _ _ E). done.
    + rewrite (St_bind_err _ _ _ _ _ E). done.
  - exists d. split; [apply context_grows_refl, Hd | done].
Qed.

(** A field that is not there, and one that is of another kind. *)
Lemma default_missing t name d : DefaultPortableReader.positionByField name r here = Err TypeError -> read_default rec t name r here d = (Err TypeError, d).
Proof.
  intros Hp. destruct t; cbn [read_default]; unfold value, lift, DefaultPortableReader.readPortable, DefaultPortableReader.readPortableArray;
    default_methods; cbv delta [lift mbind St_bind res_bind]; cbv beta; by rewrite Hp.
Qed.

Lemma morphing_missing t name d : ClassDef.getField name cd = NoField ->
  read_morphing toNumber rec t name r here d = (arrives (expected_value toNumber true t None) (p + 12), d).
Proof.
  intros Hget. assert (DefaultPortableReader.positionByField name r here = Err TypeError) as Hp.
  { unfold DefaultPortableReader.positionByField, DefaultPortableReader.positionByFieldDefinition, ClassDef.the_field. cbn. by rewrite Hget. }
  destruct t; [exact (default_missing PORTABLE name d Hp)|..]; cbn [read_morphing];
    morphing_methods; cbv delta [lift mbind St_bind res_bind]; cbv beta; cbn [DefaultPortableReader.classDefinition r]; by rewrite Hget.
Qed.

Lemma morphing_mismatch t u name fd d : ClassDef.getField name cd = OwnField fd -> fd_type fd = FieldType_value u -> t <> PORTABLE ->
  nested t = true \/ nested u = true -> t <> u -> read_morphing toNumber rec t name r here d = (Err TypeError, d).
Proof.
  intros Hget Hty Ht Hn Hne. destruct t; [done|..]; cbn [read_morphing];
    morphing_methods; cbv delta [lift mbind St_bind res_bind]; cbv beta; cbn [DefaultPortableReader.classDefinition r]; rewrite Hget, Hty; destruct u; try done; by destruct Hn.
Qed.

(** An array is validated and read. *)
Lemma morphing_array name fd d : ClassDef.getField name cd = OwnField fd -> fd_type fd = FieldType_value PORTABLE_ARRAY ->
  read_morphing toNumber rec PORTABLE_ARRAY name r here d = read_default rec PORTABLE_ARRAY name r here d.
Proof.
  intros Hget Hty. cbn [read_morphing read_default]. unfold MorphingPortableReader.readPortableArray. cbn [DefaultPortableReader.classDefinition r].
  rewrite Hget, Hty. cbn. unfold mbind, St_bind. by destruct (DefaultPortableReader.readPortableArray rec name r here d) as [[[x j]|] d'].
Qed.

Definition asks (morphing : bool) (call : js_string * FieldType) : Prop :=
  (call.1 ∉ (fs_name <$> sch) -> inherited call.1 = false) /\
  forall s, s ∈ sch -> fs_name s = call.1 -> morphing = false \/ call.2 = PORTABLE -> fs_type s = call.2.
Definition found := map (fun x => (x.1, (x.2, nested_of x.2))) fields.
Definition read_call (morphing : bool) (t : FieldType) name d :=
  (if morphing then read_morphing toNumber rec t name r here else read_default rec t name r here) d.

Lemma call_of_simple morphing name t k x d : asks morphing (name, t) -> fields !! k = Some (name, WSimple x) ->
  read_call morphing t name d = (arrives (expected_value toNumber morphing t (Some (WSimple x, nested_of (WSimple x)))) (p + 12), d).
Proof.
  intros [_ Hask] Hk. destruct (field_position k name _ Hk) as (s & a & fd & Hs & Hname & Hso & [Ht Hx] & _ & (_ & _ & Hat) & Hget & Hty & Hp).
  cbn [value_type value_bytes] in *. assert (s ∈ sch) as Hin by (by eapply list_elem_of_lookup_2).
  specialize (Hask s Hin (eq_sym Hname)). cbn [snd] in Hask.
  pose proof (proj2 (simple_codec be x Hx) here a Hbe Hat (lo_room _ _ _ _ _ _ Hloc)) as Hread.
  unfold read_call, expected_value. destruct morphing.
  - destruct (nested t) eqn:Hn; [|rewrite (morphing_simple t x name a fd d Hn Hget Hty Hp Hread); by destruct (widen toNumber t x)].
    destruct (decide (t = PORTABLE)) as [->|Hne]; [specialize (Hask (or_intror eq_refl)); rewrite Ht in Hask; by destruct x|].
    apply (morphing_mismatch t (simple_type x) name fd d Hget Hty Hne (or_introl Hn)). intros ->. by destruct x.
  - specialize (Hask (or_introl eq_refl)). rewrite Ht in Hask. subst t. rewrite (default_simple (simple_type x) name a d ltac:(by destruct x) Hp), Hread. done.
Qed.

Lemma call_of_nested morphing name t k v d : asks morphing (name, t) -> fields !! k = Some (name, v) -> (forall x, v <> WSimple x) -> good d ->
  exists d', grows Σ V d d' /\
  read_call morphing t name d = (arrives (expected_value toNumber morphing t (Some (v, nested_of v))) (p + 12), d').
Proof.
  intros [_ Hask] Hk Hv Hd. destruct (field_position k name _ Hk) as (s & a & fd & Hs & Hname & Hso & Hvo & Hc & Hat & Hget & Hty & Hp).
  assert (s ∈ sch) as Hin by (by eapply list_elem_of_lookup_2). specialize (Hask s Hin (eq_sym Hname)). cbn [snd] in Hask. rewrite (proj1 Hvo) in Hask.
  assert (inside (reads_object rec) v) as Hr by (rewrite Forall_lookup in Hrec; exact (Hrec k _ Hk)).
  assert (expected_value toNumber morphing t (Some (v, nested_of v)) = if decide (value_type v = t) then nested_of v else Err TypeError) as ->
    by (destruct v as [x| | |]; [by destruct (Hv x) | done..]).
  destruct (decide (value_type v = t)) as [<-|Hne].
  - assert (exists d', grows Σ V d d' /\ read_default rec (value_type v) name r here d = (arrives (nested_of v) (p + 12), d')) as (d' & G & E).
    { destruct v as [x|q|f' cl'|ps]; [by destruct (Hv x) | by apply (portable_field s _ name a) | by apply (portable_field s _ name a) | by apply (array_field s ps name a)]. }
    exists d'. split; [done|]. unfold read_call. destruct morphing; [|exact E].
    destruct v as [x|q|f' cl'|ps]; [by destruct (Hv x) | exact E | exact E|]. cbn [value_type]. by rewrite (morphing_array name fd d Hget Hty).
  - exists d. split; [apply context_grows_refl, Hd|]. unfold read_call. destruct morphing; [|by destruct Hne; apply Hask; left].
    apply (morphing_mismatch t (value_type v) name fd d Hget Hty); [intros ->; apply Hne, Hask; by right | right | congruence].
    destruct v as [x| | |]; [by destruct (Hv x) | done..].
Qed.

Lemma call_read morphing name t d : asks morphing (name, t) -> good d -> exists d', grows Σ V d d' /\
  read_call morphing t name d = (arrives (expected_value toNumber morphing t (find_name name found)) (p + 12), d').
Proof.
  intros Hask Hd. pose proof (find_name_spec name found) as Hf. destruct (find_name name found) as [[v nr]|].
  - destruct Hf as [k Hk]. unfold found in Hk. rewrite list_lookup_fmap in Hk. destruct (fields !! k) as [[name' v']|] eqn:Ek; [|done].
    cbn in Hk. injection Hk as -> -> <-. destruct v as [x|q|f' cl'|ps].
    + exists d. split; [apply context_grows_refl, Hd | by apply (call_of_simple morphing name t k)].
    + by apply (call_of_nested morphing name t k).
    + by apply (call_of_nested morphing name t k).
    + by apply (call_of_nested morphing name t k).
  - exists d. split; [apply context_grows_refl, Hd|]. assert (name ∉ (fs_name <$> sch)) as Hn.
    { rewrite <- (lo_names _ _ _ _ _ _ Hloc). unfold found in Hf. intros Hc. apply Hf. rewrite <- list_fmap_compose. exact Hc. }
    assert (ClassDef.getField name cd = NoField) as Hget.
    { unfold ClassDef.getField. rewrite (de_only _ _ _ _ _ Hdes name Hn). destruct Hask as [Hi _]. cbn [fst] in Hi. by rewrite (Hi Hn). }
    unfold read_call. destruct morphing; [by apply morphing_missing|]. apply default_missing.
    unfold DefaultPortableReader.positionByField, DefaultPortableReader.positionByFieldDefinition, ClassDef.the_field. cbn. by rewrite Hget.
Qed.

Lemma calls_read morphing calls : Forall (asks morphing) calls -> forall d, good d -> exists d', grows Σ V d d' /\
  readPortable toNumber rec morphing r calls here d = (arrives (expected_fields toNumber morphing found calls) (p + 12), d').
Proof.
  unfold expected_fields. induction 1 as [|[name t] calls Hask _ IH]; intros d Hd.
  - exists d. split; [apply context_grows_refl, Hd | done].
  - destruct (call_read morphing name t d Hask Hd) as (d1 & G1 & E1). cbn [readPortable map collect].
    assert ((if morphing then read_morphing toNumber rec t name r here else read_default rec t name r here) d =
      (arrives (expected_value toNumber morphing t (find_name name found)) (p + 12), d1)) as E1' by exact E1. clear E1.
    destruct (expected_value toNumber morphing t (find_name name found)) as [x|e]; cbn [arrives mbind res_bind] in *.
    + rewrite (St_bind_ok _ _ _ _ _ E1'). destruct (IH d1 (grows_good _ _ G1 Hd)) as (d2 & G2 & E2). exists d2. split; [by eapply context_grows_trans|].
      fold here. destruct (collect _) as [xs|e]; cbn [arrives] in E2 |- *.
      * by rewrite (St_bind_ok _ _ _ _ _ E2).
      * by rewrite (St_bind_err _ _ _ _ _ E2).
    + exists d1. split; [done|]. by rewrite (St_bind_err _ _ _ _ _ E1').
Qed.
End Fields.

(** ** Objects *)

(** The definition of the class, known or read from the input. *)
Lemma definition_found q sch p fuel d : (depth q <= fuel)%nat -> object_at q p -> good d -> Σ (p_factoryId q) (p_classId q) = Some sch -> schema_ok sch ->
  exists cd d', grows Σ V d d' /\ describes V cd (p_factoryId q) (p_classId q) sch /\
  (match lookupClassDefinition (p_factoryId q) (p_classId q) V d with
   | Some cd => mret (cd, at_ (p + 4))
   | None =>
       let backupPos := i_pos (at_ (p + 4)) in
       '(cd, input) ← readClassDefinitionFromInput fuel (at_ (p + 4)) (p_factoryId q) (p_classId q) V; mret (cd, Input.set_pos backupPos input)
   end) d = (Ok (cd, at_ (p + 4)), d').
Proof.
  intros Hfuel Hq Hd Es Hok. destruct (lookupClassDefinition _ _ V d) as [cd|] eqn:El.
  - destruct (co_class _ _ _ (proj1 Hd) _ _ _ El) as (sch' & Es' & ->). assert (sch' = sch) as -> by congruence.
    eexists _, d. split; [apply context_grows_refl, Hd|]. split; [by apply class_describes | done].
  - destruct (definition_read q fuel Hfuel p d Hq Hd) as (cd & p' & d' & E & G & Hdes). exists cd, d'. split; [done|]. split; [by apply Hdes|].
    cbv zeta. by rewrite (St_bind_ok _ _ _ _ _ E).
Qed.

Lemma class_version_read class d : good d -> getClassVersion (c_version class) d = (version_of W class, d).
Proof.
  intros [_ Hw]. unfold version_of, getClassVersion. destruct (c_version class) as [v|]; [by destruct (v <? 0)|]. unfold context_getVersion. by rewrite Hw.
Qed.

Lemma object_read q : forall fuel, (depth q <= fuel)%nat -> reads_object (readObject toNumber factories fuel) q.
Proof.
  induction q as [f cl v fields IH] using portable_rule. intros [|fuel] Hfuel p d Hq Hd; [cbn in Hfuel; lia|].
  destruct (object_located _ _ _ _ _ Hq) as [sch Hloc]. set (stop := p + _) in *.
  assert (Forall (fun x => inside (reads_object (readObject toNumber factories fuel)) x.2) fields) as Hrec.
  { apply depth_inside in Hfuel. rewrite Forall_forall in IH, Hfuel |- *. intros x Hx.
    refine (inside_impl _ _ _ _ (inside_and _ _ _ (IH x Hx) (Hfuel x Hx))).
    destruct (x.2) as [|[q|]| |[qs|]]; cbn; try done; [intros [Hr Hf]; by apply Hr|]. apply inside_array, Forall_true. intros q [Hr Hf]. by apply Hr. }
  destruct (lo_stop _ _ _ _ _ _ Hloc) as [S1 S2]. destruct (lo_count _ _ _ _ _ _ Hloc) as [C1 C2].
  cbn [readObject p_factoryId p_classId]. rewrite (lift_ok _ _ _ _ (proj1 (read_int _ _ 0 HV32 (lo_version _ _ _ _ _ _ Hloc)))). cbn [expected].
  destruct (createNewPortableInstance factories f cl) as [class|e] eqn:Ec; [|exists d; split; [apply context_grows_refl, Hd | done]].
  rewrite (lift_ok _ _ _ _ eq_refl), (St_bind_ok _ _ d d d) by done. cbn [mbind res_bind].
  destruct (definition_found (mkPortable f cl v fields) sch p (S fuel) d Hfuel Hq Hd (lo_schema _ _ _ _ _ _ Hloc) (lo_ok _ _ _ _ _ _ Hloc)) as (cd & d1 & G1 & Hdes & E1).
  cbn [p_factoryId p_classId] in E1, Hdes. rewrite (St_bind_ok _ _ _ _ _ E1). assert (good d1) as Hd1 by (by eapply grows_good).
  destruct (version_of W class) as [cv|e] eqn:Ev; [|exists d1; split; [done|]; by rewrite (St_bind_err _ _ d1 d1 e) by (rewrite (class_version_read class d1 Hd1), Ev; done)].
  rewrite (St_bind_ok _ _ d1 d1 cv) by (rewrite (class_version_read class d1 Hd1), Ev; done). cbn [mbind res_bind].
  assert (length fields = length sch) as Hlen by (exact (Forall2_length _ _ _ (lo_values _ _ _ _ _ _ Hloc))).
  assert (DefaultPortableReader.new cd (at_ (p + 4)) = Ok (DefaultPortableReader.mk cd (p + 12) stop false, at_ (p + 12))) as Enew.
  { unfold DefaultPortableReader.new. rewrite (proj1 (read_int _ _ 0 S1 S2)). cbn [mbind res_bind]. replace (p + 4 + 4) with (p + 8) by lia.
    rewrite (proj1 (read_int _ _ 0 C1 C2)). cbn [mbind res_bind]. rewrite (de_count _ _ _ _ _ Hdes), Hlen, Z.eqb_refl. cbn [negb].
    replace (p + 8 + 4) with (p + 12) by lia. done. }
  rewrite (lift_ok _ _ _ _ Enew). rewrite (de_version _ _ _ _ _ Hdes).
  pose proof (Hclasses f cl sch class cv (lo_schema _ _ _ _ _ _ Hloc) Ec Ev) as Hcls.
  destruct (calls_read (readObject toNumber factories fuel) f cl fields sch p stop Hloc Hrec cd stop Hdes (negb (V =? cv)) (c_reads class)) with (d := d1) as (d2 & G2 & E2);
    [|done|].
  { unfold class_ok in Hcls. rewrite Forall_forall in Hcls |- *. intros [name t] Hin. destruct (Hcls _ Hin) as [H1' H2']. split; [done|].
    intros s Hs Hn Hor. apply (H2' s Hs Hn). destruct Hor as [Hm|Hm]; [left|by right]. destruct (V =? cv) eqn:Ecv; [|done]. by apply Z.eqb_eq in Ecv. }
  exists d2. split; [by eapply context_grows_trans|]. fold (found fields). destruct (expected_fields _ _ _ _) as [xs|e]; cbn [arrives mbind res_bind] in *.
  - by rewrite (St_bind_ok _ _ _ _ _ E2).
  - by rewrite (St_bind_err _ _ _ _ _ E2).
Qed.
End Reading.

(** ** The same version *)

Lemma collect_ok {A B} (g : A -> res B) (h : A -> B) l : Forall (fun x => g x = Ok (h x)) l -> collect (map g l) = Ok (map h l).
Proof. induction 1 as [|x l Hx _ IH]; [done|]. cbn. rewrite Hx. cbn. by rewrite IH. Qed.

Lemma find_name_nodup {A} name (a : A) l k : NoDup l.*1 -> l !! k = Some (name, a) -> find_name name l = Some a.
Proof.
  intros Hnd Hk. pose proof (find_name_spec name l) as Hf. destruct (find_name name l) as [b|].
  - destruct Hf as [j Hj]. assert (j = k) as ->; [|congruence].
    apply (NoDup_lookup l.*1 j k name Hnd); rewrite list_lookup_fmap; by rewrite ?Hj, ?Hk.
  - destruct Hf. apply list_elem_of_fmap. exists (name, a). split; [done|]. by eapply list_elem_of_lookup_2.
Qed.

Section Same.
Context {L : Type} `{LongLib L} (toNumber : L -> js_number) (factories : gmap Z (Z -> option PortableClass)) (Σ : Schemas) (V W : Z).

(** The classes of the client that reads are those of the schemas: they are of the version of the data, and read every field. *)
Definition same_classes : Prop := forall f cl sch, Σ f cl = Some sch -> exists class,
  createNewPortableInstance factories f cl = Ok class /\ version_of W class = Ok V /\ c_reads class = map (fun s => (fs_name s, fs_type s)) sch.

(** The object, as an object of the class that reads it. *)
Definition same_value (same_object : Portable L -> ReadObject L) (v : Value L) : ReadValue L :=
  match v with
  | WSimple s => RSimple s
  | WPortable (Some q) => RPortable (Some (same_object q))
  | WPortable None | WNullPortable _ _ => RPortable None
  | WPortableArray (Some qs) => RPortableArray (Some (map same_object qs))
  | WPortableArray None => RPortableArray None
  end.
Fixpoint same_object (p : Portable L) : ReadObject L :=
  match p with
  | mkPortable f cl _ fields =>
      mkRead (match createNewPortableInstance factories f cl with Ok class => class | Err _ => mkPortableClass None [] end)
        (map (fun x => (x.1, same_value same_object x.2)) fields)
  end.

Lemma calls_of_fields (fields : list (js_string * Value L)) sch : fields.*1 = fs_name <$> sch -> Forall2 (fun x s => value_ok s x.2) fields sch ->
  map (fun s => (fs_name s, fs_type s)) sch = map (fun x => (x.1, value_type x.2)) fields.
Proof.
  revert sch. induction fields as [|[name v] fields IH]; intros sch Hn Hf.
  - by apply Forall2_nil_inv_l in Hf as ->.
  - apply Forall2_cons_inv_l in Hf as (s & sch' & [Ht _] & Hf & ->). cbn in Hn. injection Hn as -> Hn. cbn. rewrite Ht. f_equal. by apply IH.
Qed.

Lemma expected_same p : same_classes -> conforms Σ V p -> expected toNumber factories V W p = Ok (same_object p).
Proof.
  intros Hcl. induction p as [f cl v fields IH] using portable_rule. intros Hc.
  destruct (conforms_class Σ V _ Hc) as (_ & sch & Es & [Hnd Hs] & Hn & Hf & Hi). cbn [p_factoryId p_classId p_fields] in *.
  destruct (Hcl f cl sch Es) as (class & Ec & Ev & Er). cbn [expected same_object]. rewrite Ec, res_bind_ok, Ev, res_bind_ok, Z.eqb_refl, Er. cbn [negb].
  rewrite (calls_of_fields fields sch Hn Hf). unfold expected_fields. rewrite map_map.
  set (found := map (fun x => (x.1, (x.2, expected_nested (expected toNumber factories V W) x.2))) fields).
  assert (found.*1 = fields.*1) as En by (unfold found; by rewrite <- list_fmap_compose).
  rewrite (collect_ok _ (fun x => (x.1, same_value same_object x.2))); [done|].
  apply Forall_lookup. intros k [name x] Hk. cbn [fst snd].
  rewrite (find_name_nodup name (x, expected_nested (expected toNumber factories V W) x) found k); cycle 1.
  { by rewrite En, Hn. }
  { unfold found. rewrite list_lookup_fmap, Hk. done. }
  rewrite Forall_lookup in IH, Hi. specialize (IH k _ Hk). specialize (Hi k _ Hk). cbn [snd] in IH, Hi.
  destruct x as [x|[q|]|f' cl'|[qs|]]; cbn in IH, Hi |- *; try done.
  - by rewrite IH.
  - rewrite inside_array in IH, Hi. rewrite (collect_ok _ same_object); [done|]. rewrite Forall_forall in IH, Hi |- *. auto.
Qed.
End Same.

(** ** The theorems *)

(** C23: what [PortableSerializer.write] writes of an object of the client's version, with names in ASCII, in a context where its
    definitions are known or can be made, is the layout of the object: the ids, and then at each level the version, the end, the number of
    the fields and the table of their positions, although the writer fills the end and the tables in afterwards. The definitions it
    makes and registers are those of the schemas, and it never changes a definition that is registered. *)
Theorem portable_layout_written `{Uninit} `{Prototype} {L} `{LongLaws L} (be : bool) (Σ : Schemas) (V : Z) (object : Portable L) c o :
  0 <= V -> in_sint 32 V -> context_ok Σ V c -> pc_version c = V -> conforms Σ V object -> ready V c object ->
  in_sint 32 (p_factoryId object) -> in_sint 32 (p_classId object) -> out_wf o -> o_bigEndian o = be ->
  o_pos o + 8 + blen (object_bytes be Σ V object (o_pos o + 8)) < 2 ^ 31 ->
  exists o' c', write object o c = (Ok o', c') /\ out_wf o' /\
    out_bytes o' = out_bytes o ++ int_bytes be (p_factoryId object) ++ int_bytes be (p_classId object) ++ object_bytes be Σ V object (o_pos o + 8) /\
    grows Σ V c c'.
Proof.
  intros HV HV32 Hok Hv Hc Hr Hf Hcl Hwf Hbe Hfit. destruct (int_appends be _ Hf o Hwf Hbe) as (o1 & E1 & W1 & B1 & O1).
  destruct (int_appends be _ Hcl o1 W1 B1) as (o2 & E2 & W2 & B2 & O2).
  assert (o_pos o2 = o_pos o + 8) as P2 by (rewrite <- (out_pos o2 W2), O2, O1, !length_app, !length_int; pose proof (out_pos o Hwf); lia).
  destruct (object_emits be Σ V HV HV32 object c (o_pos o + 8) Hok Hv Hc Hr ltac:(unfold out_wf in Hwf; lia) Hfit o2 W2 B2 P2) as (o3 & c3 & E3 & W3 & B3 & O3 & G3).
  exists o3, c3. unfold write. rewrite (lift_ok _ _ _ _ E1), (lift_ok _ _ _ _ E2). split_and!; try done. rewrite O3, O2, O1. by rewrite <- !app_assoc.
Qed.

(** C22: what was written is read back. An object of version [V] is read from its layout by a client of any version [W]: the answer to every call of
    its classes is [expected], and the input ends up behind the object. If the classes are of the version of
    the data and read all fields, the object is the one that was written; for a class of another version, narrower numbers are
    widened, other types are a [TypeError], and a field that is missing is [undefined], except that a missing portable is a [TypeError].
    The conditions: the object and all objects inside are of the one version [V] and have the fields of their schemas, whose names
    are in ASCII ([wide_name_misread]); bytes are unsigned; a class asks for the fields of its own version by their types, and for portables by
    their type in any version; the names of missing fields are not those of inherited properties; all fits below 2^31; and the definitions of version [V]
    that the context of the client already has are those that reading such an object registers. That excludes a client that has itself
    written an object of a class with a version of its own: it cannot read ([versioned_definition_conflict]). A client whose context has no
    definitions of version [V] is always allowed. *)
Theorem portable_read_back `{Uninit} `{Prototype} {L} `{LongLaws L} (toNumber : L -> js_number) (factories : gmap Z (Z -> option PortableClass))
    (Σ : Schemas) (V W : Z) (object : Portable L) (i : ObjectDataInput) d (fuel : nat) :
  in_sint 32 V -> context_ok Σ V d -> pc_version d = W -> conforms Σ V object -> (depth object <= fuel)%nat ->
  in_sint 32 (p_factoryId object) -> in_sint 32 (p_classId object) ->
  (forall f cl sch class v, Σ f cl = Some sch -> createNewPortableInstance factories f cl = Ok class -> version_of W class = Ok v -> class_ok V sch class v) ->
  let bytes := object_bytes (i_bigEndian i) Σ V object (i_pos i + 8) in
  0 <= i_pos i -> i_pos i + 8 + blen bytes < 2 ^ 31 ->
  holds_at i (i_pos i) (int_bytes (i_bigEndian i) (p_factoryId object) ++ int_bytes (i_bigEndian i) (p_classId object) ++ bytes) ->
  (exists d', grows Σ V d d' /\ read toNumber factories fuel i d =
     (match expected toNumber factories V W object with
      | Ok r => Ok (r, Input.set_pos (i_pos i + 8 + blen bytes) i)
      | Err e => Err e
      end, d')) /\
  (same_classes factories Σ V W -> expected toNumber factories V W object = Ok (same_object factories object)).
Proof.
  intros HV32 Hok Hw Hc Hfuel Hf Hcl Hclasses bytes Hp Hfit Hh. split; [|intros Hs; by apply (expected_same toNumber factories Σ)].
  rewrite !holds_app, !length_int in Hh. destruct Hh as (K1 & K2 & K3). replace (i_pos i + Z.of_nat 4 + Z.of_nat 4) with (i_pos i + 8) in K3 by lia.
  destruct (object_read toNumber factories (i_bigEndian i) Σ V W HV32 Hclasses i eq_refl object fuel Hfuel (i_pos i + 8) d) as (d' & G & E).
  { split_and!; try done. lia. }
  { done. }
  exists d'. split; [done|]. unfold read. rewrite (lift_ok _ _ _ _ (proj2 (int_reads (i_bigEndian i) _ i Hf eq_refl) K1)).
  rewrite (lift_ok _ _ _ _ (proj2 (int_reads (i_bigEndian i) _ (Input.set_pos (i_pos i + 4) i) Hcl eq_refl) K2)). cbn [i_pos Input.set_pos].
  replace (i_pos i + 4 + 4) with (i_pos i + 8) by lia. exact E.
Qed.

(** ** Behaviour to know *)

Lemma new_context_ok Σ V W : context_ok Σ V (mkContext W ∅).
Proof.
  split; [intros f fac; cbn; by rewrite lookup_empty|]. intros f cl cd. unfold lookupClassDefinition. cbn. by rewrite lookup_empty.
Qed.

Section Demo.
#[local] Instance demo_uninit : Uninit := fun _ => Byte.x2a.
#[local] Instance demo_prototype : Prototype := fun _ => false.

Definition demo_inner (version : option Z) : Portable Int64.t := mkPortable 1 2 version [([97], WSimple (VInt 7))].
Definition demo_outer (version : option Z) : Portable Int64.t := mkPortable 1 1 version [([98], WSimple (VShort 3)); ([120], WPortable (Some (demo_inner version)))].
Definition demo_schemas : Schemas := fun f cl =>
  if negb (f =? 1) then None
  else if cl =? 1 then Some [mkSchema [98] SHORT 0 0; mkSchema [120] PORTABLE 1 2]
  else if cl =? 2 then Some [mkSchema [97] INT 0 0] else None.
Definition demo_factories (version : option Z) : gmap Z (Z -> option PortableClass) := {[ 1 := fun cl =>
  Some (mkPortableClass version (if cl =? 1 then [([98], SHORT); ([120], PORTABLE)] else [([97], INT)])) ]}.
Definition demo_context : PortableContext := mkContext 0 ∅.
Definition demo_number (x : Int64.t) : js_number := num_of_Z 0.
Definition written (r : res ObjectDataOutput * PortableContext) : ObjectDataInput :=
  Input.new (match r.1 with Ok o => Output.toBuffer o | Err _ => [] end) 0 true.

(** The header of a field has the number of UTF-16 code units of the name and the name in UTF-8: behind a name with a
    character that is not in ASCII the reader takes the value from the wrong place (7 is read as 83886080). *)
Lemma wide_name_misread :
  let object : Portable Int64.t := mkPortable 1 2 None [([233], WSimple (VInt 7))] in
  let r := write object (Output.new true) demo_context in
  fmap fst (read demo_number {[ 1 := fun _ => Some (mkPortableClass None [([233], INT)]) ]} 2 (written r) r.2).1 =
  Ok (mkRead (mkPortableClass None [([233], INT)]) [([233], RSimple (VInt 83886080))]).
Proof. vm_compute. reflexivity. Qed.

(** A definition that is made from an object gives its fields the version of the class, one that is read from the input
    gives them the version of the client. A client that has written an object of a class with a version of its own cannot read
    an object with such an object inside; a client that has not can. *)
Lemma versioned_definition_conflict :
  let inside := (write (demo_inner (Some 1)) (Output.new true) demo_context).2 in
  let input := written (write (demo_outer (Some 1)) (Output.new true) demo_context) in
  (read demo_number (demo_factories (Some 1)) 3 input inside).1 = Err HazelcastError /\
  fmap fst (read demo_number (demo_factories (Some 1)) 3 input demo_context).1 = Ok (same_object (demo_factories (Some 1)) (demo_outer (Some 1))).
Proof. vm_compute. split; reflexivity. Qed.

(** The reader of another version does not override [readPortable]: a portable that is not there is a [TypeError], all other fields are
    [undefined]. *)
Lemma missing_portable_throws {L} `{LongLib L} (toNumber : L -> js_number) (t : FieldType) :
  expected_value toNumber true t None = if decide (t = PORTABLE) then Err TypeError else Ok RUndefined.
Proof. by destruct t. Qed.

Lemma demo_conforms : conforms demo_schemas 0 (demo_outer None).
Proof.
  assert (forall s, s ∈ [mkSchema [98] SHORT 0 0; mkSchema [120] PORTABLE 1 2; mkSchema [97] INT 0 0] -> field_schema_ok s) as Hs.
  { intros s. rewrite !elem_of_cons, elem_of_nil. intros [->|[->|[->|[]]]]; split; cbn; try done; split; cbn; try done; repeat constructor; done. }
  assert (schema_ok [mkSchema [97] INT 0 0]) as H2 by (split; [apply (bool_decide_unpack _); vm_compute; exact I | repeat apply Forall_cons_2; try apply Forall_nil_2; apply Hs; set_solver]).
  assert (schema_ok [mkSchema [98] SHORT 0 0; mkSchema [120] PORTABLE 1 2]) as H1
    by (split; [apply (bool_decide_unpack _); vm_compute; exact I | repeat apply Forall_cons_2; try apply Forall_nil_2; apply Hs; set_solver]).
  cbn [conforms demo_outer demo_inner foldr inside snd]. split; [by left|]. split.
  - eexists. split; [reflexivity|]. split; [done|]. split; [done|]. repeat constructor; cbn; done.
  - split; [done|]. split; [|done]. split; [by left|]. split; [|done]. eexists. split; [reflexivity|]. split; [done|]. split; [done|]. repeat constructor; cbn; done.
Qed.

Lemma demo_ready : ready 0 demo_context (demo_outer None).
Proof. cbn. split; [right; done|]. split; [done|]. split; [|done]. split; [right; done | done]. Qed.

Lemma portable_layout_written_witness : exists o' c', write (demo_outer None) (Output.new true) demo_context = (Ok o', c') /\
  out_bytes o' = int_bytes true 1 ++ int_bytes true 1 ++ object_bytes true demo_schemas 0 (demo_outer None) 8.
Proof.
  destruct (portable_layout_written true demo_schemas 0 (demo_outer None) demo_context (Output.new true)) as (o' & c' & E & _ & O & _);
    [lia | done | apply new_context_ok | reflexivity | apply demo_conforms | apply demo_ready | done | done | apply new_output_wf | reflexivity | vm_compute; reflexivity |].
  exists o', c'. split; [exact E | exact O].
Defined.

Lemma portable_read_back_witness : exists d', read demo_number (demo_factories None) 2 (written (write (demo_outer None) (Output.new true) demo_context)) demo_context =
  (Ok (same_object (demo_factories None) (demo_outer None), Input.set_pos 79 (written (write (demo_outer None) (Output.new true) demo_context))), d').
Proof.
  destruct (portable_read_back demo_number (demo_factories None) demo_schemas 0 0 (demo_outer None)
    (written (write (demo_outer None) (Output.new true) demo_context)) demo_context 2) as ((d' & _ & E) & Hs);
    [done | apply new_context_ok | reflexivity | apply demo_conforms | vm_compute; lia | done | done | | vm_compute; discriminate | vm_compute; reflexivity | vm_compute; split; reflexivity |].
  - intros f cl sch class v Es Ec Ev. unfold demo_schemas in Es. destruct (f =? 1) eqn:Ef; [|done]. apply Z.eqb_eq in Ef as ->. cbn [negb] in Es.
    unfold createNewPortableInstance, demo_factories in Ec. rewrite lookup_singleton_eq in Ec. injection Ec as <-. cbn in Ev. injection Ev as <-.
    destruct (cl =? 1); [|destruct (cl =? 2); [|done]]; injection Es as <-; repeat constructor; try done; set_solver.
  - exists d'. rewrite E. rewrite Hs; [vm_compute; reflexivity|]. intros f cl sch Es. unfold demo_schemas in Es. destruct (f =? 1) eqn:Ef; [|done]. apply Z.eqb_eq in Ef as ->. cbn [negb] in Es.
    eexists. unfold createNewPortableInstance, demo_factories. rewrite lookup_singleton_eq. split; [reflexivity|]. split; [reflexivity|].
    destruct (cl =? 1); [|destruct (cl =? 2); [|done]]; by injection Es as <-.
Defined.
End Demo.
